(* ===== verification/_CoqProject ===== *)
-Q . S2P
Prelude.v
LiskMath.v
CText.v
Outcome.v
Sds.v
SdsSpec.v
SdsEdit.v
SdsText.v
SdsRun.v
LiskRing.v
RingThreads.v
LiskDeque.v
LiskVector.v
LiskHash.v
LiskHashtable.v
Bloom.v
LiskFsm.v
LiskList.v
AssocMap.v
LiskMap.v
RbTree.v
LiskMapRep.v
LiskMapOps.v
LiskMapSpec.v
LiskSkiplist.v
LiskSkiplistSpec.v
LiskMulHash.v
LiskMulHashSpec.v
LiskMemPool.v
LiskMemPoolSpec.v
LiskTimer.v
LiskTimerRep.v
LiskTimerSpec.v
LiskTimerRun.v
LiskString.v
LiskStringRep.v
LiskStringSearch.v
LiskStringEdit.v
LiskStringBuild.v
LiskStringObj.v
LiskClock.v
LiskNetwork.v
LiskNetworkSpec.v
RedisConf.v
RedisConfSpec.v
RedisConfRead.v
AofReplay.v
AofReplaySpec.v
Dict.v
DictSpec.v
DictMap.v
DictScan.v
ConfDict.v
Coroutine.v
CoroutineSpec.v
CoroutineRun.v
Migrate.v
MigrateSpec.v
MigrateRun.v
