(* ===== verification/Prelude.v ===== *)
(** * A verification of the data structures of c-practice

    The repository is a collection of C practice code.  Most of its files are
    copies of other people's programs (redis, protobuf, jemalloc, cstl, lua)
    and are not modelled.  What its author wrote as a library is [lisk], under
    src/data_structure-algorithm/win_lisk, with two companions beside it, the
    state machine of src/data_structure-algorithm/fsm and the Bloom filter of
    src/data_structure-algorithm/bloom/c.  Beside the copies of redis there is
    code of the author too: src/redis/redis-proxy has a reader of configuration
    files, src/conf.c, over the dictionary src/dict.c and the strings src/sds.c
    of redis, and src/redis/linux/redis-tool has a program that replays
    append-only files, src/redis-replay-aof.c, and one that copies databases,
    src/redis-migrate.c.  src/sys/coroutine/yun_feng is a scheduler of
    coroutines.  This development models that code function by function and
    proves what each part promises.

    ** How the parts fit together

    The containers are independent of one another but for a few calls: the
    timer wheel is made of five lists of lisk_list.c and a ring of lisk_ring.c
    with the nodes to use again, the
    hash table hashes its keys with [bkdr64] of lisk_hash.c and rounds its
    sizes with [next_prime] of lisk_math.c, the hash table of rows hashes with
    [bkdr64] too and sizes its rows with [get_prime_arr] of lisk_math.c, and the
    vector and the ring use the memory macros of lisk_public.c, a connection
    keeps its bytes in two vectors, and the string object
    reverses and trims with the routines for C strings.  The files below have the same shape:

    - Prelude (this file): machine integers with their wrap-around, checked
      reads and writes of byte buffers, [malloc] as a parameter, a heap of
      blocks, [qsort] and [bsearch], the interface [FifoQueue], automation.
    - LiskMath (lisk_math.c): primes, powers of two, integer powers, swaps of
      memory, byte order.
    - LiskRing (lisk_ring.c): the four kinds of ring buffer, run by one
      thread; an instance of [FifoQueue].
    - RingThreads (lisk_ring.c): the same pushes and pops one memory access at
      a time, interleaved between threads.
    - LiskDeque (lisk_deque.c): a double-ended queue of blocks and a map.
    - LiskVector (lisk_vector.c): a growable array.
    - LiskHash (lisk_hash.c): string hashes and cyclic redundancy checks.
    - LiskHashtable (lisk_hashtable.c): a chained hash table that expands
      step by step, moving the buckets it meets.
    - Bloom (bloom.c): a Bloom filter, its hashes and its serialized image.
    - LiskFsm (lisk_fsm.c, lisk_fsm.h, fsm_test.c): a table-driven state
      machine and the watch of its example.
    - LiskList (lisk_list.c): a circular doubly linked list over a memory of
      nodes.
    - AssocMap (lisk_type.h): keys and values as blocks of bytes, the class
      [KeyOrder] of comparisons, sorted association lists.
    - LiskMap (lisk_map.c): an ordered map in a red-black tree of nodes with
      parent words; RbTree: red-black trees as values, with contexts;
      LiskMapRep: such a tree in memory, rotations and the two rebalancing
      loops; LiskMapOps: taking nodes out and putting them in, searching,
      walking and freeing; LiskMapSpec: the map as a sorted association list.
    - LiskSkiplist (lisk_skiplist.c): a skip list over a memory of nodes, and
      how linking and unlinking change its levels; LiskSkiplistSpec: the skip
      list as an association list in decreasing order, and what updating does.
    - LiskMulHash (lisk_mul_hash.c): a hash table of rows in one block of bytes;
      LiskMulHashSpec: the table as a list of entries.
    - LiskMemPool (lisk_mem_pool.c): blocks of words cut into chunks with headers,
      and the pool of them; LiskMemPoolSpec: allocation and release as
      operations on the list of chunks.
    - LiskTimer (lisk_timer.c): the timer wheel; LiskTimerRep: its lists, nodes
      and free nodes as parts of one memory; LiskTimerSpec: levels, hands,
      cascade and the loop on the lists of timers; LiskTimerRun: a client and
      its account, init and uninit.
    - LiskString (lisk_string.c): a memory of blocks and C strings in it, and every
      routine for them; LiskStringRep: strings and buffers in memory; LiskStringSearch:
      [bh_search], [_strstr] with its static variables, [_strstr_r];
      LiskStringEdit: trims and reversal in place; LiskStringBuild: [_insert],
      [_merge], [_replace], [_delete], [_replace_str], numbers; LiskStringObj: the
      counted string object.
    - LiskClock (lisk_clock.c): the time of day and the stop watch, for any width of [long].
    - LiskNetwork (lisk_network.c, lisk_sock.c): connections with a vector to receive in
      and one to send from, and the handlers of their events, over the system calls,
      the class [Os]; LiskNetworkSpec: the laws [OsLaws] of the calls and [Client] of the
      callbacks, streams cut into packages, receiving and sending.
    - Outcome: the results of runs of the tools of redis-tool: a value, a failed assertion, what is
      undefined, out of fuel.
    - CText: C strings, characters and numerals, for the programs beside redis and the Bloom filter.
    - Sds (sds.c, sds.h of redis-proxy): the strings of redis, blocks with a length and a count of free
      bytes; SdsSpec: strings that hold bytes, making, growing and appending, numbers and formats;
      SdsEdit: trims, ranges, letters and comparison; SdsText: quoting, arguments on a line,
      splitting and joining; SdsRun: sequences of calls and programs.
    - Dict (dict.c, dict.h of redis-proxy): the dictionary of redis, two tables of chains
      between which entries move bucket by bucket, over the class [DictType] of the functions a
      client gives it; DictSpec: the laws [DictLaws] of these, the invariant of a dictionary and
      what each operation keeps; DictMap: sequences of calls against a finite map; DictScan: the
      scan whose cursor counts with reversed bits.
    - RedisConf (conf.c of redis-proxy, with what it uses of sds.c as characters and free bytes): configuration
      files over any dictionary, the class [Dictionary]; RedisConfSpec: documents, their text and
      the reading of lines; RedisConfRead: the whole file, and the getters, over a finite map;
      ConfDict: the laws [DictionaryLaws], met by dict.c, under which any dictionary does what the
      map does.
    - AofReplay (redis-replay-aof.c of redis-tool): reading commands from a file that
      another process still writes, checking them, and sending them in batches over a
      connection, the class [Redis]; AofReplaySpec: the text of commands, what is
      sent for each, and the laws [RedisLaws] of a connection.
    - Migrate (tool.c, redis-migrate.c of redis-tool): copying a database to another server, over what
      [redisCommand] makes of servers, the class [Server]; MigrateSpec: the laws [ServerLaws] of the
      commands, and what copying each type of value does; MigrateRun: whole databases, and a server
      with the laws.
    - Coroutine (coroutine.c, main.c): coroutines that run on one stack, whose frames are copied
      out when they yield and in when they are resumed; what programs do is an interaction tree over
      the calls of the scheduler.  CoroutineSpec: the invariant of a schedule and its blocks, the
      scheduler without stacks, and what each function keeps; CoroutineRun: runs, refinement, the
      loop that resumes a coroutine until it is dead, main.c.

    ** How the code is translated

    A C function is a Gallina function of the same name.  An integer is a [Z],
    reduced modulo its width wherever the code's arithmetic wraps ([u4], [u8]);
    signed overflow is [None].  A pointer that may be nil is an [option], or an
    integer where the code does arithmetic on it (LiskList, LiskMap, LiskSkiplist; an [uw] is taken to
    hold a pointer, as the code does), or an address of
    the heap of blocks (LiskDeque).  An access the C program
    would make outside a block, through nil, or to freed memory is [None], so a
    theorem that a run is [Some] says that no such access happens.  A mutated
    structure is passed as an argument and returned.  [malloc] and [realloc] are
    arguments, with what they promise stated as hypotheses ([malloc_ok],
    [realloc_ok], [alloc_ok]) and met by the functions the witnesses use.  An
    allocator may fail, and in a run of calls on a deque, list, vector, string
    object, map, skip list or connection each call has an allocator of its own,
    so that any call may fail, whatever the sizes; the timer wheel and the
    coroutines have allocators that look at what is allocated.  Where a theorem
    supposes that an allocation succeeds it says so: [malloc] never fails in the
    refinement of the chained hash table, for the Bloom filter, for replaying and
    for the example of the coroutines; the blocks of sds.c and dict.c are those
    of [zmalloc] and [zrealloc], whose default handler ends the program when
    there is no memory ([realloc_serves]).  Comparison functions, handlers and judges that
    callers supply are arguments too, and so are the numbers [rand] returns, the
    time [lisk_time_get] reads and the callbacks of timers, which are given the
    memory and the timer and give both back.

    A loop is structural on its data, on the number of its rounds, or on fuel.
    Fuel is chosen as a bound the theorems prove sufficient: the square root of
    the number for [is_num_prime]; the distance to the next prime for
    [next_prime]; the length of the array for searches and
    reversals; the number of list elements for walks; twice the
    logarithm of the size of the map for every loop of LiskMap; the number of
    entries for the skip list, whatever their levels below 31; the words of a block for
    the walk over its chunks; the length of the text for the searches and replacements in
    strings; 63 doublings for a size of the dictionary of redis, the size of the larger table for
    the buckets a scan visits, seven halvings to reverse 64 bits; twenty digits for 64 bits, the length of
    its block for a loop over a string of sds.c, and for the buffer of a format as many doublings as its
    text has binary digits; the length of the file, which is at most 2^31 - 1 as the [int]s of conf.c
    suppose, for its lines; one round for each command of an append-only file and one for its end (a
    read that waits past the end of the file is out of fuel, [Unfinished], and
    what the language leaves undefined is [Undefined]); for the scans of a
    database that is copied, any number from some number on; the number of timers for the loops of the wheel,
    whose theorems hold for every fuel from some number on, and so does that of main.c of the coroutines,
    while a schedule is run for a number of steps that is any; for [fsm_run], whose
    length the tables decide, the theorems hold for every fuel.

    ** What is proved

    - Refinement: for the deque, the ring, the vector, the string object, the chained hash
      table, the list, the map and the skip list, any sequence of operations from a successful
      initialisation returns what a plain list, queue, finite map or sorted
      association list returns, through every reallocation, expansion and
      rebalancing, and (deque, list, map, skip list) release leaves no block behind.  A call whose
      allocation fails leaves the structure as it was, but for the vector and the string
      object, which lose their bytes with the block that cannot grow: there the run is the one of
      the list up to that call, and the code has -2.  A deque is run up to the first position
      past its end that is asked of it, and a skip list for levels below 31: erasing a node of
      level 31 reads past the array of predecessors.
      The hash table of rows does to its entries what a list does, through every
      collision, duplicate and refusal.
    - The memory pool: allocation takes the best fit and release joins free
      neighbours, on any block whose chunks lead to one another; what is taken from a
      larger chunk and given back leaves the block as it was.
    - The timer wheel is on time: every call of its loop runs the timers whose
      deadline has passed and no other, in the order of the deadlines, whatever
      lists they wait in; it agrees with the account its client keeps from init
      to uninit, which gives back all memory.  The heart of it is an invariant
      between the hands of the clock and the levels: a timer of a farther list is
      not due before the hand of its level moves.
    - Strings: the search with skips returns the first occurrence; the repeated search
      walks over the occurrences and then stops or starts again, as its static
      variables say; what is built in a buffer is the text meant, inside the buffer, with
      the cases in which a merge or a replacement is not; trims and reversal stay
      in place; the string object is a list of bytes under any sequence of calls.
    - Connections: the client is given the packages of the stream whatever the reads that
      bring it, and what it sends comes onto the wire in order, once, up to the first error of a
      call, the end of the connection or the first vector that cannot grow, which are what stops it; a
      package refused or too large leaves those before it in the buffer, and the handler for a socket
      that is ready reads through nil.
    - Configuration files: the text of a document is read to the bindings it stands
      for, through comments, continued lines, buffers, sections and arrays, in the dictionary of
      dict.c, and the getters answer with them, whatever they were asked before.  That is for a
      [realloc] that moves no string the code extends; for any other either the result is the same,
      or the code goes on with freed memory.
    - The strings of sds.c hold what any sequence of calls makes of their bytes, for lengths an [int] holds;
      quoted arguments come back from their line, whatever their bytes, and a line with an open quote gives
      all it took back; tokens are the parts between separators.
    - The dictionary of redis is a finite map through every rehashing, resizing and
      expansion, at any number of steps, and releasing it frees each key and value once.  A scan
      that is over returned every key that was there all the time, while the tables grow; alone it
      is over after a round per bucket and returns each entry once; when a table shrinks it may
      miss one.
    - Copying a database: between any two servers with the documented behaviour, whose cursors stay
      below 2^63, every value but a list arrives as it is, a list of fewer than ten elements once for
      each time its key is listed; a longer list is copied for ever.
    - Coroutines: whatever the coroutines and the main program do, the scheduler with one stack
      behaves as one that keeps every coroutine as a program, so what a coroutine finds on the stack is
      what it left there; its invariant holds even when memory runs out; the example prints what it
      should and gives all memory back.
    - Append-only files: what is sent is what the commands call for that the file has when its end is
      first met, in order, and nothing is left of them after as many rounds as there are commands;
      what is appended later is never sent, since the end-of-file indicator of stdio is never cleared; a
      check ends at the end of the file; after one command, bytes that are no command are met by a
      double free.
    - Invariant: every call of the map keeps a red-black tree in key order; the
      iterators visit it in order.
    - Concurrency: every interleaving of one producer and one consumer of the
      ring delivers the elements in order and intact, and each operation is
      wait-free; a schedule of two producers shows that the multi-producer push
      can overfill the ring.
    - The clock answers the time as long as a [long] holds it.
    - Numbers: primality, next prime, next power of two and integer power are
      what their names say, with the ranges where they are; the test of a prime from
      3037000499 squared on overflows.
    - Hashes: bkdr is a polynomial modulo a power of two; the table-driven
      checksums are the bit-by-bit ones and detect a changed byte.
    - The Bloom filter answers exactly from the bits its strings set, never
      forgets a string, and its image restores it; its CRC is the one's complement checksum.
    - The state machine on sorted tables does what the declared tables say, when these declare no
      state and no event of a state twice; the
      example watch always returns; a refused transition never does.
    - Errors: the theorems on updates of the skip list, on the sixteenth of a
      block that a pool can give and on its stale links, on failed reallocation,
      wrapping positions, short images and doubled insertions state where the
      code departs from what it means to do.  The codes and sizes proved are those of the
      code; where a header announces others the theorem says so.

    ** What is not modelled

    The sockets of lisk_sock.c but for reading and writing, the loop over epoll and the
    making of events of lisk_network.c (event_init does not compile as it stands), shared memory,
    atomics and logging of lisk are system calls; of lisk_clock.c, time zones and dates as text are
    the system's.  Of lisk_timer.c,
    [timer_list_print] prints.  Of lisk_string.c, [str2f4] and [str2f8] read floats; pointers
    of its functions are taken not to overlap but where they are the same string.  Of dict.c, the fingerprint
    of unsafe iterators is written and never read, and the seed of the hash and [dict_can_resize]
    are arguments.  Of sds.c, what [vsnprintf] makes of its arguments is an argument, the blocks that
    [zrealloc] frees are not kept, and the strings it is given lie outside the one it changes.  Of tool.c, the
    functions that print, and redis-dump.c and redis-statistics.c, which ask a server and print.  Of redis-replay-aof.c, the
    arguments of the program, opening the file and the connection, and the position it prints are left
    out.  A context of ucontext is the rest of a
    program with the frames it needs on the stack.  The other ring buffers are earlier versions of those modelled.
    [qsqrt] of lisk_math.c depends on the layout of floats. *)

From Stdlib Require Export ZArith Lia.
From stdpp Require Export base list numbers option relations gmap.

#[global] Open Scope Z_scope.

(** ** Machine integers

    The source names its integer types [n4] (int), [u4] (unsigned int),
    [n8] (long long) and [u8] (unsigned long long).  A value is a [Z]; the
    functions below are the conversions into a type, that is the wrap-around
    of its arithmetic. *)

Definition U4_MOD : Z := 2 ^ 32.
Definition U8_MOD : Z := 2 ^ 64.
Definition u2 (z : Z) : Z := z mod 2 ^ 16.
Definition u4 (z : Z) : Z := z mod U4_MOD.
Definition u8 (z : Z) : Z := z mod U8_MOD.
Definition is_u4 (z : Z) : Prop := 0 <= z < U4_MOD.
Definition is_u8 (z : Z) : Prop := 0 <= z < U8_MOD.
Definition in_n4 (z : Z) : bool := (- 2 ^ 31 <=? z) && (z <? 2 ^ 31).
Definition in_n8 (z : Z) : bool := (- 2 ^ 63 <=? z) && (z <? 2 ^ 63).

(** The value of a bit pattern as an [n4]: the conversion of a wider integer. *)
Definition to_n4 (z : Z) : Z := (z + 2 ^ 31) mod U4_MOD - 2 ^ 31.

(** Signed arithmetic that leaves the type is undefined behaviour: [None]. *)
Definition chk_n4 (z : Z) : option Z := if in_n4 z then Some z else None.
Definition chk_n8 (z : Z) : option Z := if in_n8 z then Some z else None.

Lemma u4_range z : 0 <= u4 z < U4_MOD.
Proof. apply Z.mod_pos_bound. reflexivity. Qed.
Lemma u8_range z : 0 <= u8 z < U8_MOD.
Proof. apply Z.mod_pos_bound. reflexivity. Qed.
Lemma u4_id z : is_u4 z -> u4 z = z.
Proof. apply Z.mod_small. Qed.
Lemma u8_id z : is_u8 z -> u8 z = z.
Proof. apply Z.mod_small. Qed.
Lemma u4_add_l a b : u4 (u4 a + b) = u4 (a + b).
Proof. apply Zplus_mod_idemp_l. Qed.
Lemma u4_add_r a b : u4 (a + u4 b) = u4 (a + b).
Proof. apply Zplus_mod_idemp_r. Qed.
Lemma u4_sub_l a b : u4 (u4 a - b) = u4 (a - b).
Proof. apply Zminus_mod_idemp_l. Qed.
Lemma u4_sub_r a b : u4 (a - u4 b) = u4 (a - b).
Proof. apply Zminus_mod_idemp_r. Qed.
Lemma u4_mul_l a b : u4 (u4 a * b) = u4 (a * b).
Proof. apply Zmult_mod_idemp_l. Qed.

Lemma to_n4_id z : - 2 ^ 31 <= z < 2 ^ 31 -> to_n4 z = z.
Proof. intros H. unfold to_n4, U4_MOD. rewrite Z.mod_small by lia. lia. Qed.

Lemma mod_shift_eq a b n : 0 < n -> (a + b) mod n = a mod n <-> b mod n = 0.
Proof.
  intros Hn. split; intros E.
  - replace b with ((a + b) - a) by lia. rewrite Zminus_mod, E, Z.sub_diag. done.
  - rewrite Z.add_mod, E, Z.add_0_r, Z.mod_mod by lia. done.
Qed.

(** ** Byte buffers

    A block of memory is the list of its bytes.  An access names an offset
    and a length and is checked: [None] is an access outside the block, so an
    operation that returns [Some] has stayed inside every block it used. *)

Abbreviation bytes := (list Z).

Definition blen (b : bytes) : Z := Z.of_nat (length b).

Definition rd (b : bytes) (off n : Z) : option bytes :=
  if decide (0 <= off /\ 0 <= n /\ off + n <= blen b)
  then Some (take (Z.to_nat n) (drop (Z.to_nat off) b)) else None.

Definition wr (b : bytes) (off : Z) (src : bytes) : option bytes :=
  if decide (0 <= off /\ off + blen src <= blen b)
  then Some (take (Z.to_nat off) b ++ src ++
             drop (Z.to_nat off + length src) b)
  else None.

Section Buffers.
Implicit Types b src : bytes.

Lemma blen_nonneg b : 0 <= blen b.
Proof. unfold blen; lia. Qed.

Lemma wr_Some b off src :
  0 <= off -> off + blen src <= blen b -> exists b', wr b off src = Some b'.
Proof. intros. unfold wr. rewrite decide_True by lia. eauto. Qed.

Lemma wr_inv b off src b' :
  wr b off src = Some b' ->
  (0 <= off /\ off + blen src <= blen b) /\
  b' = take (Z.to_nat off) b ++ src ++ drop (Z.to_nat off + length src) b.
Proof. unfold wr. case_decide; intros; simplify_eq; auto. Qed.

Lemma wr_blen b off src b' : wr b off src = Some b' -> blen b' = blen b.
Proof.
  intros [H ->]%wr_inv. unfold blen in *.
  rewrite !length_app, length_take, length_drop. lia.
Qed.

Lemma rd_blen b off n x : rd b off n = Some x -> blen x = n.
Proof.
  unfold rd, blen. case_decide; intros; simplify_eq.
  rewrite length_take, length_drop. unfold blen in *. lia.
Qed.

Lemma rd_Some b off n :
  0 <= off -> 0 <= n -> off + n <= blen b -> exists x, rd b off n = Some x.
Proof. intros. unfold rd. rewrite decide_True by lia. eauto. Qed.

Lemma rd_in_bounds b off n x : rd b off n = Some x -> 0 <= off /\ off + n <= blen b.
Proof. unfold rd. case_decide; intros; simplify_eq; lia. Qed.

Lemma rd_wr_same b off src b' :
  wr b off src = Some b' -> rd b' off (blen src) = Some src.
Proof.
  intros Hw. pose proof (wr_blen _ _ _ _ Hw) as Hl.
  apply wr_inv in Hw as [H ->].
  unfold rd. rewrite decide_True by (pose proof (blen_nonneg src); lia). f_equal.
  unfold blen in *.
  rewrite drop_app_length' by (rewrite length_take; lia).
  rewrite take_app_length' by lia. done.
Qed.

Lemma rd_wr_other b off src b' o n :
  wr b off src = Some b' ->
  o + n <= off \/ off + blen src <= o ->
  rd b' o n = rd b o n.
Proof.
  intros Hw Hd. pose proof (wr_blen _ _ _ _ Hw) as Hl.
  apply wr_inv in Hw as [H ->].
  unfold rd in *. rewrite Hl. case_decide as Hb; [|done]. f_equal.
  unfold blen in *. apply list_eq. intros i.
  destruct (decide (i < Z.to_nat n)%nat) as [Hi|Hi].
  2:{ rewrite !lookup_take_ge by lia. done. }
  rewrite !lookup_take, !lookup_drop, decide_True, decide_True by lia.
  destruct Hd as [Hd|Hd].
  - rewrite lookup_app_l by (rewrite length_take; lia).
    rewrite lookup_take, decide_True by lia. done.
  - rewrite lookup_app_r by (rewrite length_take; lia).
    rewrite lookup_app_r by (rewrite length_take; lia).
    rewrite lookup_drop, length_take. f_equal. lia.
Qed.

(** Two adjacent reads are one read. *)
Lemma rd_app b off m n x y :
  0 <= m -> 0 <= n -> rd b off m = Some x -> rd b (off + m) n = Some y ->
  rd b off (m + n) = Some (x ++ y).
Proof.
  unfold rd. intros Hm Hn H1 H2. repeat case_decide; simplify_eq; try lia. f_equal.
  rewrite !Z2Nat.inj_add, <- drop_drop by lia.
  rewrite <- (take_drop (Z.to_nat m) (drop (Z.to_nat off) b)) at 1.
  rewrite take_app, length_take, length_drop. unfold blen in *.
  rewrite take_ge by (rewrite length_take, length_drop; lia). f_equal. f_equal. lia.
Qed.

Lemma rd_all b n : blen b = n -> rd b 0 n = Some b.
Proof.
  intros <-. unfold rd. rewrite decide_True by (pose proof (blen_nonneg b); lia).
  unfold blen. by rewrite drop_0, take_ge by lia.
Qed.

(** A read is determined by its single bytes. *)
Lemma rd_byte b off n x (j : Z) :
  rd b off n = Some x -> 0 <= j < n ->
  exists c, x !! Z.to_nat j = Some c /\ rd b (off + j) 1 = Some [c].
Proof.
  intros Hr Hj. pose proof (rd_blen _ _ _ _ Hr) as Hl. unfold blen in Hl.
  destruct (lookup_lt_is_Some_2 x (Z.to_nat j) ltac:(lia)) as [c Hc]. exists c. split; [done|].
  unfold rd in *. case_decide as Hd; [|done]. injection Hr as <-. rewrite decide_True by lia. f_equal.
  rewrite lookup_take, decide_True, lookup_drop in Hc by lia.
  rewrite Z2Nat.inj_add by lia. by rewrite (drop_S _ c) by done.
Qed.
End Buffers.

Lemma blen_app x y : blen (x ++ y) = blen x + blen y.
Proof. unfold blen. rewrite length_app. lia. Qed.

Lemma blen_nil : blen [] = 0.
Proof. done. Qed.

Lemma blen_zero b : blen b = 0 <-> b = [].
Proof. unfold blen. destruct b; cbn; split; (done || lia). Qed.

Lemma rd_mid x y z : rd (x ++ y ++ z) (blen x) (blen y) = Some y.
Proof.
  unfold rd. rewrite !blen_app, decide_True by (pose proof (blen_nonneg x); pose proof (blen_nonneg y);
    pose proof (blen_nonneg z); lia).
  unfold blen. by rewrite !Nat2Z.id, drop_app_length, take_app_length.
Qed.

Lemma rd_head x y : rd (x ++ y) 0 (blen x) = Some x.
Proof. apply (rd_mid [] x y). Qed.

Lemma wr_mid x y z w : blen w = blen y -> wr (x ++ y ++ z) (blen x) w = Some (x ++ w ++ z).
Proof.
  intros E. unfold wr. rewrite !blen_app, decide_True by (pose proof (blen_nonneg x); pose proof (blen_nonneg z); lia).
  unfold blen in *. rewrite Nat2Z.id, take_app_length. do 3 f_equal.
  rewrite drop_app. replace (_ - length x)%nat with (length y) by lia.
  rewrite drop_ge by lia. by rewrite drop_app_length.
Qed.

Lemma wr_head y z w : blen w = blen y -> wr (y ++ z) 0 w = Some (w ++ z).
Proof. apply (wr_mid [] y z w). Qed.

(** A buffer splits at any length it has. *)
Lemma split_blen b n : 0 <= n <= blen b -> exists x y, b = x ++ y /\ blen x = n.
Proof.
  intros Hn. exists (take (Z.to_nat n) b), (drop (Z.to_nat n) b). rewrite take_drop.
  split; [done|]. unfold blen in *. rewrite length_take. lia.
Qed.

(** [copy_data] between two places of one block: [memmove]. *)
Definition copy_data (b : bytes) (dst src len : Z) : option (Z * bytes) :=
  if len <=? 0 then Some (0, b)
  else if negb (dst =? src) then x ← rd b src len; b' ← wr b dst x; Some (0, b')
  else Some (-1, b).

(** A run of units of [us] bytes each. *)
Definition units (us : Z) (xs : list bytes) : Prop := Forall (fun x => blen x = us) xs.

Lemma units_app us xs ys : units us (xs ++ ys) <-> units us xs /\ units us ys.
Proof. apply Forall_app. Qed.

Lemma blen_concat us xs : units us xs -> blen (concat xs) = Z.of_nat (length xs) * us.
Proof.
  induction 1 as [|x xs Hx Hxs IH]; [done|]. cbn [concat length]. rewrite blen_app, Hx, IH. lia.
Qed.

(** Unit [i] of a buffer of units of [us] bytes starts at [i * us]. *)
Definition rd_unit (b : bytes) (us i : Z) : option bytes := rd b (i * us) us.

Lemma rd_unit_wr_same b us i x b' :
  wr b (i * us) x = Some b' -> blen x = us -> rd_unit b' us i = Some x.
Proof. intros H <-. unfold rd_unit. by apply (rd_wr_same b). Qed.

Lemma rd_unit_wr_other b us i j x b' :
  0 <= us -> wr b (i * us) x = Some b' -> blen x = us -> i <> j ->
  rd_unit b' us j = rd_unit b us j.
Proof.
  intros Hus Hw Hx Hij. unfold rd_unit. eapply rd_wr_other; [done|].
  assert (i < j \/ j < i) as [?|?] by lia; nia.
Qed.

Lemma wr_unit_Some b us i n x :
  0 <= i < n -> 0 <= us -> n * us <= blen b -> blen x = us ->
  exists b', wr b (i * us) x = Some b'.
Proof. intros. apply wr_Some; nia. Qed.

Lemma rd_unit_Some b us i n :
  0 <= i < n -> 0 <= us -> n * us <= blen b -> exists x, rd_unit b us i = Some x.
Proof. intros. apply rd_Some; nia. Qed.

(** ** Lists of lists *)

Lemma concat_lookup_perm {A} (l : list (list A)) j b :
  l !! j = Some b -> concat l ≡ₚ b ++ concat (delete j l).
Proof.
  intros Hj. rewrite <- (take_drop_middle l j b Hj) at 1. rewrite delete_take_drop, !concat_app. cbn [concat].
  solve_Permutation.
Qed.

Lemma concat_insert_perm {A} (l : list (list A)) j b b' :
  l !! j = Some b -> concat (<[j := b']> l) ≡ₚ b' ++ concat (delete j l).
Proof.
  intros Hj. rewrite (concat_lookup_perm _ j b').
  - rewrite !delete_take_drop, take_insert_ge, drop_insert_lt by lia. done.
  - apply list_lookup_insert_eq. by eapply lookup_lt_Some.
Qed.

Lemma elem_of_concat {A} (l : list (list A)) x : x ∈ concat l <-> exists j b, l !! j = Some b /\ x ∈ b.
Proof.
  split.
  - induction l as [|a l IH]; cbn; [by intros ?%elem_of_nil|]. intros [Hx|Hx]%elem_of_app.
    + by exists 0%nat, a.
    + destruct (IH Hx) as (j & b & Hj & Hb). by exists (S j), b.
  - intros (j & b & Hj & Hb). rewrite (concat_lookup_perm l j b Hj). apply elem_of_app. by left.
Qed.

(** ** Automation *)

Create HintDb lisk discriminated.
Create Rewrite HintDb u4.
#[export] Hint Resolve u4_range u8_range u4_id u8_id blen_nonneg wr_blen rd_blen : lisk.
#[export] Hint Rewrite u4_add_l u4_add_r u4_sub_l u4_sub_r u4_mul_l : u4.

(** Turn every boolean comparison in the context into the proposition it decides. *)
Ltac to_prop :=
  repeat match goal with
  | H : _ && _ = true |- _ => apply andb_true_iff in H as [? ?]
  | H : _ || _ = true |- _ => apply orb_true_iff in H
  | H : _ || _ = false |- _ => apply orb_false_iff in H as [? ?]
  | H : negb _ = true |- _ => apply negb_true_iff in H
  | H : negb _ = false |- _ => apply negb_false_iff in H
  | H : (_ =? _) = true |- _ => apply Z.eqb_eq in H
  | H : (_ =? _) = false |- _ => apply Z.eqb_neq in H
  | H : (_ <? _) = true |- _ => apply Z.ltb_lt in H
  | H : (_ <? _) = false |- _ => apply Z.ltb_ge in H
  | H : (_ <=? _) = true |- _ => apply Z.leb_le in H
  | H : (_ <=? _) = false |- _ => apply Z.leb_gt in H
  end.

(** Case on the outermost test of a C conditional. *)
Ltac c_if :=
  match goal with
  | |- context [if ?b then _ else _] => let E := fresh "E" in destruct b eqn:E; to_prop
  end.

(** Take apart a successful bind of the option monad in a hypothesis. *)
Ltac bind_inv H :=
  let x := fresh "r" in let E := fresh "E" in
  apply bind_Some in H as (x & E & H).

Lemma chk_n4_ok z : - 2 ^ 31 <= z < 2 ^ 31 -> chk_n4 z = Some z.
Proof. intros. unfold chk_n4, in_n4. by rewrite (proj2 (Z.leb_le _ _)), (proj2 (Z.ltb_lt _ _)) by lia. Qed.
Lemma chk_n8_ok z : - 2 ^ 63 <= z < 2 ^ 63 -> chk_n8 z = Some z.
Proof. intros. unfold chk_n8, in_n8. by rewrite (proj2 (Z.leb_le _ _)), (proj2 (Z.ltb_lt _ _)) by lia. Qed.

(** ** Sorting and searching an array

    [qsort] and [bsearch] of the C library on a list.  The order [qsort] leaves
    among elements that compare equal is not specified; this one inserts. *)

Section Sorting.
Context {A : Type}.

Fixpoint qsort_insert (cmp : A -> A -> Z) (x : A) (l : list A) : list A :=
  match l with
  | [] => [x]
  | y :: l' => if cmp x y <=? 0 then x :: y :: l' else y :: qsort_insert cmp x l'
  end.

Fixpoint qsort (cmp : A -> A -> Z) (l : list A) : list A :=
  match l with [] => [] | x :: l' => qsort_insert cmp x (qsort cmp l') end.

(** [f] compares the key with an element; [lo] and [hi] bound the search. *)
Fixpoint bsearch_in (fuel : nat) (f : A -> Z) (l : list A) (lo hi : nat) : option (option A) :=
  match fuel with
  | O => None
  | S n =>
      if decide (lo < hi)%nat then
        let idx := ((lo + hi) / 2)%nat in
        x ← l !! idx;
        if f x <? 0 then bsearch_in n f l lo idx
        else if 0 <? f x then bsearch_in n f l (S idx) hi
        else Some (Some x)
      else Some None
  end.

Definition bsearch (f : A -> Z) (l : list A) : option (option A) :=
  bsearch_in (S (length l)) f l 0 (length l).

Lemma qsort_insert_perm cmp x l : qsort_insert cmp x l ≡ₚ x :: l.
Proof.
  induction l as [|y l IH]; [done|]. cbn. destruct (cmp x y <=? 0); [done|]. rewrite IH. constructor.
Qed.

Lemma qsort_perm cmp l : qsort cmp l ≡ₚ l.
Proof. induction l as [|x l IH]; [done|]. cbn. rewrite qsort_insert_perm. by rewrite IH. Qed.

(** Sorted by a key that the comparison respects. *)
Definition sorted_key (key : A -> Z) (l : list A) : Prop :=
  forall i j x y, (i <= j)%nat -> l !! i = Some x -> l !! j = Some y -> key x <= key y.

Lemma sorted_key_cons key x l :
  sorted_key key (x :: l) <-> (forall y, y ∈ l -> key x <= key y) /\ sorted_key key l.
Proof.
  split.
  - intros H. split.
    + intros y [j Hj]%list_elem_of_lookup. by apply (H 0%nat (S j)); [lia| |].
    + intros i j a b Hij Ha Hb. by apply (H (S i) (S j)); [lia| |].
  - intros [Hx Hl] [|i] [|j] a b Hij Ha Hb; cbn in Ha, Hb; simplify_eq; [done| |lia|].
    + apply Hx. by eapply list_elem_of_lookup_2.
    + by apply (Hl i j); [lia| |].
Qed.

Lemma qsort_sorted (P : A -> Prop) key cmp l :
  (forall x y, P x -> P y -> cmp x y <= 0 -> key x <= key y) ->
  (forall x y, P x -> P y -> 0 < cmp x y -> key y <= key x) ->
  Forall P l -> sorted_key key (qsort cmp l).
Proof.
  intros Hle Hgt. induction 1 as [|x l Hx Hl IH]; [by intros i j a b _ Ha|]. cbn [qsort].
  rewrite <- (qsort_perm cmp) in Hl. revert Hl IH. generalize (qsort cmp l) as s.
  induction s as [|y s IHs]; intros HP Hs; cbn [qsort_insert].
  { apply sorted_key_cons. split; [by intros y ?%elem_of_nil|done]. }
  apply Forall_cons in HP as [Py Ps].
  pose proof (proj1 (sorted_key_cons _ _ _) Hs) as [Hy Hs']. destruct (cmp x y <=? 0) eqn:E; to_prop.
  - apply sorted_key_cons. split; [|done]. intros z [->|Hz]%elem_of_cons; [by apply Hle|].
    pose proof (Hle _ _ Hx Py E). pose proof (Hy z Hz). lia.
  - apply sorted_key_cons. split; [|by apply IHs]. intros z. rewrite qsort_insert_perm.
    intros [->|Hz]%elem_of_cons; [by apply Hgt|by apply Hy].
Qed.

(** [bsearch] finds an element that compares equal when there is one. *)
Lemma bsearch_in_spec fuel f l lo hi :
  (forall i j x y, (i <= j)%nat -> l !! i = Some x -> l !! j = Some y ->
     (f x < 0 -> f y < 0) /\ (0 < f y -> 0 < f x)) ->
  (lo <= hi <= length l)%nat -> (hi - lo < fuel)%nat ->
  (forall j x, (j < lo)%nat -> l !! j = Some x -> f x <> 0) ->
  (forall j x, (hi <= j)%nat -> l !! j = Some x -> f x <> 0) ->
  (exists x, bsearch_in fuel f l lo hi = Some (Some x) /\ x ∈ l /\ f x = 0) \/
  (bsearch_in fuel f l lo hi = Some None /\ forall x, x ∈ l -> f x <> 0).
Proof.
  intros Hsort. revert lo hi. induction fuel as [|n IH]; intros lo hi Hlu Hf Hl Hu; [lia|]. cbn [bsearch_in].
  case_decide.
  - pose proof (Nat.div_mod_eq (lo + hi) 2). pose proof (Nat.mod_upper_bound (lo + hi) 2 ltac:(lia)).
    set (idx := ((lo + hi) / 2)%nat) in *. clearbody idx.
    destruct (lookup_lt_is_Some_2 l idx) as [x Hx]; [lia|]. rewrite Hx. cbn [mbind option_bind].
    destruct (f x <? 0) eqn:E1; to_prop; [|destruct (0 <? f x) eqn:E2; to_prop].
    + apply IH; [lia|lia|done|]. intros j y Hj Hy E0.
      destruct (Hsort idx j x y ltac:(lia) Hx Hy) as [Hlt _]. lia.
    + apply IH; [lia|lia| |done]. intros j y Hj Hy E0.
      destruct (Hsort j idx y x ltac:(lia) Hy Hx) as [_ Hgt]. lia.
    + left. exists x. split; [done|]. split; [by eapply list_elem_of_lookup_2|lia].
  - right. split; [done|]. intros x [j Hj]%list_elem_of_lookup.
    destruct (decide (j < lo)%nat); [by apply (Hl j)|]. apply (Hu j); [lia|done].
Qed.

Lemma bsearch_spec f l :
  (forall i j x y, (i <= j)%nat -> l !! i = Some x -> l !! j = Some y ->
     (f x < 0 -> f y < 0) /\ (0 < f y -> 0 < f x)) ->
  (exists x, bsearch f l = Some (Some x) /\ x ∈ l /\ f x = 0) \/
  (bsearch f l = Some None /\ forall x, x ∈ l -> f x <> 0).
Proof.
  intros Hs. apply bsearch_in_spec; [done|lia|lia|lia|]. intros j x Hj Hx.
  apply lookup_lt_Some in Hx. lia.
Qed.
End Sorting.

(** ** Allocation

    [malloc] belongs to the C library: it is a parameter of the operations that
    allocate.  It maps a size to the bytes of the fresh block or fails.  Such a
    function is what the library does at one call, or at the calls of one
    operation: a sequence of operations is run with functions of its own for
    each, so a size that was served once may be refused later. *)

Definition malloc_fun := Z -> option bytes.

Definition malloc_ok (malloc : malloc_fun) : Prop :=
  forall n b, 0 <= n -> malloc n = Some b -> blen b = n.

(** Instances used by witnesses. *)
Definition malloc_zero : malloc_fun := fun n => Some (replicate (Z.to_nat n) 0).
Definition malloc_fail : malloc_fun := fun _ => None.

Lemma malloc_zero_ok : malloc_ok malloc_zero.
Proof. intros n b Hn [= <-]. unfold blen. rewrite length_replicate. lia. Qed.

Lemma malloc_fail_ok : malloc_ok malloc_fail.
Proof. intros n b _ [=]. Qed.

(** [realloc] of the C library: the old block and the new size. *)
Definition realloc_fun := option bytes -> Z -> option bytes.

(** A block that is moved or resized keeps the bytes that fit into its new size; [realloc] may fail. *)
Definition realloc_ok (realloc : realloc_fun) : Prop :=
  forall b n c, 0 <= n -> realloc (Some b) n = Some c ->
    blen c = n /\ forall x y, b = x ++ y -> blen x <= n -> exists z, c = x ++ z.

(** One that does not fail, such as [zrealloc] of zmalloc.c of redis, which ends
    the program when memory runs out. *)
Definition realloc_serves (realloc : realloc_fun) : Prop :=
  forall b n, 0 <= n -> exists c, realloc (Some b) n = Some c /\ blen c = n /\
    forall x y, b = x ++ y -> blen x <= n -> exists z, c = x ++ z.

(** A [realloc] that keeps the contents and fills with zeros, and one that fails. *)
Definition realloc_zero : realloc_fun :=
  fun b n => let b := default [] b in Some (take (Z.to_nat n) (b ++ replicate (Z.to_nat n) 0)).
Definition realloc_fail : realloc_fun := fun _ _ => None.

Lemma realloc_zero_serves : realloc_serves realloc_zero.
Proof.
  intros b n Hn. exists (take (Z.to_nat n) (b ++ replicate (Z.to_nat n) 0)). split; [done|]. split.
  - unfold blen. rewrite length_take, length_app, length_replicate. lia.
  - intros x y -> Hx. unfold blen in Hx. rewrite <- app_assoc, take_app, take_ge by lia. eauto.
Qed.

Lemma realloc_serves_ok realloc : realloc_serves realloc -> realloc_ok realloc.
Proof. intros Hr b n c Hn E. destruct (Hr b n Hn) as (c' & E' & H). assert (c' = c) as -> by congruence. done. Qed.

Lemma realloc_zero_ok : realloc_ok realloc_zero.
Proof. apply realloc_serves_ok, realloc_zero_serves. Qed.

Lemma realloc_fail_ok : realloc_ok realloc_fail.
Proof. intros b n c _ [=]. Qed.

(** ** A FIFO queue as its clients see it

    [fq_rep s q]: the concrete state [s] holds the elements [q], oldest first.
    [fq_room s q]: the implementation has room for one more element.
    The operations return the C result code, 0 on success. *)

Class FifoQueue (A S : Type) := {
  fq_push : S -> A -> option (Z * S);
  fq_pop : S -> option (Z * option A * S);
  fq_valid : S -> A -> Prop;
  fq_rep : S -> list A -> Prop;
  fq_room : S -> list A -> Prop;
  fq_push_ok s q x :
    fq_rep s q -> fq_valid s x -> fq_room s q ->
    exists s', fq_push s x = Some (0, s') /\ fq_rep s' (q ++ [x]) /\
               (forall y, fq_valid s y -> fq_valid s' y);
  fq_pop_ok s q x :
    fq_rep s (x :: q) ->
    exists s', fq_pop s = Some (0, Some x, s') /\ fq_rep s' q;
}.

Section FifoClient.
Context {A S : Type} `{FifoQueue A S}.

Fixpoint fifo_fill (s : S) (xs : list A) : option S :=
  match xs with
  | [] => Some s
  | x :: xs' => '(ret, s') ← fq_push s x; if ret =? 0 then fifo_fill s' xs' else None
  end.

Fixpoint fifo_drain (n : nat) (s : S) : option (list A * S) :=
  match n with
  | O => Some ([], s)
  | Datatypes.S n' =>
      '(ret, o, s') ← fq_pop s;
      match o with
      | Some x => '(l, s'') ← fifo_drain n' s'; Some (x :: l, s'')
      | None => None
      end
  end.

(** Room for a whole batch: every prefix leaves room for the next element. *)
Definition fifo_room (s : S) (q xs : list A) : Prop :=
  forall s' k, (k < length xs)%nat -> fq_rep s' (q ++ take k xs) -> fq_room s' (q ++ take k xs).

Lemma fifo_fill_spec s q xs :
  fq_rep s q -> Forall (fq_valid s) xs -> fifo_room s q xs ->
  exists s', fifo_fill s xs = Some s' /\ fq_rep s' (q ++ xs).
Proof.
  revert s q. induction xs as [|x xs IH]; intros s q Hr Hv Hroom.
  { exists s. by rewrite app_nil_r. }
  apply Forall_cons_1 in Hv as [Hx Hv].
  destruct (fq_push_ok s q x Hr Hx) as (s1 & Hp & Hr1 & Hv1).
  { specialize (Hroom s 0%nat). cbn in Hroom. rewrite app_nil_r in Hroom. apply Hroom; [lia|done]. }
  cbn [fifo_fill]. rewrite Hp. cbn.
  destruct (IH s1 (q ++ [x])) as (s2 & -> & Hr2); [done| | |].
  { eapply Forall_impl; [exact Hv|exact Hv1]. }
  { intros s' k Hk. specialize (Hroom s' (Datatypes.S k)). cbn in Hroom.
    rewrite <- app_assoc. cbn. apply Hroom. lia. }
  exists s2. split; [done|]. by rewrite <- app_assoc in Hr2.
Qed.

Lemma fifo_drain_spec s q q' :
  fq_rep s (q ++ q') ->
  exists s', fifo_drain (length q) s = Some (q, s') /\ fq_rep s' q'.
Proof.
  revert s. induction q as [|x q IH]; intros s Hr; [by exists s|].
  cbn in Hr. destruct (fq_pop_ok s (q ++ q') x Hr) as (s1 & Hp & Hr1).
  cbn [length fifo_drain]. rewrite Hp. cbn.
  destruct (IH s1 Hr1) as (s2 & -> & Hr2). by exists s2.
Qed.
End FifoClient.

(** ** A heap of byte blocks

    Addresses are handed out in increasing order and never reused, so a stale
    pointer stays distinguishable; 0 is nil.  Freeing or using a block that is
    not allocated is [None]. *)

Record heap := mk_heap { h_next : nat; h_mem : gmap nat bytes }.

Definition heap_empty : heap := mk_heap 1 ∅.

Definition halloc (malloc : malloc_fun) (n : Z) (h : heap) : option (nat * heap) :=
  match malloc n with
  | None => None
  | Some b => Some (h_next h, mk_heap (S (h_next h)) (<[h_next h := b]> (h_mem h)))
  end.

Definition hfree (a : nat) (h : heap) : option heap :=
  match h_mem h !! a with
  | None => None
  | Some _ => Some (mk_heap (h_next h) (delete a (h_mem h)))
  end.

Definition hread (a : nat) (off n : Z) (h : heap) : option bytes :=
  b ← h_mem h !! a; rd b off n.

Definition hwrite (a : nat) (off : Z) (src : bytes) (h : heap) : option heap :=
  b ← h_mem h !! a; b' ← wr b off src;
  Some (mk_heap (h_next h) (<[a := b']> (h_mem h))).

(** Every live address is below the next fresh one, and above nil. *)
Definition heap_ok (h : heap) : Prop :=
  (0 < h_next h)%nat /\ forall a b, h_mem h !! a = Some b -> (0 < a < h_next h)%nat.

Section Heaps.
Implicit Types h : heap.

Lemma heap_ok_fresh h : heap_ok h -> h_mem h !! h_next h = None.
Proof.
  intros [_ H]. destruct (h_mem h !! h_next h) as [b|] eqn:E; [|done].
  apply H in E. lia.
Qed.

Lemma halloc_inv malloc n h a h' :
  heap_ok h -> halloc malloc n h = Some (a, h') ->
  exists b, malloc n = Some b /\ a = h_next h /\ h_mem h !! a = None /\ (0 < a)%nat /\
    h_mem h' = <[a := b]> (h_mem h) /\ heap_ok h'.
Proof.
  intros Hok. unfold halloc. destruct (malloc n) as [b|] eqn:E; [|done]. intros [= <- <-].
  exists b. split; [done|]. split; [done|]. split; [by apply heap_ok_fresh|].
  split; [apply Hok|]. split; [done|]. destruct Hok as [H0 Hok].
  split; cbn; [lia|]. intros a' b' Ha.
  apply lookup_insert_Some in Ha as [[<- _]|[_ Ha]]; [lia|]. apply Hok in Ha. lia.
Qed.

Lemma hfree_inv a h h' :
  hfree a h = Some h' -> is_Some (h_mem h !! a) /\ h_mem h' = delete a (h_mem h) /\
  (heap_ok h -> heap_ok h').
Proof.
  unfold hfree. destruct (h_mem h !! a) eqn:E; [|done]. intros [= <-].
  split; [done|]. split; [done|]. intros [H0 Hok]. split; [done|]. cbn.
  intros a' b' H'. apply lookup_delete_Some in H' as [_ H']. eauto.
Qed.

Lemma hfree_Some a h b : h_mem h !! a = Some b -> exists h', hfree a h = Some h'.
Proof. intros H. unfold hfree. rewrite H. eauto. Qed.

Lemma hwrite_Some a off src h b b' :
  h_mem h !! a = Some b -> wr b off src = Some b' ->
  exists h', hwrite a off src h = Some h' /\ h_mem h' = <[a := b']> (h_mem h) /\
    (heap_ok h -> heap_ok h').
Proof.
  intros Hb Hw. unfold hwrite. rewrite Hb. cbn. rewrite Hw. cbn. eexists. split; [done|].
  split; [done|]. intros [H0 Hok]. split; [done|]. cbn. intros a' c H'.
  apply lookup_insert_Some in H' as [[<- _]|[_ H']]; eauto.
Qed.
End Heaps.
