(* ===== verification/LiskMath.v ===== *)
(** * lisk_math.c: primes, powers of two, powers, swaps, byte order

    Models win_lisk/src/lisk_math.c (and the SWAP macro of lisk_math.h).
    Signed arithmetic is checked: a step that leaves [n8] or [n4] is [None].
    [qsqrt] (a floating point approximation) is not modelled. *)

From Stdlib Require Import Znumtheory.
From S2P Require Import Prelude.

Module Math.

(** ** Primes *)

(** The loop of [is_num_prime]; one unit of fuel per iteration. *)
Fixpoint is_num_prime_loop (fuel : nat) (num idx : Z) : option Z :=
  match fuel with
  | O => None
  | S f =>
      if idx <? num then
        sq ← chk_n8 (idx * idx);
        if num <? sq then Some 0
        else if Z.rem num idx =? 0 then Some (-1)
        else
          a ← chk_n8 (6 * idx + 1);
          if (a <? num) && (Z.rem num a =? 0) then Some (-1)
          else
            b ← chk_n8 (6 * idx - 1);
            if (b <? num) && (Z.rem num b =? 0) then Some (-1)
            else is_num_prime_loop f num (idx + 1)
      else Some 0
  end.

Definition is_num_prime (num : Z) : option Z :=
  if (num <? 2) || (Z.rem num 2 =? 0) || (Z.rem num 3 =? 0) then Some (-1)
  else is_num_prime_loop (S (Z.to_nat (Z.sqrt num))) num 3.

Fixpoint next_prime_loop (fuel : nat) (num prime : Z) : option Z :=
  match fuel with
  | O => None
  | S f =>
      if num <? prime then
        ret ← is_num_prime prime;
        if ret =? 0 then Some prime
        else p ← chk_n8 (prime + 1); next_prime_loop f num p
      else Some (-1)
  end.

Definition next_prime (fuel : nat) (num : Z) : option Z :=
  let num := if num <? 0 then 3 else num in
  p ← chk_n8 (num + 1); next_prime_loop fuel num p.

(** [get_prime_arr]: the array it fills is returned beside the result. *)
Fixpoint get_prime_arr_loop (fuel n : nat) (cur : Z) (arr : list Z) : option (Z * list Z) :=
  match n with
  | O => Some (cur, arr)
  | S n' =>
      p ← next_prime fuel cur;
      if p =? -1 then Some (-1, arr)
      else get_prime_arr_loop fuel n' p (arr ++ [p])
  end.

Definition get_prime_arr (fuel : nat) (max_num prime_num : Z) (arr_nil : bool)
  : option (Z * list Z) :=
  if (max_num <? 1) || (prime_num <? 1) || arr_nil then Some (-1, [])
  else get_prime_arr_loop fuel (Z.to_nat prime_num) max_num [].

(** ** Powers of two *)

Definition is_pow_of_2 (x : Z) : Z :=
  if Z.land x (u8 (x - 1)) =? 0 then 0 else 1.

Definition next_pow_of_2 (x : Z) : Z :=
  if is_pow_of_2 x =? 0 then x
  else
    let x := Z.lor x (Z.shiftr x 1) in
    let x := Z.lor x (Z.shiftr x 2) in
    let x := Z.lor x (Z.shiftr x 4) in
    let x := Z.lor x (Z.shiftr x 8) in
    let x := Z.lor x (Z.shiftr x 16) in
    u8 (x + 1).

(** ** Integer power

    The two loops halve the unsigned exponent, so 33 units of fuel are enough
    for a 32-bit one. *)

Fixpoint qintpow_strip (fuel : nat) (x n : Z) : option (Z * Z) :=
  match fuel with
  | O => None
  | S f =>
      if Z.land n 1 =? 0
      then x' ← chk_n4 (x * x); qintpow_strip f x' (Z.shiftr n 1)
      else Some (x, n)
  end.

Fixpoint qintpow_loop (fuel : nat) (x n result : Z) : option Z :=
  match fuel with
  | O => None
  | S f =>
      if n =? 0 then Some result
      else
        x' ← chk_n4 (x * x);
        result' ← (if Z.land n 1 =? 0 then Some result else chk_n4 (result * x'));
        qintpow_loop f x' (Z.shiftr n 1) result'
  end.

Definition qintpow (x n : Z) : option Z :=
  if n =? 0 then Some 1
  else
    '(x1, n1) ← qintpow_strip 33 x n;
    qintpow_loop 33 x1 (Z.shiftr n1 1) x1.

(** ** Swaps

    The objects the pointers reach are the cells of a list; two equal indices
    are two pointers to the same object. *)

Definition xor_swap (m : list Z) (a b : nat) : option (list Z) :=
  x ← m !! a; y ← m !! b;
  let m := <[a := Z.lxor x y]> m in
  x ← m !! a; y ← m !! b;
  let m := <[b := Z.lxor x y]> m in
  x ← m !! a; y ← m !! b;
  Some (<[a := Z.lxor x y]> m).

Definition swap2B : list Z -> nat -> nat -> option (list Z) := xor_swap.
Definition swap4B : list Z -> nat -> nat -> option (list Z) := xor_swap.
Definition swap8B : list Z -> nat -> nat -> option (list Z) := xor_swap.

(** [_swap]: byte by byte over two ranges of one memory. *)
Fixpoint swap_loop (n : nat) (m : list Z) (c0 c1 : nat) : option (list Z) :=
  match n with
  | O => Some m
  | S n' => m' ← xor_swap m c0 c1; swap_loop n' m' (S c0) (S c1)
  end.

Definition in_range (p lo hi : Z) : bool := (lo <=? p) && (p <=? hi).

Definition _swap (m : list Z) (v0 v1 : option nat) (len : Z) : option (Z * list Z) :=
  match v0, v1 with
  | Some p0, Some p1 =>
      let a0 := Z.of_nat p0 in
      let a1 := Z.of_nat p1 in
      if len <=? 0 then Some (-1, m)
      else if in_range a1 a0 (a0 + len - 1) || in_range a0 a1 (a1 + len - 1)
      then Some (-1, m)
      else m' ← swap_loop (Z.to_nat len) m p0 p1; Some (0, m')
  | _, _ => Some (-1, m)
  end.

(** The SWAP macro dispatches on the size of its operands. *)
Definition SWAP (size : Z) (m : list Z) (a b : nat) : option (list Z) :=
  if size =? 2 then swap2B m a b
  else if size =? 4 then swap4B m a b
  else if size =? 8 then swap8B m a b
  else if size =? 12 then xor_swap m a b
  else Some m.

(** ** Byte order: the value is seen as its bytes, lowest address first *)

Fixpoint le_split (n : nat) (w : Z) : list Z :=
  match n with O => [] | S n' => w mod 256 :: le_split n' (w / 256) end.
Fixpoint le_combine (l : list Z) : Z :=
  match l with [] => 0 | b :: l' => b + 256 * le_combine l' end.

Definition sizeof_un1 : Z := 1.

Definition hton2 (val : Z) : option Z :=
  m ← SWAP sizeof_un1 (le_split 2 val) 0 1; Some (le_combine m).

Definition hton4 (val : Z) : option Z :=
  m ← SWAP sizeof_un1 (le_split 4 val) 0 3;
  m ← SWAP sizeof_un1 m 1 2;
  Some (le_combine m).

Definition hton8 (val : Z) : option Z :=
  m ← SWAP sizeof_un1 (le_split 8 val) 0 7;
  m ← SWAP sizeof_un1 m 1 6;
  m ← SWAP sizeof_un1 m 2 5;
  m ← SWAP sizeof_un1 m 3 4;
  Some (le_combine m).

Definition ntoh2 (val : Z) : option Z := hton2 val.
Definition ntoh4 (val : Z) : option Z := hton4 val.
Definition ntoh8 (val : Z) : option Z := hton8 val.

(** ** Correctness of [is_num_prime] *)

(** The square of every candidate up to this bound is an [n8]. *)
Definition PRIME_BOUND : Z := 3037000499 ^ 2.

Section Primes.
Context (num : Z) (Hnum : 3 < num < 2 ^ 63).

(** Of a prime from the bound on, the square of a candidate leaves [n8] before it passes the number. *)
Definition prime_answer : option Z := if num <? PRIME_BOUND then Some 0 else None.

Lemma prime_answer_below : num < PRIME_BOUND -> prime_answer = Some 0.
Proof. intros H. unfold prime_answer. by rewrite (proj2 (Z.ltb_lt _ _)). Qed.

Lemma prime_answer_from : PRIME_BOUND <= num -> prime_answer = None.
Proof. intros H. unfold prime_answer. by rewrite (proj2 (Z.ltb_ge _ _)). Qed.

Lemma idx_bound idx : 3 <= idx <= Z.sqrt num + 1 -> idx <= 3037000500.
Proof.
  intros H. assert (Z.sqrt num < 3037000500); [|lia]. apply Z.sqrt_lt_square; lia.
Qed.

Lemma divides_not_prime d : 1 < d < num -> (d | num) -> ~ prime num.
Proof. intros Hd Hdiv Hp. apply (prime_divisors num Hp) in Hdiv; lia. Qed.

Lemma rem_divide d : 0 < d -> Z.rem num d = 0 <-> (d | num).
Proof. intros. rewrite Z.rem_divide by lia. done. Qed.

(** No divisor below [idx]. *)
Definition no_div (idx : Z) : Prop := forall d, 1 < d < idx -> ~ (d | num).

Lemma no_div_prime idx : no_div idx -> num < idx * idx -> 2 <= idx -> prime num.
Proof.
  intros Hn Hsq Hi.
  destruct (prime_dec num) as [|Hnp]; [done|exfalso].
  apply not_prime_divide in Hnp as (d & Hd & [e He]); [|lia].
  destruct (Z.lt_ge_cases d idx).
  - apply (Hn d); [lia|by exists e].
  - assert (e < idx) by nia. assert (1 < e) by nia.
    apply (Hn e); [lia|]. exists d. lia.
Qed.

(** The square of a candidate that is no [n8] is beyond every [n8]. *)
Lemma square_overflow idx :
  3 <= idx <= Z.sqrt num + 1 -> chk_n8 (idx * idx) = None -> num < idx * idx /\ PRIME_BOUND <= num.
Proof.
  intros Hi Hc. assert (2 ^ 63 <= idx * idx) as Ho.
  { destruct (Z.lt_ge_cases (idx * idx) (2 ^ 63)); [|done]. rewrite chk_n8_ok in Hc by nia. done. }
  split; [lia|]. assert (3037000500 <= idx) as H5 by nia.
  unfold PRIME_BOUND. assert (3037000499 <= Z.sqrt num) as Hs by lia.
  pose proof (Z.sqrt_spec num ltac:(lia)) as [Hsq _]. nia.
Qed.

Lemma is_num_prime_loop_spec fuel idx :
  3 <= idx <= Z.sqrt num + 1 -> no_div idx ->
  (Z.to_nat (Z.sqrt num + 2 - idx) <= fuel)%nat ->
  (prime num /\ is_num_prime_loop fuel num idx = prime_answer) \/
  (~ prime num /\ is_num_prime_loop fuel num idx = Some (-1)).
Proof.
  revert idx. induction fuel as [|f IH]; intros idx Hi Hn Hf; [lia|].
  pose proof (idx_bound idx Hi) as Hb.
  pose proof (Z.sqrt_spec num ltac:(lia)) as Hsq. cbn [is_num_prime_loop].
  assert (num < idx * idx -> prime num) as Hp by (intros; apply (no_div_prime idx); auto; lia).
  destruct (idx <? num) eqn:E0; to_prop.
  2:{ left. split; [apply Hp; nia|]. rewrite prime_answer_below; [done|]. unfold PRIME_BOUND. nia. }
  destruct (chk_n8 (idx * idx)) as [sq|] eqn:Ec; cbn [mbind option_bind].
  2:{ destruct (square_overflow idx Hi Ec) as [Hlt Hbig]. left. split; [auto|]. by rewrite prime_answer_from. }
  assert (sq = idx * idx /\ idx * idx < 2 ^ 63) as [-> Hs63].
  { unfold chk_n8 in Ec. destruct (in_n8 (idx * idx)) eqn:E; [|done]. injection Ec as <-. unfold in_n8 in E. to_prop. lia. }
  destruct (num <? idx * idx) eqn:Esq; to_prop.
  { left. split; [auto|]. rewrite prime_answer_below; [done|]. unfold PRIME_BOUND. assert (idx <= 3037000499) by nia. nia. }
  destruct (Z.rem num idx =? 0) eqn:E1; to_prop.
  { right. split; [|done]. apply (divides_not_prime idx); [lia|]. apply rem_divide; [lia|done]. }
  rewrite (chk_n8_ok (6 * idx + 1)) by lia. cbn [mbind option_bind].
  destruct ((6 * idx + 1 <? num) && _) eqn:E2; to_prop.
  { right. split; [|done]. apply (divides_not_prime (6 * idx + 1)); [lia|]. apply rem_divide; [lia|done]. }
  rewrite (chk_n8_ok (6 * idx - 1)) by lia. cbn [mbind option_bind].
  destruct ((6 * idx - 1 <? num) && _) eqn:E3; to_prop.
  { right. split; [|done]. apply (divides_not_prime (6 * idx - 1)); [lia|]. apply rem_divide; [lia|done]. }
  apply IH; [|intros d Hd Hdiv|lia].
  - assert (idx <= Z.sqrt num) by (apply Z.sqrt_le_square; lia). lia.
  - destruct (decide (d = idx)) as [->|]; [|apply (Hn d); [lia|done]].
    apply E1. apply rem_divide; [lia|done].
Qed.

Lemma is_num_prime_loop_from_3 fuel :
  Z.rem num 2 <> 0 -> (S (Z.to_nat (Z.sqrt num)) <= fuel)%nat ->
  (prime num /\ is_num_prime_loop fuel num 3 = prime_answer) \/
  (~ prime num /\ is_num_prime_loop fuel num 3 = Some (-1)).
Proof.
  intros E1 Hf. assert (2 <= Z.sqrt num) by (apply Z.sqrt_le_square; lia).
  apply is_num_prime_loop_spec; [lia| |lia].
  intros d Hd Hdiv. assert (d = 2) as -> by lia. apply E1. by apply rem_divide.
Qed.

Lemma is_num_prime_cases :
  (prime num /\ is_num_prime num = prime_answer) \/ (~ prime num /\ is_num_prime num = Some (-1)).
Proof.
  unfold is_num_prime.
  destruct (num <? 2) eqn:E0; to_prop; [lia|]. cbn [orb].
  destruct (Z.rem num 2 =? 0) eqn:E1; to_prop; cbn [orb].
  { right. split; [|done]. apply (divides_not_prime 2); [lia|]. by apply rem_divide. }
  destruct (Z.rem num 3 =? 0) eqn:E2; to_prop.
  { right. split; [|done]. apply (divides_not_prime 3); [lia|]. by apply rem_divide. }
  by apply is_num_prime_loop_from_3.
Qed.

(** More fuel changes no answer. *)
Lemma is_num_prime_loop_mono f1 : forall f2 idx r,
  (f1 <= f2)%nat -> is_num_prime_loop f1 num idx = Some r -> is_num_prime_loop f2 num idx = Some r.
Proof.
  induction f1 as [|f1 IH]; intros [|f2] idx r Hf; [done|done|lia|]. cbn [is_num_prime_loop].
  repeat match goal with
  | |- context [if ?b then _ else _] => destruct b; cbn [mbind option_bind]; try done
  | |- context [chk_n8 ?z] => destruct (chk_n8 z); cbn [mbind option_bind]; try done
  end. apply IH. lia.
Qed.

(** No number of rounds is enough. *)
Lemma is_num_prime_loop_none fuel :
  prime num -> PRIME_BOUND <= num -> is_num_prime_loop fuel num 3 = None.
Proof.
  intros Hp Hb. destruct (is_num_prime_loop fuel num 3) as [r|] eqn:E; [exfalso|done].
  assert (Z.rem num 2 <> 0) as Ho.
  { intros E2. apply (divides_not_prime 2); [lia| |done]. by apply rem_divide. }
  apply (is_num_prime_loop_mono fuel (fuel + S (Z.to_nat (Z.sqrt num)))) in E; [|lia].
  destruct (is_num_prime_loop_from_3 (fuel + S (Z.to_nat (Z.sqrt num))) Ho) as [[_ E']|[Hn _]]; [lia| |done].
  rewrite prime_answer_from in E' by done. congruence.
Qed.
End Primes.

Lemma prime_bound_n8 : PRIME_BOUND < 2 ^ 63.
Proof. reflexivity. Qed.

Lemma is_num_prime_dec num : 3 < num < PRIME_BOUND ->
  (prime num /\ is_num_prime num = Some 0) \/ (~ prime num /\ is_num_prime num = Some (-1)).
Proof.
  intros H. pose proof prime_bound_n8. rewrite <- (prime_answer_below num) by lia. apply is_num_prime_cases. lia.
Qed.

(** C28: [is_num_prime] on every [n8]. Up to 3 it returns -1, 2 and 3 included.
    Above, it returns -1 for every composite; for a prime it returns 0 below
    [PRIME_BOUND], the square of 3037000499, and from there on [idx * idx]
    overflows however many rounds are allowed. *)
Theorem is_num_prime_correct (num : Z) :
  - 2 ^ 63 <= num < 2 ^ 63 ->
  (num <= 3 -> is_num_prime num = Some (-1)) /\
  (3 < num -> ~ prime num -> is_num_prime num = Some (-1)) /\
  (3 < num < PRIME_BOUND -> prime num -> is_num_prime num = Some 0) /\
  (PRIME_BOUND <= num -> prime num -> is_num_prime num = None /\ forall fuel, is_num_prime_loop fuel num 3 = None).
Proof.
  intros H. split; [|split; [|split]].
  - intros Hn. destruct (Z.lt_ge_cases num 2) as [Hl|Hl].
    + unfold is_num_prime. by rewrite (proj2 (Z.ltb_lt num 2)).
    + assert (num = 2 \/ num = 3) as [-> | ->] by lia; reflexivity.
  - intros Hn Hp. by destruct (is_num_prime_cases num ltac:(lia)) as [[? _]|[_ ?]].
  - intros Hn Hp. destruct (is_num_prime_dec num Hn) as [[_ ?]|[? _]]; done.
  - intros Hb Hp. assert (3 < num) by (unfold PRIME_BOUND in Hb; lia).
    split; [|intros fuel; apply is_num_prime_loop_none; [lia|done|done]].
    destruct (is_num_prime_cases num ltac:(lia)) as [[_ E]|[? _]]; [|done]. by rewrite prime_answer_from in E.
Qed.

Lemma is_num_prime_correct_witness :
  is_num_prime 3 = Some (-1) /\ is_num_prime 97 = Some 0 /\ is_num_prime 91 = Some (-1) /\
  is_num_prime PRIME_BOUND = Some (-1).
Proof.
  assert (prime 97) as H97.
  { destruct (is_num_prime_dec 97) as [[? _]|[_ E]]; [split; reflexivity|done|vm_compute in E; discriminate E]. }
  assert (~ prime 91) as H91 by (apply (divides_not_prime 91 ltac:(lia) 7); [lia|by exists 13]).
  assert (~ prime PRIME_BOUND) as Hbig.
  { apply (divides_not_prime PRIME_BOUND ltac:(split; reflexivity) 3037000499); [split; reflexivity|by exists 3037000499]. }
  destruct (is_num_prime_correct 3) as (H3 & _); [lia|]. destruct (is_num_prime_correct 97) as (_ & _ & H & _); [lia|].
  destruct (is_num_prime_correct 91) as (_ & H' & _); [lia|].
  destruct (is_num_prime_correct PRIME_BOUND) as (_ & Hb & _); [split; [discriminate|reflexivity]|].
  split; [by apply H3|]. split; [by apply H|]. split; [by apply H'|by apply Hb].
Defined.

(** The two smallest primes are rejected: the divisibility test by 2 and 3 runs
    before the loop, without comparing [num] to the divisor. *)
Lemma is_num_prime_2_3 : is_num_prime 2 = Some (-1) /\ is_num_prime 3 = Some (-1).
Proof. split; reflexivity. Qed.

Lemma next_prime_loop_spec fuel num p0 p :
  3 <= num < p0 -> p0 <= p -> p < PRIME_BOUND -> prime p ->
  (forall q, num < q < p -> ~ prime q) ->
  (Z.to_nat (p - p0) < fuel)%nat -> next_prime_loop fuel num p0 = Some p.
Proof.
  revert p0. induction fuel as [|f IH]; intros p0 Hn Hle Hb Hp Hq Hf; [lia|].
  cbn [next_prime_loop]. rewrite (proj2 (Z.ltb_lt num p0)) by lia.
  destruct (is_num_prime_dec p0) as [[Hpp ->]|[Hnp ->]]; [lia| |]; cbn [mbind option_bind].
  - assert (p0 = p) as -> by (destruct (Z.lt_ge_cases p0 p); [|lia]; exfalso; apply (Hq p0); [lia|done]).
    done.
  - assert (p0 <> p) by congruence. cbn. rewrite chk_n8_ok by (unfold PRIME_BOUND in *; lia).
    cbn. apply IH; auto; lia.
Qed.

(** [next_prime num] returns the least prime greater than [num]: when [p] is
    that prime, a fuel of [p - num] iterations reaches it and nothing overflows. *)
Theorem next_prime_least (num p : Z) (fuel : nat) :
  3 <= num -> num < p < PRIME_BOUND -> prime p ->
  (forall q, num < q < p -> ~ prime q) ->
  (Z.to_nat (p - num) <= fuel)%nat ->
  next_prime fuel num = Some p.
Proof.
  intros Hn Hp Hpp Hq Hf. unfold next_prime. rewrite (proj2 (Z.ltb_ge num 0)) by lia.
  rewrite chk_n8_ok by (unfold PRIME_BOUND in *; lia). cbn.
  apply next_prime_loop_spec; auto; lia.
Qed.

Lemma next_prime_least_witness : next_prime 8 89 = Some 97.
Proof.
  apply (next_prime_least 89 97 8); [lia|unfold PRIME_BOUND; lia| | |vm_compute; lia].
  - destruct (is_num_prime_dec 97) as [[H _]|[_ H]]; [unfold PRIME_BOUND; lia|done|].
    vm_compute in H. discriminate.
  - intros q Hq. destruct (is_num_prime_dec q) as [[H E]|[H _]]; [unfold PRIME_BOUND; lia| |done].
    assert (q = 90 \/ q = 91 \/ q = 92 \/ q = 93 \/ q = 94 \/ q = 95 \/ q = 96) as Hc by lia.
    destruct Hc as [->|[->|[->|[->|[->|[->| ->]]]]]]; vm_compute in E; discriminate.
Defined.

(** A result of [next_prime] is above its argument, or the error code. *)
Lemma next_prime_gt fuel num p :
  0 <= num -> next_prime fuel num = Some p -> num < p \/ p = -1.
Proof.
  unfold next_prime. intros Hn. rewrite (proj2 (Z.ltb_ge num 0)) by lia.
  destruct (chk_n8 (num + 1)) as [p0|] eqn:E; [|done]. cbn. clear E. revert p0.
  induction fuel as [|f IH]; intros p0; [done|]. cbn [next_prime_loop].
  destruct (num <? p0) eqn:E; to_prop; [|intros; simplify_eq; auto].
  destruct (is_num_prime p0) as [r|]; [|done]. cbn.
  destruct (r =? 0); [intros; simplify_eq; auto|].
  destruct (chk_n8 (p0 + 1)) as [p1|]; [|done]. apply IH.
Qed.

Lemma next_prime_range fuel num p :
  0 <= num -> next_prime fuel num = Some p -> num < p < 2 ^ 63.
Proof.
  unfold next_prime. intros Hn. rewrite (proj2 (Z.ltb_ge num 0)) by lia.
  assert (forall a b, chk_n8 a = Some b -> b = a /\ b < 2 ^ 63) as Hc.
  { intros a b. unfold chk_n8, in_n8. destruct (_ && _) eqn:E; [|done]. to_prop. intros [= <-]. lia. }
  destruct (chk_n8 (num + 1)) as [p0|] eqn:E; [|done]. apply Hc in E as [-> Hb]. cbn [mbind option_bind].
  assert (num < num + 1) as Hlt by lia. revert Hlt Hb. generalize (num + 1) as p0.
  induction fuel as [|f IH]; intros p0 Hlt Hb; [done|]. cbn [next_prime_loop].
  rewrite (proj2 (Z.ltb_lt num p0)) by lia.
  destruct (is_num_prime p0) as [r|]; [|done]. cbn [mbind option_bind].
  destruct (r =? 0); [intros; simplify_eq; lia|].
  destruct (chk_n8 (p0 + 1)) as [p1|] eqn:E1; [|done]. apply Hc in E1 as [-> Hb1]. apply IH; lia.
Qed.

(** ** Powers of two *)

Lemma is_pow_of_2_spec x :
  0 < x < U8_MOD -> is_pow_of_2 x = 0 <-> x = 2 ^ Z.log2 x.
Proof.
  intros Hx. unfold is_pow_of_2. rewrite u8_id by (unfold is_u8; lia).
  pose proof (Z.log2_nonneg x) as Hl. pose proof (Z.log2_spec x ltac:(lia)) as Hs.
  rewrite Z.pow_succ_r in Hs by lia.
  destruct (Z.land x (x - 1) =? 0) eqn:E; to_prop; split; intros H; try done.
  - destruct (decide (x = 2 ^ Z.log2 x)) as [|Hne]; [done|exfalso].
    assert (Z.testbit (Z.land x (x - 1)) (Z.log2 x) = true) as Hb; [|rewrite E, Z.bits_0 in Hb; done].
    rewrite Z.land_spec, Z.bit_log2 by lia.
    rewrite <- (Z.log2_unique (x - 1) (Z.log2 x)) by (rewrite ?Z.pow_succ_r; lia).
    rewrite Z.bit_log2 by lia. done.
  - exfalso. apply E. rewrite H. rewrite <- Z.pred_succ with (n := 2 ^ Z.log2 x) at 2.
    replace (Z.pred (Z.succ (2 ^ Z.log2 x)) - 1) with (Z.ones (Z.log2 x))
      by (rewrite Z.ones_equiv; lia).
    rewrite Z.land_ones by lia. apply Z.mod_same. lia.
Qed.

(** [y] is [x] with every set bit copied into the [k - 1] positions below it. *)
Definition smeared (x k y : Z) : Prop :=
  forall i, 0 <= i -> Z.testbit y i = true <-> exists j, 0 <= j < k /\ Z.testbit x (i + j) = true.

Lemma smeared_double x k y :
  0 < k -> smeared x k y -> smeared x (2 * k) (Z.lor y (Z.shiftr y k)).
Proof.
  intros Hk H i Hi. rewrite Z.lor_spec, Z.shiftr_spec, orb_true_iff by lia.
  rewrite (H i), (H (i + k)) by lia. split.
  - intros [(j & ? & Hj)|(j & ? & Hj)]; [exists j; split; [lia|done]|].
    exists (k + j). split; [lia|]. by replace (i + (k + j)) with (i + k + j) by lia.
  - intros (j & Hj & Hb). destruct (Z.lt_ge_cases j k); [left; exists j; split; [lia|done]|].
    right. exists (j - k). split; [lia|]. by replace (i + k + (j - k)) with (i + j) by lia.
Qed.

Lemma smeared_ones x k y :
  0 < x -> Z.log2 x < k -> 0 <= y -> smeared x k y -> y = Z.ones (Z.log2 x + 1).
Proof.
  intros Hx Hk Hy H. apply Z.bits_inj'. intros i Hi.
  destruct (Z.le_gt_cases i (Z.log2 x)) as [Hle|Hgt].
  - rewrite Z.ones_spec_low by lia. apply H; [done|]. exists (Z.log2 x - i).
    split; [lia|]. replace (i + (Z.log2 x - i)) with (Z.log2 x) by lia. by apply Z.bit_log2.
  - rewrite Z.ones_spec_high by (pose proof (Z.log2_nonneg x); lia).
    destruct (Z.testbit y i) eqn:E; [|done]. apply H in E as (j & Hj & E); [|done].
    rewrite Z.bits_above_log2 in E by lia. done.
Qed.

(** The five shift-or steps of [next_pow_of_2]. *)
Lemma smear32 x (x1 := Z.lor x (Z.shiftr x 1)) (x2 := Z.lor x1 (Z.shiftr x1 2))
  (x3 := Z.lor x2 (Z.shiftr x2 4)) (x4 := Z.lor x3 (Z.shiftr x3 8))
  (x5 := Z.lor x4 (Z.shiftr x4 16)) :
  0 <= x -> smeared x 32 x5 /\ 0 <= x5.
Proof.
  intros Hx. split.
  - apply (smeared_double x 16 x4), (smeared_double x 8 x3), (smeared_double x 4 x2),
      (smeared_double x 2 x1), (smeared_double x 1 x); try lia.
    intros i Hi. split; [intros; exists 0; split; [lia|by rewrite Z.add_0_r]|].
    intros (j & ? & Hj). by replace (i + j) with i in Hj by lia.
  - assert (forall y k, 0 <= y -> 0 <= Z.lor y (Z.shiftr y k)) as Hl
      by (intros; apply Z.lor_nonneg; split; [|apply Z.shiftr_nonneg]; done).
    unfold x5, x4, x3, x2, x1. auto 7.
Qed.

Lemma next_pow_of_2_up (x : Z) :
  0 < x <= 2 ^ 32 -> next_pow_of_2 x = 2 ^ Z.log2_up x.
Proof.
  intros Hx. unfold next_pow_of_2.
  assert (is_pow_of_2 x = 0 <-> x = 2 ^ Z.log2 x) as Hp
    by (apply is_pow_of_2_spec; unfold U8_MOD; lia).
  destruct (is_pow_of_2 x =? 0) eqn:E; to_prop.
  - apply Hp in E. rewrite E at 2. rewrite Z.log2_up_pow2 by apply Z.log2_nonneg. done.
  - assert (x <> 2 ^ Z.log2 x) as Hne by (intros ?; apply E, Hp; done).
    assert (1 < x) by (destruct (decide (x = 1)) as [->|]; [done|lia]).
    assert (x < 2 ^ 32) by (destruct (decide (x = 2 ^ 32)) as [->|]; [done|lia]).
    assert (Z.log2 x < 32) by (apply Z.log2_lt_pow2; lia).
    pose proof (Z.log2_nonneg x) as Hl0.
    destruct (smear32 x ltac:(lia)) as [S32 Hnn]. cbv zeta.
    apply smeared_ones in S32 as ->; [|lia|lia|exact Hnn].
    rewrite Z.ones_equiv.
    assert (2 ^ (Z.log2 x + 1) <= 2 ^ 32) by (apply Z.pow_le_mono_r; lia).
    assert (0 < 2 ^ (Z.log2 x + 1)) by (apply Z.pow_pos_nonneg; lia).
    rewrite u8_id by (unfold is_u8, U8_MOD; lia).
    replace (Z.pred (2 ^ (Z.log2 x + 1)) + 1) with (2 ^ (Z.log2 x + 1)) by lia.
    f_equal. symmetry. apply Z.log2_up_unique; [lia|].
    pose proof (Z.log2_spec x ltac:(lia)) as Hs. rewrite <- Z.add_1_r in Hs.
    replace (Z.pred (Z.log2 x + 1)) with (Z.log2 x) by lia. lia.
Qed.

Lemma next_pow_of_2_bounds x : 0 < x <= 2 ^ 32 -> x <= next_pow_of_2 x < 2 * x.
Proof.
  intros Hx. rewrite next_pow_of_2_up by done.
  destruct (decide (x = 1)) as [->|]; [done|].
  pose proof (Z.log2_up_spec x ltac:(lia)) as Hs. split; [lia|].
  pose proof (Z.log2_up_pos x ltac:(lia)).
  replace (Z.log2_up x) with (Z.succ (Z.pred (Z.log2_up x))) by lia.
  rewrite Z.pow_succ_r by lia. lia.
Qed.

(** On 1 .. 2^32, [next_pow_of_2] is the least power of two that is not below
    its argument. *)
Theorem next_pow_of_2_correct (x : Z) :
  0 < x <= 2 ^ 32 ->
  (exists k, 0 <= k /\ next_pow_of_2 x = 2 ^ k) /\ x <= next_pow_of_2 x /\
  forall k, 0 <= k -> x <= 2 ^ k -> next_pow_of_2 x <= 2 ^ k.
Proof.
  intros Hx. split; [|split].
  - exists (Z.log2_up x). split; [apply Z.log2_up_nonneg|]. by apply next_pow_of_2_up.
  - by apply next_pow_of_2_bounds.
  - intros k Hk Hle. rewrite next_pow_of_2_up by done. apply Z.pow_le_mono_r; [lia|].
    rewrite <- (Z.log2_up_pow2 k) by done. by apply Z.log2_up_le_mono.
Qed.

Lemma next_pow_of_2_correct_witness :
  next_pow_of_2 1000 = 1024 /\ forall k, 0 <= k -> 1000 <= 2 ^ k -> next_pow_of_2 1000 <= 2 ^ k.
Proof. split; [vm_compute; reflexivity | apply (next_pow_of_2_correct 1000); lia]. Defined.

(** Above 2^32 the smearing stops short: shifts go up to 16 only. *)
Lemma next_pow_of_2_wide : next_pow_of_2 (2 ^ 40 + 1) <> 2 ^ Z.log2_up (2 ^ 40 + 1).
Proof. vm_compute. discriminate. Qed.

(** ** Integer power *)

Definition fits_n4 (z : Z) : Prop := - 2 ^ 31 <= z < 2 ^ 31.

Lemma abs_pow_le x k n : 1 <= Z.abs x -> 0 <= k <= n -> Z.abs (x ^ k) <= Z.abs (x ^ n).
Proof.
  intros Hx Hk. rewrite !Z.abs_pow. apply Z.pow_le_mono_r; lia.
Qed.

(** Every lower power of a representable power is representable. *)
Lemma pow_fits x k n : fits_n4 (x ^ n) -> fits_n4 x -> 0 <= k <= n -> fits_n4 (x ^ k).
Proof.
  intros Hn Hx Hk. unfold fits_n4 in *.
  destruct (decide (k = n)) as [->|Hne]; [done|].
  destruct (decide (x = 0)) as [->|Hx0].
  { destruct (decide (k = 0)) as [->|]; [cbn; lia|]. rewrite Z.pow_0_l; lia. }
  destruct (decide (Z.abs x = 1)) as [H1|H1].
  { pose proof (abs_pow_le x 0 k ltac:(lia) ltac:(lia)).
    assert (Z.abs (x ^ k) = 1); [|lia]. rewrite Z.abs_pow, H1. apply Z.pow_1_l. lia. }
  assert (Z.abs (x ^ (k + 1)) <= Z.abs (x ^ n)) as Hle by (apply abs_pow_le; lia).
  rewrite Z.pow_add_r, Z.pow_1_r, Z.abs_mul in Hle by lia. nia.
Qed.

Lemma shiftr_1 n : Z.shiftr n 1 = n / 2.
Proof. rewrite Z.shiftr_div_pow2 by lia. done. Qed.

Lemma land_1 n : Z.land n 1 = n mod 2.
Proof. change 1 with (Z.ones 1). rewrite Z.land_ones by lia. done. Qed.

Lemma pow_double x0 a : 0 <= a -> x0 ^ a * x0 ^ a = x0 ^ (2 * a).
Proof. intros. rewrite <- Z.pow_add_r by lia. f_equal. lia. Qed.

Section IntPow.
Context (x0 n0 : Z) (Hx0 : fits_n4 x0) (Hfit : fits_n4 (x0 ^ n0)).

Lemma chk_pow k : 0 <= k <= n0 -> chk_n4 (x0 ^ k) = Some (x0 ^ k).
Proof. intros. apply chk_n4_ok. by apply (pow_fits x0 k n0). Qed.

Lemma qintpow_strip_spec (fuel : nat) a n :
  1 <= a -> 1 <= n < 2 ^ Z.of_nat fuel -> a * n = n0 ->
  exists a' n', qintpow_strip fuel (x0 ^ a) n = Some (x0 ^ a', n') /\
                1 <= a' /\ 1 <= n' <= n /\ n' mod 2 = 1 /\ a' * n' = n0.
Proof.
  revert a n. induction fuel as [|f IH]; intros a n Ha Hn Hp; [cbn in Hn; lia|].
  rewrite Nat2Z.inj_succ, Z.pow_succ_r in Hn by lia.
  cbn [qintpow_strip]. rewrite land_1, shiftr_1.
  pose proof (Z.div_mod n 2 ltac:(lia)) as Hdm. pose proof (Z.mod_pos_bound n 2 ltac:(lia)).
  destruct (n mod 2 =? 0) eqn:E; to_prop.
  - assert (1 <= n / 2) by lia. assert (2 * a <= n0) by nia.
    rewrite pow_double, chk_pow by lia. cbn.
    destruct (IH (2 * a) (n / 2)) as (a' & n' & -> & ? & ? & ? & ?); [nia..|].
    exists a', n'. repeat split; auto; lia.
  - exists a, n. repeat split; auto; lia.
Qed.

Lemma qintpow_loop_spec (fuel : nat) a n b :
  1 <= a -> 0 <= n -> n < 2 ^ Z.of_nat fuel / 2 -> 0 <= b -> b + 2 * a * n = n0 ->
  qintpow_loop fuel (x0 ^ a) n (x0 ^ b) = Some (x0 ^ n0).
Proof.
  revert a n b. induction fuel as [|f IH]; intros a n b Ha Hn Hf Hb Hp.
  { change (2 ^ Z.of_nat 0 / 2) with 0 in Hf. lia. }
  rewrite Nat2Z.inj_succ, Z.pow_succ_r in Hf by lia.
  replace (2 * 2 ^ Z.of_nat f / 2) with (2 ^ Z.of_nat f) in Hf
    by (rewrite Z.mul_comm, Z.div_mul by lia; done).
  cbn [qintpow_loop]. rewrite land_1, shiftr_1.
  destruct (n =? 0) eqn:E; to_prop.
  - assert (b = n0) as <- by nia. done.
  - pose proof (Z.div_mod n 2 ltac:(lia)) as Hdm. pose proof (Z.mod_pos_bound n 2 ltac:(lia)).
    assert (n / 2 < 2 ^ Z.of_nat f / 2).
    { destruct f as [|f']; [change (2 ^ Z.of_nat 0) with 1 in Hf; lia|]. rewrite Nat2Z.inj_succ, Z.pow_succ_r in * by lia.
      rewrite (Z.mul_comm 2 (2 ^ _)), Z.div_mul by lia. apply Z.div_lt_upper_bound; lia. }
    assert (1 <= n) by lia. assert (2 * a <= n0) by nia.
    rewrite pow_double, chk_pow by lia. cbn [mbind option_bind].
    destruct (n mod 2 =? 0) eqn:E2; to_prop.
    + cbn [mbind option_bind]. apply IH; auto; nia.
    + assert (b + 2 * a <= n0) by nia.
      rewrite <- Z.pow_add_r, chk_pow by lia. cbn [mbind option_bind]. apply IH; auto; nia.
Qed.
End IntPow.

(** Whenever [x ^ n] is representable in [n4], [qintpow x n] returns it:
    both loops end and no intermediate square or product overflows. *)
Theorem qintpow_exact (x n : Z) :
  fits_n4 x -> is_u4 n -> fits_n4 (x ^ n) -> qintpow x n = Some (x ^ n).
Proof.
  intros Hx Hn Hfit. unfold qintpow. destruct (n =? 0) eqn:E; to_prop; [by subst|].
  unfold is_u4, U4_MOD in Hn.
  destruct (qintpow_strip_spec x n Hx Hfit 33 1 n) as (a & n' & Hs & Ha & Hn' & Hodd & Hp);
    [lia..|]. rewrite Z.pow_1_r in Hs. rewrite Hs. cbn [mbind option_bind].
  rewrite shiftr_1. pose proof (Z.div_mod n' 2 ltac:(lia)).
  assert (0 <= n' / 2 < 2 ^ 32) by (split; [apply Z.div_pos|apply Z.div_lt_upper_bound]; lia).
  apply qintpow_loop_spec; auto; try nia.
  change (2 ^ Z.of_nat 33 / 2) with (2 ^ 32). lia.
Qed.

Lemma qintpow_exact_witness : qintpow (-2) 31 = Some (- 2 ^ 31).
Proof. apply (qintpow_exact (-2) 31); unfold fits_n4, is_u4, U4_MOD; cbn; lia. Defined.

(** ** Swaps *)

Lemma lxor_swap x y : Z.lxor (Z.lxor x y) y = x.
Proof. by rewrite Z.lxor_assoc, Z.lxor_nilpotent, Z.lxor_0_r. Qed.

Lemma lxor_swap' x y : Z.lxor (Z.lxor x y) x = y.
Proof. by rewrite Z.lxor_comm, <- Z.lxor_assoc, Z.lxor_nilpotent, Z.lxor_0_l. Qed.

Lemma xor_swap_ne (m : list Z) a b x y :
  a <> b -> m !! a = Some x -> m !! b = Some y ->
  xor_swap m a b = Some (<[a := y]> (<[b := x]> m)).
Proof.
  intros Hab Ha Hb. pose proof (lookup_lt_Some _ _ _ Ha). pose proof (lookup_lt_Some _ _ _ Hb).
  unfold xor_swap. rewrite Ha, Hb. cbn.
  rewrite list_lookup_insert_eq, list_lookup_insert_ne, Hb by lia. cbn.
  rewrite (list_lookup_insert_ne _ b a), list_lookup_insert_eq, list_lookup_insert_eq
    by (rewrite ?length_insert; lia). cbn.
  rewrite lxor_swap, lxor_swap'. f_equal.
  rewrite (list_insert_insert_ne _ b a) by lia. by rewrite list_insert_insert_eq.
Qed.

(** Two pointers to the same object: the exchange clears it. *)
Lemma xor_swap_alias (m : list Z) a x :
  m !! a = Some x -> xor_swap m a a = Some (<[a := 0]> m).
Proof.
  intros Ha. pose proof (lookup_lt_Some _ _ _ Ha). unfold xor_swap. rewrite Ha. cbn.
  rewrite !list_lookup_insert_eq by (rewrite ?length_insert; auto). cbn.
  rewrite !list_lookup_insert_eq by (rewrite ?length_insert; auto). cbn.
  by rewrite !list_insert_insert_eq, !Z.lxor_nilpotent.
Qed.

Lemma swap_loop_spec (n : nat) (m : list Z) a b :
  (a + n <= b \/ b + n <= a)%nat -> (a + n <= length m)%nat -> (b + n <= length m)%nat ->
  exists m', swap_loop n m a b = Some m' /\ length m' = length m /\
    forall i, m' !! i = (if decide (a <= i < a + n)%nat then m !! (b + (i - a))%nat
                         else if decide (b <= i < b + n)%nat then m !! (a + (i - b))%nat
                         else m !! i).
Proof.
  revert m a b. induction n as [|n IH]; intros m a b Hd Ha Hb.
  { exists m. split; [done|]. split; [done|]. intros i. rewrite !decide_False by lia. done. }
  destruct (lookup_lt_is_Some_2 m a ltac:(lia)) as [x Hx].
  destruct (lookup_lt_is_Some_2 m b ltac:(lia)) as [y Hy].
  cbn [swap_loop]. rewrite (xor_swap_ne m a b x y) by (auto; lia). cbn.
  destruct (IH (<[a:=y]> (<[b:=x]> m)) (S a) (S b)) as (m' & -> & Hl & Hm);
    rewrite ?length_insert; [lia..|].
  exists m'. split; [done|]. split; [by rewrite Hl, !length_insert|]. intros i. rewrite Hm.
  destruct (decide (i = a)) as [->|Hia]; [|destruct (decide (i = b)) as [->|Hib]].
  - rewrite (decide_True (P := (a <= a < a + S n)%nat)) by lia. rewrite !decide_False by lia.
    rewrite list_lookup_insert_eq by (rewrite length_insert; lia). rewrite <- Hy. f_equal. lia.
  - rewrite (decide_True (P := (b <= b < b + S n)%nat)) by lia. rewrite !decide_False by lia.
    rewrite list_lookup_insert_ne, list_lookup_insert_eq by lia. rewrite <- Hx. f_equal. lia.
  - repeat case_decide; try lia; rewrite !list_lookup_insert_ne by lia; f_equal; lia.
Qed.

(** On two disjoint ranges inside the memory, [_swap] returns 0, exchanges the
    two ranges byte by byte and leaves every other byte alone. *)
Theorem swap_exchanges (m : list Z) (p0 p1 : nat) (len : Z) :
  0 < len ->
  Z.of_nat p0 + len <= Z.of_nat p1 \/ Z.of_nat p1 + len <= Z.of_nat p0 ->
  Z.of_nat p0 + len <= blen m -> Z.of_nat p1 + len <= blen m ->
  exists m', _swap m (Some p0) (Some p1) len = Some (0, m') /\ length m' = length m /\
    forall i, m' !! i =
      (if decide (p0 <= i < p0 + Z.to_nat len)%nat then m !! (p1 + (i - p0))%nat
       else if decide (p1 <= i < p1 + Z.to_nat len)%nat then m !! (p0 + (i - p1))%nat
       else m !! i).
Proof.
  intros Hlen Hd H0 H1. unfold blen in *. unfold _swap, in_range.
  rewrite (proj2 (Z.leb_gt len 0)) by lia.
  destruct (_ || _) eqn:E; to_prop; [destruct E as [E|E]; to_prop; lia|].
  destruct (swap_loop_spec (Z.to_nat len) m p0 p1) as (m' & -> & Hl & Hm); [lia..|].
  exists m'. auto.
Qed.

Lemma swap_exchanges_witness :
  exists m', _swap [1; 2; 3; 4; 5] (Some 0%nat) (Some 3%nat) 2 = Some (0, m') /\
             m' !! 0%nat = Some 4 /\ m' !! 2%nat = Some 3.
Proof.
  destruct (swap_exchanges [1; 2; 3; 4; 5] 0 3 2) as (m' & E & _ & Hm); [unfold blen; cbn [length]; lia..|].
  exists m'. split; [exact E|]. split; rewrite Hm; reflexivity.
Defined.

(** Overlapping ranges are refused before any byte moves. *)
Lemma swap_overlap_refused (m : list Z) (p0 p1 : nat) (len : Z) :
  0 < len -> Z.abs (Z.of_nat p0 - Z.of_nat p1) < len ->
  _swap m (Some p0) (Some p1) len = Some (-1, m).
Proof.
  intros Hlen Ho. unfold _swap, in_range. rewrite (proj2 (Z.leb_gt len 0)) by lia.
  destruct (_ || _) eqn:E; [done|]. to_prop.
  destruct (Z.of_nat p0 <=? Z.of_nat p1) eqn:E1, (Z.of_nat p1 <=? Z.of_nat p0) eqn:E2;
    cbn in *; to_prop; lia.
Qed.

(** ** Byte order *)

Lemma le_combine_split n w : 0 <= w < 256 ^ Z.of_nat n -> le_combine (le_split n w) = w.
Proof.
  revert w. induction n as [|n IH]; intros w Hw; [cbn in *; lia|].
  rewrite Nat2Z.inj_succ, Z.pow_succ_r in Hw by lia. cbn [le_split le_combine].
  rewrite IH; [pose proof (Z.div_mod w 256); lia|].
  split; [apply Z.div_pos; lia|apply Z.div_lt_upper_bound; lia].
Qed.

(** The SWAP macro has no case for operands of one byte, so the conversions to
    network order leave every value unchanged on the little-endian path. *)
Lemma hton_identity (v : Z) :
  (0 <= v < 2 ^ 16 -> hton2 v = Some v) /\
  (0 <= v < 2 ^ 32 -> hton4 v = Some v) /\
  (0 <= v < 2 ^ 64 -> hton8 v = Some v).
Proof.
  repeat split; intros H; unfold hton2, hton4, hton8, SWAP, sizeof_un1;
    cbn [Z.eqb Pos.eqb mbind option_bind]; rewrite le_combine_split; (done || (cbn; lia)).
Qed.

End Math.
