(* ===== verification/CText.v ===== *)
(** * Characters, C strings and numerals

    What the programs below use of string.h, ctype.h, stdlib.h and [sprintf], on
    lists of bytes: strings that end at a zero byte, the search for a character,
    decimal numerals and their reading. *)

From Stdlib Require Import Ascii String.
From S2P Require Import Prelude.

Module CText.

(** The characters of a literal. *)
Definition chars (s : string) : bytes := List.map (fun c => Z.of_nat (nat_of_ascii c)) (list_ascii_of_string s).

(** ** C strings inside buffers *)

(** The part of a buffer before its terminator. *)
Fixpoint c_string (b : bytes) : bytes :=
  match b with [] => [] | c :: b' => if c =? 0 then [] else c :: c_string b' end.

Definition strlen (b : bytes) : Z := blen (c_string b).

(** The characters before the terminator, which must be there. *)
Fixpoint c_str (b : bytes) : option bytes :=
  match b with
  | [] => None
  | c :: b' => if c =? 0 then Some [] else s ← c_str b'; Some (c :: s)
  end.

(** [memcmp] of the C library on [n] bytes: the sign of the first difference. *)
Fixpoint memcmp (n : nat) (a b : bytes) : option Z :=
  match n with
  | O => Some 0
  | S n' =>
      match a, b with
      | x :: a', y :: b' => if x <? y then Some (-1) else if y <? x then Some 1 else memcmp n' a' b'
      | _, _ => None
      end
  end.

(** The first place of [c] before the terminator. *)
Fixpoint strchr (b : bytes) (c : Z) : option Z :=
  match b with
  | [] => None
  | x :: b' => if x =? 0 then None else if x =? c then Some 0 else i ← strchr b' c; Some (i + 1)
  end.

Definition isspace (c : Z) : bool := (c =? 32) || ((9 <=? c) && (c <=? 13)).

(** [sprintf] of a number that is not negative. *)
Fixpoint dec_loop (fuel : nat) (n : Z) (acc : bytes) : bytes :=
  match fuel with
  | O => acc
  | S f => let acc := 48 + n mod 10 :: acc in if n <? 10 then acc else dec_loop f (n / 10) acc
  end.
Definition dec (n : Z) : bytes := dec_loop (S (Z.to_nat (Z.log2 n))) n [].

Definition isdigit (c : Z) : bool := (48 <=? c) && (c <=? 57).

(** The number at the start of a string, and how many digits it has. *)
Fixpoint digits (b : bytes) (acc : Z) : Z :=
  match b with c :: b' => if isdigit c then digits b' (acc * 10 + (c - 48)) else acc | [] => acc end.
Fixpoint digit_count (b : bytes) : Z :=
  match b with c :: b' => if isdigit c then 1 + digit_count b' else 0 | [] => 0 end.
Fixpoint space_count (b : bytes) : Z :=
  match b with c :: b' => if isspace c then 1 + space_count b' else 0 | [] => 0 end.

(** What [strtol] and [strtoul] read: whether there is a minus, the number, and how many
    characters; nil when there is no digit. *)
Definition numeral (b : bytes) : option (bool * Z * Z) :=
  let spaces := space_count b in
  let b := drop (Z.to_nat spaces) b in
  let '(neg, sign) :=
    match b with c :: _ => if c =? 45 then (true, 1) else if c =? 43 then (false, 1) else (false, 0) | [] => (false, 0) end in
  let b := drop (Z.to_nat sign) b in
  if digit_count b =? 0 then None else Some (neg, digits b 0, spaces + sign + digit_count b).

(** A [long] and an [unsigned long] have 64 bits.  [strtol] also returns where it stopped. *)
Definition strtol (b : bytes) : Z * Z :=
  match numeral b with
  | None => (0, 0)
  | Some (neg, v, n) => (if neg then Z.max (- v) (- 2 ^ 63) else Z.min v (2 ^ 63 - 1), n)
  end.
Definition strtoul (b : bytes) : Z :=
  match numeral b with
  | None => 0
  | Some (neg, v, _) => if U8_MOD <=? v then U8_MOD - 1 else if neg : bool then u8 (- v) else v
  end.

(** ** C strings *)

Lemma c_string_id b : Forall (.≠ 0) b -> c_string b = b.
Proof. induction 1 as [|c b Hc _ IH]; [done|]. cbn. destruct (Z.eqb_spec c 0); [done|]. by rewrite IH. Qed.

Lemma strlen_id b : Forall (.≠ 0) b -> strlen b = blen b.
Proof. intros H. unfold strlen. by rewrite c_string_id. Qed.

Lemma strchr_absent b c : Forall (.≠ 0) b -> c ∉ b -> strchr b c = None.
Proof.
  induction 1 as [|x b Hx _ IH]; [done|]. intros Hc. apply not_elem_of_cons in Hc as [? ?]. cbn.
  destruct (Z.eqb_spec x 0); [done|]. destruct (Z.eqb_spec x c); [done|]. by rewrite IH.
Qed.

Lemma strchr_first a b c : Forall (.≠ 0) a -> c ∉ a -> c <> 0 -> strchr (a ++ c :: b) c = Some (blen a).
Proof.
  intros Ha Hc H0. revert Hc. induction Ha as [|x a Hx _ IH]; intros Hc; cbn.
  - destruct (Z.eqb_spec c 0); [done|]. by rewrite Z.eqb_refl.
  - apply not_elem_of_cons in Hc as [? ?]. destruct (Z.eqb_spec x 0); [done|].
    destruct (Z.eqb_spec x c); [done|]. rewrite IH by done. cbn. f_equal. unfold blen. cbn [length]. lia.
Qed.

(** [strchr] cuts a string in the part before the character and what follows. *)
Lemma strchr_cut b c :
  Forall (.≠ 0) b ->
  (strchr b c = None /\ c ∉ b) \/
  exists x y, b = x ++ c :: y /\ c ∉ x /\ strchr b c = Some (blen x).
Proof.
  induction 1 as [|x b Hx Hb IH]; [left; split; [done|apply not_elem_of_nil]|].
  cbn. destruct (Z.eqb_spec x 0); [done|]. destruct (Z.eqb_spec x c) as [->|Hc].
  { right. exists [], b. split_and!; [done|apply not_elem_of_nil|done]. }
  destruct IH as [[-> Hn]|(y & z & -> & Hn & ->)].
  - left. split; [done|]. apply not_elem_of_cons. split; congruence.
  - right. exists (x :: y), z. split_and!; [done| |].
    + apply not_elem_of_cons. split; congruence.
    + cbn. f_equal. unfold blen. cbn [length]. lia.
Qed.

(** The C string of [s], which has no 0. *)
Definition cstring (s : bytes) : bytes := s ++ [0].
Definition no_nul (s : bytes) : Prop := Forall (fun c => c <> 0) s.

Lemma c_str_cstring s : no_nul s -> c_str (cstring s) = Some s.
Proof.
  induction 1 as [|c s Hc Hs IH]; [done|]. cbn. rewrite (proj2 (Z.eqb_neq _ _)) by done.
  fold (cstring s). by rewrite IH.
Qed.

Lemma c_str_prefix b t : c_str b = Some t -> exists z, b = t ++ 0 :: z /\ no_nul t.
Proof.
  revert t. induction b as [|c b IH]; intros t; [done|]. cbn. destruct (Z.eqb_spec c 0) as [->|Hc].
  - intros [= <-]. exists b. by split; [|constructor].
  - destruct (c_str b) as [t'|]; [|done]. intros [= <-]. destruct (IH t' eq_refl) as (z & -> & Hn).
    exists z. split; [done|by constructor].
Qed.

Lemma c_str_app x z : c_str (x ++ 0 :: z) = Some (c_string x).
Proof.
  induction x as [|c x IH]; [done|]. cbn. destruct (Z.eqb_spec c 0); [done|]. cbn in IH. by rewrite IH.
Qed.

(** A buffer with a terminator behind [x], cut at its first terminator. *)
Lemma c_string_split x z : exists w, c_str (x ++ 0 :: z) = Some (c_string x) /\ x ++ 0 :: z = c_string x ++ 0 :: w /\
  blen (c_string x) <= blen x.
Proof.
  destruct (c_str_prefix _ _ (c_str_app x z)) as (w & E & _). exists w. split_and!; [apply c_str_app|done|].
  clear. induction x as [|c x IH]; [done|]. cbn. destruct (c =? 0); unfold blen in *; cbn [length]; lia.
Qed.

Lemma memcmp_refl a b : memcmp (length a) a (a ++ b) = Some 0.
Proof. induction a as [|x a IH]; [done|]. cbn. by rewrite Z.ltb_irrefl. Qed.

Lemma memcmp_eq n a b : length a = n -> length b = n -> memcmp n a b = Some 0 <-> a = b.
Proof.
  revert a b. induction n as [|n IH]; intros [|x a] [|y b]; try done. cbn. intros [= Ha] [= Hb].
  destruct (x <? y) eqn:E; to_prop; [split; [done|intros [= -> ->]; lia]|].
  destruct (y <? x) eqn:E2; to_prop; [split; [done|intros [= -> ->]; lia]|].
  rewrite IH by done. split; [intros ->; f_equal; lia|by intros [= ? ->]].
Qed.

Lemma memcmp_total n a b : length a = n -> length b = n -> exists c, memcmp n a b = Some c.
Proof.
  revert a b. induction n as [|n IH]; intros [|x a] [|y b]; try done; cbn; [eauto|]. intros [= Ha] [= Hb].
  destruct (x <? y); [eauto|]. destruct (y <? x); eauto.
Qed.

(** ** Numerals *)

Definition is_digit (c : Z) : Prop := isdigit c = true.

Lemma digit_range c : is_digit c <-> 48 <= c <= 57.
Proof. unfold is_digit, isdigit. rewrite andb_true_iff, !Z.leb_le. done. Qed.

Lemma dec_loop_digits fuel n acc :
  (fuel <> 0)%nat -> 0 <= n < 10 ^ Z.of_nat fuel ->
  exists ds, dec_loop fuel n acc = ds ++ acc /\ ds <> [] /\ (length ds <= fuel)%nat /\ Forall is_digit ds /\
    forall b a, digits (ds ++ b) a = digits b (a * 10 ^ blen ds + n).
Proof.
  revert n acc. induction fuel as [|f IH]; intros n acc H0 Hn; [done|].
  cbn [dec_loop]. pose proof (Z.mod_pos_bound n 10). pose proof (Z.div_mod n 10).
  assert (Hc : is_digit (48 + n mod 10)) by (apply digit_range; lia).
  assert (Hd : forall b a, digits (48 + n mod 10 :: b) a = digits b (a * 10 + n mod 10)).
  { intros b a. cbn. rewrite Hc. f_equal. lia. }
  destruct (Z.ltb_spec n 10) as [Hs|Hs].
  - exists [48 + n mod 10]. split_and!; [done..|cbn; lia|by repeat constructor|].
    intros b a. cbn [app]. rewrite Hd, Z.mod_small by lia. f_equal.
  - rewrite Nat2Z.inj_succ, Z.pow_succ_r in Hn by lia.
    destruct (IH (n / 10) (48 + n mod 10 :: acc)) as (ds & -> & Hne & Hl & Hf & Hk).
    { destruct f; [cbn in Hn; lia|done]. }
    { split; [apply Z.div_pos; lia|]. apply Z.div_lt_upper_bound; lia. }
    exists (ds ++ [48 + n mod 10]). rewrite <- app_assoc, length_app, Forall_app. cbn [length].
    split_and!; [done|by destruct ds|lia|done|by repeat constructor|].
    intros b a. rewrite <- app_assoc, Hk, blen_app. cbn [app]. rewrite Hd.
    change (blen [48 + n mod 10]) with 1. pose proof (blen_nonneg ds). rewrite Z.pow_add_r by lia. f_equal. lia.
Qed.

Lemma dec_digits n :
  0 <= n -> dec n <> [] /\ (length (dec n) <= S (Z.to_nat (Z.log2 n)))%nat /\ Forall is_digit (dec n) /\
    forall b a, digits (dec n ++ b) a = digits b (a * 10 ^ blen (dec n) + n).
Proof.
  intros Hn. unfold dec.
  destruct (dec_loop_digits (S (Z.to_nat (Z.log2 n))) n []) as (ds & -> & H).
  { done. }
  { split; [lia|]. pose proof (Z.log2_nonneg n). rewrite Nat2Z.inj_succ, Z2Nat.id by lia.
    destruct (Z.eq_dec n 0) as [->|]; [cbn; lia|]. pose proof (Z.log2_spec n).
    pose proof (Z.pow_le_mono_l 2 10 (Z.succ (Z.log2 n))). lia. }
  by rewrite app_nil_r.
Qed.

(** The fuel does not matter. *)
Lemma dec_loop_fuel f g n acc : (f <> 0)%nat -> (g <> 0)%nat -> 0 <= n < 10 ^ Z.of_nat f -> n < 10 ^ Z.of_nat g ->
  dec_loop f n acc = dec_loop g n acc.
Proof.
  revert g n acc. induction f as [|f IH]; intros [|g] n acc Hf0 Hg0 Hf Hg; try done. cbn [dec_loop].
  destruct (Z.ltb_spec n 10); [done|]. rewrite !Nat2Z.inj_succ, Z.pow_succ_r in Hf, Hg by lia.
  apply IH.
  - intros ->. cbn in Hf. lia.
  - intros ->. cbn in Hg. lia.
  - split; [apply Z.div_pos; lia|]. apply Z.div_lt_upper_bound; lia.
  - apply Z.div_lt_upper_bound; lia.
Qed.

Lemma dec_fuel f n : (f <> 0)%nat -> 0 <= n < 10 ^ Z.of_nat f -> dec n = dec_loop f n [].
Proof.
  intros Hf Hn. unfold dec. pose proof (Z.log2_nonneg n). apply dec_loop_fuel; [done|done| |lia]. split; [lia|].
  rewrite Nat2Z.inj_succ, Z2Nat.id by lia. destruct (Z.eq_dec n 0) as [->|]; [cbn; lia|].
  pose proof (Z.log2_spec n). pose proof (Z.pow_le_mono_l 2 10 (Z.succ (Z.log2 n))). lia.
Qed.

Lemma dec_length f n : (f <> 0)%nat -> 0 <= n < 10 ^ Z.of_nat f -> (length (dec n) <= f)%nat.
Proof.
  intros Hf Hn. rewrite (dec_fuel f n Hf Hn). destruct (dec_loop_digits f n [] Hf Hn) as (ds & -> & _ & Hl & _).
  by rewrite app_nil_r.
Qed.

Definition ends_numeral (b : bytes) : Prop := match b with c :: _ => ~ is_digit c | [] => True end.

Lemma digit_count_app ds b : Forall is_digit ds -> ends_numeral b -> digit_count (ds ++ b) = blen ds.
Proof.
  intros H Hb. induction H as [|c ds Hc _ IH]; cbn.
  - destruct b as [|c b]; [done|]. cbn. unfold ends_numeral, is_digit in Hb. by destruct (isdigit c).
  - rewrite Hc, IH. unfold blen. cbn [length]. lia.
Qed.

(** What [sprintf] wrote is read as the number. *)
Lemma numeral_dec n b : 0 <= n -> ends_numeral b -> numeral (dec n ++ b) = Some (false, n, blen (dec n)).
Proof.
  intros Hn Hb. destruct (dec_digits n Hn) as (Hne & _ & Hf & Hd). specialize (Hd b 0). rewrite Z.add_0_l in Hd.
  pose proof (digit_count_app _ _ Hf Hb) as Hc. pose proof (blen_zero (dec n)) as Hz. unfold numeral.
  destruct (dec n) as [|c ds]; [done|]. apply Forall_cons in Hf as [Hcd _]. apply digit_range in Hcd as Hr.
  assert (Hs : space_count ((c :: ds) ++ b) = 0).
  { cbn. unfold isspace. destruct (Z.eqb_spec c 32), (Z.leb_spec 9 c), (Z.leb_spec c 13); cbn; lia. }
  rewrite Hs. change (Z.to_nat 0) with 0%nat. rewrite drop_0. cbn [app]. 
  destruct (Z.eqb_spec c 45); [lia|]. destruct (Z.eqb_spec c 43); [lia|].
  change (Z.to_nat 0) with 0%nat. rewrite drop_0. cbn [app] in Hc, Hd. rewrite Hc, Hd.
  destruct (Z.eqb_spec (blen (c :: ds)) 0) as [E|_]; [by apply Hz in E|].
  do 2 f_equal. f_equal. destruct b as [|x b]; [done|]. cbn. cbn in Hb. unfold is_digit in Hb. by destruct (isdigit x).
Qed.

Lemma strtoul_dec n : 0 <= n < U8_MOD -> strtoul (dec n) = n.
Proof.
  intros Hn. unfold strtoul. pose proof (numeral_dec n [] (proj1 Hn) I) as E. rewrite app_nil_r in E. rewrite E.
  destruct (Z.leb_spec U8_MOD n); [lia|done].
Qed.

Lemma strtol_dec n b : 0 <= n < 2 ^ 63 -> ends_numeral b -> strtol (dec n ++ b) = (n, blen (dec n)).
Proof. intros Hn Hb. unfold strtol. rewrite numeral_dec by (done || lia). f_equal. lia. Qed.

End CText.
