(* ===== verification/Outcome.v ===== *)
(** * Outcomes of a run

    What a function of a program that may loop gives: a value, a failed [assert], what the
    language leaves undefined, or out of fuel, which is a loop that still runs. *)

From S2P Require Import Prelude.

Inductive res (A : Type) := Ok (a : A) | Asserted | Undefined | Unfinished.
Arguments Ok {A} a.
Arguments Asserted {A}.
Arguments Undefined {A}.
Arguments Unfinished {A}.

#[export] Instance res_ret : MRet res := @Ok.
#[export] Instance res_bind : MBind res :=
  fun A B f r => match r with Ok a => f a | Asserted => Asserted | Undefined => Undefined | Unfinished => Unfinished end.

(** What the program reads or writes must be there. *)
Definition defined {A} (o : option A) : res A := match o with Some a => Ok a | None => Undefined end.

(** [assert] *)
Definition assert_ (b : bool) : res unit := if b then Ok tt else Asserted.

(** Reductions of the monad. *)
Ltac rred := cbn [mbind mret res_bind res_ret assert_ defined].

Lemma res_bind_assoc {A B C} (r : res A) (f : A -> res B) (g : B -> res C) : (r ≫= f) ≫= g = r ≫= (fun a => f a ≫= g).
Proof. by destruct r. Qed.
