(* ===== verification/Sds.v ===== *)
(** * redis-proxy/src/sds.c: strings with a header

    A string is a block: the length, the free bytes, and the characters with a zero byte behind
    them.  A program holds a pointer to the characters, which may be nil.  [unsigned int] has 32
    bits, [size_t] and [long long] 64.  Reading or writing outside a block is [Undefined], a failed
    [assert] is [Asserted].  The blocks are those of [zmalloc] and [zrealloc], which are arguments;
    a string given as [const char*] is the block it points into.  Characters are bytes, those from
    128 on are neither letters nor spaces nor printed. *)

From Stdlib Require Import Ascii String.
From S2P Require Import Prelude CText Outcome LiskMath.
Import CText Math.

Module Sds.

Definition SDS_MAX_PREALLOC : Z := 1024 * 1024.
Definition sizeof_sdshdr : Z := 8.

Record sdshdr := mk_sds { len : Z; free : Z; buf : bytes }.

(** The block of a string, and the string in a block. *)
Definition block (sh : sdshdr) : bytes := le_split 4 (len sh) ++ le_split 4 (free sh) ++ buf sh.
Definition of_block (b : bytes) : sdshdr :=
  mk_sds (le_combine (take 4 b)) (le_combine (take 4 (drop 4 b))) (drop 8 b).

(** A pointer, nil or to a string. *)
Abbreviation sds := (option sdshdr).

Definition set_buf (b : bytes) (sh : sdshdr) : sdshdr := mk_sds (len sh) (free sh) b.

(** [memcpy] and single characters written at an offset. *)
Definition put (sh : sdshdr) (off : Z) (src : bytes) : res sdshdr :=
  b ← defined (wr (buf sh) off src); Ok (set_buf b sh).

Definition sdslen (s : sds) : res Z := sh ← defined s; Ok (len sh).
Definition sdsavail (s : sds) : res Z := sh ← defined s; Ok (free sh).

(** ** Numbers as text *)

Definition SDS_LLSTR_SIZE : Z := 21.

(** [do ... while(v)]; twenty digits are enough for 64 bits. *)
Fixpoint digit_loop (fuel : nat) (s : bytes) (p v : Z) : res (bytes * Z) :=
  match fuel with
  | O => Unfinished
  | S f =>
      s ← defined (wr s p [48 + v mod 10]);
      let v := v / 10 in
      if v =? 0 then Ok (s, p + 1) else digit_loop f s (p + 1) v
  end.

Fixpoint reverse_loop (fuel : nat) (b : bytes) (s p : Z) : res bytes :=
  match fuel with
  | O => Unfinished
  | S f =>
      if s <? p then
        aux ← defined (rd b s 1);
        c ← defined (rd b p 1);
        b ← defined (wr b s c);
        b ← defined (wr b p aux);
        reverse_loop f b (s + 1) (p - 1)
      else Ok b
  end.

(** What follows the digits in both functions: the terminator and the reversal. *)
Definition finish_number (s : bytes) (p : Z) : res (Z * bytes) :=
  let l := p in
  s ← defined (wr s p [0]);
  s ← reverse_loop (S (length s)) s 0 (p - 1);
  Ok (l, s).

(** The length and the buffer.  The absolute value of the least [long long] overflows. *)
Definition sdsll2str (s : bytes) (value : Z) : res (Z * bytes) :=
  v ← defined (if value <? 0 then chk_n8 (- value) else Some value);
  '(s, p) ← digit_loop 20 s 0 v;
  '(s, p) ← (if value <? 0 then s ← defined (wr s p [45]); Ok (s, p + 1) else Ok (s, p));
  finish_number s p.

Definition sdsull2str (s : bytes) (v : Z) : res (Z * bytes) :=
  '(s, p) ← digit_loop 20 s 0 v; finish_number s p.

(** The local buffers, whatever they hold. *)
Definition llstr_buf : bytes := replicate (Z.to_nat SDS_LLSTR_SIZE) 0.

Section Sds.
Context (zmalloc : malloc_fun) (zrealloc : realloc_fun).

Definition zcalloc (n : Z) : option bytes := b ← zmalloc n; Some (replicate (length b) 0).

(** ** Making strings *)

Definition sdsnewlen (init : option bytes) (initlen : Z) : res sds :=
  let size := u8 (sizeof_sdshdr + initlen + 1) in
  match (match init with Some _ => zmalloc size | None => zcalloc size end) with
  | None => Ok None
  | Some b =>
      let sh := mk_sds (u4 initlen) 0 (drop 8 b) in
      sh ← match init with
           | Some init =>
               if initlen =? 0 then Ok sh else src ← defined (rd init 0 initlen); put sh 0 src
           | None => Ok sh
           end;
      sh ← put sh initlen [0];
      Ok (Some sh)
  end.

Definition sdsempty : res sds := sdsnewlen (Some [0]) 0.

Definition sdsnew (init : option bytes) : res sds :=
  initlen ← match init with None => Ok 0 | Some b => c ← defined (c_str b); Ok (blen c) end;
  sdsnewlen init initlen.

Definition sdsdup (s : sds) : res sds := l ← sdslen s; sdsnewlen (buf <$> s) l.

(** The blocks that are freed. *)
Definition sdsfree (s : sds) : list sdshdr := match s with Some sh => [sh] | None => [] end.

(** ** Length and room *)

Definition sdsupdatelen (s : sds) : res sds :=
  sh ← defined s;
  c ← defined (c_str (buf sh));
  let reallen := to_n4 (blen c) in
  Ok (Some (mk_sds (u4 reallen) (u4 (free sh + (len sh - reallen))) (buf sh))).

Definition sdsclear (s : sds) : res sds :=
  sh ← defined s;
  sh ← put (mk_sds 0 (u4 (free sh + len sh)) (buf sh)) 0 [0];
  Ok (Some sh).

Definition sdsMakeRoomFor (s : sds) (addlen : Z) : res sds :=
  sh ← defined s;
  if addlen <=? free sh then Ok s
  else
    let newlen := u8 (len sh + addlen) in
    let newlen := u8 (if newlen <? SDS_MAX_PREALLOC then newlen * 2 else newlen + SDS_MAX_PREALLOC) in
    match zrealloc (Some (block sh)) (u8 (sizeof_sdshdr + newlen + 1)) with
    | None => Ok None
    | Some b =>
        let newsh := of_block b in
        Ok (Some (mk_sds (len newsh) (u4 (newlen - len sh)) (buf newsh)))
    end.

Definition sdsRemoveFreeSpace (s : sds) : res sds :=
  sh ← defined s;
  b ← defined (zrealloc (Some (block sh)) (u8 (sizeof_sdshdr + len sh + 1)));
  let sh := of_block b in
  Ok (Some (mk_sds (len sh) 0 (buf sh))).

Definition sdsAllocSize (s : sds) : res Z :=
  sh ← defined s; Ok (u8 (sizeof_sdshdr + len sh + free sh + 1)).

(** [incr] is an [int], converted to [unsigned int] in the comparisons. *)
Definition sdsIncrLen (s : sds) (incr : Z) : res sds :=
  sh ← defined s;
  (if 0 <=? incr then assert_ (incr <=? free sh)
   else n ← defined (chk_n4 (- incr)); assert_ (n <=? len sh)) ≫= fun _ =>
  let sh := mk_sds (u4 (len sh + incr)) (u4 (free sh - incr)) (buf sh) in
  sh ← put sh (len sh) [0];
  Ok (Some sh).

Definition sdsgrowzero (s : sds) (n : Z) : res sds :=
  curlen ← sdslen s;
  if n <=? curlen then Ok s
  else
    s ← sdsMakeRoomFor s (n - curlen);
    match s with
    | None => Ok None
    | Some sh =>
        sh ← put sh curlen (replicate (Z.to_nat (n - curlen + 1)) 0);
        let totlen := u4 (len sh + free sh) in
        Ok (Some (mk_sds (u4 n) (u4 (totlen - u4 n)) (buf sh)))
    end.

(** ** Appending and copying *)

(** [t] is the block the characters are read from. *)
Definition sdscatlen (s : sds) (t : bytes) (n : Z) : res sds :=
  curlen ← sdslen s;
  s ← sdsMakeRoomFor s n;
  match s with
  | None => Ok None
  | Some sh =>
      t ← defined (rd t 0 n);
      sh ← put sh curlen t;
      sh ← put (mk_sds (u4 (curlen + n)) (u4 (free sh - n)) (buf sh)) (curlen + n) [0];
      Ok (Some sh)
  end.

Definition sdscat (s : sds) (t : bytes) : res sds := c ← defined (c_str t); sdscatlen s t (blen c).

Definition sdscatsds (s t : sds) : res sds := sh ← defined t; sdscatlen s (buf sh) (len sh).

Definition sdscpylen (s : sds) (t : bytes) (n : Z) : res sds :=
  sh ← defined s;
  s ← (if u4 (free sh + len sh) <? n then sdsMakeRoomFor s (u8 (n - len sh)) else Ok s);
  match s with
  | None => Ok None
  | Some sh =>
      let totlen := u4 (free sh + len sh) in
      t ← defined (rd t 0 n);
      sh ← put sh 0 t;
      sh ← put sh n [0];
      Ok (Some (mk_sds (u4 n) (u4 (totlen - n)) (buf sh)))
  end.

Definition sdscpy (s : sds) (t : bytes) : res sds := c ← defined (c_str t); sdscpylen s t (blen c).

Definition sdsfromlonglong (value : Z) : res sds :=
  '(l, b) ← sdsll2str llstr_buf value; sdsnewlen (Some b) l.

(** *** Formats *)

(** What [vsnprintf] writes into a buffer of [n] bytes, for the text of its format and arguments. *)
Definition vsnprintf (b : bytes) (n : Z) (text : bytes) : res bytes :=
  if n <=? 0 then Ok b else defined (wr b 0 (take (Z.to_nat (n - 1)) text ++ [0])).

(** The buffer is doubled until its last byte but one stays zero; nil when there is no memory. *)
Fixpoint vprintf_loop (fuel : nat) (b : bytes) (buflen : Z) (text : bytes) : res (option bytes) :=
  match fuel with
  | O => Unfinished
  | S f =>
      b ← defined (wr b (buflen - 2) [0]);
      b ← vsnprintf b buflen text;
      c ← defined (b !! Z.to_nat (buflen - 2));
      if negb (c =? 0) then
        let buflen := u8 (buflen * 2) in
        match zmalloc buflen with None => Ok None | Some b => vprintf_loop f b buflen text end
      else Ok (Some b)
  end.

Definition sizeof_staticbuf : Z := 1024.

(** [fmt] is the format without its terminator and [text] what it stands for with its arguments. *)
Definition sdscatvprintf (s : sds) (fmt text : bytes) : res sds :=
  let buflen := u8 (blen fmt * 2) in
  let run buflen b :=
    b ← vprintf_loop (S (Z.to_nat (Z.log2 (blen text + 2)))) b buflen text;
    match b with None => Ok None | Some b => sdscat s b end in
  if sizeof_staticbuf <? buflen
  then match zmalloc buflen with None => Ok None | Some b => run buflen b end
  else run sizeof_staticbuf (replicate (Z.to_nat sizeof_staticbuf) 0).

Definition sdscatprintf (s : sds) (fmt text : bytes) : res sds := sdscatvprintf s fmt text.

(** Arguments of [sdscatfmt]; one of another type than the format says is undefined. *)
Inductive va := VStr (b : bytes) | VSds (s : sds) | VInt (n : Z) | VLong (n : Z) | VUint (n : Z) | VUlong (n : Z).

(** Room for one more character at least. *)
Definition room_for (sh : sdshdr) (n : Z) : res sdshdr := s ← sdsMakeRoomFor (Some sh) n; defined s.

(** [memcpy(s+i,str,l)], with the lengths; the string and the new place. *)
Definition fmt_copy (sh : sdshdr) (i : Z) (str : bytes) (l : Z) : res (sdshdr * Z) :=
  sh ← (if free sh <? l then room_for sh l else Ok sh);
  t ← defined (rd str 0 l);
  sh ← put sh i t;
  Ok (mk_sds (u4 (len sh + l)) (u4 (free sh - l)) (buf sh), to_n4 (i + l)).

Definition fmt_char (sh : sdshdr) (i c : Z) : res (sdshdr * Z) :=
  sh ← put sh i [c];
  i ← defined (chk_n4 (i + 1));
  Ok (mk_sds (u4 (len sh + 1)) (u4 (free sh - 1)) (buf sh), i).

(** A [%] with the character behind it; what it takes of the arguments is dropped from them. *)
Definition fmt_directive (sh : sdshdr) (i next : Z) (ap : list va) : res (sdshdr * Z * list va) :=
  if next =? 115 then
    match ap with
    | VStr b :: ap => c ← defined (c_str b); '(sh, i) ← fmt_copy sh i b (u4 (blen c)); Ok (sh, i, ap)
    | _ => Undefined
    end
  else if next =? 83 then
    match ap with
    | VSds s :: ap => str ← defined s; '(sh, i) ← fmt_copy sh i (buf str) (len str); Ok (sh, i, ap)
    | _ => Undefined
    end
  else if (next =? 105) || (next =? 73) then
    match ap, next =? 105 with
    | VInt n :: ap, true | VLong n :: ap, false =>
        '(l, b) ← sdsll2str llstr_buf n; '(sh, i) ← fmt_copy sh i b l; Ok (sh, i, ap)
    | _, _ => Undefined
    end
  else if (next =? 117) || (next =? 85) then
    match ap, next =? 117 with
    | VUint n :: ap, true | VUlong n :: ap, false =>
        '(l, b) ← sdsull2str llstr_buf n; '(sh, i) ← fmt_copy sh i b l; Ok (sh, i, ap)
    | _, _ => Undefined
    end
  else '(sh, i) ← fmt_char sh i next; Ok (sh, i, ap).

(** [f] is what is left of the block of the format.  Behind a [%] that ends the format the loop goes
    on behind the terminator. *)
Fixpoint fmt_loop (fuel : nat) (sh : sdshdr) (i : Z) (f : bytes) (ap : list va) : res (sdshdr * Z) :=
  match fuel with
  | O => Unfinished
  | S fuel =>
      match f with
      | [] => Undefined
      | c :: f =>
          if c =? 0 then Ok (sh, i)
          else
            sh ← (if free sh =? 0 then room_for sh 1 else Ok sh);
            if c =? 37 then
              match f with
              | [] => Undefined
              | next :: f => '(sh, i, ap) ← fmt_directive sh i next ap; fmt_loop fuel sh i f ap
              end
            else '(sh, i) ← fmt_char sh i c; fmt_loop fuel sh i f ap
      end
  end.

Definition sdscatfmt (s : sds) (fmt : bytes) (ap : list va) : res sds :=
  initlen ← sdslen s;
  sh ← defined s;
  '(sh, i) ← fmt_loop (S (length fmt)) sh (to_n4 initlen) fmt ap;
  sh ← put sh i [0];
  Ok (Some sh).

(** ** Changing a string in place *)

(** [strchr] in a set of characters, which ends with a zero byte: that byte is found. *)
Definition in_cset (cset : bytes) (c : Z) : bool := (c =? 0) || bool_decide (c ∈ cset).

Definition get (b : bytes) (i : Z) : res Z := c ← defined (rd b i 1); defined (head c).

(** [while(sp <= end && strchr(cset, *sp)) sp++] *)
Fixpoint skip_left (fuel : nat) (b cset : bytes) (sp end_ : Z) : res Z :=
  match fuel with
  | O => Unfinished
  | S f =>
      if sp <=? end_ then c ← get b sp; if in_cset cset c then skip_left f b cset (sp + 1) end_ else Ok sp
      else Ok sp
  end.

(** [while(ep > start && strchr(cset, *ep)) ep--]; [start] is 0. *)
Fixpoint skip_right (fuel : nat) (b cset : bytes) (ep : Z) : res Z :=
  match fuel with
  | O => Unfinished
  | S f =>
      if 0 <? ep then c ← get b ep; if in_cset cset c then skip_right f b cset (ep - 1) else Ok ep
      else Ok ep
  end.

(** The characters from [start] come first, and the string is cut; the same end as in [sdsrange]. *)
Definition keep_part (sh : sdshdr) (start newlen : Z) (move : bool) : res sdshdr :=
  sh ← (if move then x ← defined (rd (buf sh) start newlen); put sh 0 x else Ok sh);
  sh ← put sh newlen [0];
  Ok (mk_sds (u4 newlen) (u4 (free sh + (len sh - newlen))) (buf sh)).

Definition sdstrim (s : sds) (cset : bytes) : res sds :=
  sh ← defined s;
  cset ← defined (c_str cset);
  let end_ := len sh - 1 in
  sp ← skip_left (S (length (buf sh))) (buf sh) cset 0 end_;
  ep ← skip_right (S (length (buf sh))) (buf sh) cset end_;
  let len := if ep <? sp then 0 else ep - sp + 1 in
  sh ← keep_part sh sp len (negb (sp =? 0));
  Ok (Some sh).

(** The loop reads at [idx] and writes at [cursor], which is not behind it. *)
Fixpoint trimspace_loop (fuel : nat) (p : bytes) (idx cursor len : Z) : res (bytes * Z) :=
  match fuel with
  | O => Unfinished
  | S f =>
      if idx <? len then
        c ← get p idx;
        if isspace c then trimspace_loop f p (idx + 1) cursor len
        else p ← defined (wr p cursor [c]); trimspace_loop f p (idx + 1) (cursor + 1) len
      else Ok (p, cursor)
  end.

Definition sdstrimspace (s : sds) : res sds :=
  match s with
  | None => Ok None
  | Some sh =>
      c ← defined (c_str (buf sh));
      let len := blen c in
      if len =? 0 then Ok s
      else
        '(p, cursor) ← trimspace_loop (S (length (buf sh))) (buf sh) 0 0 len;
        sh ← put (set_buf p sh) cursor [0];
        Ok (Some (mk_sds (u4 cursor) (u4 (free sh + (len - cursor))) (buf sh)))
  end.

(** [start] and [end] are [int]s; [len+start] is a [size_t] converted back. *)
Definition sdsrange (s : sds) (start end_ : Z) : res sds :=
  sh ← defined s;
  let len := len sh in
  if len =? 0 then Ok s
  else
    let from_end i := if i <? 0 then Z.max 0 (to_n4 (u8 (len + i))) else i in
    let start := from_end start in
    let end_ := from_end end_ in
    newlen ← (if end_ <? start then Ok 0 else n ← defined (chk_n4 (end_ - start + 1)); Ok (u8 n));
    let '(start, newlen) :=
      if negb (newlen =? 0) then
        if to_n4 len <=? start then (start, 0)
        else if to_n4 len <=? end_
             then let end_ := to_n4 (u8 (len - 1)) in (start, if end_ <? start then 0 else u8 (end_ - start + 1))
             else (start, newlen)
      else (0, newlen) in
    sh ← keep_part sh start newlen (negb (start =? 0) && negb (newlen =? 0));
    Ok (Some sh).

Definition tolower (c : Z) : Z := if (65 <=? c) && (c <=? 90) then c + 32 else c.
Definition toupper (c : Z) : Z := if (97 <=? c) && (c <=? 122) then c - 32 else c.

(** The loops over the characters of a string, each replaced by what [g] makes of it. *)
Fixpoint map_loop (fuel : nat) (g : Z -> res Z) (b : bytes) (j len : Z) : res bytes :=
  match fuel with
  | O => Unfinished
  | S f =>
      if j <? len then
        c ← get b j;
        d ← g c;
        b ← defined (wr b j [d]);
        map_loop f g b (j + 1) len
      else Ok b
  end.

Definition map_string (g : Z -> res Z) (len : sdshdr -> Z) (s : sds) : res sds :=
  sh ← defined s;
  b ← map_loop (S (length (buf sh))) g (buf sh) 0 (len sh);
  Ok (Some (set_buf b sh)).

(** The length is an [int]. *)
Definition int_len (sh : sdshdr) : Z := to_n4 (len sh).

Definition sdstolower : sds -> res sds := map_string (fun c => Ok (tolower c)) int_len.
Definition sdstoupper : sds -> res sds := map_string (fun c => Ok (toupper c)) int_len.

(** The first of the first [setlen] characters of [from] that is [c] gives its place in [to]. *)
Fixpoint map_char (setlen : nat) (from to : bytes) (c : Z) : res Z :=
  match setlen with
  | O => Ok c
  | S n =>
      x ← defined (head from);
      if c =? x then defined (head to) else map_char n (tail from) (tail to) c
  end.

Definition sdsmapchars (s : sds) (from to : bytes) (setlen : Z) : res sds :=
  map_string (map_char (Z.to_nat setlen) from to) len s.

(** The difference of the lengths is a [size_t] converted to [int]. *)
Definition sdscmp (s1 s2 : sds) : res Z :=
  sh1 ← defined s1;
  sh2 ← defined s2;
  cmp ← defined (memcmp (Z.to_nat (Z.min (len sh1) (len sh2))) (buf sh1) (buf sh2));
  Ok (if cmp =? 0 then to_n4 (u8 (len sh1 - len sh2)) else cmp).

(** ** Splitting and joining *)

(** [room n]: does an array of [n] pointers fit into memory? *)
Context (room : Z -> bool).

(** The tokens or nil, their count, and the strings that were freed. *)
Definition tokens_result : Type := option (list sds) * Z * list sdshdr.

(** [goto cleanup] *)
Definition cleanup (tokens : list sds) : tokens_result := (None, 0, tokens ≫= sdsfree).

(** [tokens[elements]], in an array of [slots]. *)
Definition push_token (tokens : list sds) (slots : Z) (t : sds) : res (list sds) :=
  if Z.of_nat (length tokens) <? slots then Ok (tokens ++ [t]) else Undefined.

Fixpoint split_loop (fuel : nat) (s : bytes) (len : Z) (sep : bytes) (seplen j start slots : Z) (tokens : list sds)
  : res (tokens_result + Z * Z * list sds) :=
  match fuel with
  | O => Unfinished
  | S f =>
      if j <? len - (seplen - 1) then
        let grow := slots <? Z.of_nat (length tokens) + 2 in
        slots ← (if grow then defined (chk_n4 (slots * 2)) else Ok slots);
        if grow && negb (room slots) then Ok (inl (cleanup tokens))
        else
          same ← (c ← get s j;
                  d ← get sep 0;
                  if (seplen =? 1) && (c =? d) then Ok true
                  else
                    x ← defined (rd s j seplen);
                    y ← defined (rd sep 0 seplen);
                    r ← defined (memcmp (Z.to_nat seplen) x y);
                    Ok (r =? 0));
          if same : bool then
            x ← defined (rd s start (j - start));
            t ← sdsnewlen (Some x) (j - start);
            match t with
            | None => Ok (inl (cleanup tokens))
            | Some _ =>
                tokens ← push_token tokens slots t;
                split_loop f s len sep seplen (j + seplen) (j + seplen) slots tokens
            end
          else split_loop f s len sep seplen (j + 1) start slots tokens
      else Ok (inr (start, slots, tokens))
  end.

(** The count is not set when the answer is nil at once. *)
Definition sdssplitlen (s : bytes) (len : Z) (sep : bytes) (seplen : Z) (count : Z) : res tokens_result :=
  if (seplen <? 1) || (len <? 0) then Ok (None, count, [])
  else if negb (room 5) then Ok (None, count, [])
  else if len =? 0 then Ok (Some [], 0, [])
  else
    r ← split_loop (S (length s)) s len sep seplen 0 0 5 [];
    match r with
    | inl r => Ok r
    | inr (start, slots, tokens) =>
        x ← defined (rd s start (len - start));
        t ← sdsnewlen (Some x) (len - start);
        match t with
        | None => Ok (cleanup tokens)
        | Some _ => tokens ← push_token tokens slots t; Ok (Some tokens, Z.of_nat (length tokens), [])
        end
    end.

(** What is freed: the strings, the last first. *)
Definition sdsfreesplitres (tokens : option (list sds)) (count : Z) : list sdshdr :=
  match tokens with Some tokens => rev (take (Z.to_nat count) tokens) ≫= sdsfree | None => [] end.

Fixpoint join_loop (join : sds) (argv : list bytes) (sep : bytes) : res sds :=
  match argv with
  | [] => Ok join
  | [x] => sdscat join x
  | x :: argv => join ← sdscat join x; join ← sdscat join sep; join_loop join argv sep
  end.

Definition sdsjoin (argv : list bytes) (sep : bytes) : res sds := join ← sdsempty; join_loop join argv sep.

(** ** Quoted strings *)

Definition isprint (c : Z) : bool := (32 <=? c) && (c <=? 126).

(** A digit of [%02x]. *)
Definition hex (n : Z) : Z := if n <? 10 then 48 + n else 87 + n.

Definition BACKSLASH : Z := 92.
Definition QUOTE : Z := 34.
Definition APOSTROPHE : Z := 39.

(** One character. *)
Definition catrepr_char (s : sds) (c : Z) : res sds :=
  if (c =? BACKSLASH) || (c =? QUOTE) then sdscatprintf s (chars "\%c") [BACKSLASH; c]
  else if c =? 10 then sdscatlen s (chars "\n") 2
  else if c =? 13 then sdscatlen s (chars "\r") 2
  else if c =? 9 then sdscatlen s (chars "\t") 2
  else if c =? 7 then sdscatlen s (chars "\a") 2
  else if c =? 8 then sdscatlen s (chars "\b") 2
  else if isprint c then sdscatprintf s (chars "%c") [c]
  else sdscatprintf s (chars "\x%02x") (chars "\x" ++ [hex (c / 16); hex (c mod 16)]).

Fixpoint catrepr_loop (s : sds) (p : bytes) : res sds :=
  match p with [] => Ok s | c :: p => s ← catrepr_char s c; catrepr_loop s p end.

Definition sdscatrepr (s : sds) (p : bytes) (n : Z) : res sds :=
  s ← sdscatlen s [QUOTE] 1;
  p ← defined (rd p 0 n);
  s ← catrepr_loop s p;
  sdscatlen s [QUOTE] 1.

Definition is_hex_digit (c : Z) : bool :=
  ((48 <=? c) && (c <=? 57)) || ((97 <=? c) && (c <=? 102)) || ((65 <=? c) && (c <=? 70)).

Definition hex_digit_to_int (c : Z) : Z :=
  if (48 <=? c) && (c <=? 57) then c - 48
  else if (97 <=? c) && (c <=? 102) then c - 87
  else if (65 <=? c) && (c <=? 70) then c - 55
  else 0.

(** Is [p] at a backslash, an x and two hexadecimal digits?  Then their byte.  It reads no further
    than it must. *)
Definition hex_escape (p : bytes) : res (option Z) :=
  c0 ← get p 0;
  if negb (c0 =? BACKSLASH) then Ok None else
  c1 ← get p 1;
  if negb (c1 =? 120) then Ok None else
  c2 ← get p 2;
  if negb (is_hex_digit c2) then Ok None else
  c3 ← get p 3;
  if negb (is_hex_digit c3) then Ok None else
  Ok (Some ((hex_digit_to_int c2 * 16 + hex_digit_to_int c3) mod 256)).

Definition unescape (c : Z) : Z :=
  if c =? 110 then 10 else if c =? 114 then 13 else if c =? 116 then 9
  else if c =? 98 then 8 else if c =? 97 then 7 else c.

(** What one round of the inner loop does: fail, or go on. *)
Inductive arg_step := Fault | Next (current : sds) (p : bytes) (inq insq done : bool).

(** A closing quote is followed by a space or by nothing. *)
Definition closing_quote (current : sds) (p : bytes) (inq insq : bool) : res arg_step :=
  c1 ← get p 1;
  Ok (if negb (c1 =? 0) && negb (isspace c1) then Fault else Next current p inq insq true).

Definition quoted_step (current : sds) (p : bytes) : res arg_step :=
  c ← get p 0;
  h ← hex_escape p;
  match h with
  | Some byte => current ← sdscatlen current [byte] 1; Ok (Next current (drop 3 p) true false false)
  | None =>
      esc ← (if c =? BACKSLASH then c1 ← get p 1; Ok (negb (c1 =? 0)) else Ok false);
      if esc : bool then
        c1 ← get p 1;
        current ← sdscatlen current [unescape c1] 1;
        Ok (Next current (drop 1 p) true false false)
      else if c =? QUOTE then closing_quote current p true false
      else if c =? 0 then Ok Fault
      else current ← sdscatlen current p 1; Ok (Next current p true false false)
  end.

Definition single_quoted_step (current : sds) (p : bytes) : res arg_step :=
  c ← get p 0;
  esc ← (if c =? BACKSLASH then c1 ← get p 1; Ok (c1 =? APOSTROPHE) else Ok false);
  if esc : bool then
    current ← sdscatlen current [APOSTROPHE] 1; Ok (Next current (drop 1 p) false true false)
  else if c =? APOSTROPHE then closing_quote current p false true
  else if c =? 0 then Ok Fault
  else current ← sdscatlen current p 1; Ok (Next current p false true false).

Definition plain_step (current : sds) (p : bytes) : res arg_step :=
  c ← get p 0;
  if (c =? 32) || (c =? 10) || (c =? 13) || (c =? 9) || (c =? 0) then Ok (Next current p false false true)
  else if c =? QUOTE then Ok (Next current p true false false)
  else if c =? APOSTROPHE then Ok (Next current p false true false)
  else current ← sdscatlen current p 1; Ok (Next current p false false false).

(** The step to the next character, if there is one. *)
Definition advance (p : bytes) : res bytes := c ← get p 0; Ok (if c =? 0 then p else drop 1 p).

(** [while(!done)]; [inl] is a fault, with the current string. *)
Fixpoint arg_loop (fuel : nat) (current : sds) (p : bytes) (inq insq : bool) : res (sds + sds * bytes) :=
  match fuel with
  | O => Unfinished
  | S f =>
      r ← (if inq then quoted_step current p else if insq then single_quoted_step current p else plain_step current p);
      match r with
      | Fault => Ok (inl current)
      | Next current p inq insq done =>
          p ← advance p;
          if done : bool then Ok (inr (current, p)) else arg_loop f current p inq insq
      end
  end.

Fixpoint skip_blanks (p : bytes) : res bytes :=
  match p with
  | [] => Undefined
  | c :: p' => if negb (c =? 0) && isspace c then skip_blanks p' else Ok p
  end.

(** [p] is what is left of the block of the line, [vector] what was read.  The vector itself is grown by
    [zrealloc], whose result is not tested. *)
Fixpoint args_loop (fuel : nat) (p : bytes) (vector : list sds) : res tokens_result :=
  match fuel with
  | O => Unfinished
  | S f =>
      p ← skip_blanks p;
      c ← get p 0;
      if negb (c =? 0) then
        current ← sdsempty;
        r ← arg_loop (S (length p)) current p false false;
        match r with
        | inl current => Ok (None, 0, (rev vector ≫= sdsfree) ++ sdsfree current)
        | inr (current, p) =>
            if room (Z.of_nat (length vector) + 1) then args_loop f p (vector ++ [current]) else Undefined
        end
      else Ok (Some vector, Z.of_nat (length vector), [])
  end.

Definition sdssplitargs (line : bytes) : res tokens_result := args_loop (S (length line)) line [].

End Sds.
End Sds.
