(* ===== verification/SdsSpec.v ===== *)
(** * What the functions of sds.c do to the bytes of a string

    [holds s x]: [s] points to a string whose bytes are [x].  Each function takes strings that hold
    bytes to strings that hold bytes, inside their blocks; sequences of calls do so on the way. *)

From Stdlib Require Import Ascii String.
From S2P Require Import Prelude CText Outcome LiskMath Sds.
Import CText Math Sds.

Module SdsSpec.

(** The bytes, the room behind them, and no more than an [unsigned int] holds. *)
Definition spans (sh : sdshdr) (x : bytes) : Prop :=
  len sh = blen x /\ 0 <= free sh /\ len sh + free sh < U4_MOD /\
  exists z, buf sh = x ++ z /\ free sh < blen z.

Definition holds (s : sds) (x : bytes) : Prop :=
  exists sh, s = Some sh /\ spans sh x /\ buf sh !! length x = Some 0.

(** A call that gives a string with the bytes [x]. *)
Definition yields (r : res sds) (x : bytes) : Prop := exists s, r = Ok s /\ holds s x.

(** Lengths that an [int] holds. *)
Definition fits (n : Z) : Prop := n < 2 ^ 31.

Lemma yields_bind r x f y : yields r x -> (forall s, holds s x -> yields (f s) y) -> yields (r ≫= f) y.
Proof. intros (s & -> & Hs) H. exact (H s Hs). Qed.

Lemma yields_ok s x : holds s x -> yields (Ok s) x.
Proof. intros H. by exists s. Qed.

Lemma res_bind_ok {A B} (r : res A) (f : A -> res B) a : r = Ok a -> r ≫= f = f a.
Proof. by intros ->. Qed.

Lemma blen_cons1 c x : blen (c :: x) = blen x + 1.
Proof. unfold blen. cbn [length]. lia. Qed.

#[export] Hint Rewrite blen_app blen_cons1 blen_nil : blens.

(** Lengths of concatenations. *)
Ltac blens := autorewrite with blens in *; try lia.

Lemma blen_drop n (x : bytes) : (n <= length x)%nat -> blen (drop n x) = blen x - Z.of_nat n.
Proof. intros H. unfold blen. rewrite length_drop. lia. Qed.

Lemma rd_prefix x z : rd (x ++ z) 0 (blen x) = Some x.
Proof. apply rd_head. Qed.

(** ** Blocks *)

Lemma of_block_app h1 h2 b : length h1 = 4%nat -> length h2 = 4%nat ->
  of_block (h1 ++ h2 ++ b) = mk_sds (le_combine h1) (le_combine h2) b.
Proof.
  intros H1 H2. destruct h1 as [|? [|? [|? [|? [|]]]]]; try done. destruct h2 as [|? [|? [|? [|? [|]]]]]; try done.
Qed.

Lemma le_split_length n w : length (le_split n w) = n.
Proof. revert w. induction n as [|n IH]; intros w; [done|]. cbn. by rewrite IH. Qed.

(** Writing behind the first bytes of a buffer. *)
Lemma put_at sh x z src : buf sh = x ++ z -> blen src <= blen z ->
  put sh (blen x) src = Ok (set_buf (x ++ src ++ drop (length src) z) sh).
Proof.
  intros E Hl. unfold put. rewrite E. rewrite <- (take_drop (length src) z) at 1.
  rewrite wr_mid; [done|]. unfold blen in *. rewrite length_take. lia.
Qed.

Lemma get_lookup b i c : 0 <= i -> b !! Z.to_nat i = Some c -> get b i = Ok c.
Proof.
  intros Hi H. pose proof (lookup_lt_Some _ _ _ H). unfold get, rd.
  rewrite decide_True by (unfold blen; lia). change (Z.to_nat 1) with 1%nat. by rewrite (drop_S _ c) by done.
Qed.

Lemma get_mid x c z : get (x ++ c :: z) (blen x) = Ok c.
Proof. apply get_lookup; [apply blen_nonneg|]. unfold blen. rewrite Nat2Z.id. by apply list_lookup_middle. Qed.

(** *** Strings and their terminator *)

Lemma holds_intro sh x z : len sh = blen x -> 0 <= free sh -> len sh + free sh < U4_MOD ->
  buf sh = x ++ 0 :: z -> free sh <= blen z -> holds (Some sh) x.
Proof.
  intros Hl Hf Hu E Hz. exists sh. split_and!; [done| |].
  - split_and!; [done..|]. exists (0 :: z). rewrite blen_cons1. split; [done|lia].
  - rewrite E. by apply list_lookup_middle.
Qed.

Lemma holds_elim s x : holds s x ->
  exists sh z, s = Some sh /\ len sh = blen x /\ 0 <= free sh /\ len sh + free sh < U4_MOD /\
    buf sh = x ++ 0 :: z /\ free sh <= blen z.
Proof.
  intros (sh & -> & (Hl & Hf & Hu & z & E & Hz) & H0). rewrite E in H0.
  rewrite lookup_app_r, Nat.sub_diag in H0 by done. destruct z as [|c z]; [done|]. injection H0 as ->.
  exists sh, z. rewrite blen_cons1 in Hz. split_and!; (done || lia).
Qed.

Lemma holds_spans sh x : holds (Some sh) x -> spans sh x.
Proof. by intros (sh' & [= <-] & H & _). Qed.

(** The end of every function that appends: the terminator. *)
Lemma spans_finish sh x : spans sh x -> yields (sh ← put sh (blen x) [0]; Ok (Some sh)) x.
Proof.
  intros (Hl & Hf & Hu & z & E & Hz). rewrite (put_at sh x z [0] E) by (unfold blen in *; cbn; lia). rred.
  apply yields_ok. apply (holds_intro _ _ (drop 1 z)); [done..|]. rewrite blen_drop; [cbn; lia|]. unfold blen in Hz. lia.
Qed.

(** Writing inside the room. *)
Lemma spans_put sh x t : spans sh x -> blen t <= free sh ->
  exists sh', put sh (blen x) t = Ok sh' /\ len sh' = len sh /\ free sh' = free sh /\
    spans (mk_sds (len sh + blen t) (free sh - blen t) (buf sh')) (x ++ t).
Proof.
  intros (Hl & Hf & Hu & z & E & Hz) Ht. rewrite (put_at sh x z t E) by lia.
  eexists. split_and!; [done..|]. unfold spans. cbn [len free buf set_buf]. rewrite blen_app.
  split_and!; [lia..|]. exists (drop (length t) z). rewrite <- app_assoc. split; [done|].
  unfold blen in *. rewrite length_drop. lia.
Qed.

Lemma u4_len sh x : spans sh x -> forall n, 0 <= n <= free sh -> u4 (len sh + n) = len sh + n /\ u4 (free sh - n) = free sh - n.
Proof.
  intros (Hl & Hf & Hu & _) n Hn. pose proof (blen_nonneg x). split; apply u4_id; unfold is_u4; lia.
Qed.

Section Spec.
Context (zmalloc : malloc_fun) (zrealloc : realloc_fun).
Hypothesis zmalloc_size : malloc_ok zmalloc.
Hypothesis zmalloc_some : forall n, 0 <= n -> zmalloc n <> None.
Hypothesis zrealloc_keeps : realloc_serves zrealloc.

Lemma realloc_block sh n : 0 <= len sh < U4_MOD -> 0 <= n ->
  exists b, zrealloc (Some (block sh)) (sizeof_sdshdr + n) = Some b /\
    len (of_block b) = len sh /\ blen (buf (of_block b)) = n /\
    forall y z, buf sh = y ++ z -> blen y <= n -> exists z', buf (of_block b) = y ++ z'.
Proof.
  intros Hl Hn. unfold sizeof_sdshdr.
  destruct (zrealloc_keeps (block sh) (8 + n) ltac:(lia)) as (b & E & Hb & Hk). exists b. split; [done|].
  set (h1 := le_split 4 (len sh)). set (h2 := le_split 4 (free sh)).
  assert (Hh : blen h1 = 4 /\ blen h2 = 4) by (unfold h1, h2, blen; rewrite !le_split_length; done). destruct Hh as [Hh1 Hh2].
  assert (Hp : forall y z, buf sh = y ++ z -> blen y <= n -> exists z', b = h1 ++ h2 ++ y ++ z').
  { intros y z Ey Hy. destruct (Hk (h1 ++ h2 ++ y) z) as [z' ->].
    - unfold block. by rewrite Ey, <- !app_assoc.
    - rewrite !blen_app. lia.
    - exists z'. by rewrite <- !app_assoc. }
  assert (Ho : forall c, of_block (h1 ++ h2 ++ c) = mk_sds (len sh) (le_combine h2) c).
  { intros c. rewrite of_block_app by apply le_split_length. unfold h1. by rewrite (le_combine_split 4 _ Hl : _ = len sh). }
  destruct (Hp [] (buf sh) eq_refl) as [z0 E0]; [by rewrite blen_nil|]. cbn [app] in E0. split_and!.
  - by rewrite E0, Ho.
  - rewrite E0, Ho. cbn [buf]. rewrite E0, !blen_app in Hb. lia.
  - intros y z Ey Hy. destruct (Hp y z Ey Hy) as [z' ->]. exists z'. by rewrite Ho.
Qed.

(** Room for more: a string that spans its bytes has it without a terminator too. *)
Lemma make_room_spans sh x n : spans sh x -> 0 <= n -> fits (blen x + n) ->
  exists sh', sdsMakeRoomFor zrealloc (Some sh) n = Ok (Some sh') /\ spans sh' x /\ n <= free sh' /\
    buf sh' !! length x = buf sh !! length x.
Proof.
  intros Hs Hn Hfit. pose proof Hs as (Hl & Hf & Hu & z & E & Hz). pose proof (blen_nonneg x).
  unfold sdsMakeRoomFor. rred. destruct (Z.leb_spec n (free sh)); [by exists sh|].
  unfold fits in Hfit. unfold U4_MOD in Hu. rewrite Hl, (u8_id (blen x + n)) by (unfold is_u8, U8_MOD; lia).
  set (newlen := if blen x + n <? SDS_MAX_PREALLOC then (blen x + n) * 2 else blen x + n + SDS_MAX_PREALLOC).
  assert (Hnew : blen x + n <= newlen < 2 ^ 32).
  { unfold newlen, SDS_MAX_PREALLOC. destruct (Z.ltb_spec (blen x + n) (1024 * 1024)); lia. }
  rewrite (u8_id newlen) by (unfold is_u8, U8_MOD; lia). rewrite u8_id by (unfold is_u8, U8_MOD, sizeof_sdshdr; lia).
  replace (sizeof_sdshdr + newlen + 1) with (sizeof_sdshdr + (newlen + 1)) by lia.
  destruct (realloc_block sh (newlen + 1)) as (b & -> & El & Eb & Hk); [unfold U4_MOD; lia|lia|].
  eexists. split; [done|]. cbn [free buf].
  destruct z as [|c z]; [unfold blen in Hz; cbn [length] in Hz; lia|].
  destruct (Hk (x ++ [c]) z) as [z' Ez']; [by rewrite <- app_assoc|rewrite blen_app; change (blen [c]) with 1; lia|].
  rewrite <- app_assoc in Ez'. cbn [app] in Ez'. rewrite u4_id by (unfold is_u4, U4_MOD; lia). split_and!.
  - unfold spans. cbn [len free buf]. split_and!; [lia|lia|unfold U4_MOD; lia|]. exists (c :: z'). split; [done|].
    rewrite Ez', blen_app in Eb. lia.
  - lia.
  - by rewrite Ez', E, !list_lookup_middle.
Qed.

Lemma sdsMakeRoomFor_spec s x n : holds s x -> 0 <= n -> fits (blen x + n) ->
  exists sh, sdsMakeRoomFor zrealloc s n = Ok (Some sh) /\ holds (Some sh) x /\ n <= free sh.
Proof.
  intros (sh & -> & Hs & H0) Hn Hf. destruct (make_room_spans sh x n Hs Hn Hf) as (sh' & -> & Hs' & Hr & E).
  exists sh'. split_and!; [done| |done]. exists sh'. by rewrite E.
Qed.

(** ** Appending *)

Lemma cat_body sh x t : spans sh x -> blen t <= free sh ->
  yields (sh ← put sh (blen x) t; sh ← put (mk_sds (u4 (blen x + blen t)) (u4 (free sh - blen t)) (buf sh)) (blen x + blen t) [0];
          Ok (Some sh)) (x ++ t).
Proof.
  intros Hs Ht. destruct (spans_put sh x t Hs Ht) as (sh' & -> & El & Ef & Hs'). rred.
  pose proof Hs as (Hl & _). pose proof (blen_nonneg t). destruct (u4_len sh x Hs (blen t) ltac:(lia)) as [E1 E2].
  rewrite Hl in E1, Hs'. rewrite Ef, E1, E2. rewrite <- blen_app in Hs' |- *. exact (spans_finish _ _ Hs').
Qed.

Lemma sdscatlen_spec s x b t : holds s x -> rd b 0 (blen t) = Some t -> fits (blen x + blen t) ->
  yields (sdscatlen zrealloc s b (blen t)) (x ++ t).
Proof.
  intros Hs Hb Hf. pose proof (holds_elim _ _ Hs) as (sh0 & z0 & E0 & Hl0 & _). unfold sdscatlen.
  replace (sdslen s) with (Ok (blen x)) by (by subst; cbn; rewrite Hl0). rred.
  destruct (sdsMakeRoomFor_spec s x (blen t) Hs (blen_nonneg t) Hf) as (sh & -> & Hh & Hr). rred.
  rewrite Hb. rred. apply cat_body; [by apply holds_spans|done].
Qed.

Lemma sdscat_spec s x b t : holds s x -> c_str b = Some t -> fits (blen x + blen t) -> yields (sdscat zrealloc s b) (x ++ t).
Proof.
  intros Hs Hb Hf. unfold sdscat. rewrite Hb. rred. apply sdscatlen_spec; [done| |done].
  destruct (c_str_prefix b t Hb) as (z & -> & _). apply rd_prefix.
Qed.

Lemma sdscatsds_spec s x t y : holds s x -> holds t y -> fits (blen x + blen y) -> yields (sdscatsds zrealloc s t) (x ++ y).
Proof.
  intros Hs (sh & z & -> & Hl & _ & _ & E & _)%holds_elim Hf. unfold sdscatsds. rred. rewrite Hl.
  apply sdscatlen_spec; [done| |done]. rewrite E. apply rd_prefix.
Qed.

(** ** Making strings *)

Lemma zmalloc_block n : 0 <= n -> exists b, zmalloc n = Some b /\ blen b = n.
Proof.
  intros Hn. pose proof (zmalloc_size n) as Hs. pose proof (zmalloc_some n Hn). destruct (zmalloc n) as [b|]; [|done].
  exists b. split; [done|]. by apply Hs.
Qed.

Lemma new_body b x n : blen b = n + 1 -> blen x = n -> is_u4 n -> (exists z, b = x ++ z) ->
  yields (sh ← put (mk_sds (u4 n) 0 b) n [0]; Ok (Some sh)) x.
Proof.
  intros Hb Hx Hn [z ->]. rewrite u4_id by done. subst n. apply (spans_finish (mk_sds (blen x) 0 (x ++ z))).
  unfold is_u4 in Hn. rewrite blen_app in Hb. split_and!; cbn [len free buf]; [done|lia|lia|].
  exists z. split; [done|lia].
Qed.

Lemma sdsnewlen_spec b x : rd b 0 (blen x) = Some x -> blen x < U4_MOD -> yields (sdsnewlen zmalloc (Some b) (blen x)) x.
Proof.
  intros Hb Hx. pose proof (blen_nonneg x). unfold sdsnewlen.
  rewrite u8_id by (unfold is_u8, U8_MOD, sizeof_sdshdr; unfold U4_MOD in Hx; lia).
  destruct (zmalloc_block (sizeof_sdshdr + blen x + 1)) as (m & -> & Em); [unfold sizeof_sdshdr; lia|].
  assert (Hd : blen (drop 8 m) = blen x + 1).
  { unfold sizeof_sdshdr in Em. rewrite blen_drop; [lia|]. unfold blen in *. lia. }
  destruct (Z.eqb_spec (blen x) 0) as [E0|E0].
  - rred. apply new_body; [done|done|by split|]. apply blen_zero in E0 as ->. by exists (drop 8 m).
  - rewrite Hb. rred. pose proof (put_at (mk_sds (u4 (blen x)) 0 (drop 8 m)) [] (drop 8 m) x eq_refl) as Hp.
    rewrite blen_nil in Hp. rewrite Hp by lia. cbn [app]. unfold set_buf. cbn [len free].
    apply new_body; [|done|by split|by exists (drop (length x) (drop 8 m))].
    rewrite blen_app, blen_drop by (unfold blen in *; lia). unfold blen in *. lia.
Qed.

Lemma sdsnewlen_zero n : 0 <= n < U4_MOD -> yields (sdsnewlen zmalloc None n) (replicate (Z.to_nat n) 0).
Proof.
  intros Hn. unfold sdsnewlen. rewrite u8_id by (unfold is_u8, U8_MOD, sizeof_sdshdr; unfold U4_MOD in Hn; lia).
  unfold zcalloc. destruct (zmalloc_block (sizeof_sdshdr + n + 1)) as (m & -> & Em); [unfold sizeof_sdshdr; lia|].
  cbn [mbind option_bind]. rred. unfold sizeof_sdshdr, blen in Em. apply new_body; [| |done|].
  - rewrite drop_replicate. unfold blen. rewrite length_replicate. lia.
  - unfold blen. rewrite length_replicate. lia.
  - exists [0]. rewrite drop_replicate. replace (length m - 8)%nat with (Z.to_nat n + 1)%nat by lia. by rewrite replicate_add.
Qed.

Lemma sdsempty_spec : yields (sdsempty zmalloc) [].
Proof. by apply (sdsnewlen_spec [0] []). Qed.

Lemma sdsnew_spec b x : c_str b = Some x -> blen x < U4_MOD -> yields (sdsnew zmalloc (Some b)) x.
Proof.
  intros Hb Hx. unfold sdsnew. rewrite Hb. rred. apply sdsnewlen_spec; [|done].
  destruct (c_str_prefix b x Hb) as (z & -> & _). apply rd_prefix.
Qed.

Lemma sdsnew_nil : yields (sdsnew zmalloc None) [].
Proof. by apply (sdsnewlen_zero 0). Qed.

Lemma sdsdup_spec s x : holds s x -> yields (sdsdup zmalloc s) x.
Proof.
  intros (sh & z & -> & Hl & Hf & Hu & E & _)%holds_elim. unfold sdsdup, sdslen. rred. cbn [fmap option_fmap option_map].
  rewrite Hl. apply sdsnewlen_spec; [rewrite E; apply rd_prefix|lia].
Qed.

(** ** Length and room *)

Lemma sdslen_spec s x : holds s x -> sdslen s = Ok (blen x).
Proof. intros (sh & z & -> & Hl & _)%holds_elim. unfold sdslen. rred. by rewrite Hl. Qed.

Lemma sdsAllocSize_spec s x : holds s x -> exists sh, s = Some sh /\ sdsAllocSize s = Ok (sizeof_sdshdr + blen x + free sh + 1).
Proof.
  intros (sh & z & -> & Hl & Hf & Hu & E & _)%holds_elim. exists sh. split; [done|]. unfold sdsAllocSize. rred.
  rewrite Hl. rewrite Hl in Hu. pose proof (blen_nonneg x). f_equal. apply u8_id. unfold is_u8, sizeof_sdshdr, U8_MOD. unfold U4_MOD in Hu. lia.
Qed.

Lemma sdsclear_spec s x : holds s x -> yields (sdsclear s) [].
Proof.
  intros (sh & z & -> & Hl & Hf & Hu & E & Hz)%holds_elim. unfold sdsclear. rred. pose proof (blen_nonneg x).
  rewrite u4_id by (unfold is_u4; lia). apply (spans_finish (mk_sds 0 (free sh + len sh) (buf sh)) []).
  split_and!; cbn [len free buf]; [done|lia|lia|]. exists (buf sh). split; [done|]. rewrite E, blen_app, blen_cons1. lia.
Qed.

Lemma sdsRemoveFreeSpace_spec s x : holds s x -> exists sh, sdsRemoveFreeSpace zrealloc s = Ok (Some sh) /\ holds (Some sh) x /\ free sh = 0.
Proof.
  intros (sh & z & -> & Hl & Hf & Hu & E & Hz)%holds_elim. unfold sdsRemoveFreeSpace. rred. pose proof (blen_nonneg x).
  rewrite Hl. rewrite u8_id by (unfold is_u8, sizeof_sdshdr, U8_MOD; unfold U4_MOD in Hu; lia).
  replace (sizeof_sdshdr + blen x + 1) with (sizeof_sdshdr + (blen x + 1)) by lia.
  destruct (realloc_block sh (blen x + 1)) as (b & -> & El & Eb & Hk); [lia|lia|]. rred. eexists. split_and!; [done| |done].
  destruct (Hk (x ++ [0]) z) as [z' Ez]; [by rewrite <- app_assoc|rewrite blen_app; done|].
  apply (holds_intro _ _ z'); cbn [len free buf]; [congruence|done|lia| |apply blen_nonneg]. by rewrite Ez, <- app_assoc.
Qed.

(** The characters before the first zero byte. *)
Lemma sdsupdatelen_spec s x : holds s x -> fits (blen x) -> yields (sdsupdatelen s) (c_string x).
Proof.
  intros (sh & z & -> & Hl & Hf & Hu & E & Hz)%holds_elim Hfit. unfold sdsupdatelen. rred.
  destruct (c_string_split x z) as (w & Hw & Hx & Hlen). rewrite E, Hw. rred. pose proof (blen_nonneg (c_string x)).
  unfold fits in Hfit. rewrite to_n4_id by lia. rewrite !u4_id by (unfold is_u4; lia).
  apply yields_ok, (holds_intro _ _ w); cbn [len free buf]; [done|lia|lia|exact Hx|].
  assert (Eq : blen (x ++ 0 :: z) = blen (c_string x ++ 0 :: w)) by congruence. rewrite !blen_app, !blen_cons1 in Eq. lia.
Qed.

(** Fewer characters. *)
Lemma sdsIncrLen_less s x n : holds s x -> 0 < n <= blen x -> n < 2 ^ 31 ->
  yields (sdsIncrLen s (- n)) (take (Z.to_nat (blen x - n)) x).
Proof.
  intros (sh & z & -> & Hl & Hf & Hu & E & Hz)%holds_elim Hn Hb. unfold sdsIncrLen. rred.
  destruct (Z.leb_spec 0 (- n)); [lia|]. rewrite chk_n4_ok, Z.opp_involutive by lia. rred. rewrite Hl.
  destruct (Z.leb_spec n (blen x)); [|lia]. rred. rewrite (u4_id (blen x + - n)), (u4_id (free sh - - n)) by (unfold is_u4; lia).
  destruct (split_blen x (blen x - n)) as (a & b & -> & Ha); [lia|].
  replace (take (Z.to_nat (blen (a ++ b) - n)) (a ++ b)) with a.
  2:{ rewrite <- Ha. unfold blen. by rewrite Nat2Z.id, take_app_length. }
  replace (blen (a ++ b) + - n) with (blen a) by lia.
  apply (spans_finish (mk_sds (blen a) (free sh - - n) (buf sh))). rewrite blen_app in *.
  split_and!; cbn [len free buf]; [done|lia|lia|]. exists (b ++ 0 :: z). rewrite E, <- app_assoc. split; [done|].
  rewrite blen_app, blen_cons1. lia.
Qed.

(** The characters written behind the end become part of the string. *)
Lemma sdsIncrLen_more sh x y z : spans sh x -> buf sh = x ++ y ++ z -> blen y <= free sh -> blen y < 2 ^ 31 ->
  yields (sdsIncrLen (Some sh) (blen y)) (x ++ y).
Proof.
  intros Hs E Hy Hb. pose proof (blen_nonneg y). unfold sdsIncrLen. rred. destruct (Z.leb_spec 0 (blen y)); [|lia].
  destruct (Z.leb_spec (blen y) (free sh)); [|lia]. rred. destruct (u4_len sh x Hs (blen y)) as [-> ->]; [lia|].
  destruct Hs as (Hl & Hf & Hu & z' & E' & Hz'). cbn [len]. rewrite Hl, <- blen_app. apply spans_finish.
  split_and!; cbn [len free buf]; [done|lia|rewrite blen_app; lia|]. exists z. rewrite <- app_assoc. split; [done|].
  assert (E2 : y ++ z = z') by (rewrite E in E'; by apply app_inv_head in E'). rewrite <- E2, blen_app in Hz'. lia.
Qed.

Lemma sdsgrowzero_spec s x n : holds s x -> 0 <= n -> fits n ->
  yields (sdsgrowzero zrealloc s n) (x ++ replicate (Z.to_nat (n - blen x)) 0).
Proof.
  intros Hs Hn Hf. unfold sdsgrowzero. rewrite (sdslen_spec s x Hs). rred. pose proof (blen_nonneg x).
  destruct (Z.leb_spec n (blen x)).
  { replace (Z.to_nat (n - blen x)) with 0%nat by lia. rewrite app_nil_r. by apply yields_ok. }
  destruct (sdsMakeRoomFor_spec s x (n - blen x) Hs ltac:(lia)) as (sh & -> & Hh & Hr).
  { unfold fits in *. lia. }
  rred. apply holds_elim in Hh as (? & z & [= <-] & Hl & Hfr & Hu & E & Hz).
  replace (Z.to_nat (n - blen x + 1)) with (Z.to_nat (n - blen x) + 1)%nat by lia.
  assert (Ek : Z.of_nat (Z.to_nat (n - blen x)) = n - blen x) by lia. revert Ek. generalize (Z.to_nat (n - blen x)) as k. intros k Ek.
  assert (Hk : blen (replicate (k + 1) 0) = n - blen x + 1) by (unfold blen in *; rewrite length_replicate; lia).
  rewrite (put_at sh x _ _ E) by (rewrite Hk, blen_cons1; lia). rred. cbn [len free buf set_buf].
  rewrite (u4_id (len sh + free sh)), (u4_id n), (u4_id (_ - n)) by (unfold is_u4; lia).
  rewrite replicate_add. apply yields_ok.
  eapply holds_intro; cbn [len free buf]; [| | |by rewrite <- !app_assoc|].
  - rewrite blen_app. unfold blen at 2. rewrite length_replicate. lia.
  - lia.
  - lia.
  - rewrite length_app, !length_replicate, blen_drop; [rewrite blen_cons1; lia|].
    unfold blen in *. cbn [length]. lia.
Qed.

Lemma cpy_body sh x t : spans sh x -> blen t <= len sh + free sh ->
  yields (sh' ← put sh 0 t; sh' ← put sh' (blen t) [0];
          Ok (Some (mk_sds (u4 (blen t)) (u4 (u4 (free sh + len sh) - blen t)) (buf sh')))) t.
Proof.
  intros (Hl & Hf & Hu & z & E & Hz) Ht. pose proof (blen_nonneg x). pose proof (blen_nonneg t).
  pose proof (put_at sh [] (buf sh) t eq_refl) as Hp. rewrite blen_nil in Hp. rewrite Hp by (rewrite E, blen_app; lia). rred.
  set (w := drop (length t) (buf sh)). assert (Hw : blen w = len sh + blen z - blen t).
  { unfold w. rewrite blen_drop; rewrite E, ?blen_app; unfold blen in *; rewrite ?length_app; lia. }
  cbn [app]. rewrite (put_at (set_buf (t ++ w) sh) t w [0] eq_refl) by (change (blen [0]) with 1; lia). rred.
  rewrite (u4_id (blen t)), (u4_id (free sh + len sh)), u4_id by (unfold is_u4; lia).
  apply yields_ok, (holds_intro _ _ (drop 1 w)); cbn [len free buf set_buf]; [done|lia|lia|done|].
  rewrite blen_drop; [lia|unfold blen in *; lia].
Qed.

Lemma sdscpylen_spec s x b t : holds s x -> rd b 0 (blen t) = Some t -> fits (blen t) -> yields (sdscpylen zrealloc s b (blen t)) t.
Proof.
  intros Hs Hb Hf. pose proof (holds_elim _ _ Hs) as (sh & z & -> & Hl & Hfr & Hu & E & Hz). unfold sdscpylen. rred.
  pose proof (blen_nonneg x). rewrite (u4_id (free sh + len sh)) by (unfold is_u4; lia).
  destruct (Z.ltb_spec (free sh + len sh) (blen t)).
  - unfold fits in Hf. rewrite Hl. rewrite u8_id by (unfold is_u8, U8_MOD; lia).
    destruct (sdsMakeRoomFor_spec (Some sh) x (blen t - blen x) Hs ltac:(lia)) as (sh' & -> & Hh & Hr); [unfold fits; lia|].
    rred. rewrite Hb. rred. apply holds_spans in Hh. apply cpy_body with x; [done|]. destruct Hh as [-> _]. lia.
  - rred. rewrite Hb. rred. apply cpy_body with x; [by apply holds_spans|lia].
Qed.

Lemma sdscpy_spec s x b t : holds s x -> c_str b = Some t -> fits (blen t) -> yields (sdscpy zrealloc s b) t.
Proof.
  intros Hs Hb Hf. unfold sdscpy. rewrite Hb. rred. apply (sdscpylen_spec s x); [done| |done].
  destruct (c_str_prefix b t Hb) as (z & -> & _). apply rd_prefix.
Qed.

(** ** Numbers as text *)

(** The decimal text of a number. *)
Definition decz (n : Z) : bytes := if n <? 0 then 45 :: dec (- n) else dec n.

Lemma digit_loop_spec f d z v : (f <> 0)%nat -> 0 <= v < 10 ^ Z.of_nat f -> Z.of_nat f <= blen z ->
  exists ds, (forall acc, dec_loop f v acc = ds ++ acc) /\ (length ds <= f)%nat /\
    digit_loop f (d ++ z) (blen d) v = Ok (d ++ rev ds ++ drop (length ds) z, blen d + blen ds).
Proof.
  revert d z v. induction f as [|f IH]; intros d z v H0 Hv Hz; [done|]. cbn [dec_loop digit_loop].
  destruct z as [|c z]; [unfold blen in Hz; cbn [length] in Hz; lia|].
  pose proof (Z.mod_pos_bound v 10). pose proof (Z.div_mod v 10).
  pose proof (wr_mid d [c] z [48 + v mod 10] eq_refl) as Hw. cbn [app] in Hw. rewrite Hw. rred.
  assert (E : (v <? 10) = (v / 10 =? 0)).
  { destruct (Z.ltb_spec v 10); [rewrite Z.div_small by lia; done|]. symmetry. apply Z.eqb_neq. intros E0. lia. }
  rewrite E. destruct (Z.eqb_spec (v / 10) 0) as [E0|E0].
  - exists [48 + v mod 10]. split_and!; [done|cbn; lia|]. done.
  - rewrite Nat2Z.inj_succ, Z.pow_succ_r in Hv by lia. rewrite blen_cons1 in Hz.
    destruct (IH (d ++ [48 + v mod 10]) z (v / 10)) as (ds & Hd & Hl & He).
    + intros ->. cbn in Hv. apply E0, Z.div_small. lia.
    + split; [apply Z.div_pos; lia|]. apply Z.div_lt_upper_bound; lia.
    + lia.
    + exists (ds ++ [48 + v mod 10]). split_and!.
      * intros acc. by rewrite Hd, <- app_assoc.
      * rewrite length_app. cbn [length]. lia.
      * rewrite <- app_assoc in He. cbn [app] in He. rewrite blen_app in He.
        change (blen [48 + v mod 10]) with 1 in He. rewrite He, rev_app_distr, length_app, Nat.add_comm.
        cbn [rev app length drop Nat.add]. rewrite <- app_assoc, blen_app. cbn [app]. do 2 f_equal. change (blen [_]) with 1. lia.
Qed.

Lemma sds_reverse_spec f a m c : (length m < 2 * f)%nat ->
  reverse_loop f (a ++ m ++ c) (blen a) (blen a + blen m - 1) = Ok (a ++ rev m ++ c).
Proof.
  revert a m c. induction f as [|f IH]; intros a m c Hf; [lia|]. cbn [reverse_loop].
  destruct m as [|x m]; [|destruct m as [|y m _] using rev_ind].
  - rewrite blen_nil. destruct (Z.ltb_spec (blen a) (blen a + 0 - 1)); [lia|done].
  - change (blen [x]) with 1. destruct (Z.ltb_spec (blen a) (blen a + 1 - 1)); [lia|done].
  - rewrite blen_cons1, blen_app. change (blen [y]) with 1. pose proof (blen_nonneg m).
    destruct (Z.ltb_spec (blen a) (blen a + (blen m + 1 + 1) - 1)); [|lia].
    replace (blen a + (blen m + 1 + 1) - 1) with (blen (a ++ x :: m)) by (rewrite blen_app, blen_cons1; lia).
    assert (E : a ++ (x :: m ++ [y]) ++ c = (a ++ x :: m) ++ [y] ++ c) by (cbn [app]; by rewrite <- !app_assoc).
    rewrite (rd_mid a [x] ((m ++ [y]) ++ c) : rd (a ++ (x :: m ++ [y]) ++ c) (blen a) 1 = Some [x]). rred.
    rewrite E, (rd_mid (a ++ x :: m) [y] c : rd _ _ 1 = _). rred. rewrite <- app_assoc.
    rewrite (wr_mid a [x] (m ++ [y] ++ c) [y] eq_refl : wr (a ++ (x :: m) ++ [y] ++ c) (blen a) [y] = _). rred.
    replace (blen (a ++ x :: m)) with (blen (a ++ y :: m)) by (rewrite !blen_app, !blen_cons1; lia).
    replace (a ++ [y] ++ m ++ [y] ++ c) with ((a ++ y :: m) ++ [y] ++ c) by (by rewrite <- app_assoc).
    rewrite wr_mid by done. rred. cbn [length] in Hf. rewrite length_app in Hf. cbn [length] in Hf.
    specialize (IH (a ++ [y]) m ([x] ++ c) ltac:(lia)). rewrite !blen_app in IH |- *. change (blen [y]) with 1 in IH.
    rewrite blen_cons1. replace (blen a + (blen m + 1) - 1) with (blen a + 1 + blen m - 1) by lia.
    rewrite <- !app_assoc in IH |- *. cbn [app] in IH |- *. rewrite IH. cbn [rev]. rewrite rev_app_distr. cbn [rev app].
    by rewrite <- !app_assoc.
Qed.

Lemma finish_number_spec t z : 1 <= blen z ->
  finish_number (t ++ z) (blen t) = Ok (blen t, rev t ++ 0 :: drop 1 z).
Proof.
  intros Hz. destruct z as [|c z]; [unfold blen in Hz; cbn [length] in Hz; lia|]. unfold finish_number.
  rewrite (wr_mid t [c] z [0] eq_refl : wr (t ++ c :: z) (blen t) [0] = _). rred. cbn [app].
  pose proof (sds_reverse_spec (S (length (t ++ 0 :: z))) [] t (0 :: z)) as Hr. rewrite blen_nil in Hr. cbn [app] in Hr.
  change (0 + blen t - 1) with (blen t - 1) in Hr. rewrite Hr; [done|]. rewrite length_app. lia.
Qed.

Lemma llstr_room ds : (length ds <= 20)%nat -> blen (drop (length ds) llstr_buf) = 21 - blen ds.
Proof.
  intros H. rewrite blen_drop; [done|]. change (length llstr_buf) with 21%nat. lia.
Qed.

Lemma sdsull2str_spec v : 0 <= v < U8_MOD -> exists z, sdsull2str llstr_buf v = Ok (blen (dec v), dec v ++ 0 :: z).
Proof.
  intros Hv. unfold U8_MOD in Hv. assert (H20 : 0 <= v < 10 ^ Z.of_nat 20) by (change (10 ^ Z.of_nat 20) with (10 ^ 20); lia).
  destruct (digit_loop_spec 20 [] llstr_buf v) as (ds & Hd & Hl & E); [done|done|done|]. specialize (Hd []).
  rewrite app_nil_r, <- (dec_fuel 20) in Hd by done. subst ds. cbn [app] in E. rewrite blen_nil in E. unfold sdsull2str. rewrite E. rred.
  rewrite Z.add_0_l. replace (blen (dec v)) with (blen (rev (dec v))) by (unfold blen; by rewrite length_rev).
  rewrite finish_number_spec, rev_involutive; [eauto|]. rewrite llstr_room by done. unfold blen. lia.
Qed.

Lemma sdsll2str_spec v : - 2 ^ 63 < v < 2 ^ 63 -> exists z, sdsll2str llstr_buf v = Ok (blen (decz v), decz v ++ 0 :: z).
Proof.
  intros Hv. unfold sdsll2str, decz. destruct (Z.ltb_spec v 0) as [Hn|Hn].
  - rewrite chk_n8_ok by lia. rred. assert (H19 : 0 <= - v < 10 ^ Z.of_nat 19) by (change (10 ^ Z.of_nat 19) with (10 ^ 19); lia).
    destruct (digit_loop_spec 20 [] llstr_buf (- v)) as (ds & Hd & Hl & E); [done| |done|].
    { change (10 ^ Z.of_nat 20) with (10 ^ 20). lia. }
    specialize (Hd []). pose proof (dec_length 19 (- v) ltac:(done) H19) as Hl19.
    rewrite app_nil_r, <- (dec_fuel 20) in Hd by (done || change (10 ^ Z.of_nat 20) with (10 ^ 20); lia). subst ds.
    cbn [app] in E. rewrite blen_nil in E. rewrite E. rred. rewrite Z.add_0_l.
    pose proof (llstr_room (dec (- v)) Hl) as Hroom. assert (Hb : blen (dec (- v)) <= 19) by (unfold blen; lia).
    destruct (drop (length (dec (- v))) llstr_buf) as [|c z]; [rewrite blen_nil in Hroom; lia|]. rewrite blen_cons1 in Hroom.
    replace (blen (dec (- v))) with (blen (rev (dec (- v)))) by (unfold blen; by rewrite length_rev).
    rewrite (wr_mid (rev (dec (- v))) [c] z [45] eq_refl : wr (_ ++ c :: z) _ [45] = _). rred. rewrite app_assoc.
    replace (blen (rev (dec (- v))) + 1) with (blen (rev (dec (- v)) ++ [45])) by (rewrite blen_app; done).
    rewrite finish_number_spec by lia. rewrite rev_app_distr, rev_involutive. cbn [rev app]. eexists. do 2 f_equal.
    rewrite blen_app, blen_cons1. unfold blen. rewrite length_rev. cbn [length]. lia.
  - rred. destruct (sdsull2str_spec v) as [z E]; [unfold U8_MOD; lia|]. unfold sdsull2str in E.
    destruct (digit_loop 20 llstr_buf 0 v) as [[s p]| | |]; try done. rred. exists z. exact E.
Qed.

(** [LLONG_MIN] has no absolute value. *)
Lemma sdsll2str_least s : sdsll2str s (- 2 ^ 63) = Undefined.
Proof. reflexivity. Qed.

Lemma sdsfromlonglong_spec v : - 2 ^ 63 < v < 2 ^ 63 -> yields (sdsfromlonglong zmalloc v) (decz v).
Proof.
  intros Hv. unfold sdsfromlonglong. destruct (sdsll2str_spec v Hv) as [z ->]. rred. apply sdsnewlen_spec; [apply rd_prefix|].
  unfold decz. destruct (Z.ltb_spec v 0).
  - rewrite blen_cons1. pose proof (dec_length 19 (- v) ltac:(done)) as Hl. unfold blen, U4_MOD.
    change (10 ^ Z.of_nat 19) with (10 ^ 19) in Hl. lia.
  - pose proof (dec_length 19 v ltac:(done)) as Hl. unfold blen, U4_MOD. change (10 ^ Z.of_nat 19) with (10 ^ 19) in Hl. lia.
Qed.

(** ** Formats *)

Lemma wr_prefix b src : blen src <= blen b -> wr b 0 src = Some (src ++ drop (length src) b).
Proof.
  intros H. unfold wr. rewrite decide_True by lia. done.
Qed.

Lemma wr_one b i c : 0 <= i < blen b -> wr b i [c] = Some (<[Z.to_nat i := c]> b).
Proof.
  intros Hi. unfold wr. rewrite decide_True by (change (blen [c]) with 1; lia). f_equal.
  rewrite insert_take_drop by (unfold blen in Hi; lia). cbn [app length]. do 3 f_equal. lia.
Qed.

Lemma c_string_take n x : x !! n = Some 0 -> c_string (take (S n) x) = c_string x.
Proof.
  revert n. induction x as [|c x IH]; intros n; [done|]. cbn. destruct (Z.eqb_spec c 0); [done|].
  destruct n as [|n]; [by intros [= ->]|]. intros H. by rewrite <- (IH n H).
Qed.

(** A buffer of [buflen] bytes in which the text was written. *)
Lemma printed_buffer b buflen text : blen b = buflen -> 2 <= buflen ->
  exists b', (b ← defined (wr b (buflen - 2) [0]); vsnprintf b buflen text) = Ok b' /\
    exists c, b' !! Z.to_nat (buflen - 2) = Some c /\
      (c = 0 -> exists t z, b' = t ++ 0 :: z /\ c_string t = c_string text) /\ (c <> 0 -> buflen - 1 <= blen text).
Proof.
  intros Hb H2. rewrite wr_one by lia. rred. unfold vsnprintf. destruct (Z.leb_spec buflen 0); [lia|].
  set (b1 := <[Z.to_nat (buflen - 2) := 0]> b). set (t := take (Z.to_nat (buflen - 1)) text).
  assert (Hl1 : length b1 = Z.to_nat buflen) by (unfold b1; rewrite length_insert; unfold blen in Hb; lia).
  assert (Ht : length t = (Z.to_nat (buflen - 1) `min` length text)%nat) by apply length_take.
  rewrite wr_prefix by (unfold blen; rewrite length_app; cbn [length]; lia). rred. eexists. split; [done|].
  rewrite <- app_assoc. cbn [app]. set (z := drop _ b1). destruct (decide (buflen - 1 <= blen text)) as [Hc|Hc].
  - assert (El : (Z.to_nat (buflen - 2) < length t)%nat) by (unfold blen in Hc; lia).
    destruct (lookup_lt_is_Some_2 t _ El) as [c Ec]. exists c. rewrite lookup_app_l by done. split_and!; [done| |done].
    intros ->. exists t, z. split; [done|]. unfold t in *. replace (Z.to_nat (buflen - 1)) with (S (Z.to_nat (buflen - 2))) in * by lia.
    apply c_string_take. rewrite lookup_take in Ec. by case_decide.
  - unfold blen in Hc. assert (El : t = text) by (apply take_ge; lia). exists 0. split_and!; [|intros _; exists t, z; by rewrite El|done].
    destruct (decide (length t = Z.to_nat (buflen - 2))) as [E|E].
    + rewrite <- E. by apply list_lookup_middle.
    + assert (E2 : z = drop (length t + 1) b1) by (unfold z; rewrite length_app; done).
      rewrite lookup_app_r by lia. replace (Z.to_nat (buflen - 2) - length t)%nat with (S (Z.to_nat (buflen - 2) - length t - 1)) by lia.
      rewrite (lookup_cons_ne_0 _ _ _ (Nat.neq_succ_0 _)), Nat.pred_succ, E2, lookup_drop.
      replace (length t + 1 + _)%nat with (Z.to_nat (buflen - 2)) by lia. unfold b1. rewrite list_lookup_insert_eq; [done|].
      unfold blen in Hb. lia.
Qed.

Lemma vprintf_loop_spec f b buflen text : blen b = buflen -> 2 <= buflen -> fits (blen text) ->
  blen text + 2 <= buflen * 2 ^ Z.of_nat f ->
  exists b', vprintf_loop zmalloc (S f) b buflen text = Ok (Some b') /\ c_str b' = Some (c_string text).
Proof.
  revert b buflen. induction f as [|f IH]; intros b buflen Hb H2 Hfit Hf;
    destruct (printed_buffer b buflen text Hb H2) as (b' & E & c & Hc & H0 & Hn);
    cbn [vprintf_loop]; rewrite <- res_bind_assoc, E; rred; rewrite Hc; rred;
    (destruct (Z.eqb_spec c 0) as [->|Hne]; [destruct (H0 eq_refl) as (t & z & -> & Et); cbn [negb]; eexists; split; [done|];
      by rewrite c_str_app, Et|]); specialize (Hn Hne).
  - change (2 ^ Z.of_nat 0) with 1 in Hf. lia.
  - cbn [negb]. unfold fits in Hfit. rewrite u8_id by (unfold is_u8, U8_MOD; lia).
    destruct (zmalloc_block (buflen * 2)) as (m & -> & Em); [lia|]. apply IH; [done|lia|done|].
    rewrite Nat2Z.inj_succ, Z.pow_succ_r in Hf by lia. lia.
Qed.

Lemma sdscatprintf_spec s x fmt text : holds s x -> fits (blen fmt) -> fits (blen x + blen text) ->
  yields (sdscatprintf zmalloc zrealloc s fmt text) (x ++ c_string text).
Proof.
  intros Hs Hf Hfit. pose proof (blen_nonneg fmt). pose proof (blen_nonneg x). unfold fits in *.
  assert (Hlen : blen (c_string text) <= blen text).
  { destruct (c_string_split text []) as (w & _ & _ & ?). done. }
  assert (Hrun : forall b buflen, blen b = buflen -> 2 <= buflen ->
    yields (b ← vprintf_loop zmalloc (S (Z.to_nat (Z.log2 (blen text + 2)))) b buflen text;
            match b with None => Ok None | Some b => sdscat zrealloc s b end) (x ++ c_string text)).
  { intros b buflen Hb H2. pose proof (blen_nonneg text). pose proof (Z.log2_nonneg (blen text + 2)).
    destruct (vprintf_loop_spec (Z.to_nat (Z.log2 (blen text + 2))) b buflen text Hb H2) as (b' & -> & E); [unfold fits; lia| |].
    - rewrite Z2Nat.id by done. pose proof (Z.log2_spec (blen text + 2) ltac:(lia)) as [_ Hlog].
      rewrite Z.pow_succ_r in Hlog by done. nia.
    - rred. apply sdscat_spec; [done..|]. unfold fits. lia. }
  unfold sdscatprintf, sdscatvprintf. rewrite u8_id by (unfold is_u8, U8_MOD; lia).
  destruct (Z.ltb_spec sizeof_staticbuf (blen fmt * 2)) as [Hb|Hb].
  - unfold sizeof_staticbuf in Hb. destruct (zmalloc_block (blen fmt * 2)) as (m & -> & Em); [lia|]. apply Hrun; [done|lia].
  - by apply Hrun.
Qed.

(** The text of a directive of [sdscatfmt] with the arguments that are left, of a format, for arguments
    that have the types it names; [LLONG_MIN] is none. *)
Definition within (a b n : Z) : bool := (a <=? n) && (n <? b).

Definition va_text (next : Z) (ap : list va) : option (bytes * list va) :=
  if next =? 115 then match ap with VStr b :: ap => c ← c_str b; Some (c, ap) | _ => None end
  else if next =? 83 then match ap with VSds (Some sh) :: ap => t ← rd (buf sh) 0 (len sh); Some (t, ap) | _ => None end
  else if next =? 105 then
    match ap with VInt n :: ap => if within (- 2 ^ 31) (2 ^ 31) n then Some (decz n, ap) else None | _ => None end
  else if next =? 73 then
    match ap with VLong n :: ap => if within (1 - 2 ^ 63) (2 ^ 63) n then Some (decz n, ap) else None | _ => None end
  else if next =? 117 then
    match ap with VUint n :: ap => if within 0 U4_MOD n then Some (dec n, ap) else None | _ => None end
  else if next =? 85 then
    match ap with VUlong n :: ap => if within 0 U8_MOD n then Some (dec n, ap) else None | _ => None end
  else Some ([next], ap).

Fixpoint fmt_text (f : bytes) (ap : list va) : option bytes :=
  match f with
  | [] => Some []
  | c :: f =>
      if c =? 37 then
        match f with [] => None | next :: f => '(t, ap) ← va_text next ap; r ← fmt_text f ap; Some (t ++ r) end
      else r ← fmt_text f ap; Some (c :: r)
  end.

Lemma room_for_spec sh x n : spans sh x -> 0 <= n -> fits (blen x + n) ->
  exists sh', room_for zrealloc sh n = Ok sh' /\ spans sh' x /\ n <= free sh'.
Proof.
  intros Hs Hn Hf. destruct (make_room_spans sh x n Hs Hn Hf) as (sh' & E & Hs' & Hr & _).
  exists sh'. unfold room_for. by rewrite E.
Qed.

Lemma fmt_copy_spec sh x b t : spans sh x -> rd b 0 (blen t) = Some t -> fits (blen x + blen t) ->
  exists sh', fmt_copy zrealloc sh (blen x) b (blen t) = Ok (sh', blen (x ++ t)) /\ spans sh' (x ++ t).
Proof.
  intros Hs Hb Hf. pose proof (blen_nonneg t). pose proof (blen_nonneg x). unfold fmt_copy.
  assert (Hr : exists sh', (if free sh <? blen t then room_for zrealloc sh (blen t) else Ok sh) = Ok sh' /\ spans sh' x /\ blen t <= free sh').
  { destruct (Z.ltb_spec (free sh) (blen t)); [by apply room_for_spec|]. eauto. }
  destruct Hr as (sh' & -> & Hs' & Hr). rred. rewrite Hb. rred.
  destruct (spans_put sh' x t Hs' Hr) as (sh2 & -> & El & Ef & Hs2). rred.
  rewrite El, Ef. destruct (u4_len sh' x Hs' (blen t)) as [-> ->]; [lia|].
  rewrite to_n4_id, blen_app by (unfold fits in Hf; lia). eauto.
Qed.

Lemma fmt_char_spec sh x c : spans sh x -> 1 <= free sh -> fits (blen x + 1) ->
  exists sh', fmt_char sh (blen x) c = Ok (sh', blen (x ++ [c])) /\ spans sh' (x ++ [c]).
Proof.
  intros Hs Hr Hf. unfold fmt_char. destruct (spans_put sh x [c] Hs Hr) as (sh2 & -> & El & Ef & Hs2). rred.
  pose proof (blen_nonneg x). rewrite chk_n4_ok by (unfold fits in Hf; lia). rred. rewrite El, Ef.
  destruct (u4_len sh x Hs 1) as [-> ->]; [lia|]. rewrite blen_app. eauto.
Qed.

Lemma fmt_directive_spec sh x next ap t ap' : spans sh x -> 1 <= free sh -> va_text next ap = Some (t, ap') ->
  fits (blen x + blen t + 1) ->
  exists sh', fmt_directive zrealloc sh (blen x) next ap = Ok (sh', blen (x ++ t), ap') /\ spans sh' (x ++ t).
Proof.
  intros Hs Hr Ht Hf. pose proof (blen_nonneg t). pose proof (blen_nonneg x). unfold fits in Hf.
  assert (Hcopy : forall b, rd b 0 (blen t) = Some t ->
    exists sh', ('(sh, i) ← fmt_copy zrealloc sh (blen x) b (blen t); Ok (sh, i, ap')) = Ok (sh', blen (x ++ t), ap') /\ spans sh' (x ++ t)).
  { intros b Hb. destruct (fmt_copy_spec sh x b t Hs Hb) as (sh' & -> & Hs'); [unfold fits; lia|]. rred. eauto. }
  unfold va_text in Ht. unfold fmt_directive.
  destruct (next =? 115).
  { destruct ap as [|[b| | | | |] ap]; try done. destruct (c_str b) as [c|] eqn:Ec; [|done]. injection Ht as -> ->. rred.
    destruct (c_str_prefix b t Ec) as (z & -> & _). rewrite u4_id by (unfold is_u4, U4_MOD; lia). apply Hcopy, rd_prefix. }
  destruct (next =? 83).
  { destruct ap as [|[| [str|] | | | |] ap]; try done. destruct (rd (buf str) 0 (len str)) as [c|] eqn:Ec; [|done].
    injection Ht as -> ->. rred. apply rd_blen in Ec as El. rewrite <- El. apply Hcopy. by rewrite El. }
  destruct (next =? 105) eqn:E5; [|destruct (next =? 73) eqn:E7]; cbn [orb].
  - destruct ap as [|[| |n| | |] ap]; try done. destruct (within _ _ n) eqn:Ew; [|done]. injection Ht as <- <-. unfold within in Ew.
    destruct (sdsll2str_spec n) as [z ->]; [lia|]. rred. apply Hcopy, rd_prefix.
  - destruct ap as [|[| | |n| |] ap]; try done. destruct (within _ _ n) eqn:Ew; [|done]. injection Ht as <- <-. unfold within in Ew.
    destruct (sdsll2str_spec n) as [z ->]; [lia|]. rred. apply Hcopy, rd_prefix.
  - destruct (next =? 117) eqn:E1; [|destruct (next =? 85) eqn:E8]; cbn [orb].
    + destruct ap as [|[| | | |n|] ap]; try done. destruct (within _ _ n) eqn:Ew; [|done]. injection Ht as <- <-. unfold within, U4_MOD in Ew.
      destruct (sdsull2str_spec n) as [z ->]; [unfold U8_MOD; lia|]. rred. apply Hcopy, rd_prefix.
    + destruct ap as [|[| | | | |n] ap]; try done. destruct (within _ _ n) eqn:Ew; [|done]. injection Ht as <- <-. unfold within in Ew.
      destruct (sdsull2str_spec n) as [z ->]; [lia|]. rred. apply Hcopy, rd_prefix.
    + injection Ht as <- <-. destruct (fmt_char_spec sh x next Hs Hr) as (sh' & -> & Hs'); [unfold fits; lia|]. rred. eauto.
Qed.

Lemma fmt_loop_spec fuel f sh x ap t z : no_nul f -> (length f < fuel)%nat -> spans sh x -> fmt_text f ap = Some t ->
  fits (blen x + blen t + 1) ->
  exists sh', fmt_loop zrealloc fuel sh (blen x) (f ++ 0 :: z) ap = Ok (sh', blen (x ++ t)) /\ spans sh' (x ++ t).
Proof.
  revert f sh x ap t. induction fuel as [|fuel IH]; intros f sh x ap t Hn Hl Hs Ht Hf; [lia|].
  pose proof (blen_nonneg x). pose proof (blen_nonneg t). unfold fits in Hf. cbn [fmt_loop].
  destruct f as [|c f]; cbn [app]. { injection Ht as <-. rewrite app_nil_r. cbn [Z.eqb]. eauto. }
  apply Forall_cons in Hn as [Hc Hn]. destruct (Z.eqb_spec c 0); [done|]. cbn [length] in Hl.
  assert (Hr : exists sh', (if free sh =? 0 then room_for zrealloc sh 1 else Ok sh) = Ok sh' /\ spans sh' x /\ 1 <= free sh').
  { destruct (Z.eqb_spec (free sh) 0); [apply room_for_spec; [done|lia|unfold fits; lia]|]. exists sh. pose proof Hs as (_ & Hfr & _). split_and!; (done || lia). }
  destruct Hr as (sh1 & -> & Hs1 & Hr1). rred. cbn [fmt_text] in Ht. destruct (c =? 37).
  - destruct f as [|next f]; [done|]. apply Forall_cons in Hn as [_ Hn]. cbn [app]. cbn [length] in Hl.
    destruct (va_text next ap) as [[t1 ap1]|] eqn:E1; [|done]. cbn in Ht. destruct (fmt_text f ap1) as [t2|] eqn:E2; [|done].
    injection Ht as <-. rewrite blen_app in Hf. pose proof (blen_nonneg t1). pose proof (blen_nonneg t2).
    destruct (fmt_directive_spec sh1 x next ap t1 ap1 Hs1 Hr1 E1) as (sh2 & -> & Hs2); [unfold fits; lia|]. rred.
    rewrite app_assoc. apply (IH f sh2 (x ++ t1)); [done|lia|done..|]. unfold fits. rewrite blen_app. lia.
  - destruct (fmt_text f ap) as [t2|] eqn:E2; [|done]. injection Ht as <-. rewrite blen_cons1 in Hf. pose proof (blen_nonneg t2).
    destruct (fmt_char_spec sh1 x c Hs1 Hr1) as (sh2 & -> & Hs2); [unfold fits; lia|]. rred.
    replace (x ++ c :: t2) with ((x ++ [c]) ++ t2) by (by rewrite <- app_assoc).
    apply (IH f sh2 (x ++ [c])); [done|lia|done..|]. unfold fits. rewrite blen_app. change (blen [c]) with 1. lia.
Qed.

Lemma sdscatfmt_spec s x fmt f ap t : holds s x -> c_str fmt = Some f -> fmt_text f ap = Some t -> fits (blen x + blen t + 1) ->
  yields (sdscatfmt zrealloc s fmt ap) (x ++ t).
Proof.
  intros Hs Hfmt Ht Hf. unfold sdscatfmt. rewrite (sdslen_spec s x Hs). rred.
  destruct Hs as (sh & -> & Hs & _). rred. destruct (c_str_prefix fmt f Hfmt) as (z & -> & Hn).
  pose proof (blen_nonneg x). pose proof (blen_nonneg t). unfold fits in Hf. rewrite to_n4_id by lia.
  destruct (fmt_loop_spec (S (length (f ++ 0 :: z))) f sh x ap t z Hn) as (sh' & -> & Hs'); [rewrite length_app; lia|done..|].
  rred. by apply spans_finish.
Qed.

End Spec.
End SdsSpec.
