(* ===== verification/SdsEdit.v ===== *)
(** * Changing strings of sds.c in place

    Trimming, white space, ranges, letters and characters on the bytes of a string, and the order of
    two strings. *)

From Stdlib Require Import Ascii String.
From S2P Require Import Prelude CText Outcome Sds SdsSpec.
Import CText Sds SdsSpec.

Module SdsEdit.

(** ** What the functions do to lists *)

Fixpoint skip_while (P : Z -> bool) (x : bytes) : bytes :=
  match x with [] => [] | c :: x' => if P c then skip_while P x' else x end.

Definition trimmed (P : Z -> bool) (x : bytes) : bytes := rev (skip_while P (rev (skip_while P x))).

(** The places from [start] to [end_], both included; places below 0 count from the end. *)
Definition range (x : bytes) (start end_ : Z) : bytes :=
  let place i := if i <? 0 then Z.max 0 (blen x + i) else i in
  take (Z.to_nat (place end_ + 1 - place start)) (drop (Z.to_nat (place start)) x).

Definition without_space (x : bytes) : bytes := filter (fun c => isspace c = false) x.

Lemma skip_while_split P x : exists a, x = a ++ skip_while P x /\ Forall (fun c => P c = true) a /\
  (forall c y, skip_while P x = c :: y -> P c = false).
Proof.
  induction x as [|c x (a & E & Ha & Hh)]; [by exists []|]. cbn. destruct (P c) eqn:Ec.
  - exists (c :: a). split_and!; [by rewrite E at 1|by constructor|done].
  - exists []. split_and!; [done|done|]. by intros ? ? [= <- _].
Qed.

(** Trimmed bytes are the middle of what there was. *)
Lemma trimmed_split P x : exists a b, x = a ++ trimmed P x ++ b /\ Forall (fun c => P c = true) a /\ Forall (fun c => P c = true) b /\
  (forall c y, trimmed P x ++ b = c :: y -> P c = false) /\
  (forall c y, trimmed P x = y ++ [c] -> P c = false) /\ (trimmed P x = [] -> b = []).
Proof.
  destruct (skip_while_split P x) as (a & E & Ha & Hh). set (y := skip_while P x) in *.
  destruct (skip_while_split P (rev y)) as (b & E2 & Hb & Hl).
  assert (Ey : y = trimmed P x ++ rev b).
  { apply (f_equal (@rev Z)) in E2. rewrite rev_involutive, rev_app_distr in E2. exact E2. }
  exists a, (rev b). split_and!.
  - by rewrite <- Ey.
  - done.
  - by apply Forall_rev.
  - rewrite <- Ey. exact Hh.
  - intros c w Ew. unfold trimmed in Ew. apply (f_equal (@rev Z)) in Ew. rewrite rev_involutive, rev_app_distr in Ew.
    exact (Hl c (rev w) Ew).
  - intros Et. rewrite Et in Ey. destruct y as [|c y]; [by destruct (rev b)|].
    specialize (Hh c y eq_refl). cbn [app] in Ey. rewrite <- Ey.
    apply (Forall_rev) in Hb. rewrite <- Ey in Hb. apply Forall_cons in Hb as [Hc _]. congruence.
Qed.

Section Edit.

(** ** Cutting *)

Lemma keep_part_spec sh x start n move : holds (Some sh) x -> 0 <= start -> 0 <= n -> start + n <= blen x ->
  (move = false -> n = 0 \/ start = 0) ->
  yields (sh ← keep_part sh start n move; Ok (Some sh)) (take (Z.to_nat n) (drop (Z.to_nat start) x)).
Proof.
  intros (? & z & [= <-] & Hl & Hf & Hu & E & Hz)%holds_elim Hs Hn Hle Hm. unfold keep_part.
  destruct (split_blen x start) as (a & y & -> & Ha); [lia|]. rewrite blen_app in Hl, Hle.
  destruct (split_blen y n) as (m & c & -> & Hm'); [lia|]. rewrite blen_app in Hl, Hle.
  replace (take (Z.to_nat n) (drop (Z.to_nat start) (a ++ m ++ c))) with m.
  2:{ unfold blen in Ha, Hm'. rewrite drop_app_length' by lia. by rewrite take_app_length' by lia. }
  pose proof (blen_nonneg a). pose proof (blen_nonneg c).
  assert (Hb : exists w, (if move then x ← defined (rd (buf sh) start n); put sh 0 x else Ok sh) = Ok (set_buf (m ++ w) sh) /\
    blen w = blen a + blen c + 1 + blen z).
  { destruct move.
    - rewrite E, <- !app_assoc, <- Ha, <- Hm', rd_mid. rred.
      pose proof (put_at sh [] (buf sh) m eq_refl) as Hp. rewrite blen_nil in Hp. rewrite Hp.
      2:{ rewrite E, !blen_app, blen_cons1. lia. }
      eexists. split; [done|]. rewrite blen_drop; rewrite E, ?blen_app, ?blen_cons1; [unfold blen; lia|].
      rewrite !length_app. lia.
    - destruct (Hm eq_refl) as [En|En].
      + assert (m = []) as -> by (apply blen_zero; lia). exists (buf sh). split; [by destruct sh|].
        rewrite E, !blen_app, blen_cons1, blen_nil. lia.
      + assert (a = []) as -> by (apply blen_zero; lia). exists (c ++ 0 :: z). split.
        * destruct sh. unfold set_buf. cbn in *. by rewrite E, <- app_assoc.
        * rewrite blen_app, blen_cons1, blen_nil. lia. }
  destruct Hb as (w & -> & Hw). rred. rewrite <- Hm'. rewrite (put_at (set_buf (m ++ w) sh) m w [0] eq_refl).
  2:{ change (blen [0]) with 1. lia. }
  rred. cbn [len free buf set_buf]. rewrite (u4_id (blen m)), u4_id by (unfold is_u4; lia).
  apply yields_ok, (holds_intro _ _ (drop 1 w)); cbn [len free buf]; [done|lia|lia|done|].
  rewrite blen_drop; [lia|]. unfold blen in *. lia.
Qed.

Lemma skip_left_spec fuel a b c z cset : (length b < fuel)%nat -> Forall (fun c => in_cset cset c = true) b ->
  (forall d y, c = d :: y -> in_cset cset d = false) ->
  skip_left fuel (a ++ b ++ c ++ z) cset (blen a) (blen a + blen b + blen c - 1) = Ok (blen a + blen b).
Proof.
  revert a b. induction fuel as [|fuel IH]; intros a b Hf Hb Hc; [lia|]. cbn [skip_left].
  destruct b as [|d b]; cbn [app].
  - rewrite blen_nil. destruct c as [|d y]; [rewrite blen_nil|rewrite blen_cons1; pose proof (blen_nonneg y)].
    + destruct (Z.leb_spec (blen a) (blen a + 0 + 0 - 1)); [lia|]. f_equal. lia.
    + destruct (Z.leb_spec (blen a) (blen a + 0 + (blen y + 1) - 1)); [|lia]. cbn [app]. rewrite get_mid. rred.
      rewrite (Hc d y eq_refl). f_equal. lia.
  - apply Forall_cons in Hb as [Hd Hb]. rewrite blen_cons1. pose proof (blen_nonneg b). pose proof (blen_nonneg c).
    destruct (Z.leb_spec (blen a) (blen a + (blen b + 1) + blen c - 1)); [|lia]. rewrite get_mid. rred. rewrite Hd.
    specialize (IH (a ++ [d]) b ltac:(cbn [length] in Hf; lia) Hb Hc). rewrite blen_app in IH. change (blen [d]) with 1 in IH.
    rewrite <- app_assoc in IH. cbn [app] in IH.
    replace (blen a + (blen b + 1) + blen c - 1) with (blen a + 1 + blen b + blen c - 1) by lia. rewrite IH. f_equal. lia.
Qed.

Lemma skip_right_spec fuel a b z cset : (length b < fuel)%nat -> Forall (fun c => in_cset cset c = true) b ->
  (forall d y, a = y ++ [d] -> in_cset cset d = false) ->
  skip_right fuel (a ++ b ++ z) cset (blen a + blen b - 1) = Ok (if blen a =? 0 then Z.min 0 (blen b - 1) else blen a - 1).
Proof.
  revert b z. induction fuel as [|fuel IH]; intros b z Hf Hb Ha; [lia|]. cbn [skip_right].
  destruct b as [|d b _] using rev_ind; cbn [app].
  - rewrite blen_nil. destruct a as [|d y _] using rev_ind.
    + done.
    + rewrite blen_app. change (blen [d]) with 1. pose proof (blen_nonneg y).
      destruct (Z.eqb_spec (blen y + 1) 0); [lia|]. destruct (Z.ltb_spec 0 (blen y + 1 + 0 - 1)); [|f_equal; lia].
      rewrite <- app_assoc. cbn [app]. replace (blen y + 1 + 0 - 1) with (blen y) by lia. rewrite get_mid. rred.
      rewrite (Ha d y eq_refl). f_equal. lia.
  - apply Forall_app in Hb as [Hb [Hd _]%Forall_cons]. rewrite blen_app. change (blen [d]) with 1.
    pose proof (blen_nonneg a). pose proof (blen_nonneg b). rewrite length_app in Hf. cbn [length] in Hf.
    replace (blen a + (blen b + 1) - 1) with (blen (a ++ b)) by (rewrite blen_app; lia).
    destruct (Z.ltb_spec 0 (blen (a ++ b))) as [Hp|Hp]; rewrite blen_app in Hp.
    + replace (a ++ (b ++ [d]) ++ z) with ((a ++ b) ++ d :: z) by (by rewrite <- !app_assoc). rewrite get_mid. rred. rewrite Hd.
      specialize (IH b (d :: z) ltac:(lia) Hb Ha). rewrite app_assoc in IH. rewrite blen_app. rewrite IH. f_equal.
      destruct (Z.eqb_spec (blen a) 0); lia.
    + f_equal. rewrite blen_app. destruct (Z.eqb_spec (blen a) 0); lia.
Qed.

(** The two pointers of [sdstrim] on bytes that are not all trimmed. *)
Lemma trim_pointers a m b z cset k : Forall (fun c => in_cset cset c = true) a -> Forall (fun c => in_cset cset c = true) b ->
  (forall c y, m ++ b = c :: y -> in_cset cset c = false) -> (forall c y, m = y ++ [c] -> in_cset cset c = false) ->
  m <> [] -> (length (a ++ m ++ b) < k)%nat ->
  skip_left k (a ++ (m ++ b) ++ z) cset 0 (blen (a ++ m ++ b) - 1) = Ok (blen a) /\
  skip_right k (a ++ (m ++ b) ++ z) cset (blen (a ++ m ++ b) - 1) = Ok (blen a + blen m - 1).
Proof.
  intros Ha Hb Hh Ht Hm Hk. rewrite !length_app in Hk. split.
  - pose proof (skip_left_spec k [] a (m ++ b) z cset ltac:(lia) Ha Hh) as H1. rewrite blen_nil in H1. cbn [app] in H1.
    rewrite blen_app. exact H1.
  - pose proof (skip_right_spec k (a ++ m) b z cset ltac:(lia) Hb) as H2. rewrite <- !app_assoc in H2 |- *.
    rewrite !blen_app in H2. rewrite !blen_app. replace (blen a + (blen m + blen b) - 1) with (blen a + blen m + blen b - 1) by lia. rewrite H2.
    + destruct m as [|c m]; [done|]. rewrite blen_cons1. pose proof (blen_nonneg a). pose proof (blen_nonneg m).
      destruct (Z.eqb_spec (blen a + (blen m + 1)) 0); [lia|done].
    + intros d y Ey. destruct m as [|c m _] using rev_ind; [done|]. rewrite app_assoc in Ey.
      apply app_inj_tail in Ey as [_ <-]. by apply (Ht c m).
Qed.

Lemma sdstrim_spec s x cs cset : holds s x -> c_str cs = Some cset -> yields (sdstrim s cs) (trimmed (in_cset cset) x).
Proof.
  intros Hs Hc. pose proof (holds_elim _ _ Hs) as (sh & z & -> & Hl & Hf & Hu & E & Hz). unfold sdstrim. rred. rewrite Hc. rred.
  destruct (trimmed_split (in_cset cset) x) as (a & b & Ex & Ha & Hb & Hh & Ht & Hn).
  set (m := trimmed (in_cset cset) x) in *. rewrite Hl. pose proof (blen_nonneg a). pose proof (blen_nonneg m).
  destruct (decide (m = [])) as [Em|Em].
  - rewrite Em, (Hn Em), app_nil_r in Ex. cbn [app] in Ex. subst a. rewrite E.
    pose proof (skip_left_spec (S (length (x ++ 0 :: z))) [] x [] (0 :: z) cset) as H1. rewrite !blen_nil in H1. cbn [app] in H1.
    pose proof (skip_right_spec (S (length (x ++ 0 :: z))) [] x (0 :: z) cset) as H2. rewrite blen_nil in H2. cbn [app] in H2.
    rewrite Z.add_0_r, !Z.add_0_l in H1. rewrite Z.add_0_l in H2. rewrite H1, H2; [|rewrite length_app; lia|done|by intros d [|] ?|rewrite length_app; lia|done|done].
    rred. change (0 =? 0) with true. cbn iota. destruct (Z.ltb_spec (Z.min 0 (blen x - 1)) (blen x)); [|lia].
    rewrite Em. change (@nil Z) with (take (Z.to_nat 0) (drop (Z.to_nat (blen x)) x)).
    apply keep_part_spec; [done|lia|lia|lia|by left].
  - destruct (trim_pointers a m b (0 :: z) cset (S (length (buf sh))) Ha Hb Hh Ht Em) as [H1 H2].
    { rewrite E, Ex, !length_app. lia. }
    rewrite <- Ex in H1, H2. assert (Eb : buf sh = a ++ (m ++ b) ++ 0 :: z) by (rewrite E, Ex; by rewrite <- !app_assoc).
    rewrite <- Eb in H1, H2. rewrite H1, H2. rred. assert (0 < blen m) by (pose proof (blen_zero m); lia || (destruct m; [done|rewrite blen_cons1; pose proof (blen_nonneg m); lia])).
    destruct (Z.ltb_spec (blen a + blen m - 1) (blen a)); [lia|]. replace (blen a + blen m - 1 - blen a + 1) with (blen m) by lia.
    replace m with (take (Z.to_nat (blen m)) (drop (Z.to_nat (blen a)) x)) at 2.
    2:{ rewrite Ex. unfold blen. by rewrite !Nat2Z.id, drop_app_length, take_app_length. }
    apply keep_part_spec; [done|lia|lia|rewrite Ex, !blen_app; pose proof (blen_nonneg b); lia|].
    intros Hm. destruct (Z.eqb_spec (blen a) 0); [by right|done].
Qed.

(** Zero bytes are trimmed whatever the set is. *)
Lemma trimmed_zero cset c : in_cset cset c = true <-> c = 0 \/ c ∈ cset.
Proof. unfold in_cset. rewrite orb_true_iff, Z.eqb_eq, bool_decide_eq_true. done. Qed.

(** ** White space *)

Lemma trimspace_loop_spec fuel k g r z : (length r < fuel)%nat ->
  exists g', trimspace_loop fuel (k ++ g ++ r ++ z) (blen (k ++ g)) (blen k) (blen (k ++ g ++ r)) =
    Ok (k ++ without_space r ++ g', blen k + blen (without_space r)) /\ blen (without_space r ++ g') = blen (g ++ r ++ z).
Proof.
  revert k g r. induction fuel as [|fuel IH]; intros k g r Hf; [lia|]. cbn [trimspace_loop].
  destruct r as [|c r]; cbn [app].
  - exists (g ++ z). change (without_space []) with (@nil Z). rewrite app_nil_r, blen_nil. destruct (Z.ltb_spec (blen (k ++ g)) (blen (k ++ g))); [lia|].
    cbn [app filter]. split; [do 2 f_equal; lia|done].
  - cbn [length] in Hf. assert (E1 : k ++ g ++ c :: r = k ++ (g ++ [c]) ++ r) by (by rewrite <- !app_assoc).
    assert (Hlt : blen (k ++ g) < blen (k ++ g ++ c :: r)).
    { rewrite !blen_app, blen_cons1. pose proof (blen_nonneg r). lia. }
    destruct (Z.ltb_spec (blen (k ++ g)) (blen (k ++ g ++ c :: r))) as [_|]; [|lia].
    assert (Eg : get (k ++ g ++ c :: r ++ z) (blen (k ++ g)) = Ok c) by (rewrite app_assoc; apply get_mid).
    rewrite Eg. rred. unfold without_space. rewrite filter_cons. fold (without_space r).
    replace (k ++ g ++ c :: r ++ z) with (k ++ (g ++ [c]) ++ r ++ z) by (by rewrite <- !app_assoc).
    replace (blen (k ++ g) + 1) with (blen (k ++ g ++ [c])) by (rewrite !blen_app; change (blen [c]) with 1; lia). rewrite E1.
    destruct (isspace c).
    + rewrite decide_False by done. destruct (IH k (g ++ [c]) r ltac:(lia)) as (g' & -> & El). exists g'. split; [done|].
      rewrite El. blens.
    + rewrite decide_True by done. destruct (g ++ [c]) as [|d g2] eqn:Eh; [by destruct g|].
      rewrite (wr_mid k [d] (g2 ++ r ++ z) [c] eq_refl : wr (k ++ (d :: g2) ++ r ++ z) (blen k) [c] = _). rred.
      specialize (IH (k ++ [c]) g2 r ltac:(lia)). rewrite <- !app_assoc in IH. cbn [app] in IH |- *. destruct IH as (g' & E & El).
      replace (blen (k ++ [c])) with (blen k + 1) in E by blens.
      assert (Ea : blen (k ++ c :: g2) = blen (k ++ d :: g2)) by (rewrite !blen_app, !blen_cons1; done).
      assert (Eb : blen (k ++ c :: g2 ++ r) = blen (k ++ d :: g2 ++ r)) by (rewrite !blen_app, !blen_cons1; done).
      rewrite Ea, Eb in E. rewrite E. exists g'. apply (f_equal blen) in Eh. rewrite blen_app, blen_cons1 in Eh. change (blen [c]) with 1 in Eh.
      split; [rewrite <- app_assoc; do 2 f_equal; blens|blens].
Qed.

(** Up to the first zero byte; a string that begins with one is left alone. *)
Definition space_trimmed (x : bytes) : bytes := match c_string x with [] => x | c => without_space c end.

Lemma sdstrimspace_spec s x : holds s x -> yields (sdstrimspace s) (space_trimmed x).
Proof.
  intros Hs. pose proof (holds_elim _ _ Hs) as (sh & z & -> & Hl & Hf & Hu & E & Hz). unfold sdstrimspace, space_trimmed.
  destruct (c_string_split x z) as (w & Hc & Ex & Hlen). rewrite E, Hc. rred. set (c := c_string x) in *.
  destruct (Z.eqb_spec (blen c) 0) as [E0|E0]; [apply blen_zero in E0 as ->; by apply yields_ok|].
  destruct c as [|c0 c'] eqn:Ec; [by rewrite blen_nil in E0|]. rewrite <- Ec in *. clear E0.
  destruct (trimspace_loop_spec (S (length (x ++ 0 :: z))) [] [] c (0 :: w)) as (g & H1 & El).
  { rewrite Ex, length_app. lia. }
  cbn [app] in H1, El. rewrite Ex. rewrite blen_nil in H1. rewrite <- Ex in H1 at 1. rewrite Ex in H1. rewrite H1. rred.
  pose proof (blen_nonneg (without_space c)). assert (Hle : blen (without_space c) <= blen c).
  { unfold blen, without_space. pose proof (length_filter (fun c => isspace c = false) c). lia. }
  rewrite blen_app in El. apply (f_equal blen) in Ex. autorewrite with blens in Ex, El.
  rewrite Z.add_0_l, (put_at (set_buf _ sh) (without_space c) g [0] eq_refl) by (change (blen [0]) with 1; pose proof (blen_nonneg w); lia). rred.
  cbn [len free buf set_buf]. rewrite !u4_id by (unfold is_u4; lia).
  apply yields_ok, (holds_intro _ _ (drop 1 g)); cbn [len free buf]; [done|lia|lia|done|].
  rewrite blen_drop; [lia|]. pose proof (blen_nonneg w). unfold blen in *. lia.
Qed.

(** ** Ranges *)

(** A difference that is a [size_t], back in an [int]. *)
Lemma int_of_size d : - 2 ^ 31 <= d < 2 ^ 31 -> to_n4 (u8 d) = d.
Proof.
  intros Hd. unfold to_n4, u8, U4_MOD, U8_MOD. destruct (decide (0 <= d)).
  - rewrite (Z.mod_small d), Z.mod_small by lia. lia.
  - assert (E : d mod 2 ^ 64 = d + 2 ^ 64) by (symmetry; apply (Z.mod_unique_pos _ _ (-1)); lia). rewrite E.
    assert (E2 : (d + 2 ^ 64 + 2 ^ 31) mod 2 ^ 32 = d + 2 ^ 31) by (symmetry; apply (Z.mod_unique_pos _ _ (2 ^ 32)); lia).
    rewrite E2. lia.
Qed.

Lemma place_int n i : 0 <= n < 2 ^ 31 -> - 2 ^ 31 <= i < 2 ^ 31 ->
  (if i <? 0 then Z.max 0 (to_n4 (u8 (n + i))) else i) = (if i <? 0 then Z.max 0 (n + i) else i).
Proof.
  intros Hn Hi. destruct (Z.ltb_spec i 0); [|done]. by rewrite int_of_size by lia.
Qed.

(** [INT_MAX] as the last place overflows. *)
Lemma sdsrange_spec s x start end_ : holds s x -> fits (blen x) -> - 2 ^ 31 <= start < 2 ^ 31 -> - 2 ^ 31 <= end_ < 2 ^ 31 - 1 ->
  yields (sdsrange s start end_) (range x start end_).
Proof.
  intros Hs Hfit Hst Hen. pose proof (holds_elim _ _ Hs) as (sh & z & -> & Hl & _). unfold sdsrange. rred. rewrite Hl.
  unfold fits in Hfit. pose proof (blen_nonneg x). rewrite !place_int by lia. unfold range.
  destruct (Z.eqb_spec (blen x) 0) as [E0|E0]; [apply blen_zero in E0 as ->; rewrite drop_nil, take_nil; by apply yields_ok|].
  set (a := if start <? 0 then Z.max 0 (blen x + start) else start). set (b := if end_ <? 0 then Z.max 0 (blen x + end_) else end_).
  assert (Ha : 0 <= a < 2 ^ 31) by (unfold a; destruct (Z.ltb_spec start 0); lia).
  assert (Hb : 0 <= b < 2 ^ 31 - 1) by (unfold b; destruct (Z.ltb_spec end_ 0); lia).
  destruct (Z.ltb_spec b a).
  { rred. cbn [Z.eqb negb andb]. replace (Z.to_nat (b + 1 - a)) with 0%nat by lia.
    change (take 0 _) with (take (Z.to_nat 0) (drop (Z.to_nat 0) x)). apply keep_part_spec; [done|lia..|by left]. }
  rewrite chk_n4_ok by lia. rred. rewrite (u8_id (b - a + 1)) by (unfold is_u8, U8_MOD; lia).
  destruct (Z.eqb_spec (b - a + 1) 0); [lia|]. cbn [negb]. rewrite to_n4_id by lia. destruct (Z.leb_spec (blen x) a).
  { cbn [Z.eqb negb]. rewrite andb_false_r. rewrite drop_ge, take_nil by (unfold blen in *; lia).
    change (yields (sh ← keep_part sh 0 0 false; Ok (Some sh)) (take (Z.to_nat 0) (drop (Z.to_nat 0) x))).
    apply keep_part_spec; [done|lia..|by left]. }
  destruct (Z.leb_spec (blen x) b).
  - rewrite u8_id, to_n4_id by (unfold is_u8, U8_MOD; lia). destruct (Z.ltb_spec (blen x - 1) a); [lia|].
    rewrite u8_id by (unfold is_u8, U8_MOD; lia). replace (blen x - 1 - a + 1) with (blen x - a) by lia.
    replace (take (Z.to_nat (b + 1 - a)) (drop (Z.to_nat a) x)) with (take (Z.to_nat (blen x - a)) (drop (Z.to_nat a) x)).
    2:{ rewrite !take_ge; [done|rewrite length_drop; unfold blen in *; lia..]. }
    apply keep_part_spec; [done|lia..|]. destruct (Z.eqb_spec a 0), (Z.eqb_spec (blen x - a) 0); cbn; (done || lia).
  - replace (b + 1 - a) with (b - a + 1) by lia. apply keep_part_spec; [done|lia..|].
    destruct (Z.eqb_spec a 0), (Z.eqb_spec (b - a + 1) 0); cbn; (done || lia).
Qed.

(** ** Characters *)

Lemma map_loop_spec fuel g h a b z : (length b < fuel)%nat -> Forall (fun c => g c = Ok (h c)) b ->
  map_loop fuel g (a ++ b ++ z) (blen a) (blen a + blen b) = Ok (a ++ map h b ++ z).
Proof.
  revert a b. induction fuel as [|fuel IH]; intros a b Hf Hg; [lia|]. cbn [map_loop]. destruct b as [|c b].
  - rewrite blen_nil. destruct (Z.ltb_spec (blen a) (blen a + 0)); [lia|done].
  - apply Forall_cons in Hg as [Hc Hg]. rewrite blen_cons1. pose proof (blen_nonneg b).
    destruct (Z.ltb_spec (blen a) (blen a + (blen b + 1))); [|lia]. cbn [app]. rewrite get_mid. rred. rewrite Hc. rred.
    rewrite (wr_mid a [c] (b ++ z) [h c] eq_refl : wr (a ++ c :: b ++ z) (blen a) [h c] = _). rred. cbn [length] in Hf.
    specialize (IH (a ++ [h c]) b ltac:(lia) Hg). rewrite <- !app_assoc in IH. cbn [app map] in *.
    replace (blen (a ++ [h c])) with (blen a + 1) in IH by blens.
    by replace (blen a + (blen b + 1)) with (blen a + 1 + blen b) by lia.
Qed.

Lemma map_string_spec s x g h length_of : holds s x -> (forall sh, s = Some sh -> length_of sh = blen x) ->
  Forall (fun c => g c = Ok (h c)) x -> yields (map_string g length_of s) (map h x).
Proof.
  intros (sh & z & -> & Hl & Hf & Hu & E & Hz)%holds_elim Hlen Hg. unfold map_string. rred. rewrite (Hlen sh eq_refl), E.
  rewrite (map_loop_spec _ g h [] x (0 :: z)); [|rewrite length_app; lia|done]. rred.
  assert (El : blen (map h x) = blen x) by (unfold blen; by rewrite length_map).
  apply yields_ok, (holds_intro _ _ z); cbn [len free buf set_buf app]; [by rewrite El|done|done|done|done].
Qed.

Lemma int_len_spec s x : holds s x -> fits (blen x) -> forall sh, s = Some sh -> int_len sh = blen x.
Proof.
  intros (sh & z & -> & Hl & _)%holds_elim Hf sh' [= <-]. unfold int_len. rewrite Hl. pose proof (blen_nonneg x).
  apply to_n4_id. unfold fits in Hf. lia.
Qed.

Lemma sdstolower_spec s x : holds s x -> fits (blen x) -> yields (sdstolower s) (map tolower x).
Proof. intros Hs Hf. apply map_string_spec; [done|by apply int_len_spec|by apply Forall_true]. Qed.

Lemma sdstoupper_spec s x : holds s x -> fits (blen x) -> yields (sdstoupper s) (map toupper x).
Proof. intros Hs Hf. apply map_string_spec; [done|by apply int_len_spec|by apply Forall_true]. Qed.

(** The character of [to] that stands for [c]. *)
Fixpoint mapped (from to : bytes) (c : Z) : Z :=
  match from, to with f :: from, t :: to => if c =? f then t else mapped from to c | _, _ => c end.

Lemma map_char_spec n from to c : length from = n -> length to = n -> map_char n from to c = Ok (mapped from to c).
Proof.
  revert from to. induction n as [|n IH]; intros [|f from] [|t to]; try done. intros [= Hf] [= Ht]. cbn [map_char mapped head tail].
  rred. destruct (c =? f); [done|]. by apply IH.
Qed.

Lemma sdsmapchars_spec s x from to : holds s x -> blen from = blen to ->
  yields (sdsmapchars s from to (blen from)) (map (mapped from to) x).
Proof.
  intros Hs Hl. apply map_string_spec; [done| |].
  - intros sh ->. by apply holds_spans in Hs as [? _].
  - apply Forall_true. intros c. unfold blen in *. apply map_char_spec; lia.
Qed.

(** ** Comparing *)

Fixpoint lex_lt (x y : bytes) : bool :=
  match x, y with
  | _, [] => false
  | [], _ => true
  | a :: x, b :: y => (a <? b) || ((a =? b) && lex_lt x y)
  end.

Lemma memcmp_lex x y u v : exists c, memcmp (Z.to_nat (Z.min (blen x) (blen y))) (x ++ u) (y ++ v) = Some c /\
  (c = 0 -> (x = y <-> blen x = blen y) /\ lex_lt x y = (blen x <? blen y)) /\
  (c <> 0 -> x <> y /\ lex_lt x y = (c <? 0)).
Proof.
  revert y. induction x as [|a x IH]; intros y.
  { exists 0. pose proof (blen_nonneg y). rewrite blen_nil, Z.min_l by done. split_and!; [done| |done]. intros _. destruct y as [|b y].
    - done.
    - rewrite blen_cons1. pose proof (blen_nonneg y). split; [split; [done|lia]|]. symmetry. by apply Z.ltb_lt; lia. }
  destruct y as [|b y].
  { exists 0. pose proof (blen_nonneg (a :: x)). rewrite blen_nil, Z.min_r by done. split_and!; [done| |done]. intros _.
    rewrite blen_cons1 in *. pose proof (blen_nonneg x). split; [split; [done|lia]|]. symmetry. apply Z.ltb_ge. lia. }
  rewrite !blen_cons1. pose proof (blen_nonneg x). pose proof (blen_nonneg y).
  replace (Z.to_nat (Z.min (blen x + 1) (blen y + 1))) with (S (Z.to_nat (Z.min (blen x) (blen y)))) by lia.
  cbn [memcmp app lex_lt]. destruct (Z.ltb_spec a b); [|destruct (Z.ltb_spec b a)].
  - exists (-1). split_and!; [done|done|]. intros _. split; [intros [= -> _]; lia|done].
  - exists 1. split_and!; [done|done|]. intros _. destruct (Z.eqb_spec a b); [lia|]. split; [intros [= -> _]; lia|done].
  - assert (a = b) as -> by lia. rewrite Z.eqb_refl. cbn [orb andb]. destruct (IH y) as (c & E & Hz & Hn). exists c. split_and!; [done| |].
    + intros ->. destruct (Hz eq_refl) as [He Hlt]. split.
      * split; [intros [= ->]; done|]. intros ?. f_equal. apply He. lia.
      * rewrite Hlt. destruct (Z.ltb_spec (blen x) (blen y)), (Z.ltb_spec (blen x + 1) (blen y + 1)); (done || lia).
    + intros Hc. destruct (Hn Hc) as [Hne Hlt]. split; [by intros [= ->]|done].
Qed.

(** The sign says which string is less, and whether they are equal. *)
Lemma sdscmp_spec s1 s2 x y : holds s1 x -> holds s2 y -> fits (blen x) -> fits (blen y) ->
  exists c, sdscmp s1 s2 = Ok c /\ (c = 0 <-> x = y) /\ (c < 0 <-> lex_lt x y = true).
Proof.
  intros (sh1 & z1 & -> & Hl1 & _ & _ & E1 & _)%holds_elim (sh2 & z2 & -> & Hl2 & _ & _ & E2 & _)%holds_elim Hx Hy.
  unfold sdscmp. rred. rewrite Hl1, Hl2, E1, E2. destruct (memcmp_lex x y (0 :: z1) (0 :: z2)) as (c & -> & Hz & Hn). rred.
  eexists. split; [done|]. pose proof (blen_nonneg x). pose proof (blen_nonneg y). unfold fits in *. destruct (Z.eqb_spec c 0) as [Ec|Ec].
  - destruct (Hz Ec) as [He ->]. rewrite int_of_size, He, Z.ltb_lt by lia. lia.
  - destruct (Hn Ec) as [Hne ->]. rewrite Z.ltb_lt. split; [split; [done|intros; congruence]|done].
Qed.

End Edit.
End SdsEdit.
