(* ===== verification/SdsText.v ===== *)
(** * Quoting, splitting and joining strings of sds.c

    What [sdssplitargs] makes of a line whose arguments are quoted by [sdscatrepr], in single quotes or
    plain, and of a quote that stays open; the loop of [sdssplitlen], and what [sdsjoin] makes of tokens. *)

From Stdlib Require Import Ascii String.
From S2P Require Import Prelude CText Outcome Sds SdsSpec SdsEdit.
Import CText Sds SdsSpec SdsEdit.

Module SdsText.

Definition byte (c : Z) : Prop := 0 <= c < 256.

(** The text of a character between double quotes, and of a string. *)
Definition repr_char (c : Z) : bytes :=
  if (c =? BACKSLASH) || (c =? QUOTE) then [BACKSLASH; c]
  else if c =? 10 then [BACKSLASH; 110]
  else if c =? 13 then [BACKSLASH; 114]
  else if c =? 9 then [BACKSLASH; 116]
  else if c =? 7 then [BACKSLASH; 97]
  else if c =? 8 then [BACKSLASH; 98]
  else if isprint c then [c]
  else [BACKSLASH; 120; hex (c / 16); hex (c mod 16)].

Definition repr_chars (t : bytes) : bytes := concat (map repr_char t).
Definition repr (t : bytes) : bytes := QUOTE :: repr_chars t ++ [QUOTE].

Lemma hex_digit d : 0 <= d < 16 -> is_hex_digit (hex d) = true /\ hex_digit_to_int (hex d) = d /\ hex d <> 0.
Proof.
  intros H. assert (d ∈ seqZ 0 16) by (apply elem_of_seqZ; lia).
  assert (Forall (fun d => is_hex_digit (hex d) = true /\ hex_digit_to_int (hex d) = d /\ hex d <> 0) (seqZ 0 16)) as Ha by (repeat constructor; done).
  by apply (proj1 (Forall_forall _ _) Ha).
Qed.

Lemma byte_digits c : byte c -> 0 <= c / 16 < 16 /\ 0 <= c mod 16 < 16.
Proof.
  intros H. unfold byte in H. split; [|by apply Z.mod_pos_bound]. split; [by apply Z.div_pos; lia|]. apply Z.div_lt_upper_bound; lia.
Qed.

Lemma repr_char_length c : 1 <= blen (repr_char c) <= 4.
Proof.
  unfold repr_char. destruct ((c =? BACKSLASH) || (c =? QUOTE)); [done|]. destruct (c =? 10); [done|]. destruct (c =? 13); [done|].
  destruct (c =? 9); [done|]. destruct (c =? 7); [done|]. destruct (c =? 8); [done|]. by destruct (isprint c).
Qed.

Lemma repr_chars_length t : blen (repr_chars t) <= 4 * blen t.
Proof.
  induction t as [|c t IH]; [done|]. unfold repr_chars in *. cbn [map concat]. rewrite blen_app, blen_cons1.
  pose proof (repr_char_length c). lia.
Qed.

Lemma repr_chars_longer t : (length t <= length (repr_chars t))%nat.
Proof.
  induction t as [|c t IH]; [done|]. unfold repr_chars in *. cbn [map concat length]. rewrite length_app.
  pose proof (repr_char_length c). unfold blen in *. lia.
Qed.

Lemma isprint_range c : isprint c = true <-> 32 <= c <= 126.
Proof. unfold isprint. rewrite andb_true_iff, !Z.leb_le. done. Qed.

Section Text.
Context (zmalloc : malloc_fun) (zrealloc : realloc_fun) (room : Z -> bool).
Hypothesis zmalloc_size : malloc_ok zmalloc.
Hypothesis zmalloc_some : forall n, 0 <= n -> zmalloc n <> None.
Hypothesis zrealloc_keeps : realloc_serves zrealloc.
Hypothesis room_enough : forall n, room n = true.

Lemma cat_text s x t : holds s x -> fits (blen x + blen t) -> yields (sdscatlen zrealloc s t (blen t)) (x ++ t).
Proof. intros Hs Hf. apply sdscatlen_spec; [done..|by apply rd_all|done]. Qed.

Lemma print_text s x fmt t : holds s x -> fits (blen fmt) -> Forall (.≠ 0) t -> fits (blen x + blen t) ->
  yields (sdscatprintf zmalloc zrealloc s fmt t) (x ++ t).
Proof. intros Hs Hm Ht Hf. rewrite <- (c_string_id t Ht) at 2. by apply sdscatprintf_spec. Qed.

(** ** Quoting *)

Lemma catrepr_char_spec s x c : holds s x -> byte c -> fits (blen x + 4) -> yields (catrepr_char zmalloc zrealloc s c) (x ++ repr_char c).
Proof.
  intros Hs Hc Hf. unfold fits in Hf. unfold catrepr_char, repr_char.
  destruct ((c =? BACKSLASH) || (c =? QUOTE)) eqn:Eq.
  { apply print_text; [done|done| |unfold fits; blens]. unfold BACKSLASH, QUOTE in *. repeat constructor; lia. }
  assert (Hcat : forall d, yields (sdscatlen zrealloc s [BACKSLASH; d] 2) (x ++ [BACKSLASH; d])).
  { intros d. apply (cat_text s x [BACKSLASH; d] Hs). unfold fits. blens. }
  destruct (c =? 10); [apply Hcat|]. destruct (c =? 13); [apply Hcat|]. destruct (c =? 9); [apply Hcat|].
  destruct (c =? 7); [apply Hcat|]. destruct (c =? 8); [apply Hcat|]. destruct (isprint c) eqn:Ep.
  - apply isprint_range in Ep. apply print_text; [done|done| |unfold fits; blens]. repeat constructor. lia.
  - destruct (byte_digits c Hc) as [H1 H2]. destruct (hex_digit _ H1) as (_ & _ & ?), (hex_digit _ H2) as (_ & _ & ?).
    apply print_text; [done|done| |unfold fits; cbn [chars app]; blens]. by repeat constructor.
Qed.

Lemma catrepr_loop_spec t s x : holds s x -> Forall byte t -> fits (blen x + 4 * blen t) ->
  yields (catrepr_loop zmalloc zrealloc s t) (x ++ repr_chars t).
Proof.
  revert s x. induction t as [|c t IH]; intros s x Hs Ht Hf; cbn [catrepr_loop].
  - rewrite app_nil_r. by apply yields_ok.
  - apply Forall_cons in Ht as [Hc Ht]. rewrite blen_cons1 in Hf. unfold fits in *. pose proof (blen_nonneg t).
    eapply yields_bind; [apply catrepr_char_spec; [done|done|unfold fits; lia]|]. intros s' Hs'.
    unfold repr_chars. cbn [map concat]. rewrite app_assoc. apply IH; [done|done|]. pose proof (repr_char_length c). blens.
Qed.

Lemma sdscatrepr_spec s x p t : holds s x -> rd p 0 (blen t) = Some t -> Forall byte t -> fits (blen x + 4 * blen t + 2) ->
  yields (sdscatrepr zmalloc zrealloc s p (blen t)) (x ++ repr t).
Proof.
  intros Hs Hp Ht Hf. unfold sdscatrepr, repr, fits in *. pose proof (blen_nonneg t).
  eapply yields_bind; [apply (cat_text s x [QUOTE] Hs); unfold fits; blens|]. intros s1 Hs1. rewrite Hp. rred.
  eapply yields_bind; [apply catrepr_loop_spec; [exact Hs1|done|unfold fits; blens]|]. intros s2 Hs2.
  pose proof (repr_chars_length t). replace (x ++ QUOTE :: repr_chars t ++ [QUOTE]) with (((x ++ [QUOTE]) ++ repr_chars t) ++ [QUOTE])
    by (by rewrite <- !app_assoc).
  apply (cat_text s2 _ [QUOTE] Hs2). unfold fits. blens.
Qed.

(** ** Reading arguments *)

Lemma get_0 c p : get (c :: p) 0 = Ok c.
Proof. by apply get_lookup. Qed.
Lemma get_1 c d p : get (c :: d :: p) 1 = Ok d.
Proof. by apply get_lookup. Qed.
Lemma get_2 c d e p : get (c :: d :: e :: p) 2 = Ok e.
Proof. by apply get_lookup. Qed.
Lemma get_3 c d e f p : get (c :: d :: e :: f :: p) 3 = Ok f.
Proof. by apply get_lookup. Qed.

Lemma advance_cons c p : c <> 0 -> advance (c :: p) = Ok p.
Proof. intros Hc. unfold advance. rewrite get_0. rred. apply Z.eqb_neq in Hc. by rewrite Hc. Qed.

(** One character is read and appended: the state of quotes stays. *)
Definition reads (step : sds -> bytes -> res arg_step) (inq insq : bool) (text : bytes) (c : Z) : Prop :=
  forall s x w, holds s x -> fits (blen x + 1) ->
  exists s' p, step s (text ++ w) = Ok (Next s' p inq insq false) /\ holds s' (x ++ [c]) /\ advance p = Ok w.

Lemma reads_by step inq insq text c p : (forall w, advance (p ++ w) = Ok w) ->
  (forall s w, exists b, rd b 0 1 = Some [c] /\ step s (text ++ w) = (s ← sdscatlen zrealloc s b 1; Ok (Next s (p ++ w) inq insq false))) ->
  reads step inq insq text c.
Proof.
  intros Ha Hstep s x w Hs Hf. destruct (Hstep s w) as (b & Hb & ->).
  destruct (sdscatlen_spec zrealloc zrealloc_keeps s x b [c] Hs Hb Hf) as (s' & E & Hs').
  change (sdscatlen zrealloc s b 1 = Ok s') in E. rewrite E. rred. eauto.
Qed.

Lemma quoted_plain c : c <> BACKSLASH -> c <> QUOTE -> c <> 0 -> reads (quoted_step zrealloc) true false [c] c.
Proof.
  intros H1 H2 H0. apply reads_by with [c]; [intros w; by apply advance_cons|]. intros s w. exists (c :: w).
  split; [apply (rd_prefix [c] w)|]. apply Z.eqb_neq in H1, H2, H0. unfold quoted_step, hex_escape. cbn [app]. rewrite !get_0. rred.
  rewrite H1. cbn [negb]. rred. by rewrite H2, H0.
Qed.

Lemma quoted_escape d : d <> 120 -> d <> 0 -> reads (quoted_step zrealloc) true false [BACKSLASH; d] (unescape d).
Proof.
  intros H1 H0. apply reads_by with [d]; [intros w; by apply advance_cons|]. intros s w. exists [unescape d].
  split; [done|]. apply Z.eqb_neq in H1, H0. unfold quoted_step, hex_escape. cbn [app]. rewrite !get_0, !get_1. rred.
  rewrite H1. cbn [Z.eqb negb]. rred. rewrite H0. cbn [negb]. by rred.
Qed.

Lemma quoted_hex c : byte c -> reads (quoted_step zrealloc) true false [BACKSLASH; 120; hex (c / 16); hex (c mod 16)] c.
Proof.
  intros Hc. destruct (byte_digits c Hc) as [H1 H2].
  destruct (hex_digit _ H1) as (Ha & Hb & ?), (hex_digit _ H2) as (Hd & He & ?).
  apply reads_by with [hex (c mod 16)]; [intros w; by apply advance_cons|]. intros s w. exists [c].
  split; [done|]. unfold quoted_step, hex_escape. cbn [app]. rewrite !get_0, !get_1, get_2, get_3. rred.
  change (BACKSLASH =? BACKSLASH) with true. change (120 =? 120) with true. cbn [negb]. rewrite Ha, Hd. cbn [negb]. rred. rewrite Hb, He.
  replace (c / 16 * 16 + c mod 16) with c by (pose proof (Z.div_mod c 16); lia). by rewrite (Z.mod_small c 256 Hc).
Qed.

Lemma quoted_char c : byte c -> reads (quoted_step zrealloc) true false (repr_char c) c.
Proof.
  intros Hc. unfold repr_char. destruct ((c =? BACKSLASH) || (c =? QUOTE)) eqn:Eq.
  { apply orb_true_iff in Eq as [->%Z.eqb_eq| ->%Z.eqb_eq]; by apply quoted_escape. }
  apply orb_false_iff in Eq as [Eb%Z.eqb_neq Eq%Z.eqb_neq].
  destruct (Z.eqb_spec c 10) as [->|]; [by apply quoted_escape|]. destruct (Z.eqb_spec c 13) as [->|]; [by apply quoted_escape|].
  destruct (Z.eqb_spec c 9) as [->|]; [by apply quoted_escape|]. destruct (Z.eqb_spec c 7) as [->|]; [by apply quoted_escape|].
  destruct (Z.eqb_spec c 8) as [->|]; [by apply quoted_escape|].
  destruct (isprint c) eqn:Ep; [|by apply quoted_hex]. apply isprint_range in Ep. apply quoted_plain; [done|done|lia].
Qed.

Lemma single_char c : c <> BACKSLASH -> c <> APOSTROPHE -> c <> 0 -> reads (single_quoted_step zrealloc) false true [c] c.
Proof.
  intros H1 H2 H0. apply reads_by with [c]; [intros w; by apply advance_cons|]. intros s w. exists (c :: w).
  split; [apply (rd_prefix [c] w)|]. apply Z.eqb_neq in H1, H2, H0. unfold single_quoted_step. cbn [app]. rewrite !get_0. rred.
  rewrite H1. rred. by rewrite H2, H0.
Qed.

Lemma single_apostrophe : reads (single_quoted_step zrealloc) false true [BACKSLASH; APOSTROPHE] APOSTROPHE.
Proof.
  apply reads_by with [APOSTROPHE]; [intros w; by apply advance_cons|]. intros s w. exists [APOSTROPHE].
  split; [done|]. unfold single_quoted_step. cbn [app]. rewrite !get_0, !get_1. done.
Qed.

(** A character that ends no word and opens no quotes. *)
Definition word_char (c : Z) : bool :=
  negb ((c =? 32) || (c =? 10) || (c =? 13) || (c =? 9) || (c =? 0) || (c =? QUOTE) || (c =? APOSTROPHE)).

Lemma plain_char c : word_char c = true -> reads (plain_step zrealloc) false false [c] c.
Proof.
  intros H. unfold word_char in H. apply negb_true_iff, orb_false_iff in H as [[H Hq]%orb_false_iff Ha].
  apply orb_false_iff in H as [H H0]. apply reads_by with [c]; [intros w; apply advance_cons; by apply Z.eqb_neq|]. intros s w. exists (c :: w).
  split; [apply (rd_prefix [c] w)|]. unfold plain_step. cbn [app]. rewrite !get_0. rred. rewrite H, H0, Hq, Ha. done.
Qed.
(** *** Arguments *)

(** An argument in double quotes, in single quotes or plain. *)
Inductive item := Quoted (t : bytes) | Single (t : bytes) | Word (t : bytes).

Definition single_text (c : Z) : bytes := if c =? APOSTROPHE then [BACKSLASH; APOSTROPHE] else [c].

Definition item_text (i : item) : bytes :=
  match i with
  | Quoted t => repr t
  | Single t => APOSTROPHE :: concat (map single_text t) ++ [APOSTROPHE]
  | Word t => t
  end.

Definition item_value (i : item) : bytes := match i with Quoted t | Single t | Word t => t end.

(** Any bytes between double quotes; between single ones no backslash and no zero byte; a word begins with
    no space. *)
Definition item_ok (i : item) : Prop :=
  fits (blen (item_value i) + 1) /\
  match i with
  | Quoted t => Forall byte t
  | Single t => Forall (fun c => c <> BACKSLASH /\ c <> 0) t
  | Word t => Forall (fun c => word_char c = true) t /\ match t with c :: _ => isspace c = false | [] => False end
  end.

Definition blank (c : Z) : Prop := c = 32 \/ c = 10 \/ c = 13 \/ c = 9.

Lemma blank_space c : blank c -> isspace c = true /\ c <> 0.
Proof. by intros [-> | [-> | [-> | ->]]]. Qed.

Definition step_of (inq insq : bool) : sds -> bytes -> res arg_step :=
  if inq then quoted_step zrealloc else if insq then single_quoted_step zrealloc else plain_step zrealloc.

Lemma arg_loop_step k cur p inq insq : arg_loop zrealloc (S k) cur p inq insq =
  (r ← step_of inq insq cur p;
   match r with
   | Fault => Ok (inl cur)
   | Next current p inq insq done => p ← advance p; if done : bool then Ok (inr (current, p)) else arg_loop zrealloc k current p inq insq
   end).
Proof. by destruct inq, insq. Qed.

Lemma arg_chars (f : Z -> bytes) inq insq t k cur x w : Forall (fun c => reads (step_of inq insq) inq insq (f c) c) t ->
  holds cur x -> fits (blen x + blen t + 1) ->
  exists cur', arg_loop zrealloc (length t + k) cur (concat (map f t) ++ w) inq insq = arg_loop zrealloc k cur' w inq insq /\ holds cur' (x ++ t).
Proof.
  revert cur x. induction t as [|c t IH]; intros cur x Ht Hs Hf. { exists cur. by rewrite app_nil_r. }
  apply Forall_cons in Ht as [Hc Ht]. rewrite blen_cons1 in Hf. unfold fits in *. pose proof (blen_nonneg t).
  cbn [map concat length Nat.add]. rewrite arg_loop_step, <- app_assoc.
  destruct (Hc cur x (concat (map f t) ++ w) Hs) as (s' & p & -> & Hs' & Ha); [unfold fits; lia|]. rred. rewrite Ha. rred.
  replace (x ++ c :: t) with ((x ++ [c]) ++ t) by (by rewrite <- app_assoc). apply IH; [done|done|blens].
Qed.

(** What follows an argument: the end of the line or a blank. *)
Definition after (w : bytes) : Prop := match w with c :: _ => c = 0 \/ blank c | [] => False end.

Lemma after_quote w : after w -> exists c w', w = c :: w' /\ negb (c =? 0) && negb (isspace c) = false.
Proof.
  destruct w as [|c w]; [done|]. intros [-> |Hb]; [by exists 0, w|]. exists c, w. apply blank_space in Hb as [-> _]. split; [done|apply andb_false_r].
Qed.

Lemma close_quoted k cur w : after w -> arg_loop zrealloc (S k) cur (QUOTE :: w) true false = Ok (inr (cur, w)).
Proof.
  intros (c & w' & -> & Hc)%after_quote. rewrite arg_loop_step. cbn [step_of]. unfold quoted_step, hex_escape, closing_quote.
  rewrite !get_0, get_1. rred. change (QUOTE =? BACKSLASH) with false. change (QUOTE =? QUOTE) with true. cbn [negb]. rred. rewrite Hc. rred.
  by rewrite advance_cons.
Qed.

Lemma close_single k cur w : after w -> arg_loop zrealloc (S k) cur (APOSTROPHE :: w) false true = Ok (inr (cur, w)).
Proof.
  intros (c & w' & -> & Hc)%after_quote. rewrite arg_loop_step. cbn [step_of]. unfold single_quoted_step, closing_quote.
  rewrite !get_0, get_1. rred. change (APOSTROPHE =? BACKSLASH) with false. change (APOSTROPHE =? APOSTROPHE) with true. rred. rewrite Hc. rred.
  by rewrite advance_cons.
Qed.

Lemma open_quote k cur w : arg_loop zrealloc (S k) cur (QUOTE :: w) false false = arg_loop zrealloc k cur w true false.
Proof. rewrite arg_loop_step. cbn [step_of]. unfold plain_step. rewrite get_0. cbv [QUOTE APOSTROPHE]. rred. cbn [Z.eqb Pos.eqb orb]. rred. by rewrite advance_cons. Qed.

Lemma open_single k cur w : arg_loop zrealloc (S k) cur (APOSTROPHE :: w) false false = arg_loop zrealloc k cur w false true.
Proof. rewrite arg_loop_step. cbn [step_of]. unfold plain_step. rewrite get_0. cbv [QUOTE APOSTROPHE]. rred. cbn [Z.eqb Pos.eqb orb]. rred. by rewrite advance_cons. Qed.

Lemma close_word k cur c w : c = 0 \/ blank c ->
  arg_loop zrealloc (S k) cur (c :: w) false false = Ok (inr (cur, if c =? 0 then c :: w else w)).
Proof.
  intros Hc. rewrite arg_loop_step. cbn [step_of]. unfold plain_step, advance. rewrite get_0. rred.
  assert (E : (c =? 32) || (c =? 10) || (c =? 13) || (c =? 9) || (c =? 0) = true).
  { by destruct Hc as [-> | [-> | [-> | [-> | ->]]]]. }
  rewrite E. rred. rewrite get_0. rred. by destruct (c =? 0).
Qed.

(** An argument is read; of the blanks behind it the first may be gone. *)
Lemma arg_item i cur w fuel : item_ok i -> holds cur [] -> after w -> (length (item_text i) < fuel)%nat ->
  exists cur' w', arg_loop zrealloc fuel cur (item_text i ++ w) false false = Ok (inr (cur', w')) /\ holds cur' (item_value i) /\
    (w' = w \/ exists c, blank c /\ w = c :: w').
Proof.
  intros [Hf Hi] Hs Ha Hfuel. assert (Hf0 : fits (blen [] + blen (item_value i) + 1)) by (rewrite blen_nil; exact Hf).
  destruct i as [t|t|t]; cbn [item_text item_value] in *.
  - unfold repr in *. cbn [app length] in *. rewrite <- app_assoc. rewrite length_app in Hfuel. cbn [app length] in *.
    pose proof (repr_chars_longer t) as Hlen.
    destruct fuel as [|fuel]; [lia|]. rewrite open_quote. replace fuel with (length t + S (fuel - length t - 1))%nat by lia.
    destruct (arg_chars repr_char true false t (S (fuel - length t - 1)) cur [] (QUOTE :: w)) as (cur' & E & Hc); [|done|done|].
    { eapply Forall_impl; [exact Hi|]. intros c. apply quoted_char. }
    fold (repr_chars t) in E. rewrite E, close_quoted by done. exists cur', w. split_and!; [done|exact Hc|by left].
  - cbn [app length] in *. rewrite <- app_assoc. rewrite length_app in Hfuel. cbn [app length] in *.
    assert (Hlen : (length t <= length (concat (map single_text t)))%nat).
    { clear. induction t as [|c t IH]; [done|]. cbn [map concat length]. rewrite length_app. unfold single_text at 1. destruct (c =? APOSTROPHE); cbn [length]; lia. }
    destruct fuel as [|fuel]; [lia|]. rewrite open_single. replace fuel with (length t + S (fuel - length t - 1))%nat by lia.
    destruct (arg_chars single_text false true t (S (fuel - length t - 1)) cur [] (APOSTROPHE :: w)) as (cur' & -> & Hc); [|done|done|].
    { eapply Forall_impl; [exact Hi|]. intros c [? ?]. unfold single_text. destruct (Z.eqb_spec c APOSTROPHE) as [->|]; [apply single_apostrophe|by apply single_char]. }
    rewrite close_single by done. exists cur', w. split_and!; [done|exact Hc|by left].
  - destruct Hi as [Hi _]. replace fuel with (length t + S (fuel - length t - 1))%nat by lia.
    destruct (arg_chars (fun c => [c]) false false t (S (fuel - length t - 1)) cur [] w) as (cur' & E & Hc); [|done|done|].
    { eapply Forall_impl; [exact Hi|]. intros c. apply plain_char. }
    assert (Et : concat (map (fun c => [c]) t) = t) by (clear; induction t; cbn; congruence). rewrite Et in E. rewrite E.
    destruct w as [|c w]; [done|]. rewrite close_word by done. eexists _, _. split; [done|]. split; [done|].
    destruct Ha as [-> |Hb]; [by left|]. right. exists c. split; [done|]. apply blank_space in Hb as [_ Hb]. apply Z.eqb_neq in Hb. by rewrite Hb.
Qed.

Lemma skip_blanks_app b p : Forall blank b -> skip_blanks (b ++ p) = skip_blanks p.
Proof.
  induction 1 as [|c b Hc _ IH]; [done|]. cbn [app skip_blanks]. destruct (blank_space c Hc) as [-> H0%Z.eqb_neq]. by rewrite H0.
Qed.

Lemma item_head i w : item_ok i -> exists c p, item_text i ++ w = c :: p /\ c <> 0 /\ skip_blanks (c :: p) = Ok (c :: p).
Proof.
  intros [_ Hi]. destruct i as [t|t|t]; cbn [item_text].
  - eexists QUOTE, _. split; [reflexivity|by split].
  - eexists APOSTROPHE, _. split; [reflexivity|by split].
  - destruct t as [|c t]; [by destruct Hi|]. destruct Hi as [[Hc _]%Forall_cons Hs]. exists c, (t ++ w). split; [done|].
    assert (c <> 0) by (intros ->; discriminate Hc). split; [done|]. cbn [skip_blanks]. rewrite Hs. by rewrite andb_false_r.
Qed.

(** One argument of a line. *)
Lemma args_item fuel b i w vec : Forall blank b -> item_ok i -> after w ->
  exists cur' w', args_loop zmalloc zrealloc room (S fuel) (b ++ item_text i ++ w) vec = args_loop zmalloc zrealloc room fuel w' (vec ++ [cur']) /\
    holds cur' (item_value i) /\ (w' = w \/ exists c, blank c /\ w = c :: w').
Proof.
  intros Hb Hi Ha. cbn [args_loop]. rewrite skip_blanks_app by done. destruct (item_head i w Hi) as (c & p & E & Hc & Hsk).
  rewrite E, Hsk. rred. rewrite get_0. rred. apply Z.eqb_neq in Hc. rewrite Hc. cbn [negb].
  destruct (sdsempty_spec zmalloc zmalloc_size zmalloc_some) as (s0 & -> & Hs0). rred.
  destruct (arg_item i s0 w (S (length (c :: p))) Hi Hs0 Ha) as (cur' & w' & E2 & Hs' & Hw).
  { rewrite <- E, length_app. lia. }
  rewrite E in E2. rewrite E2. rred. rewrite room_enough. eauto.
Qed.

(** A line of arguments, each with a separator behind it but the last. *)
Fixpoint line (sep : bytes) (items : list item) : bytes :=
  match items with [] => [] | [i] => item_text i | i :: items => item_text i ++ sep ++ line sep items end.

Lemma args_line sep items fuel b z vec : sep <> [] -> Forall blank sep -> Forall item_ok items -> Forall blank b ->
  (length items < fuel)%nat ->
  exists toks, args_loop zmalloc zrealloc room fuel (b ++ line sep items ++ 0 :: z) vec =
    Ok (Some (vec ++ toks), Z.of_nat (length (vec ++ toks)), []) /\ Forall2 holds toks (map item_value items).
Proof.
  intros Hne Hsep. revert fuel b vec. induction items as [|i items IH]; intros fuel b vec Hi Hb Hf; (destruct fuel as [|fuel]; [cbn in Hf; lia|]).
  - exists []. cbn [line app args_loop]. rewrite skip_blanks_app by done. cbn [skip_blanks Z.eqb negb andb]. rred.
    rewrite get_0. rred. rewrite !app_nil_r. by split.
  - apply Forall_cons in Hi as [Hi His]. cbn [length] in Hf.
    assert (Hline : line sep (i :: items) ++ 0 :: z = item_text i ++ (match items with [] => [] | _ => sep end) ++ line sep items ++ 0 :: z).
    { destruct items; [done|]. cbn [line]. by rewrite <- !app_assoc. }
    rewrite Hline. set (gap := match items with [] => [] | _ => sep end).
    assert (Hgap : Forall blank gap) by (unfold gap; by destruct items).
    assert (Ha : after (gap ++ line sep items ++ 0 :: z)).
    { unfold gap. destruct items; [by left|]. destruct sep as [|c sep]; [done|]. apply Forall_cons in Hsep as [Hc _]. by right. }
    destruct (args_item fuel b i _ vec Hb Hi Ha) as (cur & w' & -> & Hc & Hw).
    assert (Hw' : exists b', w' = b' ++ line sep items ++ 0 :: z /\ Forall blank b').
    { destruct Hw as [-> |(c & Hcb & E)]; [eauto|]. unfold gap in *. destruct items as [|i2 items].
      - cbn in E. injection E as <- _. by destruct Hcb as [|[|[|]]].
      - destruct sep as [|c' sep]; [done|]. injection E as <- <-. apply Forall_cons in Hgap as [_ Hgap]. eauto. }
    destruct Hw' as (b' & -> & Hb'). destruct (IH fuel b' (vec ++ [cur]) His Hb' ltac:(lia)) as (toks & -> & Ht).
    exists (cur :: toks). rewrite <- app_assoc. split; [done|]. cbn [map]. by constructor.
Qed.

Lemma item_text_length i : item_ok i -> (1 <= length (item_text i))%nat.
Proof. intros Hi. destruct (item_head i [] Hi) as (c & p & E & _). rewrite app_nil_r in E. rewrite E. cbn. lia. Qed.

Lemma line_length sep items : Forall item_ok items -> (length items <= length (line sep items))%nat.
Proof.
  induction 1 as [|i items Hi _ IH]; [done|]. apply item_text_length in Hi. destruct items; cbn [line length] in *; [lia|]. rewrite !length_app. lia.
Qed.

(** An open quote fails, and frees what was read. *)
Lemma args_open fuel b t z vec : Forall blank b -> Forall byte t -> fits (blen t + 1) ->
  exists cur, args_loop zmalloc zrealloc room (S fuel) (b ++ QUOTE :: repr_chars t ++ 0 :: z) vec =
    Ok (None, 0, (rev vec ≫= sdsfree) ++ sdsfree cur) /\ holds cur t.
Proof.
  intros Hb Ht Hf. cbn [args_loop]. rewrite skip_blanks_app by done. cbn [skip_blanks]. change (negb (QUOTE =? 0) && isspace QUOTE) with false. cbn iota. rred.
  rewrite get_0. rred. cbn [Z.eqb QUOTE negb]. fold QUOTE. destruct (sdsempty_spec zmalloc zmalloc_size zmalloc_some) as (s0 & -> & Hs0). rred.
  cbn [length]. rewrite open_quote. set (n := length (repr_chars t ++ 0 :: z)).
  assert (Hlen : (length t < S n)%nat).
  { unfold n. rewrite length_app. cbn [length]. pose proof (repr_chars_longer t). lia. }
  replace (S n) with (length t + S (n - length t))%nat by lia.
  destruct (arg_chars repr_char true false t (S (n - length t)) s0 [] (0 :: z)) as (cur & E & Hc); [|done|by rewrite blen_nil|].
  { eapply Forall_impl; [exact Ht|]. intros c. apply quoted_char. }
  fold (repr_chars t) in E. rewrite E, arg_loop_step. cbn [step_of]. unfold quoted_step, hex_escape. rewrite get_0. rred.
  exists cur. by split.
Qed.

(** Arguments with a separator behind each. *)
Lemma args_before sep items k b w vec : sep <> [] -> Forall blank sep -> Forall item_ok items -> Forall blank b ->
  exists b' toks, args_loop zmalloc zrealloc room (length items + k) (b ++ concat (map (fun i => item_text i ++ sep) items) ++ w) vec =
    args_loop zmalloc zrealloc room k (b' ++ w) (vec ++ toks) /\ Forall blank b' /\ Forall2 holds toks (map item_value items).
Proof.
  intros Hne Hsep. revert b vec. induction items as [|i items IH]; intros b vec Hi Hb.
  { exists b, []. rewrite app_nil_r. split_and!; [done|done|constructor]. }
  apply Forall_cons in Hi as [Hi His]. cbn [map concat length Nat.add]. rewrite <- !app_assoc. set (w1 := concat _ ++ w).
  destruct sep as [|c sep]; [done|]. apply Forall_cons in Hsep as Hsep2. destruct Hsep2 as [Hc Hsep2].
  destruct (args_item (length items + k) b i ((c :: sep) ++ w1) vec Hb Hi (or_intror Hc)) as (cur & w' & -> & Hh & Hw).
  assert (Hw' : exists b', w' = b' ++ w1 /\ Forall blank b') by (destruct Hw as [-> |(c' & _ & [= _ <-])]; eauto).
  destruct Hw' as (b1 & -> & Hb1). unfold w1. destruct (IH b1 (vec ++ [cur]) His Hb1) as (b' & toks & -> & Hb' & Ht).
  exists b', (cur :: toks). rewrite <- app_assoc. split_and!; [done|done|]. by constructor.
Qed.

(** ** Splitting *)

(** [sep] is nowhere in [t]; it is in [t ++ sep] at the end only. *)
Definition no_sep (sep t : bytes) : Prop := forall i, ~ sep `prefix_of` drop i t.
Definition ends_first (sep t : bytes) : Prop := forall i, (i < length t)%nat -> ~ sep `prefix_of` drop i (t ++ sep).

Fixpoint join_text (sep : bytes) (ts : list bytes) : bytes :=
  match ts with [] => [] | [t] => t | t :: ts => t ++ sep ++ join_text sep ts end.

Definition with_sep (sep : bytes) (ts : list bytes) : bytes := concat (map (fun t => t ++ sep) ts).

Lemma join_with_sep sep ts t : join_text sep (ts ++ [t]) = with_sep sep ts ++ t.
Proof.
  induction ts as [|u ts IH]; [done|]. unfold with_sep in *. cbn [app map concat]. rewrite <- !app_assoc, <- IH.
  destruct ts as [|v ts]; done.
Qed.

Lemma with_sep_app sep ts t : with_sep sep (ts ++ [t]) = with_sep sep ts ++ t ++ sep.
Proof. unfold with_sep. rewrite map_app, concat_app. cbn [map concat]. by rewrite app_nil_r. Qed.

Lemma drop_prefix_app i (u w : bytes) : drop i u `prefix_of` drop i (u ++ w).
Proof. rewrite drop_app. apply prefix_app_r. done. Qed.

(** Is the separator here? *)
Lemma same_spec a v z sep y seplen : seplen = blen sep -> 1 <= seplen -> seplen <= blen v ->
  (c ← get (a ++ v ++ z) (blen a);
   d ← get (sep ++ y) 0;
   if (seplen =? 1) && (c =? d) then Ok true
   else
     x ← defined (rd (a ++ v ++ z) (blen a) seplen);
     y ← defined (rd (sep ++ y) 0 seplen);
     r ← defined (memcmp (Z.to_nat seplen) x y);
     Ok (r =? 0)) = Ok (bool_decide (sep `prefix_of` v)).
Proof.
  intros -> H1 Hv. destruct sep as [|d sep]; [rewrite blen_nil in H1; lia|].
  destruct (split_blen v (blen (d :: sep))) as (m & v' & -> & Hm); [lia|].
  destruct m as [|c m]; [rewrite blen_nil in Hm; lia|]. cbn [app]. rewrite get_mid, get_0. rred.
  replace (bool_decide ((d :: sep) `prefix_of` c :: m ++ v')) with (bool_decide (c :: m = d :: sep)).
  2:{ apply bool_decide_ext. split.
      - intros [= -> ->]. by exists v'.
      - intros [k E]. change (c :: m ++ v') with ((c :: m) ++ v') in E. apply app_inj_1 in E as [E _]; [done|]. unfold blen in Hm. lia. }
  destruct ((blen (d :: sep) =? 1) && (c =? d)) eqn:E.
  { apply andb_true_iff in E as [E1%Z.eqb_eq ->%Z.eqb_eq]. f_equal. symmetry. apply bool_decide_eq_true. rewrite E1 in Hm.
    rewrite blen_cons1 in E1, Hm. assert (sep = []) as -> by (apply blen_zero; lia). assert (m = []) as -> by (apply blen_zero; lia). done. }
  replace (a ++ c :: (m ++ v') ++ z) with (a ++ (c :: m) ++ v' ++ z) by (cbn [app]; by rewrite <- app_assoc).
  rewrite <- Hm at 1. rewrite rd_mid. rred.
  rewrite (rd_prefix (d :: sep) y : rd (d :: sep ++ y) 0 _ = _). rred.
  assert (Hl : length (c :: m) = Z.to_nat (blen (d :: sep))) by (unfold blen in *; lia).
  assert (Hl2 : length (d :: sep) = Z.to_nat (blen (d :: sep))) by (unfold blen; lia).
  destruct (memcmp_total _ _ _ Hl Hl2) as [r Er]. rewrite Er. rred. f_equal.
  destruct (Z.eqb_spec r 0) as [->|Hr].
  - symmetry. apply bool_decide_eq_true. by apply (memcmp_eq _ _ _ Hl Hl2).
  - symmetry. apply bool_decide_eq_false. intros Heq. apply (memcmp_eq _ _ _ Hl Hl2) in Heq. congruence.
Qed.

Lemma token_spec a u z : blen u < U4_MOD ->
  exists t, (x ← defined (rd (a ++ u ++ z) (blen a) (blen u)); sdsnewlen zmalloc (Some x) (blen u)) = Ok (Some t) /\ holds (Some t) u.
Proof.
  intros Hu. rewrite rd_mid. rred. destruct (sdsnewlen_spec zmalloc zmalloc_size zmalloc_some u u) as (s & -> & Hs); [by apply rd_all|done|].
  destruct s as [t|]; [eauto|]. by destruct Hs as (? & ? & _).
Qed.

Lemma split_loop_spec fuel x z sep y d u v slots tokens ts : 1 <= blen sep -> blen x < 2 ^ 30 - 1 ->
  x = d ++ u ++ v -> d = with_sep sep ts -> (length v < fuel)%nat -> Z.of_nat (length tokens) + 1 <= slots ->
  Forall2 holds tokens ts -> Forall (ends_first sep) ts ->
  (forall i, (i < length u)%nat -> ~ sep `prefix_of` drop i (u ++ v)) ->
  exists t slots' tokens' ts',
    split_loop zmalloc room fuel (x ++ z) (blen x) (sep ++ y) (blen sep) (blen (d ++ u)) (blen d) slots tokens =
      Ok (inr (blen (with_sep sep ts'), slots', tokens')) /\
    x = with_sep sep ts' ++ t /\ Z.of_nat (length tokens') + 1 <= slots' /\ Forall2 holds tokens' ts' /\
    Forall (ends_first sep) ts' /\ no_sep sep t.
Proof.
  intros Hsep Hx. revert d u v slots tokens ts. induction fuel as [|fuel IH]; intros d u v slots tokens ts Ex Ed Hf Hsl Ht He Hno; [lia|].
  cbn [split_loop]. assert (Elen : blen x = blen d + blen u + blen v) by (rewrite Ex; blens).
  rewrite blen_app. destruct (Z.ltb_spec (blen d + blen u) (blen x - (blen sep - 1))) as [Hlt|Hge].
  2:{ exists (u ++ v), slots, tokens, ts. rewrite <- Ed. split_and!; [done|done|done|done|done|]. intros i Hp.
      destruct (decide (i < length u)%nat); [by apply (Hno i)|]. apply prefix_length in Hp. rewrite length_drop, length_app in Hp. unfold blen in *. lia. }
  assert (Hcount : Z.of_nat (length tokens) <= blen d).
  { rewrite (Forall2_length _ _ _ Ht), Ed. clear -Hsep. unfold with_sep. induction ts as [|w ts IH]; [done|]. cbn [map concat length].
    pose proof (blen_nonneg w). blens. }
  pose proof (blen_nonneg u). pose proof (blen_nonneg v).
  assert (Hs2 : exists slots2, (if slots <? Z.of_nat (length tokens) + 2 then defined (chk_n4 (slots * 2)) else Ok slots) = Ok slots2 /\
    Z.of_nat (length tokens) + 2 <= slots2).
  { destruct (Z.ltb_spec slots (Z.of_nat (length tokens) + 2)); [|eauto]. rewrite chk_n4_ok by lia. eexists. split; [done|lia]. }
  destruct Hs2 as (slots2 & -> & Hs2). rred. rewrite room_enough, andb_false_r.
  assert (Exz : x ++ z = (d ++ u) ++ v ++ z) by (rewrite Ex, <- !app_assoc; done).
  pose proof (same_spec (d ++ u) v z sep y (blen sep) eq_refl Hsep ltac:(lia)) as Hsame. rewrite <- Exz, blen_app in Hsame. rewrite Hsame. rred. clear Hsame.
  case_bool_decide as Hp.
  - destruct Hp as [v' ->]. replace (blen d + blen u - blen d) with (blen u) by lia.
    destruct (token_spec d u ((sep ++ v') ++ z)) as (t & E & Hh); [unfold U4_MOD; lia|]. rewrite app_assoc, <- Exz in E.
    destruct (defined (rd (x ++ z) (blen d) (blen u))) as [w| | |]; cbn [mbind res_bind] in E |- *; try done. rewrite E. rred.
    unfold push_token. destruct (Z.ltb_spec (Z.of_nat (length tokens)) slots2); [|lia]. rred.
    specialize (IH (d ++ u ++ sep) [] v' slots2 (tokens ++ [Some t]) (ts ++ [u])). rewrite app_nil_r in IH.
    replace (blen (d ++ u ++ sep)) with (blen d + blen u + blen sep) in IH by blens. apply IH.
    + by rewrite Ex, <- !app_assoc.
    + by rewrite with_sep_app, Ed.
    + rewrite length_app in Hf. unfold blen in Hsep. lia.
    + rewrite length_app. cbn [length]. lia.
    + apply Forall2_app; [done|]. by repeat constructor.
    + apply Forall_app. split; [done|]. constructor; [|done]. intros i Hi Hpre. apply (Hno i Hi).
      rewrite app_assoc. etrans; [exact Hpre|apply drop_prefix_app].
    + intros i Hi. cbn in Hi. lia.
  - destruct v as [|c v]; [rewrite blen_nil in *; lia|].
    specialize (IH d (u ++ [c]) v slots2 tokens ts). replace (blen (d ++ u ++ [c])) with (blen d + blen u + 1) in IH by blens. apply IH.
    + by rewrite Ex, <- !app_assoc.
    + done.
    + cbn [length] in Hf. lia.
    + lia.
    + done.
    + done.
    + intros i Hi. rewrite <- app_assoc. cbn [app]. rewrite length_app in Hi. cbn [length] in Hi.
      destruct (decide (i = length u)) as [->|]; [by rewrite drop_app_length|]. apply Hno. lia.
Qed.

(** ** Joining *)

Lemma join_loop_spec argv sepb sep ts s x : Forall2 (fun b t => c_str b = Some t) argv ts -> c_str sepb = Some sep -> holds s x ->
  fits (blen x + blen (join_text sep ts)) -> yields (join_loop zrealloc s argv sepb) (x ++ join_text sep ts).
Proof.
  intros Ha Hsep. revert s x. induction Ha as [|b t argv ts Hb Ha IH]; intros s x Hs Hf.
  { cbn. rewrite app_nil_r. by apply yields_ok. }
  destruct Ha as [|b2 t2 argv ts Hb2 Ha].
  { cbn in *. by apply sdscat_spec. }
  change (join_text sep (t :: t2 :: ts)) with (t ++ sep ++ join_text sep (t2 :: ts)) in *.
  change (join_loop zrealloc s (b :: b2 :: argv) sepb) with
    (join ← sdscat zrealloc s b; join ← sdscat zrealloc join sepb; join_loop zrealloc join (b2 :: argv) sepb).
  unfold fits in *. pose proof (blen_nonneg (join_text sep (t2 :: ts))). pose proof (blen_nonneg sep). autorewrite with blens in Hf.
  eapply yields_bind; [apply (sdscat_spec zrealloc zrealloc_keeps s x b t Hs Hb); unfold fits; lia|]. intros s1 Hs1.
  eapply yields_bind; [apply (sdscat_spec zrealloc zrealloc_keeps s1 _ sepb sep Hs1 Hsep); unfold fits; blens|]. intros s2 Hs2.
  rewrite !app_assoc. rewrite <- (app_assoc x t sep), app_assoc. apply IH; [done|]. blens.
Qed.

Lemma sdsjoin_spec argv sepb sep ts : Forall2 (fun b t => c_str b = Some t) argv ts -> c_str sepb = Some sep ->
  fits (blen (join_text sep ts)) -> yields (sdsjoin zmalloc zrealloc argv sepb) (join_text sep ts).
Proof.
  intros Ha Hsep Hf. unfold sdsjoin. eapply yields_bind; [apply (sdsempty_spec zmalloc zmalloc_size zmalloc_some)|]. intros s Hs.
  by apply (join_loop_spec argv sepb sep ts s []).
Qed.

End Text.
End SdsText.
