(* ===== verification/SdsRun.v ===== *)
(** * Programs that use sds.c

    Any sequence of calls on a string against the same calls on lists of bytes; arguments that are
    quoted, put on a line and read back; a string that is split at a separator and joined again. *)

From Stdlib Require Import Ascii String.
From S2P Require Import Prelude CText Outcome Sds SdsSpec SdsEdit SdsText.
Import CText Sds SdsSpec SdsEdit SdsText.

Module SdsRun.

(** ** Sequences of calls *)

(** What a program may do to a string; a [const char*] is the block it points into. *)
Inductive call :=
| CatLen (t : bytes) (n : Z) | Cat (t : bytes) | CatSds (t : sds) | Cpy (t : bytes)
| CatFmt (fmt : bytes) (ap : list va) | CatPrintf (fmt text : bytes) | CatRepr (p : bytes) (n : Z)
| Trim (cset : bytes) | TrimSpace | Range (start end_ : Z) | ToLower | ToUpper | MapChars (from to : bytes)
| Clear | GrowZero (n : Z) | UpdateLen | RemoveFreeSpace | MakeRoomFor (n : Z) | CutLast (n : Z) | Dup.

Section Calls.
Context (zmalloc : malloc_fun) (zrealloc : realloc_fun).

Definition run_call (c : call) (s : sds) : res sds :=
  match c with
  | CatLen t n => sdscatlen zrealloc s t n
  | Cat t => sdscat zrealloc s t
  | CatSds t => sdscatsds zrealloc s t
  | Cpy t => sdscpy zrealloc s t
  | CatFmt fmt ap => sdscatfmt zrealloc s fmt ap
  | CatPrintf fmt text => sdscatprintf zmalloc zrealloc s fmt text
  | CatRepr p n => sdscatrepr zmalloc zrealloc s p n
  | Trim cset => sdstrim s cset
  | TrimSpace => sdstrimspace s
  | Range a b => sdsrange s a b
  | ToLower => sdstolower s
  | ToUpper => sdstoupper s
  | MapChars from to => sdsmapchars s from to (blen from)
  | Clear => sdsclear s
  | GrowZero n => sdsgrowzero zrealloc s n
  | UpdateLen => sdsupdatelen s
  | RemoveFreeSpace => sdsRemoveFreeSpace zrealloc s
  | MakeRoomFor n => sdsMakeRoomFor zrealloc s n
  | CutLast n => sdsIncrLen s (- n)
  | Dup => sdsdup zmalloc s
  end.

Fixpoint run_calls (cs : list call) (s : sds) : res sds :=
  match cs with [] => Ok s | c :: cs => s ← run_call c s; run_calls cs s end.

End Calls.

(** The same on bytes; [None] is a call no program should make: a block that is too short or has no end,
    arguments that are not those of the format, a place or a length that is no [int]. *)
Definition limit : Z := 2 ^ 31 - 1.

Definition bytes_of (s : sds) : option bytes := sh ← s; rd (buf sh) 0 (len sh).

Definition call_bytes (c : call) (x : bytes) : option bytes :=
  match c with
  | CatLen t n => t ← rd t 0 n; Some (x ++ t)
  | Cat t => t ← c_str t; Some (x ++ t)
  | CatSds t => t ← bytes_of t; Some (x ++ t)
  | Cpy t => c_str t
  | CatFmt fmt ap => f ← c_str fmt; t ← fmt_text f ap; Some (x ++ t)
  | CatPrintf fmt text => if (blen fmt <? limit) && (blen x + blen text <? limit) then Some (x ++ c_string text) else None
  | CatRepr p n => t ← rd p 0 n; if decide (Forall byte t /\ blen x + 4 * blen t + 2 < limit) then Some (x ++ repr t) else None
  | Trim cset => cset ← c_str cset; Some (trimmed (in_cset cset) x)
  | TrimSpace => Some (space_trimmed x)
  | Range a b => if within (- 2 ^ 31) (2 ^ 31) a && within (- 2 ^ 31) limit b then Some (range x a b) else None
  | ToLower => Some (map tolower x)
  | ToUpper => Some (map toupper x)
  | MapChars from to => if blen from =? blen to then Some (map (mapped from to) x) else None
  | Clear => Some []
  | GrowZero n => if within 0 limit n then Some (x ++ replicate (Z.to_nat (n - blen x)) 0) else None
  | UpdateLen => Some (c_string x)
  | RemoveFreeSpace => Some x
  | MakeRoomFor n => if (0 <=? n) && (blen x + n <? limit) then Some x else None
  | CutLast n => if within 1 limit n && (n <=? blen x) then Some (take (Z.to_nat (blen x - n)) x) else None
  | Dup => Some x
  end.

Fixpoint calls_bytes (cs : list call) (x : bytes) : option bytes :=
  match cs with
  | [] => Some x
  | c :: cs => x ← call_bytes c x; if blen x <? limit then calls_bytes cs x else None
  end.

Lemma bytes_of_rd t y : bytes_of t = Some y -> exists sh, t = Some sh /\ rd (buf sh) 0 (len sh) = Some y /\ len sh = blen y.
Proof.
  destruct t as [sh|]; [|done]. cbn. intros E. exists sh. split_and!; [done|done|]. by rewrite (rd_blen _ _ _ _ E).
Qed.

Ltac option_case H x E := match type of H with (?o ≫= _ = Some _) => destruct o as [x|] eqn:E; [|done]; cbn [mbind option_bind] in H end.

Section Programs.
Context (zmalloc : malloc_fun) (zrealloc : realloc_fun) (room : Z -> bool).
Hypothesis zmalloc_size : malloc_ok zmalloc.
Hypothesis zmalloc_some : forall n, 0 <= n -> zmalloc n <> None.
Hypothesis zrealloc_keeps : realloc_serves zrealloc.
Hypothesis room_enough : forall n, room n = true.

Lemma run_call_spec c s x y : holds s x -> blen x < limit -> call_bytes c x = Some y -> blen y < limit ->
  yields (run_call zmalloc zrealloc c s) y.
Proof.
  intros Hs Hx Hc Hy. unfold limit in *. destruct c; cbn [call_bytes run_call] in *.
  - option_case Hc u E. injection Hc as <-. apply rd_blen in E as El. subst n. rewrite blen_app in Hy.
    apply sdscatlen_spec; [done..|unfold fits; lia].
  - option_case Hc u E. injection Hc as <-. rewrite blen_app in Hy. apply sdscat_spec; [done..|unfold fits; lia].
  - option_case Hc u E. injection Hc as <-. rewrite blen_app in Hy. apply bytes_of_rd in E as (sh & -> & E & El).
    unfold sdscatsds. rred. rewrite El in *. apply sdscatlen_spec; [done..|unfold fits; lia].
  - apply sdscpy_spec with x; [done..|unfold fits; lia].
  - option_case Hc f Ef. option_case Hc u E. injection Hc as <-. rewrite blen_app in Hy.
    apply sdscatfmt_spec with f; [done..|unfold fits; lia].
  - destruct (_ && _) eqn:E; [|done]. injection Hc as <-. apply andb_true_iff in E as [E1%Z.ltb_lt E2%Z.ltb_lt]. unfold limit in *.
    apply sdscatprintf_spec; [done..|unfold fits; lia|unfold fits; lia].
  - option_case Hc u E. case_decide as Hd; [|done]. injection Hc as <-. destruct Hd as [Hb Hl]. unfold limit in *.
    apply rd_blen in E as El. subst n. apply sdscatrepr_spec; [done..|unfold fits; lia].
  - option_case Hc u E. injection Hc as <-. by apply sdstrim_spec.
  - injection Hc as <-. by apply sdstrimspace_spec.
  - destruct (_ && _) eqn:E; [|done]. injection Hc as <-. unfold within, limit in E. apply sdsrange_spec; [done|unfold fits; lia|lia|lia].
  - injection Hc as <-. apply sdstolower_spec; [done|unfold fits; lia].
  - injection Hc as <-. apply sdstoupper_spec; [done|unfold fits; lia].
  - destruct (Z.eqb_spec (blen from) (blen to)); [|done]. injection Hc as <-. by apply sdsmapchars_spec.
  - injection Hc as <-. by apply sdsclear_spec with x.
  - destruct (within _ _ n) eqn:E; [|done]. injection Hc as <-. unfold within, limit in E. apply sdsgrowzero_spec; [done..|lia|unfold fits; lia].
  - injection Hc as <-. apply sdsupdatelen_spec; [done|unfold fits; lia].
  - injection Hc as <-. destruct (sdsRemoveFreeSpace_spec zrealloc zrealloc_keeps s x Hs) as (sh & -> & Hh & _). by apply yields_ok.
  - destruct (_ && _) eqn:E; [|done]. injection Hc as <-. unfold limit in E.
    destruct (sdsMakeRoomFor_spec zrealloc zrealloc_keeps s x n Hs) as (sh & -> & Hh & _); [lia|unfold fits; lia|]. by apply yields_ok.
  - destruct (_ && _) eqn:E; [|done]. injection Hc as <-. unfold within, limit in E. apply sdsIncrLen_less; [done|lia|lia].
  - injection Hc as <-. by apply sdsdup_spec.
Qed.

Lemma run_calls_spec cs s x y : holds s x -> blen x < limit -> calls_bytes cs x = Some y -> yields (run_calls zmalloc zrealloc cs s) y.
Proof.
  revert s x. induction cs as [|c cs IH]; intros s x Hs Hx Hc; cbn [calls_bytes run_calls] in *.
  { injection Hc as <-. by apply yields_ok. }
  option_case Hc x1 E. destruct (Z.ltb_spec (blen x1) limit); [|done].
  eapply yields_bind; [by apply (run_call_spec c s x x1)|]. intros s1 Hs1. by apply (IH s1 x1).
Qed.

(** C18: A string made of bytes and changed by any calls holds what the calls make of the bytes, with a zero
    byte behind it and the room its header says, inside its block. *)
Theorem sds_refines_bytes b x cs y :
  rd b 0 (blen x) = Some x -> blen x < limit -> calls_bytes cs x = Some y ->
  exists sh z, (s ← sdsnewlen zmalloc (Some b) (blen x); run_calls zmalloc zrealloc cs s) = Ok (Some sh) /\
    len sh = blen y /\ buf sh = y ++ 0 :: z /\ 0 <= free sh <= blen z.
Proof.
  intros Hb Hx Hc. assert (Hy : yields (s ← sdsnewlen zmalloc (Some b) (blen x); run_calls zmalloc zrealloc cs s) y).
  { eapply yields_bind; [apply sdsnewlen_spec; [done..|unfold limit, U4_MOD in *; lia]|]. intros s Hs. by apply run_calls_spec with x. }
  destruct Hy as (s & -> & (sh & z & -> & Hl & Hf & _ & E & Hz)%holds_elim). by exists sh, z.
Qed.

(** ** Arguments on a line *)

(** A program that quotes arguments and puts them on one line. *)
Fixpoint print_args (s : sds) (args : list bytes) : res sds :=
  match args with
  | [] => Ok s
  | [a] => sdscatrepr zmalloc zrealloc s a (blen a)
  | a :: args =>
      s ← sdscatrepr zmalloc zrealloc s a (blen a);
      s ← sdscatlen zrealloc s [32] 1;
      print_args s args
  end.

(** Room for the arguments, if every byte is written as four. *)
Definition line_room (args : list bytes) : Z := foldr (fun a n => 4 * blen a + 3 + n) 0 args.

Lemma line_room_nonneg args : 0 <= line_room args.
Proof. induction args as [|a args IH]; cbn; [done|]. pose proof (blen_nonneg a). unfold line_room in IH. lia. Qed.

Lemma print_args_spec args s x : holds s x -> Forall (Forall byte) args -> fits (blen x + line_room args) ->
  yields (print_args s args) (x ++ line [32] (map Quoted args)).
Proof.
  revert s x. induction args as [|a args IH]; intros s x Hs Ha Hf; [cbn; rewrite app_nil_r; by apply yields_ok|].
  apply Forall_cons in Ha as [Hb Ha]. unfold fits in Hf. cbn [line_room foldr] in Hf. fold (line_room args) in Hf.
  pose proof (line_room_nonneg args). pose proof (repr_chars_length a).
  assert (Hr : yields (sdscatrepr zmalloc zrealloc s a (blen a)) (x ++ repr a)).
  { apply sdscatrepr_spec; [done..|by apply rd_all|done|unfold fits; lia]. }
  destruct args as [|a2 args]; [exact Hr|].
  change (print_args s (a :: a2 :: args)) with
    (s ← sdscatrepr zmalloc zrealloc s a (blen a); s ← sdscatlen zrealloc s [32] 1; print_args s (a2 :: args)).
  change (line [32] (map Quoted (a :: a2 :: args))) with (repr a ++ [32] ++ line [32] (map Quoted (a2 :: args))).
  assert (Hl : blen (repr a) <= 4 * blen a + 2) by (unfold repr; blens).
  eapply yields_bind; [exact Hr|]. intros s1 Hs1.
  eapply yields_bind; [apply (cat_text zrealloc zrealloc_keeps s1 _ [32] Hs1); unfold fits; blens|]. intros s2 Hs2.
  replace (x ++ repr a ++ [32] ++ line [32] (map Quoted (a2 :: args))) with (((x ++ repr a) ++ [32]) ++ line [32] (map Quoted (a2 :: args)))
    by (by rewrite <- !app_assoc).
  apply IH; [done|done|]. unfold fits. blens.
Qed.

Lemma sdssplitargs_items sep items z : sep <> [] -> Forall blank sep -> Forall item_ok items ->
  exists toks, sdssplitargs zmalloc zrealloc room (line sep items ++ 0 :: z) = Ok (Some toks, Z.of_nat (length items), []) /\
    Forall2 holds toks (map item_value items).
Proof.
  intros Hne Hsep Hi. unfold sdssplitargs. pose proof (line_length sep items Hi).
  destruct (args_line zmalloc zrealloc room zmalloc_size zmalloc_some zrealloc_keeps room_enough sep items
    (S (length (line sep items ++ 0 :: z))) [] z [] Hne Hsep Hi (Forall_nil_2 _)) as (toks & E & Ht).
  { rewrite length_app. lia. }
  cbn [app] in E. rewrite E. apply Forall2_length in Ht as Hl. rewrite length_map in Hl. exists toks. cbn [app]. by rewrite Hl.
Qed.

(** C21: What [sdscatrepr] writes, [sdssplitargs] reads: arguments of any bytes, zeros and quotes included, come
    back from the line on which they were quoted. *)
Theorem quoted_arguments_return args : Forall (Forall byte) args -> fits (line_room args) ->
  exists sh toks, (s ← sdsempty zmalloc; print_args s args) = Ok (Some sh) /\
    sdssplitargs zmalloc zrealloc room (buf sh) = Ok (Some toks, Z.of_nat (length args), []) /\ Forall2 holds toks args.
Proof.
  intros Ha Hf. assert (Hp : yields (s ← sdsempty zmalloc; print_args s args) (line [32] (map Quoted args))).
  { eapply yields_bind; [by apply sdsempty_spec|]. intros s Hs. by apply (print_args_spec args s []). }
  destruct Hp as (s & -> & (sh & z & -> & _ & _ & _ & E & _)%holds_elim). exists sh. rewrite E.
  destruct (sdssplitargs_items [32] (map Quoted args) z) as (toks & -> & Ht); [done|by repeat constructor| |].
  - apply Forall_map. assert (Hbig : Forall (fun a => fits (blen a + 1)) args).
    { clear -Hf. induction args as [|a args IH]; [done|]. unfold fits in *. cbn [line_room foldr] in Hf. fold (line_room args) in Hf.
      pose proof (line_room_nonneg args). pose proof (blen_nonneg a). constructor; [lia|]. apply IH. lia. }
    apply Forall_forall. intros a Hin. split; [exact (proj1 (Forall_forall _ _) Hbig a Hin)|exact (proj1 (Forall_forall _ _) Ha a Hin)].
  - exists toks. rewrite length_map in *. split_and!; [done|done|]. rewrite map_map in Ht. by rewrite map_id in Ht.
Qed.

(** A quote that is not closed: nil, and every string that was read is given back. *)
Lemma sdssplitargs_unbalanced sep items t z : sep <> [] -> Forall blank sep -> Forall item_ok items -> Forall byte t -> fits (blen t + 1) ->
  exists toks cur, Forall2 holds toks (map item_value items) /\ holds cur t /\
    sdssplitargs zmalloc zrealloc room (concat (map (fun i => item_text i ++ sep) items) ++ QUOTE :: repr_chars t ++ 0 :: z) =
      Ok (None, 0, (rev toks ≫= sdsfree) ++ sdsfree cur).
Proof.
  intros Hne Hsep Hi Ht Hf. unfold sdssplitargs. set (p := _ ++ _).
  assert (Hlen : (length items <= length (concat (map (fun i => item_text i ++ sep) items)))%nat).
  { clear -Hi. induction Hi as [|i items Hi _ IH]; [done|]. apply item_text_length in Hi. cbn [map concat length]. rewrite !length_app. lia. }
  assert (Ek : S (length p) = (length items + S (length p - length items))%nat) by (unfold p; rewrite length_app; lia). rewrite Ek.
  destruct (args_before zmalloc zrealloc room zmalloc_size zmalloc_some zrealloc_keeps room_enough sep items
    (S (length p - length items)) [] (QUOTE :: repr_chars t ++ 0 :: z) [] Hne Hsep Hi (Forall_nil_2 _)) as (b' & toks & E & Hb' & Htoks).
  cbn [app] in E. fold p in E. rewrite E.
  destruct (args_open zmalloc zrealloc room zmalloc_size zmalloc_some zrealloc_keeps (length p - length items) b' t z toks Hb' Ht Hf) as (cur & -> & Hc).
  by exists toks, cur.
Qed.

(** ** Splitting and joining *)

Lemma split_loop_tokens x z sep y count : 1 <= blen x -> blen x < 2 ^ 30 - 1 -> 1 <= blen sep ->
  exists toks ts t, sdssplitlen zmalloc room (x ++ z) (blen x) (sep ++ y) (blen sep) count = Ok (Some toks, Z.of_nat (length toks), []) /\
    Forall2 holds toks (ts ++ [t]) /\ x = join_text sep (ts ++ [t]) /\ Forall (ends_first sep) ts /\ no_sep sep t.
Proof.
  intros H1 Hx Hsep. unfold sdssplitlen. destruct (Z.ltb_spec (blen sep) 1); [lia|]. destruct (Z.ltb_spec (blen x) 0); [lia|]. cbn [orb].
  rewrite room_enough. cbn [negb]. destruct (Z.eqb_spec (blen x) 0); [lia|].
  destruct (split_loop_spec zmalloc room zmalloc_size zmalloc_some room_enough (S (length (x ++ z))) x z sep y [] [] x 5 [] [])
    as (t & slots & tokens & ts & E & Ex & Hsl & Ht & He & Hno); [done..|rewrite length_app; lia|done|constructor|constructor|cbn; lia|].
  cbn [app] in E. rewrite blen_nil in E. rewrite E. rred.
  assert (Et : blen x - blen (with_sep sep ts) = blen t) by (rewrite Ex, blen_app; lia). rewrite Et.
  pose proof (blen_nonneg (with_sep sep ts)).
  destruct (token_spec zmalloc zmalloc_size zmalloc_some (with_sep sep ts) t z) as (tk & E2 & Hh); [unfold U4_MOD; lia|].
  rewrite app_assoc, <- Ex in E2.
  destruct (defined (rd (x ++ z) (blen (with_sep sep ts)) (blen t))) as [w| | |]; cbn [mbind res_bind] in E2 |- *; try done. rewrite E2. rred.
  unfold push_token. destruct (Z.ltb_spec (Z.of_nat (length tokens)) slots); [|lia]. rred.
  exists (tokens ++ [Some tk]), ts, t. rewrite join_with_sep. split_and!; [done| |done|done|done].
  apply Forall2_app; [done|]. by repeat constructor.
Qed.

(** C36: The tokens are the parts between the separators: joined they are the string, each but the last ends
    where the separator occurs first, and in the last it does not occur. *)
Theorem split_tokens x z sep y count : 1 <= blen x -> blen x < 2 ^ 30 - 1 -> 1 <= blen sep ->
  exists toks ts t, sdssplitlen zmalloc room (x ++ z) (blen x) (sep ++ y) (blen sep) count = Ok (Some toks, Z.of_nat (length toks), []) /\
    Forall2 holds toks (ts ++ [t]) /\ x = join_text sep (ts ++ [t]) /\ Forall (ends_first sep) ts /\ no_sep sep t.
Proof. exact (split_loop_tokens x z sep y count). Qed.

Lemma join_text_nul sep ts : no_nul (join_text sep ts) -> Forall no_nul ts.
Proof.
  induction ts as [|t ts IH]; intros H; constructor.
  - destruct ts; [exact H|]. by apply Forall_app in H as [? _].
  - destruct ts as [|u ts]; [constructor|]. apply IH. apply Forall_app in H as [_ H]. by apply Forall_app in H as [_ ?].
Qed.

(** The characters a token points to. *)
Definition chars_of (t : sds) : bytes := match t with Some sh => buf sh | None => [] end.

(** Joining gives the string back, unless it or the separator has zero bytes, which end the arguments of
    [sdsjoin]. *)
Lemma split_join x z sep y count : 1 <= blen x -> blen x < 2 ^ 30 - 1 -> 1 <= blen sep -> no_nul x -> no_nul sep ->
  exists toks, sdssplitlen zmalloc room (x ++ z) (blen x) (sep ++ y) (blen sep) count = Ok (Some toks, Z.of_nat (length toks), []) /\
    yields (sdsjoin zmalloc zrealloc (map chars_of toks) (cstring sep)) x.
Proof.
  intros H1 Hx Hsep Hnx Hns. destruct (split_loop_tokens x z sep y count H1 Hx Hsep) as (toks & ts & t & E & Ht & Ex & _).
  exists toks. split; [exact E|]. rewrite Ex in Hnx. apply join_text_nul in Hnx. rewrite Ex. apply sdsjoin_spec; [done..| | |].
  - clear -Ht Hnx. revert Hnx. induction Ht as [|tok u toks us Hh _ IH]; intros Hn; [constructor|]. apply Forall_cons in Hn as [Hu Hn].
    cbn [map]. constructor; [|by apply IH]. apply holds_elim in Hh as (sh & w & -> & _ & _ & _ & E & _). cbn [chars_of].
    by rewrite E, c_str_app, c_string_id.
  - by apply c_str_cstring.
  - rewrite <- Ex. unfold fits. lia.
Qed.

(** What is freed of the tokens. *)
Lemma sdsfreesplitres_all toks : sdsfreesplitres (Some toks) (Z.of_nat (length toks)) = rev toks ≫= sdsfree.
Proof. unfold sdsfreesplitres. by rewrite Nat2Z.id, take_ge. Qed.

End Programs.

(** ** Programs that run *)

Lemma malloc_zero_some n : 0 <= n -> malloc_zero n <> None.
Proof. done. Qed.

(** [sdscatfmt] of its tests, a trim, a range and a round of quotes. *)
Definition example_calls : list call :=
  [CatFmt (chars "Hello %s World %i,%U--" ++ [0]) [VStr (chars "Hi!" ++ [0]); VInt (-12); VUlong 18446744073709551615];
   Trim (chars "-" ++ [0]); Range 2 (-1); RemoveFreeSpace; CatRepr [10; 255] 2; ToUpper; MakeRoomFor 100; GrowZero 60; UpdateLen; Dup].

Lemma sds_refines_bytes_witness :
  exists sh z, (s ← sdsnewlen malloc_zero (Some (chars "--X")) (blen (chars "--")); run_calls malloc_zero realloc_zero example_calls s) = Ok (Some sh) /\
    len sh = blen (chars "LLO HI! WORLD -12,18446744073709551615" ++ [34; 92; 78; 92; 88; 70; 70; 34]) /\
    buf sh = (chars "LLO HI! WORLD -12,18446744073709551615" ++ [34; 92; 78; 92; 88; 70; 70; 34]) ++ 0 :: z /\ 0 <= free sh <= blen z.
Proof.
  apply (sds_refines_bytes malloc_zero realloc_zero malloc_zero_ok malloc_zero_some realloc_zero_serves (chars "--X") (chars "--") example_calls).
  - reflexivity.
  - reflexivity.
  - vm_compute. reflexivity.
Defined.

Lemma quoted_arguments_return_witness :
  exists sh toks, (s ← sdsempty malloc_zero; print_args malloc_zero realloc_zero s [chars "set"; [0; 34; 255]; []]) = Ok (Some sh) /\
    sdssplitargs malloc_zero realloc_zero (fun _ => true) (buf sh) = Ok (Some toks, 3, []) /\ Forall2 holds toks [chars "set"; [0; 34; 255]; []].
Proof.
  apply (quoted_arguments_return malloc_zero realloc_zero (fun _ => true) malloc_zero_ok malloc_zero_some realloc_zero_serves (fun _ => eq_refl)
    [chars "set"; [0; 34; 255]; []]).
  - repeat constructor; done.
  - done.
Defined.

Lemma split_tokens_witness :
  exists toks ts t, sdssplitlen malloc_zero (fun _ => true) (chars "foo_-_bar_-__-_" ++ [0]) 15 (chars "_-_" ++ [0]) 3 0 =
      Ok (Some toks, Z.of_nat (length toks), []) /\
    Forall2 holds toks (ts ++ [t]) /\ chars "foo_-_bar_-__-_" = join_text (chars "_-_") (ts ++ [t]) /\
    Forall (ends_first (chars "_-_")) ts /\ no_sep (chars "_-_") t.
Proof.
  apply (split_tokens malloc_zero (fun _ => true) malloc_zero_ok malloc_zero_some (fun _ => eq_refl) (chars "foo_-_bar_-__-_") [0] (chars "_-_") [0] 0).
  - done.
  - done.
  - done.
Defined.

End SdsRun.
