(* ===== verification/LiskRing.v ===== *)
(** * lisk_ring.c: the array based ring buffer, run by one thread

    Models win_lisk/src/lisk_ring.c.  The counters are free running [u4]
    values; a unit is found by masking.  The four push and five pop variants
    differ in which counters they use and how they publish; here each runs
    alone, so a compare-and-swap on a value just read succeeds.  RingThreads.v
    interleaves them. *)

From S2P Require Import Prelude.

Module Ring.

Definition RING_SP_SC : Z := 1.
Definition RING_SP_MC : Z := 2.
Definition RING_MP_SC : Z := 4.
Definition RING_MP_MC : Z := 8.

Record ring_t := mk_ring {
  unit_size : Z;
  unit_num : Z;
  type : Z;
  write_pos : Z;
  read_pos : Z;
  max_read_idx : Z;
  data : bytes;
}.

(** Packed header in front of [data]. *)
Definition sizeof_header : Z := 24.

(** [pptr_nil]: the out parameter is nil. *)
Definition ring_init (malloc : malloc_fun) (pptr_nil : bool) (unit_num unit_size : Z)
  : Z * option ring_t :=
  if pptr_nil || (unit_num =? 0) || (unit_size =? 0) ||
     negb (Z.land unit_num (u4 (unit_num - 1)) =? 0)
  then (-1, None)
  else
    let size := u8 (sizeof_header + u8 (unit_size * unit_num)) in
    match malloc size with
    | None => (-2, None)
    | Some block =>
        let data := drop (Z.to_nat sizeof_header) block in
        (0, Some {| unit_size := unit_size; unit_num := unit_num; type := RING_MP_MC;
                    write_pos := 0; read_pos := 0; max_read_idx := 0;
                    data := match data with [] => [] | _ :: d => 0 :: d end |})
    end.

Definition with_type (r : ring_t) (t : Z) : ring_t :=
  mk_ring (unit_size r) (unit_num r) t (write_pos r) (read_pos r) (max_read_idx r) (data r).
Definition with_data (r : ring_t) (d : bytes) : ring_t :=
  mk_ring (unit_size r) (unit_num r) (type r) (write_pos r) (read_pos r) (max_read_idx r) d.
Definition with_write (r : ring_t) (w : Z) : ring_t :=
  mk_ring (unit_size r) (unit_num r) (type r) w (read_pos r) (max_read_idx r) (data r).
Definition with_read (r : ring_t) (p : Z) : ring_t :=
  mk_ring (unit_size r) (unit_num r) (type r) (write_pos r) p (max_read_idx r) (data r).
Definition with_max_read (r : ring_t) (p : Z) : ring_t :=
  mk_ring (unit_size r) (unit_num r) (type r) (write_pos r) (read_pos r) p (data r).

Definition ring_set_type (ring : option ring_t) (t : Z) : Z * option ring_t :=
  match ring with
  | None => (-1, None)
  | Some r =>
      if (t <? RING_SP_SC) || (RING_MP_MC <? t) then (-1, Some r)
      else (0, Some (with_type r t))
  end.

(** Result code and the value stored through [size]. *)
Definition ring_size (ring : option ring_t) (size_nil : bool) : Z * option Z :=
  match ring with
  | None => (-1, None)
  | Some r => if size_nil then (-1, None) else (0, Some (u4 (write_pos r - read_pos r)))
  end.

Definition ring_index (count unit_num : Z) : Z :=
  if unit_num =? 0 then 0 else Z.land count (u4 (unit_num - 1)).

(** Byte offset of the unit of a counter: a product of two [u4]. *)
Definition unit_off (r : ring_t) (count : Z) : Z :=
  u4 (ring_index count (unit_num r) * unit_size r).

(** CPY between the element and a unit of [data]. *)
Definition copy_in (r : ring_t) (count : Z) (elem : bytes) : option ring_t :=
  src ← rd elem 0 (unit_size r);
  d ← wr (data r) (unit_off r count) src;
  Some (with_data r d).

Definition copy_out (r : ring_t) (count : Z) : option bytes :=
  rd (data r) (unit_off r count) (unit_size r).

Definition is_full (r : ring_t) (widx ridx : Z) : bool :=
  ring_index (u4 (widx + 1)) (unit_num r) =? ring_index ridx (unit_num r).

Definition is_empty (r : ring_t) (ridx widx : Z) : bool :=
  ring_index ridx (unit_num r) =? ring_index widx (unit_num r).

(** Reserve by compare-and-swap, copy, then publish when the earlier producers
    have published.  A lone producer that finds [max_read_idx] behind spins for
    ever: [None]. *)
Definition mp_ring_push (r : ring_t) (elem : bytes) : option (Z * ring_t) :=
  let ridx := read_pos r in
  let widx := write_pos r in
  if is_full r widx ridx then Some (-2, r)
  else
    let r := with_write r (u4 (widx + 1)) in
    r ← copy_in r widx elem;
    if max_read_idx r =? widx then Some (0, with_max_read r (u4 (widx + 1))) else None.

Definition sp_mc_ring_push (r : ring_t) (elem : bytes) : option (Z * ring_t) :=
  let ridx := read_pos r in
  let widx := write_pos r in
  if is_full r widx ridx then Some (-2, r)
  else
    r ← copy_in r widx elem;
    Some (0, with_write r (u4 (write_pos r + 1))).

Definition sp_sc_ring_push (r : ring_t) (elem : bytes) : option (Z * ring_t) :=
  let ridx := read_pos r in
  let widx := write_pos r in
  if is_full r widx ridx then Some (-2, r)
  else
    r ← copy_in r widx elem;
    Some (0, with_write r (u4 (write_pos r + 1))).

Definition ring_push (ring : option ring_t) (elem : option bytes)
  : option (Z * option ring_t) :=
  match ring, elem with
  | Some r, Some e =>
      '(ret, r') ←
        (if (type r =? RING_MP_MC) || (type r =? RING_MP_SC) then mp_ring_push r e
         else if type r =? RING_SP_MC then sp_mc_ring_push r e
         else if type r =? RING_SP_SC then sp_sc_ring_push r e
         else Some (-2, r));
      Some (ret, Some r')
  | _, _ => Some (-1, ring)
  end.

(** The pops return the bytes stored through [elem] beside the code. *)
Definition sp_mc_ring_pop (r : ring_t) : option (Z * option bytes * ring_t) :=
  let ridx := read_pos r in
  let widx := write_pos r in
  if is_empty r ridx widx then Some (-2, None, r)
  else x ← copy_out r ridx; Some (0, Some x, with_read r (u4 (ridx + 1))).

Definition mp_mc_ring_pop (r : ring_t) : option (Z * option bytes * ring_t) :=
  let ridx := read_pos r in
  let max_ridx := max_read_idx r in
  if is_empty r ridx max_ridx then Some (-2, None, r)
  else x ← copy_out r ridx; Some (0, Some x, with_read r (u4 (ridx + 1))).

Definition sp_sc_ring_pop (r : ring_t) : option (Z * option bytes * ring_t) :=
  let ridx := read_pos r in
  let widx := write_pos r in
  if is_empty r ridx widx then Some (-2, None, r)
  else x ← copy_out r ridx; Some (0, Some x, with_read r (u4 (read_pos r + 1))).

Definition mp_sc_ring_pop (r : ring_t) : option (Z * option bytes * ring_t) :=
  let ridx := read_pos r in
  let max_ridx := max_read_idx r in
  if is_empty r ridx max_ridx then Some (-2, None, r)
  else x ← copy_out r ridx; Some (0, Some x, with_read r (u4 (read_pos r + 1))).

Definition ring_pop (ring : option ring_t) (elem_nil : bool)
  : option (Z * option bytes * option ring_t) :=
  match ring with
  | Some r =>
      if elem_nil then Some (-1, None, ring)
      else
        '(ret, x, r') ←
          (if type r =? RING_MP_MC then mp_mc_ring_pop r
           else if type r =? RING_SP_MC then sp_mc_ring_pop r
           else if type r =? RING_MP_SC then mp_sc_ring_pop r
           else if type r =? RING_SP_SC then sp_sc_ring_pop r
           else Some (-2, None, r));
        Some (ret, x, Some r')
  | None => Some (-1, None, None)
  end.

(** ** Masking *)

Section Masking.
Context (un k : Z) (Hk : 0 <= k < 32) (Hun : un = 2 ^ k).

Lemma un_range : 1 <= un < U4_MOD.
Proof.
  subst un. unfold U4_MOD. split; [|apply Z.pow_lt_mono_r; lia].
  apply Z.pow_le_mono_r with (a := 2) (b := 0); lia.
Qed.

Lemma ring_index_mod c : 0 <= c -> ring_index c un = c mod un.
Proof.
  intros Hc. pose proof un_range. unfold ring_index.
  rewrite (proj2 (Z.eqb_neq un 0)) by lia. rewrite u4_id by (unfold is_u4; lia).
  subst un. rewrite Z.sub_1_r, <- Z.ones_equiv. apply Z.land_ones. lia.
Qed.

(** The wrap of a counter does not change its unit. *)
Lemma u4_mod_un c : u4 c mod un = c mod un.
Proof.
  unfold u4, U4_MOD. subst un.
  replace (2 ^ 32) with (2 ^ k * 2 ^ (32 - k)) by (rewrite <- Z.pow_add_r by lia; f_equal; lia).
  rewrite Z.rem_mul_r by lia. rewrite Z.mul_comm, Z.mod_add, Z.mod_mod by lia. done.
Qed.

Lemma ring_index_u4 c : ring_index (u4 c) un = c mod un.
Proof. rewrite ring_index_mod, u4_mod_un by apply u4_range. done. Qed.
End Masking.

(** ** The abstract queue

    [ring_shape]: what [ring_init] establishes and nothing changes.
    [ring_core r q]: the units from [read_pos] to [write_pos] hold [q]. *)

Record ring_shape (r : ring_t) : Prop := {
  rs_pow : exists k, 0 <= k < 32 /\ unit_num r = 2 ^ k;
  rs_unit : 0 < unit_size r;
  rs_size : unit_num r * unit_size r <= U4_MOD;
  rs_data : blen (data r) = unit_num r * unit_size r;
}.

Record ring_core (r : ring_t) (q : list bytes) : Prop := {
  rc_shape : ring_shape r;
  rc_write : is_u4 (write_pos r);
  rc_read : is_u4 (read_pos r);
  rc_len : u4 (write_pos r - read_pos r) = Z.of_nat (length q);
  rc_cap : Z.of_nat (length q) < unit_num r;
  rc_elem : forall i x, q !! i = Some x -> copy_out r (u4 (read_pos r + Z.of_nat i)) = Some x;
}.

(** Two rings with the same geometry and data: the counters are what differs. *)
Definition same_store (r r' : ring_t) : Prop :=
  unit_size r' = unit_size r /\ unit_num r' = unit_num r /\ data r' = data r.

Lemma shape_store r r' : same_store r r' -> ring_shape r -> ring_shape r'.
Proof. intros (Hu & Hn & Hd) []. split; rewrite ?Hu, ?Hn, ?Hd; auto. Qed.

Lemma copy_out_store r r' c : same_store r r' -> copy_out r' c = copy_out r c.
Proof. intros (Hu & Hn & Hd). unfold copy_out, unit_off. by rewrite Hu, Hn, Hd. Qed.

Section Shape.
Context (r : ring_t) (Hr : ring_shape r).

Lemma un_pos : 1 <= unit_num r < U4_MOD.
Proof. destruct (rs_pow r Hr) as (k & Hk & E). by apply (un_range _ k). Qed.

Lemma index_u4 c : ring_index (u4 c) (unit_num r) = c mod unit_num r.
Proof. destruct (rs_pow r Hr) as (k & Hk & E). by apply (ring_index_u4 _ k). Qed.

Lemma index_of c : 0 <= c -> ring_index c (unit_num r) = c mod unit_num r.
Proof. destruct (rs_pow r Hr) as (k & Hk & E). by apply (ring_index_mod _ k). Qed.

Lemma u4_mod c : u4 c mod unit_num r = c mod unit_num r.
Proof. destruct (rs_pow r Hr) as (k & Hk & E). by apply (u4_mod_un _ k). Qed.

(** The offset computed in 32 bits is the true one. *)
Lemma unit_off_exact c : 0 <= c -> unit_off r c = (c mod unit_num r) * unit_size r.
Proof.
  intros Hc. unfold unit_off. rewrite index_of by done.
  pose proof un_pos. pose proof (Z.mod_pos_bound c (unit_num r) ltac:(lia)).
  pose proof (rs_unit r Hr). pose proof (rs_size r Hr).
  apply u4_id. unfold is_u4. nia.
Qed.

Lemma copy_out_unit c :
  0 <= c -> copy_out r c = rd_unit (data r) (unit_size r) (c mod unit_num r).
Proof. intros. unfold copy_out, rd_unit. by rewrite unit_off_exact. Qed.

Lemma copy_in_spec c x :
  0 <= c -> blen x = unit_size r ->
  exists r', copy_in r c x = Some r' /\ r' = with_data r (data r') /\ ring_shape r' /\
    copy_out r' c = Some x /\
    forall c', 0 <= c' -> c' mod unit_num r <> c mod unit_num r -> copy_out r' c' = copy_out r c'.
Proof.
  intros Hc Hx. pose proof un_pos. pose proof (rs_unit r Hr). pose proof (rs_data r Hr) as Hd.
  pose proof (Z.mod_pos_bound c (unit_num r) ltac:(lia)) as Hm.
  unfold copy_in. rewrite <- Hx. unfold rd at 1. rewrite decide_True by lia. cbn.
  rewrite drop_0, take_ge by (unfold blen; lia). rewrite unit_off_exact by done.
  destruct (wr_unit_Some (data r) (unit_size r) (c mod unit_num r) (unit_num r) x)
    as [d Hw]; [lia..|]. rewrite Hw. cbn.
  assert (ring_shape (with_data r d)) as Hs.
  { pose proof (wr_blen _ _ _ _ Hw). destruct Hr. split; cbn; auto; lia. }
  exists (with_data r d). split; [done|]. split; [done|]. split; [done|].
  assert (forall c', 0 <= c' -> copy_out (with_data r d) c' = rd_unit d (unit_size r) (c' mod unit_num r))
    as Hco. { intros c' Hc'. unfold copy_out, rd_unit. f_equal. rewrite <- unit_off_exact by done. done. }
  split.
  - rewrite Hco by done. by eapply rd_unit_wr_same.
  - intros c' Hc' Hne. rewrite Hco, copy_out_unit by done.
    eapply rd_unit_wr_other; [lia|exact Hw|done|]. intros ?. by apply Hne.
Qed.
End Shape.

Section Core.
Context (r : ring_t) (q : list bytes) (H : ring_core r q).

Let len := Z.of_nat (length q).

Lemma write_eq : write_pos r = u4 (read_pos r + len).
Proof.
  unfold len. rewrite <- (rc_len r q H), u4_add_r.
  replace (read_pos r + (write_pos r - read_pos r)) with (write_pos r) by lia.
  symmetry. apply u4_id, H.
Qed.

(** The full test compares masked counters: it is exact at capacity. *)
Lemma is_full_spec : is_full r (write_pos r) (read_pos r) = (len =? unit_num r - 1).
Proof.
  pose proof (un_pos r (rc_shape r q H)) as Hu. pose proof (rc_cap r q H) as Hc.
  unfold is_full. rewrite write_eq, u4_add_l, index_u4, index_of by (apply H).
  apply eq_true_iff_eq. rewrite !Z.eqb_eq, <- Z.add_assoc, mod_shift_eq by lia.
  fold len in Hc. split; intros E; [|by rewrite E, Z.sub_add, Z.mod_same by lia].
  destruct (Z.eq_dec (len + 1) (unit_num r)); [lia|].
  rewrite Z.mod_small in E by (unfold len in *; lia). unfold len in *. lia.
Qed.

Lemma is_empty_spec : is_empty r (read_pos r) (write_pos r) = (len =? 0).
Proof.
  pose proof (un_pos r (rc_shape r q H)) as Hu. pose proof (rc_cap r q H) as Hc.
  unfold is_empty. rewrite write_eq, index_u4, index_of by (apply H).
  apply eq_true_iff_eq. rewrite !Z.eqb_eq.
  fold len in Hc. split; intros E; [|by rewrite E, Z.add_0_r].
  symmetry in E. rewrite mod_shift_eq, Z.mod_small in E by (unfold len in *; lia). done.
Qed.

(** No stored element lives in the unit of [write_pos]. *)
Lemma unit_free (i : nat) :
  (i < length q)%nat ->
  u4 (read_pos r + Z.of_nat i) mod unit_num r <> write_pos r mod unit_num r.
Proof.
  intros Hi. pose proof (rc_shape r q H) as Hs. pose proof (un_pos r Hs) as Hu.
  pose proof (rc_cap r q H) as Hc. rewrite write_eq, !u4_mod by done. unfold len.
  replace (Z.of_nat (length q)) with (Z.of_nat i + (Z.of_nat (length q) - Z.of_nat i)) by lia.
  rewrite Z.add_assoc. intros E. symmetry in E. rewrite mod_shift_eq in E by lia.
  rewrite Z.mod_small in E by lia. lia.
Qed.

(** Writing the next unit and advancing [write_pos] appends. *)
Lemma core_push x :
  blen x = unit_size r -> len < unit_num r - 1 ->
  exists r', copy_in r (write_pos r) x = Some r' /\ r' = with_data r (data r') /\
    ring_core (with_write r' (u4 (write_pos r + 1))) (q ++ [x]).
Proof.
  intros Hx Hlen. pose proof (rc_shape r q H) as Hs. pose proof (un_pos r Hs) as Hu.
  destruct (copy_in_spec r Hs (write_pos r) x) as (r' & Hci & Hr' & Hs' & Hself & Hoth);
    [apply H|done|].
  exists r'. split; [done|]. split; [done|].
  assert (unit_num r' = unit_num r /\ unit_size r' = unit_size r /\
          write_pos r' = write_pos r /\ read_pos r' = read_pos r) as (En & Eu & Ew & Er)
    by (rewrite Hr'; done).
  split; cbn [with_write write_pos read_pos unit_num].
  - by apply (shape_store r').
  - apply u4_range.
  - rewrite Er. apply H.
  - rewrite Er, u4_sub_l, length_app. cbn [length].
    replace (write_pos r + 1 - read_pos r) with ((write_pos r - read_pos r) + 1) by lia.
    rewrite <- u4_add_l, (rc_len r q H). unfold len in *.
    rewrite u4_id by (unfold is_u4; lia). lia.
  - rewrite En, length_app. cbn. unfold len in *. lia.
  - intros i y Hy. rewrite Er. rewrite (copy_out_store r') by done.
    destruct (decide (i < length q)%nat) as [Hi|Hi].
    + rewrite lookup_app_l in Hy by done. rewrite <- (rc_elem r q H i y Hy).
      apply Hoth; [apply u4_range|]. by apply unit_free.
    + assert (i = length q) as ->.
      { apply lookup_lt_Some in Hy. rewrite length_app in Hy. cbn in Hy. lia. }
      rewrite lookup_app_r in Hy by lia. rewrite Nat.sub_diag in Hy. cbn in Hy. simplify_eq.
      rewrite write_eq in Hself. exact Hself.
Qed.
End Core.

(** Reading the oldest unit and advancing [read_pos] removes it. *)
Lemma core_pop r x q :
  ring_core r (x :: q) ->
  copy_out r (read_pos r) = Some x /\ ring_core (with_read r (u4 (read_pos r + 1))) q.
Proof.
  intros H. pose proof (rc_len _ _ H) as Hl. pose proof (rc_cap _ _ H) as Hc. cbn in Hl, Hc.
  pose proof (un_pos r (rc_shape _ _ H)) as Hu. split.
  - rewrite <- (rc_elem _ _ H 0%nat x eq_refl). cbn. rewrite Z.add_0_r, u4_id by apply H. done.
  - split; cbn [with_read write_pos read_pos unit_num].
    + by apply (shape_store r); [|apply H].
    + apply H.
    + apply u4_range.
    + rewrite u4_sub_r. replace (write_pos r - (read_pos r + 1)) with ((write_pos r - read_pos r) - 1) by lia.
      rewrite <- u4_sub_l, Hl, u4_id by (unfold is_u4; lia). lia.
    + lia.
    + intros i y Hy. rewrite (copy_out_store r) by done.
      rewrite <- (rc_elem _ _ H (S i) y Hy). f_equal. rewrite u4_add_l. f_equal. lia.
Qed.

(** ** Refinement *)

Definition ring_type (t : Z) : Prop :=
  t = RING_SP_SC \/ t = RING_SP_MC \/ t = RING_MP_SC \/ t = RING_MP_MC.

Definition is_mp (t : Z) : bool := (t =? RING_MP_MC) || (t =? RING_MP_SC).

(** A ring of one of the four types that holds [q]; the multi-producer types
    have published every reserved unit. *)
Record ring_rep (r : ring_t) (q : list bytes) : Prop := {
  rr_core : ring_core r q;
  rr_type : ring_type (type r);
  rr_max : is_mp (type r) = true -> max_read_idx r = write_pos r;
}.

Lemma core_set_max r q m : ring_core r q -> ring_core (with_max_read r m) q.
Proof. intros []. split; auto. by apply (shape_store r). Qed.

Ltac ring_types H :=
  destruct H as [H|[H|[H|H]]]; rewrite H in *; cbn [RING_SP_SC RING_SP_MC RING_MP_SC RING_MP_MC] in *.

Lemma push_spec r q x :
  ring_rep r q -> blen x = unit_size r ->
  if Z.of_nat (length q) =? unit_num r - 1
  then ring_push (Some r) (Some x) = Some (-2, Some r)
  else exists r', ring_push (Some r) (Some x) = Some (0, Some r') /\ ring_rep r' (q ++ [x]) /\
                  unit_size r' = unit_size r /\ unit_num r' = unit_num r.
Proof.
  intros [Hc Ht Hm] Hx. pose proof (is_full_spec r q Hc) as Hf.
  pose proof (rc_cap r q Hc) as Hcap.
  unfold ring_push, mp_ring_push, sp_mc_ring_push, sp_sc_ring_push. rewrite Hf.
  destruct (Z.of_nat (length q) =? unit_num r - 1) eqn:E; to_prop.
  { ring_types Ht; reflexivity. }
  destruct (core_push r q Hc x Hx ltac:(lia)) as (r' & Hci & Hr' & Hc').
  assert (copy_in (with_write r (u4 (write_pos r + 1))) (write_pos r) x =
          Some (with_write r' (u4 (write_pos r + 1)))) as Hci'.
  { unfold copy_in in *. cbn [unit_size with_write data]. apply bind_Some in Hci as (e & -> & Hci).
    cbn. change (unit_off (with_write r _) (write_pos r)) with (unit_off r (write_pos r)).
    apply bind_Some in Hci as (d & -> & Hci). cbn. by injection Hci as <-. }
  destruct (is_mp (type r)) eqn:Emp.
  - exists (with_max_read (with_write r' (u4 (write_pos r + 1))) (u4 (write_pos r + 1))).
    rewrite Emp || (unfold is_mp in Emp; rewrite Emp). rewrite Hci'. cbn.
    rewrite Hr'. cbn. rewrite (Hm eq_refl), Z.eqb_refl. cbn. rewrite Hr' in Hc'.
    split; [done|]. split; [|done]. split; [by apply core_set_max|done|done].
  - unfold is_mp in Emp. rewrite Emp. exists (with_write r' (u4 (write_pos r + 1))). rewrite Hci. cbn.
    assert (type r' = type r) as Et by (by rewrite Hr').
    assert (write_pos r' = write_pos r) as -> by (by rewrite Hr').
    assert (unit_size r' = unit_size r /\ unit_num r' = unit_num r) as [Eu En] by (by rewrite Hr').
    split; [|split; [split|]]; cbn [with_write type unit_size unit_num]; rewrite ?Et; auto.
    2:{ unfold is_mp. by rewrite Emp. }
    ring_types Ht; done.
Qed.

Lemma pop_spec r q :
  ring_rep r q ->
  match q with
  | [] => ring_pop (Some r) false = Some (-2, None, Some r)
  | x :: q' => exists r', ring_pop (Some r) false = Some (0, Some x, Some r') /\ ring_rep r' q' /\
                          unit_size r' = unit_size r /\ unit_num r' = unit_num r
  end.
Proof.
  intros [Hc Ht Hm]. pose proof (is_empty_spec r q Hc) as He.
  assert (ring_pop (Some r) false =
    '(ret, x, r') ← sp_sc_ring_pop r; Some (ret, x, Some r')) as ->.
  { unfold ring_pop, mp_mc_ring_pop, mp_sc_ring_pop, sp_mc_ring_pop, sp_sc_ring_pop.
    ring_types Ht; cbn; rewrite ?(Hm eq_refl); done. }
  unfold sp_sc_ring_pop. rewrite He. destruct q as [|x q]; [done|].
  destruct (core_pop r x q Hc) as [Hco Hc']. cbn [length].
  rewrite (proj2 (Z.eqb_neq _ 0)) by lia. rewrite Hco. cbn.
  exists (with_read r (u4 (read_pos r + 1))). split; [done|]. split; [|done]. by split.
Qed.

Lemma ring_size_spec r q :
  ring_rep r q -> ring_size (Some r) false = (0, Some (Z.of_nat (length q))).
Proof. intros [Hc _ _]. cbn. by rewrite (rc_len r q Hc). Qed.

(** The specification: a queue of at most [cap] elements. *)
Inductive ring_op := OpPush (x : bytes) | OpPop | OpSize.
Inductive ring_res := ResPush (ret : Z) | ResPop (ret : Z) (x : option bytes) | ResSize (ret : Z) (n : option Z).

Definition queue_step (cap : Z) (q : list bytes) (op : ring_op) : ring_res * list bytes :=
  match op with
  | OpPush x => if Z.of_nat (length q) =? cap then (ResPush (-2), q) else (ResPush 0, q ++ [x])
  | OpPop => match q with [] => (ResPop (-2) None, q) | x :: q' => (ResPop 0 (Some x), q') end
  | OpSize => (ResSize 0 (Some (Z.of_nat (length q))), q)
  end.

Fixpoint queue_run (cap : Z) (q : list bytes) (ops : list ring_op) : list ring_res :=
  match ops with
  | [] => []
  | op :: ops' => let '(res, q') := queue_step cap q op in res :: queue_run cap q' ops'
  end.

Definition ring_step (r : option ring_t) (op : ring_op) : option (ring_res * option ring_t) :=
  match op with
  | OpPush x => '(ret, r') ← ring_push r (Some x); Some (ResPush ret, r')
  | OpPop => '(ret, x, r') ← ring_pop r false; Some (ResPop ret x, r')
  | OpSize => let '(ret, n) := ring_size r false in Some (ResSize ret n, r)
  end.

Fixpoint ring_run (r : option ring_t) (ops : list ring_op) : option (list ring_res) :=
  match ops with
  | [] => Some []
  | op :: ops' => '(res, r') ← ring_step r op; l ← ring_run r' ops'; Some (res :: l)
  end.

Definition op_ok (us : Z) (op : ring_op) : Prop :=
  match op with OpPush x => blen x = us | _ => True end.

Lemma run_spec r q ops :
  ring_rep r q -> Forall (op_ok (unit_size r)) ops ->
  ring_run (Some r) ops = Some (queue_run (unit_num r - 1) q ops).
Proof.
  revert r q. induction ops as [|op ops IH]; intros r q Hr Hok; [done|].
  apply Forall_cons_1 in Hok as [Hop Hok]. cbn [ring_run queue_run].
  destruct op as [x| |]; cbn [ring_step queue_step].
  - pose proof (push_spec r q x Hr Hop) as Hp.
    destruct (Z.of_nat (length q) =? unit_num r - 1).
    + rewrite Hp. cbn. by rewrite (IH r q Hr Hok).
    + destruct Hp as (r' & -> & Hr' & Eu & En). cbn.
      rewrite (IH r' (q ++ [x]) Hr'), En; [done|]. by rewrite Eu.
  - pose proof (pop_spec r q Hr) as Hp. destruct q as [|x q].
    + rewrite Hp. cbn. by rewrite (IH r [] Hr Hok).
    + destruct Hp as (r' & -> & Hr' & Eu & En). cbn.
      rewrite (IH r' q Hr'), En; [done|]. by rewrite Eu.
  - rewrite (ring_size_spec r q Hr). cbn. by rewrite (IH r q Hr Hok).
Qed.

(** ** Initialisation *)

Definition init_args_ok (un us : Z) : Prop :=
  (exists k, 0 <= k < 32 /\ un = 2 ^ k) /\ 0 < us < U4_MOD /\ un * us <= U4_MOD.

Lemma pow2_land k : 0 <= k < 32 -> Z.land (2 ^ k) (u4 (2 ^ k - 1)) = 0.
Proof.
  intros Hk. pose proof (un_range (2 ^ k) k Hk eq_refl).
  rewrite u4_id by (unfold is_u4; lia). rewrite Z.sub_1_r, <- Z.ones_equiv, Z.land_ones by lia.
  apply Z.mod_same. lia.
Qed.

Lemma init_fails malloc un us :
  init_args_ok un us -> malloc (sizeof_header + us * un) = None -> ring_init malloc false un us = (-2, None).
Proof.
  intros ((k & Hk & Hun) & Hus & Hsz) Hb. pose proof (un_range un k Hk Hun) as Hu.
  unfold ring_init. cbn [orb]. rewrite (proj2 (Z.eqb_neq un 0)), (proj2 (Z.eqb_neq us 0)) by lia.
  assert (Z.land un (u4 (un - 1)) = 0) as -> by (rewrite Hun; by apply pow2_land).
  cbn [orb negb Z.eqb]. unfold U4_MOD in *. unfold sizeof_header in *.
  rewrite (u8_id (us * un)), u8_id by (unfold is_u8, U8_MOD; nia). by rewrite Hb.
Qed.

Lemma init_spec malloc un us b t :
  malloc_ok malloc -> init_args_ok un us -> ring_type t ->
  malloc (sizeof_header + us * un) = Some b ->
  exists r, ring_init malloc false un us = (0, Some r) /\
    ring_set_type (Some r) t = (0, Some (with_type r t)) /\
    ring_rep (with_type r t) [] /\ unit_num r = un /\ unit_size r = us.
Proof.
  intros Hm ((k & Hk & Hun) & Hus & Hsz) Ht Hb. pose proof (un_range un k Hk Hun) as Hu.
  unfold ring_init. cbn [orb]. rewrite (proj2 (Z.eqb_neq un 0)), (proj2 (Z.eqb_neq us 0)) by lia.
  assert (Z.land un (u4 (un - 1)) = 0) as -> by (rewrite Hun; by apply pow2_land).
  cbn [orb negb Z.eqb].
  unfold U4_MOD in *. unfold sizeof_header in *.
  rewrite (u8_id (us * un)), u8_id by (unfold is_u8, U8_MOD; nia). rewrite Hb.
  eexists. split; [reflexivity|].
  set (d := drop (Z.to_nat 24) b).
  assert (blen d = un * us) as Hd.
  { assert (blen b = 24 + us * un) as Hbl by (apply Hm; [nia|done]). unfold d, blen in *. rewrite length_drop. nia. }
  set (d' := match d with [] => [] | _ :: d0 => 0 :: d0 end).
  assert (blen d' = un * us) as Hd' by (rewrite <- Hd; unfold d'; by destruct d).
  split.
  { unfold ring_set_type. ring_types Ht; done. }
  split; [|done]. split; cbn [with_type type is_mp]; [|done|done].
  split; cbn; [|unfold is_u4, U4_MOD; lia|unfold is_u4, U4_MOD; lia|done|lia|done].
  split; cbn; [by exists k|lia|unfold U4_MOD; lia|done].
Qed.

(** C14: one thread and a ring of [unit_num] units, a power of two, whose bytes
    together fit in [2^32]. [ring_init] fails only when [malloc] does. After it
    and [ring_set_type] with any of the four types, every sequence of pushes of
    elements of the unit size, pops and size queries gives the results of a FIFO
    queue that holds at most [unit_num - 1] elements: 0 or -2 for each push, the
    oldest element or -2 for each pop, the exact length for each size.  No access
    leaves the buffer and the wrap of the 32-bit counters is invisible.
    (lisk_ring.h announces -1 for a push or a pop that fails, [unit_num]
    elements, and [unit_num] as the size.) *)
Theorem ring_refines_queue (malloc : malloc_fun) (un us t : Z) (ops : list ring_op) :
  malloc_ok malloc -> init_args_ok un us -> ring_type t -> Forall (op_ok us) ops ->
  (malloc (sizeof_header + us * un) = None /\ ring_init malloc false un us = (-2, None)) \/
  exists r r', ring_init malloc false un us = (0, Some r) /\
    ring_set_type (Some r) t = (0, Some r') /\
    ring_run (Some r') ops = Some (queue_run (un - 1) [] ops).
Proof.
  intros Hm Ha Ht Hok. destruct (malloc (sizeof_header + us * un)) as [b|] eqn:Hb.
  - right. destruct (init_spec malloc un us b t Hm Ha Ht Hb) as (r & Hi & Hst & Hr & En & Eu).
    exists r, (with_type r t). split; [done|]. split; [done|].
    rewrite (run_spec (with_type r t) [] ops Hr); cbn; [by rewrite En|by rewrite Eu].
  - left. split; [done|]. by apply init_fails.
Qed.

Lemma ring_refines_queue_witness :
  (malloc_zero (sizeof_header + 3 * 2) = None /\ ring_init malloc_zero false 2 3 = (-2, None)) \/
  exists r r', ring_init malloc_zero false 2 3 = (0, Some r) /\
    ring_set_type (Some r) RING_MP_MC = (0, Some r') /\
    ring_run (Some r') [OpPush [1; 2; 3]; OpPush [4; 5; 6]; OpSize; OpPop; OpPop] =
    Some [ResPush 0; ResPush (-2); ResSize 0 (Some 1); ResPop 0 (Some [1; 2; 3]); ResPop (-2) None].
Proof.
  apply (ring_refines_queue malloc_zero 2 3 RING_MP_MC
    [OpPush [1; 2; 3]; OpPush [4; 5; 6]; OpSize; OpPop; OpPop]).
  - apply malloc_zero_ok.
  - split; [exists 1; split; [lia|reflexivity]|unfold U4_MOD; lia].
  - right; right; right; reflexivity.
  - repeat constructor.
Defined.

(** With more than 4 GiB of units the 32-bit product of [unit_off] wraps although
    [ring_init] sized the block in 64 bits: unit 2^15 of this ring lands on unit 0. *)
Lemma unit_off_wraps (r : ring_t) :
  unit_num r = 2 ^ 16 -> unit_size r = 2 ^ 17 ->
  unit_off r (2 ^ 15) = unit_off r 0.
Proof. intros Hn Hs. unfold unit_off. rewrite Hn, Hs. reflexivity. Qed.

#[export, refine] Instance ring_fifo : FifoQueue bytes ring_t := {
  fq_push r x := '(ret, r') ← ring_push (Some r) (Some x); r'' ← r'; Some (ret, r'');
  fq_pop r := '(ret, x, r') ← ring_pop (Some r) false; r'' ← r'; Some (ret, x, r'');
  fq_valid r x := blen x = unit_size r;
  fq_rep := ring_rep;
  fq_room r q := Z.of_nat (length q) < unit_num r - 1;
}.
Proof.
  - intros r q x Hr Hx Hroom. pose proof (push_spec r q x Hr Hx) as Hp.
    rewrite (proj2 (Z.eqb_neq _ _)) in Hp by lia. destruct Hp as (r' & -> & Hr' & Eu & _).
    exists r'. split; [done|]. split; [done|]. intros y Hy. by rewrite Eu.
  - intros r q x Hr. destruct (pop_spec r (x :: q) Hr) as (r' & -> & Hr' & _).
    by exists r'.
Defined.

End Ring.
