(* ===== verification/RingThreads.v ===== *)
(** * lisk_ring.c under interleaving

    The producer and the consumer of a single-producer single-consumer ring run
    as two threads over one shared ring.  A step is one access to the shared
    structure: one load or store of a counter, one byte of CPY.  Steps of the
    threads interleave freely (sequential consistency).

    The second part runs the multi-producer push of [mp_ring_push] the same way
    and exhibits a schedule in which a stale [read_pos] lets a producer overfill
    the ring. *)

From S2P Require Import Prelude LiskRing.

Module Spsc.
Import Ring.

(** Program points of [sp_sc_ring_push]: [P_start] before the load of
    [read_pos], [P_check] after both loads, [P_copy] with [j] bytes copied,
    [P_publish] before the increment of [write_pos]. *)
Inductive ppc :=
| P_idle
| P_start (e : bytes)
| P_ridx (e : bytes) (ridx : Z)
| P_check (e : bytes) (ridx widx : Z)
| P_copy (e : bytes) (widx j : Z)
| P_publish (e : bytes).

(** Program points of [sp_sc_ring_pop]; [acc] is what CPY has read so far. *)
Inductive cpc :=
| C_idle
| C_start
| C_ridx (ridx : Z)
| C_check (ridx widx : Z)
| C_copy (ridx j : Z) (acc : bytes)
| C_advance (x : bytes).

(** One step of the producer inside a call: the new ring and program point, and
    the element when the step publishes it.  [None] is an access out of bounds. *)
Definition prod_step (r : ring_t) (pc : ppc) : option (ring_t * ppc * option bytes) :=
  match pc with
  | P_idle => None
  | P_start e => Some (r, P_ridx e (read_pos r), None)
  | P_ridx e ridx => Some (r, P_check e ridx (write_pos r), None)
  | P_check e ridx widx =>
      if is_full r widx ridx then Some (r, P_idle, None)
      else Some (r, P_copy e widx 0, None)
  | P_copy e widx j =>
      if j <? unit_size r then
        c ← e !! Z.to_nat j;
        d ← wr (data r) (unit_off r widx + j) [c];
        Some (with_data r d, P_copy e widx (j + 1), None)
      else Some (r, P_publish e, None)
  | P_publish e => Some (with_write r (u4 (write_pos r + 1)), P_idle, Some e)
  end.

Definition cons_step (r : ring_t) (pc : cpc) : option (ring_t * cpc * option bytes) :=
  match pc with
  | C_idle => None
  | C_start => Some (r, C_ridx (read_pos r), None)
  | C_ridx ridx => Some (r, C_check ridx (write_pos r), None)
  | C_check ridx widx =>
      if is_empty r ridx widx then Some (r, C_idle, None)
      else Some (r, C_copy ridx 0 [], None)
  | C_copy ridx j acc =>
      if j <? unit_size r then
        c ← rd (data r) (unit_off r ridx + j) 1;
        Some (r, C_copy ridx (j + 1) (acc ++ c), None)
      else Some (r, C_advance acc, None)
  | C_advance x => Some (with_read r (u4 (read_pos r + 1)), C_idle, Some x)
  end.

Definition log (o : option bytes) : list bytes := match o with Some x => [x] | None => [] end.

(** The system; [pushed] and [popped] record the elements published and returned. *)
Record sys := mk_sys {
  ring : ring_t;
  prod : ppc;
  cons : cpc;
  pushed : list bytes;
  popped : list bytes;
}.

Inductive step : sys -> sys -> Prop :=
| step_call_push s e :
    prod s = P_idle -> blen e = unit_size (ring s) ->
    step s (mk_sys (ring s) (P_start e) (cons s) (pushed s) (popped s))
| step_call_pop s :
    cons s = C_idle ->
    step s (mk_sys (ring s) (prod s) C_start (pushed s) (popped s))
| step_prod s r pc o :
    prod_step (ring s) (prod s) = Some (r, pc, o) ->
    step s (mk_sys r pc (cons s) (pushed s ++ log o) (popped s))
| step_cons s r pc o :
    cons_step (ring s) (cons s) = Some (r, pc, o) ->
    step s (mk_sys r (prod s) pc (pushed s) (popped s ++ log o)).

Definition init_sys (r : ring_t) : sys := mk_sys r P_idle C_idle [] [].

(** ** Invariant

    [q] is what the ring holds.  A value read by a thread is off from the
    current counter by what the other thread has done since: [d]. *)

Definition prod_inv (r : ring_t) (q : list bytes) (pc : ppc) : Prop :=
  let len := Z.of_nat (length q) in
  match pc with
  | P_idle => True
  | P_start e => blen e = unit_size r
  | P_ridx e ridx => blen e = unit_size r /\
      exists d, 0 <= d /\ d + len <= unit_num r - 1 /\ ridx = u4 (read_pos r - d)
  | P_check e ridx widx => blen e = unit_size r /\ widx = write_pos r /\
      exists d, 0 <= d /\ d + len <= unit_num r - 1 /\ ridx = u4 (read_pos r - d)
  | P_copy e widx j => blen e = unit_size r /\ widx = write_pos r /\ len < unit_num r - 1 /\
      0 <= j <= unit_size r /\ rd (data r) (unit_off r widx) j = rd e 0 j
  | P_publish e => blen e = unit_size r /\ len < unit_num r - 1 /\
      copy_out r (write_pos r) = Some e
  end.

Definition cons_inv (r : ring_t) (q : list bytes) (pc : cpc) : Prop :=
  match pc with
  | C_idle | C_start => True
  | C_ridx ridx => ridx = read_pos r
  | C_check ridx widx => ridx = read_pos r /\
      exists d, 0 <= d <= Z.of_nat (length q) /\ widx = u4 (write_pos r - d)
  | C_copy ridx j acc => ridx = read_pos r /\ 0 <= j <= unit_size r /\
      exists x q', q = x :: q' /\ acc = take (Z.to_nat j) x
  | C_advance x => exists q', q = x :: q'
  end.

Record inv (s : sys) (q : list bytes) : Prop := {
  i_core : ring_core (ring s) q;
  i_hist : pushed s = popped s ++ q;
  i_prod : prod_inv (ring s) q (prod s);
  i_cons : cons_inv (ring s) q (cons s);
}.

Section Steps.
Context (r : ring_t) (q : list bytes) (Hc : ring_core r q).

Let len := Z.of_nat (length q).
Let Hs : ring_shape r := rc_shape r q Hc.

(** The full test with a stale [read_pos]: exact for the older queue. *)
Lemma full_stale d :
  0 <= d -> d + len <= unit_num r - 1 ->
  is_full r (write_pos r) (u4 (read_pos r - d)) = (d + len =? unit_num r - 1).
Proof.
  intros Hd Hl. pose proof (un_pos r Hs) as Hu. unfold is_full.
  rewrite (write_eq r q Hc), u4_add_l, !index_u4 by done. fold len.
  replace (read_pos r + len + 1) with ((read_pos r - d) + (d + len + 1)) by lia.
  apply eq_true_iff_eq. rewrite !Z.eqb_eq, mod_shift_eq by lia. split; intros E.
  - destruct (Z.eq_dec (d + len + 1) (unit_num r)); [lia|].
    unfold len in *. rewrite Z.mod_small in E by lia. lia.
  - replace (d + len + 1) with (unit_num r) by lia. apply Z.mod_same. lia.
Qed.

(** The empty test with a stale [write_pos]: never empty by mistake when it passes. *)
Lemma empty_stale d :
  0 <= d <= len -> is_empty r (read_pos r) (u4 (write_pos r - d)) = (d =? len).
Proof.
  intros Hd. pose proof (un_pos r Hs) as Hu. pose proof (rc_cap r q Hc) as Hcap.
  unfold is_empty. rewrite (write_eq r q Hc), u4_sub_l, index_u4, index_of by (done || apply Hc).
  fold len. replace (read_pos r + len - d) with (read_pos r + (len - d)) by lia.
  apply eq_true_iff_eq. rewrite !Z.eqb_eq. split; intros E.
  - symmetry in E. rewrite mod_shift_eq in E by lia. unfold len in *.
    rewrite Z.mod_small in E by lia. lia.
  - replace (len - d) with 0 by lia. by rewrite Z.add_0_r.
Qed.

Lemma unit_off_bounds c :
  0 <= c -> 0 <= unit_off r c /\ unit_off r c + unit_size r <= blen (data r).
Proof.
  intros H0. pose proof (un_pos r Hs). pose proof (rs_unit r Hs).
  rewrite unit_off_exact, (rs_data r Hs) by done.
  pose proof (Z.mod_pos_bound c (unit_num r) ltac:(lia)). nia.
Qed.

(** One byte of CPY into the unit of [write_pos]. *)
Lemma byte_write j c :
  0 <= j < unit_size r ->
  exists d, wr (data r) (unit_off r (write_pos r) + j) [c] = Some d /\
    ring_core (with_data r d) q /\
    rd d (unit_off r (write_pos r)) j = rd (data r) (unit_off r (write_pos r)) j /\
    rd d (unit_off r (write_pos r) + j) 1 = Some [c].
Proof.
  intros Hj. pose proof (rc_write r q Hc) as Hw. unfold is_u4 in Hw.
  destruct (unit_off_bounds (write_pos r) ltac:(lia)) as [Hb1 Hb2].
  destruct (wr_Some (data r) (unit_off r (write_pos r) + j) [c]) as [d Hd]; [lia|unfold blen in *; cbn; lia|].
  exists d. split; [done|]. split; [|split].
  - destruct Hc. split; cbn [with_data write_pos read_pos unit_num]; auto.
    { pose proof (wr_blen _ _ _ _ Hd). destruct rc_shape0. split; cbn; auto; lia. }
    intros i x Hx. rewrite <- (rc_elem0 i x Hx). unfold copy_out. cbn [with_data data unit_size].
    change (unit_off (with_data r d) ?c) with (unit_off r c).
    eapply rd_wr_other; [exact Hd|]. change (blen [c]) with 1.
    assert (i < length q)%nat as Hi by (by eapply lookup_lt_Some).
    pose proof (unit_free r q Hc i Hi) as Hne.
    rewrite !unit_off_exact by (done || apply u4_range || lia).
    pose proof (rs_unit r Hs).
    set (a := u4 _ mod _) in *. set (b := write_pos r mod _) in *.
    assert (a < b \/ b < a) as [?|?] by lia; nia.
  - eapply rd_wr_other; [exact Hd|]. lia.
  - change 1 with (blen [c]). by apply (rd_wr_same (data r)).
Qed.
End Steps.

(** A producer step that is not a publication keeps [q]. *)
Lemma prod_step_inv s q r pc o :
  inv s q -> prod_step (ring s) (prod s) = Some (r, pc, o) ->
  inv (mk_sys r pc (cons s) (pushed s ++ log o) (popped s)) (q ++ log o).
Proof.
  intros [Hc Hh Hp Hco] Hst. pose proof (rc_shape _ _ Hc) as Hs.
  pose proof (rc_cap _ _ Hc) as Hcap.
  destruct (prod s) as [|e|e ridx|e ridx widx|e widx j|e] eqn:Epc; cbn in Hp, Hst; try done.
  - injection Hst as <- <- <-. split; cbn; rewrite ?app_nil_r; auto.
    split; [done|]. exists 0. rewrite Z.sub_0_r, u4_id by apply Hc. split; [lia|]. split; [lia|done].
  - injection Hst as <- <- <-. destruct Hp as [He Hd]. split; cbn; rewrite ?app_nil_r; auto.
  - destruct Hp as (He & -> & d & Hd & Hl & ->).
    rewrite (full_stale _ _ Hc d Hd Hl) in Hst. destruct (_ =? _) eqn:E; to_prop;
      injection Hst as <- <- <-; split; cbn; rewrite ?app_nil_r; auto.
    split; [done|]. split; [done|]. split; [lia|]. pose proof (rs_unit _ Hs). split; [lia|].
    destruct (unit_off_bounds _ _ Hc (write_pos (ring s))) as [Hb1 Hb2]; [apply Hc|].
    unfold rd. rewrite !decide_True by (unfold blen in *; lia). done.
  - destruct Hp as (He & -> & Hl & Hj & Hrd). destruct (j <? unit_size (ring s)) eqn:E; to_prop.
    + apply bind_Some in Hst as (c & Hec & Hst).
      destruct (byte_write _ _ Hc j c ltac:(lia)) as (d & Hd & Hc' & Hr1 & Hr2).
      rewrite Hd in Hst. cbn in Hst. injection Hst as <- <- <-.
      split; cbn; rewrite ?app_nil_r; auto.
      split; [done|]. split; [done|]. split; [done|]. split; [lia|].
      change (unit_off (with_data _ d) ?c) with (unit_off (ring s) c).
      destruct (rd_Some e 0 j) as [x Hx]; [lia..|].
      rewrite (rd_app _ _ j 1 x [c]); [|lia|lia|by rewrite Hr1, Hrd|exact Hr2].
      symmetry. apply rd_app; [lia|lia|done|].
      destruct (rd_Some e 0 (unit_size (ring s))) as [x' Hx']; [lia..|].
      destruct (rd_byte _ _ _ _ j Hx' ltac:(lia)) as (c' & Hc1 & Hc2). rewrite Hc2. do 2 f_equal.
      unfold rd in Hx'. rewrite decide_True in Hx' by lia. injection Hx' as <-.
      rewrite drop_0, take_ge in Hc1 by (unfold blen in *; lia). congruence.
    + injection Hst as <- <- <-. assert (j = unit_size (ring s)) as -> by lia.
      split; cbn; rewrite ?app_nil_r; auto. split; [done|]. split; [done|].
      unfold copy_out. rewrite Hrd. unfold rd. rewrite decide_True by lia. f_equal.
      rewrite drop_0, take_ge; [done|unfold blen in *; lia].
  - destruct Hp as (He & Hl & Hout). injection Hst as <- <- <-. cbn.
    assert (ring_core (with_write (ring s) (u4 (write_pos (ring s) + 1))) (q ++ [e])) as Hc'.
    { pose proof (un_pos _ Hs). split; cbn; try apply Hc.
      - by apply (shape_store (ring s)).
      - apply u4_range.
      - rewrite u4_sub_l, length_app. cbn.
        replace (write_pos (ring s) + 1 - read_pos (ring s)) with ((write_pos (ring s) - read_pos (ring s)) + 1) by lia.
        rewrite <- u4_add_l, (rc_len _ _ Hc), u4_id by (unfold is_u4; lia). lia.
      - rewrite length_app. cbn. lia.
      - intros i x Hx. rewrite (copy_out_store (ring s)) by done.
        apply lookup_snoc_Some in Hx as [[Hi Hx]|[-> ->]]; [by apply (rc_elem _ _ Hc)|].
        by rewrite <- (write_eq _ q Hc). }
    split; cbn; auto; [by rewrite Hh, app_assoc|].
    destruct (cons s); cbn in *; auto.
    + destruct Hco as (-> & d & Hd & ->). split; [done|]. exists (d + 1).
      rewrite length_app. cbn. split; [lia|]. rewrite u4_sub_l. f_equal. lia.
    + destruct Hco as (-> & Hj & x & q' & -> & ->). split; [done|]. split; [done|].
      by exists x, (q' ++ [e]).
    + destruct Hco as [q' ->]. by exists (q' ++ [e]).
Qed.

Lemma cons_step_inv s q r pc o :
  inv s q -> cons_step (ring s) (cons s) = Some (r, pc, o) ->
  exists q', inv (mk_sys r (prod s) pc (pushed s) (popped s ++ log o)) q' /\ q = log o ++ q'.
Proof.
  intros [Hc Hh Hp Hco] Hst. pose proof (rc_shape _ _ Hc) as Hs.
  pose proof (rc_cap _ _ Hc) as Hcap.
  destruct (cons s) as [| |ridx|ridx widx|ridx j acc|x] eqn:Epc; cbn in Hco, Hst; try done.
  - injection Hst as <- <- <-. exists q. split; [|done]. split; cbn; rewrite ?app_nil_r; auto.
  - injection Hst as <- <- <-. subst ridx. exists q. split; [|done].
    split; cbn; rewrite ?app_nil_r; auto. split; [done|]. exists 0.
    rewrite Z.sub_0_r, u4_id by apply Hc. split; [lia|done].
  - destruct Hco as (-> & d & Hd & ->). rewrite (empty_stale _ _ Hc d Hd) in Hst.
    destruct (_ =? _) eqn:E; to_prop; injection Hst as <- <- <-; exists q; (split; [|done]);
      split; cbn; rewrite ?app_nil_r; auto.
    pose proof (rs_unit _ Hs). split; [done|]. split; [lia|].
    destruct q as [|x q']; [cbn in *; lia|]. by exists x, q'.
  - destruct Hco as (-> & Hj & x & q' & -> & ->).
    destruct (core_pop _ _ _ Hc) as [Hout _]. pose proof (rd_blen _ _ _ _ Hout) as Hx.
    destruct (j <? unit_size (ring s)) eqn:E; to_prop.
    + destruct (rd_byte _ _ _ _ j Hout ltac:(lia)) as (c & Hxc & Hrc).
      rewrite Hrc in Hst. cbn in Hst. injection Hst as <- <- <-.
      exists (x :: q'). split; [|done]. split; cbn; rewrite ?app_nil_r; auto.
      split; [done|]. split; [lia|]. exists x, q'. split; [done|].
      rewrite Z2Nat.inj_add, Nat.add_1_r by lia. by rewrite (take_S_r _ _ c).
    + injection Hst as <- <- <-. exists (x :: q'). split; [|done].
      split; cbn; rewrite ?app_nil_r; auto. exists q'.
      rewrite take_ge by (unfold blen in *; lia). done.
  - destruct Hco as [q' ->]. injection Hst as <- <- <-. exists q'. split; [|done].
    destruct (core_pop _ _ _ Hc) as [Hout Hc']. split; cbn; [done| | |done].
    + by rewrite Hh, <- app_assoc.
    + cbn in Hcap. destruct (prod s); cbn in *; auto.
      * destruct Hp as (He & d & Hd & Hl & ->). split; [done|]. exists (d + 1).
        split; [lia|]. split; [lia|]. rewrite u4_sub_l. f_equal. lia.
      * destruct Hp as (He & -> & d & Hd & Hl & ->). split; [done|]. split; [done|]. exists (d + 1).
        split; [lia|]. split; [lia|]. rewrite u4_sub_l. f_equal. lia.
      * destruct Hp as (He & -> & Hl & Hj & Hrd). repeat split; auto; lia.
      * destruct Hp as (He & Hl & Ho). repeat split; auto; lia.
Qed.

Lemma step_inv s s' q : inv s q -> step s s' -> exists q', inv s' q'.
Proof.
  intros Hi Hst. destruct Hst as [s e Hp He|s Hp|s r pc o Hst|s r pc o Hst].
  - exists q. destruct Hi as [Hc Hh Hpi Hci]. by split.
  - exists q. destruct Hi as [Hc Hh Hpi Hci]. by split.
  - exists (q ++ log o). by apply prod_step_inv.
  - destruct (cons_step_inv s q r pc o Hi Hst) as (q' & ? & _). by exists q'.
Qed.

Lemma reachable_inv r s :
  ring_rep r [] -> rtc step (init_sys r) s -> exists q, inv s q.
Proof.
  intros Hr Hrtc. assert (exists q, inv (init_sys r) q) as Hinit.
  { exists []. split; cbn; auto. apply Hr. }
  induction Hrtc as [|s s1 s2 Hst _ IH]; [done|].
  apply IH. destruct Hinit as [q Hq]. by eapply step_inv.
Qed.

(** C15: under every interleaving of a producer and a consumer, byte by byte, the
    elements popped are at each moment a prefix of the elements pushed, in order
    and intact, and at most [unit_num - 1] are in flight. *)
Theorem spsc_fifo (r : ring_t) (s : sys) :
  ring_rep r [] -> rtc step (init_sys r) s ->
  exists q, pushed s = popped s ++ q /\ Z.of_nat (length q) <= unit_num (ring s) - 1.
Proof.
  intros Hr Hrtc. destruct (reachable_inv r s Hr Hrtc) as [q [Hc Hh _ _]].
  exists q. split; [done|]. pose proof (rc_cap _ _ Hc). lia.
Qed.

(** Steps a call still needs, an upper bound. *)
Definition prod_left (r : ring_t) (pc : ppc) : Z :=
  match pc with
  | P_idle => 0
  | P_start _ => unit_size r + 5
  | P_ridx _ _ => unit_size r + 4
  | P_check _ _ _ => unit_size r + 3
  | P_copy _ _ j => unit_size r - j + 2
  | P_publish _ => 1
  end.

Definition cons_left (r : ring_t) (pc : cpc) : Z :=
  match pc with
  | C_idle => 0
  | C_start => unit_size r + 5
  | C_ridx _ => unit_size r + 4
  | C_check _ _ => unit_size r + 3
  | C_copy _ j _ => unit_size r - j + 2
  | C_advance _ => 1
  end.

(** C32: both operations are wait free.  In every reachable state a thread inside a
    call can take its next step, whatever the other thread is doing, without an
    access out of bounds, and that step brings the call closer to its return:
    a call takes at most [unit_size + 5] steps of its own thread. *)
Theorem spsc_wait_free (r : ring_t) (s : sys) :
  ring_rep r [] -> rtc step (init_sys r) s ->
  (prod s <> P_idle -> exists r' pc o, prod_step (ring s) (prod s) = Some (r', pc, o) /\
     0 <= prod_left r' pc < prod_left (ring s) (prod s)) /\
  (cons s <> C_idle -> exists r' pc o, cons_step (ring s) (cons s) = Some (r', pc, o) /\
     0 <= cons_left r' pc < cons_left (ring s) (cons s)).
Proof.
  intros Hr Hrtc. destruct (reachable_inv r s Hr Hrtc) as [q [Hc Hh Hp Hco]].
  pose proof (rs_unit _ (rc_shape _ _ Hc)) as Hu. split; intros Hne.
  - destruct (prod s) as [|e|e ridx|e ridx widx|e widx j|e]; try done;
      cbn [prod_step]; try (do 3 eexists; split; [done|cbn; lia]).
    + destruct (is_full _ _ _); do 3 eexists; (split; [done|cbn; lia]).
    + cbn in Hp. destruct Hp as (He & -> & Hl & Hj & _).
      destruct (j <? unit_size (ring s)) eqn:E; to_prop;
        [|do 3 eexists; split; [done|cbn; lia]].
      destruct (lookup_lt_is_Some_2 e (Z.to_nat j)) as [c Hec]; [unfold blen in *; lia|].
      destruct (byte_write _ _ Hc j c ltac:(lia)) as (d & Hd & _). rewrite Hec. cbn. rewrite Hd.
      do 3 eexists; split; [done|cbn; lia].
  - destruct (cons s) as [| |ridx|ridx widx|ridx j acc|x]; try done;
      cbn [cons_step]; try (do 3 eexists; split; [done|cbn; lia]).
    + destruct (is_empty _ _ _); do 3 eexists; (split; [done|cbn; lia]).
    + cbn in Hco. destruct Hco as (-> & Hj & x & q' & -> & _).
      destruct (j <? unit_size (ring s)) eqn:E; to_prop;
        [|do 3 eexists; split; [done|cbn; lia]].
      destruct (core_pop _ _ _ Hc) as [Hout _].
      destruct (rd_byte _ _ _ _ j Hout ltac:(lia)) as (c & _ & Hrc). rewrite Hrc. cbn.
      do 3 eexists; split; [done|cbn; lia].
Qed.

(** A concrete ring and a run in which one element has been pushed. *)
Definition demo_ring : ring_t := mk_ring 1 2 RING_SP_SC 0 0 0 [0; 0].

Lemma demo_ring_rep : ring_rep demo_ring [].
Proof.
  split; [|by left|done]. split; cbn; try (unfold is_u4, U4_MOD; lia); try done.
  split; cbn; [exists 1; split; [lia|done]|lia|unfold U4_MOD; lia|done].
Qed.

Definition demo_state : sys :=
  mk_sys (mk_ring 1 2 RING_SP_SC 1 0 0 [7; 0]) P_idle C_start [[7]] [].

Lemma demo_run : rtc step (init_sys demo_ring) demo_state.
Proof.
  eapply rtc_l; [apply (step_call_push _ [7]); reflexivity|].
  do 6 (eapply rtc_l; [apply step_prod; vm_compute; reflexivity|]).
  eapply rtc_l; [apply step_call_pop; reflexivity|]. apply rtc_refl.
Qed.

Lemma spsc_fifo_witness :
  exists q, pushed demo_state = popped demo_state ++ q /\ Z.of_nat (length q) <= 1.
Proof. apply (spsc_fifo demo_ring demo_state); [apply demo_ring_rep|apply demo_run]. Defined.

Lemma spsc_wait_free_witness :
  exists r' pc o, cons_step (ring demo_state) C_start = Some (r', pc, o) /\
    0 <= cons_left r' pc < 6.
Proof.
  apply (spsc_wait_free demo_ring demo_state); [apply demo_ring_rep|apply demo_run|discriminate].
Defined.

End Spsc.

Module Mpmc.
Import Ring.

(** Program points of [mp_ring_push] and [mp_mc_ring_pop]. *)
Inductive mpc :=
| Push_start (e : bytes)
| Push_ridx (e : bytes) (ridx : Z)
| Push_check (e : bytes) (ridx widx : Z)
| Push_cas (e : bytes) (widx : Z)
| Push_copy (e : bytes) (widx j : Z)
| Push_publish (widx : Z)
| Pop_start
| Pop_ridx (ridx : Z)
| Pop_check (ridx max_ridx : Z)
| Pop_copy (ridx j : Z) (acc : bytes)
| Pop_cas (ridx : Z) (x : bytes)
| Done (ret : Z) (x : option bytes).

Definition mp_step (r : ring_t) (pc : mpc) : option (ring_t * mpc) :=
  match pc with
  | Push_start e => Some (r, Push_ridx e (read_pos r))
  | Push_ridx e ridx => Some (r, Push_check e ridx (write_pos r))
  | Push_check e ridx widx =>
      if is_full r widx ridx then Some (r, Done (-2) None) else Some (r, Push_cas e widx)
  | Push_cas e widx =>
      if write_pos r =? widx then Some (with_write r (u4 (widx + 1)), Push_copy e widx 0)
      else Some (r, Push_start e)
  | Push_copy e widx j =>
      if j <? unit_size r then
        c ← e !! Z.to_nat j;
        d ← wr (data r) (unit_off r widx + j) [c];
        Some (with_data r d, Push_copy e widx (j + 1))
      else Some (r, Push_publish widx)
  | Push_publish widx =>
      if max_read_idx r =? widx then Some (with_max_read r (u4 (widx + 1)), Done 0 None)
      else Some (r, Push_publish widx)
  | Pop_start => Some (r, Pop_ridx (read_pos r))
  | Pop_ridx ridx => Some (r, Pop_check ridx (max_read_idx r))
  | Pop_check ridx max_ridx =>
      if is_empty r ridx max_ridx then Some (r, Done (-2) None) else Some (r, Pop_copy ridx 0 [])
  | Pop_copy ridx j acc =>
      if j <? unit_size r then
        c ← rd (data r) (unit_off r ridx + j) 1;
        Some (r, Pop_copy ridx (j + 1) (acc ++ c))
      else Some (r, Pop_cas ridx acc)
  | Pop_cas ridx x =>
      if read_pos r =? ridx then Some (with_read r (u4 (ridx + 1)), Done 0 (Some x))
      else Some (r, Pop_start)
  | Done _ _ => None
  end.

(** A schedule names the thread that takes each step. *)
Fixpoint mp_run (r : ring_t) (ths : list mpc) (sched : list nat) : option (ring_t * list mpc) :=
  match sched with
  | [] => Some (r, ths)
  | t :: sched' =>
      pc ← ths !! t;
      '(r', pc') ← mp_step r pc;
      mp_run r' (<[t := pc']> ths) sched'
  end.

(** A thread that runs its whole call alone: seven steps for a push of one byte,
    six for a pop. *)
Definition alone (t n : nat) : list nat := replicate n t.

(** Thread 0 loads [read_pos] and is delayed; threads 1 to 3 push, thread 4 pops,
    thread 5 pushes; thread 0 goes on with the old [read_pos]; thread 6 pops,
    thread 7 pushes, thread 8 pops. *)
Definition overfill_schedule : list nat :=
  alone 0 1 ++ alone 1 7 ++ alone 2 7 ++ alone 3 7 ++ alone 4 6 ++ alone 5 7 ++
  alone 0 6 ++ alone 6 3 ++ alone 7 7 ++ alone 8 6.

Definition overfill_threads : list mpc :=
  [Push_start [10]; Push_start [1]; Push_start [2]; Push_start [3]; Pop_start;
   Push_start [4]; Pop_start; Push_start [5]; Pop_start].

(** The multi-producer push is not safe when a producer is delayed between its
    two loads.  On a fresh ring of 4 units there is a schedule in which every call
    runs to its end, six pushes return 0 and the only element delivered is 1;
    then a pop reports an empty ring although 2, 3, 4 and 10 were pushed and not
    popped, and the next push overwrites 2: the following pop delivers 5. *)
Theorem mp_push_overfills :
  exists r r', ring_init malloc_zero false 4 1 = (0, Some r) /\
    mp_run r overfill_threads overfill_schedule =
      Some (r', [Done 0 None; Done 0 None; Done 0 None; Done 0 None; Done 0 (Some [1]);
                 Done 0 None; Done (-2) None; Done 0 None; Done 0 (Some [5])]).
Proof. do 2 eexists. split; [reflexivity|]. vm_compute. reflexivity. Qed.

End Mpmc.
