(* ===== verification/LiskDeque.v ===== *)
(** * lisk_deque.c: the double-ended queue of blocks

    Models win_lisk/src/lisk_deque.c.  [map] is the array of block pointers; the
    blocks live in a heap, so the stale pointers left behind when the map is
    moved or grown alias the live ones, as in the code.  [start] and [end] are
    (map index, unit index); [end] points one past the last element. *)

From S2P Require Import Prelude.

Module Deque.

Record deque_t := mk_deque {
  map : list nat;
  map_size : Z;
  start_index : Z;
  start_cur : Z;
  end_index : Z;
  end_cur : Z;
  unit_num : Z;
  unit_size : Z;
}.

(** Result code, deque and heap after a call. *)
Definition dres : Type := Z * deque_t * heap.

Definition set_map (d : deque_t) (m : list nat) : deque_t :=
  mk_deque m (map_size d) (start_index d) (start_cur d) (end_index d) (end_cur d) (unit_num d) (unit_size d).
Definition set_start (d : deque_t) (i c : Z) : deque_t :=
  mk_deque (map d) (map_size d) i c (end_index d) (end_cur d) (unit_num d) (unit_size d).
Definition set_end (d : deque_t) (i c : Z) : deque_t :=
  mk_deque (map d) (map_size d) (start_index d) (start_cur d) i c (unit_num d) (unit_size d).

Definition sizeof_block_t : Z := 8.
Definition sizeof_deque_t : Z := 40.

(** The map array of an allocation of [size] bytes; its entries are not set. *)
Definition new_map (malloc : malloc_fun) (size : Z) : option (list nat) :=
  match malloc size with
  | None => None
  | Some b => Some (replicate (Z.to_nat (size / sizeof_block_t)) 0%nat)
  end.

(** [malloc_d], [malloc_m], [malloc_b]: the three allocations of [_deque_init]. *)
Definition _deque_init (malloc_d malloc_m malloc_b : malloc_fun) (h : heap) (pptr_nil : bool)
  (unit_size map_size block_size : Z) : option (Z * option deque_t * heap) :=
  if pptr_nil || (unit_size =? 0) || (map_size =? 0) || (block_size <? unit_size)
  then Some (-1, None, h)
  else match malloc_d sizeof_deque_t with
  | None => Some (-2, None, h)
  | Some _ =>
      let size := u4 (map_size * sizeof_block_t) in
      match new_map malloc_m size with
      | None => Some (-1, None, h)
      | Some m =>
          let i := Z.shiftr map_size 1 in
          let un := block_size / unit_size in
          let size := u4 (un * unit_size) in
          match halloc malloc_b size h with
          | None => Some (-2, None, h)
          | Some (a, h') =>
              if i <? Z.of_nat (length m) then
                Some (0, Some (mk_deque (<[Z.to_nat i := a]> m) map_size i 0 i 0 un unit_size), h')
              else None
          end
      end
  end.

(** The blocks from [idx] on, [n] of them, are released. *)
Fixpoint free_blocks (m : list nat) (idx n : nat) (h : heap) : option heap :=
  match n with
  | O => Some h
  | S n' => a ← m !! idx; h' ← hfree a h; free_blocks m (S idx) n' h'
  end.

(** The handle, nil or not, and the heap afterwards. *)
Definition _deque_uninit (deque : option deque_t) (h : heap) : option (option deque_t * heap) :=
  match deque with
  | None => Some (None, h)
  | Some d =>
      h' ← free_blocks (map d) (Z.to_nat (start_index d))
             (Z.to_nat (end_index d - start_index d + 1)) h;
      Some (None, h')
  end.

(** CPY of [num] map entries: all read before the first is written. *)
Definition map_copy (src : list nat) (from num : nat) (dst : list nat) (pos : nat)
  : option (list nat) :=
  if decide (from + num <= length src /\ pos + num <= length dst)%nat
  then Some (take pos dst ++ take num (drop from src) ++ drop (pos + num) dst)
  else None.

Definition deque_update_map (malloc : malloc_fun) (d : deque_t) : option (Z * deque_t) :=
  let num := u4 (end_index d - start_index d + 1) in
  if u4 (Z.shiftl num 1) <? map_size d then
    let pos := Z.shiftr (u4 (map_size d - num)) 1 in
    m ← map_copy (map d) (Z.to_nat (start_index d)) (Z.to_nat num) (map d) (Z.to_nat pos);
    Some (0, mk_deque m (map_size d) pos (start_cur d) (u4 (pos + num - 1)) (end_cur d)
               (unit_num d) (unit_size d))
  else
    let size := u4 (u4 (Z.shiftl (map_size d) 1) * sizeof_block_t) in
    match new_map malloc size with
    | None => Some (-2, d)
    | Some m0 =>
        let pos := u4 (map_size d - Z.shiftr num 1) in
        m ← map_copy (map d) (Z.to_nat (start_index d)) (Z.to_nat num) m0 (Z.to_nat pos);
        Some (0, mk_deque m (u4 (Z.shiftl (map_size d) 1)) pos (start_cur d) (u4 (pos + num - 1))
                   (end_cur d) (unit_num d) (unit_size d))
    end.

Definition is_nil (d : deque_t) : bool :=
  (start_index d =? end_index d) && (start_cur d =? end_cur d).

Definition deque_empty (deque : option deque_t) : Z :=
  match deque with
  | None => -1
  | Some d => if is_nil d then 0 else -2
  end.

Definition deque_size (deque : option deque_t) (size_nil : bool) : Z * option Z :=
  match deque with
  | None => (-1, None)
  | Some d =>
      if size_nil then (-1, None)
      else if start_index d =? end_index d
      then (0, Some (u4 (end_index d - start_index d)))
      else (0, Some (u4 (unit_num d - start_cur d + end_cur d +
                         (end_index d - start_index d - 1) * unit_num d)))
  end.

(** A pointer into a block. *)
Definition ptr : Type := nat * Z.

Definition unit_ptr (d : deque_t) (i c : Z) : option ptr :=
  a ← map d !! Z.to_nat i; Some (a, u4 (c * unit_size d)).

(** The pointer returned; nil is [Some None]. *)
Definition deque_at (deque : option deque_t) (pos : Z) : option (option ptr) :=
  match deque with
  | None => Some None
  | Some d =>
      let pos := u4 (pos + start_cur d) in
      p ← unit_ptr d (u4 (start_index d + pos / unit_num d)) (pos mod unit_num d); Some (Some p)
  end.

Definition deque_front (deque : option deque_t) : option (option ptr) :=
  match deque with
  | None => Some None
  | Some d =>
      if is_nil d then Some None
      else p ← unit_ptr d (start_index d) (start_cur d); Some (Some p)
  end.

Definition deque_back (deque : option deque_t) : option (option ptr) :=
  match deque with
  | None => Some None
  | Some d =>
      if is_nil d then Some None
      else if negb (end_cur d =? 0)
      then p ← unit_ptr d (end_index d) (u4 (end_cur d - 1)); Some (Some p)
      else p ← unit_ptr d (u4 (end_index d - 1)) (u4 (unit_num d - 1)); Some (Some p)
  end.

Definition load (d : deque_t) (h : heap) (p : ptr) : option bytes :=
  hread (fst p) (snd p) (unit_size d) h.

Definition store (d : deque_t) (h : heap) (p : ptr) (x : bytes) : option heap :=
  src ← rd x 0 (unit_size d); hwrite (fst p) (snd p) src h.

(** Each operation is a body behind the test of its pointers against nil.
    [malloc_m] serves the map, [malloc_b] the block. *)
Definition push_front_body (malloc_m malloc_b : malloc_fun) (d : deque_t) (h : heap)
  (x : bytes) : option dres :=
  if negb (start_cur d =? 0) then
    let d := set_start d (start_index d) (u4 (start_cur d - 1)) in
    p ← unit_ptr d (start_index d) (start_cur d);
    h ← store d h p x;
    Some (0, d, h)
  else
    '(ret, d) ← (if start_index d =? 0 then deque_update_map malloc_m d else Some (0, d));
    if negb (ret =? 0) then Some (-2, d, h)
    else
      let size := u4 (unit_num d * unit_size d) in
      match halloc malloc_b size h with
      | None => Some (-2, d, h)
      | Some (a, h) =>
          let i := u4 (start_index d - 1) in
          if i <? Z.of_nat (length (map d)) then
            let d := set_start (set_map d (<[Z.to_nat i := a]> (map d))) i (u4 (unit_num d - 1)) in
            p ← unit_ptr d (start_index d) (start_cur d);
            h ← store d h p x;
            Some (0, d, h)
          else None
      end.

Definition deque_push_front (malloc_m malloc_b : malloc_fun) (deque : option deque_t) (h : heap)
  (front : option bytes) : option (Z * option deque_t * heap) :=
  match deque, front with
  | Some d, Some x =>
      '(ret, d, h) ← push_front_body malloc_m malloc_b d h x; Some (ret, Some d, h)
  | _, _ => Some (-1, deque, h)
  end.

Definition push_back_body (malloc_m malloc_b : malloc_fun) (d : deque_t) (h : heap)
  (x : bytes) : option dres :=
  p ← unit_ptr d (end_index d) (end_cur d);
  h ← store d h p x;
  let d := set_end d (end_index d) (u4 (end_cur d + 1)) in
  if end_cur d =? unit_num d then
    '(ret, d) ← (if end_index d =? u4 (map_size d - 1)
                 then deque_update_map malloc_m d else Some (0, d));
    if negb (ret =? 0) then Some (-2, set_end d (end_index d) (u4 (end_cur d - 1)), h)
    else
      let size := u4 (unit_num d * unit_size d) in
      match halloc malloc_b size h with
      | None => Some (-2, set_end d (end_index d) (u4 (end_cur d - 1)), h)
      | Some (a, h) =>
          let i := u4 (end_index d + 1) in
          if i <? Z.of_nat (length (map d)) then
            Some (0, set_end (set_map d (<[Z.to_nat i := a]> (map d))) i 0, h)
          else None
      end
  else Some (0, d, h).

Definition deque_push_back (malloc_m malloc_b : malloc_fun) (deque : option deque_t) (h : heap)
  (back : option bytes) : option (Z * option deque_t * heap) :=
  match deque, back with
  | Some d, Some x =>
      '(ret, d, h) ← push_back_body malloc_m malloc_b d h x; Some (ret, Some d, h)
  | _, _ => Some (-1, deque, h)
  end.

(** [want]: the out parameter is not nil.  The bytes copied out come back too. *)
Definition pop_front_body (d : deque_t) (h : heap) (want : bool)
  : option (Z * option bytes * deque_t * heap) :=
  if is_nil d then Some (-1, None, d, h)
  else
    p ← unit_ptr d (start_index d) (start_cur d);
    x ← (if want then x ← load d h p; Some (Some x) else Some None);
    let d := set_start d (start_index d) (u4 (start_cur d + 1)) in
    if start_cur d =? unit_num d then
      h ← hfree (fst p) h;
      let d := set_map d (<[Z.to_nat (start_index d) := 0%nat]> (map d)) in
      Some (0, x, set_start d (u4 (start_index d + 1)) 0, h)
    else Some (0, x, d, h).

Definition deque_pop_front (deque : option deque_t) (h : heap) (want : bool)
  : option (Z * option bytes * option deque_t * heap) :=
  match deque with
  | None => Some (-1, None, None, h)
  | Some d => '(ret, x, d, h) ← pop_front_body d h want; Some (ret, x, Some d, h)
  end.

Definition pop_back_body (d : deque_t) (h : heap) (want : bool)
  : option (Z * option bytes * deque_t * heap) :=
  if is_nil d then Some (-1, None, d, h)
  else if negb (end_cur d =? 0) then
    let d := set_end d (end_index d) (u4 (end_cur d - 1)) in
    p ← unit_ptr d (end_index d) (end_cur d);
    x ← (if want then x ← load d h p; Some (Some x) else Some None);
    Some (0, x, d, h)
  else
    a ← map d !! Z.to_nat (end_index d);
    h ← hfree a h;
    let d := set_map d (<[Z.to_nat (end_index d) := 0%nat]> (map d)) in
    let d := set_end d (u4 (end_index d - 1)) (unit_num d) in
    p ← unit_ptr d (end_index d) (u4 (end_cur d - 1));
    x ← (if want then x ← load d h p; Some (Some x) else Some None);
    Some (0, x, set_end d (end_index d) (u4 (end_cur d - 1)), h).

Definition deque_pop_back (deque : option deque_t) (h : heap) (want : bool)
  : option (Z * option bytes * option deque_t * heap) :=
  match deque with
  | None => Some (-1, None, None, h)
  | Some d => '(ret, x, d, h) ← pop_back_body d h want; Some (ret, x, Some d, h)
  end.

(** ** Representation

    Positions count units from the first unit of the first block.  [win] is the
    window of the map in use, relative to [start_index]. *)

Definition MAP_MAX : Z := 2 ^ 28.

Definition wn (d : deque_t) : Z := end_index d - start_index d.
Definition win (d : deque_t) (i : Z) : option nat := map d !! Z.to_nat (start_index d + i).

Definition elem_at (d : deque_t) (h : heap) (pos : Z) : option bytes :=
  a ← win d (pos / unit_num d);
  hread a (pos mod unit_num d * unit_size d) (unit_size d) h.

(** The geometry, and who owns the heap: the blocks of the window, each once. *)
Record dq_shape (d : deque_t) (h : heap) : Prop := {
  ds_us : 0 < unit_size d;
  ds_un : 0 < unit_num d;
  ds_blk : unit_num d * unit_size d < U4_MOD;
  ds_ms : 2 <= map_size d <= MAP_MAX;
  ds_map : Z.of_nat (length (map d)) = map_size d;
  ds_idx : 0 <= start_index d <= end_index d /\ end_index d < map_size d;
  ds_heap : heap_ok h;
  ds_block : forall i, 0 <= i <= wn d -> exists a b, win d i = Some a /\ h_mem h !! a = Some b /\
               blen b = unit_num d * unit_size d;
  ds_inj : forall i j a, 0 <= i <= wn d -> 0 <= j <= wn d ->
             win d i = Some a -> win d j = Some a -> i = j;
  ds_own : forall a b, h_mem h !! a = Some b -> exists i, 0 <= i <= wn d /\ win d i = Some a;
}.

Record deque_rep (d : deque_t) (h : heap) (q : list bytes) : Prop := {
  dr_shape : dq_shape d h;
  dr_start : 0 <= start_cur d < unit_num d;
  dr_end : 0 <= end_cur d < unit_num d;
  dr_len : wn d * unit_num d + end_cur d - start_cur d = Z.of_nat (length q);
  dr_elem : forall k x, q !! k = Some x -> elem_at d h (start_cur d + Z.of_nat k) = Some x;
}.

Section Shape.
Context (d : deque_t) (h : heap) (Hs : dq_shape d h).

Lemma wn_nonneg : 0 <= wn d < map_size d.
Proof. destruct (ds_idx d h Hs). unfold wn. lia. Qed.

Lemma un_u4 : 1 <= unit_num d < U4_MOD.
Proof. pose proof (ds_us d h Hs). pose proof (ds_un d h Hs). pose proof (ds_blk d h Hs). nia. Qed.

(** Unit [c] of block [i] of the window is position [i * unit_num + c]. *)
Lemma pos_split i c :
  0 <= c < unit_num d -> (i * unit_num d + c) / unit_num d = i /\ (i * unit_num d + c) mod unit_num d = c.
Proof.
  intros Hc. rewrite (Z.add_comm _ c), Z.div_add, Z.mod_add by lia.
  rewrite Z.div_small, Z.mod_small by lia. done.
Qed.

Lemma unit_ptr_ic si i c :
  si = start_index d + i -> 0 <= i <= wn d -> 0 <= c < unit_num d ->
  exists a, win d i = Some a /\ unit_ptr d si c = Some (a, c * unit_size d) /\
    load d h (a, c * unit_size d) = elem_at d h (i * unit_num d + c).
Proof.
  intros -> Hi Hc. pose proof (ds_us d h Hs). pose proof (ds_blk d h Hs).
  destruct (ds_block d h Hs i Hi) as (a & b & Ha & _). exists a. split; [done|].
  destruct (pos_split i c Hc) as [Ed Em]. unfold unit_ptr, load, elem_at.
  rewrite Ed, Em, Ha. unfold win in Ha. rewrite Ha. cbn.
  rewrite u4_id by (unfold is_u4; nia). done.
Qed.

Lemma elem_at_Some pos :
  0 <= pos -> pos / unit_num d <= wn d -> exists x, elem_at d h pos = Some x.
Proof.
  intros H0 Hw. pose proof (ds_un d h Hs) as Hun. pose proof (ds_us d h Hs).
  assert (0 <= pos / unit_num d) by (apply Z.div_pos; lia).
  destruct (ds_block d h Hs (pos / unit_num d) ltac:(lia)) as (a & b & Ha & Hb & Hl).
  unfold elem_at, hread. rewrite Ha. cbn. rewrite Hb. cbn.
  pose proof (Z.mod_pos_bound pos (unit_num d) Hun).
  apply (rd_unit_Some b (unit_size d) (pos mod unit_num d) (unit_num d)); lia.
Qed.

(** Storing a unit changes that position only. *)
Lemma store_spec pos a x :
  0 <= pos -> pos / unit_num d <= wn d -> blen x = unit_size d ->
  win d (pos / unit_num d) = Some a ->
  exists h', store d h (a, pos mod unit_num d * unit_size d) x = Some h' /\
    dq_shape d h' /\ elem_at d h' pos = Some x /\
    forall p, 0 <= p -> p / unit_num d <= wn d -> p <> pos -> elem_at d h' p = elem_at d h p.
Proof.
  intros H0 Hw Hx Ha. pose proof (ds_un d h Hs) as Hun. pose proof (ds_us d h Hs) as Hus.
  assert (0 <= pos / unit_num d) by (apply Z.div_pos; lia).
  pose proof (Z.mod_pos_bound pos (unit_num d) Hun) as Hm.
  destruct (ds_block d h Hs (pos / unit_num d) ltac:(lia)) as (a' & b & Ha' & Hb & Hl).
  assert (a' = a) as -> by congruence.
  destruct (wr_unit_Some b (unit_size d) (pos mod unit_num d) (unit_num d) x) as [b' Hb']; [lia..|].
  unfold store. rewrite (rd_all x) by done. cbn [mbind option_bind fst snd].
  destruct (hwrite_Some a (pos mod unit_num d * unit_size d) x h b b' Hb Hb')
    as (h' & -> & Hmem & Hok). exists h'. split; [done|]. split; [|split].
  - destruct Hs. split; auto.
    + intros i Hi. destruct (ds_block0 i Hi) as (c & y & Hc & Hy & Hyl).
      destruct (decide (c = a)) as [->|Hne].
      * exists a, b'. rewrite Hmem, lookup_insert_eq. pose proof (wr_blen _ _ _ _ Hb').
        split; [done|]. split; [done|]. lia.
      * exists c, y. rewrite Hmem, lookup_insert_ne by done. done.
    + intros c y Hy. rewrite Hmem in Hy.
      apply lookup_insert_Some in Hy as [[<- _]|[_ Hy]]; eauto.
  - unfold elem_at, hread. rewrite Ha. cbn. rewrite Hmem, lookup_insert_eq. cbn.
    by apply (rd_unit_wr_same b).
  - intros p Hp Hpw Hne. unfold elem_at, hread.
    assert (0 <= p / unit_num d) by (apply Z.div_pos; lia).
    destruct (ds_block d h Hs (p / unit_num d) ltac:(lia)) as (c & y & Hc & Hy & _).
    rewrite Hc. cbn. destruct (decide (c = a)) as [->|Hca].
    + rewrite Hmem, lookup_insert_eq. rewrite Hb in *. cbn.
      apply (rd_unit_wr_other b (unit_size d) (pos mod unit_num d) (p mod unit_num d) x);
        [lia|done|done|]. intros E.
      assert (p / unit_num d = pos / unit_num d) as E2 by (eapply (ds_inj d h Hs); eauto; lia).
      apply Hne. rewrite (Z.div_mod p (unit_num d)), (Z.div_mod pos (unit_num d)) by lia. lia.
    + rewrite Hmem, lookup_insert_ne by done. done.
Qed.

Lemma store_ic si i c x :
  si = start_index d + i -> 0 <= i <= wn d -> 0 <= c < unit_num d -> blen x = unit_size d ->
  exists ptr h', unit_ptr d si c = Some ptr /\ store d h ptr x = Some h' /\
    dq_shape d h' /\ elem_at d h' (i * unit_num d + c) = Some x /\
    forall p, 0 <= p -> p / unit_num d <= wn d -> p <> i * unit_num d + c ->
      elem_at d h' p = elem_at d h p.
Proof.
  intros Hsi Hi Hc Hx. destruct (unit_ptr_ic si i c Hsi Hi Hc) as (a & Ha & -> & _).
  destruct (pos_split i c Hc) as [Ed Em]. pose proof (ds_un d h Hs).
  destruct (store_spec (i * unit_num d + c) a x) as (h' & Hst & Hrest); rewrite ?Ed; [nia|lia|done..|].
  rewrite Em in Hst. eauto.
Qed.
End Shape.

Lemma shape_start d h c : dq_shape d h -> dq_shape (set_start d (start_index d) c) h.
Proof. intros []. by split. Qed.
Lemma shape_end d h c : dq_shape d h -> dq_shape (set_end d (end_index d) c) h.
Proof. intros []. by split. Qed.

(** Moving the window to another place, or another array, keeps the shape. *)
Definition same_window (d d' : deque_t) : Prop :=
  unit_size d' = unit_size d /\ unit_num d' = unit_num d /\
  wn d' = wn d /\ forall i, 0 <= i <= wn d -> win d' i = win d i.

Lemma elem_at_window d d' h pos :
  same_window d d' -> 0 < unit_num d -> 0 <= pos -> pos / unit_num d <= wn d ->
  elem_at d' h pos = elem_at d h pos.
Proof.
  intros (Eu & En & Ew & Hw) Hun H0 Hp. unfold elem_at. rewrite Eu, En, Hw; [done|].
  split; [apply Z.div_pos; lia|done].
Qed.

Lemma shape_window d d' h :
  same_window d d' -> dq_shape d h -> 2 <= map_size d' <= MAP_MAX ->
  Z.of_nat (length (map d')) = map_size d' ->
  0 <= start_index d' <= end_index d' /\ end_index d' < map_size d' -> dq_shape d' h.
Proof.
  intros (Eu & En & Ew & Hw) [] ? ? ?. split; auto; rewrite ?Eu, ?En, ?Ew; auto.
  - intros i Hi. rewrite Hw by done. auto.
  - intros i j a Hi Hj. rewrite !Hw by done. eauto.
  - intros a b Hb. destruct (ds_own0 a b Hb) as (i & Hi & Ha). exists i. by rewrite Hw.
Qed.

Lemma map_copy_spec src from num dst pos :
  (from + num <= length src)%nat -> (pos + num <= length dst)%nat ->
  exists m, map_copy src from num dst pos = Some m /\ length m = length dst /\
    forall i, (i < num)%nat -> m !! (pos + i)%nat = src !! (from + i)%nat.
Proof.
  intros H1 H2. unfold map_copy. rewrite decide_True by done. eexists. split; [done|]. split.
  - rewrite !length_app, !length_take, !length_drop. lia.
  - intros i Hi. rewrite lookup_app_r by (rewrite length_take; lia). rewrite length_take.
    replace (pos + i - pos `min` length dst)%nat with i by lia.
    rewrite lookup_app_l by (rewrite length_take, length_drop; lia).
    rewrite lookup_take, decide_True by done. by rewrite lookup_drop.
Qed.

Lemma move_window d h dst pos ms :
  dq_shape d h -> 2 <= ms <= MAP_MAX -> Z.of_nat (length dst) = ms -> 0 <= pos -> pos + wn d < ms ->
  exists m, map_copy (map d) (Z.to_nat (start_index d)) (Z.to_nat (wn d + 1)) dst (Z.to_nat pos) = Some m /\
    let d' := mk_deque m ms pos (start_cur d) (pos + wn d) (end_cur d) (unit_num d) (unit_size d) in
    same_window d d' /\ dq_shape d' h.
Proof.
  intros Hs Hms Hdst Hp Hfit. pose proof (wn_nonneg d h Hs) as Hwn.
  destruct (ds_idx d h Hs) as [Hi1 Hi2]. pose proof (ds_map d h Hs) as Hlen.
  destruct (map_copy_spec (map d) (Z.to_nat (start_index d)) (Z.to_nat (wn d + 1)) dst (Z.to_nat pos))
    as (m & -> & Hml & Hm); [unfold wn in *; lia..|]. exists m. split; [done|]. intros d'.
  assert (same_window d d') as Hsw.
  { subst d'. repeat split; [unfold wn; cbn; unfold wn; lia|]. intros i Hi. unfold win. cbn.
    replace (Z.to_nat (pos + i)) with (Z.to_nat pos + Z.to_nat i)%nat by lia.
    rewrite Hm by lia. f_equal. lia. }
  split; [done|]. eapply shape_window; [exact Hsw|done|done|cbn; lia|cbn; lia].
Qed.

(** [deque_update_map] leaves free map entries on both sides of the window; the
    map doubles only when at least half of it is in use. *)
Lemma update_map_spec malloc d h :
  dq_shape d h -> map_size d <= MAP_MAX / 2 ->
  (deque_update_map malloc d = Some (-2, d) /\ exists n, malloc n = None) \/
  exists d', deque_update_map malloc d = Some (0, d') /\ same_window d d' /\ dq_shape d' h /\
    start_cur d' = start_cur d /\ end_cur d' = end_cur d /\
    1 <= start_index d' /\ end_index d' + 1 < map_size d' /\
    map_size d' <= map_size d `max` (4 * (wn d + 1)).
Proof.
  intros Hs Hmax. pose proof (wn_nonneg d h Hs) as Hwn. pose proof (ds_ms d h Hs) as Hms.
  pose proof (ds_map d h Hs) as Hlen. unfold MAP_MAX in *. change (2 ^ 28 / 2) with (2 ^ 27) in Hmax.
  unfold deque_update_map. fold (wn d).
  assert (forall z, 0 <= z < 2 ^ 32 -> u4 z = z) as Hu by (intros; apply u4_id; unfold is_u4, U4_MOD; lia).
  rewrite (Hu (wn d + 1)) by lia. rewrite !(Z.shiftl_mul_pow2 _ 1) by lia. change (2 ^ 1) with 2.
  rewrite (Hu ((wn d + 1) * 2)) by lia. destruct ((wn d + 1) * 2 <? map_size d) eqn:E; to_prop.
  - right. rewrite (Hu (map_size d - (wn d + 1))), Z.shiftr_div_pow2 by lia. change (2 ^ 1) with 2.
    pose proof (Z.div_mod (map_size d - (wn d + 1)) 2 ltac:(lia)).
    pose proof (Z.mod_pos_bound (map_size d - (wn d + 1)) 2 ltac:(lia)).
    set (pos := (map_size d - (wn d + 1)) / 2) in *. clearbody pos.
    rewrite (Hu (pos + (wn d + 1) - 1)) by lia.
    destruct (move_window d h (map d) pos (map_size d)) as (m & -> & Hsw & Hs'); [done|unfold MAP_MAX; lia|lia..|].
    cbn. replace (pos + (wn d + 1) - 1) with (pos + wn d) by lia.
    eexists. split; [done|]. split; [done|]. split; [done|]. cbn. lia.
  - unfold new_map, sizeof_block_t.
    rewrite (Hu (map_size d * 2)), (Hu (map_size d * 2 * 8)) by lia.
    destruct (malloc _) as [blk|] eqn:Em; [right|left; eauto].
    rewrite Z.div_mul, Z.shiftr_div_pow2 by lia. change (2 ^ 1) with 2.
    pose proof (Z.div_mod (wn d + 1) 2 ltac:(lia)). pose proof (Z.mod_pos_bound (wn d + 1) 2 ltac:(lia)).
    set (half := (wn d + 1) / 2) in *. clearbody half.
    rewrite (Hu (map_size d - half)), (Hu (map_size d - half + (wn d + 1) - 1)) by lia.
    destruct (move_window d h (replicate (Z.to_nat (map_size d * 2)) 0%nat) (map_size d - half) (map_size d * 2))
      as (m & -> & Hsw & Hs'); [done|unfold MAP_MAX; lia|rewrite length_replicate; lia|lia..|].
    cbn. replace (map_size d - half + (wn d + 1) - 1) with (map_size d - half + wn d) by lia.
    eexists. split; [done|]. split; [done|]. split; [done|]. cbn. lia.
Qed.

(** A new block at one end of the window; [s] is 1 when it is the front. *)
Lemma shape_extend d d' h h' s a b :
  dq_shape d h -> (s = 0 \/ s = 1) -> unit_size d' = unit_size d -> unit_num d' = unit_num d ->
  wn d' = wn d + 1 -> (forall i, 0 <= i <= wn d -> win d' (i + s) = win d i) ->
  win d' (if s =? 0 then wn d + 1 else 0) = Some a ->
  2 <= map_size d' <= MAP_MAX -> Z.of_nat (length (map d')) = map_size d' ->
  0 <= start_index d' <= end_index d' /\ end_index d' < map_size d' ->
  h_mem h !! a = None -> h_mem h' = <[a := b]> (h_mem h) -> heap_ok h' ->
  blen b = unit_num d * unit_size d ->
  dq_shape d' h' /\
  forall p, 0 <= p -> p / unit_num d <= wn d -> elem_at d' h' (p + s * unit_num d) = elem_at d h p.
Proof.
  intros Hs Hse Eu En Ew Hw Hnew Hms Hlen Hidx Hfresh Hmem Hok Hb.
  pose proof (wn_nonneg d h Hs) as Hwn.
  assert (forall j, 0 <= j <= wn d' -> (j = (if s =? 0 then wn d + 1 else 0) /\ win d' j = Some a) \/
            (0 <= j - s <= wn d /\ win d' j = win d (j - s))) as Hcase.
  { intros j Hj. destruct (decide (j = (if s =? 0 then wn d + 1 else 0))) as [->|Hne]; [by left|right].
    destruct Hse as [-> | ->]; cbn in Hne; (split; [lia|]); rewrite <- Hw by lia; f_equal; lia. }
  assert (forall i c, 0 <= i <= wn d -> win d i = Some c -> c <> a) as Hna.
  { intros i c Hi Hc ->. destruct (ds_block d h Hs i Hi) as (c & y & Hc' & Hy & _). congruence. }
  split.
  - destruct Hs. split; auto; rewrite ?Eu, ?En; auto.
    + intros j Hj. destruct (Hcase j Hj) as [[-> Ha]|[Hr Hj']].
      * exists a, b. rewrite Hmem, lookup_insert_eq. done.
      * destruct (ds_block0 _ Hr) as (c & y & Hc & Hy & Hyl). exists c, y.
        rewrite Hj', Hmem, lookup_insert_ne by (by apply not_eq_sym, (Hna (j - s))). done.
    + intros i j c Hi Hj Hci Hcj.
      destruct (Hcase i Hi) as [[-> Ha]|[Hr Hi']], (Hcase j Hj) as [[-> Hb']|[Hr' Hj']]; [done|..].
      * exfalso. apply (Hna (j - s) c); [done|congruence..].
      * exfalso. apply (Hna (i - s) c); [done|congruence..].
      * assert (i - s = j - s) by (apply (ds_inj0 _ _ c); [done|done|congruence..]). lia.
    + intros c y Hy. rewrite Hmem in Hy. apply lookup_insert_Some in Hy as [[<- _]|[_ Hy]].
      * eexists. split; [|done]. rewrite Ew. destruct (s =? 0); lia.
      * destruct (ds_own0 c y Hy) as (i & Hi & Hc). exists (i + s). rewrite Hw by done. split; [lia|done].
  - intros p Hp Hpw. pose proof (ds_un d h Hs). unfold elem_at. rewrite En, Eu.
    rewrite Z.div_add, Z.mod_add by lia.
    assert (0 <= p / unit_num d) by (apply Z.div_pos; lia). rewrite Hw by lia.
    destruct (win d (p / unit_num d)) as [c|] eqn:Ec; [|done]. cbn. unfold hread.
    rewrite Hmem, lookup_insert_ne; [done|]. apply not_eq_sym, (Hna (p / unit_num d)); [lia|done].
Qed.

(** The block at one end is released; [s] is 1 when it is the front. *)
Lemma shape_shrink d d' h h' s a :
  dq_shape d h -> (s = 0 \/ s = 1) -> unit_size d' = unit_size d -> unit_num d' = unit_num d ->
  wn d' = wn d - 1 -> (forall i, 0 <= i < wn d -> win d' i = win d (i + s)) ->
  win d (if s =? 0 then wn d else 0) = Some a ->
  2 <= map_size d' <= MAP_MAX -> Z.of_nat (length (map d')) = map_size d' ->
  0 <= start_index d' <= end_index d' /\ end_index d' < map_size d' ->
  hfree a h = Some h' ->
  dq_shape d' h' /\
  forall p, 0 <= p -> p / unit_num d < wn d -> elem_at d' h' p = elem_at d h (p + s * unit_num d).
Proof.
  intros Hs Hse Eu En Ew Hw Hold Hms Hlen Hidx Hfree.
  pose proof (wn_nonneg d h Hs) as Hwn. apply hfree_inv in Hfree as (_ & Hmem & Hok).
  assert (forall i c, 0 <= i < wn d -> win d' i = Some c -> c <> a) as Hna.
  { intros i c Hi Hc ->. rewrite Hw in Hc by done.
    assert (i + s = if s =? 0 then wn d else 0)
      by (eapply (ds_inj d h Hs); eauto; destruct Hse as [-> | ->]; cbn; lia).
    destruct Hse as [-> | ->]; cbn in *; lia. }
  split.
  - destruct Hs. split; auto; rewrite ?Eu, ?En, ?Ew; auto.
    + intros i Hi. destruct (ds_block0 (i + s)) as (c & y & Hc & Hy & Hyl); [lia|].
      assert (win d' i = Some c) as Hc' by (rewrite Hw by lia; done).
      exists c, y. rewrite Hmem, lookup_delete_ne by (apply not_eq_sym, (Hna i); [lia|done]). done.
    + intros i j c Hi Hj. rewrite !Hw by lia. intros Hc1 Hc2.
      assert (i + s = j + s) by (eapply ds_inj0; eauto; lia). lia.
    + intros c y Hy. rewrite Hmem in Hy. apply lookup_delete_Some in Hy as [Hne Hy].
      destruct (ds_own0 c y Hy) as (i & Hi & Hc). exists (i - s).
      assert (i <> if s =? 0 then wn d else 0) by (intros ->; congruence).
      assert (0 <= i - s <= wn d - 1) by (destruct Hse as [-> | ->]; cbn in *; lia).
      rewrite Hw by lia. split; [done|]. rewrite <- Hc. f_equal. lia.
  - intros p Hp Hpw. pose proof (ds_un d h Hs). unfold elem_at. rewrite En, Eu.
    rewrite Z.div_add, Z.mod_add by lia.
    assert (0 <= p / unit_num d) by (apply Z.div_pos; lia). rewrite <- Hw by lia.
    destruct (win d' (p / unit_num d)) as [c|] eqn:Ec; [|done]. cbn. unfold hread.
    rewrite Hmem, lookup_delete_ne; [done|]. apply not_eq_sym, (Hna (p / unit_num d)); [lia|done].
Qed.

(** ** The operations refine a list *)

Lemma is_nil_spec d h q : deque_rep d h q -> is_nil d = bool_decide (q = []).
Proof.
  intros Hr. pose proof (dr_start _ _ _ Hr). pose proof (dr_end _ _ _ Hr).
  pose proof (dr_len _ _ _ Hr) as Hl. pose proof (wn_nonneg d h (dr_shape _ _ _ Hr)).
  unfold is_nil. apply eq_true_iff_eq. rewrite bool_decide_eq_true, andb_true_iff, !Z.eqb_eq.
  assert (wn d = 0 \/ 1 <= wn d) as [Hw|Hw] by lia; unfold wn in *.
  - rewrite Hw in Hl. destruct q; cbn [length] in Hl; split; intros; simplify_eq; lia || done.
  - assert (unit_num d <= (end_index d - start_index d) * unit_num d) by nia.
    split; [lia|]. intros ->. cbn [length] in Hl. lia.
Qed.

(** The bound on the map that an operation keeps, see [deque_refines_list]. *)
Definition grows (d d' : deque_t) : Prop :=
  (unit_size d' = unit_size d /\ unit_num d' = unit_num d) /\ wn d' <= wn d + 1 /\
  map_size d' <= map_size d `max` (4 * (wn d + 1)).

Lemma grows_refl d d' :
  unit_size d' = unit_size d /\ unit_num d' = unit_num d -> wn d' <= wn d + 1 -> map_size d' = map_size d -> grows d d'.
Proof. intros. split; [done|]. split; [done|]. lia. Qed.

(** The elements stay where they are while [start] or [end] moves. *)
Lemma rep_snoc d h q x :
  dq_shape d h -> 0 <= start_cur d < unit_num d -> 0 <= end_cur d < unit_num d ->
  wn d * unit_num d + end_cur d - start_cur d = Z.of_nat (length q) + 1 ->
  (forall k y, q !! k = Some y -> elem_at d h (start_cur d + Z.of_nat k) = Some y) ->
  elem_at d h (start_cur d + Z.of_nat (length q)) = Some x -> deque_rep d h (q ++ [x]).
Proof.
  intros Hs H1 H2 Hl He Hx. split; auto.
  - rewrite length_app. cbn. lia.
  - intros k y [Hk|[Hk Hy]]%lookup_app_Some; [by apply He|].
    apply list_lookup_singleton_Some in Hy as [Hk0 ->].
    by replace k with (length q) by lia.
Qed.

Lemma rep_cons d h q x :
  dq_shape d h -> 0 <= start_cur d < unit_num d -> 0 <= end_cur d < unit_num d ->
  wn d * unit_num d + end_cur d - start_cur d = Z.of_nat (length q) + 1 ->
  elem_at d h (start_cur d) = Some x ->
  (forall k y, q !! k = Some y -> elem_at d h (start_cur d + 1 + Z.of_nat k) = Some y) ->
  deque_rep d h (x :: q).
Proof.
  intros Hs H1 H2 Hl Hx He. split; auto.
  - cbn. lia.
  - intros [|k] y; cbn [lookup list_lookup].
    + intros [= <-]. by rewrite Z.add_0_r.
    + intros Hk. rewrite <- (He k y Hk). f_equal. lia.
Qed.

(** Element [k] of the queue is in a block of the window. *)
Lemma rep_pos d h q k :
  deque_rep d h q -> (k < length q)%nat ->
  0 <= start_cur d + Z.of_nat k /\ (start_cur d + Z.of_nat k) / unit_num d <= wn d.
Proof.
  intros Hr Hk. pose proof (dr_start _ _ _ Hr). pose proof (dr_end _ _ _ Hr).
  pose proof (dr_len _ _ _ Hr) as Hl. split; [lia|].
  apply Z.lt_succ_r, Z.div_lt_upper_bound; [lia|]. nia.
Qed.

Lemma same_window_refl d : same_window d d.
Proof. by repeat split. Qed.

Lemma rep_window d d' h q :
  deque_rep d h q -> same_window d d' -> dq_shape d' h -> start_cur d' = start_cur d ->
  end_cur d' = end_cur d -> deque_rep d' h q.
Proof.
  intros Hr Hsw Hs' E1 E2. pose proof Hsw as (Eu & En & Ew & _).
  split; rewrite ?E1, ?E2, ?En, ?Ew; try apply Hr; [done|]. intros k y Hk.
  rewrite <- (dr_elem d h q Hr k y Hk).
  destruct (rep_pos d h q k) as [Hp0 Hp1]; [done|by eapply lookup_lt_Some|].
  apply elem_at_window; [done|apply Hr|done..].
Qed.

(** Room at one end: a free map entry there, by moving the window when there is none. *)
Lemma room malloc_m d h (full : bool) (ok : deque_t -> Prop) :
  dq_shape d h -> map_size d <= MAP_MAX / 2 -> (full = false -> ok d) ->
  (forall d', 1 <= start_index d' -> end_index d' + 1 < map_size d' -> ok d') ->
  let r := if full then deque_update_map malloc_m d else Some (0, d) in
  (r = Some (-2, d) /\ exists n, malloc_m n = None) \/
  exists d', r = Some (0, d') /\ same_window d d' /\ dq_shape d' h /\
    start_cur d' = start_cur d /\ end_cur d' = end_cur d /\
    map_size d' <= map_size d `max` (4 * (wn d + 1)) /\ ok d'.
Proof.
  intros Hs Hms Hd Hok r. unfold r. destruct full.
  - destruct (update_map_spec malloc_m d h Hs Hms)
      as [?|(d' & -> & Hsw & Hs' & E1 & E2 & Hf & Hb & Hg)]; [by left|right].
    exists d'. auto 10.
  - right. exists d. split; [done|]. split; [apply same_window_refl|]. split; [done|].
    split; [done|]. split; [done|]. split; [lia|]. auto.
Qed.

Lemma halloc_block malloc_b d h :
  dq_shape d h -> malloc_ok malloc_b ->
  (halloc malloc_b (u4 (unit_num d * unit_size d)) h = None /\ exists n, malloc_b n = None) \/
  exists a h' b, halloc malloc_b (u4 (unit_num d * unit_size d)) h = Some (a, h') /\
    h_mem h !! a = None /\ h_mem h' = <[a := b]> (h_mem h) /\ heap_ok h' /\
    blen b = unit_num d * unit_size d.
Proof.
  intros Hs Hm. pose proof (ds_us d h Hs). pose proof (ds_un d h Hs). pose proof (ds_blk d h Hs).
  rewrite u4_id by (unfold is_u4; nia).
  destruct (halloc malloc_b (unit_num d * unit_size d) h) as [[a h']|] eqn:E.
  - right. destruct (halloc_inv _ _ _ _ _ (ds_heap d h Hs) E) as (b & Hb & _ & Hf & _ & Hmem & Hok).
    exists a, h', b. repeat (split; [done|]). apply Hm; [nia|done].
  - left. split; [done|]. unfold halloc in E. exists (unit_num d * unit_size d). by destruct (malloc_b _).
Qed.

Lemma grow_front d h a h' b :
  dq_shape d h -> 1 <= start_index d -> h_mem h !! a = None -> h_mem h' = <[a := b]> (h_mem h) ->
  heap_ok h' -> blen b = unit_num d * unit_size d ->
  let i := start_index d - 1 in
  let d' := set_start (set_map d (<[Z.to_nat i := a]> (map d))) i (unit_num d - 1) in
  dq_shape d' h' /\ wn d' = wn d + 1 /\
  forall p, 0 <= p -> p / unit_num d <= wn d -> elem_at d' h' (p + unit_num d) = elem_at d h p.
Proof.
  intros Hs H1 Hf Hmem Hok Hb i d'. destruct (ds_idx d h Hs) as [Hi1 Hi2].
  pose proof (ds_map d h Hs) as Hlen. pose proof (ds_ms d h Hs) as Hms.
  assert (wn d' = wn d + 1) as Ew by (unfold wn, d', i; cbn; lia).
  destruct (shape_extend d d' h h' 1 a b) as [Hs' He]; auto.
  - intros j Hj. unfold win, d', i; cbn. rewrite list_lookup_insert_ne by lia. f_equal. lia.
  - unfold win, d', i; cbn. rewrite Z.add_0_r, list_lookup_insert_eq by lia. done.
  - cbn. rewrite length_insert. done.
  - cbn. unfold i. lia.
  - split; [done|]. split; [done|]. intros p Hp Hw. rewrite <- (He p Hp Hw). f_equal. lia.
Qed.

Lemma grow_back d h a h' b :
  dq_shape d h -> end_index d + 1 < map_size d -> h_mem h !! a = None ->
  h_mem h' = <[a := b]> (h_mem h) -> heap_ok h' -> blen b = unit_num d * unit_size d ->
  let i := end_index d + 1 in
  let d' := set_end (set_map d (<[Z.to_nat i := a]> (map d))) i 0 in
  dq_shape d' h' /\ wn d' = wn d + 1 /\
  forall p, 0 <= p -> p / unit_num d <= wn d -> elem_at d' h' p = elem_at d h p.
Proof.
  intros Hs H1 Hf Hmem Hok Hb i d'. destruct (ds_idx d h Hs) as [Hi1 Hi2].
  pose proof (ds_map d h Hs) as Hlen. pose proof (ds_ms d h Hs) as Hms.
  assert (wn d' = wn d + 1) as Ew by (unfold wn, d', i; cbn; lia).
  destruct (shape_extend d d' h h' 0 a b) as [Hs' He]; auto.
  - intros j Hj. unfold win, d', i, wn in *; cbn. rewrite list_lookup_insert_ne by lia. f_equal. lia.
  - unfold win, d', i, wn in *; cbn. replace (start_index d + (end_index d - start_index d + 1)) with (end_index d + 1) by lia.
    by rewrite list_lookup_insert_eq by lia.
  - cbn. rewrite length_insert. done.
  - cbn. unfold i. lia.
  - split; [done|]. split; [done|]. intros p Hp Hw. rewrite <- (He p Hp Hw). f_equal. lia.
Qed.

(** The element copied out, when the caller wants it. *)
Lemma load_want d h (want : bool) a c i x :
  load d h (a, c) = elem_at d h i -> elem_at d h i = Some x ->
  (if want then x ← load d h (a, c); Some (Some x) else Some None) =
  Some (if want then Some x else None).
Proof. intros -> ->. by destruct want. Qed.

Section Ops.
Context (malloc_m malloc_b : malloc_fun) (Hmb : malloc_ok malloc_b).
Context (d : deque_t) (h : heap) (q : list bytes) (Hr : deque_rep d h q).
Let Hs : dq_shape d h := dr_shape d h q Hr.

Definition alloc_fails : Prop := (exists n, malloc_m n = None) \/ (exists n, malloc_b n = None).

(** What a push must do: the new queue, or -2 and the old one when memory ran out. *)
Definition push_post (q' : list bytes) (o : option dres) : Prop :=
  exists ret d' h', o = Some (ret, d', h') /\ grows d d' /\
    ((ret = 0 /\ deque_rep d' h' q') \/ (ret = -2 /\ alloc_fails /\ deque_rep d' h' q)).

Lemma push_front_spec x :
  map_size d <= MAP_MAX / 2 -> blen x = unit_size d ->
  push_post (x :: q) (push_front_body malloc_m malloc_b d h x).
Proof.
  intros Hms Hx. pose proof (un_u4 d h Hs) as Hun. destruct (ds_idx d h Hs) as [Hi1 Hi2].
  pose proof (dr_start _ _ _ Hr) as Hsc. pose proof (dr_end _ _ _ Hr) as Hec.
  pose proof (dr_len _ _ _ Hr) as Hl. pose proof (wn_nonneg d h Hs). unfold push_post, push_front_body.
  destruct (start_cur d =? 0) eqn:E; to_prop; cbn [negb].
  - destruct (room malloc_m d h (start_index d =? 0) (fun d' => 1 <= start_index d'))
      as [[-> Hn]|(d1 & -> & Hsw & Hs1 & E1 & E2 & Hg & Hok)]; [done|done|intros; to_prop; lia|auto|..].
    { cbn. exists (-2), d, h. split; [done|]. split; [apply grows_refl; lia|]. right. split; [done|]. split; [by left|done]. }
    cbn [mbind option_bind]. cbn [Z.eqb negb]. pose proof Hsw as (Eu & En & Ew & _).
    pose proof (ds_idx d1 h Hs1) as Hi. pose proof (ds_map d1 h Hs1) as Hlen1. pose proof (ds_ms d1 h Hs1) as Hms1.
    pose proof (rep_window d d1 h q Hr Hsw Hs1 E1 E2) as Hr1.
    destruct (halloc_block malloc_b d1 h Hs1 Hmb) as [[-> Hn]|(a & h1 & b & -> & Hf & Hmem & Hhok & Hb)].
    { exists (-2), d1, h. split; [done|]. split; [split; [done|lia]|]. right. split; [done|]. split; [by right|done]. }
    rewrite !u4_id by (unfold is_u4, U4_MOD, MAP_MAX in *; lia).
    rewrite (proj2 (Z.ltb_lt _ _)) by lia.
    destruct (grow_front d1 h a h1 b Hs1 Hok Hf Hmem Hhok Hb) as (Hs2 & Ew2 & He2).
    set (d2 := set_start _ _ _) in *.
    assert (unit_num d2 = unit_num d /\ unit_size d2 = unit_size d /\ start_cur d2 = unit_num d - 1 /\
            end_cur d2 = end_cur d /\ map_size d2 = map_size d1) as (Fn & Fu & Fs & Fe & Fm)
      by (unfold d2; cbn; by rewrite ?En, ?Eu, ?E2).
    clearbody d2. rewrite En in He2.
    destruct (store_ic d2 h1 Hs2 (start_index d2) 0 (start_cur d2) x)
      as (p & h2 & -> & Hst & Hs3 & Hex & Heo); [lia..|].
    cbn [mbind option_bind]. rewrite Hst. cbn [mbind option_bind].
    exists 0, d2, h2. split; [done|]. split; [split; [done|split; [lia|lia]]|]. left. split; [done|].
    apply rep_cons; [done|lia|lia|rewrite Fn, Fe, Fs; nia|done|]. intros k y Hk.
    destruct (rep_pos d1 h q k Hr1) as [Hp0 Hp1]; [by eapply lookup_lt_Some|].
    rewrite <- (dr_elem d1 h q Hr1 k y Hk), <- He2 by (rewrite <- ?En; done).
    replace (start_cur d2 + 1 + Z.of_nat k) with (start_cur d1 + Z.of_nat k + unit_num d) by lia.
    apply Heo; [lia| |lia]. rewrite En in Hp1.
    pose proof (Z.div_add (start_cur d1 + Z.of_nat k) 1 (unit_num d) ltac:(lia)) as Hd.
    rewrite Z.mul_1_l in Hd. rewrite Fn, Hd. lia.
  - rewrite (u4_id (start_cur d - 1)) by (unfold is_u4; lia).
    pose proof (shape_start d h (start_cur d - 1) Hs) as Hs1.
    set (d1 := set_start _ _ _) in *.
    assert (wn d1 = wn d) as Ew by done. assert (start_cur d1 = start_cur d - 1) as Fs by done.
    destruct (store_ic d1 h Hs1 (start_index d1) 0 (start_cur d1) x)
      as (p & h2 & -> & Hst & Hs3 & Hex & Heo); [lia|lia|cbn; lia|done|].
    cbn [mbind option_bind]. rewrite Hst. cbn [mbind option_bind].
    exists 0, d1, h2. split; [done|]. split; [by apply grows_refl; [|lia|]|].
    left. split; [done|].
    apply rep_cons; [done|cbn; lia|done|rewrite Ew; cbn; lia|done|]. intros k y Hk.
    destruct (rep_pos d h q k Hr) as [Hp0 Hp1]; [by eapply lookup_lt_Some|].
    rewrite <- (dr_elem d h q Hr k y Hk).
    replace (start_cur d1 + 1 + Z.of_nat k) with (start_cur d + Z.of_nat k) by lia.
    apply Heo; [lia|done|lia].
Qed.

Lemma push_back_spec x :
  map_size d <= MAP_MAX / 2 -> blen x = unit_size d ->
  push_post (q ++ [x]) (push_back_body malloc_m malloc_b d h x).
Proof.
  intros Hms Hx. pose proof (un_u4 d h Hs) as Hun. destruct (ds_idx d h Hs) as [Hi1 Hi2].
  pose proof (dr_start _ _ _ Hr) as Hsc. pose proof (dr_end _ _ _ Hr) as Hec.
  pose proof (dr_len _ _ _ Hr) as Hl. pose proof (wn_nonneg d h Hs). pose proof (ds_ms d h Hs).
  unfold push_post, push_back_body.
  destruct (store_ic d h Hs (end_index d) (wn d) (end_cur d) x)
    as (p & h1 & -> & Hst & Hs1 & Hex & Heo); [unfold wn; lia|lia..|].
  cbn [mbind option_bind]. rewrite Hst. cbn [mbind option_bind].
  rewrite (u4_id (end_cur d + 1)) by (unfold is_u4; lia).
  assert (forall k y, q !! k = Some y -> elem_at d h1 (start_cur d + Z.of_nat k) = Some y) as Hq.
  { intros k y Hk. pose proof (lookup_lt_Some _ _ _ Hk). destruct (rep_pos d h q k Hr) as [Hp0 Hp1]; [done|].
    rewrite Heo; [by apply Hr|lia..]. }
  assert (deque_rep d h1 q) as Hr1 by (by split).
  replace (wn d * unit_num d + end_cur d) with (start_cur d + Z.of_nat (length q)) in Hex by lia.
  pose proof (shape_end d h1 (end_cur d + 1) Hs1) as Hs2.
  set (d1 := set_end _ _ _) in *. assert (wn d1 = wn d) as Ew1 by done.
  destruct (end_cur d1 =? unit_num d1) eqn:E; to_prop.
  2:{ exists 0, d1, h1. split; [done|]. split; [by apply grows_refl; [|lia|]|]. left. split; [done|].
      apply rep_snoc; [done|done| |rewrite Ew1; cbn; lia|done|done]. cbn in *. lia. }
  destruct (room malloc_m d1 h1 (end_index d1 =? u4 (map_size d1 - 1)) (fun d' => end_index d' + 1 < map_size d'))
    as [[-> Hn]|(d2 & -> & Hsw & Hs3 & E1 & E2 & Hg & Hok)]; [done|done| |auto|..].
  { intros Hne. to_prop. change (map_size d1) with (map_size d) in *. change (end_index d1) with (end_index d) in *.
    rewrite u4_id in Hne by (unfold is_u4, U4_MOD, MAP_MAX in *; lia). lia. }
  { cbn [mbind option_bind]. cbn [Z.eqb negb]. exists (-2), d, h1.
    split. { cbn. rewrite Z.add_simpl_r, u4_id by (unfold is_u4; lia). by destruct d. }
    split; [by apply grows_refl; [|lia|]|]. right. split; [done|]. split; [by left|done]. }
  cbn [mbind option_bind]. cbn [Z.eqb negb]. pose proof Hsw as (Eu & En & Ew & _).
  change (unit_num d1) with (unit_num d) in *. change (unit_size d1) with (unit_size d) in *.
  change (map_size d1) with (map_size d) in *. change (start_cur d1) with (start_cur d) in *.
  pose proof (ds_map d2 h1 Hs3) as Hlen2. pose proof (ds_ms d2 h1 Hs3) as Hms2.
  assert (forall p, 0 <= p -> p / unit_num d <= wn d -> elem_at d2 h1 p = elem_at d h1 p) as Hmv.
  { intros p' Hp' Hw. change (elem_at d h1 p') with (elem_at d1 h1 p').
    apply elem_at_window; [done|apply Hs2|done|done]. }
  destruct (halloc_block malloc_b d2 h1 Hs3 Hmb) as [[-> Hn]|(a & h2 & b & -> & Hf & Hmem & Hhok & Hb)].
  { exists (-2), (set_end d2 (end_index d2) (u4 (end_cur d2 - 1))), h1. split; [done|].
    split; [by split; [|unfold wn in *; cbn; lia]|]. right. split; [done|]. split; [by right|].
    apply (rep_window d); [done| |by apply shape_end|done|].
    - exact Hsw.
    - cbn. rewrite E2. cbn. rewrite Z.add_simpl_r. apply u4_id. unfold is_u4. lia. }
  destruct (ds_idx d2 h1 Hs3) as [Hj1 Hj2].
  rewrite u4_id by (unfold is_u4, U4_MOD, MAP_MAX in *; lia). rewrite (proj2 (Z.ltb_lt _ _)) by lia.
  destruct (grow_back d2 h1 a h2 b Hs3 Hok Hf Hmem Hhok Hb) as (Hs4 & Ew4 & He4).
  set (d3 := set_end (set_map d2 _) _ _) in *.
  assert (unit_num d3 = unit_num d /\ unit_size d3 = unit_size d /\ start_cur d3 = start_cur d /\
          end_cur d3 = 0 /\ map_size d3 = map_size d2) as (Fn & Fu & Fs & Fe & Fm)
    by (unfold d3; cbn; by rewrite ?En, ?Eu, ?E1). clearbody d3.
  exists 0, d3, h2. split; [done|]. split; [split; [done|lia]|]. left. split; [done|].
  rewrite En, Ew, Ew1 in He4. change (end_cur d1) with (end_cur d + 1) in E.
  assert (forall k, (k <= length q)%nat -> elem_at d3 h2 (start_cur d3 + Z.of_nat k) =
            elem_at d h1 (start_cur d + Z.of_nat k)) as Hall.
  { intros k Hk. assert ((start_cur d + Z.of_nat k) / unit_num d <= wn d)
      by (apply Z.lt_succ_r, Z.div_lt_upper_bound; nia).
    rewrite Fs, He4, Hmv by lia. done. }
  apply rep_snoc; [done|lia|lia|rewrite Fn, Fe, Fs, Ew4; nia| |by rewrite Hall].
  intros k y Hk. pose proof (lookup_lt_Some _ _ _ Hk). rewrite Hall by lia. by apply Hq.
Qed.

Lemma pop_front_nil want : q = [] -> pop_front_body d h want = Some (-1, None, d, h).
Proof. intros Hq. unfold pop_front_body. rewrite (is_nil_spec d h q Hr). by rewrite bool_decide_true. Qed.

Lemma pop_back_nil want : q = [] -> pop_back_body d h want = Some (-1, None, d, h).
Proof. intros Hq. unfold pop_back_body. rewrite (is_nil_spec d h q Hr). by rewrite bool_decide_true. Qed.

Lemma pop_front_spec want x q' :
  q = x :: q' ->
  exists d' h', pop_front_body d h want = Some (0, if want then Some x else None, d', h') /\
    grows d d' /\ deque_rep d' h' q'.
Proof.
  intros Hq. pose proof (un_u4 d h Hs) as Hun. destruct (ds_idx d h Hs) as [Hi1 Hi2].
  pose proof (dr_start _ _ _ Hr) as Hsc. pose proof (dr_end _ _ _ Hr) as Hec.
  pose proof (dr_len _ _ _ Hr) as Hl. pose proof (wn_nonneg d h Hs). pose proof (ds_ms d h Hs) as Hms.
  pose proof (dr_elem d h q Hr 0 x) as Hx. rewrite Hq in Hx. specialize (Hx eq_refl). rewrite Z.add_0_r in Hx.
  assert (forall k y, q' !! k = Some y -> elem_at d h (start_cur d + 1 + Z.of_nat k) = Some y) as Hq'.
  { intros k y Hk. rewrite <- (dr_elem d h q Hr (S k) y) by (by rewrite Hq). f_equal. lia. }
  rewrite Hq in Hl. cbn [length] in Hl. unfold pop_front_body.
  rewrite (is_nil_spec d h q Hr), bool_decide_false by (by rewrite Hq).
  destruct (unit_ptr_ic d h Hs (start_index d) 0 (start_cur d)) as (a & Ha & -> & Hld); [lia..|].
  cbn [mbind option_bind]. rewrite (load_want d h want _ _ _ x Hld) by done. cbn [mbind option_bind].
  rewrite (u4_id (start_cur d + 1)) by (unfold is_u4; lia). cbn [start_cur set_start start_index unit_num].
  destruct (start_cur d + 1 =? unit_num d) eqn:E; to_prop.
  - destruct (ds_block d h Hs 0) as (a' & b & Ha' & Hb & _); [lia|]. assert (a' = a) as -> by congruence.
    destruct (hfree_Some a h b Hb) as [h' Hfr]. cbn [fst]. rewrite Hfr. cbn [mbind option_bind].
    assert (1 <= wn d) by nia. pose proof (ds_map d h Hs) as Hlen.
    rewrite u4_id by (unfold is_u4, U4_MOD, MAP_MAX in *; cbn; lia).
    destruct (shape_shrink d (set_start (set_map (set_start d (start_index d) (start_cur d + 1))
      (<[Z.to_nat (start_index d) := 0%nat]> (map d))) (start_index d + 1) 0) h h' 1 a) as [Hs' He']; auto.
    + unfold wn; cbn; lia.
    + intros i Hi. unfold win; cbn. rewrite list_lookup_insert_ne by lia. f_equal. lia.
    + cbn. by rewrite length_insert.
    + cbn. unfold wn in *. lia.
    + eexists _, h'. split; [done|]. split; [by apply grows_refl; [|unfold wn; cbn; lia|]|].
      split; cbn; [done|lia|lia|unfold wn in *; cbn; lia|]. intros k y Hk.
      pose proof (lookup_lt_Some _ _ _ Hk). rewrite He'; [|lia|].
      * rewrite <- (Hq' k y Hk). f_equal. lia.
      * apply Z.div_lt_upper_bound; [lia|]. lia.
  - eexists _, h. split; [done|]. split; [by apply grows_refl; [|unfold wn; cbn; lia|]|].
    split; cbn; [by apply shape_start|lia|lia|unfold wn in *; cbn; lia|]. exact Hq'.
Qed.

Lemma pop_back_spec want x q' :
  q = q' ++ [x] ->
  exists d' h', pop_back_body d h want = Some (0, if want then Some x else None, d', h') /\
    grows d d' /\ deque_rep d' h' q'.
Proof.
  intros Hq. pose proof (un_u4 d h Hs) as Hun. destruct (ds_idx d h Hs) as [Hi1 Hi2].
  pose proof (dr_start _ _ _ Hr) as Hsc. pose proof (dr_end _ _ _ Hr) as Hec.
  pose proof (dr_len _ _ _ Hr) as Hl. pose proof (wn_nonneg d h Hs). pose proof (ds_ms d h Hs) as Hms.
  pose proof (dr_elem d h q Hr (length q') x) as Hx. rewrite Hq, lookup_app_r, Nat.sub_diag in Hx by lia.
  specialize (Hx eq_refl).
  assert (forall k y, q' !! k = Some y -> elem_at d h (start_cur d + Z.of_nat k) = Some y) as Hq'.
  { intros k y Hk. apply (dr_elem d h q Hr k y). rewrite Hq. by apply lookup_app_l_Some. }
  rewrite Hq, length_app in Hl. cbn [length] in Hl. unfold pop_back_body.
  rewrite (is_nil_spec d h q Hr), bool_decide_false by (rewrite Hq; by destruct q').
  destruct (end_cur d =? 0) eqn:E; to_prop; cbn [negb].
  - assert (1 <= wn d) by nia. pose proof (ds_map d h Hs) as Hlen.
    destruct (ds_block d h Hs (wn d)) as (a & b & Ha & Hb & _); [lia|].
    assert (map d !! Z.to_nat (end_index d) = Some a) as ->.
    { rewrite <- Ha. unfold win, wn. do 2 f_equal. lia. }
    destruct (hfree_Some a h b Hb) as [h' Hfr]. cbn [mbind option_bind]. rewrite Hfr. cbn [mbind option_bind].
    cbn [end_cur set_end set_map end_index].
    rewrite !u4_id by (unfold is_u4, U4_MOD, MAP_MAX in *; unfold wn in *; cbn; lia).
    set (d1 := set_end (set_map d _) _ _).
    destruct (shape_shrink d d1 h h' 0 a) as [Hs' He']; auto.
    + unfold d1, wn; cbn; lia.
    + intros i Hi. unfold win, wn in *; cbn. rewrite list_lookup_insert_ne by lia. f_equal. lia.
    + cbn. by rewrite length_insert.
    + cbn. unfold wn in *. lia.
    + assert (wn d1 = wn d - 1) as Ew by (unfold d1, wn; cbn; lia).
      destruct (unit_ptr_ic d1 h' Hs' (end_index d - 1) (wn d1) (unit_num d - 1)) as (a' & Ha' & Hp & Hld);
        [unfold d1, wn; cbn; lia|lia|cbn; lia|].
      change (unit_num (set_map d _)) with (unit_num d). rewrite Hp. cbn [mbind option_bind].
      assert (elem_at d1 h' (wn d1 * unit_num d1 + (unit_num d - 1)) = Some x) as Hx1.
      { change (unit_num d1) with (unit_num d). rewrite He'; [|nia|].
        - rewrite <- Hx. f_equal. rewrite Ew. lia.
        - destruct (pos_split d (wn d1) (unit_num d - 1)) as [-> _]; lia. }
      rewrite (load_want d1 h' want _ _ _ x Hld) by done. cbn [mbind option_bind].
      eexists _, h'. split; [done|]. split; [by apply grows_refl; [|unfold wn; cbn; lia|]|].
      split; cbn; [by apply (shape_end d1)|lia|lia|unfold wn in *; cbn in *; nia|]. intros k y Hk.
      pose proof (lookup_lt_Some _ _ _ Hk). rewrite <- (Hq' k y Hk). rewrite <- (Z.add_0_r (start_cur d + _)).
      change 0 with (0 * unit_num d) at 2. rewrite <- He'; [by rewrite Z.add_0_r|lia|].
      apply Z.div_lt_upper_bound; [lia|]. lia.
  - rewrite u4_id by (unfold is_u4; lia). cbn [end_cur set_end end_index].
    destruct (unit_ptr_ic d h Hs (end_index d) (wn d) (end_cur d - 1)) as (a & Ha & Hp & Hld); [unfold wn; lia|lia..|].
    change (unit_ptr (set_end _ _ _)) with (unit_ptr d). rewrite Hp. cbn [mbind option_bind].
    change (load (set_end _ _ _)) with (load d).
    rewrite (load_want d h want _ _ _ x Hld); [|rewrite <- Hx; f_equal; lia]. cbn [mbind option_bind].
    eexists _, h. split; [done|]. split; [by apply grows_refl; [|unfold wn; cbn; lia|]|].
    split; cbn; [by apply shape_end|lia|lia|unfold wn in *; cbn; lia|]. exact Hq'.
Qed.
End Ops.

(** ** Access *)

Section Access.
Context (d : deque_t) (h : heap) (q : list bytes) (Hr : deque_rep d h q).
Let Hs : dq_shape d h := dr_shape d h q Hr.

(** [deque_at] points at element [pos]. *)
Lemma at_spec (pos : nat) x :
  q !! pos = Some x -> start_cur d + Z.of_nat pos < U4_MOD ->
  exists p, deque_at (Some d) (Z.of_nat pos) = Some (Some p) /\ load d h p = Some x.
Proof.
  intros Hx Hu. pose proof (lookup_lt_Some _ _ _ Hx) as Hlt.
  destruct (rep_pos d h q pos Hr Hlt) as [Hp0 Hp1]. pose proof (un_u4 d h Hs) as Hun.
  pose proof (dr_start _ _ _ Hr). pose proof (ds_ms d h Hs). destruct (ds_idx d h Hs).
  unfold deque_at. rewrite (Z.add_comm (Z.of_nat pos)), (u4_id (start_cur d + Z.of_nat pos)) by (unfold is_u4; lia).
  set (p := start_cur d + Z.of_nat pos) in *. assert (0 <= p / unit_num d) by (apply Z.div_pos; lia).
  rewrite u4_id by (unfold is_u4, U4_MOD, MAP_MAX, wn in *; lia).
  destruct (unit_ptr_ic d h Hs (start_index d + p / unit_num d) (p / unit_num d) (p mod unit_num d))
    as (a & _ & -> & Hld); [done|lia|apply Z.mod_pos_bound; lia|]. cbn.
  eexists. split; [done|]. rewrite Hld, Z.mul_comm, <- Z.div_mod by lia. by apply Hr.
Qed.

Lemma front_spec :
  deque_front (Some d) = Some None /\ q = [] \/
  exists p x, deque_front (Some d) = Some (Some p) /\ load d h p = Some x /\ head q = Some x.
Proof.
  unfold deque_front. rewrite (is_nil_spec d h q Hr). destruct q as [|x q'] eqn:Eq.
  { rewrite bool_decide_true by done. by left. }
  rewrite bool_decide_false by done. right. pose proof (dr_start _ _ _ Hr).
  pose proof (wn_nonneg d h Hs).
  destruct (unit_ptr_ic d h Hs (start_index d) 0 (start_cur d)) as (a & _ & -> & Hld); [lia..|]. cbn.
  eexists _, x. split; [done|]. split; [|done]. rewrite Hld.
  rewrite <- (dr_elem _ _ _ Hr 0 x eq_refl). f_equal. lia.
Qed.

Lemma back_spec :
  deque_back (Some d) = Some None /\ q = [] \/
  exists p x, deque_back (Some d) = Some (Some p) /\ load d h p = Some x /\ last q = Some x.
Proof.
  unfold deque_back. rewrite (is_nil_spec d h q Hr). destruct (decide (q = [])) as [Hq|Hq].
  { rewrite bool_decide_true by done. by left. }
  rewrite bool_decide_false by done. right. destruct (last q) as [x|] eqn:El; [|by apply last_None in El].
  pose proof (dr_start _ _ _ Hr). pose proof (dr_end _ _ _ Hr). pose proof (dr_len _ _ _ Hr) as Hl.
  pose proof (wn_nonneg d h Hs). pose proof (un_u4 d h Hs). pose proof (ds_ms d h Hs).
  destruct (ds_idx d h Hs) as [Hi Hi2]. rewrite last_lookup in El.
  pose proof (dr_elem _ _ _ Hr _ _ El) as Hx. pose proof (lookup_lt_Some _ _ _ El).
  destruct (end_cur d =? 0) eqn:E; to_prop; cbn [negb].
  - assert (1 <= wn d) by nia. rewrite !u4_id by (unfold is_u4, U4_MOD, MAP_MAX, wn in *; lia).
    destruct (unit_ptr_ic d h Hs (end_index d - 1) (wn d - 1) (unit_num d - 1)) as (a & _ & -> & Hld);
      [unfold wn; lia|lia..|]. cbn.
    eexists _, x. split; [done|]. split; [|done]. rewrite Hld, <- Hx. f_equal. lia.
  - rewrite u4_id by (unfold is_u4; lia).
    destruct (unit_ptr_ic d h Hs (end_index d) (wn d) (end_cur d - 1)) as (a & _ & -> & Hld);
      [unfold wn; lia|lia..|]. cbn.
    eexists _, x. split; [done|]. split; [|done]. rewrite Hld, <- Hx. f_equal. lia.
Qed.
End Access.

(** ** Start and end of life *)

Lemma deque_init_rep malloc_d malloc_m malloc_b us ms bs d h :
  malloc_ok malloc_b -> 0 <= us -> 2 <= ms <= MAP_MAX -> 0 <= bs < U4_MOD ->
  _deque_init malloc_d malloc_m malloc_b heap_empty false us ms bs = Some (0, Some d, h) ->
  deque_rep d h [] /\ unit_size d = us /\ unit_num d = bs / us /\ map_size d = ms /\ wn d = 0.
Proof.
  intros Hm Hus Hms Hbs. unfold _deque_init, new_map, sizeof_block_t. cbn [orb].
  destruct (_ || _) eqn:E; [done|]. to_prop. destruct (malloc_d _); [|done].
  rewrite (u4_id (ms * 8)) by (unfold is_u4, U4_MOD, MAP_MAX in *; lia). destruct (malloc_m _); [|done].
  rewrite Z.div_mul, Z.shiftr_div_pow2 by lia. change (2 ^ 1) with 2.
  pose proof (Z.div_mod ms 2 ltac:(lia)). pose proof (Z.mod_pos_bound ms 2 ltac:(lia)).
  set (i := ms / 2) in *. clearbody i.
  pose proof (Z.mul_div_le bs us ltac:(lia)). assert (1 <= bs / us) by (apply Z.div_le_lower_bound; lia).
  set (un := bs / us) in *. clearbody un. rewrite u4_id by (unfold is_u4; nia).
  destruct (halloc malloc_b (un * us) heap_empty) as [[a h']|] eqn:Ea; [|done].
  destruct (i <? _) eqn:Ei; [|done]. to_prop. rewrite length_replicate in Ei. intros [= <- <-].
  assert (heap_ok heap_empty) as Hok0 by (split; cbn; [lia|intros; by simplify_map_eq]).
  destruct (halloc_inv _ _ _ _ _ Hok0 Ea) as (b & Hb & _ & _ & _ & Hmem & Hok). cbn [h_mem heap_empty] in Hmem.
  split; [|split; [done|split; [done|split; [done|unfold wn; cbn; lia]]]].
  split; [|cbn; lia|cbn; lia|unfold wn; cbn; lia|done].
  assert (forall j, 0 <= j <= i - i -> <[Z.to_nat i := a]> (replicate (Z.to_nat ms) 0%nat) !! Z.to_nat (i + j) = Some a) as Hw.
  { intros j Hj. replace (i + j) with i by lia. rewrite list_lookup_insert_eq; [done|]. rewrite length_replicate. lia. }
  split; unfold wn, win; cbn [map map_size start_index start_cur end_index end_cur unit_num unit_size];
    [lia|lia|nia|done|rewrite length_insert, length_replicate; lia|lia|done|..].
  - intros j Hj. exists a, b. rewrite Hmem, lookup_insert_eq. split; [by apply Hw|]. split; [done|]. apply Hm; [nia|done].
  - intros j j' c Hj Hj' _ _. lia.
  - intros c y Hy. rewrite Hmem in Hy. apply lookup_insert_Some in Hy as [[<- _]|[_ Hy]]; [|by simplify_map_eq].
    exists 0. split; [lia|]. apply Hw. lia.
Qed.

Lemma free_blocks_all m n idx h :
  (forall j, (j < n)%nat -> exists a b, m !! (idx + j)%nat = Some a /\ h_mem h !! a = Some b) ->
  (forall i j a, (i < n)%nat -> (j < n)%nat -> m !! (idx + i)%nat = Some a -> m !! (idx + j)%nat = Some a -> i = j) ->
  (forall a b, h_mem h !! a = Some b -> exists j, (j < n)%nat /\ m !! (idx + j)%nat = Some a) ->
  exists h', free_blocks m idx n h = Some h' /\ h_mem h' = ∅.
Proof.
  revert idx h. induction n as [|n IH]; intros idx h Hb Hinj Hown.
  { exists h. split; [done|]. apply map_eq. intros a. rewrite lookup_empty.
    destruct (h_mem h !! a) as [b|] eqn:E; [|done]. destruct (Hown a b E) as (j & Hj & _). lia. }
  destruct (Hb 0%nat) as (a & b & Ha & Hab); [lia|]. rewrite Nat.add_0_r in Ha.
  destruct (hfree_Some a h b Hab) as [h1 Hf]. cbn. rewrite Ha. cbn. rewrite Hf. cbn.
  apply hfree_inv in Hf as (_ & Hmem & _). apply IH.
  - intros j Hj. destruct (Hb (S j)) as (c & y & Hc & Hy); [lia|].
    rewrite Nat.add_succ_r in Hc. exists c, y. split; [done|]. rewrite Hmem, lookup_delete_ne; [done|].
    intros ->. assert (0%nat = S j); [|done]. apply (Hinj _ _ c); [lia|lia|by rewrite Nat.add_0_r|by rewrite Nat.add_succ_r].
  - intros i j c Hi Hj H1 H2. assert (S i = S j) as [= ->]; [|done].
    apply (Hinj _ _ c); [lia|lia|by rewrite Nat.add_succ_r..].
  - intros c y Hy. rewrite Hmem in Hy. apply lookup_delete_Some in Hy as [Hne Hy].
    destruct (Hown c y Hy) as ([|j] & Hj & Hc); [rewrite Nat.add_0_r in Hc; congruence|].
    exists j. split; [lia|]. by rewrite Nat.add_succ_r in Hc.
Qed.

(** Every block is released, none twice. *)
Lemma uninit_frees d h :
  dq_shape d h -> exists h', _deque_uninit (Some d) h = Some (None, h') /\ h_mem h' = ∅.
Proof.
  intros Hs. pose proof (wn_nonneg d h Hs). destruct (ds_idx d h Hs).
  assert (forall j, (Z.to_nat (start_index d) + j)%nat = Z.to_nat (start_index d + Z.of_nat j)) as Hn by lia.
  destruct (free_blocks_all (map d) (Z.to_nat (end_index d - start_index d + 1)) (Z.to_nat (start_index d)) h)
    as (h' & Hf & Hm).
  - intros j Hj. rewrite Hn. destruct (ds_block d h Hs (Z.of_nat j)) as (a & b & Ha & Hb & _); [unfold wn in *; lia|].
    eauto.
  - intros i j a Hi Hj. rewrite !Hn. intros Hai Haj. apply Nat2Z.inj.
    eapply (ds_inj d h Hs); eauto; unfold wn in *; lia.
  - intros a b Hb. destruct (ds_own d h Hs a b Hb) as (i & Hi & Ha). exists (Z.to_nat i). split; [unfold wn in *; lia|].
    rewrite Hn, Z2Nat.id by lia. done.
  - exists h'. unfold _deque_uninit. rewrite Hf. done.
Qed.

(** [deque_size] is exact only across blocks: with every element in one
    block it reports 0, whatever the number of elements. *)
Lemma deque_size_blocks (d : deque_t) (h : heap) (q : list bytes) :
  deque_rep d h q -> Z.of_nat (length q) < U4_MOD ->
  deque_size (Some d) false =
  (0, Some (if start_index d =? end_index d then 0 else Z.of_nat (length q))).
Proof.
  intros Hr Hq. unfold deque_size. destruct (start_index d =? end_index d) eqn:E; to_prop.
  - rewrite E, Z.sub_diag. done.
  - f_equal. f_equal. pose proof (dr_len _ _ _ Hr) as Hl. unfold wn in Hl.
    rewrite <- (u4_id (Z.of_nat (length q))) by (unfold is_u4; lia). f_equal. lia.
Qed.

(** ** The abstract deque

    A list of elements, in blocks of [un].  A push may fail with -2 when an allocation of its own fails, and
    then changes nothing. *)

Inductive dop :=
  | PushFront (x : bytes) | PushBack (x : bytes) | PopFront | PopBack | Front | Back | Empty | Size | At (pos : Z).

(** A call, with what [malloc] does during it when it is asked for a map and for a block. *)
Abbreviation dcall := (malloc_fun * malloc_fun * dop)%type.

Definition op_ok (us : Z) (op : dop) : Prop :=
  match op with PushFront x | PushBack x => blen x = us | At pos => 0 <= pos | _ => True end.

Definition call_ok (us : Z) (c : dcall) : Prop := let '(_, mb, op) := c in malloc_ok mb /\ op_ok us op.

(** Result code, or the size, and element of a call. *)
Definition dout : Type := Z * option bytes.

(** The size is that of the list or, when it may lie in one block, 0. *)
Definition list_step (un : Z) (c : dcall) (q : list bytes) (o : dout) (q' : list bytes) : Prop :=
  let '(mm, mb, op) := c in
  match op with
  | PushFront x => (o = (0, None) /\ q' = x :: q) \/ (o = (-2, None) /\ alloc_fails mm mb /\ q' = q)
  | PushBack x => (o = (0, None) /\ q' = q ++ [x]) \/ (o = (-2, None) /\ alloc_fails mm mb /\ q' = q)
  | PopFront => match q with
                | [] => o = (-1, None) /\ q' = []
                | x :: t => o = (0, Some x) /\ q' = t
                end
  | PopBack => (q = [] /\ o = (-1, None) /\ q' = []) \/
               exists x, q = q' ++ [x] /\ o = (0, Some x)
  | Front => o = (0, head q) /\ q' = q
  | Back => o = (0, last q) /\ q' = q
  | Empty => o = (if bool_decide (q = []) then 0 else -2, None) /\ q' = q
  | Size => (o = (Z.of_nat (length q), None) \/ (o = (0, None) /\ Z.of_nat (length q) < un)) /\ q' = q
  | At pos => (exists x, q !! Z.to_nat pos = Some x /\ o = (0, Some x)) /\ q' = q
  end.

Inductive list_run (un : Z) : list dcall -> list bytes -> list dout -> list bytes -> Prop :=
  | run_nil q : list_run un [] q [] q
  | run_cons c cs q o q1 os q2 :
      list_step un c q o q1 -> list_run un cs q1 os q2 -> list_run un (c :: cs) q (o :: os) q2.

(** [deque_at] of a position that is not there. *)
Definition past_end (c : dcall) (q : list bytes) : Prop :=
  match c with (_, _, At pos) => Z.of_nat (length q) <= pos | _ => False end.

(** The pointer returned by an access is dereferenced at once. *)
Definition deref (d : deque_t) (h : heap) (p : option (option ptr)) : option dout :=
  p ← p; match p with None => Some (0, None) | Some p => x ← load d h p; Some (0, Some x) end.

Definition dq_step (c : dcall) (s : option deque_t * heap) : option (dout * (option deque_t * heap)) :=
  let '(mm, mb, op) := c in
  let '(deque, h) := s in
  match op with
  | PushFront x => '(ret, d, h) ← deque_push_front mm mb deque h (Some x); Some (ret, None, (d, h))
  | PushBack x => '(ret, d, h) ← deque_push_back mm mb deque h (Some x); Some (ret, None, (d, h))
  | PopFront => '(ret, x, d, h) ← deque_pop_front deque h true; Some (ret, x, (d, h))
  | PopBack => '(ret, x, d, h) ← deque_pop_back deque h true; Some (ret, x, (d, h))
  | Front => d ← deque; o ← deref d h (deque_front deque); Some (o, s)
  | Back => d ← deque; o ← deref d h (deque_back deque); Some (o, s)
  | Empty => Some (deque_empty deque, None, s)
  | Size => n ← snd (deque_size deque false); Some (n, None, s)
  | At pos => d ← deque; o ← deref d h (deque_at deque pos); Some (o, s)
  end.

Fixpoint dq_run (cs : list dcall) (s : option deque_t * heap) : option (list dout * (option deque_t * heap)) :=
  match cs with
  | [] => Some ([], s)
  | c :: cs' => '(o, s1) ← dq_step c s; '(os, s2) ← dq_run cs' s1; Some (o :: os, s2)
  end.

Lemma dq_update_spec mm mb op d h q :
  malloc_ok mb -> deque_rep d h q -> map_size d <= MAP_MAX / 2 -> op_ok (unit_size d) op ->
  match op with
  | PushFront _ | PushBack _ | PopFront | PopBack =>
      exists o d' h' q', dq_step (mm, mb, op) (Some d, h) = Some (o, (Some d', h')) /\
        list_step (unit_num d) (mm, mb, op) q o q' /\ deque_rep d' h' q' /\ grows d d'
  | _ => True
  end.
Proof.
  intros Hmb Hr Hms Hop. destruct op as [x|x| | | | | | |pos]; [..|done|done|done|done|done]; cbn [dq_step].
  - destruct (push_front_spec mm mb Hmb d h q Hr x Hms Hop) as (ret & d' & h' & E & Hgr & Hor).
    unfold deque_push_front. rewrite E. cbn.
    destruct Hor as [[-> Hr']|(-> & Hf & Hr')]; eexists _, d', h', _; (split; [done|]); cbn; eauto 10.
  - destruct (push_back_spec mm mb Hmb d h q Hr x Hms Hop) as (ret & d' & h' & E & Hgr & Hor).
    unfold deque_push_back. rewrite E. cbn.
    destruct Hor as [[-> Hr']|(-> & Hf & Hr')]; eexists _, d', h', _; (split; [done|]); cbn; eauto 10.
  - unfold deque_pop_front. destruct q as [|x t].
    + rewrite (pop_front_nil d h [] Hr) by done. cbn. eexists _, d, h, []. split; [done|]. split; [done|]. split; [done|].
      apply grows_refl; [done|lia|done].
    + destruct (pop_front_spec d h (x :: t) Hr true x t) as (d' & h' & -> & Hgr & Hr'); [done|].
      cbn. eexists _, d', h', t. eauto.
  - unfold deque_pop_back. destruct q as [|x t _] using rev_ind.
    + rewrite (pop_back_nil d h [] Hr) by done. cbn. eexists _, d, h, []. split; [done|]. split; [by left|]. split; [done|].
      apply grows_refl; [done|lia|done].
    + destruct (pop_back_spec d h (t ++ [x]) Hr true x t) as (d' & h' & -> & Hgr & Hr'); [done|].
      cbn. eexists _, d', h', t. eauto 10.
Qed.

Lemma dq_read_spec mm mb op d h q :
  deque_rep d h q -> op_ok (unit_size d) op -> unit_num d + Z.of_nat (length q) <= U4_MOD ->
  match op with
  | Front | Back | Empty | Size | At _ => past_end (mm, mb, op) q \/
      exists o, dq_step (mm, mb, op) (Some d, h) = Some (o, (Some d, h)) /\ list_step (unit_num d) (mm, mb, op) q o q
  | _ => True
  end.
Proof.
  intros Hr Hop Hsz. destruct op as [x|x| | | | | | |pos]; try done; cbn [dq_step mbind option_bind].
  - right. exists (0, head q). split; [|by cbn].
    destruct (front_spec d h q Hr) as [[-> ->]|(p & x & -> & Hld & ->)]; cbn; [done|]. by rewrite Hld.
  - right. exists (0, last q). split; [|by cbn].
    destruct (back_spec d h q Hr) as [[-> ->]|(p & x & -> & Hld & ->)]; cbn; [done|]. by rewrite Hld.
  - right. unfold deque_empty. rewrite (is_nil_spec d h q Hr). eexists. split; [done|]. by cbn.
  - right. pose proof (un_u4 d h (dr_shape d h q Hr)). rewrite (deque_size_blocks d h q Hr) by lia.
    cbn [snd mbind option_bind]. eexists. split; [done|]. cbn. split; [|done].
    destruct (start_index d =? end_index d) eqn:E; to_prop; [right|by left]. split; [done|].
    pose proof (dr_len _ _ _ Hr) as Hl. pose proof (dr_start _ _ _ Hr). pose proof (dr_end _ _ _ Hr). unfold wn in Hl. nia.
  - cbn in Hop. destruct (Z.le_gt_cases (Z.of_nat (length q)) pos) as [Hp|Hp]; [by left|right].
    destruct (lookup_lt_is_Some_2 q (Z.to_nat pos)) as [x Hx]; [lia|].
    pose proof (dr_start _ _ _ Hr). destruct (at_spec d h q Hr (Z.to_nat pos) x Hx) as (p & E & Hld); [lia|].
    rewrite Z2Nat.id in E by done. rewrite E. cbn [deref mbind option_bind]. rewrite Hld. cbn [mbind option_bind].
    eexists. split; [done|]. cbn. split; [by exists x|done].
Qed.

Lemma dq_step_spec c d h q :
  deque_rep d h q -> map_size d <= MAP_MAX / 2 -> call_ok (unit_size d) c ->
  unit_num d + Z.of_nat (length q) <= U4_MOD ->
  past_end c q \/
  exists o d' h' q', dq_step c (Some d, h) = Some (o, (Some d', h')) /\
    list_step (unit_num d) c q o q' /\ deque_rep d' h' q' /\ grows d d'.
Proof.
  intros Hr Hms Hc Hsz. destruct c as [[mm mb] op]. destruct Hc as [Hmb Hop].
  pose proof (dq_update_spec mm mb op d h q Hmb Hr Hms Hop) as Hu.
  pose proof (dq_read_spec mm mb op d h q Hr Hop Hsz) as Ho.
  assert (grows d d) as Hg by (apply grows_refl; lia || done).
  destruct op; (by right) || (destruct Ho as [?|(o & E & Hl)]; [by left|right; by exists o, d, h, q]).
Qed.

(** A call adds one element at most. *)
Lemma list_step_length un c q o q' : list_step un c q o q' -> (length q' <= S (length q))%nat.
Proof.
  destruct c as [[mm mb] op]. destruct op as [x|x| | | | | | |pos]; cbn.
  - intros [[_ ->]|(_ & _ & ->)]; cbn; lia.
  - intros [[_ ->]|(_ & _ & ->)]; [rewrite length_app; cbn|]; lia.
  - destruct q; intros [_ ->]; cbn; lia.
  - intros [(-> & _ & ->)|(x & -> & _)]; [cbn|rewrite length_app; cbn]; lia.
  - intros [_ ->]. lia.
  - intros [_ ->]. lia.
  - intros [_ ->]. lia.
  - intros [_ ->]. lia.
  - intros [_ ->]. lia.
Qed.

(** [K] bounds the blocks: each call adds at most one, and the map is at most
    four times as long. *)
Lemma dq_run_spec cs K d h q :
  deque_rep d h q -> wn d + 1 <= K -> map_size d <= 4 * K ->
  4 * (K + Z.of_nat (length cs)) <= MAP_MAX / 2 -> Forall (call_ok (unit_size d)) cs ->
  unit_num d + Z.of_nat (length q) + Z.of_nat (length cs) <= U4_MOD ->
  exists pre post os d' h' q', cs = pre ++ post /\ dq_run pre (Some d, h) = Some (os, (Some d', h')) /\
    list_run (unit_num d) pre q os q' /\ deque_rep d' h' q' /\
    (post = [] \/ exists c post', post = c :: post' /\ past_end c q').
Proof.
  revert K d h q. induction cs as [|c cs IH]; intros K d h q Hr Hw Hm HK Hcs Hsz.
  { exists [], [], [], d, h, q. repeat (split; [done|]). split; [constructor|]. split; [done|by left]. }
  apply Forall_cons_1 in Hcs as [Hc Hcs]. cbn [length] in HK, Hsz.
  destruct (dq_step_spec c d h q Hr) as [Hp|(o & d1 & h1 & q1 & Hst & Hsp & Hr1 & [Eu En] & Hw1 & Hm1)]; [lia|done|lia| |].
  { exists [], (c :: cs), [], d, h, q. repeat (split; [done|]). split; [constructor|]. split; [done|right; by exists c, cs]. }
  pose proof (list_step_length _ _ _ _ _ Hsp) as Hlen.
  destruct (IH (K + 1) d1 h1 q1) as (pre & post & os & d2 & h2 & q2 & -> & Hrun & Hsp2 & Hr2 & Hend);
    [done|lia|lia|lia|by rewrite Eu|rewrite En; lia|].
  exists (c :: pre), post, (o :: os), d2, h2, q2. cbn [dq_run]. rewrite Hst. cbn [mbind option_bind]. rewrite Hrun.
  split; [done|]. split; [done|]. split; [|done]. rewrite <- En in Hsp |- *. by econstructor.
Qed.


(** The second push at the back finds no memory for a block, and neither does the last one at the front. *)
Definition sample_calls : list dcall :=
  let ok := fun op => (malloc_zero, malloc_zero, op) in
  [ok (PushBack [1; 1]); (malloc_zero, malloc_fail, PushBack [2; 2]); ok (PushBack [2; 2]); ok (PushFront [3; 3]);
   ok (PushBack [4; 4]); ok Size; ok (At 2); ok (PushBack [5; 5]); ok (PushBack [6; 6]); ok (PushFront [7; 7]);
   (malloc_zero, malloc_fail, PushFront [8; 8]); ok PopBack; ok PopFront; ok Front; ok Back; ok Empty; ok (At 9); ok Size].

Lemma deque_calls_ok : Forall (call_ok 2) sample_calls.
Proof.
  unfold sample_calls. repeat apply Forall_cons_2; try apply Forall_nil_2;
    (split; [first [exact malloc_zero_ok | exact malloc_fail_ok]|]); cbn; done || lia.
Qed.

Definition sample_deque : option deque_t * heap :=
  (Some (mk_deque [0%nat; 1%nat] 2 1 0 1 0 2 2), mk_heap 2 {[1%nat := [0; 0; 0; 0]]}).


(** The same calls evaluated, up to the position that is not there. *)
Example deque_calls_run :
  fst <$> dq_run (take 16 sample_calls) sample_deque =
  Some [(0, None); (-2, None); (0, None); (0, None); (0, None); (4, None); (0, Some [2; 2]); (0, None); (0, None); (0, None);
        (-2, None); (0, Some [6; 6]); (0, Some [7; 7]); (0, Some [3; 3]); (0, Some [5; 5]); (-2, None)].
Proof. vm_compute. reflexivity. Qed.

(** Two elements pushed, size 0. *)
Lemma deque_size_two :
  exists d h, deque_rep d h [[1]; [2]] /\ deque_size (Some d) false = (0, Some 0).
Proof.
  destruct (push_back_spec malloc_zero malloc_zero malloc_zero_ok
              (mk_deque [0%nat; 1%nat] 2 1 0 1 0 4 1) (mk_heap 2 {[1%nat := [0; 0; 0; 0]]}) [])
    with (x := [1]) as (r1 & d1 & h1 & E1 & _ & P1).
  - apply (deque_init_rep malloc_zero malloc_zero malloc_zero 1 2 4);
      [exact malloc_zero_ok|lia|unfold MAP_MAX; lia|unfold U4_MOD; lia|vm_compute; reflexivity].
  - vm_compute. discriminate.
  - reflexivity.
  - vm_compute in E1. injection E1 as <- <- <-. destruct P1 as [[_ R1]|[E _]]; [|discriminate].
    destruct (push_back_spec malloc_zero malloc_zero malloc_zero_ok _ _ _ R1 [2]) as (r2 & d2 & h2 & E2 & _ & P2);
      [vm_compute; discriminate|reflexivity|].
    vm_compute in E2. injection E2 as <- <- <-. destruct P2 as [[_ R2]|[E _]]; [|discriminate].
    eexists _, _. split; [exact R2|]. apply (deque_size_blocks _ _ _ R2). vm_compute. reflexivity.
Qed.

End Deque.
