(* ===== verification/LiskVector.v ===== *)
(** * lisk_vector.c: the growable array

    Models win_lisk/src/lisk_vector.c.  [data] is nil or one block of
    [capacity] bytes; element [i] is the [length] bytes at [i * length].  A
    pointer to an element is its offset in [data]. *)

From S2P Require Import Prelude LiskMath.

Module Vector.

Record lisk_vector_t := mk_vector {
  capacity : Z;
  number : Z;
  length : Z;
  data : option bytes;
}.

Definition with_number (v : lisk_vector_t) (n : Z) : lisk_vector_t :=
  mk_vector (capacity v) n (length v) (data v).
Definition with_data (v : lisk_vector_t) (d : option bytes) : lisk_vector_t :=
  mk_vector (capacity v) (number v) (length v) d.

(** Result code and vector after a call; the vector behind the pointer, if any. *)
Definition vres : Type := Z * option lisk_vector_t.

(** Offset of element [i], a product of two [u4]. *)
Definition elem_off (v : lisk_vector_t) (i : Z) : Z := u4 (i * length v).

Definition lisk_vector_max_size (vector : option lisk_vector_t) : Z :=
  match vector with
  | None => 0
  | Some v => if length v =? 0 then 0 else capacity v / length v
  end.

Definition lisk_vector_capacity (vector : option lisk_vector_t) : Z :=
  match vector with None => 0 | Some v => capacity v end.

Definition lisk_vector_at (vector : option lisk_vector_t) (pos : Z) : option Z :=
  match vector with
  | None => None
  | Some v => if number v <=? pos then None else Some (elem_off v pos)
  end.

(** [bsearch] of the C library on [num] elements: [l] and [u] are its bounds. *)
Fixpoint bsearch (fuel : nat) (cmp : bytes -> bytes -> Z) (key : bytes) (base : option bytes) (size l u : Z)
  : option (option Z) :=
  match fuel with
  | O => None
  | S f =>
      if l <? u then
        let idx := (l + u) / 2 in
        d ← base; x ← rd d (idx * size) size;
        let c := cmp key x in
        if c <? 0 then bsearch f cmp key base size l idx
        else if 0 <? c then bsearch f cmp key base size (idx + 1) u
        else Some (Some (idx * size))
      else Some None
  end.

(** The scan of [lisk_vector_find] from [idx] on; [n] elements are left. *)
Fixpoint find_loop (n : nat) (v : lisk_vector_t) (value : bytes) (idx : Z) : option (option Z) :=
  match n with
  | O => Some None
  | S n' =>
      d ← data v; x ← rd d (elem_off v idx) (length v);
      y ← rd value 0 (length v);
      if decide (x = y) then Some (Some (elem_off v idx)) else find_loop n' v value (idx + 1)
  end.

Definition lisk_vector_find (vector : option lisk_vector_t) (value : option bytes)
  (cmp : option (bytes -> bytes -> Z)) : option (option Z) :=
  match vector, value with
  | Some v, Some value =>
      match cmp with
      | Some cmp => bsearch (S (Z.to_nat (number v))) cmp value (data v) (length v) 0 (number v)
      | None => find_loop (Z.to_nat (number v)) v value 0
      end
  | _, _ => Some None
  end.

Definition lisk_vector_first (vector : option lisk_vector_t) : option Z :=
  match vector with None => None | Some v => lisk_vector_at (Some v) 0 end.

Definition lisk_vector_last (vector : option lisk_vector_t) : option Z :=
  match vector with
  | None => None
  | Some v => if number v =? 0 then None else lisk_vector_at (Some v) (u4 (number v - 1))
  end.

Definition lisk_vector_next (vector : option lisk_vector_t) (cur : Z) : option Z :=
  match vector with
  | None => None
  | Some v =>
      if (length v =? 0) || (number v =? 0) then None
      else
        let idx := u4 cur / length v in
        let ptr := elem_off v idx in
        if (u4 (number v - 1) <=? idx) || negb (cur =? ptr) then None
        else Some (elem_off v (u4 (idx + 1)))
  end.

Definition lisk_vector_pre (vector : option lisk_vector_t) (cur : Z) : option Z :=
  match vector with
  | None => None
  | Some v =>
      if length v =? 0 then None
      else
        let idx := u4 cur / length v in
        let ptr := elem_off v idx in
        if (idx <=? 0) || (number v <=? idx) || negb (cur =? ptr) then None
        else Some (elem_off v (u4 (idx - 1)))
  end.

Definition round_up (n : Z) : Z :=
  if negb (Math.is_pow_of_2 n =? 0) then u4 (Math.next_pow_of_2 n) else n.

Definition lisk_vector_init (malloc : malloc_fun) (vector : option lisk_vector_t) (number length : Z)
  : vres :=
  match vector with
  | None => (-1, None)
  | Some v =>
      if (number =? 0) || (length =? 0) then (-1, Some v)
      else
        let v := with_data v None in
        let capacity := round_up (u4 (number * length)) in
        match malloc capacity with
        | None => (-2, Some v)
        | Some b => (0, Some (mk_vector capacity 0 length (Some b)))
        end
  end.

(** The zeroed structure of [SET_ZERO]. *)
Definition zero_vector : lisk_vector_t := mk_vector 0 0 0 None.

Definition lisk_vector_uninit (vect : option lisk_vector_t) : option lisk_vector_t :=
  match vect with
  | None => None
  | Some v => match data v with None => Some v | Some _ => Some zero_vector end
  end.

Definition lisk_vector_init_copy (malloc : malloc_fun) (vector : option lisk_vector_t)
  (array : option bytes) (number length : Z) : option vres :=
  let len := u4 (number * length) in
  match vector, array with
  | Some v, Some arr =>
      if len =? 0 then Some (-1, vector)
      else
        let '(ret, vector) := lisk_vector_init malloc (Some (with_data v None)) number length in
        if negb (ret =? 0) then Some (-2, vector)
        else
          v ← vector; d ← data v;
          src ← rd arr 0 len; d ← wr d 0 src;
          Some (0, Some (with_number (with_data v (Some d)) number))
  | _, _ => Some (-1, vector)
  end.

(** REALLOC stores its result in [data] before the test. *)
Definition lisk_vector_realloc (realloc : realloc_fun) (vect : option lisk_vector_t) (num : Z) : vres :=
  match vect with
  | None => (-1, None)
  | Some v =>
      if capacity v =? 0 then (-1, Some v)
      else if num =? 0 then (0, lisk_vector_uninit (Some v))
      else
        let vect_len := u4 (length v * num) in
        let v := with_data v (realloc (data v) vect_len) in
        match data v with
        | None => (-2, Some v)
        | Some _ =>
            let v := mk_vector vect_len (number v) (length v) (data v) in
            (0, Some (if num <? number v then with_number v num else v))
        end
  end.

(** The elements from the cursor on move up by [len] bytes: [dst] and [src] are offsets. *)
Definition move_elems (v : lisk_vector_t) (dst src len : Z) : option (Z * lisk_vector_t) :=
  if len <=? 0 then Some (0, v)
  else d ← data v; '(ret, d) ← copy_data d dst src len; Some (ret, with_data v (Some d)).

Definition copy_array (v : lisk_vector_t) (cursor : Z) (array : option bytes) (len : Z)
  : option lisk_vector_t :=
  match array with
  | None => Some v
  | Some arr =>
      if len <=? 0 then Some v
      else src ← rd arr 0 len; d ← data v; d ← wr d cursor src; Some (with_data v (Some d))
  end.

(** [array] does not point into the vector. *)
Definition lisk_vector_insert (realloc : realloc_fun) (vect : option lisk_vector_t) (pos : Z)
  (array : option bytes) (size : Z) : option vres :=
  match vect with
  | None => Some (-1, None)
  | Some v =>
      if (size =? 0) || (number v <? pos) then Some (-1, Some v)
      else
        let '(ret, vect) :=
          (if capacity v <? u4 (u4 (number v + size) * length v)
           then lisk_vector_realloc realloc (Some v) (round_up (u4 (number v + size)))
           else (0, Some v)) in
        v ← vect;
        if negb (ret =? 0) then Some (-2, Some v)
        else
          let cursor := elem_off v pos in
          '(ret, v) ←
            (if pos <? number v
             then move_elems v (cursor + elem_off v size) cursor (elem_off v (u4 (number v - pos)))
             else Some (0, v));
          if negb (ret =? 0) then Some (-2, Some v)
          else
            v ← copy_array v cursor array (elem_off v size);
            Some (0, Some (with_number v (u4 (number v + size))))
  end.

Definition lisk_vector_push_back (realloc : realloc_fun) (vect : option lisk_vector_t)
  (array : option bytes) (size : Z) : option vres :=
  match vect with
  | None => Some (-1, None)
  | Some v => lisk_vector_insert realloc (Some v) (number v) array size
  end.

Definition lisk_vector_clear (vector : option lisk_vector_t) : option lisk_vector_t :=
  match vector with None => None | Some v => Some (with_number v 0) end.

Definition lisk_vector_assign (realloc : realloc_fun) (vect : option lisk_vector_t)
  (array : option bytes) (size : Z) : option vres :=
  match vect with
  | None => Some (-1, None)
  | Some v =>
      if size =? 0 then Some (-1, Some v)
      else lisk_vector_push_back realloc (lisk_vector_clear (Some v)) array size
  end.

Definition lisk_vector_empty (vect : option lisk_vector_t) : Z :=
  match vect with Some v => if number v =? 0 then 0 else -1 | None => -1 end.

(** The pointer returned, nil or the place of the first element after the gap. *)
Definition lisk_vector_erase (vect : option lisk_vector_t) (pos size : Z)
  : option (option Z * option lisk_vector_t) :=
  match vect with
  | None => Some (None, None)
  | Some v =>
      if size =? 0 then Some (None, Some v)
      else if lisk_vector_empty (Some v) =? 0 then Some (None, Some v)
      else
        let buf_len := elem_off v (number v) in
        if (number v <=? pos) || (number v <? u4 (pos + size)) || (buf_len =? 0)
        then Some (None, Some v)
        else
          let cpy_len := elem_off v (u4 (number v - u4 (pos + size))) in
          if 0 <? cpy_len then
            let dst := elem_off v pos in
            let src := dst + elem_off v size in
            '(ret, v) ← move_elems v dst src cpy_len;
            if negb (ret =? 0) then Some (None, Some v)
            else Some (Some dst, Some (with_number v (u4 (number v - size))))
          else Some (None, Some (with_number v (u4 (number v - size))))
  end.

Definition lisk_vector_pop_up (vect : option lisk_vector_t) : option (option Z * option lisk_vector_t) :=
  match vect with
  | None => Some (None, None)
  | Some v =>
      if lisk_vector_empty (Some v) =? 0 then Some (None, Some v)
      else lisk_vector_erase (Some v) 0 1
  end.

Definition lisk_vector_pop_back (vect : option lisk_vector_t)
  : option (option Z * option lisk_vector_t) :=
  match vect with
  | None => Some (None, None)
  | Some v =>
      if lisk_vector_empty (Some v) =? 0 then Some (None, Some v)
      else lisk_vector_erase (Some v) (u4 (number v - 1)) 1
  end.

(** The exchange of the elements [lf] and [rg], through the temporary buffer. *)
Definition reverse_swap (v : lisk_vector_t) (lf rg : Z) : option lisk_vector_t :=
  d ← data v;
  temp ← rd d (elem_off v lf) (length v);
  '(_, d) ← copy_data d (elem_off v lf) (elem_off v rg) (length v);
  d ← wr d (elem_off v rg) temp;
  Some (with_data v (Some d)).

Fixpoint reverse_loop (fuel : nat) (v : lisk_vector_t) (lf rg : Z) : option lisk_vector_t :=
  match fuel with
  | O => None
  | S f =>
      if lf <? rg then
        v ← reverse_swap v lf rg;
        reverse_loop f v (u4 (lf + 1)) (u4 (rg - 1))
      else Some v
  end.

Definition SIZE_K (x : Z) : Z := Z.shiftl x 10.

Definition lisk_vector_reverse (malloc : malloc_fun) (vector : option lisk_vector_t) : option vres :=
  match vector with
  | None => Some (-1, None)
  | Some v =>
      if number v =? 0 then Some (-1, Some v)
      else
        let temp_ok := if SIZE_K 1 <? length v
                       then (match malloc (length v) with None => false | Some _ => true end) else true in
        if negb temp_ok then Some (-2, Some v)
        else
          v ← reverse_loop (Z.to_nat (number v)) v 0 (u4 (number v - 1));
          Some (0, Some v)
  end.

(** ** Representation: the elements fill the front of the block *)

Record vec_rep (v : lisk_vector_t) (xs : list bytes) : Prop := {
  vr_len : 0 < length v;
  vr_cap : 0 < capacity v < U4_MOD;
  vr_num : number v = Z.of_nat (List.length xs);
  vr_units : units (length v) xs;
  vr_data : exists slack, data v = Some (concat xs ++ slack) /\
              blen (concat xs ++ slack) = capacity v;
}.

Section Rep.
Context (v : lisk_vector_t) (xs : list bytes) (Hr : vec_rep v xs).

Lemma rep_bytes : number v * length v = blen (concat xs).
Proof. rewrite (blen_concat (length v)) by apply Hr. by rewrite (vr_num v xs Hr). Qed.

Lemma rep_fits : number v * length v <= capacity v.
Proof.
  destruct (vr_data v xs Hr) as (sl & _ & Hl). rewrite rep_bytes, <- Hl, blen_app.
  pose proof (blen_nonneg sl). lia.
Qed.

Lemma rep_number_nonneg : 0 <= number v.
Proof. rewrite (vr_num v xs Hr). lia. Qed.

(** No product of an index wraps. *)
Lemma elem_off_exact i : 0 <= i <= number v -> elem_off v i = i * length v.
Proof.
  intros Hi. apply u4_id. pose proof rep_fits. pose proof (vr_cap v xs Hr). pose proof (vr_len v xs Hr).
  unfold is_u4. nia.
Qed.

Lemma rep_prefix ys zs : xs = ys ++ zs -> blen (concat ys) = Z.of_nat (List.length ys) * length v.
Proof. intros ->. apply blen_concat. apply (units_app _ ys zs), Hr. Qed.

(** Reading element [i]. *)
Lemma rd_elem (i : nat) x d :
  xs !! i = Some x -> data v = Some d -> rd d (Z.of_nat i * length v) (length v) = Some x.
Proof.
  intros Hx Hd. destruct (vr_data v xs Hr) as (sl & Hd' & _).
  assert (d = concat xs ++ sl) as -> by congruence. clear Hd'.
  pose proof (proj1 (Forall_lookup _ _) (vr_units v xs Hr) i x Hx) as Hl. cbn in Hl.
  rewrite <- (take_drop_middle xs i x Hx), concat_app. cbn [concat]. rewrite <- !app_assoc.
  replace (Z.of_nat i * length v) with (blen (concat (take i xs))).
  2:{ rewrite (rep_prefix _ (drop i xs)) by (by rewrite take_drop).
      apply lookup_lt_Some in Hx. rewrite length_take. lia. }
  rewrite <- Hl. apply rd_mid.
Qed.

End Rep.

(** ** Growth *)

Lemma round_up_spec n : 0 < n <= 2 ^ 31 -> n <= round_up n < 2 * n.
Proof.
  intros Hn. unfold round_up. destruct (Math.is_pow_of_2 n =? 0); cbn [negb]; [lia|].
  pose proof (Math.next_pow_of_2_bounds n ltac:(lia)).
  rewrite u4_id by (unfold is_u4, U4_MOD; lia). lia.
Qed.

Lemma vec_init_rep malloc v n len v' :
  malloc_ok malloc -> 0 <= n -> 0 <= len -> n * len <= 2 ^ 31 ->
  lisk_vector_init malloc (Some v) n len = (0, Some v') -> vec_rep v' [] /\ length v' = len.
Proof.
  intros Hm Hn Hlen Hc. unfold lisk_vector_init. destruct (_ || _) eqn:E; [done|]. to_prop.
  rewrite u4_id by (unfold is_u4, U4_MOD; nia).
  pose proof (round_up_spec (n * len) ltac:(nia)) as Hru.
  destruct (malloc (round_up (n * len))) as [b|] eqn:Eb; [|done]. intros [= <-].
  split; [|done]. split; cbn; [lia| |done|constructor|].
  - unfold U4_MOD. lia.
  - exists b. split; [done|]. apply Hm; [nia|done].
Qed.

(** A reallocation keeps the elements that fit, or loses them all: REALLOC has stored nil. *)
Lemma realloc_rep realloc v xs n :
  realloc_ok realloc -> vec_rep v xs -> 0 < n -> n * length v < U4_MOD ->
  (realloc (data v) (n * length v) = None /\
     lisk_vector_realloc realloc (Some v) n = (-2, Some (with_data v None))) \/
  exists v', lisk_vector_realloc realloc (Some v) n = (0, Some v') /\ vec_rep v' (take (Z.to_nat n) xs) /\
    length v' = length v /\ capacity v' = n * length v.
Proof.
  intros Hre Hr Hn Hb. pose proof (rep_number_nonneg v xs Hr). pose proof (vr_cap v xs Hr).
  pose proof (vr_len v xs Hr). pose proof (vr_num v xs Hr) as Hnum. destruct (vr_data v xs Hr) as (sl & Hd & Hl).
  unfold lisk_vector_realloc. rewrite (proj2 (Z.eqb_neq _ _)), (proj2 (Z.eqb_neq _ _)) by lia.
  rewrite (Z.mul_comm (length v)), u4_id by (unfold is_u4; nia).
  destruct (realloc (data v) (n * length v)) as [c|] eqn:Hc; [right|by left]. rewrite Hd in Hc.
  destruct (Hre (concat xs ++ sl) (n * length v) c ltac:(nia) Hc) as [Hcl Hpre]. cbn.
  pose proof (vr_units v xs Hr) as Hu. rewrite <- (take_drop (Z.to_nat n) xs) in Hu.
  apply units_app in Hu as [Hu _].
  assert (blen (concat (take (Z.to_nat n) xs)) <= n * length v) as Hle.
  { rewrite (blen_concat (length v)) by done. rewrite length_take. nia. }
  destruct (Hpre (concat (take (Z.to_nat n) xs)) (concat (drop (Z.to_nat n) xs) ++ sl)) as [z ->].
  { by rewrite app_assoc, <- concat_app, take_drop. }
  { done. }
  eexists. split; [done|]. destruct (n <? number v) eqn:E; to_prop; cbn; (split; [|done]).
  - split; cbn; [done|nia| |done|by exists z]. rewrite length_take. lia.
  - split; cbn; [done|nia| |done|by exists z]. rewrite length_take. lia.
Qed.

(** ** Insertion and removal, on any split of the elements *)

Lemma units_blen us xs n : units us xs -> blen (concat xs) = n * us -> 0 < us -> Z.of_nat (List.length xs) = n.
Proof. intros Hu. rewrite (blen_concat us) by done. nia. Qed.

Lemma with_number_id v : with_number v (number v) = v.
Proof. by destruct v. Qed.

(** The move of insertion: a gap of [size] units opens after [xs]. *)
Lemma open_gap v xs ys size :
  vec_rep v (xs ++ ys) -> ys <> [] -> 0 < size ->
  (number v + size) * length v <= capacity v ->
  exists d gap rest,
    move_elems v (Z.of_nat (List.length xs) * length v + elem_off v size)
      (Z.of_nat (List.length xs) * length v) (elem_off v (number v - Z.of_nat (List.length xs))) =
      Some (0, with_data v (Some d)) /\
    d = concat xs ++ gap ++ concat ys ++ rest /\ blen gap = size * length v /\ blen d = capacity v.
Proof.
  intros Hr Hys Hsz Hcap. pose proof (vr_len _ _ Hr) as Hlen. pose proof (vr_cap _ _ Hr) as Hc.
  pose proof (proj1 (units_app _ _ _) (vr_units _ _ Hr)) as [Hux Huy].
  pose proof (vr_num _ _ Hr) as Hn. rewrite length_app in Hn.
  destruct (vr_data _ _ Hr) as (sl & Hd & Hl). rewrite concat_app, <- app_assoc in Hd, Hl.
  pose proof (blen_concat _ _ Hux) as Hbx. pose proof (blen_concat _ _ Huy) as Hby.
  rewrite !blen_app in Hl.
  assert (1 <= Z.of_nat (List.length ys)) by (destruct ys; [done|cbn; lia]).
  assert (elem_off v size = size * length v) as -> by (apply u4_id; unfold is_u4; nia).
  rewrite (elem_off_exact v _ Hr) by lia.
  replace (number v - Z.of_nat (List.length xs)) with (Z.of_nat (List.length ys)) by lia.
  rewrite <- Hbx, <- Hby. unfold move_elems. rewrite (proj2 (Z.leb_gt _ _)) by nia.
  rewrite Hd. cbn [mbind option_bind]. unfold copy_data.
  rewrite (proj2 (Z.leb_gt _ _)) by nia. rewrite (proj2 (Z.eqb_neq _ _)) by nia. cbn [negb].
  rewrite rd_mid. cbn [mbind option_bind].
  destruct (split_blen (concat ys ++ sl) (size * length v)) as (gap & r & Eg & Hg);
    [rewrite blen_app; nia|].
  destruct (split_blen r (blen (concat ys))) as (mid & rest & -> & Hmid).
  { split; [apply blen_nonneg|]. apply (f_equal blen) in Eg. rewrite !blen_app in Eg. nia. }
  rewrite Eg. rewrite app_assoc.
  replace (blen (concat xs) + size * length v) with (blen (concat xs ++ gap)) by (rewrite blen_app; lia).
  rewrite wr_mid by done. cbn [mbind option_bind].
  eexists _, gap, rest. split; [done|]. split; [by rewrite <- app_assoc|]. split; [done|].
  apply (f_equal blen) in Eg. rewrite !blen_app in *. lia.
Qed.

Lemma gap_spec v xs ys size :
  vec_rep v (xs ++ ys) -> 0 < size -> (number v + size) * length v <= capacity v ->
  let pos := Z.of_nat (List.length xs) in
  exists d gap rest,
    (if pos <? number v
     then move_elems v (elem_off v pos + elem_off v size) (elem_off v pos) (elem_off v (u4 (number v - pos)))
     else Some (0, v)) = Some (0, with_data v (Some d)) /\
    d = concat xs ++ gap ++ concat ys ++ rest /\ blen gap = size * length v /\ blen d = capacity v.
Proof.
  intros Hr Hsz Hcap pos. pose proof (vr_num _ _ Hr) as Hn. rewrite length_app in Hn.
  pose proof (vr_cap _ _ Hr). pose proof (vr_len _ _ Hr).
  destruct (pos <? number v) eqn:E; to_prop.
  - rewrite (elem_off_exact v _ Hr pos) by lia. rewrite (u4_id (number v - pos)) by (unfold is_u4; nia).
    apply open_gap; [done| |done|done]. intros ->. cbn in Hn. lia.
  - assert (ys = []) as -> by (destruct ys; [done|cbn in Hn; lia]). rewrite app_nil_r in Hr.
    destruct (vr_data _ _ Hr) as (sl & Hd & Hl). pose proof (rep_bytes v xs Hr) as Hb.
    destruct (split_blen sl (size * length v)) as (gap & rest & -> & Hg).
    { rewrite blen_app in Hl. nia. }
    exists (concat xs ++ gap ++ rest), gap, rest. split; [|done]. rewrite <- Hd. by destruct v.
Qed.

(** The insertion of [size] elements needs a larger block and is refused one. *)
Definition grow_fails (realloc : realloc_fun) (v : lisk_vector_t) (size : Z) : Prop :=
  capacity v < (number v + size) * length v /\
  realloc (data v) (round_up (number v + size) * length v) = None.

Lemma grow_spec realloc v xs size :
  realloc_ok realloc -> vec_rep v xs -> 0 < size -> 2 * (number v + size) * length v < U4_MOD ->
  let grown := (if capacity v <? u4 (u4 (number v + size) * length v)
                then lisk_vector_realloc realloc (Some v) (round_up (u4 (number v + size)))
                else (0, Some v)) in
  (grow_fails realloc v size /\ grown = (-2, Some (with_data v None))) \/
  exists v', grown = (0, Some v') /\
    vec_rep v' xs /\ length v' = length v /\ (number v + size) * length v <= capacity v'.
Proof.
  intros Hre Hr Hsz Hb grown. pose proof (rep_number_nonneg v xs Hr). pose proof (vr_len v xs Hr).
  assert (number v + size <= 2 ^ 31) by (unfold U4_MOD in *; nia). unfold grown. clear grown.
  rewrite (u4_id (number v + size)), u4_id by (unfold is_u4, U4_MOD in *; nia).
  destruct (capacity v <? _) eqn:E; to_prop; [|right; by exists v].
  pose proof (round_up_spec (number v + size) ltac:(lia)). pose proof (vr_num v xs Hr).
  destruct (realloc_rep realloc v xs (round_up (number v + size)) Hre Hr) as [[? Hf]|(v' & Hv & Hr' & El & Ec)];
    [lia|nia|left; by split|right]. exists v'. split; [done|]. rewrite take_ge in Hr' by lia.
  split; [done|]. split; [done|]. rewrite Ec. nia.
Qed.

(** [insert] puts [zs] between [xs] and [ys], unless it cannot grow. *)
Lemma vec_insert_spec realloc v xs ys zs extra :
  realloc_ok realloc -> vec_rep v (xs ++ ys) -> units (length v) zs -> zs <> [] ->
  2 * (number v + Z.of_nat (List.length zs)) * length v < U4_MOD ->
  let r := lisk_vector_insert realloc (Some v) (Z.of_nat (List.length xs))
             (Some (concat zs ++ extra)) (Z.of_nat (List.length zs)) in
  (grow_fails realloc v (Z.of_nat (List.length zs)) /\ r = Some (-2, Some (with_data v None))) \/
  exists v', r = Some (0, Some v') /\ vec_rep v' (xs ++ zs ++ ys) /\ length v' = length v.
Proof.
  intros Hre Hr Hz Hzn Hb r. set (size := Z.of_nat (List.length zs)) in *.
  assert (0 < size) by (unfold size; destruct zs; [done|cbn; lia]).
  pose proof (rep_number_nonneg v _ Hr). pose proof (vr_len v _ Hr). pose proof (vr_num v _ Hr) as Hn.
  rewrite length_app in Hn. unfold r, lisk_vector_insert.
  rewrite (proj2 (Z.eqb_neq _ _)) by lia. rewrite (proj2 (Z.ltb_ge _ _)) by lia. cbn [orb].
  destruct (grow_spec realloc v _ size Hre Hr) as [[Hf ->]|(v1 & -> & Hr1 & El & Hc1)]; [done|done|by left|right].
  cbn [mbind option_bind Z.eqb negb]. pose proof (vr_num v1 _ Hr1) as Hn1. rewrite length_app in Hn1.
  destruct (gap_spec v1 xs ys size Hr1) as (d & gap & rest & -> & -> & Hg & Hd); [done|rewrite El; lia|].
  cbn [mbind option_bind Z.eqb negb].
  pose proof (proj1 (units_app _ _ _) (vr_units _ _ Hr)) as [Hux Huy].
  pose proof (blen_concat _ _ Hz) as Hbz. pose proof (blen_concat _ _ Hux) as Hbx.
  assert (elem_off (with_data v1 (Some (concat xs ++ gap ++ concat ys ++ rest))) size = blen (concat zs)) as ->.
  { unfold elem_off. cbn. rewrite El, Hbz. apply u4_id. unfold is_u4. fold size. nia. }
  rewrite (elem_off_exact v1 _ Hr1) by lia.
  assert (Z.of_nat (List.length xs) * length v1 = blen (concat xs)) as -> by (rewrite El; lia).
  unfold copy_array. rewrite (proj2 (Z.leb_gt _ _)) by (rewrite Hbz; fold size; nia).
  rewrite rd_head. cbn [mbind option_bind data with_data].
  rewrite wr_mid by (rewrite Hbz; fold size; lia). cbn [mbind option_bind].
  eexists. split; [done|]. split; [|done]. pose proof (vr_cap v1 _ Hr1).
  split; cbn; [lia|done| | |].
  - rewrite u4_id by (unfold is_u4; nia). rewrite !length_app. lia.
  - rewrite El. by rewrite !units_app.
  - exists rest. rewrite !concat_app, <- !app_assoc. split; [done|]. rewrite !blen_app in *. fold size in Hbz. lia.
Qed.

(** [erase] removes [ys]. *)
Lemma vec_erase_spec v xs ys zs :
  vec_rep v (xs ++ ys ++ zs) -> ys <> [] ->
  exists v', lisk_vector_erase (Some v) (Z.of_nat (List.length xs)) (Z.of_nat (List.length ys)) =
      Some (if decide (zs = []) then None else Some (Z.of_nat (List.length xs) * length v), Some v') /\
    vec_rep v' (xs ++ zs) /\ length v' = length v /\ capacity v' = capacity v.
Proof.
  intros Hr Hys. pose proof (rep_number_nonneg v _ Hr). pose proof (vr_len v _ Hr).
  pose proof (vr_num v _ Hr) as Hn. rewrite !length_app in Hn. pose proof (vr_cap v _ Hr).
  pose proof (rep_fits v _ Hr) as Hfit.
  assert (1 <= Z.of_nat (List.length ys)) by (destruct ys; [done|cbn; lia]).
  pose proof (proj1 (units_app _ _ _) (vr_units _ _ Hr)) as [Hux [Huy Huz]%units_app].
  pose proof (blen_concat _ _ Hux) as Hbx. pose proof (blen_concat _ _ Huy) as Hby.
  pose proof (blen_concat _ _ Huz) as Hbz.
  destruct (vr_data _ _ Hr) as (sl & Hd & Hl).
  unfold lisk_vector_erase, lisk_vector_empty. rewrite (proj2 (Z.eqb_neq _ _)) by lia.
  rewrite (proj2 (Z.eqb_neq (number v) 0)) by lia. cbn [Z.eqb].
  rewrite (u4_id (_ + Z.of_nat (List.length ys))) by (unfold is_u4; nia).
  rewrite (u4_id (number v - _)) by (unfold is_u4; nia).
  rewrite !(elem_off_exact v _ Hr) by lia.
  rewrite (proj2 (Z.leb_gt _ _)), (proj2 (Z.ltb_ge _ _)), (proj2 (Z.eqb_neq _ _)) by nia. cbn [orb].
  replace (number v - (Z.of_nat (List.length xs) + Z.of_nat (List.length ys))) with (Z.of_nat (List.length zs)) by lia.
  rewrite <- Hbx, <- Hby, <- Hbz.
  destruct (decide (zs = [])) as [->|Hz].
  - rewrite (proj2 (Z.ltb_ge _ _)) by (rewrite Hbz; cbn; lia). eexists. split; [done|]. split; [|done].
    rewrite app_nil_r in *. split; cbn; [done|done| |done|].
    + rewrite u4_id by (unfold is_u4; nia). cbn in Hn. lia.
    + exists (concat ys ++ sl). by rewrite app_assoc, <- concat_app.
  - assert (1 <= Z.of_nat (List.length zs)) by (destruct zs; [done|cbn; lia]).
    rewrite (proj2 (Z.ltb_lt _ _)) by nia. unfold move_elems, copy_data. rewrite (proj2 (Z.leb_gt _ _)) by nia.
    rewrite Hd. cbn [mbind option_bind]. rewrite (proj2 (Z.eqb_neq _ _)) by nia. cbn [negb].
    rewrite !concat_app, <- !app_assoc in Hl |- *.
    replace (blen (concat xs) + blen (concat ys)) with (blen (concat xs ++ concat ys)) by apply blen_app.
    rewrite (app_assoc (concat xs)), rd_mid. cbn [mbind option_bind]. rewrite <- app_assoc.
    destruct (split_blen (concat ys ++ concat zs ++ sl) (blen (concat zs))) as (t & rest & E & Ht);
      [rewrite !blen_app; pose proof (blen_nonneg sl); pose proof (blen_nonneg (concat zs)); nia|].
    rewrite E, wr_mid by done. cbn [mbind option_bind Z.eqb negb].
    eexists. split; [done|]. split; [|done]. split; cbn; [done|done| | |].
    + rewrite u4_id by (unfold is_u4; nia). rewrite length_app. lia.
    + by rewrite units_app.
    + exists rest. rewrite concat_app, <- app_assoc. split; [done|].
      apply (f_equal blen) in E. rewrite !blen_app in *. lia.
Qed.

(** ** Reversal *)

Lemma wr_elem v xs x y ys d :
  vec_rep v (xs ++ x :: ys) -> blen y = length v -> data v = Some d ->
  exists d', wr d (elem_off v (Z.of_nat (List.length xs))) y = Some d' /\
    vec_rep (with_data v (Some d')) (xs ++ y :: ys).
Proof.
  intros Hr Hy Hd. pose proof (vr_num v _ Hr) as Hn. rewrite length_app in Hn. cbn in Hn.
  rewrite (elem_off_exact v _ Hr) by lia. destruct (vr_data v _ Hr) as (sl & Hd' & Hl).
  pose proof (proj1 (units_app _ _ _) (vr_units _ _ Hr)) as [Hux Huy].
  apply Forall_cons_1 in Huy as [Hx Huy].
  rewrite <- (blen_concat _ _ Hux). rewrite concat_app in Hd', Hl. cbn [concat] in Hd', Hl.
  rewrite <- !app_assoc in Hd', Hl. rewrite Hd in Hd'. injection Hd' as ->.
  rewrite wr_mid by congruence. eexists. split; [done|]. destruct Hr. split; cbn; auto.
  - by rewrite length_app in vr_num0 |- *.
  - apply units_app. split; [done|]. by constructor.
  - exists sl. rewrite concat_app. cbn [concat]. rewrite <- !app_assoc. split; [done|].
    rewrite !blen_app in *. lia.
Qed.

Lemma reverse_swap_spec v a x m y c :
  vec_rep v (a ++ x :: m ++ y :: c) ->
  exists d, reverse_swap v (Z.of_nat (List.length a)) (Z.of_nat (List.length a + S (List.length m))) =
      Some (with_data v (Some d)) /\ vec_rep (with_data v (Some d)) (a ++ y :: m ++ x :: c).
Proof.
  intros Hr. pose proof (vr_num v _ Hr) as Hn. rewrite length_app in Hn. cbn [List.length] in Hn.
  rewrite length_app in Hn. cbn [List.length] in Hn. pose proof (vr_len v _ Hr) as Hlen.
  pose proof (proj1 (units_app _ _ _) (vr_units _ _ Hr)) as [Ha [Hx Hm]%Forall_cons_1].
  apply Forall_app in Hm as [Hm [Hy Hc]%Forall_cons_1].
  assert (Forall (fun z => blen z = length v) [x; y]) as Hxy by (by repeat constructor).
  destruct (data v) as [d|] eqn:Hd; [|by destruct (vr_data v _ Hr) as (? & ? & _); congruence].
  assert ((a ++ x :: m ++ y :: c) !! (List.length a + S (List.length m))%nat = Some y) as Ly.
  { rewrite lookup_app_r by lia. replace (_ - _)%nat with (S (List.length m)) by lia.
    change ((m ++ y :: c) !! List.length m = Some y). by rewrite list_lookup_middle. }
  assert ((a ++ x :: m ++ y :: c) !! List.length a = Some x) as Lx by (by rewrite list_lookup_middle).
  unfold reverse_swap. rewrite Hd. cbn [mbind option_bind].
  pose proof (rd_elem v _ Hr _ _ d Lx Hd) as Rx. pose proof (rd_elem v _ Hr _ _ d Ly Hd) as Ry.
  rewrite (elem_off_exact v _ Hr (Z.of_nat (List.length a))), (elem_off_exact v _ Hr) by lia.
  rewrite Rx. cbn [mbind option_bind]. unfold copy_data. rewrite (proj2 (Z.leb_gt _ _)) by lia.
  rewrite (proj2 (Z.eqb_neq _ _)) by nia. cbn [negb]. rewrite Ry. cbn [mbind option_bind].
  destruct (wr_elem v a x y (m ++ y :: c) d Hr) as (d1 & W1 & Hr1); [by inversion Hxy; inversion H2|done|].
  rewrite (elem_off_exact v _ Hr) in W1 by lia. rewrite W1. cbn [mbind option_bind].
  rewrite app_comm_cons, app_assoc in Hr1.
  destruct (wr_elem (with_data v (Some d1)) (a ++ y :: m) y x c d1 Hr1) as (d2 & W2 & Hr2);
    [by inversion Hxy|done|].
  rewrite length_app in W2. cbn [List.length] in W2. change (elem_off (with_data v (Some d1))) with (elem_off v) in W2.
  rewrite (elem_off_exact v _ Hr) in W2 by lia. rewrite W2. cbn [mbind option_bind].
  exists d2. split; [done|]. rewrite <- app_assoc in Hr2. exact Hr2.
Qed.

Lemma reverse_loop_spec fuel v a m c :
  vec_rep v (a ++ m ++ c) -> List.length c = List.length a -> (1 <= List.length a + List.length m)%nat ->
  (List.length m <= fuel)%nat -> (1 <= fuel)%nat ->
  exists v', reverse_loop fuel v (Z.of_nat (List.length a))
      (Z.of_nat (List.length a) + Z.of_nat (List.length m) - 1) = Some v' /\
    vec_rep v' (a ++ rev m ++ c) /\ length v' = length v /\ capacity v' = capacity v.
Proof.
  revert v a m c. induction fuel as [|f IH]; intros v a m c Hr Hac H1 Hf Hf1; [lia|].
  cbn [reverse_loop]. pose proof (vr_num v _ Hr) as Hn. rewrite !length_app in Hn.
  pose proof (vr_cap v _ Hr). pose proof (vr_len v _ Hr). pose proof (rep_fits v _ Hr).
  destruct (_ <? _) eqn:E; to_prop.
  - destruct m as [|x m]; [cbn in E; lia|].
    destruct m as [|y m _] using rev_ind; [cbn in E; lia|]. cbn [List.length] in *. rewrite length_app in *. cbn in Hn, E, Hf.
    rewrite <- app_comm_cons, <- app_assoc in Hr. cbn [app] in Hr.
    destruct (reverse_swap_spec v a x m y c Hr) as (d & Hsw & Hr').
    replace (Z.of_nat (List.length a) + _ - 1) with (Z.of_nat (List.length a + S (List.length m))) by (cbn; lia).
    rewrite Hsw. cbn [mbind option_bind].
    destruct (IH (with_data v (Some d)) (a ++ [y]) m (x :: c)) as (v' & Hl & Hr2 & El & Ec);
      [by rewrite <- app_assoc|rewrite length_app; cbn; lia|rewrite length_app; cbn; lia|lia|lia|].
    rewrite length_app in Hl. cbn [List.length] in Hl.
    rewrite !u4_id by (unfold is_u4; nia).
    exists v'. split; [|split; [|done]].
    + rewrite <- Hl. f_equal; lia.
    + cbn [rev]. rewrite rev_app_distr. cbn [rev app]. rewrite <- !app_assoc in *. exact Hr2.
  - exists v. split; [done|]. split; [|done].
    destruct m as [|x [|y m]]; [done|done|cbn in E; lia].
Qed.

Lemma reverse_spec malloc v xs :
  vec_rep v xs -> xs <> [] ->
  exists v', lisk_vector_reverse malloc (Some v) =
      Some (if decide (1024 < length v /\ malloc (length v) = None) then (-2, Some v) else (0, Some v')) /\
    vec_rep v' (rev xs) /\ length v' = length v /\ capacity v' = capacity v.
Proof.
  intros Hr Hxs. pose proof (vr_num v _ Hr) as Hn.
  assert (1 <= Z.of_nat (List.length xs)) by (destruct xs; [done|cbn; lia]).
  pose proof (vr_cap v _ Hr). pose proof (vr_len v _ Hr). pose proof (rep_fits v _ Hr).
  unfold lisk_vector_reverse. rewrite (proj2 (Z.eqb_neq _ _)) by lia.
  assert (exists v', reverse_loop (Z.to_nat (number v)) v 0 (u4 (number v - 1)) = Some v' /\
            vec_rep v' (rev xs) /\ length v' = length v /\ capacity v' = capacity v) as (v' & Hl & Hrest).
  { destruct (reverse_loop_spec (Z.to_nat (number v)) v [] xs []) as (v' & Hl & Hr' & ?);
      rewrite ?app_nil_r; cbn; [done|done|lia..|].
    rewrite app_nil_r in Hr'. exists v'. split; [|done]. rewrite u4_id by (unfold is_u4; nia).
    rewrite <- Hl. f_equal; cbn; lia. }
  rewrite Hl. exists v'. split; [|done]. cbn [mbind option_bind]. change (SIZE_K 1) with 1024.
  destruct (1024 <? length v) eqn:El; to_prop; [destruct (malloc (length v)) eqn:Em|]; cbn [negb].
  - by rewrite decide_False by (intros [_ ?]; congruence).
  - by rewrite decide_True.
  - by rewrite decide_False by (intros [? _]; lia).
Qed.

(** ** The abstract vector: a list of elements of [us] bytes *)

(** [VNext] and [VPre] are given a pointer to the place [pos]; [VFind] compares bytes. *)
Inductive vop :=
  | VInsert (pos : Z) (zs : list bytes) | VPushBack (zs : list bytes) | VAssign (zs : list bytes)
  | VErase (pos size : Z) | VPopUp | VPopBack | VReverse | VClear | VRealloc (num : Z)
  | VAt (pos : Z) | VFirst | VLast | VNext (pos : Z) | VPre (pos : Z) | VFind (value : bytes) | VEmpty.

(** A call has what [realloc] and [malloc] do during it. *)
Record vcall := VCall { vc_realloc : realloc_fun; vc_malloc : malloc_fun; vc_op : vop }.

Inductive vout := VCode (ret : Z) | VPtr (p : option Z) | VElem (x : option bytes) | VVoid.

Definition list_insert (pos : Z) (zs q : list bytes) : vout * list bytes :=
  if decide (zs = [] \/ Z.of_nat (List.length q) < pos) then (VCode (-1), q)
  else (VCode 0, take (Z.to_nat pos) q ++ zs ++ drop (Z.to_nat pos) q).

Definition list_erase (us pos size : Z) (q : list bytes) : vout * list bytes :=
  if decide (size = 0 \/ Z.of_nat (List.length q) <= pos \/ Z.of_nat (List.length q) < pos + size)
  then (VPtr None, q)
  else (VPtr (if decide (pos + size = Z.of_nat (List.length q)) then None else Some (pos * us)),
        take (Z.to_nat pos) q ++ drop (Z.to_nat (pos + size)) q).

(** A reversal of elements too large for the buffer on the stack allocates one. *)
Definition list_reverse (us : Z) (malloc : malloc_fun) (q : list bytes) : vout * list bytes :=
  match q with
  | [] => (VCode (-1), q)
  | _ => if decide (1024 < us /\ malloc us = None) then (VCode (-2), q) else (VCode 0, rev q)
  end.

Definition list_vstep (us : Z) (malloc : malloc_fun) (op : vop) (q : list bytes) : vout * list bytes :=
  let n := Z.of_nat (List.length q) in
  match op with
  | VInsert pos zs => list_insert pos zs q
  | VPushBack zs => list_insert n zs q
  | VAssign zs => if decide (zs = []) then (VCode (-1), q) else (VCode 0, zs)
  | VErase pos size => list_erase us pos size q
  | VPopUp => list_erase us 0 1 q
  | VPopBack => match q with [] => (VPtr None, q) | _ => list_erase us (n - 1) 1 q end
  | VReverse => list_reverse us malloc q
  | VClear => (VVoid, [])
  | VRealloc num => (VCode 0, take (Z.to_nat num) q)
  | VAt pos => (VElem (q !! Z.to_nat pos), q)
  | VFirst => (VElem (head q), q)
  | VLast => (VElem (last q), q)
  | VNext pos => (VPtr (if decide (pos + 1 < n) then Some ((pos + 1) * us) else None), q)
  | VPre pos => (VPtr (if decide (0 < pos < n) then Some ((pos - 1) * us) else None), q)
  | VFind value => (VPtr ((fun p => Z.of_nat (fst p) * us) <$> list_find (fun x => x = value) q), q)
  | VEmpty => (VCode (if decide (q = []) then 0 else -1), q)
  end.

Fixpoint list_vrun (us : Z) (cs : list vcall) (q : list bytes) : list vout * list bytes :=
  match cs with
  | [] => ([], q)
  | c :: cs' =>
      let '(o, q1) := list_vstep us (vc_malloc c) (vc_op c) q in
      let '(os, q2) := list_vrun us cs' q1 in (o :: os, q2)
  end.

(** The element behind a returned pointer. *)
Definition deref (vect : option lisk_vector_t) (p : option Z) : option vout :=
  match p with
  | None => Some (VElem None)
  | Some off => v ← vect; d ← data v; x ← rd d off (length v); Some (VElem (Some x))
  end.

Definition vec_step (c : vcall) (v : option lisk_vector_t) : option (vout * option lisk_vector_t) :=
  let code r := '(r, v') ← r; Some (VCode r, v') in
  let ptr r := '(p, v') ← r; Some (VPtr p, v') in
  let n zs := Z.of_nat (List.length zs) in
  let realloc := vc_realloc c in
  match vc_op c with
  | VInsert pos zs => code (lisk_vector_insert realloc v pos (Some (concat zs)) (n zs))
  | VPushBack zs => code (lisk_vector_push_back realloc v (Some (concat zs)) (n zs))
  | VAssign zs => code (lisk_vector_assign realloc v (Some (concat zs)) (n zs))
  | VErase pos size => ptr (lisk_vector_erase v pos size)
  | VPopUp => ptr (lisk_vector_pop_up v)
  | VPopBack => ptr (lisk_vector_pop_back v)
  | VReverse => code (lisk_vector_reverse (vc_malloc c) v)
  | VClear => Some (VVoid, lisk_vector_clear v)
  | VRealloc num => let '(r, v') := lisk_vector_realloc realloc v num in Some (VCode r, v')
  | VAt pos => o ← deref v (lisk_vector_at v pos); Some (o, v)
  | VFirst => o ← deref v (lisk_vector_first v); Some (o, v)
  | VLast => o ← deref v (lisk_vector_last v); Some (o, v)
  | VNext pos => Some (VPtr (lisk_vector_next v (pos * default 0 (length <$> v))), v)
  | VPre pos => Some (VPtr (lisk_vector_pre v (pos * default 0 (length <$> v))), v)
  | VFind value => p ← lisk_vector_find v (Some value) None; Some (VPtr p, v)
  | VEmpty => Some (VCode (lisk_vector_empty v), v)
  end.

Fixpoint vec_run (cs : list vcall) (v : option lisk_vector_t) : option (list vout * option lisk_vector_t) :=
  match cs with
  | [] => Some ([], v)
  | c :: cs' => '(o, v1) ← vec_step c v; '(os, v2) ← vec_run cs' v1; Some (o :: os, v2)
  end.

(** The call reallocates the block and [realloc] fails. *)
Definition loses (c : vcall) (v : lisk_vector_t) : Prop :=
  match vc_op c with
  | VInsert _ zs | VPushBack zs => grow_fails (vc_realloc c) v (Z.of_nat (List.length zs))
  | VAssign zs => grow_fails (vc_realloc c) (with_number v 0) (Z.of_nat (List.length zs))
  | VRealloc num => vc_realloc c (data v) (num * length v) = None
  | _ => False
  end.

(** What is left of the vector then: REALLOC has stored nil in it. *)
Definition lost (op : vop) (v : lisk_vector_t) : lisk_vector_t :=
  with_data (match op with VAssign _ => with_number v 0 | _ => v end) None.

(** Elements an operation may add, and its arguments. *)
Definition op_size (op : vop) : Z :=
  match op with VInsert _ zs | VPushBack zs | VAssign zs => Z.of_nat (List.length zs) | _ => 0 end.

Definition op_ok (us : Z) (op : vop) : Prop :=
  match op with
  | VInsert pos zs => 0 <= pos /\ units us zs
  | VPushBack zs | VAssign zs => units us zs
  | VErase pos size => 0 <= pos /\ 0 <= size /\ pos + size < U4_MOD
  | VRealloc num => 0 < num /\ num * us < U4_MOD
  | VAt pos => 0 <= pos
  | VNext pos | VPre pos => 0 <= pos /\ pos * us < U4_MOD
  | VFind value => blen value = us
  | _ => True
  end.

Definition call_ok (us : Z) (c : vcall) : Prop := realloc_ok (vc_realloc c) /\ op_ok us (vc_op c).

Fixpoint ops_size (cs : list vcall) : Z :=
  match cs with [] => 0 | c :: cs' => op_size (vc_op c) + ops_size cs' end.

Lemma rep_clear v xs : vec_rep v xs -> vec_rep (with_number v 0) [].
Proof.
  intros [? ? ? ? (sl & Hd & Hl)]. split; cbn; auto; [constructor|]. by exists (concat xs ++ sl).
Qed.

(** What one call must do. *)
Definition step_post (c : vcall) (v : lisk_vector_t) (q : list bytes) : Prop :=
  (loses c v /\ vec_step c (Some v) = Some (VCode (-2), Some (lost (vc_op c) v))) \/
  exists o v' q', vec_step c (Some v) = Some (o, Some v') /\
    list_vstep (length v) (vc_malloc c) (vc_op c) q = (o, q') /\ vec_rep v' q' /\ length v' = length v /\
    Z.of_nat (List.length q') <= Z.of_nat (List.length q) + op_size (vc_op c).

Lemma insert_step realloc v q pos zs :
  realloc_ok realloc -> vec_rep v q -> 0 <= pos -> units (length v) zs ->
  2 * (number v + Z.of_nat (List.length zs)) * length v < U4_MOD ->
  let r := lisk_vector_insert realloc (Some v) pos (Some (concat zs)) (Z.of_nat (List.length zs)) in
  (grow_fails realloc v (Z.of_nat (List.length zs)) /\ r = Some (-2, Some (with_data v None))) \/
  exists n v' q', r = Some (n, Some v') /\ list_insert pos zs q = (VCode n, q') /\ vec_rep v' q' /\
    length v' = length v /\ Z.of_nat (List.length q') <= Z.of_nat (List.length q) + Z.of_nat (List.length zs).
Proof.
  intros Hre Hr Hpos Hz Hb. cbv zeta. pose proof (vr_num v q Hr) as Hn. unfold list_insert.
  destruct (decide (zs = [] \/ Z.of_nat (List.length q) < pos)) as [Hbad|Hok].
  - right. exists (-1), v, q. split; [|split; [done|split; [done|split; [done|lia]]]]. unfold lisk_vector_insert.
    destruct Hbad as [->|Hbad]; [done|]. rewrite (proj2 (Z.ltb_lt _ _)), orb_true_r by lia. done.
  - assert (zs <> [] /\ pos <= Z.of_nat (List.length q)) as [Hz0 Hp] by (split; [tauto|lia]).
    pose proof (vec_insert_spec realloc v (take (Z.to_nat pos) q) (drop (Z.to_nat pos) q) zs [] Hre) as Hi.
    rewrite take_drop, length_take, app_nil_r in Hi. replace (Z.of_nat (_ `min` _)) with pos in Hi by lia.
    destruct (Hi Hr Hz Hz0 Hb) as [?|(v' & E & Hr' & El)]; [by left|right].
    exists 0, v'. eexists. split; [exact E|]. split; [done|]. split; [done|]. split; [done|].
    rewrite !length_app, length_take, length_drop. lia.
Qed.

Lemma erase_step v q pos size :
  vec_rep v q -> 0 <= pos -> 0 <= size -> pos + size < U4_MOD ->
  exists p v' q', lisk_vector_erase (Some v) pos size = Some (p, Some v') /\
    list_erase (length v) pos size q = (VPtr p, q') /\ vec_rep v' q' /\ length v' = length v /\
    Z.of_nat (List.length q') <= Z.of_nat (List.length q).
Proof.
  intros Hr Hp Hs Hb. pose proof (vr_num v q Hr) as Hn. unfold list_erase.
  pose proof (vr_len v q Hr). pose proof (vr_cap v q Hr). pose proof (rep_fits v q Hr).
  destruct (decide _) as [Hbad|Hok].
  - exists None, v, q. split; [|split; [done|split; [done|split; [done|lia]]]]. unfold lisk_vector_erase, lisk_vector_empty.
    destruct (size =? 0) eqn:E0; [done|]. to_prop. destruct (number v =? 0) eqn:En; [done|]. to_prop. cbn [Z.eqb].
    rewrite u4_id by (unfold is_u4; lia).
    destruct (number v <=? pos) eqn:E1; [done|]. destruct (number v <? pos + size) eqn:E2; [done|].
    to_prop. lia.
  - set (xs := take (Z.to_nat pos) q). set (zs := drop (Z.to_nat (pos + size)) q).
    set (ys := take (Z.to_nat size) (drop (Z.to_nat pos) q)).
    assert (q = xs ++ ys ++ zs) as Hq.
    { unfold xs, ys, zs. rewrite Z2Nat.inj_add, <- drop_drop by lia. by rewrite !take_drop. }
    assert (Z.of_nat (List.length xs) = pos) as Lx by (unfold xs; rewrite length_take; lia).
    assert (Z.of_nat (List.length ys) = size) as Ly by (unfold ys; rewrite length_take, length_drop; lia).
    destruct (vec_erase_spec v xs ys zs) as (v' & E & Hr' & El & _); [by rewrite <- Hq|intros ->; cbn in Ly; lia|].
    rewrite Lx, Ly in E. eexists _, v', (xs ++ zs). split; [exact E|].
    assert (List.length q = (List.length xs + List.length ys + List.length zs)%nat) as Lq
      by (rewrite Hq at 1; rewrite !length_app; lia).
    split.
    + do 2 f_equal. apply decide_ext. split; intros Hx.
      * apply nil_length_inv. lia.
      * rewrite Hx in Lq. cbn in Lq. lia.
    + split; [done|]. split; [done|]. rewrite length_app. lia.
Qed.

(** A pointer to an element is dereferenced. *)
Lemma deref_elem v q (i : nat) :
  vec_rep v q -> (i < List.length q)%nat ->
  deref (Some v) (Some (elem_off v (Z.of_nat i))) = Some (VElem (q !! i)).
Proof.
  intros Hr Hi. pose proof (vr_num v q Hr). destruct (lookup_lt_is_Some_2 q i Hi) as [x Hx].
  rewrite (elem_off_exact v q Hr) by lia. destruct (vr_data v q Hr) as (sl & Hd & _).
  unfold deref. cbn [mbind option_bind]. rewrite Hd. cbn [mbind option_bind].
  by rewrite (rd_elem v q Hr i x _ Hx Hd), Hx.
Qed.

Lemma at_step v q pos :
  vec_rep v q -> 0 <= pos -> deref (Some v) (lisk_vector_at (Some v) pos) = Some (VElem (q !! Z.to_nat pos)).
Proof.
  intros Hr Hp. pose proof (vr_num v q Hr). unfold lisk_vector_at.
  destruct (number v <=? pos) eqn:E; to_prop.
  - by rewrite lookup_ge_None_2 by lia.
  - rewrite <- (Z2Nat.id pos Hp) at 1. apply deref_elem; [done|lia].
Qed.

Lemma find_step v q value n idx :
  vec_rep v q -> blen value = length v -> (idx + n = List.length q)%nat ->
  find_loop n v value (Z.of_nat idx) =
    Some ((fun p => Z.of_nat (idx + fst p) * length v) <$> list_find (fun x => x = value) (drop idx q)).
Proof.
  intros Hr Hv. revert idx. induction n as [|n IH]; intros idx Hn.
  - by rewrite drop_ge by lia.
  - destruct (vr_data v q Hr) as (sl & Hd & _). destruct (lookup_lt_is_Some_2 q idx) as [x Hx]; [lia|].
    rewrite (drop_S q x idx Hx). cbn [find_loop list_find]. rewrite Hd. cbn [mbind option_bind].
    rewrite (elem_off_exact v q Hr) by (rewrite (vr_num v q Hr); lia).
    rewrite (rd_elem v q Hr idx x _ Hx Hd). cbn [mbind option_bind].
    rewrite (rd_all value) by done. cbn [mbind option_bind].
    destruct (decide (x = value)) as [->|Hne]; [cbn; by rewrite Nat.add_0_r|].
    replace (Z.of_nat idx + 1) with (Z.of_nat (S idx)) by lia. rewrite IH by lia. f_equal.
    destruct (list_find _ _) as [[i y]|]; cbn; [|done]. do 2 f_equal. lia.
Qed.

Lemma next_step v q pos : vec_rep v q -> 0 <= pos -> pos * length v < U4_MOD ->
  lisk_vector_next (Some v) (pos * length v) =
    if decide (pos + 1 < Z.of_nat (List.length q)) then Some ((pos + 1) * length v) else None.
Proof.
  intros Hr Hp Hb. pose proof (vr_num v q Hr) as Hn. pose proof (vr_len v q Hr). pose proof (rep_fits v q Hr).
  pose proof (vr_cap v q Hr). unfold lisk_vector_next. rewrite (proj2 (Z.eqb_neq (length v) 0)) by lia. cbn [orb].
  destruct (number v =? 0) eqn:E0; to_prop; [by rewrite decide_False by lia|].
  rewrite (u4_id (pos * length v)), Z.div_mul by (lia || unfold is_u4; nia).
  unfold elem_off at 1. rewrite (u4_id (pos * length v)) by (unfold is_u4; nia).
  rewrite Z.eqb_refl, (u4_id (number v - 1)) by (unfold is_u4; nia). cbn [negb]. rewrite orb_false_r.
  case_decide; [rewrite (proj2 (Z.leb_gt _ _)) by lia|by rewrite (proj2 (Z.leb_le _ _)) by lia].
  rewrite (u4_id (pos + 1)) by (unfold is_u4; nia). by rewrite (elem_off_exact v q Hr) by lia.
Qed.

Lemma pre_step v q pos : vec_rep v q -> 0 <= pos -> pos * length v < U4_MOD ->
  lisk_vector_pre (Some v) (pos * length v) =
    if decide (0 < pos < Z.of_nat (List.length q)) then Some ((pos - 1) * length v) else None.
Proof.
  intros Hr Hp Hb. pose proof (vr_num v q Hr) as Hn. pose proof (vr_len v q Hr). pose proof (rep_fits v q Hr).
  pose proof (vr_cap v q Hr). unfold lisk_vector_pre. rewrite (proj2 (Z.eqb_neq (length v) 0)) by lia.
  rewrite (u4_id (pos * length v)), Z.div_mul by (lia || unfold is_u4; nia).
  unfold elem_off at 1. rewrite (u4_id (pos * length v)) by (unfold is_u4; nia).
  rewrite Z.eqb_refl. cbn [negb]. rewrite orb_false_r. case_decide.
  - rewrite (proj2 (Z.leb_gt pos 0)), (proj2 (Z.leb_gt (number v) pos)) by lia. cbn [orb].
    rewrite (u4_id (pos - 1)) by (unfold is_u4; nia). by rewrite (elem_off_exact v q Hr) by lia.
  - destruct (pos <=? 0) eqn:E1; [done|]. to_prop. by rewrite (proj2 (Z.leb_le (number v) pos)) by lia.
Qed.

(** The calls that change the elements, then those that read them. *)
Lemma vec_update_spec c v q :
  vec_rep v q -> call_ok (length v) c ->
  2 * (Z.of_nat (List.length q) + op_size (vc_op c)) * length v < U4_MOD ->
  match vc_op c with
  | VInsert _ _ | VPushBack _ | VAssign _ | VErase _ _ | VPopUp | VPopBack | VReverse | VClear | VRealloc _ =>
      step_post c v q
  | _ => True
  end.
Proof.
  intros Hr [Hre Hop] Hb. pose proof (vr_num v q Hr) as Hn. pose proof (vr_len v q Hr) as Hlen.
  unfold step_post. destruct c as [realloc malloc op]. cbn [vc_realloc vc_malloc vc_op] in *.
  destruct op as [pos zs|zs|zs|pos size| | | | |num|pos| | |pos|pos|value| ]; [..|done|done|done|done|done|done|done];
    unfold loses; cbn [vec_step list_vstep op_size op_ok lost vc_realloc vc_malloc vc_op] in *.
  - destruct Hop as [Hp Hz].
    destruct (insert_step realloc v q pos zs Hre Hr Hp Hz) as [[? ->]|(r & v' & q' & -> & E & ?)]; [lia|by left|right].
    exists (VCode r), v', q'. auto.
  - destruct (insert_step realloc v q (number v) zs Hre Hr) as [[? E]|(r & v' & q' & E & E' & ?)]; [lia|done|lia| |];
      unfold lisk_vector_push_back; rewrite E; [by left|right]. rewrite Hn in E'. exists (VCode r), v', q'. auto.
  - unfold lisk_vector_assign. destruct (decide (zs = [])) as [->|Hz].
    { right. exists (VCode (-1)), v, q. split; [done|]. split; [done|]. split; [done|]. split; [done|]. lia. }
    rewrite (proj2 (Z.eqb_neq _ _)) by (destruct zs; [done|cbn; lia]).
    pose proof (rep_clear v q Hr) as Hr0. unfold lisk_vector_push_back, lisk_vector_clear.
    destruct (insert_step realloc (with_number v 0) [] 0 zs Hre Hr0) as [[? E]|(r & v' & q' & E & E' & Hr' & El & Hle)];
      [lia|done|cbn; lia| |]; cbn [number with_number]; rewrite E; [by left|right].
    unfold list_insert in E'. rewrite decide_False in E' by (cbn; intros [?|?]; [done|lia]).
    rewrite take_nil, drop_nil, app_nil_r in E'. injection E' as <- <-.
    exists (VCode 0), v', zs. split; [done|]. split; [done|]. split; [done|]. split; [done|]. lia.
  - right. destruct Hop as (Hp & Hs & Hps).
    destruct (erase_step v q pos size Hr Hp Hs Hps) as (p & v' & q' & -> & E & Hr' & El & Hle).
    exists (VPtr p), v', q'. split; [done|]. split; [done|]. split; [done|]. split; [done|]. lia.
  - right. unfold lisk_vector_pop_up, lisk_vector_empty.
    destruct (erase_step v q 0 1 Hr) as (p & v' & q' & E & E' & Hr' & El & Hle); [lia|lia|done|].
    destruct (number v =? 0) eqn:E0; to_prop; cbn [Z.eqb].
    + destruct q; [|cbn in Hn; lia]. exists (VPtr None), v, [].
      split; [done|]. split; [done|]. split; [done|]. split; [done|]. lia.
    + rewrite E. exists (VPtr p), v', q'. split; [done|]. split; [done|]. split; [done|]. split; [done|]. lia.
  - right. unfold lisk_vector_pop_back, lisk_vector_empty.
    pose proof (rep_fits v q Hr). pose proof (vr_cap v q Hr).
    destruct (number v =? 0) eqn:E0; to_prop; cbn [Z.eqb].
    + destruct q; [|cbn in Hn; lia]. exists (VPtr None), v, [].
      split; [done|]. split; [done|]. split; [done|]. split; [done|]. lia.
    + rewrite u4_id by (unfold is_u4; nia).
      destruct (erase_step v q (number v - 1) 1 Hr) as (p & v' & q' & E & E' & Hr' & El & Hle); [lia|lia|nia|].
      rewrite E. rewrite Hn in E'. exists (VPtr p), v', q'. split; [done|].
      split; [by destruct q; [cbn in Hn; lia|]|]. split; [done|]. split; [done|]. lia.
  - right. destruct q as [|x q].
    + unfold lisk_vector_reverse. rewrite Hn. cbn. exists (VCode (-1)), v, [].
      split; [done|]. split; [done|]. split; [done|]. split; [done|]. cbn. lia.
    + destruct (reverse_spec malloc v (x :: q) Hr) as (v' & -> & Hr' & El & _); [done|]. unfold list_reverse.
      case_decide; [exists (VCode (-2)), v, (x :: q)|exists (VCode 0), v', (rev (x :: q))];
        (split; [done|]; split; [done|]; split; [done|]; split; [done|]); rewrite ?length_rev; lia.
  - right. exists VVoid, (with_number v 0), []. split; [done|]. split; [done|]. split; [by eapply rep_clear|].
    split; [done|]. cbn. lia.
  - destruct Hop as [Hn0 Hnb].
    destruct (realloc_rep realloc v q num Hre Hr Hn0 Hnb) as [[? ->]|(v' & -> & Hr' & El & _)]; [by left|right].
    exists (VCode 0), v', (take (Z.to_nat num) q). split; [done|]. split; [done|]. split; [done|]. split; [done|].
    rewrite length_take. lia.
Qed.

Lemma vec_read_spec c v q :
  vec_rep v q -> op_ok (length v) (vc_op c) ->
  match vc_op c with
  | VAt _ | VFirst | VLast | VNext _ | VPre _ | VFind _ | VEmpty => exists o, vec_step c (Some v) = Some (o, Some v) /\
      list_vstep (length v) (vc_malloc c) (vc_op c) q = (o, q)
  | _ => True
  end.
Proof.
  intros Hr Hop. pose proof (vr_num v q Hr) as Hn. pose proof (vr_len v q Hr) as Hlen.
  destruct c as [realloc malloc op]. cbn [vc_op] in *.
  destruct op as [pos zs|zs|zs|pos size| | | | |num|pos| | |pos|pos|value| ]; try done;
    cbn [vec_step list_vstep op_ok vc_malloc vc_op] in *; eexists; (split; [|done]).
  - by rewrite (at_step v q pos Hr Hop).
  - unfold lisk_vector_first. rewrite (at_step v q 0 Hr) by done. by destruct q.
  - unfold lisk_vector_last. pose proof (rep_fits v q Hr). pose proof (vr_cap v q Hr).
    destruct (number v =? 0) eqn:E0; to_prop.
    + destruct q; [done|cbn in Hn; lia].
    + rewrite u4_id by (unfold is_u4; nia). rewrite (at_step v q) by (done || lia). cbn [mbind option_bind].
      rewrite last_lookup. repeat f_equal. lia.
  - cbn [fmap option_fmap option_map default from_option id]. by rewrite (next_step v q) by (done || lia).
  - cbn [fmap option_fmap option_map default from_option id]. by rewrite (pre_step v q) by (done || lia).
  - unfold lisk_vector_find. rewrite Hn, Nat2Z.id. rewrite (find_step v q value _ 0 Hr Hop) by lia. done.
  - unfold lisk_vector_empty. rewrite Hn. by destruct q.
Qed.

Lemma vec_step_spec c v q :
  vec_rep v q -> call_ok (length v) c ->
  2 * (Z.of_nat (List.length q) + op_size (vc_op c)) * length v < U4_MOD -> step_post c v q.
Proof.
  intros Hr Hc Hb. pose proof (vec_update_spec c v q Hr Hc Hb) as Hu.
  pose proof (vec_read_spec c v q Hr (proj2 Hc)) as Ho. destruct (vc_op c) eqn:E; try exact Hu;
    destruct Ho as (o & Es & El); right; exists o, v, q; rewrite E in *;
    (split; [done|]; split; [done|]; split; [done|]; split; [done|]); cbn; lia.
Qed.

(** A run holds what the list holds, up to the first reallocation that fails. *)
Lemma vec_run_spec cs v q :
  vec_rep v q -> Forall (call_ok (length v)) cs ->
  2 * (Z.of_nat (List.length q) + ops_size cs) * length v < U4_MOD ->
  (exists os v' q', vec_run cs (Some v) = Some (os, Some v') /\
     list_vrun (length v) cs q = (os, q') /\ vec_rep v' q') \/
  (exists pre c post os v1 q1, cs = pre ++ c :: post /\ vec_run pre (Some v) = Some (os, Some v1) /\
     list_vrun (length v) pre q = (os, q1) /\ vec_rep v1 q1 /\ loses c v1 /\
     vec_step c (Some v1) = Some (VCode (-2), Some (lost (vc_op c) v1))).
Proof.
  revert v q. induction cs as [|c cs IH]; intros v q Hr Hcs Hb.
  { left. exists [], v, q. done. }
  apply Forall_cons_1 in Hcs as [Hc Hcs]. cbn [ops_size] in Hb. pose proof (vr_len v q Hr).
  assert (0 <= ops_size cs) by (clear; induction cs as [|[? ? []]]; cbn; lia).
  destruct (vec_step_spec c v q Hr Hc) as [[Hl E]|(o & v1 & q1 & E & E' & Hr1 & El & Hle)]; [nia| |].
  { right. exists [], c, cs, [], v, q. done. }
  destruct (IH v1 q1 Hr1) as [(os & v2 & q2 & E2 & E2' & Hr2)|(pre & d & post & os & v2 & q2 & -> & E2 & E2' & Hd)];
    [by rewrite El|rewrite El; nia|left|right].
  - exists (o :: os), v2, q2. cbn [vec_run list_vrun]. rewrite E. cbn [mbind option_bind]. rewrite E2.
    rewrite E', <- El, E2'. done.
  - exists (c :: pre), d, post, (o :: os), v2, q2. cbn [vec_run list_vrun]. rewrite E. cbn [mbind option_bind].
    rewrite E2. rewrite E', <- El, E2'. done.
Qed.


(** All goes well but the reversal of the second vector and its last growth. *)
Definition calm (op : vop) : vcall := VCall realloc_zero malloc_zero op.
Definition poor (op : vop) : vcall := VCall realloc_fail malloc_fail op.

Definition sample_vops : list vcall :=
  (calm <$> [VPushBack [[1; 1]; [2; 2]; [3; 3]]; VInsert 1 [[9; 9]; [8; 8]]; VReverse; VErase 1 2; VAt 1; VPopUp;
     VFirst; VNext 0; VPre 1; VFind [1; 1]; VPopBack; VLast; VInsert 7 [[5; 5]]; VAssign [[4; 4]]; VRealloc 9]) ++
  [poor VReverse; poor (VPushBack [[7; 7]]); poor (VInsert 0 (repeat [6; 6] 8)); calm VEmpty].

Lemma calm_ok op us : op_ok us op -> call_ok us (calm op).
Proof. intros H. split; [exact realloc_zero_ok|exact H]. Qed.

Lemma poor_ok op us : op_ok us op -> call_ok us (poor op).
Proof. intros H. split; [exact realloc_fail_ok|exact H]. Qed.

Lemma sample_vops_ok : Forall (call_ok 2) sample_vops.
Proof.
  unfold sample_vops. cbn [fmap list_fmap app]. repeat apply Forall_cons_2; try apply Forall_nil_2;
    (apply calm_ok || apply poor_ok); unfold op_ok, units, U4_MOD; repeat constructor; lia.
Qed.


(** ** Search *)

Definition matches (cmp : option (bytes -> bytes -> Z)) (value x : bytes) : Prop :=
  match cmp with None => x = value | Some c => c value x = 0 end.

(** The elements are in the order of [c], as seen from [value]. *)
Definition sorted_for (c : bytes -> bytes -> Z) (value : bytes) (q : list bytes) : Prop :=
  forall i j x y, (i <= j)%nat -> q !! i = Some x -> q !! j = Some y ->
    (c value x < 0 -> c value y < 0) /\ (0 < c value y -> 0 < c value x).

Section Find.
Context (v : lisk_vector_t) (q : list bytes) (Hr : vec_rep v q) (value : bytes).

Lemma vec_find_loop_spec n idx :
  blen value = length v -> (idx + n = List.length q)%nat ->
  (forall j x, (j < idx)%nat -> q !! j = Some x -> x <> value) ->
  (exists i, find_loop n v value (Z.of_nat idx) = Some (Some (Z.of_nat i * length v)) /\ q !! i = Some value) \/
  (find_loop n v value (Z.of_nat idx) = Some None /\ forall x, x ∈ q -> x <> value).
Proof.
  intros Hv. revert idx. induction n as [|n IH]; intros idx Hn Hbefore.
  - right. split; [done|]. intros x [j Hj]%list_elem_of_lookup. apply (Hbefore j); [|done].
    apply lookup_lt_Some in Hj. lia.
  - cbn [find_loop]. destruct (vr_data v q Hr) as (sl & Hd & _). rewrite Hd. cbn [mbind option_bind].
    destruct (lookup_lt_is_Some_2 q idx) as [x Hx]; [lia|].
    rewrite (elem_off_exact v q Hr) by (rewrite (vr_num v q Hr); lia).
    rewrite (rd_elem v q Hr idx x _ Hx Hd). cbn [mbind option_bind].
    rewrite (rd_all value) by done. cbn [mbind option_bind].
    destruct (decide (x = value)) as [->|Hne]; [left; by exists idx|].
    replace (Z.of_nat idx + 1) with (Z.of_nat (S idx)) by lia. apply IH; [lia|].
    intros j y Hj Hy. destruct (decide (j = idx)) as [->|]; [congruence|]. apply (Hbefore j); [lia|done].
Qed.

Lemma vec_bsearch_spec c fuel (l u : nat) :
  sorted_for c value q -> (l <= u <= List.length q)%nat -> (u - l < fuel)%nat ->
  (forall j x, (j < l)%nat -> q !! j = Some x -> c value x <> 0) ->
  (forall j x, (u <= j)%nat -> q !! j = Some x -> c value x <> 0) ->
  (exists i x, bsearch fuel c value (data v) (length v) (Z.of_nat l) (Z.of_nat u) =
      Some (Some (Z.of_nat i * length v)) /\ q !! i = Some x /\ c value x = 0) \/
  (bsearch fuel c value (data v) (length v) (Z.of_nat l) (Z.of_nat u) = Some None /\
   forall x, x ∈ q -> c value x <> 0).
Proof.
  intros Hsort. revert l u. induction fuel as [|f IH]; intros l u Hlu Hf Hl Hu; [lia|]. cbn [bsearch].
  destruct (Z.of_nat l <? Z.of_nat u) eqn:E; to_prop.
  - pose proof (Z.div_mod (Z.of_nat l + Z.of_nat u) 2 ltac:(lia)).
    pose proof (Z.mod_pos_bound (Z.of_nat l + Z.of_nat u) 2 ltac:(lia)).
    set (idx := Z.to_nat ((Z.of_nat l + Z.of_nat u) / 2)).
    replace ((Z.of_nat l + Z.of_nat u) / 2) with (Z.of_nat idx) by lia.
    assert (l <= idx < u)%nat as Hidx by lia. clearbody idx.
    destruct (vr_data v q Hr) as (sl & Hd & _). rewrite Hd. cbn [mbind option_bind].
    destruct (lookup_lt_is_Some_2 q idx) as [x Hx]; [lia|].
    rewrite (rd_elem v q Hr idx x _ Hx Hd). cbn [mbind option_bind]. rewrite Hd in IH.
    destruct (c value x <? 0) eqn:E1; to_prop; [|destruct (0 <? c value x) eqn:E2; to_prop].
    + apply IH; [lia|lia|done|]. intros j y Hj Hy E0.
      destruct (Hsort idx j x y ltac:(lia) Hx Hy) as [H1 _]. lia.
    + replace (Z.of_nat idx + 1) with (Z.of_nat (S idx)) by lia. apply IH; [lia|lia| |done].
      intros j y Hj Hy E3. destruct (Hsort j idx y x ltac:(lia) Hy Hx) as [_ H2]. lia.
    + left. exists idx, x. split; [done|]. split; [done|]. lia.
  - right. split; [done|]. intros x [j Hj]%list_elem_of_lookup.
    destruct (decide (j < l)%nat); [by apply (Hl j)|]. apply (Hu j); [lia|done].
Qed.

End Find.

(** [lisk_vector_find] is complete and correct: it points at an element that
    matches, or returns nil and no element matches.  With a comparison function
    (a binary search) the elements must be in its order. *)
Theorem vector_find_correct (v : lisk_vector_t) (q : list bytes) (value : bytes)
  (cmp : option (bytes -> bytes -> Z)) :
  vec_rep v q -> blen value = length v ->
  (forall c, cmp = Some c -> sorted_for c value q) ->
  (exists i x, lisk_vector_find (Some v) (Some value) cmp = Some (Some (Z.of_nat i * length v)) /\
     q !! i = Some x /\ matches cmp value x) \/
  (lisk_vector_find (Some v) (Some value) cmp = Some None /\ forall x, x ∈ q -> ~ matches cmp value x).
Proof.
  intros Hr Hv Hs. pose proof (vr_num v q Hr) as Hn. unfold lisk_vector_find. destruct cmp as [c|].
  - rewrite Hn. apply (vec_bsearch_spec v q Hr value c _ 0 (List.length q)); [by apply Hs|lia|lia|lia|].
    intros j x Hj Hx. apply lookup_lt_Some in Hx. lia.
  - rewrite Hn, Nat2Z.id. destruct (vec_find_loop_spec v q Hr value (List.length q) 0) as [(i & E & Hx)|[E Hx]];
      [done|lia|lia|left; by exists i, value|by right].
Qed.

(** A comparison of one-byte elements. *)
Definition cmp_byte (x y : bytes) : Z := default 0 (head x) - default 0 (head y).

Definition sorted_vector : lisk_vector_t := mk_vector 4 3 1 (Some [3; 5; 9; 0]).

Lemma sorted_vector_rep : vec_rep sorted_vector [[3]; [5]; [9]].
Proof. split; cbn; [lia|unfold U4_MOD; lia|done|by repeat constructor|by exists [0]]. Qed.

Lemma vector_find_correct_witness :
  lisk_vector_find (Some sorted_vector) (Some [9]) (Some cmp_byte) = Some (Some 2) /\
  ((exists i x, lisk_vector_find (Some sorted_vector) (Some [9]) (Some cmp_byte) = Some (Some (Z.of_nat i * 1)) /\
     [[3]; [5]; [9]] !! i = Some x /\ matches (Some cmp_byte) [9] x) \/
   (lisk_vector_find (Some sorted_vector) (Some [9]) (Some cmp_byte) = Some None /\
    forall x, x ∈ [[3]; [5]; [9]] -> ~ matches (Some cmp_byte) [9] x)).
Proof.
  split; [vm_compute; reflexivity|].
  apply (vector_find_correct sorted_vector [[3]; [5]; [9]] [9] (Some cmp_byte) sorted_vector_rep).
  - reflexivity.
  - intros c [= <-] i j x y Hij Hx Hy.
    destruct i as [|[|[|i]]], j as [|[|[|j]]]; cbn in Hx, Hy; simplify_eq; try lia; unfold cmp_byte; cbn; lia.
Defined.

(** The iterators visit the elements in order: [next] and [pre] are inverse
    steps between neighbours and stop at the ends. *)
Theorem vector_iterates (v : lisk_vector_t) (q : list bytes) (i : nat) :
  vec_rep v q -> (i < List.length q)%nat ->
  lisk_vector_next (Some v) (Z.of_nat i * length v) =
    (if decide (S i < List.length q)%nat then Some (Z.of_nat (S i) * length v) else None) /\
  lisk_vector_pre (Some v) (Z.of_nat i * length v) =
    (if decide (0 < i)%nat then Some ((Z.of_nat i - 1) * length v) else None).
Proof.
  intros Hr Hi. pose proof (vr_num v q Hr) as Hn. pose proof (vr_len v q Hr). pose proof (vr_cap v q Hr).
  pose proof (rep_fits v q Hr). unfold lisk_vector_next, lisk_vector_pre.
  rewrite (proj2 (Z.eqb_neq _ _)), (proj2 (Z.eqb_neq _ _)) by lia. cbn [orb].
  rewrite (u4_id (Z.of_nat i * length v)) by (unfold is_u4; nia). rewrite Z.div_mul by lia.
  rewrite (elem_off_exact v q Hr (Z.of_nat i)), Z.eqb_refl by lia. cbn [negb]. rewrite !orb_false_r.
  rewrite (u4_id (number v - 1)), (u4_id (Z.of_nat i + 1)) by (unfold is_u4; nia). split.
  - case_decide; [rewrite (proj2 (Z.leb_gt _ _)) by lia|rewrite (proj2 (Z.leb_le _ _)) by lia; done].
    rewrite (elem_off_exact v q Hr) by lia. f_equal. lia.
  - rewrite (proj2 (Z.leb_gt (number v) _)), orb_false_r by lia.
    case_decide; [rewrite (proj2 (Z.leb_gt _ _)) by lia|rewrite (proj2 (Z.leb_le _ _)) by lia; done].
    rewrite u4_id by (unfold is_u4; nia). rewrite (elem_off_exact v q Hr) by lia. done.
Qed.

Lemma vector_iterates_witness :
  lisk_vector_next (Some sorted_vector) 0 = Some 1 /\ lisk_vector_pre (Some sorted_vector) 0 = None.
Proof. apply (vector_iterates sorted_vector [[3]; [5]; [9]] 0 sorted_vector_rep). cbn. lia. Defined.

(** A failed [realloc] loses the contents: the insertion returns -2, [data] is
    nil, and the block with the old elements is unreachable although [number]
    still counts them. *)
Theorem realloc_failure (realloc : realloc_fun) (v : lisk_vector_t) (q : list bytes)
  (pos size : Z) (array : option bytes) :
  vec_rep v q -> 0 <= pos <= number v -> 0 < size -> 2 * (number v + size) * length v < U4_MOD ->
  capacity v < (number v + size) * length v -> (forall b n, realloc b n = None) ->
  exists v', lisk_vector_insert realloc (Some v) pos array size = Some (-2, Some v') /\
    data v' = None /\ number v' = number v /\ capacity v' = capacity v.
Proof.
  intros Hr Hp Hs Hb Hc Hfail. pose proof (vr_len v q Hr). pose proof (vr_cap v q Hr).
  unfold lisk_vector_insert. rewrite (proj2 (Z.eqb_neq _ _)), (proj2 (Z.ltb_ge _ _)) by lia. cbn [orb].
  rewrite (u4_id (number v + size)), u4_id by (unfold is_u4, U4_MOD in *; nia).
  rewrite (proj2 (Z.ltb_lt _ _)) by lia.
  pose proof (round_up_spec (number v + size) ltac:(unfold U4_MOD in *; nia)).
  unfold lisk_vector_realloc. rewrite (proj2 (Z.eqb_neq _ _)), (proj2 (Z.eqb_neq _ _)) by lia.
  rewrite Hfail. exists (with_data v None). done.
Qed.

Lemma realloc_failure_witness :
  exists v', lisk_vector_insert (fun _ _ => None) (Some sorted_vector) 0 (Some [1; 2]) 2 = Some (-2, Some v') /\
    data v' = None /\ number v' = 3 /\ capacity v' = 4.
Proof.
  apply (realloc_failure (fun _ _ => None) sorted_vector [[3]; [5]; [9]] 0 2 (Some [1; 2]) sorted_vector_rep);
    cbn; unfold U4_MOD; lia || reflexivity.
Defined.

(** The bound test of [lisk_vector_erase] adds in 32 bits: a [size] that makes
    [pos + size] wrap passes it, and the move leaves the block. *)
Theorem erase_wraps (v : lisk_vector_t) (q : list bytes) :
  vec_rep v q -> 1 < number v -> lisk_vector_erase (Some v) 1 (U4_MOD - 1) = None.
Proof.
  intros Hr Hn. pose proof (vr_len v q Hr). pose proof (vr_cap v q Hr). pose proof (rep_fits v q Hr).
  destruct (vr_data v q Hr) as (sl & Hd & Hl).
  unfold lisk_vector_erase, lisk_vector_empty. rewrite (proj2 (Z.eqb_neq (U4_MOD - 1) 0)) by (unfold U4_MOD; lia).
  rewrite (proj2 (Z.eqb_neq (number v) 0)) by lia. cbn [Z.eqb].
  replace (u4 (1 + (U4_MOD - 1))) with 0 by done. rewrite Z.sub_0_r, (u4_id (number v)) by (unfold is_u4; nia).
  rewrite !(elem_off_exact v q Hr) by lia.
  rewrite (proj2 (Z.leb_gt _ _)), (proj2 (Z.ltb_ge _ _)), (proj2 (Z.eqb_neq _ _)) by nia. cbn [orb].
  rewrite (proj2 (Z.ltb_lt _ _)) by nia.
  assert (elem_off v (U4_MOD - 1) = U4_MOD - length v) as ->.
  { unfold elem_off. replace ((U4_MOD - 1) * length v) with (- length v + length v * U4_MOD) by lia.
    unfold u4. rewrite Z.mod_add by done. rewrite Z.mod_opp_l_nz; rewrite ?Z.mod_small by nia; lia || done. }
  unfold move_elems, copy_data. rewrite (proj2 (Z.leb_gt _ _)) by nia. rewrite Hd. cbn [mbind option_bind].
  rewrite (proj2 (Z.eqb_neq _ _)) by nia. cbn [negb]. unfold rd. rewrite decide_False by (rewrite Hl; nia). done.
Qed.

Lemma erase_wraps_witness : 1 < number sorted_vector /\ lisk_vector_erase (Some sorted_vector) 1 (U4_MOD - 1) = None.
Proof.
  split; [reflexivity|]. apply (erase_wraps sorted_vector [[3]; [5]; [9]] sorted_vector_rep). reflexivity.
Defined.

End Vector.
