(* ===== verification/LiskHash.v ===== *)
(** * lisk_hash.c: BKDR and CRC hashes

    Models win_lisk/src/lisk_hash.c.  A string is the list of its bytes (the
    source casts to [un1]); a read past its end is [None].  The type [uw] is
    [unsigned long]: its width, 32 or 64 bits, is an argument of [crc32]. *)

From S2P Require Import Prelude.

Module Hash.

(** One unit of [n] per iteration: [str_len - idx] of them. *)
Fixpoint bkdr32_loop (n idx : nat) (str : bytes) (hash : Z) : option Z :=
  match n with
  | O => Some hash
  | S n' => c ← str !! idx; bkdr32_loop n' (S idx) str (u4 (u4 (hash * 131) + c))
  end.

Definition bkdr32 (str : bytes) (str_len : Z) : option Z :=
  hash ← bkdr32_loop (Z.to_nat str_len) 0 str 0; Some (Z.land hash 0x7FFFFFFF).

Fixpoint bkdr64_loop (n idx : nat) (str : bytes) (hash : Z) : option Z :=
  match n with
  | O => Some hash
  | S n' => c ← str !! idx; bkdr64_loop n' (S idx) str (u8 (u8 (hash * 131313131) + c))
  end.

Definition bkdr64 (str : bytes) (str_len : Z) : option Z :=
  hash ← bkdr64_loop (Z.to_nat str_len) 0 str 0; Some (Z.land hash 0x7FFFFFFFFFFFFFFF).

(** The initialisers of an array of [n4]. *)
Definition crc32_init : list Z :=
  [0x00000000; 0x77073096; 0xee0e612c; 0x990951ba; 0x076dc419; 0x706af48f; 0xe963a535; 0x9e6495a3;
   0x0edb8832; 0x79dcb8a4; 0xe0d5e91e; 0x97d2d988; 0x09b64c2b; 0x7eb17cbd; 0xe7b82d07; 0x90bf1d91;
   0x1db71064; 0x6ab020f2; 0xf3b97148; 0x84be41de; 0x1adad47d; 0x6ddde4eb; 0xf4d4b551; 0x83d385c7;
   0x136c9856; 0x646ba8c0; 0xfd62f97a; 0x8a65c9ec; 0x14015c4f; 0x63066cd9; 0xfa0f3d63; 0x8d080df5;
   0x3b6e20c8; 0x4c69105e; 0xd56041e4; 0xa2677172; 0x3c03e4d1; 0x4b04d447; 0xd20d85fd; 0xa50ab56b;
   0x35b5a8fa; 0x42b2986c; 0xdbbbc9d6; 0xacbcf940; 0x32d86ce3; 0x45df5c75; 0xdcd60dcf; 0xabd13d59;
   0x26d930ac; 0x51de003a; 0xc8d75180; 0xbfd06116; 0x21b4f4b5; 0x56b3c423; 0xcfba9599; 0xb8bda50f;
   0x2802b89e; 0x5f058808; 0xc60cd9b2; 0xb10be924; 0x2f6f7c87; 0x58684c11; 0xc1611dab; 0xb6662d3d;
   0x76dc4190; 0x01db7106; 0x98d220bc; 0xefd5102a; 0x71b18589; 0x06b6b51f; 0x9fbfe4a5; 0xe8b8d433;
   0x7807c9a2; 0x0f00f934; 0x9609a88e; 0xe10e9818; 0x7f6a0dbb; 0x086d3d2d; 0x91646c97; 0xe6635c01;
   0x6b6b51f4; 0x1c6c6162; 0x856530d8; 0xf262004e; 0x6c0695ed; 0x1b01a57b; 0x8208f4c1; 0xf50fc457;
   0x65b0d9c6; 0x12b7e950; 0x8bbeb8ea; 0xfcb9887c; 0x62dd1ddf; 0x15da2d49; 0x8cd37cf3; 0xfbd44c65;
   0x4db26158; 0x3ab551ce; 0xa3bc0074; 0xd4bb30e2; 0x4adfa541; 0x3dd895d7; 0xa4d1c46d; 0xd3d6f4fb;
   0x4369e96a; 0x346ed9fc; 0xad678846; 0xda60b8d0; 0x44042d73; 0x33031de5; 0xaa0a4c5f; 0xdd0d7cc9;
   0x5005713c; 0x270241aa; 0xbe0b1010; 0xc90c2086; 0x5768b525; 0x206f85b3; 0xb966d409; 0xce61e49f;
   0x5edef90e; 0x29d9c998; 0xb0d09822; 0xc7d7a8b4; 0x59b33d17; 0x2eb40d81; 0xb7bd5c3b; 0xc0ba6cad;
   0xedb88320; 0x9abfb3b6; 0x03b6e20c; 0x74b1d29a; 0xead54739; 0x9dd277af; 0x04db2615; 0x73dc1683;
   0xe3630b12; 0x94643b84; 0x0d6d6a3e; 0x7a6a5aa8; 0xe40ecf0b; 0x9309ff9d; 0x0a00ae27; 0x7d079eb1;
   0xf00f9344; 0x8708a3d2; 0x1e01f268; 0x6906c2fe; 0xf762575d; 0x806567cb; 0x196c3671; 0x6e6b06e7;
   0xfed41b76; 0x89d32be0; 0x10da7a5a; 0x67dd4acc; 0xf9b9df6f; 0x8ebeeff9; 0x17b7be43; 0x60b08ed5;
   0xd6d6a3e8; 0xa1d1937e; 0x38d8c2c4; 0x4fdff252; 0xd1bb67f1; 0xa6bc5767; 0x3fb506dd; 0x48b2364b;
   0xd80d2bda; 0xaf0a1b4c; 0x36034af6; 0x41047a60; 0xdf60efc3; 0xa867df55; 0x316e8eef; 0x4669be79;
   0xcb61b38c; 0xbc66831a; 0x256fd2a0; 0x5268e236; 0xcc0c7795; 0xbb0b4703; 0x220216b9; 0x5505262f;
   0xc5ba3bbe; 0xb2bd0b28; 0x2bb45a92; 0x5cb36a04; 0xc2d7ffa7; 0xb5d0cf31; 0x2cd99e8b; 0x5bdeae1d;
   0x9b64c2b0; 0xec63f226; 0x756aa39c; 0x026d930a; 0x9c0906a9; 0xeb0e363f; 0x72076785; 0x05005713;
   0x95bf4a82; 0xe2b87a14; 0x7bb12bae; 0x0cb61b38; 0x92d28e9b; 0xe5d5be0d; 0x7cdcefb7; 0x0bdbdf21;
   0x86d3d2d4; 0xf1d4e242; 0x68ddb3f8; 0x1fda836e; 0x81be16cd; 0xf6b9265b; 0x6fb077e1; 0x18b74777;
   0x88085ae6; 0xff0f6a70; 0x66063bca; 0x11010b5c; 0x8f659eff; 0xf862ae69; 0x616bffd3; 0x166ccf45;
   0xa00ae278; 0xd70dd2ee; 0x4e048354; 0x3903b3c2; 0xa7672661; 0xd06016f7; 0x4969474d; 0x3e6e77db;
   0xaed16a4a; 0xd9d65adc; 0x40df0b66; 0x37d83bf0; 0xa9bcae53; 0xdebb9ec5; 0x47b2cf7f; 0x30b5ffe9;
   0xbdbdf21c; 0xcabac28a; 0x53b39330; 0x24b4a3a6; 0xbad03605; 0xcdd70693; 0x54de5729; 0x23d967bf;
   0xb3667a2e; 0xc4614ab8; 0x5d681b02; 0x2a6f2b94; 0xb40bbe37; 0xc30c8ea1; 0x5a05df1b; 0x2d02ef8d].

Definition crc32_table : list Z := List.map to_n4 crc32_init.

(** The state of the macros: [crc], a [uw] of [w] bits, and what [buf] points to. *)
Definition DO1 (w : Z) (s : Z * bytes) : option (Z * bytes) :=
  let '(crc, buf) := s in
  match buf with
  | [] => None
  | b :: buf' =>
      t ← crc32_table !! Z.to_nat (Z.land (Z.lxor (to_n4 crc) b) 0xff);
      Some (Z.lxor (t mod 2 ^ w) (Z.shiftr crc 8), buf')
  end.
Definition DO2 (w : Z) (s : Z * bytes) : option (Z * bytes) := s ← DO1 w s; DO1 w s.
Definition DO4 (w : Z) (s : Z * bytes) : option (Z * bytes) := s ← DO2 w s; DO2 w s.
Definition DO8 (w : Z) (s : Z * bytes) : option (Z * bytes) := s ← DO4 w s; DO4 w s.

(** The loop by eights: what is left of [str_len] comes back with the state. *)
Fixpoint crc32_eights (fuel : nat) (w : Z) (s : Z * bytes) (str_len : Z) : option (Z * bytes * Z) :=
  match fuel with
  | O => None
  | S f =>
      if 8 <=? str_len then s ← DO8 w s; crc32_eights f w s (str_len - 8)
      else Some (s, str_len)
  end.

(** The [do .. while] of the last bytes, entered with [str_len] not 0. *)
Fixpoint crc32_rest (n : nat) (w : Z) (s : Z * bytes) : option (Z * bytes) :=
  match n with O => Some s | S n' => s ← DO1 w s; crc32_rest n' w s end.

Definition crc32 (w : Z) (str : option bytes) (str_len : Z) : option Z :=
  match str with
  | None => Some 0
  | Some buf =>
      if str_len <=? 0 then Some 0
      else
        '(s, rest) ← crc32_eights (S (Z.to_nat str_len)) w (Z.lxor 0 0xffffffff, buf) str_len;
        s ← crc32_rest (Z.to_nat rest) w s;
        Some (u4 (Z.lxor (fst s) 0xffffffff))
  end.

Definition crc64_table : list Z :=
  [0x0000000000000000; 0x7ad870c830358979; 0xf5b0e190606b12f2; 0x8f689158505e9b8b;
   0xc038e5739841b68f; 0xbae095bba8743ff6; 0x358804e3f82aa47d; 0x4f50742bc81f2d04;
   0xab28ecb46814fe75; 0xd1f09c7c5821770c; 0x5e980d24087fec87; 0x24407dec384a65fe;
   0x6b1009c7f05548fa; 0x11c8790fc060c183; 0x9ea0e857903e5a08; 0xe478989fa00bd371;
   0x7d08ff3b88be6f81; 0x07d08ff3b88be6f8; 0x88b81eabe8d57d73; 0xf2606e63d8e0f40a;
   0xbd301a4810ffd90e; 0xc7e86a8020ca5077; 0x4880fbd87094cbfc; 0x32588b1040a14285;
   0xd620138fe0aa91f4; 0xacf86347d09f188d; 0x2390f21f80c18306; 0x594882d7b0f40a7f;
   0x1618f6fc78eb277b; 0x6cc0863448deae02; 0xe3a8176c18803589; 0x997067a428b5bcf0;
   0xfa11fe77117cdf02; 0x80c98ebf2149567b; 0x0fa11fe77117cdf0; 0x75796f2f41224489;
   0x3a291b04893d698d; 0x40f16bccb908e0f4; 0xcf99fa94e9567b7f; 0xb5418a5cd963f206;
   0x513912c379682177; 0x2be1620b495da80e; 0xa489f35319033385; 0xde51839b2936bafc;
   0x9101f7b0e12997f8; 0xebd98778d11c1e81; 0x64b116208142850a; 0x1e6966e8b1770c73;
   0x8719014c99c2b083; 0xfdc17184a9f739fa; 0x72a9e0dcf9a9a271; 0x08719014c99c2b08;
   0x4721e43f0183060c; 0x3df994f731b68f75; 0xb29105af61e814fe; 0xc849756751dd9d87;
   0x2c31edf8f1d64ef6; 0x56e99d30c1e3c78f; 0xd9810c6891bd5c04; 0xa3597ca0a188d57d;
   0xec09088b6997f879; 0x96d1784359a27100; 0x19b9e91b09fcea8b; 0x636199d339c963f2;
   0xdf7adabd7a6e2d6f; 0xa5a2aa754a5ba416; 0x2aca3b2d1a053f9d; 0x50124be52a30b6e4;
   0x1f423fcee22f9be0; 0x659a4f06d21a1299; 0xeaf2de5e82448912; 0x902aae96b271006b;
   0x74523609127ad31a; 0x0e8a46c1224f5a63; 0x81e2d7997211c1e8; 0xfb3aa75142244891;
   0xb46ad37a8a3b6595; 0xceb2a3b2ba0eecec; 0x41da32eaea507767; 0x3b024222da65fe1e;
   0xa2722586f2d042ee; 0xd8aa554ec2e5cb97; 0x57c2c41692bb501c; 0x2d1ab4dea28ed965;
   0x624ac0f56a91f461; 0x1892b03d5aa47d18; 0x97fa21650afae693; 0xed2251ad3acf6fea;
   0x095ac9329ac4bc9b; 0x7382b9faaaf135e2; 0xfcea28a2faafae69; 0x8632586aca9a2710;
   0xc9622c4102850a14; 0xb3ba5c8932b0836d; 0x3cd2cdd162ee18e6; 0x460abd1952db919f;
   0x256b24ca6b12f26d; 0x5fb354025b277b14; 0xd0dbc55a0b79e09f; 0xaa03b5923b4c69e6;
   0xe553c1b9f35344e2; 0x9f8bb171c366cd9b; 0x10e3202993385610; 0x6a3b50e1a30ddf69;
   0x8e43c87e03060c18; 0xf49bb8b633338561; 0x7bf329ee636d1eea; 0x012b592653589793;
   0x4e7b2d0d9b47ba97; 0x34a35dc5ab7233ee; 0xbbcbcc9dfb2ca865; 0xc113bc55cb19211c;
   0x5863dbf1e3ac9dec; 0x22bbab39d3991495; 0xadd33a6183c78f1e; 0xd70b4aa9b3f20667;
   0x985b3e827bed2b63; 0xe2834e4a4bd8a21a; 0x6debdf121b863991; 0x1733afda2bb3b0e8;
   0xf34b37458bb86399; 0x8993478dbb8deae0; 0x06fbd6d5ebd3716b; 0x7c23a61ddbe6f812;
   0x3373d23613f9d516; 0x49aba2fe23cc5c6f; 0xc6c333a67392c7e4; 0xbc1b436e43a74e9d;
   0x95ac9329ac4bc9b5; 0xef74e3e19c7e40cc; 0x601c72b9cc20db47; 0x1ac40271fc15523e;
   0x5594765a340a7f3a; 0x2f4c0692043ff643; 0xa02497ca54616dc8; 0xdafce7026454e4b1;
   0x3e847f9dc45f37c0; 0x445c0f55f46abeb9; 0xcb349e0da4342532; 0xb1eceec59401ac4b;
   0xfebc9aee5c1e814f; 0x8464ea266c2b0836; 0x0b0c7b7e3c7593bd; 0x71d40bb60c401ac4;
   0xe8a46c1224f5a634; 0x927c1cda14c02f4d; 0x1d148d82449eb4c6; 0x67ccfd4a74ab3dbf;
   0x289c8961bcb410bb; 0x5244f9a98c8199c2; 0xdd2c68f1dcdf0249; 0xa7f41839ecea8b30;
   0x438c80a64ce15841; 0x3954f06e7cd4d138; 0xb63c61362c8a4ab3; 0xcce411fe1cbfc3ca;
   0x83b465d5d4a0eece; 0xf96c151de49567b7; 0x76048445b4cbfc3c; 0x0cdcf48d84fe7545;
   0x6fbd6d5ebd3716b7; 0x15651d968d029fce; 0x9a0d8ccedd5c0445; 0xe0d5fc06ed698d3c;
   0xaf85882d2576a038; 0xd55df8e515432941; 0x5a3569bd451db2ca; 0x20ed197575283bb3;
   0xc49581ead523e8c2; 0xbe4df122e51661bb; 0x3125607ab548fa30; 0x4bfd10b2857d7349;
   0x04ad64994d625e4d; 0x7e7514517d57d734; 0xf11d85092d094cbf; 0x8bc5f5c11d3cc5c6;
   0x12b5926535897936; 0x686de2ad05bcf04f; 0xe70573f555e26bc4; 0x9ddd033d65d7e2bd;
   0xd28d7716adc8cfb9; 0xa85507de9dfd46c0; 0x273d9686cda3dd4b; 0x5de5e64efd965432;
   0xb99d7ed15d9d8743; 0xc3450e196da80e3a; 0x4c2d9f413df695b1; 0x36f5ef890dc31cc8;
   0x79a59ba2c5dc31cc; 0x037deb6af5e9b8b5; 0x8c157a32a5b7233e; 0xf6cd0afa9582aa47;
   0x4ad64994d625e4da; 0x300e395ce6106da3; 0xbf66a804b64ef628; 0xc5bed8cc867b7f51;
   0x8aeeace74e645255; 0xf036dc2f7e51db2c; 0x7f5e4d772e0f40a7; 0x05863dbf1e3ac9de;
   0xe1fea520be311aaf; 0x9b26d5e88e0493d6; 0x144e44b0de5a085d; 0x6e963478ee6f8124;
   0x21c640532670ac20; 0x5b1e309b16452559; 0xd476a1c3461bbed2; 0xaeaed10b762e37ab;
   0x37deb6af5e9b8b5b; 0x4d06c6676eae0222; 0xc26e573f3ef099a9; 0xb8b627f70ec510d0;
   0xf7e653dcc6da3dd4; 0x8d3e2314f6efb4ad; 0x0256b24ca6b12f26; 0x788ec2849684a65f;
   0x9cf65a1b368f752e; 0xe62e2ad306bafc57; 0x6946bb8b56e467dc; 0x139ecb4366d1eea5;
   0x5ccebf68aecec3a1; 0x2616cfa09efb4ad8; 0xa97e5ef8cea5d153; 0xd3a62e30fe90582a;
   0xb0c7b7e3c7593bd8; 0xca1fc72bf76cb2a1; 0x45775673a732292a; 0x3faf26bb9707a053;
   0x70ff52905f188d57; 0x0a2722586f2d042e; 0x854fb3003f739fa5; 0xff97c3c80f4616dc;
   0x1bef5b57af4dc5ad; 0x61372b9f9f784cd4; 0xee5fbac7cf26d75f; 0x9487ca0fff135e26;
   0xdbd7be24370c7322; 0xa10fceec0739fa5b; 0x2e675fb4576761d0; 0x54bf2f7c6752e8a9;
   0xcdcf48d84fe75459; 0xb71738107fd2dd20; 0x387fa9482f8c46ab; 0x42a7d9801fb9cfd2;
   0x0df7adabd7a6e2d6; 0x772fdd63e7936baf; 0xf8474c3bb7cdf024; 0x829f3cf387f8795d;
   0x66e7a46c27f3aa2c; 0x1c3fd4a417c62355; 0x935745fc4798b8de; 0xe98f353477ad31a7;
   0xa6df411fbfb21ca3; 0xdc0731d78f8795da; 0x536fa08fdfd90e51; 0x29b7d047efec8728].

Fixpoint crc64_loop (n idx : nat) (str : bytes) (crc : Z) : option Z :=
  match n with
  | O => Some crc
  | S n' =>
      byte ← str !! idx;
      t ← crc64_table !! Z.to_nat (Z.lxor (crc mod 256) byte);
      crc64_loop n' (S idx) str (Z.lxor t (Z.shiftr crc 8))
  end.

Definition crc64 (str : bytes) (str_len : Z) : option Z := crc64_loop (Z.to_nat str_len) 0 str 0.

(** ** BKDR: a polynomial in the seed *)

Definition horner (seed : Z) (str : bytes) (h : Z) : Z :=
  fold_left (fun h c => h * seed + c) str h.

Lemma bkdr32_loop_spec n idx str hash :
  (idx + n <= length str)%nat ->
  bkdr32_loop n idx str (u4 hash) = Some (u4 (horner 131 (take n (drop idx str)) hash)).
Proof.
  revert idx hash. induction n as [|n IH]; intros idx hash Hn; [by rewrite take_0|].
  destruct (lookup_lt_is_Some_2 str idx) as [c Hc]; [lia|].
  rewrite (drop_S _ _ _ Hc). cbn [bkdr32_loop]. rewrite Hc. cbn [mbind option_bind].
  rewrite u4_mul_l, u4_add_l. rewrite IH by lia. done.
Qed.

Lemma u8_add_l a b : u8 (u8 a + b) = u8 (a + b).
Proof. apply Zplus_mod_idemp_l. Qed.
Lemma u8_mul_l a b : u8 (u8 a * b) = u8 (a * b).
Proof. apply Zmult_mod_idemp_l. Qed.

Lemma bkdr64_loop_spec n idx str hash :
  (idx + n <= length str)%nat ->
  bkdr64_loop n idx str (u8 hash) = Some (u8 (horner 131313131 (take n (drop idx str)) hash)).
Proof.
  revert idx hash. induction n as [|n IH]; intros idx hash Hn; [by rewrite take_0|].
  destruct (lookup_lt_is_Some_2 str idx) as [c Hc]; [lia|].
  rewrite (drop_S _ _ _ Hc). cbn [bkdr64_loop]. rewrite Hc. cbn [mbind option_bind].
  rewrite u8_mul_l, u8_add_l. rewrite IH by lia. done.
Qed.

Lemma bkdr_eq (str : bytes) (n : Z) :
  0 <= n <= blen str ->
  bkdr32 str n = Some (horner 131 (take (Z.to_nat n) str) 0 mod 2 ^ 31) /\
  bkdr64 str n = Some (horner 131313131 (take (Z.to_nat n) str) 0 mod 2 ^ 63).
Proof.
  intros Hn. unfold bkdr32, bkdr64, blen in *.
  pose proof (bkdr32_loop_spec (Z.to_nat n) 0 str 0 ltac:(lia)) as H4.
  pose proof (bkdr64_loop_spec (Z.to_nat n) 0 str 0 ltac:(lia)) as H8.
  change (u4 0) with 0 in H4. change (u8 0) with 0 in H8. rewrite drop_0 in H4, H8. rewrite H4, H8.
  cbn [mbind option_bind]. split; f_equal.
  - change 0x7FFFFFFF with (Z.ones 31). rewrite Z.land_ones by lia. unfold u4, U4_MOD.
    change (2 ^ 32) with (2 ^ 31 * 2). rewrite Z.rem_mul_r by lia.
    rewrite Z.mul_comm, Z.mod_add, Z.mod_mod by lia. done.
  - change 0x7FFFFFFFFFFFFFFF with (Z.ones 63). rewrite Z.land_ones by lia. unfold u8, U8_MOD.
    change (2 ^ 64) with (2 ^ 63 * 2). rewrite Z.rem_mul_r by lia.
    rewrite Z.mul_comm, Z.mod_add, Z.mod_mod by lia. done.
Qed.

(** On a string that has [n] bytes, [bkdr32] and [bkdr64] are the value of the
    string as a polynomial in the seed, modulo 2^31 and 2^63. *)
Theorem bkdr_polynomial (str : bytes) (n : Z) :
  0 <= n <= blen str ->
  bkdr32 str n = Some (horner 131 (take (Z.to_nat n) str) 0 mod 2 ^ 31) /\
  bkdr64 str n = Some (horner 131313131 (take (Z.to_nat n) str) 0 mod 2 ^ 63).
Proof. apply bkdr_eq. Qed.

Lemma bkdr_polynomial_witness :
  bkdr32 [104; 105; 33] 3 = Some (horner 131 [104; 105; 33] 0 mod 2 ^ 31) /\
  bkdr64 [104; 105; 33] 3 = Some (horner 131313131 [104; 105; 33] 0 mod 2 ^ 63).
Proof. apply (bkdr_polynomial [104; 105; 33] 3). vm_compute. split; discriminate. Defined.

(** ** The reference CRC: one bit at a time, reflected *)

Definition crc_bit (poly c : Z) : Z :=
  if Z.odd c then Z.lxor (Z.shiftr c 1) poly else Z.shiftr c 1.
Definition crc_byte (poly c b : Z) : Z := Nat.iter 8 (crc_bit poly) (Z.lxor c b).
Definition crc_ref (poly : Z) (msg : bytes) (c : Z) : Z := fold_left (crc_byte poly) msg c.

Definition is_byte (b : Z) : Prop := 0 <= b < 256.

Section Crc.
Context (poly w : Z) (Hw : 8 <= w) (Hp : 0 <= poly < 2 ^ w) (Htop : Z.testbit poly (w - 1) = true).

Definition in_w (c : Z) : Prop := 0 <= c < 2 ^ w.

Lemma odd_lxor a b : Z.odd (Z.lxor a b) = xorb (Z.odd a) (Z.odd b).
Proof. rewrite <- !Z.bit0_odd. apply Z.lxor_spec. Qed.

Lemma crc_bit_lxor a b : crc_bit poly (Z.lxor a b) = Z.lxor (crc_bit poly a) (crc_bit poly b).
Proof.
  unfold crc_bit. rewrite odd_lxor, Z.shiftr_lxor. set (x := Z.shiftr a 1). set (y := Z.shiftr b 1).
  apply Z.bits_inj'. intros i Hi.
  destruct (Z.odd a), (Z.odd b); cbn [xorb]; rewrite !Z.lxor_spec;
    destruct (Z.testbit x i), (Z.testbit y i), (Z.testbit poly i); done.
Qed.

Lemma iter_crc_lxor n a b :
  Nat.iter n (crc_bit poly) (Z.lxor a b) = Z.lxor (Nat.iter n (crc_bit poly) a) (Nat.iter n (crc_bit poly) b).
Proof. induction n as [|n IH]; [done|]. rewrite !Nat.iter_succ. by rewrite IH, crc_bit_lxor. Qed.

Lemma crc_bit_even h : crc_bit poly (2 * h) = h.
Proof.
  unfold crc_bit. rewrite Z.odd_mul. cbn [Z.odd andb].
  rewrite Z.shiftr_div_pow2, Z.mul_comm by lia. apply Z.div_mul. lia.
Qed.

Lemma iter_crc_shift n h : Nat.iter n (crc_bit poly) (h * 2 ^ Z.of_nat n) = h.
Proof.
  induction n as [|n IH]; [cbn; lia|].
  rewrite Nat.iter_succ_r. replace (h * 2 ^ Z.of_nat (S n)) with (2 * (h * 2 ^ Z.of_nat n)).
  - by rewrite crc_bit_even.
  - rewrite Nat2Z.inj_succ, Z.pow_succ_r by lia. lia.
Qed.

Lemma low_high c : c = Z.lxor (Z.land c 255) (Z.shiftr c 8 * 2 ^ 8).
Proof.
  apply Z.bits_inj'. intros i Hi. change 255 with (Z.ones 8).
  rewrite <- Z.shiftl_mul_pow2, Z.lxor_spec, Z.land_spec, Z.shiftl_spec by lia.
  destruct (decide (i < 8)).
  - rewrite Z.ones_spec_low, (Z.testbit_neg_r _ (i - 8)) by lia. by destruct (Z.testbit c i).
  - rewrite Z.ones_spec_high, Z.shiftr_spec by lia. replace (i - 8 + 8) with i by lia.
    by destruct (Z.testbit c i).
Qed.

(** Eight bits at once: what the table stores. *)
Lemma crc_byte_table c b :
  is_byte b ->
  crc_byte poly c b =
  Z.lxor (Nat.iter 8 (crc_bit poly) (Z.land (Z.lxor c b) 255)) (Z.shiftr c 8).
Proof.
  intros Hb. unfold crc_byte. rewrite (low_high (Z.lxor c b)) at 1. rewrite iter_crc_lxor.
  change 8 with (Z.of_nat 8) at 2. rewrite iter_crc_shift, Z.shiftr_lxor.
  rewrite (Z.shiftr_div_pow2 b), (Z.div_small b), Z.lxor_0_r by (unfold is_byte in *; lia). done.
Qed.

Lemma in_w_bits c : 0 <= c -> (forall i, w <= i -> Z.testbit c i = false) -> in_w c.
Proof.
  intros H0 Hb. split; [done|]. destruct (Z.eq_dec c 0) as [->|]; [apply Z.pow_pos_nonneg; lia|].
  apply Z.log2_lt_pow2; [lia|]. destruct (Z.lt_ge_cases (Z.log2 c) w) as [|Hge]; [done|].
  apply Hb in Hge. rewrite Z.bit_log2 in Hge by lia. done.
Qed.

Lemma in_w_high c i : in_w c -> w <= i -> Z.testbit c i = false.
Proof.
  intros [H0 H1] Hi. destruct (Z.eq_dec c 0) as [->|]; [apply Z.bits_0|].
  apply Z.bits_above_log2; [lia|]. apply Z.log2_lt_pow2 in H1; lia.
Qed.

Lemma crc_bit_range c : in_w c -> in_w (crc_bit poly c).
Proof.
  intros Hc. assert (0 <= c) by apply Hc. pose proof (proj1 (Z.shiftr_nonneg c 1)).
  unfold crc_bit. apply in_w_bits.
  - destruct (Z.odd c); [apply Z.lxor_nonneg; split; intros; [apply Hp|]|]; apply Z.shiftr_nonneg; done.
  - intros i Hi. assert (Z.testbit (Z.shiftr c 1) i = false) as E
      by (rewrite Z.shiftr_spec by lia; apply (in_w_high c); [done|lia]).
    destruct (Z.odd c); [|done]. rewrite Z.lxor_spec, E, (in_w_high poly) by done. done.
Qed.

(** The top bit of the result tells which branch was taken: no two states merge. *)
Lemma crc_bit_inj a b : in_w a -> in_w b -> crc_bit poly a = crc_bit poly b -> a = b.
Proof.
  intros Ha Hb E.
  assert (forall c, in_w c -> Z.testbit (crc_bit poly c) (w - 1) = Z.odd c) as Ht.
  { intros c Hc. assert (Z.testbit (Z.shiftr c 1) (w - 1) = false) as E1.
    { rewrite Z.shiftr_spec by lia. apply (in_w_high c); [done|lia]. }
    unfold crc_bit. destruct (Z.odd c); [|done]. by rewrite Z.lxor_spec, E1, Htop. }
  assert (Z.odd a = Z.odd b) as Eo by (rewrite <- !Ht by done; by rewrite E).
  assert (Z.shiftr a 1 = Z.shiftr b 1) as Es.
  { unfold crc_bit in E. rewrite Eo in E. destruct (Z.odd b); [|done].
    apply (f_equal (fun z => Z.lxor z poly)) in E. by rewrite !Z.lxor_assoc, !Z.lxor_nilpotent, !Z.lxor_0_r in E. }
  rewrite (Z.div2_odd a), (Z.div2_odd b), Eo. rewrite !Z.div2_spec, Es. done.
Qed.

Lemma iter_crc_inj n a b :
  in_w a -> in_w b -> Nat.iter n (crc_bit poly) a = Nat.iter n (crc_bit poly) b -> a = b.
Proof.
  revert a b. induction n as [|n IH]; intros a b Ha Hb E; [done|]. rewrite !Nat.iter_succ_r in E.
  apply crc_bit_inj; [done|done|]. apply IH; [by apply crc_bit_range..|done].
Qed.

Lemma byte_in_w b : is_byte b -> in_w b.
Proof.
  intros Hb. split; [apply Hb|]. destruct Hb. eapply Z.lt_le_trans; [done|].
  change 256 with (2 ^ 8). apply Z.pow_le_mono_r; lia.
Qed.

Lemma lxor_in_w a b : in_w a -> in_w b -> in_w (Z.lxor a b).
Proof.
  intros Ha Hb. apply in_w_bits.
  - apply Z.lxor_nonneg. split; intros; [apply Hb|apply Ha].
  - intros i Hi. by rewrite Z.lxor_spec, !in_w_high by done.
Qed.

Lemma crc_byte_range c b : in_w c -> is_byte b -> in_w (crc_byte poly c b).
Proof.
  intros Hc Hb. unfold crc_byte. apply Nat.iter_invariant; [intros; by apply crc_bit_range|].
  apply lxor_in_w; [done|by apply byte_in_w].
Qed.

Lemma crc_byte_inj c b c' b' :
  in_w c -> in_w c' -> is_byte b -> is_byte b' -> crc_byte poly c b = crc_byte poly c' b' ->
  Z.lxor c b = Z.lxor c' b'.
Proof.
  intros Hc Hc' Hb Hb' E. apply (iter_crc_inj 8); [| |done]; apply lxor_in_w; auto using byte_in_w.
Qed.

Lemma lxor_cancel_r a b c : Z.lxor a c = Z.lxor b c -> a = b.
Proof.
  intros E. apply (f_equal (fun z => Z.lxor z c)) in E.
  by rewrite !Z.lxor_assoc, !Z.lxor_nilpotent, !Z.lxor_0_r in E.
Qed.

Lemma crc_ref_range msg c : in_w c -> Forall is_byte msg -> in_w (crc_ref poly msg c).
Proof.
  intros Hc Hm. revert c Hc. induction Hm as [|b msg Hb Hm IH]; intros c Hc; [done|].
  cbn. apply IH. by apply crc_byte_range.
Qed.

Lemma crc_ref_inj msg c c' :
  in_w c -> in_w c' -> Forall is_byte msg -> crc_ref poly msg c = crc_ref poly msg c' -> c = c'.
Proof.
  intros Hc Hc' Hm. revert c c' Hc Hc'. induction Hm as [|b msg Hb Hm IH]; intros c c' Hc Hc' E; [done|].
  cbn in E. apply IH in E; [|by apply crc_byte_range..].
  apply crc_byte_inj in E; [|done..]. by apply lxor_cancel_r in E.
Qed.

(** One corrupted byte changes the checksum. *)
Lemma crc_ref_detects pre x y post c :
  in_w c -> Forall is_byte (pre ++ x :: post) -> is_byte y -> x <> y ->
  crc_ref poly (pre ++ x :: post) c <> crc_ref poly (pre ++ y :: post) c.
Proof.
  intros Hc [Hpre [Hx Hpost]%Forall_cons_1]%Forall_app Hy Hne E. unfold crc_ref in E.
  rewrite !fold_left_app in E. cbn [fold_left] in E.
  pose proof (crc_ref_range pre c Hc Hpre) as Hc'.
  apply crc_ref_inj in E; [|by apply crc_byte_range..|done].
  apply crc_byte_inj in E; [|done..]. rewrite !(Z.lxor_comm (fold_left _ _ _)) in E.
  by apply lxor_cancel_r in E.
Qed.

End Crc.

(** ** The tables *)

Definition POLY32 : Z := 0xEDB88320.
Definition POLY64 : Z := 0x95AC9329AC4BC9B5.

Definition table_ok (poly : Z) (read : Z -> Z) (table : list Z) : bool :=
  forallb (fun i => match table !! i with
                    | Some t => read t =? Nat.iter 8 (crc_bit poly) (Z.of_nat i)
                    | None => false end) (seq 0 256).

Lemma table_lookup poly read table i :
  table_ok poly read table = true -> is_byte i ->
  exists t, table !! Z.to_nat i = Some t /\ read t = Nat.iter 8 (crc_bit poly) i.
Proof.
  intros Ht Hi. unfold table_ok in Ht. rewrite forallb_forall in Ht. unfold is_byte in Hi.
  specialize (Ht (Z.to_nat i)). rewrite in_seq in Ht. specialize (Ht ltac:(lia)).
  destruct (table !! Z.to_nat i) as [t|]; [|done]. exists t. split; [done|].
  apply Z.eqb_eq in Ht. by rewrite Z2Nat.id in Ht by lia.
Qed.

Lemma crc32_table_ok : table_ok POLY32 (fun t => t mod 2 ^ 32) crc32_table = true.
Proof. vm_compute. reflexivity. Qed.

Lemma crc64_table_ok : table_ok POLY64 (fun t => t) crc64_table = true.
Proof. vm_compute. reflexivity. Qed.

Lemma land_byte x : 0 <= x -> is_byte (Z.land x 255).
Proof. intros Hx. change 255 with (Z.ones 8). rewrite Z.land_ones by lia. apply Z.mod_pos_bound. lia. Qed.

Lemma to_n4_low c b : in_w 32 c -> Z.land (Z.lxor (to_n4 c) b) 255 = Z.land (Z.lxor c b) 255.
Proof.
  intros Hc. apply Z.bits_inj'. intros i Hi.
  rewrite !Z.land_spec, !Z.lxor_spec. change 255 with (Z.ones 8).
  destruct (decide (i < 8)); [|by rewrite Z.ones_spec_high, !andb_false_r by lia]. f_equal. f_equal.
  rewrite <- (Z.mod_pow2_bits_low (to_n4 c) 32), <- (Z.mod_pow2_bits_low c 32) by lia. f_equal.
  unfold to_n4, U4_MOD. rewrite Zminus_mod, Z.mod_mod, <- Zminus_mod by lia. f_equal. lia.
Qed.

Lemma DO1_spec c b buf :
  in_w 32 c -> is_byte b -> DO1 32 (c, b :: buf) = Some (crc_byte POLY32 c b, buf).
Proof.
  intros Hc Hb. cbn [DO1]. rewrite to_n4_low by done.
  assert (is_byte (Z.land (Z.lxor c b) 255)) as Hi.
  { apply land_byte, Z.lxor_nonneg. split; intros; [apply Hb|apply Hc]. }
  destruct (table_lookup _ _ _ _ crc32_table_ok Hi) as (t & -> & Ht). cbn [mbind option_bind].
  by rewrite Ht, crc_byte_table.
Qed.

Lemma in_w_32_poly : in_w 32 POLY32.
Proof. split; [discriminate|reflexivity]. Qed.

(** ** The unrolled loop *)

Lemma rest_add m n w s :
  crc32_rest (m + n) w s = (s ← crc32_rest m w s; crc32_rest n w s).
Proof.
  revert s. induction m as [|m IH]; intros s; [done|]. cbn [Nat.add crc32_rest].
  destruct (DO1 w s) as [s'|]; [apply IH|done].
Qed.

Lemma DO8_rest w s : DO8 w s = crc32_rest 8 w s.
Proof.
  assert (forall s, DO2 w s = crc32_rest 2 w s) as H2.
  { intros r. unfold DO2. cbn. destruct (DO1 w r) as [r1|]; [|done]. cbn. by destruct (DO1 w r1). }
  assert (forall s, DO4 w s = crc32_rest 4 w s) as H4.
  { intros r. unfold DO4. rewrite (rest_add 2 2), H2. destruct (crc32_rest 2 w r); [apply H2|done]. }
  unfold DO8. rewrite (rest_add 4 4), H4. destruct (crc32_rest 4 w s); [apply H4|done].
Qed.

(** Bytes taken eight at a time or one at a time. *)
Lemma eights_spec fuel w s len r :
  0 <= len -> (Z.to_nat len < fuel)%nat -> crc32_rest (Z.to_nat len) w s = Some r ->
  exists s' l, crc32_eights fuel w s len = Some (s', l) /\ crc32_rest (Z.to_nat l) w s' = Some r.
Proof.
  revert s len. induction fuel as [|f IH]; intros s len H0 Hf Hr; [lia|]. cbn [crc32_eights].
  destruct (8 <=? len) eqn:E; to_prop; [|by exists s, len].
  replace (Z.to_nat len) with (8 + Z.to_nat (len - 8))%nat in Hr by lia. rewrite rest_add in Hr.
  rewrite DO8_rest. destruct (crc32_rest 8 w s) as [s1|]; [|done]. cbn [mbind option_bind] in *.
  apply IH; [lia|lia|done].
Qed.

Lemma rest_spec n buf c :
  in_w 32 c -> Forall is_byte buf -> (n <= length buf)%nat ->
  crc32_rest n 32 (c, buf) = Some (crc_ref POLY32 (take n buf) c, drop n buf).
Proof.
  revert buf c. induction n as [|n IH]; intros buf c Hc Hb Hn; [by rewrite take_0, drop_0|].
  destruct buf as [|b buf]; [cbn in Hn; lia|]. apply Forall_cons_1 in Hb as [Hb Hbs]. cbn [length] in Hn.
  cbn [crc32_rest]. rewrite DO1_spec by done. cbn [mbind option_bind].
  rewrite IH; [done| |done|lia].
  apply crc_byte_range; [lia|exact in_w_32_poly|done|done].
Qed.

Lemma crc32_eq (str : bytes) (n : Z) :
  Forall is_byte str -> 0 <= n <= blen str ->
  crc32 32 (Some str) n =
  Some (Z.lxor (crc_ref POLY32 (take (Z.to_nat n) str) 0xFFFFFFFF) 0xFFFFFFFF).
Proof.
  intros Hb Hn. unfold crc32, blen in *. destruct (n <=? 0) eqn:E; to_prop.
  { replace (Z.to_nat n) with 0%nat by lia. done. }
  assert (in_w 32 0xFFFFFFFF) as Hm by (split; [discriminate|reflexivity]).
  pose proof (rest_spec (Z.to_nat n) str 0xFFFFFFFF Hm Hb ltac:(lia)) as Hr.
  change (Z.lxor 0 0xFFFFFFFF) with 0xFFFFFFFF.
  destruct (eights_spec (S (Z.to_nat n)) 32 (0xFFFFFFFF, str) n _ ltac:(lia) ltac:(lia) Hr) as (s' & l & -> & Hl).
  cbn [mbind option_bind]. rewrite Hl. cbn [mbind option_bind fst]. f_equal. apply u4_id.
  apply lxor_in_w; [lia| |done].
  apply crc_ref_range; [lia|exact in_w_32_poly|done|by apply Forall_take].
Qed.

(** C27. With a 32-bit [unsigned long], [crc32] is the CRC-32 of the string: the
    unrolled table-driven loop equals the bit by bit division by the reflected
    polynomial, with all-ones initial and final masks. *)
Theorem crc32_correct (str : bytes) (n : Z) :
  Forall is_byte str -> 0 <= n <= blen str ->
  crc32 32 (Some str) n =
  Some (Z.lxor (crc_ref POLY32 (take (Z.to_nat n) str) 0xFFFFFFFF) 0xFFFFFFFF).
Proof. apply crc32_eq. Qed.

(** The bytes of "123456789". *)
Definition check_string : bytes := [49; 50; 51; 52; 53; 54; 55; 56; 57].

Lemma crc32_correct_witness :
  crc32 32 (Some check_string) 9 = Some 0xCBF43926 /\
  crc32 32 (Some check_string) 9 =
  Some (Z.lxor (crc_ref POLY32 check_string 0xFFFFFFFF) 0xFFFFFFFF).
Proof.
  split; [vm_compute; reflexivity|]. apply (crc32_correct check_string 9).
  - unfold check_string. repeat (constructor; [unfold is_byte; lia|]). constructor.
  - vm_compute. split; discriminate.
Defined.

(** With a 64-bit [unsigned long] the negative entries of the [n4] table are
    sign extended and leak into the low bits: the result is not the CRC-32. *)
Theorem crc32_lp64_differs :
  crc32 64 (Some check_string) 9 = Some 877322443 /\
  crc32 64 (Some check_string) 9 <>
  Some (Z.lxor (crc_ref POLY32 check_string 0xFFFFFFFF) 0xFFFFFFFF).
Proof.
  assert (crc32 64 (Some check_string) 9 = Some 877322443) as -> by (vm_compute; reflexivity).
  split; [done|]. vm_compute. discriminate.
Qed.

Lemma crc64_loop_spec n idx str c :
  in_w 64 c -> Forall is_byte str -> (idx + n <= length str)%nat ->
  crc64_loop n idx str c = Some (crc_ref POLY64 (take n (drop idx str)) c).
Proof.
  revert idx c. induction n as [|n IH]; intros idx c Hc Hs Hn; [by rewrite take_0|].
  destruct (lookup_lt_is_Some_2 str idx) as [b Hb]; [lia|].
  pose proof (proj1 (Forall_lookup _ _) Hs idx b Hb) as Hbb. cbn in Hbb.
  rewrite (drop_S _ _ _ Hb). cbn [crc64_loop]. rewrite Hb. cbn [mbind option_bind].
  assert (Z.lxor (c mod 256) b = Z.land (Z.lxor c b) 255) as E.
  { change 255 with (Z.ones 8). rewrite Z.land_ones by lia. change 256 with (2 ^ 8).
    apply Z.bits_inj'. intros i Hi. rewrite Z.lxor_spec. destruct (decide (i < 8)).
    - by rewrite !Z.mod_pow2_bits_low, Z.lxor_spec by lia.
    - rewrite !Z.mod_pow2_bits_high by lia. rewrite (in_w_high 8 ltac:(lia) b i); [done|exact Hbb|lia]. }
  assert (is_byte (Z.land (Z.lxor c b) 255)) as Hi.
  { apply land_byte, Z.lxor_nonneg. split; intros; [apply Hbb|apply Hc]. }
  rewrite E. destruct (table_lookup _ _ _ _ crc64_table_ok Hi) as (t & -> & Ht).
  cbn [mbind option_bind]. cbv beta in Ht. rewrite Ht, <- crc_byte_table by done.
  rewrite IH; [done| |done|lia]. apply crc_byte_range; [lia|split; [discriminate|reflexivity]|done|done].
Qed.

Lemma crc64_eq (str : bytes) (n : Z) :
  Forall is_byte str -> 0 <= n <= blen str ->
  crc64 str n = Some (crc_ref POLY64 (take (Z.to_nat n) str) 0).
Proof.
  intros Hb Hn. unfold crc64, blen in *. rewrite crc64_loop_spec; [by rewrite drop_0| |done|lia].
  split; [lia|reflexivity].
Qed.

(** [crc64] is the bit by bit CRC with the reflected Jones polynomial. *)
Theorem crc64_correct (str : bytes) (n : Z) :
  Forall is_byte str -> 0 <= n <= blen str ->
  crc64 str n = Some (crc_ref POLY64 (take (Z.to_nat n) str) 0).
Proof. apply crc64_eq. Qed.

Lemma crc64_correct_witness :
  crc64 check_string 9 = Some 0xE9C6D914C4B8D9CA /\
  crc64 check_string 9 = Some (crc_ref POLY64 check_string 0).
Proof.
  split; [vm_compute; reflexivity|]. apply (crc64_correct check_string 9).
  - unfold check_string. repeat (constructor; [unfold is_byte; lia|]). constructor.
  - vm_compute. split; discriminate.
Defined.

(** Both checksums detect every corruption of a single byte, wherever it is. *)
Theorem crc_detects_byte (pre post : bytes) (x y : Z) :
  Forall is_byte (pre ++ x :: post) -> is_byte y -> x <> y ->
  let n := blen (pre ++ x :: post) in
  crc32 32 (Some (pre ++ x :: post)) n <> crc32 32 (Some (pre ++ y :: post)) n /\
  crc64 (pre ++ x :: post) n <> crc64 (pre ++ y :: post) n.
Proof.
  intros Hb Hy Hne n.
  assert (Forall is_byte (pre ++ y :: post)) as Hb'.
  { apply Forall_app in Hb as [Hp [_ Hq]%Forall_cons_1]. apply Forall_app. by split; [|constructor]. }
  assert (forall z, 0 <= n <= blen (pre ++ z :: post) /\
            take (Z.to_nat n) (pre ++ z :: post) = pre ++ z :: post) as Hn.
  { intros z. unfold n, blen. rewrite !length_app. cbn [length]. split; [lia|].
    apply take_ge. rewrite length_app. cbn [length]. lia. }
  destruct (Hn x) as [Hx Tx], (Hn y) as [Hyn Ty]. clearbody n.
  rewrite !crc32_eq, !crc64_eq by done. rewrite Tx, Ty. split.
  - intros [= E%lxor_cancel_r]. revert E.
    apply (crc_ref_detects POLY32 32); [lia|exact in_w_32_poly|reflexivity|split; [discriminate|reflexivity]|done..].
  - intros [= E]. revert E.
    apply (crc_ref_detects POLY64 64); [lia|split; [discriminate|reflexivity]|reflexivity|split; [discriminate|reflexivity]|done..].
Qed.

Lemma crc_detects_byte_witness :
  crc32 32 (Some [1; 2; 3]) 3 <> crc32 32 (Some [1; 7; 3]) 3 /\ crc64 [1; 2; 3] 3 <> crc64 [1; 7; 3] 3.
Proof.
  apply (crc_detects_byte [1] [3] 2 7).
  - repeat (constructor; [unfold is_byte; lia|]). constructor.
  - unfold is_byte. lia.
  - lia.
Defined.

End Hash.
