(* ===== verification/LiskHashtable.v ===== *)
(** * lisk_hashtable.c: a hash table of chained tables

    Models win_lisk/src/lisk_hashtable.c.  A hashtable is a chain of tables, the
    newest first; a bucket is its chain of elements.  An element carries the
    address of its block, since [erase] and [update] compare pointers.  A search
    that ends in an old table moves the whole bucket into the first one, and an
    old table left empty is released. *)

From S2P Require Import Prelude LiskMath LiskHash.

Module Hashtable.

Record ht_elem_t := mk_elem { e_addr : nat; e_key : bytes; e_value : bytes }.

Record table_t := mk_table {
  t_size : Z;
  t_number : Z;
  t_bucket : list (list ht_elem_t);
}.

(** [h_fresh] is the next address of the allocator. *)
Record hashtable_t := mk_ht { h_table : list table_t; h_fresh : nat }.

(** [key_t] and [value_t]: a size and a pointer. *)
Abbreviation slice := (Z * option bytes)%type.

Definition sizeof_table_t : Z := 24.
Definition sizeof_bucket_t : Z := 8.
Definition sizeof_hashtable_t : Z := 16.
Definition sizeof_elem_t : Z := 32.
Definition MAX_BUCKET_SIZE : Z := 5.

Definition to_n8 (z : Z) : Z := (z + 2 ^ 63) mod U8_MOD - 2 ^ 63.

(** The zeroed table of [ALLOC] and [SET_ZERO], or nil. *)
Definition new_table (malloc : malloc_fun) (size : Z) : option table_t :=
  match malloc (u8 (sizeof_table_t + u8 (size * sizeof_bucket_t))) with
  | None => None
  | Some _ => Some (mk_table size 0 (replicate (Z.to_nat size) []))
  end.

(** Fuel is that of [next_prime]. *)
Definition hashtable_init (malloc malloc_h : malloc_fun) (fuel : nat) (ht_nil : bool) (size : Z)
  (cmp_nil : bool) : option (Z * option hashtable_t) :=
  if ht_nil || (size =? 0) || cmp_nil then Some (-1, None)
  else
    p ← Math.next_prime fuel (to_n8 size);
    match new_table malloc (u8 p) with
    | None => Some (-2, None)
    | Some table =>
        match malloc_h sizeof_hashtable_t with
        | None => Some (-2, None)
        | Some _ => Some (0, Some (mk_ht [table] 1))
        end
    end.

(** The size asked for when the caller gives 0: times 4, 2 or 3/2, whichever does
    not wrap. *)
Definition expand_size (size : Z) : option Z :=
  if u8 (size * 4) <? size then
    if u8 (size * 2) <? size then
      if u8 (size + size / 2) <? size then None else Some (u8 (size + size / 2))
    else Some (u8 (size * 2))
  else Some (u8 (size * 4)).

Definition hashtable_expand (malloc : malloc_fun) (fuel : nat) (ht : option hashtable_t) (size : Z)
  : option (Z * option hashtable_t) :=
  match ht with
  | None => Some (-1, None)
  | Some h =>
      first ← head (h_table h);
      match (if size =? 0 then expand_size (t_size first) else Some size) with
      | None => Some (0, Some h)
      | Some size =>
          p ← Math.next_prime fuel (to_n8 size);
          if u8 p <? t_size first then Some (0, Some h)
          else
            match new_table malloc (u8 p) with
            | None => Some (-2, Some h)
            | Some table => Some (0, Some (mk_ht (table :: h_table h) (h_fresh h)))
            end
      end
  end.

Section Operations.
Context (cmp : bytes -> bytes -> Z).

(** The bytes of a key or value argument. *)
Definition slice_bytes (s : slice) : option bytes := d ← snd s; rd d 0 (fst s).

Definition slice_bad (s : slice) : bool :=
  match snd s with None => true | Some _ => fst s =? 0 end.

Fixpoint find_in_bucket (key : bytes) (b : list ht_elem_t) : option ht_elem_t :=
  match b with
  | [] => None
  | e :: b' => if cmp (e_key e) key =? 0 then Some e else find_in_bucket key b'
  end.

(** The walk over the chain of tables: position of the table, bucket, element. *)
Fixpoint search_tables (key : bytes) (elem_pos : Z) (ts : list table_t) (i : nat)
  : option (option (nat * nat * ht_elem_t)) :=
  match ts with
  | [] => Some None
  | t :: ts' =>
      let j := Z.to_nat (elem_pos mod t_size t) in
      bucket ← t_bucket t !! j;
      match find_in_bucket key bucket with
      | Some e => Some (Some (i, j, e))
      | None => search_tables key elem_pos ts' (S i)
      end
  end.

Definition hash_of (key : bytes) : option Z := Hash.bkdr64 key (blen key).

(** An element goes to the head of its bucket. *)
Definition push_elem (t : table_t) (e : ht_elem_t) : option table_t :=
  elem_pos ← hash_of (e_key e);
  let j := Z.to_nat (elem_pos mod t_size t) in
  b ← t_bucket t !! j;
  Some (mk_table (t_size t) (u8 (t_number t + 1)) (<[j := e :: b]> (t_bucket t))).

(** The elements of the old bucket, from its head on, and the old [number]. *)
Fixpoint move_bucket (b : list ht_elem_t) (first : table_t) (number : Z) : option (table_t * Z) :=
  match b with
  | [] => Some (first, number)
  | e :: b' => first ← push_elem first e; move_bucket b' first (u8 (number - 1))
  end.

Definition hashtable_search (ht : option hashtable_t) (key : option slice) (elem_nil : bool)
  : option (Z * option ht_elem_t * option hashtable_t) :=
  match ht, key with
  | Some h, Some key =>
      if elem_nil then Some (-1, None, ht)
      else if slice_bad key then Some (-1, None, ht)
      else
        k ← slice_bytes key;
        elem_pos ← hash_of k;
        found ← search_tables k elem_pos (h_table h) 0;
        match found with
        | None => Some (-2, None, ht)
        | Some (O, _, e) => Some (0, Some e, ht)
        | Some (S i, j, e) =>
            first ← h_table h !! 0%nat;
            target ← h_table h !! S i;
            b ← t_bucket target !! j;
            '(first, number) ← move_bucket b first (t_number target);
            let target := mk_table (t_size target) number (<[j := []]> (t_bucket target)) in
            let ts := <[0%nat := first]> (h_table h) in
            let ts := if number =? 0 then delete (S i) ts else <[S i := target]> ts in
            Some (0, Some e, Some (mk_ht ts (h_fresh h)))
        end
  | _, _ => Some (-1, None, ht)
  end.

(** The value found, the pointer dereferenced. *)
Definition hashtable_find (ht : option hashtable_t) (key : option slice) (value_nil : bool)
  : option (Z * option bytes * option hashtable_t) :=
  match key with
  | None => Some (-1, None, ht)
  | Some key =>
      if value_nil then Some (-1, None, ht)
      else
        '(ret, elem, ht) ← hashtable_search ht (Some key) false;
        match elem with
        | Some e => if ret =? 0 then Some (0, Some (e_value e), ht) else Some (-2, None, ht)
        | None => Some (-2, None, ht)
        end
  end.

Definition hashtable_insert (malloc_t malloc_e : malloc_fun) (fuel : nat) (ht : option hashtable_t)
  (key value : option slice) : option (Z * option hashtable_t) :=
  match ht, key, value with
  | Some h, Some key, Some value =>
      first ← head (h_table h);
      if slice_bad key || (t_size first =? 0) then Some (-1, ht)
      else if slice_bad value then Some (-1, ht)
      else
        '(_, ht) ←
          (if MAX_BUCKET_SIZE <? t_number first / t_size first
           then hashtable_expand malloc_t fuel (Some h) 0 else Some (0, Some h));
        '(ret, _, ht) ← hashtable_search ht (Some key) false;
        if ret =? 0 then Some (-3, ht)
        else
          match malloc_e (sizeof_elem_t + fst key + fst value) with
          | None => Some (-2, ht)
          | Some _ =>
              h ← ht;
              k ← slice_bytes key; v ← slice_bytes value;
              first ← head (h_table h);
              first ← push_elem first (mk_elem (h_fresh h) k v);
              Some (0, Some (mk_ht (<[0%nat := first]> (h_table h)) (S (h_fresh h))))
          end
  | _, _, _ => Some (-1, ht)
  end.

(** The walk of [erase]: the element at [a] is unlinked, if it is there. *)
Fixpoint unlink (a : nat) (b : list ht_elem_t) : option (list ht_elem_t) :=
  match b with
  | [] => None
  | e :: b' => if decide (e_addr e = a) then Some b' else b'' ← unlink a b'; Some (e :: b'')
  end.

Definition hashtable_erase (ht : option hashtable_t) (key : option slice)
  : option (Z * option hashtable_t) :=
  match ht, key with
  | Some _, Some key =>
      if slice_bad key then Some (-1, ht)
      else
        '(ret, elem, ht) ← hashtable_search ht (Some key) false;
        if negb (ret =? 0) then Some (-2, ht)
        else
          e ← elem; h ← ht;
          k ← slice_bytes key; elem_pos ← hash_of k;
          first ← head (h_table h);
          let j := Z.to_nat (elem_pos mod t_size first) in
          b ← t_bucket first !! j;
          match unlink (e_addr e) b with
          | None => Some (0, Some h)
          | Some b' =>
              let first := mk_table (t_size first) (u8 (t_number first - 1)) (<[j := b']> (t_bucket first)) in
              Some (0, Some (mk_ht (<[0%nat := first]> (h_table h)) (h_fresh h)))
          end
  | _, _ => Some (-1, ht)
  end.

(** The links of the bucket that lead to the element at [a] now lead to [e]. *)
Fixpoint relink (a : nat) (e : ht_elem_t) (b : list ht_elem_t) : option (list ht_elem_t) :=
  match b with
  | [] => None
  | x :: b' => if decide (e_addr x = a) then Some (e :: b') else b'' ← relink a e b'; Some (x :: b'')
  end.

(** [realloc] moves the element to a fresh address; when it fails the code
    allocates a block and copies from the pointer it has just lost: [None]. *)
Definition hashtable_update (realloc malloc : malloc_fun) (ht : option hashtable_t)
  (key value : option slice) : option (Z * option hashtable_t) :=
  match ht, key, value with
  | Some _, Some key, Some value =>
      if slice_bad key then Some (-1, ht)
      else if slice_bad value then Some (-1, ht)
      else
        '(ret, elem, ht) ← hashtable_search ht (Some key) false;
        if negb (ret =? 0) then Some (-2, ht)
        else
          old ← elem; h ← ht;
          k ← slice_bytes key; elem_pos ← hash_of k;
          first ← head (h_table h);
          let j := Z.to_nat (elem_pos mod t_size first) in
          b ← t_bucket first !! j;
          match relink (e_addr old) old b with
          | None => Some (-2, Some h)
          | Some _ =>
              v ← slice_bytes value;
              let size := u4 (sizeof_elem_t + fst key + fst value) in
              let set e fresh :=
                b' ← relink (e_addr old) e b;
                let first := mk_table (t_size first) (t_number first) (<[j := b']> (t_bucket first)) in
                Some (0, Some (mk_ht (<[0%nat := first]> (h_table h)) fresh)) in
              if fst value <? blen (e_value old)
              then set (mk_elem (e_addr old) (e_key old) v) (h_fresh h)
              else
                match realloc size with
                | Some _ => set (mk_elem (h_fresh h) (e_key old) v) (S (h_fresh h))
                | None => match malloc size with None => Some (-2, Some h) | Some _ => None end
                end
          end
  | _, _, _ => Some (-1, ht)
  end.

End Operations.

(** The sums are [u4]. *)
Definition hashtable_size (ht : option hashtable_t) (size_nil : bool) : Z * option Z :=
  match ht with
  | None => (-1, None)
  | Some h => if size_nil then (-1, None)
              else (0, Some (fold_left (fun n t => u4 (n + t_number t)) (h_table h) 0))
  end.

Definition bucket_bytes (n : Z) (b : list ht_elem_t) : Z :=
  fold_left (fun n e => u4 (n + (sizeof_elem_t + blen (e_key e) + blen (e_value e)))) b
    (u4 (n + sizeof_bucket_t)).

Definition hashtable_table_size (table : option table_t) (size_nil : bool) : Z * option Z :=
  match table with
  | None => (-1, None)
  | Some t => if size_nil then (-1, None)
              else (0, Some (fold_left bucket_bytes (t_bucket t) sizeof_table_t))
  end.

Definition hashtable_memory_size (ht : option hashtable_t) (size_nil : bool) : Z * option Z :=
  match ht with
  | None => (-1, None)
  | Some h =>
      if size_nil then (-1, None)
      else (0, Some (fold_left (fun n t => u4 (n + default 0 (snd (hashtable_table_size (Some t) false))))
                       (h_table h) sizeof_hashtable_t))
  end.

(** The blocks released: the elements of each table, bucket by bucket. *)
Definition hashtable_release_table (table : option table_t) : Z * list nat :=
  match table with
  | None => (-1, [])
  | Some t => (0, e_addr <$> concat (t_bucket t))
  end.

Definition hashtable_free (ht_nil : bool) (ht : option hashtable_t) : Z * list nat * option hashtable_t :=
  match ht with
  | None => (-1, [], None)
  | Some h =>
      if ht_nil then (-1, [], Some h)
      else (0, concat ((fun t => snd (hashtable_release_table (Some t))) <$> h_table h), None)
  end.

(** ** Placement of the elements *)

Definition hv (k : bytes) : Z := Hash.horner 131313131 k 0 mod 2 ^ 63.
Definition slot (k : bytes) (size : Z) : nat := Z.to_nat (hv k mod size).

Lemma hash_of_total k : hash_of k = Some (hv k).
Proof.
  unfold hash_of. destruct (Hash.bkdr_eq k (blen k)) as [_ ->]; [pose proof (blen_nonneg k); lia|].
  unfold blen. by rewrite Nat2Z.id, take_ge.
Qed.

Definition elems (t : table_t) : list ht_elem_t := concat (t_bucket t).

Record tbl_ok (t : table_t) : Prop := {
  tk_size : 0 < t_size t < 2 ^ 63;
  tk_len : length (t_bucket t) = Z.to_nat (t_size t);
  tk_number : t_number t = Z.of_nat (length (elems t));
  tk_slot : forall j b e, t_bucket t !! j = Some b -> e ∈ b -> slot (e_key e) (t_size t) = j;
}.

Lemma slot_bucket t k : tbl_ok t -> exists b, t_bucket t !! slot k (t_size t) = Some b.
Proof.
  intros Ht. pose proof (tk_size t Ht). apply lookup_lt_is_Some_2. rewrite (tk_len t Ht). unfold slot.
  pose proof (Z.mod_pos_bound (hv k) (t_size t) ltac:(lia)). lia.
Qed.

(** An element of a table is in the bucket of its key. *)
Lemma elem_slot t e :
  tbl_ok t -> e ∈ elems t -> exists b, t_bucket t !! slot (e_key e) (t_size t) = Some b /\ e ∈ b.
Proof.
  intros Ht (j & b & Hj & Hb)%elem_of_concat. exists b. by rewrite (tk_slot t Ht j b e).
Qed.

Lemma new_table_ok malloc size t :
  0 < size < 2 ^ 63 -> new_table malloc size = Some t ->
  tbl_ok t /\ elems t = [] /\ t_size t = size.
Proof.
  intros Hs. unfold new_table. destruct (malloc _); [|done]. intros [= <-].
  assert (elems (mk_table size 0 (replicate (Z.to_nat size) [])) = []) as E.
  { unfold elems. cbn. induction (Z.to_nat size); [done|cbn; done]. }
  split; [|done]. split; cbn [t_size t_bucket t_number]; [done|apply length_replicate|by rewrite E|].
  intros j b e [-> _]%lookup_replicate He. by apply elem_of_nil in He.
Qed.

(** A change of one bucket. *)
Lemma bucket_update t j b b' n :
  tbl_ok t -> t_bucket t !! j = Some b -> (forall e, e ∈ b' -> slot (e_key e) (t_size t) = j) ->
  n = Z.of_nat (length (b' ++ concat (delete j (t_bucket t)))) ->
  let t' := mk_table (t_size t) n (<[j := b']> (t_bucket t)) in
  tbl_ok t' /\ elems t' ≡ₚ b' ++ concat (delete j (t_bucket t)).
Proof.
  intros Ht Hj Hb Hn t'. assert (elems t' ≡ₚ b' ++ concat (delete j (t_bucket t))) as E
    by (by apply (concat_insert_perm _ j b)).
  split; [|done]. split; cbn [t_size t_bucket t_number t'].
  - apply Ht.
  - rewrite length_insert. apply Ht.
  - by rewrite E.
  - intros i c e Hi He. apply list_lookup_insert_Some in Hi as [(<- & <- & _)|[_ Hi]]; [by apply Hb|].
    by apply (tk_slot t Ht i c).
Qed.

Lemma push_elem_spec t e :
  tbl_ok t -> Z.of_nat (length (elems t)) + 1 < U8_MOD ->
  exists t', push_elem t e = Some t' /\ tbl_ok t' /\ t_size t' = t_size t /\ elems t' ≡ₚ e :: elems t.
Proof.
  intros Ht Hb. destruct (slot_bucket t (e_key e) Ht) as [b Hj]. unfold push_elem.
  rewrite hash_of_total. cbn [mbind option_bind]. fold (slot (e_key e) (t_size t)). rewrite Hj. cbn [mbind option_bind].
  pose proof (concat_lookup_perm _ _ _ Hj) as Hp. fold (elems t) in Hp.
  destruct (bucket_update t _ b (e :: b) (u8 (t_number t + 1)) Ht Hj) as [Ht' He'].
  - intros e' [->|He']%elem_of_cons; [done|]. by apply (tk_slot t Ht _ b).
  - rewrite u8_id by (unfold is_u8; rewrite (tk_number t Ht); lia). rewrite (tk_number t Ht), Hp. cbn [length app]. lia.
  - eexists. split; [done|]. split; [done|]. split; [done|]. rewrite He', Hp. done.
Qed.

Lemma move_bucket_spec b first number :
  tbl_ok first -> Z.of_nat (length (elems first)) + Z.of_nat (length b) < U8_MOD ->
  Z.of_nat (length b) <= number < U8_MOD ->
  exists first', move_bucket b first number = Some (first', number - Z.of_nat (length b)) /\
    tbl_ok first' /\ t_size first' = t_size first /\ elems first' ≡ₚ b ++ elems first.
Proof.
  revert first number. induction b as [|e b IH]; intros first number Ht Hb Hn; cbn [length] in *.
  { exists first. cbn. rewrite Z.sub_0_r. done. }
  cbn [move_bucket]. destruct (push_elem_spec first e Ht) as (f1 & -> & Ht1 & Es & Ep); [lia|].
  cbn [mbind option_bind]. rewrite u8_id by (unfold is_u8; lia).
  destruct (IH f1 (number - 1) Ht1) as (f2 & -> & Ht2 & Es2 & Ep2);
    [rewrite Ep; cbn [length]; lia|lia|].
  exists f2. split; [do 2 f_equal; lia|]. split; [done|]. split; [congruence|].
  rewrite Ep2, Ep. solve_Permutation.
Qed.

(** ** Representation of a finite map *)

Definition all_elems (ts : list table_t) : list ht_elem_t := concat (elems <$> ts).
Definition kv (e : ht_elem_t) : bytes * bytes := (e_key e, e_value e).

Record ht_rep (h : hashtable_t) (M : gmap bytes bytes) : Prop := {
  hr_first : h_table h <> [];
  hr_tables : Forall tbl_ok (h_table h);
  hr_map : kv <$> all_elems (h_table h) ≡ₚ map_to_list M;
  hr_addr : NoDup (e_addr <$> all_elems (h_table h));
  hr_fresh : forall e, e ∈ all_elems (h_table h) -> (e_addr e < h_fresh h)%nat;
}.

Lemma all_lookup ts i t : ts !! i = Some t -> all_elems ts ≡ₚ elems t ++ all_elems (delete i ts).
Proof.
  intros Hi. unfold all_elems. rewrite (concat_lookup_perm _ i (elems t)) by (by rewrite list_lookup_fmap, Hi).
  by rewrite list_fmap_delete.
Qed.

Lemma all_insert ts i t t' :
  ts !! i = Some t -> all_elems (<[i := t']> ts) ≡ₚ elems t' ++ all_elems (delete i ts).
Proof.
  intros Hi. unfold all_elems. rewrite list_fmap_insert, (concat_insert_perm _ i (elems t)) by (by rewrite list_lookup_fmap, Hi).
  by rewrite list_fmap_delete.
Qed.

Section Rep.
Context (h : hashtable_t) (M : gmap bytes bytes) (Hr : ht_rep h M).

Lemma rep_elem e : e ∈ all_elems (h_table h) -> M !! e_key e = Some (e_value e).
Proof.
  intros He. apply elem_of_map_to_list. rewrite <- (hr_map h M Hr).
  by apply (list_elem_of_fmap_2 kv).
Qed.

Lemma rep_lookup k v : M !! k = Some v -> exists e, e ∈ all_elems (h_table h) /\ e_key e = k /\ e_value e = v.
Proof.
  intros Hk. apply elem_of_map_to_list in Hk. rewrite <- (hr_map h M Hr) in Hk.
  apply list_elem_of_fmap in Hk as (e & [= -> ->] & He). eauto.
Qed.

Lemma rep_size : length (all_elems (h_table h)) = size M.
Proof.
  rewrite <- length_map_to_list, <- (Permutation_length (hr_map h M Hr)). by rewrite length_fmap.
Qed.

Lemma rep_table_size i t : h_table h !! i = Some t -> (length (elems t) <= size M)%nat.
Proof. intros Hi. rewrite <- rep_size, (all_lookup _ i t Hi), length_app. lia. Qed.

(** One key, one element. *)
Lemma rep_key_inj e e' :
  e ∈ all_elems (h_table h) -> e' ∈ all_elems (h_table h) -> e_addr e = e_addr e' -> e = e'.
Proof.
  intros [i Hi]%list_elem_of_lookup [j Hj]%list_elem_of_lookup E.
  assert (i = j) as ->; [|congruence].
  apply (NoDup_lookup _ i j (e_addr e) (hr_addr h M Hr)); rewrite list_lookup_fmap; [by rewrite Hi|by rewrite Hj, E].
Qed.
End Rep.

Section Search.
Context (cmp : bytes -> bytes -> Z) (Hcmp : forall a b, cmp a b = 0 <-> a = b).

Lemma find_in_bucket_spec key b :
  match find_in_bucket cmp key b with
  | Some e => e ∈ b /\ e_key e = key
  | None => forall e, e ∈ b -> e_key e <> key
  end.
Proof.
  induction b as [|x b IH]; cbn [find_in_bucket]; [by intros e ?%elem_of_nil|].
  destruct (cmp (e_key x) key =? 0) eqn:E; to_prop.
  - split; [by left|by apply Hcmp].
  - destruct (find_in_bucket cmp key b) as [e|]; [by split; [right; apply IH|apply IH]|].
    intros e [->|He]%elem_of_cons; [|by apply IH]. intros Hk. by apply E, Hcmp.
Qed.

Lemma search_tables_spec key ts i :
  Forall tbl_ok ts ->
  (exists n j t b e, search_tables cmp key (hv key) ts i = Some (Some ((i + n)%nat, j, e)) /\
     ts !! n = Some t /\ t_bucket t !! j = Some b /\ e ∈ b /\ e_key e = key) \/
  (search_tables cmp key (hv key) ts i = Some None /\ forall e, e ∈ all_elems ts -> e_key e <> key).
Proof.
  intros Hts. revert i. induction Hts as [|t ts Ht Hts IH]; intros i.
  { right. split; [done|]. by intros e ?%elem_of_nil. }
  cbn [search_tables]. fold (slot key (t_size t)).
  destruct (slot_bucket t key Ht) as [b Hb]. rewrite Hb. cbn [mbind option_bind].
  pose proof (find_in_bucket_spec key b) as Hf. destruct (find_in_bucket cmp key b) as [e|].
  - destruct Hf as [He Hk]. left. exists 0%nat, (slot key (t_size t)), t, b, e. by rewrite Nat.add_0_r.
  - destruct (IH (S i)) as [(n & j & t' & b' & e & -> & Hn & Hj & He & Hk)|[-> Hno]].
    + left. exists (S n), j, t', b', e. by rewrite Nat.add_succ_r.
    + right. split; [done|]. intros e [He|He]%elem_of_app Hk; [|by apply (Hno e)].
      destruct (elem_slot t e Ht He) as (b' & Hb' & Heb). rewrite Hk, Hb in Hb'. injection Hb' as <-.
      by apply (Hf e).
Qed.

(** What a search leaves: the element is in the bucket of its key in the first table. *)
Definition found_first (h : hashtable_t) (e : ht_elem_t) : Prop :=
  exists t b, h_table h !! 0%nat = Some t /\ t_bucket t !! slot (e_key e) (t_size t) = Some b /\ e ∈ b.

Definition key_ok (k : bytes) : Prop := 0 < blen k.
Definition to_slice (k : bytes) : option slice := Some (blen k, Some k).

Lemma slice_bytes_full k : slice_bytes (blen k, Some k) = Some k.
Proof. unfold slice_bytes. cbn. by apply rd_all. Qed.

Lemma slice_bad_full k : key_ok k -> slice_bad (blen k, Some k) = false.
Proof. unfold key_ok, slice_bad. cbn. intros. apply Z.eqb_neq. lia. Qed.

Lemma ht_rep_perm h h' M :
  ht_rep h M -> h_table h' <> [] -> Forall tbl_ok (h_table h') ->
  all_elems (h_table h') ≡ₚ all_elems (h_table h) -> h_fresh h' = h_fresh h -> ht_rep h' M.
Proof.
  intros [] Hne Hok Hp Hf. split; auto; rewrite ?Hf.
  - by rewrite Hp.
  - by rewrite Hp.
  - intros e He. rewrite Hp in He. auto.
Qed.

(** The migration keeps the elements, and puts the bucket in the first table. *)
Lemma migrate_spec h M i j t b first e :
  ht_rep h M -> Z.of_nat (2 * size M) < U8_MOD ->
  h_table h !! 0%nat = Some first -> h_table h !! S i = Some t -> t_bucket t !! j = Some b -> e ∈ b ->
  exists first' n, move_bucket b first (t_number t) = Some (first', n) /\
    let t' := mk_table (t_size t) n (<[j := []]> (t_bucket t)) in
    let ts := <[0%nat := first']> (h_table h) in
    let h' := mk_ht (if n =? 0 then delete (S i) ts else <[S i := t']> ts) (h_fresh h) in
    ht_rep h' M /\ found_first h' e.
Proof.
  intros Hr Hsz H0 Hi Hj He.
  pose proof (proj1 (Forall_lookup _ _) (hr_tables h M Hr) _ _ H0) as Hf.
  pose proof (proj1 (Forall_lookup _ _) (hr_tables h M Hr) _ _ Hi) as Ht. cbn in Hf, Ht.
  pose proof (rep_table_size h M Hr _ _ H0). pose proof (rep_table_size h M Hr _ _ Hi) as Hti.
  pose proof (concat_lookup_perm _ _ _ Hj) as Hp. fold (elems t) in Hp.
  pose proof (tk_number t Ht) as Hn. rewrite Hp, length_app in Hn. rewrite Hp, length_app in Hti.
  destruct (move_bucket_spec b first (t_number t) Hf) as (first' & -> & Hf' & Es & Ep); [lia|lia|].
  eexists _, _. split; [reflexivity|]. intros t' ts h'.
  destruct (bucket_update t j b [] (t_number t - Z.of_nat (length b)) Ht Hj) as [Ht' Ep'];
    [by intros ? ?%elem_of_nil|cbn [app]; lia|]. fold t' in Ht', Ep'. cbn [app] in Ep'.
  assert (ts !! S i = Some t) as Hi' by (unfold ts; by rewrite list_lookup_insert_ne).
  assert (all_elems (<[S i := t']> ts) ≡ₚ all_elems (h_table h)) as Hall.
  { rewrite (all_insert ts (S i) t t' Hi').
    destruct (h_table h) as [|f rest] eqn:Eh; [done|]. cbn in H0. injection H0 as ->. unfold ts.
    change (all_elems (delete (S i) _)) with (elems first' ++ all_elems (delete i rest)).
    change (all_elems (first :: rest)) with (elems first ++ all_elems rest).
    rewrite (all_lookup rest i t Hi), Ep', Ep, Hp. solve_Permutation. }
  assert (Forall tbl_ok (<[S i := t']> ts)) as Hok.
  { apply Forall_insert; [|done]. apply Forall_insert; [apply Hr|done]. }
  assert (t_number t' = 0 -> all_elems (delete (S i) ts) ≡ₚ all_elems (<[S i := t']> ts)) as Hdel.
  { intros Hz. rewrite (all_insert ts (S i) t t' Hi'). pose proof (tk_number t' Ht') as E.
    rewrite Hz in E. assert (elems t' = []) as -> by (apply nil_length_inv; lia). done. }
  destruct (h_table h) as [|f rest] eqn:Eh; [done|]. cbn in H0. injection H0 as ->. unfold ts in *. cbn in *.
  assert (h_table h' !! 0%nat = Some first') as Hf0 by (unfold h'; cbn; by destruct (_ =? 0)).
  split.
  - apply (ht_rep_perm h); [done|intros E0; by rewrite E0 in Hf0| | |done]; unfold h'; cbn [h_table]; rewrite ?Eh.
    + destruct (_ =? 0) eqn:Ez; [|done]. cbn. apply Forall_cons in Hok as [Hok1 Hok2].
      apply Forall_cons. split; [done|]. pose proof (hr_tables h M Hr) as Hx. rewrite Eh in Hx.
      apply Forall_cons in Hx as [_ Hx]. by apply Forall_delete.
    + destruct (_ =? 0) eqn:Ez; [|done]. to_prop. rewrite <- Hall. by apply Hdel.
  - assert (e ∈ elems first') as He' by (rewrite Ep; apply elem_of_app; by left).
    destruct (elem_slot first' e Hf' He') as (b' & Hb' & Heb). exists first', b'. auto.
Qed.

Lemma search_spec h M k :
  ht_rep h M -> Z.of_nat (2 * size M) < U8_MOD -> key_ok k ->
  match M !! k with
  | None => hashtable_search cmp (Some h) (to_slice k) false = Some (-2, None, Some h)
  | Some v => exists e h', hashtable_search cmp (Some h) (to_slice k) false = Some (0, Some e, Some h') /\
                e_key e = k /\ e_value e = v /\ ht_rep h' M /\ found_first h' e /\ h_fresh h' = h_fresh h
  end.
Proof.
  intros Hr Hsz Hk. unfold hashtable_search, to_slice. rewrite slice_bad_full, slice_bytes_full by done.
  cbn [mbind option_bind]. rewrite hash_of_total. cbn [mbind option_bind].
  destruct (search_tables_spec k (h_table h) 0 (hr_tables h M Hr))
    as [(n & j & t & b & e & -> & Hn & Hj & He & Hek)|[-> Hno]]; cbn [mbind option_bind Nat.add].
  - assert (e ∈ all_elems (h_table h)) as Hall.
    { rewrite (all_lookup _ _ _ Hn). apply elem_of_app. left. apply elem_of_concat. eauto. }
    pose proof (rep_elem h M Hr e Hall) as Hm. rewrite Hek in Hm. rewrite Hm.
    destruct n as [|i].
    + exists e, h. split; [done|]. split; [done|]. split; [done|]. split; [done|]. split; [|done].
      exists t, b. split; [done|]. split; [|done].
      pose proof (proj1 (Forall_lookup _ _) (hr_tables h M Hr) _ _ Hn) as Ht. cbn in Ht.
      by rewrite (tk_slot t Ht j b e).
    + destruct (h_table h !! 0%nat) as [first|] eqn:H0; [|by pose proof (hr_first h M Hr); destruct (h_table h)].
      cbn [mbind option_bind]. rewrite Hn. cbn [mbind option_bind]. rewrite Hj. cbn [mbind option_bind].
      destruct (migrate_spec h M i j t b first e Hr Hsz H0 Hn Hj He) as (first' & n & -> & Hr' & Hff).
      cbn [mbind option_bind]. eexists _, _. split; [reflexivity|]. auto.
  - destruct (M !! k) as [v|] eqn:Em; [|done].
    destruct (rep_lookup h M Hr k v Em) as (e & He & Hke & _). by apply Hno in He.
Qed.

(** Result code of an operation that needs the key. *)
Definition hit (o : option bytes) : Z := match o with Some _ => 0 | None => -2 end.

Lemma find_spec h M k :
  ht_rep h M -> Z.of_nat (2 * size M) < U8_MOD -> key_ok k ->
  exists h', hashtable_find cmp (Some h) (to_slice k) false =
      Some (hit (M !! k), M !! k, Some h') /\ ht_rep h' M.
Proof.
  intros Hr Hsz Hk. pose proof (search_spec h M k Hr Hsz Hk) as Hs. unfold hashtable_find, to_slice in *. cbv beta iota.
  destruct (M !! k) as [v|].
  - destruct Hs as (e & h' & -> & _ & Hv & Hr' & _). cbn. rewrite Hv. eauto.
  - rewrite Hs. cbn. eauto.
Qed.

(** Replacing the first table by one that holds other elements. *)
Lemma rep_first h M M' first first' fresh :
  ht_rep h M -> head (h_table h) = Some first -> tbl_ok first' ->
  (forall l, kv <$> elems first ++ l ≡ₚ map_to_list M -> kv <$> elems first' ++ l ≡ₚ map_to_list M') ->
  (forall l, NoDup (e_addr <$> elems first ++ l) ->
     (forall e, e ∈ elems first ++ l -> (e_addr e < h_fresh h)%nat) ->
     NoDup (e_addr <$> elems first' ++ l) /\ forall e, e ∈ elems first' ++ l -> (e_addr e < fresh)%nat) ->
  ht_rep (mk_ht (<[0%nat := first']> (h_table h)) fresh) M'.
Proof.
  intros [] Hf Hok Hm Ha. destruct (h_table h) as [|f rest]; [done|]. cbn in Hf. injection Hf as ->.
  apply Forall_cons in hr_tables0 as [_ Hrest].
  destruct (Ha (all_elems rest) hr_addr0 hr_fresh0) as [Hnd Hfr].
  split; cbn [h_table h_fresh insert list_insert]; [done|by constructor|by apply Hm|done|done].
Qed.

Lemma insert_new h M k v first :
  ht_rep h M -> Z.of_nat (2 * size M) + 1 < U8_MOD -> M !! k = None -> head (h_table h) = Some first ->
  exists first', push_elem first (mk_elem (h_fresh h) k v) = Some first' /\
    ht_rep (mk_ht (<[0%nat := first']> (h_table h)) (S (h_fresh h))) (<[k := v]> M).
Proof.
  intros Hr Hsz Hk Hf.
  assert (h_table h !! 0%nat = Some first) as H0 by (by destruct (h_table h)).
  pose proof (proj1 (Forall_lookup _ _) (hr_tables h M Hr) _ _ H0) as Hok. cbn in Hok.
  pose proof (rep_table_size h M Hr _ _ H0).
  destruct (push_elem_spec first (mk_elem (h_fresh h) k v) Hok) as (f' & -> & Hok' & _ & Hp); [lia|].
  exists f'. split; [done|]. apply (rep_first h M _ first); [done|done|done| |].
  - intros l Hl. rewrite Hp, map_to_list_insert by done. cbn [app fmap list_fmap]. by rewrite Hl.
  - intros l Hnd Hfr. rewrite Hp. cbn [app fmap list_fmap]. split.
    + apply NoDup_cons. split; [|done]. intros (e & Ea & He)%list_elem_of_fmap. cbn in Ea.
      apply Hfr in He. lia.
    + intros e He. rewrite Hp in He. apply elem_of_cons in He as [->|He]; [cbn; lia|]. apply Hfr in He. lia.
Qed.

Lemma unlink_spec e b :
  NoDup (e_addr <$> b) -> e ∈ b -> exists b', unlink (e_addr e) b = Some b' /\ b ≡ₚ e :: b'.
Proof.
  induction b as [|x b IH]; intros Hnd He; [by apply elem_of_nil in He|].
  cbn [fmap list_fmap] in Hnd. apply NoDup_cons in Hnd as [Hx Hnd]. cbn [unlink].
  apply elem_of_cons in He as [->|He]; [rewrite decide_True by done; eauto|].
  rewrite decide_False by (intros Ea; apply Hx; rewrite Ea; by apply list_elem_of_fmap_2).
  destruct (IH Hnd He) as (b' & -> & Hp). exists (x :: b'). split; [done|]. rewrite Hp. solve_Permutation.
Qed.

Lemma relink_spec e e' b :
  NoDup (e_addr <$> b) -> e ∈ b ->
  exists rest b', b ≡ₚ e :: rest /\ relink (e_addr e) e' b = Some b' /\ b' ≡ₚ e' :: rest.
Proof.
  induction b as [|x b IH]; intros Hnd He; [by apply elem_of_nil in He|].
  cbn [fmap list_fmap] in Hnd. apply NoDup_cons in Hnd as [Hx Hnd]. cbn [relink].
  apply elem_of_cons in He as [->|He]; [rewrite decide_True by done; eauto|].
  rewrite decide_False by (intros Ea; apply Hx; rewrite Ea; by apply list_elem_of_fmap_2).
  destruct (IH Hnd He) as (rest & b' & Hp & -> & Hp'). exists (x :: rest), (x :: b').
  split; [rewrite Hp; solve_Permutation|]. split; [done|]. rewrite Hp'. solve_Permutation.
Qed.

(** The addresses of one bucket are distinct. *)
Lemma bucket_nodup h M t j b :
  ht_rep h M -> h_table h !! 0%nat = Some t -> t_bucket t !! j = Some b -> NoDup (e_addr <$> b).
Proof.
  intros Hr H0 Hj. pose proof (hr_addr h M Hr) as Hnd. rewrite (all_lookup _ _ _ H0) in Hnd.
  unfold elems in Hnd. rewrite (concat_lookup_perm _ _ _ Hj), <- app_assoc, fmap_app in Hnd.
  by apply NoDup_app in Hnd as [? _].
Qed.

(** The bucket of [e], its table and what else the table holds. *)
Lemma found_bucket h M e :
  ht_rep h M -> found_first h e ->
  exists t b, head (h_table h) = Some t /\ tbl_ok t /\ t_bucket t !! slot (e_key e) (t_size t) = Some b /\
    e ∈ b /\ NoDup (e_addr <$> b) /\ elems t ≡ₚ b ++ concat (delete (slot (e_key e) (t_size t)) (t_bucket t)).
Proof.
  intros Hr (t & b & H0 & Hj & He). exists t, b.
  pose proof (proj1 (Forall_lookup _ _) (hr_tables h M Hr) _ _ H0) as Hok. cbn in Hok.
  split; [by destruct (h_table h)|]. split; [done|]. split; [done|]. split; [done|].
  split; [by apply (bucket_nodup h M t (slot (e_key e) (t_size t)))|]. by apply concat_lookup_perm.
Qed.

Lemma ht_erase_spec h M k :
  ht_rep h M -> Z.of_nat (2 * size M) < U8_MOD -> key_ok k ->
  exists h', hashtable_erase cmp (Some h) (to_slice k) = Some (hit (M !! k), Some h') /\
    ht_rep h' (delete k M).
Proof.
  intros Hr Hsz Hk. pose proof (search_spec h M k Hr Hsz Hk) as Hs. unfold hashtable_erase, to_slice in *.
  cbv beta iota. rewrite slice_bad_full by done. destruct (M !! k) as [v|] eqn:Em.
  2:{ rewrite Hs. cbn. exists h. split; [done|]. by rewrite delete_id. }
  destruct Hs as (e & h1 & -> & Hke & Hv & Hr1 & Hff & _). cbn [mbind option_bind Z.eqb negb].
  rewrite slice_bytes_full. cbn [mbind option_bind]. rewrite hash_of_total. cbn [mbind option_bind].
  destruct (found_bucket h1 M e Hr1 Hff) as (t & b & Hhd & Hok & Hj & He & Hnd & Hp). rewrite Hhd. cbn [mbind option_bind].
  fold (slot k (t_size t)). rewrite Hke in Hj, Hp. rewrite Hj. cbn [mbind option_bind].
  destruct (unlink_spec e b Hnd He) as (b' & -> & Hpb).
  eexists. split; [reflexivity|].
  destruct (bucket_update t _ b b' (u8 (t_number t - 1)) Hok Hj) as [Hok' Hp'].
  { intros x Hx. apply (tk_slot t Hok _ b); [done|]. rewrite Hpb. by right. }
  { destruct Hff as (t' & b0 & H0 & _). pose proof (rep_table_size h1 M Hr1 0 t') as Hts.
    pose proof (tk_number t Hok) as Hn. pose proof (Permutation_length Hp) as Hl.
    pose proof (Permutation_length Hpb) as Hlb. rewrite length_app in Hl |- *. cbn [length] in Hlb.
    assert (length (elems t) <= size M)%nat.
    { destruct (h_table h1) as [|f l] eqn:Eh; [done|]. apply (rep_table_size h1 M Hr1 0). by rewrite Eh. }
    rewrite u8_id by (unfold is_u8; lia). lia. }
  apply (rep_first h1 M _ t); [done|done|done| |].
  - intros l Hl. apply (Permutation.Permutation_cons_inv (a := (k, v))). rewrite (map_to_list_delete M k v Em).
    rewrite <- Hl, Hp', Hp, Hpb. cbn [app fmap list_fmap]. unfold kv at 2. by rewrite Hke, Hv.
  - intros l Hnd' Hfr. rewrite Hp, Hpb in Hnd'. rewrite Hp'. cbn [app fmap list_fmap] in Hnd'.
    apply NoDup_cons in Hnd' as [_ Hnd']. split; [done|]. intros x Hx. apply Hfr. rewrite Hp'  in Hx.
    rewrite Hp, Hpb. by right.
Qed.

(** A change of the bucket of [k], seen from the map. *)
Lemma rep_relink h M t b b' rest k e v v' a :
  ht_rep h M -> head (h_table h) = Some t -> tbl_ok t -> M !! k = Some v ->
  t_bucket t !! slot k (t_size t) = Some b -> e_key e = k -> e_value e = v ->
  b ≡ₚ e :: rest -> b' ≡ₚ mk_elem a k v' :: rest ->
  (a = e_addr e \/ a = h_fresh h) ->
  let t' := mk_table (t_size t) (t_number t) (<[slot k (t_size t) := b']> (t_bucket t)) in
  ht_rep (mk_ht (<[0%nat := t']> (h_table h)) (if decide (a = h_fresh h) then S (h_fresh h) else h_fresh h))
    (<[k := v']> M).
Proof.
  intros Hr Hhd Hok Em Hj Hke Hv Hpb Hpb' Ha t'.
  pose proof (concat_lookup_perm _ _ _ Hj) as Hp. fold (elems t) in Hp.
  destruct (bucket_update t _ b b' (t_number t) Hok Hj) as [Hok' Hp'].
  { intros x Hx. rewrite Hpb' in Hx. apply elem_of_cons in Hx as [->|Hx]; [done|].
    apply (tk_slot t Hok _ b); [done|]. rewrite Hpb. by right. }
  { rewrite (tk_number t Hok), Hp, Hpb, Hpb'. done. }
  fold t' in Hok', Hp'. clearbody t'.
  apply (rep_first h M _ t); [done|done|done| |].
  - intros l Hl. rewrite <- insert_delete_eq, map_to_list_insert by apply lookup_delete_eq.
    rewrite <- (map_to_list_delete M k v Em), Hp, Hpb in Hl. cbn [app fmap list_fmap] in Hl.
    unfold kv at 1 in Hl. rewrite Hke, Hv in Hl. apply Permutation.Permutation_cons_inv in Hl.
    rewrite Hp', Hpb'. cbn [app fmap list_fmap]. by rewrite Hl.
  - intros l Hnd Hfr. rewrite Hp, Hpb in Hnd. cbn [app fmap list_fmap] in Hnd.
    assert (forall x, x ∈ e :: (rest ++ concat (delete (slot k (t_size t)) (t_bucket t))) ++ l ->
              (e_addr x < h_fresh h)%nat) as Hfr'.
    { intros x Hx. apply Hfr. rewrite Hp, Hpb. exact Hx. }
    apply NoDup_cons in Hnd as [Hne Hnd]. rewrite Hp', Hpb'. cbn [app fmap list_fmap]. split.
    + apply NoDup_cons. split; [|done]. cbn [e_addr]. destruct Ha as [->|Ha]; [done|].
      intros (x & Ex & Hx)%list_elem_of_fmap. rewrite Ha in Ex.
      assert (e_addr x < h_fresh h)%nat by (apply Hfr'; by right). lia.
    + intros x Hx. rewrite Hp', Hpb' in Hx. apply elem_of_cons in Hx as [->|Hx].
      * cbn [e_addr]. case_decide; [lia|]. destruct Ha as [->|?]; [apply Hfr'; by left|done].
      * assert (e_addr x < h_fresh h)%nat by (apply Hfr'; by right). case_decide; lia.
Qed.

Lemma update_spec realloc malloc h M k v' :
  ht_rep h M -> Z.of_nat (2 * size M) < U8_MOD -> key_ok k -> key_ok v' -> (forall n, realloc n <> None) ->
  exists h', hashtable_update cmp realloc malloc (Some h) (to_slice k) (to_slice v') =
      Some (hit (M !! k), Some h') /\
    ht_rep h' (if decide (is_Some (M !! k)) then <[k := v']> M else M).
Proof.
  intros Hr Hsz Hk Hv' Hre. pose proof (search_spec h M k Hr Hsz Hk) as Hs.
  unfold hashtable_update, to_slice in *. cbv beta iota. rewrite !slice_bad_full by done.
  destruct (M !! k) as [v|] eqn:Em.
  2:{ rewrite Hs. cbn [mbind option_bind Z.eqb negb hit]. exists h. split; [done|].
      by rewrite decide_False by (intros [? ?]; done). }
  rewrite decide_True by eauto.
  destruct Hs as (e & h1 & -> & Hke & Hv & Hr1 & Hff & _). cbn [mbind option_bind Z.eqb negb hit].
  rewrite (slice_bytes_full k). cbn [mbind option_bind]. rewrite hash_of_total. cbn [mbind option_bind].
  destruct (found_bucket h1 M e Hr1 Hff) as (t & b & Hhd & Hok & Hj & He & Hnd & Hp). rewrite Hhd.
  cbn [mbind option_bind]. fold (slot k (t_size t)). rewrite Hke in Hj, Hp. rewrite Hj. cbn [mbind option_bind].
  destruct (relink_spec e e b Hnd He) as (r0 & b0 & _ & -> & _). rewrite slice_bytes_full.
  cbn [mbind option_bind fst].
  destruct (blen v' <? blen (e_value e)).
  - destruct (relink_spec e (mk_elem (e_addr e) (e_key e) v') b Hnd He) as (rest & b' & Hpb & -> & Hpb').
    cbn [mbind option_bind]. rewrite Hke in Hpb'. eexists. split; [reflexivity|].
    pose proof (rep_relink h1 M t b b' rest k e v v' (e_addr e) Hr1 Hhd Hok Em Hj Hke Hv Hpb Hpb' (or_introl eq_refl)) as Hrep.
    rewrite decide_False in Hrep; [exact Hrep|].
    assert (e_addr e < h_fresh h1)%nat; [|lia]. apply (hr_fresh h1 M Hr1).
    destruct Hff as (t' & b2 & H0 & Hj2 & He2). rewrite (all_lookup _ _ _ H0). apply elem_of_app. left.
    apply elem_of_concat. eauto.
  - destruct (realloc _) eqn:Er; [|by apply Hre in Er].
    destruct (relink_spec e (mk_elem (h_fresh h1) (e_key e) v') b Hnd He) as (rest & b' & Hpb & -> & Hpb').
    cbn [mbind option_bind]. rewrite Hke in Hpb'. eexists. split; [reflexivity|].
    pose proof (rep_relink h1 M t b b' rest k e v v' (h_fresh h1) Hr1 Hhd Hok Em Hj Hke Hv Hpb Hpb' (or_intror eq_refl)) as Hrep.
    by rewrite decide_True in Hrep.
Qed.

Lemma expand_spec malloc fuel h M first :
  ht_rep h M -> head (h_table h) = Some first -> 4 * t_size first < 2 ^ 62 ->
  is_Some (Math.next_prime fuel (4 * t_size first)) ->
  exists ret h', hashtable_expand malloc fuel (Some h) 0 = Some (ret, Some h') /\ ht_rep h' M.
Proof.
  intros Hr Hf Hb [p Hp]. unfold hashtable_expand. rewrite Hf. cbn [mbind option_bind Z.eqb].
  assert (tbl_ok first) as Hok.
  { pose proof (hr_tables h M Hr) as Hts. destruct (h_table h); [done|]. injection Hf as ->.
    by apply Forall_cons in Hts as [? _]. }
  pose proof (tk_size first Hok). unfold expand_size.
  rewrite (u8_id (t_size first * 4)) by (unfold is_u8, U8_MOD; lia). rewrite (proj2 (Z.ltb_ge _ _)) by lia.
  assert (to_n8 (t_size first * 4) = 4 * t_size first) as ->.
  { unfold to_n8. rewrite Z.mod_small by (unfold U8_MOD; lia). lia. }
  rewrite Hp. cbn [mbind option_bind]. apply Math.next_prime_range in Hp; [|lia].
  rewrite u8_id by (unfold is_u8, U8_MOD; lia). rewrite (proj2 (Z.ltb_ge _ _)) by lia.
  destruct (new_table malloc p) as [t|] eqn:Et; [|eauto].
  destruct (new_table_ok malloc p t ltac:(lia) Et) as (Hokt & He & _).
  exists 0, (mk_ht (t :: h_table h) (h_fresh h)). split; [done|].
  apply (ht_rep_perm h); [done|done|by constructor; [|apply Hr]| |done].
  cbn [h_table]. unfold all_elems. cbn [fmap list_fmap concat]. by rewrite He.
Qed.

(** [N] bounds the elements, hence the sizes at which a table is outgrown. *)
Lemma ht_insert_spec malloc_t malloc_e fuel N h M k v :
  ht_rep h M -> Z.of_nat (size M) <= N -> N < 2 ^ 62 ->
  (forall n, 0 < n <= N -> is_Some (Math.next_prime fuel n)) ->
  key_ok k -> key_ok v -> (forall n, malloc_e n <> None) ->
  exists h', hashtable_insert cmp malloc_t malloc_e fuel (Some h) (to_slice k) (to_slice v) =
      Some (if decide (is_Some (M !! k)) then -3 else 0, Some h') /\
    ht_rep h' (if decide (is_Some (M !! k)) then M else <[k := v]> M).
Proof.
  intros Hr HN HN2 Hprime Hk Hv Hma. unfold hashtable_insert, to_slice. cbv beta iota.
  destruct (head (h_table h)) as [first|] eqn:Hf; [|by pose proof (hr_first h M Hr); destruct (h_table h)].
  assert (h_table h !! 0%nat = Some first) as H0 by (by destruct (h_table h)).
  pose proof (proj1 (Forall_lookup _ _) (hr_tables h M Hr) _ _ H0) as Hok. cbn in Hok.
  pose proof (tk_size first Hok). pose proof (rep_table_size h M Hr _ _ H0).
  cbn [mbind option_bind]. rewrite !slice_bad_full, (proj2 (Z.eqb_neq (t_size first) 0)) by (done || lia). cbn [orb].
  assert (exists ret h1, (if MAX_BUCKET_SIZE <? t_number first / t_size first
           then hashtable_expand malloc_t fuel (Some h) 0 else Some (0, Some h)) = Some (ret, Some h1) /\
           ht_rep h1 M) as (ret & h1 & -> & Hr1).
  { unfold MAX_BUCKET_SIZE. destruct (5 <? _) eqn:E; to_prop; [|eauto].
    pose proof (Z.mul_div_le (t_number first) (t_size first) ltac:(lia)). rewrite (tk_number first Hok) in *.
    assert (4 * t_size first <= N) by nia. apply (expand_spec malloc_t fuel h M first); [done|done|lia|].
    apply Hprime. lia. }
  cbn [mbind option_bind].
  pose proof (search_spec h1 M k Hr1 ltac:(unfold U8_MOD; lia) Hk) as Hs. unfold to_slice in Hs.
  destruct (M !! k) as [w|] eqn:Em.
  - destruct Hs as (e & h2 & -> & _ & _ & Hr2 & _). cbn [mbind option_bind Z.eqb]. rewrite !decide_True by eauto. eauto.
  - rewrite Hs. cbn [mbind option_bind Z.eqb]. rewrite !decide_False by (intros [? ?]; done).
    destruct (malloc_e _) eqn:Ea; [|by apply Hma in Ea]. cbn [mbind option_bind].
    rewrite !slice_bytes_full. cbn [mbind option_bind].
    destruct (head (h_table h1)) as [f1|] eqn:Hf1; [|by pose proof (hr_first h1 M Hr1); destruct (h_table h1)].
    cbn [mbind option_bind].
    destruct (insert_new h1 M k v f1 Hr1 ltac:(unfold U8_MOD; lia) Em Hf1) as (f2 & -> & Hr2).
    cbn [mbind option_bind]. eauto.
Qed.

End Search.

(** ** Start, size, end *)

Lemma ht_init_rep malloc malloc_h fuel s h :
  0 < s < 2 ^ 62 -> hashtable_init malloc malloc_h fuel false s false = Some (0, Some h) -> ht_rep h ∅.
Proof.
  intros Hs. unfold hashtable_init. rewrite (proj2 (Z.eqb_neq _ _)) by lia. cbn [orb].
  assert (to_n8 s = s) as -> by (unfold to_n8; rewrite Z.mod_small by (unfold U8_MOD; lia); lia).
  destruct (Math.next_prime fuel s) as [p|] eqn:Ep; [|done]. cbn [mbind option_bind].
  apply Math.next_prime_range in Ep; [|lia]. rewrite u8_id by (unfold is_u8, U8_MOD; lia).
  destruct (new_table malloc p) as [t|] eqn:Et; [|done]. destruct (malloc_h _); [|done]. intros [= <-].
  destruct (new_table_ok malloc p t ltac:(lia) Et) as (Hok & He & _).
  assert (all_elems [t] = []) as Ea by (unfold all_elems; cbn; by rewrite He).
  split; cbn [h_table h_fresh]; rewrite ?Ea; [done|by constructor|by rewrite map_to_list_empty|constructor|].
  by intros ? ?%elem_of_nil.
Qed.

Lemma size_fold ts n :
  Forall tbl_ok ts ->
  fold_left (fun n t => u4 (n + t_number t)) ts (u4 n) = u4 (n + Z.of_nat (length (all_elems ts))).
Proof.
  intros Hts. revert n. induction Hts as [|t ts Ht Hts IH]; intros n; [cbn; f_equal; lia|].
  cbn [fold_left]. rewrite u4_add_l, IH, (tk_number t Ht). unfold all_elems. cbn [fmap list_fmap concat].
  rewrite length_app. f_equal. lia.
Qed.

Lemma ht_size_spec h M :
  ht_rep h M -> hashtable_size (Some h) false = (0, Some (u4 (Z.of_nat (size M)))).
Proof.
  intros Hr. unfold hashtable_size. do 2 f_equal. change 0 with (u4 0).
  by rewrite (size_fold _ 0 (hr_tables h M Hr)), (rep_size h M Hr).
Qed.

(** Every element's block is released once. *)
Lemma free_spec h M :
  ht_rep h M -> exists l, hashtable_free false (Some h) = (0, l, None) /\ NoDup l /\ length l = size M /\
    forall e, e ∈ all_elems (h_table h) -> e_addr e ∈ l.
Proof.
  intros Hr. eexists. split; [reflexivity|].
  assert (concat ((fun t => (hashtable_release_table (Some t)).2) <$> h_table h) =
          e_addr <$> all_elems (h_table h)) as ->.
  { unfold all_elems. induction (h_table h) as [|t ts IH]; [done|]. cbn [fmap list_fmap concat].
    change (list_fmap _ _ (fun t => (hashtable_release_table (Some t)).2) ts)
      with ((fun t => (hashtable_release_table (Some t)).2) <$> ts). rewrite IH.
    change (list_fmap _ _ elems ts) with (elems <$> ts). by rewrite fmap_app. }
  split; [apply Hr|]. split; [by rewrite length_fmap, (rep_size h M Hr)|]. intros e He.
  by apply list_elem_of_fmap_2.
Qed.

(** ** The abstract table: a finite map *)

Inductive hop := HInsert (k v : bytes) | HFind (k : bytes) | HErase (k : bytes) | HUpdate (k v : bytes) | HSize.

Definition op_ok (op : hop) : Prop :=
  match op with
  | HInsert k v | HUpdate k v => key_ok k /\ key_ok v
  | HFind k | HErase k => key_ok k
  | HSize => True
  end.

(** Result code, and the bytes or the number read. *)
Definition hout : Type := Z * option bytes * option Z.

Definition map_step (op : hop) (M : gmap bytes bytes) : hout * gmap bytes bytes :=
  match op with
  | HInsert k v => if decide (is_Some (M !! k)) then (-3, None, None, M) else (0, None, None, <[k := v]> M)
  | HFind k => (hit (M !! k), M !! k, None, M)
  | HErase k => (hit (M !! k), None, None, delete k M)
  | HUpdate k v => (hit (M !! k), None, None, if decide (is_Some (M !! k)) then <[k := v]> M else M)
  | HSize => (0, None, Some (Z.of_nat (size M)), M)
  end.

Fixpoint map_run (ops : list hop) (M : gmap bytes bytes) : list hout * gmap bytes bytes :=
  match ops with
  | [] => ([], M)
  | op :: ops' => let '(o, M1) := map_step op M in let '(os, M2) := map_run ops' M1 in (o :: os, M2)
  end.

Section Run.
Context (cmp : bytes -> bytes -> Z) (malloc_t malloc_e realloc : malloc_fun) (fuel : nat).

Definition ht_step (op : hop) (ht : option hashtable_t) : option (hout * option hashtable_t) :=
  match op with
  | HInsert k v => '(r, ht) ← hashtable_insert cmp malloc_t malloc_e fuel ht (to_slice k) (to_slice v);
                   Some (r, None, None, ht)
  | HFind k => '(r, v, ht) ← hashtable_find cmp ht (to_slice k) false; Some (r, v, None, ht)
  | HErase k => '(r, ht) ← hashtable_erase cmp ht (to_slice k); Some (r, None, None, ht)
  | HUpdate k v => '(r, ht) ← hashtable_update cmp realloc malloc_e ht (to_slice k) (to_slice v);
                   Some (r, None, None, ht)
  | HSize => let '(r, n) := hashtable_size ht false in Some (r, None, n, ht)
  end.

Fixpoint ht_run (ops : list hop) (ht : option hashtable_t) : option (list hout * option hashtable_t) :=
  match ops with
  | [] => Some ([], ht)
  | op :: ops' => '(o, ht1) ← ht_step op ht; '(os, ht2) ← ht_run ops' ht1; Some (o :: os, ht2)
  end.

Context (Hcmp : forall a b, cmp a b = 0 <-> a = b).
Context (Hme : forall n, malloc_e n <> None) (Hre : forall n, realloc n <> None).

Lemma ht_step_spec N op h M :
  ht_rep h M -> Z.of_nat (size M) <= N -> N < 2 ^ 32 ->
  (forall n, 0 < n <= N -> is_Some (Math.next_prime fuel n)) -> op_ok op ->
  exists o h' M', ht_step op (Some h) = Some (o, Some h') /\ map_step op M = (o, M') /\ ht_rep h' M' /\
    (size M' <= S (size M))%nat.
Proof.
  intros Hr HN HN2 Hp Hop. assert (Z.of_nat (2 * size M) < U8_MOD) as Hsz by (unfold U8_MOD; lia).
  destruct op as [k v|k|k|k v|]; cbn [ht_step map_step op_ok] in *.
  - destruct Hop as [Hk Hv].
    destruct (ht_insert_spec cmp Hcmp malloc_t malloc_e fuel N h M k v Hr HN ltac:(lia) Hp Hk Hv Hme) as (h' & -> & Hr').
    cbn [mbind option_bind]. case_decide as Hd; eexists _, h', _; (split; [reflexivity|]);
      (split; [reflexivity|]); (split; [exact Hr'|]); [lia|].
    rewrite map_size_insert_None by (by apply eq_None_not_Some). lia.
  - destruct (find_spec cmp Hcmp h M k Hr Hsz Hop) as (h' & -> & Hr'). cbn [mbind option_bind].
    eexists _, h', _. split; [reflexivity|]. split; [reflexivity|]. split; [exact Hr'|]. lia.
  - destruct (ht_erase_spec cmp Hcmp h M k Hr Hsz Hop) as (h' & -> & Hr'). cbn [mbind option_bind].
    eexists _, h', _. split; [reflexivity|]. split; [reflexivity|]. split; [exact Hr'|].
    rewrite map_size_delete. destruct (M !! k); cbn; lia.
  - destruct Hop as [Hk Hv].
    destruct (update_spec cmp Hcmp realloc malloc_e h M k v Hr Hsz Hk Hv Hre) as (h' & -> & Hr').
    cbn [mbind option_bind]. eexists _, h', _. split; [reflexivity|]. split; [reflexivity|]. split; [exact Hr'|].
    case_decide as Hd; [|lia]. rewrite map_size_insert_Some by done. lia.
  - rewrite (ht_size_spec h M Hr). rewrite u4_id by (unfold is_u4, U4_MOD; lia).
    eexists _, h, _. split; [reflexivity|]. split; [reflexivity|]. split; [exact Hr|]. lia.
Qed.

Lemma ht_run_spec ops N h M :
  ht_rep h M -> Z.of_nat (size M + length ops) <= N -> N < 2 ^ 32 ->
  (forall n, 0 < n <= N -> is_Some (Math.next_prime fuel n)) -> Forall op_ok ops ->
  exists os h' M', ht_run ops (Some h) = Some (os, Some h') /\ map_run ops M = (os, M') /\ ht_rep h' M'.
Proof.
  revert h M. induction ops as [|op ops IH]; intros h M Hr HN HN2 Hp Hops; [by exists [], h, M|].
  apply Forall_cons in Hops as [Hop Hops]. cbn [length] in HN.
  destruct (ht_step_spec N op h M Hr ltac:(lia) HN2 Hp Hop) as (o & h1 & M1 & E & E' & Hr1 & Hle).
  destruct (IH h1 M1 Hr1 ltac:(lia) HN2 Hp Hops) as (os & h2 & M2 & E2 & E2' & Hr2).
  exists (o :: os), h2, M2. cbn [ht_run map_run]. rewrite E. cbn [mbind option_bind]. by rewrite E2, E', E2'.
Qed.
End Run.


Definition key_cmp (a b : bytes) : Z := if decide (a = b) then 0 else 1.

Definition sample_hops : list hop :=
  ((fun i => HInsert [Z.of_nat i] [Z.of_nat i; 7]) <$> seq 0 40) ++
  [HFind [3]; HErase [5]; HUpdate [8] [1; 2; 3]; HUpdate [9] [4]; HInsert [8] [1]; HFind [5]; HFind [8];
   HUpdate [99] [1]; HSize].


(** When [realloc] fails in [hashtable_update], its nil result has replaced the
    pointer to the element: the fallback that allocates a block and copies from
    it dereferences nil. *)
Theorem update_realloc_failure (cmp : bytes -> bytes -> Z) (malloc : malloc_fun) (h : hashtable_t)
  (M : gmap bytes bytes) (k v v' : bytes) :
  (forall a b, cmp a b = 0 <-> a = b) -> ht_rep h M -> Z.of_nat (2 * size M) < U8_MOD -> key_ok k -> key_ok v' ->
  M !! k = Some v -> blen v <= blen v' -> (forall n, malloc n <> None) ->
  hashtable_update cmp (fun _ => None) malloc (Some h) (to_slice k) (to_slice v') = None.
Proof.
  intros Hcmp Hr Hsz Hk Hv' Em Hle Hma. pose proof (search_spec cmp Hcmp h M k Hr Hsz Hk) as Hs.
  unfold hashtable_update, to_slice in *. cbv beta iota. rewrite !slice_bad_full by done. rewrite Em in Hs.
  destruct Hs as (e & h1 & -> & Hke & Hv & Hr1 & Hff & _). cbn [mbind option_bind Z.eqb negb].
  rewrite (slice_bytes_full k). cbn [mbind option_bind]. rewrite hash_of_total. cbn [mbind option_bind].
  destruct (found_bucket h1 M e Hr1 Hff) as (t & b & Hhd & Hok & Hj & He & Hnd & Hp). rewrite Hhd.
  cbn [mbind option_bind]. fold (slot k (t_size t)). rewrite Hke in Hj. rewrite Hj. cbn [mbind option_bind].
  destruct (relink_spec e e b Hnd He) as (r0 & b0 & _ & -> & _). rewrite slice_bytes_full.
  cbn [mbind option_bind fst]. rewrite Hv, (proj2 (Z.ltb_ge _ _)) by lia.
  destruct (malloc _) eqn:E; [done|by apply Hma in E].
Qed.

Definition one_entry : hashtable_t :=
  mk_ht [mk_table 1 1 [[mk_elem 1 [1] [2]]]] 2.

Lemma one_entry_rep : ht_rep one_entry {[ [1] := [2] ]}.
Proof.
  split; cbn [one_entry h_table h_fresh].
  - done.
  - constructor; [|constructor]. split; cbn; [lia|done|done|]. intros [|[|j]] b e Hb He; cbn in Hb; simplify_eq.
    apply list_elem_of_singleton in He as ->. done.
  - by rewrite map_to_list_singleton.
  - repeat constructor. by intros ?%elem_of_nil.
  - intros e He. unfold all_elems in He. cbn in He. apply list_elem_of_singleton in He as ->. cbn. lia.
Qed.

Lemma update_realloc_failure_witness :
  hashtable_update key_cmp (fun _ => None) malloc_zero (Some one_entry) (to_slice [1]) (to_slice [5; 6]) = None.
Proof.
  apply (update_realloc_failure key_cmp malloc_zero one_entry {[ [1] := [2] ]} [1] [2] [5; 6]).
  - intros a b. unfold key_cmp. case_decide; split; intros; done || lia.
  - exact one_entry_rep.
  - vm_compute. reflexivity.
  - reflexivity.
  - reflexivity.
  - apply lookup_singleton_eq.
  - vm_compute. discriminate.
  - intros n. unfold malloc_zero. discriminate.
Defined.

End Hashtable.
