(* ===== verification/Bloom.v ===== *)
(** * bloom/c/src/bloom.c: a Bloom filter

    The string hashes, the filter, and its serialised form.  A [char*] argument
    is a C string: its bytes are read up to the first 0, and a string without a
    terminator is [None].  [char] is signed, [unsigned long] and [size_t] have
    64 bits. *)

From S2P Require Import Prelude CText.
Import CText.

Module Bloom.

Definition RATIO : Z := 20.
Definition BYTE_LEN : Z := 8.

(** "cmppn_w112" *)
Definition BLOOM_VERSION : bytes := [99; 109; 112; 112; 110; 95; 119; 49; 49; 50].

(** A byte read as a signed [char] and converted to [unsigned]. *)
Definition schar (c : Z) : Z := if c <? 128 then c else u4 (c - 256).

(** ** The hash functions, on the characters of the string *)

Definition MASK : Z := 0x7FFFFFFF.

Definition simple_hash (s : bytes) : Z :=
  Z.land (fold_left (fun hash c => u4 (31 * hash + c)) s 0) MASK.

(** The state is [hash] and [a]. *)
Definition RS_hash (s : bytes) : Z :=
  Z.land (fst (fold_left (fun '(hash, a) c => (u4 (hash * a + schar c), u4 (a * 378551))) s (0, 63689))) MASK.

Definition JS_hash (s : bytes) : Z :=
  Z.land (fold_left (fun hash c => Z.lxor hash (u4 (u4 (Z.shiftl hash 5) + schar c + Z.shiftr hash 2)))
            s 1315423911) MASK.

Definition HighBits : Z := u4 (Z.shiftl 0xFFFFFFFF 28).

Definition PJW_hash (s : bytes) : Z :=
  Z.land (fold_left (fun hash c =>
            let hash := u4 (u4 (Z.shiftl hash 4) + schar c) in
            let test := Z.land hash HighBits in
            if negb (test =? 0)
            then Z.land (Z.lxor hash (Z.shiftr test 24)) (u4 (Z.lnot HighBits)) else hash) s 0) MASK.

Definition ELF_hash (s : bytes) : Z :=
  Z.land (fold_left (fun hash c =>
            let hash := u4 (u4 (Z.shiftl hash 4) + schar c) in
            let x := Z.land hash 0xF0000000 in
            if negb (x =? 0)
            then Z.land (Z.lxor hash (Z.shiftr x 24)) (u4 (Z.lnot x)) else hash) s 0) MASK.

Definition BKDR_hash (s : bytes) : Z :=
  Z.land (fold_left (fun hash c => u4 (hash * 131 + schar c)) s 0) MASK.

Definition SDBM_hash (s : bytes) : Z :=
  Z.land (fold_left (fun hash c => u4 (schar c + Z.shiftl hash 6 + Z.shiftl hash 16 - hash)) s 0) MASK.

Definition DJB_hash (s : bytes) : Z :=
  Z.land (fold_left (fun hash c => u4 (hash + (Z.shiftl hash 5 + schar c))) s 5381) MASK.

(** The state is [hash] and the parity of [i]. *)
Definition AP_hash (s : bytes) : Z :=
  Z.land (fst (fold_left (fun '(hash, odd) c =>
            (if odd : bool
             then Z.lxor hash (u4 (Z.lnot (Z.lxor (Z.lxor (u4 (Z.shiftl hash 11)) (schar c)) (Z.shiftr hash 5))))
             else Z.lxor hash (Z.lxor (Z.lxor (u4 (Z.shiftl hash 7)) (schar c)) (Z.shiftr hash 3)),
             negb odd)) s (0, false))) MASK.

(** The loop over words of 16 bits, the low byte first, and the odd byte behind them; [nleft] is unsigned. *)
Fixpoint CRC_sum (s : bytes) (sum : Z) : Z :=
  match s with
  | x :: y :: s' => CRC_sum s' (u8 (sum + (x + 2 ^ 8 * y)))
  | [x] => u8 (sum + x)
  | [] => sum
  end.

(** It is not in the table. *)
Definition CRC_hash (s : bytes) : Z :=
  let sum := CRC_sum s 0 in
  let sum := u8 (Z.shiftr sum 16 + Z.land sum 0xFFFF) in
  let sum := u8 (sum + Z.shiftr sum 16) in
  u2 (Z.lnot sum).

Definition g_hash : list (bytes -> Z) :=
  [simple_hash; RS_hash; JS_hash; PJW_hash; BKDR_hash; SDBM_hash; DJB_hash; AP_hash].

(** ** The filter *)

(** [size] is in bits. *)
Record bloom := mk_bloom { size : Z; filter : bytes }.

Definition sizeof_bloom : Z := 8.

Definition create_bloom (malloc : malloc_fun) (n : Z) : option bloom :=
  let n := u4 (n * RATIO) in
  let bits := (Z.shiftr n 3 + (if n mod BYTE_LEN =? 0 then 0 else 1)) * BYTE_LEN in
  match malloc (sizeof_bloom + Z.shiftr bits 3) with
  | None => None
  | Some _ => Some (mk_bloom bits (replicate (Z.to_nat (Z.shiftr bits 3)) 0))
  end.

(** The blocks that are freed. *)
Definition destroy_bloom (bf : option bloom) : list bloom := match bf with Some bf => [bf] | None => [] end.

(** [SETBIT] and [GETBIT]; a byte out of the array is [None]. *)
Definition SETBIT (array : bytes) (pos : Z) : option bytes :=
  b ← array !! Z.to_nat (Z.shiftr pos 3);
  Some (<[Z.to_nat (Z.shiftr pos 3) := Z.lor b (Z.shiftl 1 (pos mod BYTE_LEN))]> array).

Definition GETBIT (array : bytes) (pos : Z) : option Z :=
  b ← array !! Z.to_nat (Z.shiftr pos 3);
  Some (Z.land b (Z.shiftl 1 (pos mod BYTE_LEN))).

(** Division by 0 is [None]. *)
Definition position (hash : bytes -> Z) (s : bytes) (capability : Z) : option Z :=
  if capability =? 0 then None else Some (u4 (hash s mod capability)).

Fixpoint add_loop (hs : list (bytes -> Z)) (s : bytes) (capability : Z) (filter : bytes) : option bytes :=
  match hs with
  | [] => Some filter
  | h :: hs' =>
      pos ← position h s capability;
      filter ← SETBIT filter pos;
      add_loop hs' s capability filter
  end.

(** [bf] and [str] are dereferenced without a test. *)
Definition bloom_add (bf : option bloom) (str : option bytes) : option bloom :=
  bf ← bf; str ← str; s ← c_str str;
  f ← add_loop g_hash s (size bf) (filter bf);
  Some (mk_bloom (size bf) f).

Fixpoint find_loop (hs : list (bytes -> Z)) (s : bytes) (capability : Z) (filter : bytes) : option Z :=
  match hs with
  | [] => Some 0
  | h :: hs' =>
      pos ← position h s capability;
      flag ← GETBIT filter pos;
      if flag =? 0 then Some (-2) else find_loop hs' s capability filter
  end.

(** [bf->size] is read before [bf] is compared to nil. *)
Definition bloom_find (bf : option bloom) (str : option bytes) : option Z :=
  bf ← bf;
  match str with
  | None => Some (-1)
  | Some str => s ← c_str str; find_loop g_hash s (size bf) (filter bf)
  end.

Definition bloom_mem_size (bf : option bloom) : Z :=
  match bf with
  | None => 0
  | Some bf => u4 (blen BLOOM_VERSION + Z.shiftr (size bf) 3)
  end.

Definition bloom_compare (bf1 bf2 : option bloom) : option Z :=
  match bf1, bf2 with
  | Some b1, Some b2 =>
      if negb (size b1 =? size b2)
      then Some (if size b1 <? u8 (size b2 - 1) then -1 else 1)
      else memcmp (Z.to_nat (Z.shiftr (size b1) 3)) (filter b1) (filter b2)
  | _, _ => Some (-1)
  end.

(** [n]: the [size] argument, the capacity the caller claims for [buf]. *)
Definition bloom_serialize (bf : option bloom) (buf : option bytes) (n : Z) : option (Z * option bytes) :=
  match bf, buf with
  | Some b, Some d =>
      if n =? 0 then Some (-1, buf)
      else if n <? bloom_mem_size bf then Some (-1, buf)
      else
        d ← wr d 0 BLOOM_VERSION;
        f ← rd (filter b) 0 (Z.shiftr (size b) 3);
        d ← wr d (blen BLOOM_VERSION) f;
        Some (0, Some d)
  | _, _ => Some (-1, buf)
  end.

(** nil is [Some None].  The block must hold the [size] field and the [n] bytes
    copied after it. *)
Definition build_bloom (malloc : malloc_fun) (buf : option bytes) (n : Z) : option (option bloom) :=
  match buf with
  | None => Some None
  | Some d =>
      if n =? 0 then Some None
      else
        ret ← memcmp (length BLOOM_VERSION) BLOOM_VERSION d;
        if negb (ret =? 0) then Some None
        else
          let n := u8 (n - blen BLOOM_VERSION) in
          match malloc (u8 (sizeof_bloom + n)) with
          | None => Some None
          | Some block =>
              if sizeof_bloom + n <=? blen block then
                f ← rd d (blen BLOOM_VERSION) n;
                Some (Some (mk_bloom (u8 (Z.shiftl n 3)) f))
              else None
          end
  end.

(** ** Bits of the filter *)

Definition bit_set (f : bytes) (q : Z) : Prop :=
  exists b, f !! Z.to_nat (Z.shiftr q 3) = Some b /\ Z.testbit b (q mod 8) = true.

(** [bits] bits, stored in whole bytes. *)
Definition bloom_ok (bf : bloom) : Prop := 0 < size bf /\ size bf = 8 * blen (filter bf).

Lemma bit_index q : 0 <= q -> 8 * Z.shiftr q 3 + q mod 8 = q /\ 0 <= q mod 8 < 8 /\ 0 <= Z.shiftr q 3.
Proof.
  intros Hq. rewrite Z.shiftr_div_pow2 by lia. change (2 ^ 3) with 8.
  pose proof (Z.div_mod q 8 ltac:(lia)). pose proof (Z.mod_pos_bound q 8 ltac:(lia)).
  pose proof (Z.div_pos q 8 ltac:(lia) ltac:(lia)). lia.
Qed.

Lemma testbit_one i j : 0 <= i -> 0 <= j -> Z.testbit (Z.shiftl 1 i) j = bool_decide (i = j).
Proof.
  intros Hi Hj. rewrite Z.shiftl_1_l. case_bool_decide as E; [subst; by apply Z.pow2_bits_true|].
  by apply Z.pow2_bits_false.
Qed.

Lemma byte_lookup f pos :
  0 <= pos < 8 * blen f -> exists b, f !! Z.to_nat (Z.shiftr pos 3) = Some b.
Proof.
  intros Hp. destruct (bit_index pos ltac:(lia)) as (E & Hm & Hs). apply lookup_lt_is_Some_2.
  unfold blen in *. lia.
Qed.

Lemma SETBIT_spec f pos :
  0 <= pos < 8 * blen f ->
  exists f', SETBIT f pos = Some f' /\ blen f' = blen f /\
    forall q, 0 <= q -> bit_set f' q <-> q = pos \/ bit_set f q.
Proof.
  intros Hp. destruct (byte_lookup f pos Hp) as [b Hb]. unfold SETBIT. rewrite Hb. cbn [mbind option_bind].
  destruct (bit_index pos ltac:(lia)) as (E & Hm & Hs). eexists. split; [reflexivity|].
  split; [unfold blen; by rewrite length_insert|]. intros q Hq.
  destruct (bit_index q Hq) as (Eq & Hmq & Hsq). unfold bit_set, BYTE_LEN.
  destruct (decide (Z.shiftr q 3 = Z.shiftr pos 3)) as [Es|Es].
  - rewrite Es, list_lookup_insert_eq by (by eapply lookup_lt_Some). split.
    + intros (c & [= <-] & Hc). rewrite Z.lor_spec, testbit_one in Hc by lia.
      apply orb_true_iff in Hc as [Hc|Hc]; [right; eauto|].
      apply bool_decide_eq_true in Hc. left. lia.
    + intros [->|(c & Hc & Ht)]; eexists; (split; [reflexivity|]); rewrite Z.lor_spec, testbit_one by lia.
      * by rewrite bool_decide_true, orb_true_r.
      * rewrite Hb in Hc. injection Hc as <-. by rewrite Ht.
  - rewrite list_lookup_insert_ne by lia. split; [by right|]. intros [->|?]; done.
Qed.

Lemma GETBIT_spec f pos :
  0 <= pos < 8 * blen f -> exists flag, GETBIT f pos = Some flag /\ (flag <> 0 <-> bit_set f pos).
Proof.
  intros Hp. destruct (byte_lookup f pos Hp) as [b Hb]. unfold GETBIT, bit_set. rewrite Hb. cbn [mbind option_bind].
  destruct (bit_index pos ltac:(lia)) as (E & Hm & Hs). eexists. split; [reflexivity|]. unfold BYTE_LEN.
  assert (Z.land b (Z.shiftl 1 (pos mod 8)) <> 0 <-> Z.testbit b (pos mod 8) = true) as ->.
  - split.
    + intros Hne. destruct (Z.testbit b (pos mod 8)) eqn:Et; [done|]. exfalso. apply Hne.
      apply Z.bits_inj'. intros i Hi. rewrite Z.land_spec, testbit_one, Z.bits_0 by lia.
      case_bool_decide as Ei; [by rewrite <- Ei, Et|apply andb_false_r].
    + intros Ht E0. assert (Z.testbit (Z.land b (Z.shiftl 1 (pos mod 8))) (pos mod 8) = true) as Hc
        by (rewrite Z.land_spec, testbit_one, Ht, bool_decide_true by lia; done).
      rewrite E0, Z.bits_0 in Hc. done.
  - split; [eauto|]. by intros (c & [= <-] & Ht).
Qed.

(** ** The hash functions stay below 2^31 *)

Definition hash_ok (h : bytes -> Z) : Prop := forall s, 0 <= h s < 2 ^ 31.

Lemma land_mask x : 0 <= Z.land x MASK < 2 ^ 31.
Proof. unfold MASK. change 0x7FFFFFFF with (Z.ones 31). rewrite Z.land_ones by lia. apply Z.mod_pos_bound. lia. Qed.

Lemma g_hash_ok : Forall hash_ok g_hash.
Proof. repeat (constructor; [intros s; apply land_mask|]). constructor. Qed.

Lemma position_spec h s cap :
  hash_ok h -> 0 < cap -> position h s cap = Some (h s mod cap) /\ 0 <= h s mod cap < cap.
Proof.
  intros Hh Hc. specialize (Hh s). unfold position. rewrite (proj2 (Z.eqb_neq _ _)) by lia.
  pose proof (Z.mod_pos_bound (h s) cap Hc). pose proof (Z.mod_le (h s) cap ltac:(lia) Hc).
  rewrite u4_id by (unfold is_u4, U4_MOD; lia). done.
Qed.

Lemma add_loop_spec hs s f :
  Forall hash_ok hs -> 0 < 8 * blen f ->
  exists f', add_loop hs s (8 * blen f) f = Some f' /\ blen f' = blen f /\
    forall q, 0 <= q -> bit_set f' q <-> bit_set f q \/ exists h, h ∈ hs /\ q = h s mod (8 * blen f).
Proof.
  intros Hhs. revert f. induction Hhs as [|h hs Hh Hhs IH]; intros f Hf.
  { exists f. split; [done|]. split; [done|]. intros q _. split; [by left|]. intros [?|(h & Hh & _)]; [done|].
    by apply elem_of_nil in Hh. }
  cbn [add_loop]. destruct (position_spec h s (8 * blen f) Hh Hf) as [-> Hp]. cbn [mbind option_bind].
  destruct (SETBIT_spec f _ Hp) as (f1 & -> & El & Hb1). cbn [mbind option_bind]. rewrite <- El.
  destruct (IH f1 ltac:(lia)) as (f2 & E2 & El2 & Hb2). exists f2. split; [exact E2|].
  split; [lia|]. intros q Hq. rewrite Hb2, Hb1, El by done. split.
  - intros [[->|?]|(h' & Hh' & ->)]; [right; exists h; split; [by left|done]|by left|].
    right. exists h'. split; [by right|done].
  - intros [?|(h' & [->|Hh']%elem_of_cons & ->)]; [left; by right|left; by left|right; eauto].
Qed.

Lemma bloom_loop_spec hs s f :
  Forall hash_ok hs -> 0 < 8 * blen f ->
  (find_loop hs s (8 * blen f) f = Some 0 /\ forall h, h ∈ hs -> bit_set f (h s mod (8 * blen f))) \/
  (find_loop hs s (8 * blen f) f = Some (-2) /\ exists h, h ∈ hs /\ ~ bit_set f (h s mod (8 * blen f))).
Proof.
  intros Hhs Hf. induction Hhs as [|h hs Hh Hhs IH].
  { left. split; [done|]. by intros h ?%elem_of_nil. }
  cbn [find_loop]. destruct (position_spec h s (8 * blen f) Hh Hf) as [-> Hp]. cbn [mbind option_bind].
  destruct (GETBIT_spec f _ Hp) as (flag & -> & Hflag). cbn [mbind option_bind].
  destruct (flag =? 0) eqn:E; to_prop.
  - right. split; [done|]. exists h. split; [by left|]. intros Hb. by apply Hflag in Hb.
  - destruct IH as [[-> Hall]|(-> & h' & Hin & Hno)].
    + left. split; [done|]. intros h' [->|?]%elem_of_cons; [by apply Hflag|by apply Hall].
    + right. split; [done|]. exists h'. split; [by right|done].
Qed.

(** ** The filter as a set of strings *)

Fixpoint add_all (bf : option bloom) (strs : list bytes) : option bloom :=
  match strs with
  | [] => bf
  | s :: strs' => bf ← bloom_add bf (Some (cstring s)); add_all (Some bf) strs'
  end.

(** The bits that the strings occupy. *)
Definition covered (cap : Z) (strs : list bytes) (q : Z) : Prop :=
  exists s h, s ∈ strs /\ h ∈ g_hash /\ q = h s mod cap.

Lemma add_all_spec strs bf :
  bloom_ok bf -> Forall no_nul strs ->
  exists bf', add_all (Some bf) strs = Some bf' /\ bloom_ok bf' /\ size bf' = size bf /\
    forall q, 0 <= q -> bit_set (filter bf') q <-> bit_set (filter bf) q \/ covered (size bf) strs q.
Proof.
  intros Hok Hs. revert bf Hok. induction Hs as [|s strs Hns Hs IH]; intros bf Hok.
  { exists bf. split; [done|]. split; [done|]. split; [done|]. intros q _. split; [by left|].
    intros [?|(s & h & Hin & _)]; [done|by apply elem_of_nil in Hin]. }
  destruct Hok as [H0 Hsz]. cbn [add_all]. unfold bloom_add. cbn [mbind option_bind].
  rewrite c_str_cstring by done. cbn [mbind option_bind]. rewrite Hsz in H0 |- *.
  destruct (add_loop_spec g_hash s (filter bf) g_hash_ok H0) as (f1 & -> & El & Hb). cbn [mbind option_bind].
  destruct (IH (mk_bloom (8 * blen (filter bf)) f1)) as (bf' & E & Hok' & Es & Hb').
  { split; cbn; lia. }
  exists bf'. split; [exact E|]. split; [done|]. split; [done|]. cbn [size filter] in *.
  intros q Hq. rewrite Hb', Hb by done. unfold covered. split.
  - intros [[?|(h & Hh & ->)]|(s' & h & Hin & Hh & ->)]; [by left|right..].
    + exists s, h. split; [by left|done].
    + exists s', h. split; [by right|done].
  - intros [?|(s' & h & [->|Hin]%elem_of_cons & Hh & ->)]; [left; by left|left; right; eauto|right; eauto].
Qed.

Lemma create_spec malloc n bf :
  0 <= n < U4_MOD -> u4 (n * RATIO) <> 0 -> create_bloom malloc n = Some bf ->
  bloom_ok bf /\ (forall q, ~ bit_set (filter bf) q) /\ size bf = (u4 (n * RATIO) + 7) / 8 * 8.
Proof.
  intros Hn Hnz. unfold create_bloom. set (m := u4 (n * RATIO)) in *.
  assert (0 < m) as Hm by (pose proof (u4_range (n * RATIO)); fold m in H; lia). clearbody m.
  assert (Z.shiftr m 3 + (if m mod BYTE_LEN =? 0 then 0 else 1) = (m + 7) / 8) as ->.
  { rewrite Z.shiftr_div_pow2 by lia. change (2 ^ 3) with 8. unfold BYTE_LEN.
    pose proof (Z.div_mod m 8 ltac:(lia)). pose proof (Z.mod_pos_bound m 8 ltac:(lia)).
    destruct (m mod 8 =? 0) eqn:E; to_prop.
    - apply Z.div_unique with 7; lia.
    - apply Z.div_unique with (m mod 8 - 1); lia. }
  unfold BYTE_LEN. rewrite Z.shiftr_div_pow2 by lia. change (2 ^ 3) with 8. rewrite Z.div_mul by lia.
  destruct (malloc _); [|done]. intros [= <-]. cbn [size filter].
  assert (1 <= (m + 7) / 8) by (apply Z.div_le_lower_bound; lia).
  split; [split; cbn; [lia|unfold blen; rewrite length_replicate; lia]|]. split; [|done].
  intros q (b & [-> _]%lookup_replicate & Hb). by rewrite Z.bits_0 in Hb.
Qed.

(** C35. [bloom_find] answers exactly for the bits of the filter: after any
    sequence of additions to a fresh filter it returns 0 when every hash of the
    string falls on a bit that some added string occupies, and -2 otherwise. *)
Theorem bloom_find_exact (malloc : malloc_fun) (n : Z) (bf0 : bloom) (strs : list bytes) (t : bytes) :
  0 <= n < U4_MOD -> u4 (n * RATIO) <> 0 -> create_bloom malloc n = Some bf0 ->
  Forall no_nul strs -> no_nul t ->
  exists bf, add_all (Some bf0) strs = Some bf /\
    ((bloom_find (Some bf) (Some (cstring t)) = Some 0 /\
        forall h, h ∈ g_hash -> covered (size bf) strs (h t mod size bf)) \/
     (bloom_find (Some bf) (Some (cstring t)) = Some (-2) /\
        exists h, h ∈ g_hash /\ ~ covered (size bf) strs (h t mod size bf))).
Proof.
  intros Hn Hnz Hc Hs Ht. destruct (create_spec malloc n bf0 Hn Hnz Hc) as (Hok & Hempty & _).
  destruct (add_all_spec strs bf0 Hok Hs) as (bf & E & [H0 Hsz] & Es & Hb). exists bf. split; [done|].
  assert (forall h, h ∈ g_hash ->
            bit_set (filter bf) (h t mod size bf) <-> covered (size bf) strs (h t mod size bf)) as Hbit.
  { intros h Hh. rewrite Hb, Es by (apply Z.mod_pos_bound; lia). split; [|by right].
    intros [Hx|?]; [by apply Hempty in Hx|done]. }
  unfold bloom_find. cbn [mbind option_bind]. rewrite c_str_cstring by done. cbn [mbind option_bind].
  rewrite Hsz in H0, Hbit |- *.
  destruct (bloom_loop_spec g_hash t (filter bf) g_hash_ok H0) as [[-> Hall]|(-> & h & Hh & Hno)].
  - left. split; [done|]. intros h Hh. by apply Hbit, Hall.
  - right. split; [done|]. exists h. split; [done|]. by rewrite <- Hbit.
Qed.

(** C25. There are no false negatives: a string that was added is found, whatever
    was added before or after it. *)
Theorem bloom_no_false_negative (malloc : malloc_fun) (n : Z) (bf0 : bloom) (pre post : list bytes) (t : bytes) :
  0 <= n < U4_MOD -> u4 (n * RATIO) <> 0 -> create_bloom malloc n = Some bf0 ->
  Forall no_nul (pre ++ t :: post) ->
  exists bf, add_all (Some bf0) (pre ++ t :: post) = Some bf /\
    bloom_find (Some bf) (Some (cstring t)) = Some 0.
Proof.
  intros Hn Hnz Hc Hs. destruct (create_spec malloc n bf0 Hn Hnz Hc) as (Hok & _ & _).
  destruct (add_all_spec _ bf0 Hok Hs) as (bf & E & [H0 Hsz] & Es & Hb). exists bf. split; [done|].
  apply Forall_app in Hs as [_ [Ht _]%Forall_cons].
  unfold bloom_find. cbn [mbind option_bind]. rewrite c_str_cstring by done. cbn [mbind option_bind].
  rewrite Hsz in H0 |- *.
  destruct (bloom_loop_spec g_hash t (filter bf) g_hash_ok H0) as [[-> _]|(_ & h & Hh & Hno)]; [done|].
  exfalso. apply Hno. rewrite <- Hsz. apply Hb; [apply Z.mod_pos_bound; lia|]. right. rewrite Es.
  exists t, h. split; [|done]. apply elem_of_app. right. by left.
Qed.

Definition sample_strs : list bytes := [[97; 98]; [120]; [200; 201; 202]].

Lemma bloom_find_exact_witness :
  exists bf0 bf, create_bloom malloc_zero 4 = Some bf0 /\ add_all (Some bf0) sample_strs = Some bf /\
    ((bloom_find (Some bf) (Some (cstring [121])) = Some 0 /\
        forall h, h ∈ g_hash -> covered (size bf) sample_strs (h [121] mod size bf)) \/
     (bloom_find (Some bf) (Some (cstring [121])) = Some (-2) /\
        exists h, h ∈ g_hash /\ ~ covered (size bf) sample_strs (h [121] mod size bf))).
Proof.
  exists (mk_bloom 80 (replicate 10 0)).
  destruct (bloom_find_exact malloc_zero 4 (mk_bloom 80 (replicate 10 0)) sample_strs [121]) as (bf & H).
  - unfold U4_MOD. lia.
  - vm_compute. discriminate.
  - vm_compute. reflexivity.
  - repeat constructor; discriminate.
  - repeat constructor; discriminate.
  - exists bf. split; [vm_compute; reflexivity|exact H].
Defined.

Lemma bloom_no_false_negative_witness :
  exists bf, add_all (Some (mk_bloom 80 (replicate 10 0))) sample_strs = Some bf /\
    bloom_find (Some bf) (Some (cstring [120])) = Some 0.
Proof.
  apply (bloom_no_false_negative malloc_zero 4 (mk_bloom 80 (replicate 10 0)) [[97; 98]] [[200; 201; 202]] [120]).
  - unfold U4_MOD. lia.
  - vm_compute. discriminate.
  - vm_compute. reflexivity.
  - repeat constructor; discriminate.
Defined.

(** [CRC_hash] is the one's complement checksum of a string that is not long: added to the sum of its
    words it gives a multiple of 2^16 - 1. *)
Fixpoint word_sum (s : bytes) : Z :=
  match s with x :: y :: s' => x + 2 ^ 8 * y + word_sum s' | [x] => x | [] => 0 end.

Lemma word_sum_bound s : Forall (fun c => 0 <= c < 256) s ->
  0 <= word_sum s <= 65535 * ((blen s + 1) / 2) /\ forall n, 0 <= n -> n + word_sum s < U8_MOD -> CRC_sum s n = n + word_sum s.
Proof.
  remember (length s) as k eqn:Ek. revert s Ek. induction (lt_wf k) as [k _ IH]. intros s -> Hs.
  destruct s as [|x [|y s]]; cbn [word_sum CRC_sum].
  - split; [done|]. intros n ?. by rewrite Z.add_0_r.
  - apply Forall_cons in Hs as [Hx _]. change ((blen [x] + 1) / 2) with 1. split; [lia|]. intros n Hn Hlt. apply u8_id. split; lia.
  - apply Forall_cons in Hs as [Hx [Hy Hs]%Forall_cons]. destruct (IH (length s) ltac:(cbn; lia) s eq_refl Hs) as [Hb He].
    assert (El : (blen (x :: y :: s) + 1) / 2 = (blen s + 1) / 2 + 1).
    { unfold blen. cbn [length]. rewrite <- Z.div_add by done. f_equal. lia. }
    rewrite El. split; [lia|]. intros n Hn Hlt. rewrite u8_id by (split; lia). rewrite He by lia. lia.
Qed.

Lemma fold_word n : 0 <= n -> Z.shiftr n 16 + Z.land n 0xFFFF = n - 65535 * (n / 65536).
Proof.
  intros Hn. rewrite Z.shiftr_div_pow2 by done. rewrite (Z.land_ones n 16 ltac:(done) : Z.land n 0xFFFF = _).
  change (2 ^ 16) with 65536. pose proof (Z.div_mod n 65536 ltac:(done)). lia.
Qed.

Lemma CRC_checksum s : Forall (fun c => 0 <= c < 256) s -> blen s <= 2 ^ 17 - 2 -> (CRC_hash s + word_sum s) mod 65535 = 0.
Proof.
  intros Hs Hl. destruct (word_sum_bound s Hs) as [Hb He].
  assert (Hlt : word_sum s < 2 ^ 32).
  { assert ((blen s + 1) / 2 <= 2 ^ 16 - 1) by (apply Z.lt_succ_r, Z.div_lt_upper_bound; lia). lia. }
  unfold CRC_hash. rewrite He by (done || unfold U8_MOD; lia). rewrite Z.add_0_l. set (n := word_sum s) in *.
  rewrite fold_word by lia. pose proof (Z.div_mod n 65536 ltac:(done)) as Hn. pose proof (Z.mod_pos_bound n 65536 ltac:(done)).
  assert (Hq : 0 <= n / 65536 < 65536) by (split; [apply Z.div_pos; lia|apply Z.div_lt_upper_bound; lia]).
  set (m := n - 65535 * (n / 65536)) in *. assert (Hm : 0 <= m <= 131070) by (unfold m; lia).
  rewrite (u8_id m) by (unfold is_u8, U8_MOD; lia). rewrite Z.shiftr_div_pow2 by done. change (2 ^ 16) with 65536.
  pose proof (Z.div_mod m 65536 ltac:(done)) as Em. pose proof (Z.mod_pos_bound m 65536 ltac:(done)).
  assert (Hk : 0 <= m / 65536 <= 1) by (split; [apply Z.div_pos; lia|apply Z.lt_succ_r, Z.div_lt_upper_bound; lia]).
  rewrite u8_id by (unfold is_u8, U8_MOD; lia). unfold u2, Z.lnot. change (2 ^ 16) with 65536.
  apply Z.mod_divide; [done|]. set (k := m / 65536) in *.
  assert (E : exists j, (Z.pred (- (m + k))) mod 65536 = 65535 - (m + k) + 65536 * j /\ j = k).
  { exists k. split; [|done]. symmetry. apply (Z.mod_unique_pos _ _ (- 1 - k)); lia. }
  destruct E as (j & -> & ->). exists (n / 65536 + 1 + k). unfold m in *. lia.
Qed.

(** ** The serialised form *)

(** The bytes [bloom_serialize] writes. *)
Definition image (bf : bloom) : bytes := BLOOM_VERSION ++ filter bf.

Lemma shift_size bf : bloom_ok bf -> Z.shiftr (size bf) 3 = blen (filter bf).
Proof.
  intros [H0 ->]. rewrite Z.shiftr_div_pow2 by lia. change (2 ^ 3) with 8.
  rewrite Z.mul_comm. by apply Z.div_mul.
Qed.

Lemma serialize_spec bf buf n :
  bloom_ok bf -> size bf < 2 ^ 34 -> blen (image bf) <= n -> n <= blen buf ->
  exists rest, bloom_serialize (Some bf) (Some buf) n = Some (0, Some (image bf ++ rest)) /\
    blen (image bf ++ rest) = blen buf.
Proof.
  intros Hok Hsz Hn Hb. pose proof Hok as [H0 Hs]. unfold image in *. rewrite blen_app in Hn.
  change (blen BLOOM_VERSION) with 10 in Hn.
  unfold bloom_serialize, bloom_mem_size. rewrite (shift_size bf Hok). change (blen BLOOM_VERSION) with 10.
  rewrite (proj2 (Z.eqb_neq _ _)), u4_id by (unfold is_u4, U4_MOD; lia). rewrite (proj2 (Z.ltb_ge _ _)) by lia.
  destruct (split_blen buf 10 ltac:(lia)) as (v & b1 & -> & Hv). rewrite blen_app in Hb.
  destruct (split_blen b1 (blen (filter bf)) ltac:(lia)) as (f & rest & -> & Hf).
  rewrite wr_head by (rewrite Hv; done). cbn [mbind option_bind].
  rewrite rd_all by done. cbn [mbind option_bind].
  change 10 with (blen BLOOM_VERSION).   rewrite (wr_mid BLOOM_VERSION f rest (filter bf)) by done. cbn [mbind option_bind].
  exists rest. rewrite <- app_assoc. split; [done|]. rewrite !blen_app, Hv, Hf. done.
Qed.

(** Round trip: what [bloom_serialize] writes, [build_bloom] reads back as the
    same filter. *)
Theorem bloom_roundtrip (malloc : malloc_fun) (bf : bloom) (buf : bytes) (n : Z) :
  malloc_ok malloc -> (forall k, malloc k <> None) -> bloom_ok bf -> size bf < 2 ^ 34 ->
  bloom_mem_size (Some bf) <= n -> n <= blen buf ->
  exists out, bloom_serialize (Some bf) (Some buf) n = Some (0, Some out) /\ blen out = blen buf /\
    build_bloom malloc (Some out) (bloom_mem_size (Some bf)) = Some (Some bf).
Proof.
  intros Hm Hma Hok Hsz Hn Hb. pose proof Hok as [H0 Hs].
  assert (bloom_mem_size (Some bf) = 10 + blen (filter bf)) as Em.
  { unfold bloom_mem_size. rewrite (shift_size bf Hok). apply u4_id. unfold is_u4, U4_MOD.
    change (blen BLOOM_VERSION) with 10. lia. }
  destruct (serialize_spec bf buf n Hok Hsz) as (rest & E & El); [unfold image; rewrite blen_app, Em in *; exact Hn|done|].
  exists (image bf ++ rest). split; [done|]. split; [done|]. rewrite Em. unfold build_bloom, image.
  rewrite (proj2 (Z.eqb_neq _ _)) by lia. rewrite <- app_assoc, memcmp_refl. cbn [mbind option_bind Z.eqb negb].
  change (blen BLOOM_VERSION) with 10. replace (10 + blen (filter bf) - 10) with (blen (filter bf)) by lia.
  rewrite Z.shiftl_mul_pow2 by lia. change (2 ^ 3) with 8.
  rewrite !u8_id by (unfold is_u8, U8_MOD, sizeof_bloom; rewrite ?u8_id by (unfold is_u8, U8_MOD; lia); lia).
  destruct (malloc _) as [block|] eqn:Eb; [|by apply Hma in Eb].
  apply Hm in Eb; [|unfold sizeof_bloom; lia]. rewrite (proj2 (Z.leb_le _ _)) by lia.
  change 10 with (blen BLOOM_VERSION). rewrite rd_mid. cbn [mbind option_bind].
  do 2 f_equal. destruct bf as [sz f]. cbn in *. f_equal. lia.
Qed.

Lemma bloom_roundtrip_witness :
  exists out, bloom_serialize (Some (mk_bloom 16 [5; 129])) (Some (replicate 20 0)) 15 = Some (0, Some out) /\
    blen out = 20 /\ build_bloom malloc_zero (Some out) 12 = Some (Some (mk_bloom 16 [5; 129])).
Proof.
  apply (bloom_roundtrip malloc_zero (mk_bloom 16 [5; 129]) (replicate 20 0) 15).
  - exact malloc_zero_ok.
  - intros k. unfold malloc_zero. discriminate.
  - split; reflexivity.
  - reflexivity.
  - vm_compute. discriminate.
  - vm_compute. discriminate.
Defined.

(** [build_bloom] subtracts the length of the version from [size] without
    comparing them: for 2 <= size < 10 the block it allocates is smaller than
    the header it then writes. *)
Theorem build_bloom_short (malloc : malloc_fun) (rest : bytes) (n : Z) :
  malloc_ok malloc -> (forall k, malloc k <> None) -> 2 <= n < 10 ->
  build_bloom malloc (Some (BLOOM_VERSION ++ rest)) n = None.
Proof.
  intros Hm Hma Hn. unfold build_bloom. rewrite (proj2 (Z.eqb_neq _ _)) by lia. rewrite memcmp_refl.
  cbn [mbind option_bind Z.eqb negb]. change (blen BLOOM_VERSION) with 10.
  assert (u8 (n - 10) = U8_MOD + n - 10) as ->.
  { unfold u8. replace (n - 10) with (U8_MOD + n - 10 + -1 * U8_MOD) at 1 by lia.
    rewrite Z.mod_add by done. apply Z.mod_small. unfold U8_MOD. lia. }
  assert (u8 (sizeof_bloom + (U8_MOD + n - 10)) = n - 2) as ->.
  { unfold u8, sizeof_bloom. replace (8 + (U8_MOD + n - 10)) with (n - 2 + 1 * U8_MOD) by lia.
    rewrite Z.mod_add by done. apply Z.mod_small. unfold U8_MOD. lia. }
  destruct (malloc (n - 2)) as [block|] eqn:Eb; [|by apply Hma in Eb].
  apply Hm in Eb; [|lia]. rewrite (proj2 (Z.leb_gt _ _)); [done|]. unfold sizeof_bloom, U8_MOD. lia.
Qed.

Lemma build_bloom_short_witness : build_bloom malloc_zero (Some (BLOOM_VERSION ++ [1])) 9 = None.
Proof.
  apply (build_bloom_short malloc_zero [1] 9).
  - exact malloc_zero_ok.
  - intros k. unfold malloc_zero. discriminate.
  - lia.
Defined.

(** The capacity of a new filter is twenty bits for each of the [n] items,
    rounded up to whole bytes, while [20 * n] fits in 32 bits; beyond, the
    product wraps and the filter can be as small as one byte.  No items give an
    empty filter, on which the first addition divides by 0. *)
Theorem create_bloom_capacity (malloc : malloc_fun) (n : Z) (bf : bloom) :
  0 <= n < U4_MOD -> create_bloom malloc n = Some bf ->
  (n * 20 < U4_MOD -> size bf = (n * 20 + 7) / 8 * 8) /\
  (n = 214748365 -> size bf = 8) /\
  (n = 0 -> forall s, no_nul s -> bloom_add (Some bf) (Some (cstring s)) = None).
Proof.
  intros Hn Hc. split; [|split].
  - intros Hs. destruct (decide (n = 0)) as [->|Hnz].
    + unfold create_bloom in Hc. destruct (malloc _) in Hc; [|done]. by injection Hc as <-.
    + assert (u4 (n * RATIO) = n * 20) as E by (apply u4_id; unfold is_u4, RATIO; lia).
      destruct (create_spec malloc n bf Hn) as (_ & _ & ->); [lia|done|]. by rewrite E.
  - intros ->. destruct (create_spec malloc _ bf Hn) as (_ & _ & ->); [discriminate|done|]. reflexivity.
  - intros -> s Hs. unfold create_bloom in Hc. destruct (malloc _) in Hc; [|done]. injection Hc as <-.
    unfold bloom_add. cbn [mbind option_bind]. rewrite c_str_cstring by done. reflexivity.
Qed.

Lemma create_bloom_capacity_witness :
  (3 * 20 < U4_MOD -> size (mk_bloom 64 (replicate 8 0)) = (3 * 20 + 7) / 8 * 8) /\
  (3 = 214748365 -> size (mk_bloom 64 (replicate 8 0)) = 8) /\
  (3 = 0 -> forall s, no_nul s -> bloom_add (Some (mk_bloom 64 (replicate 8 0))) (Some (cstring s)) = None).
Proof.
  apply (create_bloom_capacity malloc_zero 3 (mk_bloom 64 (replicate 8 0))).
  - unfold U4_MOD. lia.
  - vm_compute. reflexivity.
Defined.

(** [bloom_compare] is 0 exactly on equal filters. *)
Lemma bloom_compare_eq b1 b2 :
  bloom_ok b1 -> bloom_ok b2 -> bloom_compare (Some b1) (Some b2) = Some 0 <-> b1 = b2.
Proof.
  intros Hok1 Hok2. pose proof (shift_size b1 Hok1) as E1. destruct Hok1 as [_ H1], Hok2 as [_ H2].
  unfold bloom_compare. destruct (size b1 =? size b2) eqn:E; to_prop; cbn [negb].
  - rewrite E1. unfold blen in *. rewrite Nat2Z.id, memcmp_eq by lia.
    destruct b1 as [s1 f1], b2 as [s2 f2]. cbn in *. split; [intros ->; by rewrite E|by intros [= _ ->]].
  - split; [by destruct (_ <? _)|]. intros ->. done.
Qed.

End Bloom.
