(* ===== verification/LiskFsm.v ===== *)
(** * lisk_fsm.c: a table-driven state machine

    Models fsm/src/lisk_fsm.c and the tables of fsm/inc/lisk_fsm.h.  The
    handlers and judges belong to the client: functions that may change the
    machine's state, the event and an environment of their own. *)

From S2P Require Import Prelude.

Module Fsm.

Definition MAX_SWITCH_NUM : nat := 13.
Definition INVALID_EVENT : Z := -1.
Definition INVALID_STATE : Z := -1.

Section Machine.
Context {E : Type}.

(** What a handler sees and may change. *)
Record ctx := mk_ctx { c_state : Z; c_event : Z; c_env : E }.

Abbreviation handle_fsm_event := (ctx -> Z * ctx).

Record switcher_t := mk_switcher {
  sw_state : Z;
  sw_event : Z;
  sw_handler : option handle_fsm_event;
  sw_judge : option handle_fsm_event;
}.

Record fsm_node_t := mk_node { n_state : Z; n_name : bytes; n_switcher : list switcher_t }.

(** The machine, without its current state. *)
Record fsm_t := mk_fsm {
  f_handler : option handle_fsm_event;
  f_judge : option handle_fsm_event;
  f_node : list fsm_node_t;
}.

Definition switcher_cmp (s0 s1 : option switcher_t) : Z :=
  match s0, s1 with
  | Some s0, Some s1 =>
      if sw_event s0 =? INVALID_EVENT then 1
      else if sw_event s1 =? INVALID_EVENT then -1
      else if sw_event s1 <? sw_event s0 then 1
      else if sw_event s0 <? sw_event s1 then -1 else 0
  | _, _ => -1
  end.

Definition fsm_node_cmp (n0 n1 : option fsm_node_t) : Z :=
  match n0, n1 with
  | Some n0, Some n1 =>
      if n_state n0 =? INVALID_STATE then 1
      else if n_state n1 =? INVALID_STATE then -1
      else if n_state n1 <? n_state n0 then 1
      else if n_state n0 <? n_state n1 then -1 else 0
  | _, _ => -1
  end.

Definition cleared : switcher_t := mk_switcher INVALID_STATE INVALID_EVENT None None.

(** [flag]: an invalid next state has been seen. *)
Fixpoint clear_tail (flag : bool) (l : list switcher_t) : list switcher_t :=
  match l with
  | [] => []
  | s :: l' =>
      if flag then cleared :: clear_tail true l'
      else s :: clear_tail (sw_state s =? INVALID_STATE) l'
  end.

Definition sort_node (n : fsm_node_t) : fsm_node_t :=
  mk_node (n_state n) (n_name n)
    (qsort (fun a b => switcher_cmp (Some a) (Some b)) (clear_tail false (n_switcher n))).

Definition fsm_node_arr_sort (arr : option (list fsm_node_t)) (size : Z) : option (list fsm_node_t) :=
  match arr with
  | None => None
  | Some l =>
      if size =? 0 then Some l
      else Some ((sort_node <$> qsort (fun a b => fsm_node_cmp (Some a) (Some b)) (take (Z.to_nat size) l))
                 ++ drop (Z.to_nat size) l)
  end.

(** One round of the loop: stop with a result, or go on. *)
Inductive round := Stop (ret_val : Z) (c : ctx) | Next (c : ctx).

(** A missing default handler is called all the same: [None]. *)
Definition fsm_round (fsm : fsm_t) (c : ctx) : option round :=
  let node := mk_node (c_state c) [] [] in
  pnode ← bsearch (fun n => fsm_node_cmp (Some node) (Some n)) (f_node fsm);
  match pnode with
  | None => Some (Stop (-2) c)
  | Some pnode =>
      let switcher := mk_switcher 0 (c_event c) None None in
      pswitcher ← bsearch (fun s => switcher_cmp (Some switcher) (Some s)) (n_switcher pnode);
      match pswitcher with
      | None => Some (Stop (-2) c)
      | Some pswitcher =>
          handler ← (match sw_handler pswitcher with Some h => Some h | None => f_handler fsm end);
          let '(ret, c) := handler c in
          judge ← (match sw_judge pswitcher with Some j => Some j | None => f_judge fsm end);
          let '(ret, c) := judge c in
          let c := if ret =? 0 then mk_ctx (sw_state pswitcher) (c_event c) (c_env c) else c in
          if c_state c =? INVALID_STATE then Some (Stop 0 c) else Some (Next c)
      end
  end.

Fixpoint fsm_loop (fuel : nat) (fsm : fsm_t) (c : ctx) : option (Z * ctx) :=
  match fuel with
  | O => None
  | S n => r ← fsm_round fsm c;
           match r with Stop ret c => Some (ret, c) | Next c => fsm_loop n fsm c end
  end.

(** The state of the machine and the event are those of the context. *)
Definition fsm_run (fuel : nat) (fsm : option fsm_t) (c : option ctx) : option (Z * option ctx) :=
  match fsm, c with
  | Some fsm, Some c =>
      if (c_state c =? INVALID_STATE) || (c_event c =? INVALID_EVENT) then Some (-1, Some c)
      else '(ret, c) ← fsm_loop fuel fsm c; Some (ret, Some c)
  | _, _ => Some (-1, c)
  end.

(** ** The reference: first match in the tables as they are declared *)

(** The declared transitions end with the first whose next state is invalid. *)
Fixpoint effective (l : list switcher_t) : list switcher_t :=
  match l with
  | [] => []
  | s :: l' => if sw_state s =? INVALID_STATE then [s] else s :: effective l'
  end.

Definition find_node (st : Z) (l : list fsm_node_t) : option fsm_node_t :=
  head (filter (fun n => n_state n = st) l).

Definition find_switch (ev : Z) (n : fsm_node_t) : option switcher_t :=
  if ev =? INVALID_EVENT then None
  else head (filter (fun s => sw_event s = ev) (effective (n_switcher n))).

Definition ref_round (fsm : fsm_t) (c : ctx) : option round :=
  match n ← find_node (c_state c) (f_node fsm); find_switch (c_event c) n with
  | None => Some (Stop (-2) c)
  | Some s =>
      handler ← (match sw_handler s with Some h => Some h | None => f_handler fsm end);
      let '(_, c) := handler c in
      judge ← (match sw_judge s with Some j => Some j | None => f_judge fsm end);
      let '(ret, c) := judge c in
      let c := if ret =? 0 then mk_ctx (sw_state s) (c_event c) (c_env c) else c in
      if c_state c =? INVALID_STATE then Some (Stop 0 c) else Some (Next c)
  end.

Fixpoint ref_loop (fuel : nat) (fsm : fsm_t) (c : ctx) : option (Z * ctx) :=
  match fuel with
  | O => None
  | S n => r ← ref_round fsm c;
           match r with Stop ret c => Some (ret, c) | Next c => ref_loop n fsm c end
  end.

(** No state and no event is declared twice; both are [n4].  The entries of a
    closing node, of invalid state, do not count. *)
Definition node_ok (n : fsm_node_t) : Prop :=
  Forall (fun s => sw_event s < 2 ^ 31) (n_switcher n) /\
  forall i j s s', effective (n_switcher n) !! i = Some s -> effective (n_switcher n) !! j = Some s' ->
    sw_event s = sw_event s' -> sw_event s <> INVALID_EVENT -> i = j.

Definition table_ok (l : list fsm_node_t) : Prop :=
  (forall i j n n', l !! i = Some n -> l !! j = Some n' -> n_state n = n_state n' ->
     n_state n <> INVALID_STATE -> i = j) /\
  Forall (fun n => n_state n < 2 ^ 31 /\ (n_state n <> INVALID_STATE -> node_ok n)) l.

(** ** The sorted tables answer as the declared ones *)

(** The invalid event is above all others. *)
Definition sort_key (z : Z) : Z := if z =? -1 then 2 ^ 31 else z.

Lemma switcher_cmp_key a b :
  sw_event a < 2 ^ 31 -> sw_event b < 2 ^ 31 ->
  (switcher_cmp (Some a) (Some b) <= 0 -> sort_key (sw_event a) <= sort_key (sw_event b)) /\
  (0 < switcher_cmp (Some a) (Some b) -> sort_key (sw_event b) <= sort_key (sw_event a)).
Proof.
  intros Ha Hb. unfold switcher_cmp, sort_key, INVALID_EVENT.
  destruct (sw_event a =? -1) eqn:E1; to_prop; [destruct (sw_event b =? -1); lia|].
  destruct (sw_event b =? -1) eqn:E2; to_prop; [lia|].
  destruct (_ <? _) eqn:E3; to_prop; [lia|]. destruct (sw_event a <? _) eqn:E4; to_prop; lia.
Qed.

Lemma fsm_node_cmp_key a b :
  n_state a < 2 ^ 31 -> n_state b < 2 ^ 31 ->
  (fsm_node_cmp (Some a) (Some b) <= 0 -> sort_key (n_state a) <= sort_key (n_state b)) /\
  (0 < fsm_node_cmp (Some a) (Some b) -> sort_key (n_state b) <= sort_key (n_state a)).
Proof.
  intros Ha Hb. unfold fsm_node_cmp, sort_key, INVALID_STATE.
  destruct (n_state a =? -1) eqn:E1; to_prop; [destruct (n_state b =? -1); lia|].
  destruct (n_state b =? -1) eqn:E2; to_prop; [lia|].
  destruct (_ <? _) eqn:E3; to_prop; [lia|]. destruct (n_state a <? _) eqn:E4; to_prop; lia.
Qed.

(** A comparison that follows a sorted key lets [bsearch] find every match. *)
Lemma bsearch_key {A} (key : A -> Z) (f : A -> Z) (k : Z) l :
  sorted_key key l -> (forall x, (f x < 0 -> k < key x) /\ (k < key x -> f x < 0)) ->
  (forall x, x ∈ l -> (0 < f x -> key x < k) /\ (key x < k -> 0 < f x)) ->
  (exists x, bsearch f l = Some (Some x) /\ x ∈ l /\ f x = 0) \/
  (bsearch f l = Some None /\ forall x, x ∈ l -> f x <> 0).
Proof.
  intros Hs Hlt Hgt. apply bsearch_spec. intros i j x y Hij Hx Hy.
  pose proof (Hs i j x y Hij Hx Hy). pose proof (Hlt x). pose proof (Hlt y).
  pose proof (Hgt x (list_elem_of_lookup_2 _ _ _ Hx)). pose proof (Hgt y (list_elem_of_lookup_2 _ _ _ Hy)).
  split; intros; [apply Hlt|apply Hgt]; try (by eapply list_elem_of_lookup_2); intuition lia.
Qed.

Lemma head_filter_unique {A} (P : A -> Prop) `{!forall x, Decision (P x)} (l : list A) x :
  x ∈ l -> P x -> (forall i j a b, l !! i = Some a -> l !! j = Some b -> P a -> P b -> i = j) ->
  head (filter P l) = Some x.
Proof.
  intros Hx HP Hu. assert (x ∈ filter P l) as Hin by (by apply list_elem_of_filter).
  destruct (filter P l) as [|y t] eqn:Ef; [by apply elem_of_nil in Hin|]. cbn. f_equal.
  assert (y ∈ filter P l) as [Py Hy]%list_elem_of_filter by (rewrite Ef; by left).
  apply list_elem_of_lookup in Hx as [i Hi], Hy as [j Hj].
  assert (i = j) as -> by (by apply (Hu i j x y)). congruence.
Qed.

Lemma head_filter_none {A} (P : A -> Prop) `{!forall x, Decision (P x)} (l : list A) :
  (forall x, x ∈ l -> ~ P x) -> head (filter P l) = None.
Proof.
  intros Hn. destruct (filter P l) as [|y t] eqn:Ef; [done|].
  assert (y ∈ filter P l) as [Py Hy]%list_elem_of_filter by (rewrite Ef; by left).
  by apply Hn in Hy.
Qed.

Lemma clear_true l s : s ∈ clear_tail true l -> s = cleared.
Proof. induction l as [|x l IH]; cbn; [by intros ?%elem_of_nil|]. intros [->|?]%elem_of_cons; auto. Qed.

(** Clearing keeps the effective transitions, and adds invalid ones only. *)
Lemma clear_tail_effective l s :
  sw_event s <> INVALID_EVENT -> s ∈ clear_tail false l <-> s ∈ effective l.
Proof.
  intros Hs. induction l as [|x l IH]; cbn; [done|]. destruct (sw_state x =? INVALID_STATE).
  - rewrite !elem_of_cons. split; [|intros [->|?%elem_of_nil]; [by left|done]].
    intros [->|Hc]; [by left|]. apply clear_true in Hc as ->. done.
  - by rewrite !elem_of_cons, IH.
Qed.

Lemma clear_tail_event l flag :
  Forall (fun s => sw_event s < 2 ^ 31) l -> Forall (fun s => sw_event s < 2 ^ 31) (clear_tail flag l).
Proof.
  intros H. revert flag. induction H as [|x l Hx Hl IH]; intros flag; cbn; [constructor|].
  destruct flag; constructor; auto. cbn. unfold INVALID_EVENT. lia.
Qed.

Lemma switch_lookup n ev :
  node_ok n -> ev < 2 ^ 31 ->
  bsearch (fun s => switcher_cmp (Some (mk_switcher 0 ev None None)) (Some s)) (n_switcher (sort_node n)) =
  Some (find_switch ev n).
Proof.
  intros (Hev & Hu) Hr. set (f := fun s => _). cbn [sort_node n_switcher].
  set (cmp := fun a b => switcher_cmp (Some a) (Some b)). set (l := clear_tail false (n_switcher n)).
  assert (Forall (fun s => sw_event s < 2 ^ 31) l) as Hl by (by apply clear_tail_event).
  unfold find_switch. destruct (ev =? INVALID_EVENT) eqn:Ei; to_prop.
  { destruct (bsearch_spec f (qsort cmp l)) as [(x & _ & _ & Hx)|[-> _]]; [|exfalso|done].
    - intros i j x y _ _ _. unfold f, switcher_cmp. cbn. rewrite Ei. cbn. lia.
    - revert Hx. unfold f, switcher_cmp. cbn. by rewrite Ei. }
  assert (sorted_key (fun s => sort_key (sw_event s)) (qsort cmp l)) as Hsort.
  { apply (qsort_sorted (fun s => sw_event s < 2 ^ 31)); [intros x y Hx Hy; apply switcher_cmp_key; done..|done]. }
  assert (forall x, f x = if sw_event x =? -1 then -1 else if sw_event x <? ev then 1
                          else if ev <? sw_event x then -1 else 0) as Hf.
  { intros x. unfold f, switcher_cmp. cbn. unfold INVALID_EVENT in *. by rewrite (proj2 (Z.eqb_neq ev _)). }
  assert (forall x, f x = 0 <-> sw_event x = ev) as Hz.
  { intros x. rewrite Hf. destruct (sw_event x =? -1) eqn:E1; to_prop; [unfold INVALID_EVENT in *; lia|].
    destruct (_ <? _) eqn:E2; to_prop; [lia|]. destruct (ev <? _) eqn:E3; to_prop; lia. }
  destruct (bsearch_key (fun s => sort_key (sw_event s)) f ev (qsort cmp l) Hsort)
    as [(x & -> & Hx & Hfx)|[-> Hno]].
  - intros x. rewrite Hf. unfold sort_key. destruct (sw_event x =? -1) eqn:E1; [lia|].
    destruct (_ <? _) eqn:E2; to_prop; [lia|]. destruct (ev <? _) eqn:E3; to_prop; lia.
  - intros x _. rewrite Hf. unfold sort_key. destruct (sw_event x =? -1) eqn:E1; [lia|].
    destruct (_ <? _) eqn:E2; to_prop; [lia|]. destruct (ev <? _) eqn:E3; to_prop; lia.
  - apply Hz in Hfx. rewrite qsort_perm in Hx. apply clear_tail_effective in Hx; [|congruence].
    f_equal. symmetry. apply head_filter_unique; [done|done|]. intros i j a b Ha Hb Ea Eb.
    apply (Hu i j a b); congruence.
  - f_equal. symmetry. apply head_filter_none. intros x Hx Ex.
    apply (Hno x); [|by apply Hz]. rewrite qsort_perm. apply clear_tail_effective; [congruence|done].
Qed.

(** The same for the nodes; the comparison does not see the transitions. *)
Lemma node_lookup l st :
  table_ok l -> st <> INVALID_STATE -> st < 2 ^ 31 ->
  bsearch (fun n => fsm_node_cmp (Some (mk_node st [] [])) (Some n))
    (sort_node <$> qsort (fun a b => fsm_node_cmp (Some a) (Some b)) l) =
  Some (sort_node <$> find_node st l).
Proof.
  intros [Hu Hok] Hst Hr. set (f := fun n => _). set (cmp := fun a b => fsm_node_cmp (Some a) (Some b)).
  assert (Forall (fun n => n_state n < 2 ^ 31) l) as Hl by (eapply Forall_impl; [exact Hok|by intros ? []]).
  assert (sorted_key (fun n => sort_key (n_state n)) (sort_node <$> qsort cmp l)) as Hsort.
  { intros i j x y Hij Hx Hy. apply list_lookup_fmap_Some in Hx as (x' & -> & Hx), Hy as (y' & -> & Hy). cbn.
    apply (qsort_sorted (fun n => n_state n < 2 ^ 31) (fun n => sort_key (n_state n)) cmp l) with i j;
      [intros a b Ha Hb; apply fsm_node_cmp_key; done..|done|done|done|done]. }
  assert (forall x, f x = if n_state x =? -1 then -1 else if n_state x <? st then 1
                          else if st <? n_state x then -1 else 0) as Hf.
  { intros x. unfold f, fsm_node_cmp. cbn. unfold INVALID_STATE in *. by rewrite (proj2 (Z.eqb_neq st _)). }
  assert (forall x, f x = 0 <-> n_state x = st) as Hz.
  { intros x. rewrite Hf. destruct (n_state x =? -1) eqn:E1; to_prop; [unfold INVALID_STATE in *; lia|].
    destruct (_ <? _) eqn:E2; to_prop; [lia|]. destruct (st <? _) eqn:E3; to_prop; lia. }
  destruct (bsearch_key (fun n => sort_key (n_state n)) f st _ Hsort) as [(x & -> & Hx & Hfx)|[-> Hno]].
  - intros x. rewrite Hf. unfold sort_key. destruct (n_state x =? -1) eqn:E1; [lia|].
    destruct (_ <? _) eqn:E2; to_prop; [lia|]. destruct (st <? _) eqn:E3; to_prop; lia.
  - intros x _. rewrite Hf. unfold sort_key. destruct (n_state x =? -1) eqn:E1; [lia|].
    destruct (_ <? _) eqn:E2; to_prop; [lia|]. destruct (st <? _) eqn:E3; to_prop; lia.
  - apply Hz in Hfx. apply list_elem_of_fmap in Hx as (n & -> & Hn). rewrite qsort_perm in Hn. cbn in Hfx.
    assert (find_node st l = Some n) as ->; [|done].
    apply head_filter_unique; [done|done|]. intros i j a b Ha Hb Ea Eb. apply (Hu i j a b); congruence.
  - assert (find_node st l = None) as ->; [|done].
    apply head_filter_none. intros x Hx Ex. apply (Hno (sort_node x)); [|by apply Hz].
    apply list_elem_of_fmap_2. by rewrite qsort_perm.
Qed.

Lemma head_filter_in {A} (P : A -> Prop) `{!forall x, Decision (P x)} (l : list A) x :
  head (filter P l) = Some x -> P x /\ x ∈ l.
Proof.
  destruct (filter P l) as [|y t] eqn:Ef; [done|]. intros [= ->].
  assert (x ∈ filter P l) as Hin by (rewrite Ef; by left). by apply list_elem_of_filter in Hin.
Qed.

Lemma find_node_in st l n : find_node st l = Some n -> n_state n = st /\ n ∈ l.
Proof. intros H. by apply (head_filter_in (fun n => n_state n = st)). Qed.

Lemma find_switch_in ev n s : find_switch ev n = Some s -> s ∈ n_switcher n.
Proof.
  unfold find_switch. destruct (_ =? _); [done|]. intros [_ Hin]%head_filter_in.
  induction (n_switcher n) as [|x t IH]; [done|]. cbn in Hin.
  destruct (_ =? _) in Hin; [apply list_elem_of_singleton in Hin as ->; by left|].
  apply elem_of_cons in Hin as [->|?]; [by left|right; auto].
Qed.

Section Run.
Context (l : list fsm_node_t) (h j : option handle_fsm_event) (Hl : table_ok l).

Lemma sort_whole (l0 : list fsm_node_t) :
  fsm_node_arr_sort (Some l0) (Z.of_nat (length l0)) =
  Some (sort_node <$> qsort (fun a b => fsm_node_cmp (Some a) (Some b)) l0).
Proof.
  unfold fsm_node_arr_sort. rewrite Nat2Z.id, firstn_all, drop_all, app_nil_r. by destruct l0.
Qed.

(** Every context a round leaves, when it goes on, is in range. *)
Definition ctx_ok (c : ctx) : Prop := c_state c < 2 ^ 31 /\ c_event c < 2 ^ 31.
Definition handler_ok (f : handle_fsm_event) : Prop := forall c, ctx_ok c -> ctx_ok (snd (f c)).

(** The functions of the table and the defaults keep states and events [n4]. *)
Definition handlers_ok : Prop :=
  (forall f, h = Some f \/ j = Some f -> handler_ok f) /\
  forall n s, n ∈ l -> s ∈ n_switcher n -> sw_state s < 2 ^ 31 /\
    (forall f, sw_handler s = Some f \/ sw_judge s = Some f -> handler_ok f).

Definition sorted_fsm : fsm_t :=
  mk_fsm h j (sort_node <$> qsort (fun a b => fsm_node_cmp (Some a) (Some b)) l).
Definition declared_fsm : fsm_t := mk_fsm h j l.

Lemma round_eq c :
  c_state c <> INVALID_STATE -> ctx_ok c -> fsm_round sorted_fsm c = ref_round declared_fsm c.
Proof.
  intros Hst [Hs He]. unfold fsm_round, ref_round, sorted_fsm, declared_fsm. cbn [f_node f_handler f_judge].
  rewrite node_lookup by done. cbn [mbind option_bind].
  destruct (find_node (c_state c) l) as [n|] eqn:En; cbn [fmap option_fmap option_map mbind option_bind]; [|done].
  assert (node_ok n) as Hn.
  { apply find_node_in in En as [Hst' Hin]. destruct Hl as [_ Hok]. rewrite Forall_forall in Hok.
    apply Hok; [done|congruence]. }
  rewrite switch_lookup by done. cbn [mbind option_bind].
  by destruct (find_switch (c_event c) n).
Qed.

Lemma round_keeps c c' :
  handlers_ok -> ctx_ok c -> ref_round declared_fsm c = Some (Next c') ->
  c_state c' <> INVALID_STATE /\ ctx_ok c'.
Proof.
  intros [Hd Ht] Hc. unfold ref_round, declared_fsm. cbn [f_node f_handler f_judge].
  destruct (find_node (c_state c) l) as [n|] eqn:En; cbn [mbind option_bind]; [|done].
  destruct (find_switch (c_event c) n) as [s|] eqn:Es; [|done].
  assert (n ∈ l) as Hn.
  { by apply find_node_in in En as [_ ?]. }
  assert (s ∈ n_switcher n) as Hs by (by apply find_switch_in in Es).
  destruct (Ht n s Hn Hs) as [Hss Hsf].
  destruct (match sw_handler s with Some h0 => Some h0 | None => h end) as [fh|] eqn:Eh; cbn [mbind option_bind]; [|done].
  assert (handler_ok fh) as Hfh by (destruct (sw_handler s) eqn:E1; simplify_eq; eauto).
  cbn [mbind option_bind]. specialize (Hfh c Hc). destruct (fh c) as [r c1]. cbn in Hfh.
  destruct (match sw_judge s with Some j0 => Some j0 | None => j end) as [fj|] eqn:Ej; cbn [mbind option_bind]; [|done].
  assert (handler_ok fj) as Hfj by (destruct (sw_judge s) eqn:E1; simplify_eq; eauto).
  cbn [mbind option_bind]. specialize (Hfj c1 Hfh). destruct (fj c1) as [r2 c2]. cbn in Hfj.
  destruct (r2 =? 0).
  - destruct (c_state _ =? _) eqn:Ei; [done|]. to_prop. intros [= <-]. split; [done|]. split; [done|]. apply Hfj.
  - destruct (c_state c2 =? _) eqn:Ei; [done|]. to_prop. intros [= <-]. done.
Qed.

Lemma loop_eq fuel c :
  handlers_ok -> c_state c <> INVALID_STATE -> ctx_ok c ->
  fsm_loop fuel sorted_fsm c = ref_loop fuel declared_fsm c.
Proof.
  intros Hh. revert c. induction fuel as [|n IH]; intros c Hst Hc; [done|]. cbn [fsm_loop ref_loop].
  rewrite round_eq by done. destruct (ref_round declared_fsm c) as [[r c'|c']|] eqn:Er; [done| |done].
  cbn [mbind option_bind]. destruct (round_keeps c c' Hh Hc Er). by apply IH.
Qed.
End Run.

(** Rounds that never leave a set of contexts never return. *)
Lemma ref_loop_spins fsm (P : ctx -> Prop) c fuel :
  (forall c, P c -> exists c', ref_round fsm c = Some (Next c') /\ P c') -> P c -> ref_loop fuel fsm c = None.
Proof.
  intros Hr. revert c. induction fuel as [|n IH]; intros c Hc; [done|]. cbn [ref_loop].
  destruct (Hr c Hc) as (c' & -> & Hc'). cbn. by apply IH.
Qed.

(** Contexts of one state and one event. *)
Definition same_place (st ev : Z) (c : ctx) : Prop := c_state c = st /\ c_event c = ev.

End Machine.

Lemma fsm_run_sorted {E} (l : list (fsm_node_t (E := E))) (h j : option (ctx (E := E) -> Z * ctx))
  (fuel : nat) (c : ctx) :
  table_ok l -> handlers_ok l h j -> ctx_ok c ->
  fsm_run fuel (Some (mk_fsm h j (f_node (sorted_fsm l h j)))) (Some c) =
  if (c_state c =? INVALID_STATE) || (c_event c =? INVALID_EVENT) then Some (-1, Some c)
  else '(ret, c') ← ref_loop fuel (mk_fsm h j l) c; Some (ret, Some c').
Proof.
  intros Hl Hh Hc. unfold fsm_run.
  destruct (c_state c =? INVALID_STATE) eqn:E1; [done|]. to_prop.
  destruct (c_event c =? INVALID_EVENT); [done|]. cbn [orb].
  change (mk_fsm h j (f_node (sorted_fsm l h j))) with (sorted_fsm l h j).
  by rewrite (loop_eq l h j Hl fuel c Hh E1 Hc).
Qed.

(** C26. For tables that declare no state twice, and no event twice in one
    state ([table_ok]; of equal entries [qsort] may put either first): sorting
    the tables and looking states and events up by binary search is the machine
    the tables declare. [fsm_run] on the sorted nodes does, round by round, what
    the entry the declaration has for the state and the event says, where the
    transitions of a node end with its first invalid next state. *)
Theorem fsm_run_table {E} (l : list (fsm_node_t (E := E))) (h j : option (ctx (E := E) -> Z * ctx))
  (fuel : nat) (c : ctx) :
  table_ok l -> handlers_ok l h j -> ctx_ok c ->
  exists l', fsm_node_arr_sort (Some l) (Z.of_nat (length l)) = Some l' /\
    fsm_run fuel (Some (mk_fsm h j l')) (Some c) =
    if (c_state c =? INVALID_STATE) || (c_event c =? INVALID_EVENT) then Some (-1, Some c)
    else '(ret, c') ← ref_loop fuel (mk_fsm h j l) c; Some (ret, Some c').
Proof.
  intros Hl Hh Hc. exists (f_node (sorted_fsm l h j)). split; [apply sort_whole|by apply fsm_run_sorted].
Qed.

(** ** The watch of fsm/exam/fsm_test.c

    The handlers only print; the environment is the trace of the states they
    saw. *)

Definition watch_ctx : Type := ctx (E := list Z).

Definition EWATCH_POWERON : Z := 1.
Definition EWATCH_SPLIT : Z := 2.
Definition EWATCH_UNSPLIT : Z := 4.
Definition EWATCH_STOP : Z := 8.
Definition EWATCH_POWEROFF : Z := 16.
Definition EWATCH_START : Z := 1.
Definition EWATCH_RUNNING : Z := 2.
Definition EWATCH_SUSPEND : Z := 4.
Definition EWATCH_STOPPED : Z := 8.
Definition EWATCH_CLOSED : Z := INVALID_STATE.

(** [pinfo]: the line it prints names the state. *)
Definition pinfo (c : watch_ctx) : watch_ctx := mk_ctx (c_state c) (c_event c) (c_env c ++ [c_state c]).

Definition watch_poweron (c : watch_ctx) : Z * watch_ctx :=
  if negb (c_state c =? EWATCH_START) then (-2, pinfo c) else (0, pinfo c).
Definition watch_split (c : watch_ctx) : Z * watch_ctx := (0, pinfo c).
Definition watch_unsplit (c : watch_ctx) : Z * watch_ctx := (0, pinfo c).
Definition watch_stop (c : watch_ctx) : Z * watch_ctx := (0, pinfo c).
Definition watch_poweroff (c : watch_ctx) : Z * watch_ctx := (0, pinfo c).
Definition watch_default_handle (c : watch_ctx) : Z * watch_ctx := (0, pinfo c).

Definition set_event (c : watch_ctx) (e : Z) : watch_ctx := mk_ctx (c_state c) e (c_env c).

Definition watch_running_judge (c : watch_ctx) : Z * watch_ctx :=
  if (c_state c =? EWATCH_START) && (c_event c =? EWATCH_POWERON) then (0, set_event c EWATCH_SPLIT)
  else if (c_state c =? EWATCH_SUSPEND) && (c_event c =? EWATCH_UNSPLIT) then (0, set_event c EWATCH_STOP)
  else (-2, c).

Definition watch_suspend_judge (c : watch_ctx) : Z * watch_ctx :=
  if (c_state c =? EWATCH_RUNNING) && (c_event c =? EWATCH_SPLIT) then (0, set_event c EWATCH_STOP) else (-2, c).

Definition watch_stopped_judge (c : watch_ctx) : Z * watch_ctx :=
  if ((c_state c =? EWATCH_RUNNING) && (c_event c =? EWATCH_STOP)) ||
     ((c_state c =? EWATCH_SUSPEND) && (c_event c =? EWATCH_STOP))
  then (0, set_event c EWATCH_POWEROFF) else (-2, c).

Definition watch_closed_judge (c : watch_ctx) : Z * watch_ctx :=
  if (c_state c =? EWATCH_STOPPED) && (c_event c =? EWATCH_POWEROFF) then (0, c) else (-2, c).

Definition watch_default_judge (c : watch_ctx) : Z * watch_ctx := (0, c).

(** The entries of [FSM_SWITCH], the one of [FSM_NODE_END], and the zeros that fill the array. *)
Definition switches (l : list (Z * Z * (watch_ctx -> Z * watch_ctx) * (watch_ctx -> Z * watch_ctx))) : list switcher_t :=
  let given := ((fun '(st, ev, h, j) => mk_switcher st ev (Some h) (Some j)) <$> l) ++
               [mk_switcher INVALID_STATE INVALID_EVENT None None] in
  given ++ replicate (MAX_SWITCH_NUM - length given) (mk_switcher 0 0 None None).

Definition watch_arr : list fsm_node_t :=
  [mk_node EWATCH_START [1] (switches [(EWATCH_RUNNING, EWATCH_POWERON, watch_poweron, watch_running_judge)]);
   mk_node EWATCH_RUNNING [2] (switches [(EWATCH_SUSPEND, EWATCH_SPLIT, watch_split, watch_suspend_judge);
                                         (EWATCH_STOPPED, EWATCH_STOP, watch_stop, watch_stopped_judge)]);
   mk_node EWATCH_SUSPEND [4] (switches [(EWATCH_RUNNING, EWATCH_UNSPLIT, watch_unsplit, watch_running_judge);
                                         (EWATCH_STOPPED, EWATCH_STOP, watch_stop, watch_stopped_judge)]);
   mk_node EWATCH_STOPPED [8] (switches [(EWATCH_CLOSED, EWATCH_POWEROFF, watch_poweroff, watch_closed_judge)]);
   mk_node INVALID_STATE [] (replicate MAX_SWITCH_NUM (mk_switcher 0 0 None None))].

(** Transitions whose events are all different are unique where it counts. *)
Lemma unique_by_event (l : list (switcher_t (E := list Z))) :
  NoDup (sw_event <$> l) ->
  forall i j s s', l !! i = Some s -> l !! j = Some s' -> sw_event s = sw_event s' ->
    sw_event s <> INVALID_EVENT -> i = j.
Proof.
  intros Hnd i j s s' Hi Hj He _. apply (NoDup_lookup _ i j (sw_event s) Hnd).
  - by rewrite list_lookup_fmap, Hi.
  - by rewrite list_lookup_fmap, Hj, He.
Qed.

Lemma watch_table_ok : table_ok watch_arr.
Proof.
  split.
  - intros i j n n' Hi Hj Hs _. apply (NoDup_lookup (n_state <$> watch_arr) i j (n_state n)).
    + compute_done.
    + by rewrite list_lookup_fmap, Hi.
    + by rewrite list_lookup_fmap, Hj, Hs.
  - repeat (apply Forall_cons; split); [..|apply Forall_nil_2]; (split; [reflexivity|]); try done.
    all: intros _; split; [repeat (apply Forall_cons; split; [reflexivity|]); apply Forall_nil_2|].
    all: apply unique_by_event; compute_done.
Qed.

Definition watch_fsm : fsm_t := mk_fsm (Some watch_default_handle) (Some watch_default_judge) watch_arr.

(** The states the machine goes through from a state and an event it accepts. *)
Definition watch_path (st ev : Z) : option (list Z) :=
  if (st =? EWATCH_START) && (ev =? EWATCH_POWERON) then Some [EWATCH_START; EWATCH_RUNNING; EWATCH_SUSPEND; EWATCH_STOPPED]
  else if (st =? EWATCH_RUNNING) && (ev =? EWATCH_SPLIT) then Some [EWATCH_RUNNING; EWATCH_SUSPEND; EWATCH_STOPPED]
  else if (st =? EWATCH_RUNNING) && (ev =? EWATCH_STOP) then Some [EWATCH_RUNNING; EWATCH_STOPPED]
  else if (st =? EWATCH_SUSPEND) && (ev =? EWATCH_UNSPLIT) then Some [EWATCH_SUSPEND; EWATCH_RUNNING; EWATCH_STOPPED]
  else if (st =? EWATCH_SUSPEND) && (ev =? EWATCH_STOP) then Some [EWATCH_SUSPEND; EWATCH_STOPPED]
  else if (st =? EWATCH_STOPPED) && (ev =? EWATCH_POWEROFF) then Some [EWATCH_STOPPED]
  else None.

Lemma watch_judges_ok f :
  f ∈ [watch_poweron; watch_split; watch_unsplit; watch_stop; watch_poweroff; watch_default_handle; watch_running_judge; watch_suspend_judge; watch_stopped_judge; watch_closed_judge;
       watch_default_judge] -> handler_ok f.
Proof.
  intros Hf c [Hs He]. repeat (apply elem_of_cons in Hf as [->|Hf]); [..|by apply elem_of_nil in Hf];
    unfold watch_poweron, watch_split, watch_unsplit, watch_stop, watch_poweroff, watch_default_handle, watch_running_judge, watch_suspend_judge, watch_stopped_judge, watch_closed_judge,
      watch_default_judge; repeat case_match; split; done.
Qed.

Lemma watch_handlers_ok : handlers_ok watch_arr (Some watch_default_handle) (Some watch_default_judge).
Proof.
  split; [intros f [[= <-]|[= <-]]; apply watch_judges_ok; set_solver|].
  intros n s Hn Hs. repeat (apply elem_of_cons in Hn as [->|Hn]); [..|by apply elem_of_nil in Hn];
    cbn in Hs; repeat (apply elem_of_cons in Hs as [->|Hs]); try (by apply elem_of_nil in Hs);
    (split; [reflexivity|]); cbn; intros f [Hf|Hf]; try discriminate Hf; injection Hf as <-;
    apply watch_judges_ok; set_solver.
Qed.

(** What no table row matches is refused. *)
Lemma watch_refuses st ev env :
  st <> INVALID_STATE -> ev <> INVALID_EVENT -> watch_path st ev = None ->
  ref_round watch_fsm (mk_ctx st ev env) = Some (Stop (-2) (mk_ctx st ev env)).
Proof.
  intros Hst Hev Hp. unfold ref_round. change (f_node watch_fsm) with watch_arr. cbn [c_state c_event].
  enough ((n ← find_node st watch_arr; find_switch ev n) = None) as -> by done.
  destruct (find_node st watch_arr) as [n|] eqn:En; [|done]. cbn [mbind option_bind].
  unfold find_switch. destruct (ev =? INVALID_EVENT) eqn:Ei; [done|]. to_prop.
  apply find_node_in in En as [Hs Hn]. apply head_filter_none. intros s Hin He. subst.
  repeat (apply elem_of_cons in Hn as [->|Hn]); try (by apply elem_of_nil in Hn); try done;
    cbn in Hin; repeat (apply elem_of_cons in Hin as [->|Hin]); try (by apply elem_of_nil in Hin);
    try discriminate Hp; done.
Qed.

Lemma watch_rounds env :
  ref_round watch_fsm (mk_ctx EWATCH_START EWATCH_POWERON env)
    = Some (Next (mk_ctx EWATCH_RUNNING EWATCH_SPLIT (env ++ [EWATCH_START]))) /\
  ref_round watch_fsm (mk_ctx EWATCH_RUNNING EWATCH_SPLIT env)
    = Some (Next (mk_ctx EWATCH_SUSPEND EWATCH_STOP (env ++ [EWATCH_RUNNING]))) /\
  ref_round watch_fsm (mk_ctx EWATCH_RUNNING EWATCH_STOP env)
    = Some (Next (mk_ctx EWATCH_STOPPED EWATCH_POWEROFF (env ++ [EWATCH_RUNNING]))) /\
  ref_round watch_fsm (mk_ctx EWATCH_SUSPEND EWATCH_UNSPLIT env)
    = Some (Next (mk_ctx EWATCH_RUNNING EWATCH_STOP (env ++ [EWATCH_SUSPEND]))) /\
  ref_round watch_fsm (mk_ctx EWATCH_SUSPEND EWATCH_STOP env)
    = Some (Next (mk_ctx EWATCH_STOPPED EWATCH_POWEROFF (env ++ [EWATCH_SUSPEND]))) /\
  ref_round watch_fsm (mk_ctx EWATCH_STOPPED EWATCH_POWEROFF env)
    = Some (Stop 0 (mk_ctx EWATCH_CLOSED EWATCH_POWEROFF (env ++ [EWATCH_STOPPED]))).
Proof. repeat split; vm_compute; reflexivity. Qed.

Ltac watch_step :=
  match goal with
  | |- context [ref_round watch_fsm (mk_ctx _ _ ?e)] =>
      let R := fresh "R" in pose proof (watch_rounds e) as R; destruct_and! R;
      repeat match goal with R : ref_round _ _ = _ |- _ => rewrite ?R; clear R end; cbn [mbind option_bind]
  end.

Lemma watch_loop fuel st ev env :
  (4 <= fuel)%nat -> st <> INVALID_STATE -> ev <> INVALID_EVENT ->
  ref_loop fuel watch_fsm (mk_ctx st ev env) =
  match watch_path st ev with
  | Some p => Some (0, mk_ctx EWATCH_CLOSED EWATCH_POWEROFF (env ++ p))
  | None => Some (-2, mk_ctx st ev env)
  end.
Proof.
  intros Hf Hst Hev. destruct fuel as [|[|[|[|k]]]]; try lia. clear Hf.
  destruct (watch_path st ev) as [p|] eqn:Hp; [|cbn [ref_loop]; by rewrite watch_refuses].
  unfold watch_path in Hp. repeat case_match; to_prop; subst; simplify_eq; cbn [ref_loop];
    repeat watch_step; by rewrite <- ?app_assoc.
Qed.

(** The watch of the example, its tables sorted, always returns: a state
    and an event its tables accept lead it through the states of [watch_path]
    to the closed one, any other pair is refused with the machine unchanged. *)
Theorem watch_closes (st ev : Z) (env : list Z) (fuel : nat) :
  (4 <= fuel)%nat -> st < 2 ^ 31 -> ev < 2 ^ 31 ->
  exists l', fsm_node_arr_sort (Some watch_arr) 5 = Some l' /\
    fsm_run fuel (Some (mk_fsm (Some watch_default_handle) (Some watch_default_judge) l')) (Some (mk_ctx st ev env)) =
    if (st =? INVALID_STATE) || (ev =? INVALID_EVENT) then Some (-1, Some (mk_ctx st ev env))
    else match watch_path st ev with
         | Some p => Some (0, Some (mk_ctx EWATCH_CLOSED EWATCH_POWEROFF (env ++ p)))
         | None => Some (-2, Some (mk_ctx st ev env))
         end.
Proof.
  intros Hf Hs He. exists (f_node (sorted_fsm watch_arr (Some watch_default_handle) (Some watch_default_judge))).
  split; [apply (sort_whole watch_arr)|]. rewrite fsm_run_sorted by (auto using watch_table_ok, watch_handlers_ok || done).
  cbn [c_state c_event]. destruct (st =? _) eqn:E1; [done|]. destruct (ev =? _) eqn:E2; [done|]. to_prop.
  cbn [orb]. fold watch_fsm. rewrite watch_loop by done. by destruct (watch_path st ev).
Qed.

Lemma watch_closes_witness :
  exists l', fsm_node_arr_sort (Some watch_arr) 5 = Some l' /\
    fsm_run 4 (Some (mk_fsm (Some watch_default_handle) (Some watch_default_judge) l'))
      (Some (mk_ctx EWATCH_START EWATCH_POWERON [])) =
    Some (0, Some (mk_ctx (-1) 16 [1; 2; 4; 8])).
Proof. apply (watch_closes EWATCH_START EWATCH_POWERON [] 4); [lia|reflexivity|reflexivity]. Defined.

Lemma fsm_run_table_witness :
  exists l', fsm_node_arr_sort (Some watch_arr) 5 = Some l' /\
    fsm_run 9 (Some (mk_fsm (Some watch_default_handle) (Some watch_default_judge) l'))
      (Some (mk_ctx EWATCH_SUSPEND EWATCH_UNSPLIT [])) =
    '(ret, c') ← ref_loop 9 watch_fsm (mk_ctx EWATCH_SUSPEND EWATCH_UNSPLIT []); Some (ret, Some c').
Proof.
  apply (fsm_run_table watch_arr (Some watch_default_handle) (Some watch_default_judge) 9
           (mk_ctx EWATCH_SUSPEND EWATCH_UNSPLIT [])); [apply watch_table_ok|apply watch_handlers_ok|split; reflexivity].
Defined.

(** A transition whose judge refuses it, when neither its handler nor its
    judge moves the state or the event, is tried again for ever: [fsm_run]
    does not return, whatever the fuel. *)
Theorem fsm_run_spins {E} (l : list (fsm_node_t (E := E))) (h j : option (ctx (E := E) -> Z * ctx))
  (n : fsm_node_t) (s : switcher_t) (hd jd : ctx -> Z * ctx) (c : ctx) (fuel : nat) :
  table_ok l -> handlers_ok l h j -> ctx_ok c -> c_state c <> INVALID_STATE ->
  find_node (c_state c) l = Some n -> find_switch (c_event c) n = Some s ->
  sw_handler s = Some hd -> sw_judge s = Some jd ->
  (forall d, same_place (c_state c) (c_event c) d ->
     same_place (c_state c) (c_event c) (snd (hd d)) /\
     same_place (c_state c) (c_event c) (snd (jd d)) /\ fst (jd d) <> 0) ->
  exists l', fsm_node_arr_sort (Some l) (Z.of_nat (length l)) = Some l' /\
    fsm_run fuel (Some (mk_fsm h j l')) (Some c) = None.
Proof.
  intros Hl Hh Hc Hst Hn Hs Hhd Hjd Hsame. exists (f_node (sorted_fsm l h j)). split; [apply sort_whole|].
  rewrite fsm_run_sorted by done. rewrite (proj2 (Z.eqb_neq _ _) Hst).
  destruct (c_event c =? INVALID_EVENT) eqn:Ei; [by unfold find_switch in Hs; rewrite Ei in Hs|].
  cbn [orb]. rewrite (ref_loop_spins _ (same_place (c_state c) (c_event c))); [done| |done].
  intros d Hd. unfold ref_round. cbn [f_node]. pose proof Hd as [-> ->]. rewrite Hn. cbn. rewrite Hs, Hhd. cbn.
  destruct (Hsame d Hd) as [H1 _]. destruct (hd d) as [r1 d1]. rewrite Hjd. cbn in *.
  destruct (Hsame d1 H1) as (_ & [H2 H3] & H4). destruct (jd d1) as [r2 d2]. cbn in *.
  rewrite (proj2 (Z.eqb_neq _ _) H4), H2, (proj2 (Z.eqb_neq _ _) Hst). eexists. split; [done|]. done.
Qed.

(** A running watch told to split, whose judge waits for another state. *)
Definition stuck_arr : list fsm_node_t :=
  [mk_node EWATCH_RUNNING [2] (switches [(EWATCH_SUSPEND, EWATCH_SPLIT, watch_split, watch_closed_judge)])].

Lemma fsm_run_spins_witness :
  exists l', fsm_node_arr_sort (Some stuck_arr) 1 = Some l' /\
    fsm_run 1000 (Some (mk_fsm None None l')) (Some (mk_ctx EWATCH_RUNNING EWATCH_SPLIT [])) = None.
Proof.
  apply (fsm_run_spins stuck_arr None None
           (mk_node EWATCH_RUNNING [2] (switches [(EWATCH_SUSPEND, EWATCH_SPLIT, watch_split, watch_closed_judge)]))
           (mk_switcher EWATCH_SUSPEND EWATCH_SPLIT (Some watch_split) (Some watch_closed_judge))
           watch_split watch_closed_judge (mk_ctx EWATCH_RUNNING EWATCH_SPLIT []) 1000); try done.
  - split; [intros [|i] [|j] a b Ha Hb; by simplify_eq|]. apply Forall_cons. split; [|apply Forall_nil_2].
    split; [done|]. intros _. split; [repeat (apply Forall_cons; split; [reflexivity|]); apply Forall_nil_2|].
    apply unique_by_event. compute_done.
  - split; [by intros f []|]. intros n s Hn Hs. apply list_elem_of_singleton in Hn as ->. cbn in Hs.
    repeat (apply elem_of_cons in Hs as [->|Hs]); try (by apply elem_of_nil in Hs);
      (split; [reflexivity|]); cbn; intros f [Hf|Hf]; try discriminate Hf; injection Hf as <-;
      apply watch_judges_ok; set_solver.
  - intros [st ev env] [Hs He]. cbn in Hs, He. subst. done.
Defined.

End Fsm.
