(* ===== verification/LiskList.v ===== *)
(** * lisk_list.c: a circular doubly linked list of elements

    A node is two pointers followed by the bytes of its element; the clients
    hold pointers to elements and the code goes back and forth between the two
    by adding and subtracting [sizeof(list_node_t)].  Pointers are integers,
    memory maps the address of a node to its contents: an access to an address
    that is not there is [None]. *)

From S2P Require Import Prelude.

Module DList.

Record list_node_t := mk_node { n_prev : Z; n_next : Z; n_data : bytes }.

Abbreviation lmem := (gmap Z list_node_t).

(** The allocator sees the memory and gives the address and the bytes of a block. *)
Definition alloc_fun : Type := lmem -> Z -> option (Z * bytes).

Definition PREV_MAGIC : Z := 0x20131203205112AB.
Definition NEXT_MAGIC : Z := 0xBA21150230213102.
Definition sizeof_list_node_t : Z := 16.
Definition sizeof_uw : Z := 8.

Definition list_node (elem : Z) : Z := elem - sizeof_list_node_t.
Definition list_elem (node : Z) : Z := node + sizeof_list_node_t.

Definition get_prev (m : lmem) (a : Z) : option Z := n_prev <$> m !! a.
Definition get_next (m : lmem) (a : Z) : option Z := n_next <$> m !! a.
Definition get_data (m : lmem) (a : Z) : option bytes := n_data <$> m !! a.

Definition set_prev (m : lmem) (a v : Z) : option lmem :=
  nd ← m !! a; Some (<[a := mk_node v (n_next nd) (n_data nd)]> m).
Definition set_next (m : lmem) (a v : Z) : option lmem :=
  nd ← m !! a; Some (<[a := mk_node (n_prev nd) v (n_data nd)]> m).

Definition list_prev_elem (m : lmem) (elem : Z) : option Z :=
  let node_ptr := list_node elem in
  if negb (node_ptr =? 0) then p ← get_prev m node_ptr; Some (list_elem p) else Some 0.

Definition list_next_elem (m : lmem) (elem : Z) : option Z :=
  let node_ptr := list_node elem in
  if negb (node_ptr =? 0) then p ← get_next m node_ptr; Some (list_elem p) else Some 0.

Definition list_rprev_elem (m : lmem) (elem : Z) : option Z := list_next_elem m elem.
Definition list_rnext_elem (m : lmem) (elem : Z) : option Z := list_prev_elem m elem.

Definition list_empty (m : lmem) (list : Z) : option Z :=
  if list =? 0 then Some 0
  else
    let head := list_node list in
    if head =? 0 then Some 0
    else node ← get_next m head; if node =? head then Some 0 else Some (-1).

Definition list_first (m : lmem) (list : Z) : option Z :=
  ret ← list_empty m list;
  if ret =? 0 then Some 0
  else let head := list_node list in
       if negb (head =? 0) then p ← get_next m head; Some (list_elem p) else Some 0.

Definition list_last (m : lmem) (list : Z) : option Z :=
  ret ← list_empty m list;
  if ret =? 0 then Some 0
  else let head := list_node list in
       if negb (head =? 0) then p ← get_prev m head; Some (list_elem p) else Some 0.

(** The length is an [n4]; [malloc] takes it as a [size_t], [copy_data] as a [u4].
    A block too small for a node is written past its end. *)
Definition list_node_alloc (malloc : alloc_fun) (m : lmem) (elem elem_len : Z) : option (Z * lmem) :=
  let len := (sizeof_list_node_t + elem_len + 2 ^ 31) mod U4_MOD - 2 ^ 31 in
  match malloc m (u8 len) with
  | None => Some (0, m)
  | Some (node, b) =>
      if blen b <? sizeof_list_node_t then None
      else
        let data := drop 16 b in
        if elem =? 0 then Some (node, <[node := mk_node node node data]> m)
        else if u4 elem_len =? 0 then Some (node, <[node := mk_node node node data]> m)
        else src ← get_data m (list_node elem); x ← rd src 0 (u4 elem_len); data ← wr data 0 x;
             Some (node, <[node := mk_node node node data]> m)
  end.

(** [free]: nil is allowed. *)
Definition list_node_dealloc (m : lmem) (node : Z) : option lmem :=
  if node =? 0 then Some m else _ ← m !! node; Some (delete node m).

Definition list_elem_dealloc (m : lmem) (elem : Z) : option lmem := list_node_dealloc m (list_node elem).

Definition list_check_magic (m : lmem) (elem : Z) : option Z :=
  nd ← m !! list_node elem;
  Some (if (n_prev nd =? PREV_MAGIC) && (n_next nd =? NEXT_MAGIC) then 0 else -1).

(** [None] for a nil [list_pptr]. *)
Definition list_init (malloc : alloc_fun) (m : lmem) (list_pptr : option Z) : option (Z * lmem * option Z) :=
  match list_pptr with
  | None => Some (-1, m, None)
  | Some old =>
      '(list, m) ← list_node_alloc malloc m 0 sizeof_uw;
      if list =? 0 then Some (-2, m, Some old)
      else m ← set_prev m list list; m ← set_next m list list; Some (0, m, Some (list_elem list))
  end.

(** The node of an element to insert: the element's own when it was erased but
    not freed, a copy otherwise. *)
Definition take_node (malloc : alloc_fun) (m : lmem) (elem elem_len : Z) : option (Z * Z * lmem) :=
  ret ← list_check_magic m elem;
  if ret =? 0 then Some (0, list_node elem, m)
  else '(node, m) ← list_node_alloc malloc m elem elem_len; Some (-1, node, m).

(** The node goes between the current one and its neighbour. *)
Definition link_before (m : lmem) (cur_node node : Z) : option lmem :=
  prev_node ← get_prev m cur_node;
  m ← set_next m node cur_node; m ← set_prev m node prev_node;
  m ← set_next m prev_node node; set_prev m cur_node node.

Definition link_after (m : lmem) (cur_node node : Z) : option lmem :=
  next_node ← get_next m cur_node;
  m ← set_next m node next_node; m ← set_prev m node cur_node;
  m ← set_prev m next_node node; set_next m cur_node node.

Definition list_insert_front (malloc : alloc_fun) (m : lmem) (cur elem elem_len : Z) : option (Z * lmem) :=
  if (cur =? 0) || (elem =? 0) || (elem_len <=? 0) then Some (0, m)
  else
    '(flag, node, m) ← take_node malloc m elem elem_len;
    if node =? 0 then Some (0, m)
    else
      let cur_node := list_node cur in
      if cur_node =? 0 then
        m ← (if flag =? 0 then list_node_dealloc m node else Some m); Some (0, m)
      else
        m ← link_before m cur_node node; Some (list_elem node, m).

Definition list_insert_back (malloc : alloc_fun) (m : lmem) (cur elem elem_len : Z) : option (Z * lmem) :=
  if (cur =? 0) || (elem =? 0) || (elem_len =? 0) then Some (0, m)
  else
    '(flag, node, m) ← take_node malloc m elem elem_len;
    if node =? 0 then Some (0, m)
    else
      let cur_node := list_node cur in
      if cur_node =? 0 then
        m ← (if flag =? 0 then list_node_dealloc m node else Some m); Some (0, m)
      else
        m ← link_after m cur_node node; Some (list_elem node, m).

(** Taking the source node out of its list. *)
Definition cut (m : lmem) (src_node : Z) : option lmem :=
  p ← get_prev m src_node; n ← get_next m src_node; m ← set_next m p n;
  n ← get_next m src_node; p ← get_prev m src_node; m ← set_prev m n p;
  m ← set_prev m src_node 0; set_next m src_node 0.

Definition list_move_front (m : lmem) (dst_elem src_elem : Z) : option (Z * lmem) :=
  if (src_elem =? 0) || (dst_elem =? 0) then Some (-1, m)
  else
    let src_node := list_node src_elem in
    let dst_node := list_node dst_elem in
    if (src_node =? 0) || (dst_node =? 0) then Some (-1, m)
    else
      m ← cut m src_node;
      m ← set_next m src_node dst_node;
      p ← get_prev m dst_node; m ← set_prev m src_node p;
      p ← get_prev m dst_node; m ← set_next m p src_node;
      m ← set_prev m dst_node src_node; Some (0, m).

Definition list_move_back (m : lmem) (dst_elem src_elem : Z) : option (Z * lmem) :=
  if (src_elem =? 0) || (dst_elem =? 0) then Some (-1, m)
  else
    let src_node := list_node src_elem in
    let dst_node := list_node dst_elem in
    m ← cut m src_node;
    n ← get_next m dst_node; m ← set_next m src_node n;
    m ← set_prev m src_node dst_node;
    n ← get_next m dst_node; m ← set_prev m n src_node;
    m ← set_next m dst_node src_node; Some (0, m).

(** [RET_PTR] tests its argument before it returns it, and so evaluates it twice. *)
Definition list_push_front (malloc : alloc_fun) (m : lmem) (list elem elem_len : Z) : option (Z * lmem) :=
  '(_, m) ← list_insert_back malloc m list elem elem_len; list_insert_back malloc m list elem elem_len.

Definition list_push_back (malloc : alloc_fun) (m : lmem) (list elem elem_len : Z) : option (Z * lmem) :=
  '(_, m) ← list_insert_front malloc m list elem elem_len; list_insert_front malloc m list elem elem_len.

Definition ELIST_ERASE_PART : Z := 1.
Definition ELIST_ERASE_FULL : Z := 2.

Definition list_erase (m : lmem) (list elem flag : Z) : option (Z * lmem) :=
  if elem =? 0 then Some (0, m)
  else
    let node := list_node elem in
    if node =? 0 then Some (0, m)
    else if list =? elem then m ← list_node_dealloc m node; Some (0, m)
    else
      ret ← list_check_magic m elem;
      '(pret, m) ←
        (if negb (ret =? 0) then
           prev ← get_prev m node; next ← get_next m node;
           '(pret, m) ← (if negb (prev =? 0) then m ← set_next m prev next; Some (list_elem prev, m)
                         else Some (0, m));
           m ← (if negb (next =? 0) then set_prev m next prev else Some m);
           m ← set_next m node NEXT_MAGIC; m ← set_prev m node PREV_MAGIC; Some (pret, m)
         else Some (0, m));
      m ← (if flag =? ELIST_ERASE_FULL then list_elem_dealloc m elem else Some m);
      Some (pret, m).

(** The loops below take as fuel a bound on the rounds. *)
Fixpoint clear_loop (fuel : nat) (m : lmem) (head node : Z) : option lmem :=
  match fuel with
  | O => None
  | S n =>
      if negb (node =? 0) && negb (head =? node) then
        '(prev, m) ← list_erase m head node ELIST_ERASE_FULL;
        node ← list_next_elem m prev; clear_loop n m head node
      else Some m
  end.

Definition list_clear (fuel : nat) (m : lmem) (list : Z) : option lmem :=
  if list =? 0 then Some m else node ← list_next_elem m list; clear_loop fuel m list node.

(** [None] for a nil [list]. *)
Definition list_uninit (fuel : nat) (m : lmem) (list : option Z) : option (lmem * option Z) :=
  match list with
  | None => Some (m, None)
  | Some head =>
      if head =? 0 then Some (m, Some head)
      else m ← list_clear fuel m head; '(_, m) ← list_erase m head head ELIST_ERASE_FULL; Some (m, Some 0)
  end.

Fixpoint size_loop (fuel : nat) (m : lmem) (list node size : Z) : option Z :=
  match fuel with
  | O => None
  | S n =>
      if negb (node =? 0) && negb (node =? list) then
        size ← chk_n4 (size + 1); node ← list_next_elem m node; size_loop n m list node size
      else Some size
  end.

Definition list_size (fuel : nat) (m : lmem) (list : Z) : option Z :=
  if list =? 0 then Some 0
  else if list_node list =? 0 then Some 0
  else node ← list_next_elem m list;
       if node =? list then Some 0 else size_loop fuel m list node 0.

(** The element [i] places after [elem]. *)
Fixpoint nth_elem (m : lmem) (elem : Z) (i : nat) : option Z :=
  match i with O => Some elem | S i => e ← list_next_elem m elem; nth_elem m e i end.

(** ** Memory seen field by field *)

Lemma lmem_ext (m m' : lmem) a :
  get_prev m' a = get_prev m a -> get_next m' a = get_next m a -> get_data m' a = get_data m a ->
  m' !! a = m !! a.
Proof.
  unfold get_prev, get_next, get_data. destruct (m !! a) as [[p n d]|], (m' !! a) as [[p' n' d']|]; cbn; congruence.
Qed.

Definition live (m : lmem) (a : Z) : Prop := is_Some (get_data m a).

Lemma set_next_spec m a v :
  live m a -> exists m', set_next m a v = Some m' /\
    (forall b, get_next m' b = if decide (b = a) then Some v else get_next m b) /\
    (forall b, get_prev m' b = get_prev m b) /\ (forall b, get_data m' b = get_data m b).
Proof.
  unfold live, set_next, get_data, get_prev, get_next. destruct (m !! a) as [nd|] eqn:E; [|by intros []]. intros _.
  cbn [mbind option_bind]. eexists. split; [done|]. repeat split; intros b;
    rewrite lookup_insert; repeat case_decide; subst; rewrite ?E; congruence || done.
Qed.

Lemma set_prev_spec m a v :
  live m a -> exists m', set_prev m a v = Some m' /\
    (forall b, get_prev m' b = if decide (b = a) then Some v else get_prev m b) /\
    (forall b, get_next m' b = get_next m b) /\ (forall b, get_data m' b = get_data m b).
Proof.
  unfold live, set_prev, get_data, get_prev, get_next. destruct (m !! a) as [nd|] eqn:E; [|by intros []]. intros _.
  cbn [mbind option_bind]. eexists. split; [done|]. repeat split; intros b;
    rewrite lookup_insert; repeat case_decide; subst; rewrite ?E; congruence || done.
Qed.

Lemma live_next m a : live m a <-> is_Some (get_next m a).
Proof. unfold live, get_data, get_next. by rewrite !fmap_is_Some. Qed.
Lemma live_prev m a : live m a <-> is_Some (get_prev m a).
Proof. unfold live, get_data, get_prev. by rewrite !fmap_is_Some. Qed.

(** ** Chains of nodes *)

Fixpoint linked (m : lmem) (l : list Z) : Prop :=
  match l with
  | a :: ((b :: _) as l') => get_next m a = Some b /\ get_prev m b = Some a /\ linked m l'
  | _ => True
  end.

Lemma linked_app m l l' :
  linked m (l ++ l') <-> linked m l /\ linked m l' /\
    (forall c n, last l = Some c -> head l' = Some n -> get_next m c = Some n /\ get_prev m n = Some c).
Proof.
  induction l as [|a l IH]; [cbn; split; [by intros|by intros (_ & H & _)]|]. destruct l as [|b l].
  - cbn. destruct l' as [|n l']; cbn; split.
    + intros _. split; [done|]. split; [done|]. by intros.
    + done.
    + intros (H1 & H2 & H3). split; [done|]. split; [done|]. by intros c d [= <-] [= <-].
    + intros (_ & H & Hj). destruct (Hj a n); done.
  - cbn [linked app] in *. rewrite IH. cbn [last]. split.
    + by intros (H1 & H2 & H3 & H4 & H5).
    + by intros ((H1 & H2 & H3) & H4 & H5).
Qed.

Lemma linked_frame m m' l :
  (forall a, a ∈ removelast l -> get_next m' a = get_next m a) ->
  (forall a, a ∈ tail l -> get_prev m' a = get_prev m a) -> linked m l -> linked m' l.
Proof.
  induction l as [|a [|b l] IH]; [done..|]. intros Hn Hp (H1 & H2 & H3). cbn [linked].
  rewrite Hn, Hp by (cbn; by left). split; [done|]. split; [done|]. apply IH; [| |done].
  - intros c Hc. apply Hn. cbn. by right.
  - intros c Hc. apply Hp. cbn in *. by right.
Qed.

Lemma removelast_elem {A} (l : list A) x : x ∈ removelast l -> x ∈ l.
Proof.
  induction l as [|a [|b l] IH]; [by intros ?%elem_of_nil..|]. cbn [removelast]. intros [->|H]%elem_of_cons; [by left|].
  right. by apply IH.
Qed.

Lemma removelast_last_ne {A} (l : list A) c x : NoDup l -> last l = Some c -> x ∈ removelast l -> x <> c.
Proof.
  induction l as [|a [|b l] IH]; [by intros _ _ ?%elem_of_nil..|]. intros [Ha Hn]%NoDup_cons Hl. cbn [removelast].
  intros [->|H]%elem_of_cons; [|by apply IH]. intros ->. apply Ha.
  apply last_Some in Hl as [l' Hl]. cbn in Hl. destruct l'; cbn in Hl; [done|]. injection Hl as _ ->.
  apply elem_of_app. right. by left.
Qed.

(** The head [h] and the nodes [l] in a circle. *)
Definition ring (m : lmem) (h : Z) (l : list Z) : Prop := NoDup (h :: l) /\ linked m (h :: l ++ [h]).

Lemma last_in {A} (l : list A) c : last l = Some c -> c ∈ l.
Proof. intros [l' ->]%last_Some. apply elem_of_app. right. by left. Qed.
Lemma head_in {A} (l : list A) c : head l = Some c -> c ∈ l.
Proof. destruct l; [done|]. intros [= ->]. by left. Qed.

(** The parts of a ring around a place in it. *)
Lemma ring_split m h a1 a2 :
  ring m h (a1 ++ a2) ->
  NoDup (h :: a1) /\ NoDup (a2 ++ [h]) /\ (forall b, b ∈ h :: a1 -> b ∉ a2) /\
  linked m (h :: a1) /\ linked m (a2 ++ [h]) /\
  (forall c n, last (h :: a1) = Some c -> head (a2 ++ [h]) = Some n ->
     get_next m c = Some n /\ get_prev m n = Some c).
Proof.
  intros [Hnd Hl]. rewrite <- app_assoc, app_comm_cons in Hl. apply linked_app in Hl as (Hl1 & Hl2 & Hj).
  change (h :: a1 ++ a2) with ((h :: a1) ++ a2) in Hnd. apply NoDup_app in Hnd as (H1 & H2 & H3).
  split; [done|]. split; [|done].
  apply NoDup_app. split; [done|]. split; [|apply NoDup_singleton].
  intros y Hy Hh%list_elem_of_singleton. subst y. by apply (H2 h); [left|].
Qed.

(** Inserting [x] between two neighbours [c] and [n]. *)
Lemma link_ring m m' h a1 a2 c n x :
  ring m h (a1 ++ a2) -> last (h :: a1) = Some c -> head (a2 ++ [h]) = Some n -> x ∉ h :: a1 ++ a2 ->
  (forall b, get_next m' b = if decide (b = c) then Some x else if decide (b = x) then Some n else get_next m b) ->
  (forall b, get_prev m' b = if decide (b = n) then Some x else if decide (b = x) then Some c else get_prev m b) ->
  ring m' h (a1 ++ x :: a2).
Proof.
  intros Hr Hc Hn Hx Hnext Hprev. pose proof (ring_split _ _ _ _ Hr) as (Hn1 & Hn2 & Hdis & Hl1 & Hl2 & _).
  destruct Hr as [Hnd _].
  split.
  { change (NoDup ((h :: a1) ++ x :: a2)). rewrite <- Permutation_middle. apply NoDup_cons. by split. }
  replace (h :: (a1 ++ x :: a2) ++ [h]) with ((h :: a1) ++ [x] ++ (a2 ++ [h])) by (cbn; by rewrite <- app_assoc).
  pose proof (last_in _ _ Hc) as Hcin. pose proof (head_in _ _ Hn) as Hnin.
  rewrite !not_elem_of_cons, not_elem_of_app in Hx. destruct Hx as (Hxh & Hx1 & Hx2).
  rewrite (linked_app m' (h :: a1)), (linked_app m' [x]). split; [|split; [split; [done|split]|]].
  - apply (linked_frame m); [..|done].
    + intros b Hb. rewrite Hnext. rewrite decide_False by (exact (removelast_last_ne _ _ _ Hn1 Hc Hb)).
      rewrite decide_False; [done|]. intros ->. apply removelast_elem in Hb.
      apply elem_of_cons in Hb as [?|?]; done.
    + cbn [tail]. intros b Hb. rewrite Hprev. rewrite decide_False, decide_False; [done|congruence|].
      intros ->. apply elem_of_app in Hnin as [?|Hh%list_elem_of_singleton]; [|subst n].
      * apply (Hdis n); [by right|done].
      * apply NoDup_cons in Hn1 as [? _]. done.
  - apply (linked_frame m); [..|done].
    + intros b Hb. rewrite removelast_last in Hb. rewrite Hnext, decide_False, decide_False; [done|congruence|].
      intros ->. by apply (Hdis c).
    + intros b Hb. destruct a2 as [|n' a2]; cbn in Hn, Hb, Hn2; [by apply elem_of_nil in Hb|].
      injection Hn as ->. rewrite Hprev. apply NoDup_cons in Hn2 as [Hn2 _].
      rewrite decide_False, decide_False; [done| |congruence]. intros ->.
      apply elem_of_app in Hb as [?|?%list_elem_of_singleton]; [apply Hx2; by right|done].
  - intros a b [= <-] Hb. rewrite Hn in Hb. injection Hb as <-. rewrite Hnext, Hprev.
    rewrite (decide_True (P := n = n)) by done. split; [|done]. rewrite decide_False; [by rewrite decide_True|].
    intros ->. apply elem_of_cons in Hcin as [?|?]; done.
  - intros a b Ha [= <-]. rewrite Hc in Ha. injection Ha as <-. rewrite Hnext, Hprev.
    rewrite (decide_True (P := c = c)) by done. split; [done|]. rewrite decide_False; [by rewrite decide_True|].
    intros ->. apply elem_of_app in Hnin as [?|?%list_elem_of_singleton]; done.
Qed.

Lemma unlink_ring m m' h a1 a2 c n x :
  ring m h (a1 ++ x :: a2) -> last (h :: a1) = Some c -> head (a2 ++ [h]) = Some n ->
  (forall b, b <> x -> get_next m' b = if decide (b = c) then Some n else get_next m b) ->
  (forall b, b <> x -> get_prev m' b = if decide (b = n) then Some c else get_prev m b) ->
  ring m' h (a1 ++ a2).
Proof.
  intros Hr Hc Hn Hnext Hprev. pose proof (ring_split _ _ _ _ Hr) as (Hn1 & Hn2 & Hdis & Hl1 & Hl2 & _).
  assert (Hr' := Hr). replace (a1 ++ x :: a2) with ((a1 ++ [x]) ++ a2) in Hr' by (by rewrite <- app_assoc).
  apply ring_split in Hr' as (Hn3 & Hn4 & Hdis' & _ & Hl4 & _).
  assert (Hx1 : x ∉ h :: a1) by (intros Hx; apply (Hdis x Hx); by left).
  assert (Hx2 : x ∉ a2 ++ [h]) by (cbn in Hn2; by apply NoDup_cons in Hn2 as [? _]).
  pose proof (last_in _ _ Hc) as Hcin. pose proof (head_in _ _ Hn) as Hnin.
  destruct Hr as [Hnd _]. split.
  { change (NoDup ((h :: a1) ++ a2)). change (NoDup ((h :: a1) ++ x :: a2)) in Hnd.
    rewrite <- Permutation_middle in Hnd. by apply NoDup_cons in Hnd as [_ ?]. }
  rewrite <- app_assoc, app_comm_cons, (linked_app m' (h :: a1)). split; [|split].
  - apply (linked_frame m); [..|done].
    + intros b Hb. rewrite Hnext, decide_False; [done|exact (removelast_last_ne _ _ _ Hn1 Hc Hb)|].
      intros ->. by apply removelast_elem in Hb.
    + cbn [tail]. intros b Hb. rewrite Hprev, decide_False; [done| |intros ->; apply Hx1; by right].
      intros ->. apply elem_of_app in Hnin as [?|Hh%list_elem_of_singleton].
      * apply (Hdis' n); [right; apply elem_of_app; by left|done].
      * subst n. by apply NoDup_cons in Hn1 as [? _].
  - apply (linked_frame m); [..|done].
    + intros b Hb. rewrite removelast_last in Hb. rewrite Hnext, decide_False; [done| |].
      * intros ->. apply (Hdis c Hcin). by right.
      * intros ->. apply Hx2, elem_of_app. by left.
    + intros b Hb. destruct a2 as [|n' a2]; cbn in Hn, Hb, Hn4; [by apply elem_of_nil in Hb|].
      injection Hn as ->. rewrite Hprev, decide_False; [done| |].
      * intros ->. by apply NoDup_cons in Hn4 as [? _].
      * intros ->. apply Hx2. cbn. by right.
  - intros a b Ha Hb. rewrite Hc in Ha. injection Ha as <-. rewrite Hn in Hb. injection Hb as <-.
    rewrite Hnext, Hprev, !decide_True; [done|done|done|congruence|congruence].
Qed.

Lemma ring_frame m m' h l :
  (forall b, b ∈ h :: l -> get_next m' b = get_next m b /\ get_prev m' b = get_prev m b) ->
  ring m h l -> ring m' h l.
Proof.
  intros Hf [Hnd Hl]. split; [done|]. apply (linked_frame m); [..|done].
  - intros b Hb. apply Hf. change (h :: l ++ [h]) with ((h :: l) ++ [h]) in Hb. by rewrite removelast_last in Hb.
  - cbn [tail]. intros b Hb. apply Hf. apply elem_of_app in Hb as [?|?%list_elem_of_singleton]; [by right|].
    subst. by left.
Qed.

(** ** What a list holds *)

Record list_rep (m : lmem) (h : Z) (xs : list (Z * bytes)) : Prop := {
  lr_ring : ring m h (fst <$> xs);
  lr_data : forall a d, (a, d) ∈ xs -> get_data m a = Some d;
  lr_head : live m h;
  lr_addr : Forall (fun a => 0 < a < 2 ^ 47) (h :: (fst <$> xs));
}.

(** The allocator gives fresh user-space addresses. *)
Definition alloc_ok (malloc : alloc_fun) : Prop :=
  forall m n a b, 0 <= n -> malloc m n = Some (a, b) -> blen b = n /\ m !! a = None /\ 0 < a < 2 ^ 47.

(** Nothing but the nodes of [l] changes from [m] to [m']. *)
Definition same_off (l : list Z) (m m' : lmem) : Prop := forall b, b ∉ l -> m' !! b = m !! b.

Lemma lr_live m h xs a : list_rep m h xs -> a ∈ h :: (fst <$> xs) -> live m a.
Proof.
  intros H [->|Hx]%elem_of_cons; [by apply H|]. apply list_elem_of_fmap in Hx as ([b d] & -> & Hx).
  unfold live. cbn [fst]. by rewrite (lr_data _ _ _ H b d Hx).
Qed.

Lemma lr_pos m h xs a : list_rep m h xs -> a ∈ h :: (fst <$> xs) -> 0 < a < 2 ^ 47.
Proof. intros H. pose proof (lr_addr _ _ _ H) as Ha. rewrite Forall_forall in Ha. apply Ha. Qed.

(** Runs the next write of a link field, and reads the views of the memory it leaves. *)
Ltac set_step :=
  let side := (unfold live in *; repeat match goal with
    | H : forall b, get_data ?m b = _ |- context [get_data ?m _] => rewrite H end; assumption || done) in
  match goal with
  | |- context [set_next ?m ?a ?v] =>
      let m' := fresh "m" in let E := fresh "E" in
      destruct (set_next_spec m a v) as (m' & E & ? & ? & ?); [side|rewrite E; clear E; cbn [mbind option_bind]]
  | |- context [set_prev ?m ?a ?v] =>
      let m' := fresh "m" in let E := fresh "E" in
      destruct (set_prev_spec m a v) as (m' & E & ? & ? & ?); [side|rewrite E; clear E; cbn [mbind option_bind]]
  end.

Ltac views :=
  repeat match goal with
  | H : forall b, get_next ?m b = _ |- context [get_next ?m _] => rewrite H
  | H : forall b, get_prev ?m b = _ |- context [get_prev ?m _] => rewrite H
  | H : forall b, get_data ?m b = _ |- context [get_data ?m _] => rewrite H
  end.

Definition linked_in (m m' : lmem) (c x n : Z) : Prop :=
  (forall b, get_next m' b = if decide (b = c) then Some x else if decide (b = x) then Some n else get_next m b) /\
  (forall b, get_prev m' b = if decide (b = n) then Some x else if decide (b = x) then Some c else get_prev m b) /\
  (forall b, get_data m' b = get_data m b).

Lemma link_before_spec m c x n :
  live m c -> live m x -> live m n -> get_prev m n = Some c ->
  exists m', link_before m n x = Some m' /\ linked_in m m' c x n.
Proof.
  intros Hc Hx Hn Hp. unfold link_before. rewrite Hp. cbn [mbind option_bind]. do 3 set_step.
  match goal with |- context [set_prev ?m n x] => destruct (set_prev_spec m n x) as (m' & -> & ? & ? & ?) end.
  { unfold live in *. views. done. }
  exists m'. split; [done|]. split; [|split]; intros b; views; done.
Qed.

Lemma link_after_spec m c x n :
  live m c -> live m x -> live m n -> get_next m c = Some n ->
  exists m', link_after m c x = Some m' /\ linked_in m m' c x n.
Proof.
  intros Hc Hx Hn Hp. unfold link_after. rewrite Hp. cbn [mbind option_bind]. do 3 set_step.
  match goal with |- context [set_next ?m c x] => destruct (set_next_spec m c x) as (m' & -> & ? & ? & ?) end.
  { unfold live in *. views. done. }
  exists m'. split; [done|]. split; [|split]; intros b; views; done.
Qed.

(** A node linked in is in the list, and no other node changes. *)
Lemma linked_in_rep m m' h x1 x2 c n x d :
  list_rep m h (x1 ++ x2) -> last (h :: (fst <$> x1)) = Some c -> head ((fst <$> x2) ++ [h]) = Some n ->
  x ∉ h :: (fst <$> x1 ++ x2) -> get_data m x = Some d -> 0 < x < 2 ^ 47 -> linked_in m m' c x n ->
  list_rep m' h (x1 ++ (x, d) :: x2) /\ same_off (h :: (fst <$> x1 ++ (x, d) :: x2)) m m'.
Proof.
  intros Hr Hc Hn Hx Hd Ha (Hv1 & Hv2 & Hv3). rewrite fmap_app in Hx.
  assert (Hin : forall b, b ∈ h :: (fst <$> x1 ++ (x, d) :: x2) <-> b = x \/ b ∈ h :: (fst <$> x1 ++ x2)).
  { intros b. rewrite !fmap_app. cbn. rewrite !elem_of_cons, !elem_of_app, elem_of_cons. naive_solver. }
  split.
  - constructor.
    + rewrite fmap_app. cbn. pose proof (lr_ring _ _ _ Hr) as Hring. rewrite fmap_app in Hring.
      by apply (link_ring m _ _ _ _ c n).
    + intros a e He. rewrite Hv3. rewrite elem_of_app, elem_of_cons in He.
      destruct He as [He|[[= -> ->]|He]]; [|done|]; apply (lr_data _ _ _ Hr), elem_of_app; auto.
    + unfold live. rewrite Hv3. apply Hr.
    + apply Forall_forall. intros b Hb. apply Hin in Hb as [->|Hb]; [done|]. by apply (lr_pos _ _ _ _ Hr).
  - intros b Hb. rewrite Hin in Hb.
    assert (c ∈ h :: (fst <$> x1 ++ x2)).
    { apply last_in in Hc. rewrite fmap_app. set_solver. }
    assert (n ∈ h :: (fst <$> x1 ++ x2)).
    { apply head_in in Hn. rewrite fmap_app. set_solver. }
    apply lmem_ext; rewrite ?Hv1, ?Hv2, ?Hv3; try done; rewrite !decide_False; naive_solver.
Qed.

(** The neighbours at a place of the list. *)
Lemma rep_neighbours m h x1 x2 c n :
  list_rep m h (x1 ++ x2) -> last (h :: (fst <$> x1)) = Some c -> head ((fst <$> x2) ++ [h]) = Some n ->
  get_next m c = Some n /\ get_prev m n = Some c /\ live m c /\ live m n /\ 0 < c /\ 0 < n.
Proof.
  intros Hr Hc Hn. pose proof (lr_ring _ _ _ Hr) as Hring. rewrite fmap_app in Hring.
  apply ring_split in Hring as (_ & _ & _ & _ & _ & Hj). destruct (Hj c n Hc Hn) as [H1 H2].
  assert (c ∈ h :: (fst <$> x1 ++ x2)) as Hci.
  { apply last_in in Hc. rewrite fmap_app, app_comm_cons. apply elem_of_app. by left. }
  assert (n ∈ h :: (fst <$> x1 ++ x2)) as Hni.
  { apply head_in in Hn. rewrite fmap_app, elem_of_cons, elem_of_app.
    apply elem_of_app in Hn as [?|?%list_elem_of_singleton]; auto. }
  split; [done|]. split; [done|].
  split; [by apply (lr_live _ _ _ _ Hr)|]. split; [by apply (lr_live _ _ _ _ Hr)|].
  pose proof (lr_pos _ _ _ _ Hr Hci). pose proof (lr_pos _ _ _ _ Hr Hni). lia.
Qed.

Lemma last_or {A} (h : A) l : exists c, last (h :: l) = Some c.
Proof. destruct (last (h :: l)) as [c|] eqn:E; [by exists c|]. by apply last_None in E. Qed.
Lemma head_or {A} (h : A) l : exists n, head (l ++ [h]) = Some n.
Proof. destruct l; cbn; eauto. Qed.

(** A client's buffer: an element that is not one the list has erased. *)
Definition buffer (m : lmem) (elem elem_len : Z) (d : bytes) : Prop :=
  0 < elem /\ 0 < elem_len < 2 ^ 31 - 16 /\
  exists nd, m !! list_node elem = Some nd /\ rd (n_data nd) 0 elem_len = Some d /\
    ~ (n_prev nd = PREV_MAGIC /\ n_next nd = NEXT_MAGIC).

Lemma node_len len : 0 < len < 2 ^ 31 - 16 ->
  u8 ((sizeof_list_node_t + len + 2 ^ 31) mod U4_MOD - 2 ^ 31) = 16 + len.
Proof.
  intros H. unfold sizeof_list_node_t. rewrite Z.mod_small by (unfold U4_MOD; lia).
  rewrite u8_id by (unfold is_u8, U8_MOD; lia). lia.
Qed.

Lemma node_alloc_spec malloc m elem len d :
  alloc_ok malloc -> buffer m elem len d ->
  (malloc m (16 + len) = None /\ list_node_alloc malloc m elem len = Some (0, m)) \/
  exists a, list_node_alloc malloc m elem len = Some (a, <[a := mk_node a a d]> m) /\
    m !! a = None /\ 0 < a < 2 ^ 47.
Proof.
  intros Hm (He & Hl & nd & Hnd & Hrd & _). unfold list_node_alloc. rewrite node_len by done.
  destruct (malloc m (16 + len)) as [[a b]|] eqn:Ea; [right|left; done].
  destruct (Hm m (16 + len) a b ltac:(lia) Ea) as (Hb & Ha & Hr). exists a. split; [|done].
  unfold sizeof_list_node_t. rewrite (proj2 (Z.ltb_ge _ _)) by lia.
  rewrite u4_id by (unfold is_u4, U4_MOD; lia). rewrite !(proj2 (Z.eqb_neq _ _)) by lia.
  unfold get_data. rewrite Hnd. cbn. rewrite Hrd. cbn.
  assert (blen d = len) as Hd by (by eapply rd_blen).
  rewrite <- (app_nil_r (drop 16 b)), wr_head; [cbn; by rewrite app_nil_r|].
  unfold blen in *. rewrite length_drop. lia.
Qed.

Lemma take_fresh malloc m elem len d :
  alloc_ok malloc -> buffer m elem len d ->
  (malloc m (16 + len) = None /\ take_node malloc m elem len = Some (-1, 0, m)) \/
  exists a, take_node malloc m elem len = Some (-1, a, <[a := mk_node a a d]> m) /\
    m !! a = None /\ 0 < a < 2 ^ 47.
Proof.
  intros Hm Hb. pose proof Hb as (_ & _ & nd & Hnd & _ & Hmag). unfold take_node, list_check_magic.
  rewrite Hnd. cbn [mbind option_bind].
  assert ((n_prev nd =? PREV_MAGIC) && (n_next nd =? NEXT_MAGIC) = false) as ->.
  { apply andb_false_iff. rewrite !Z.eqb_neq. destruct (decide (n_prev nd = PREV_MAGIC)); [right|left]; tauto. }
  cbn. destruct (node_alloc_spec malloc m elem len d Hm Hb) as [[Hn ->]|(a & -> & Ha)]; [by left|].
  right. by exists a.
Qed.

(** A fresh node does not touch the list. *)
Lemma rep_fresh m h xs a nd : list_rep m h xs -> m !! a = None -> list_rep (<[a := nd]> m) h xs.
Proof.
  intros Hr Ha.
  assert (forall b, b ∈ h :: (fst <$> xs) -> <[a := nd]> m !! b = m !! b) as Hf.
  { intros b Hb. apply lookup_insert_ne. intros ->. pose proof (lr_live _ _ _ _ Hr Hb) as Hl.
    unfold live, get_data in Hl. rewrite Ha in Hl. by destruct Hl. }
  constructor.
  - apply (ring_frame m); [|apply Hr]. intros b Hb. unfold get_next, get_prev. by rewrite (Hf b Hb).
  - intros b d Hb. unfold get_data. rewrite Hf; [by apply Hr|]. right. apply list_elem_of_fmap. by exists (b, d).
  - unfold live, get_data. rewrite Hf by (by left). apply Hr.
  - apply Hr.
Qed.

Lemma rep_notin m h xs a : list_rep m h xs -> m !! a = None -> a ∉ h :: (fst <$> xs).
Proof.
  intros Hr Ha Hin. pose proof (lr_live _ _ _ _ Hr Hin) as Hl. unfold live, get_data in Hl. rewrite Ha in Hl.
  by destruct Hl.
Qed.

Lemma same_off_fresh l a nd m m' : a ∈ l -> same_off l (<[a := nd]> m) m' -> same_off l m m'.
Proof. intros Ha Hs b Hb. rewrite Hs, lookup_insert_ne by (done || congruence). done. Qed.

Lemma mid_in {A} (x1 x2 : list (Z * A)) (h a : Z) d : a ∈ h :: (fst <$> x1 ++ (a, d) :: x2).
Proof. right. rewrite fmap_app. apply elem_of_app. right. by left. Qed.

(** Inserting before the place [x2] starts at, or fails for want of memory. *)
Definition inserted (malloc : alloc_fun) (m : lmem) (h : Z) x1 x2 (len : Z) (d : bytes)
  (o : option (Z * lmem)) : Prop :=
  (malloc m (16 + len) = None /\ o = Some (0, m)) \/
  exists a m', o = Some (list_elem a, m') /\ list_rep m' h (x1 ++ (a, d) :: x2) /\ m !! a = None /\
    same_off (h :: (fst <$> x1 ++ (a, d) :: x2)) m m'.

Lemma insert_front_spec malloc m h x1 x2 n e len d :
  alloc_ok malloc -> list_rep m h (x1 ++ x2) -> head ((fst <$> x2) ++ [h]) = Some n -> buffer m e len d ->
  inserted malloc m h x1 x2 len d (list_insert_front malloc m (list_elem n) e len).
Proof.
  intros Hm Hr Hn Hb. destruct (last_or h (fst <$> x1)) as [c Hc].
  destruct (rep_neighbours m h x1 x2 c n Hr Hc Hn) as (_ & _ & _ & _ & _ & Hn0).
  unfold list_insert_front. pose proof Hb as (He & Hl & _).
  rewrite (proj2 (Z.eqb_neq (list_elem n) 0)) by (unfold list_elem, sizeof_list_node_t; lia).
  rewrite (proj2 (Z.eqb_neq e 0)), (proj2 (Z.leb_gt len 0)) by lia. cbn [orb].
  destruct (take_fresh malloc m e len d Hm Hb) as [[Hf ->]|(a & -> & Ha & Hra)]; [by left|right].
  cbn [mbind option_bind]. rewrite (proj2 (Z.eqb_neq a 0)) by lia.
  replace (list_node (list_elem n)) with n by (unfold list_node, list_elem; lia).
  rewrite (proj2 (Z.eqb_neq n 0)) by lia.
  pose proof (rep_fresh m h _ a (mk_node a a d) Hr Ha) as Hr'.
  destruct (rep_neighbours _ h x1 x2 c n Hr' Hc Hn) as (H1 & H2 & H3 & H4 & _).
  destruct (link_before_spec (<[a := mk_node a a d]> m) c a n) as (m' & -> & Hlk); [done| |done|done|].
  { unfold live, get_data. by rewrite lookup_insert_eq. }
  destruct (linked_in_rep _ m' h x1 x2 c n a d Hr' Hc Hn (rep_notin _ _ _ _ Hr Ha)) as [Hr2 Hs]; [|done|done|].
  { unfold get_data. by rewrite lookup_insert_eq. }
  exists a, m'. split; [done|]. split; [done|]. split; [done|].
  by apply (same_off_fresh _ a (mk_node a a d)); [apply mid_in|].
Qed.

Lemma insert_back_spec malloc m h x1 x2 c e len d :
  alloc_ok malloc -> list_rep m h (x1 ++ x2) -> last (h :: (fst <$> x1)) = Some c -> buffer m e len d ->
  inserted malloc m h x1 x2 len d (list_insert_back malloc m (list_elem c) e len).
Proof.
  intros Hm Hr Hc Hb. destruct (head_or h (fst <$> x2)) as [n Hn].
  destruct (rep_neighbours m h x1 x2 c n Hr Hc Hn) as (_ & _ & _ & _ & Hc0 & _).
  unfold list_insert_back. pose proof Hb as (He & Hl & _).
  rewrite (proj2 (Z.eqb_neq (list_elem c) 0)) by (unfold list_elem, sizeof_list_node_t; lia).
  rewrite (proj2 (Z.eqb_neq e 0)), (proj2 (Z.eqb_neq len 0)) by lia. cbn [orb].
  destruct (take_fresh malloc m e len d Hm Hb) as [[Hf ->]|(a & -> & Ha & Hra)]; [by left|right].
  cbn [mbind option_bind]. rewrite (proj2 (Z.eqb_neq a 0)) by lia.
  replace (list_node (list_elem c)) with c by (unfold list_node, list_elem; lia).
  rewrite (proj2 (Z.eqb_neq c 0)) by lia.
  pose proof (rep_fresh m h _ a (mk_node a a d) Hr Ha) as Hr'.
  destruct (rep_neighbours _ h x1 x2 c n Hr' Hc Hn) as (H1 & H2 & H3 & H4 & _).
  destruct (link_after_spec (<[a := mk_node a a d]> m) c a n) as (m' & -> & Hlk); [done| |done|done|].
  { unfold live, get_data. by rewrite lookup_insert_eq. }
  destruct (linked_in_rep _ m' h x1 x2 c n a d Hr' Hc Hn (rep_notin _ _ _ _ Hr Ha)) as [Hr2 Hs]; [|done|done|].
  { unfold get_data. by rewrite lookup_insert_eq. }
  exists a, m'. split; [done|]. split; [done|]. split; [done|].
  by apply (same_off_fresh _ a (mk_node a a d)); [apply mid_in|].
Qed.

(** ** Taking a node out *)

Definition unlinked (m m' : lmem) (c x n : Z) : Prop :=
  (forall b, b <> x -> get_next m' b = if decide (b = c) then Some n else get_next m b) /\
  (forall b, b <> x -> get_prev m' b = if decide (b = n) then Some c else get_prev m b) /\
  (forall b, b <> x -> get_data m' b = get_data m b).

(** The neighbours of a node of the list. *)
Lemma rep_around m h x1 x2 x d c n :
  list_rep m h (x1 ++ (x, d) :: x2) -> last (h :: (fst <$> x1)) = Some c -> head ((fst <$> x2) ++ [h]) = Some n ->
  get_prev m x = Some c /\ get_next m x = Some n /\ live m x /\ live m c /\ live m n /\ c <> x /\ n <> x /\
  0 < c /\ 0 < x /\ 0 < n.
Proof.
  intros Hr Hc Hn. pose proof (rep_neighbours m h x1 ((x, d) :: x2) c x Hr Hc eq_refl) as (_ & H1 & H2 & H3 & H4 & H5).
  assert (Hr' := Hr). replace (x1 ++ (x, d) :: x2) with ((x1 ++ [(x, d)]) ++ x2) in Hr' by (by rewrite <- app_assoc).
  assert (last (h :: (fst <$> x1 ++ [(x, d)])) = Some x) as Hl by (rewrite fmap_app; exact (last_snoc x (h :: (fst <$> x1)))).
  pose proof (rep_neighbours m h _ x2 x n Hr' Hl Hn) as (H6 & _ & _ & H7 & _ & H8).
  pose proof (lr_ring _ _ _ Hr) as Hg. rewrite fmap_app in Hg. cbn in Hg.
  apply ring_split in Hg as (_ & Hn2 & Hdis & _). cbn in Hn2. apply NoDup_cons in Hn2 as [Hx2 _].
  repeat split; try done.
  - intros ->. apply last_in in Hc. apply (Hdis x Hc). by left.
  - intros ->. by apply head_in in Hn.
Qed.

Lemma unlinked_rep m m' h x1 x2 c n x d :
  list_rep m h (x1 ++ (x, d) :: x2) -> last (h :: (fst <$> x1)) = Some c -> head ((fst <$> x2) ++ [h]) = Some n ->
  unlinked m m' c x n ->
  list_rep m' h (x1 ++ x2) /\ x ∉ h :: (fst <$> x1 ++ x2) /\
  same_off (h :: (fst <$> x1 ++ (x, d) :: x2)) m m'.
Proof.
  intros Hr Hc Hn (Hv1 & Hv2 & Hv3).
  assert (Hx : x ∉ h :: (fst <$> x1 ++ x2)).
  { destruct (lr_ring _ _ _ Hr) as [Hnd _]. rewrite fmap_app in Hnd. cbn in Hnd.
    rewrite <- Permutation_middle in Hnd. rewrite fmap_app. inversion Hnd as [|? ? Hh Hnd']; subst.
    apply NoDup_cons in Hnd' as [? _]. intros [->|?]%elem_of_cons; [|done]. apply Hh. by left. }
  assert (Hin : forall b, b ∈ h :: (fst <$> x1 ++ (x, d) :: x2) <-> b = x \/ b ∈ h :: (fst <$> x1 ++ x2)).
  { intros b. rewrite !fmap_app. cbn. rewrite !elem_of_cons, !elem_of_app, elem_of_cons. naive_solver. }
  pose proof (rep_around _ _ _ _ _ _ _ _ Hr Hc Hn) as (_ & _ & _ & Hlc & Hln & _).
  split; [constructor|split; [done|]].
  - pose proof (lr_ring _ _ _ Hr) as Hg. rewrite fmap_app in Hg |- *. by apply (unlink_ring m m' h _ _ c n x).
  - intros a e He. rewrite Hv3.
    + apply (lr_data _ _ _ Hr). rewrite elem_of_app, elem_of_cons. apply elem_of_app in He. naive_solver.
    + intros ->. apply Hx. right. apply list_elem_of_fmap. by exists (x, e).
  - unfold live. rewrite Hv3; [apply Hr|]. intros ->. apply Hx. by left.
  - apply Forall_forall. intros b Hb. apply (lr_pos _ _ _ _ Hr). apply Hin. by right.
  - intros b Hb. rewrite Hin in Hb.
    assert (c ∈ h :: (fst <$> x1 ++ x2)).
    { apply last_in in Hc. rewrite fmap_app, app_comm_cons. apply elem_of_app. by left. }
    assert (n ∈ h :: (fst <$> x1 ++ x2)).
    { apply head_in in Hn. rewrite fmap_app, elem_of_cons, elem_of_app.
      apply elem_of_app in Hn as [?|?%list_elem_of_singleton]; auto. }
    assert (b <> x) as Hbx by tauto. apply lmem_ext; rewrite ?Hv1, ?Hv2, ?Hv3; try done;
      rewrite decide_False; try done; intros ->; tauto.
Qed.

Lemma elem_node a : list_node (list_elem a) = a.
Proof. unfold list_node, list_elem. lia. Qed.
Lemma elem_pos a : 0 < a -> (list_elem a =? 0) = false /\ (a =? 0) = false.
Proof. intros H. unfold list_elem, sizeof_list_node_t. rewrite !Z.eqb_neq. lia. Qed.

(** What erasing leaves of the node: nothing, or the magic numbers. *)
Definition left_over (flag : Z) (d : bytes) : option list_node_t :=
  if flag =? ELIST_ERASE_FULL then None else Some (mk_node PREV_MAGIC NEXT_MAGIC d).

Lemma node_erase_spec m h x1 x2 x d c flag :
  list_rep m h (x1 ++ (x, d) :: x2) -> last (h :: (fst <$> x1)) = Some c ->
  exists m', list_erase m (list_elem h) (list_elem x) flag = Some (list_elem c, m') /\
    list_rep m' h (x1 ++ x2) /\ m' !! x = left_over flag d /\
    same_off (h :: (fst <$> x1 ++ (x, d) :: x2)) m m'.
Proof.
  intros Hr Hc. destruct (head_or h (fst <$> x2)) as [n Hn].
  pose proof (rep_around _ _ _ _ _ _ _ _ Hr Hc Hn) as (Hp & Hnx & Hlx & Hlc & Hln & Hcx & Hnnx & H1 & H2 & H3).
  unfold list_erase. rewrite !elem_node. destruct (elem_pos x H2) as [-> ->].
  assert (list_elem h =? list_elem x = false) as ->.
  { apply Z.eqb_neq. unfold list_elem. intros E. assert (x = h) as -> by lia.
    pose proof (lr_ring _ _ _ Hr) as [Hnd _]. rewrite fmap_app in Hnd. apply NoDup_cons in Hnd as [Hh _].
    apply Hh, elem_of_app. right. by left. }
  assert (list_check_magic m (list_elem x) = Some (-1)) as ->.
  { unfold list_check_magic. rewrite elem_node. unfold get_prev in Hp. destruct (m !! x) as [nd|] eqn:E; [|done].
    cbn in *. injection Hp as ->. rewrite (proj2 (Z.eqb_neq c PREV_MAGIC)); [done|].
    assert (c ∈ h :: (fst <$> x1 ++ (x, d) :: x2)) as Hci.
    { apply last_in in Hc. rewrite fmap_app, app_comm_cons. apply elem_of_app. by left. }
    pose proof (lr_pos _ _ _ _ Hr Hci). unfold PREV_MAGIC. lia. }
  cbn [mbind option_bind]. rewrite (proj2 (Z.eqb_neq (-1) 0)) by lia. cbn [negb]. rewrite Hp, Hnx. cbn [mbind option_bind].
  rewrite (proj2 (Z.eqb_neq c 0)), (proj2 (Z.eqb_neq n 0)) by lia. cbn [negb mbind option_bind].
  do 4 set_step.
  assert (forall m', (forall b, b <> x -> m' !! b = m3 !! b) -> unlinked m m' c x n) as Hun.
  { intros m' Hm'. unfold unlinked, get_next, get_prev, get_data in *. split; [|split]; intros b Hb;
      rewrite Hm' by done; repeat match goal with
        | H : forall b, ?f <$> m3 !! b = _ |- context [?f <$> m3 !! _] => rewrite H
        | H : forall b, ?f <$> m2 !! b = _ |- context [?f <$> m2 !! _] => rewrite H
        | H : forall b, ?f <$> m1 !! b = _ |- context [?f <$> m1 !! _] => rewrite H
        | H : forall b, ?f <$> m0 !! b = _ |- context [?f <$> m0 !! _] => rewrite H end;
      rewrite ?(decide_False (P := b = x)) by done; done. }
  assert (m3 !! x = Some (mk_node PREV_MAGIC NEXT_MAGIC d)) as Hmx.
  { assert (get_prev m3 x = Some PREV_MAGIC) as E1 by (views; by rewrite decide_True).
    assert (get_next m3 x = Some NEXT_MAGIC) as E2 by (views; by rewrite decide_True).
    assert (get_data m3 x = Some d) as E3.
    { views. apply (lr_data _ _ _ Hr), elem_of_app. right. by left. }
    unfold get_prev, get_next, get_data in E1, E2, E3. destruct (m3 !! x) as [[]|]; cbn in *; congruence. }
  unfold left_over. destruct (flag =? ELIST_ERASE_FULL).
  - unfold list_elem_dealloc, list_node_dealloc. rewrite elem_node, Hmx, (proj2 (Z.eqb_neq x 0)) by lia.
    cbn [mbind option_bind]. exists (delete x m3). split; [done|].
    destruct (unlinked_rep m (delete x m3) h x1 x2 c n x d Hr Hc Hn) as (Hr' & _ & Hs).
    { apply Hun. intros b Hb. by rewrite lookup_delete_ne. }
    split; [done|]. split; [apply lookup_delete_eq|done].
  - exists m3. split; [done|].
    destruct (unlinked_rep m m3 h x1 x2 c n x d Hr Hc Hn) as (Hr' & _ & Hs); [by apply Hun|]. done.
Qed.

Lemma cut_spec m h x1 x2 x d c n :
  list_rep m h (x1 ++ (x, d) :: x2) -> last (h :: (fst <$> x1)) = Some c -> head ((fst <$> x2) ++ [h]) = Some n ->
  exists m', cut m x = Some m' /\ unlinked m m' c x n /\ get_data m' x = Some d.
Proof.
  intros Hr Hc Hn.
  pose proof (rep_around _ _ _ _ _ _ _ _ Hr Hc Hn) as (Hp & Hnx & Hlx & Hlc & Hln & Hcx & Hnnx & _).
  unfold cut. rewrite Hp, Hnx. cbn [mbind option_bind]. set_step. views. rewrite decide_False, Hnx, Hp by done.
  cbn [mbind option_bind]. do 2 set_step.
  match goal with |- context [set_next ?m x 0] => destruct (set_next_spec m x 0) as (m' & -> & ? & ? & ?) end.
  { unfold live in *. views. done. }
  exists m'. split; [done|]. split.
  - split; [|split]; intros b Hb; views; rewrite ?(decide_False (P := b = x)) by done; done.
  - views. apply (lr_data _ _ _ Hr), elem_of_app. right. by left.
Qed.

(** ** Moving a node *)

Lemma ne_list (l : list Z) a x : a ∈ l -> x ∉ l -> a <> x.
Proof. by intros Ha Hx ->. Qed.

Lemma last_fst_in {A} (x1 x2 : list (Z * A)) h c : last (h :: (fst <$> x1)) = Some c -> c ∈ h :: (fst <$> x1 ++ x2).
Proof. intros Hc%last_in. rewrite fmap_app, app_comm_cons. apply elem_of_app. by left. Qed.
Lemma head_fst_in {A} (x1 x2 : list (Z * A)) h n :
  head ((fst <$> x2) ++ [h]) = Some n -> n ∈ h :: (fst <$> x1 ++ x2).
Proof.
  intros Hn%head_in. rewrite fmap_app, elem_of_cons, elem_of_app.
  apply elem_of_app in Hn as [?|?%list_elem_of_singleton]; auto.
Qed.

Section Move.
Context (m : lmem) (h x : Z) (y1 y2 : list (Z * bytes)) (c n : Z) (d : bytes).
Context (Hr : list_rep m h (y1 ++ y2)) (Hx : x ∉ h :: (fst <$> y1 ++ y2)).
Context (Hd : get_data m x = Some d) (Ha : 0 < x < 2 ^ 47).
Context (Hc : last (h :: (fst <$> y1)) = Some c) (Hn : head ((fst <$> y2) ++ [h]) = Some n).

Definition moved (o : option (Z * lmem)) : Prop :=
  exists m', o = Some (0, m') /\ list_rep m' h (y1 ++ (x, d) :: y2) /\
    same_off (h :: (fst <$> y1 ++ (x, d) :: y2)) m m'.

Lemma live_x : live m x.
Proof. unfold live. by rewrite Hd. Qed.

Lemma move_before_links :
  moved (m ← set_next m x n; p ← get_prev m n; m ← set_prev m x p;
         p ← get_prev m n; m ← set_next m p x; m ← set_prev m n x; Some (0, m)).
Proof.
  pose proof live_x. destruct (rep_neighbours m h y1 y2 c n Hr Hc Hn) as (Hcn & Hnc & Hlc & Hln & _).
  pose proof (ne_list _ _ _ (head_fst_in y1 y2 h n Hn) Hx) as Hne. set_step.
  views. rewrite Hnc. cbn [mbind option_bind]. set_step. views. rewrite decide_False, Hnc by done.
  cbn [mbind option_bind]. do 2 set_step. eexists. split; [done|].
  apply (linked_in_rep m _ h y1 y2 c n x d); [done..|]. split; [|split]; intros b; views; done.
Qed.

Lemma move_after_links :
  moved (n ← get_next m c; m ← set_next m x n; m ← set_prev m x c;
         n ← get_next m c; m ← set_prev m n x; m ← set_next m c x; Some (0, m)).
Proof.
  pose proof live_x. destruct (rep_neighbours m h y1 y2 c n Hr Hc Hn) as (Hcn & Hnc & Hlc & Hln & _).
  pose proof (ne_list _ _ _ (last_fst_in y1 y2 h c Hc) Hx) as Hne. rewrite Hcn. cbn [mbind option_bind].
  do 2 set_step. views. rewrite decide_False, Hcn by done. cbn [mbind option_bind]. do 2 set_step.
  eexists. split; [done|].
  apply (linked_in_rep m _ h y1 y2 c n x d); [done..|]. split; [|split]; intros b; views; done.
Qed.
End Move.

(** Cutting leaves the rest of the list, and the node with its element. *)
Lemma cut_rep m h x1 x2 x d :
  list_rep m h (x1 ++ (x, d) :: x2) ->
  exists m', cut m x = Some m' /\ list_rep m' h (x1 ++ x2) /\ x ∉ h :: (fst <$> x1 ++ x2) /\
    get_data m' x = Some d /\ 0 < x < 2 ^ 47 /\ same_off (h :: (fst <$> x1 ++ (x, d) :: x2)) m m'.
Proof.
  intros Hr. destruct (last_or h (fst <$> x1)) as [c Hc]. destruct (head_or h (fst <$> x2)) as [n Hn].
  destruct (cut_spec m h x1 x2 x d c n Hr Hc Hn) as (m' & -> & Hu & Hd). exists m'.
  destruct (unlinked_rep m m' h x1 x2 c n x d Hr Hc Hn Hu) as (H1 & H2 & H3).
  split; [done|]. split; [done|]. split; [done|]. split; [done|]. split; [|done].
  apply (lr_pos m h (x1 ++ (x, d) :: x2)); [done|apply mid_in].
Qed.

Lemma rep_frame m m' l h xs :
  list_rep m h xs -> same_off l m m' -> (forall b, b ∈ h :: (fst <$> xs) -> b ∉ l) -> list_rep m' h xs.
Proof.
  intros Hr Hs Hd. assert (forall b, b ∈ h :: (fst <$> xs) -> m' !! b = m !! b) as Hf by auto.
  constructor.
  - apply (ring_frame m); [|apply Hr]. intros b Hb. unfold get_next, get_prev. by rewrite (Hf b Hb).
  - intros b e Hb. unfold get_data. rewrite Hf; [by apply Hr|]. right. apply list_elem_of_fmap. by exists (b, e).
  - unfold live, get_data. rewrite Hf by (by left). apply Hr.
  - apply Hr.
Qed.

Lemma elem_nonzero a : 0 < a -> list_elem a =? 0 = false.
Proof. intros H. exact (proj1 (elem_pos a H)). Qed.

(** Moving inside a list. *)
Lemma move_within m h x1 x2 x d y1 y2 :
  list_rep m h (x1 ++ (x, d) :: x2) -> x1 ++ x2 = y1 ++ y2 ->
  (forall n, head ((fst <$> y2) ++ [h]) = Some n -> exists m',
     list_move_front m (list_elem n) (list_elem x) = Some (0, m') /\ list_rep m' h (y1 ++ (x, d) :: y2) /\
     same_off (h :: (fst <$> x1 ++ (x, d) :: x2)) m m') /\
  (forall c, last (h :: (fst <$> y1)) = Some c -> exists m',
     list_move_back m (list_elem c) (list_elem x) = Some (0, m') /\ list_rep m' h (y1 ++ (x, d) :: y2) /\
     same_off (h :: (fst <$> x1 ++ (x, d) :: x2)) m m').
Proof.
  intros Hr Hy. destruct (cut_rep m h x1 x2 x d Hr) as (m1 & Hcut & Hr1 & Hx & Hd & Ha & Hs). rewrite Hy in Hr1, Hx.
  assert (forall m', same_off (h :: (fst <$> y1 ++ (x, d) :: y2)) m1 m' ->
    same_off (h :: (fst <$> x1 ++ (x, d) :: x2)) m m') as Hso.
  { intros m' Hs' b Hb. rewrite Hs'; [by apply Hs|]. revert Hb.
    assert (x1 ++ (x, d) :: x2 ≡ₚ y1 ++ (x, d) :: y2) as Hp by (by rewrite <- !Permutation_middle, Hy).
    by rewrite Hp. }
  destruct (last_or h (fst <$> y1)) as [c Hc]. destruct (head_or h (fst <$> y2)) as [n Hn].
  destruct (rep_neighbours m1 h y1 y2 c n Hr1 Hc Hn) as (_ & _ & _ & _ & Hc0 & Hn0).
  split.
  - intros n' Hn'. rewrite Hn in Hn'. injection Hn' as <-. unfold list_move_front.
    rewrite !elem_nonzero, !elem_node by lia. cbn [orb]. rewrite (proj2 (Z.eqb_neq x 0)), (proj2 (Z.eqb_neq n 0)) by lia.
    rewrite Hcut. cbn [orb mbind option_bind].
    destruct (move_before_links m1 h x y1 y2 c n d) as (m' & E & Hr' & Hs'); [done..|].
    exists m'. split; [exact E|]. split; [done|]. by apply Hso.
  - intros c' Hc'. rewrite Hc in Hc'. injection Hc' as <-. unfold list_move_back.
    rewrite !elem_nonzero, !elem_node by lia. cbn [orb]. rewrite Hcut. cbn [mbind option_bind].
    destruct (move_after_links m1 h x y1 y2 c n d) as (m' & E & Hr' & Hs'); [done..|].
    exists m'. split; [exact E|]. split; [done|]. by apply Hso.
Qed.

(** ** Walking, counting and clearing *)

Lemma next_elem_of m a : 0 < a -> list_next_elem m (list_elem a) = list_elem <$> get_next m a.
Proof.
  intros Ha. unfold list_next_elem. rewrite elem_node, (proj2 (Z.eqb_neq a 0)) by lia. cbn [negb].
  by destruct (get_next m a).
Qed.

Lemma nth_linked m l : forall a i b,
  linked m (a :: l) -> (forall z, z ∈ a :: l -> 0 < z) -> (a :: l) !! i = Some b ->
  nth_elem m (list_elem a) i = Some (list_elem b).
Proof.
  induction l as [|c l IH]; intros a [|i] b Hl Hz Hi; try (by injection Hi as ->); [done|].
  destruct Hl as (Hn & _ & Hl). cbn [nth_elem]. rewrite next_elem_of by (apply Hz; by left).
  rewrite Hn. cbn [fmap option_fmap option_map mbind option_bind]. apply IH; [done| |done].
  intros z Hz'. apply Hz. by right.
Qed.

Lemma rep_linked m h xs : list_rep m h xs -> linked m (h :: (fst <$> xs) ++ [h]).
Proof. intros Hr. apply Hr. Qed.

Lemma nth_rep m h xs i b :
  list_rep m h xs -> (h :: (fst <$> xs)) !! i = Some b -> nth_elem m (list_elem h) i = Some (list_elem b).
Proof.
  intros Hr Hi. apply (nth_linked m (fst <$> xs) h i b); [|intros z Hz; apply (lr_pos _ _ _ _ Hr Hz)|done].
  pose proof (rep_linked _ _ _ Hr) as Hl. change (h :: (fst <$> xs) ++ [h]) with ((h :: (fst <$> xs)) ++ [h]) in Hl.
  by apply linked_app in Hl as [? _].
Qed.

Lemma elem_eqb a b : list_elem a =? list_elem b = (a =? b).
Proof. unfold list_elem. apply eq_bool_prop_intro. rewrite !Is_true_true, !Z.eqb_eq. lia. Qed.

Lemma size_loop_spec m h l : forall a k fuel,
  linked m (l ++ [h]) -> h ∉ l -> head (l ++ [h]) = Some a -> (forall z, z ∈ l ++ [h] -> 0 < z) ->
  (length l < fuel)%nat -> 0 <= k -> k + Z.of_nat (length l) < 2 ^ 31 ->
  size_loop fuel m (list_elem h) (list_elem a) k = Some (k + Z.of_nat (length l)).
Proof.
  induction l as [|b l IH]; intros a k fuel Hl Hh Ha Hz Hf Hk0 Hk; (destruct fuel as [|f]; [cbn in Hf; lia|]); cbn [size_loop].
  - injection Ha as <-. rewrite elem_eqb, Z.eqb_refl, andb_false_r. f_equal. cbn. lia.
  - injection Ha as <-. apply not_elem_of_cons in Hh as [Hb Hh]. rewrite elem_eqb, (proj2 (Z.eqb_neq b h)) by congruence.
    rewrite elem_nonzero by (apply Hz; by left). cbn [negb andb length] in *. rewrite chk_n4_ok by lia.
    cbn [mbind option_bind]. rewrite next_elem_of by (apply Hz; by left).
    assert (exists c, head (l ++ [h]) = Some c) as [c Hc] by apply head_or.
    assert (get_next m b = Some c /\ linked m (l ++ [h])) as [-> Hl'].
    { destruct (l ++ [h]) as [|y t] eqn:E; [done|]. injection Hc as ->.
      change ((b :: l) ++ [h]) with (b :: (l ++ [h])) in Hl. rewrite E in Hl. by destruct Hl as (? & _ & ?). }
    cbn [fmap option_fmap option_map mbind option_bind].
    rewrite (IH c (k + 1) f); [f_equal; lia|done|done|done| |lia|lia|lia]. intros z Hz'. apply Hz. by right.
Qed.

Lemma list_size_spec m h xs fuel :
  list_rep m h xs -> (length xs < fuel)%nat -> Z.of_nat (length xs) < 2 ^ 31 ->
  list_size fuel m (list_elem h) = Some (Z.of_nat (length xs)).
Proof.
  intros Hr Hf Hn. assert (0 < h) as Hh by (apply (lr_pos m h xs h Hr); by left).
  unfold list_size. destruct (elem_pos h Hh) as [-> Eh]. rewrite elem_node, Eh, next_elem_of by done.
  pose proof (lr_ring _ _ _ Hr) as [Hnd Hl]. apply NoDup_cons in Hnd as [Hhn _].
  destruct (head_or h (fst <$> xs)) as [a Ha].
  destruct (rep_neighbours m h [] xs h a Hr eq_refl Ha) as (-> & _). cbn [fmap option_fmap option_map mbind option_bind].
  rewrite elem_eqb. destruct (a =? h) eqn:E; to_prop.
  - destruct xs as [|[b d] xs]; [done|]. cbn in Ha. injection Ha as ->. exfalso. apply Hhn. cbn. rewrite E. by left.
  - rewrite (size_loop_spec m h (fst <$> xs) a 0 fuel); [by rewrite length_fmap| |done|done| |by rewrite length_fmap|lia|by rewrite length_fmap].
    + change (h :: (fst <$> xs) ++ [h]) with ([h] ++ ((fst <$> xs) ++ [h])) in Hl. by apply linked_app in Hl as (_ & ? & _).
    + intros z Hz. apply (lr_pos m h xs z Hr). apply elem_of_app in Hz as [?|?%list_elem_of_singleton]; [by right|subst; by left].
Qed.

Lemma clear_loop_spec h xs : forall m a fuel,
  list_rep m h xs -> head ((fst <$> xs) ++ [h]) = Some a -> (length xs < fuel)%nat ->
  exists m', clear_loop fuel m (list_elem h) (list_elem a) = Some m' /\ list_rep m' h [] /\
    same_off (h :: (fst <$> xs)) m m' /\ forall b, b ∈ (fst <$> xs) -> m' !! b = None.
Proof.
  induction xs as [|[x d] xs IH]; intros m a fuel Hr Ha Hf; (destruct fuel as [|f]; [cbn in Hf; lia|]); cbn [clear_loop].
  - injection Ha as <-. rewrite Z.eqb_refl, andb_false_r. exists m. split; [done|]. split; [done|]. split; [done|].
    by intros b ?%elem_of_nil.
  - injection Ha as <-. pose proof (lr_ring _ _ _ Hr) as [Hnd _]. cbn in Hnd. cbn [fst] in *.
    assert (h <> x /\ x ∉ (fst <$> xs)) as [Hhx Hx].
    { apply NoDup_cons in Hnd as [H1 H2]. apply NoDup_cons in H2 as [H2 _]. split; [|done]. intros ->. apply H1. by left. }
    assert (0 < x) as Hx0 by (apply (lr_pos _ _ _ x Hr); right; by left).
    assert (0 < h) as Hh0 by (apply (lr_pos _ _ _ h Hr); by left).
    rewrite elem_nonzero, elem_eqb, (proj2 (Z.eqb_neq h x)) by done. cbn [negb andb].
    destruct (node_erase_spec m h [] xs x d h ELIST_ERASE_FULL Hr eq_refl) as (m1 & -> & Hr1 & Hx1 & Hs1).
    cbn [mbind option_bind app] in *. rewrite next_elem_of by done. destruct (head_or h (fst <$> xs)) as [c Hc].
    destruct (rep_neighbours m1 h [] xs h c Hr1 eq_refl Hc) as (-> & _).
    cbn [fmap option_fmap option_map mbind option_bind].
    destruct (IH m1 c f Hr1 Hc ltac:(cbn in Hf; lia)) as (m' & -> & Hr' & Hs' & Hfree).
    exists m'. split; [done|]. split; [done|]. split.
    + intros b Hb. cbn in Hb. rewrite !not_elem_of_cons in Hb. rewrite Hs' by (rewrite not_elem_of_cons; tauto).
      apply Hs1. cbn. rewrite !not_elem_of_cons. tauto.
    + intros b Hb. cbn in Hb. apply elem_of_cons in Hb as [->|Hb]; [|by apply Hfree].
      rewrite Hs'; [done|]. rewrite not_elem_of_cons. by split.
Qed.

Lemma list_clear_spec m h xs fuel :
  list_rep m h xs -> (length xs < fuel)%nat ->
  exists m', list_clear fuel m (list_elem h) = Some m' /\ list_rep m' h [] /\
    same_off (h :: (fst <$> xs)) m m' /\ forall b, b ∈ (fst <$> xs) -> m' !! b = None.
Proof.
  intros Hr Hf. assert (0 < h) as Hh by (apply (lr_pos m h xs h Hr); by left).
  unfold list_clear. rewrite elem_nonzero, next_elem_of by done. destruct (head_or h (fst <$> xs)) as [c Hc].
  destruct (rep_neighbours m h [] xs h c Hr eq_refl Hc) as (-> & _). by apply clear_loop_spec.
Qed.

Lemma list_uninit_spec m h xs fuel :
  list_rep m h xs -> (length xs < fuel)%nat ->
  exists m', list_uninit fuel m (Some (list_elem h)) = Some (m', Some 0) /\
    same_off (h :: (fst <$> xs)) m m' /\ forall b, b ∈ h :: (fst <$> xs) -> m' !! b = None.
Proof.
  intros Hr Hf. assert (0 < h) as Hh by (apply (lr_pos m h xs h Hr); by left).
  unfold list_uninit. rewrite elem_nonzero by done.
  destruct (list_clear_spec m h xs fuel Hr Hf) as (m1 & -> & Hr1 & Hs & Hfree). cbn [mbind option_bind].
  pose proof (lr_head _ _ _ Hr1) as Hl. unfold live, get_data in Hl.
  unfold list_erase. rewrite elem_nonzero, elem_node, Z.eqb_refl, (proj2 (Z.eqb_neq h 0)) by lia.
  unfold list_node_dealloc. rewrite (proj2 (Z.eqb_neq h 0)) by lia.
  destruct (m1 !! h) as [nd|] eqn:E; [|by destruct Hl]. cbn [mbind option_bind].
  exists (delete h m1). split; [done|]. split.
  - intros b Hb. rewrite lookup_delete_ne; [by apply Hs|]. intros <-. apply Hb. by left.
  - intros b [->|Hb]%elem_of_cons; [apply lookup_delete_eq|]. rewrite lookup_delete_None. right. by apply Hfree.
Qed.

Lemma list_init_spec malloc m old :
  alloc_ok malloc ->
  (malloc m 24 = None /\ list_init malloc m (Some old) = Some (-2, m, Some old)) \/
  exists h m', list_init malloc m (Some old) = Some (0, m', Some (list_elem h)) /\ list_rep m' h [] /\
    m !! h = None /\ same_off [h] m m'.
Proof.
  intros Hm. unfold list_init, list_node_alloc. change (u8 _) with 24.
  destruct (malloc m 24) as [[h b]|] eqn:E; [right|by left].
  destruct (Hm m 24 h b ltac:(lia) E) as (Hb & Hh & Hr). rewrite Hb. change (24 <? sizeof_list_node_t) with false.
  change (0 =? 0) with true. cbn [mbind option_bind]. rewrite (proj2 (Z.eqb_neq h 0)) by lia.
  assert (live (<[h := mk_node h h (drop 16 b)]> m) h) as Hl by (unfold live, get_data; by rewrite lookup_insert_eq).
  destruct (set_prev_spec _ h h Hl) as (m1 & -> & Hp1 & Hn1 & Hd1). cbn [mbind option_bind].
  assert (live m1 h) as Hl1 by (unfold live; by rewrite Hd1).
  destruct (set_next_spec _ h h Hl1) as (m2 & -> & Hn2 & Hp2 & Hd2). cbn [mbind option_bind].
  exists h, m2. split; [done|]. split; [|split; [done|]].
  - constructor.
    + split; [apply NoDup_singleton|]. cbn. rewrite Hn2, Hp2, Hp1, !decide_True by done. done.
    + by intros a d ?%elem_of_nil.
    + unfold live. by rewrite Hd2, Hd1.
    + by constructor.
  - intros c Hc. rewrite not_elem_of_cons in Hc. destruct Hc as [Hc _].
    rewrite <- (lookup_insert_ne m h c (mk_node h h (drop 16 b))) by done. apply lmem_ext.
    + by rewrite Hp2, Hp1, decide_False.
    + by rewrite Hn2, Hn1, decide_False.
    + by rewrite Hd2, Hd1.
Qed.

Lemma list_empty_spec m h xs :
  list_rep m h xs -> list_empty m (list_elem h) = Some (if decide (xs = []) then 0 else -1).
Proof.
  intros Hr. assert (0 < h) as Hh by (apply (lr_pos m h xs h Hr); by left).
  unfold list_empty. destruct (elem_pos h Hh) as [-> Eh]. rewrite elem_node, Eh.
  destruct (head_or h (fst <$> xs)) as [c Hc]. destruct (rep_neighbours m h [] xs h c Hr eq_refl Hc) as (-> & _).
  cbn [mbind option_bind]. destruct xs as [|[a d] xs]; cbn in Hc; injection Hc as <-.
  - by rewrite Z.eqb_refl.
  - rewrite decide_False by done. rewrite (proj2 (Z.eqb_neq _ _)); [done|]. intros ->.
    destruct (lr_ring _ _ _ Hr) as [Hnd _]. apply NoDup_cons in Hnd as [Hn _]. apply Hn. by left.
Qed.

(** What a pointer the list gives shows to its client. *)
Inductive lout := LNil | LHead | LElem (d : bytes) | LCode (z : Z) | LVoid.

Definition deref (m : lmem) (list p : Z) : option lout :=
  if p =? 0 then Some LNil else if p =? list then Some LHead else LElem <$> get_data m (list_node p).

(** Position 0 is the head, position [i] the [i]th element. *)
Definition at_pos (q : list bytes) (i : nat) : lout :=
  match i with O => LHead | S i => default LNil (LElem <$> q !! i) end.

Lemma deref_pos m h xs i b :
  list_rep m h xs -> (h :: (fst <$> xs)) !! i = Some b ->
  deref m (list_elem h) (list_elem b) = Some (at_pos (snd <$> xs) i).
Proof.
  intros Hr Hi. assert (b ∈ h :: (fst <$> xs)) as Hb by (by eapply list_elem_of_lookup_2).
  pose proof (lr_pos m h xs b Hr Hb). unfold deref. rewrite elem_nonzero, elem_eqb, elem_node by lia.
  destruct (lr_ring _ _ _ Hr) as [Hnd _]. destruct i as [|i]; [injection Hi as ->; by rewrite Z.eqb_refl|].
  change ((fst <$> xs) !! i = Some b) in Hi.
  rewrite (proj2 (Z.eqb_neq b h)).
  - rewrite list_lookup_fmap in Hi. destruct (xs !! i) as [[a d]|] eqn:E; [|done]. injection Hi as <-.
    rewrite (lr_data _ _ _ Hr a d) by (by eapply list_elem_of_lookup_2). cbn. by rewrite list_lookup_fmap, E.
  - intros ->. apply NoDup_cons in Hnd as [Hn _]. apply Hn. by eapply list_elem_of_lookup_2.
Qed.

(** The ends of the list. *)
Lemma list_first_spec m h xs :
  list_rep m h xs ->
  (p ← list_first m (list_elem h); deref m (list_elem h) p) = Some (default LNil (LElem <$> (snd <$> xs) !! 0%nat)).
Proof.
  intros Hr. assert (0 < h) as Hh by (apply (lr_pos m h xs h Hr); by left).
  unfold list_first. rewrite (list_empty_spec m h xs Hr). destruct xs as [|[a d] xs]; [done|].
  rewrite decide_False by done. cbn [mbind option_bind]. rewrite (proj2 (Z.eqb_neq (-1) 0)) by lia.
  rewrite elem_node, (proj2 (Z.eqb_neq h 0)) by lia. cbn [negb].
  destruct (rep_neighbours m h [] ((a, d) :: xs) h a Hr eq_refl eq_refl) as (-> & _). cbn [mbind option_bind].
  by rewrite (deref_pos m h _ 1 a Hr).
Qed.

Lemma list_last_spec m h xs :
  list_rep m h xs ->
  (p ← list_last m (list_elem h); deref m (list_elem h) p) = Some (default LNil (LElem <$> last (snd <$> xs))).
Proof.
  intros Hr. assert (0 < h) as Hh by (apply (lr_pos m h xs h Hr); by left).
  unfold list_last. rewrite (list_empty_spec m h xs Hr). destruct (decide (xs = [])) as [->|Ex]; [done|].
  cbn [mbind option_bind]. rewrite (proj2 (Z.eqb_neq (-1) 0)) by lia.
  rewrite elem_node, (proj2 (Z.eqb_neq h 0)) by lia. cbn [negb].
  destruct (last xs) as [[a d]|] eqn:El; [|by apply last_None in El].
  apply last_Some in El as [ys El].
  assert (last (h :: (fst <$> xs)) = Some a) as Hl by (rewrite El, fmap_app; exact (last_snoc a (h :: (fst <$> ys)))).
  assert (Hr' := Hr). rewrite <- (app_nil_r xs) in Hr'.
  destruct (rep_neighbours m h xs [] a h Hr' Hl eq_refl) as (_ & -> & _). cbn [mbind option_bind].
  rewrite (deref_pos m h xs (S (length ys)) a Hr).
  - rewrite El, !fmap_app. change (snd <$> [(a, d)]) with [d]. rewrite last_snoc. cbn. by rewrite lookup_app_r, length_fmap, Nat.sub_diag by (rewrite length_fmap; lia).
  - rewrite El, fmap_app. change ((((fst <$> ys) ++ [a]) : list Z) !! length ys = Some a). by rewrite lookup_app_r, length_fmap, Nat.sub_diag by (rewrite length_fmap; lia).
Qed.

(** Inserting an element that was erased but not freed links its own node in. *)
Definition recycled (m : lmem) (h : Z) (y1 y2 : list (Z * bytes)) (x : Z) (d : bytes) (o : option (Z * lmem)) : Prop :=
  exists m', o = Some (list_elem x, m') /\ list_rep m' h (y1 ++ (x, d) :: y2) /\
    same_off (h :: (fst <$> y1 ++ (x, d) :: y2)) m m' /\ dom m' = dom m.

Section Recycle.
Context (malloc : alloc_fun) (m : lmem) (h : Z) (y1 y2 : list (Z * bytes)) (c n x : Z) (d : bytes) (len : Z).
Context (Hr : list_rep m h (y1 ++ y2)) (Hx : x ∉ h :: (fst <$> y1 ++ y2)).
Context (Hc : last (h :: (fst <$> y1)) = Some c) (Hn : head ((fst <$> y2) ++ [h]) = Some n).
Context (Hmx : m !! x = Some (mk_node PREV_MAGIC NEXT_MAGIC d)) (Ha : 0 < x < 2 ^ 47) (Hlen : 0 < len).

Lemma recycled_links m' : linked_in m m' c x n -> recycled m h y1 y2 x d (Some (list_elem x, m')).
Proof.
  intros Hlk. exists m'. split; [done|]. assert (get_data m x = Some d) as Hd by (unfold get_data; by rewrite Hmx).
  destruct (linked_in_rep m m' h y1 y2 c n x d Hr Hc Hn Hx Hd Ha Hlk) as [Hr' Hs].
  split; [done|]. split; [done|]. apply set_eq. intros b. rewrite !elem_of_dom. destruct Hlk as (_ & _ & Hv).
  specialize (Hv b). unfold get_data in Hv.
  by rewrite <- (fmap_is_Some n_data (m' !! b)), Hv, fmap_is_Some.
Qed.

Lemma take_recycled : take_node malloc m (list_elem x) len = Some (0, x, m).
Proof.
  unfold take_node, list_check_magic. rewrite elem_node, Hmx. cbn [mbind option_bind n_prev n_next].
  by rewrite !Z.eqb_refl.
Qed.

Lemma live_recycled : live m x.
Proof. unfold live, get_data. by rewrite Hmx. Qed.

Lemma insert_recycled : recycled m h y1 y2 x d (list_insert_front malloc m (list_elem n) (list_elem x) len).
Proof.
  destruct (rep_neighbours m h y1 y2 c n Hr Hc Hn) as (_ & Hp & Hlc & Hln & _ & Hn0).
  unfold list_insert_front. rewrite !elem_nonzero, (proj2 (Z.leb_gt len 0)) by lia. cbn [orb].
  rewrite take_recycled, elem_node. cbn [mbind option_bind].
  rewrite (proj2 (Z.eqb_neq x 0)), (proj2 (Z.eqb_neq n 0)) by lia.
  destruct (link_before_spec m c x n) as (m' & -> & Hlk); [done|apply live_recycled|done|done|].
  by apply recycled_links.
Qed.

Lemma insert_back_recycled : recycled m h y1 y2 x d (list_insert_back malloc m (list_elem c) (list_elem x) len).
Proof.
  destruct (rep_neighbours m h y1 y2 c n Hr Hc Hn) as (Hp & _ & Hlc & Hln & Hc0 & _).
  unfold list_insert_back. rewrite !elem_nonzero, (proj2 (Z.eqb_neq len 0)) by lia. cbn [orb].
  rewrite take_recycled, elem_node. cbn [mbind option_bind].
  rewrite (proj2 (Z.eqb_neq x 0)), (proj2 (Z.eqb_neq c 0)) by lia.
  destruct (link_after_spec m c x n) as (m' & -> & Hlk); [done|apply live_recycled|done|done|].
  by apply recycled_links.
Qed.
End Recycle.

(** ** A client of one list

    The client names the places of the list by position, walking from the head
    with [list_next_elem], and leaves the list alone when there is no such place. *)

Inductive lop :=
  | LInsFront (i : nat) (elem len : Z) | LInsBack (i : nat) (elem len : Z) | LErase (i : nat)
  | LMoveFront (i j : nat) | LMoveBack (i j : nat) | LGet (i : nat)
  | LFirst | LLast | LSize | LEmpty | LClear.

Definition op_places (op : lop) : list nat :=
  match op with
  | LInsFront i _ _ | LInsBack i _ _ | LErase i | LGet i => [i]
  | LMoveFront i j | LMoveBack i j => [i; j]
  | _ => []
  end.

(** The head is neither erased nor moved, and nothing moves next to itself. *)
Definition op_valid (op : lop) (size : Z) : bool :=
  forallb (fun i => Z.of_nat i <=? size) (op_places op) &&
  match op with
  | LErase i => negb (i =? 0)%nat
  | LMoveFront i j | LMoveBack i j => negb (j =? 0)%nat && negb (i =? j)%nat
  | _ => true
  end.

Definition list_step (malloc : alloc_fun) (fuel : nat) (list : Z) (op : lop) (m : lmem) : option (lout * lmem) :=
  size ← list_size fuel m list;
  if negb (op_valid op size) then Some (LVoid, m) else
  match op with
  | LInsFront i e len => c ← nth_elem m list i; '(p, m) ← list_insert_front malloc m c e len;
                         o ← deref m list p; Some (o, m)
  | LInsBack i e len => c ← nth_elem m list i; '(p, m) ← list_insert_back malloc m c e len;
                        o ← deref m list p; Some (o, m)
  | LErase i => c ← nth_elem m list i; '(p, m) ← list_erase m list c ELIST_ERASE_FULL;
                o ← deref m list p; Some (o, m)
  | LMoveFront i j => d ← nth_elem m list i; c ← nth_elem m list j; '(r, m) ← list_move_front m d c; Some (LCode r, m)
  | LMoveBack i j => d ← nth_elem m list i; c ← nth_elem m list j; '(r, m) ← list_move_back m d c; Some (LCode r, m)
  | LGet i => c ← nth_elem m list i; o ← deref m list c; Some (o, m)
  | LFirst => p ← list_first m list; o ← deref m list p; Some (o, m)
  | LLast => p ← list_last m list; o ← deref m list p; Some (o, m)
  | LSize => r ← list_size fuel m list; Some (LCode r, m)
  | LEmpty => r ← list_empty m list; Some (LCode r, m)
  | LClear => m ← list_clear fuel m list; Some (LVoid, m)
  end.

(** The same on a plain list; [ok] tells whether an allocation succeeds. *)
Definition put_front (i : nat) (d : bytes) (q : list bytes) : list bytes :=
  match i with O => q ++ [d] | S i => take i q ++ d :: drop i q end.
Definition put_back (i : nat) (d : bytes) (q : list bytes) : list bytes := take i q ++ d :: drop i q.

Definition contents (m : lmem) (elem len : Z) : bytes := default [] (b ← get_data m (list_node elem); rd b 0 len).

(** A position once element [j] is out. *)
Definition without (j i : nat) : nat := if (j <? i)%nat then (i - 1)%nat else i.

Definition spec_step (user : lmem) (ok : bool) (op : lop) (q : list bytes) : lout * list bytes :=
  if negb (op_valid op (Z.of_nat (length q))) then (LVoid, q) else
  match op with
  | LInsFront i e len => let d := contents user e len in if ok then (LElem d, put_front i d q) else (LNil, q)
  | LInsBack i e len => let d := contents user e len in if ok then (LElem d, put_back i d q) else (LNil, q)
  | LErase i => (at_pos q (i - 1), delete (i - 1)%nat q)
  | LMoveFront i j => let d := default [] (q !! (j - 1)%nat) in
                      (LCode 0, put_front (without j i) d (delete (j - 1)%nat q))
  | LMoveBack i j => let d := default [] (q !! (j - 1)%nat) in
                     (LCode 0, put_back (without j i) d (delete (j - 1)%nat q))
  | LGet i => (at_pos q i, q)
  | LFirst => (default LNil (LElem <$> q !! 0%nat), q)
  | LLast => (default LNil (LElem <$> last q), q)
  | LSize => (LCode (Z.of_nat (length q)), q)
  | LEmpty => (LCode (if decide (q = []) then 0 else -1), q)
  | LClear => (LVoid, [])
  end.

(** The client's other calls: pushing, walking backwards with [list_prev_elem],
    and erasing an element without freeing it. The client keeps the elements it
    erased that way, and inserts them again or frees them with [list_erase]. *)
Inductive cop :=
  | Call (op : lop) | PushFront (elem len : Z) | PushBack (elem len : Z) | GetBack (i : nat)
  | ErasePart (i : nat) | ReuseFront (i j : nat) (len : Z) | ReuseBack (i j : nat) (len : Z) | Release (j : nat).

(** Each call has its own allocator. *)
Definition ccall : Type := alloc_fun * cop.

(** The element [i] places before [elem]. *)
Fixpoint nth_prev (m : lmem) (elem : Z) (i : nat) : option Z :=
  match i with O => Some elem | S i => e ← list_prev_elem m elem; nth_prev m e i end.

Definition client_step (fuel : nat) (list : Z) (c : ccall) (w : lmem * Datatypes.list Z)
  : option (lout * (lmem * Datatypes.list Z)) :=
  let '(malloc, op) := c in
  let '(m, hand) := w in
  size ← list_size fuel m list;
  match op with
  | Call op => '(o, m) ← list_step malloc fuel list op m; Some (o, (m, hand))
  | PushFront e len => '(p, m) ← list_push_front malloc m list e len; o ← deref m list p; Some (o, (m, hand))
  | PushBack e len => '(p, m) ← list_push_back malloc m list e len; o ← deref m list p; Some (o, (m, hand))
  | GetBack i =>
      if negb (Z.of_nat i <=? size) then Some (LVoid, w)
      else c ← nth_prev m list i; o ← deref m list c; Some (o, w)
  | ErasePart i =>
      if negb (op_valid (LErase i) size) then Some (LVoid, w)
      else c ← nth_elem m list i; '(p, m) ← list_erase m list c ELIST_ERASE_PART;
           o ← deref m list p; Some (o, (m, c :: hand))
  | ReuseFront i j len =>
      match hand !! j with
      | Some x =>
          if negb (Z.of_nat i <=? size) then Some (LVoid, w)
          else c ← nth_elem m list i; '(p, m) ← list_insert_front malloc m c x len;
               o ← deref m list p; Some (o, (m, delete j hand))
      | None => Some (LVoid, w)
      end
  | ReuseBack i j len =>
      match hand !! j with
      | Some x =>
          if negb (Z.of_nat i <=? size) then Some (LVoid, w)
          else c ← nth_elem m list i; '(p, m) ← list_insert_back malloc m c x len;
               o ← deref m list p; Some (o, (m, delete j hand))
      | None => Some (LVoid, w)
      end
  | Release j =>
      match hand !! j with
      | Some x => '(p, m) ← list_erase m list x ELIST_ERASE_FULL; o ← deref m list p; Some (o, (m, delete j hand))
      | None => Some (LVoid, w)
      end
  end.

Fixpoint client_run (fuel : nat) (lst : Z) (cs : list ccall) (w : lmem * list Z)
  : option (list lout * (lmem * list Z)) :=
  match cs with
  | [] => Some ([], w)
  | c :: cs => '(o, w) ← client_step fuel lst c w; '(os, w) ← client_run fuel lst cs w; Some (o :: os, w)
  end.

(** The same on plain lists, of the elements in the list and of those the
    client keeps. A push inserts twice, and shows only the second insertion:
    [ok] tells whether its allocations, the first and the second, succeed. *)
Definition client_spec (user : lmem) (ok : bool * bool) (c : cop) (w : list bytes * list bytes)
  : lout * (list bytes * list bytes) :=
  let '(q, held) := w in
  let within i := Z.of_nat i <=? Z.of_nat (length q) in
  match c with
  | Call op => let '(o, q) := spec_step user (fst ok) op q in (o, (q, held))
  | PushFront e len =>
      let d := contents user e len in
      let q := if fst ok then put_back 0 d q else q in
      if snd ok then (LElem d, (put_back 0 d q, held)) else (LNil, (q, held))
  | PushBack e len =>
      let d := contents user e len in
      let q := if fst ok then put_front 0 d q else q in
      if snd ok then (LElem d, (put_front 0 d q, held)) else (LNil, (q, held))
  | GetBack i =>
      if negb (within i) then (LVoid, w)
      else (at_pos q (match i with O => O | S k => (length q - k)%nat end), w)
  | ErasePart i =>
      if negb (op_valid (LErase i) (Z.of_nat (length q))) then (LVoid, w)
      else (at_pos q (i - 1), (delete (i - 1)%nat q, default [] (q !! (i - 1)%nat) :: held))
  | ReuseFront i j _ =>
      match held !! j with
      | Some d => if negb (within i) then (LVoid, w) else (LElem d, (put_front i d q, delete j held))
      | None => (LVoid, w)
      end
  | ReuseBack i j _ =>
      match held !! j with
      | Some d => if negb (within i) then (LVoid, w) else (LElem d, (put_back i d q, delete j held))
      | None => (LVoid, w)
      end
  | Release j => match held !! j with Some _ => (LNil, (q, delete j held)) | None => (LVoid, w) end
  end.

Fixpoint client_specs (user : lmem) (oks : list (bool * bool)) (cs : list ccall) (w : list bytes * list bytes)
  : list lout * (list bytes * list bytes) :=
  match cs with
  | [] => ([], w)
  | c :: cs => let '(o, w) := client_spec user (default (true, true) (head oks)) (snd c) w in
               let '(os, w) := client_specs user (tail oks) cs w in (o :: os, w)
  end.

(** The client's buffers are in the memory the list was made in. *)
Definition op_ok (user : lmem) (op : lop) : Prop :=
  match op with
  | LInsFront _ e len | LInsBack _ e len => exists d, buffer user e len d
  | _ => True
  end.

(** The list and nothing else was added to the memory. *)
Record owned (user m : lmem) (h : Z) (xs : list (Z * bytes)) : Prop := {
  ow_rep : list_rep m h xs;
  ow_rest : same_off (h :: (fst <$> xs)) user m;
  ow_fresh : forall b, b ∈ h :: (fst <$> xs) -> user !! b = None;
}.

Lemma owned_buffer user m h xs e len d : owned user m h xs -> buffer user e len d -> buffer m e len d.
Proof.
  intros Ho (H1 & H2 & nd & Hnd & H3). split; [done|]. split; [done|]. exists nd. split; [|done].
  rewrite (ow_rest _ _ _ _ Ho); [done|]. intros Hb. by rewrite (ow_fresh _ _ _ _ Ho _ Hb) in Hnd.
Qed.

Lemma buffer_contents m e len d : buffer m e len d -> contents m e len = d.
Proof. intros (_ & _ & nd & Hnd & H & _). unfold contents, get_data. rewrite Hnd. cbn. by rewrite H. Qed.

Lemma owned_add user m m' h xs xs' a :
  owned user m h xs -> list_rep m' h xs' -> m !! a = None -> same_off (h :: (fst <$> xs')) m m' ->
  (forall b, b ∈ h :: (fst <$> xs') <-> b = a \/ b ∈ h :: (fst <$> xs)) -> owned user m' h xs'.
Proof.
  intros Ho Hr Ha Hs Hin. constructor; [done|..].
  - intros b Hb. rewrite Hs by done. apply (ow_rest _ _ _ _ Ho). rewrite Hin in Hb. tauto.
  - intros b Hb. apply Hin in Hb as [->|Hb]; [|by apply (ow_fresh _ _ _ _ Ho)].
    rewrite <- Ha. symmetry. apply (ow_rest _ _ _ _ Ho). apply (rep_notin m _ _ _ (ow_rep _ _ _ _ Ho) Ha).
Qed.

Lemma owned_same user m m' h xs xs' :
  owned user m h xs -> list_rep m' h xs' -> same_off (h :: (fst <$> xs)) m m' ->
  (forall b, b ∈ h :: (fst <$> xs) -> b ∉ h :: (fst <$> xs') -> m' !! b = None) ->
  (forall b, b ∈ (fst <$> xs') -> b ∈ (fst <$> xs)) -> owned user m' h xs'.
Proof.
  intros Ho Hr Hs Hfree Hin. constructor; [done|..].
  - intros b Hb. destruct (decide (b ∈ h :: (fst <$> xs))) as [Hb'|Hb'].
    + rewrite Hfree by done. symmetry. by apply (ow_fresh _ _ _ _ Ho).
    + rewrite Hs by done. by apply (ow_rest _ _ _ _ Ho).
  - intros b Hb. apply (ow_fresh _ _ _ _ Ho). apply elem_of_cons in Hb as [->|Hb]; [by left|]. right. by apply Hin.
Qed.

(** ** Every operation is the one on the plain list *)

(** Memory does not run out below [k] blocks. *)
Definition alloc_total (malloc : alloc_fun) (k : nat) : Prop :=
  forall m n, (size m <= k)%nat -> is_Some (malloc m n).

Lemma owned_size user m h xs : owned user m h xs -> (size m <= size user + S (length xs))%nat.
Proof.
  intros Ho. rewrite <- !size_dom.
  assert (size (list_to_set (h :: (fst <$> xs)) : gset Z) <= S (length xs))%nat as Hs.
  { rewrite size_list_to_set; [cbn; by rewrite length_fmap|]. apply (lr_ring _ _ _ (ow_rep _ _ _ _ Ho)). }
  assert ((dom m : gset Z) ⊆ dom user ∪ list_to_set (h :: (fst <$> xs))) as Hsub.
  { intros b Hb. apply elem_of_union. destruct (decide (b ∈ h :: (fst <$> xs))) as [Hi|Hi].
    - right. by apply elem_of_list_to_set.
    - left. apply elem_of_dom in Hb. apply elem_of_dom. by rewrite <- (ow_rest _ _ _ _ Ho b Hi). }
  apply subseteq_size in Hsub. pose proof (size_union_alt (dom user) (list_to_set (h :: (fst <$> xs)) : gset Z)) as Hu.
  pose proof (subseteq_size (list_to_set (h :: (fst <$> xs)) ∖ dom user : gset Z) (list_to_set (h :: (fst <$> xs))) ltac:(set_solver)).
  lia.
Qed.

(** Where inserting before and after the place [i] cuts the list. *)
Definition front_cut {A} (i : nat) (xs : list A) : list A * list A :=
  match i with O => (xs, []) | S k => (take k xs, drop k xs) end.

Lemma front_cut_app {A} i (xs : list A) : fst (front_cut i xs) ++ snd (front_cut i xs) = xs.
Proof. destruct i; cbn; [apply app_nil_r|apply take_drop]. Qed.

Lemma lookup_fst (xs : list (Z * bytes)) h i :
  (i <= length xs)%nat -> exists a, (h :: (fst <$> xs)) !! i = Some a.
Proof. intros H. apply lookup_lt_is_Some_2. cbn. rewrite length_fmap. lia. Qed.

Lemma place_front (xs : list (Z * bytes)) h i a :
  (h :: (fst <$> xs)) !! i = Some a -> head ((fst <$> snd (front_cut i xs)) ++ [h]) = Some a.
Proof.
  destruct i as [|k]; [done|]. intros Ha. change ((fst <$> xs) !! k = Some a) in Ha.
  cbn [front_cut snd]. rewrite fmap_drop. by rewrite (drop_S _ a k Ha).
Qed.

Lemma place_back (xs : list (Z * bytes)) h i a :
  (h :: (fst <$> xs)) !! i = Some a -> last (h :: (fst <$> take i xs)) = Some a.
Proof.
  destruct i as [|k]; [done|]. intros Ha. change ((fst <$> xs) !! k = Some a) in Ha.
  rewrite fmap_take, (take_S_r _ _ a Ha). exact (last_snoc a (h :: take k (fst <$> xs))).
Qed.

Lemma put_front_snd (xs : list (Z * bytes)) i a d :
  put_front i d (snd <$> xs) = snd <$> fst (front_cut i xs) ++ (a, d) :: snd (front_cut i xs).
Proof. rewrite fmap_app. destruct i; cbn [put_front front_cut fst snd]; [done|]. by rewrite <- fmap_take, <- fmap_drop. Qed.

Lemma put_back_snd (xs : list (Z * bytes)) i a d :
  put_back i d (snd <$> xs) = snd <$> take i xs ++ (a, d) :: drop i xs.
Proof. rewrite fmap_app. unfold put_back. by rewrite <- fmap_take, <- fmap_drop. Qed.

Lemma place_without (x1 x2 : list (Z * bytes)) x d h i a :
  (h :: (fst <$> x1 ++ (x, d) :: x2)) !! i = Some a -> i <> S (length x1) ->
  (h :: (fst <$> x1 ++ x2)) !! without (S (length x1)) i = Some a.
Proof.
  intros Ha Hi. rewrite fmap_app in Ha |- *. unfold without. destruct (S (length x1) <? i)%nat eqn:E.
  - apply Nat.ltb_lt in E. destruct i as [|[|k]]; [lia|lia|]. cbn [Nat.sub].
    change (((fst <$> x1) ++ [x] ++ (fst <$> x2)) !! S k = Some a) in Ha.
    change (((fst <$> x1) ++ (fst <$> x2)) !! k = Some a).
    rewrite lookup_app_r in Ha |- * by (rewrite length_fmap; lia).
    rewrite lookup_app_r in Ha by (rewrite length_fmap; cbn; lia). rewrite <- Ha. f_equal.
    rewrite !length_fmap. cbn. lia.
  - apply Nat.ltb_ge in E. destruct i as [|k]; [done|].
    change (((fst <$> x1) ++ x :: (fst <$> x2)) !! k = Some a) in Ha.
    change (((fst <$> x1) ++ (fst <$> x2)) !! k = Some a).
    rewrite lookup_app_l in Ha |- * by (rewrite length_fmap; lia). done.
Qed.

Lemma split_at (xs : list (Z * bytes)) j :
  (1 <= j <= length xs)%nat -> exists x1 x d x2, xs = x1 ++ (x, d) :: x2 /\ length x1 = (j - 1)%nat.
Proof.
  intros Hj. destruct (lookup_lt_is_Some_2 xs (j - 1)) as [[x d] Hx]; [lia|].
  exists (take (j - 1) xs), x, d, (drop (S (j - 1)) xs). split; [by rewrite take_drop_middle|].
  rewrite length_take. lia.
Qed.

(** What one operation has to show. *)
Definition step_post (malloc : alloc_fun) (k : nat) (user m : lmem) (h : Z) (xs : list (Z * bytes)) (op : lop)
  (res : option (lout * lmem)) : Prop :=
  exists ok o m' xs', res = Some (o, m') /\ owned user m' h xs' /\
    spec_step user ok op (snd <$> xs) = (o, snd <$> xs') /\ (alloc_total malloc k -> ok = true) /\
    (length xs' <= S (length xs))%nat.

Section Steps.
Context (malloc : alloc_fun) (fuel k : nat) (user m : lmem) (h : Z) (xs : list (Z * bytes)).
Context (Hm : alloc_ok malloc) (Ho : owned user m h xs) (Hk : (size m <= k)%nat).

Lemma nth_place i : (i <= length xs)%nat -> exists a, (h :: (fst <$> xs)) !! i = Some a /\
  nth_elem m (list_elem h) i = Some (list_elem a).
Proof.
  intros Hi. destruct (lookup_fst xs h i Hi) as [a Ha]. exists a. split; [done|].
  apply (nth_rep m h xs); [apply Ho|done].
Qed.

Lemma ins_owned x1 x2 len d o :
  x1 ++ x2 = xs -> inserted malloc m h x1 x2 len d o ->
  exists ok p m' xs', o = Some (p, m') /\
    deref m' (list_elem h) p = Some (if (ok : bool) then LElem d else LNil) /\
    owned user m' h xs' /\ (alloc_total malloc k -> ok = true) /\
    if ok then exists a, xs' = x1 ++ (a, d) :: x2 else xs' = xs.
Proof.
  intros Hx [[Hf ->]|(a & m' & -> & Hr & Ha & Hs)].
  - exists false, 0, m, xs. split; [done|]. split; [done|]. split; [done|]. split; [|done].
    intros Ht. destruct (Ht m (16 + len) Hk) as [? E]. congruence.
  - exists true, (list_elem a), m', (x1 ++ (a, d) :: x2). split; [done|].
    assert ((h :: (fst <$> x1 ++ (a, d) :: x2)) !! S (length x1) = Some a) as Hi.
    { change ((fst <$> x1 ++ (a, d) :: x2) !! length x1 = Some a).
      by rewrite fmap_app, lookup_app_r, length_fmap, Nat.sub_diag by (rewrite length_fmap; lia). }
    rewrite (deref_pos m' h _ _ a Hr Hi). cbn [at_pos].
    rewrite fmap_app, lookup_app_r, length_fmap, Nat.sub_diag by (rewrite length_fmap; lia).
    split; [done|]. split; [|split; [done|by exists a]].
    apply (owned_add user m m' h xs _ a); [done..|]. intros b. rewrite <- Hx, !fmap_app. cbn.
    rewrite !elem_of_cons, !elem_of_app, elem_of_cons. tauto.
Qed.

Lemma inserted_post x1 x2 len d o :
  x1 ++ x2 = xs -> inserted malloc m h x1 x2 len d o ->
  exists ok r m' xs', ('(p, m) ← o; o ← deref m (list_elem h) p; Some (o, m)) = Some (r, m') /\
    owned user m' h xs' /\ (alloc_total malloc k -> ok = true) /\
    if (ok : bool) then r = LElem d /\ exists a, xs' = x1 ++ (a, d) :: x2 else r = LNil /\ xs' = xs.
Proof.
  intros Hx Hi. destruct (ins_owned x1 x2 len d o Hx Hi) as (ok & p & m' & xs' & -> & Hd & Ho' & Hok & Hxs).
  cbn [mbind option_bind]. rewrite Hd. exists ok, (if ok then LElem d else LNil), m', xs'.
  split; [done|]. split; [done|]. split; [done|]. by destruct ok.
Qed.

Lemma step_insert_front i e len d :
  (i <= length xs)%nat -> buffer user e len d ->
  step_post malloc k user m h xs (LInsFront i e len)
    (c ← nth_elem m (list_elem h) i; '(p, m) ← list_insert_front malloc m c e len;
     o ← deref m (list_elem h) p; Some (o, m)).
Proof.
  intros Hi Hb. destruct (nth_place i Hi) as (a & Ha & ->). cbn [mbind option_bind].
  pose proof (place_front _ _ _ _ Ha) as Hn. pose proof (front_cut_app i xs) as Hx.
  pose proof (ow_rep _ _ _ _ Ho) as Hr. rewrite <- Hx in Hr.
  pose proof (insert_front_spec malloc m h _ _ a e len d Hm Hr Hn (owned_buffer _ _ _ _ _ _ _ Ho Hb)) as Hins.
  destruct (inserted_post _ _ _ _ _ Hx Hins) as (ok & r & m' & xs' & E & Ho' & Hok & Hres).
  exists ok, r, m', xs'. split; [exact E|]. split; [done|]. unfold spec_step, op_valid. cbn [op_places forallb].
  rewrite (proj2 (Z.leb_le _ _)) by (rewrite length_fmap; lia). cbn [andb negb].
  rewrite (buffer_contents user e len d Hb). destruct ok; destruct Hres as [-> Hxs].
  - destruct Hxs as [a' ->]. rewrite (put_front_snd xs i a' d). split; [done|]. split; [done|].
    rewrite <- Hx at 3. rewrite !length_app. cbn. lia.
  - subst xs'. split; [done|]. split; [done|]. lia.
Qed.

Lemma step_insert_back i e len d :
  (i <= length xs)%nat -> buffer user e len d ->
  step_post malloc k user m h xs (LInsBack i e len)
    (c ← nth_elem m (list_elem h) i; '(p, m) ← list_insert_back malloc m c e len;
     o ← deref m (list_elem h) p; Some (o, m)).
Proof.
  intros Hi Hb. destruct (nth_place i Hi) as (a & Ha & ->). cbn [mbind option_bind].
  pose proof (place_back _ _ _ _ Ha) as Hl. pose proof (take_drop i xs) as Hx.
  pose proof (ow_rep _ _ _ _ Ho) as Hr. rewrite <- Hx in Hr.
  pose proof (insert_back_spec malloc m h _ _ a e len d Hm Hr Hl (owned_buffer _ _ _ _ _ _ _ Ho Hb)) as Hins.
  destruct (inserted_post _ _ _ _ _ Hx Hins) as (ok & r & m' & xs' & E & Ho' & Hok & Hres).
  exists ok, r, m', xs'. split; [exact E|]. split; [done|]. unfold spec_step, op_valid. cbn [op_places forallb].
  rewrite (proj2 (Z.leb_le _ _)) by (rewrite length_fmap; lia). cbn [andb negb].
  rewrite (buffer_contents user e len d Hb). destruct ok; destruct Hres as [-> Hxs].
  - destruct Hxs as [a' ->]. rewrite (put_back_snd xs i a' d). split; [done|]. split; [done|].
    rewrite <- Hx at 3. rewrite !length_app. cbn. lia.
  - subst xs'. split; [done|]. split; [done|]. lia.
Qed.

Lemma valid_pos l i : forallb (fun i => Z.of_nat i <=? l) [i] = true <-> Z.of_nat i <= l.
Proof. cbn. rewrite andb_true_r. apply Z.leb_le. Qed.

Lemma step_erase i :
  op_valid (LErase i) (Z.of_nat (length xs)) = true ->
  step_post malloc k user m h xs (LErase i)
    (c ← nth_elem m (list_elem h) i; '(p, m) ← list_erase m (list_elem h) c ELIST_ERASE_FULL;
     o ← deref m (list_elem h) p; Some (o, m)).
Proof.
  intros Hv. assert (Hv' := Hv). unfold op_valid in Hv. apply andb_true_iff in Hv as [Hi Hz].
  apply valid_pos in Hi. apply negb_true_iff, Nat.eqb_neq in Hz.
  destruct (split_at xs i ltac:(lia)) as (x1 & x & d & x2 & Ex & Hl).
  destruct (nth_place i ltac:(lia)) as (a & Ha & ->). cbn [mbind option_bind].
  assert (a = x) as ->.
  { destruct i as [|i]; [lia|]. change ((fst <$> xs) !! i = Some a) in Ha. rewrite Ex, fmap_app in Ha.
    rewrite lookup_app_r, length_fmap in Ha by (rewrite length_fmap; lia).
    replace (i - length x1)%nat with 0%nat in Ha by lia. by injection Ha. }
  pose proof (ow_rep _ _ _ _ Ho) as Hr. destruct (last_or h (fst <$> x1)) as [c Hc].
  assert (Hr' := Hr). rewrite Ex in Hr'.
  destruct (node_erase_spec m h x1 x2 x d c ELIST_ERASE_FULL Hr' Hc) as (m' & -> & Hrm & Hx & Hs). cbn [mbind option_bind].
  assert ((h :: (fst <$> x1 ++ x2)) !! length x1 = Some c) as Hi'.
  { rewrite last_lookup in Hc. cbn in Hc. rewrite length_fmap in Hc. rewrite fmap_app, app_comm_cons, lookup_app_l; [done|].
    cbn. rewrite length_fmap. lia. }
  rewrite (deref_pos m' h _ _ c Hrm Hi'). cbn [mbind option_bind].
  exists true, (at_pos (snd <$> x1 ++ x2) (length x1)), m', (x1 ++ x2). split; [done|]. split; [|split; [|split; [done|]]].
  - apply (owned_same user m m' h xs); [done|done|by rewrite Ex|..].
    + intros b Hb Hb'. assert (b = x) as ->; [|exact Hx]. rewrite Ex, fmap_app in Hb. cbn in Hb.
      rewrite fmap_app, not_elem_of_cons, not_elem_of_app in Hb'.
      rewrite elem_of_cons, elem_of_app, elem_of_cons in Hb. tauto.
    + intros b. rewrite Ex, !fmap_app. cbn. rewrite !elem_of_app, elem_of_cons. tauto.
  - unfold spec_step. rewrite length_fmap, Hv'. cbn [negb]. rewrite Ex, !fmap_app. cbn.
    rewrite <- Hl. f_equal.
    + destruct (length x1) as [|l] eqn:E; [done|]. cbn [at_pos]. do 2 f_equal.
      rewrite !lookup_app_l by (rewrite length_fmap; lia). done.
    + rewrite <- (length_fmap snd x1) at 1. by rewrite delete_middle.
  - rewrite Ex, !length_app. cbn. lia.
Qed.

(** The node a move takes, the list without it, and the place it goes to. *)
Lemma move_places i j :
  forallb (fun i => Z.of_nat i <=? Z.of_nat (length xs)) [i; j] && (negb (j =? 0)%nat && negb (i =? j)%nat) = true ->
  exists x1 x d x2 a, xs = x1 ++ (x, d) :: x2 /\ length x1 = (j - 1)%nat /\
    nth_elem m (list_elem h) j = Some (list_elem x) /\ nth_elem m (list_elem h) i = Some (list_elem a) /\
    (h :: (fst <$> x1 ++ x2)) !! without j i = Some a.
Proof.
  intros Hv. apply andb_true_iff in Hv as [Hp Hv]. apply andb_true_iff in Hv as [Hj Hij].
  apply negb_true_iff, Nat.eqb_neq in Hj, Hij. cbn in Hp. rewrite andb_true_r in Hp.
  apply andb_true_iff in Hp as [Hi Hj']. apply Z.leb_le in Hi, Hj'.
  destruct (split_at xs j ltac:(lia)) as (x1 & x & d & x2 & Ex & Hl).
  destruct (nth_place i ltac:(lia)) as (a & Ha & Hna). exists x1, x, d, x2, a.
  split; [done|]. split; [done|]. split; [|split; [done|]].
  - apply (nth_rep m h xs); [apply Ho|]. destruct j as [|j]; [lia|].
    change ((fst <$> xs) !! j = Some x). rewrite Ex, fmap_app, lookup_app_r, length_fmap by (rewrite length_fmap; lia).
    by replace (j - length x1)%nat with 0%nat by lia.
  - rewrite Ex in Ha. replace j with (S (length x1)) by lia. apply (place_without x1 x2 x d h i a Ha). lia.
Qed.

Lemma moved_post op x1 x d x2 y1 y2 m' :
  xs = x1 ++ (x, d) :: x2 -> x1 ++ x2 = y1 ++ y2 -> list_rep m' h (y1 ++ (x, d) :: y2) ->
  same_off (h :: (fst <$> x1 ++ (x, d) :: x2)) m m' ->
  spec_step user true op (snd <$> xs) = (LCode 0, snd <$> y1 ++ (x, d) :: y2) ->
  step_post malloc k user m h xs op (Some (LCode 0, m')).
Proof.
  intros Ex Hy Hr Hs Hsp. exists true, (LCode 0), m', (y1 ++ (x, d) :: y2). split; [done|].
  assert (xs ≡ₚ y1 ++ (x, d) :: y2) as Hp by (by rewrite Ex, <- !Permutation_middle, Hy).
  split; [|split; [done|split; [done|by rewrite Hp; lia]]].
  apply (owned_same user m m' h xs); [done|done|by rewrite Ex|..].
  - intros b Hb Hb'. by rewrite Hp in Hb.
  - intros b. by rewrite Hp.
Qed.

Lemma step_move i j (front : bool) :
  let op := if front then LMoveFront i j else LMoveBack i j in
  op_valid op (Z.of_nat (length xs)) = true ->
  step_post malloc k user m h xs op
    (d ← nth_elem m (list_elem h) i; c ← nth_elem m (list_elem h) j;
     '(r, m) ← (if front then list_move_front m d c else list_move_back m d c); Some (LCode r, m)).
Proof.
  intros op Hv. assert (Hv' := Hv).
  destruct (move_places i j) as (x1 & x & d & x2 & a & Ex & Hl & -> & -> & Ha).
  { subst op. by destruct front. }
  cbn [mbind option_bind]. pose proof (ow_rep _ _ _ _ Ho) as Hr. rewrite Ex in Hr.
  assert (delete (j - 1)%nat (snd <$> xs) = snd <$> x1 ++ x2) as Hdel.
  { rewrite Ex, !fmap_app. cbn. rewrite <- Hl, <- (length_fmap snd x1). apply delete_middle. }
  assert ((snd <$> xs) !! (j - 1)%nat = Some d) as Hd.
  { rewrite Ex, fmap_app, lookup_app_r, length_fmap by (rewrite length_fmap; lia).
    by replace (j - 1 - length x1)%nat with 0%nat by lia. }
  destruct front; subst op.
  - destruct (move_within m h x1 x2 x d _ _ Hr (eq_sym (front_cut_app (without j i) _))) as [Hmv _].
    destruct (Hmv a (place_front _ _ _ _ Ha)) as (m' & -> & Hr' & Hs). cbn [mbind option_bind].
    apply (moved_post _ x1 x d x2 _ _ m' Ex (eq_sym (front_cut_app (without j i) _)) Hr' Hs).
    unfold spec_step. rewrite length_fmap, Hv'. cbn [negb]. rewrite Hdel, Hd. cbn [default].
    by rewrite (put_front_snd _ _ x d).
  - destruct (move_within m h x1 x2 x d _ _ Hr (eq_sym (take_drop (without j i) _))) as [_ Hmv].
    destruct (Hmv a (place_back _ _ _ _ Ha)) as (m' & -> & Hr' & Hs). cbn [mbind option_bind].
    apply (moved_post _ x1 x d x2 _ _ m' Ex (eq_sym (take_drop (without j i) _)) Hr' Hs).
    unfold spec_step. rewrite length_fmap, Hv'. cbn [negb]. rewrite Hdel, Hd. cbn [default].
    by rewrite (put_back_snd _ _ x d).
Qed.

(** An operation that only reads. *)
Lemma read_post op o :
  spec_step user true op (snd <$> xs) = (o, snd <$> xs) -> step_post malloc k user m h xs op (Some (o, m)).
Proof. intros Hs. exists true, o, m, xs. split; [done|]. split; [done|]. split; [done|]. split; [done|]. lia. Qed.

Lemma list_step_ok op :
  op_ok user op -> (length xs < fuel)%nat -> Z.of_nat (length xs) < 2 ^ 31 ->
  step_post malloc k user m h xs op (list_step malloc fuel (list_elem h) op m).
Proof.
  intros Hop Hf Hn. pose proof (ow_rep _ _ _ _ Ho) as Hr. unfold list_step.
  rewrite (list_size_spec m h xs fuel Hr Hf Hn). cbn [mbind option_bind].
  destruct (op_valid op (Z.of_nat (length xs))) eqn:Hv; cbn [negb].
  2:{ apply read_post. unfold spec_step. by rewrite length_fmap, Hv. }
  pose proof (eq_refl (spec_step user true op (snd <$> xs))) as Hsp. unfold spec_step in Hsp at 2.
  rewrite length_fmap, Hv in Hsp. cbn [negb] in Hsp.
  destruct op as [i e len|i e len|i|i j|i j|i| | | | |].
  - destruct Hop as [d Hb]. apply andb_true_iff in Hv as [Hv _]. apply valid_pos in Hv.
    apply (step_insert_front i e len d); [lia|done].
  - destruct Hop as [d Hb]. apply andb_true_iff in Hv as [Hv _]. apply valid_pos in Hv.
    apply (step_insert_back i e len d); [lia|done].
  - by apply step_erase.
  - by apply (step_move i j true).
  - by apply (step_move i j false).
  - apply andb_true_iff in Hv as [Hv _]. apply valid_pos in Hv. destruct (nth_place i ltac:(lia)) as (a & Ha & ->).
    cbn [mbind option_bind]. rewrite (deref_pos m h xs i a Hr Ha). by apply read_post.
  - pose proof (list_first_spec m h xs Hr) as E.
    destruct (list_first m (list_elem h)) as [p|]; [|done]. cbn [mbind option_bind] in E |- *. rewrite E. by apply read_post.
  - pose proof (list_last_spec m h xs Hr) as E.
    destruct (list_last m (list_elem h)) as [p|]; [|done]. cbn [mbind option_bind] in E |- *. rewrite E. by apply read_post.
  - by apply read_post.
  - rewrite (list_empty_spec m h xs Hr). apply read_post. rewrite Hsp. by destruct xs.
  - destruct (list_clear_spec m h xs fuel Hr Hf) as (m' & -> & Hr' & Hs & Hfree).
    exists true, LVoid, m', []. split; [done|]. split; [|split; [done|split; [done|cbn; lia]]].
    apply (owned_same user m m' h xs); [done|done|done| |by intros b ?%elem_of_nil].
    intros b Hb Hb'. apply Hfree. apply elem_of_cons in Hb as [->|?]; [exfalso; apply Hb'; by left|done].
Qed.
End Steps.

(** ** The elements the client keeps

    To the list they are memory of the client, which holds the magic numbers. *)

Definition kept (n : Z * bytes) : list_node_t := mk_node PREV_MAGIC NEXT_MAGIC (snd n).

Fixpoint with_kept (m0 : lmem) (l : list (Z * bytes)) : lmem :=
  match l with [] => m0 | n :: l => <[fst n := kept n]> (with_kept m0 l) end.

(** The nodes [l] are the client's: none was in the memory the list was made in. *)
Definition keeps (m0 : lmem) (l : list (Z * bytes)) : Prop :=
  NoDup (fst <$> l) /\ Forall (fun n => m0 !! fst n = None /\ 0 < fst n < 2 ^ 47) l.

Lemma with_kept_off m0 l a : a ∉ fst <$> l -> with_kept m0 l !! a = m0 !! a.
Proof.
  induction l as [|n l IH]; [done|]. cbn. rewrite not_elem_of_cons. intros [Hn Ha].
  by rewrite lookup_insert_ne, IH.
Qed.

Lemma with_kept_in m0 l j n : keeps m0 l -> l !! j = Some n -> with_kept m0 l !! fst n = Some (kept n).
Proof.
  intros [Hnd _]. revert j. induction l as [|n' l IH]; [done|]. cbn in Hnd |- *. apply NoDup_cons in Hnd as [Hn' Hnd].
  intros [|j] Hj; [injection Hj as ->; apply lookup_insert_eq|]. cbn in Hj. rewrite lookup_insert_ne; [by apply (IH Hnd j)|].
  intros E. apply Hn'. rewrite E. apply list_elem_of_fmap. exists n. split; [done|]. by eapply list_elem_of_lookup_2.
Qed.

Lemma kept_addr m0 l j n : keeps m0 l -> l !! j = Some n -> m0 !! fst n = None /\ 0 < fst n < 2 ^ 47.
Proof. intros [_ Hf] Hj. exact (Forall_lookup_1 _ _ _ _ Hf Hj). Qed.

Lemma keeps_delete m0 l j : keeps m0 l -> keeps m0 (delete j l).
Proof.
  intros [Hnd Hf]. split; [|by apply Forall_delete]. rewrite list_fmap_delete.
  by eapply sublist_NoDup; [|apply sublist_delete].
Qed.

Lemma with_kept_delete m0 l j n :
  keeps m0 l -> l !! j = Some n -> with_kept m0 (delete j l) = delete (fst n) (with_kept m0 l).
Proof.
  intros Hk Hj. revert j Hj. induction l as [|n' l IH]; [done|]. destruct Hk as [Hnd Hf]. cbn in Hnd.
  apply NoDup_cons in Hnd as [Hn' Hnd]. apply Forall_cons in Hf as [[H0 _] Hf]. intros [|j] Hj.
  - injection Hj as ->. cbn. rewrite delete_insert_id; [done|]. by rewrite with_kept_off.
  - change (<[fst n' := kept n']> (with_kept m0 (delete j l)) = delete (fst n) (<[fst n' := kept n']> (with_kept m0 l))).
    rewrite (IH (conj Hnd Hf) j Hj), delete_insert_ne; [done|]. intros E. apply Hn'. rewrite <- E.
    apply list_elem_of_fmap. exists n. split; [done|]. by eapply list_elem_of_lookup_2.
Qed.

Lemma with_kept_size m0 l : (size (with_kept m0 l) <= size m0 + length l)%nat.
Proof.
  induction l as [|n l IH]; cbn; [lia|]. rewrite map_size_insert. destruct (with_kept m0 l !! fst n); cbn; lia.
Qed.

Lemma kept_buffer m0 l e len d : keeps m0 l -> buffer m0 e len d -> buffer (with_kept m0 l) e len d.
Proof.
  intros [_ Hf] (H1 & H2 & nd & Hnd & H3). split; [done|]. split; [done|]. exists nd. split; [|done].
  rewrite with_kept_off; [done|]. intros (n & E & Hn)%list_elem_of_fmap.
  rewrite Forall_forall in Hf. destruct (Hf n Hn) as [H0 _]. rewrite <- E in H0. congruence.
Qed.

Lemma spec_step_kept m0 l ok op q :
  keeps m0 l -> op_ok m0 op -> spec_step (with_kept m0 l) ok op q = spec_step m0 ok op q.
Proof.
  intros Hk Hop. destruct op as [i e len|i e len| | | | | | | | |]; try done; destruct Hop as [d Hb]; unfold spec_step;
    by rewrite (buffer_contents _ e len d Hb), (buffer_contents _ e len d (kept_buffer m0 l e len d Hk Hb)).
Qed.

Definition call_ok (user : lmem) (c : ccall) : Prop :=
  alloc_ok (fst c) /\
  match snd c with
  | Call op => op_ok user op
  | PushFront e len | PushBack e len => exists d, buffer user e len d
  | ReuseFront _ _ len | ReuseBack _ _ len => 0 < len
  | _ => True
  end.

(** The list of [xs], and the client's elements [l]. *)
Record holds (m0 : lmem) (h : Z) (xs l : list (Z * bytes)) (w : lmem * list Z) : Prop := {
  ho_owned : owned (with_kept m0 l) (fst w) h xs;
  ho_keeps : keeps m0 l;
  ho_hand : snd w = (fun n => list_elem (fst n)) <$> l;
}.

(** What becomes of the client's memory when an element changes hands. *)
Lemma mid_out m h x1 x2 x d b :
  list_rep m h (x1 ++ (x, d) :: x2) ->
  b ∈ h :: (fst <$> x1 ++ (x, d) :: x2) <-> b = x \/ b ∈ h :: (fst <$> x1 ++ x2).
Proof. intros _. rewrite !fmap_app. cbn. rewrite !elem_of_cons, !elem_of_app, elem_of_cons. tauto. Qed.

Lemma mid_not_in m h x1 x2 x d : list_rep m h (x1 ++ (x, d) :: x2) -> x ∉ h :: (fst <$> x1 ++ x2).
Proof.
  intros Hr. destruct (lr_ring _ _ _ Hr) as [Hnd _]. revert Hnd.
  assert (h :: (fst <$> x1 ++ (x, d) :: x2) ≡ₚ x :: h :: (fst <$> x1 ++ x2)) as ->.
  { rewrite <- Permutation_middle. cbn. constructor. }
  by intros [? _]%NoDup_cons.
Qed.

Lemma owned_erase_part user m m' h x1 x2 x d :
  owned user m h (x1 ++ (x, d) :: x2) -> list_rep m' h (x1 ++ x2) -> m' !! x = left_over ELIST_ERASE_PART d ->
  same_off (h :: (fst <$> x1 ++ (x, d) :: x2)) m m' ->
  owned (<[x := kept (x, d)]> user) m' h (x1 ++ x2) /\ user !! x = None.
Proof.
  intros Ho Hr Hx Hs. pose proof (mid_not_in _ _ _ _ _ _ (ow_rep _ _ _ _ Ho)) as Hxn.
  split; [constructor; [done|..]|apply (ow_fresh _ _ _ _ Ho), mid_in].
  - intros b Hb. destruct (decide (b = x)) as [->|Hbx]; [by rewrite lookup_insert_eq|].
    rewrite lookup_insert_ne by done. assert (b ∉ h :: (fst <$> x1 ++ (x, d) :: x2)) as Hb'.
    { rewrite (mid_out m h x1 x2 x d b (ow_rep _ _ _ _ Ho)). tauto. }
    rewrite Hs by done. by apply (ow_rest _ _ _ _ Ho).
  - intros b Hb. rewrite lookup_insert_ne by (intros <-; done). apply (ow_fresh _ _ _ _ Ho).
    rewrite (mid_out m h x1 x2 x d b (ow_rep _ _ _ _ Ho)). by right.
Qed.

Lemma owned_reuse user m m' h y1 y2 x d :
  owned user m h (y1 ++ y2) -> list_rep m' h (y1 ++ (x, d) :: y2) -> x ∉ h :: (fst <$> y1 ++ y2) ->
  same_off (h :: (fst <$> y1 ++ (x, d) :: y2)) m m' -> owned (delete x user) m' h (y1 ++ (x, d) :: y2).
Proof.
  intros Ho Hr Hx Hs. constructor; [done|..].
  - intros b Hb. rewrite Hs by done. rewrite (mid_out m' h y1 y2 x d b Hr) in Hb.
    rewrite lookup_delete_ne by naive_solver. apply (ow_rest _ _ _ _ Ho). tauto.
  - intros b Hb. rewrite (mid_out m' h y1 y2 x d b Hr) in Hb. destruct Hb as [->|Hb]; [apply lookup_delete_eq|].
    rewrite lookup_delete_None. right. by apply (ow_fresh _ _ _ _ Ho).
Qed.

Lemma owned_free user m h xs x :
  owned user m h xs -> x ∉ h :: (fst <$> xs) -> owned (delete x user) (delete x m) h xs.
Proof.
  intros Ho Hx. constructor.
  - apply (rep_frame m _ [x] h xs (ow_rep _ _ _ _ Ho)).
    + intros b Hb. apply lookup_delete_ne. intros <-. apply Hb. by left.
    + intros b Hb Hb'%list_elem_of_singleton. by subst.
  - intros b Hb. destruct (decide (b = x)) as [->|Hbx]; [by rewrite !lookup_delete_eq|].
    rewrite !lookup_delete_ne by done. by apply (ow_rest _ _ _ _ Ho).
  - intros b Hb. rewrite lookup_delete_None. right. by apply (ow_fresh _ _ _ _ Ho).
Qed.

(** The place before a cut. *)
Lemma last_place (x1 x2 : list (Z * bytes)) h c :
  last (h :: (fst <$> x1)) = Some c -> (h :: (fst <$> x1 ++ x2)) !! length x1 = Some c.
Proof.
  intros Hc. rewrite last_lookup in Hc. cbn in Hc. rewrite length_fmap in Hc.
  rewrite fmap_app, app_comm_cons, lookup_app_l; [done|]. cbn. rewrite length_fmap. lia.
Qed.

Lemma at_pos_cut (q1 q2 : list bytes) d : at_pos (q1 ++ d :: q2) (length q1) = at_pos (q1 ++ q2) (length q1).
Proof.
  destruct (length q1) as [|n] eqn:E; [done|]. cbn [at_pos]. by rewrite !lookup_app_l by lia.
Qed.

(** Walking backwards from the head. *)
Lemma linked_prev m L i a b : linked m L -> L !! i = Some a -> L !! S i = Some b -> get_prev m b = Some a.
Proof.
  revert i. induction L as [|x [|y L] IH]; [done|by intros [|i]|]. intros i (_ & Hp & Hl). destruct i as [|i].
  - by intros [= <-] [= <-].
  - by apply IH.
Qed.

Lemma nth_prev_linked m L p i : forall a b,
  linked m L -> (forall z, z ∈ L -> 0 < z) -> L !! (i + p)%nat = Some a -> L !! p = Some b ->
  nth_prev m (list_elem a) i = Some (list_elem b).
Proof.
  induction i as [|i IH]; intros a b Hl Hz Ha Hb; [cbn in Ha |- *; congruence|]. cbn [nth_prev].
  destruct (lookup_lt_is_Some_2 L (i + p)) as [c Hc]; [apply lookup_lt_Some in Ha; lia|].
  assert (0 < a) as Ha0 by (apply Hz; by eapply list_elem_of_lookup_2).
  unfold list_prev_elem. rewrite elem_node, (proj2 (Z.eqb_neq a 0)) by lia. cbn [negb].
  rewrite (linked_prev m L _ c a Hl Hc Ha). cbn [mbind option_bind]. by apply IH.
Qed.

Lemma nth_prev_rep m h xs i :
  list_rep m h xs -> (i <= length xs)%nat ->
  exists a, (h :: (fst <$> xs)) !! (match i with O => O | S k => length xs - k end)%nat = Some a /\
    nth_prev m (list_elem h) i = Some (list_elem a).
Proof.
  intros Hr Hi. assert ((h :: (fst <$> xs) ++ [h]) !! S (length xs) = Some h) as Hh.
  { change (((fst <$> xs) ++ [h]) !! length xs = Some h). by rewrite list_lookup_middle by (by rewrite length_fmap). }
  destruct i as [|k]; [by exists h|].
  destruct (lookup_fst xs h (length xs - k)) as [a Ha]; [lia|]. exists a. split; [done|].
  apply (nth_prev_linked m (h :: (fst <$> xs) ++ [h]) (length xs - k) (S k) h a).
  - apply Hr.
  - intros z Hz. apply (lr_pos m h xs z Hr). rewrite app_comm_cons in Hz.
    apply elem_of_app in Hz as [?|E%list_elem_of_singleton]; [done|subst; by left].
  - rewrite <- Hh. f_equal. lia.
  - rewrite app_comm_cons, lookup_app_l; [done|]. by eapply lookup_lt_Some.
Qed.

(** What one call has to show. *)
Definition client_post (malloc : alloc_fun) (k : nat) (m0 : lmem) (h : Z) (xs l : list (Z * bytes)) (op : cop)
  (res : option (lout * (lmem * list Z))) : Prop :=
  exists ok o w' xs' l', res = Some (o, w') /\ holds m0 h xs' l' w' /\
    client_spec m0 ok op (snd <$> xs, snd <$> l) = (o, (snd <$> xs', snd <$> l')) /\
    (alloc_total malloc k -> ok = (true, true)) /\
    (length xs' + length l' <= S (S (length xs + length l)))%nat.

Section Client.
Context (malloc : alloc_fun) (fuel k : nat) (m0 m : lmem) (h : Z) (xs l : list (Z * bytes)) (hand : list Z).
Context (Hm : alloc_ok malloc) (Hw : holds m0 h xs l (m, hand)).
Context (Hk : (size m0 + S (S (length xs + length l)) <= k)%nat).

Let user : lmem := with_kept m0 l.
Let Ho : owned user m h xs := ho_owned _ _ _ _ _ Hw.
Let Hr : list_rep m h xs := ow_rep _ _ _ _ Ho.

Lemma kept_holds_same m' xs' : owned user m' h xs' -> holds m0 h xs' l (m', hand).
Proof. intros H. constructor; [done|..]; apply Hw. Qed.

Lemma size_bound m' xs' :
  owned user m' h xs' -> (length xs' <= S (length xs))%nat -> (size m' <= k)%nat.
Proof. intros H%owned_size Hl. pose proof (with_kept_size m0 l). subst user. lia. Qed.

(** A call that leaves everything as it is. *)
Lemma client_idle op o :
  client_spec m0 (true, true) op (snd <$> xs, snd <$> l) = (o, (snd <$> xs, snd <$> l)) ->
  client_post malloc k m0 h xs l op (Some (o, (m, hand))).
Proof. intros Hs. exists (true, true), o, (m, hand), xs, l. split; [done|]. split; [done|]. split; [done|]. split; [done|]. lia. Qed.

Lemma client_call op :
  op_ok m0 op -> (length xs < fuel)%nat -> Z.of_nat (length xs) < 2 ^ 31 ->
  client_post malloc k m0 h xs l (Call op)
    ('(o, m) ← list_step malloc fuel (list_elem h) op m; Some (o, (m, hand))).
Proof.
  intros Hop Hf Hn. pose proof (ho_keeps _ _ _ _ _ Hw) as Hkp.
  assert (op_ok user op) as Hop'.
  { destruct op as [i e len|i e len| | | | | | | | |]; try done; destruct Hop as [d Hb]; exists d; by apply kept_buffer. }
  destruct (list_step_ok malloc fuel k user m h xs Hm Ho (size_bound _ _ Ho ltac:(lia)) op Hop' Hf Hn)
    as (ok & o & m' & xs' & -> & Ho' & Hs & Hok & Hl). cbn [mbind option_bind].
  exists (ok, true), o, (m', hand), xs', l. split; [done|]. split; [by apply kept_holds_same|]. split; [|split; [|lia]].
  - unfold client_spec. cbn [fst]. unfold user in Hs. rewrite spec_step_kept in Hs by done. by rewrite Hs.
  - intros Ht. by rewrite Hok.
Qed.

(** A push, back and front, is two insertions at the head. *)
Lemma client_push_front e len d :
  buffer m0 e len d ->
  client_post malloc k m0 h xs l (PushFront e len)
    ('(p, m) ← list_push_front malloc m (list_elem h) e len; o ← deref m (list_elem h) p; Some (o, (m, hand))).
Proof.
  intros Hb. assert (buffer user e len d) as Hbu by (by apply kept_buffer; [apply Hw|]).
  pose proof (insert_back_spec malloc m h [] xs h e len d Hm Hr eq_refl (owned_buffer _ _ _ _ _ _ _ Ho Hbu)) as Hi1.
  destruct (ins_owned malloc k user m h xs Ho (size_bound _ _ Ho ltac:(lia)) [] xs len d _ eq_refl Hi1)
    as (ok1 & p1 & m1 & xs1 & E1 & _ & Ho1 & Hok1 & Hx1).
  assert (length xs1 <= S (length xs))%nat as Hl1 by (destruct ok1; [destruct Hx1 as [a ->]; cbn; lia|by rewrite Hx1; lia]).
  pose proof (insert_back_spec malloc m1 h [] xs1 h e len d Hm (ow_rep _ _ _ _ Ho1) eq_refl (owned_buffer _ _ _ _ _ _ _ Ho1 Hbu)) as Hi2.
  destruct (ins_owned malloc k user m1 h xs1 Ho1 (size_bound _ _ Ho1 Hl1) [] xs1 len d _ eq_refl Hi2)
    as (ok2 & p2 & m2 & xs2 & E2 & Hd & Ho2 & Hok2 & Hx2).
  unfold list_push_front. rewrite E1. cbn [mbind option_bind]. rewrite E2. cbn [mbind option_bind]. rewrite Hd.
  cbn [mbind option_bind].
  exists (ok1, ok2), (if ok2 then LElem d else LNil), (m2, hand), xs2, l.
  split; [done|]. split; [by apply kept_holds_same|]. split; [|split].
  - unfold client_spec, put_back. cbn [fst snd take drop app]. rewrite (buffer_contents m0 e len d Hb).
    destruct ok1, ok2; repeat match goal with H : exists _, _ |- _ => destruct H end; by subst.
  - intros Ht. by rewrite Hok1, Hok2.
  - destruct ok2; [destruct Hx2 as [a ->]; cbn; lia|by rewrite Hx2; lia].
Qed.

Lemma client_push_back e len d :
  buffer m0 e len d ->
  client_post malloc k m0 h xs l (PushBack e len)
    ('(p, m) ← list_push_back malloc m (list_elem h) e len; o ← deref m (list_elem h) p; Some (o, (m, hand))).
Proof.
  intros Hb. assert (buffer user e len d) as Hbu by (by apply kept_buffer; [apply Hw|]).
  assert (forall m ys, list_rep m h ys -> list_rep m h (ys ++ [])) as Hnil by (intros ? ys; by rewrite app_nil_r).
  pose proof (insert_front_spec malloc m h xs [] h e len d Hm (Hnil _ _ Hr) eq_refl (owned_buffer _ _ _ _ _ _ _ Ho Hbu)) as Hi1.
  destruct (ins_owned malloc k user m h xs Ho (size_bound _ _ Ho ltac:(lia)) xs [] len d _ (app_nil_r _) Hi1)
    as (ok1 & p1 & m1 & xs1 & E1 & _ & Ho1 & Hok1 & Hx1).
  assert (length xs1 <= S (length xs))%nat as Hl1.
  { destruct ok1; [destruct Hx1 as [a ->]; rewrite length_app; cbn; lia|by rewrite Hx1; lia]. }
  pose proof (insert_front_spec malloc m1 h xs1 [] h e len d Hm (Hnil _ _ (ow_rep _ _ _ _ Ho1)) eq_refl (owned_buffer _ _ _ _ _ _ _ Ho1 Hbu)) as Hi2.
  destruct (ins_owned malloc k user m1 h xs1 Ho1 (size_bound _ _ Ho1 Hl1) xs1 [] len d _ (app_nil_r _) Hi2)
    as (ok2 & p2 & m2 & xs2 & E2 & Hd & Ho2 & Hok2 & Hx2).
  unfold list_push_back. rewrite E1. cbn [mbind option_bind]. rewrite E2. cbn [mbind option_bind]. rewrite Hd.
  cbn [mbind option_bind].
  exists (ok1, ok2), (if ok2 then LElem d else LNil), (m2, hand), xs2, l.
  split; [done|]. split; [by apply kept_holds_same|]. split; [|split].
  - unfold client_spec, put_front. cbn [fst snd]. rewrite (buffer_contents m0 e len d Hb).
    destruct ok1, ok2; repeat match goal with H : exists _, _ |- _ => destruct H end; subst; by rewrite ?fmap_app.
  - intros Ht. by rewrite Hok1, Hok2.
  - destruct ok2; [destruct Hx2 as [a ->]; rewrite length_app; cbn; lia|by rewrite Hx2; lia].
Qed.

Lemma client_get_back i :
  client_post malloc k m0 h xs l (GetBack i)
    (if negb (Z.of_nat i <=? Z.of_nat (length xs)) then Some (LVoid, (m, hand))
     else c ← nth_prev m (list_elem h) i; o ← deref m (list_elem h) c; Some (o, (m, hand))).
Proof.
  destruct (negb _) eqn:Ev; [apply client_idle; cbn; by rewrite length_fmap, Ev|].
  assert (i <= length xs)%nat as Hi by (apply negb_false_iff, Z.leb_le in Ev; lia).
  destruct (nth_prev_rep m h xs i Hr Hi) as (a & Ha & ->). cbn [mbind option_bind].
  rewrite (deref_pos m h xs _ a Hr Ha). apply client_idle. cbn. by rewrite length_fmap, Ev.
Qed.

Lemma client_erase_part i :
  client_post malloc k m0 h xs l (ErasePart i)
    (if negb (op_valid (LErase i) (Z.of_nat (length xs))) then Some (LVoid, (m, hand))
     else c ← nth_elem m (list_elem h) i; '(p, m) ← list_erase m (list_elem h) c ELIST_ERASE_PART;
          o ← deref m (list_elem h) p; Some (o, (m, c :: hand))).
Proof.
  destruct (negb _) eqn:Ev; [apply client_idle; cbn; by rewrite length_fmap, Ev|].
  assert (1 <= i <= length xs)%nat as Hi.
  { apply negb_false_iff, andb_true_iff in Ev as [Ev Hz]. apply valid_pos in Ev. apply negb_true_iff, Nat.eqb_neq in Hz. lia. }
  destruct (split_at xs i Hi) as (x1 & x & d & x2 & Ex & Hl).
  assert ((h :: (fst <$> xs)) !! i = Some x) as Hxi.
  { destruct i as [|i]; [lia|]. change ((fst <$> xs) !! i = Some x). rewrite Ex, fmap_app.
    rewrite lookup_app_r, length_fmap by (rewrite length_fmap; lia). by replace (i - length x1)%nat with 0%nat by lia. }
  rewrite (nth_rep m h xs i x Hr Hxi). cbn [mbind option_bind].
  destruct (last_or h (fst <$> x1)) as [c Hc]. assert (Hr' := Hr). rewrite Ex in Hr'.
  destruct (node_erase_spec m h x1 x2 x d c ELIST_ERASE_PART Hr' Hc) as (m' & -> & Hrm & Hx & Hs). cbn [mbind option_bind].
  rewrite (deref_pos m' h _ _ c Hrm (last_place _ _ _ _ Hc)). cbn [mbind option_bind].
  exists (true, true), (at_pos (snd <$> x1 ++ x2) (length x1)), (m', list_elem x :: hand), (x1 ++ x2), ((x, d) :: l).
  destruct (owned_erase_part user m m' h x1 x2 x d) as [Ho' Hxu]; [by rewrite <- Ex|done..|].
  split; [done|]. split; [|split; [|split; [done|]]].
  - pose proof (ho_keeps _ _ _ _ _ Hw) as [Hnd Hf]. pose proof (ho_hand _ _ _ _ _ Hw) as Hh. cbn [fst snd] in Hh. constructor; [done| |cbn; by rewrite <- Hh].
    assert (x ∉ fst <$> l) as Hxl.
    { intros (n & -> & Hn)%list_elem_of_fmap. apply list_elem_of_lookup in Hn as [j Hj]. unfold user in Hxu.
      rewrite (with_kept_in m0 l j n) in Hxu; [done|by split|done]. }
    split; [by apply NoDup_cons|]. apply Forall_cons. split; [|done]. cbn. split.
    + rewrite <- (with_kept_off m0 l x Hxl). exact Hxu.
    + apply (lr_pos m h xs x Hr). rewrite Ex. apply mid_in.
  - unfold client_spec. rewrite length_fmap, Ev, Ex, !fmap_app. cbn [fmap list_fmap fst snd].
    rewrite <- Hl, <- (length_fmap snd x1), delete_middle, list_lookup_middle by done. cbn [default]. f_equal.
    by rewrite at_pos_cut.
  - rewrite Ex, !length_app. cbn. lia.
Qed.

(** Freeing a kept element, or inserting it again. *)
Lemma hand_at j :
  hand !! j = (fun n => list_elem (fst n)) <$> l !! j.
Proof. pose proof (ho_hand _ _ _ _ _ Hw) as Hh. cbn in Hh. by rewrite Hh, list_lookup_fmap. Qed.

Lemma hand_delete j m' xs' n :
  l !! j = Some n -> owned (delete (fst n) user) m' h xs' -> holds m0 h xs' (delete j l) (m', delete j hand).
Proof.
  intros Hj Ho'. constructor.
  - rewrite (with_kept_delete m0 l j n); [done|apply Hw|done].
  - apply keeps_delete, Hw.
  - cbn. rewrite list_fmap_delete. f_equal. apply Hw.
Qed.

Lemma kept_here j n : l !! j = Some n -> user !! fst n = Some (kept n) /\ m !! fst n = Some (kept n) /\
  fst n ∉ h :: (fst <$> xs) /\ 0 < fst n < 2 ^ 47.
Proof.
  intros Hj. pose proof (with_kept_in m0 l j n (ho_keeps _ _ _ _ _ Hw) Hj) as Hu. split; [done|].
  assert (fst n ∉ h :: (fst <$> xs)) as Hn.
  { intros Hn. pose proof (ow_fresh _ _ _ _ Ho _ Hn) as Hf. unfold user in Hf. congruence. }
  split; [by rewrite (ow_rest _ _ _ _ Ho _ Hn)|]. split; [done|]. by eapply kept_addr; [apply Hw|].
Qed.

Lemma client_release j :
  client_post malloc k m0 h xs l (Release j)
    match hand !! j with
    | Some x => '(p, m) ← list_erase m (list_elem h) x ELIST_ERASE_FULL; o ← deref m (list_elem h) p; Some (o, (m, delete j hand))
    | None => Some (LVoid, (m, hand))
    end.
Proof.
  rewrite hand_at. destruct (l !! j) as [[x d]|] eqn:Hj; cbn [fmap option_fmap option_map fst].
  2:{ apply client_idle. cbn. by rewrite list_lookup_fmap, Hj. }
  destruct (kept_here j _ Hj) as (Hu & Hmx & Hx & Ha). cbn in Hu, Hmx, Hx, Ha.
  unfold list_erase. rewrite elem_nonzero, elem_node, (proj2 (Z.eqb_neq x 0)), elem_eqb by lia.
  rewrite (proj2 (Z.eqb_neq h x)) by (intros ->; apply Hx; by left).
  unfold list_check_magic, list_elem_dealloc, list_node_dealloc. rewrite elem_node, Hmx. cbn [mbind option_bind kept n_prev n_next].
  rewrite !Z.eqb_refl. cbn [andb negb mbind option_bind Z.eqb]. rewrite (proj2 (Z.eqb_neq x 0)) by lia.
  change (ELIST_ERASE_FULL =? ELIST_ERASE_FULL) with true. rewrite Hmx. cbn [mbind option_bind deref Z.eqb].
  exists (true, true), LNil, (delete x m, delete j hand), xs, (delete j l).
  split; [done|]. split; [|split; [|split; [done|]]].
  - apply (hand_delete j _ _ (x, d) Hj). by apply owned_free.
  - cbn. by rewrite list_lookup_fmap, Hj, list_fmap_delete.
  - rewrite length_delete by eauto. lia.
Qed.

(** The result of an insertion of a kept element. *)
Lemma client_reuse op j x d y1 y2 o :
  l !! j = Some (x, d) -> y1 ++ y2 = xs -> recycled m h y1 y2 x d o ->
  client_spec m0 (true, true) op (snd <$> xs, snd <$> l) =
    (LElem d, (snd <$> y1 ++ (x, d) :: y2, delete j (snd <$> l))) ->
  client_post malloc k m0 h xs l op
    ('(p, m) ← o; o ← deref m (list_elem h) p; Some (o, (m, delete j hand))).
Proof.
  intros Hj Hy (m' & -> & Hr' & Hs & _) Hsp. cbn [mbind option_bind].
  assert ((h :: (fst <$> y1 ++ (x, d) :: y2)) !! S (length y1) = Some x) as Hi.
  { change ((fst <$> y1 ++ (x, d) :: y2) !! length y1 = Some x). by rewrite fmap_app, fmap_cons, list_lookup_middle by (by rewrite length_fmap). }
  rewrite (deref_pos m' h _ _ x Hr' Hi). cbn [at_pos mbind option_bind].
  rewrite fmap_app, fmap_cons, list_lookup_middle by (by rewrite length_fmap). cbn [default fmap option_fmap option_map].
  exists (true, true), (LElem d), (m', delete j hand), (y1 ++ (x, d) :: y2), (delete j l).
  split; [done|]. split; [|split; [|split; [done|]]].
  - apply (hand_delete j _ _ (x, d) Hj). destruct (kept_here j _ Hj) as (_ & _ & Hx & _). cbn in Hx.
    apply (owned_reuse user m m' h y1 y2 x d); rewrite ?Hy; done.
  - by rewrite Hsp, list_fmap_delete.
  - rewrite <- Hy, !length_app. cbn. rewrite length_delete by eauto. lia.
Qed.

Lemma client_reuse_front i j len :
  0 < len ->
  client_post malloc k m0 h xs l (ReuseFront i j len)
    match hand !! j with
    | Some x =>
        if negb (Z.of_nat i <=? Z.of_nat (length xs)) then Some (LVoid, (m, hand))
        else c ← nth_elem m (list_elem h) i; '(p, m) ← list_insert_front malloc m c x len;
             o ← deref m (list_elem h) p; Some (o, (m, delete j hand))
    | None => Some (LVoid, (m, hand))
    end.
Proof.
  intros Hlen. rewrite hand_at. destruct (l !! j) as [[x d]|] eqn:Hj; cbn [fmap option_fmap option_map fst].
  2:{ apply client_idle. cbn. by rewrite list_lookup_fmap, Hj. }
  destruct (negb _) eqn:Ev; [apply client_idle; cbn; by rewrite list_lookup_fmap, Hj, length_fmap; cbn; rewrite Ev|].
  assert (i <= length xs)%nat as Hi by (apply negb_false_iff, Z.leb_le in Ev; lia).
  destruct (lookup_fst xs h i Hi) as [a Ha]. rewrite (nth_rep m h xs i a Hr Ha). cbn [mbind option_bind].
  pose proof (front_cut_app i xs) as Hx. assert (Hr' := Hr). rewrite <- Hx in Hr'.
  destruct (kept_here j _ Hj) as (_ & Hmx & Hxn & Hxa). cbn in Hmx, Hxn, Hxa.
  destruct (last_or h (fst <$> fst (front_cut i xs))) as [c Hc].
  apply (client_reuse _ j x d (fst (front_cut i xs)) (snd (front_cut i xs))); [done|done| |].
  - apply (insert_recycled malloc m h _ _ c a x d len); [done|by rewrite Hx|done|by apply place_front|done..].
  - unfold client_spec. rewrite list_lookup_fmap, Hj, length_fmap. cbn [fmap option_fmap option_map snd]. rewrite Ev.
    by rewrite (put_front_snd xs i x d).
Qed.

Lemma client_reuse_back i j len :
  0 < len ->
  client_post malloc k m0 h xs l (ReuseBack i j len)
    match hand !! j with
    | Some x =>
        if negb (Z.of_nat i <=? Z.of_nat (length xs)) then Some (LVoid, (m, hand))
        else c ← nth_elem m (list_elem h) i; '(p, m) ← list_insert_back malloc m c x len;
             o ← deref m (list_elem h) p; Some (o, (m, delete j hand))
    | None => Some (LVoid, (m, hand))
    end.
Proof.
  intros Hlen. rewrite hand_at. destruct (l !! j) as [[x d]|] eqn:Hj; cbn [fmap option_fmap option_map fst].
  2:{ apply client_idle. cbn. by rewrite list_lookup_fmap, Hj. }
  destruct (negb _) eqn:Ev; [apply client_idle; cbn; by rewrite list_lookup_fmap, Hj, length_fmap; cbn; rewrite Ev|].
  assert (i <= length xs)%nat as Hi by (apply negb_false_iff, Z.leb_le in Ev; lia).
  destruct (lookup_fst xs h i Hi) as [a Ha]. rewrite (nth_rep m h xs i a Hr Ha). cbn [mbind option_bind].
  pose proof (take_drop i xs) as Hx. assert (Hr' := Hr). rewrite <- Hx in Hr'.
  destruct (kept_here j _ Hj) as (_ & Hmx & Hxn & Hxa). cbn in Hmx, Hxn, Hxa.
  destruct (head_or h (fst <$> drop i xs)) as [n Hn].
  apply (client_reuse _ j x d (take i xs) (drop i xs)); [done|done| |].
  - apply (insert_back_recycled malloc m h _ _ a n x d len); [done|by rewrite Hx|by apply place_back|done..].
  - unfold client_spec. rewrite list_lookup_fmap, Hj, length_fmap. cbn [fmap option_fmap option_map snd]. rewrite Ev.
    by rewrite (put_back_snd xs i x d).
Qed.

Lemma client_step_ok op :
  call_ok m0 (malloc, op) -> (length xs < fuel)%nat -> Z.of_nat (length xs) < 2 ^ 31 ->
  client_post malloc k m0 h xs l op (client_step fuel (list_elem h) (malloc, op) (m, hand)).
Proof.
  intros [_ Hop] Hf Hn. cbn [snd] in Hop. unfold client_step. rewrite (list_size_spec m h xs fuel Hr Hf Hn).
  cbn [mbind option_bind]. destruct op as [op|e len|e len|i|i|i j len|i j len|j].
  - by apply client_call.
  - destruct Hop as [d Hb]. by apply (client_push_front e len d).
  - destruct Hop as [d Hb]. by apply (client_push_back e len d).
  - apply client_get_back.
  - apply client_erase_part.
  - by apply client_reuse_front.
  - by apply client_reuse_back.
  - apply client_release.
Qed.
End Client.

(** A call whose allocator does not run out below [k] blocks inserts. *)
Definition served (k : nat) (c : ccall) (ok : bool * bool) : Prop := alloc_total (fst c) k -> ok = (true, true).

Lemma client_run_ok fuel k m0 h cs : forall w xs l,
  Forall (call_ok m0) cs -> holds m0 h xs l w ->
  (length xs + length l + 2 * length cs < fuel)%nat ->
  Z.of_nat (length xs + length l + 2 * length cs) < 2 ^ 31 ->
  (size m0 + S (length xs + length l + 2 * length cs) <= k)%nat ->
  exists oks outs w' xs' l', client_run fuel (list_elem h) cs w = Some (outs, w') /\ holds m0 h xs' l' w' /\
    client_specs m0 oks cs (snd <$> xs, snd <$> l) = (outs, (snd <$> xs', snd <$> l')) /\
    Forall2 (served k) cs oks /\ (length xs' < fuel)%nat.
Proof.
  induction cs as [|[malloc op] cs IH]; intros [m hand] xs l Hc Hw Hf Hn Hk.
  - exists [], [], (m, hand), xs, l. cbn in *. split; [done|]. split; [done|]. split; [done|]. split; [constructor|]. lia.
  - apply Forall_cons in Hc as [H1 Hc]. cbn [length] in *. pose proof (proj1 H1) as Hm.
    destruct (client_step_ok malloc fuel k m0 m h xs l hand Hm Hw ltac:(lia) op H1)
      as (ok & o & w1 & xs1 & l1 & E & Hw1 & Hs1 & Hok & Hl1); [lia|lia|].
    destruct (IH w1 xs1 l1 Hc Hw1) as (oks & outs & w' & xs' & l' & E' & Hw' & Hs' & Hoks & Hl'); [lia|lia|lia|].
    exists (ok :: oks), (o :: outs), w', xs', l'. cbn [client_run]. rewrite E. cbn [mbind option_bind]. rewrite E'.
    split; [done|]. split; [done|]. split; [|split; [by constructor|done]].
    cbn [client_specs head tail snd]. change (default (true, true) (Some ok)) with ok. by rewrite Hs1, Hs'.
Qed.

(** An allocator that tries [k + 1] addresses and gives zeroed blocks. *)
Definition candidates (k : nat) : list Z := (fun i => 4096 * (Z.of_nat i + 1)) <$> seq 0 (S k).

Definition malloc_scan (k : nat) : alloc_fun := fun m n =>
  if 2 ^ 32 <=? Z.of_nat k then None
  else a ← head (filter (fun a => m !! a = None) (candidates k)); Some (a, replicate (Z.to_nat n) 0).

Lemma malloc_scan_ok k : alloc_ok (malloc_scan k).
Proof.
  intros m n a b Hn. unfold malloc_scan. destruct (_ <=? _) eqn:Ek; [done|]. to_prop.
  destruct (filter _ _) as [|c t] eqn:E; [done|]. intros [= -> <-].
  assert (a ∈ filter (fun a => m !! a = None) (candidates k)) as Ha by (rewrite E; by left).
  apply list_elem_of_filter in Ha as [Ha Hc]. apply list_elem_of_fmap in Hc as (i & -> & Hi).
  apply elem_of_seq in Hi. unfold blen. rewrite length_replicate. split; [lia|]. split; [done|]. lia.
Qed.

Lemma malloc_scan_total k : Z.of_nat k < 2 ^ 32 -> alloc_total (malloc_scan k) k.
Proof.
  intros Hk m n Hm. unfold malloc_scan. rewrite (proj2 (Z.leb_gt _ _)) by lia.
  destruct (filter _ _) as [|c t] eqn:E; [|eauto]. exfalso.
  assert ((list_to_set (candidates k) : gset Z) ⊆ dom m) as Hsub.
  { intros a Ha. apply elem_of_list_to_set in Ha. apply elem_of_dom. destruct (m !! a) eqn:Em; [done|].
    assert (a ∈ filter (fun a => m !! a = None) (candidates k)) as Hin by (by apply list_elem_of_filter).
    rewrite E in Hin. by apply elem_of_nil in Hin. }
  apply subseteq_size in Hsub. rewrite size_list_to_set, size_dom in Hsub.
  - unfold candidates in Hsub. rewrite length_fmap, length_seq in Hsub. lia.
  - unfold candidates. apply NoDup_fmap_2; [intros i j Hij; lia|apply NoDup_seq].
Qed.

(** C13. A client makes a list and then any calls on it, each with its own
    allocator: insertions before and after any element, pushes (which insert
    twice), erasures that free the element and that do not, insertions and
    frees of the elements so kept, moves, reads from either end, sizes and
    clears. The client names elements by places that are there, and neither
    erases or moves the head nor moves an element next to itself, which the code
    does not test. Every call answers as on plain lists, inserts what its
    allocations allow, and uninit leaves the memory the list was made in with
    the elements the client keeps. *)
Theorem list_refines_seq (malloc : alloc_fun) (m0 : lmem) (old : Z) (cs : list ccall) (fuel : nat) :
  alloc_ok malloc -> Forall (call_ok m0) cs -> (2 * length cs < fuel)%nat -> Z.of_nat (2 * length cs) < 2 ^ 31 ->
  (malloc m0 24 = None /\ list_init malloc m0 (Some old) = Some (-2, m0, Some old)) \/
  exists m lst oks outs m' q l,
    list_init malloc m0 (Some old) = Some (0, m, Some lst) /\
    client_run fuel lst cs (m, []) = Some (outs, (m', (fun n => list_elem (fst n)) <$> l)) /\
    client_specs m0 oks cs ([], []) = (outs, (q, snd <$> l)) /\
    Forall2 (served (S (size m0 + 2 * length cs))) cs oks /\
    list_uninit fuel m' (Some lst) = Some (with_kept m0 l, Some 0).
Proof.
  intros Hm Hc Hf Hn. destruct (list_init_spec malloc m0 old Hm) as [Hfail|(h & m & -> & Hr & Hh & Hs)]; [by left|right].
  assert (holds m0 h [] [] (m, [])) as Hw.
  { constructor; [|split; constructor|done]. constructor; [done|done|]. by intros b ->%list_elem_of_singleton. }
  destruct (client_run_ok fuel (S (size m0 + 2 * length cs)) m0 h cs (m, []) [] [] Hc Hw)
    as (oks & outs & [m' hand] & xs' & l & Hrun & [Ho' _ Hh'] & Hsp & Hoks & Hl); [done|done|cbn; lia|].
  cbn [fst snd] in *. destruct (list_uninit_spec m' h xs' fuel (ow_rep _ _ _ _ Ho') Hl) as (m2 & Hun & Hs2 & Hfree).
  exists m, (list_elem h), oks, outs, m', (snd <$> xs'), l. subst hand. do 4 (split; [done|]). rewrite Hun. do 2 f_equal.
  apply map_eq. intros b. destruct (decide (b ∈ h :: (fst <$> xs'))) as [Hb|Hb].
  - rewrite Hfree by done. symmetry. by apply (ow_fresh _ _ _ _ Ho').
  - rewrite Hs2 by done. by apply (ow_rest _ _ _ _ Ho').
Qed.

(** A client with two buffers. *)
Definition sample_mem : lmem :=
  {[ 1000 := mk_node 7 7 [10; 11; 12; 13]; 2000 := mk_node 0 0 [20; 21; 22; 23] ]}.

(** The third push has memory for one of its two insertions only. *)
Definition sample_calls : list ccall :=
  let malloc := malloc_scan 40 in
  [(malloc, Call (LInsBack 0 1016 4)); (malloc, Call (LInsFront 0 2016 2)); (malloc, Call (LInsBack 1 2016 3));
   (malloc, Call (LMoveFront 1 3)); (malloc, Call (LGet 1)); (malloc, PushFront 1016 2); (malloc, PushBack 2016 1);
   (malloc_scan 8, PushFront 2016 4); (fun _ _ => None, PushBack 1016 4);
   (malloc, GetBack 1); (malloc, GetBack 9); (malloc, ErasePart 2); (malloc, ErasePart 1); (malloc, ErasePart 0);
   (fun _ _ => None, ReuseFront 0 1 9); (fun _ _ => None, ReuseBack 2 0 1); (malloc, ErasePart 1);
   (malloc, ErasePart 1); (malloc, Release 1); (malloc, Release 5); (malloc, Call (LErase 2)); (malloc, Call LSize);
   (malloc, Call (LMoveBack 0 2)); (malloc, Call LFirst); (malloc, Call LLast); (malloc, Call LEmpty);
   (malloc, Call LClear); (malloc, Call LEmpty); (malloc, ReuseFront 0 0 1); (malloc, ErasePart 1)].

Lemma list_calls_ok : Forall (call_ok sample_mem) sample_calls.
Proof.
  assert (forall len, 0 < len <= 4 -> exists d, buffer sample_mem 1016 len d) as H1.
  { intros len Hl. destruct (rd_Some [10; 11; 12; 13] 0 len) as [d Hd]; [lia|lia|unfold blen; cbn; lia|].
    exists d. split; [lia|]. split; [lia|]. eexists. split; [reflexivity|]. split; [exact Hd|]. by intros []. }
  assert (forall len, 0 < len <= 4 -> exists d, buffer sample_mem 2016 len d) as H2.
  { intros len Hl. destruct (rd_Some [20; 21; 22; 23] 0 len) as [d Hd]; [lia|lia|unfold blen; cbn; lia|].
    exists d. split; [lia|]. split; [lia|]. eexists. split; [reflexivity|]. split; [exact Hd|]. by intros []. }
  repeat (apply Forall_cons; split); [..|apply Forall_nil_2];
    (split; [apply malloc_scan_ok || (by intros m n a b)|cbn; try done; (apply H1 || apply H2); lia]).
Qed.

Lemma list_refines_seq_witness :
  (malloc_scan 40 sample_mem 24 = None /\
   list_init (malloc_scan 40) sample_mem (Some 0) = Some (-2, sample_mem, Some 0)) \/
  exists m lst oks outs m' q l,
    list_init (malloc_scan 40) sample_mem (Some 0) = Some (0, m, Some lst) /\
    client_run 61 lst sample_calls (m, []) = Some (outs, (m', (fun n => list_elem (fst n)) <$> l)) /\
    client_specs sample_mem oks sample_calls ([], []) = (outs, (q, snd <$> l)) /\
    Forall2 (served (S (size sample_mem + 2 * length sample_calls))) sample_calls oks /\
    list_uninit 61 m' (Some lst) = Some (with_kept sample_mem l, Some 0).
Proof.
  apply (list_refines_seq (malloc_scan 40) sample_mem 0 sample_calls 61);
    [apply malloc_scan_ok|apply list_calls_ok|cbn; lia|reflexivity].
Defined.

(** What those calls answer: the third push links one node and returns nil. *)
Example list_calls_run :
  match list_init (malloc_scan 40) sample_mem (Some 0) with
  | Some (0, m, Some lst) => fst <$> client_run 61 lst sample_calls (m, [])
  | _ => None
  end =
  Some [LElem [10; 11; 12; 13]; LElem [20; 21]; LElem [20; 21; 22]; LCode 0; LElem [20; 21]; LElem [10; 11];
        LElem [20]; LNil; LNil; LElem [20]; LVoid; LElem [20; 21; 22; 23]; LHead; LVoid; LElem [10; 11];
        LElem [20; 21; 22; 23]; LHead; LHead; LNil; LVoid; LElem [20; 21; 22; 23]; LCode 5; LCode 0;
        LElem [20; 21; 22]; LElem [10; 11]; LCode (-1); LVoid; LCode 0; LElem [20; 21]; LHead].
Proof. vm_compute. reflexivity. Qed.

(** ** Other behaviours *)

(** An element erased with [ELIST_ERASE_PART] and inserted again anywhere in
    the list keeps its node and its bytes: nothing is allocated, so it succeeds
    even when [malloc] fails. *)
Theorem list_recycle (malloc : alloc_fun) (m : lmem) (h : Z) (x1 x2 y1 y2 : list (Z * bytes)) (x : Z) (d : bytes)
  (n len : Z) :
  list_rep m h (x1 ++ (x, d) :: x2) -> x1 ++ x2 = y1 ++ y2 -> head ((fst <$> y2) ++ [h]) = Some n -> 0 < len ->
  exists p m1 m2,
    list_erase m (list_elem h) (list_elem x) ELIST_ERASE_PART = Some (p, m1) /\
    list_insert_front malloc m1 (list_elem n) (list_elem x) len = Some (list_elem x, m2) /\
    list_rep m2 h (y1 ++ (x, d) :: y2) /\ dom m2 = dom m.
Proof.
  intros Hr Hy Hn Hlen. destruct (last_or h (fst <$> x1)) as [c Hc]. destruct (head_or h (fst <$> x2)) as [n' Hn'].
  destruct (node_erase_spec m h x1 x2 x d c ELIST_ERASE_PART Hr Hc) as (m1 & -> & Hr1 & Hmx & Hs).
  pose proof (lr_pos m h _ x Hr (mid_in x1 x2 h x d)) as Ha.
  assert (x ∉ h :: (fst <$> x1 ++ x2)) as Hx.
  { destruct (lr_ring _ _ _ Hr) as [Hnd _]. revert Hnd.
    assert (h :: (fst <$> x1 ++ (x, d) :: x2) ≡ₚ x :: h :: (fst <$> x1 ++ x2)) as ->.
    { rewrite <- Permutation_middle. cbn. constructor. }
    by intros [? _]%NoDup_cons. }
  rewrite Hy in Hr1, Hx. destruct (last_or h (fst <$> y1)) as [c' Hc'].
  destruct (insert_recycled malloc m1 h y1 y2 c' n x d len) as (m2 & E & Hr2 & _ & Hdom); [done..|].
  exists (list_elem c), m1, m2. split; [done|]. split; [done|]. split; [done|]. rewrite Hdom.
  apply set_eq. intros b. rewrite !elem_of_dom. destruct (decide (b ∈ h :: (fst <$> x1 ++ (x, d) :: x2))) as [Hb|Hb].
  - assert (is_Some (m !! b)) as H1 by (apply (lr_live _ _ _ _ Hr) in Hb; unfold live, get_data in Hb; by apply fmap_is_Some in Hb).
    assert (is_Some (m1 !! b)) as H2; [|tauto].
    destruct (decide (b = x)) as [->|Hbx]; [rewrite Hmx; eauto|].
    assert (b ∈ h :: (fst <$> y1 ++ y2)) as Hb'.
    { rewrite <- Hy. rewrite fmap_app in Hb |- *. cbn in Hb. rewrite elem_of_cons, elem_of_app in Hb |- *.
      rewrite elem_of_cons in Hb. tauto. }
    apply (lr_live _ _ _ _ Hr1) in Hb'. unfold live, get_data in Hb'. by apply fmap_is_Some in Hb'.
  - by rewrite Hs.
Qed.

(** Moving an element from one list before or after an element of another,
    or its head: the element leaves the first list and is in its place in the
    second, with its bytes. *)
Theorem list_move_between (m : lmem) (h1 h2 : Z) (x1 x2 y1 y2 : list (Z * bytes)) (x : Z) (d : bytes) (c n : Z) :
  list_rep m h1 (x1 ++ (x, d) :: x2) -> list_rep m h2 (y1 ++ y2) ->
  (forall b, b ∈ h1 :: (fst <$> x1 ++ (x, d) :: x2) -> b ∉ h2 :: (fst <$> y1 ++ y2)) ->
  head ((fst <$> y2) ++ [h2]) = Some n -> last (h2 :: (fst <$> y1)) = Some c ->
  exists m1 m2,
    list_move_front m (list_elem n) (list_elem x) = Some (0, m1) /\
    list_move_back m (list_elem c) (list_elem x) = Some (0, m2) /\
    (list_rep m1 h1 (x1 ++ x2) /\ list_rep m1 h2 (y1 ++ (x, d) :: y2)) /\
    (list_rep m2 h1 (x1 ++ x2) /\ list_rep m2 h2 (y1 ++ (x, d) :: y2)).
Proof.
  intros H1 H2 Hdis Hn Hc. destruct (cut_rep m h1 x1 x2 x d H1) as (m1 & Hcut & Hr1 & Hx & Hd & Ha & Hs).
  assert (list_rep m1 h2 (y1 ++ y2)) as Hr2.
  { apply (rep_frame m m1 _ h2 _ H2 Hs). intros b Hb Hb'. by apply (Hdis b). }
  assert (x ∉ h2 :: (fst <$> y1 ++ y2)) as Hx2 by (apply Hdis, mid_in).
  destruct (rep_neighbours m1 h2 y1 y2 c n Hr2 Hc Hn) as (_ & _ & _ & _ & Hc0 & Hn0).
  destruct (move_before_links m1 h2 x y1 y2 c n d) as (m2 & E2 & Hr2' & Hs2); [done..|].
  destruct (move_after_links m1 h2 x y1 y2 c n d) as (m3 & E3 & Hr3' & Hs3); [done..|].
  assert (forall b, b ∈ h1 :: (fst <$> x1 ++ x2) -> b ∉ h2 :: (fst <$> y1 ++ (x, d) :: y2)) as Hd'.
  { intros b Hb Hb'. assert (b ∈ h1 :: (fst <$> x1 ++ (x, d) :: x2)) as Hin.
    { rewrite fmap_app in Hb |- *. cbn. rewrite elem_of_cons, elem_of_app in Hb |- *. rewrite elem_of_cons. tauto. }
    apply (Hdis b Hin). rewrite fmap_app in Hb' |- *. cbn in Hb'. rewrite elem_of_cons, elem_of_app in Hb' |- *.
    rewrite elem_of_cons in Hb'. destruct Hb' as [?|[?|[->|?]]]; [tauto|tauto|by destruct Hx|tauto]. }
  exists m2, m3. unfold list_move_front, list_move_back. rewrite !elem_nonzero, !elem_node by lia. cbn [orb].
  rewrite (proj2 (Z.eqb_neq x 0)), (proj2 (Z.eqb_neq n 0)) by lia. cbn [orb]. rewrite Hcut. cbn [mbind option_bind].
  split; [exact E2|]. split; [exact E3|].
  split; (split; [|done]); [by apply (rep_frame m1 m2 _ h1 _ Hr1 Hs2)|by apply (rep_frame m1 m3 _ h1 _ Hr1 Hs3)].
Qed.

(** A client's buffer survives an insertion, which adds one block. *)
Lemma insert_keeps m m' h x1 x2 a d e len b :
  list_rep m h (x1 ++ x2) -> m !! a = None -> same_off (h :: (fst <$> x1 ++ (a, d) :: x2)) m m' ->
  buffer m e len b -> list_node e ∉ h :: (fst <$> x1 ++ x2) ->
  buffer m' e len b /\ list_node e ∉ h :: (fst <$> x1 ++ (a, d) :: x2) /\ (size m' <= S (size m))%nat.
Proof.
  intros Hr Ha Hs Hb He.
  assert (Hin : forall z, z ∈ h :: (fst <$> x1 ++ (a, d) :: x2) <-> z = a \/ z ∈ h :: (fst <$> x1 ++ x2)).
  { intros z. rewrite !fmap_app. cbn. rewrite !elem_of_cons, !elem_of_app, elem_of_cons. tauto. }
  assert (list_node e ∉ h :: (fst <$> x1 ++ (a, d) :: x2)) as He'.
  { rewrite Hin. intros [E|?]; [|done]. destruct Hb as (_ & _ & nd & Hnd & _). rewrite E in Hnd. congruence. }
  split; [|split; [done|]].
  - destruct Hb as (H1 & H2 & nd & Hnd & H3). split; [done|]. split; [done|]. exists nd. by rewrite Hs.
  - rewrite <- !(size_dom (D := gset Z)).
    assert ((dom m' : gset Z) ⊆ {[a]} ∪ dom m) as Hsub.
    { intros z Hz. apply elem_of_union. rewrite elem_of_singleton. destruct (decide (z = a)); [by left|right].
      apply elem_of_dom. apply elem_of_dom in Hz. destruct (decide (z ∈ h :: (fst <$> x1 ++ x2))) as [Hi|Hi].
      - apply (lr_live _ _ _ _ Hr) in Hi. unfold live, get_data in Hi. by apply fmap_is_Some in Hi.
      - rewrite Hs in Hz; [done|]. rewrite Hin. tauto. }
    apply subseteq_size in Hsub. rewrite size_union, size_singleton in Hsub; [lia|].
    intros z Hz%elem_of_singleton Hz'%elem_of_dom. subst. rewrite Ha in Hz'. by destruct Hz'.
Qed.

(** [list_push_front] and [list_push_back] insert their element twice. *)
Theorem list_push_twice (malloc : alloc_fun) (m : lmem) (h : Z) (xs : list (Z * bytes)) (e len : Z) (d : bytes) :
  alloc_ok malloc -> alloc_total malloc (S (size m)) -> list_rep m h xs -> buffer m e len d ->
  list_node e ∉ h :: (fst <$> xs) ->
  exists a b m1 a' b' m2, a <> b /\ a' <> b' /\
    list_push_front malloc m (list_elem h) e len = Some (list_elem b, m1) /\ list_rep m1 h ((b, d) :: (a, d) :: xs) /\
    list_push_back malloc m (list_elem h) e len = Some (list_elem b', m2) /\
    list_rep m2 h (xs ++ [(a', d); (b', d)]).
Proof.
  intros Hm Ht Hr Hb He.
  assert (forall m' len, (size m' <= S (size m))%nat -> malloc m' len <> None) as Hne.
  { intros m' l Hs E. destruct (Ht m' l Hs) as [? ?]. congruence. }
  destruct (insert_back_spec malloc m h [] xs h e len d Hm Hr eq_refl Hb)
    as [[E _]|(a & m1 & E1 & Hr1 & Ha & Hs1)]; [by apply Hne in E; [|lia]|].
  destruct (insert_keeps m m1 h [] xs a d e len d Hr Ha Hs1 Hb He) as (Hb1 & _ & Hsz1).
  destruct (insert_back_spec malloc m1 h [] _ h e len d Hm Hr1 eq_refl Hb1)
    as [[E _]|(b & m2 & E2 & Hr2 & Hb2 & Hs2)]; [by apply Hne in E; [|lia]|].
  assert (Hr' := Hr). rewrite <- (app_nil_r xs) in Hr', He.
  destruct (insert_front_spec malloc m h xs [] h e len d Hm Hr' eq_refl Hb)
    as [[E _]|(a' & m3 & E3 & Hr3 & Ha3 & Hs3)]; [by apply Hne in E; [|lia]|].
  destruct (insert_keeps m m3 h xs [] a' d e len d Hr' Ha3 Hs3 Hb He) as (Hb3 & _ & Hsz3).
  assert (Hr3' := Hr3). rewrite <- (app_nil_r (xs ++ [(a', d)])) in Hr3'.
  destruct (insert_front_spec malloc m3 h (xs ++ [(a', d)]) [] h e len d Hm Hr3' eq_refl Hb3)
    as [[E _]|(b' & m4 & E4 & Hr4 & Hb4 & Hs4)]; [by apply Hne in E; [|lia]|].
  exists a, b, m2, a', b', m4.
  split; [|split; [|split; [|split; [done|split; [|by rewrite <- app_assoc in Hr4]]]]].
  - intros ->. apply (rep_notin m1 h _ b Hr1 Hb2). apply (mid_in [] xs h b d).
  - intros ->. apply (rep_notin m3 h _ b' Hr3 Hb4), mid_in.
  - unfold list_push_front. rewrite E1. exact E2.
  - unfold list_push_back. rewrite E3. exact E4.
Qed.

(** A list of three elements and one of none, in one memory. *)
Definition two_lists : lmem :=
  {[ 100 := mk_node 500 300 []; 300 := mk_node 100 400 [3]; 400 := mk_node 300 500 [4]; 500 := mk_node 400 100 [5];
     200 := mk_node 200 200 []; 900 := mk_node 0 0 [9] ]}.

Lemma two_lists_three : list_rep two_lists 100 [(300, [3]); (400, [4]); (500, [5])].
Proof.
  constructor; [split; [compute_done|by repeat split]| |eexists; reflexivity|repeat constructor; cbn; lia].
  intros a d Hin. repeat (apply elem_of_cons in Hin as [[= -> ->]|Hin]; [reflexivity|]). by apply elem_of_nil in Hin.
Qed.

Lemma two_lists_none : list_rep two_lists 200 [].
Proof.
  constructor; [split; [compute_done|by repeat split]|by intros a d ?%elem_of_nil|eexists; reflexivity|repeat constructor; cbn; lia].
Qed.

Lemma list_recycle_witness :
  exists p m1 m2,
    list_erase two_lists (list_elem 100) (list_elem 400) ELIST_ERASE_PART = Some (p, m1) /\
    list_insert_front (fun _ _ => None) m1 (list_elem 300) (list_elem 400) 1 = Some (list_elem 400, m2) /\
    list_rep m2 100 [(400, [4]); (300, [3]); (500, [5])] /\ dom m2 = dom two_lists.
Proof.
  apply (list_recycle (fun _ _ => None) two_lists 100 [(300, [3])] [(500, [5])] [] [(300, [3]); (500, [5])] 400 [4] 300 1);
    [apply two_lists_three|reflexivity|reflexivity|lia].
Defined.

Lemma list_move_between_witness :
  exists m1 m2,
    list_move_front two_lists (list_elem 200) (list_elem 400) = Some (0, m1) /\
    list_move_back two_lists (list_elem 200) (list_elem 400) = Some (0, m2) /\
    (list_rep m1 100 [(300, [3]); (500, [5])] /\ list_rep m1 200 [(400, [4])]) /\
    (list_rep m2 100 [(300, [3]); (500, [5])] /\ list_rep m2 200 [(400, [4])]).
Proof.
  apply (list_move_between two_lists 100 200 [(300, [3])] [(500, [5])] [] [] 400 [4] 200 200);
    [apply two_lists_three|apply two_lists_none| |reflexivity|reflexivity].
  intros b Hb Hb'. apply list_elem_of_singleton in Hb' as ->. revert Hb. apply (bool_decide_unpack (200 ∉ [100; 300; 400; 500])). exact I.
Defined.

Lemma list_push_twice_witness :
  exists a b m1 a' b' m2, a <> b /\ a' <> b' /\
    list_push_front (malloc_scan 8) two_lists (list_elem 100) (list_elem 900) 1 = Some (list_elem b, m1) /\
    list_rep m1 100 [(b, [9]); (a, [9]); (300, [3]); (400, [4]); (500, [5])] /\
    list_push_back (malloc_scan 8) two_lists (list_elem 100) (list_elem 900) 1 = Some (list_elem b', m2) /\
    list_rep m2 100 [(300, [3]); (400, [4]); (500, [5]); (a', [9]); (b', [9])].
Proof.
  apply (list_push_twice (malloc_scan 8) two_lists 100 [(300, [3]); (400, [4]); (500, [5])] (list_elem 900) 1 [9]);
    [apply malloc_scan_ok| |apply two_lists_three| |].
  - intros m n Hs. apply malloc_scan_total; [reflexivity|]. etransitivity; [exact Hs|]. vm_compute. lia.
  - split; [reflexivity|]. split; [lia|]. eexists. split; [reflexivity|]. split; [reflexivity|]. by intros [].
  - apply (bool_decide_unpack (900 ∉ [100; 300; 400; 500])). exact I.
Defined.

End DList.
