(* ===== verification/AssocMap.v ===== *)
(** * Keys, comparisons and sorted association lists

    What the two ordered containers share: keys and values as blocks of bytes,
    the class of comparisons they rely on, and the abstract map they refine. *)

From S2P Require Import Prelude.

Module AMap.

(** [size] and the block [data] of a key or a value. *)
Record slice_t := mk_slice { s_size : Z; s_data : bytes }.

Definition slice_bytes (s : slice_t) : bytes := take (Z.to_nat (s_size s)) (s_data s).

Lemma slice_all b : slice_bytes (mk_slice (blen b) b) = b.
Proof. unfold slice_bytes, blen. cbn. by rewrite Nat2Z.id, firstn_all. Qed.

(** ** Comparisons *)

(** [cmp] sees the bytes of the two keys. *)
Definition compare : Type := bytes -> bytes -> Z.

(** What a container relies on in the comparison it is given. *)
Class KeyOrder (cmp : compare) := {
  cmp_opp : forall a b, Z.sgn (cmp b a) = - Z.sgn (cmp a b);
  cmp_trans : forall a b c, cmp a b <= 0 -> cmp b c <= 0 -> cmp a c <= 0;
}.

Section order.
Context (cmp : compare) `{!KeyOrder cmp}.

Lemma cmp_lt_gt a b : cmp a b < 0 <-> 0 < cmp b a.
Proof. pose proof (cmp_opp a b). lia. Qed.

Lemma cmp_eq_sym a b : cmp a b = 0 <-> cmp b a = 0.
Proof. pose proof (cmp_opp a b). lia. Qed.

Lemma cmp_refl a : cmp a a = 0.
Proof. pose proof (cmp_opp a a). lia. Qed.

Lemma cmp_le_lt a b c : cmp a b <= 0 -> cmp b c < 0 -> cmp a c < 0.
Proof.
  intros H1 H2. destruct (Z.lt_ge_cases (cmp a c) 0) as [|H3]; [done|].
  assert (cmp c a <= 0) as H4 by (pose proof (cmp_opp a c); lia).
  pose proof (cmp_trans _ _ _ H4 H1). pose proof (cmp_opp b c). lia.
Qed.

Lemma cmp_lt_le a b c : cmp a b < 0 -> cmp b c <= 0 -> cmp a c < 0.
Proof.
  intros H1 H2. destruct (Z.lt_ge_cases (cmp a c) 0) as [|H3]; [done|].
  assert (cmp c a <= 0) as H4 by (pose proof (cmp_opp a c); lia).
  pose proof (cmp_trans _ _ _ H2 H4). pose proof (cmp_opp a b). lia.
Qed.

End order.

(** Byte strings in lexicographic order. *)
Fixpoint lex_cmp (a b : bytes) : Z :=
  match a, b with
  | [], [] => 0
  | [], _ => -1
  | _, [] => 1
  | x :: a, y :: b => if x =? y then lex_cmp a b else x - y
  end.

#[export] Instance lex_order : KeyOrder lex_cmp.
Proof.
  constructor.
  - induction a as [|x a IH]; intros [|y b]; cbn; try done.
    destruct (Z.eqb_spec y x), (Z.eqb_spec x y); try lia. apply IH.
  - induction a as [|x a IH]; intros [|y b] [|z c]; cbn; try lia. intros H1 H2.
    destruct (Z.eqb_spec x y), (Z.eqb_spec y z), (Z.eqb_spec x z); subst; try lia. by apply (IH b).
Qed.

(** The opposite order. *)
Definition flip_cmp (cmp : compare) : compare := fun a b => cmp b a.

#[export] Instance flip_order cmp : KeyOrder cmp -> KeyOrder (flip_cmp cmp).
Proof.
  intros H. constructor; unfold flip_cmp.
  - intros a b. apply (cmp_opp b a).
  - intros a b c H1 H2. by apply (cmp_trans c b a).
Qed.

(** ** The abstract map *)

(** Keys and values in the order of the keys. *)
Abbreviation amap := (list (bytes * bytes)).

Section abstract.
Context (cmp : compare).

Fixpoint al_find (k : bytes) (l : amap) : option bytes :=
  match l with [] => None | (k', v) :: l => if cmp k k' =? 0 then Some v else al_find k l end.

Fixpoint al_insert (k v : bytes) (l : amap) : amap :=
  match l with
  | [] => [(k, v)]
  | (k', v') :: l => if cmp k k' <? 0 then (k, v) :: (k', v') :: l else (k', v') :: al_insert k v l
  end.

Fixpoint al_update (k v : bytes) (l : amap) : amap :=
  match l with [] => [] | (k', v') :: l => if cmp k k' =? 0 then (k', v) :: l else (k', v') :: al_update k v l end.

Fixpoint al_erase (k : bytes) (l : amap) : amap :=
  match l with [] => [] | (k', v') :: l => if cmp k k' =? 0 then l else (k', v') :: al_erase k l end.

End abstract.

Section laws.
Context (cmp : compare).

(** The abstract operations pass over smaller keys. *)
Definition smaller (k : bytes) (l : amap) : Prop := Forall (fun y => 0 < cmp k (fst y)) l.
Definition greater (k : bytes) (l : amap) : Prop := Forall (fun y => cmp k (fst y) < 0) l.

Lemma al_skip k v B l :
  smaller k B ->
  al_find cmp k (B ++ l) = al_find cmp k l /\ al_insert cmp k v (B ++ l) = B ++ al_insert cmp k v l /\
  al_update cmp k v (B ++ l) = B ++ al_update cmp k v l /\ al_erase cmp k (B ++ l) = B ++ al_erase cmp k l.
Proof.
  induction 1 as [|[k' v'] B Hk _ (IH1 & IH2 & IH3 & IH4)]; [done|]. cbn in *.
  rewrite (proj2 (Z.eqb_neq _ 0)), (proj2 (Z.ltb_ge _ 0)) by lia. by rewrite IH1, IH2, IH3, IH4.
Qed.

Lemma al_greater k v A :
  greater k A -> al_find cmp k A = None /\ al_erase cmp k A = A /\ al_insert cmp k v A = (k, v) :: A.
Proof.
  induction 1 as [|[k' v'] A Hk _ (IH1 & IH2 & IH3)]; [done|]. cbn in *.
  rewrite (proj2 (Z.eqb_neq _ 0)), (proj2 (Z.ltb_lt _ 0)) by lia. by rewrite IH1, IH2.
Qed.

Lemma al_lengths k v l :
  length (al_insert cmp k v l) = S (length l) /\ length (al_update cmp k v l) = length l /\
  (length (al_erase cmp k l) <= length l)%nat.
Proof.
  induction l as [|[k' v'] l (IH1 & IH2 & IH3)]; [cbn; lia|]. cbn.
  destruct (cmp k k' <? 0), (cmp k k' =? 0); cbn; lia.
Qed.

End laws.

(** ** Addresses in use *)

Definition top_addr {A} (m : gmap Z A) : Z := map_fold (fun a _ acc => Z.max a acc) 0 m.

Lemma top_addr_le {A} (m : gmap Z A) : 0 <= top_addr m /\ forall a, is_Some (m !! a) -> a <= top_addr m.
Proof.
  unfold top_addr. apply (map_fold_weak_ind (fun r m => 0 <= r /\ forall a, is_Some (m !! a) -> a <= r)).
  - split; [done|]. intros a [x Hx]. by rewrite lookup_empty in Hx.
  - intros a x m' r Ha [H1 H2]. split; [lia|]. intros b [y Hy]. destruct (decide (a = b)) as [->|Hne]; [lia|].
    rewrite lookup_insert_ne in Hy by done. specialize (H2 b ltac:(by exists y)). lia.
Qed.

End AMap.
