(* ===== verification/LiskMap.v ===== *)
(** * lisk_map.c: an ordered map in a red-black tree

    The nodes are in a memory indexed by address, with their parent pointers;
    the colour of a node is the low bit of its parent word, as in the code.
    Where the code has a branch and its mirror image, the model has one
    definition with the side as an argument. *)

From S2P Require Import Prelude AssocMap.

Module Map.
Export AMap.

Inductive side := LEFT | RIGHT.
Definition opp (d : side) : side := match d with LEFT => RIGHT | RIGHT => LEFT end.

#[export] Instance side_eq_dec : EqDecision side.
Proof. solve_decision. Defined.

Definition RED : Z := 0.
Definition BLACK : Z := 1.

Record rb_node_t := mk_node {
  parent : Z;
  left : Z;
  right : Z;
  key : slice_t;
  value : slice_t;
}.

Abbreviation rmem := (gmap Z rb_node_t).

Record rb_root_t := mk_root { r_node : Z; r_min : Z; r_max : Z; r_size : Z }.

(** A map: its nodes and its root record. *)
Record map_t := mk_map { mem : rmem; rt : rb_root_t }.

(** [malloc] of a node: an address, from the memory in use. *)
Definition node_alloc : Type := rmem -> option Z.

(** ** Fields *)

Definition child (d : side) (n : rb_node_t) : Z := match d with LEFT => left n | RIGHT => right n end.

Definition upd (m : rmem) (a : Z) (f : rb_node_t -> rb_node_t) : option rmem := n ← m !! a; Some (<[a := f n]> m).

Definition with_parent (w : Z) (n : rb_node_t) : rb_node_t := mk_node w (left n) (right n) (key n) (value n).
Definition with_child (d : side) (p : Z) (n : rb_node_t) : rb_node_t :=
  match d with
  | LEFT => mk_node (parent n) p (right n) (key n) (value n)
  | RIGHT => mk_node (parent n) (left n) p (key n) (value n)
  end.
Definition with_value (v : slice_t) (n : rb_node_t) : rb_node_t :=
  mk_node (parent n) (left n) (right n) (key n) v.

Definition get_child (m : rmem) (d : side) (a : Z) : option Z := child d <$> m !! a.
Definition set_child (m : rmem) (d : side) (a p : Z) : option rmem := upd m a (with_child d p).

Definition rb_parent (m : rmem) (a : Z) : option Z := (fun n => Z.land (parent n) (Z.lnot BLACK)) <$> m !! a.
Definition rb_color (m : rmem) (a : Z) : option Z := (fun n => Z.land (parent n) BLACK) <$> m !! a.
Definition color_set_black (m : rmem) (a : Z) : option rmem :=
  upd m a (fun n => with_parent (Z.lor (parent n) BLACK) n).
Definition color_set_red (m : rmem) (a : Z) : option rmem :=
  upd m a (fun n => with_parent (Z.land (parent n) (Z.lnot BLACK)) n).
Definition color_is_red (m : rmem) (a : Z) : option bool := (fun c => c =? RED) <$> rb_color m a.
Definition color_is_black (m : rmem) (a : Z) : option bool := (fun c => c =? BLACK) <$> rb_color m a.

(** [IS_NL(p) || color_is_black(p)] and [IS_NNL(p) && color_is_red(p)]. *)
Definition nil_or_black (m : rmem) (p : Z) : option bool := if p =? 0 then Some true else color_is_black m p.
Definition some_red (m : rmem) (p : Z) : option bool := if p =? 0 then Some false else color_is_red m p.

Definition rb_set_parent (m : rmem) (a p : Z) : option rmem :=
  upd m a (fun n => with_parent (Z.lor (Z.land (parent n) 3) p) n).
Definition rb_set_color (m : rmem) (a c : Z) : option rmem :=
  upd m a (fun n => with_parent (Z.lor (Z.land (parent n) (Z.lnot BLACK)) c) n).

Definition with_node (r : rb_root_t) (a : Z) : rb_root_t := mk_root a (r_min r) (r_max r) (r_size r).
Definition with_min (r : rb_root_t) (a : Z) : rb_root_t := mk_root (r_node r) a (r_max r) (r_size r).
Definition with_max (r : rb_root_t) (a : Z) : rb_root_t := mk_root (r_node r) (r_min r) a (r_size r).
Definition with_size (r : rb_root_t) (n : Z) : rb_root_t := mk_root (r_node r) (r_min r) (r_max r) n.

(** Down one side to the last node. *)
Fixpoint far (fuel : nat) (m : rmem) (d : side) (node : Z) : option Z :=
  match fuel with
  | O => None
  | S f => c ← get_child m d node; if negb (c =? 0) then far f m d c else Some node
  end.

Definition rb_update_min (fuel : nat) (t : map_t) : option map_t :=
  if r_node (rt t) =? 0 then Some (mk_map (mem t) (with_min (rt t) 0))
  else n ← far fuel (mem t) LEFT (r_node (rt t)); Some (mk_map (mem t) (with_min (rt t) n)).

Definition rb_update_max (fuel : nat) (t : map_t) : option map_t :=
  if r_node (rt t) =? 0 then Some (mk_map (mem t) (with_max (rt t) 0))
  else n ← far fuel (mem t) RIGHT (r_node (rt t)); Some (mk_map (mem t) (with_max (rt t) n)).

(** ** Rotations *)

(** [new] takes the place of [old] below [p]. *)
Definition replace_child (t : map_t) (p old new : Z) : option map_t :=
  if negb (p =? 0) then
    l ← get_child (mem t) LEFT p;
    m ← set_child (mem t) (if l =? old then LEFT else RIGHT) p new; Some (mk_map m (rt t))
  else Some (mk_map (mem t) (with_node (rt t) new)).

(** [rb_rotate_left] is the rotation to the left, [rb_rotate_right] its mirror image. *)
Definition rb_rotate (d : side) (t : map_t) (node : Z) : option map_t :=
  let m := mem t in
  up ← get_child m (opp d) node;
  if up =? 0 then Some t
  else
    inner ← get_child m d up;
    m ← set_child m (opp d) node inner;
    m ← (if negb (inner =? 0) then rb_set_parent m inner node else Some m);
    m ← set_child m d up node;
    p ← rb_parent m node; m ← rb_set_parent m up p;
    m ← rb_set_parent m node up;
    p ← rb_parent m up;
    replace_child (mk_map m (rt t)) p node up.

Definition rb_rotate_left : map_t -> Z -> option map_t := rb_rotate LEFT.
Definition rb_rotate_right : map_t -> Z -> option map_t := rb_rotate RIGHT.
Definition rotate (d : side) : map_t -> Z -> option map_t :=
  match d with LEFT => rb_rotate_left | RIGHT => rb_rotate_right end.

(** The side of its parent a node is on, as the code tests it. *)
Definition side_of (m : rmem) (p node : Z) : option side :=
  l ← get_child m LEFT p; Some (if l =? node then LEFT else RIGHT).

(** ** Nodes *)

(** Both data blocks are asked for before either is tested. *)
Definition rb_create_node (anode : node_alloc) (malloc : malloc_fun) (m : rmem) (k v : option bytes)
  : option (Z * rmem) :=
  match k, v with
  | Some k, Some v =>
      match anode m with
      | None => Some (0, m)
      | Some a =>
          match malloc (blen k), malloc (blen v) with
          | Some kd, Some vd =>
              kd ← wr kd 0 k; vd ← wr vd 0 v;
              Some (a, <[a := mk_node 0 0 0 (mk_slice (blen k) kd) (mk_slice (blen v) vd)]> m)
          | _, _ => Some (0, m)
          end
      end
  | _, _ => Some (0, m)
  end.

Definition rb_free_node (m : rmem) (node : Z) : option rmem :=
  if negb (node =? 0) then _ ← m !! node; Some (delete node m) else Some m.

Fixpoint rb_free_node_recursion (fuel : nat) (m : rmem) (node : Z) : option rmem :=
  match fuel with
  | O => None
  | S f =>
      if negb (node =? 0) then
        l ← get_child m LEFT node; m ← rb_free_node_recursion f m l;
        r ← get_child m RIGHT node; m ← rb_free_node_recursion f m r;
        rb_free_node m node
      else Some m
  end.

(** The memory [rb_free] leaves. *)
Definition rb_free (fuel : nat) (root : option map_t) : option rmem :=
  match root with
  | None => Some ∅
  | Some t => rb_free_node_recursion fuel (mem t) (r_node (rt t))
  end.

(** ** Searching *)

(** The node with the key, or nil and the node the search ended at. *)
Fixpoint search_loop (fuel : nat) (cmp : compare) (m : rmem) (k : bytes) (node pre : Z) : option (Z * Z) :=
  match fuel with
  | O => None
  | S f =>
      if negb (node =? 0) then
        n ← m !! node;
        let ret := cmp k (slice_bytes (key n)) in
        if ret =? 0 then Some (node, 0)
        else search_loop f cmp m k (if ret <? 0 then left n else right n) node
      else Some (0, pre)
  end.

Definition rb_search (fuel : nat) (cmp : compare) (t : map_t) (k : bytes) : option (Z * Z) :=
  search_loop fuel cmp (mem t) k (r_node (rt t)) 0.

(** A pointer to the value of a node, named by the node; [0] is nil. *)
Definition rb_find (fuel : nat) (cmp : compare) (root : option map_t) (k : bytes) : option Z :=
  match root with
  | None => Some 0
  | Some t => '(node, _) ← rb_search fuel cmp t k; Some node
  end.

(** ** Inserting *)

Fixpoint rb_insert_rebalance (fuel : nat) (t : map_t) (node : Z) : option map_t :=
  match fuel with
  | O => None
  | S f =>
      p ← rb_parent (mem t) node;
      b ← some_red (mem t) p;
      if (b : bool) then
        g ← rb_parent (mem t) p;
        d ← side_of (mem t) g p;
        uncle ← get_child (mem t) (opp d) g;
        b ← some_red (mem t) uncle;
        if (b : bool) then
          m ← color_set_black (mem t) uncle; m ← color_set_black m p; m ← color_set_red m g;
          rb_insert_rebalance f (mk_map m (rt t)) g
        else
          c ← get_child (mem t) (opp d) p;
          '(t, p, node) ← (if node =? c then t ← rotate d t p; Some (t, node, p) else Some (t, p, node));
          m ← color_set_black (mem t) p; m ← color_set_red m g;
          t ← rotate (opp d) (mk_map m (rt t)) g;
          rb_insert_rebalance f t node
      else
        m ← color_set_black (mem t) (r_node (rt t)); Some (mk_map m (rt t))
  end.

(** The result of a function that returns [root] or nil. *)
Definition rres : Type := bool * map_t.

Definition update_ends (cmp : compare) (t : map_t) (k : bytes) (node : Z) : option map_t :=
  r ← (if r_min (rt t) =? 0 then Some (with_min (rt t) node)
       else n ← mem t !! r_min (rt t);
            Some (if cmp k (slice_bytes (key n)) <? 0 then with_min (rt t) node else rt t));
  r ← (if r_max r =? 0 then Some (with_max r node)
       else n ← mem t !! r_max r;
            Some (if 0 <? cmp k (slice_bytes (key n)) then with_max r node else r));
  Some (mk_map (mem t) r).

Definition rb_insert (anode : node_alloc) (malloc : malloc_fun) (fuel : nat) (cmp : compare) (t : map_t)
  (k v : option bytes) : option rres :=
  match k, v with
  | Some kb, Some _ =>
      if u8 (r_size (rt t) + 1) <? r_size (rt t) then Some (false, t)
      else
        '(node, p) ← rb_search fuel cmp t kb;
        if negb (node =? 0) then Some (true, t)
        else
          '(node, m) ← rb_create_node anode malloc (mem t) k v;
          if node =? 0 then Some (false, t)
          else
            '(m, r) ←
              (if negb (p =? 0) then
                 pn ← m !! p;
                 m ← set_child m (if cmp kb (slice_bytes (key pn)) <? 0 then LEFT else RIGHT) p node;
                 m ← rb_set_parent m node p; Some (m, rt t)
               else Some (m, with_node (rt t) node));
            let r := with_size r (u8 (r_size r + 1)) in
            t ← rb_insert_rebalance fuel (mk_map m r) node;
            t ← update_ends cmp t kb node; Some (true, t)
  | _, _ => Some (false, t)
  end.

Definition rb_update (malloc : malloc_fun) (fuel : nat) (cmp : compare) (t : map_t) (k v : option bytes)
  : option rres :=
  match k, v with
  | Some k, Some v =>
      '(node, _) ← rb_search fuel cmp t k;
      if node =? 0 then Some (false, t)
      else
        n ← mem t !! node;
        match (if s_size (value n) <? blen v then malloc (blen v) else Some (s_data (value n))) with
        | None => Some (false, t)
        | Some data =>
            data ← wr data 0 v;
            m ← upd (mem t) node (with_value (mk_slice (blen v) data)); Some (true, mk_map m (rt t))
        end
  | _, _ => Some (false, t)
  end.

(** ** Erasing *)

(** The last step on a short side: the sibling goes up. *)
Definition erase_last (d : side) (t : map_t) (p sibling : Z) : option map_t :=
  c ← rb_color (mem t) p;
  m ← rb_set_color (mem t) sibling c;
  m ← color_set_black m p;
  s ← get_child m (opp d) sibling;
  m ← (if negb (s =? 0) then color_set_black m s else Some m);
  rotate d (mk_map m (rt t)) p.

(** A black sibling: the map with the parent and the node to go on from, or the
    node the loop leaves. *)
Definition erase_black (d : side) (t : map_t) (p sibling : Z) : option (map_t * (Z * Z + Z)) :=
  near ← get_child (mem t) d sibling; far ← get_child (mem t) (opp d) sibling;
  bn ← nil_or_black (mem t) near; bf ← nil_or_black (mem t) far;
  if bn && bf : bool then
    m ← color_set_red (mem t) sibling;
    q ← rb_parent m p; Some (mk_map m (rt t), inl (q, p))
  else
    '(t, sibling) ←
      (if (bf : bool) then
         m ← (if negb (near =? 0) then color_set_black (mem t) near else Some (mem t));
         m ← color_set_red m sibling;
         t ← rotate (opp d) (mk_map m (rt t)) sibling;
         s ← get_child (mem t) (opp d) p; Some (t, s)
       else Some (t, sibling));
    t ← erase_last d t p sibling;
    Some (t, inr (r_node (rt t))).

(** One round of the loop. *)
Definition erase_round (t : map_t) (p node : Z) : option (map_t * (Z * Z + Z)) :=
  d ← side_of (mem t) p node;
  sibling ← get_child (mem t) (opp d) p;
  red ← color_is_red (mem t) sibling;
  '(t, sibling) ←
    (if (red : bool) then
       m ← color_set_black (mem t) sibling; m ← color_set_red m p;
       t ← rotate d (mk_map m (rt t)) p;
       s ← get_child (mem t) (opp d) p; Some (t, s)
     else Some (t, sibling));
  erase_black d t p sibling.

Definition erase_done (t : map_t) (node : Z) : option map_t :=
  if negb (node =? 0) then m ← color_set_black (mem t) node; Some (mk_map m (rt t)) else Some t.

Fixpoint rb_erase_rebalance (fuel : nat) (t : map_t) (p node : Z) : option map_t :=
  match fuel with
  | O => None
  | S f =>
      b ← nil_or_black (mem t) node;
      if b && negb (r_node (rt t) =? node) : bool then
        '(t, next) ← erase_round t p node;
        match next with
        | inl (p, node) => rb_erase_rebalance f t p node
        | inr node => erase_done t node
        end
      else erase_done t node
  end.

(** The node that moves up leaves its place to its right child, unless it is the
    right child itself, and takes over the right subtree. *)
Definition splice (m : rmem) (node scapedog c p : Z) : option (rmem * Z) :=
  if p =? node then Some (m, scapedog)
  else
    m ← (if negb (c =? 0) then rb_set_parent m c p else Some m);
    m ← set_child m LEFT p c;
    r ← get_child m RIGHT node; m ← set_child m RIGHT scapedog r;
    r ← get_child m RIGHT node; m ← rb_set_parent m r scapedog; Some (m, p).

(** It takes the parent word and the left child of the node taken out. *)
Definition crown (m : rmem) (node scapedog : Z) : option rmem :=
  n ← m !! node;
  m ← upd m scapedog (with_parent (parent n));
  m ← set_child m LEFT scapedog (left n);
  rb_set_parent m (left n) scapedog.

(** The node that takes the place of one with two children; the map, the parent
    and the child the tree may be short at, and the colour of the gap. *)
Definition unlink_two (fuel : nat) (t : map_t) (node : Z) : option (map_t * Z * Z * bool) :=
  r ← get_child (mem t) RIGHT node;
  scapedog ← far fuel (mem t) LEFT r;
  p ← rb_parent (mem t) node;
  t ← replace_child t p node scapedog;
  c ← get_child (mem t) RIGHT scapedog;
  black_flag ← color_is_black (mem t) scapedog;
  p ← rb_parent (mem t) scapedog;
  '(m, p) ← splice (mem t) node scapedog c p;
  m ← crown m node scapedog;
  Some (mk_map m (rt t), p, c, black_flag).

Definition unlink_one (t : map_t) (node : Z) : option (map_t * Z * Z * bool) :=
  n ← mem t !! node;
  let c := if negb (left n =? 0) then left n else if negb (right n =? 0) then right n else 0 in
  black_flag ← color_is_black (mem t) node;
  p ← rb_parent (mem t) node;
  m ← (if negb (c =? 0) then rb_set_parent (mem t) c p else Some (mem t));
  t ← replace_child (mk_map m (rt t)) p node c;
  Some (t, p, c, black_flag).

(** [value] is given by its node; nil is 0. *)
Definition rb_erase_ex (fuel : nat) (t : map_t) (node : Z) : option rres :=
  if (r_node (rt t) =? 0) || (node =? 0) then Some (true, t)
  else if r_size (rt t) =? 0 then Some (false, t)
  else
    n ← mem t !! node;
    '(t, p, c, black_flag) ←
      (if negb (left n =? 0) && negb (right n =? 0) then unlink_two fuel t node else unlink_one t node);
    let min_update_flag := r_min (rt t) =? node in
    let max_update_flag := r_max (rt t) =? node in
    m ← rb_free_node (mem t) node;
    let t := mk_map m (with_size (rt t) (u8 (r_size (rt t) - 1))) in
    t ← (if (black_flag : bool) then rb_erase_rebalance fuel t p c else Some t);
    t ← (if min_update_flag then rb_update_min fuel t else Some t);
    t ← (if max_update_flag then rb_update_max fuel t else Some t);
    Some (true, t).

Definition rb_erase (fuel : nat) (cmp : compare) (t : map_t) (k : option bytes) : option rres :=
  match k with
  | None => Some (false, t)
  | Some k =>
      if r_node (rt t) =? 0 then Some (false, t)
      else if r_size (rt t) =? 0 then Some (false, t)
      else
        '(node, _) ← rb_search fuel cmp t k;
        if node =? 0 then Some (true, t) else rb_erase_ex fuel t node
  end.

(** ** Walking *)

(** The next node towards [d] is after it in the order from the other side. *)
Fixpoint climb (fuel : nat) (m : rmem) (d : side) (node p : Z) : option Z :=
  match fuel with
  | O => None
  | S f =>
      if negb (p =? 0) then
        c ← get_child m d p;
        if node =? c then q ← rb_parent m p; climb f m d p q else Some p
      else Some 0
  end.

(** [rb_node_next] for [RIGHT], [rb_node_rnext] for [LEFT]; [None] inside for
    the nil root the function returns. *)
Definition node_step (fuel : nat) (d : side) (t : map_t) (node : Z) : option (option Z) :=
  let m := mem t in
  p ← rb_parent m node;
  next ← get_child m d node;
  if (r_node (rt t) =? 0) || (node =? 0) then Some None
  else if node =? (match d with RIGHT => r_max (rt t) | LEFT => r_min (rt t) end) then Some (Some 0)
  else if negb (next =? 0) then n ← far fuel m (opp d) next; Some (Some n)
  else
    c ← get_child m (opp d) p;
    if c =? node then Some (Some p)
    else q ← climb fuel m d node p; if q =? 0 then Some None else Some (Some q).

Definition rb_node_next (fuel : nat) : map_t -> Z -> option (option Z) := node_step fuel RIGHT.
Definition rb_node_rnext (fuel : nat) : map_t -> Z -> option (option Z) := node_step fuel LEFT.

(** ** The interface *)

Definition map_init (ok : bool) (map_nil cmp_nil : bool) : Z * option map_t :=
  if map_nil || cmp_nil then (-1, None)
  else if ok then (0, Some (mk_map ∅ (mk_root 0 0 0 0))) else (-2, None).

Definition map_uninit (fuel : nat) (map : option map_t) : option rmem := rb_free fuel map.

Definition map_insert (anode : node_alloc) (malloc : malloc_fun) (fuel : nat) (cmp : compare) (map : option map_t)
  (k v : option bytes) : option (Z * option map_t) :=
  match map with
  | None => Some (-1, None)
  | Some t => '(ok, t) ← rb_insert anode malloc fuel cmp t k v; Some (if (ok : bool) then 0 else -1, Some t)
  end.

Definition map_update (malloc : malloc_fun) (fuel : nat) (cmp : compare) (map : option map_t) (k v : option bytes)
  : option (Z * option map_t) :=
  match map with
  | None => Some (-1, None)
  | Some t => '(ok, t) ← rb_update malloc fuel cmp t k v; Some (if (ok : bool) then 0 else -1, Some t)
  end.

Definition map_erase (fuel : nat) (cmp : compare) (map : option map_t) (k : option bytes)
  : option (Z * option map_t) :=
  match map with
  | None => Some (-1, None)
  | Some t => '(ok, t) ← rb_erase fuel cmp t k; Some (if (ok : bool) then 0 else -1, Some t)
  end.

Definition map_erase_ex (fuel : nat) (map : option map_t) (node : Z) : option (Z * option map_t) :=
  match map with
  | None => Some (-1, None)
  | Some t => '(ok, t) ← rb_erase_ex fuel t node; Some (if (ok : bool) then 0 else -1, Some t)
  end.

Definition map_find (fuel : nat) (cmp : compare) (map : option map_t) (k : bytes) (value_nil : bool)
  : option (Z * Z) :=
  if value_nil then Some (-1, 0)
  else vl ← rb_find fuel cmp map k; Some (if negb (vl =? 0) then (0, vl) else (-2, 0)).

Definition map_size (map : option map_t) (size_nil : bool) : Z * option Z :=
  match map with
  | Some t => if size_nil then (-1, None) else (0, Some (r_size (rt t)))
  | None => (-1, None)
  end.

(** An iterator names a node; the end is 0. *)
Definition map_first (d : side) (map : option map_t) (it_nil : bool) : Z * Z :=
  match map with
  | Some t => if it_nil then (-1, 0)
              else if r_node (rt t) =? 0 then (-2, 0)
              else (0, match d with LEFT => r_min (rt t) | RIGHT => r_max (rt t) end)
  | None => (-1, 0)
  end.
Definition map_begin : option map_t -> bool -> Z * Z := map_first LEFT.
Definition map_rbegin : option map_t -> bool -> Z * Z := map_first RIGHT.

Definition map_is_end (map : option map_t) (it : option Z) : Z :=
  match map, it with Some _, Some it => if negb (it =? 0) then -2 else 0 | _, _ => -1 end.

Definition map_step (fuel : nat) (d : side) (map : option map_t) (it : option Z) : option (Z * Z) :=
  match map, it with
  | Some t, Some it =>
      if r_node (rt t) =? 0 then Some (-2, it)
      else if it =? 0 then Some (-2, it)
      else r ← node_step fuel d t it;
           Some (match r with None => (-2, it) | Some next => (0, next) end)
  | _, _ => Some (-1, 0)
  end.
Definition map_next (fuel : nat) : option map_t -> option Z -> option (Z * Z) := map_step fuel RIGHT.
Definition map_rnext (fuel : nat) : option map_t -> option Z -> option (Z * Z) := map_step fuel LEFT.

End Map.
