(* ===== verification/RbTree.v ===== *)
(** * Red-black trees as values

    The trees a memory of lisk_map.c holds: every node with its address, its
    colour and its entry.  A context is the path from a place of a tree to its
    root.  The colour and height invariants and the order of the entries, apart
    from memory. *)

From S2P Require Import Prelude LiskMap.

Module RbTree.
Import Map.

(** A key and its value. *)
Abbreviation entry := (slice_t * slice_t)%type.

Inductive tree := E | T (a : Z) (black : bool) (l : tree) (e : entry) (r : tree).

Lemma tree_nil t : t = E \/ t <> E.
Proof. destruct t; [by left|by right]. Qed.

(** A node given its child on one side and on the other. *)
Definition node (d : side) (a : Z) (c : bool) (e : entry) (x y : tree) : tree :=
  match d with LEFT => T a c x e y | RIGHT => T a c y e x end.

(** The path to the root, innermost first; each frame is the node above, the
    side its missing child is on and its other child. *)
Inductive frame := F (d : side) (a : Z) (c : bool) (e : entry) (s : tree).
Abbreviation context := (list frame).

Definition fill (f : frame) (t : tree) : tree := match f with F d a c e s => node d a c e t s end.

Fixpoint plug (k : context) (t : tree) : tree := match k with [] => t | f :: k => plug k (fill f t) end.

Lemma plug_app k k' t : plug (k ++ k') t = plug k' (plug k t).
Proof. revert t. induction k as [|f k IH]; intros t; [done|]. apply IH. Qed.

Lemma node_opp d a c e x y : node (opp d) a c e x y = node d a c e y x.
Proof. by destruct d. Qed.

Lemma opp_opp d : opp (opp d) = d.
Proof. by destruct d. Qed.

(** ** Entries in order *)

Fixpoint elems (t : tree) : list (Z * entry) :=
  match t with E => [] | T a _ l e r => elems l ++ (a, e) :: elems r end.

Definition addrs (t : tree) : list Z := (elems t).*1.

(** What lies before and after the hole. *)
Fixpoint before (k : context) : list (Z * entry) :=
  match k with
  | [] => []
  | F LEFT _ _ _ _ :: k => before k
  | F RIGHT a _ e s :: k => before k ++ elems s ++ [(a, e)]
  end.

Fixpoint after (k : context) : list (Z * entry) :=
  match k with
  | [] => []
  | F LEFT a _ e s :: k => (a, e) :: elems s ++ after k
  | F RIGHT _ _ _ _ :: k => after k
  end.

Lemma elems_plug k t : elems (plug k t) = before k ++ elems t ++ after k.
Proof.
  revert t. induction k as [|[[] a c e s] k IH]; intros t; cbn [plug before after fill node].
  - by rewrite app_nil_r.
  - rewrite IH. cbn. by rewrite <- !app_assoc.
  - rewrite IH. cbn. by rewrite <- !app_assoc.
Qed.

Lemma elems_node_rotate d a c e a' c' e' x y z :
  elems (node d a c e x (node d a' c' e' y z)) = elems (node d a' c' e' (node d a c e x y) z).
Proof. destruct d; cbn; by rewrite <- !app_assoc. Qed.

Lemma elems_recolor d a c c' e x y : elems (node d a c e x y) = elems (node d a c' e x y).
Proof. by destruct d. Qed.

Lemma before_app k k' : before (k ++ k') = before k' ++ before k.
Proof.
  induction k as [|[[] a c e s] k IH]; cbn; [by rewrite app_nil_r|done|]. by rewrite IH, <- app_assoc.
Qed.

Lemma after_app k k' : after (k ++ k') = after k ++ after k'.
Proof. induction k as [|[[] a c e s] k IH]; cbn; [done| |done]. by rewrite IH, <- app_assoc. Qed.

(** Every entry is at a place. *)
Lemma elems_split t : forall B a e A, elems t = B ++ (a, e) :: A ->
  exists k c l r, t = plug k (T a c l e r) /\ B = before k ++ elems l /\ A = elems r ++ after k.
Proof.
  induction t as [|b c0 l IHl e0 r IHr]; intros B a e A Heq; [by destruct B|]. cbn [elems] in Heq.
  apply app_eq_app in Heq as (w & [[H1 H2]|[H1 H2]]).
  - destruct w as [|[a' e'] w].
    + rewrite app_nil_r in H1. injection H2 as -> -> ->. exists [], c0, l, r. by rewrite app_nil_r.
    + injection H2 as -> -> ->. destruct (IHl _ _ _ _ H1) as (k & c & l' & r' & -> & -> & ->).
      exists (k ++ [F LEFT b c0 e0 r]), c, l', r'. rewrite plug_app. split; [done|].
      rewrite before_app, after_app. cbn. rewrite app_nil_r, <- app_assoc. done.
  - destruct w as [|[a' e'] w].
    + rewrite app_nil_r in H1. injection H2 as <- <- <-. exists [], c0, l, r. by rewrite app_nil_r.
    + injection H2 as <- <- H2. destruct (IHr _ _ _ _ H2) as (k & c & l' & r' & -> & -> & ->).
      exists (k ++ [F RIGHT b c0 e0 l]), c, l', r'. rewrite plug_app. split; [done|].
      rewrite before_app, after_app, H1. cbn. rewrite app_nil_r, <- !app_assoc. done.
Qed.

(** ** Colours and black heights *)

Definition is_black (t : tree) : Prop := match t with T _ false _ _ _ => False | _ => True end.

Fixpoint rbt (t : tree) (n : nat) : Prop :=
  match t with
  | E => n = 0%nat
  | T _ true l _ r => match n with O => False | S n => rbt l n /\ rbt r n end
  | T _ false l _ r => is_black l /\ is_black r /\ rbt l n /\ rbt r n
  end.

Definition top_black (k : context) : Prop := match k with F _ _ true _ _ :: _ => True | _ => False end.

(** A context whose hole takes a tree of height [n], black below a red node. *)
Fixpoint rbk (k : context) (n : nat) : Prop :=
  match k with
  | [] => True
  | F _ _ true _ s :: k => rbt s n /\ rbk k (S n)
  | F _ _ false _ s :: k => rbt s n /\ is_black s /\ top_black k /\ rbk k n
  end.

Definition above_black (k : context) : Prop := match k with F _ _ false _ _ :: _ => False | _ => True end.

Lemma rbt_node d a c e x y n :
  rbt (node d a c e x y) n <->
  if c then match n with O => False | S n => rbt x n /\ rbt y n end
  else is_black x /\ is_black y /\ rbt x n /\ rbt y n.
Proof. destruct d, c; cbn; [done|done|destruct n; tauto|tauto]. Qed.

Lemma is_black_node d a c e x y : is_black (node d a c e x y) <-> c = true.
Proof. destruct d, c; cbn; split; done. Qed.

(** A tree that fits its context makes a red-black tree, its root aside. *)
Lemma rbt_plug k : forall t n, rbk k n -> rbt t n -> is_black t \/ above_black k -> exists n', rbt (plug k t) n' /\ (k <> [] -> is_black (plug k t)).
Proof.
  induction k as [|[d a c e s] k IH]; intros t n Hk Ht Hb; [by exists n|]. cbn [plug fill]. destruct c.
  - destruct Hk as [Hs Hk]. destruct (IH (node d a true e t s) (S n)) as (n' & H1 & H2); [done|by apply rbt_node| |].
    { left. by apply is_black_node. }
    exists n'. split; [done|]. intros _. destruct k; [by apply is_black_node|]. by apply H2.
  - destruct Hk as (Hs & Hbs & Htop & Hk).
    destruct (IH (node d a false e t s) n) as (n' & H1 & H2); [done| | |].
    + apply rbt_node. destruct Hb as [Hb|[]]. done.
    + right. by destruct k as [|[? ? [] ? ?] k].
    + exists n'. split; [done|]. intros _. apply H2. by destruct k.
Qed.

(** A place of a red-black tree splits it into a context and a tree that fit. *)
Lemma plug_rbt k : forall t n, rbt (plug k t) n -> is_black (plug k t) ->
  exists n', rbk k n' /\ rbt t n' /\ (is_black t \/ above_black k).
Proof.
  induction k as [|[d a c e s] k IH]; intros t n Ht Hb; [exists n; split; [exact I|]; split; [exact Ht|left; exact Hb]|]. cbn [plug fill] in *.
  destruct (IH _ _ Ht Hb) as (n' & Hk & Hn & Hab). apply rbt_node in Hn. destruct c.
  - destruct n' as [|n']; [done|]. exists n'. split; [split; [apply Hn|done]|]. split; [apply Hn|by right].
  - exists n'. destruct Hn as (H1 & H2 & H3 & H4). split; [|by auto]. split; [done|]. split; [done|]. split; [|done].
    destruct Hab as [Hab|Hab]; [by apply is_black_node in Hab|].
    destruct k as [|[? ? [] ? ?] k]; [by apply is_black_node in Hb|done|done].
Qed.

(** The height of a red-black tree is at most logarithmic. *)
Fixpoint height (t : tree) : nat := match t with E => 0 | T _ _ l _ r => S (Nat.max (height l) (height r)) end.

Lemma plug_height k t : (length k + height t <= height (plug k t))%nat.
Proof.
  revert t. induction k as [|[d a c e s] k IH]; intros t; [done|]. cbn [plug length]. specialize (IH (fill (F d a c e s) t)).
  destruct d; cbn in *; lia.
Qed.

Definition is_red (t : tree) : nat := match t with T _ false _ _ _ => 1 | _ => 0 end.

Lemma rbt_height t : forall n, rbt t n -> (height t <= 2 * n + is_red t)%nat.
Proof.
  induction t as [|a c l IHl e r IHr]; intros n Hn; [cbn; lia|]. destruct c; cbn in *.
  - destruct n as [|n]; [done|]. destruct Hn as [Hl Hr]. specialize (IHl n Hl). specialize (IHr n Hr).
    assert (is_red l <= 1 /\ is_red r <= 1)%nat by (destruct l as [|? [] ? ? ?], r as [|? [] ? ? ?]; cbn; lia). lia.
  - destruct Hn as (Bl & Br & Hl & Hr). specialize (IHl n Hl). specialize (IHr n Hr).
    assert (is_red l = 0 /\ is_red r = 0)%nat by (destruct l as [|? [] ? ? ?], r as [|? [] ? ? ?]; done). lia.
Qed.

Lemma rbt_size t : forall n, rbt t n -> (2 ^ n <= S (length (elems t)))%nat.
Proof.
  induction t as [|a c l IHl e r IHr]; intros n Hn; [cbn in *; subst; done|].
  assert (2 ^ n <= S (length (elems l) + S (length (elems r))))%nat; [|cbn; rewrite length_app; cbn; lia].
  destruct c; cbn in *.
  - destruct n as [|n]; [done|]. destruct Hn as [Hl Hr]. specialize (IHl n Hl). specialize (IHr n Hr). cbn. lia.
  - destruct Hn as (_ & _ & Hl & Hr). specialize (IHl n Hl). lia.
Qed.

Lemma rbt_height_log t n :
  rbt t n -> is_black t -> (height t <= 2 * Nat.log2 (S (length (elems t))))%nat.
Proof.
  intros Hn Hb. pose proof (rbt_height t n Hn). pose proof (rbt_size t n Hn) as Hs.
  apply Nat.log2_le_mono in Hs. rewrite Nat.log2_pow2 in Hs by lia.
  assert (is_red t = 0)%nat by (by destruct t as [|? [] ? ? ?]). lia.
Qed.

(** The invariant sees the colours and not the entries. *)
Lemma rbk_swap k d a c e a' e' s k' n :
  rbk (k ++ F d a c e s :: k') n <-> rbk (k ++ F d a' c e' s :: k') n.
Proof.
  revert n. induction k as [|[d0 b c0 e0 s0] k IH]; intros n; [done|]. cbn. destruct c0; rewrite IH; [done|].
  by destruct k as [|[]].
Qed.

(** ** Addresses *)

Fixpoint frame_addrs (k : context) : list Z :=
  match k with [] => [] | F _ a _ _ s :: k => a :: addrs s ++ frame_addrs k end.

Lemma addrs_node d a c e x y : addrs (node d a c e x y) ≡ₚ a :: addrs x ++ addrs y.
Proof. unfold addrs. destruct d; cbn; rewrite fmap_app; cbn; solve_Permutation. Qed.

Lemma addrs_plug k t : addrs (plug k t) ≡ₚ addrs t ++ frame_addrs k.
Proof.
  revert t. induction k as [|[d a c e s] k IH]; intros t; [by rewrite app_nil_r|]. cbn [plug fill frame_addrs].
  rewrite IH, addrs_node. solve_Permutation.
Qed.

End RbTree.
