(* ===== verification/LiskMapRep.v ===== *)
(** * The red-black tree in memory

    When a memory of lisk_map.c holds a tree of RbTree, what the operations of
    LiskMap do to it, and the map they make together. *)

From S2P Require Import Prelude LiskMap RbTree.

Module MapRep.
Import Map RbTree.

(** ** Parent words *)

Definition word (p : Z) (c : bool) : Z := p + Z.b2z c.
Definition aligned (p : Z) : Prop := 0 <= p /\ p mod 4 = 0.

Lemma word_land_1 p c : aligned p -> Z.land (word p c) BLACK = Z.b2z c.
Proof.
  intros [Hp H]. unfold BLACK, word. rewrite (Z.land_ones _ 1) by lia. change (2 ^ 1) with 2.
  pose proof (Z.div_mod p 4). replace (p + Z.b2z c) with (Z.b2z c + (2 * (p / 4)) * 2) by lia.
  rewrite Z.mod_add by lia. by destruct c.
Qed.

Lemma word_parent p c : aligned p -> Z.land (word p c) (Z.lnot BLACK) = p.
Proof. intros H. rewrite <- Z.sub_land_same_l, word_land_1 by done. unfold word. lia. Qed.

Lemma lor_low p z : aligned p -> 0 <= z < 4 -> Z.lor z p = p + z.
Proof.
  intros [Hp H] Hz. rewrite <- Z.add_nocarry_lor; [lia|]. apply Z.bits_inj'. intros i Hi. rewrite Z.land_spec, Z.bits_0.
  destruct (decide (i < 2)).
  - rewrite <- (Z.mod_pow2_bits_low p 2 i) by lia. change (2 ^ 2) with 4. by rewrite H, Z.bits_0, andb_false_r.
  - rewrite (Z.bits_above_log2 z i); [done|lia|]. destruct (decide (z = 0)) as [->|]; [cbn; lia|].
    apply Z.log2_lt_pow2; [lia|]. assert (2 ^ 2 <= 2 ^ i) by (apply Z.pow_le_mono_r; lia). lia.
Qed.

Lemma word_set_parent p q c : aligned p -> aligned q -> Z.lor (Z.land (word p c) 3) q = word q c.
Proof.
  intros [Hp H] Hq. rewrite (Z.land_ones _ 2) by lia. change (2 ^ 2) with 4. unfold word.
  rewrite Z.add_mod, H by lia. rewrite Z.add_0_l, Z.mod_mod by lia.
  by destruct c; cbn; rewrite lor_low.
Qed.

Lemma word_set_black p c : aligned p -> Z.lor (word p c) BLACK = word p true.
Proof.
  intros H. unfold word. rewrite <- (lor_low p (Z.b2z c)); [|done|by destruct c].
  rewrite Z.lor_comm, Z.lor_assoc, lor_low; by destruct c.
Qed.

Lemma word_set_color p c b : aligned p -> Z.lor (Z.land (word p c) (Z.lnot BLACK)) (Z.b2z b) = word p b.
Proof. intros H. rewrite word_parent by done. rewrite Z.lor_comm, lor_low; by destruct b. Qed.

(** ** Trees and contexts in memory *)

Definition rootp (t : tree) : Z := match t with E => 0 | T a _ _ _ _ => a end.
Definition top (k : context) : Z := match k with [] => 0 | F _ a _ _ _ :: _ => a end.

Definition noderec (d : side) (par : Z) (c : bool) (x y : Z) (e : entry) : rb_node_t :=
  match d with
  | LEFT => mk_node (word par c) x y (fst e) (snd e)
  | RIGHT => mk_node (word par c) y x (fst e) (snd e)
  end.

Fixpoint tree_at (m : rmem) (par : Z) (t : tree) : Prop :=
  match t with
  | E => True
  | T a c l e r => m !! a = Some (noderec LEFT par c (rootp l) (rootp r) e) /\ tree_at m a l /\ tree_at m a r
  end.

Fixpoint ctx_at (m : rmem) (rn : Z) (k : context) (hole : Z) : Prop :=
  match k with
  | [] => rn = hole
  | F d a c e s :: k => m !! a = Some (noderec d (top k) c hole (rootp s) e) /\ tree_at m a s /\ ctx_at m rn k a
  end.

Lemma rootp_node d a c e x y : rootp (node d a c e x y) = a.
Proof. by destruct d. Qed.

Lemma tree_at_node m par d a c e x y :
  tree_at m par (node d a c e x y) <->
  m !! a = Some (noderec d par c (rootp x) (rootp y) e) /\ tree_at m a x /\ tree_at m a y.
Proof. destruct d; cbn; tauto. Qed.

Lemma plug_at m rn k : forall t,
  (tree_at m 0 (plug k t) /\ rn = rootp (plug k t)) <-> (tree_at m (top k) t /\ ctx_at m rn k (rootp t)).
Proof.
  induction k as [|[d a c e s] k IH]; intros t; [done|]. cbn [plug fill ctx_at top].
  rewrite IH, tree_at_node, rootp_node. tauto.
Qed.

Lemma child_same d par c x y e : child d (noderec d par c x y e) = x.
Proof. by destruct d. Qed.
Lemma child_opp d par c x y e : child (opp d) (noderec d par c x y e) = y.
Proof. by destruct d. Qed.
Lemma with_child_same d par c x y e p : with_child d p (noderec d par c x y e) = noderec d par c p y e.
Proof. by destruct d. Qed.
Lemma with_child_opp d par c x y e p : with_child (opp d) p (noderec d par c x y e) = noderec d par c x p e.
Proof. by destruct d. Qed.
Lemma parent_noderec d par c x y e : parent (noderec d par c x y e) = word par c.
Proof. by destruct d. Qed.
Lemma with_parent_noderec d par c x y e q b :
  with_parent (word q b) (noderec d par c x y e) = noderec d q b x y e.
Proof. by destruct d. Qed.
Lemma noderec_opp d par c x y e : noderec (opp d) par c x y e = noderec d par c y x e.
Proof. by destruct d. Qed.

(** ** Frames *)

(** Nothing but the addresses of [l] changes, and none comes or goes. *)
Definition changes (l : list Z) (m m' : rmem) : Prop :=
  (forall a, a ∉ l -> m' !! a = m !! a) /\ (forall a, is_Some (m' !! a) <-> is_Some (m !! a)).

Lemma changes_refl l m : changes l m m.
Proof. done. Qed.

Lemma changes_trans l l' m m1 m2 : changes l m m1 -> changes l' m1 m2 -> changes (l ++ l') m m2.
Proof.
  intros [H1 D1] [H2 D2]. split; [|intros a; by rewrite D2, D1]. intros a Ha. rewrite not_elem_of_app in Ha.
  rewrite H2 by tauto. apply H1. tauto.
Qed.

Lemma changes_weaken l l' m m' : changes l m m' -> (forall a, a ∈ l -> a ∈ l') -> changes l' m m'.
Proof. intros [H D] Hl. split; [|done]. intros a Ha. apply H. intros Hin. by apply Ha, Hl. Qed.

Lemma changes_insert m a n n' : m !! a = Some n' -> changes [a] m (<[a := n]> m).
Proof.
  intros Ha. split.
  - intros b Hb. rewrite lookup_insert_ne; [done|]. intros ->. apply Hb. by left.
  - intros b. destruct (decide (b = a)) as [->|]; [by rewrite lookup_insert_eq, Ha|by rewrite lookup_insert_ne].
Qed.

Lemma tree_at_ext m m' par t :
  (forall a, a ∈ addrs t -> m' !! a = m !! a) -> tree_at m par t -> tree_at m' par t.
Proof.
  revert par. induction t as [|a c x IHx e y IHy]; intros par Hd; [done|].
  unfold addrs in *. cbn in *. rewrite fmap_app in Hd. cbn in Hd. intros (H1 & H2 & H3).
  rewrite Hd by set_solver. split; [done|]. split; [apply IHx|apply IHy]; try done; set_solver.
Qed.

Lemma ctx_at_ext m m' rn k hole :
  (forall a, a ∈ frame_addrs k -> m' !! a = m !! a) -> ctx_at m rn k hole -> ctx_at m' rn k hole.
Proof.
  revert hole. induction k as [|[d a c e s] k IH]; intros hole Hd; [done|]. cbn in *. intros (H1 & H2 & H3).
  rewrite Hd by (by left). split; [done|]. split; [apply (tree_at_ext m)|apply IH]; try done; set_solver.
Qed.

Lemma tree_at_changes l m m' par t :
  changes l m m' -> (forall a, a ∈ addrs t -> a ∉ l) -> tree_at m par t -> tree_at m' par t.
Proof. intros [Hc _] Hd. apply tree_at_ext. intros a Ha. by apply Hc, Hd. Qed.

Lemma ctx_at_changes l m m' rn k hole :
  changes l m m' -> (forall a, a ∈ frame_addrs k -> a ∉ l) -> ctx_at m rn k hole -> ctx_at m' rn k hole.
Proof. intros [Hc _] Hd. apply ctx_at_ext. intros a Ha. by apply Hc, Hd. Qed.

(** ** A place of a tree *)

Definition addr_ok (a : Z) : Prop := 0 < a /\ a mod 4 = 0.

Lemma addr_aligned a : addr_ok a -> aligned a.
Proof. intros []. split; [lia|done]. Qed.
Lemma aligned_0 : aligned 0.
Proof. done. Qed.

Definition all_addrs (k : context) (t : tree) : list Z := addrs t ++ frame_addrs k.

(** The memory and its root hold the tree [plug k t] and nothing else. *)
Record at_place (m : rmem) (rn : Z) (k : context) (t : tree) : Prop := {
  ap_tree : tree_at m (top k) t;
  ap_ctx : ctx_at m rn k (rootp t);
  ap_nodup : NoDup (all_addrs k t);
  ap_ok : Forall addr_ok (all_addrs k t);
  ap_dom : forall a, is_Some (m !! a) <-> a ∈ all_addrs k t;
}.

Lemma all_addrs_plug k t : all_addrs k t ≡ₚ addrs (plug k t).
Proof. unfold all_addrs. by rewrite addrs_plug. Qed.

(** The place does not matter, only the tree. *)
Lemma at_place_move m rn k t k' t' : plug k t = plug k' t' -> at_place m rn k t -> at_place m rn k' t'.
Proof.
  intros E [H1 H2 H3 H4 H5].
  assert (all_addrs k' t' ≡ₚ all_addrs k t) as Hp by (by rewrite !all_addrs_plug, E).
  destruct (proj1 (plug_at m rn k' t')) as [H6 H7].
  { rewrite <- E. apply plug_at. by split. }
  constructor; [done|done|by rewrite Hp|by rewrite Hp|]. intros a. by rewrite Hp.
Qed.

Lemma top_aligned k t : Forall addr_ok (all_addrs k t) -> aligned (top k).
Proof.
  intros H. destruct k as [|[d a c e s] k]; [apply aligned_0|]. apply addr_aligned. rewrite Forall_forall in H.
  apply H. apply elem_of_app. right. by left.
Qed.

Lemma rootp_in t : t <> E -> rootp t ∈ addrs t.
Proof. destruct t as [|a c l e r]; [done|]. intros _. unfold addrs. cbn. rewrite fmap_app. set_solver. Qed.

Lemma rootp_nil t : Forall addr_ok (addrs t) -> rootp t = 0 <-> t = E.
Proof.
  intros H. split; [|by intros ->]. intros Hz. destruct t as [|a c l e r]; [done|]. exfalso.
  rewrite Forall_forall in H. destruct (H (rootp (T a c l e r))) as [Hp _]; [by apply rootp_in|]. lia.
Qed.

Lemma upd_eq m a n f : m !! a = Some n -> upd m a f = Some (<[a := f n]> m).
Proof. intros H. unfold upd. by rewrite H. Qed.

(** Giving a subtree another parent. *)
Lemma reparent m p q t :
  tree_at m p t -> aligned p -> aligned q -> Forall addr_ok (addrs t) -> NoDup (addrs t) ->
  exists m', (if negb (rootp t =? 0) then rb_set_parent m (rootp t) q else Some m) = Some m' /\
    tree_at m' q t /\ changes (addrs t) m m'.
Proof.
  intros Ht Hp Hq Hok Hnd. destruct t as [|a c l e r]; [by exists m|]. destruct Ht as (Ha & Hl & Hr). cbn [rootp].
  rewrite (proj2 (Z.eqb_neq a 0)).
  2:{ intros ->. rewrite Forall_forall in Hok. destruct (Hok 0) as [? _]; [|lia].
      apply (rootp_in (T 0 c l e r)). done. }
  cbn [negb]. unfold rb_set_parent. rewrite (upd_eq _ _ _ _ Ha). eexists. split; [done|].
  pose proof (changes_insert m a (with_parent (Z.lor (Z.land (word p c) 3) q) (noderec LEFT p c (rootp l) (rootp r) e)) _ Ha) as Hch.
  rewrite parent_noderec. rewrite word_set_parent in * by done. rewrite with_parent_noderec in *.
  unfold addrs in Hnd. cbn in Hnd. rewrite fmap_app in Hnd. cbn in Hnd.
  rewrite <- Permutation_middle in Hnd. apply NoDup_cons in Hnd as [Hnin _]. rewrite not_elem_of_app in Hnin.
  split.
  - cbn. rewrite lookup_insert_eq. split; [done|].
    split; apply (tree_at_changes [a] m); try done; intros b Hb ->%list_elem_of_singleton; tauto.
  - apply (changes_weaken [a]); [done|]. intros b ->%list_elem_of_singleton. by apply (rootp_in (T a c l e r)).
Qed.

Lemma get_child_eq m a n d : m !! a = Some n -> get_child m d a = Some (child d n).
Proof. intros H. unfold get_child. by rewrite H. Qed.

Lemma child_rec d' d par c x y e :
  child d' (noderec d par c x y e) = if decide (d' = d) then x else y.
Proof. by destruct d', d. Qed.

(** On which side of its parent a subtree is found. *)
Lemma side_of_ctx m rn d a c e s k t :
  ctx_at m rn (F d a c e s :: k) (rootp t) -> rootp t <> rootp s -> side_of m a (rootp t) = Some d.
Proof.
  intros (Ha & _) Hne. unfold side_of. rewrite (get_child_eq _ _ _ _ Ha), child_rec. cbn [mbind option_bind].
  destruct d; cbn [decide]; [by rewrite decide_True, Z.eqb_refl|].
  rewrite decide_False by done. rewrite (proj2 (Z.eqb_neq _ _)); [done|congruence].
Qed.

Lemma replace_child_spec m r k old new :
  ctx_at m (r_node r) k old -> old <> 0 -> NoDup (frame_addrs k) -> Forall addr_ok (frame_addrs k) ->
  old ∉ frame_addrs k ->
  exists m' r', replace_child (mk_map m r) (top k) old new = Some (mk_map m' (with_node r r')) /\
    ctx_at m' r' k new /\ changes (frame_addrs k) m m'.
Proof.
  intros Hc Hold Hnd Hok Hin. unfold replace_child. cbn [mem rt]. destruct k as [|[d a c e s] k].
  { exists m, new. split; [done|]. split; [done|]. apply changes_refl. }
  cbn [top ctx_at frame_addrs] in *. destruct Hc as (Ha & Hs & Hk).
  apply NoDup_cons in Hnd as [Hna Hnd]. apply NoDup_app in Hnd as (Hnds & Hdis & Hndk).
  rewrite Forall_cons, Forall_app in Hok. destruct Hok as ((Ha0 & _) & Hoks & Hokk).
  rewrite not_elem_of_cons, not_elem_of_app in Hin. rewrite not_elem_of_app in Hna.
  rewrite (proj2 (Z.eqb_neq a 0)) by lia. cbn [negb]. rewrite (get_child_eq _ _ _ _ Ha), child_rec. cbn [mbind option_bind].
  assert ((if (if decide (LEFT = d) then old else rootp s) =? old then LEFT else RIGHT) = d) as ->.
  { destruct d; [by rewrite decide_True, Z.eqb_refl|]. rewrite decide_False by done.
    rewrite (proj2 (Z.eqb_neq _ _)); [done|]. intros Hr. destruct s as [|b cb l eb r']; [by cbn in Hr|].
    assert (old ∈ addrs (T b cb l eb r')) by (rewrite <- Hr; by apply rootp_in). tauto. }
  unfold set_child. rewrite (upd_eq _ _ _ _ Ha), with_child_same. cbn [mbind option_bind].
  pose proof (changes_insert m a (noderec d (top k) c new (rootp s) e) _ Ha) as Hch.
  eexists _, (r_node r). split; [by destruct r|]. split; [split; [by rewrite lookup_insert_eq|split]|].
  - apply (tree_at_changes [a] m); [done| |done]. intros b Hb ->%list_elem_of_singleton. tauto.
  - apply (ctx_at_changes [a] m); [done| |done]. intros b Hb ->%list_elem_of_singleton. tauto.
  - apply (changes_weaken [a]); [done|]. intros b ->%list_elem_of_singleton. by left.
Qed.

(** ** Colours *)

Definition set_color (m : rmem) (a : Z) (c : bool) : option rmem :=
  if c then color_set_black m a else color_set_red m a.

Lemma set_color_spec m par a c c' d e x y :
  m !! a = Some (noderec d par c x y e) -> aligned par ->
  set_color m a c' = Some (<[a := noderec d par c' x y e]> m).
Proof.
  intros Ha Hp. destruct c'; cbn [set_color]; unfold color_set_black, color_set_red; rewrite (upd_eq _ _ _ _ Ha), parent_noderec.
  - by rewrite word_set_black, with_parent_noderec.
  - rewrite word_parent by done. replace par with (word par false) at 1 by (unfold word; cbn; lia).
    by rewrite with_parent_noderec.
Qed.

(** Another record at the root of a place. *)
Lemma place_recolor m rn k d a c c' e x y :
  at_place m rn k (node d a c e x y) ->
  at_place (<[a := noderec d (top k) c' (rootp x) (rootp y) e]> m) rn k (node d a c' e x y).
Proof.
  intros [H1 H2 H3 H4 H5]. apply tree_at_node in H1 as (Ha & Hx & Hy). rewrite rootp_node in H2.
  assert (all_addrs k (node d a c' e x y) = all_addrs k (node d a c e x y)) as Heq.
  { unfold all_addrs, addrs. by rewrite (elems_recolor d a c c'). }
  pose proof (changes_insert m a (noderec d (top k) c' (rootp x) (rootp y) e) _ Ha) as Hch.
  assert (NoDup (a :: addrs x ++ addrs y ++ frame_addrs k)) as Hnd.
  { revert H3. unfold all_addrs. rewrite addrs_node. cbn. by rewrite <- app_assoc. }
  apply NoDup_cons in Hnd as [Hna _]. rewrite !not_elem_of_app in Hna. destruct Hna as (Hna1 & Hna2 & Hna3).
  constructor.
  - apply tree_at_node. rewrite lookup_insert_eq. split; [done|].
    split; apply (tree_at_changes [a] m); try done; intros b Hb ->%list_elem_of_singleton; tauto.
  - rewrite rootp_node. apply (ctx_at_changes [a] m); [done| |done]. intros b Hb ->%list_elem_of_singleton. tauto.
  - by rewrite Heq.
  - by rewrite Heq.
  - intros b. rewrite Heq, <- H5. apply Hch.
Qed.

(** ** Rotations *)

(** The addresses around a node whose child on the other side is a node. *)
Lemma two_nodes_addrs k d a c e x b c' e' y z :
  all_addrs k (node d a c e x (node (opp d) b c' e' z y)) ≡ₚ
  a :: b :: addrs x ++ addrs y ++ addrs z ++ frame_addrs k.
Proof. unfold all_addrs. rewrite addrs_node, addrs_node. cbn. solve_Permutation. Qed.

Lemma rotated_addrs k d a c e x b c' e' y z :
  all_addrs k (node d b c' e' (node d a c e x y) z) ≡ₚ a :: b :: addrs x ++ addrs y ++ addrs z ++ frame_addrs k.
Proof. unfold all_addrs. rewrite addrs_node, addrs_node. cbn. solve_Permutation. Qed.

Lemma rotate_eq d t a : rotate d t a = rb_rotate d t a.
Proof. by destruct d. Qed.

Lemma rotate_spec d m r k a c e x b c' e' y z :
  at_place m (r_node r) k (node d a c e x (node d b c' e' y z)) ->
  exists m' r', rotate d (mk_map m r) a = Some (mk_map m' (with_node r r')) /\
    at_place m' r' k (node d b c' e' (node d a c e x y) z).
Proof.
  intros [H1 H2 H3 H4 H5]. rewrite rotate_eq. rewrite <- (node_opp d b) in H3, H4, H5.
  rewrite two_nodes_addrs in H3, H4. pose proof H4 as Hok. rewrite !Forall_cons, !Forall_app in Hok.
  destruct Hok as (Oa & Ob & Ox & Oy & Oz & Ok).
  apply tree_at_node in H1 as (Ha & Hx & Hb). apply tree_at_node in Hb as (Hb & Hy & Hz).
  rewrite rootp_node in H2, Ha.
  assert (aligned (top k)) as Htop by (apply (top_aligned k RbTree.E); done).
  pose proof (NoDup_cons_1_1 _ _ H3) as Na. pose proof (NoDup_cons_1_2 _ _ H3) as H3'.
  pose proof (NoDup_cons_1_1 _ _ H3') as Nb. pose proof (NoDup_cons_1_2 _ _ H3') as H3''.
  rewrite not_elem_of_cons, !not_elem_of_app in Na. destruct Na as (Nab & Nax & Nay & Naz & Nak).
  rewrite !not_elem_of_app in Nb. destruct Nb as (Nbx & Nby & Nbz & Nbk).
  rewrite !NoDup_app in H3''. destruct H3'' as (Dx & Dxr & Dy & Dyr & Dz & Dzr & Dk).
  unfold rb_rotate. cbn [mem rt]. rewrite (get_child_eq _ _ _ _ Ha), child_opp. cbn [mbind option_bind].
  rewrite (proj2 (Z.eqb_neq b 0)) by (destruct Ob; lia).
  rewrite (get_child_eq _ _ _ _ Hb), child_same. cbn [mbind option_bind].
  unfold set_child. rewrite (upd_eq _ _ _ _ Ha), with_child_opp. cbn [mbind option_bind].
  set (m1 := <[a := _]> m). assert (changes [a] m m1) as C1 by (by apply (changes_insert m a _ _ Ha)).
  assert (tree_at m1 b y) as Hy1.
  { apply (tree_at_changes [a] m); [done| |done]. intros v Hv ->%list_elem_of_singleton. tauto. }
  destruct (reparent m1 b a y Hy1 (addr_aligned _ Ob) (addr_aligned _ Oa) Oy Dy) as (m2 & -> & Hy2 & C2).
  cbn [mbind option_bind].
  assert (m2 !! b = Some (noderec d a c' (rootp y) (rootp z) e')) as Hb2.
  { rewrite (proj1 C2) by tauto. unfold m1. by rewrite lookup_insert_ne. }
  rewrite (upd_eq _ _ _ _ Hb2), with_child_same. cbn [mbind option_bind].
  assert (m2 !! a = Some (noderec d (top k) c (rootp x) (rootp y) e)) as Ha2.
  { rewrite (proj1 C2) by tauto. unfold m1. by rewrite lookup_insert_eq. }
  unfold rb_parent, rb_set_parent. rewrite lookup_insert_ne by done. rewrite Ha2. cbn [fmap option_fmap option_map].
  rewrite parent_noderec, word_parent by done. cbn [mbind option_bind].
  rewrite (upd_eq (<[b := _]> m2) b _ _ (lookup_insert_eq _ _ _)). cbn [mbind option_bind]. rewrite insert_insert_eq.
  rewrite parent_noderec, word_set_parent, with_parent_noderec by (done || by apply addr_aligned).
  rewrite (upd_eq (<[b := _]> m2) a (noderec d (top k) c (rootp x) (rootp y) e)); [|by rewrite lookup_insert_ne].
  rewrite parent_noderec, word_set_parent, with_parent_noderec by (done || by apply addr_aligned).
  cbn [mbind option_bind]. rewrite lookup_insert_ne, lookup_insert_eq by done. cbn [fmap option_fmap option_map mbind option_bind].
  rewrite parent_noderec, word_parent by done.
  set (m3 := <[b := _]> m2). set (m4 := <[a := _]> m3).
  assert (changes [b] m2 m3) as C3 by (by apply (changes_insert m2 b _ _ Hb2)).
  assert (changes [a] m3 m4) as C4.
  { apply (changes_insert m3 a _ (noderec d (top k) c (rootp x) (rootp y) e)). unfold m3. by rewrite lookup_insert_ne. }
  pose proof (changes_trans _ _ _ _ _ (changes_trans _ _ _ _ _ (changes_trans _ _ _ _ _ C1 C2) C3) C4) as C.
  assert (ctx_at m4 (r_node r) k a) as Hk4.
  { apply (ctx_at_changes _ m m4 _ _ _ C); [|done]. intros v Hv. specialize (Dyr v). set_solver. }
  destruct (replace_child_spec m4 r k a b Hk4) as (m5 & r' & -> & Hk5 & C5); [destruct Oa; lia|done|done|done|].
  pose proof (changes_trans _ _ _ _ _ C C5) as C'. exists m5, r'. split; [done|]. constructor.
  - apply tree_at_node. rewrite rootp_node, tree_at_node.
    assert (m5 !! a = Some (noderec d b c (rootp x) (rootp y) e)) as Ha5.
    { rewrite (proj1 C5) by done. unfold m4. by rewrite lookup_insert_eq. }
    assert (m5 !! b = Some (noderec d (top k) c' a (rootp z) e')) as Hb5.
    { rewrite (proj1 C5) by done. unfold m4, m3. by rewrite lookup_insert_ne, lookup_insert_eq by done. }
    split; [done|]. split; [split; [done|split]|].
    + apply (tree_at_changes _ m m5 _ _ C'); [|done]. intros v Hv. specialize (Dxr v Hv). set_solver.
    + assert (changes ([b] ++ [a] ++ frame_addrs k) m2 m5) as C25 by (apply (changes_trans _ _ _ _ _ C3), (changes_trans _ _ _ _ _ C4), C5).
      apply (tree_at_changes _ m2 m5 _ _ C25); [|done]. intros v Hv. specialize (Dyr v Hv). set_solver.
    + apply (tree_at_changes _ m m5 _ _ C'); [|done]. intros v Hv. specialize (Dzr v Hv).
      assert (v ∉ addrs y) by (intros Hv'; specialize (Dyr v Hv'); set_solver). set_solver.
  - by rewrite rootp_node.
  - by rewrite rotated_addrs.
  - by rewrite rotated_addrs.
  - intros v. rewrite rotated_addrs, (proj2 C' v), H5. by rewrite two_nodes_addrs.
Qed.

(** ** Reading a place *)

Definition redb (t : tree) : bool := match t with T _ false _ _ _ => true | _ => false end.

Lemma redb_black t : redb t = false <-> is_black t.
Proof. by destruct t as [|a [] l e r]. Qed.

Lemma redb_node d a c e x y : redb (node d a c e x y) = negb c.
Proof. by destruct d, c. Qed.

(** A tree that is not empty, seen from a side. *)
Lemma tree_node d t : t <> E -> exists a e x y, t = node d a (negb (redb t)) e x y /\ a = rootp t.
Proof. destruct t as [|a c l e r]; [done|]. intros _. destruct d, c; cbn; eauto 10. Qed.

Lemma redb_ne t : redb t = true -> t <> E.
Proof. by intros H ->. Qed.

Lemma color_eq m par d a c e x y :
  m !! a = Some (noderec d par c x y e) -> aligned par -> rb_color m a = Some (Z.b2z c).
Proof. intros Ha Hp. unfold rb_color. rewrite Ha. cbn. by rewrite parent_noderec, word_land_1. Qed.

Lemma parent_eq m par d a c e x y :
  m !! a = Some (noderec d par c x y e) -> aligned par -> rb_parent m a = Some par.
Proof. intros Ha Hp. unfold rb_parent. rewrite Ha. cbn. by rewrite parent_noderec, word_parent. Qed.

Lemma some_red_spec m par t :
  tree_at m par t -> aligned par -> Forall addr_ok (addrs t) ->
  some_red m (rootp t) = Some (redb t) /\ nil_or_black m (rootp t) = Some (negb (redb t)).
Proof.
  intros Ht Hp Hok. unfold some_red, nil_or_black. destruct t as [|a c l e r]; [done|].
  assert (rootp (T a c l e r) <> 0) as Hz by (intros Hz; by apply rootp_nil in Hz).
  rewrite (proj2 (Z.eqb_neq _ 0)) by done. destruct Ht as (Ha & _).
  unfold color_is_red, color_is_black. cbn [rootp]. rewrite (color_eq _ _ LEFT _ _ _ _ _ Ha Hp). by destruct c.
Qed.

Lemma place_parent m rn k d a c e x y :
  at_place m rn k (node d a c e x y) -> rb_parent m a = Some (top k).
Proof.
  intros H. pose proof (ap_tree _ _ _ _ H) as Ht. apply tree_at_node in Ht as (Ha & _).
  apply (parent_eq m (top k) d a c e _ _ Ha). by apply (top_aligned _ _ (ap_ok _ _ _ _ H)).
Qed.

Lemma place_sub m rn k t : at_place m rn k t -> Forall addr_ok (addrs t) /\ NoDup (addrs t) /\ aligned (top k).
Proof.
  intros H. pose proof (ap_ok _ _ _ _ H) as Hok. pose proof (ap_nodup _ _ _ _ H) as Hnd.
  split; [by apply Forall_app in Hok as [? _]|]. split; [by apply NoDup_app in Hnd as (? & _)|].
  by apply (top_aligned _ _ Hok).
Qed.

Lemma place_color m rn k t :
  at_place m rn k t -> some_red m (rootp t) = Some (redb t) /\ nil_or_black m (rootp t) = Some (negb (redb t)).
Proof.
  intros H. destruct (place_sub _ _ _ _ H) as (Hok & _ & Hal).
  by apply (some_red_spec m (top k)); [apply H| |].
Qed.

Lemma place_set_color m rn k d a c c' e x y :
  at_place m rn k (node d a c e x y) ->
  exists m', set_color m a c' = Some m' /\ at_place m' rn k (node d a c' e x y).
Proof.
  intros H. destruct (place_sub _ _ _ _ H) as (_ & _ & Hal). pose proof (ap_tree _ _ _ _ H) as Ht.
  apply tree_at_node in Ht as (Ha & _). rewrite (set_color_spec _ _ _ _ c' _ _ _ _ Ha Hal).
  eexists. split; [done|]. by apply (place_recolor m rn k d a c c').
Qed.

(** Nodes of a place are not nil and differ. *)
Lemma place_root_ne m rn k t : at_place m rn k t -> t <> E -> rootp t <> 0.
Proof. intros H Ht Hz. destruct (place_sub _ _ _ _ H) as (Hok & _). by apply rootp_nil in Hz. Qed.

Lemma place_children_ne m rn k d a c e x y :
  at_place m rn k (node d a c e x y) -> x <> E -> rootp x <> rootp y.
Proof.
  intros H Hx Hxy. destruct (place_sub _ _ _ _ H) as (Hok & Hnd & _). rewrite addrs_node in Hok, Hnd.
  apply Forall_cons in Hok as [_ Hok]. apply Forall_app in Hok as [Hokx Hoky].
  apply NoDup_cons in Hnd as [_ Hnd]. apply NoDup_app in Hnd as (_ & Hd & _).
  assert (y <> E) as Hy by (intros ->; by apply rootp_nil in Hxy).
  apply (Hd (rootp x)); [by apply rootp_in|]. rewrite Hxy. by apply rootp_in.
Qed.

(** The place above, with its frame filled in. *)
Lemma place_up m rn d a c e s k t : at_place m rn (F d a c e s :: k) t -> at_place m rn k (node d a c e t s).
Proof. by apply at_place_move. Qed.

Lemma place_down m rn d a c e s k t : at_place m rn k (node d a c e t s) -> at_place m rn (F d a c e s :: k) t.
Proof. by apply at_place_move. Qed.

(** The place of the sibling. *)
Lemma place_sibling m rn d a c e s k t :
  at_place m rn (F d a c e s :: k) t -> at_place m rn (F (opp d) a c e t :: k) s.
Proof. apply at_place_move. cbn. by rewrite node_opp. Qed.

Lemma place_side m rn d a c e s k t :
  at_place m rn (F d a c e s :: k) t -> t <> E \/ s <> E -> side_of m a (rootp t) = Some d.
Proof.
  intros H Hne. apply (side_of_ctx m rn d a c e s k); [apply H|]. apply place_up in H as H'.
  destruct Hne as [Ht|Hs]; [by apply (place_children_ne _ _ _ _ _ _ _ _ _ H')|].
  rewrite <- node_opp in H'. intros E'. symmetry in E'. revert E'.
  by apply (place_children_ne _ _ _ _ _ _ _ _ _ H').
Qed.

Lemma place_child m rn k d a c e x y :
  at_place m rn k (node d a c e x y) -> get_child m d a = Some (rootp x) /\ get_child m (opp d) a = Some (rootp y).
Proof.
  intros H. pose proof (ap_tree _ _ _ _ H) as Ht. apply tree_at_node in Ht as (Ha & _).
  by rewrite !(get_child_eq _ _ _ _ Ha), child_same, child_opp.
Qed.

(** ** Blackening the root *)

Definition blacken (t : tree) : tree := match t with E => E | T a _ l e r => T a true l e r end.

Lemma elems_blacken t : elems (blacken t) = elems t.
Proof. by destruct t. Qed.

Lemma rbt_blacken t n : rbt t n -> exists n', rbt (blacken t) n' /\ is_black (blacken t).
Proof.
  destruct t as [|a [] l e r]; [by exists n|by exists n|]. intros (_ & _ & Hl & Hr). by exists (S n).
Qed.

Lemma blacken_root m rn t :
  at_place m rn [] t -> t <> E -> exists m', color_set_black m rn = Some m' /\ at_place m' rn [] (blacken t).
Proof.
  intros H Ht. pose proof (ap_ctx _ _ _ _ H) as Hr. cbn in Hr. subst rn. destruct t as [|a c l e r]; [done|].
  destruct (place_set_color m a [] LEFT a c true e l r H) as (m' & E' & H'). by exists m'.
Qed.

(** ** Rebalancing after an insertion *)

Definition rb_ok (t : tree) : Prop := is_black t /\ exists n, rbt t n.

Lemma plug_ne k t : t <> E -> plug k t <> E.
Proof.
  revert t. induction k as [|[[] a c e s] k IH]; intros t Ht; [done|..]; by apply IH.
Qed.

Lemma place_whole m rn k t : at_place m rn k t <-> at_place m rn [] (plug k t).
Proof. split; by apply at_place_move. Qed.

(** What the rebalancing functions have to show. *)
Definition rebalanced (r : rb_root_t) (l : list (Z * entry)) (o : option map_t) : Prop :=
  exists m' r' t', o = Some (mk_map m' (with_node r r')) /\ at_place m' r' [] t' /\ rb_ok t' /\ elems t' = l.

Lemma with_node_same r : with_node r (r_node r) = r.
Proof. by destruct r. Qed.
Lemma with_node_twice r a b : with_node (with_node r a) b = with_node r b.
Proof. done. Qed.

Lemma insert_done m r k t n :
  at_place m (r_node r) k t -> t <> E -> rbk k n -> rbt t n -> above_black k ->
  rebalanced r (elems (plug k t)) (m ← color_set_black m (r_node r); Some (mk_map m r)).
Proof.
  intros H Ht Hk Hn Hab. destruct (rbt_plug k t n Hk Hn (or_intror Hab)) as (n' & Hn' & _).
  apply place_whole in H. destruct (blacken_root _ _ _ H (plug_ne _ _ Ht)) as (m' & -> & H').
  exists m', (r_node r), (blacken (plug k t)). cbn [mbind option_bind]. rewrite with_node_same.
  split; [done|]. split; [done|]. split; [|by rewrite elems_blacken].
  destruct (rbt_blacken _ _ Hn') as (n'' & H1 & H2). by split; [|exists n''].
Qed.

Lemma elems_plug_cong k t t' : elems t = elems t' -> elems (plug k t) = elems (plug k t').
Proof. intros H. by rewrite !elems_plug, H. Qed.

Lemma rebalanced_cong r r' l l' o :
  rebalanced r' l' o -> (forall a, with_node r' a = with_node r a) -> l' = l -> rebalanced r l o.
Proof. intros (m' & rn & t' & -> & H) Hr <-. exists m', rn, t'. by rewrite Hr. Qed.

(** The order of the entries of two small trees. *)
Ltac in_order := cbn [elems node opp blacken]; repeat (rewrite <- app_assoc; cbn [app]).

(** Colouring and turning at the grandparent [g]: the parent [p] goes up. *)
Lemma turn_up m r k o g eg u p ep s t :
  at_place m (r_node r) k (node o g true eg u (node o p false ep s t)) ->
  exists m' r', (m ← color_set_black m p; m ← color_set_red m g; rotate o (mk_map m r) g) =
    Some (mk_map m' (with_node r r')) /\
    at_place m' r' (F (opp o) p true ep (node o g false eg u s) :: k) t.
Proof.
  intros H. apply (place_down m (r_node r) o g true eg (node o p false ep s t) k u), place_sibling in H.
  destruct (place_set_color _ _ _ _ _ _ true _ _ _ H) as (m1 & Em1 & H1). cbn [set_color] in Em1. rewrite Em1.
  cbn [mbind option_bind]. apply place_up in H1. rewrite node_opp in H1.
  destruct (place_set_color _ _ _ _ _ _ false _ _ _ H1) as (m2 & Em2 & H2). cbn [set_color] in Em2. rewrite Em2.
  cbn [mbind option_bind]. destruct (rotate_spec o m2 r k g false eg u p true ep s t H2) as (m3 & r3 & -> & H3).
  exists m3, r3. split; [done|]. apply place_down. by rewrite node_opp.
Qed.

(** A red uncle: the parent and the uncle become black, the grandparent red. *)
Lemma recolor_up m rn k d p ep s o g eg u t :
  at_place m rn (F d p false ep s :: F o g true eg u :: k) t -> redb u = true ->
  exists ua ue ul ur m1 m2 m3, u = node LEFT ua false ue ul ur /\
    color_set_black m (rootp u) = Some m1 /\ color_set_black m1 p = Some m2 /\ color_set_red m2 g = Some m3 /\
    at_place m3 rn k (node o g false eg (node d p true ep t s) (node LEFT ua true ue ul ur)).
Proof.
  intros H Eu. apply place_up in H. apply place_sibling in H.
  destruct (tree_node LEFT u (redb_ne _ Eu)) as (ua & ue & ul & ur & Eqt & Eua). rewrite Eu in Eqt. cbn [negb] in Eqt.
  rewrite <- Eua. rewrite Eqt in H. destruct (place_set_color _ _ _ _ _ _ true _ _ _ H) as (m1 & Em1 & H1).
  apply place_sibling in H1. rewrite opp_opp in H1.
  destruct (place_set_color _ _ _ _ _ _ true _ _ _ H1) as (m2 & Em2 & H2). apply place_up in H2.
  destruct (place_set_color _ _ _ _ _ _ false _ _ _ H2) as (m3 & Em3 & H3).
  exists ua, ue, ul, ur, m1, m2, m3. done.
Qed.

Lemma insert_rebalance_spec fuel : forall m r k t n,
  at_place m (r_node r) k t -> redb t = true -> rbk k n -> rbt t n -> (length k < fuel)%nat ->
  rebalanced r (elems (plug k t)) (rb_insert_rebalance fuel (mk_map m r) (rootp t)).
Proof.
  induction fuel as [|f IH]; intros m r k t n H Hred Hk Ht Hf; [lia|]. cbn [rb_insert_rebalance mem rt].
  destruct (tree_node LEFT t (redb_ne _ Hred)) as (a & e & x & y & Et & Ea).
  rewrite <- Ea. rewrite Et in H at 1. rewrite (place_parent _ _ _ _ _ _ _ _ _ H). rewrite <- Et in H. cbn [mbind option_bind].
  destruct k as [|[d p c ep s] k].
  { cbn [top some_red Z.eqb mbind option_bind]. apply (insert_done m r [] t n); [done|by apply redb_ne|done..]. }
  cbn [top]. pose proof (place_up _ _ _ _ _ _ _ _ _ H) as Hp.
  destruct (place_color _ _ _ _ Hp) as [Hcol _]. rewrite rootp_node, redb_node in Hcol. rewrite Hcol. cbn [mbind option_bind].
  destruct c; cbn [negb].
  { apply (insert_done m r _ t n); [done|by apply redb_ne|done..]. }
  destruct k as [|[e0 g [] eg u] k]; cbn in Hk; [by destruct Hk as (_ & _ & [] & _)| |by destruct Hk as (_ & _ & [] & _)].
  destruct Hk as (Hs & Bs & _ & Hu & Hk).
  rewrite (place_parent _ _ _ _ _ _ _ _ _ Hp). cbn [top mbind option_bind].
  assert (side_of m g p = Some e0) as ->.
  { rewrite <- (rootp_node d p false ep t s). apply (place_side _ _ _ _ _ _ _ _ _ Hp). left. by destruct d. }
  cbn [mbind option_bind]. pose proof (place_up _ _ _ _ _ _ _ _ _ Hp) as Hg.
  destruct (place_child _ _ _ _ _ _ _ _ _ Hg) as [_ ->]. cbn [mbind option_bind].
  pose proof (place_sibling _ _ _ _ _ _ _ _ _ Hp) as Hun.
  destruct (place_color _ _ _ _ Hun) as [-> _]. cbn [mbind option_bind].
  destruct (redb u) eqn:Eu.
  - destruct (recolor_up m (r_node r) k d p ep s e0 g eg u t H Eu)
      as (ua & ue & ul & ur & m1 & m2 & m3 & Eqt & -> & Em2 & Em3 & H3).
    cbn [mbind option_bind]. rewrite Em2. cbn [mbind option_bind]. rewrite Em3. cbn [mbind option_bind].
    set (t' := node e0 g false eg _ _) in H3.
    assert (rootp t' = g) as Eg by (unfold t'; by rewrite rootp_node).
    pose proof (IH m3 r k t' (S n) H3) as Hih. rewrite Eg in Hih.
    eapply (rebalanced_cong r r); [|done|].
    + apply Hih; [unfold t'; by rewrite redb_node|done| |cbn in Hf; lia].
      unfold t'. apply rbt_node. rewrite Eqt in Hu. apply rbt_node in Hu. rewrite !is_black_node. split; [done|].
      split; [done|]. split; [by apply rbt_node|]. apply rbt_node. split; apply Hu.
    + cbn [plug fill]. apply elems_plug_cong. unfold t'. rewrite Eqt. by destruct e0, d; in_order.
  - assert (is_black u) as Bu by (by apply redb_black).
    destruct (place_child _ _ _ _ _ _ _ _ _ Hp) as [Hc1 Hc2]. destruct (decide (d = opp e0)) as [->|Hd].
    + (* the inner grandchild *)
      rewrite Hc1. cbn [mbind option_bind]. rewrite <- Ea, Z.eqb_refl.
      destruct (tree_node e0 t (redb_ne _ Hred)) as (a' & e' & y' & z' & Et' & Ea').
      rewrite Hred in Et'. cbn [negb] in Et'. assert (a' = a) as -> by congruence.
      rewrite node_opp, Et' in Hp. destruct (rotate_spec e0 m r _ _ _ _ _ _ _ _ _ _ Hp) as (m1 & r1 & -> & H1).
      cbn [mbind option_bind]. apply place_up in H1. rewrite <- (node_opp e0 g) in H1.
      rewrite <- (node_opp e0 a) in H1. change r1 with (r_node (with_node r r1)) in H1.
      destruct (turn_up _ _ _ _ _ _ _ _ _ _ _ H1) as (m2 & r2 & E2 & H2). rewrite opp_opp in H2.
      cbn [mem rt]. destruct (color_set_black m1 a) as [mb|]; [|done]. cbn [mbind option_bind] in *.
      destruct (color_set_red mb g) as [mc|]; [|done]. cbn [mbind option_bind] in *. rewrite E2. cbn [mbind option_bind].
      rewrite Et' in Ht. apply rbt_node in Ht. destruct Ht as (By & Bz & Hy & Hz). rewrite with_node_twice.
      assert (p = rootp (node e0 p false ep s y')) as Ep by (by rewrite rootp_node). rewrite Ep.
      eapply rebalanced_cong; [apply (IH m2 (with_node r r2) _ _ n H2)|done|].
      * by rewrite redb_node.
      * cbn. split; [|done]. apply rbt_node. done.
      * apply rbt_node. done.
      * cbn in Hf |- *. lia.
      * cbn [plug fill]. apply elems_plug_cong. rewrite Et'. by destruct e0; in_order.
    + (* the outer grandchild *)
      assert (d = e0) as -> by (destruct d, e0; done). rewrite Hc2. cbn [mbind option_bind].
      rewrite (proj2 (Z.eqb_neq a (rootp s))).
      2:{ rewrite Ea. apply (place_children_ne _ _ _ _ _ _ _ _ _ Hp). by apply redb_ne. }
      cbn [mbind option_bind mem rt]. rewrite <- (node_opp e0 g), <- (node_opp e0 p) in Hg.
      destruct (turn_up _ _ _ _ _ _ _ _ _ _ _ Hg) as (m2 & r2 & E2 & H2). rewrite opp_opp in H2.
      destruct (color_set_black m p) as [mb|]; [|done]. cbn [mbind option_bind] in *.
      destruct (color_set_red mb g) as [mc|]; [|done]. cbn [mbind option_bind] in *. rewrite E2. cbn [mbind option_bind].
      rewrite Ea. eapply rebalanced_cong; [apply (IH m2 (with_node r r2) _ _ n H2)|done|]; [exact Hred| |exact Ht|cbn in Hf |- *; lia|].
      * cbn. split; [|done]. apply rbt_node. done.
      * cbn [plug fill]. apply elems_plug_cong. by destruct e0; in_order.
Qed.

(** ** Rebalancing after an erasure *)

Lemma rb_set_color_spec m par a c c' d e x y :
  m !! a = Some (noderec d par c x y e) -> aligned par ->
  rb_set_color m a (Z.b2z c') = Some (<[a := noderec d par c' x y e]> m).
Proof.
  intros Ha Hp. unfold rb_set_color. by rewrite (upd_eq _ _ _ _ Ha), parent_noderec, word_set_color, with_parent_noderec.
Qed.

Lemma place_rb_set_color m rn k d a c c' e x y :
  at_place m rn k (node d a c e x y) ->
  exists m', rb_set_color m a (Z.b2z c') = Some m' /\ at_place m' rn k (node d a c' e x y).
Proof.
  intros H. destruct (place_sub _ _ _ _ H) as (_ & _ & Hal). pose proof (ap_tree _ _ _ _ H) as Ht.
  apply tree_at_node in Ht as (Ha & _). rewrite (rb_set_color_spec _ _ _ _ c' _ _ _ _ Ha Hal).
  eexists. split; [done|]. by apply (place_recolor m rn k d a c c').
Qed.

Lemma place_blacken m rn k t :
  at_place m rn k t -> t <> E ->
  exists m', color_set_black m (rootp t) = Some m' /\ at_place m' rn k (blacken t).
Proof.
  intros H Ht. destruct t as [|a c l e r]; [done|].
  destruct (place_set_color m rn k LEFT a c true e l r H) as (m' & E' & H'). by exists m'.
Qed.

Lemma place_rb_color m rn k d a c e x y :
  at_place m rn k (node d a c e x y) -> rb_color m a = Some (Z.b2z c) /\ color_is_red m a = Some (negb c).
Proof.
  intros H. destruct (place_sub _ _ _ _ H) as (_ & _ & Hal). pose proof (ap_tree _ _ _ _ H) as Ht.
  apply tree_at_node in Ht as (Ha & _). unfold color_is_red. rewrite (color_eq _ _ _ _ _ _ _ _ Ha Hal). by destruct c.
Qed.

(** Recolouring around the short side and turning there. *)
Lemma erase_last_spec d m r k p cp ep x s cs es y z :
  at_place m (r_node r) k (node d p cp ep x (node d s cs es y z)) -> z <> E ->
  exists m' r', erase_last d (mk_map m r) p s = Some (mk_map m' (with_node r r')) /\
    at_place m' r' k (node d s cp es (node d p true ep x y) (blacken z)).
Proof.
  intros H Hz. unfold erase_last. cbn [mem rt]. destruct (place_rb_color _ _ _ _ _ _ _ _ _ H) as [-> _].
  cbn [mbind option_bind]. apply place_down, place_sibling in H.
  destruct (place_rb_set_color _ _ _ _ _ _ cp _ _ _ H) as (m1 & -> & H1). cbn [mbind option_bind].
  apply place_up in H1. rewrite node_opp in H1.
  destruct (place_set_color _ _ _ _ _ _ true _ _ _ H1) as (m2 & Em2 & H2). cbn [set_color] in Em2. rewrite Em2.
  cbn [mbind option_bind]. apply place_down, place_sibling in H2.
  destruct (place_child _ _ _ _ _ _ _ _ _ H2) as [_ ->]. cbn [mbind option_bind].
  apply place_down, place_sibling in H2. rewrite (proj2 (Z.eqb_neq (rootp z) 0)) by (by apply (place_root_ne _ _ _ _ H2)).
  cbn [negb]. destruct (place_blacken _ _ _ _ H2 Hz) as (m3 & -> & H3). cbn [mbind option_bind].
  apply place_up in H3. rewrite node_opp in H3. apply place_up in H3. rewrite node_opp in H3.
  by apply rotate_spec.
Qed.

Lemma rbt_red d a e x y n : is_black x -> is_black y -> rbt x n -> rbt y n -> rbt (node d a false e x y) n.
Proof. intros. by apply rbt_node. Qed.
Lemma rbt_black d a e x y n : rbt x n -> rbt y n -> rbt (node d a true e x y) (S n).
Proof. intros. by apply rbt_node. Qed.

(** The height a subtree whose root has colour [c] must get back. *)
Definition goal_height (c : bool) (n : nat) : nat := if c then S (S n) else S n.

Lemma rbt_either d a c e x y n :
  (c = false -> is_black x /\ is_black y) -> rbt x (S n) -> rbt y (S n) -> rbt (node d a c e x y) (goal_height c n).
Proof. intros Hb Hx Hy. destruct c; [by apply rbt_black|]. destruct (Hb eq_refl). by apply rbt_red. Qed.

Lemma rbt_blacken_red t n : rbt t n -> redb t = true -> rbt (blacken t) (S n).
Proof. destruct t as [|a [] l e r]; [done|done|]. by intros (_ & _ & ? & ?) _. Qed.

Lemma is_black_blacken t : is_black (blacken t).
Proof. by destruct t. Qed.

(** The outcome of a round at [node d p cp ep x sb] below [k]. *)
Definition round_post (r : rb_root_t) (k : context) (d : side) (p : Z) (cp : bool) (ep : entry) (x sb : tree) (n : nat)
  (o : option (map_t * (Z * Z + Z))) : Prop :=
  exists m' r' res, o = Some (mk_map m' (with_node r r'), res) /\
    ((exists s es y z, res = inl (top k, p) /\ sb = node d s true es y z /\ is_black y /\ is_black z /\
        at_place m' r' k (node d p cp ep x (node d s false es y z))) \/
     (exists X, res = inr r' /\ at_place m' r' k X /\ rbt X (goal_height cp n) /\ redb X = negb cp /\
        elems X = elems (node d p cp ep x sb))).

Lemma erase_black_spec d m r k p cp ep x s es y z n :
  at_place m (r_node r) k (node d p cp ep x (node d s true es y z)) ->
  rbt x n -> rbt y n -> rbt z n ->
  round_post r k d p cp ep x (node d s true es y z) n (erase_black d (mk_map m r) p s).
Proof.
  intros H Hx Hy Hz. unfold erase_black. cbn [mem rt]. assert (H0 := H). apply place_down, place_sibling in H.
  destruct (place_child _ _ _ _ _ _ _ _ _ H) as [-> ->]. cbn [mbind option_bind].
  pose proof (place_down _ _ _ _ _ _ _ _ _ H) as Hny. destruct (place_color _ _ _ _ Hny) as [_ ->].
  pose proof (place_sibling _ _ _ _ _ _ _ _ _ Hny) as Hnz. destruct (place_color _ _ _ _ Hnz) as [_ ->].
  cbn [mbind option_bind]. destruct (redb z) eqn:Ez.
  - rewrite andb_false_r. cbn [negb mbind option_bind].
    destruct (erase_last_spec d m r k p cp ep x s true es y z H0 (redb_ne _ Ez)) as (m' & r' & -> & H').
    cbn [mbind option_bind rt]. eexists m', r', _. split; [done|]. right. eexists. split; [done|]. split; [done|].
    split; [|split; [by rewrite redb_node|]].
    + apply rbt_either; [|by apply rbt_black|by apply rbt_blacken_red].
      intros _. rewrite is_black_node. split; [done|apply is_black_blacken].
    + destruct z as [|zz cz zl ze zr]; [done|]. by destruct d; in_order.
  - cbn [negb]. rewrite andb_true_r. destruct (redb y) eqn:Ey; cbn [negb].
    + destruct (tree_node d y (redb_ne _ Ey)) as (b & eb & y1 & y2 & Eqy & Eb). rewrite Ey in Eqy. cbn [negb] in Eqy.
      assert (is_black y1 /\ is_black y2 /\ rbt y1 n /\ rbt y2 n) as (By1 & By2 & Hy1 & Hy2).
      { rewrite Eqy in Hy. by apply rbt_node in Hy. }
      rewrite (proj2 (Z.eqb_neq (rootp y) 0)) by (apply (place_root_ne _ _ _ _ Hny), redb_ne, Ey). cbn [negb].
      rewrite <- Eb. rewrite Eqy in Hny. destruct (place_set_color _ _ _ _ _ _ true _ _ _ Hny) as (m1 & Em1 & H1).
      cbn [set_color] in Em1. rewrite Em1. cbn [mbind option_bind]. apply place_up in H1.
      destruct (place_set_color _ _ _ _ _ _ false _ _ _ H1) as (m2 & Em2 & H2).
      cbn [set_color] in Em2. rewrite Em2. cbn [mbind option_bind].
      rewrite <- (node_opp d s), <- (node_opp d b) in H2.
      destruct (rotate_spec _ _ _ _ _ _ _ _ _ _ _ _ _ H2) as (m3 & r3 & -> & H3). cbn [mbind option_bind mem].
      rewrite !node_opp in H3. apply place_up in H3. rewrite node_opp in H3.
      destruct (place_child _ _ _ _ _ _ _ _ _ H3) as [_ ->]. cbn [mbind option_bind]. rewrite rootp_node.
      change r3 with (r_node (with_node r r3)) in H3.
      destruct (erase_last_spec d m3 _ k p cp ep x b true eb y1 (node d s false es y2 z) H3) as (m4 & r4 & -> & H4); [by destruct d|].
      cbn [mbind option_bind rt]. rewrite with_node_twice. eexists m4, r4, _. split; [done|]. right. eexists.
      split; [done|]. split; [exact H4|]. split; [|split; [by rewrite redb_node|]].
      * apply rbt_either; [|by apply rbt_black|]. { intros _. rewrite is_black_node. split; [done|apply is_black_blacken]. }
        replace (blacken _) with (node d s true es y2 z) by (by destruct d). by apply rbt_black.
      * rewrite Eqy. by destruct d; in_order.
    + destruct (place_set_color _ _ _ _ _ _ false _ _ _ H) as (m1 & Em1 & H1). cbn [set_color] in Em1. rewrite Em1.
      cbn [mbind option_bind]. apply place_up in H1. rewrite node_opp in H1.
      rewrite (place_parent _ _ _ _ _ _ _ _ _ H1). cbn [mbind option_bind].
      exists m1, (r_node r), (inl (top k, p)). rewrite with_node_same. split; [done|]. left.
      exists s, es, y, z. split; [done|]. split; [done|]. split; [by apply redb_black|]. split; [by apply redb_black|done].
Qed.

(** A tree that lacks one black level below a context of height [h]: blackening
    it makes up for the level when it is red. *)
Definition deficient (t : tree) (h : nat) : Prop :=
  if redb t then rbt (blacken t) h else exists n, h = S n /\ rbt t n.

Definition loop_post (r : rb_root_t) (l : list (Z * entry)) (len : nat) (o : option (map_t * (Z * Z + Z))) : Prop :=
  exists m' r' res k' t' h', o = Some (mk_map m' (with_node r r'), res) /\ at_place m' r' k' t' /\ rbk k' h' /\
    elems (plug k' t') = l /\
    ((res = inl (top k', rootp t') /\ deficient t' h' /\ (redb t' = true \/ (length k' < len)%nat)) \/
     (res = inr r' /\ rbt t' h' /\ (is_black t' \/ above_black k') /\ t' <> E)).

Lemma rbk_goal d p cp ep sb k n :
  rbk (F d p cp ep sb :: k) (S n) ->
  rbt sb (S n) /\ rbk k (goal_height cp n) /\ (cp = false -> is_black sb /\ top_black k).
Proof. destruct cp; cbn; [intros [? ?]|intros (? & ? & ? & ?)]; done. Qed.

Lemma top_above k : top_black k -> above_black k.
Proof. by destruct k as [|[? ? [] ? ?] k]. Qed.

(** A round with a black sibling, in the terms of the loop. *)
Lemma round_loop r k d p cp ep x s es y z n o :
  round_post r k d p cp ep x (node d s true es y z) n o ->
  is_black x -> rbt x n -> rbt y n -> rbt z n -> rbk k (goal_height cp n) -> (cp = false -> above_black k) ->
  loop_post r (elems (plug (F d p cp ep (node d s true es y z) :: k) x)) (if cp then S (length k) else 0) o.
Proof.
  intros (m' & r' & res & -> & [(s' & es' & y' & z' & -> & Esb & By & Bz & H)|(X & -> & H & HX & Hred & HE)]) Bx Hx Hy Hz Hk Hab.
  - assert (s' = s /\ es' = es /\ y' = y /\ z' = z) as (-> & -> & -> & ->) by (destruct d; cbn in Esb; by injection Esb).
    eexists m', r', _, k, _, (goal_height cp n). split; [done|]. split; [exact H|]. split; [done|]. split.
    { cbn [plug fill]. apply elems_plug_cong. by destruct d. }
    left. rewrite rootp_node. split; [done|]. unfold deficient. rewrite redb_node. split; [|destruct cp; [right; lia|by left]].
    destruct cp; cbn [negb goal_height].
    + exists (S n). split; [done|]. apply rbt_black; [done|]. by apply rbt_red.
    + replace (blacken _) with (node d p true ep x (node d s false es y z)) by (by destruct d).
      apply rbt_black; [done|]. by apply rbt_red.
  - exists m', r', (inr r'), k, X, (goal_height cp n). split; [done|]. split; [done|]. split; [done|]. split.
    { cbn [plug fill]. by apply elems_plug_cong. }
    right. split; [done|]. split; [done|]. split; [|intros ->; by destruct cp].
    destruct cp; [left; by apply redb_black|right; by apply Hab].
Qed.

Lemma erase_round_spec m r k d p cp ep sb x n :
  at_place m (r_node r) (F d p cp ep sb :: k) x -> redb x = false -> rbt x n -> rbk (F d p cp ep sb :: k) (S n) ->
  loop_post r (elems (plug (F d p cp ep sb :: k) x)) (S (length k)) (erase_round (mk_map m r) p (rootp x)).
Proof.
  intros H Hred Hx Hrk. destruct (rbk_goal _ _ _ _ _ _ _ Hrk) as (Hsb & Hk & Hcp).
  assert (is_black x) as Bx by (by apply redb_black).
  assert (sb <> E) as Hne by (intros ->; done). unfold erase_round. cbn [mem rt].
  rewrite (place_side _ _ _ _ _ _ _ _ _ H) by (by right). cbn [mbind option_bind].
  pose proof (place_up _ _ _ _ _ _ _ _ _ H) as Hp. destruct (place_child _ _ _ _ _ _ _ _ _ Hp) as [_ ->].
  cbn [mbind option_bind]. destruct (tree_node d sb Hne) as (s & es & y & z & Esb & Es). rewrite <- Es.
  pose proof (place_sibling _ _ _ _ _ _ _ _ _ H) as Hs. rewrite Esb in Hs, Hp, Hsb |- *.
  destruct (place_rb_color _ _ _ _ _ _ _ _ _ Hs) as [_ ->]. cbn [mbind option_bind]. rewrite negb_involutive.
  destruct (redb sb) eqn:Ered; cbn [negb] in *.
  - destruct cp; [|destruct (Hcp eq_refl) as [Hb _]; apply redb_black in Hb; congruence].
    apply rbt_node in Hsb as (By & Bz & Hy & Hz).
    destruct (place_set_color _ _ _ _ _ _ true _ _ _ Hs) as (m1 & Em1 & H1). cbn [set_color] in Em1. rewrite Em1.
    cbn [mbind option_bind]. apply place_up in H1. rewrite node_opp in H1.
    destruct (place_set_color _ _ _ _ _ _ false _ _ _ H1) as (m2 & Em2 & H2). cbn [set_color] in Em2. rewrite Em2.
    cbn [mbind option_bind]. destruct (rotate_spec _ _ _ _ _ _ _ _ _ _ _ _ _ H2) as (m3 & r3 & -> & H3).
    cbn [mbind option_bind mem]. apply place_down in H3. destruct (place_child _ _ _ _ _ _ _ _ _ H3) as [_ ->].
    cbn [mbind option_bind]. assert (y <> E) as Hyne by (intros ->; done).
    destruct (tree_node d y Hyne) as (b & eb & y1 & y2 & Ey & Eb). rewrite <- Eb.
    assert (redb y = false) as Hry by (by apply redb_black). rewrite Hry in Ey. cbn [negb] in Ey. rewrite Ey in H3, Hy.
    change r3 with (r_node (with_node r r3)) in H3. apply rbt_node in Hy as [Hy1 Hy2].
    pose proof (erase_black_spec _ _ _ _ _ _ _ _ _ _ _ _ n H3 Hx Hy1 Hy2) as Hpost.
    pose proof (round_loop _ _ _ _ _ _ _ _ _ _ _ _ _ Hpost Bx Hx Hy1 Hy2) as Hloop.
    destruct Hloop as (m' & r' & res & k' & t' & h' & E1 & E2 & E3 & E4 & E5); [done|done|]. rewrite with_node_twice in E1.
    exists m', r', res, k', t', h'. split; [exact E1|]. split; [done|]. split; [done|]. split.
    { rewrite E4. cbn [plug fill]. apply elems_plug_cong. rewrite Ey. by destruct d; in_order. }
    destruct E5 as [(E5 & E6 & [E7|E7])|E5]; [left; by auto|lia|by right].
  - apply rbt_node in Hsb as [Hy Hz]. pose proof (erase_black_spec _ _ _ _ _ _ _ _ _ _ _ _ n Hp Hx Hy Hz) as Hpost.
    pose proof (round_loop _ _ _ _ _ _ _ _ _ _ _ _ _ Hpost Bx Hx Hy Hz Hk) as Hloop.
    destruct Hloop as (m' & r' & res & k' & t' & h' & E1 & E2 & E3 & E4 & E5); [intros Hc; by apply top_above, Hcp|].
    exists m', r', res, k', t', h'. split; [done|]. split; [done|]. split; [done|]. split; [done|].
    destruct E5 as [(E5 & E6 & E7)|E5]; [left|by right]. split; [done|]. split; [done|].
    destruct E7 as [E7|E7]; [by left|right]. destruct cp; lia.
Qed.

Lemma ctx_root m rn k hole : ctx_at m rn k hole -> k <> [] -> rn ∈ frame_addrs k.
Proof.
  revert hole. induction k as [|[d a c e s] k IH]; intros hole; [done|]. intros (_ & _ & Hk) _. cbn [frame_addrs].
  destruct k as [|f k]; [cbn in Hk; subst; by left|]. right. apply elem_of_app. right. by apply (IH a).
Qed.

Lemma root_ne m rn f k t : at_place m rn (f :: k) t -> rn <> rootp t.
Proof.
  intros H Hr. pose proof (ctx_root _ _ _ _ (ap_ctx _ _ _ _ H) ltac:(done)) as Hin.
  pose proof (ap_nodup _ _ _ _ H) as Hnd. unfold all_addrs in Hnd. apply NoDup_app in Hnd as (_ & Hd & _).
  pose proof (ap_ok _ _ _ _ H) as Hok. rewrite Forall_forall in Hok.
  destruct (Hok rn) as [Hpos _]; [apply elem_of_app; by right|].
  destruct t as [|a c l e r]; [cbn in Hr; lia|]. apply (Hd rn); [rewrite Hr; by apply rootp_in|done].
Qed.

(** Leaving the loop at a node that is black once the level is made up for. *)
Lemma erase_done_spec m r k t h :
  at_place m (r_node r) k t -> rbk k h -> rbt (blacken t) h -> t <> E ->
  rebalanced r (elems (plug k t)) (erase_done (mk_map m r) (rootp t)).
Proof.
  intros H Hk Ht Hne. unfold erase_done. cbn [mem rt].
  rewrite (proj2 (Z.eqb_neq _ 0)) by (by apply (place_root_ne _ _ _ _ H)). cbn [negb].
  destruct (place_blacken _ _ _ _ H Hne) as (m' & -> & H'). cbn [mbind option_bind].
  exists m', (r_node r), (plug k (blacken t)). rewrite with_node_same. split; [done|]. split; [exact (proj1 (place_whole _ _ _ _) H')|].
  split; [|by rewrite !elems_plug, elems_blacken].
  destruct (rbt_plug k (blacken t) h Hk Ht (or_introl (is_black_blacken t))) as (n & Hn & Hb). split; [|by exists n].
  destruct k as [|f k]; [apply is_black_blacken|by apply Hb].
Qed.

Lemma erase_rebalance_spec fuel : forall m r k t h,
  at_place m (r_node r) k t -> rbk k h -> deficient t h -> ((if redb t then 1 else length k + 2) <= fuel)%nat ->
  rebalanced r (elems (plug k t)) (rb_erase_rebalance fuel (mk_map m r) (top k) (rootp t)).
Proof.
  induction fuel as [|f IH]; intros m r k t h H Hk Ht Hf; [destruct (redb t); lia|]. cbn [rb_erase_rebalance mem rt].
  destruct (place_color _ _ _ _ H) as [_ ->]. cbn [mbind option_bind]. unfold deficient in Ht.
  destruct (redb t) eqn:Hred; cbn [negb andb].
  { apply (erase_done_spec m r k t h H Hk Ht). by apply redb_ne. }
  destruct Ht as (n & -> & Ht). destruct k as [|[d p cp ep sb] k].
  - pose proof (ap_ctx _ _ _ _ H) as Hr. cbn in Hr. rewrite Hr, Z.eqb_refl. cbn [negb].
    destruct t as [|a c l e t2] eqn:Et.
    + exists m, (r_node r), RbTree.E. rewrite with_node_same. split; [done|]. split; [done|]. split; [split; [done|by exists 0%nat]|done].
    + rewrite <- Et in *. assert (blacken t = t) as Hb by (rewrite Et in Hred |- *; by destruct c).
      apply (erase_done_spec m r [] t n); [done|done|by rewrite Hb|by rewrite Et].
  - rewrite (proj2 (Z.eqb_neq _ _)) by (by apply (root_ne _ _ _ _ _ H)). cbn [negb top].
    destruct (erase_round_spec m r k d p cp ep sb t n H Hred Ht Hk)
      as (m' & r' & res & k' & t' & h' & -> & H' & Hk' & Hel & [(-> & Hd & Hlen)|(-> & Ht' & Hb & Hne)]).
    + cbn [mbind option_bind]. rewrite <- Hel. apply (rebalanced_cong r (with_node r r') _ (elems (plug k' t'))); [|done|done].
      apply (IH m' (with_node r r') k' t' h'); [done|done|done|]. cbn [length] in Hf.
      destruct (redb t'); [lia|]. destruct Hlen as [|]; [done|lia].
    + cbn [mbind option_bind]. apply place_whole in H'. destruct (rbt_plug k' t' h' Hk' Ht' Hb) as (n' & Hn' & _).
      pose proof (ap_ctx _ _ _ _ H') as Hr. cbn in Hr. rewrite <- Hel, Hr.
      destruct (rbt_blacken _ _ Hn') as (n'' & Hn'' & _). rewrite Hr in H'.
      apply (rebalanced_cong r (with_node r (rootp (plug k' t'))) _ (elems (plug k' t'))); [|done|done].
      apply (erase_done_spec m' (with_node r (rootp (plug k' t'))) [] (plug k' t') n''); [exact H'|done|done|by apply plug_ne].
Qed.

(** ** Taking a node out *)

(** A context below another node [b]. *)
Definition top_from (b : Z) (k : context) : Z := match k with [] => b | F _ a _ _ _ :: _ => a end.

Fixpoint ctx_from (m : rmem) (b : Z) (k : context) (hole : Z) : Prop :=
  match k with
  | [] => True
  | F d a c e s :: k => m !! a = Some (noderec d (top_from b k) c hole (rootp s) e) /\ tree_at m a s /\ ctx_from m b k a
  end.

Lemma plug_from m b k : forall t, tree_at m b (plug k t) <-> tree_at m (top_from b k) t /\ ctx_from m b k (rootp t).
Proof.
  induction k as [|[d a c e s] k IH]; intros t; [cbn; tauto|]. cbn [plug fill ctx_from top_from].
  rewrite IH, tree_at_node, rootp_node. tauto.
Qed.

Lemma ctx_from_changes l m m' b k hole :
  changes l m m' -> (forall a, a ∈ frame_addrs k -> a ∉ l) -> ctx_from m b k hole -> ctx_from m' b k hole.
Proof.
  intros Hc. revert hole. induction k as [|[d a c e s] k IH]; intros hole Hd; [done|]. cbn in *. intros (H1 & H2 & H3).
  rewrite (proj1 Hc) by (apply Hd; by left). split; [done|]. split.
  - apply (tree_at_changes l m); [done| |done]. intros v Hv. apply Hd. right. apply elem_of_app. by left.
  - apply IH; [|done]. intros v Hv. apply Hd. right. apply elem_of_app. by right.
Qed.

(** The path down one side. *)
Fixpoint all_side (d : side) (k : context) : Prop :=
  match k with [] => True | F d' _ _ _ _ :: k => d' = d /\ all_side d k end.

(** The last node towards [d] of a tree that is not empty. *)
Lemma far_spec m d t : forall par fuel,
  tree_at m par t -> t <> E -> Forall addr_ok (addrs t) -> (height t < fuel)%nat ->
  exists s c e y k, far fuel m d (rootp t) = Some s /\ t = plug k (node d s c e E y) /\ all_side d k.
Proof.
  assert (forall c, (forall par fuel, tree_at m par c -> c <> E -> Forall addr_ok (addrs c) -> (height c < fuel)%nat ->
    exists s c0 e y k, far fuel m d (rootp c) = Some s /\ c = plug k (node d s c0 e E y) /\ all_side d k) ->
    forall a b e0 o par fuel, m !! a = Some (noderec d par b (rootp c) (rootp o) e0) -> tree_at m a c ->
      Forall addr_ok (addrs c) -> (S (height c) < fuel)%nat ->
      exists s c0 e y k, far fuel m d a = Some s /\ node d a b e0 c o = plug k (node d s c0 e E y) /\ all_side d k) as Hstep.
  { intros c IH a b e0 o par fuel Ha Hc Hok Hf. destruct fuel as [|f]; [lia|]. cbn [far].
    rewrite (get_child_eq _ _ _ _ Ha), child_same. cbn [mbind option_bind]. destruct c as [|ca cc cl ce cr] eqn:Ec.
    - by exists a, b, e0, o, [].
    - rewrite <- Ec in *. assert (c <> E) as Hne by (by rewrite Ec).
      rewrite (proj2 (Z.eqb_neq (rootp c) 0)) by (intros Hz; by apply rootp_nil in Hz). cbn [negb].
      destruct (IH a f Hc Hne Hok ltac:(lia)) as (s & c0 & e & y & k & -> & Eq & Hk).
      exists s, c0, e, y, (k ++ [F d a b e0 o]). split; [done|]. split; [by rewrite plug_app, <- Eq|].
      clear -Hk. induction k as [|[] k IHk]; cbn in *; [done|]. destruct Hk. by split; [|apply IHk]. }
  induction t as [|a c l IHl e r IHr]; intros par fuel Ht Hne Hok Hf; [done|]. clear Hne.
  destruct Ht as (Ha & Hl & Hr). cbn [rootp height] in *. unfold addrs in Hok. cbn in Hok. rewrite fmap_app in Hok.
  apply Forall_app in Hok as [Hokl Hokr]. apply Forall_cons in Hokr as [_ Hokr]. destruct d.
  - by apply (Hstep l IHl a c e r par fuel Ha Hl Hokl); lia.
  - by apply (Hstep r IHr a c e l par fuel Ha Hr Hokr); lia.
Qed.

End MapRep.
