(* ===== verification/LiskMapOps.v ===== *)
(** * The operations of the map on the tree in memory

    Taking a node out and putting one in, searching, the ends, walking and
    freeing: what each does to the tree of LiskMapRep. *)

From Stdlib Require Import Sorted.
From stdpp Require Import sorting.
From S2P Require Import Prelude LiskMap RbTree LiskMapRep.

Module MapOps.
Import Map RbTree MapRep.

(** ** Taking a node out *)

Lemma rb_set_parent_spec m p q t :
  tree_at m p t -> t <> E -> aligned p -> aligned q -> Forall addr_ok (addrs t) -> NoDup (addrs t) ->
  exists m', rb_set_parent m (rootp t) q = Some m' /\ tree_at m' q t /\ changes (addrs t) m m'.
Proof.
  intros Ht Hne Hp Hq Hok Hnd. destruct (reparent m p q t Ht Hp Hq Hok Hnd) as (m' & Hm & H).
  rewrite (proj2 (Z.eqb_neq _ 0)) in Hm by (intros Hz; by apply rootp_nil in Hz). by exists m'.
Qed.

Lemma set_child_spec m d' d par c x y e a p :
  m !! a = Some (noderec d par c x y e) ->
  set_child m d' a p = Some (<[a := if decide (d' = d) then noderec d par c p y e else noderec d par c x p e]> m).
Proof. intros Ha. unfold set_child. rewrite (upd_eq _ _ _ _ Ha). by destruct d', d. Qed.

Lemma top_from_same b b' k : k <> [] -> top_from b k = top_from b' k.
Proof. by destruct k as [|[]]. Qed.

Lemma addrs_T a c l e r : addrs (T a c l e r) ≡ₚ a :: addrs l ++ addrs r.
Proof. apply (addrs_node LEFT). Qed.

(** The context the moved node leaves closes over its right child. *)
Lemma close_ctx m b k hole y :
  ctx_from m b k hole -> all_side LEFT k -> k <> [] -> NoDup (frame_addrs k) -> (forall v, v ∈ frame_addrs k -> v ∉ addrs y) ->
  tree_at m (top_from b k) y ->
  exists m', set_child m LEFT (top_from b k) (rootp y) = Some m' /\ tree_at m' b (plug k y) /\ changes (frame_addrs k) m m'.
Proof.
  intros Hk Hs Hne Hnd Hd Hy. destruct k as [|[d q cq eq sq] k]; [done|]. destruct Hs as [-> _].
  destruct Hk as (Hq & Hsq & Hk). cbn [top_from frame_addrs] in *.
  rewrite (set_child_spec _ LEFT _ _ _ _ _ _ _ _ Hq). rewrite decide_True by done.
  pose proof (changes_insert m q (noderec LEFT (top_from b k) cq (rootp y) (rootp sq) eq) _ Hq) as Hc.
  apply NoDup_cons in Hnd as [Hnq Hnd]. rewrite not_elem_of_app in Hnq.
  eexists. split; [done|]. split.
  - apply (plug_from _ b (F LEFT q cq eq sq :: k)). cbn [ctx_from top_from]. rewrite lookup_insert_eq.
    split; [|split; [done|split]].
    + apply (tree_at_changes [q] m); [done| |done]. intros v Hv ->%list_elem_of_singleton. apply (Hd q); [by left|done].
    + apply (tree_at_changes [q] m); [done| |done]. intros v Hv ->%list_elem_of_singleton. tauto.
    + apply (ctx_from_changes [q] m); [done| |done]. intros v Hv ->%list_elem_of_singleton. tauto.
  - apply (changes_weaken [q]); [done|]. intros v ->%list_elem_of_singleton. by left.
Qed.

Lemma rootp_plug_ne k t t' : k <> [] -> rootp (plug k t) = rootp (plug k t').
Proof.
  revert t t'. induction k as [|[d a c e s] k IH]; intros t t'; [done|]. intros _. cbn [plug fill].
  destruct k as [|f k]; [cbn; by rewrite !rootp_node|by apply IH].
Qed.

(** The moved node [s] after [splice]: it holds all that was right of the node. *)
Definition spliced (m : rmem) (s : Z) (cs : bool) (es : entry) (y : tree) : Prop :=
  exists q, aligned q /\ m !! s = Some (noderec LEFT q cs 0 (rootp y) es) /\ tree_at m s y.

Lemma splice_spec m P a c e l s cs es y k :
  let r := plug k (T s cs RbTree.E es y) in
  m !! a = Some (noderec LEFT P c (rootp l) (rootp r) e) -> tree_at m a r -> all_side LEFT k ->
  NoDup (a :: addrs r) -> Forall addr_ok (a :: addrs r) ->
  exists m', splice m a s (rootp y) (top_from a k) = Some (m', top_from s k) /\
    spliced m' s cs es (plug k y) /\ changes (addrs r) m m'.
Proof.
  intros r Ha Hr Hs Hnd Hok. unfold r in *. apply plug_from in Hr as [(Hsr & _ & Hy) Hk]. cbn [rootp] in Hsr.
  rewrite addrs_plug, addrs_T in Hnd, Hok. change (addrs RbTree.E) with (@nil Z) in Hnd, Hok. cbn [app] in Hnd, Hok.
  apply Forall_cons in Hok as [Oa Hok]. apply Forall_cons in Hok as [Os Hok]. apply Forall_app in Hok as [Oy Ok].
  apply NoDup_cons in Hnd as [Na Hnd]. rewrite not_elem_of_cons, not_elem_of_app in Na.
  apply NoDup_cons in Hnd as [Ns Hnd]. rewrite not_elem_of_app in Ns.
  apply NoDup_app in Hnd as (Dy & Dyk & Dk). unfold splice.
  destruct (decide (k = [])) as [->|Hne].
  { cbn [top_from]. rewrite Z.eqb_refl. exists m. split; [done|]. split; [|by apply (changes_refl)].
    exists a. split; [by apply addr_aligned|]. done. }
  assert (aligned (top_from a k)) as Haq.
  { destruct k as [|[d q cq eq sq] k']; [done|]. apply Forall_cons in Ok as [Oq _]. by apply addr_aligned. }
  rewrite (proj2 (Z.eqb_neq (top_from a k) a)).
  2:{ intros Hq. destruct k as [|[d q cq eq sq] k']; [done|]. cbn in Hq. subst q. apply (proj2 (proj2 Na)). by left. }
  destruct (reparent m s (top_from a k) y Hy (addr_aligned _ Os) Haq Oy Dy) as (m1 & -> & Hy1 & C1). cbn [mbind option_bind].
  assert (ctx_from m1 a k s) as Hk1 by (apply (ctx_from_changes _ _ _ _ _ _ C1); [set_solver|done]).
  destruct (close_ctx m1 a k s y Hk1 Hs Hne Dk) as (m2 & -> & Hr2 & C2); [set_solver|done|]. cbn [mbind option_bind].
  assert (changes (addrs y ++ frame_addrs k) m m2) as C12 by (by apply (changes_trans _ _ _ m1)).
  assert (forall v, v ∉ addrs y ++ frame_addrs k -> m2 !! v = m !! v) as Same by apply C12.
  assert (m2 !! a = m !! a) as Ha2 by (apply Same; set_solver). rewrite Ha in Ha2.
  assert (m2 !! s = m !! s) as Hs2 by (apply Same; set_solver). rewrite Hsr in Hs2.
  rewrite (rootp_plug_ne k _ y Hne) in Ha2.
  rewrite (get_child_eq _ _ _ _ Ha2). cbn [mbind option_bind child noderec right].
  rewrite (set_child_spec _ RIGHT _ _ _ _ _ _ _ _ Hs2), decide_False by done. cbn [mbind option_bind].
  pose proof (changes_insert m2 s (noderec LEFT (top_from a k) cs 0 (rootp (plug k y)) es) _ Hs2) as C3.
  set (m3 := <[s := _]> m2) in *. assert (m3 !! a = m2 !! a) as Ha3 by (unfold m3; rewrite lookup_insert_ne by (intros ->; tauto); done).
  rewrite Ha2 in Ha3. rewrite (get_child_eq _ _ _ _ Ha3). cbn [mbind option_bind child noderec right].
  assert (tree_at m3 a (plug k y)) as Hr3.
  { apply (tree_at_changes _ _ _ _ _ C3); [|done]. intros v Hv ->%list_elem_of_singleton. rewrite addrs_plug in Hv. set_solver. }
  destruct (rb_set_parent_spec m3 a s (plug k y) Hr3) as (m4 & -> & Hr4 & C4).
  { intros Hp. destruct k as [|f k]; [done|]. apply (plug_ne k (fill f y)) in Hp; [done|]. by destruct f as [[]]. }
  { by apply addr_aligned. } { by apply addr_aligned. }
  { rewrite addrs_plug. by apply Forall_app. } { rewrite addrs_plug. by apply NoDup_app. }
  cbn [mbind option_bind]. exists m4. split; [by rewrite (top_from_same a s k Hne)|].
  pose proof (changes_trans _ _ _ _ _ (changes_trans _ _ _ _ _ C12 C3) C4) as C. split.
  - exists (top_from a k). split; [done|]. split; [|done]. rewrite (proj1 C4); [unfold m3; by rewrite lookup_insert_eq|].
    rewrite addrs_plug. set_solver.
  - apply (changes_weaken _ _ _ _ C). intros v. rewrite !addrs_plug, addrs_T. set_solver.
Qed.


Lemma crown_spec m P a c e l X s cs es z :
  m !! a = Some (noderec LEFT P c (rootp l) X e) -> spliced m s cs es z -> tree_at m a l -> l <> RbTree.E ->
  NoDup (a :: s :: addrs l ++ addrs z) -> Forall addr_ok (a :: s :: addrs l) ->
  exists m', crown m a s = Some m' /\ tree_at m' P (T s c l es z) /\ changes (s :: addrs l) m m'.
Proof.
  intros Ha (q & Hq & Hs & Hz) Hl Hne Hnd Hok. apply Forall_cons in Hok as [Oa Hok]. apply Forall_cons in Hok as [Os Ol].
  apply NoDup_cons in Hnd as [Na Hnd]. apply NoDup_cons in Hnd as [Ns Hnd]. apply NoDup_app in Hnd as (Dl & Dlz & Dz).
  rewrite not_elem_of_cons, not_elem_of_app in Na. rewrite not_elem_of_app in Ns.
  unfold crown. rewrite Ha. cbn [mbind option_bind]. rewrite parent_noderec, (upd_eq _ _ _ _ Hs), with_parent_noderec.
  cbn [mbind option_bind]. pose proof (changes_insert m s (noderec LEFT P c (rootp l) (rootp z) es) _ Hs) as C1.
  rewrite (set_child_spec _ LEFT LEFT _ _ _ _ _ _ _ (lookup_insert_eq _ _ _)), decide_True, insert_insert_eq by done.
  cbn [mbind option_bind left noderec]. set (m1 := <[s := _]> m) in *.
  assert (tree_at m1 a l) as Hl1.
  { apply (tree_at_changes _ _ _ _ _ C1); [|done]. intros v Hv ->%list_elem_of_singleton. tauto. }
  destruct (rb_set_parent_spec m1 a s l Hl1 Hne) as (m2 & -> & Hl2 & C2); [by apply addr_aligned|by apply addr_aligned|done|done|].
  exists m2. split; [done|]. split; [|by apply (changes_trans _ _ _ _ _ C1 C2)]. cbn [tree_at]. split; [|split; [done|]].
  - rewrite (proj1 C2) by tauto. unfold m1. by rewrite lookup_insert_eq.
  - apply (tree_at_changes _ _ _ _ _ (changes_trans _ _ _ _ _ C1 C2)); [|done]. intros v Hv. specialize (Dlz v). set_solver.
Qed.

(** A node that no link leads to goes away. *)
Lemma place_delete m rn k t a :
  tree_at m (top k) t -> ctx_at m rn k (rootp t) -> NoDup (a :: all_addrs k t) -> Forall addr_ok (all_addrs k t) ->
  (forall b, is_Some (m !! b) <-> b ∈ a :: all_addrs k t) ->
  is_Some (m !! a) /\ at_place (delete a m) rn k t.
Proof.
  intros Ht Hk Hnd Hok Hdom. split; [apply Hdom; by left|]. apply NoDup_cons in Hnd as [Hna Hnd]. constructor; [| |done|done|].
  - apply (tree_at_ext m); [|done]. intros v Hv. apply lookup_delete_ne. intros <-. apply Hna, elem_of_app. by left.
  - apply (ctx_at_ext m); [|done]. intros v Hv. apply lookup_delete_ne. intros <-. apply Hna, elem_of_app. by right.
  - intros b. destruct (decide (a = b)) as [<-|Hne]; [rewrite lookup_delete_eq; split; [by intros []|done]|].
    rewrite lookup_delete_ne by done. rewrite Hdom. rewrite elem_of_cons. split; [intros [|]; by subst|by right].
Qed.

Definition unlinked (r : rb_root_t) (a : Z) (k : context) (t : tree) (flag : bool)
  (o : option (map_t * Z * Z * bool)) : Prop :=
  exists m' r', o = Some (mk_map m' (with_node r r'), top k, rootp t, flag) /\
    is_Some (m' !! a) /\ at_place (delete a m') r' k t.

Lemma unlink_one_spec m r k a c e d x :
  at_place m (r_node r) k (node d a c e x RbTree.E) -> unlinked r a k x c (unlink_one (mk_map m r) a).
Proof.
  intros [H1 H2 H3 H4 H5]. pose proof H4 as Hal. apply top_aligned in Hal. rewrite rootp_node in H2.
  apply tree_at_node in H1 as (Ha & Hx & _). unfold all_addrs in H3, H4, H5.
  assert (forall v, v ∈ addrs (node d a c e x RbTree.E) ++ frame_addrs k <-> v ∈ a :: all_addrs k x) as Heq.
  { intros v. rewrite addrs_node, app_nil_r. done. }
  rewrite addrs_node, app_nil_r in H3, H4. change (NoDup (a :: all_addrs k x)) in H3.
  apply Forall_cons in H4 as [Oa H4]. pose proof (NoDup_cons_1_2 _ _ H3) as H3'. unfold all_addrs in H3'.
  apply NoDup_cons in H3 as [Na _]. unfold all_addrs in Na. rewrite not_elem_of_app in Na.
  apply NoDup_app in H3' as (Dx & Dxk & Dk). apply Forall_app in H4 as [Ox Ok].
  unfold unlink_one. cbn [mem rt]. rewrite Ha. cbn [mbind option_bind].
  set (n := noderec _ _ _ _ _ _). assert ((if negb (left n =? 0) then left n else if negb (right n =? 0) then right n else 0) = rootp x) as ->.
  { subst n. destruct d; cbn; [|by destruct (rootp x =? 0) eqn:E0; [apply Z.eqb_eq in E0|]].
    by destruct (rootp x =? 0) eqn:E0; [apply Z.eqb_eq in E0|]. }
  unfold color_is_black. rewrite (color_eq _ _ _ _ _ _ _ _ Ha Hal), (parent_eq _ _ _ _ _ _ _ _ Ha Hal). cbn [fmap option_fmap option_map mbind option_bind].
  destruct (reparent m a (top k) x Hx (addr_aligned _ Oa) Hal Ox Dx) as (m1 & -> & Hx1 & C1). cbn [mbind option_bind].
  assert (ctx_at m1 (r_node r) k a) as Hk1 by (apply (ctx_at_changes _ _ _ _ _ _ C1); [set_solver|done]).
  destruct (replace_child_spec m1 r k a (rootp x) Hk1) as (m2 & r' & -> & Hk2 & C2); [destruct Oa; lia|done|done|tauto|].
  cbn [mbind option_bind]. exists m2, r'. split; [by destruct c|]. apply place_delete; [|done| | |].
  - apply (tree_at_changes _ _ _ _ _ C2); [done|done].
  - apply NoDup_cons. unfold all_addrs. rewrite not_elem_of_app. split; [done|]. by apply NoDup_app.
  - by apply Forall_app.
  - intros b. rewrite (proj2 C2), (proj2 C1), H5. apply Heq.
Qed.

(** The context of the moved node, before and after the move. *)
Lemma plug_two k' k a c e l t : plug (k' ++ F RIGHT a c e l :: k) t = plug k (T a c l e (plug k' t)).
Proof. by rewrite plug_app. Qed.

Lemma top_app k k' : top (k ++ k') = top_from (top k') k.
Proof. by destruct k as [|[]]. Qed.

(** The addresses of a node with two children, the next node set apart. *)
Lemma two_addrs k kk a c l e s cs es y :
  all_addrs k (T a c l e (plug kk (T s cs RbTree.E es y))) ≡ₚ a :: all_addrs k (T s c l es (plug kk y)).
Proof.
  unfold all_addrs. rewrite !addrs_T, !addrs_plug, addrs_T. change (addrs RbTree.E) with (@nil Z). solve_Permutation.
Qed.

Lemma unlink_two_spec fuel m r k a c l e kk s cs es y :
  let t := plug kk (T s cs RbTree.E es y) in
  at_place m (r_node r) k (T a c l e t) -> all_side LEFT kk -> l <> RbTree.E ->
  far fuel m LEFT (rootp t) = Some s ->
  unlinked r a (kk ++ F RIGHT s c es l :: k) y cs (unlink_two fuel (mk_map m r) a).
Proof.
  intros t [H1 H2 H3 H4 H5] Hs Hl Hfar. pose proof H4 as Hal. apply top_aligned in Hal.
  destruct H1 as (Ha & Hlt & Ht). cbn [rootp] in H2.
  pose proof H3 as Hnd. pose proof H4 as Hok. unfold all_addrs in Hnd, Hok. rewrite addrs_T in Hnd, Hok.
  cbn [app] in Hnd, Hok. rewrite <- app_assoc in Hnd, Hok.
  apply NoDup_cons in Hnd as [Na Hnd]. apply Forall_cons in Hok as [Oa Hok]. rewrite !Forall_app in Hok. destruct Hok as (Ol & Ot & Ok).
  rewrite !not_elem_of_app in Na. destruct Na as (Nal & Nat & Nak).
  rewrite !NoDup_app in Hnd. destruct Hnd as (Dl & Dlr & Dt & Dtk & Dk).
  pose proof Ht as Hts. unfold t in Hts. apply plug_from in Hts as [(Hsr & _ & Hy) _].
  unfold unlink_two. cbn [mem rt]. rewrite (get_child_eq _ _ _ _ Ha). cbn [mbind option_bind child noderec right].
  rewrite Hfar. cbn [mbind option_bind]. rewrite (parent_eq _ _ _ _ _ _ _ _ Ha Hal). cbn [mbind option_bind].
  destruct (replace_child_spec m r k a s H2) as (m1 & r' & -> & Hk1 & C1); [destruct Oa; lia|done|done|done|].
  cbn [mbind option_bind mem rt].
  assert (s ∈ addrs t) as Hst by (unfold t; rewrite addrs_plug, addrs_T; set_solver).
  assert (m1 !! s = m !! s) as Hs1 by (apply C1; set_solver). rewrite Hsr in Hs1.
  assert (m1 !! a = m !! a) as Ha1 by (by apply C1). rewrite Ha in Ha1.
  assert (tree_at m1 a l) as Hl1 by (apply (tree_at_changes _ _ _ _ _ C1); [set_solver|done]).
  assert (tree_at m1 a t) as Ht1 by (by apply (tree_at_changes _ _ _ _ _ C1)).
  assert (aligned (top_from a kk)) as Hq.
  { destruct kk as [|[d q cq eq sq] kk']; [by apply addr_aligned|]. cbn. apply addr_aligned. rewrite Forall_forall in Ot.
    apply Ot. unfold t. rewrite addrs_plug. cbn [frame_addrs]. set_solver. }
  rewrite (get_child_eq _ _ _ _ Hs1). cbn [mbind option_bind child noderec right].
  unfold color_is_black. rewrite (color_eq _ _ _ _ _ _ _ _ Hs1 Hq), (parent_eq _ _ _ _ _ _ _ _ Hs1 Hq).
  cbn [fmap option_fmap option_map mbind option_bind].
  destruct (splice_spec m1 _ a c e l s cs es y kk Ha1 Ht1 Hs) as (m2 & -> & Hs2 & C2); [by apply NoDup_cons|by apply Forall_cons|].
  cbn [mbind option_bind].
  assert (m2 !! a = m1 !! a) as Ha2 by (by apply C2). rewrite Ha1 in Ha2.
  assert (tree_at m2 a l) as Hl2 .
  { apply (tree_at_changes _ _ _ _ _ C2); [|done]. intros v Hv Hv'. apply (Dlr v Hv), elem_of_app. by left. }
  pose proof (two_addrs k kk a c l e s cs es y) as Hperm.
  assert (NoDup (a :: all_addrs k (T s c l es (plug kk y)))) as Hnd' by (by rewrite <- Hperm).
  assert (Forall addr_ok (a :: all_addrs k (T s c l es (plug kk y)))) as Hok' by (by rewrite <- Hperm).
  assert (a :: all_addrs k (T s c l es (plug kk y)) ≡ₚ (a :: s :: addrs l ++ addrs (plug kk y)) ++ frame_addrs k) as Hp2.
  { unfold all_addrs. rewrite addrs_T. done. }
  destruct (crown_spec m2 _ a c e l _ s cs es (plug kk y) Ha2 Hs2 Hl2 Hl) as (m3 & -> & Ht3 & C3).
  { rewrite Hp2 in Hnd'. by apply NoDup_app in Hnd' as (? & _). }
  { rewrite Hp2 in Hok'. apply Forall_app in Hok' as [Hok' _]. rewrite !Forall_cons, Forall_app in Hok'. rewrite !Forall_cons. tauto. }
  cbn [mbind option_bind]. exists m3, r'. rewrite top_app. split; [by destruct cs|].
  destruct (place_delete m3 r' k (T s c l es (plug kk y)) a) as [Hdel Hplace].
  - done.
  - cbn [rootp]. apply (ctx_at_changes _ _ _ _ _ _ C3); [|apply (ctx_at_changes _ _ _ _ _ _ C2); [|done]].
    + rewrite Hp2 in Hnd'. apply NoDup_app in Hnd' as (_ & Hd & _). intros v Hv Hv'. apply (Hd v); [|done]. set_solver.
    + intros v Hv Hv'. by apply (Dtk v Hv' Hv).
  - done.
  - by apply Forall_cons in Hok' as [_ ?].
  - intros b. rewrite (proj2 C3), (proj2 C2), (proj2 C1), H5. unfold t. by rewrite Hperm.
  - split; [done|]. revert Hplace. apply at_place_move. by rewrite plug_app.
Qed.

(** ** The ends *)

(** The address of the first entry, or of the last. *)
Definition end_of (d : side) (l : list (Z * entry)) : Z :=
  match (match d with LEFT => head l | RIGHT => last l end) with Some x => fst x | None => 0 end.

Lemma end_of_cons a e l : end_of LEFT ((a, e) :: l) = a.
Proof. done. Qed.

Lemma end_of_snoc l a e : end_of RIGHT (l ++ [(a, e)]) = a.
Proof. unfold end_of. by rewrite last_snoc. Qed.

Lemma before_side k : all_side LEFT k -> before k = [].
Proof. induction k as [|[d a c e s] k IH]; [done|]. intros [-> Hk]. by apply IH. Qed.

Lemma after_side k : all_side RIGHT k -> after k = [].
Proof. induction k as [|[d a c e s] k IH]; [done|]. intros [-> Hk]. by apply IH. Qed.

Lemma end_of_side d k s c e y : all_side d k -> end_of d (elems (plug k (node d s c e RbTree.E y))) = s.
Proof.
  intros Hk. rewrite elems_plug. destruct d; cbn [node elems].
  - by rewrite before_side.
  - rewrite after_side by done. rewrite app_nil_r, app_assoc. apply end_of_snoc.
Qed.

Lemma far_end m par d t fuel :
  tree_at m par t -> t <> RbTree.E -> Forall addr_ok (addrs t) -> (height t < fuel)%nat ->
  far fuel m d (rootp t) = Some (end_of d (elems t)).
Proof.
  intros Ht Hne Hok Hf. destruct (far_spec m d t par fuel Ht Hne Hok Hf) as (s & c & e & y & k & -> & -> & Hk).
  by rewrite end_of_side.
Qed.

(** Fuel for every loop down or up a tree of [n] entries. *)
Definition enough (fuel : nat) (n : nat) : Prop := (2 * Nat.log2 (S n) + 3 <= fuel)%nat.

Lemma enough_le fuel n n' : enough fuel n -> (n' <= n)%nat -> enough fuel n'.
Proof. unfold enough. intros H Hn. assert (Nat.log2 (S n') <= Nat.log2 (S n))%nat by (apply Nat.log2_le_mono; lia). lia. Qed.

Lemma enough_height fuel t : enough fuel (length (elems t)) -> rb_ok t -> (height t + 3 <= fuel)%nat.
Proof. unfold enough. intros H [Hb [n Hn]]. pose proof (rbt_height_log t n Hn Hb). lia. Qed.

(** The map [t] holds the entries [l], in order. *)
Definition holds (t : map_t) (l : list (Z * entry)) : Prop :=
  (exists tr, at_place (mem t) (r_node (rt t)) [] tr /\ rb_ok tr /\ elems tr = l) /\
  r_min (rt t) = end_of LEFT l /\ r_max (rt t) = end_of RIGHT l /\ r_size (rt t) = Z.of_nat (length l).

Lemma root_far m r tr d fuel :
  at_place m (r_node r) [] tr -> tr <> RbTree.E -> (height tr < fuel)%nat ->
  far fuel m d (r_node r) = Some (end_of d (elems tr)).
Proof.
  intros H Hne Hf. pose proof (ap_ctx _ _ _ _ H) as Hr. cbn in Hr. rewrite Hr.
  destruct (place_sub _ _ _ _ H) as (Hok & _). apply (far_end m 0); [apply (ap_tree _ _ _ _ H)|done..].
Qed.

Lemma root_nil m rn tr : at_place m rn [] tr -> rn = 0 <-> tr = RbTree.E.
Proof.
  intros H. pose proof (ap_ctx _ _ _ _ H) as Hr. cbn in Hr. rewrite Hr.
  destruct (place_sub _ _ _ _ H) as (Hok & _). by apply rootp_nil.
Qed.

Lemma update_min_spec m r tr fuel :
  at_place m (r_node r) [] tr -> (height tr < fuel)%nat ->
  rb_update_min fuel (mk_map m r) = Some (mk_map m (with_min r (end_of LEFT (elems tr)))).
Proof.
  intros H Hf. unfold rb_update_min. cbn [mem rt]. destruct (Z.eqb_spec (r_node r) 0) as [Hz|Hz].
  - by apply (root_nil _ _ _ H) in Hz as ->.
  - rewrite (root_far m r tr); [done|done| |done]. intros ->. by apply Hz, (root_nil _ _ _ H).
Qed.

Lemma update_max_spec m r tr fuel :
  at_place m (r_node r) [] tr -> (height tr < fuel)%nat ->
  rb_update_max fuel (mk_map m r) = Some (mk_map m (with_max r (end_of RIGHT (elems tr)))).
Proof.
  intros H Hf. unfold rb_update_max. cbn [mem rt]. destruct (Z.eqb_spec (r_node r) 0) as [Hz|Hz].
  - by apply (root_nil _ _ _ H) in Hz as ->.
  - rewrite (root_far m r tr); [done|done| |done]. intros ->. by apply Hz, (root_nil _ _ _ H).
Qed.

(** ** Erasing *)

(** What is left of a node with one child, by the colour of the node. *)
Definition gap (flag : bool) (t : tree) (h : nat) : Prop := if flag then deficient t h else rbt t h /\ is_black t.

Lemma gap_one d a c e x h : rbt (node d a c e x RbTree.E) h -> gap c x h.
Proof.
  intros H. apply rbt_node in H. destruct c; cbn [gap]; [|tauto]. destruct h as [|h]; [done|]. destruct H as [Hx _].
  unfold deficient. destruct (redb x) eqn:Ex; [by apply rbt_blacken_red|by exists h].
Qed.

Definition unlink (fuel : nat) (t : map_t) (node : Z) (n : rb_node_t) : option (map_t * Z * Z * bool) :=
  if negb (left n =? 0) && negb (right n =? 0) then unlink_two fuel t node else unlink_one t node.

Lemma unlink_node_spec fuel m r tr B a e A :
  at_place m (r_node r) [] tr -> rb_ok tr -> elems tr = B ++ (a, e) :: A -> (height tr < fuel)%nat ->
  exists n k t flag h, m !! a = Some n /\ unlinked r a k t flag (unlink fuel (mk_map m r) a n) /\
    rbk k h /\ gap flag t h /\ elems (plug k t) = B ++ A /\ (length k < height tr)%nat.
Proof.
  intros H [Hb [h0 Hrb]] Hel Hf. destruct (elems_split _ _ _ _ _ Hel) as (k & c & l & t & -> & -> & ->).
  apply place_whole in H. pose proof (ap_tree _ _ _ _ H) as (Ha & Hl & Ht).
  pose proof (plug_height k (T a c l e t)) as Hh. cbn [height] in Hh.
  destruct (place_sub _ _ _ _ H) as (Hok & _). rewrite addrs_T in Hok. apply Forall_cons in Hok as [_ Hok].
  apply Forall_app in Hok as [Ol Ot].
  exists (noderec LEFT (top k) c (rootp l) (rootp t) e). unfold unlink. rewrite Ha. cbn [left right noderec].
  assert (forall u, Forall addr_ok (addrs u) -> u <> RbTree.E -> negb (rootp u =? 0) = true) as Hnz.
  { intros u Ou Hu. rewrite (proj2 (Z.eqb_neq _ 0)); [done|]. intros Hz. by apply rootp_nil in Hz. }
  destruct (tree_nil l) as [->|Hle]; [|destruct (tree_nil t) as [->|Hte]].
  - destruct (plug_rbt k _ _ Hrb Hb) as (h & Hk & Hth & _).
    exists k, t, c, h. split; [done|]. split; [by apply (unlink_one_spec m r k a c e RIGHT)|]. split; [done|].
    split; [by apply (gap_one RIGHT a c e)|]. split; [|lia]. rewrite elems_plug. cbn. by rewrite app_nil_r.
  - destruct (plug_rbt k _ _ Hrb Hb) as (h & Hk & Hth & _). rewrite andb_false_r.
    exists k, l, c, h. split; [done|]. split; [by apply (unlink_one_spec m r k a c e LEFT)|]. split; [done|].
    split; [by apply (gap_one LEFT a c e)|]. split; [|lia]. rewrite elems_plug. cbn. by rewrite <- app_assoc.
  - rewrite !Hnz by done. cbn [andb].
    destruct (far_spec m LEFT t a fuel Ht Hte Ot ltac:(lia)) as (s & cs & es & y & kk & Hfar & -> & Hs). cbn [node] in *.
    pose proof (plug_height kk (T s cs RbTree.E es y)) as Hh'. cbn [height] in Hh'.
    rewrite <- plug_two in Hrb, Hb. destruct (plug_rbt _ _ _ Hrb Hb) as (h & Hk & Hth & _).
    exists (kk ++ F RIGHT s c es l :: k), y, cs, h. split; [done|].
    split; [by apply (unlink_two_spec fuel m r k a c l e)|]. split; [by apply (rbk_swap kk RIGHT a c e s es l k)|].
    split; [by apply (gap_one RIGHT s cs es)|]. rewrite length_app. cbn [length]. split; [|lia].
    rewrite plug_app. cbn [plug fill node]. rewrite (elems_plug k). cbn [elems].
    rewrite !(elems_plug kk), (before_side kk) by done. cbn. repeat (rewrite <- app_assoc; cbn). done.
Qed.

Lemma rb_free_node_spec m a : is_Some (m !! a) -> a <> 0 -> rb_free_node m a = Some (delete a m).
Proof. intros [n Hn] Ha. unfold rb_free_node. rewrite (proj2 (Z.eqb_neq _ _)) by done. cbn [negb]. by rewrite Hn. Qed.

(** Filling the gap. *)
Lemma gap_rebalance fuel m r k t flag h :
  at_place m (r_node r) k t -> rbk k h -> gap flag t h -> (length k + 2 <= fuel)%nat ->
  rebalanced r (elems (plug k t))
    (if flag then rb_erase_rebalance fuel (mk_map m r) (top k) (rootp t) else Some (mk_map m r)).
Proof.
  intros H Hk Hg Hf. destruct flag; cbn [gap] in Hg.
  - apply (erase_rebalance_spec _ _ _ _ _ h); [done..|]. destruct (redb t); lia.
  - destruct Hg as [Ht Hb]. exists m, (r_node r), (plug k t). rewrite with_node_same. split; [done|].
    split; [exact (proj1 (place_whole _ _ _ _) H)|]. split; [|done]. destruct (rbt_plug k t h Hk Ht (or_introl Hb)) as (n & Hn & Hb').
    split; [|by exists n]. destruct k; [done|by apply Hb'].
Qed.

(** The end that was erased is found again. *)
Lemma end_of_LEFT B A : B <> [] -> end_of LEFT (B ++ A) = end_of LEFT B.
Proof. by destruct B. Qed.

Lemma end_of_RIGHT B A : A <> [] -> end_of RIGHT (B ++ A) = end_of RIGHT A.
Proof. intros HA. unfold end_of. rewrite last_app. destruct (last A) eqn:E; [done|]. by apply last_None in E. Qed.

Lemma end_of_in d l : l <> [] -> end_of d l ∈ l.*1.
Proof.
  intros Hl. destruct d; [destruct l as [|x l]; [done|by left]|]. unfold end_of. destruct (last l) as [x|] eqn:El.
  - apply list_elem_of_fmap. exists x. split; [done|]. by apply last_Some_elem_of.
  - by apply last_None in El.
Qed.

(** The end of the list a node comes out of. *)
Lemma end_of_erase d B a e A :
  end_of d (B ++ (a, e) :: A) <> a -> end_of d (B ++ (a, e) :: A) = end_of d (B ++ A).
Proof.
  intros Hne. destruct d.
  - destruct B as [|b B]; [by cbn in Hne|done].
  - destruct (decide (A = [])) as [->|HA]; [by rewrite end_of_snoc in Hne|].
    rewrite end_of_RIGHT by done. rewrite (end_of_RIGHT B) by done. change ((a, e) :: A) with ([(a, e)] ++ A).
    by apply end_of_RIGHT.
Qed.

(** The node of an entry. *)
Lemma place_entry m rn tr a e :
  at_place m rn [] tr -> (a, e) ∈ elems tr -> a <> 0 /\ exists n, m !! a = Some n /\ key n = fst e /\ value n = snd e.
Proof.
  intros H Hin. split.
  { pose proof (ap_ok _ _ _ _ H) as Hok. rewrite Forall_forall in Hok. destruct (Hok a); [|lia].
    apply elem_of_app. left. by apply (list_elem_of_fmap_2 fst _ (a, e)). } apply list_elem_of_split in Hin as (B & A & Hel).
  destruct (elems_split _ _ _ _ _ Hel) as (k & c & l & r & -> & _). apply place_whole in H.
  pose proof (ap_tree _ _ _ _ H) as (Ha & _). eexists. split; [exact Ha|]. by split.
Qed.

Lemma holds_addrs t l : holds t l -> NoDup l.*1 /\ Forall addr_ok l.*1 /\ forall a, is_Some (mem t !! a) <-> a ∈ l.*1.
Proof.
  intros ((tr & H & _ & <-) & _). destruct H as [_ _ H1 H2 H3]. unfold all_addrs in *. cbn [frame_addrs] in *.
  rewrite app_nil_r in *. done.
Qed.

Lemma erase_min fuel m r tr f B a e A :
  at_place m (r_node r) [] tr -> (height tr < fuel)%nat -> elems tr = B ++ A -> r_min r = end_of LEFT (B ++ (a, e) :: A) ->
  f = (r_min r =? a) ->
  (if f then rb_update_min fuel (mk_map m r) else Some (mk_map m r)) = Some (mk_map m (with_min r (end_of LEFT (B ++ A)))).
Proof.
  intros H Hf Hel Hmin ->. destruct (Z.eqb_spec (r_min r) a) as [Heq|Hne]; [by rewrite (update_min_spec m r tr), Hel|].
  rewrite Hmin in Hne. rewrite <- (end_of_erase LEFT B a e A Hne), <- Hmin. by destruct r.
Qed.

Lemma erase_max fuel m r tr f B a e A :
  at_place m (r_node r) [] tr -> (height tr < fuel)%nat -> elems tr = B ++ A -> r_max r = end_of RIGHT (B ++ (a, e) :: A) ->
  f = (r_max r =? a) ->
  (if f then rb_update_max fuel (mk_map m r) else Some (mk_map m r)) = Some (mk_map m (with_max r (end_of RIGHT (B ++ A)))).
Proof.
  intros H Hf Hel Hmax ->. destruct (Z.eqb_spec (r_max r) a) as [Heq|Hne]; [by rewrite (update_max_spec m r tr), Hel|].
  rewrite Hmax in Hne. rewrite <- (end_of_erase RIGHT B a e A Hne), <- Hmax. by destruct r.
Qed.

Lemma erase_ex_spec fuel t B a e A :
  holds t (B ++ (a, e) :: A) -> enough fuel (length (B ++ (a, e) :: A)) -> Z.of_nat (length (B ++ (a, e) :: A)) < U8_MOD ->
  exists t', rb_erase_ex fuel t a = Some (true, t') /\ holds t' (B ++ A).
Proof.
  intros Hh Hf Hlen. destruct (holds_addrs _ _ Hh) as (_ & Hok & Hdom).
  destruct Hh as ((tr & H & Hrb & Hel) & Hmin & Hmax & Hsize). destruct t as [m r]. cbn [mem rt] in *.
  pose proof Hf as Hf'. rewrite <- Hel in Hf'. apply enough_height in Hf'; [|done].
  assert (a ∈ (B ++ (a, e) :: A).*1) as Hin by (rewrite fmap_app; set_solver).
  assert (a <> 0) as Ha0 by (intros ->; rewrite Forall_forall in Hok; destruct (Hok 0 Hin); lia).
  assert (length (B ++ (a, e) :: A) = S (length (B ++ A))) as Hl by (rewrite !length_app; cbn; lia).
  destruct (unlink_node_spec fuel m r tr B a e A H Hrb Hel) as (n & k & u & flag & h & Hn & (m1 & r1 & Hun & Hs1 & H1) & Hk & Hg & Hel1 & Hlk); [lia|].
  unfold rb_erase_ex. cbn [mem rt].
  rewrite (proj2 (Z.eqb_neq (r_node r) 0)).
  2:{ intros Hz. apply (root_nil _ _ _ H) in Hz as ->. by destruct B. }
  rewrite (proj2 (Z.eqb_neq a 0)) by done. cbn [orb]. rewrite Hsize, (proj2 (Z.eqb_neq (Z.of_nat _) 0)) by lia.
  rewrite Hn. cbn [mbind option_bind]. unfold unlink in Hun. rewrite Hun. cbn [mbind option_bind mem rt].
  rewrite (rb_free_node_spec _ _ Hs1 Ha0). cbn [mbind option_bind].
  set (rs := with_size (with_node r r1) _).
  destruct (gap_rebalance fuel (delete a m1) rs k u flag h) as (m2 & r2 & t2 & -> & H2 & Hrb2 & Hel2); [exact H1|done|done|lia|].
  cbn [mbind option_bind]. rewrite Hel1 in Hel2.
  assert (height t2 < fuel)%nat as Hf2.
  { assert (enough fuel (length (elems t2))) as He by (rewrite Hel2; apply (enough_le _ _ _ Hf); lia).
    apply enough_height in He; [lia|done]. }
  rewrite (erase_min fuel m2 (with_node rs r2) t2 (r_min (with_node r r1) =? a) B a e A H2 Hf2 Hel2 Hmin eq_refl). cbn [mbind option_bind].
  rewrite (erase_max fuel m2 (with_min (with_node rs r2) _) t2 (r_max (with_node r r1) =? a) B a e A H2 Hf2 Hel2 Hmax eq_refl). cbn [mbind option_bind].
  eexists. split; [done|]. split; [by exists t2|]. split; [done|]. split; [done|]. cbn.
  rewrite Hsize, Hl in *. unfold u8. rewrite Z.mod_small; lia.
Qed.

(** ** Another value in a node *)

Lemma plug_T_value k a c l e e' r : all_addrs k (T a c l e r) = all_addrs k (T a c l e' r).
Proof. unfold all_addrs, addrs. cbn. by rewrite !fmap_app. Qed.

Lemma rbt_plug_value k a c l e e' r n : rbt (plug k (T a c l e r)) n <-> rbt (plug k (T a c l e' r)) n.
Proof.
  assert (forall t t', (forall n, rbt t n <-> rbt t' n) -> (is_black t <-> is_black t') ->
    (forall n, rbt (plug k t) n <-> rbt (plug k t') n)) as H; [|by apply H].
  induction k as [|[d b c0 e0 s] k IH]; intros t t' Ht Hb n0; [apply Ht|]. cbn [plug fill]. apply IH.
  - intros n1. rewrite !rbt_node. destruct c0; [destruct n1; [done|]; by rewrite Ht|by rewrite Ht, Hb].
  - by rewrite !is_black_node.
Qed.

Lemma is_black_plug_value k a c l e e' r : is_black (plug k (T a c l e r)) <-> is_black (plug k (T a c l e' r)).
Proof.
  assert (forall t t', (is_black t <-> is_black t') -> (is_black (plug k t) <-> is_black (plug k t'))) as H; [|by apply H].
  induction k as [|[d b c0 e0 s] k IH]; intros t t' Ht; [done|]. cbn [plug fill]. apply IH. by rewrite !is_black_node.
Qed.

Lemma value_spec t B a e A w :
  holds t (B ++ (a, e) :: A) ->
  exists n m', mem t !! a = Some n /\ value n = snd e /\ upd (mem t) a (with_value w) = Some m' /\
    holds (mk_map m' (rt t)) (B ++ (a, (fst e, w)) :: A).
Proof.
  intros ((tr & H & [Hb [h Hh]] & Hel) & Hmin & Hmax & Hsize).
  destruct (elems_split _ _ _ _ _ Hel) as (k & c & l & r & -> & -> & ->). apply place_whole in H.
  destruct H as [(Ha & Hl & Hr) Hk Hnd Hok Hdom]. eexists _, _. split; [exact Ha|]. split; [done|].
  split; [apply (upd_eq _ _ _ _ Ha)|]. cbn [rootp] in Hk.
  pose proof (changes_insert (mem t) a (with_value w (noderec LEFT (top k) c (rootp l) (rootp r) e)) _ Ha) as C.
  unfold holds. cbn [mem rt]. rewrite Hmin, Hmax, Hsize.
  pose proof Hnd as Hnd'. unfold all_addrs in Hnd'. rewrite addrs_T in Hnd'. cbn [app] in Hnd'. apply NoDup_cons in Hnd' as [Hna _].
  rewrite !not_elem_of_app in Hna. destruct Hna as ((Nl & Nr) & Nk).
  split; [|split; [|split]].
  - exists (plug k (T a c l (fst e, w) r)). split; [|split].
    + apply (place_whole _ _ k). constructor; rewrite <- ?(plug_T_value k a c l e (fst e, w) r); try done.
      * cbn [tree_at]. rewrite lookup_insert_eq. split; [done|].
        split; apply (tree_at_changes _ _ _ _ _ C); try done; by intros v Hv ->%list_elem_of_singleton.
      * apply (ctx_at_changes _ _ _ _ _ _ C); [|done]. by intros v Hv ->%list_elem_of_singleton.
      * intros b. rewrite <- Hdom. apply C.
    + split; [by apply (is_black_plug_value k a c l e)|]. exists h. by apply (rbt_plug_value k a c l e).
    + rewrite elems_plug. cbn. by rewrite <- !app_assoc.
  - by destruct (before k ++ elems l) as [|x y].
  - unfold end_of. rewrite !last_app. cbn. by destruct (elems r ++ after k) as [|x y].
  - rewrite !length_app. cbn. by rewrite length_app.
Qed.

(** ** Freeing *)

Lemma free_nodes_spec t : forall fuel m par,
  tree_at m par t -> Forall addr_ok (addrs t) -> NoDup (addrs t) -> (height t < fuel)%nat ->
  exists m', rb_free_node_recursion fuel m (rootp t) = Some m' /\
    (forall a, a ∉ addrs t -> m' !! a = m !! a) /\ (forall a, a ∈ addrs t -> m' !! a = None).
Proof.
  induction t as [|a c l IHl e r IHr]; intros fuel m par Ht Hok Hnd Hf; (destruct fuel as [|f]; [lia|]); cbn [rb_free_node_recursion].
  { exists m. split; [done|]. split; [done|]. intros b Hb. by apply elem_of_nil in Hb. }
  cbn [height] in Hf. rewrite addrs_T in Hok, Hnd. apply Forall_cons in Hok as [Oa Hok]. apply Forall_app in Hok as [Ol Or].
  apply NoDup_cons in Hnd as [Na Hnd]. apply NoDup_app in Hnd as (Dl & Dlr & Dr). rewrite not_elem_of_app in Na.
  destruct Ht as (Ha & Hl & Hr). cbn [rootp]. rewrite (proj2 (Z.eqb_neq a 0)) by (destruct Oa; lia). cbn [negb].
  rewrite (get_child_eq _ _ _ _ Ha). cbn [mbind option_bind child noderec left].
  destruct (IHl f m a Hl Ol Dl) as (m1 & -> & H1 & F1); [lia|]. cbn [mbind option_bind].
  assert (m1 !! a = m !! a) as Ha1 by (apply H1; tauto). rewrite Ha in Ha1.
  rewrite (get_child_eq _ _ _ _ Ha1). cbn [mbind option_bind child noderec right].
  destruct (IHr f m1 a) as (m2 & -> & H2 & F2); [|done|done|lia|].
  { apply (tree_at_ext m); [|done]. intros b Hb. apply H1. intros Hb'. by apply (Dlr b). }
  cbn [mbind option_bind]. rewrite (rb_free_node_spec m2 a); [|rewrite H2 by tauto; by rewrite Ha1|destruct Oa; lia].
  eexists. split; [done|]. split; intros b Hb; rewrite addrs_T in Hb.
  - rewrite not_elem_of_cons, not_elem_of_app in Hb. rewrite lookup_delete_ne by (intros ->; tauto). rewrite H2, H1 by tauto. done.
  - destruct (decide (a = b)) as [<-|Hne]; [apply lookup_delete_eq|]. rewrite lookup_delete_ne by done.
    destruct (decide (b ∈ addrs r)) as [Hr'|Hr']; [by apply F2|]. rewrite H2 by done. apply F1. set_solver.
Qed.

(** ** Walking *)

(** The entries on from a place towards [d]. *)
Definition ahead (d : side) (k : context) (x : tree) : list (Z * entry) :=
  match d with RIGHT => elems x ++ after k | LEFT => before k ++ elems x end.

(** The nearest node above that lies towards [d]. *)
Fixpoint next_up (d : side) (k : context) : Z :=
  match k with [] => 0 | F d' a _ _ _ :: k => if decide (d' = opp d) then a else next_up d k end.

Lemma next_up_end d k : end_of (opp d) (ahead d k RbTree.E) = next_up d k.
Proof.
  induction k as [|[d' a c e s] k IH]; [by destruct d|]. cbn [next_up]. destruct d, d'; cbn in *.
  - by rewrite app_nil_r in *.
  - rewrite app_nil_r, app_assoc. apply (end_of_snoc _ a e).
  - done.
  - done.
Qed.

Lemma climb_spec m rn d k : forall fuel t,
  at_place m rn k t -> t <> RbTree.E -> (length k < fuel)%nat -> climb fuel m d (rootp t) (top k) = Some (next_up d k).
Proof.
  induction k as [|[d' a c e s] k IH]; intros fuel t H Hne Hf; (destruct fuel as [|f]; [lia|]); cbn [climb top]; [done|].
  pose proof (place_up _ _ _ _ _ _ _ _ _ H) as Hup.
  pose proof (place_root_ne _ _ _ _ Hup ltac:(by destruct d')) as Ha. rewrite rootp_node in Ha.
  rewrite (proj2 (Z.eqb_neq a 0)) by done. cbn [negb]. destruct (place_child _ _ _ _ _ _ _ _ _ Hup) as [Hc1 Hc2].
  pose proof (place_children_ne _ _ _ _ _ _ _ _ _ Hup Hne) as Hts. cbn [next_up].
  destruct (decide (d' = opp d)) as [->|Hd].
  - rewrite opp_opp in Hc2. rewrite Hc2. cbn [mbind option_bind]. by rewrite (proj2 (Z.eqb_neq _ _)).
  - assert (d' = d) as -> by (by destruct d, d'). rewrite Hc1. cbn [mbind option_bind]. rewrite Z.eqb_refl.
    rewrite (place_parent _ _ _ _ _ _ _ _ _ Hup). cbn [mbind option_bind].
    rewrite <- (rootp_node d a c e t s). apply IH; [done|by destruct d|cbn in Hf; lia].
Qed.

Definition beyond (d : side) (B A : list (Z * entry)) : list (Z * entry) := match d with RIGHT => A | LEFT => B end.

(** A node is at the end when nothing is beyond it. *)
Lemma beyond_end d B a e A :
  NoDup (B ++ (a, e) :: A).*1 -> end_of d (B ++ (a, e) :: A) = a <-> beyond d B A = [].
Proof.
  intros Hnd. rewrite fmap_app in Hnd. apply NoDup_app in Hnd as (_ & HB & HA). cbn in HA.
  apply NoDup_cons in HA as [HA _]. split.
  - intros He. destruct d; cbn [beyond].
    + destruct B as [|[b eb] B]; [done|]. cbn in He. subst b. exfalso. apply (HB a); [by left|by left].
    + destruct (decide (A = [])) as [->|Hne]; [done|]. exfalso. apply HA. rewrite <- He at 1.
      rewrite end_of_RIGHT by done. change ((a, e) :: A) with ([(a, e)] ++ A). rewrite end_of_RIGHT by done.
      by apply (end_of_in RIGHT).
  - destruct d; cbn [beyond]; intros ->; [done|apply end_of_snoc].
Qed.

(** Up from a node with nothing below it on that side. *)
Lemma step_up fuel m rn d k a c e y :
  at_place m rn k (node d a c e RbTree.E y) -> next_up d k <> 0 -> (length k < fuel)%nat ->
  (c ← get_child m (opp d) (top k);
   if c =? a then Some (Some (top k))
   else q ← climb fuel m d a (top k); if q =? 0 then Some None else Some (Some q)) = Some (Some (next_up d k)).
Proof.
  intros H Hne Hf. assert (node d a c e RbTree.E y <> RbTree.E) as Ht by (by destruct d).
  pose proof (climb_spec m rn d k fuel _ H Ht Hf) as Hcl. rewrite rootp_node in Hcl.
  destruct k as [|[d' p cp ep s] k]; [done|]. cbn [top] in *. pose proof (place_up _ _ _ _ _ _ _ _ _ H) as Hup.
  pose proof (place_children_ne _ _ _ _ _ _ _ _ _ Hup Ht) as Hts. rewrite rootp_node in Hts.
  destruct (place_child _ _ _ _ _ _ _ _ _ Hup) as [Hc1 Hc2]. rewrite rootp_node in Hc1.
  cbn [next_up] in *. destruct (decide (d' = opp d)) as [->|Hd].
  - rewrite Hc1. cbn [mbind option_bind]. by rewrite Z.eqb_refl.
  - assert (d' = d) as -> by (by destruct d, d'). rewrite Hc2. cbn [mbind option_bind].
    rewrite (proj2 (Z.eqb_neq _ _)) by congruence. rewrite Hcl. cbn [mbind option_bind].
    by rewrite (proj2 (Z.eqb_neq _ _)).
Qed.

Lemma node_step_spec fuel d t B a e A :
  holds t (B ++ (a, e) :: A) -> enough fuel (length (B ++ (a, e) :: A)) ->
  node_step fuel d t a = Some (Some (end_of (opp d) (beyond d B A))).
Proof.
  intros Hh Hf. destruct (holds_addrs _ _ Hh) as (Hnd & Hok & _).
  destruct Hh as ((tr & H & Hrb & Hel) & Hmin & Hmax & _). pose proof Hf as Hht. rewrite <- Hel in Hht.
  apply enough_height in Hht; [|done]. pose proof (root_nil _ _ _ H) as Hroot.
  destruct (elems_split _ _ _ _ _ Hel) as (k & c & l & r & -> & EB & EA).
  pose proof (plug_height k (T a c l e r)) as Hh'. cbn [height] in Hh'. apply place_whole in H.
  assert (exists x y, T a c l e r = node d a c e x y /\ ahead d k x = beyond d B A /\ (height x <= Nat.max (height l) (height r))%nat) as (x & y & ET & Eb & Hx).
  { destruct d; [exists l, r|exists r, l]; (split; [done|]); (split; [by cbn|lia]). }
  rewrite ET in H. unfold node_step. rewrite (place_parent _ _ _ _ _ _ _ _ _ H).
  destruct (place_child _ _ _ _ _ _ _ _ _ H) as [Hc _]. rewrite Hc. cbn [mbind option_bind].
  assert (a <> 0) as Ha. { rewrite Forall_forall in Hok. destruct (Hok a); [|lia]. rewrite fmap_app. set_solver. }
  rewrite (proj2 (Z.eqb_neq (r_node (rt t)) 0)) by (intros Hz; apply Hroot in Hz; by apply (plug_ne k) in Hz).
  rewrite (proj2 (Z.eqb_neq a 0)) by done. cbn [orb].
  replace (match d with RIGHT => r_max (rt t) | LEFT => r_min (rt t) end) with (end_of d (B ++ (a, e) :: A)) by (by destruct d).
  destruct (Z.eqb_spec a (end_of d (B ++ (a, e) :: A))) as [He|He].
  { symmetry in He. apply beyond_end in He; [|done]. rewrite He. by destruct d. }
  assert (beyond d B A <> []) as Hbe by (intros Hz; apply (beyond_end d B a e A Hnd) in Hz; congruence).
  destruct (tree_nil x) as [->|Hxe].
  - cbn [rootp Z.eqb negb]. rewrite <- Eb, next_up_end. apply (step_up _ _ (r_node (rt t)) _ _ _ c e y H); [|lia].
    rewrite <- next_up_end, Eb. intros Hz. pose proof (end_of_in (opp d) _ Hbe) as Hin. rewrite Hz in Hin.
    rewrite Forall_forall in Hok. destruct (Hok 0); [|lia]. rewrite fmap_app. cbn. destruct d; cbn in Hin; set_solver.
  - apply place_down in H. rewrite (proj2 (Z.eqb_neq _ _)) by (by apply (place_root_ne _ _ _ _ H)). cbn [negb].
    destruct (place_sub _ _ _ _ H) as (Hokx & _). rewrite (far_end _ a (opp d) x); [|apply (ap_tree _ _ _ _ H)|done|done|lia].
    cbn [mbind option_bind]. rewrite <- Eb. do 2 f_equal. assert (elems x <> []) as Hne by (destruct x; [done|]; cbn; intros Hz; by apply app_nil in Hz as [_ Hz]).
    destruct d; cbn [ahead opp]; [by rewrite end_of_RIGHT|by rewrite end_of_LEFT].
Qed.

(** ** The order of the keys *)

Section order.
Context (cmp : compare) `{!KeyOrder cmp}.

Definition ekey (x : Z * entry) : bytes := slice_bytes (fst (snd x)).

Definition key_lt (x y : Z * entry) : Prop := cmp (ekey x) (ekey y) < 0.

Definition sorted (l : list (Z * entry)) : Prop := StronglySorted key_lt l.

Lemma sorted_mid B x A :
  sorted (B ++ x :: A) <->
  sorted B /\ sorted A /\ Forall (fun y => key_lt y x) B /\ Forall (key_lt x) A /\ (forall y z, y ∈ B -> z ∈ A -> key_lt y z).
Proof.
  unfold sorted. rewrite StronglySorted_app, StronglySorted_cons, !Forall_forall. set_unfold. naive_solver.
Qed.

(** Where a key belongs: after [B] and before [A]. *)
Definition fits (k : bytes) (B A : list (Z * entry)) : Prop :=
  Forall (fun x => 0 < cmp k (ekey x)) B /\ Forall (fun x => cmp k (ekey x) < 0) A.

Lemma search_tree_spec fuel k m rn c : forall t,
  at_place m rn c t -> sorted (elems (plug c t)) -> fits k (before c) (after c) -> (height t < fuel)%nat ->
  (exists c' a b l e r, search_loop fuel cmp m k (rootp t) (top c) = Some (a, 0) /\ plug c t = plug c' (T a b l e r) /\
    cmp k (slice_bytes (fst e)) = 0) \/
  (exists c', search_loop fuel cmp m k (rootp t) (top c) = Some (0, top c') /\ plug c t = plug c' RbTree.E /\
    fits k (before c') (after c')).
Proof.
  revert c. induction fuel as [|f IH]; intros c t H Hso Hfit Hf; [lia|]. cbn [search_loop].
  destruct t as [|a b l e r]; [right; by exists c|]. pose proof (place_root_ne _ _ _ _ H ltac:(done)) as Hne.
  rewrite (proj2 (Z.eqb_neq _ 0)) by done. cbn [negb]. pose proof (ap_tree _ _ _ _ H) as (Ha & _).
  cbn [rootp]. rewrite Ha. cbn [mbind option_bind noderec key left right]. cbn [height] in Hf.
  destruct (Z.eqb_spec (cmp k (slice_bytes (fst e))) 0) as [Hz|Hz]; [left; by exists c, a, b, l, e, r|].
  assert (sorted ((before c ++ elems l) ++ (a, e) :: (elems r ++ after c))) as Hso'.
  { rewrite elems_plug in Hso. cbn [elems] in Hso. rewrite <- !app_assoc in *. done. }
  apply sorted_mid in Hso' as (_ & _ & HB & HA & _). destruct Hfit as [FB FA].
  destruct (Z.ltb_spec (cmp k (slice_bytes (fst e))) 0) as [Hlt|Hge].
  - apply (IH (F LEFT a b e r :: c) l); [by apply (place_down _ _ LEFT)|done| |lia]. split; [done|]. cbn [after]. constructor; [done|].
    apply (Forall_impl _ _ _ HA). intros x Hx. by apply (cmp_lt_le cmp _ (slice_bytes (fst e))); [|apply Z.lt_le_incl].
  - apply (IH (F RIGHT a b e l :: c) r); [by apply (place_down _ _ RIGHT)|done| |lia]. split; [|done]. cbn [before].
    apply Forall_app in HB as [_ HB]. apply Forall_app. split; [done|]. apply Forall_app. split; [|constructor; [unfold ekey; cbn; lia|done]].
    apply (Forall_impl _ _ _ HB). intros x Hx. apply (cmp_lt_gt cmp). apply (cmp_lt_le cmp _ (slice_bytes (fst e))); [done|].
    pose proof (cmp_opp k (slice_bytes (fst e))). lia.
Qed.

(** The side of the node above that an empty place is on. *)
Lemma fits_side k d p c e s K :
  fits k (before (F d p c e s :: K)) (after (F d p c e s :: K)) ->
  (if cmp k (slice_bytes (fst e)) <? 0 then LEFT else RIGHT) = d.
Proof.
  intros [HB HA]. destruct d; cbn in HB, HA.
  - apply Forall_cons in HA as [H _]. by rewrite (proj2 (Z.ltb_lt _ _)).
  - apply Forall_app in HB as [_ HB]. apply Forall_app in HB as [_ HB]. apply Forall_cons in HB as [H _]. unfold ekey in H. cbn in H.
    by rewrite (proj2 (Z.ltb_ge _ _)) by lia.
Qed.

(** The ends of the list with a new entry, found by comparing with the old ends. *)
Lemma new_min m r tr kb a e B A :
  at_place m (r_node r) [] tr -> elems tr = B ++ (a, e) :: A -> fits kb B A -> r_min r = end_of LEFT (B ++ A) ->
  (if r_min r =? 0 then Some (with_min r a)
   else n ← m !! r_min r; Some (if cmp kb (slice_bytes (key n)) <? 0 then with_min r a else r)) =
  Some (with_min r (end_of LEFT (B ++ (a, e) :: A))).
Proof.
  intros H Hel [HB HA] Hmin. assert (forall x, x ∈ B ++ A -> x ∈ elems tr) as Hin by (rewrite Hel; set_solver).
  destruct B as [|[b eb] B]; [destruct A as [|[b eb] A]|]; cbn in Hmin; rewrite Hmin; [done|..].
  - destruct (place_entry m _ tr b eb H) as (Hb & n & -> & Hk & _); [apply Hin; by left|].
    apply Forall_cons in HA as [HA _]. unfold ekey in HA. cbn in HA.
    rewrite (proj2 (Z.eqb_neq _ _)) by done. cbn. by rewrite Hk, (proj2 (Z.ltb_lt _ _) HA).
  - destruct (place_entry m _ tr b eb H) as (Hb & n & -> & Hk & _); [apply Hin; by left|].
    apply Forall_cons in HB as [HB _]. unfold ekey in HB. cbn in HB.
    rewrite (proj2 (Z.eqb_neq _ _)) by done. cbn. rewrite Hk, (proj2 (Z.ltb_ge _ _)) by lia.
    rewrite <- Hmin. by destruct r.
Qed.

Lemma new_max m r tr kb a e B A :
  at_place m (r_node r) [] tr -> elems tr = B ++ (a, e) :: A -> fits kb B A -> r_max r = end_of RIGHT (B ++ A) ->
  (if r_max r =? 0 then Some (with_max r a)
   else n ← m !! r_max r; Some (if 0 <? cmp kb (slice_bytes (key n)) then with_max r a else r)) =
  Some (with_max r (end_of RIGHT (B ++ (a, e) :: A))).
Proof.
  intros H Hel [HB HA] Hmax. assert (forall x, x ∈ B ++ A -> x ∈ elems tr) as Hin by (rewrite Hel; set_solver).
  destruct A as [|[b eb] A _] using rev_ind; [destruct B as [|[b eb] B _] using rev_ind|].
  - by rewrite Hmax.
  - rewrite app_nil_r, end_of_snoc in Hmax. rewrite Hmax, end_of_snoc.
    destruct (place_entry m _ tr b eb H) as (Hb & n & -> & Hk & _); [apply Hin; set_solver|].
    apply Forall_app in HB as [_ HB]. apply Forall_cons in HB as [HB _]. unfold ekey in HB. cbn in HB.
    rewrite (proj2 (Z.eqb_neq _ _)) by done. cbn. by rewrite Hk, (proj2 (Z.ltb_lt _ _) HB).
  - rewrite app_assoc, end_of_snoc in Hmax. rewrite Hmax, (app_comm_cons A), app_assoc, end_of_snoc.
    destruct (place_entry m _ tr b eb H) as (Hb & n & -> & Hk & _); [apply Hin; set_solver|].
    apply Forall_app in HA as [_ HA]. apply Forall_cons in HA as [HA _]. unfold ekey in HA. cbn in HA.
    rewrite (proj2 (Z.eqb_neq _ _)) by done. cbn. rewrite Hk, (proj2 (Z.ltb_ge _ _)) by lia.
    rewrite <- Hmax. by destruct r.
Qed.

Lemma update_ends_spec m r tr kb a e B A :
  at_place m (r_node r) [] tr -> elems tr = B ++ (a, e) :: A -> fits kb B A ->
  r_min r = end_of LEFT (B ++ A) -> r_max r = end_of RIGHT (B ++ A) ->
  update_ends cmp (mk_map m r) kb a =
  Some (mk_map m (with_max (with_min r (end_of LEFT (B ++ (a, e) :: A))) (end_of RIGHT (B ++ (a, e) :: A)))).
Proof.
  intros H Hel Hfit Hmin Hmax. unfold update_ends. cbn [mem rt].
  rewrite (new_min m r tr kb a e B A H Hel Hfit Hmin). cbn [mbind option_bind].
  by rewrite (new_max m (with_min r _) tr kb a e B A H Hel Hfit Hmax).
Qed.

(** A new node in an empty place. *)
Lemma attach_spec kb k m r a ks vs :
  at_place m (r_node r) k RbTree.E -> m !! a = None -> addr_ok a -> fits kb (before k) (after k) ->
  let m1 := <[a := mk_node 0 0 0 ks vs]> m in
  exists m' r',
    (if negb (top k =? 0) then
       pn ← m1 !! top k;
       m ← set_child m1 (if cmp kb (slice_bytes (key pn)) <? 0 then LEFT else RIGHT) (top k) a;
       m ← rb_set_parent m a (top k); Some (m, r)
     else Some (m1, with_node r a)) = Some (m', with_node r r') /\
    at_place m' r' k (T a false RbTree.E (ks, vs) RbTree.E).
Proof.
  intros [_ Hk Hnd Hok Hdom] Hnone Oa Hfit m1. unfold all_addrs in Hnd, Hok, Hdom.
  change (addrs RbTree.E) with (@nil Z) in *. cbn [app] in Hnd, Hok, Hdom.
  assert (a ∉ frame_addrs k) as Hna by (intros Hin; apply Hdom in Hin; rewrite Hnone in Hin; by destruct Hin).
  assert (all_addrs k (T a false RbTree.E (ks, vs) RbTree.E) = a :: frame_addrs k) as Heq by done.
  destruct k as [|[d p c e s] K].
  { exists m1, a. cbn [top Z.eqb negb]. split; [done|]. constructor; rewrite ?Heq; try done.
    - cbn [tree_at]. split; [apply lookup_insert_eq|done].
    - by constructor.
    - by constructor.
    - intros b. unfold m1. destruct (decide (a = b)) as [<-|Hne]; [rewrite lookup_insert_eq; set_solver|].
      rewrite lookup_insert_ne, Hdom by done. set_solver. }
  cbn [top]. pose proof (Forall_inv Hok) as Op. rewrite (proj2 (Z.eqb_neq p 0)) by (destruct Op; lia). cbn [negb].
  destruct Hk as (Hp & Hs & Hk). cbn [frame_addrs] in *. assert (a <> p) as Hap by set_solver.
  assert (m1 !! p = Some (noderec d (top K) c 0 (rootp s) e)) as Hp1 by (unfold m1; by rewrite lookup_insert_ne).
  rewrite Hp1. cbn [mbind option_bind]. replace (key (noderec d (top K) c 0 (rootp s) e)) with (fst e) by (by destruct d).
  rewrite (fits_side kb d p c e s K Hfit). unfold set_child. rewrite (upd_eq _ _ _ _ Hp1), with_child_same. cbn [mbind option_bind].
  unfold rb_set_parent. rewrite (upd_eq _ a (mk_node 0 0 0 ks vs)).
  2:{ rewrite lookup_insert_ne by done. apply lookup_insert_eq. }
  cbn [mbind option_bind]. set (m3 := <[a := _]> (<[p := _]> m1)). exists m3, (r_node r). rewrite with_node_same. split; [done|].
  assert (forall b, b <> a -> b <> p -> m3 !! b = m !! b) as Hsame.
  { intros b H1 H2. unfold m3, m1. by rewrite !lookup_insert_ne. }
  apply NoDup_cons in Hnd as [Hnp Hnd]. constructor; rewrite ?Heq.
  - cbn [tree_at]. unfold m3. rewrite lookup_insert_eq. split; [|done]. unfold with_parent, noderec, word. cbn. by rewrite Z.add_0_r.
  - cbn [ctx_at]. split; [unfold m3; by rewrite lookup_insert_ne, lookup_insert_eq|].
    split; [apply (tree_at_ext m)|apply (ctx_at_ext m)]; try done; intros v Hv; apply Hsame; set_solver.
  - constructor; [done|by constructor].
  - by constructor.
  - intros b. destruct (decide (b = a)) as [->|H1]; [unfold m3; rewrite lookup_insert_eq; set_solver|].
    destruct (decide (b = p)) as [->|H2]; [unfold m3; rewrite lookup_insert_ne, lookup_insert_eq by done; set_solver|].
    rewrite Hsame, Hdom by done. set_solver.
Qed.

(** What is asked of the allocators. *)
Definition node_alloc_ok (anode : node_alloc) : Prop := forall m a, anode m = Some a -> addr_ok a /\ m !! a = None.

(** No memory for a new entry. *)
Definition refuses (anode : node_alloc) (malloc : malloc_fun) (m : rmem) (k v : bytes) : Prop :=
  anode m = None \/ malloc (blen k) = None \/ malloc (blen v) = None.

(** The node with copies of the key and the value, or none. *)
Lemma create_node_spec anode malloc m k v :
  node_alloc_ok anode -> malloc_ok malloc ->
  refuses anode malloc m k v /\ rb_create_node anode malloc m (Some k) (Some v) = Some (0, m) \/
  exists a, addr_ok a /\ m !! a = None /\
    rb_create_node anode malloc m (Some k) (Some v) =
      Some (a, <[a := mk_node 0 0 0 (mk_slice (blen k) k) (mk_slice (blen v) v)]> m).
Proof.
  intros Han Hma. unfold rb_create_node. unfold refuses. destruct (anode m) as [a|] eqn:Ea; [|by left; auto].
  destruct (malloc (blen k)) as [kd|] eqn:Ek; [|by left; auto]. destruct (malloc (blen v)) as [vd|] eqn:Ev; [|by left; auto].
  right. destruct (Han _ _ Ea) as [Oa Hnone]. exists a. split; [done|]. split; [done|].
  pose proof (wr_head kd [] k) as Hk. pose proof (wr_head vd [] v) as Hv. rewrite !app_nil_r in Hk, Hv.
  rewrite Hk by (symmetry; apply Hma; [apply blen_nonneg|done]). cbn [mbind option_bind].
  by rewrite Hv by (symmetry; apply Hma; [apply blen_nonneg|done]).
Qed.

Lemma holds_search fuel t l k :
  holds t l -> sorted l -> enough fuel (length l) ->
  (exists B a e A, rb_search fuel cmp t k = Some (a, 0) /\ a <> 0 /\ l = B ++ (a, e) :: A /\ cmp k (slice_bytes (fst e)) = 0) \/
  (exists c tr, rb_search fuel cmp t k = Some (0, top c) /\ l = before c ++ after c /\ fits k (before c) (after c) /\
    at_place (mem t) (r_node (rt t)) c RbTree.E /\ rb_ok tr /\ tr = plug c RbTree.E).
Proof.
  intros ((tr & H & Hrb & <-) & _) Hso Hf. destruct t as [m r]. cbn [mem rt] in *.
  pose proof (enough_height fuel tr Hf Hrb) as Hh. unfold rb_search. cbn [mem rt].
  pose proof (ap_ctx _ _ _ _ H) as Hr. cbn in Hr.
  destruct (search_tree_spec fuel k m (r_node r) [] tr H) as [(c & a & b & l & e & x & Hs & Hp & Hz)|(c & Hs & Hp & Hfit)]; [done|done|lia|..].
  - left. cbn [top] in Hs. rewrite <- Hr in Hs. rewrite Hs. cbn [plug] in Hp. subst tr.
    assert (elems (plug c (T a b l e x)) = (before c ++ elems l) ++ (a, e) :: (elems x ++ after c)) as Hel.
    { rewrite elems_plug. cbn. by rewrite <- !app_assoc. }
    exists (before c ++ elems l), a, e, (elems x ++ after c). split; [done|]. split; [|by split].
    apply (place_entry m (r_node r) _ a e H). rewrite Hel. set_solver.
  - right. cbn [top] in Hs. rewrite <- Hr in Hs. rewrite Hs. cbn [plug] in Hp. subst tr. exists c, (plug c RbTree.E).
    split; [done|]. rewrite elems_plug. cbn [elems app]. split; [done|]. split; [done|]. split; [|done]. by apply place_whole.
Qed.

(** A new key: between the smaller and the greater. *)
Lemma insert_new_spec anode malloc fuel t l k v :
  node_alloc_ok anode -> malloc_ok malloc -> holds t l -> sorted l -> enough fuel (S (length l)) ->
  Z.of_nat (S (length l)) < U8_MOD -> Forall (fun x => cmp k (ekey x) <> 0) l ->
  refuses anode malloc (mem t) k v /\ rb_insert anode malloc fuel cmp t (Some k) (Some v) = Some (false, t) \/
  exists a B A t', l = B ++ A /\ fits k B A /\
    rb_insert anode malloc fuel cmp t (Some k) (Some v) = Some (true, t') /\
    holds t' (B ++ (a, (mk_slice (blen k) k, mk_slice (blen v) v)) :: A).
Proof.
  intros Han Hma Hh Hso Hf Hlen Hne. assert (enough fuel (length l)) as Hf' by (apply (enough_le _ _ _ Hf); lia).
  unfold rb_insert. pose proof Hh as (_ & Hmin & Hmax & Hsize).
  assert (u8 (r_size (rt t) + 1) = r_size (rt t) + 1) as Hu by (unfold u8; rewrite Hsize, Z.mod_small; lia).
  rewrite Hu, (proj2 (Z.ltb_ge _ _)) by lia.
  destruct (holds_search fuel t l k Hh Hso Hf') as [(B & a & e & A & _ & _ & -> & Hz)|(c & tr & Hs & -> & Hfit & H & Hrb & ->)].
  { rewrite Forall_app, Forall_cons in Hne. by destruct Hne as (_ & Hne & _). }
  rewrite Hs. cbn [mbind option_bind Z.eqb negb].
  destruct (create_node_spec anode malloc (mem t) k v Han Hma) as [[Href ->]|(a & Oa & Hnone & ->)]; [by left|right].
  cbn [mbind option_bind]. rewrite (proj2 (Z.eqb_neq a 0)) by (destruct Oa; lia).
  destruct t as [m r]. cbn [mem rt] in *.
  destruct (attach_spec k c m r a (mk_slice (blen k) k) (mk_slice (blen v) v) H Hnone Oa Hfit) as (m1 & r1 & -> & H1). cbn [mbind option_bind r_size with_node].
  rewrite Hu. destruct Hrb as [Hb [n Hn]]. destruct (plug_rbt c RbTree.E n Hn Hb) as (n' & Hk & Hn' & _). cbn in Hn'. subst n'.
  pose proof (enough_height fuel (plug c RbTree.E)) as Hht. rewrite elems_plug in Hht.
  specialize (Hht Hf' (conj Hb (ex_intro _ n Hn))). pose proof (plug_height c RbTree.E).
  set (rs := with_size _ _). set (e := (mk_slice (blen k) k, mk_slice (blen v) v)) in *.
  destruct (insert_rebalance_spec fuel m1 rs c (T a false RbTree.E e RbTree.E) 0) as (m2 & r2 & t2 & Hins & H2 & Hrb2 & Hel2); [exact H1|done|done|done|lia|].
  cbn [rootp] in Hins. rewrite Hins. cbn [mbind option_bind]. rewrite elems_plug in Hel2. cbn [elems app] in Hel2.
  rewrite (update_ends_spec m2 (with_node rs r2) t2 k a e _ _ H2 Hel2 Hfit Hmin Hmax). cbn [mbind option_bind].
  exists a, (before c), (after c). eexists. split; [done|]. split; [done|]. split; [done|].
  split; [by exists t2|]. split; [done|]. split; [done|]. cbn. rewrite Hsize, !length_app. cbn. lia.
Qed.

Lemma insert_found_spec anode malloc fuel t l k v :
  holds t l -> sorted l -> enough fuel (length l) -> Z.of_nat (S (length l)) < U8_MOD -> Exists (fun x => cmp k (ekey x) = 0) l ->
  rb_insert anode malloc fuel cmp t (Some k) (Some v) = Some (true, t).
Proof.
  intros Hh Hso Hf Hlen Hex. unfold rb_insert. pose proof Hh as (_ & _ & _ & Hsize).
  assert (u8 (r_size (rt t) + 1) = r_size (rt t) + 1) as Hu by (unfold u8; rewrite Hsize, Z.mod_small; lia).
  rewrite Hu, (proj2 (Z.ltb_ge _ _)) by lia.
  destruct (holds_search fuel t l k Hh Hso Hf) as [(B & a & e & A & Hs & Ha & -> & Hz)|(c & tr & Hs & -> & [HB HA] & _)].
  - rewrite Hs. cbn [mbind option_bind]. by rewrite (proj2 (Z.eqb_neq _ _)).
  - exfalso. apply Exists_app in Hex as [Hex|Hex]; apply Exists_exists in Hex as (x & Hx & Hz); rewrite Forall_forall in HB, HA.
    + specialize (HB x Hx). lia.
    + specialize (HA x Hx). lia.
Qed.

End order.

End MapOps.
