(* ===== verification/LiskMapSpec.v ===== *)
(** * The map as a sorted association list

    The abstract map, what each operation of lisk_map.c does to it, and the
    theorems about the whole component: refinement, the invariant of the tree,
    iteration and freeing. *)

From Stdlib Require Import Sorted.
From stdpp Require Import sorting.
From S2P Require Import Prelude LiskMap RbTree LiskMapRep LiskMapOps.

Module MapSpec.
Import Map RbTree MapRep MapOps.

(** ** Calls of the interface *)

Inductive call :=
  | Insert (k v : option bytes)
  | Update (k v : option bytes)
  | Erase (k : option bytes)
  | EraseAt (k : bytes)
  | Find (k : bytes)
  | Size.

(** What the caller gets: the return code, a value or a size. *)
Inductive result := Ret (r : Z) | Got (r : Z) (v : option bytes) | Count (r : Z) (n : option Z).

(** A call on a map in memory; [EraseAt] erases through the value that [map_find] points at. *)
Definition do_call (anode : node_alloc) (malloc : malloc_fun) (fuel : nat) (cmp : compare) (m : option map_t) (c : call)
  : option (result * option map_t) :=
  match c with
  | Insert k v => '(r, m) ← map_insert anode malloc fuel cmp m k v; Some (Ret r, m)
  | Update k v => '(r, m) ← map_update malloc fuel cmp m k v; Some (Ret r, m)
  | Erase k => '(r, m) ← map_erase fuel cmp m k; Some (Ret r, m)
  | EraseAt k =>
      '(r, p) ← map_find fuel cmp m k false;
      if r =? 0 then '(r, m) ← map_erase_ex fuel m p; Some (Ret r, m) else Some (Ret r, m)
  | Find k =>
      '(r, p) ← map_find fuel cmp m k false;
      v ← (if r =? 0 then t ← m; n ← mem t !! p; Some (Some (slice_bytes (value n))) else Some None);
      Some (Got r v, m)
  | Size => let '(r, n) := map_size m false in Some (Count r n, m)
  end.

(** The same call on the abstract map; [room] says whether there was memory. *)
Definition spec_call (cmp : compare) (room : bool) (l : amap) (c : call) : result * amap :=
  match c with
  | Insert (Some k) (Some v) =>
      if Z.of_nat (S (length l)) =? U8_MOD then (Ret (-1), l)
      else if al_find cmp k l is Some _ then (Ret 0, l)
      else if room then (Ret 0, al_insert cmp k v l) else (Ret (-1), l)
  | Update (Some k) (Some v) =>
      if al_find cmp k l is Some _ then if room then (Ret 0, al_update cmp k v l) else (Ret (-1), l)
      else (Ret (-1), l)
  | Erase (Some k) => (Ret (if l is [] then -1 else 0), al_erase cmp k l)
  | EraseAt k => if al_find cmp k l is Some _ then (Ret 0, al_erase cmp k l) else (Ret (-2), l)
  | Find k => (if al_find cmp k l is Some v then Got 0 (Some v) else Got (-2) None, l)
  | Size => (Count 0 (Some (Z.of_nat (length l))), l)
  | _ => (Ret (-1), l)
  end.

(** A call, with the allocators it finds. *)
Abbreviation acall := (node_alloc * malloc_fun * call)%type.

Fixpoint do_calls fuel cmp (m : option map_t) (cs : list acall) : option (list result * option map_t) :=
  match cs with
  | [] => Some ([], m)
  | (anode, malloc, c) :: cs =>
      '(r, m) ← do_call anode malloc fuel cmp m c;
      '(rs, m) ← do_calls fuel cmp m cs; Some (r :: rs, m)
  end.

Fixpoint spec_calls cmp (rooms : list bool) (l : amap) (cs : list call) {struct cs} : list result * amap :=
  match cs, rooms with
  | c :: cs, room :: rooms =>
      let '(r, l) := spec_call cmp room l c in let '(rs, l) := spec_calls cmp rooms l cs in (r :: rs, l)
  | _, _ => ([], l)
  end.

(** ** The refinement *)

Definition entry_ok (x : Z * entry) : Prop := 0 <= s_size (snd (snd x)) <= blen (s_data (snd (snd x))).

Definition view (es : list (Z * entry)) : amap :=
  (fun x : Z * entry => (slice_bytes (fst (snd x)), slice_bytes (snd (snd x)))) <$> es.

(** The map in memory [t] is the abstract map [l]. *)
Definition map_rep (cmp : compare) (t : map_t) (l : amap) : Prop :=
  exists es, holds t es /\ sorted cmp es /\ Forall entry_ok es /\ Z.of_nat (length es) < U8_MOD /\ view es = l.

(** No allocation is ever refused. *)
Definition plenty (anode : node_alloc) (malloc : malloc_fun) : Prop :=
  (forall m, anode m <> None) /\ (forall n, malloc n <> None).

Section refinement.
Context (cmp : compare) `{!KeyOrder cmp} (anode : node_alloc) (malloc : malloc_fun).
Context (Han : node_alloc_ok anode) (Hma : malloc_ok malloc).

Lemma fits_view k B A : fits cmp k B A <-> smaller cmp k (view B) /\ greater cmp k (view A).
Proof. unfold fits, smaller, greater, view. by rewrite !Forall_fmap. Qed.

Lemma view_app B A : view (B ++ A) = view B ++ view A.
Proof. apply fmap_app. Qed.

Lemma length_view es : length (view es) = length es.
Proof. apply length_fmap. Qed.

(** The keys before one that equals [k] are smaller than [k]. *)
Lemma found_smaller k B a e A :
  sorted cmp (B ++ (a, e) :: A) -> cmp k (slice_bytes (fst e)) = 0 -> smaller cmp k (view B).
Proof.
  intros Hso Hz. apply (sorted_mid cmp) in Hso as (_ & _ & HB & _). unfold smaller, view. rewrite Forall_fmap.
  apply (Forall_impl _ _ _ HB). intros x Hx. apply (cmp_lt_gt cmp). apply (cmp_lt_le cmp _ (slice_bytes (fst e))); [done|].
  apply (cmp_eq_sym cmp) in Hz. lia.
Qed.

(** What a search tells of the abstract map. *)
Lemma search_view fuel t es k v :
  holds t es -> sorted cmp es -> enough fuel (length es) ->
  (exists B a e A, rb_search fuel cmp t k = Some (a, 0) /\ a <> 0 /\ es = B ++ (a, e) :: A /\
     cmp k (slice_bytes (fst e)) = 0 /\ al_find cmp k (view es) = Some (slice_bytes (snd e)) /\
     al_update cmp k v (view es) = view B ++ (slice_bytes (fst e), v) :: view A /\ al_erase cmp k (view es) = view B ++ view A) \/
  (exists p, rb_search fuel cmp t k = Some (0, p) /\ Forall (fun x => cmp k (ekey x) <> 0) es /\
     al_find cmp k (view es) = None /\ al_erase cmp k (view es) = view es).
Proof.
  intros Hh Hso Hf. destruct (holds_search cmp fuel t es k Hh Hso Hf) as [(B & a & e & A & Hs & Ha & -> & Hz)|(c & tr & Hs & -> & Hfit & _)].
  - left. exists B, a, e, A. split; [done|]. split; [done|]. split; [done|]. split; [done|].
    pose proof (found_smaller k B a e A Hso Hz) as HB. rewrite view_app. cbn [view fmap list_fmap].
    destruct (al_skip cmp k v (view B) (view ((a, e) :: A)) HB) as (H1 & _ & H3 & H4).
    unfold view in *. cbn [fmap list_fmap fst snd] in *. rewrite H1, H3, H4. cbn. by rewrite Hz.
  - right. exists (top c). split; [done|]. pose proof Hfit as [HB HA]. split.
    { apply Forall_app. split; [apply (Forall_impl _ _ _ HB)|apply (Forall_impl _ _ _ HA)]; intros x; lia. }
    apply fits_view in Hfit as [HB' HA']. rewrite view_app.
    destruct (al_skip cmp k v (view (before c)) (view (after c)) HB') as (H1 & _ & _ & H4).
    destruct (al_greater cmp k v (view (after c)) HA') as (H1' & H4' & _). by rewrite H1, H1', H4, H4'.
Qed.

(** A new entry in its place. *)
Lemma sorted_insert B A x : sorted cmp (B ++ A) -> fits cmp (ekey x) B A -> sorted cmp (B ++ x :: A).
Proof.
  unfold sorted. rewrite !StronglySorted_app, StronglySorted_cons. intros (H1 & H2 & H3) [HB HA].
  assert (forall y, y ∈ B -> key_lt cmp y x) as HBx.
  { intros y Hy. rewrite Forall_forall in HB. by apply (cmp_lt_gt cmp), HB. }
  split; [|by auto]. intros y z Hy Hz. apply elem_of_cons in Hz as [->|Hz]; auto.
Qed.

(** Another value at a key. *)
Lemma sorted_same B A a e w : sorted cmp (B ++ (a, e) :: A) -> sorted cmp (B ++ (a, (fst e, w)) :: A).
Proof.
  unfold sorted. rewrite !StronglySorted_app, !StronglySorted_cons. intros (H1 & H2 & H3 & H4).
  split; [|done]. intros y z Hy Hz. apply elem_of_cons in Hz as [->|Hz].
  - by apply (H1 y (a, e)); [|left].
  - apply (H1 y z Hy). by right.
Qed.

Lemma sorted_delete B A x : sorted cmp (B ++ x :: A) -> sorted cmp (B ++ A).
Proof.
  unfold sorted. rewrite !StronglySorted_app, StronglySorted_cons. intros (H1 & H2 & _ & H3).
  split; [|done]. intros y z Hy Hz. apply (H1 y z Hy). by right.
Qed.

(** One call in memory is one call on the abstract map. *)
Definition simulated (fuel : nat) (t : map_t) (l : amap) (c : call) : Prop :=
  exists room t', let s := spec_call cmp room l c in
    do_call anode malloc fuel cmp (Some t) c = Some (fst s, Some t') /\ map_rep cmp t' (snd s) /\
    (plenty anode malloc -> room = true).

Lemma not_plenty m k v : refuses anode malloc m k v -> plenty anode malloc -> False.
Proof. intros [H|[H|H]] [H1 H2]; [by apply (H1 m)|by apply (H2 (blen k))|by apply (H2 (blen v))]. Qed.

Lemma insert_ok fuel t l k v : map_rep cmp t l -> enough fuel (S (length l)) -> simulated fuel t l (Insert k v).
Proof.
  intros (es & Hh & Hso & Hok & Hlen & <-) Hf. rewrite length_view in Hf.
  assert (enough fuel (length es)) as Hf' by (apply (enough_le _ _ _ Hf); lia).
  assert (map_rep cmp t (view es)) as Hrep by (by exists es).
  destruct k as [k|]; [|by exists true, t]. destruct v as [v|]; [|by exists true, t].
  unfold simulated. cbn [do_call spec_call map_insert]. rewrite !length_view.
  destruct (Z.eqb_spec (Z.of_nat (S (length es))) U8_MOD) as [Hfull|Hroom].
  { exists true, t. unfold rb_insert. destruct Hh as (_ & _ & _ & Hsize). rewrite Hsize. unfold u8.
    replace (Z.of_nat (length es) + 1) with U8_MOD by lia. rewrite Z.mod_same by done.
    assert (1 < U8_MOD) by done. by rewrite (proj2 (Z.ltb_lt _ _)) by lia. }
  destruct (search_view fuel t es k v Hh Hso Hf') as [(B & a & e & A & _ & _ & Ees & Hz & Hfind & _)|(p & _ & Hne & Hfind & _)]; rewrite Hfind.
  - exists true, t. rewrite (insert_found_spec cmp anode malloc fuel t es k v Hh Hso Hf'); [by cbn|lia|].
    rewrite Ees. apply Exists_app. right. left. done.
  - destruct (insert_new_spec cmp anode malloc fuel t es k v Han Hma Hh Hso Hf ltac:(lia) Hne)
      as [[Href ->]|(a & B & A & t' & -> & Hfit & -> & Hh')].
    { exists false, t. split; [done|]. split; [done|]. intros Hp. by apply not_plenty in Href. }
    exists true, t'. split; [done|]. split; [|done]. set (x := (a, _)) in Hh'. exists (B ++ x :: A). split; [done|].
    assert (ekey x = k) as Hk by apply slice_all. split; [apply sorted_insert; [done|by rewrite Hk]|].
    apply Forall_app in Hok as [HB HA]. split.
    { apply Forall_app. split; [done|]. constructor; [|done]. unfold entry_ok, x. cbn. pose proof (blen_nonneg v). lia. }
    split; [rewrite length_app in *; cbn; lia|]. apply fits_view in Hfit as [HB' HA']. cbn [snd]. rewrite !view_app.
    destruct (al_skip cmp k v (view B) (view A) HB') as (_ & -> & _). destruct (al_greater cmp k v (view A) HA') as (_ & _ & ->).
    cbn. by rewrite !slice_all.
Qed.

Lemma update_ok fuel t l k v : map_rep cmp t l -> enough fuel (S (length l)) -> simulated fuel t l (Update k v).
Proof.
  intros (es & Hh & Hso & Hok & Hlen & <-) Hf. rewrite length_view in Hf.
  assert (enough fuel (length es)) as Hf' by (apply (enough_le _ _ _ Hf); lia).
  assert (map_rep cmp t (view es)) as Hrep by (by exists es).
  destruct k as [k|]; [|by exists true, t]. destruct v as [v|]; [|by exists true, t].
  unfold simulated. cbn [do_call spec_call map_update]. unfold rb_update.
  destruct (search_view fuel t es k v Hh Hso Hf') as [(B & a & e & A & -> & Ha & Ees & Hz & -> & Hup & _)|(p & -> & _ & -> & _)];
    cbn [mbind option_bind]; [|by exists true, t].
  rewrite (proj2 (Z.eqb_neq a 0)) by done. subst es.
  pose proof Hok as Hok'. apply Forall_app in Hok' as [HB HA]. apply Forall_cons in HA as [He HA]. unfold entry_ok in He. cbn in He.
  destruct (value_spec t B a e A (mk_slice 0 []) Hh) as (n & _ & -> & Hn & _). cbn [mbind option_bind]. rewrite Hn.
  destruct (if s_size (snd e) <? blen v then malloc (blen v) else Some (s_data (snd e))) as [data|] eqn:Ed.
  - assert (blen v <= blen data) as Hle.
    { destruct (Z.ltb_spec (s_size (snd e)) (blen v)); [|injection Ed as <-; lia].
      rewrite (Hma (blen v) data); [lia|apply blen_nonneg|done]. }
    destruct (wr_Some data 0 v) as (data' & Hw); [lia|lia|]. pose proof (wr_inv _ _ _ _ Hw) as [_ Hd].
    pose proof (wr_blen _ _ _ _ Hw) as Hb. rewrite Hw. cbn [mbind option_bind].
    destruct (value_spec t B a e A (mk_slice (blen v) data') Hh) as (n' & m' & _ & _ & -> & Hh'). cbn [mbind option_bind].
    exists true, (mk_map m' (rt t)). split; [done|]. split; [|done]. eexists. split; [exact Hh'|].
    split; [by apply (sorted_same B A a e)|]. split.
    { apply Forall_app. split; [done|]. constructor; [|done]. unfold entry_ok. cbn. pose proof (blen_nonneg v). lia. }
    split; [rewrite !length_app in *; done|]. cbn [snd]. rewrite Hup, view_app. cbn. do 3 f_equal.
    unfold slice_bytes, blen. cbn. rewrite Nat2Z.id, Hd. change (Z.to_nat 0) with 0%nat. rewrite take_0. cbn [app]. by rewrite take_app_length.
  - exists false, t. split; [done|]. split; [done|]. intros [_ Hp]. exfalso.
    destruct (s_size (snd e) <? blen v); [|done]. by apply (Hp (blen v)).
Qed.

(** The map without an entry. *)
Lemma erased_rep B a e A t' :
  sorted cmp (B ++ (a, e) :: A) -> Forall entry_ok (B ++ (a, e) :: A) -> Z.of_nat (length (B ++ (a, e) :: A)) < U8_MOD ->
  holds t' (B ++ A) -> map_rep cmp t' (view (B ++ A)).
Proof.
  intros Hso Hok Hlen Hh. exists (B ++ A). split; [done|]. split; [by apply (sorted_delete B A (a, e))|].
  rewrite Forall_app, Forall_cons in Hok. split; [apply Forall_app; tauto|].
  split; [rewrite !length_app in *; cbn in Hlen; lia|done].
Qed.

Lemma erase_ok fuel t l k : map_rep cmp t l -> enough fuel (S (length l)) -> simulated fuel t l (Erase k).
Proof.
  intros (es & Hh & Hso & Hok & Hlen & <-) Hf. rewrite length_view in Hf.
  assert (enough fuel (length es)) as Hf' by (apply (enough_le _ _ _ Hf); lia).
  assert (map_rep cmp t (view es)) as Hrep by (by exists es).
  destruct k as [k|]; [|by exists true, t].
  unfold simulated. cbn [do_call spec_call map_erase]. unfold rb_erase.
  pose proof Hh as ((tr & H & _ & Hel) & _ & _ & Hsize). pose proof (root_nil _ _ _ H) as Hroot.
  destruct (Z.eqb_spec (r_node (rt t)) 0) as [Hz|Hnz].
  { apply Hroot in Hz. subst tr. cbn in Hel. subst es. by exists true, t. }
  assert (es <> []) as Hne.
  { intros ->. apply Hnz, Hroot. destruct tr; [done|]. cbn in Hel. by apply app_nil in Hel as [_ Hel]. }
  rewrite Hsize, (proj2 (Z.eqb_neq (Z.of_nat _) 0)) by (destruct es; cbn; [done|lia]).
  assert (match view es with [] => -1 | _ => 0 end = 0) as Hret by (by destruct es). rewrite Hret.
  destruct (search_view fuel t es k [] Hh Hso Hf') as [(B & a & e & A & -> & Ha & -> & Hz & _ & _ & Her)|(p & -> & _ & _ & Her)];
    cbn [mbind option_bind]; [|exists true, t; by rewrite Her].
  rewrite (proj2 (Z.eqb_neq a 0)) by done.
  destruct (erase_ex_spec fuel t B a e A Hh Hf' Hlen) as (t' & -> & Hh'). cbn [mbind option_bind].
  exists true, t'. split; [done|]. split; [|done]. cbn [snd]. rewrite Her, <- view_app. by apply (erased_rep B a e A).
Qed.

Lemma find_ok fuel t l k : map_rep cmp t l -> enough fuel (S (length l)) -> simulated fuel t l (Find k).
Proof.
  intros (es & Hh & Hso & Hok & Hlen & <-) Hf. rewrite length_view in Hf.
  assert (enough fuel (length es)) as Hf' by (apply (enough_le _ _ _ Hf); lia).
  exists true, t. cbn [do_call spec_call fst snd]. split; [|split; [by exists es|done]].
  unfold map_find, rb_find. destruct (search_view fuel t es k [] Hh Hso Hf') as [(B & a & e & A & -> & Ha & -> & _ & -> & _)|(p & -> & _ & -> & _)];
    cbn [mbind option_bind]; [|done].
  rewrite (proj2 (Z.eqb_neq a 0)) by done. cbn [negb mbind option_bind Z.eqb].
  destruct (value_spec t B a e A (mk_slice 0 []) Hh) as (n & _ & -> & Hn & _). cbn [mbind option_bind]. by rewrite Hn.
Qed.

Lemma erase_at_ok fuel t l k : map_rep cmp t l -> enough fuel (S (length l)) -> simulated fuel t l (EraseAt k).
Proof.
  intros (es & Hh & Hso & Hok & Hlen & <-) Hf. rewrite length_view in Hf.
  assert (enough fuel (length es)) as Hf' by (apply (enough_le _ _ _ Hf); lia).
  assert (map_rep cmp t (view es)) as Hrep by (by exists es).
  unfold simulated. cbn [do_call spec_call]. unfold map_find, rb_find.
  destruct (search_view fuel t es k [] Hh Hso Hf') as [(B & a & e & A & -> & Ha & -> & Hz & -> & _ & Her)|(p & -> & _ & -> & _)];
    cbn [mbind option_bind]; [|by exists true, t].
  rewrite (proj2 (Z.eqb_neq a 0)) by done. cbn [negb mbind option_bind Z.eqb map_erase_ex].
  destruct (erase_ex_spec fuel t B a e A Hh Hf' Hlen) as (t' & -> & Hh'). cbn [mbind option_bind].
  exists true, t'. split; [done|]. split; [|done]. rewrite Her, <- view_app. by apply (erased_rep B a e A).
Qed.

Lemma call_ok fuel t l c : map_rep cmp t l -> enough fuel (S (length l)) -> simulated fuel t l c.
Proof.
  intros Hrep Hf. destruct c as [k v|k v|k|k|k|].
  - by apply insert_ok.
  - by apply update_ok.
  - by apply erase_ok.
  - by apply erase_at_ok.
  - by apply find_ok.
  - exists true, t. split; [|split; [done|done]]. destruct Hrep as (es & (_ & _ & _ & Hsize) & _ & _ & _ & <-).
    cbn [do_call spec_call fst map_size]. by rewrite Hsize, length_view.
Qed.

(** A call adds one entry at most. *)
Lemma spec_call_length room l c : (length (snd (spec_call cmp room l c)) <= S (length l))%nat.
Proof.
  destruct c as [[k|] [v|]|[k|] [v|]|[k|]|k|k|]; cbn [spec_call snd]; try lia.
  - destruct (_ =? U8_MOD); [cbn; lia|]. destruct (al_find cmp k l); [cbn; lia|]. destruct (al_lengths cmp k v l). destruct room; cbn; lia.
  - destruct (al_find cmp k l); [|cbn; lia]. destruct (al_lengths cmp k v l) as (_ & ? & _). destruct room; cbn; lia.
  - destruct (al_lengths cmp k [] l) as (_ & _ & ?). lia.
  - destruct (al_lengths cmp k [] l) as (_ & _ & ?). destruct (al_find cmp k l); cbn; lia.
Qed.

Lemma spec_calls_length rooms l cs : (length (snd (spec_calls cmp rooms l cs)) <= length l + length cs)%nat.
Proof.
  revert rooms l. induction cs as [|c cs IH]; intros rooms l; [cbn; lia|]. destruct rooms as [|room rooms]; [cbn; lia|].
  cbn [spec_calls length]. pose proof (spec_call_length room l c). destruct (spec_call cmp room l c) as [r l'].
  specialize (IH rooms l'). destruct (spec_calls cmp rooms l' cs). cbn in *. lia.
Qed.

End refinement.

(** The allocators of a call keep their promises; a call whose allocators never fail is not refused. *)
Definition acall_ok (c : acall) : Prop := let '(anode, malloc, _) := c in node_alloc_ok anode /\ malloc_ok malloc.

Definition roomy (c : acall) (room : bool) : Prop := let '(anode, malloc, _) := c in plenty anode malloc -> room = true.

Lemma calls_ok cmp `{!KeyOrder cmp} fuel cs : forall t l,
  Forall acall_ok cs -> map_rep cmp t l -> enough fuel (length l + length cs) ->
  exists rooms t', Forall2 roomy cs rooms /\
    do_calls fuel cmp (Some t) cs = Some (fst (spec_calls cmp rooms l (snd <$> cs)), Some t') /\
    map_rep cmp t' (snd (spec_calls cmp rooms l (snd <$> cs))).
Proof.
  induction cs as [|[[anode malloc] c] cs IH]; intros t l Hok Hrep Hf; [by exists [], t|]. cbn [length] in Hf.
  apply Forall_cons in Hok as [[Han Hma] Hok].
  destruct (call_ok cmp anode malloc Han Hma fuel t l c Hrep) as (room & t1 & H1 & Hrep1 & Hp1);
    [apply (enough_le _ _ _ Hf); lia|].
  destruct (IH t1 _ Hok Hrep1) as (rooms & t2 & Hp & H2 & Hrep2).
  { apply (enough_le _ _ _ Hf). pose proof (spec_call_length cmp room l c). lia. }
  exists (room :: rooms), t2. split; [by constructor|]. cbn [do_calls spec_calls fmap list_fmap snd]. rewrite H1.
  cbn [mbind option_bind]. rewrite H2. cbn [mbind option_bind]. destruct (spec_call cmp room l c) as [r l'].
  cbn [fst snd] in *. by destruct (spec_calls cmp rooms l' _) as [rs l''].
Qed.

(** ** Start, end and iteration *)

Lemma init_rep cmp : map_rep cmp (mk_map ∅ (mk_root 0 0 0 0)) [].
Proof.
  exists []. split; [|split; [constructor|split; [constructor|done]]].
  split; [|done]. exists RbTree.E. cbn [mem rt r_node]. split; [|split; [split; [done|by exists 0%nat]|done]].
  constructor; [done|done|constructor|constructor|]. intros a. rewrite lookup_empty. split; [by intros []|by intros ?%elem_of_nil].
Qed.

Lemma uninit_empty cmp fuel t l : map_rep cmp t l -> enough fuel (length l) -> map_uninit fuel (Some t) = Some ∅.
Proof.
  intros (es & ((tr & H & Hrb & Hel) & _) & _ & _ & _ & <-) Hf. rewrite length_view, <- Hel in Hf.
  pose proof (enough_height _ _ Hf Hrb) as Hh. destruct (place_sub _ _ _ _ H) as (Hok & Hnd & _).
  pose proof (ap_ctx _ _ _ _ H) as Hr. cbn in Hr. unfold map_uninit, rb_free. rewrite Hr.
  destruct (free_nodes_spec tr fuel (mem t) 0 (ap_tree _ _ _ _ H) Hok Hnd) as (m' & -> & Hout & Hin); [lia|]. f_equal.
  apply map_eq. intros a. rewrite lookup_empty. destruct (decide (a ∈ addrs tr)) as [Ha|Ha]; [by apply Hin|].
  rewrite Hout by done. destruct (mem t !! a) eqn:Em; [|done]. exfalso. apply Ha.
  assert (a ∈ all_addrs [] tr) as Hall by (apply H; by rewrite Em). unfold all_addrs in Hall. cbn in Hall. by rewrite app_nil_r in Hall.
Qed.

(** A loop over the map with an iterator: the entries it reads. *)
Fixpoint walk (fuel n : nat) (d : side) (m : option map_t) (it : Z) : option amap :=
  match n with
  | O => None
  | S n =>
      if map_is_end m (Some it) =? 0 then Some []
      else
        t ← m; nd ← mem t !! it;
        '(_, it) ← map_step fuel d m (Some it);
        rest ← walk fuel n d m it; Some ((slice_bytes (key nd), slice_bytes (value nd)) :: rest)
  end.

(** One turn of the loop. *)
Lemma walk_step fuel n d t B a e A :
  holds t (B ++ (a, e) :: A) -> enough fuel (length (B ++ (a, e) :: A)) ->
  walk fuel (S n) d (Some t) a =
  (rest ← walk fuel n d (Some t) (end_of (opp d) (beyond d B A));
   Some ((slice_bytes (fst e), slice_bytes (snd e)) :: rest)).
Proof.
  intros Hh Hf. pose proof Hh as ((tr & H & _ & Hel) & _).
  destruct (place_entry (mem t) _ tr a e H) as (Ha & nd & Hn & Hk & Hv); [rewrite Hel; set_solver|].
  cbn [walk map_is_end]. rewrite (proj2 (Z.eqb_neq a 0)) by done. cbn [negb Z.eqb mbind option_bind]. rewrite Hn.
  cbn [mbind option_bind]. unfold map_step. rewrite (proj2 (Z.eqb_neq a 0)) by done.
  rewrite (proj2 (Z.eqb_neq (r_node (rt t)) 0)).
  2:{ intros Hz. apply (root_nil _ _ _ H) in Hz as ->. by destruct B. }
  rewrite (node_step_spec fuel d t B a e A Hh Hf). cbn [mbind option_bind]. by rewrite Hk, Hv.
Qed.

Lemma walk_right fuel t : forall A B n,
  holds t (B ++ A) -> enough fuel (length (B ++ A)) -> (length A < n)%nat ->
  walk fuel n RIGHT (Some t) (end_of LEFT A) = Some (view A).
Proof.
  induction A as [|[a e] A IH]; intros B n Hh Hf Hn; (destruct n as [|n]; [lia|]); [done|]. cbn in Hn.
  cbn [end_of head fst]. rewrite (walk_step fuel n RIGHT t B a e A Hh Hf). cbn [opp beyond].
  assert (B ++ (a, e) :: A = (B ++ [(a, e)]) ++ A) as Heq by (by rewrite <- app_assoc). rewrite Heq in Hh, Hf.
  rewrite (IH _ n Hh Hf) by lia. done.
Qed.

Lemma walk_left fuel t : forall B A n,
  holds t (B ++ A) -> enough fuel (length (B ++ A)) -> (length B < n)%nat ->
  walk fuel n LEFT (Some t) (end_of RIGHT B) = Some (reverse (view B)).
Proof.
  induction B as [|[a e] B IH] using rev_ind; intros A n Hh Hf Hn; (destruct n as [|n]; [lia|]); [done|].
  rewrite length_app in Hn. cbn in Hn. rewrite end_of_snoc. rewrite <- app_assoc in Hh, Hf.
  rewrite (walk_step fuel n LEFT t B a e A Hh Hf). cbn [opp beyond]. rewrite (IH _ n Hh Hf) by lia.
  cbn [mbind option_bind]. by rewrite view_app, reverse_app.
Qed.

(** ** A comparison and allocators *)

(** The next multiple of 4 past the memory in use. *)
Definition anode_top : node_alloc := fun m => Some (4 * (top_addr m + 1)).

Lemma anode_top_ok : node_alloc_ok anode_top.
Proof.
  intros m a [= <-]. destruct (top_addr_le m) as [H1 H2]. split.
  - split; [lia|]. rewrite Z.mul_comm. by apply Z.mod_mul.
  - destruct (m !! _) eqn:E; [|done]. specialize (H2 _ (mk_is_Some _ _ E)). lia.
Qed.

Lemma plenty_top : plenty anode_top malloc_zero.
Proof. split; intros x Hx; discriminate Hx. Qed.

(** ** The component *)

(** C1. The map of lisk_map.c refines a sorted association list.  From [map_init],
    any sequence of insert, update, erase (by key or through a found value), find and
    size, with nil arguments too, each with allocators of its own,
    returns what the association list returns, whatever comparison orders the
    keys; an insertion or an update may be refused for want of memory, and then
    changes nothing, and none is whose allocators never fail.  Twice the
    logarithm of the number of calls is fuel enough for every loop of every call.
    [map_uninit] then frees every node.  The codes are those of lisk_map.c: lisk_map.h promises
    -2 for an insertion that fails and for updating or erasing a key that is not there, which answer -1, -1
    and 0 (-1 when the map is empty), and 0 or -1 for finding one, which answers -2. *)
Theorem map_refines_sorted (cmp : compare) (fuel : nat) (cs : list acall) :
  KeyOrder cmp -> Forall acall_ok cs -> enough fuel (length cs) ->
  exists m rooms m', map_init true false false = (0, Some m) /\ Forall2 roomy cs rooms /\
    do_calls fuel cmp (Some m) cs = Some (fst (spec_calls cmp rooms [] (snd <$> cs)), Some m') /\
    map_uninit fuel (Some m') = Some ∅.
Proof.
  intros Hcmp Hok Hf.
  destruct (calls_ok cmp fuel cs _ [] Hok (init_rep cmp) Hf) as (rooms & m' & Hp & Hrun & Hrep).
  eexists _, rooms, m'. split; [reflexivity|]. do 2 (split; [done|]). apply (uninit_empty cmp fuel m' _ Hrep).
  apply (enough_le _ _ _ Hf). rewrite <- (length_fmap snd cs). apply (spec_calls_length cmp rooms [] (snd <$> cs)).
Qed.

(** Nine keys in an order that turns the tree both ways, then erasures from both ends and the middle. *)
Definition sample_calls : list call :=
  ((fun k => Insert (Some [k]) (Some [k; k])) <$> [50; 20; 80; 10; 30; 25; 27; 90; 85]) ++
  [Insert (Some [30]) (Some [7]); Update (Some [30]) (Some [1; 2; 3]); Find [30]; Erase (Some [10]); Erase (Some [50]);
   EraseAt [90]; EraseAt [11]; Find [50]; Erase (Some [99]); Update (Some [99]) (Some []); Insert None (Some []); Size].

Definition with_memory (c : call) : acall := (anode_top, malloc_zero, c).

(** The last insertion finds no memory, and neither does an update. *)
Definition sample_acalls : list acall :=
  (with_memory <$> sample_calls) ++
  [(anode_top, malloc_fail, Insert (Some [1]) (Some [1])); (anode_top, malloc_fail, Update (Some [80]) (Some [1; 2; 3]));
   with_memory (Find [80])].

Lemma with_memory_ok cs : Forall acall_ok (with_memory <$> cs).
Proof. apply Forall_fmap, Forall_forall. intros c _. split; [apply anode_top_ok|apply malloc_zero_ok]. Qed.

Lemma sample_acalls_ok : Forall acall_ok sample_acalls.
Proof.
  apply Forall_app. split; [apply with_memory_ok|].
  repeat (constructor; [split; [apply anode_top_ok|first [apply malloc_fail_ok | apply malloc_zero_ok]]|]). constructor.
Qed.

Lemma map_refines_sorted_witness :
  exists m rooms m', map_init true false false = (0, Some m) /\ Forall2 roomy sample_acalls rooms /\
    do_calls 13 lex_cmp (Some m) sample_acalls =
      Some (fst (spec_calls lex_cmp rooms [] (snd <$> sample_acalls)), Some m') /\
    map_uninit 13 (Some m') = Some ∅.
Proof.
  apply (map_refines_sorted lex_cmp 13 sample_acalls);
    [apply lex_order|apply sample_acalls_ok|unfold enough; vm_compute; lia].
Defined.

(** The same calls evaluated. *)
Example sample_calls_run :
  fst <$> do_calls 13 lex_cmp (Some (mk_map ∅ (mk_root 0 0 0 0))) sample_acalls =
  Some (replicate 9 (Ret 0) ++
    [Ret 0; Ret 0; Got 0 (Some [1; 2; 3]); Ret 0; Ret 0; Ret 0; Ret (-2); Got (-2) None; Ret 0; Ret (-1); Ret (-1);
     Count 0 (Some 6); Ret (-1); Ret (-1); Got 0 (Some [80; 80])]).
Proof. vm_compute. reflexivity. Qed.

(** The invariant of a map in memory: a tree of nodes, and no other node, linked
    both ways, red-black with a black root, in the order of the keys, with its
    ends and its size in the root record. *)
Definition rb_map (cmp : compare) (t : map_t) : Prop :=
  exists tr, at_place (mem t) (r_node (rt t)) [] tr /\ is_black tr /\ (exists n, rbt tr n) /\ sorted cmp (elems tr) /\
    r_min (rt t) = end_of LEFT (elems tr) /\ r_max (rt t) = end_of RIGHT (elems tr) /\
    r_size (rt t) = Z.of_nat (length (elems tr)) /\ Z.of_nat (length (elems tr)) < U8_MOD /\ Forall entry_ok (elems tr).

Lemma rb_map_rep cmp t : rb_map cmp t <-> exists l, map_rep cmp t l /\ Z.of_nat (length l) = r_size (rt t).
Proof.
  split.
  - intros (tr & H1 & H2 & H3 & H4 & H5 & H6 & H7 & H8 & H9). exists (view (elems tr)). rewrite length_view. split; [|done].
    exists (elems tr). split; [|done]. by split; [exists tr|].
  - intros (l & (es & ((tr & H1 & [H2 H3] & <-) & H4 & H5 & H6) & H7 & H8 & H9 & _) & _). by exists tr.
Qed.

(** C7. Every call keeps the map a red-black tree in order: a node is red only
    below and above black ones, the black nodes on every path are as many, the
    parent links, the two ends and the size are those of the tree.  So no entry
    is deeper than twice the logarithm of the size. *)
Theorem map_invariant (cmp : compare) (anode : node_alloc) (malloc : malloc_fun) (fuel : nat) (t : map_t) (c : call) :
  KeyOrder cmp -> node_alloc_ok anode -> malloc_ok malloc -> rb_map cmp t ->
  enough fuel (S (Z.to_nat (r_size (rt t)))) ->
  exists r t', do_call anode malloc fuel cmp (Some t) c = Some (r, Some t') /\ rb_map cmp t' /\
    exists tr, at_place (mem t') (r_node (rt t')) [] tr /\
      (height tr <= 2 * Nat.log2 (S (Z.to_nat (r_size (rt t')))))%nat.
Proof.
  intros Hcmp Han Hma (l & Hrep & Hl)%rb_map_rep Hf. rewrite <- Hl, Nat2Z.id in Hf.
  destruct (call_ok cmp anode malloc Han Hma fuel t l c Hrep Hf) as (room & t' & Hrun & Hrep' & _).
  destruct Hrep' as (es & ((tr & H1 & [H2 [n H3]] & Hel) & H4 & H5 & H6) & H7 & H8 & H9 & _). subst es.
  eexists _, t'. split; [exact Hrun|]. split; [exists tr; by eauto 10|]. exists tr. split; [done|].
  rewrite H6, Nat2Z.id. by apply (rbt_height_log tr n).
Qed.

(** A map of four entries, made by insertions. *)
Definition sample_map : map_t :=
  default (mk_map ∅ (mk_root 0 0 0 0))
    (do_calls 13 lex_cmp (Some (mk_map ∅ (mk_root 0 0 0 0)))
       ((fun k => with_memory (Insert (Some [k]) (Some [k; k]))) <$> [50; 20; 80; 10]) ≫= snd).

Lemma sample_map_rep : map_rep lex_cmp sample_map ((fun k => ([k], [k; k])) <$> [10; 20; 50; 80]).
Proof.
  set (cs := (fun k => with_memory (Insert (Some [k]) (Some [k; k]))) <$> [50; 20; 80; 10]).
  destruct (calls_ok lex_cmp 13 cs _ [] (with_memory_ok (map (fun k => Insert (Some [k]) (Some [k; k])) [50; 20; 80; 10]))
    (init_rep lex_cmp)) as (rooms & t' & Hp & Hrun & Hrep).
  { unfold enough. vm_compute. lia. }
  assert (rooms = replicate 4 true) as ->.
  { unfold cs in Hp. cbn [fmap list_fmap] in Hp. repeat (apply Forall2_cons_inv_l in Hp as (? & ? & Hr & Hp & ->);
      specialize (Hr plenty_top); subst). by apply Forall2_nil_inv_l in Hp as ->. }
  unfold sample_map. fold cs. rewrite Hrun. exact Hrep.
Qed.

Lemma map_invariant_witness :
  exists r t', do_call anode_top malloc_zero 13 lex_cmp (Some sample_map) (Erase (Some [80])) = Some (r, Some t') /\ rb_map lex_cmp t' /\
    exists tr, at_place (mem t') (r_node (rt t')) [] tr /\
      (height tr <= 2 * Nat.log2 (S (Z.to_nat (r_size (rt t')))))%nat.
Proof.
  apply (map_invariant lex_cmp anode_top malloc_zero 13 sample_map (Erase (Some [80])));
    [apply lex_order|apply anode_top_ok|apply malloc_zero_ok| |unfold enough; vm_compute; lia].
  apply rb_map_rep. eexists. split; [apply sample_map_rep|vm_compute; reflexivity].
Defined.

(** Iteration visits every entry once, in the order of the keys with
    [map_begin] and [map_next], in the opposite order with [map_rbegin] and
    [map_rnext], and then reaches the end; an empty map has no first entry. *)
Theorem map_iterates (cmp : compare) (fuel : nat) (t : map_t) (l : amap) (d : side) :
  map_rep cmp t l -> enough fuel (length l) ->
  if l is [] then map_first d (Some t) false = (-2, 0)
  else exists it, map_first d (Some t) false = (0, it) /\
    walk fuel (S (length l)) (opp d) (Some t) it = Some (match d with LEFT => l | RIGHT => reverse l end).
Proof.
  intros (es & Hh & _ & _ & _ & <-) Hf. rewrite length_view in *.
  pose proof Hh as ((tr & H & _ & Hel) & Hmin & Hmax & _). pose proof (root_nil _ _ _ H) as Hroot.
  destruct es as [|x es'] eqn:Ees.
  - cbn. rewrite (proj2 (Z.eqb_eq _ 0)); [done|]. apply Hroot. destruct tr; [done|]. cbn in Hel. by apply app_nil in Hel as [_ Hel].
  - cbn [view fmap list_fmap]. cbn [map_first]. rewrite (proj2 (Z.eqb_neq (r_node (rt t)) 0)).
    2:{ intros Hz. apply Hroot in Hz as ->. done. }
    eexists. split; [reflexivity|]. rewrite <- Ees in *. destruct d; cbn [opp].
    + rewrite Hmin. rewrite (walk_right fuel t es [] _ Hh Hf) by lia. by rewrite Ees.
    + rewrite Hmax. rewrite <- (app_nil_r es) in Hh, Hf. rewrite (walk_left fuel t es [] _ Hh Hf) by lia. by rewrite Ees.
Qed.

Lemma map_iterates_witness :
  exists it, map_first RIGHT (Some sample_map) false = (0, it) /\
    walk 13 5 LEFT (Some sample_map) it = Some (reverse ((fun k => ([k], [k; k])) <$> [10; 20; 50; 80])).
Proof.
  apply (map_iterates lex_cmp 13 sample_map _ RIGHT sample_map_rep). unfold enough. vm_compute. lia.
Defined.

End MapSpec.
