(* ===== verification/LiskSkiplist.v ===== *)
(** * lisk_skiplist.c: a skip list

    Nodes at addresses, each with its array of forward pointers; an entry of the
    array that was never written is [None], and so is a read of it.  The keys are
    in decreasing order of the comparison, which the searches test with
    [cmp(key, cur -> key) < 0].  The numbers [rand] returns are an argument. *)

From Stdlib Require Import Sorted.
From stdpp Require Import sorting.
From S2P Require Import Prelude AssocMap.

Module Skip.
Export AMap.

Definition SKIP_LIST_MAX_LEVEL : nat := 32.
Definition SKIP_LIST_TOP : Z := 16383.

Record node_t := mk_node { key : slice_t; value : slice_t; next : list (option Z) }.

Abbreviation smem := (gmap Z node_t).

(** [cmp] is the argument of the operations. *)
Record skip_list_t := mk_skip { level : nat; tail : Z; header : Z }.

(** A list: its nodes and its record. *)
Record skip_t := mk_state { mem : smem; list : skip_list_t }.

(** [malloc] of a node with the bytes of its pointers unset. *)
Definition node_alloc : Type := smem -> option Z.
Definition nil_slice : slice_t := mk_slice 0 [].
Definition new_node (k v : slice_t) (level : nat) : node_t := mk_node k v (replicate (S level) None).

Definition get_next (m : smem) (a : Z) (i : nat) : option Z := n ← m !! a; p ← next n !! i; p.
Definition set_next (m : smem) (a : Z) (i : nat) (p : Z) : option smem :=
  n ← m !! a;
  if decide (i < length (next n))%nat then Some (<[a := mk_node (key n) (value n) (<[i := Some p]> (next n))]> m) else None.

Definition with_level (l : skip_list_t) (n : nat) : skip_list_t := mk_skip n (tail l) (header l).

(** ** Start and end *)

Definition skip_list_init (anode : node_alloc) (ok : bool) (nil_arg : bool) : Z * option skip_t :=
  if nil_arg then (-1, None)
  else match anode ∅ with
  | None => (-2, None)
  | Some tail =>
      let m := <[tail := mk_node nil_slice nil_slice [Some 0]]> ∅ in
      if negb ok then (-2, None)
      else match anode m with
      | None => (-2, None)
      | Some header =>
          let nx := replicate SKIP_LIST_MAX_LEVEL (Some tail) ++ [None] in
          (0, Some (mk_state (<[header := mk_node nil_slice nil_slice nx]> m) (mk_skip 0 tail header)))
      end
  end.

Fixpoint free_nodes (fuel : nat) (m : smem) (node : Z) : option smem :=
  match fuel with
  | O => None
  | S f => if node =? 0 then Some m else p ← get_next m node 0; free_nodes f (delete node m) p
  end.

Definition skip_list_uninit (fuel : nat) (l : option skip_t) : option smem :=
  match l with None => Some ∅ | Some l => free_nodes fuel (mem l) (header (list l)) end.

(** The draws left after the last one of a level. *)
Fixpoint draw (rs : Datatypes.list Z) (n : nat) : option nat :=
  match rs with
  | [] => None
  | r :: rs => if Z.land r 0xFFFF <? SKIP_LIST_TOP then draw rs (S n) else Some n
  end.

Definition get_node_level (rs : Datatypes.list Z) : option nat :=
  n ← draw rs 0; Some (if decide (SKIP_LIST_MAX_LEVEL < n)%nat then SKIP_LIST_MAX_LEVEL else n).

(** ** Searching *)

(** Along one level, past the keys above the one sought. *)
Fixpoint forward (fuel : nat) (cmp : compare) (m : smem) (tail : Z) (k : bytes) (level : nat) (pre : Z) : option (Z * Z) :=
  match fuel with
  | O => None
  | S f =>
      cur ← get_next m pre level;
      if cur =? tail then Some (pre, cur)
      else
        n ← m !! cur;
        if cmp k (slice_bytes (key n)) <? 0 then forward f cmp m tail k level cur else Some (pre, cur)
  end.

(** Down the levels: the last node of each, by level, and the node reached.
    [bound] is the length of the array they are stored in. *)
Fixpoint descend (fuel : nat) (cmp : compare) (m : smem) (tail : Z) (k : bytes) (bound : option nat) (level : nat) (pre : Z)
  : option (Datatypes.list Z * Z) :=
  '(pre, cur) ← forward fuel cmp m tail k level pre;
  if (if bound is Some b then bool_decide (b <= level)%nat else false) then None
  else match level with
  | O => Some ([pre], cur)
  | S level => '(up, cur) ← descend fuel cmp m tail k bound level pre; Some (up ++ [pre], cur)
  end.

Definition search (fuel : nat) (cmp : compare) (l : skip_t) (k : bytes) (bound : option nat) : option (Datatypes.list Z * Z) :=
  descend fuel cmp (mem l) (tail (list l)) k bound (level (list l)) (header (list l)).

(** [IS_NEQ(cur, list -> tail) && IS_ZR(...)], the two ways its comparison is written. *)
Definition same_key (cmp : compare) (l : skip_t) (cur : Z) (k : bytes) : option bool :=
  if cur =? tail (list l) then Some false
  else n ← mem l !! cur; Some (cmp (slice_bytes (key n)) k =? 0).

Definition same_key' (cmp : compare) (l : skip_t) (cur : Z) (k : bytes) : option bool :=
  if cur =? tail (list l) then Some false
  else n ← mem l !! cur; Some (cmp k (slice_bytes (key n)) =? 0).

(** The value is given by its node; nil is 0. *)
Definition skip_list_find (fuel : nat) (cmp : compare) (l : option skip_t) (k : option bytes) (value_nil : bool) : option (Z * Z) :=
  match l, k with
  | Some l, Some k =>
      if value_nil then Some (-1, 0)
      else
        '(_, cur) ← search fuel cmp l k None;
        same ← same_key cmp l cur k;
        Some (if negb same then (-2, 0) else (0, cur))
  | _, _ => Some (-1, 0)
  end.

(** ** Inserting *)

(** The new node goes in after the last node of each of its levels. *)
Definition link_level (m : smem) (up : Datatypes.list Z) (cur : Z) (level : nat) : option smem :=
  pre ← up !! level;
  p ← get_next m pre level;
  m ← set_next m cur level p;
  set_next m pre level cur.

Fixpoint link (m : smem) (up : Datatypes.list Z) (cur : Z) (level : nat) : option smem :=
  m ← link_level m up cur level;
  match level with O => Some m | S level => link m up cur level end.

(** The node with copies of the key and the value, or none. *)
Definition make_node (anode : node_alloc) (malloc : malloc_fun) (m : smem) (k v : bytes) (level : nat) : option (option (Z * smem)) :=
  match anode m with
  | None => Some None
  | Some a =>
      match malloc (blen k) with
      | None => Some None
      | Some kd =>
          kd ← wr kd 0 k;
          match malloc (blen v) with
          | None => Some None
          | Some vd =>
              vd ← wr vd 0 v;
              Some (Some (a, <[a := new_node (mk_slice (blen k) kd) (mk_slice (blen v) vd) level]> m))
          end
      end
  end.

(** A level for a new node; a level above the list's is the next one. *)
Definition raise_level (rs : Datatypes.list Z) (l : skip_list_t) (up : Datatypes.list Z)
  : option (nat * skip_list_t * Datatypes.list Z) :=
  lv ← get_node_level rs;
  if decide (level l < lv)%nat then
    let lv := S (level l) in
    if decide (lv < SKIP_LIST_MAX_LEVEL)%nat then Some (lv, with_level l lv, up ++ [header l]) else None
  else Some (lv, l, up).

(** The second half of [skip_list_insert] and [skip_list_update]; [ret] is what they return. *)
Definition insert_node (anode : node_alloc) (malloc : malloc_fun) (rs : Datatypes.list Z) (l : skip_t) (up : Datatypes.list Z)
  (k v : bytes) (ret : Z) : option (Z * skip_t) :=
  '(lv, sl, up) ← raise_level rs (list l) up;
  new ← make_node anode malloc (mem l) k v lv;
  match new with
  | None => Some (-2, mk_state (mem l) sl)
  | Some (cur, m) => m ← link m up cur lv; Some (ret, mk_state m sl)
  end.

Definition skip_list_insert (anode : node_alloc) (malloc : malloc_fun) (rs : Datatypes.list Z) (fuel : nat) (cmp : compare)
  (l : option skip_t) (k v : option bytes) : option (Z * option skip_t) :=
  match l, k, v with
  | Some l, Some k, Some v =>
      '(up, cur) ← search fuel cmp l k (Some SKIP_LIST_MAX_LEVEL);
      same ← same_key cmp l cur k;
      if same : bool then Some (-3, Some l)
      else '(r, l) ← insert_node anode malloc rs l up k v 0; Some (r, Some l)
  | _, _, _ => Some (-1, l)
  end.

(** ** Updating *)

(** The code asks for the old size when the new one is greater, and copies as
    many bytes as the key has. *)
Definition update_value (malloc : malloc_fun) (m : smem) (cur : Z) (v : bytes) : option (Z * smem) :=
  n ← m !! cur;
  match (if s_size (value n) <? blen v then malloc (s_size (value n)) else Some (s_data (value n))) with
  | None => Some (-2, m)
  | Some data =>
      src ← rd v 0 (s_size (key n));
      data ← wr data 0 src;
      Some (0, <[cur := mk_node (key n) (mk_slice (blen v) data) (next n)]> m)
  end.

Definition skip_list_update (anode : node_alloc) (malloc : malloc_fun) (rs : Datatypes.list Z) (fuel : nat) (cmp : compare)
  (l : option skip_t) (k v : option bytes) : option (Z * option skip_t) :=
  match l, k, v with
  | Some l, Some k, Some v =>
      '(up, cur) ← search fuel cmp l k (Some SKIP_LIST_MAX_LEVEL);
      same ← same_key cmp l cur k;
      if same : bool then '(r, m) ← update_value malloc (mem l) cur v; Some (r, Some (mk_state m (list l)))
      else '(r, l) ← insert_node anode malloc rs l up k v 1; Some (r, Some l)
  | _, _, _ => Some (-1, l)
  end.

(** ** Erasing *)

(** The node leaves the levels it is on, from the lowest.  [up] are the entries of [update] that were set, up
    to the level of the list; the loop reads the entry behind them before it tests the level, and [update] has
    SKIP_LIST_MAX_LEVEL. *)
Fixpoint unlink (m : smem) (up : Datatypes.list Z) (cur : Z) (level : nat) : option smem :=
  match up with
  | [] => if decide (level < SKIP_LIST_MAX_LEVEL)%nat then Some m else None
  | pre :: up =>
      p ← get_next m pre level;
      if p =? cur then q ← get_next m cur level; m ← set_next m pre level q; unlink m up cur (S level) else Some m
  end.

(** The levels left without nodes are given up. *)
Fixpoint lower (m : smem) (header tail : Z) (top : nat) : option nat :=
  match top with
  | O => Some O
  | S top' => p ← get_next m header top; if p =? tail then lower m header tail top' else Some top
  end.

Definition skip_list_erase (fuel : nat) (cmp : compare) (l : option skip_t) (k : option bytes) : option (option skip_t) :=
  match l, k with
  | Some l, Some k =>
      '(up, cur) ← search fuel cmp l k (Some SKIP_LIST_MAX_LEVEL);
      same ← same_key' cmp l cur k;
      if same : bool then
        m ← unlink (mem l) up cur 0;
        let m := delete cur m in
        top ← lower m (header (list l)) (tail (list l)) (level (list l));
        Some (Some (mk_state m (with_level (list l) top)))
      else Some (Some l)
  | _, _ => Some l
  end.

(** ** The list in memory *)

(** A node of the list: its address, the number of its highest level, its entry. *)
Record item := mk_item { ia : Z; ih : nat; ik : slice_t; iv : slice_t }.

(** The addresses of level [i]. *)
Fixpoint lvl (i : nat) (l : Datatypes.list item) : Datatypes.list Z :=
  match l with [] => [] | x :: l => if decide (i <= ih x)%nat then ia x :: lvl i l else lvl i l end.

(** The pointers of level [i] from [a] lead through [xs] to [t]. *)
Fixpoint chain (m : smem) (i : nat) (t a : Z) (xs : Datatypes.list Z) : Prop :=
  match xs with [] => get_next m a i = Some t | x :: xs => get_next m a i = Some x /\ chain m i t x xs end.

(** The last address of [xs], or [a] when there is none. *)
Fixpoint lastd (a : Z) (xs : Datatypes.list Z) : Z := match xs with [] => a | x :: xs => lastd x xs end.

Definition headd (t : Z) (xs : Datatypes.list Z) : Z := match xs with [] => t | x :: _ => x end.

Lemma lvl_app i l l' : lvl i (l ++ l') = lvl i l ++ lvl i l'.
Proof. induction l as [|x l IH]; cbn; [done|]. destruct (decide (i <= ih x)%nat); cbn; by rewrite IH. Qed.

Lemma lvl_0 l : lvl 0 l = ia <$> l.
Proof. induction l as [|x l IH]; cbn; [done|]. by rewrite IH. Qed.

Lemma lvl_in i l a : a ∈ lvl i l -> a ∈ ia <$> l.
Proof.
  induction l as [|x l IH]; cbn; [done|]. destruct (decide (i <= ih x)%nat); [rewrite !elem_of_cons|rewrite elem_of_cons]; tauto.
Qed.

Lemma lvl_nodup i l : NoDup (ia <$> l) -> NoDup (lvl i l).
Proof.
  induction l as [|x l IH]; cbn; [done|]. intros [Hx Hl]%NoDup_cons. destruct (decide (i <= ih x)%nat); [|by apply IH].
  constructor; [|by apply IH]. intros Hin. by apply Hx, (lvl_in i).
Qed.

Lemma lastd_app a xs ys : lastd a (xs ++ ys) = lastd (lastd a xs) ys.
Proof. revert a. induction xs as [|x xs IH]; intros a; [done|]. apply IH. Qed.

Lemma lastd_in a xs : lastd a xs ∈ a :: xs.
Proof. revert a. induction xs as [|x xs IH]; intros a; [by left|]. right. apply IH. Qed.

Lemma chain_app m i t a xs ys : chain m i t a (xs ++ ys) <-> chain m i (headd t ys) a xs /\ chain m i t (lastd a xs) ys.
Proof.
  revert a. induction xs as [|x xs IH]; intros a; cbn; [|rewrite IH; tauto]. destruct ys as [|y ys]; cbn; tauto.
Qed.

Lemma chain_head m i t a xs : chain m i t a xs -> get_next m a i = Some (headd t xs).
Proof. destruct xs; cbn; tauto. Qed.

Lemma chain_ext m m' i t a xs :
  (forall b, b ∈ a :: xs -> get_next m' b i = get_next m b i) -> chain m i t a xs -> chain m' i t a xs.
Proof.
  revert a. induction xs as [|x xs IH]; intros a He; cbn; rewrite He by (by left); [done|].
  intros [H1 H2]. split; [done|]. apply IH; [|done]. intros b Hb. apply He. by right.
Qed.

(** A new address in a level. *)
Lemma chain_insert m m' i t a xs ys b :
  chain m i t a (xs ++ ys) -> NoDup (a :: xs ++ ys) -> b ∉ a :: xs ++ ys ->
  get_next m' b i = Some (headd t ys) -> get_next m' (lastd a xs) i = Some b ->
  (forall c, c <> b -> c <> lastd a xs -> get_next m' c i = get_next m c i) ->
  chain m' i t a (xs ++ b :: ys).
Proof.
  intros H Hnd Hb Hb' Ha' Hs. apply chain_app in H as [H1 H2]. apply chain_app.
  assert (forall c, c ∈ ys -> c <> lastd a xs) as Hys.
  { intros c Hc ->. rewrite app_comm_cons in Hnd. apply NoDup_app in Hnd as (_ & Hd & _). apply (Hd (lastd a xs)); [apply lastd_in|done]. }
  split.
  - clear H2 Hys. revert a H1 Hnd Hb Ha' Hs. induction xs as [|x xs IH]; intros a H1 Hnd Hb Ha' Hs; cbn in *; [done|].
    destruct H1 as [H1 H2]. split.
    + rewrite Hs; [done|set_solver|]. intros Hx. apply NoDup_cons in Hnd as [Ha _]. apply Ha. rewrite Hx.
      rewrite app_comm_cons. apply elem_of_app. left. apply lastd_in.
    + apply IH; [done|by apply NoDup_cons in Hnd as [_ ?]|set_solver|done|done].
  - cbn [chain]. split; [done|]. destruct ys as [|y ys]; cbn in *; [done|]. destruct H2 as [H2 H3]. split; [done|].
    apply (chain_ext m); [|done]. intros c Hc. apply Hs; [|by apply Hys]. set_solver.
Qed.

(** An address out of a level. *)
Lemma chain_delete m m' i t a xs ys b :
  chain m i t a (xs ++ b :: ys) -> NoDup (a :: xs ++ b :: ys) ->
  get_next m' (lastd a xs) i = Some (headd t ys) ->
  (forall c, c <> b -> c <> lastd a xs -> get_next m' c i = get_next m c i) ->
  chain m' i t a (xs ++ ys).
Proof.
  intros H Hnd Ha' Hs. apply chain_app in H as [H1 [_ H2]]. apply chain_app.
  assert (forall c, c ∈ ys -> c <> lastd a xs /\ c <> b) as Hys.
  { intros c Hc. rewrite app_comm_cons in Hnd. apply NoDup_app in Hnd as (_ & Hd & Hnd). split.
    - intros ->. apply (Hd (lastd a xs)); [apply lastd_in|by right].
    - intros ->. by apply NoDup_cons in Hnd as [? _]. }
  split.
  - clear H2 Hys. revert a H1 Hnd Ha' Hs. induction xs as [|x xs IH]; intros a H1 Hnd Ha' Hs; cbn in *; [done|].
    destruct H1 as [H1 H2]. split.
    + apply NoDup_cons in Hnd as [Ha _]. rewrite Hs; [done|set_solver|]. intros Hx. apply Ha. rewrite Hx.
      rewrite app_comm_cons. apply elem_of_app. left. apply lastd_in.
    + apply IH; [done|by apply NoDup_cons in Hnd as [_ ?]|done|done].
  - destruct ys as [|y ys]; cbn in *; [done|]. split; [done|]. destruct H2 as [_ H3].
    apply (chain_ext m); [|done]. intros c Hc. destruct (Hys c Hc). by apply Hs.
Qed.

(** The contents of a node but for its pointers. *)
Definition shape (m : smem) (a : Z) : option (slice_t * slice_t * nat) :=
  (fun n => (key n, value n, length (next n))) <$> m !! a.

(** The memory holds the list [l], its header and its tail, and nothing else. *)
Record rep (m : smem) (s : skip_list_t) (l : Datatypes.list item) : Prop := {
  rp_nodes : forall x, x ∈ l -> shape m (ia x) = Some (ik x, iv x, S (ih x));
  rp_header : shape m (header s) = Some (nil_slice, nil_slice, S SKIP_LIST_MAX_LEVEL);
  rp_tail : m !! tail s = Some (mk_node nil_slice nil_slice [Some 0]);
  rp_chain : forall i, (i < SKIP_LIST_MAX_LEVEL)%nat -> chain m i (tail s) (header s) (lvl i l);
  rp_level : (S (level s) < SKIP_LIST_MAX_LEVEL)%nat /\ forall x, x ∈ l -> (ih x <= level s)%nat;
  rp_nodup : NoDup (header s :: tail s :: (ia <$> l));
  rp_nz : Forall (fun a => a <> 0) (header s :: tail s :: (ia <$> l));
  rp_dom : forall a, is_Some (m !! a) <-> a ∈ header s :: tail s :: (ia <$> l);
}.

Lemma shape_key m a k v n : shape m a = Some (k, v, n) -> exists d, m !! a = Some d /\ key d = k /\ value d = v /\ length (next d) = n.
Proof. unfold shape. destruct (m !! a) as [d|]; [|done]. intros [= <- <- <-]. by exists d. Qed.

(** ** Searching *)

Section order.
Context (cmp : compare) `{!KeyOrder cmp}.

Definition kb (x : item) : bytes := slice_bytes (ik x).

(** Before the place of [k] the keys are above it. *)
Definition above (k : bytes) (x : item) : Prop := cmp k (kb x) < 0.

Definition sorted (l : Datatypes.list item) : Prop := StronglySorted (fun x y => flip_cmp cmp (kb x) (kb y) < 0) l.

Lemma split_place k l : sorted l -> exists P Q, l = P ++ Q /\ Forall (above k) P /\ Forall (fun x => 0 <= cmp k (kb x)) Q.
Proof.
  induction l as [|x l IH]; [by exists [], []|]. intros [Hl Hx]%StronglySorted_inv.
  destruct (Z.lt_ge_cases (cmp k (kb x)) 0) as [Hk|Hk].
  - destruct (IH Hl) as (P & Q & -> & HP & HQ). exists (x :: P), Q. split; [done|]. split; [by constructor|done].
  - exists [], (x :: l). split; [done|]. split; [constructor|]. constructor; [done|].
    apply (Forall_impl _ _ _ Hx). intros y Hy. unfold flip_cmp in Hy.
    assert (cmp (kb y) k < 0) as H by (apply (cmp_lt_le cmp _ (kb x)); [done|pose proof (cmp_opp k (kb x)); lia]).
    pose proof (cmp_opp k (kb y)). lia.
Qed.

Lemma forward_spec fuel m tl k i : forall pre xs ys,
  chain m i tl pre (xs ++ ys) -> (length xs < fuel)%nat ->
  (forall x, x ∈ xs -> x <> tl /\ exists n, m !! x = Some n /\ cmp k (slice_bytes (key n)) < 0) ->
  (forall x, x ∈ ys -> x <> tl /\ exists n, m !! x = Some n /\ 0 <= cmp k (slice_bytes (key n))) ->
  forward fuel cmp m tl k i pre = Some (lastd pre xs, headd tl ys).
Proof.
  induction fuel as [|f IH]; intros pre xs ys Hc Hf Hx Hy; [lia|]. cbn [forward].
  destruct xs as [|x xs]; cbn [app chain] in Hc.
  - rewrite (chain_head _ _ _ _ _ Hc). cbn [mbind option_bind]. destruct ys as [|y ys]; cbn [headd lastd]; [by rewrite Z.eqb_refl|].
    destruct (Hy y) as (Hne & n & Hn & Hge); [by left|]. rewrite (proj2 (Z.eqb_neq _ _)) by done. rewrite Hn.
    cbn [mbind option_bind]. by rewrite (proj2 (Z.ltb_ge _ _)).
  - destruct Hc as [-> Hc]. cbn [mbind option_bind]. destruct (Hx x) as (Hne & n & Hn & Hlt); [by left|].
    rewrite (proj2 (Z.eqb_neq _ _)) by done. rewrite Hn. cbn [mbind option_bind]. rewrite (proj2 (Z.ltb_lt _ _)) by done.
    cbn in Hf. cbn [lastd]. apply (IH x xs ys); [done|lia| |done]. intros z Hz. apply Hx. by right.
Qed.

(** The last node of a level is where the levels below go on. *)
Lemma split_last j pre R : exists D R', R = D ++ R' /\ lvl j R' = [] /\
  forall j', (j' <= j)%nat -> lastd pre (lvl j' D) = lastd pre (lvl j R).
Proof.
  induction R as [|x R (D & R' & -> & HR & HD)] using rev_ind; [by exists [], []|].
  destruct (decide (j <= ih x)%nat) as [Hx|Hx].
  - exists ((D ++ R') ++ [x]), []. rewrite app_nil_r. split; [done|]. split; [done|]. intros j' Hj.
    rewrite !(lvl_app _ (D ++ R')), !lastd_app. cbn [lvl]. by rewrite !decide_True by lia.
  - exists D, (R' ++ [x]). rewrite app_assoc. split; [done|]. split; [rewrite lvl_app, HR; cbn; by rewrite decide_False|].
    intros j' Hj. rewrite (lvl_app j (D ++ R')), lastd_app. cbn [lvl]. rewrite decide_False by done. by apply HD.
Qed.

Definition lasts (pre : Z) (R : Datatypes.list item) (level : nat) : Datatypes.list Z :=
  (fun j => lastd pre (lvl j R)) <$> seq 0 (S level).

Definition found_at (m : smem) (tl : Z) (x : item) : Prop := ia x <> tl /\ shape m (ia x) = Some (ik x, iv x, S (ih x)).

Lemma lvl_elem i l a : a ∈ lvl i l -> exists x, x ∈ l /\ ia x = a.
Proof. intros H%lvl_in. apply list_elem_of_fmap in H as (x & -> & Hx). by exists x. Qed.

Lemma length_lvl i l : (length (lvl i l) <= length l)%nat.
Proof. induction l as [|x l IH]; cbn; [lia|]. destruct (decide (i <= ih x)%nat); cbn; lia. Qed.

Lemma level_forward fuel m tl k i pre R Q :
  chain m i tl pre (lvl i (R ++ Q)) -> Forall (found_at m tl) (R ++ Q) ->
  Forall (above k) R -> Forall (fun x => 0 <= cmp k (kb x)) Q -> (length R < fuel)%nat ->
  forward fuel cmp m tl k i pre = Some (lastd pre (lvl i R), headd tl (lvl i Q)).
Proof.
  intros Hc Hfd HR HQ Hf. rewrite lvl_app in Hc. rewrite Forall_forall in Hfd, HR, HQ.
  apply forward_spec; [done|pose proof (length_lvl i R); lia|..]; intros a (x & Hx & <-)%lvl_elem.
  - destruct (Hfd x) as [Hne (n & Hn & Hk & _)%shape_key]; [apply elem_of_app; by left|]. split; [done|].
    exists n. split; [done|]. rewrite Hk. by apply HR.
  - destruct (Hfd x) as [Hne (n & Hn & Hk & _)%shape_key]; [apply elem_of_app; by right|]. split; [done|].
    exists n. split; [done|]. rewrite Hk. by apply HQ.
Qed.

Lemma lasts_S pre R level : lasts pre R (S level) = lasts pre R level ++ [lastd pre (lvl (S level) R)].
Proof. unfold lasts. rewrite seq_S, fmap_app. done. Qed.

Lemma descend_spec fuel m tl k bound Q level : forall pre R,
  (forall j, (j <= level)%nat -> chain m j tl pre (lvl j (R ++ Q))) ->
  Forall (found_at m tl) (R ++ Q) -> Forall (above k) R -> Forall (fun x => 0 <= cmp k (kb x)) Q ->
  (length R < fuel)%nat -> (forall b, bound = Some b -> (level < b)%nat) ->
  descend fuel cmp m tl k bound level pre = Some (lasts pre R level, headd tl (ia <$> Q)).
Proof.
  induction level as [|level IH]; intros pre R Hc Hfound HR HQ Hf Hb; cbn [descend];
    rewrite (level_forward fuel m tl k _ pre R Q) by auto; cbn [mbind option_bind].
  - assert ((if bound is Some b then bool_decide (b <= 0)%nat else false) = false) as ->.
    { destruct bound as [b|]; [|done]. specialize (Hb b eq_refl). apply bool_decide_eq_false_2. lia. }
    by rewrite (lvl_0 Q).
  - assert ((if bound is Some b then bool_decide (b <= S level)%nat else false) = false) as ->.
    { destruct bound as [b|]; [|done]. specialize (Hb b eq_refl). apply bool_decide_eq_false_2. lia. }
    destruct (split_last (S level) pre R) as (D & R' & -> & HR' & HD).
    rewrite (IH (lastd pre (lvl (S level) (D ++ R'))) R').
    + cbn [mbind option_bind]. rewrite lasts_S. do 3 f_equal. unfold lasts. apply list_fmap_ext. intros i j Hj.
      apply lookup_seq in Hj as [Hj1 Hj2]. rewrite (lvl_app j D), (lastd_app pre (lvl j D)). by rewrite (HD j) by lia.
    + intros j Hj. specialize (Hc j ltac:(lia)). rewrite <- app_assoc, lvl_app in Hc. apply chain_app in Hc as [_ Hc].
      by rewrite HD in Hc by lia.
    + rewrite <- app_assoc in Hfound. by apply Forall_app in Hfound as [_ ?].
    + by apply Forall_app in HR as [_ ?].
    + done.
    + rewrite length_app in Hf. lia.
    + intros b Hb'. specialize (Hb b Hb'). lia.
Qed.

Lemma search_place fuel t l k bound P Q :
  rep (mem t) (list t) l -> l = P ++ Q -> Forall (above k) P -> Forall (fun x => 0 <= cmp k (kb x)) Q -> (length l < fuel)%nat ->
  (forall b, bound = Some b -> (SKIP_LIST_MAX_LEVEL <= b)%nat) ->
  search fuel cmp t k bound = Some (lasts (header (list t)) P (level (list t)), headd (tail (list t)) (ia <$> Q)).
Proof.
  intros H -> HP HQ Hf Hb. destruct (rp_level _ _ _ H) as [Hlv _]. unfold search. apply descend_spec; try done.
  - intros j Hj. apply (rp_chain _ _ _ H). lia.
  - apply Forall_forall. intros x Hx. split; [|by apply (rp_nodes _ _ _ H)].
    pose proof (rp_nodup _ _ _ H) as Hnd. apply NoDup_cons in Hnd as [_ Hnd]. apply NoDup_cons in Hnd as [Hnt _].
    intros Ht. apply Hnt. rewrite <- Ht. by apply list_elem_of_fmap_2.
  - rewrite length_app in Hf. lia.
  - intros b Hb'. specialize (Hb b Hb'). lia.
Qed.

End order.

(** ** One pointer *)

Lemma skip_set_next_spec m a i p k v n :
  shape m a = Some (k, v, n) -> (i < n)%nat ->
  exists m', set_next m a i p = Some m' /\ get_next m' a i = Some p /\
    (forall b j, b <> a \/ j <> i -> get_next m' b j = get_next m b j) /\
    (forall b, shape m' b = shape m b) /\ (forall b, b <> a -> m' !! b = m !! b).
Proof.
  intros (d & Hd & <- & <- & <-)%shape_key Hi. unfold set_next. rewrite Hd. cbn [mbind option_bind]. rewrite decide_True by done.
  eexists. split; [done|]. split; [|split; [|split]].
  - unfold get_next. rewrite lookup_insert_eq. cbn. by rewrite list_lookup_insert_eq.
  - intros b j Hbj. unfold get_next. destruct (decide (a = b)) as [<-|Hne]; [|by rewrite lookup_insert_ne].
    rewrite lookup_insert_eq, Hd. cbn. destruct Hbj as [|Hj]; [done|]. by rewrite list_lookup_insert_ne.
  - intros b. unfold shape. destruct (decide (a = b)) as [<-|Hne]; [|by rewrite lookup_insert_ne].
    rewrite lookup_insert_eq, Hd. cbn. by rewrite length_insert.
  - intros b Hne. by rewrite lookup_insert_ne.
Qed.

(** Nothing but the pointers of level [i] of the nodes [l] changes. *)
Definition only (m m' : smem) (i : nat) (l : Datatypes.list Z) : Prop :=
  (forall b j, j <> i -> get_next m' b j = get_next m b j) /\ (forall b, shape m' b = shape m b) /\
  (forall b, b ∉ l -> m' !! b = m !! b).

Section linking.
Context (tl hd : Z) (P Q : Datatypes.list item) (up : Datatypes.list Z).
Context (Hnd : NoDup (hd :: (ia <$> P ++ Q))).

Lemma level_nodup i : NoDup (hd :: lvl i P ++ lvl i Q).
Proof.
  rewrite <- lvl_app. apply NoDup_cons in Hnd as [H1 H2]. constructor; [|by apply lvl_nodup].
  intros Hin. by apply H1, (lvl_in i).
Qed.

Lemma level_not_in i a : a ∉ hd :: (ia <$> P ++ Q) -> a ∉ hd :: lvl i P ++ lvl i Q.
Proof.
  rewrite !not_elem_of_cons, <- lvl_app. intros [H1 H2]. split; [done|]. intros Hin. by apply H2, (lvl_in i).
Qed.

(** The last node of a level has a pointer of that level. *)
Definition tall (m : smem) (i : nat) (a : Z) : Prop := exists k v n, shape m a = Some (k, v, n) /\ (i < n)%nat.

Lemma lastd_tall m i s : rep m s (P ++ Q) -> header s = hd -> (i < SKIP_LIST_MAX_LEVEL)%nat ->
  tall m i (lastd hd (lvl i P)).
Proof.
  intros H Hh Hi. unfold tall. destruct (lvl i P) as [|a xs] eqn:E.
  { cbn. pose proof (rp_header _ _ _ H) as Hs. rewrite Hh in Hs. eexists _, _, _. split; [exact Hs|]. lia. }
  assert (lastd hd (a :: xs) ∈ lvl i P) as Hin by (rewrite E; cbn; apply lastd_in).
  assert (forall b, b ∈ lvl i P -> exists x, x ∈ P /\ ia x = b /\ (i <= ih x)%nat) as Hx.
  { intros b. clear. induction P as [|y l IH]; cbn; [by intros ?%elem_of_nil|]. destruct (decide (i <= ih y)%nat).
    - intros [->|Hb]%elem_of_cons; [exists y; split; [by left|done]|]. destruct (IH Hb) as (x & Hx & ?). exists x. split; [by right|done].
    - intros Hb. destruct (IH Hb) as (x & Hx & ?). exists x. split; [by right|done]. }
  destruct (Hx _ Hin) as (x & HxP & Hxa & Hxi). exists (ik x), (iv x), (S (ih x)). rewrite <- Hxa.
  split; [|lia]. apply (rp_nodes _ _ _ H). apply elem_of_app. by left.
Qed.

Lemma link_level_spec (m : smem) i a :
  up !! i = Some (lastd hd (lvl i P)) -> tall m i (lastd hd (lvl i P)) -> tall m i a ->
  a ∉ hd :: (ia <$> P ++ Q) -> chain m i tl hd (lvl i P ++ lvl i Q) ->
  exists m', link_level m up a i = Some m' /\ chain m' i tl hd (lvl i P ++ a :: lvl i Q) /\
    only m m' i (a :: hd :: (ia <$> P)).
Proof.
  intros Hup (k & v & n & Hpre & Hn) (k' & v' & n' & Ha & Hn') Hna Hc. unfold link_level. rewrite Hup. cbn [mbind option_bind].
  apply (level_not_in i) in Hna as Hna'. pose proof (lastd_in hd (lvl i P)) as Hin.
  assert (a <> lastd hd (lvl i P)) as Hne by (intros ->; apply Hna'; rewrite app_comm_cons; apply elem_of_app; by left).
  pose proof (proj1 (chain_app _ _ _ _ _ _) Hc) as [_ Hc2]. rewrite (chain_head _ _ _ _ _ Hc2). cbn [mbind option_bind].
  destruct (skip_set_next_spec m a i (headd tl (lvl i Q)) _ _ _ Ha Hn') as (m1 & -> & G1 & O1 & S1 & K1). cbn [mbind option_bind].
  rewrite <- S1 in Hpre. destruct (skip_set_next_spec m1 _ i a _ _ _ Hpre Hn) as (m2 & -> & G2 & O2 & S2 & K2).
  exists m2. split; [done|]. split; [|split; [|split]].
  - apply (chain_insert m m2 i tl hd (lvl i P) (lvl i Q) a Hc); [apply level_nodup|done| |done|].
    + rewrite O2 by (by left). done.
    + intros c Hc1 Hc3. rewrite O2, O1 by (by left). done.
  - intros b j Hj. rewrite O2, O1 by (by right). done.
  - intros b. by rewrite S2, S1.
  - intros b Hb. rewrite K2, K1; [done|set_solver|]. intros ->. apply Hb. right.
    apply elem_of_cons in Hin as [->|Hin]; [by left|]. right. by apply (lvl_in i).
Qed.

Lemma link_spec lv : forall (m : smem) a,
  (forall i, (i <= lv)%nat -> up !! i = Some (lastd hd (lvl i P)) /\ tall m i (lastd hd (lvl i P)) /\ tall m i a /\
     chain m i tl hd (lvl i P ++ lvl i Q)) ->
  a ∉ hd :: (ia <$> P ++ Q) ->
  exists m', link m up a lv = Some m' /\ (forall i, (i <= lv)%nat -> chain m' i tl hd (lvl i P ++ a :: lvl i Q)) /\
    (forall b j, (lv < j)%nat -> get_next m' b j = get_next m b j) /\ (forall b, shape m' b = shape m b) /\
    (forall b, b ∉ a :: hd :: (ia <$> P) -> m' !! b = m !! b).
Proof.
  induction lv as [|lv IH]; intros m a H Hna; cbn [link].
  - destruct (H 0%nat) as (Hup & Hl & Ha & Hc); [done|].
    destruct (link_level_spec m 0 a Hup Hl Ha Hna Hc) as (m1 & -> & Hc1 & O1 & S1 & K1). cbn [mbind option_bind].
    exists m1. split; [done|]. split; [|split; [|done]].
    + intros i Hi. by assert (i = 0%nat) as -> by lia.
    + intros b j Hj. apply O1. lia.
  - destruct (H (S lv)) as (Hup & Hl & Ha & Hc); [done|].
    destruct (link_level_spec m (S lv) a Hup Hl Ha Hna Hc) as (m1 & -> & Hc1 & O1 & S1 & K1). cbn [mbind option_bind].
    destruct (IH m1 a) as (m2 & -> & Hc2 & O2 & S2 & K2); [|done|].
    { intros i Hi. destruct (H i) as (Hup' & Hl' & Ha' & Hc'); [lia|]. unfold tall in *. rewrite !S1.
      split; [done|]. split; [done|]. split; [done|]. apply (chain_ext m); [|done]. intros b _. apply O1. lia. }
    exists m2. split; [done|]. split; [|split; [|split]].
    + intros i Hi. destruct (decide (i = S lv)) as [->|]; [|by apply Hc2; lia].
      apply (chain_ext m1); [|done]. intros b _. apply O2. lia.
    + intros b j Hj. rewrite O2, O1 by lia. done.
    + intros b. by rewrite S2, S1.
    + intros b Hb. by rewrite K2, K1.
Qed.

End linking.

(** The node [c] leaves the levels from [i] on. *)
Lemma unlink_levels_spec tl hd P c Q up : forall (m : smem) i,
  (i + length up < SKIP_LIST_MAX_LEVEL)%nat ->
  NoDup (hd :: (ia <$> P ++ c :: Q)) -> tl ∉ hd :: (ia <$> P ++ c :: Q) ->
  up = (fun j => lastd hd (lvl j P)) <$> seq i (length up) ->
  (forall j, (i <= j < i + length up)%nat -> tall m j (lastd hd (lvl j P)) /\ chain m j tl hd (lvl j P ++ lvl j (c :: Q))) ->
  exists m', unlink m up (ia c) i = Some m' /\
    (forall j, (i <= j < i + length up)%nat -> chain m' j tl hd (lvl j P ++ lvl j Q)) /\
    (forall b j, (j < i \/ i + length up <= j)%nat -> get_next m' b j = get_next m b j) /\
    (forall b, shape m' b = shape m b) /\ (forall b, b ∉ hd :: (ia <$> P) -> m' !! b = m !! b).
Proof.
  induction up as [|pre up IH]; intros m i Hmax Hnd Htl Hup H; cbn [unlink length] in *.
  { exists m. rewrite decide_True by lia. split; [done|]. split; [intros; lia|]. done. }
  cbn [length seq fmap list_fmap] in Hup. injection Hup as Hpre Hup. cbn [length] in H.
  destruct (H i) as [(k & v & n & Hsh & Hn) Hc]; [lia|]. pose proof (proj1 (chain_app _ _ _ _ _ _) Hc) as [_ Hc2].
  rewrite <- Hpre in Hsh, Hc2. rewrite (chain_head _ _ _ _ _ Hc2). cbn [mbind option_bind].
  pose proof (level_nodup hd P (c :: Q) Hnd i) as Hnd'. cbn [lvl] in *. destruct (decide (i <= ih c)%nat) as [Hi|Hi].
  - cbn [headd]. rewrite Z.eqb_refl. destruct Hc2 as [_ Hc3]. rewrite (chain_head _ _ _ _ _ Hc3). cbn [mbind option_bind].
    destruct (skip_set_next_spec m pre i (headd tl (lvl i Q)) _ _ _ Hsh Hn) as (m1 & -> & G1 & O1 & S1 & K1). cbn [mbind option_bind].
    destruct (IH m1 (S i) ltac:(lia) Hnd Htl) as (m2 & -> & Hc4 & O2 & S2 & K2); [done|..].
    { intros j Hj. destruct (H j) as [Ht Hcj]; [lia|]. unfold tall in *. rewrite S1. split; [done|].
      apply (chain_ext m); [|done]. intros b _. apply O1. right. lia. }
    exists m2. split; [done|]. split; [|split; [|split]].
    + intros j Hj. destruct (decide (j = i)) as [->|]; [|apply Hc4; lia]. apply (chain_delete m m2 i tl hd _ _ (ia c) Hc Hnd').
      * rewrite <- Hpre, O2 by lia. done.
      * intros b _ Hb. rewrite <- Hpre in Hb. rewrite O2 by lia. apply O1. by left.
    + intros b j Hj. rewrite O2 by lia. apply O1. right. lia.
    + intros b. by rewrite S2.
    + intros b Hb. rewrite K2 by done. apply K1. intros ->. apply Hb. rewrite Hpre.
      pose proof (lastd_in hd (lvl i P)) as Hin. apply elem_of_cons in Hin as [->|Hin]; [by left|]. right. by apply (lvl_in i).
  - rewrite (proj2 (Z.eqb_neq _ _)).
    + exists m. split; [done|]. split; [|done]. intros j Hj. destruct (H j) as [_ Hcj]; [lia|]. rewrite decide_False in Hcj by lia. done.
    + intros Heq. assert (ia c ∈ tl :: (ia <$> Q)) as Hin.
      { rewrite <- Heq. destruct (lvl i Q) as [|y ys] eqn:E; [by left|]. right. apply (lvl_in i). rewrite E. by left. }
      rewrite fmap_app in Hnd, Htl. cbn in Hnd, Htl. apply elem_of_cons in Hin as [Hin|Hin]; [set_solver|].
      apply NoDup_cons in Hnd as [_ Hnd]. apply NoDup_app in Hnd as (_ & _ & Hnd). by apply NoDup_cons in Hnd as [? _].
Qed.

(** ** A node in *)

Lemma shape_dom m a : is_Some (shape m a) <-> is_Some (m !! a).
Proof. unfold shape. destruct (m !! a); cbn; split; intros [? ?]; eauto; done. Qed.

Lemma lvl_high i l : (forall x, x ∈ l -> (ih x < i)%nat) -> lvl i l = [].
Proof.
  induction l as [|x l IH]; intros H; [done|]. cbn. rewrite decide_False; [apply IH; intros y Hy; apply H; by right|].
  specialize (H x ltac:(by left)). lia.
Qed.

Lemma lasts_lookup pre R level i : (i <= level)%nat -> lasts pre R level !! i = Some (lastd pre (lvl i R)).
Proof.
  intros Hi. unfold lasts. rewrite list_lookup_fmap, lookup_seq_lt by lia. done.
Qed.

Lemma length_lasts pre R level : length (lasts pre R level) = S level.
Proof. unfold lasts. by rewrite length_fmap, length_seq. Qed.

(** A fresh node before it is linked. *)
Lemma fresh_chain m i t hd xs a n :
  chain m i t hd xs -> a ∉ hd :: xs -> chain (<[a := n]> m) i t hd xs.
Proof.
  intros Hc Ha. apply (chain_ext m); [|done]. intros b Hb. unfold get_next. rewrite lookup_insert_ne; [done|].
  intros ->. by apply Ha.
Qed.

Lemma insert_rep m s s' P Q a ks vs lv up :
  rep m s (P ++ Q) -> a <> 0 -> m !! a = None ->
  header s' = header s -> tail s' = tail s -> (S (level s) <= S (level s') < SKIP_LIST_MAX_LEVEL)%nat -> (lv <= level s')%nat ->
  (forall i, (i <= lv)%nat -> up !! i = Some (lastd (header s) (lvl i P))) ->
  exists m', link (<[a := new_node ks vs lv]> m) up a lv = Some m' /\ rep m' s' (P ++ mk_item a lv ks vs :: Q).
Proof.
  intros H Ha0 Hnone Hhd Htl Hlv Hle Hup. pose proof (rp_nodup _ _ _ H) as Hnd. pose proof (rp_dom _ _ _ H) as Hdom.
  assert (a ∉ header s :: tail s :: (ia <$> P ++ Q)) as Hna by (intros Hin; apply Hdom in Hin; rewrite Hnone in Hin; by destruct Hin).
  set (n := new_node ks vs lv). set (m1 := <[a := n]> m).
  assert (forall b, b <> a -> shape m1 b = shape m b) as Hsh by (intros b Hb; unfold shape, m1; by rewrite lookup_insert_ne).
  assert (shape m1 a = Some (ks, vs, S lv)) as Hsa by (unfold shape, m1; rewrite lookup_insert_eq; cbn; by rewrite length_replicate).
  assert (NoDup (header s :: (ia <$> P ++ Q))) as Hnd'.
  { apply NoDup_cons in Hnd as [H1 H2]. apply NoDup_cons in H2 as [_ H2]. constructor; [|done]. intros Hin. apply H1. by right. }
  assert (a ∉ header s :: (ia <$> P ++ Q)) as Hna' by set_solver.
  assert (forall i, (i < SKIP_LIST_MAX_LEVEL)%nat -> chain m1 i (tail s) (header s) (lvl i P ++ lvl i Q)) as Hc1.
  { intros i Hi. apply fresh_chain; [|by apply level_not_in]. rewrite <- lvl_app. by apply (rp_chain _ _ _ H). }
  destruct (link_spec (tail s) (header s) P Q up Hnd' lv m1 a) as (m' & -> & Hc & Ho & Hs & Hk); [|done|].
  { intros i Hi. split; [by apply Hup|]. split; [|split; [exists ks, vs, (S lv); split; [done|lia]|apply Hc1; lia]].
    destruct (lastd_tall (header s) P Q m i s H eq_refl) as (k & v & w & Hw & ?); [lia|]. exists k, v, w. rewrite Hsh; [done|].
    intros Heq. apply Hna'. rewrite <- Heq. pose proof (lastd_in (header s) (lvl i P)) as Hin.
    apply elem_of_cons in Hin as [->|Hin]; [by left|]. right. rewrite fmap_app. apply elem_of_app. left. by apply (lvl_in i). }
  exists m'. split; [done|].
  assert (forall b, b ∈ header s :: tail s :: (ia <$> P ++ mk_item a lv ks vs :: Q) <-> b = a \/ b ∈ header s :: tail s :: (ia <$> P ++ Q)) as Hel.
  { intros b. rewrite !fmap_app. cbn. set_solver. }
  constructor; rewrite ?Hhd, ?Htl.
  - intros x Hx. rewrite Hs. apply elem_of_app in Hx as [Hx|[->|Hx]%elem_of_cons]; [|done|];
      (rewrite Hsh; [apply (rp_nodes _ _ _ H); apply elem_of_app; tauto|]); intros <-; apply Hna; do 2 right;
      apply list_elem_of_fmap_2, elem_of_app; tauto.
  - rewrite Hs, Hsh; [apply (rp_header _ _ _ H)|]. intros <-. apply Hna. by left.
  - rewrite Hk; [unfold m1; rewrite lookup_insert_ne; [apply (rp_tail _ _ _ H)|]; intros ->; apply Hna; right; by left|].
    rewrite fmap_app in Hnd. intros [Hx|[Hx|Hx]%elem_of_cons]%elem_of_cons.
    + apply Hna. rewrite <- Hx. right. by left.
    + apply NoDup_cons in Hnd as [Hnd _]. apply Hnd. rewrite Hx. by left.
    + apply NoDup_cons in Hnd as [_ Hnd]. apply NoDup_cons in Hnd as [Hnd _]. apply Hnd, elem_of_app. by left.
  - intros i Hi. rewrite lvl_app. cbn [lvl ih ia]. destruct (decide (i <= lv)%nat); [by apply Hc|].
    apply (chain_ext m1); [|by apply Hc1]. intros b _. apply Ho. lia.
  - split; [lia|]. intros x. rewrite elem_of_app, elem_of_cons. intros Hx. destruct (rp_level _ _ _ H) as [_ Hl].
    destruct Hx as [Hx|[->|Hx]]; [|done|]; (etrans; [apply Hl, elem_of_app; tauto|lia]).
  - assert (header s :: tail s :: (ia <$> P ++ mk_item a lv ks vs :: Q) ≡ₚ a :: header s :: tail s :: (ia <$> P ++ Q)) as ->.
    { rewrite !fmap_app. cbn. solve_Permutation. }
    by constructor.
  - apply Forall_forall. intros b Hb. pose proof (rp_nz _ _ _ H) as Hnz. rewrite Forall_forall in Hnz.
    apply Hel in Hb as [->|Hb]; [done|by apply Hnz].
  - intros b. rewrite Hel, <- Hdom, <- !shape_dom, Hs. destruct (decide (b = a)) as [->|Hb]; [rewrite Hsa; split; eauto|].
    rewrite Hsh by done. tauto.
Qed.

(** ** A node out *)

Lemma lvl_nil i l : lvl i l = [] -> forall x, x ∈ l -> (ih x < i)%nat.
Proof.
  induction l as [|y l IH]; cbn; [by intros _ x ?%elem_of_nil|]. destruct (decide (i <= ih y)%nat); [done|].
  intros H x [->|Hx]%elem_of_cons; [lia|]. by apply IH.
Qed.

Lemma lower_spec m hd tl l top :
  (forall i, (i <= top)%nat -> get_next m hd i = Some (headd tl (lvl i l))) -> tl ∉ ia <$> l ->
  (forall x, x ∈ l -> (ih x <= top)%nat) ->
  exists top', lower m hd tl top = Some top' /\ (top' <= top)%nat /\ forall x, x ∈ l -> (ih x <= top')%nat.
Proof.
  intros Hn Htl. induction top as [|top IH]; intros Hl; cbn [lower]; [by exists 0%nat|].
  rewrite Hn by done. cbn [mbind option_bind]. destruct (Z.eqb_spec (headd tl (lvl (S top) l)) tl) as [He|He].
  - destruct IH as (top' & -> & Hle & Hl').
    { intros i Hi. apply Hn. lia. }
    { intros x Hx. destruct (lvl (S top) l) as [|y ys] eqn:E; [pose proof (lvl_nil _ _ E x Hx); lia|]. exfalso.
      cbn in He. subst y. apply Htl, (lvl_in (S top)). rewrite E. by left. }
    exists top'. split; [done|]. split; [lia|done].
  - by exists (S top).
Qed.

Lemma get_next_delete m a b i : b <> a -> get_next (delete a m) b i = get_next m b i.
Proof. intros Hb. unfold get_next. by rewrite lookup_delete_ne. Qed.

Lemma erase_rep m s P c Q :
  rep m s (P ++ c :: Q) ->
  exists m' top, unlink m (lasts (header s) P (level s)) (ia c) 0 = Some m' /\
    lower (delete (ia c) m') (header s) (tail s) (level s) = Some top /\
    rep (delete (ia c) m') (with_level s top) (P ++ Q).
Proof.
  intros H. pose proof (rp_nodup _ _ _ H) as Hnd. destruct (rp_level _ _ _ H) as [Hlv Hl].
  assert (header s :: tail s :: (ia <$> P ++ c :: Q) ≡ₚ ia c :: header s :: tail s :: (ia <$> P ++ Q)) as Hperm.
  { rewrite !fmap_app. cbn. solve_Permutation. }
  pose proof Hnd as Hndc. rewrite Hperm in Hndc. apply NoDup_cons in Hndc as [Hnc Hnd2].
  assert (NoDup (header s :: (ia <$> P ++ c :: Q)) /\ tail s ∉ header s :: (ia <$> P ++ c :: Q)) as [Hnd' Htl].
  { apply NoDup_cons in Hnd as [H1 H2]. apply NoDup_cons in H2 as [H2 H3]. split; [constructor; [|done]|]; set_solver. }
  destruct (unlink_levels_spec (tail s) (header s) P c Q (lasts (header s) P (level s)) m 0 ltac:(by rewrite length_lasts) Hnd' Htl) as (m' & Hun & Hc & Ho & Hs & Hk).
  { by rewrite length_lasts. }
  { intros j Hj. rewrite length_lasts in Hj. split; [apply (lastd_tall (header s) P (c :: Q) m j s H eq_refl); lia|].
    rewrite <- lvl_app. apply (rp_chain _ _ _ H). lia. }
  rewrite length_lasts in Hc, Ho.
  assert (forall i, (i < SKIP_LIST_MAX_LEVEL)%nat -> chain (delete (ia c) m') i (tail s) (header s) (lvl i (P ++ Q))) as Hchain.
  { intros i Hi. apply (chain_ext m').
    - intros b Hb. apply get_next_delete. intros ->. apply Hnc. apply elem_of_cons in Hb as [->|Hb%lvl_in]; [by left|by do 2 right].
    - rewrite lvl_app. destruct (decide (i <= level s)%nat); [apply Hc; lia|].
      apply (chain_ext m); [intros b _; apply Ho; lia|]. pose proof (rp_chain _ _ _ H i Hi) as Hci. rewrite lvl_app in Hci. cbn [lvl] in Hci.
      rewrite decide_False in Hci; [done|]. specialize (Hl c). pose proof (Hl ltac:(apply elem_of_app; right; by left)). lia. }
  assert (forall x, x ∈ P ++ Q -> x ∈ P ++ c :: Q) as Hsub by (intros x; rewrite !elem_of_app, elem_of_cons; tauto).
  destruct (lower_spec (delete (ia c) m') (header s) (tail s) (P ++ Q) (level s)) as (top & Hlow & Hle & Hl').
  { intros i Hi. apply (chain_head _ _ (tail s)), Hchain. lia. }
  { apply NoDup_cons in Hnd2 as [_ Hnd2]. by apply NoDup_cons in Hnd2 as [? _]. }
  { intros x Hx. by apply Hl, Hsub. }
  exists m', top. split; [done|]. split; [done|].
  assert (forall b, b ∈ header s :: tail s :: (ia <$> P ++ Q) -> ia c <> b) as Hne by (intros b Hb <-; by apply Hnc).
  constructor; cbn [header tail level with_level].
  - intros x Hx. unfold shape. rewrite lookup_delete_ne by (apply Hne; do 2 right; by apply list_elem_of_fmap_2).
    rewrite <- (rp_nodes _ _ _ H x (Hsub x Hx)). apply Hs.
  - unfold shape. rewrite lookup_delete_ne by (apply Hne; by left). rewrite <- (rp_header _ _ _ H). apply Hs.
  - rewrite lookup_delete_ne by (apply Hne; right; by left). rewrite Hk; [apply (rp_tail _ _ _ H)|].
    intros Hin. apply Htl. rewrite fmap_app. set_solver.
  - done.
  - split; [lia|done].
  - done.
  - pose proof (rp_nz _ _ _ H) as Hnz. rewrite Hperm in Hnz. by apply Forall_cons in Hnz as [_ ?].
  - intros b. destruct (decide (ia c = b)) as [<-|Hb]; [rewrite lookup_delete_eq; split; [by intros []|by intros ?%Hne]|].
    rewrite lookup_delete_ne by done. rewrite <- shape_dom, Hs, shape_dom, (rp_dom _ _ _ H), Hperm, elem_of_cons. naive_solver.
Qed.

(** ** The end *)

Lemma free_chain fuel tl xs : forall m a,
  chain m 0 tl a xs -> get_next m tl 0 = Some 0 -> NoDup (a :: xs ++ [tl]) -> Forall (fun b => b <> 0) (a :: xs ++ [tl]) ->
  (length xs + 2 < fuel)%nat ->
  exists m', free_nodes fuel m a = Some m' /\ forall b, m' !! b = if decide (b ∈ a :: xs ++ [tl]) then None else m !! b.
Proof.
  revert fuel. induction xs as [|x xs IH]; intros fuel m a Hc Ht Hnd Hnz Hf; (destruct fuel as [|f]; [lia|]); cbn [free_nodes].
  all: pose proof (Forall_inv Hnz) as Ha; rewrite (proj2 (Z.eqb_neq a 0)) by done.
  all: rewrite (chain_head _ _ _ _ _ Hc); cbn [mbind option_bind headd].
  - destruct f as [|[|f]]; [cbn in Hf; lia..|]. cbn [free_nodes]. cbn in Hnz.
    apply Forall_cons in Hnz as [_ Hnz]. apply Forall_cons in Hnz as [Htl _]. rewrite (proj2 (Z.eqb_neq tl 0)) by done.
    cbn in Hnd. apply NoDup_cons in Hnd as [Hat _]. rewrite get_next_delete by set_solver. rewrite Ht. cbn.
    eexists. split; [done|]. intros b. case_decide as Hb.
    + destruct (decide (b = tl)) as [->|]; [apply lookup_delete_eq|]. rewrite lookup_delete_ne by done.
      assert (b = a) as -> by set_solver. apply lookup_delete_eq.
    + rewrite !lookup_delete_ne by set_solver. done.
  - cbn [chain] in Hc. destruct Hc as [_ Hc]. cbn [app] in Hnd, Hnz. pose proof Hnd as Hnd'. apply NoDup_cons in Hnd' as [Hax Hnd'].
    destruct (IH f (delete a m) x) as (m' & -> & Hm'); [| |done|by apply Forall_cons in Hnz as [_ ?]|cbn in Hf; lia|].
    + apply (chain_ext m); [|done]. intros b Hb. apply get_next_delete. intros ->. apply Hax.
      apply elem_of_cons in Hb as [->|Hb]; [by left|]. right. apply elem_of_app. by left.
    + rewrite get_next_delete; [done|]. intros ->. apply Hax. right. apply elem_of_app. right. by left.
    + exists m'. split; [done|]. intros b. rewrite Hm'. cbn [app]. destruct (decide (b = a)) as [->|Hb].
      * rewrite (decide_True (P := a ∈ a :: _)) by (by left). case_decide; [done|apply lookup_delete_eq].
      * rewrite lookup_delete_ne by done. repeat case_decide; try done; set_solver.
Qed.

End Skip.
