(* ===== verification/LiskSkiplistSpec.v ===== *)
(** * The skip list as a sorted association list

    What each operation of lisk_skiplist.c does to the association list of
    AssocMap, whatever levels the nodes are given. *)

From Stdlib Require Import Sorted.
From stdpp Require Import sorting.
From S2P Require Import Prelude AssocMap LiskSkiplist.

Module SkipSpec.
Import Skip.

(** ** Calls *)

Inductive call :=
  | Insert (k v : option bytes) (rs : Datatypes.list Z)
  | Erase (k : option bytes)
  | Find (k : option bytes).

Inductive result := Ret (r : Z) | Void | Got (r : Z) (v : option bytes).

Definition do_call (anode : node_alloc) (malloc : malloc_fun) (fuel : nat) (cmp : compare) (l : option skip_t) (c : call)
  : option (result * option skip_t) :=
  match c with
  | Insert k v rs => '(r, l) ← skip_list_insert anode malloc rs fuel cmp l k v; Some (Ret r, l)
  | Erase k => l ← skip_list_erase fuel cmp l k; Some (Void, l)
  | Find k =>
      '(r, p) ← skip_list_find fuel cmp l k false;
      v ← (if r =? 0 then t ← l; n ← mem t !! p; Some (Some (slice_bytes (value n))) else Some None);
      Some (Got r v, l)
  end.

(** The same call on the list, which is in decreasing order; [room] says whether
    there was memory. *)
Definition spec_call (cmp : compare) (room : bool) (l : amap) (c : call) : result * amap :=
  match c with
  | Insert (Some k) (Some v) _ =>
      if al_find (flip_cmp cmp) k l is Some _ then (Ret (-3), l)
      else if room then (Ret 0, al_insert (flip_cmp cmp) k v l) else (Ret (-2), l)
  | Insert _ _ _ => (Ret (-1), l)
  | Erase (Some k) => (Void, al_erase (flip_cmp cmp) k l)
  | Erase None => (Void, l)
  | Find (Some k) => (if al_find (flip_cmp cmp) k l is Some v then Got 0 (Some v) else Got (-2) None, l)
  | Find None => (Got (-1) None, l)
  end.

(** A call, with the allocators it finds. *)
Abbreviation acall := (node_alloc * malloc_fun * call)%type.

Fixpoint do_calls fuel cmp (l : option skip_t) (cs : Datatypes.list acall) : option (Datatypes.list result * option skip_t) :=
  match cs with
  | [] => Some ([], l)
  | (anode, malloc, c) :: cs =>
      '(r, l) ← do_call anode malloc fuel cmp l c;
      '(rs, l) ← do_calls fuel cmp l cs; Some (r :: rs, l)
  end.

Fixpoint spec_calls cmp (rooms : Datatypes.list bool) (l : amap) (cs : Datatypes.list call) {struct cs} : Datatypes.list result * amap :=
  match cs, rooms with
  | c :: cs, room :: rooms =>
      let '(r, l) := spec_call cmp room l c in let '(rs, l) := spec_calls cmp rooms l cs in (r :: rs, l)
  | _, _ => ([], l)
  end.

(** ** The refinement *)

Definition view (l : Datatypes.list item) : amap := (fun x => (slice_bytes (ik x), slice_bytes (iv x))) <$> l.

(** A block at least as long as its size says. *)
Definition whole (s : slice_t) : Prop := 0 <= s_size s <= blen (s_data s).

Lemma whole_bytes b : whole (mk_slice (blen b) b).
Proof. unfold whole. cbn. pose proof (blen_nonneg b). lia. Qed.

Lemma whole_size s : whole s -> blen (slice_bytes s) = s_size s.
Proof. unfold whole, slice_bytes, blen. intros H. rewrite length_take. lia. Qed.

Definition skip_rep (cmp : compare) (t : skip_t) (l : amap) : Prop :=
  exists items, rep (mem t) (list t) items /\ sorted cmp items /\ Forall (fun x => whole (ik x) /\ whole (iv x)) items /\ view items = l.

(** Draws that end with a level below 31: erasing a node of level 31 reads behind the array [update], and
    level 32 is behind it. *)
Definition calm (rs : Datatypes.list Z) : Prop := exists lv, draw rs 0 = Some lv /\ (S lv < SKIP_LIST_MAX_LEVEL)%nat.

Definition call_calm (c : call) : Prop := match c with Insert _ _ rs => calm rs | _ => True end.

Definition node_alloc_ok (anode : node_alloc) : Prop := forall m a, anode m = Some a -> a <> 0 /\ m !! a = None.

Definition plenty (anode : node_alloc) (malloc : malloc_fun) : Prop :=
  (forall m, anode m <> None) /\ (forall n, malloc n <> None).

Section refinement.
Context (cmp : compare) `{!KeyOrder cmp} (anode : node_alloc) (malloc : malloc_fun).
Context (Han : node_alloc_ok anode) (Hma : malloc_ok malloc).

Lemma skip_view_app P Q : view (P ++ Q) = view P ++ view Q.
Proof. apply fmap_app. Qed.

Lemma above_smaller k P : Forall (above cmp k) P -> smaller (flip_cmp cmp) k (view P).
Proof.
  intros H. unfold smaller, view. rewrite Forall_fmap. apply (Forall_impl _ _ _ H). intros x Hx.
  by apply (cmp_lt_gt cmp).
Qed.

(** Past the place of a key that is not there, all keys are below it. *)
Lemma below_greater k Q :
  sorted cmp Q -> (forall x, head Q = Some x -> 0 < cmp k (kb x)) -> greater (flip_cmp cmp) k (view Q).
Proof.
  intros Hso Hh. unfold greater, view. rewrite Forall_fmap. destruct Q as [|x Q]; [done|].
  specialize (Hh x eq_refl). apply (cmp_lt_gt cmp) in Hh. apply StronglySorted_inv in Hso as [_ Hx].
  constructor; [done|]. apply (Forall_impl _ _ _ Hx). intros y Hy. unfold flip_cmp in *. cbn.
  apply (cmp_lt_le cmp _ (kb x)); [done|by apply Z.lt_le_incl].
Qed.

(** The search, its test and what the list has there. *)
Lemma skip_search_view fuel t items k v bound :
  rep (mem t) (list t) items -> sorted cmp items -> (length items < fuel)%nat ->
  (forall b, bound = Some b -> (SKIP_LIST_MAX_LEVEL <= b)%nat) ->
  exists P Q, items = P ++ Q /\ Forall (above cmp k) P /\
    search fuel cmp t k bound = Some (lasts (header (list t)) P (level (list t)), headd (tail (list t)) (ia <$> Q)) /\
    ((exists c Q', Q = c :: Q' /\ cmp (kb c) k = 0 /\
        same_key cmp t (ia c) k = Some true /\ same_key' cmp t (ia c) k = Some true /\
        al_find (flip_cmp cmp) k (view items) = Some (slice_bytes (iv c)) /\
        al_erase (flip_cmp cmp) k (view items) = view P ++ view Q') \/
     (same_key cmp t (headd (tail (list t)) (ia <$> Q)) k = Some false /\
        same_key' cmp t (headd (tail (list t)) (ia <$> Q)) k = Some false /\
        (forall x, head Q = Some x -> 0 < cmp k (kb x)) /\
        al_find (flip_cmp cmp) k (view items) = None /\
        al_erase (flip_cmp cmp) k (view items) = view items /\
        al_insert (flip_cmp cmp) k v (view items) = view P ++ (k, v) :: view Q)).
Proof.
  intros H Hso Hf Hb. destruct (split_place cmp k items Hso) as (P & Q & -> & HP & HQ). exists P, Q.
  split; [done|]. split; [done|]. split; [by apply (search_place cmp fuel t (P ++ Q) k bound P Q H)|].
  pose proof (above_smaller k P HP) as HP'. rewrite skip_view_app.
  destruct (al_skip (flip_cmp cmp) k v (view P) (view Q) HP') as (-> & -> & _ & ->).
  destruct Q as [|c Q'].
  { right. unfold same_key, same_key'. cbn [fmap list_fmap headd]. by rewrite Z.eqb_refl. }
  cbn [fmap list_fmap headd].
  assert (same_key cmp t (ia c) k = Some (cmp (kb c) k =? 0) /\ same_key' cmp t (ia c) k = Some (cmp k (kb c) =? 0)) as [Hsk Hsk'].
  { pose proof (rp_nodup _ _ _ H) as Hnd. apply NoDup_cons in Hnd as [_ Hnd]. apply NoDup_cons in Hnd as [Htl _].
    unfold same_key, same_key'. rewrite (proj2 (Z.eqb_neq _ _)).
    2:{ intros Heq. apply Htl. rewrite fmap_app. apply elem_of_app. right. rewrite <- Heq. by left. }
    destruct (shape_key _ _ _ _ _ (rp_nodes _ _ _ H c ltac:(apply elem_of_app; right; by left))) as (n & -> & Hk & _).
    cbn [mbind option_bind]. by rewrite Hk. }
  apply Forall_cons in HQ as [Hc _]. destruct (Z.eqb_spec (cmp k (kb c)) 0) as [Hz|Hz].
  - left. exists c, Q'. apply (cmp_eq_sym cmp) in Hz as Hz'. rewrite Hsk, Hsk', Hz'. do 4 (split; [done|]).
    cbn. unfold flip_cmp. fold (kb c). by rewrite Hz'.
  - right. assert (cmp (kb c) k <> 0) as Hz' by (intros E; by apply (cmp_eq_sym cmp) in E).
    rewrite Hsk, Hsk', (proj2 (Z.eqb_neq _ 0)) by done.
    assert (forall x, head (c :: Q') = Some x -> 0 < cmp k (kb x)) as Hh by (intros x [= <-]; lia).
    unfold sorted in Hso. apply StronglySorted_app in Hso as (_ & _ & Hso).
    destruct (al_greater (flip_cmp cmp) k v (view (c :: Q')) (below_greater k _ Hso Hh)) as (-> & -> & ->). done.
Qed.

Lemma rep_item m s items x : rep m s items -> x ∈ items ->
  ia x <> 0 /\ exists n, m !! ia x = Some n /\ key n = ik x /\ value n = iv x /\ length (next n) = S (ih x).
Proof.
  intros H Hx. split; [|by apply shape_key, (rp_nodes _ _ _ H)].
  pose proof (rp_nz _ _ _ H) as Hnz. rewrite Forall_forall in Hnz. apply Hnz. do 2 right. by apply list_elem_of_fmap_2.
Qed.

(** The order with a new key, and without a key. *)
Lemma skip_sorted_insert P Q x :
  sorted cmp (P ++ Q) -> Forall (above cmp (kb x)) P -> (forall y, head Q = Some y -> 0 < cmp (kb x) (kb y)) -> sorted cmp (P ++ x :: Q).
Proof.
  unfold sorted. rewrite !StronglySorted_app, StronglySorted_cons. intros (H1 & H2 & H3) HP HQ.
  assert (Forall (fun y => flip_cmp cmp (kb x) (kb y) < 0) Q) as HQ'.
  { pose proof (below_greater (kb x) Q H3 HQ) as Hg. unfold greater, view in Hg. by rewrite Forall_fmap in Hg. }
  split; [|done]. intros y z Hy [->|Hz]%elem_of_cons; [|by apply H1]. rewrite Forall_forall in HP. by apply HP.
Qed.

Lemma skip_sorted_delete P Q x : sorted cmp (P ++ x :: Q) -> sorted cmp (P ++ Q).
Proof.
  unfold sorted. rewrite !StronglySorted_app, StronglySorted_cons. intros (H1 & H2 & _ & H3).
  split; [|done]. intros y z Hy Hz. apply (H1 y z Hy). by right.
Qed.

(** The level of a new node, and the last nodes it is linked behind. *)
Lemma raise_spec m s P Q rs :
  rep m s (P ++ Q) -> calm rs ->
  exists lv s' up, raise_level rs s (lasts (header s) P (level s)) = Some (lv, s', up) /\
    header s' = header s /\ tail s' = tail s /\ (S (level s) <= S (level s') < SKIP_LIST_MAX_LEVEL)%nat /\ (lv <= level s')%nat /\
    forall i, (i <= lv)%nat -> up !! i = Some (lastd (header s) (lvl i P)).
Proof.
  intros H (n & Hd & Hn). destruct (rp_level _ _ _ H) as [Hl Hih]. unfold raise_level, get_node_level. rewrite Hd. cbn [mbind option_bind].
  rewrite (decide_False (P := (SKIP_LIST_MAX_LEVEL < n)%nat)) by lia. destruct (decide (level s < n)%nat) as [Hlt|Hge].
  - rewrite (decide_True (P := (S (level s) < SKIP_LIST_MAX_LEVEL)%nat)) by lia. eexists _, _, _. split; [done|]. cbn [header tail level with_level]. split; [done|]. split; [done|].
    split; [lia|]. split; [done|]. intros i Hi. destruct (decide (i = S (level s))) as [->|].
    + rewrite lookup_app_r by (by rewrite length_lasts). rewrite length_lasts, Nat.sub_diag. cbn. by rewrite lvl_high by (intros x Hx; specialize (Hih x ltac:(apply elem_of_app; by left)); lia).
    + rewrite lookup_app_l by (rewrite length_lasts; lia). apply lasts_lookup. lia.
  - eexists _, _, _. split; [done|]. split; [done|]. split; [done|]. split; [lia|]. split; [lia|]. intros i Hi. apply lasts_lookup. lia.
Qed.

Lemma make_node_spec m k v lv :
  (make_node anode malloc m k v lv = Some None /\ (plenty anode malloc -> False)) \/
  exists a, a <> 0 /\ m !! a = None /\
    make_node anode malloc m k v lv = Some (Some (a, <[a := new_node (mk_slice (blen k) k) (mk_slice (blen v) v) lv]> m)).
Proof.
  unfold make_node. destruct (anode m) as [a|] eqn:Ea; [|left; split; [done|]; intros [Hp _]; by apply (Hp m)].
  pose proof (wr_head) as Hw. pose proof (fun b x => Hw b [] x) as Hw'. setoid_rewrite app_nil_r in Hw'.
  destruct (malloc (blen k)) as [kd|] eqn:Ek; [|left; split; [done|]; intros [_ Hp]; by apply (Hp (blen k))].
  rewrite Hw' by (symmetry; apply Hma; [apply blen_nonneg|done]). cbn [mbind option_bind].
  destruct (malloc (blen v)) as [vd|] eqn:Ev; [|left; split; [done|]; intros [_ Hp]; by apply (Hp (blen v))].
  right. destruct (Han _ _ Ea) as [Ha Hn]. exists a. split; [done|]. split; [done|].
  by rewrite Hw' by (symmetry; apply Hma; [apply blen_nonneg|done]).
Qed.

Definition simulated (fuel : nat) (t : skip_t) (l : amap) (c : call) : Prop :=
  exists room t', let s := spec_call cmp room l c in
    do_call anode malloc fuel cmp (Some t) c = Some (fst s, Some t') /\ skip_rep cmp t' (snd s) /\
    (plenty anode malloc -> room = true).

(** The level of a list without room for a node may have been raised. *)
Lemma rep_raise m s s' items :
  rep m s items -> header s' = header s -> tail s' = tail s -> (S (level s) <= S (level s') < SKIP_LIST_MAX_LEVEL)%nat -> rep m s' items.
Proof.
  intros [H1 H2 H3 H4 [_ H5] H6 H7 H8] Hh Ht Hl. constructor; rewrite ?Hh, ?Ht; try done.
  split; [lia|]. intros x Hx. specialize (H5 x Hx). lia.
Qed.

(** A new node at the place of its key. *)
Lemma insert_node_ok t P Q k v rs ret :
  rep (mem t) (list t) (P ++ Q) -> sorted cmp (P ++ Q) -> Forall (fun x => whole (ik x) /\ whole (iv x)) (P ++ Q) -> calm rs ->
  Forall (above cmp k) P -> (forall x, head Q = Some x -> 0 < cmp k (kb x)) ->
  exists room t', insert_node anode malloc rs t (lasts (header (list t)) P (level (list t))) k v ret = Some (if room : bool then ret else -2, t') /\
    skip_rep cmp t' (if room then view P ++ (k, v) :: view Q else view (P ++ Q)) /\ (plenty anode malloc -> room = true).
Proof.
  intros H Hso Hw Hcalm HP Hh. unfold insert_node.
  destruct (raise_spec _ _ _ _ rs H Hcalm) as (lv & s' & up & -> & Hhd & Htl & Hlv & Hle & Hup). cbn [mbind option_bind].
  destruct (make_node_spec (mem t) k v lv) as [[-> Hno]|(a & Ha & Hnone & ->)]; cbn [mbind option_bind].
  { exists false, (mk_state (mem t) s'). split; [done|]. split; [|by intros ?%Hno]. exists (P ++ Q). split; [exact (rep_raise _ (list t) s' _ H Hhd Htl Hlv)|done]. }
  destruct (insert_rep (mem t) (list t) s' P Q a (mk_slice (blen k) k) (mk_slice (blen v) v) lv up H Ha Hnone Hhd Htl Hlv Hle Hup) as (m' & -> & H').
  cbn [mbind option_bind]. exists true, (mk_state m' s'). split; [done|]. split; [|done].
  set (x := mk_item a lv _ _) in *. assert (kb x = k) as Hk by apply slice_all. exists (P ++ x :: Q). split; [done|].
  split; [apply skip_sorted_insert; [done|by rewrite Hk..]|]. split.
  - apply Forall_app in Hw as [Hw1 Hw2]. apply Forall_app. split; [done|]. constructor; [|done]. split; apply whole_bytes.
  - unfold view. rewrite !fmap_app. cbn. unfold x. cbn. by rewrite !slice_all.
Qed.

Lemma skip_insert_ok fuel t l k v rs :
  skip_rep cmp t l -> (length l < fuel)%nat -> calm rs -> simulated fuel t l (Insert k v rs).
Proof.
  intros (items & H & Hso & Hw & <-) Hf Hcalm. unfold view in Hf. rewrite length_fmap in Hf.
  assert (skip_rep cmp t (view items)) as Hrep by (by exists items).
  destruct k as [k|]; [|by exists true, t]. destruct v as [v|]; [|by exists true, t].
  unfold simulated. cbn [do_call spec_call skip_list_insert].
  destruct (skip_search_view fuel t items k v (Some SKIP_LIST_MAX_LEVEL) H Hso Hf) as (P & Q & -> & HP & -> & Hcase); [by intros b [= <-]|].
  cbn [mbind option_bind].
  destruct Hcase as [(c & Q' & -> & Hz & Hsk & _ & -> & _)|(Hsk & _ & Hh & -> & _ & Hins)].
  { exists true, t. cbn [fmap list_fmap headd]. rewrite Hsk. done. }
  rewrite Hsk. cbn [mbind option_bind].
  destruct (insert_node_ok t P Q k v rs 0 H Hso Hw Hcalm HP Hh) as (room & t' & -> & Hrep' & Hp). cbn [mbind option_bind].
  exists room, t'. rewrite Hins. by destruct room.
Qed.

Lemma skip_erase_ok fuel t l k : skip_rep cmp t l -> (length l < fuel)%nat -> simulated fuel t l (Erase k).
Proof.
  intros (items & H & Hso & Hw & <-) Hf. unfold view in Hf. rewrite length_fmap in Hf.
  assert (skip_rep cmp t (view items)) as Hrep by (by exists items).
  destruct k as [k|]; [|by exists true, t]. unfold simulated. cbn [do_call spec_call skip_list_erase].
  destruct (skip_search_view fuel t items k [] (Some SKIP_LIST_MAX_LEVEL) H Hso Hf) as (P & Q & -> & HP & -> & Hcase); [by intros b [= <-]|].
  cbn [mbind option_bind].
  destruct Hcase as [(c & Q' & -> & Hz & _ & Hsk & _ & Her)|(_ & Hsk & _ & _ & Her & _)].
  - cbn [fmap list_fmap headd]. rewrite Hsk. cbn [mbind option_bind].
    destruct (erase_rep _ _ _ _ _ H) as (m' & top & -> & Hlow & H'). cbn [mbind option_bind]. rewrite Hlow. cbn [mbind option_bind].
    exists true. eexists. split; [done|]. split; [|done]. rewrite Her. exists (P ++ Q'). split; [exact H'|].
    split; [by apply (skip_sorted_delete P Q' c)|]. split; [|by rewrite skip_view_app].
    rewrite Forall_app, Forall_cons in Hw. apply Forall_app. tauto.
  - rewrite Hsk. cbn [mbind option_bind]. exists true, t. rewrite Her. done.
Qed.

Lemma skip_find_ok fuel t l k : skip_rep cmp t l -> (length l < fuel)%nat -> simulated fuel t l (Find k).
Proof.
  intros (items & H & Hso & Hw & <-) Hf. unfold view in Hf. rewrite length_fmap in Hf.
  assert (skip_rep cmp t (view items)) as Hrep by (by exists items).
  destruct k as [k|]; [|by exists true, t]. exists true, t. cbn [do_call spec_call skip_list_find fst snd].
  destruct (skip_search_view fuel t items k [] None H Hso Hf) as (P & Q & -> & HP & -> & Hcase); [done|]. cbn [mbind option_bind].
  destruct Hcase as [(c & Q' & -> & Hz & Hsk & _ & -> & _)|(Hsk & _ & _ & -> & _)].
  - cbn [fmap list_fmap headd]. rewrite Hsk. cbn.
    destruct (rep_item _ _ _ c H) as (_ & n & -> & _ & Hv & _); [apply elem_of_app; right; by left|]. cbn. by rewrite Hv.
  - by rewrite Hsk.
Qed.

(** ** Updating *)

(** A node with another value. *)
Lemma rep_value m s P c Q n v :
  rep m s (P ++ c :: Q) -> m !! ia c = Some n ->
  rep (<[ia c := mk_node (key n) v (next n)]> m) s (P ++ mk_item (ia c) (ih c) (ik c) v :: Q).
Proof.
  intros H Hn. pose proof (rp_nodup _ _ _ H) as Hnd. pose proof (rp_nodes _ _ _ H c ltac:(apply elem_of_app; right; by left)) as Hc.
  set (m' := <[ia c := _]> m). set (c' := mk_item _ _ _ v).
  assert (ia <$> P ++ c' :: Q = ia <$> P ++ c :: Q) as Hia by (by rewrite !fmap_app).
  assert (forall i, lvl i (P ++ c' :: Q) = lvl i (P ++ c :: Q)) as Hlvl by (intros i; by rewrite !lvl_app).
  assert (forall b i, get_next m' b i = get_next m b i) as Hg.
  { intros b i. unfold get_next, m'. destruct (decide (ia c = b)) as [<-|]; [by rewrite lookup_insert_eq, Hn|by rewrite lookup_insert_ne]. }
  assert (forall b, b <> ia c -> m' !! b = m !! b) as Ho by (intros b Hb; unfold m'; by rewrite lookup_insert_ne).
  assert (header s <> ia c /\ tail s <> ia c /\ forall x, x ∈ P ++ Q -> ia x <> ia c) as (Hh & Ht & Hx).
  { rewrite fmap_app in Hnd. cbn in Hnd. apply NoDup_cons in Hnd as [H1 Hnd]. apply NoDup_cons in Hnd as [H2 Hnd].
    split; [intros E; apply H1; rewrite E; right; apply elem_of_app; right; by left|].
    split; [intros E; apply H2; rewrite E; apply elem_of_app; right; by left|].
    apply NoDup_app in Hnd as (_ & H3 & H4). apply NoDup_cons in H4 as [H4 _]. intros x Hx E. apply elem_of_app in Hx as [Hx|Hx].
    - apply (H3 (ia c)); [rewrite <- E; by apply list_elem_of_fmap_2|by left].
    - apply H4. rewrite <- E. by apply list_elem_of_fmap_2. }
  constructor.
  - intros x Hxin. assert (x = c' \/ x ∈ P ++ Q) as [->|Hx'] by (rewrite elem_of_app, elem_of_cons in *; tauto).
    + unfold shape in *. cbn. unfold m'. rewrite lookup_insert_eq. rewrite Hn in Hc. cbn in *. congruence.
    + unfold shape. rewrite Ho by (by apply Hx). apply (rp_nodes _ _ _ H). rewrite elem_of_app, elem_of_cons in *. tauto.
  - unfold shape. rewrite Ho by done. apply (rp_header _ _ _ H).
  - rewrite Ho by done. apply (rp_tail _ _ _ H).
  - intros i Hi. rewrite Hlvl. apply (chain_ext m); [done|by apply (rp_chain _ _ _ H)].
  - destruct (rp_level _ _ _ H) as [H1 H2]. split; [done|]. intros x Hxin.
    assert (x = c' \/ x ∈ P ++ c :: Q) as [->|Hx'] by (rewrite elem_of_app, elem_of_cons in *; tauto); [|by apply H2].
    apply (H2 c). apply elem_of_app. right. by left.
  - by rewrite Hia.
  - rewrite Hia. apply (rp_nz _ _ _ H).
  - intros b. rewrite Hia, <- (rp_dom _ _ _ H). destruct (decide (b = ia c)) as [->|Hb]; [|by rewrite Ho].
    unfold m'. rewrite lookup_insert_eq, Hn. split; eauto.
Qed.

Lemma skip_update_new fuel t l k v rs :
  skip_rep cmp t l -> (length l < fuel)%nat -> calm rs -> al_find (flip_cmp cmp) k l = None ->
  exists room t', skip_list_update anode malloc rs fuel cmp (Some t) (Some k) (Some v) = Some (if room : bool then 1 else -2, Some t') /\
    skip_rep cmp t' (if room then al_insert (flip_cmp cmp) k v l else l) /\ (plenty anode malloc -> room = true).
Proof.
  intros (items & H & Hso & Hw & <-) Hf Hcalm Hfind. unfold view in Hf. rewrite length_fmap in Hf. cbn [skip_list_update].
  destruct (skip_search_view fuel t items k v (Some SKIP_LIST_MAX_LEVEL) H Hso Hf) as (P & Q & -> & HP & -> & Hcase); [by intros b [= <-]|].
  cbn [mbind option_bind]. destruct Hcase as [(c & Q' & -> & _ & _ & _ & Hc & _)|(Hsk & _ & Hh & _ & _ & ->)]; [by rewrite Hc in Hfind|].
  rewrite Hsk. cbn [mbind option_bind].
  destruct (insert_node_ok t P Q k v rs 1 H Hso Hw Hcalm HP Hh) as (room & t' & -> & Hrep' & Hp). by exists room, t'.
Qed.

(** What a found key's node becomes is what [update_value] makes of it. *)
Lemma skip_update_found fuel t l k v rs old :
  skip_rep cmp t l -> (length l < fuel)%nat -> al_find (flip_cmp cmp) k l = Some old ->
  exists P c Q n, l = view (P ++ c :: Q) /\ rep (mem t) (list t) (P ++ c :: Q) /\ sorted cmp (P ++ c :: Q) /\
    Forall (fun x => whole (ik x) /\ whole (iv x)) (P ++ c :: Q) /\ mem t !! ia c = Some n /\ key n = ik c /\ value n = iv c /\
    slice_bytes (iv c) = old /\ cmp (kb c) k = 0 /\ smaller (flip_cmp cmp) k (view P) /\
    skip_list_update anode malloc rs fuel cmp (Some t) (Some k) (Some v) =
      ('(r, m) ← update_value malloc (mem t) (ia c) v; Some (r, Some (mk_state m (list t)))).
Proof.
  intros (items & H & Hso & Hw & <-) Hf Hfind. unfold view in Hf. rewrite length_fmap in Hf. cbn [skip_list_update].
  destruct (skip_search_view fuel t items k v (Some SKIP_LIST_MAX_LEVEL) H Hso Hf) as (P & Q & -> & HP & -> & Hcase); [by intros b [= <-]|].
  destruct Hcase as [(c & Q' & -> & Hz & Hsk & _ & Hc & _)|(_ & _ & _ & Hc & _)]; [|by rewrite Hc in Hfind].
  rewrite Hc in Hfind. injection Hfind as <-.
  destruct (rep_item _ _ _ c H) as (_ & n & Hn & Hk & Hv & _); [apply elem_of_app; right; by left|].
  exists P, c, Q', n. do 10 (split; [by (done || apply above_smaller)|]). cbn [mbind option_bind fmap list_fmap headd]. by rewrite Hsk.
Qed.

(** The copy of the first bytes of the new value over the old. *)
Lemma update_value_fits m c n v :
  m !! c = Some n -> whole (key n) -> whole (value n) -> s_size (key n) <= blen v <= s_size (value n) ->
  exists d, update_value malloc m c v = Some (0, <[c := mk_node (key n) (mk_slice (blen v) d) (next n)]> m) /\ blen v <= blen d /\
    take (length v) d = take (Z.to_nat (s_size (key n))) v ++ drop (Z.to_nat (s_size (key n))) (take (length v) (slice_bytes (value n))).
Proof.
  intros Hn [Hk1 Hk2] [Hv1 Hv2] Hs. unfold update_value. rewrite Hn. cbn [mbind option_bind].
  rewrite (proj2 (Z.ltb_ge _ _)) by lia. unfold rd, wr. rewrite decide_True by lia. cbn [mbind option_bind].
  set (ks := Z.to_nat (s_size (key n))). unfold blen in *. rewrite drop_0. rewrite length_take. rewrite decide_True by lia. cbn [mbind option_bind].
  eexists. split; [reflexivity|]. change (Z.to_nat 0) with 0%nat. rewrite take_0, app_nil_l, Nat.add_0_l, Nat.min_l by lia. split.
  - rewrite length_app, length_take, length_drop. lia.
  - rewrite take_app, take_take, length_take. rewrite (Nat.min_r (length v) ks), (Nat.min_l ks) by lia. f_equal.
    unfold slice_bytes. rewrite take_take, (Nat.min_l (length v)) by lia. by rewrite skipn_firstn_comm.
Qed.

(** A greater size: the new block has the old size. *)
Lemma update_value_grows m c n v :
  m !! c = Some n -> whole (key n) -> whole (value n) -> s_size (value n) < blen v ->
  match malloc (s_size (value n)) with
  | None => update_value malloc m c v = Some (-2, m)
  | Some _ =>
      if decide (s_size (key n) <= s_size (value n))
      then exists d, update_value malloc m c v = Some (0, <[c := mk_node (key n) (mk_slice (blen v) d) (next n)]> m) /\ blen d = s_size (value n)
      else update_value malloc m c v = None
  end.
Proof.
  intros Hn [Hk1 Hk2] [Hv1 Hv2] Hs. unfold update_value. rewrite Hn. cbn [mbind option_bind]. rewrite (proj2 (Z.ltb_lt _ _)) by lia.
  destruct (malloc (s_size (value n))) as [b|] eqn:Hb; [|done]. apply Hma in Hb as Hb'; [|done].
  destruct (rd v 0 (s_size (key n))) as [src|] eqn:Hr; cbn [mbind option_bind].
  - apply rd_blen in Hr. destruct (decide (s_size (key n) <= s_size (value n))) as [Hle|Hgt].
    + destruct (wr_Some b 0 src) as [d Hd]; [lia..|]. rewrite Hd. cbn [mbind option_bind]. exists d. split; [done|].
      by rewrite (wr_blen _ _ _ _ Hd).
    + unfold wr. by rewrite decide_False by lia.
  - rewrite decide_False; [done|]. intros Hle. destruct (rd_Some v 0 (s_size (key n))) as [? Hx]; [lia..|]. by rewrite Hx in Hr.
Qed.

Lemma update_value_short m c n v :
  m !! c = Some n -> blen v <= s_size (value n) -> blen v < s_size (key n) -> update_value malloc m c v = None.
Proof.
  intros Hn Hv Hk. unfold update_value. rewrite Hn. cbn [mbind option_bind]. rewrite (proj2 (Z.ltb_ge _ _)) by lia.
  unfold rd. by rewrite decide_False by lia.
Qed.

Lemma skip_spec_call_length room l c : (length (snd (spec_call cmp room l c)) <= S (length l))%nat.
Proof.
  destruct c as [[k|] [v|] rs|[k|]|[k|]]; cbn [spec_call snd]; try lia.
  - destruct (al_find _ k l); [cbn; lia|]. destruct (al_lengths (flip_cmp cmp) k v l). destruct room; cbn; lia.
  - destruct (al_lengths (flip_cmp cmp) k [] l) as (_ & _ & ?). lia.
Qed.

Lemma skip_call_ok fuel t l c :
  skip_rep cmp t l -> (length l < fuel)%nat -> call_calm c ->
  exists room t', do_call anode malloc fuel cmp (Some t) c = Some (fst (spec_call cmp room l c), Some t') /\
    skip_rep cmp t' (snd (spec_call cmp room l c)) /\ (plenty anode malloc -> room = true).
Proof.
  intros Hrep Hf Hc. destruct c as [k v rs|k|k]; [apply skip_insert_ok|apply skip_erase_ok|apply skip_find_ok]; done || lia.
Qed.

End refinement.

(** The allocators of a call keep their promises, and its draws are calm. *)
Definition acall_ok (c : acall) : Prop :=
  let '(anode, malloc, op) := c in node_alloc_ok anode /\ malloc_ok malloc /\ call_calm op.

(** A call whose allocators never fail is not refused. *)
Definition roomy (c : acall) (room : bool) : Prop := let '(anode, malloc, _) := c in plenty anode malloc -> room = true.

Lemma skip_calls_ok cmp `{!KeyOrder cmp} fuel cs : forall t l,
  skip_rep cmp t l -> (length l + length cs < fuel)%nat -> Forall acall_ok cs ->
  exists rooms t', Forall2 roomy cs rooms /\
    do_calls fuel cmp (Some t) cs = Some (fst (spec_calls cmp rooms l (snd <$> cs)), Some t') /\
    skip_rep cmp t' (snd (spec_calls cmp rooms l (snd <$> cs))) /\
    (length (snd (spec_calls cmp rooms l (snd <$> cs))) <= length l + length cs)%nat.
Proof.
  induction cs as [|[[anode malloc] c] cs IH]; intros t l Hrep Hf Hok.
  { exists [], t. cbn. split; [constructor|]. split; [done|]. split; [done|lia]. }
  apply Forall_cons in Hok as [(Han & Hma & Hc) Hok]. cbn [length] in Hf.
  destruct (skip_call_ok cmp anode malloc Han Hma fuel t l c Hrep) as (room & t1 & H1 & Hrep1 & Hp1); [lia|done|].
  pose proof (skip_spec_call_length cmp room l c) as Hlen.
  destruct (IH t1 _ Hrep1) as (rooms & t2 & Hp & H2 & Hrep2 & Hlen2); [lia|done|].
  exists (room :: rooms), t2. split; [by constructor|]. cbn [do_calls spec_calls fmap list_fmap snd]. rewrite H1. cbn [mbind option_bind].
  rewrite H2. cbn [mbind option_bind]. destruct (spec_call cmp room l c) as [r l']. cbn [fst snd] in *.
  destruct (spec_calls cmp rooms l' _) as [rs l'']. cbn [fst snd length] in *. split; [done|]. split; [done|lia].
Qed.

(** ** From the first call to the last *)

Lemma skip_init_rep anode ok :
  node_alloc_ok anode ->
  match skip_list_init anode ok false with
  | (r, Some t) => r = 0 /\ rep (mem t) (list t) []
  | (r, None) => r = -2 /\ (ok = false \/ exists m, anode m = None)
  end.
Proof.
  intros Han. unfold skip_list_init. destruct (anode ∅) as [tl|] eqn:Et; [|split; [done|by right; exists ∅]].
  destruct ok; [|by split; [|left]]. cbn [negb]. set (m := <[tl := _]> ∅). destruct (anode m) as [hd|] eqn:Eh; [|split; [done|by right; exists m]].
  split; [done|]. destruct (Han _ _ Et) as [Ht _]. destruct (Han _ _ Eh) as [Hh Hn].
  assert (hd <> tl) as Hne by (intros ->; unfold m in Hn; by rewrite lookup_insert_eq in Hn).
  constructor; cbn [mem list header tail level fmap list_fmap].
  - by intros x ?%elem_of_nil.
  - unfold shape. by rewrite lookup_insert_eq.
  - rewrite lookup_insert_ne by done. apply lookup_insert_eq.
  - intros i Hi. cbn [lvl chain]. unfold get_next. rewrite lookup_insert_eq. cbn [mbind option_bind next].
    rewrite lookup_app_l, lookup_replicate_2 by (rewrite ?length_replicate; done). done.
  - split; [unfold SKIP_LIST_MAX_LEVEL; lia|by intros x ?%elem_of_nil].
  - apply NoDup_cons. split; [set_solver|]. apply NoDup_singleton.
  - by repeat constructor.
  - intros a. unfold m. rewrite !lookup_insert_is_Some', lookup_empty, !elem_of_cons. split; [intros [->|[->|[? [=]]]]; auto|].
    intros [->|[->|?%elem_of_nil]]; auto; done.
Qed.

Lemma uninit_rep fuel t items :
  rep (mem t) (list t) items -> (length items + 2 < fuel)%nat -> skip_list_uninit fuel (Some t) = Some ∅.
Proof.
  intros H Hf. cbn [skip_list_uninit].
  assert (header (list t) :: lvl 0 items ++ [tail (list t)] ≡ₚ header (list t) :: tail (list t) :: (ia <$> items)) as Hp.
  { rewrite lvl_0. by rewrite <- Permutation_cons_append. }
  destruct (free_chain fuel (tail (list t)) (lvl 0 items) (mem t) (header (list t))) as (m' & -> & Hm').
  - apply (rp_chain _ _ _ H). unfold SKIP_LIST_MAX_LEVEL. lia.
  - unfold get_next. by rewrite (rp_tail _ _ _ H).
  - rewrite Hp. apply (rp_nodup _ _ _ H).
  - rewrite Hp. apply (rp_nz _ _ _ H).
  - by rewrite lvl_0, length_fmap.
  - f_equal. apply map_eq. intros b. rewrite Hm', lookup_empty. case_decide as Hb; [done|].
    apply eq_None_not_Some. intros Hs%(rp_dom _ _ _ H). by rewrite <- Hp in Hs.
Qed.

(** Allocators for the witnesses. *)
Definition anode_top : node_alloc := fun m => Some (top_addr m + 1).

Lemma skip_anode_top_ok : node_alloc_ok anode_top.
Proof.
  intros m a [= <-]. destruct (top_addr_le m) as [H1 H2]. split; [lia|].
  destruct (m !! _) eqn:E; [|done]. specialize (H2 _ (mk_is_Some _ _ E)). lia.
Qed.

(** ** The component *)


(** [skip_list_update] copies as many bytes as the key has, not as the value.
    A key that is not there is inserted, and the answer is 1.  A key that is there,
    with a stored key as long as [k'] and a value [old]:
    - a new value no shorter than the key and no longer than [old] is stored only up to
      the key's length, what follows being left of [old];
    - a value shorter than the key and no longer than [old] is read past its end;
    - a value longer than [old] gets a block of the size of [old], which a
      longer key overruns, and which otherwise is shorter than the size recorded for it. *)
Theorem skip_update_copies_key_size (cmp : compare) (anode : node_alloc) (malloc : malloc_fun) (fuel : nat) (t : skip_t) (l : amap)
  (k v : bytes) (rs : Datatypes.list Z) :
  KeyOrder cmp -> node_alloc_ok anode -> malloc_ok malloc -> skip_rep cmp t l -> (length l < fuel)%nat -> calm rs ->
  let update := skip_list_update anode malloc rs fuel cmp (Some t) (Some k) (Some v) in
  match al_find (flip_cmp cmp) k l with
  | None =>
      exists (room : bool) t', update = Some (if room then 1 else -2, Some t') /\
        skip_rep cmp t' (if room then al_insert (flip_cmp cmp) k v l else l) /\ (plenty anode malloc -> room = true)
  | Some old =>
      exists k', (k', old) ∈ l /\ cmp k' k = 0 /\
        (blen k' <= blen v <= blen old -> exists t', update = Some (0, Some t') /\
           skip_rep cmp t' (al_update (flip_cmp cmp) k (take (length k') v ++ drop (length k') (take (length v) old)) l)) /\
        (blen v <= blen old -> blen v < blen k' -> update = None) /\
        (blen old < blen v ->
           match malloc (blen old) with
           | None => exists t', update = Some (-2, Some t') /\ skip_rep cmp t' l
           | Some _ =>
               if decide (blen k' <= blen old) then exists t' a n, update = Some (0, Some t') /\ mem t' !! a = Some n /\
                 slice_bytes (key n) = k' /\ s_size (value n) = blen v /\ blen (s_data (value n)) = blen old
               else update = None
           end)
  end.
Proof.
  intros Hcmp Han Hma Hrep Hf Hcalm update. destruct (al_find (flip_cmp cmp) k l) as [old|] eqn:Hfind.
  2:{ by apply skip_update_new. }
  destruct (skip_update_found cmp anode malloc fuel t l k v rs old Hrep Hf Hfind)
    as (P & c & Q & n & -> & H & Hso & Hw & Hn & Hk & Hv & Hold & Hz & Hsm & Hup). fold update in Hup.
  assert (whole (ik c) /\ whole (iv c)) as [Hwk Hwv] by (apply Forall_app in Hw as [_ Hw]; by apply Forall_cons in Hw as [? _]).
  pose proof (whole_size _ Hwk) as Hsk. pose proof (whole_size _ Hwv) as Hsv. rewrite Hold in Hsv. fold (kb c) in Hsk.
  pose proof Hwk as Hwk'. pose proof Hwv as Hwv'. rewrite <- Hk in Hwk'. rewrite <- Hv in Hwv'.
  exists (kb c). split; [|split; [done|]]; [|split; [|split]].
  - rewrite skip_view_app. apply elem_of_app. right. rewrite <- Hold. by left.
  - intros Hb. destruct (update_value_fits malloc (mem t) (ia c) n v Hn Hwk' Hwv') as (d & Heq & Hd & Htake); [rewrite Hk, Hv; lia|].
    rewrite Heq in Hup. eexists. split; [exact Hup|]. exists (P ++ mk_item (ia c) (ih c) (ik c) (mk_slice (blen v) d) :: Q).
    split; [by apply rep_value|]. split; [|split].
    + unfold sorted in *. rewrite !StronglySorted_app, !StronglySorted_cons in *. destruct Hso as (Hs1 & Hs2 & Hs3). split; [|done].
      intros x y Hx [->|Hy]%elem_of_cons; [apply (Hs1 x c Hx); by left|apply Hs1; [done|by right]].
    + apply Forall_app in Hw as [Hw1 Hw2]. apply Forall_cons in Hw2 as [_ Hw2]. apply Forall_app. split; [done|]. constructor; [|done].
      split; [done|]. unfold whole. cbn. pose proof (blen_nonneg v). lia.
    + rewrite !skip_view_app. destruct (al_skip (flip_cmp cmp) k (take (length (kb c)) v ++ drop (length (kb c)) (take (length v) old)) (view P) (view (c :: Q)) Hsm)
        as (_ & _ & -> & _). f_equal. cbn. unfold flip_cmp at 1. fold (kb c). rewrite Hz. cbn. do 2 f_equal.
      unfold slice_bytes. cbn. replace (Z.to_nat (blen v)) with (length v) by (unfold blen; lia). rewrite Htake, Hk, Hv, Hold.
      replace (Z.to_nat (s_size (ik c))) with (length (kb c)); [done|]. rewrite <- Hsk. unfold blen. lia.
  - intros Hb1 Hb2. rewrite Hup, (update_value_short malloc _ _ n v Hn); [done|rewrite Hv; lia|rewrite Hk, <- Hsk; exact Hb2].
  - intros Hb. pose proof (update_value_grows malloc Hma (mem t) (ia c) n v Hn Hwk' Hwv') as Hg. rewrite Hv, <- Hsv in Hg.
    specialize (Hg Hb). rewrite Hk, <- Hsk in Hg. destruct (malloc (blen old)).
    + destruct (decide (blen (kb c) <= blen old)); [|by rewrite Hup, Hg]. destruct Hg as (d & Heq & Hd). rewrite Heq in Hup.
      eexists _, (ia c), _. split; [exact Hup|]. cbn [mem]. rewrite lookup_insert_eq. split; [reflexivity|]. cbn [key value s_size s_data]. done.
    + rewrite Hg in Hup. eexists. split; [exact Hup|]. by exists (P ++ c :: Q).
Qed.

(** Seven keys on levels 0 to 3, a key met twice, nil arguments, erasures from
    the ends and the middle. *)
Definition sample_calls : Datatypes.list call :=
  (fun '(k, n) => Insert (Some [k]) (Some [k; k]) (replicate n 0 ++ [65535])) <$>
    [(50, 0%nat); (20, 1%nat); (80, 5%nat); (10, 0%nat); (30, 3%nat); (25, 4%nat); (50, 1%nat); (90, 0%nat)].
Definition sample_calls' : Datatypes.list call :=
  sample_calls ++ [Erase (Some [25]); Find (Some [30]); Erase (Some [90]); Find (Some [90]); Erase (Some [10]);
    Find (Some [20]); Erase (Some [99]); Erase None; Find None; Insert None (Some []) [65535]; Erase (Some [30]); Find (Some [80])].

Definition with_memory (c : call) : acall := (anode_top, malloc_zero, c).

(** The first insertion finds no memory, and the same one then does. *)
Definition sample_acalls : Datatypes.list acall :=
  (anode_top, malloc_fail, Insert (Some [50]) (Some [50; 50]) [65535]) :: (with_memory <$> sample_calls').

Lemma skip_sample_ok : Forall acall_ok sample_acalls.
Proof.
  constructor.
  - split; [apply skip_anode_top_ok|]. split; [apply malloc_fail_ok|]. exists 0%nat. split; [done|unfold SKIP_LIST_MAX_LEVEL; lia].
  - apply Forall_fmap. repeat apply Forall_cons_2; try apply Forall_nil_2;
      (split; [apply skip_anode_top_ok|]; split; [apply malloc_zero_ok|]; try exact I);
      eexists; (split; [vm_compute; reflexivity|unfold SKIP_LIST_MAX_LEVEL; lia]).
Qed.


(** The same calls evaluated. *)
Example skip_sample_run :
  (t ← snd (skip_list_init anode_top true false); fst <$> do_calls 24 lex_cmp (Some t) sample_acalls) =
  Some ([Ret (-2); Ret 0; Ret 0; Ret 0; Ret 0; Ret 0; Ret 0; Ret (-3); Ret 0] ++
    [Void; Got 0 (Some [30; 30]); Void; Got (-2) None; Void; Got 0 (Some [20; 20]); Void; Void; Got (-1) None; Ret (-1); Void; Got 0 (Some [80; 80])]).
Proof. vm_compute. reflexivity. Qed.

(** A node of level 31 is erased with a read behind [update]. *)
Example erase_of_level_31 :
  let tall := fun n => Insert (Some [Z.of_nat n]) (Some []) (replicate n 0 ++ [65535]) in
  let calls := with_memory <$> ((tall <$> seq 1 31) ++ [Find (Some [31]); Erase (Some [31])]) in
  (t ← snd (skip_list_init anode_top true false); fst <$> do_calls 40 lex_cmp (Some t) (take 32 calls)) =
    Some (replicate 31 (Ret 0) ++ [Got 0 (Some [])]) /\
  (t ← snd (skip_list_init anode_top true false); fst <$> do_calls 40 lex_cmp (Some t) calls) = None.
Proof. vm_compute. done. Qed.

(** A list of two entries, made by insertions. *)
Definition two_calls : Datatypes.list acall :=
  with_memory <$> [Insert (Some [1; 2]) (Some [7; 8; 9; 10]) [0; 65535]; Insert (Some [3]) (Some [4]) [65535]].

Definition sample_list : skip_t :=
  default (mk_state ∅ (mk_skip 0 0 0))
    (t ← snd (skip_list_init anode_top true false); do_calls 9 lex_cmp (Some t) two_calls ≫= snd).

Lemma sample_list_rep : skip_rep lex_cmp sample_list [([3], [4]); ([1; 2], [7; 8; 9; 10])].
Proof.
  pose proof (skip_init_rep anode_top true skip_anode_top_ok) as Hi. unfold sample_list.
  destruct (skip_list_init anode_top true false) as [r [t|]] eqn:Ei; [|discriminate Ei]. destruct Hi as [_ Hi].
  destruct (skip_calls_ok lex_cmp 9 two_calls t []) as (rooms & t' & Hp & Hrun & Hrep & _).
  - exists []. split; [done|]. split; [constructor|done].
  - cbn. lia.
  - repeat apply Forall_cons_2; try apply Forall_nil_2; (split; [apply skip_anode_top_ok|]; split; [apply malloc_zero_ok|]);
      eexists; (split; [vm_compute; reflexivity|unfold SKIP_LIST_MAX_LEVEL; lia]).
  - assert (plenty anode_top malloc_zero) as Hpl by (split; intros x Hx; discriminate Hx).
    unfold two_calls in *. cbn [fmap list_fmap with_memory] in *.
    apply Forall2_cons_inv_l in Hp as (r1 & rooms1 & Hr1 & Hp & ->). apply Forall2_cons_inv_l in Hp as (r2 & rooms2 & Hr2 & Hp & ->).
    apply Forall2_nil_inv_l in Hp as ->. specialize (Hr1 Hpl). specialize (Hr2 Hpl). subst r1 r2.
    cbn [snd mbind option_bind]. rewrite Hrun. exact Hrep.
Qed.

(** Three bytes over four leave the third byte of the old value. *)
Lemma skip_update_copies_key_size_witness :
  let update := skip_list_update anode_top malloc_zero [65535] 9 lex_cmp (Some sample_list) (Some [1; 2]) (Some [5; 5; 5]) in
  exists k', (k', [7; 8; 9; 10]) ∈ [([3], [4]); ([1; 2], [7; 8; 9; 10])] /\ lex_cmp k' [1; 2] = 0 /\
    (blen k' <= 3 <= 4 -> exists t', update = Some (0, Some t') /\
       skip_rep lex_cmp t' (al_update (flip_cmp lex_cmp) [1; 2] (take (length k') [5; 5; 5] ++ drop (length k') [7; 8; 9]) [([3], [4]); ([1; 2], [7; 8; 9; 10])])).
Proof.
  destruct (skip_update_copies_key_size lex_cmp anode_top malloc_zero 9 sample_list _ [1; 2] [5; 5; 5] [65535] lex_order
    skip_anode_top_ok malloc_zero_ok sample_list_rep) as (k' & H1 & H2 & H3 & _).
  - cbn. lia.
  - exists 0%nat. split; [vm_compute; reflexivity|unfold SKIP_LIST_MAX_LEVEL; lia].
  - exists k'. exact (conj H1 (conj H2 H3)).
Defined.

(** The found value after that update, and after one that is too long for its block. *)
Example skip_update_run :
  (r ← skip_list_update anode_top malloc_zero [65535] 9 lex_cmp (Some sample_list) (Some [1; 2]) (Some [5; 5; 5]);
   fst <$> do_call anode_top malloc_zero 9 lex_cmp (snd r) (Find (Some [1; 2]))) = Some (Got 0 (Some [5; 5; 9])) /\
  skip_list_update anode_top malloc_zero [65535] 9 lex_cmp (Some sample_list) (Some [1; 2]) (Some [5]) = None.
Proof. vm_compute. done. Qed.

End SkipSpec.
