(* ===== verification/LiskMulHash.v ===== *)
(** * lisk_mul_hash.c: a hash table of rows

    One block of memory holds the rows; row [i] has [prime[i]] slots of
    [elem_size] bytes, and a key has one slot in each row.  A slot starts with the
    key's record and the value's, each a size and a pointer (packed, 12 bytes),
    followed by their bytes.  The model keeps the block byte by byte; a pointer
    into it is its offset.  [get_shm], which maps the memory, is an argument. *)

From S2P Require Import Prelude LiskMath LiskHash AssocMap.

Module MulHash.
Import Math Hash.
Export AMap.

Definition MAX_HASH_ROW : Z := 1000.
Definition sizeof_key_t : Z := 12.
Definition sizeof_value_t : Z := 12.
Definition sizeof_shm_t : Z := 280.
Definition sizeof_mul_hash_t : Z := 46.

(** [cmp] is the argument of the operations. *)
Record mul_hash_t := mk_mul_hash {
  row : Z; col : Z; max_key_size : Z; max_value_size : Z; prime : list Z; data : bytes }.

Definition get_data_key (data : bytes) : option Z := if blen data =? 0 then Some 0 else bkdr64 data (blen data).

(** [key_t] plus [value_t] plus the two greatest sizes, a [u4]. *)
Definition elem_size_of (max_key_size max_value_size : Z) : Z :=
  u4 (sizeof_key_t + sizeof_value_t + max_key_size + max_value_size).

Fixpoint sum_n8 (l : list Z) (acc : Z) : option Z :=
  match l with [] => Some acc | x :: l => acc ← chk_n8 (acc + x); sum_n8 l acc end.

(** [nil_args]: the table's address or the comparison is nil. *)
Definition mul_hash_init (fuel : nat) (get_shm : Z -> bool) (row col max_key_size max_value_size : Z) (nil_args : bool)
  : option (Z * option mul_hash_t) :=
  let max_elem_size := elem_size_of max_key_size max_value_size in
  if nil_args || (row <=? 1) || (MAX_HASH_ROW <=? row) || (col <? 1) || (max_key_size =? 0) || (max_value_size =? 0)
  then Some (-1, None)
  else
    '(num, prime) ← get_prime_arr fuel col row false;
    if num <? row then Some (-2, None)
    else
      elem_num ← sum_n8 prime 0;
      shm_size ← chk_n8 (elem_num * max_elem_size);
      total_size ← chk_n8 (sizeof_shm_t + sizeof_mul_hash_t + 8 * row + shm_size);
      if negb (get_shm total_size) then Some (-2, None)
      else Some (0, Some (mk_mul_hash row col max_key_size max_value_size prime (replicate (Z.to_nat shm_size) 0))).

(** ** Records in the block *)

Definition rd_le (m : bytes) (off n : Z) : option Z := b ← rd m off n; Some (le_combine b).
Definition wr_le (m : bytes) (off : Z) (n : nat) (v : Z) : option bytes := wr m off (le_split n v).

Definition key_size (m : bytes) (root : Z) : option Z := rd_le m root 4.
Definition key_data (m : bytes) (root : Z) : option Z := rd_le m (root + 4) 8.
Definition value_size (m : bytes) (root : Z) : option Z := rd_le m (root + 12) 4.
Definition value_data (m : bytes) (root : Z) : option Z := rd_le m (root + 16) 8.

(** The slot of a hash in a row of [p] slots that starts at slot [start]. *)
Definition root_of (elem_size start p hash : Z) : option Z :=
  if p =? 0 then None else Some (u8 (u8 (start + hash mod p) * elem_size)).

Definition set_elem (m : bytes) (root : Z) (key value : bytes) : option bytes :=
  m ← wr_le m root 4 (blen key);
  m ← wr_le m (root + 12) 4 (blen value);
  m ← wr_le m (root + 4) 8 (root + 24);
  m ← wr m (root + 24) key;
  m ← wr_le m (root + 16) 8 (root + 24 + blen key);
  wr m (root + 24 + blen key) value.

Fixpoint insert_loop (primes : list Z) (m : bytes) (elem_size start hash : Z) (key value : bytes) : option (Z * bytes) :=
  match primes with
  | [] => Some (-2, m)
  | p :: primes =>
      root ← root_of elem_size start p hash;
      ks ← key_size m root;
      if ks =? 0 then m ← set_elem m root key value; Some (0, m)
      else insert_loop primes m elem_size (u8 (start + p)) hash key value
  end.

(** A nil key, one of size 0 and one with nil data are [None] or empty, and so for values. *)
Definition mul_hash_insert (mh : option mul_hash_t) (key value : option bytes) : option (Z * option mul_hash_t) :=
  match mh, key, value with
  | Some mh, Some key, Some value =>
      if (blen key =? 0) || (blen value =? 0) then Some (-1, Some mh)
      else if (max_key_size mh <? blen key) || (max_value_size mh <? blen value) then Some (-1, Some mh)
      else
        hash_key ← get_data_key key;
        '(r, m) ← insert_loop (prime mh) (data mh) (elem_size_of (max_key_size mh) (max_value_size mh)) 0 hash_key key value;
        Some (r, Some (mk_mul_hash (row mh) (col mh) (max_key_size mh) (max_value_size mh) (prime mh) m))
  | _, _, _ => Some (-1, mh)
  end.

(** [cmp] on the record at [root] and the key sought. *)
Definition cmp_at (cmp : compare) (m : bytes) (root : Z) (key : bytes) : option Z :=
  ks ← key_size m root; p ← key_data m root; k ← rd m p ks; Some (cmp k key).

(** The found value is its size and its address. *)
Fixpoint find_loop (cmp : compare) (primes : list Z) (m : bytes) (elem_size start hash : Z) (key : bytes) : option (Z * (Z * Z)) :=
  match primes with
  | [] => Some (-2, (0, 0))
  | p :: primes =>
      root ← root_of elem_size start p hash;
      vs ← value_size m root;
      ks ← key_size m root;
      ret ← (if negb (vs =? 0) && (ks =? blen key) then cmp_at cmp m root key else Some 1);
      if ret =? 0 then d ← value_data m root; Some (0, (vs, d))
      else find_loop cmp primes m elem_size (u8 (start + p)) hash key
  end.

Definition mul_hash_find (cmp : compare) (mh : option mul_hash_t) (key : option bytes) (value_nil : bool) : option (Z * (Z * Z)) :=
  match mh, key with
  | Some mh, Some key =>
      if value_nil || (blen key =? 0) then Some (-1, (0, 0))
      else
        hash_key ← get_data_key key;
        find_loop cmp (prime mh) (data mh) (elem_size_of (max_key_size mh) (max_value_size mh)) 0 hash_key key
  | _, _ => Some (-1, (0, 0))
  end.

Fixpoint erase_loop (cmp : compare) (primes : list Z) (m : bytes) (elem_size start hash : Z) (key : bytes) : option (Z * bytes) :=
  match primes with
  | [] => Some (-2, m)
  | p :: primes =>
      root ← root_of elem_size start p hash;
      ks ← key_size m root;
      ret ← (if ks =? blen key then cmp_at cmp m root key else Some 1);
      if ret =? 0 then m ← wr m root (replicate (Z.to_nat elem_size) 0); Some (0, m)
      else erase_loop cmp primes m elem_size (u8 (start + p)) hash key
  end.

Definition mul_hash_erase (cmp : compare) (mh : option mul_hash_t) (key : option bytes) : option (Z * option mul_hash_t) :=
  match mh, key with
  | Some mh, Some key =>
      if blen key =? 0 then Some (-1, Some mh)
      else
        hash_key ← get_data_key key;
        '(r, m) ← erase_loop cmp (prime mh) (data mh) (elem_size_of (max_key_size mh) (max_value_size mh)) 0 hash_key key;
        Some (r, Some (mk_mul_hash (row mh) (col mh) (max_key_size mh) (max_value_size mh) (prime mh) m))
  | _, _ => Some (-1, mh)
  end.

(** The table is given back; its address is nil afterwards. *)
Definition mul_hash_free (mh : option mul_hash_t) : Z * option mul_hash_t := (0, None).

(** ** The table as rows of slots *)

(** The slots of a key, one in each row. *)
Fixpoint path (primes : list Z) (start hash : Z) : list nat :=
  match primes with [] => [] | p :: primes => Z.to_nat (start + hash mod p) :: path primes (start + p) hash end.

(** Entry [e] is in slot [i]. *)
Definition holds (m : bytes) (es : Z) (i : nat) (e : option (bytes * bytes)) : Prop :=
  let root := Z.of_nat i * es in
  match e with
  | None => key_size m root = Some 0 /\ exists vs, value_size m root = Some vs
  | Some (k, v) =>
      key_size m root = Some (blen k) /\ value_size m root = Some (blen v) /\
      key_data m root = Some (root + 24) /\ value_data m root = Some (root + 24 + blen k) /\
      rd m (root + 24) (blen k) = Some k /\ rd m (root + 24 + blen k) (blen v) = Some v
  end.

(** What is outside slot [i] is unchanged. *)
Definition same_outside (m m' : bytes) (lo hi : Z) : Prop :=
  blen m' = blen m /\ forall o n, o + n <= lo \/ hi <= o -> rd m' o n = rd m o n.

(** An entry that a slot has room for. *)
Definition fits (es : Z) (e : option (bytes * bytes)) : Prop :=
  match e with
  | None => True
  | Some (k, v) => 0 < blen k < U4_MOD /\ 0 < blen v < U4_MOD /\ 24 + blen k + blen v <= es
  end.

(** The block is the slots of [l]. *)
Record table (m : bytes) (es : Z) (l : list (option (bytes * bytes))) : Prop := {
  tb_len : blen m = Z.of_nat (length l) * es;
  tb_es : 24 <= es;
  tb_max : Z.of_nat (length l) * es < 2 ^ 63;
  tb_holds : forall i e, l !! i = Some e -> holds m es i e /\ fits es e;
}.

(** ** Reading and writing records *)

Lemma same_outside_trans m1 m2 m3 lo hi : same_outside m1 m2 lo hi -> same_outside m2 m3 lo hi -> same_outside m1 m3 lo hi.
Proof. intros [H1 H2] [H3 H4]. split; [congruence|]. intros o n Ho. by rewrite H4, H2. Qed.

Lemma wr_outside m off src m' lo hi :
  wr m off src = Some m' -> lo <= off -> off + blen src <= hi -> same_outside m m' lo hi.
Proof. intros Hw Hlo Hhi. split; [by apply (wr_blen _ _ _ _ Hw)|]. intros o n Ho. apply (rd_wr_other _ _ _ _ _ _ Hw). lia. Qed.

Lemma blen_le_split n v : blen (le_split n v) = Z.of_nat n.
Proof. unfold blen. revert v. induction n as [|n IH]; intros v; [done|]. cbn [le_split length]. specialize (IH (v / 256)). lia. Qed.

(** A write of a record's field, and what reads see of it. *)
Lemma wr_le_spec m off n v lo hi :
  0 <= off -> off + Z.of_nat n <= blen m -> lo <= off -> off + Z.of_nat n <= hi -> 0 <= v < 256 ^ Z.of_nat n ->
  exists m', wr_le m off n v = Some m' /\ same_outside m m' lo hi /\ rd_le m' off (Z.of_nat n) = Some v /\
    forall o k, o + k <= off \/ off + Z.of_nat n <= o -> rd m' o k = rd m o k.
Proof.
  intros H0 H1 Hlo Hhi Hv. unfold wr_le, rd_le. destruct (wr_Some m off (le_split n v) H0) as [m' Hm]; [by rewrite blen_le_split|].
  exists m'. split; [done|]. split; [apply (wr_outside _ _ _ _ _ _ Hm Hlo); by rewrite blen_le_split|]. split.
  - pose proof (rd_wr_same _ _ _ _ Hm) as Hr. rewrite blen_le_split in Hr. rewrite Hr. cbn. by rewrite le_combine_split.
  - intros o k Ho. apply (rd_wr_other _ _ _ _ _ _ Hm). by rewrite blen_le_split.
Qed.

Lemma wr_spec m off src lo hi :
  0 <= off -> off + blen src <= blen m -> lo <= off -> off + blen src <= hi ->
  exists m', wr m off src = Some m' /\ same_outside m m' lo hi /\ rd m' off (blen src) = Some src /\
    forall o k, o + k <= off \/ off + blen src <= o -> rd m' o k = rd m o k.
Proof.
  intros H0 H1 Hlo Hhi. destruct (wr_Some m off src H0 H1) as [m' Hm]. exists m'. split; [done|].
  split; [by apply (wr_outside _ _ _ _ _ _ Hm)|]. split; [by apply (rd_wr_same _ _ _ _ Hm)|]. intros o k. apply (rd_wr_other _ _ _ _ _ _ Hm).
Qed.

Lemma set_elem_spec m root es k v :
  0 <= root -> root + es <= blen m -> blen m < 2 ^ 63 -> fits es (Some (k, v)) ->
  exists m', set_elem m root k v = Some m' /\ same_outside m m' root (root + es) /\
    key_size m' root = Some (blen k) /\ value_size m' root = Some (blen v) /\ key_data m' root = Some (root + 24) /\
    value_data m' root = Some (root + 24 + blen k) /\ rd m' (root + 24) (blen k) = Some k /\ rd m' (root + 24 + blen k) (blen v) = Some v.
Proof.
  intros H0 Hm Hmax (Hk & Hv & Hes). unfold U4_MOD in *. pose proof (blen_nonneg k). pose proof (blen_nonneg v). unfold set_elem.
  destruct (wr_le_spec m root 4 (blen k) root (root + es)) as (m1 & -> & S1 & R1 & O1); [cbn; lia..|]. cbn [mbind option_bind].
  destruct (wr_le_spec m1 (root + 12) 4 (blen v) root (root + es)) as (m2 & -> & S2 & R2 & O2);
    [rewrite ?(proj1 S1); cbn; lia..|]. cbn [mbind option_bind].
  assert (blen m2 = blen m) as L2 by (by rewrite (proj1 S2), (proj1 S1)).
  destruct (wr_le_spec m2 (root + 4) 8 (root + 24) root (root + es)) as (m3 & -> & S3 & R3 & O3); [rewrite ?L2; cbn; lia..|]. cbn [mbind option_bind].
  assert (blen m3 = blen m) as L3 by (by rewrite (proj1 S3)).
  destruct (wr_spec m3 (root + 24) k root (root + es)) as (m4 & -> & S4 & R4 & O4); [rewrite ?L3; cbn; lia..|]. cbn [mbind option_bind].
  assert (blen m4 = blen m) as L4 by (by rewrite (proj1 S4)).
  destruct (wr_le_spec m4 (root + 16) 8 (root + 24 + blen k) root (root + es)) as (m5 & -> & S5 & R5 & O5); [rewrite ?L4; cbn; lia..|]. cbn [mbind option_bind].
  assert (blen m5 = blen m) as L5 by (by rewrite (proj1 S5)).
  destruct (wr_spec m5 (root + 24 + blen k) v root (root + es)) as (m6 & -> & S6 & R6 & O6); [rewrite ?L5; cbn; lia..|].
  exists m6. split; [done|]. split; [do 5 (eapply same_outside_trans; [eassumption|]); done|].
  unfold key_size, value_size, key_data, value_data, rd_le in *. cbn [Z.of_nat Pos.of_succ_nat Pos.succ] in *. repeat split.
  - by rewrite O6, O5, O4, O3, O2 by lia.
  - by rewrite O6, O5, O4, O3 by lia.
  - by rewrite O6, O5, O4 by lia.
  - by rewrite O6 by lia.
  - by rewrite O6, O5 by lia.
  - done.
Qed.

(** What a slot holds is in the slot. *)
Lemma holds_same m m' es i e :
  24 <= es -> fits es e ->
  (forall o n, Z.of_nat i * es <= o -> o + n <= Z.of_nat i * es + es -> rd m' o n = rd m o n) -> holds m es i e -> holds m' es i e.
Proof.
  intros Hes Hf Hs. unfold holds, key_size, value_size, key_data, value_data, rd_le. set (root := Z.of_nat i * es) in *.
  destruct e as [[k v]|]; cbn [fits] in Hf.
  - pose proof (blen_nonneg k). pose proof (blen_nonneg v). by rewrite !Hs by lia.
  - by rewrite !Hs by lia.
Qed.

Lemma table_update m m' es l i e :
  table m es l -> (i < length l)%nat -> same_outside m m' (Z.of_nat i * es) (Z.of_nat i * es + es) -> holds m' es i e -> fits es e ->
  table m' es (<[i := e]> l).
Proof.
  intros [H1 H2 H3 H4] Hi [Hl Ho] He Hf. constructor; rewrite ?length_insert; [congruence|done|done|].
  intros j e' Hj. apply list_lookup_insert_Some in Hj as [(<- & <- & _)|[Hne Hj]]; [done|].
  destruct (H4 j e' Hj) as [Hh Hf']. split; [|done]. apply (holds_same m); [done|done| |done]. intros o n Hlo Hhi. apply Ho.
  assert (j < i \/ i < j)%nat as [?|?] by lia; [left|right]; nia.
Qed.

Lemma table_root m es l i : table m es l -> (i < length l)%nat -> 0 <= Z.of_nat i * es /\ Z.of_nat i * es + es <= blen m /\ blen m < 2 ^ 63.
Proof. intros [-> H2 H3 _] Hi. repeat split; [nia|nia|done]. Qed.

Lemma table_set m es l i k v :
  table m es l -> (i < length l)%nat -> fits es (Some (k, v)) ->
  exists m', set_elem m (Z.of_nat i * es) k v = Some m' /\ table m' es (<[i := Some (k, v)]> l).
Proof.
  intros H Hi Hf. destruct (table_root _ _ _ _ H Hi) as (Hr1 & Hr2 & Hr3).
  destruct (set_elem_spec m _ es k v Hr1 Hr2 Hr3 Hf) as (m' & -> & Hs & Hh). exists m'. split; [done|]. by apply (table_update m).
Qed.

Lemma le_combine_zero n : le_combine (replicate n 0) = 0.
Proof. induction n as [|n IH]; [done|]. cbn [replicate le_combine]. by rewrite IH. Qed.

(** Zeroed memory is an empty slot. *)
Lemma holds_zero m es i : 24 <= es -> rd m (Z.of_nat i * es) es = Some (replicate (Z.to_nat es) 0) -> holds m es i None.
Proof.
  intros Hes Hr. unfold holds, key_size, value_size, rd_le. set (root := Z.of_nat i * es) in *.
  assert (forall o n, 0 <= o -> 0 <= n -> o + n <= es -> rd m (root + o) n = Some (replicate (Z.to_nat n) 0)) as Hz.
  { intros o n Ho Hn Hon. unfold rd in *. case_decide as Hd; [|done]. rewrite decide_True by lia. injection Hr as Hr. f_equal.
    rewrite Z2Nat.inj_add, <- drop_drop by lia. apply (f_equal (drop (Z.to_nat o))) in Hr. rewrite drop_replicate, skipn_firstn_comm in Hr.
    apply (f_equal (take (Z.to_nat n))) in Hr. rewrite take_take, take_replicate in Hr.
    rewrite !Nat.min_l in Hr by lia. done. }
  split; [|exists 0]; [rewrite <- (Z.add_0_r root)|]; rewrite Hz by lia; cbn [mbind option_bind]; by rewrite le_combine_zero.
Qed.

Lemma table_clear m es l i :
  table m es l -> (i < length l)%nat ->
  exists m', wr m (Z.of_nat i * es) (replicate (Z.to_nat es) 0) = Some m' /\ table m' es (<[i := None]> l).
Proof.
  intros H Hi. destruct (table_root _ _ _ _ H Hi) as (Hr1 & Hr2 & Hr3). pose proof (tb_es _ _ _ H) as Hes.
  assert (blen (replicate (Z.to_nat es) 0) = es) as Hl by (unfold blen; rewrite length_replicate; lia).
  destruct (wr_spec m (Z.of_nat i * es) (replicate (Z.to_nat es) 0) (Z.of_nat i * es) (Z.of_nat i * es + es)) as (m' & -> & Hs & Hr & _);
    [rewrite ?Hl; lia..|]. rewrite Hl in Hr. exists m'. split; [done|]. apply (table_update m); [done|done|done| |done]. by apply holds_zero.
Qed.

Lemma table_empty n es :
  24 <= es -> Z.of_nat n * es < 2 ^ 63 -> table (replicate (Z.to_nat (Z.of_nat n * es)) 0) es (replicate n None).
Proof.
  intros Hes Hmax. assert (0 <= Z.of_nat n * es) by nia.
  constructor; rewrite ?length_replicate; [unfold blen; rewrite length_replicate; lia|done|done|].
  intros i e [-> Hi]%lookup_replicate. split; [|done]. apply holds_zero; [done|]. unfold rd. unfold blen. rewrite length_replicate.
  rewrite decide_True by nia. f_equal. rewrite drop_replicate, take_replicate. f_equal. nia.
Qed.

(** ** The rows *)

Definition total (primes : list Z) : Z := foldr Z.add 0 primes.

(** Rows from slot [start] that are inside [n] slots. *)
Definition rows_in (primes : list Z) (start : Z) (n : nat) : Prop :=
  Forall (fun p => 0 < p) primes /\ 0 <= start /\ start + total primes <= Z.of_nat n.

Lemma total_nonneg primes : Forall (fun p => 0 < p) primes -> 0 <= total primes.
Proof. induction 1; unfold total in *; cbn [foldr] in *; lia. Qed.

Lemma rows_cons p primes start n hash :
  rows_in (p :: primes) start n -> 0 <= hash ->
  0 < p /\ 0 <= hash mod p < p /\ 0 <= start /\ start + p <= Z.of_nat n /\ rows_in primes (start + p) n.
Proof.
  intros (H1 & H2 & H3) Hh. apply Forall_cons in H1 as [Hp H1]. change (total (p :: primes)) with (p + total primes) in H3. pose proof (total_nonneg _ H1).
  pose proof (Z.mod_pos_bound hash p Hp). repeat split; try lia; done.
Qed.

(** The slot of a key in one row. *)
Lemma slot_spec m es l p primes start hash :
  table m es l -> rows_in (p :: primes) start (length l) -> 0 <= hash ->
  root_of es start p hash = Some (Z.of_nat (Z.to_nat (start + hash mod p)) * es) /\ (Z.to_nat (start + hash mod p) < length l)%nat /\
  u8 (start + p) = start + p.
Proof.
  intros H Hr Hh. destruct (rows_cons _ _ _ _ _ Hr Hh) as (Hp & Hm & Hs & Hl & _). destruct H as [_ Hes Hmax _].
  unfold root_of. rewrite (proj2 (Z.eqb_neq p 0)) by lia. rewrite Z2Nat.id by lia.
  assert (Z.of_nat (length l) <= Z.of_nat (length l) * es) by nia.
  assert (0 <= (start + hash mod p) * es <= Z.of_nat (length l) * es) by nia.
  unfold u8, U8_MOD. rewrite (Z.mod_small (start + hash mod p)) by lia. rewrite (Z.mod_small ((start + hash mod p) * es)), (Z.mod_small (start + p)) by lia.
  repeat split; lia.
Qed.

Lemma path_ge primes start n hash i : rows_in primes start n -> 0 <= hash -> i ∈ path primes start hash -> (Z.to_nat start <= i < n)%nat.
Proof.
  revert start. induction primes as [|p primes IH]; intros start Hr Hh; cbn [path]; [by intros ?%elem_of_nil|].
  destruct (rows_cons _ _ _ _ _ Hr Hh) as (Hp & Hm & Hs & Hl & Hr'). intros [->|Hi]%elem_of_cons; [lia|].
  specialize (IH _ Hr' Hh Hi). lia.
Qed.

(** The slots of a key are in increasing order. *)
Lemma path_before primes start n hash P i Q j :
  rows_in primes start n -> 0 <= hash -> path primes start hash = P ++ i :: Q -> j ∈ path primes start hash -> (j < i)%nat -> j ∈ P.
Proof.
  revert start P. induction primes as [|p primes IH]; intros start P Hr Hh; cbn [path]; [by destruct P|].
  destruct (rows_cons _ _ _ _ _ Hr Hh) as (Hp & Hm & Hs & Hl & Hr'). intros Heq Hj Hlt.
  destruct P as [|x P]; cbn in Heq; injection Heq as Hx Heq.
  - exfalso. apply elem_of_cons in Hj as [->|Hj]; [lia|]. pose proof (path_ge _ _ _ _ _ Hr' Hh Hj). lia.
  - apply elem_of_cons in Hj as [->|Hj]; [rewrite Hx; by left|]. right. by apply (IH (start + p)).
Qed.

(** ** The three searches *)

(** The comparison decides equality of keys of the same size. *)
Definition cmp_eq (cmp : compare) : Prop := forall a b, blen a = blen b -> (cmp a b = 0 <-> a = b).

(** The slot holds the key. *)
Definition keyed (l : list (option (bytes * bytes))) (k : bytes) (i : nat) : Prop := exists v, l !! i = Some (Some (k, v)).

Section scan.
Context (cmp : compare) (Hcmp : cmp_eq cmp) (m : bytes) (es : Z) (l : list (option (bytes * bytes))) (H : table m es l).

Lemma cmp_at_spec i k v key : l !! i = Some (Some (k, v)) -> cmp_at cmp m (Z.of_nat i * es) key = Some (cmp k key).
Proof.
  intros Hi. destruct (tb_holds _ _ _ H _ _ Hi) as [(Hks & _ & Hkd & _ & Hk & _) _]. unfold cmp_at.
  rewrite Hks, Hkd. cbn [mbind option_bind]. by rewrite Hk.
Qed.

(** The tests of [mul_hash_find] and of [mul_hash_erase] at a slot. *)
Lemma slot_test i key :
  (i < length l)%nat -> blen key <> 0 ->
  exists vs ks ret, value_size m (Z.of_nat i * es) = Some vs /\ key_size m (Z.of_nat i * es) = Some ks /\
    (if negb (vs =? 0) && (ks =? blen key) then cmp_at cmp m (Z.of_nat i * es) key else Some 1) = Some ret /\
    (if ks =? blen key then cmp_at cmp m (Z.of_nat i * es) key else Some 1) = Some ret /\ (ret = 0 <-> keyed l key i).
Proof.
  intros Hi Hkey. destruct (lookup_lt_is_Some_2 l i Hi) as [e He]. unfold keyed. destruct (tb_holds _ _ _ H _ _ He) as [Hh Hf].
  destruct e as [[k v]|].
  - destruct Hh as (Hks & Hvs & _). destruct Hf as (Hf1 & Hf2 & _). exists (blen v), (blen k). rewrite Hks, Hvs, (cmp_at_spec i k v key He).
    rewrite (proj2 (Z.eqb_neq (blen v) 0)) by lia. cbn [negb andb].
    destruct (Z.eqb_spec (blen k) (blen key)) as [Hsz|Hsz].
    + eexists. do 4 (split; [done|]). rewrite (Hcmp k key Hsz), He. split; [intros ->; by exists v|intros [v' [=]]; done].
    + exists 1. do 4 (split; [done|]). rewrite He. split; [done|]. intros [v' [= -> ->]]. done.
  - destruct Hh as (Hks & vs & Hvs). exists vs, 0, 1. rewrite Hks, Hvs. rewrite (proj2 (Z.eqb_neq 0 (blen key))) by lia.
    rewrite andb_false_r. do 4 (split; [done|]). rewrite He. split; [done|]. intros [v' [=]].
Qed.

Lemma find_loop_spec primes start hash key :
  rows_in primes start (length l) -> 0 <= hash -> blen key <> 0 ->
  (exists P i Q v, path primes start hash = P ++ i :: Q /\ l !! i = Some (Some (key, v)) /\ Forall (fun j => ~ keyed l key j) P /\
     find_loop cmp primes m es start hash key = Some (0, (blen v, Z.of_nat i * es + 24 + blen key))) \/
  (Forall (fun j => ~ keyed l key j) (path primes start hash) /\ find_loop cmp primes m es start hash key = Some (-2, (0, 0))).
Proof.
  revert start. induction primes as [|p primes IH]; intros start Hr Hh Hkey; [by right|]. cbn [find_loop path].
  destruct (slot_spec _ _ _ _ _ _ _ H Hr Hh) as (-> & Hi & ->). destruct (rows_cons _ _ _ _ _ Hr Hh) as (_ & _ & _ & _ & Hr').
  set (i := Z.to_nat (start + hash mod p)) in *. cbn [mbind option_bind].
  destruct (slot_test i key Hi Hkey) as (vs & ks & ret & Hvs & -> & Htest & _ & Hret). rewrite Hvs. cbn [mbind option_bind]. rewrite Htest. cbn [mbind option_bind].
  destruct (Z.eqb_spec ret 0) as [Hz|Hz].
  - left. apply Hret in Hz as [v Hv]. exists [], i, (path primes (start + p) hash), v. split; [done|]. split; [done|]. split; [constructor|].
    destruct (tb_holds _ _ _ H _ _ Hv) as [(_ & Hvs' & _ & -> & _) _]. rewrite Hvs' in Hvs. by injection Hvs as <-.
  - destruct (IH _ Hr' Hh Hkey) as [(P & j & Q & v & -> & Hj & HP & ->)|[HP ->]]; [left|right].
    + exists (i :: P), j, Q, v. split; [done|]. split; [done|]. split; [|done]. constructor; [tauto|done].
    + split; [|done]. constructor; [tauto|done].
Qed.

Lemma erase_loop_spec primes start hash key :
  rows_in primes start (length l) -> 0 <= hash -> blen key <> 0 ->
  (exists P i Q v m', path primes start hash = P ++ i :: Q /\ l !! i = Some (Some (key, v)) /\ Forall (fun j => ~ keyed l key j) P /\
     erase_loop cmp primes m es start hash key = Some (0, m') /\ table m' es (<[i := None]> l)) \/
  (Forall (fun j => ~ keyed l key j) (path primes start hash) /\ erase_loop cmp primes m es start hash key = Some (-2, m)).
Proof.
  revert start. induction primes as [|p primes IH]; intros start Hr Hh Hkey; [by right|]. cbn [erase_loop path].
  destruct (slot_spec _ _ _ _ _ _ _ H Hr Hh) as (-> & Hi & ->). destruct (rows_cons _ _ _ _ _ Hr Hh) as (_ & _ & _ & _ & Hr').
  set (i := Z.to_nat (start + hash mod p)) in *. cbn [mbind option_bind].
  destruct (slot_test i key Hi Hkey) as (vs & ks & ret & _ & -> & _ & Htest & Hret). cbn [mbind option_bind]. rewrite Htest. cbn [mbind option_bind].
  destruct (Z.eqb_spec ret 0) as [Hz|Hz].
  - left. apply Hret in Hz as [v Hv]. destruct (table_clear _ _ _ _ H Hi) as (m' & -> & Hm').
    by exists [], i, (path primes (start + p) hash), v, m'.
  - destruct (IH _ Hr' Hh Hkey) as [(P & j & Q & v & m' & -> & Hj & HP & -> & Hm')|[HP ->]]; [left|right].
    + exists (i :: P), j, Q, v, m'. split; [done|]. split; [done|]. split; [|done]. constructor; [tauto|done].
    + split; [|done]. constructor; [tauto|done].
Qed.

Lemma insert_loop_spec primes start hash key value :
  rows_in primes start (length l) -> 0 <= hash -> fits es (Some (key, value)) ->
  (exists P i Q m', path primes start hash = P ++ i :: Q /\ l !! i = Some None /\
     insert_loop primes m es start hash key value = Some (0, m') /\ table m' es (<[i := Some (key, value)]> l)) \/
  (Forall (fun j => exists e, l !! j = Some (Some e)) (path primes start hash) /\
     insert_loop primes m es start hash key value = Some (-2, m)).
Proof.
  revert start. induction primes as [|p primes IH]; intros start Hr Hh Hf; [by right|]. cbn [insert_loop path].
  destruct (slot_spec _ _ _ _ _ _ _ H Hr Hh) as (-> & Hi & ->). destruct (rows_cons _ _ _ _ _ Hr Hh) as (_ & _ & _ & _ & Hr').
  set (i := Z.to_nat (start + hash mod p)) in *. cbn [mbind option_bind].
  destruct (lookup_lt_is_Some_2 l i Hi) as [e He]. destruct (tb_holds _ _ _ H _ _ He) as [Hho Hfe]. destruct e as [[k v]|].
  - destruct Hho as (-> & _). destruct Hfe as (Hk & _). cbn [mbind option_bind]. rewrite (proj2 (Z.eqb_neq (blen k) 0)) by lia.
    destruct (IH _ Hr' Hh Hf) as [(P & j & Q & m' & -> & Hj & -> & Hm')|[HP ->]]; [left|right].
    + by exists (i :: P), j, Q, m'.
    + split; [|done]. constructor; [by exists (k, v)|done].
  - destruct Hho as (-> & _). cbn [mbind option_bind]. rewrite Z.eqb_refl. left.
    destruct (table_set _ _ _ _ key value H Hi Hf) as (m' & -> & Hm'). by exists [], i, (path primes (start + p) hash), m'.
Qed.

End scan.

End MulHash.
