(* ===== verification/LiskMulHashSpec.v ===== *)
(** * The hash table of rows as a list of entries

    What the operations of lisk_mul_hash.c do to the entries, in the order of
    their slots.  A key may have several, as insertion does not look for one;
    finding and erasing take the first. *)

From Stdlib Require Import Znumtheory.
From S2P Require Import Prelude LiskMath LiskHash AssocMap LiskMulHash.

Module MulHashSpec.
Import Math Hash MulHash.

(** ** Calls *)

Inductive call :=
  | Insert (k v : option bytes)
  | Find (k : option bytes)
  | Erase (k : option bytes).

Inductive result := Ret (r : Z) | Got (r : Z) (v : option bytes).

Definition do_call (cmp : compare) (mh : option mul_hash_t) (c : call) : option (result * option mul_hash_t) :=
  match c with
  | Insert k v => '(r, mh) ← mul_hash_insert mh k v; Some (Ret r, mh)
  | Erase k => '(r, mh) ← mul_hash_erase cmp mh k; Some (Ret r, mh)
  | Find k =>
      '(r, (vs, d)) ← mul_hash_find cmp mh k false;
      v ← (if r =? 0 then h ← mh; v ← rd (data h) d vs; Some (Some v) else Some None);
      Some (Got r v, mh)
  end.

Fixpoint do_calls (cmp : compare) (mh : option mul_hash_t) (cs : list call) : option (list result * option mul_hash_t) :=
  match cs with
  | [] => Some ([], mh)
  | c :: cs => '(r, mh) ← do_call cmp mh c; '(rs, mh) ← do_calls cmp mh cs; Some (r :: rs, mh)
  end.

(** ** The specification *)

Definition same_key : compare := fun a b => if decide (a = b) then 0 else 1.

Definition given (max : Z) (b : option bytes) : bool := if b is Some b then (0 <? blen b) && (blen b <=? max) else false.

Definition spec_find (k : option bytes) (l : amap) : result :=
  match k with
  | Some ((_ :: _) as k) => if al_find same_key k l is Some v then Got 0 (Some v) else Got (-2) None
  | _ => Got (-1) None
  end.

Definition spec_erase (k : option bytes) (l : amap) : result * amap :=
  match k with
  | Some ((_ :: _) as k) => (Ret (if al_find same_key k l is Some _ then 0 else -2), al_erase same_key k l)
  | _ => (Ret (-1), l)
  end.

Section spec.
Context (rows max_key max_value : Z).

(** An entry goes in anywhere; one may be refused when there are as many entries as rows. *)
Inductive step (l : amap) : call -> result -> amap -> Prop :=
  | step_insert l1 l2 k v :
      l = l1 ++ l2 -> given max_key (Some k) -> given max_value (Some v) -> step l (Insert (Some k) (Some v)) (Ret 0) (l1 ++ (k, v) :: l2)
  | step_full k v :
      given max_key k -> given max_value v -> rows <= Z.of_nat (length l) -> step l (Insert k v) (Ret (-2)) l
  | step_bad k v : given max_key k && given max_value v = false -> step l (Insert k v) (Ret (-1)) l
  | step_find k : step l (Find k) (spec_find k l) l
  | step_erase k : step l (Erase k) (fst (spec_erase k l)) (snd (spec_erase k l)).

Inductive steps : amap -> list call -> list result -> amap -> Prop :=
  | steps_nil l : steps l [] [] l
  | steps_cons l c r l' cs rs l'' : step l c r l' -> steps l' cs rs l'' -> steps l (c :: cs) (r :: rs) l''.

End spec.

(** ** The refinement *)

Abbreviation slots := (list (option (bytes * bytes))).

Definition entries (l : slots) : amap := omap id l.

Record hash_rep (mh : mul_hash_t) (l : slots) : Prop := {
  hr_table : table (data mh) (elem_size_of (max_key_size mh) (max_value_size mh)) l;
  hr_sizes : 0 < max_key_size mh /\ 0 < max_value_size mh /\ 24 + max_key_size mh + max_value_size mh < U4_MOD;
  hr_rows : rows_in (MulHash.prime mh) 0 (length l) /\ Z.of_nat (length (MulHash.prime mh)) = row mh;
  hr_keys : forall i k v, l !! i = Some (Some (k, v)) -> exists h, get_data_key k = Some h /\ i ∈ path (MulHash.prime mh) 0 h;
}.

Lemma elem_size_eq mk mv : 0 < mk -> 0 < mv -> 24 + mk + mv < U4_MOD -> elem_size_of mk mv = 24 + mk + mv.
Proof. intros. unfold elem_size_of, u4. apply Z.mod_small. unfold sizeof_key_t, sizeof_value_t. lia. Qed.

Lemma get_data_key_Some k : exists h, get_data_key k = Some h /\ 0 <= h.
Proof.
  unfold get_data_key. destruct (blen k =? 0); [by exists 0|]. pose proof (blen_nonneg k) as Hk.
  destruct (bkdr_eq k (blen k)) as [_ ->]; [lia|]. eexists. split; [done|]. apply Z.mod_pos_bound. lia.
Qed.

Lemma entries_app l l' : entries (l ++ l') = entries l ++ entries l'.
Proof. apply omap_app. Qed.

Definition one (e : option (bytes * bytes)) : amap := match e with Some x => [x] | None => [] end.

(** The entries before and after a slot. *)
Lemma entries_at l i e : l !! i = Some e -> entries l = entries (take i l) ++ one e ++ entries (drop (S i) l).
Proof.
  intros He. rewrite <- (take_drop_middle l i e He) at 1. rewrite entries_app. f_equal. destruct e; done.
Qed.

Lemma entries_insert l i e : (i < length l)%nat -> entries (<[i := e]> l) = entries (take i l) ++ one e ++ entries (drop (S i) l).
Proof.
  intros Hi. rewrite insert_take_drop by done. rewrite entries_app. f_equal. destruct e; done.
Qed.

Lemma entries_elem l x : x ∈ entries l <-> exists i, l !! i = Some (Some x).
Proof.
  unfold entries. rewrite list_elem_of_omap. setoid_rewrite list_elem_of_lookup. split.
  - intros (e & [i Hi] & He). cbn in He. subst e. by exists i.
  - intros [i Hi]. exists (Some x). split; [by exists i|done].
Qed.

Lemma entries_none n : entries (replicate n None) = [].
Proof. induction n as [|n IH]; [done|exact IH]. Qed.

(** Occupied slots are as many entries. *)
Lemma entries_count l (I : list nat) :
  NoDup I -> Forall (fun j => exists e, l !! j = Some (Some e)) I -> (length I <= length (entries l))%nat.
Proof.
  revert I. induction l as [|x l IH] using rev_ind; intros I Hnd HI.
  { destruct I as [|j I]; [cbn; lia|]. apply Forall_cons in HI as [[e He] _]. by rewrite lookup_nil in He. }
  rewrite entries_app, length_app.
  assert (forall J, NoDup J -> length l ∉ J -> Forall (fun j => exists e, (l ++ [x]) !! j = Some (Some e)) J -> (length J <= length (entries l))%nat) as Hlow.
  { intros J HJ Hn HfJ. apply IH; [done|]. rewrite Forall_forall in HfJ |- *. intros j Hj. destruct (HfJ j Hj) as [e He]. exists e.
    assert (j <> length l) by (intros ->; done). assert (j < length (l ++ [x]))%nat as Hlt by (apply lookup_lt_is_Some; eauto).
    rewrite length_app in Hlt. cbn in Hlt. by rewrite lookup_app_l in He by lia. }
  destruct (decide (length l ∈ I)) as [Hin|Hn]; [|specialize (Hlow I Hnd Hn HI); lia].
  pose proof HI as HI'. rewrite Forall_forall in HI'. destruct (HI' _ Hin) as [e He].
  rewrite lookup_app_r, Nat.sub_diag in He by done. cbn in He. injection He as ->.
  apply list_elem_of_split in Hin as (I1 & I2 & ->). assert (I1 ++ length l :: I2 ≡ₚ length l :: I1 ++ I2) as Hp by solve_Permutation.
  rewrite Hp in Hnd, HI |- *. apply NoDup_cons in Hnd as [Hn Hnd]. apply Forall_cons in HI as [_ HI]. specialize (Hlow _ Hnd Hn HI). cbn. lia.
Qed.

Lemma path_nodup primes start n hash : rows_in primes start n -> 0 <= hash -> NoDup (path primes start hash).
Proof.
  revert start. induction primes as [|p primes IH]; intros start Hr Hh; cbn [path]; [constructor|].
  destruct (rows_cons _ _ _ _ _ Hr Hh) as (Hp & Hm & Hs & Hl & Hr'). constructor; [|by apply IH].
  intros Hi. pose proof (path_ge _ _ _ _ _ Hr' Hh Hi). lia.
Qed.

Lemma length_path primes start hash : length (path primes start hash) = length primes.
Proof. revert start. induction primes as [|p primes IH]; intros start; cbn; [done|by rewrite IH]. Qed.

Lemma same_key_skip k (l : amap) : (forall v, (k, v) ∉ l) -> smaller same_key k l.
Proof.
  intros Hn. unfold smaller. apply Forall_forall. intros [k' v] Hin. cbn. unfold same_key. case_decide as Hk; [|lia].
  subst k'. by apply Hn in Hin.
Qed.

Section refinement.
Context (cmp : compare) (Hcmp : cmp_eq cmp).

(** The search of a key's rows, and of the entries. *)
Lemma first_keyed mh l k h P i Q v :
  hash_rep mh l -> get_data_key k = Some h -> 0 <= h -> path (MulHash.prime mh) 0 h = P ++ i :: Q ->
  Forall (fun j => ~ keyed l k j) P -> l !! i = Some (Some (k, v)) -> smaller same_key k (entries (take i l)).
Proof.
  intros H Hk Hh Hp HP Hi. apply same_key_skip. intros v' [j Hj]%entries_elem. apply lookup_take_Some in Hj as [Hj Hlt].
  destruct (hr_keys _ _ H _ _ _ Hj) as (h' & Hk' & Hin). rewrite Hk in Hk'. injection Hk' as <-.
  rewrite Forall_forall in HP. apply (HP j); [|by exists v']. by apply (path_before _ 0 (length l) h P i Q j (proj1 (hr_rows _ _ H))).
Qed.

Lemma none_keyed mh l k h :
  hash_rep mh l -> get_data_key k = Some h -> Forall (fun j => ~ keyed l k j) (path (MulHash.prime mh) 0 h) ->
  smaller same_key k (entries l).
Proof.
  intros H Hk HP. apply same_key_skip. intros v' [j Hj]%entries_elem.
  destruct (hr_keys _ _ H _ _ _ Hj) as (h' & Hk' & Hin). rewrite Hk in Hk'. injection Hk' as <-.
  rewrite Forall_forall in HP. apply (HP j Hin). by exists v'.
Qed.

Definition simulated (mh : mul_hash_t) (l : slots) (c : call) : Prop :=
  exists r mh' l', do_call cmp (Some mh) c = Some (r, Some mh') /\ hash_rep mh' l' /\
    (row mh' = row mh /\ max_key_size mh' = max_key_size mh /\ max_value_size mh' = max_value_size mh) /\
    step (row mh) (max_key_size mh) (max_value_size mh) (entries l) c r (entries l').

Lemma same_key_at k v A B :
  smaller same_key k A -> al_find same_key k (A ++ (k, v) :: B) = Some v /\ al_erase same_key k (A ++ (k, v) :: B) = A ++ B.
Proof.
  intros HA. destruct (al_skip same_key k v A ((k, v) :: B) HA) as (-> & _ & _ & ->). cbn. unfold same_key.
  by rewrite decide_True.
Qed.

Lemma same_key_none k (l : amap) : smaller same_key k l -> al_find same_key k l = None /\ al_erase same_key k l = l.
Proof.
  intros Hl. destruct (al_skip same_key k [] l [] Hl) as (H1 & _ & _ & H2). rewrite app_nil_r in *. cbn in *. by rewrite app_nil_r in H2.
Qed.

Lemma mh_find_ok mh l k : hash_rep mh l -> simulated mh l (Find k).
Proof.
  intros H. destruct k as [[|b k]|];
    [exists (Got (-1) None), mh, l; do 3 (split; [done|]); exact (step_find _ _ _ _ (Some []))|
    |exists (Got (-1) None), mh, l; do 3 (split; [done|]); exact (step_find _ _ _ _ None)].
  set (key := b :: k). assert (blen key <> 0) as Hk by (unfold blen, key; cbn; lia). destruct (get_data_key_Some key) as (h & Hh & Hh0).
  unfold simulated. cbn [do_call mul_hash_find orb]. fold key. rewrite (proj2 (Z.eqb_neq _ _) Hk), Hh. cbn [mbind option_bind].
  destruct (find_loop_spec cmp Hcmp _ _ l (hr_table _ _ H) (MulHash.prime mh) 0 h key (proj1 (hr_rows _ _ H)) Hh0 Hk)
    as [(P & i & Q & v & Hp & Hi & HP & ->)|[HP ->]]; cbn [mbind option_bind].
  - destruct (tb_holds _ _ _ (hr_table _ _ H) _ _ Hi) as [(_ & _ & _ & _ & _ & Hv) _]. cbn. rewrite Hv. cbn.
    exists (Got 0 (Some v)), mh, l. split; [done|]. split; [done|]. split; [done|].
    replace (Got 0 (Some v)) with (spec_find (Some key) (entries l)); [apply step_find|]. cbn [spec_find key]. fold key.
    rewrite (entries_at _ _ _ Hi). cbn [one app]. by rewrite (proj1 (same_key_at key v _ _ (first_keyed mh l key h P i Q v H Hh Hh0 Hp HP Hi))).
  - exists (Got (-2) None), mh, l. split; [done|]. split; [done|]. split; [done|].
    replace (Got (-2) None) with (spec_find (Some key) (entries l)); [apply step_find|]. cbn [spec_find key]. fold key.
    by rewrite (proj1 (same_key_none key _ (none_keyed mh l key h H Hh HP))).
Qed.

Lemma mh_erase_ok mh l k : hash_rep mh l -> simulated mh l (Erase k).
Proof.
  intros H. destruct k as [[|b k]|];
    [exists (Ret (-1)), mh, l; do 3 (split; [done|]); exact (step_erase _ _ _ _ (Some []))|
    |exists (Ret (-1)), mh, l; do 3 (split; [done|]); exact (step_erase _ _ _ _ None)].
  set (key := b :: k). assert (blen key <> 0) as Hk by (unfold blen, key; cbn; lia). destruct (get_data_key_Some key) as (h & Hh & Hh0).
  unfold simulated. cbn [do_call mul_hash_erase]. fold key. rewrite (proj2 (Z.eqb_neq _ _) Hk), Hh. cbn [mbind option_bind].
  pose proof (step_erase (row mh) (max_key_size mh) (max_value_size mh) (entries l) (Some key)) as Hstep. cbn [spec_erase key] in Hstep. fold key in Hstep.
  destruct (erase_loop_spec cmp Hcmp _ _ l (hr_table _ _ H) (MulHash.prime mh) 0 h key (proj1 (hr_rows _ _ H)) Hh0 Hk)
    as [(P & i & Q & v & m' & Hp & Hi & HP & -> & Hm')|[HP ->]]; cbn [mbind option_bind].
  - eexists (Ret 0), _, (<[i:=None]> l). split; [done|]. split; [|split; [done|]].
    + destruct H as [_ H2 [H3 H4] H5]. constructor; cbn; [done|done|by rewrite length_insert|].
      intros j k' v' Hj. apply list_lookup_insert_Some in Hj as [(_ & [=] & _)|[_ Hj]]. by apply (H5 j k' v').
    + pose proof (lookup_lt_Some _ _ _ Hi) as Hlt. rewrite (entries_insert _ _ _ Hlt). rewrite (entries_at _ _ _ Hi) in Hstep |- *.
      cbn [one app] in *. destruct (same_key_at key v _ (entries (drop (S i) l)) (first_keyed mh l key h P i Q v H Hh Hh0 Hp HP Hi)) as [Hf He].
      by rewrite Hf, He in Hstep.
  - destruct (same_key_none key _ (none_keyed mh l key h H Hh HP)) as [Hf He]. rewrite Hf, He in Hstep.
    exists (Ret (-2)), (mk_mul_hash (row mh) (col mh) (max_key_size mh) (max_value_size mh) (MulHash.prime mh) (data mh)), l.
    split; [done|]. split; [by destruct H|]. split; [done|exact Hstep].
Qed.

Lemma mh_insert_ok mh l k v : hash_rep mh l -> simulated mh l (Insert k v).
Proof.
  intros H. pose proof (step_bad (row mh) (max_key_size mh) (max_value_size mh) (entries l) k v) as Hbad.
  assert (given (max_key_size mh) k && given (max_value_size mh) v = false -> mul_hash_insert (Some mh) k v = Some (-1, Some mh)) as Hno.
  { destruct k as [k|], v as [v|]; cbn; try done. pose proof (blen_nonneg k). pose proof (blen_nonneg v). intros Hg.
    destruct ((blen k =? 0) || (blen v =? 0)) eqn:E1; [done|]. to_prop.
    destruct ((max_key_size mh <? blen k) || (max_value_size mh <? blen v)) eqn:E2; [done|]. to_prop. exfalso.
    rewrite (proj2 (Z.ltb_lt _ _)), (proj2 (Z.leb_le _ _)), (proj2 (Z.ltb_lt _ _)), (proj2 (Z.leb_le _ _)) in Hg by lia. done. }
  destruct (given (max_key_size mh) k && given (max_value_size mh) v) eqn:Hg.
  2:{ exists (Ret (-1)), mh, l. cbn [do_call]. rewrite Hno by done. do 3 (split; [done|]). by apply Hbad. }
  clear Hbad Hno. apply andb_true_iff in Hg as [Hgk Hgv]. destruct k as [k|]; [|done]. destruct v as [v|]; [|done].
  unfold simulated. cbn [do_call mul_hash_insert]. assert (0 < blen k <= max_key_size mh /\ 0 < blen v <= max_value_size mh) as [Hk Hv].
  { cbn in Hgk, Hgv. to_prop. lia. }
  rewrite (proj2 (Z.eqb_neq (blen k) 0)), (proj2 (Z.eqb_neq (blen v) 0)), (proj2 (Z.ltb_ge _ _)), (proj2 (Z.ltb_ge _ _)) by lia. cbn [orb].
  destruct (get_data_key_Some k) as (h & Hh & Hh0). rewrite Hh. cbn [mbind option_bind].
  destruct (hr_sizes _ _ H) as (Hs1 & Hs2 & Hs3). assert (fits (elem_size_of (max_key_size mh) (max_value_size mh)) (Some (k, v))) as Hf.
  { rewrite elem_size_eq by done. cbn. lia. }
  destruct (insert_loop_spec _ _ l (hr_table _ _ H) (MulHash.prime mh) 0 h k v (proj1 (hr_rows _ _ H)) Hh0 Hf)
    as [(P & i & Q & m' & Hp & Hi & -> & Hm')|[HP ->]]; cbn [mbind option_bind].
  - eexists (Ret 0), _, (<[i:=Some (k, v)]> l). split; [done|]. split; [|split; [done|]].
    + destruct H as [_ H2 [H3 H4] H5]. constructor; cbn; [done|done|by rewrite length_insert|].
      intros j k' v' Hj. apply list_lookup_insert_Some in Hj as [(<- & [= <- <-] & _)|[_ Hj]]; [|by apply (H5 j k' v')].
      exists h. split; [done|]. rewrite Hp. apply elem_of_app. right. by left.
    + pose proof (lookup_lt_Some _ _ _ Hi) as Hlt. rewrite (entries_insert _ _ _ Hlt). apply step_insert; [by rewrite (entries_at _ _ _ Hi)|by rewrite Hgk|by rewrite Hgv].
  - exists (Ret (-2)), (mk_mul_hash (row mh) (col mh) (max_key_size mh) (max_value_size mh) (MulHash.prime mh) (data mh)), l.
    split; [done|]. split; [by destruct H|]. split; [done|]. apply step_full; [by rewrite Hgk|by rewrite Hgv|].
    destruct (hr_rows _ _ H) as [Hr1 <-]. rewrite <- (length_path (MulHash.prime mh) 0 h). apply Nat2Z.inj_le.
    apply entries_count; [by apply (path_nodup _ 0 (length l))|done].
Qed.

Lemma mh_calls_ok cs : forall mh l, hash_rep mh l ->
  exists rs mh' l', do_calls cmp (Some mh) cs = Some (rs, Some mh') /\ hash_rep mh' l' /\
    steps (row mh) (max_key_size mh) (max_value_size mh) (entries l) cs rs (entries l').
Proof.
  induction cs as [|c cs IH]; intros mh l H; [exists [], mh, l; do 2 (split; [done|]); constructor|]. cbn [do_calls].
  assert (simulated mh l c) as (r & mh1 & l1 & -> & H1 & (E1 & E2 & E3) & Hs) by (destruct c; [by apply mh_insert_ok|by apply mh_find_ok|by apply mh_erase_ok]).
  cbn [mbind option_bind]. destruct (IH mh1 l1 H1) as (rs & mh' & l' & -> & H' & Hss). cbn [mbind option_bind].
  exists (r :: rs), mh', l'. do 2 (split; [done|]). rewrite E1, E2, E3 in Hss. by econstructor.
Qed.

End refinement.

(** ** Initialisation *)

(** [ps] are the next primes after [n] in order, from 5 on. *)
Fixpoint successive (n : Z) (ps : list Z) : Prop :=
  match ps with
  | [] => True
  | p :: ps => Z.max n 3 < p < PRIME_BOUND /\ Znumtheory.prime p /\ (forall q, Z.max n 3 < q < p -> ~ Znumtheory.prime q) /\ successive p ps
  end.

Fixpoint last_of (n : Z) (ps : list Z) : Z := match ps with [] => n | p :: ps => last_of p ps end.

Lemma next_prime_above n p fuel :
  1 <= n -> Z.max n 3 < p < PRIME_BOUND -> Znumtheory.prime p -> (forall q, Z.max n 3 < q < p -> ~ Znumtheory.prime q) ->
  (Z.to_nat (p - n) <= fuel)%nat -> next_prime fuel n = Some p.
Proof.
  intros Hn Hp Hpp Hq Hf. unfold next_prime. rewrite (proj2 (Z.ltb_ge n 0)) by lia.
  destruct (Z.le_gt_cases 3 n) as [H3|H3].
  - rewrite chk_n8_ok by (unfold PRIME_BOUND in *; lia). cbn [mbind option_bind]. rewrite Z.max_l in * by lia. apply next_prime_loop_spec; try done; lia.
  - rewrite Z.max_r in * by lia.
    assert (Znumtheory.prime 5) as H5 by (destruct (is_num_prime_dec 5) as [[? _]|[_ ?]]; [unfold PRIME_BOUND; lia|done|done]).
    assert (p = 5) as ->.
    { destruct (Z.lt_trichotomy p 5) as [Hlt|[->|Hgt]]; [|done|by apply (Hq 5) in H5; lia]. assert (p = 4) as -> by lia.
      destruct (is_num_prime_dec 4) as [[_ H4]|[H4 _]]; [unfold PRIME_BOUND; lia|discriminate H4|done]. }
    assert (n = 1 \/ n = 2) as [->| ->] by lia.
    + do 4 (destruct fuel as [|fuel]; [lia|]). reflexivity.
    + do 3 (destruct fuel as [|fuel]; [lia|]). reflexivity.
Qed.

Lemma successive_pos n ps : successive n ps -> Forall (fun p => n < p) ps.
Proof.
  revert n. induction ps as [|p ps IH]; intros n; [constructor|]. cbn [successive]. intros (Hp & _ & _ & Hs). constructor; [lia|].
  apply (Forall_impl _ _ _ (IH p Hs)). intros; lia.
Qed.

Lemma successive_last n ps : successive n ps -> n + Z.of_nat (length ps) <= last_of n ps < Z.max (n + 1) PRIME_BOUND.
Proof.
  revert n. induction ps as [|p ps IH]; intros n; cbn [successive last_of length]; [lia|]. intros (Hp & _ & _ & Hs). specialize (IH p Hs). lia.
Qed.

Lemma get_prime_arr_loop_spec fuel ps : forall n arr,
  1 <= n -> successive n ps -> (Z.to_nat (last_of n ps - n) <= fuel)%nat ->
  get_prime_arr_loop fuel (length ps) n arr = Some (last_of n ps, arr ++ ps).
Proof.
  induction ps as [|p ps IH]; intros n arr Hn Hs Hf; [by rewrite app_nil_r|]. cbn [length get_prime_arr_loop last_of] in *.
  destruct Hs as (Hp & Hpp & Hq & Hs). pose proof (successive_last p ps Hs) as Hl.
  rewrite (next_prime_above n p fuel) by (done || lia). cbn [mbind option_bind]. rewrite (proj2 (Z.eqb_neq p (-1))) by lia.
  rewrite IH by (done || lia). by rewrite <- app_assoc.
Qed.

Lemma sum_n8_spec ps acc : Forall (fun p => 0 < p) ps -> 0 <= acc -> acc + total ps < 2 ^ 63 -> sum_n8 ps acc = Some (acc + total ps).
Proof.
  intros Hps. revert acc. induction Hps as [|p ps Hp Hps IH]; intros acc Ha; cbn [sum_n8]; change (total (?x :: ?l)) with (x + total l).
  - intros _. f_equal. cbn. lia.
  - change (total (p :: ps)) with (p + total ps). pose proof (total_nonneg ps Hps). intros Hs. rewrite chk_n8_ok by lia. cbn [mbind option_bind].
    rewrite IH by lia. f_equal. lia.
Qed.

(** The memory of a table with these rows. *)
Definition shm_size (mk mv : Z) (ps : list Z) : Z := total ps * (24 + mk + mv).

Definition new_table (rows cols mk mv : Z) (ps : list Z) : mul_hash_t :=
  mk_mul_hash rows cols mk mv ps (replicate (Z.to_nat (shm_size mk mv ps)) 0).

Lemma mh_init_spec fuel get_shm cols mk mv ps :
  1 < Z.of_nat (length ps) < MAX_HASH_ROW -> 1 <= cols -> 0 < mk -> 0 < mv -> 24 + mk + mv < U4_MOD ->
  successive cols ps -> (Z.to_nat (last_of cols ps - cols) <= fuel)%nat ->
  let size := 326 + 8 * Z.of_nat (length ps) + shm_size mk mv ps in size < 2 ^ 63 ->
  mul_hash_init fuel get_shm (Z.of_nat (length ps)) cols mk mv false =
    Some (if get_shm size then (0, Some (new_table (Z.of_nat (length ps)) cols mk mv ps)) else (-2, None)).
Proof.
  intros Hrow Hc Hk Hv Hes Hs Hf size Hsize. unfold mul_hash_init, MAX_HASH_ROW in *. rewrite elem_size_eq by done.
  rewrite (proj2 (Z.leb_gt _ 1)), (proj2 (Z.leb_gt 1000 _)), (proj2 (Z.ltb_ge cols 1)), (proj2 (Z.eqb_neq mk 0)), (proj2 (Z.eqb_neq mv 0)) by lia.
  cbn [orb]. unfold get_prime_arr. rewrite (proj2 (Z.ltb_ge cols 1)), (proj2 (Z.ltb_ge (Z.of_nat (length ps)) 1)) by lia. cbn [orb].
  rewrite Nat2Z.id, get_prime_arr_loop_spec by done. cbn [mbind option_bind app].
  pose proof (successive_last cols ps Hs) as Hl. rewrite (proj2 (Z.ltb_ge _ _)) by lia.
  assert (Forall (fun p => 0 < p) ps) as Hps by (apply (Forall_impl _ _ _ (successive_pos cols ps Hs)); intros; lia).
  pose proof (total_nonneg ps Hps) as Ht. unfold size, shm_size in *. assert (total ps <= total ps * (24 + mk + mv)) by nia.
  rewrite sum_n8_spec by (done || lia). cbn [mbind option_bind Z.add]. rewrite Z.add_0_l, chk_n8_ok by lia. cbn [mbind option_bind].
  rewrite chk_n8_ok by (unfold sizeof_shm_t, sizeof_mul_hash_t; lia). cbn [mbind option_bind].
  replace (sizeof_shm_t + sizeof_mul_hash_t + 8 * Z.of_nat (length ps) + total ps * (24 + mk + mv))
    with (326 + 8 * Z.of_nat (length ps) + total ps * (24 + mk + mv)) by (unfold sizeof_shm_t, sizeof_mul_hash_t; lia).
  by destruct (get_shm _).
Qed.

Lemma new_table_rep cols mk mv ps :
  1 <= cols -> 0 < mk -> 0 < mv -> 24 + mk + mv < U4_MOD -> successive cols ps -> shm_size mk mv ps < 2 ^ 63 ->
  hash_rep (new_table (Z.of_nat (length ps)) cols mk mv ps) (replicate (Z.to_nat (total ps)) None).
Proof.
  intros Hc Hk Hv Hes Hs Hsize.
  assert (Forall (fun p => 0 < p) ps) as Hps by (apply (Forall_impl _ _ _ (successive_pos cols ps Hs)); intros; lia).
  pose proof (total_nonneg ps Hps) as Ht. constructor; cbn [new_table data max_key_size max_value_size MulHash.prime row].
  - rewrite elem_size_eq by done. unfold shm_size in *. rewrite <- (Z2Nat.id (total ps)) at 1 by done. apply table_empty; [lia|].
    by rewrite Z2Nat.id.
  - done.
  - rewrite length_replicate. split; [|done]. split; [done|]. split; [done|]. lia.
  - intros i k v [Hx _]%lookup_replicate. discriminate Hx.
Qed.
(** ** The component *)

(** C10. The hash table of lisk_mul_hash.c.  Initialised with [row] rows (more
    than one and fewer than [MAX_HASH_ROW]), its rows have as many slots as the
    next primes after the number of columns (from 5 on), and the memory asked for
    holds them; without shared memory for it the code is -2.  Any sequence of
    insert, find and erase then does to the entries what a list does: an
    insertion puts the entry somewhere in it, and is refused only when there are
    as many entries as rows (-2), or the key or the value is nil, empty or too
    long (-1); find returns the value of the first entry of the key, or -2 for
    none; erase removes that entry and no other, or returns -2 for none.
    (lisk_mul_hash.h announces -1 for an initialisation that fails, and 0 for
    every find on an initialised table.) *)
Theorem mul_hash_refines_entries (cmp : compare) (get_shm : Z -> bool) (fuel : nat) (cols mk mv : Z) (ps : list Z) (cs : list call) :
  cmp_eq cmp -> 1 < Z.of_nat (length ps) < MAX_HASH_ROW -> 1 <= cols -> 0 < mk -> 0 < mv -> 24 + mk + mv < U4_MOD ->
  successive cols ps -> (Z.to_nat (last_of cols ps - cols) <= fuel)%nat ->
  let size := 326 + 8 * Z.of_nat (length ps) + shm_size mk mv ps in size < 2 ^ 63 ->
  exists mh, mul_hash_init fuel get_shm (Z.of_nat (length ps)) cols mk mv false = Some (if get_shm size then (0, Some mh) else (-2, None)) /\
    MulHash.prime mh = ps /\
    exists rs mh' l, do_calls cmp (Some mh) cs = Some (rs, Some mh') /\ steps (Z.of_nat (length ps)) mk mv [] cs rs l.
Proof.
  intros Hcmp Hrow Hc Hk Hv Hes Hs Hf size Hsize. eexists. split; [by apply mh_init_spec|]. split; [done|].
  assert (hash_rep (new_table (Z.of_nat (length ps)) cols mk mv ps) (replicate (Z.to_nat (total ps)) None)) as Hrep.
  { apply new_table_rep; try done. unfold size in Hsize. lia. }
  destruct (mh_calls_ok cmp Hcmp cs _ _ Hrep) as (rs & mh' & l' & Hrun & _ & Hst). exists rs, mh', (entries l'). split; [done|].
  rewrite entries_none in Hst. exact Hst.
Qed.

(** Two rows, of 5 and 7 slots; a key twice, three keys with the same slots. *)
Definition sample_calls : list call :=
  [Insert (Some [1]) (Some [10]); Insert (Some [1]) (Some [11; 12]); Find (Some [1]); Erase (Some [1]); Find (Some [1]); Find (Some [2]);
   Insert (Some [36]) (Some [13]); Insert (Some [71]) (Some [14]); Find (Some [36]); Erase (Some [71]); Find (Some [36]);
   Insert (Some [1; 2; 3]) (Some [1]); Insert None (Some [1]); Insert (Some []) (Some [1]); Find None; Erase (Some [71])].

Lemma cmp_eq_lex : cmp_eq lex_cmp.
Proof.
  intros a. induction a as [|x a IH]; intros [|y b] Hl; cbn; try done.
  destruct (Z.eqb_spec x y) as [->|Hne].
  - rewrite IH by (unfold blen in *; cbn in *; lia). split; [by intros ->|by intros [=]].
  - split; [lia|]. intros [=]. done.
Qed.

Lemma sample_rows : successive 3 [5; 7].
Proof.
  assert (forall n, 3 < n < PRIME_BOUND -> is_num_prime n = Some 0 -> Znumtheory.prime n) as Hp.
  { intros n Hn He. destruct (is_num_prime_dec n Hn) as [[? _]|[_ He']]; [done|]. rewrite He in He'. discriminate He'. }
  assert (forall n, 3 < n < PRIME_BOUND -> is_num_prime n = Some (-1) -> ~ Znumtheory.prime n) as Hnp.
  { intros n Hn He. destruct (is_num_prime_dec n Hn) as [[_ He']|[? _]]; [|done]. rewrite He in He'. discriminate He'. }
  cbn [successive]. split; [|split; [|split; [|split; [|split; [|split; [|done]]]]]].
  - split; vm_compute; reflexivity.
  - apply Hp; [|reflexivity]. split; vm_compute; reflexivity.
  - intros q Hq. assert (q = 4) as -> by lia. apply Hnp; [|reflexivity]. split; vm_compute; reflexivity.
  - split; vm_compute; reflexivity.
  - apply Hp; [|reflexivity]. split; vm_compute; reflexivity.
  - intros q Hq. assert (q = 6) as -> by lia. apply Hnp; [|reflexivity]. split; vm_compute; reflexivity.
Qed.

Lemma mul_hash_refines_entries_witness :
  exists mh, mul_hash_init 4 (fun n => n <? 700) 2 3 2 2 false = Some (0, Some mh) /\ MulHash.prime mh = [5; 7] /\
    exists rs mh' l, do_calls lex_cmp (Some mh) sample_calls = Some (rs, Some mh') /\ steps 2 2 2 [] sample_calls rs l.
Proof.
  apply (mul_hash_refines_entries lex_cmp (fun n => n <? 700) 4 3 2 2 [5; 7] sample_calls cmp_eq_lex); try (cbn; lia).
  - unfold MAX_HASH_ROW. cbn. lia.
  - reflexivity.
  - exact sample_rows.
  - vm_compute. reflexivity.
Defined.

(** The same calls evaluated: the second entry of the first key is met once the first is gone. *)
Example mul_hash_sample_run :
  ('(_, mh) ← mul_hash_init 4 (fun n => n <? 700) 2 3 2 2 false; fst <$> do_calls lex_cmp mh sample_calls) =
  Some [Ret 0; Ret 0; Got 0 (Some [10]); Ret 0; Got 0 (Some [11; 12]); Got (-2) None; Ret 0; Ret (-2); Got 0 (Some [13]); Ret (-2);
    Got 0 (Some [13]); Ret (-1); Ret (-1); Ret (-1); Got (-1) None; Ret (-2)].
Proof. vm_compute. reflexivity. Qed.

End MulHashSpec.
