(* ===== verification/LiskMemPool.v ===== *)
(** * lisk_mem_pool.c: blocks cut into chunks

    A block is a run of chunks, each with a header of two words, the address of
    the chunk before it and that of the chunk after it with the free bit in its
    lowest bit.  The memory of a block is its words of 8 bytes by address, so an
    access outside the block or across words is [None]; what the owners of chunks
    write is in the same memory.

    The differences of chunk pointers and their sums with numbers are in units of
    [sizeof(chunk_t)], 16 bytes: [chunk_mem_size] counts units, and
    [chunk_next(chunk) - size] is [16 * size] bytes before the end. *)

From S2P Require Import Prelude.

Module MemPool.

Definition UNIT_SIZE : Z := 16.
Definition MIN_CHUNK_SIZE : Z := UNIT_SIZE * 3.
Definition sizeof_block_t : Z := 25.
Definition BLOCK_SIZE : Z := 4 * 1024.
Definition SYS_ALLOC_FLAG : Z := 0xF012F105.

(** [ALIGN_SIZE] with the 64-bit [UNIT_SIZE]. *)
Definition ALIGN_SIZE (size unit : Z) : Z := Z.land (u8 (u8 (size + unit) - 1)) (u8 (- unit)).

Abbreviation words := (gmap Z Z).

(** [bottom] is the address of [data]; [words] are those from there on. *)
Record block_t := mk_block { size : Z; free : Z; bottom : Z; mem : words }.

Definition with_mem (b : block_t) (m : words) : block_t := mk_block (size b) (free b) (bottom b) m.
Definition with_free (b : block_t) (f : Z) : block_t := mk_block (size b) f (bottom b) (mem b).

Definition BLOCK_END (b : block_t) : Z := bottom b + size b.

(** A store needs the word to be there. *)
Definition store (m : words) (a w : Z) : option words := _ ← m !! a; Some (<[a := w]> m).

(** ** Chunks *)

Definition pre (m : words) (c : Z) : option Z := m !! c.
Definition next_word (m : words) (c : Z) : option Z := m !! (c + 8).
Definition set_pre (m : words) (c p : Z) : option words := store m c p.
Definition set_next (m : words) (c n : Z) : option words := store m (c + 8) n.

Definition get_freebit (m : words) (c : Z) : option Z := n ← next_word m c; Some (Z.land n 0x01).
Definition set_freebit (m : words) (c : Z) : option words := n ← next_word m c; set_next m c (Z.lor n 0x01).
Definition clr_freebit (m : words) (c : Z) : option words := n ← next_word m c; set_next m c (Z.land n (u8 (-2))).
Definition chunk_next (m : words) (c : Z) : option Z := n ← next_word m c; Some (Z.land n (u8 (-2))).

(** [PTR_OFFSET] of chunk pointers: units. *)
Definition chunk_mem_size (m : words) (c : Z) : option Z :=
  if c =? 0 then Some 0
  else n ← chunk_next m c; Some (u4 (Z.quot (if c <? n then n - c else c - n) UNIT_SIZE)).

(** ** Blocks *)

(** Memory of [n] words of [malloc], of which nothing is known but that it is there. *)
Fixpoint fresh_words (n : nat) (a : Z) : words :=
  match n with O => ∅ | S n => <[a := 0]> (fresh_words n (a + 8)) end.

(** [alloc] gives the address of memory of a size, or none. *)
Definition alloc_fun : Type := Z -> option Z.

Definition block_init (alloc : alloc_fun) (nil_arg : bool) (sz : Z) : option (Z * option block_t) :=
  if nil_arg || (sz =? 0) then Some (-1, None)
  else
    let sz := u4 (ALIGN_SIZE sz UNIT_SIZE) in
    match alloc (u8 (sizeof_block_t - 1 + sz)) with
    | None => Some (-2, None)
    | Some a =>
        let bottom := a + (sizeof_block_t - 1) in
        let m := fresh_words (Z.to_nat (sz / 8)) bottom in
        m ← set_pre m bottom 0;
        m ← set_next m bottom (bottom + sz);
        m ← set_freebit m bottom;
        Some (0, Some (mk_block sz sz bottom m))
    end.

(** The smallest of the free chunks that are large enough, the first of them, with its
    size.  A walk over distinct headers of the block is no longer than its words. *)
Fixpoint best_chunk (fuel : nat) (m : words) (block_end sz cur : Z) (best : option (Z * Z)) : option (option (Z * Z)) :=
  match fuel with
  | O => None
  | S f =>
      if cur =? block_end then Some best
      else
        cur_size ← chunk_mem_size m cur;
        fb ← get_freebit m cur;
        let best :=
          if negb (fb =? 0) && (sz <=? cur_size)
          then match best with
               | None => Some (cur, cur_size)
               | Some (c, c_size) => if cur_size <? c_size then Some (cur, cur_size) else Some (c, c_size)
               end
          else best in
        nx ← chunk_next m cur;
        best_chunk f m block_end sz nx best
  end.

Definition walk_fuel (b : block_t) : nat := S (Z.to_nat (size b / 8)).

(** The chosen chunk is given whole, or its end is. *)
Definition take_chunk (b : block_t) (chunk sz : Z) : option (Z * words) :=
  let m := mem b in
  cs ← chunk_mem_size m chunk;
  nx ← chunk_next m chunk;
  '(ret, m) ← (if u4 (cs - sz) <? MIN_CHUNK_SIZE then Some (chunk, m)
               else
                 let ret := nx - sz * UNIT_SIZE in
                 w ← next_word m chunk;
                 m ← set_next m ret w;
                 Some (ret, m));
  m ← clr_freebit m ret;
  m ← (if negb (chunk =? ret) then
         m ← set_pre m ret chunk;
         next ← chunk_next m chunk;
         m ← (if negb (next =? BLOCK_END b) then set_pre m next ret else Some m);
         m ← set_next m chunk ret;
         set_freebit m chunk
       else Some m);
  Some (ret, m).

(** nil is [None] in the result. *)
Definition block_malloc (b : option block_t) (sz : Z) : option (option Z * option block_t) :=
  match b with
  | None => Some (None, None)
  | Some b =>
      if sz =? 0 then Some (None, Some b)
      else
        let sz := u4 (sz + UNIT_SIZE) in
        if free b <? ALIGN_SIZE sz UNIT_SIZE then Some (None, Some b)
        else
          let sz := u4 (ALIGN_SIZE sz UNIT_SIZE) in
          best ← best_chunk (walk_fuel b) (mem b) (BLOCK_END b) sz (bottom b) None;
          match best with
          | None => Some (None, Some b)
          | Some (chunk, _) =>
              '(ret, m) ← take_chunk b chunk sz;
              Some (Some (ret + UNIT_SIZE), Some (with_free (with_mem b m) (u4 (free b - sz))))
          end
  end.

(** The chunk is free, and takes in the next one if that is. *)
Definition free_next (m : words) (block_end c fr : Z) : option (words * Z) :=
  m ← set_freebit m c;
  cs ← chunk_mem_size m c;
  let fr := u4 (fr + (cs - UNIT_SIZE)) in
  next ← chunk_next m c;
  if negb (next =? block_end) then
    fb ← get_freebit m next;
    if negb (fb =? 0) then w ← next_word m next; m ← set_next m c w; Some (m, u4 (fr + UNIT_SIZE)) else Some (m, fr)
  else Some (m, fr).

(** The chunk before takes it in if it is free. *)
Definition free_pre (m : words) (c fr : Z) : option (words * Z) :=
  p ← pre m c;
  if negb (p =? 0) then
    fb ← get_freebit m p;
    if negb (fb =? 0) then w ← next_word m c; m ← set_next m p w; Some (m, u4 (fr + UNIT_SIZE)) else Some (m, fr)
  else Some (m, fr).

Definition block_free (b : option block_t) (ptr : Z) : option (Z * option block_t) :=
  match b with
  | None => Some (-1, None)
  | Some b =>
      if ptr =? 0 then Some (-1, Some b)
      else if (ptr <=? bottom b) || (BLOCK_END b <=? ptr) then Some (-1, Some b)
      else
        let chunk := ptr - UNIT_SIZE in
        '(m, fr) ← free_next (mem b) (BLOCK_END b) chunk (free b);
        '(m, fr) ← free_pre m chunk fr;
        Some (0, Some (with_free (with_mem b m) fr))
  end.

(** ** The pool *)

(** [big] are the memories asked of the system directly: the address of the two
    words [arr] and the size in the second. *)
Record mem_pool_t := mk_pool { block_num : Z; block_size : Z; block_list : list block_t; big : gmap Z Z }.

Definition mem_pool_init (alloc_pool : bool) (alloc : alloc_fun) (nil_arg : bool) (bs : Z) : option (Z * option mem_pool_t) :=
  if nil_arg then Some (-1, None)
  else if bs =? 0 then Some (-1, None)
  else if negb alloc_pool then Some (-2, None)
  else
    let bs := Z.land (u4 (u4 (bs + BLOCK_SIZE) - 1)) (u4 (- BLOCK_SIZE)) in
    '(ret, b) ← block_init alloc false bs;
    match b with
    | Some b => Some (0, Some (mk_pool 1 bs [b] ∅))
    | None => Some (-2, None)
    end.

(** Along the blocks with more free than is asked for. *)
Fixpoint pool_malloc (bl : list block_t) (sz : Z) : option (option Z * list block_t) :=
  match bl with
  | [] => Some (None, [])
  | b :: bl =>
      '(p, b) ← (if sz <? free b then '(p, b') ← block_malloc (Some b) sz; Some (p, default b b') else Some (None, b));
      match p with
      | Some p => Some (Some p, b :: bl)
      | None => '(p, bl) ← pool_malloc bl sz; Some (p, b :: bl)
      end
  end.

Definition mem_pool_alloc (alloc : alloc_fun) (pool : option mem_pool_t) (sz : Z) : option (option Z * option mem_pool_t) :=
  match pool with
  | None => Some (None, None)
  | Some pool =>
      if sz =? 0 then Some (None, Some pool)
      else if block_size pool <=? sz then
        let sz := u4 (sz + 8) in
        match alloc sz with
        | None => Some (None, Some pool)
        | Some a => Some (Some (a + 8), Some (mk_pool (block_num pool) (block_size pool) (block_list pool) (<[a := u4 (sz - 8)]> (big pool))))
        end
      else
        '(p, bl) ← pool_malloc (block_list pool) sz;
        let pool := mk_pool (block_num pool) (block_size pool) bl (big pool) in
        match p with
        | Some p => Some (Some p, Some pool)
        | None =>
            '(ret, b) ← block_init alloc false (block_size pool);
            match b with
            | None => Some (None, Some pool)
            | Some b =>
                '(p, b') ← block_malloc (Some b) sz;
                Some (p, Some (mk_pool (u4 (block_num pool + 1)) (block_size pool) (default b b' :: bl) (big pool)))
            end
        end
  end.

(** The word before the memory: of a big one, or of a block. *)
Fixpoint block_word (bl : list block_t) (a : Z) : option Z :=
  match bl with [] => None | b :: bl => match mem b !! a with Some w => Some w | None => block_word bl a end end.

Definition arr_words (pool : mem_pool_t) (a : Z) : option (Z * Z) :=
  match big pool !! a with
  | Some sz => Some (SYS_ALLOC_FLAG, sz)
  | None => w ← block_word (block_list pool) a; Some (w mod 2 ^ 32, w / 2 ^ 32)
  end.

(** The first block that has the memory; it is released when it is free and not the first. *)
Fixpoint pool_free (first : bool) (bl : list block_t) (ptr : Z) : option (Z * list block_t * bool) :=
  match bl with
  | [] => Some (-1, [], false)
  | b :: bl =>
      '(ret, b') ← block_free (Some b) ptr;
      let b := default b b' in
      if ret =? 0 then
        if (size b =? free b) && negb first then Some (0, bl, true) else Some (0, b :: bl, false)
      else '(ret, bl, gone) ← pool_free false bl ptr; Some (ret, b :: bl, gone)
  end.

Definition mem_pool_dealloc (pool : option mem_pool_t) (ptr : Z) : option (Z * option mem_pool_t) :=
  match pool with
  | None => Some (-1, None)
  | Some pool =>
      if ptr =? 0 then Some (-1, Some pool)
      else
        let arr := ptr - 8 in
        '(w0, w1) ← arr_words pool arr;
        if (w0 =? SYS_ALLOC_FLAG) && (block_size pool <=? w1) then
          _ ← big pool !! arr;
          Some (0, Some (mk_pool (block_num pool) (block_size pool) (block_list pool) (delete arr (big pool))))
        else if bool_decide (block_list pool = []) then Some (0, Some pool)
        else
          '(ret, bl, gone) ← pool_free true (block_list pool) ptr;
          let pool := mk_pool (if gone : bool then u4 (block_num pool - 1) else block_num pool) (block_size pool) bl (big pool) in
          Some (if ret =? 0 then 0 else -2, Some pool)
  end.

(** The system's own memories are not the pool's to give back. *)
Definition mem_pool_uninit (pool : option mem_pool_t) : option (gmap Z Z) :=
  match pool with None => None | Some pool => Some (big pool) end.

Definition mem_pool_mem_size (pool : option mem_pool_t) (size_nil : bool) : Z * Z :=
  match pool with
  | None => (-1, 0)
  | Some pool => if size_nil then (-1, 0) else (0, u8 (16 + u8 (block_num pool * u8 (block_size pool + sizeof_block_t))))
  end.

Definition mem_pool_free_size (pool : option mem_pool_t) (size_nil : bool) : Z * Z :=
  match pool with
  | None => (-1, 0)
  | Some pool => if size_nil then (-1, 0) else (0, fold_left (fun s b => u8 (s + free b)) (block_list pool) 0)
  end.

(** ** Tagged words *)

(** The address [a] with the free bit. *)
Definition tag (a : Z) (f : bool) : Z := a + Z.b2z f.

Definition addr_ok (a : Z) : Prop := 0 <= a < U8_MOD /\ a mod 2 = 0.

Lemma tag_bits h f i : 0 <= i -> Z.testbit (2 * h + Z.b2z f) i = if i =? 0 then f else Z.testbit h (i - 1).
Proof.
  intros Hi. destruct (Z.eqb_spec i 0) as [->|Hne]; [apply Z.testbit_0_r|].
  replace i with (Z.succ (i - 1)) at 1 by lia. apply Z.testbit_succ_r. lia.
Qed.

Lemma tag_half a f : addr_ok a -> tag a f = 2 * (a / 2) + Z.b2z f.
Proof. intros [_ He]. unfold tag. pose proof (Z.div_mod a 2). lia. Qed.

Lemma tag_land_bit a f : addr_ok a -> Z.land (tag a f) 0x01 = Z.b2z f.
Proof.
  intros Ha. rewrite (tag_half a f Ha). change 1 with (Z.ones 1). rewrite Z.land_ones by lia. change (2 ^ 1) with 2.
  rewrite Z.mul_comm, Z.add_comm, Z.mod_add by lia. by destruct f.
Qed.

Lemma tag_land_ptr a f : addr_ok a -> Z.land (tag a f) (u8 (-2)) = a.
Proof.
  intros Ha. assert (a = tag a false) as Ha0 by (unfold tag; cbn; lia). rewrite Ha0 at 2. rewrite !(tag_half a) by done.
  assert (0 <= a / 2 < 2 ^ 63) as Hh.
  { destruct Ha as [[H1 H2] _]. unfold U8_MOD in H2. split; [apply Z.div_pos; lia|]. apply Z.div_lt_upper_bound; lia. }
  apply Z.bits_inj'. intros i Hi. rewrite Z.land_spec, !tag_bits by done.
  change (u8 (-2)) with (2 * Z.ones 63 + Z.b2z false). rewrite tag_bits by done.
  destruct (Z.eqb_spec i 0) as [->|Hne]; [by rewrite andb_false_r|].
  destruct (Z.lt_ge_cases (i - 1) 63) as [Hlt|Hge]; [rewrite Z.ones_spec_low by lia; apply andb_true_r|].
  rewrite Z.ones_spec_high by lia. rewrite andb_false_r. symmetry. apply Z.bits_above_log2; [lia|].
  destruct (Z.eq_dec (a / 2) 0) as [->|]; [cbn; lia|]. assert (Z.log2 (a / 2) < 63) by (apply Z.log2_lt_pow2; lia). lia.
Qed.

Lemma tag_lor a f : addr_ok a -> Z.lor (tag a f) 0x01 = tag a true.
Proof.
  intros Ha. rewrite !(tag_half a) by done. apply Z.bits_inj'. intros i Hi.
  change 0x01 with (2 * 0 + Z.b2z true). rewrite Z.lor_spec, !tag_bits by done.
  destruct (Z.eqb_spec i 0) as [->|Hne]; [apply orb_true_r|]. by rewrite Z.bits_0, orb_false_r.
Qed.

Lemma align_unit n : 0 <= n -> n + 16 < U8_MOD -> ALIGN_SIZE n UNIT_SIZE = 16 * ((n + 15) / 16).
Proof.
  intros H1 H2. unfold ALIGN_SIZE. change (u8 (- UNIT_SIZE)) with (Z.ldiff (Z.ones 64) (Z.ones 4)).
  unfold UNIT_SIZE, u8, U8_MOD in *. rewrite (Z.mod_small (n + 16)) by lia. rewrite (Z.mod_small (n + 16 - 1)) by lia.
  replace (n + 16 - 1) with (n + 15) by lia.
  rewrite Z.ldiff_land, Z.land_assoc, <- Z.ldiff_land. rewrite (Z.land_ones (n + 15) 64) by lia. rewrite Z.mod_small by lia.
  rewrite Z.ldiff_ones_r by lia. rewrite Z.shiftl_mul_pow2, Z.shiftr_div_pow2 by lia. change (2 ^ 4) with 16. lia.
Qed.

(** ** The chunks of a block *)

(** The units of a chunk, its header's among them, and whether it is free. *)
Record ch := mk_ch { cu : Z; cf : bool }.

Definition units_of (cs : list ch) : Z := foldr (fun c s => cu c + s) 0 cs.

#[global] Arguments units_of : simpl never.

Lemma units_cons c cs : units_of (c :: cs) = cu c + units_of cs.
Proof. done. Qed.

Lemma units_nil : units_of [] = 0.
Proof. done. Qed.

(** From [a] on the next words lead through the chunks. *)
Fixpoint links (m : words) (a : Z) (cs : list ch) : Prop :=
  match cs with
  | [] => True
  | c :: cs => m !! (a + 8) = Some (tag (a + 16 * cu c) (cf c)) /\ 0 < cu c /\ links m (a + 16 * cu c) cs
  end.

(** And the words before name the chunk before, [p] for the first. *)
Fixpoint pres (m : words) (p a : Z) (cs : list ch) : Prop :=
  match cs with [] => True | c :: cs => m !! a = Some p /\ pres m a (a + 16 * cu c) cs end.

Lemma units_of_app L R : units_of (L ++ R) = units_of L + units_of R.
Proof. induction L as [|c L IH]; [done|]. cbn [app]. rewrite !units_cons, IH. lia. Qed.

Lemma units_nonneg m a cs : links m a cs -> 0 <= units_of cs.
Proof. revert a. induction cs as [|c cs IH]; intros a; [done|]. cbn [links]. intros (_ & Hc & H). specialize (IH _ H). rewrite units_cons. lia. Qed.

Lemma links_app m a L R : links m a (L ++ R) <-> links m a L /\ links m (a + 16 * units_of L) R.
Proof.
  revert a. induction L as [|c L IH]; intros a; cbn [app links]; [rewrite units_nil; replace (a + 16 * 0) with a by lia; tauto|].
  rewrite IH, units_cons. replace (a + 16 * cu c + 16 * units_of L) with (a + 16 * (cu c + units_of L)) by lia. tauto.
Qed.

(** The address of the last chunk of [L], or [p]. *)
Definition last_start (p a : Z) (L : list ch) : Z := match L with [] => p | _ => a + 16 * units_of (removelast L) end.

Lemma last_start_snoc p a L c : last_start p a (L ++ [c]) = a + 16 * units_of L.
Proof. unfold last_start. destruct (L ++ [c]) eqn:E; [by destruct L|]. rewrite <- E. by rewrite removelast_last. Qed.

Lemma pres_app m p a L R : pres m p a (L ++ R) <-> pres m p a L /\ pres m (last_start p a L) (a + 16 * units_of L) R.
Proof.
  unfold last_start.
  revert p a. induction L as [|c L IH]; intros p a; [cbn; rewrite units_nil; replace (a + 16 * 0) with a by lia; tauto|]. cbn [app pres]. rewrite IH.
  change (units_of (c :: L)) with (cu c + units_of L). replace (a + 16 * (cu c + units_of L)) with (a + 16 * cu c + 16 * units_of L) by lia.
  destruct L as [|c' L]; [cbn [removelast]; rewrite units_nil; replace (a + 16 * 0) with a by lia; tauto|].
  change (removelast (c :: c' :: L)) with (c :: removelast (c' :: L)). change (units_of (c :: ?l)) with (cu c + units_of l).
  replace (a + 16 * (cu c + units_of (removelast (c' :: L)))) with (a + 16 * cu c + 16 * units_of (removelast (c' :: L))) by lia. tauto.
Qed.

Lemma links_ext m m' a cs :
  (forall b, a < b < a + 16 * units_of cs -> m' !! b = m !! b) -> links m a cs -> links m' a cs.
Proof.
  revert a. induction cs as [|c cs IH]; intros a Hs; [done|]. cbn [links]. intros (H1 & H2 & H3). pose proof (units_nonneg _ _ _ H3).
  rewrite units_cons in Hs. split; [by rewrite Hs by lia|]. split; [done|]. apply IH; [|done]. intros b Hb. apply Hs. lia.
Qed.

Lemma pres_ext m m' p a cs :
  Forall (fun c => 0 < cu c) cs -> (forall b, a <= b < a + 16 * units_of cs -> m' !! b = m !! b) -> pres m p a cs -> pres m' p a cs.
Proof.
  intros Hp. revert p a. induction Hp as [|c cs Hc Hp IH]; intros p a Hs; [done|]. cbn [pres]. intros (H1 & H2).
  assert (0 <= units_of cs) by (clear -Hp; induction Hp; rewrite ?units_nil, ?units_cons; lia).
  rewrite units_cons in Hs. split; [by rewrite Hs by lia|]. apply IH; [|done]. intros b Hb. apply Hs. lia.
Qed.

Lemma links_pos m a cs : links m a cs -> Forall (fun c => 0 < cu c) cs.
Proof. revert a. induction cs as [|c cs IH]; intros a; [by constructor|]. cbn. intros (_ & ? & ?). constructor; [done|by eapply IH]. Qed.

End MemPool.
