(* ===== verification/LiskMemPoolSpec.v ===== *)
(** * What the memory pool promises

    Allocation and release in a block as operations on its list of chunks, what
    the pool makes of them, and where it departs from what it means to do. *)

From S2P Require Import Prelude LiskMemPool.

Module PoolSpec.
Import MemPool.

(** ** A block in order *)

(** The chunks fill the block, whose memory is its words. *)
Record block_fit (b : block_t) (cs : list ch) : Prop := {
  bo_links : links (mem b) (bottom b) cs;
  bo_size : size b = 16 * units_of cs;
  bo_addr : 0 < bottom b /\ bottom b mod 2 = 0 /\ BLOCK_END b < U8_MOD /\ size b < U4_MOD;
  bo_words : forall a, is_Some (mem b !! a) <-> bottom b <= a < BLOCK_END b /\ (a - bottom b) mod 8 = 0;
  bo_free : 0 <= free b < U4_MOD;
}.

(** And every chunk names the one before it. *)
Definition back_ok (b : block_t) (cs : list ch) : Prop := pres (mem b) 0 (bottom b) cs.

Definition fits (s : Z) (c : ch) : Prop := cf c = true /\ s <= cu c.

(** [x] is the first of the smallest chunks that fit. *)
Definition best (s : Z) (L : list ch) (x : ch) (R : list ch) : Prop :=
  fits s x /\ Forall (fun y => fits s y -> cu x < cu y) L /\ Forall (fun y => fits s y -> cu x <= cu y) R.

(** The chunks that replace [x] when [s] units are taken from it. *)
Definition given (s : Z) (x : ch) : list ch :=
  if cu x - s <? 48 then [mk_ch (cu x) false] else [mk_ch (cu x - s) true; mk_ch s false].

(** Where the taken chunk is, from the start of [x]. *)
Definition given_at (s : Z) (x : ch) : Z := if cu x - s <? 48 then 0 else cu x - s.

(** A freed chunk takes in its free neighbours. *)
Definition absorb_next (u : Z) (R : list ch) : Z * list ch :=
  match R with y :: R' => if cf y then (u + cu y, R') else (u, R) | [] => (u, R) end.

Definition absorb_prev (L : list ch) (u : Z) : list ch * Z :=
  match last L with Some p => if cf p then (removelast L, cu p + u) else (L, u) | None => (L, u) end.

Definition freed (L : list ch) (x : ch) (R : list ch) : list ch :=
  let '(u, R) := absorb_next (cu x) R in let '(L, u) := absorb_prev L u in L ++ mk_ch u true :: R.

(** How many neighbours those are. *)
Definition merges (L R : list ch) : Z :=
  (if R is y :: _ then Z.b2z (cf y) else 0) + (if last L is Some p then Z.b2z (cf p) else 0).

Lemma freed_none L x R : merges L R = 0 -> freed L x R = L ++ mk_ch (cu x) true :: R.
Proof.
  unfold merges, freed, absorb_next, absorb_prev. intros Hm.
  assert ((if R is y :: _ then cf y else false) = false /\ (if last L is Some p then cf p else false) = false) as [H1 H2].
  { destruct R as [|y R], (last L) as [p|]; repeat match goal with |- context [cf ?z] => destruct (cf z) end; cbn in Hm; try done; lia. }
  destruct R as [|y R]; [|rewrite H1]; (destruct (last L) as [p|]; [rewrite H2|]; done).
Qed.

Lemma addr_even a b : a mod 2 = 0 -> (b mod 2 = 0) -> (a + b) mod 2 = 0.
Proof. intros H1 H2. rewrite Z.add_mod, H1, H2 by lia. done. Qed.

Lemma unit_even k : (16 * k) mod 2 = 0.
Proof. replace (16 * k) with (8 * k * 2) by lia. apply Z.mod_mul. lia. Qed.

Lemma length_units cs : Forall (fun c => 0 < cu c) cs -> Z.of_nat (length cs) <= units_of cs.
Proof. induction 1 as [|c l Hc _ IH]; [done|]. rewrite units_cons. cbn [length]. lia. Qed.

Section block.
Context (b : block_t) (cs : list ch) (H : block_fit b cs).

Lemma block_addr k : 0 <= k <= units_of cs -> addr_ok (bottom b + 16 * k).
Proof.
  intros Hk. destruct (bo_addr _ _ H) as (H1 & H2 & H3 & _). unfold BLOCK_END in H3. rewrite (bo_size _ _ H) in H3.
  split; [lia|]. by apply addr_even; [|apply unit_even].
Qed.

Lemma unit_words k : 0 <= k < units_of cs -> is_Some (mem b !! (bottom b + 16 * k)) /\ is_Some (mem b !! (bottom b + 16 * k + 8)).
Proof.
  intros Hk. rewrite !(bo_words _ _ H). unfold BLOCK_END. rewrite (bo_size _ _ H). split; (split; [lia|]).
  - replace (bottom b + 16 * k - bottom b) with (2 * k * 8) by lia. by apply Z.mod_mul.
  - replace (bottom b + 16 * k + 8 - bottom b) with ((2 * k + 1) * 8) by lia. by apply Z.mod_mul.
Qed.

(** The word of a chunk. *)
Lemma chunk_word L x R :
  cs = L ++ x :: R ->
  mem b !! (bottom b + 16 * units_of L + 8) = Some (tag (bottom b + 16 * units_of L + 16 * cu x) (cf x)) /\
  0 < cu x /\ 0 <= units_of L /\ 0 <= units_of R /\ units_of cs = units_of L + cu x + units_of R.
Proof.
  intros E. pose proof (bo_links _ _ H) as Hl. rewrite E, links_app in Hl. destruct Hl as [Hl (H1 & H2 & H3)].
  rewrite E, units_of_app, units_cons. pose proof (units_nonneg _ _ _ Hl). pose proof (units_nonneg _ _ _ H3). repeat split; try done; lia.
Qed.

(** What the code reads there. *)
Lemma chunk_reads m L x R :
  cs = L ++ x :: R -> m !! (bottom b + 16 * units_of L + 8) = mem b !! (bottom b + 16 * units_of L + 8) ->
  let c := bottom b + 16 * units_of L in
  next_word m c = Some (tag (c + 16 * cu x) (cf x)) /\ chunk_next m c = Some (c + 16 * cu x) /\
  get_freebit m c = Some (Z.b2z (cf x)) /\ chunk_mem_size m c = Some (cu x).
Proof.
  intros E Hm c. destruct (chunk_word L x R E) as (Hw & Hx & HL & HR & Hu). rewrite <- Hm in Hw. fold c in Hw.
  assert (addr_ok (c + 16 * cu x)) as Ha.
  { replace (c + 16 * cu x) with (bottom b + 16 * (units_of L + cu x)) by (unfold c; lia). apply block_addr. lia. }
  assert (chunk_next m c = Some (c + 16 * cu x)) as Hn by (unfold chunk_next, next_word; rewrite Hw; cbn; by rewrite tag_land_ptr).
  split; [done|]. split; [done|]. split; [unfold get_freebit, next_word; rewrite Hw; cbn [mbind option_bind]; by rewrite tag_land_bit|].
  destruct (bo_addr _ _ H) as (Hb & _ & _ & Hs). rewrite (bo_size _ _ H) in Hs. unfold U4_MOD in Hs.
  unfold chunk_mem_size. rewrite (proj2 (Z.eqb_neq c 0)) by lia. rewrite Hn. cbn [mbind option_bind]. rewrite (proj2 (Z.ltb_lt _ _)) by lia.
  replace (c + 16 * cu x - c) with (cu x * UNIT_SIZE) by (unfold UNIT_SIZE; lia). rewrite Z.quot_mul by done. unfold u4, U4_MOD. by rewrite Z.mod_small by lia.
Qed.

(** ** The search *)

Fixpoint best_of (s a : Z) (l : list ch) (acc : option (Z * Z)) : option (Z * Z) :=
  match l with
  | [] => acc
  | x :: l =>
      best_of s (a + 16 * cu x) l
        (if cf x && (s <=? cu x)
         then match acc with None => Some (a, cu x) | Some (c, u) => if cu x <? u then Some (a, cu x) else Some (c, u) end
         else acc)
  end.

Lemma best_chunk_spec fuel s R : forall L acc,
  cs = L ++ R -> (length R < fuel)%nat ->
  best_chunk fuel (mem b) (BLOCK_END b) s (bottom b + 16 * units_of L) acc = Some (best_of s (bottom b + 16 * units_of L) R acc).
Proof.
  revert fuel. induction R as [|x R IH]; intros fuel L acc E Hf; (destruct fuel as [|f]; [lia|]); cbn [best_chunk best_of].
  - rewrite app_nil_r in E. subst L. unfold BLOCK_END. rewrite (bo_size _ _ H). by rewrite Z.eqb_refl.
  - destruct (chunk_word L x R E) as (_ & Hx & _ & HR & Hu). unfold BLOCK_END at 1. rewrite (bo_size _ _ H).
    rewrite (proj2 (Z.eqb_neq _ _)) by lia. destruct (chunk_reads (mem b) L x R E eq_refl) as (_ & -> & -> & ->). cbn [mbind option_bind].
    replace (bottom b + 16 * units_of L + 16 * cu x) with (bottom b + 16 * units_of (L ++ [x])) by (rewrite units_of_app, units_cons, units_nil; lia).
    rewrite IH; [|by rewrite <- app_assoc|cbn in Hf; lia]. do 2 f_equal. by destruct (cf x).
Qed.

Lemma best_of_snoc s l x a acc :
  best_of s a (l ++ [x]) acc =
    (if cf x && (s <=? cu x)
     then match best_of s a l acc with
          | None => Some (a + 16 * units_of l, cu x)
          | Some (c, u) => if cu x <? u then Some (a + 16 * units_of l, cu x) else Some (c, u)
          end
     else best_of s a l acc).
Proof.
  revert a acc. induction l as [|y l IH]; intros a acc; [cbn; rewrite units_nil; by replace (a + 16 * 0) with a by lia|]. cbn [app best_of]. rewrite IH, units_cons.
  by replace (a + 16 * cu y + 16 * units_of l) with (a + 16 * (cu y + units_of l)) by lia.
Qed.

(** It finds the first of the smallest. *)
Lemma best_of_spec s a l :
  match best_of s a l None with
  | None => Forall (fun y => ~ fits s y) l
  | Some (c, u) => exists L x R, l = L ++ x :: R /\ c = a + 16 * units_of L /\ u = cu x /\ best s L x R
  end.
Proof.
  induction l as [|x l IH] using rev_ind; [constructor|]. rewrite best_of_snoc. unfold best, fits in *.
  destruct (cf x) eqn:Ef; cbn [andb].
  2:{ destruct (best_of s a l None) as [[c u]|].
      - destruct IH as (L & y & R & -> & -> & -> & H1 & H2 & H3). exists L, y, (R ++ [x]). rewrite <- app_assoc. do 4 (split; [done|]). split; [done|].
        apply Forall_app. split; [done|]. constructor; [|done]. intros [? _]; congruence.
      - apply Forall_app. split; [done|]. constructor; [|done]. intros [? _]; congruence. }
  destruct (Z.leb_spec s (cu x)) as [Hs|Hs].
  - destruct (best_of s a l None) as [[c u]|].
    + destruct IH as (L & y & R & -> & -> & -> & H1 & H2 & H3). destruct (Z.ltb_spec (cu x) (cu y)) as [Hlt|Hge].
      * exists (L ++ y :: R), x, []. do 3 (split; [done|]). split; [done|]. split; [|constructor]. rewrite Forall_app, Forall_cons in *. rewrite !Forall_forall in *.
        split; [intros z Hz Hf; specialize (H2 z Hz Hf); lia|]. split; [done|]. intros z Hz Hf. specialize (H3 z Hz Hf). lia.
      * exists L, y, (R ++ [x]). rewrite <- app_assoc. do 4 (split; [done|]). split; [done|]. apply Forall_app. split; [done|]. by constructor.
    + exists l, x, []. do 3 (split; [done|]). split; [done|]. split; [|constructor]. apply (Forall_impl _ _ _ IH). tauto.
  - destruct (best_of s a l None) as [[c u]|].
    + destruct IH as (L & y & R & -> & -> & -> & H1 & H2 & H3). exists L, y, (R ++ [x]). rewrite <- app_assoc. do 4 (split; [done|]). split; [done|].
      apply Forall_app. split; [done|]. constructor; [|done]. intros [_ ?]. lia.
    + apply Forall_app. split; [done|]. constructor; [|done]. intros [_ ?]. lia.
Qed.

(** ** Taking a chunk *)

Lemma store_Some (m : words) a w : is_Some (m !! a) -> store m a w = Some (<[a := w]> m).
Proof. intros [v Hv]. unfold store. by rewrite Hv. Qed.

Lemma set_next_Some (m : words) c w : is_Some (m !! (c + 8)) -> set_next m c w = Some (<[c + 8 := w]> m).
Proof. apply store_Some. Qed.

Lemma set_pre_Some (m : words) c w : is_Some (m !! c) -> set_pre m c w = Some (<[c := w]> m).
Proof. apply store_Some. Qed.

Lemma clr_freebit_spec m c a f : m !! (c + 8) = Some (tag a f) -> addr_ok a -> clr_freebit m c = Some (<[c + 8 := tag a false]> m).
Proof.
  intros Hm Ha. unfold clr_freebit, next_word, set_next. rewrite Hm. cbn [mbind option_bind]. rewrite tag_land_ptr by done.
  rewrite store_Some by (rewrite Hm; by eexists). do 2 f_equal. unfold tag. cbn. lia.
Qed.

Lemma set_freebit_spec m c a f : m !! (c + 8) = Some (tag a f) -> addr_ok a -> set_freebit m c = Some (<[c + 8 := tag a true]> m).
Proof.
  intros Hm Ha. unfold set_freebit, next_word, set_next. rewrite Hm. cbn [mbind option_bind]. rewrite tag_lor by done.
  by rewrite store_Some by (rewrite Hm; by eexists).
Qed.

(** A block with other words in the same places. *)
Lemma block_with m' cs' :
  (forall a, is_Some (m' !! a) <-> is_Some (mem b !! a)) -> links m' (bottom b) cs' -> units_of cs' = units_of cs ->
  block_fit (with_mem b m') cs'.
Proof.
  intros Hd Hl Hu. destruct H as [_ H3 H4 H5 H6]. constructor; cbn; try done; [by rewrite Hu|].
  intros a. rewrite Hd. apply H5.
Qed.

Lemma insert_dom (m : words) a w : is_Some (m !! a) -> forall c, is_Some (<[a := w]> m !! c) <-> is_Some (m !! c).
Proof.
  intros Ha c. destruct (decide (a = c)) as [<-|Hne]; [rewrite lookup_insert_eq; split; eauto|by rewrite lookup_insert_ne].
Qed.

Lemma links_parts L x R :
  cs = L ++ x :: R -> links (mem b) (bottom b) L /\ links (mem b) (bottom b + 16 * units_of L + 16 * cu x) R.
Proof. intros E. pose proof (bo_links _ _ H) as Hl. rewrite E, links_app in Hl. cbn [links] in Hl. tauto. Qed.

Lemma pres_parts L x R :
  cs = L ++ x :: R -> back_ok b cs ->
  let c := bottom b + 16 * units_of L in
  pres (mem b) 0 (bottom b) L /\ mem b !! c = Some (last_start 0 (bottom b) L) /\ pres (mem b) c (c + 16 * cu x) R.
Proof. intros E Hp c. unfold back_ok in Hp. rewrite E, pres_app in Hp. exact Hp. Qed.

(** The words of the chunks before and after are kept. *)
Lemma kept_before m' L x R :
  cs = L ++ x :: R -> (forall a, a < bottom b + 16 * units_of L -> m' !! a = mem b !! a) ->
  links m' (bottom b) L /\ (back_ok b cs -> pres m' 0 (bottom b) L).
Proof.
  intros E Hs. destruct (links_parts L x R E) as [Hl _]. split.
  - apply (links_ext (mem b)); [|done]. intros a Ha. apply Hs. lia.
  - intros (Hp & _)%(pres_parts L x R E). apply (pres_ext (mem b)); [by eapply links_pos| |done]. intros a Ha. apply Hs. lia.
Qed.

Lemma kept_after m' p' L x R :
  cs = L ++ x :: R -> let e := bottom b + 16 * units_of L + 16 * cu x in
  (forall a, e < a -> m' !! a = mem b !! a) ->
  links m' e R /\ (back_ok b cs -> (R <> [] -> m' !! e = Some p') -> pres m' p' e R).
Proof.
  intros E e Hs. destruct (links_parts L x R E) as [_ Hl]. fold e in Hl. split.
  - apply (links_ext (mem b)); [|done]. intros a Ha. apply Hs. lia.
  - intros (_ & _ & Hp)%(pres_parts L x R E) Hp'. fold e in Hp.
    destruct R as [|y R]; [done|]. cbn [pres] in *. destruct Hp as [_ Hp]. destruct Hl as (_ & Hy & Hl). split; [by apply Hp'|].
    apply (pres_ext (mem b)); [by eapply links_pos| |done]. intros a Ha. apply Hs. lia.
Qed.

(** The whole chunk is given: its free bit is cleared. *)
Lemma bit_change L x R f :
  cs = L ++ x :: R ->
  let c := bottom b + 16 * units_of L in let m' := <[c + 8 := tag (c + 16 * cu x) f]> (mem b) in
  block_fit (with_mem b m') (L ++ mk_ch (cu x) f :: R) /\ (back_ok b cs -> back_ok (with_mem b m') (L ++ mk_ch (cu x) f :: R)).
Proof.
  intros E c m'. destruct (chunk_word L x R E) as (Hw & Hx0 & HL & HR & Hu). fold c in Hw.
  assert (forall a, a <> c + 8 -> m' !! a = mem b !! a) as Ho by (intros a Ha; unfold m'; by rewrite lookup_insert_ne).
  destruct (kept_before m' L x R E) as [Hl1 Hp1]; [intros a Ha; apply Ho; unfold c; lia|].
  destruct (kept_after m' c L x R E) as [Hl2 Hp2]; [intros a Ha; apply Ho; unfold c; lia|]. fold c in Hl2, Hp2. split.
  - apply block_with.
    + apply insert_dom. rewrite Hw. by eexists.
    + rewrite links_app. split; [done|]. cbn [links cu cf]. fold c. unfold m' at 1. by rewrite lookup_insert_eq.
    + rewrite Hu, units_of_app, units_cons. cbn [cu]. lia.
  - intros Hb. destruct (pres_parts L x R E Hb) as (_ & Hcp & Hp). fold c in Hcp, Hp. unfold back_ok. cbn [mem bottom with_mem].
    rewrite pres_app. split; [by apply Hp1|]. cbn [pres cu]. fold c. rewrite Ho by lia. split; [done|]. apply Hp2; [done|].
    intros HR'. rewrite Ho by lia. destruct R; [done|]. by destruct Hp.
Qed.

(** Addresses and words inside a chunk. *)
Lemma chunk_inside L x R k :
  cs = L ++ x :: R -> 0 <= k <= cu x -> addr_ok (bottom b + 16 * units_of L + 16 * k) /\
  (k < cu x \/ R <> [] -> is_Some (mem b !! (bottom b + 16 * units_of L + 16 * k)) /\ is_Some (mem b !! (bottom b + 16 * units_of L + 16 * k + 8))).
Proof.
  intros E Hk. destruct (chunk_word L x R E) as (_ & _ & HL & HR & Hu).
  replace (bottom b + 16 * units_of L + 16 * k) with (bottom b + 16 * (units_of L + k)) by lia. split; [apply block_addr; lia|].
  intros Hi. apply unit_words. split; [lia|]. destruct Hi as [Hi|Hi]; [lia|]. destruct R as [|y R]; [done|].
  destruct (links_parts L x _ E) as (_ & (_ & Hy & Hl)). pose proof (units_nonneg _ _ _ Hl). rewrite units_cons in Hu. lia.
Qed.

(** The words after a chunk is cut: headers at [c] and [r], and the link back of the chunk at [e]. *)
Lemma cut_chunk L x R s :
  cs = L ++ x :: R -> cf x = true -> 0 < s -> 48 <= cu x - s ->
  let c := bottom b + 16 * units_of L in let r := c + 16 * (cu x - s) in let e := c + 16 * cu x in
  exists m', take_chunk b c s = Some (r, m') /\ (forall a, is_Some (m' !! a) <-> is_Some (mem b !! a)) /\
    m' !! (c + 8) = Some (tag r true) /\ m' !! (r + 8) = Some (tag e false) /\ m' !! r = Some c /\ (R <> [] -> m' !! e = Some r) /\
    (forall a, a <> c + 8 -> a < r \/ e < a -> m' !! a = mem b !! a).
Proof.
  intros E Hx Hs Hge c r e. destruct (chunk_reads (mem b) L x R E eq_refl) as (Hnw & Hcn & _ & Hcs). fold c in Hnw, Hcn, Hcs.
  destruct (chunk_word L x R E) as (Hw & _ & HL & HR & Hu). destruct (bo_addr _ _ H) as (Hb & _ & _ & Hsz).
  rewrite (bo_size _ _ H) in Hsz. unfold U4_MOD in Hsz. fold c e in Hw. rewrite Hx in Hnw, Hw. fold e in Hnw, Hcn.
  assert (c + 768 <= r < e) as Hr by (unfold r, e; lia).
  destruct (chunk_inside L x R (cu x - s) E ltac:(lia)) as [Har Hrw]. destruct Hrw as [Hr1 Hr2]; [left; lia|]. fold c r in Har, Hr1, Hr2.
  destruct (chunk_inside L x R (cu x) E ltac:(lia)) as [Hae He1]. fold c e in Hae, He1.
  unfold take_chunk. rewrite Hcs, Hcn. cbn [mbind option_bind].
  assert (u4 (cu x - s) = cu x - s) as -> by (apply Z.mod_small; unfold U4_MOD; lia). change MIN_CHUNK_SIZE with 48. rewrite (proj2 (Z.ltb_ge _ _)) by lia.
  replace (e - s * UNIT_SIZE) with r by (unfold e, r, UNIT_SIZE; lia). rewrite Hnw. cbn [mbind option_bind].
  rewrite set_next_Some by done. cbn [mbind option_bind]. rewrite (clr_freebit_spec _ r e true) by (done || apply lookup_insert_eq).
  cbn [mbind option_bind]. rewrite insert_insert_eq. set (m2 := <[r + 8 := tag e false]> (mem b)).
  assert (forall a, is_Some (m2 !! a) <-> is_Some (mem b !! a)) as Hd2 by (intros a; by apply insert_dom).
  rewrite (proj2 (Z.eqb_neq c r)) by lia. cbn [negb]. rewrite set_pre_Some by (by apply Hd2). cbn [mbind option_bind]. set (m3 := <[r := c]> m2).
  assert (forall a, is_Some (m3 !! a) <-> is_Some (mem b !! a)) as Hd3 by (intros a; unfold m3; rewrite insert_dom; by apply Hd2).
  assert (forall a, a <> r -> a <> r + 8 -> m3 !! a = mem b !! a) as Ho3 by (intros a H1 H2; unfold m3, m2; by rewrite !lookup_insert_ne by lia).
  assert (chunk_next m3 c = Some e) as -> by (unfold chunk_next, next_word; rewrite Ho3, Hw by lia; cbn; by rewrite tag_land_ptr).
  cbn [mbind option_bind].
  assert (exists m4, (if negb (e =? BLOCK_END b) then set_pre m3 e r else Some m3) = Some m4 /\ (forall a, is_Some (m4 !! a) <-> is_Some (mem b !! a)) /\
    (forall a, a <> e -> m4 !! a = m3 !! a) /\ (R <> [] -> m4 !! e = Some r)) as (m4 & -> & Hd4 & Ho4 & He4).
  { destruct (Z.eqb_spec e (BLOCK_END b)) as [He|He]; unfold BLOCK_END in He; rewrite (bo_size _ _ H), Hu in He; cbn [negb].
    - exists m3. do 3 (split; [done|]). intros HR'. destruct (He1 (or_intror HR')) as [Hx1%(bo_words _ _ H) _]. unfold BLOCK_END in Hx1.
      rewrite (bo_size _ _ H), Hu in Hx1. lia.
    - destruct He1 as [He1 _]; [right; intros ->; rewrite units_nil in He; unfold e, c in He; lia|]. apply Hd3 in He1.
      exists (<[e := r]> m3). split; [by apply set_pre_Some|]. split; [intros a; by rewrite insert_dom|]. split; [intros a Ha; by rewrite lookup_insert_ne|].
      intros _. apply lookup_insert_eq. }
  cbn [mbind option_bind]. rewrite set_next_Some by (apply Hd4; rewrite Hw; by eexists). cbn [mbind option_bind].
  assert (<[c + 8 := r]> m4 !! (c + 8) = Some (tag r false)) as Hr8 by (rewrite lookup_insert_eq; unfold tag; cbn; f_equal; lia).
  rewrite (set_freebit_spec _ c r false Hr8 Har). cbn [mbind option_bind]. rewrite insert_insert_eq. eexists. split; [reflexivity|].
  assert (is_Some (m4 !! (c + 8))) as Hc8 by (apply Hd4; rewrite Hw; by eexists). split; [intros a; by rewrite insert_dom|].
  rewrite lookup_insert_eq, !(lookup_insert_ne _ (c + 8)), !Ho4 by lia. unfold m3, m2.
  rewrite lookup_insert_eq, lookup_insert_ne, lookup_insert_eq by lia. do 4 (split; [done|]). intros a Ha Hra.
  rewrite lookup_insert_ne, Ho4 by (congruence || lia). unfold m3, m2. by rewrite !lookup_insert_ne by lia.
Qed.

Lemma take_chunk_spec L x R s :
  cs = L ++ x :: R -> cf x = true -> 0 < s <= cu x ->
  let c := bottom b + 16 * units_of L in
  exists m', take_chunk b c s = Some (c + 16 * given_at s x, m') /\ block_fit (with_mem b m') (L ++ given s x ++ R) /\
    (back_ok b cs -> back_ok (with_mem b m') (L ++ given s x ++ R)) /\
    forall a, a < c \/ c + 16 * cu x < a -> m' !! a = mem b !! a.
Proof.
  intros E Hx Hs c. destruct (chunk_word L x R E) as (Hw & Hx0 & HL & HR & Hu). fold c in Hw. rewrite Hx in Hw. unfold given, given_at.
  destruct (Z.ltb_spec (cu x - s) 48) as [Hlt|Hge].
  - destruct (chunk_reads (mem b) L x R E eq_refl) as (_ & Hcn & _ & Hcs). fold c in Hcn, Hcs. destruct (bo_addr _ _ H) as (Hb & _ & _ & Hsz).
    rewrite (bo_size _ _ H) in Hsz. unfold U4_MOD in Hsz. unfold take_chunk. rewrite Hcs, Hcn. cbn [mbind option_bind].
    assert (u4 (cu x - s) = cu x - s) as -> by (apply Z.mod_small; unfold U4_MOD; lia). change MIN_CHUNK_SIZE with 48. rewrite (proj2 (Z.ltb_lt _ _)) by lia. cbn [mbind option_bind].
    rewrite (clr_freebit_spec _ _ _ _ Hw) by (unfold c; apply (chunk_inside L x R _ E); lia). cbn [mbind option_bind]. rewrite Z.eqb_refl. cbn [negb mbind option_bind].
    eexists. replace (c + 16 * 0) with c by lia. split; [reflexivity|]. destruct (bit_change L x R false E) as [Hf Hb']. fold c in Hf, Hb'.
    split; [exact Hf|]. split; [exact Hb'|]. intros a Ha. rewrite lookup_insert_ne; [done|lia].
  - destruct (cut_chunk L x R s E Hx ltac:(lia) Hge) as (m' & Hrun & Hd & Hc8 & Hr8 & Hr & He & Ho). fold c in Hrun, Hc8, Hr8, Hr, He, Ho.
    set (r := c + 16 * (cu x - s)) in *. set (e := c + 16 * cu x) in *. exists m'. split; [done|].
    assert (forall a, a < c \/ e < a -> m' !! a = mem b !! a) as Ho' by (intros a Ha; apply Ho; unfold r, e in *; lia).
    destruct (kept_before m' L x R E) as [Hl1 Hp1]; [intros a Ha; apply Ho'; left; exact Ha|].
    destruct (kept_after m' r L x R E) as [Hl2 Hp2]; [intros a Ha; apply Ho'; right; exact Ha|]. fold c e in Hl2, Hp2.
    assert (r + 16 * s = e) as Hre by (unfold r, e; lia). split; [|split; [|exact Ho']].
    + apply block_with; [exact Hd| |rewrite Hu, !units_of_app, !units_cons, units_nil; cbn [cu]; lia].
      rewrite links_app. split; [done|]. cbn [app links cu cf]. fold c r. rewrite Hre. repeat split; try done; lia.
    + intros Hb'. destruct (pres_parts L x R E Hb') as (_ & Hcp & _). fold c in Hcp. unfold back_ok. cbn [mem bottom with_mem].
      rewrite pres_app. split; [by apply Hp1|]. cbn [app pres cu]. fold c r. rewrite Hre, Ho by (unfold r; lia). split; [done|]. split; [done|]. by apply Hp2.
Qed.

(** Units for a request of [n] bytes: as many as the bytes it and a header need. *)
Definition request (n : Z) : Z := 16 * ((n + 31) / 16).

Lemma request_bounds n : 0 < n -> n + 16 <= request n < n + 32.
Proof. intros Hn. unfold request. pose proof (Z.div_mod (n + 31) 16 ltac:(lia)). pose proof (Z.mod_pos_bound (n + 31) 16 ltac:(lia)). lia. Qed.

Lemma request_size n : 0 < n -> n + 32 < U4_MOD -> u4 (n + UNIT_SIZE) = n + 16 /\ ALIGN_SIZE (n + 16) UNIT_SIZE = request n /\ u4 (request n) = request n.
Proof.
  intros Hn Hm. pose proof (request_bounds n Hn). unfold U4_MOD in *. split; [apply Z.mod_small; unfold U4_MOD, UNIT_SIZE; lia|].
  split; [|apply Z.mod_small; unfold U4_MOD; lia]. rewrite align_unit by (unfold U8_MOD; lia). unfold request. do 2 f_equal. lia.
Qed.

Lemma block_malloc_spec n :
  0 < n -> n + 32 < U4_MOD ->
  (block_malloc (Some b) n = Some (None, Some b) /\ (free b < request n \/ Forall (fun y => ~ fits (request n) y) cs)) \/
  exists L x R m', cs = L ++ x :: R /\ best (request n) L x R /\ request n <= free b /\
    block_malloc (Some b) n = Some (Some (bottom b + 16 * (units_of L + given_at (request n) x) + 16), Some (with_free (with_mem b m') (free b - request n))) /\
    block_fit (with_free (with_mem b m') (free b - request n)) (L ++ given (request n) x ++ R) /\
    (back_ok b cs -> back_ok (with_mem b m') (L ++ given (request n) x ++ R)) /\
    forall a, a < bottom b + 16 * units_of L \/ bottom b + 16 * (units_of L + cu x) < a -> m' !! a = mem b !! a.
Proof.
  intros Hn Hm. destruct (request_size n Hn Hm) as (E1 & E2 & E3). pose proof (request_bounds n Hn) as Hr. unfold block_malloc.
  rewrite (proj2 (Z.eqb_neq n 0)), E1, E2, E3 by lia. destruct (Z.ltb_spec (free b) (request n)) as [Hlt|Hge]; [by left; split; [|left]|].
  pose proof (best_chunk_spec (walk_fuel b) (request n) cs [] None eq_refl) as Hb. rewrite units_nil in Hb. replace (bottom b + 16 * 0) with (bottom b) in Hb by lia.
  rewrite Hb; clear Hb.
  2:{ pose proof (length_units cs (links_pos _ _ _ (bo_links _ _ H))) as Hlen. unfold walk_fuel. rewrite (bo_size _ _ H).
      replace (16 * units_of cs) with (2 * units_of cs * 8) by lia. rewrite Z.div_mul by done. lia. }
  cbn [mbind option_bind]. pose proof (best_of_spec (request n) (bottom b) cs) as Hbest.
  destruct (best_of (request n) (bottom b) cs None) as [[c u]|]; [|left; split; [done|by right]]. right.
  destruct Hbest as (L & x & R & E & -> & _ & Hx). destruct Hx as ([Hf Hs] & HL & HR).
  destruct (take_chunk_spec L x R (request n) E Hf) as (m' & -> & Hok & Hbk & Ho); [lia|]. cbn [mbind option_bind].
  destruct (bo_free _ _ H) as [Hf1 Hf2].
  exists L, x, R, m'. split; [done|]. split; [done|]. split; [done|]. split; [|split; [|split; [done|]]].
  - unfold u4. rewrite Z.mod_small by lia. do 3 f_equal. unfold UNIT_SIZE. lia.
  - destruct Hok as [O1 O3 O4 O5 O6]. constructor; try done. cbn. lia.
  - intros a Ha. apply Ho. replace (bottom b + 16 * units_of L + 16 * cu x) with (bottom b + 16 * (units_of L + cu x)) by lia. exact Ha.
Qed.

(** ** Giving a chunk back *)

Lemma free_next_spec L x R fr :
  cs = L ++ x :: R -> let c := bottom b + 16 * units_of L in let u := fst (absorb_next (cu x) R) in
  free_next (mem b) (BLOCK_END b) c fr =
    Some (<[c + 8 := tag (c + 16 * u) true]> (mem b), u4 (fr + cu x - 16 + (if R is y :: _ then 16 * Z.b2z (cf y) else 0))).
Proof.
  intros E c u. destruct (chunk_word L x R E) as (Hw & Hx0 & HL & HR & Hu). fold c in Hw. destruct (bo_addr _ _ H) as (Hb & _ & _ & Hsz).
  rewrite (bo_size _ _ H) in Hsz. unfold U4_MOD in Hsz. set (e := c + 16 * cu x) in *.
  assert (forall k, 0 <= k <= cu x + units_of R -> addr_ok (c + 16 * k)) as Hao.
  { intros k Hk. unfold c. replace (bottom b + 16 * units_of L + 16 * k) with (bottom b + 16 * (units_of L + k)) by lia. apply block_addr. lia. }
  assert (addr_ok e) as Hae by (apply Hao; lia). unfold free_next. rewrite (set_freebit_spec _ _ _ _ Hw Hae). cbn [mbind option_bind].
  set (m1 := <[c + 8 := tag e true]> (mem b)). assert (chunk_next m1 c = Some e) as Hcn.
  { unfold chunk_next, next_word, m1. rewrite lookup_insert_eq. cbn. by rewrite tag_land_ptr. }
  assert (chunk_mem_size m1 c = Some (cu x)) as ->.
  { unfold chunk_mem_size. rewrite (proj2 (Z.eqb_neq c 0)) by lia. rewrite Hcn. cbn [mbind option_bind]. rewrite (proj2 (Z.ltb_lt _ _)) by lia.
    replace (e - c) with (cu x * UNIT_SIZE) by (unfold e, UNIT_SIZE; lia). rewrite Z.quot_mul by done. unfold u4, U4_MOD. by rewrite Z.mod_small by lia. }
  rewrite Hcn. cbn [mbind option_bind]. unfold BLOCK_END. rewrite (bo_size _ _ H), Hu.
  destruct R as [|y R]; cbn [absorb_next fst] in u.
  - rewrite units_nil, (proj2 (Z.eqb_eq _ _)) by (unfold e, c; lia). cbn [negb]. do 3 f_equal. unfold UNIT_SIZE. lia.
  - assert (cs = (L ++ [x]) ++ y :: R) as E' by (by rewrite <- app_assoc).
    assert (bottom b + 16 * units_of (L ++ [x]) = e) as He by (rewrite units_of_app, units_cons, units_nil; unfold e, c; lia).
    destruct (chunk_reads m1 (L ++ [x]) y R E') as (Hnw & _ & Hfb & _); rewrite He in *.
    { unfold m1. by rewrite lookup_insert_ne by lia. }
    rewrite units_cons in HR, Hu, Hao |- *. destruct (chunk_word _ _ _ E') as (_ & Hy & _ & HRr & _).
    rewrite (proj2 (Z.eqb_neq _ _)) by (unfold e, c; lia). cbn [negb]. rewrite Hfb. cbn [mbind option_bind].
    destruct (cf y); cbn [Z.b2z Z.eqb negb] in *.
    + rewrite Hnw. cbn [mbind option_bind]. rewrite set_next_Some by (unfold m1; rewrite lookup_insert_eq; by eexists). cbn [mbind option_bind].
      unfold m1. rewrite insert_insert_eq. f_equal. f_equal; [do 2 f_equal; unfold u, e; cbn [fst]; lia|]. unfold u4, UNIT_SIZE. rewrite Zplus_mod_idemp_l. f_equal. lia.
    + do 3 f_equal. unfold UNIT_SIZE. lia.
Qed.

Lemma free_pre_spec L x R fr w :
  cs = L ++ x :: R -> let c := bottom b + 16 * units_of L in let m := <[c + 8 := w]> (mem b) in
  mem b !! c = Some (last_start 0 (bottom b) L) ->
  free_pre m c fr =
    Some (match last L with
          | Some p => if cf p then (<[bottom b + 16 * units_of (removelast L) + 8 := w]> m, u4 (fr + UNIT_SIZE)) else (m, fr)
          | None => (m, fr)
          end).
Proof.
  intros E c m Hcp. destruct (bo_addr _ _ H) as (Hb & _).
  destruct (chunk_word L x R E) as (_ & _ & HL & _). unfold free_pre, pre, m. rewrite lookup_insert_ne by lia. rewrite Hcp. cbn [mbind option_bind].
  destruct L as [|p L _] using rev_ind; [by rewrite Z.eqb_refl|]. rewrite last_start_snoc, last_snoc, removelast_last.
  assert (cs = L ++ p :: x :: R) as E' by (rewrite E; by rewrite <- app_assoc).
  destruct (chunk_word L p (x :: R) E') as (_ & Hp & HL' & _). rewrite (proj2 (Z.eqb_neq _ 0)) by lia. cbn [negb].
  assert (c = bottom b + 16 * units_of L + 16 * cu p) as Hc by (unfold c; rewrite units_of_app, units_cons, units_nil; lia).
  destruct (chunk_reads m L p (x :: R) E') as (_ & _ & Hfb & _); [unfold m; by rewrite lookup_insert_ne by lia|]. fold m. rewrite Hfb. cbn [mbind option_bind].
  destruct (cf p); cbn [Z.b2z Z.eqb negb]; [|done]. unfold next_word, m. rewrite lookup_insert_eq. cbn [mbind option_bind].
  rewrite set_next_Some; [done|]. rewrite lookup_insert_ne by lia. destruct (chunk_word L p (x :: R) E') as (-> & _). by eexists.
Qed.

(** Joining: one word that leads over a chunk. *)
Lemma links_over m L u f R a :
  links m a L -> 0 < u -> m !! (a + 16 * units_of L + 8) = Some (tag (a + 16 * units_of L + 16 * u) f) -> links m (a + 16 * units_of L + 16 * u) R ->
  links m a (L ++ mk_ch u f :: R).
Proof. intros HL Hu Hw HR. apply links_app. split; [done|]. by cbn [links cu cf]. Qed.

(** The chunks after the next one has been taken in. *)
Lemma joined_next L x R :
  cs = L ++ x :: R -> let c := bottom b + 16 * units_of L in
  let '(u, R1) := absorb_next (cu x) R in let m := <[c + 8 := tag (c + 16 * u) true]> (mem b) in
  0 < u /\ u + units_of R1 = cu x + units_of R /\ links m (bottom b) L /\ links m (c + 16 * u) R1.
Proof.
  intros E c. destruct (links_parts L x R E) as (Hl1 & Hl2). fold c in Hl2. destruct (chunk_word L x R E) as (_ & Hx0 & HL & _).
  assert (forall v, links (<[c + 8 := v]> (mem b)) (bottom b) L) as HLv.
  { intros v. apply (links_ext (mem b)); [|done]. intros a Ha. rewrite lookup_insert_ne; [done|unfold c; lia]. }
  assert (forall v d R', 0 < d -> links (mem b) (c + 16 * d) R' -> links (<[c + 8 := v]> (mem b)) (c + 16 * d) R') as HRv.
  { intros v d R' Hd. apply links_ext. intros a Ha. rewrite lookup_insert_ne; [done|lia]. }
  destruct R as [|y R]; cbn [absorb_next]; [by repeat split|]. destruct Hl2 as (Hy1 & Hy2 & Hy3). destruct (cf y) eqn:Ef.
  - rewrite units_cons. split; [lia|]. split; [lia|]. split; [done|]. apply HRv; [lia|].
    by replace (c + 16 * (cu x + cu y)) with (c + 16 * cu x + 16 * cu y) by lia.
  - split; [done|]. split; [done|]. split; [done|]. apply HRv; [done|]. cbn [links]. by rewrite Ef.
Qed.

Lemma block_with_free m' cs' f :
  (forall a, is_Some (m' !! a) <-> is_Some (mem b !! a)) -> links m' (bottom b) cs' -> units_of cs' = units_of cs -> 0 <= f < U4_MOD ->
  block_fit (with_free (with_mem b m') f) cs'.
Proof. intros Hd Hl Hu Hf. destruct (block_with m' cs' Hd Hl Hu) as [O1 O3 O4 O5 O6]. by constructor. Qed.

(** The chunk before is in use, or there is none. *)
Lemma freed_next L x R u R1 f g :
  cs = L ++ x :: R -> absorb_next (cu x) R = (u, R1) ->
  let c := bottom b + 16 * units_of L in let m' := <[c + 8 := tag (c + 16 * u) true]> (mem b) in
  links m' (bottom b) L -> links m' (c + 16 * u) R1 -> 0 < u -> u + units_of R1 = cu x + units_of R ->
  is_Some (mem b !! (c + 8)) -> 0 <= f < U4_MOD -> (if last L is Some p then cf p else false) = false ->
  f = u4 (free b + cu x - 16 + 16 * merges L R) -> g = 16 * (if R is y :: _ then Z.b2z (cf y) else 0) ->
  Some (0, Some (with_free (with_mem b m') (u4 (free b + cu x - 16 + g)))) = Some (0, Some (with_free (with_mem b m') f)) /\
    block_fit (with_free (with_mem b m') f) (freed L x R) /\
    (merges L R = 0 -> back_ok b cs -> back_ok (with_mem b m') (L ++ mk_ch (cu x) true :: R)) /\
    forall a, a <> c + 8 -> a <> bottom b + 16 * units_of (removelast L) + 8 -> m' !! a = mem b !! a.
Proof.
  intros E Ea c m' HjL HjR Hu0 Hu1 Hw8 Hf Hlast Hfe ->. destruct (chunk_word L x R E) as (Hw & Hx0 & HL & HR & Hu).
  assert (merges L R = (if R is y :: _ then Z.b2z (cf y) else 0)) as Hm.
  { unfold merges. destruct (last L) as [p|]; [rewrite Hlast; cbn [Z.b2z]|]; lia. }
  assert (freed L x R = L ++ mk_ch u true :: R1) as ->.
  { unfold freed, absorb_prev. rewrite Ea. destruct (last L); [by rewrite Hlast|done]. }
  split; [by rewrite Hfe, Hm|]. split; [|split].
  - apply block_with_free; [by apply insert_dom| | |done].
    + apply links_over; try done. unfold m'. fold c. by rewrite lookup_insert_eq.
    + rewrite Hu, units_of_app, units_cons. cbn [cu]. lia.
  - intros Hz Hb. rewrite Hm in Hz. assert (u = cu x) as -> by (destruct R as [|y R']; cbn in Ea; [congruence|]; destruct (cf y); [cbn in Hz; lia|congruence]).
    by apply (bit_change L x R true E).
  - intros a Ha _. unfold m'. by rewrite lookup_insert_ne by congruence.
Qed.

Lemma block_free_spec L x R :
  cs = L ++ x :: R -> cf x = false -> 2 <= cu x ->
  let c := bottom b + 16 * units_of L in let f := u4 (free b + cu x - 16 + 16 * merges L R) in
  mem b !! c = Some (last_start 0 (bottom b) L) ->
  exists m', block_free (Some b) (c + 16) = Some (0, Some (with_free (with_mem b m') f)) /\
    block_fit (with_free (with_mem b m') f) (freed L x R) /\
    (merges L R = 0 -> back_ok b cs -> back_ok (with_mem b m') (L ++ mk_ch (cu x) true :: R)) /\
    forall a, a <> c + 8 -> a <> bottom b + 16 * units_of (removelast L) + 8 -> m' !! a = mem b !! a.
Proof.
  intros E Hx Hx2 c f Hcp. destruct (chunk_word L x R E) as (Hw & Hx0 & HL & HR & Hu). fold c in Hw. destruct (bo_addr _ _ H) as (Hb & _ & _ & Hsz).
  assert (0 <= f < U4_MOD) as Hf by (apply Z.mod_pos_bound; done).
  unfold block_free. rewrite (proj2 (Z.eqb_neq _ 0)), (proj2 (Z.leb_gt _ _)), (proj2 (Z.leb_gt _ _));
    [|unfold BLOCK_END; rewrite (bo_size _ _ H), Hu; unfold c; lia|unfold c; lia|unfold c; lia]. cbn [orb].
  replace (c + 16 - UNIT_SIZE) with c by (unfold UNIT_SIZE; lia).
  pose proof (free_next_spec L x R (free b) E) as Hn. cbn zeta in Hn. fold c in Hn. rewrite Hn; clear Hn. cbn [mbind option_bind].
  pose proof (joined_next L x R E) as Hj. cbn zeta in Hj. fold c in Hj. destruct (absorb_next (cu x) R) as [u R1] eqn:Ea.
  destruct Hj as (Hu0 & Hu1 & HjL & HjR). cbn [fst].
  rewrite (free_pre_spec L x R _ (tag (c + 16 * u) true) E Hcp). cbn [mbind option_bind]. fold c.
  set (m1 := <[c + 8 := tag (c + 16 * u) true]> (mem b)) in *. set (g := if R is y :: _ then 16 * Z.b2z (cf y) else 0).
  assert (g = 16 * (if R is y :: _ then Z.b2z (cf y) else 0)) as Hg by (unfold g; destruct R; lia).
  assert (is_Some (mem b !! (c + 8))) as Hw8 by (rewrite Hw; by eexists).
  destruct (last L) as [p|] eqn:El; [destruct (cf p) eqn:Efp|].
  - apply last_Some in El as [L0 ->]. unfold freed, merges, absorb_prev in *. rewrite Ea, last_snoc, removelast_last, Efp in *.
    rewrite links_app in HjL. destruct HjL as [HjL0 _]. set (q := bottom b + 16 * units_of L0).
    assert (cs = L0 ++ p :: x :: R) as E' by (rewrite E; by rewrite <- app_assoc).
    destruct (chunk_word L0 p _ E') as (Hwp & Hp0 & HL0 & _). fold q in Hwp. assert (c = q + 16 * cu p) as Hc by (unfold c, q; rewrite units_of_app, units_cons, units_nil; lia).
    exists (<[q + 8 := tag (c + 16 * u) true]> m1). split; [|split; [|split]].
    + do 4 f_equal. unfold f, u4, UNIT_SIZE. rewrite last_snoc, Efp, Zplus_mod_idemp_l. f_equal. rewrite Hg. cbn [Z.b2z]. lia.
    + apply block_with_free; [intros a; unfold m1; rewrite insert_dom; [by apply insert_dom|apply insert_dom; [done|rewrite Hwp; by eexists]]| |rewrite Hu, !units_of_app, !units_cons, units_nil; cbn [cu]; lia|done]. apply links_over; [|lia| |].
      * apply (links_ext m1); [|done]. intros a Ha. rewrite lookup_insert_ne; [done|unfold q; lia].
      * fold q. rewrite lookup_insert_eq. do 2 f_equal. lia.
      * fold q. replace (q + 16 * (cu p + u)) with (c + 16 * u) by lia. apply (links_ext m1); [|done]. intros a Ha. rewrite lookup_insert_ne; [done|lia].
    + destruct R as [|y ?]; [|destruct (cf y)]; cbn [Z.b2z]; lia.
    + intros a Ha1 Ha2. fold q in Ha2. rewrite lookup_insert_ne by congruence. unfold m1. by rewrite lookup_insert_ne by congruence.
  - exists m1. apply (freed_next L x R u R1); try done. by rewrite El, Efp.
  - exists m1. apply (freed_next L x R u R1); try done. by rewrite El.
Qed.

End block.

(** ** Blocks of the pool *)

Lemma fresh_words_dom n a k : is_Some (fresh_words n a !! k) <-> a <= k < a + 8 * Z.of_nat n /\ (k - a) mod 8 = 0.
Proof.
  revert a. induction n as [|n IH]; intros a; cbn [fresh_words]; [rewrite lookup_empty; split; [by intros []|lia]|].
  rewrite lookup_insert_is_Some', IH. replace (k - (a + 8)) with (k - a + (-1) * 8) by lia. rewrite Z.mod_add by lia. split.
  - intros [->|[H1 H2]]; [|split; [lia|done]]. rewrite Z.sub_diag. split; [lia|done].
  - intros [H1 H2]. destruct (Z.eq_dec a k) as [->|Hne]; [by left|right]. split; [|done].
    pose proof (Z.div_mod (k - a) 8 ltac:(lia)). lia.
Qed.

(** Addresses [malloc] may return. *)
Definition alloc_ok (alloc : alloc_fun) : Prop := forall n a, alloc n = Some a -> 0 < a /\ a mod 2 = 0 /\ a + n < U8_MOD.

Lemma block_init_spec alloc sz :
  alloc_ok alloc -> 0 < sz -> sz mod 16 = 0 -> sz < U4_MOD ->
  match alloc (24 + sz) with
  | None => block_init alloc false sz = Some (-2, None)
  | Some a => exists b, block_init alloc false sz = Some (0, Some b) /\ block_fit b [mk_ch (sz / 16) true] /\ back_ok b [mk_ch (sz / 16) true] /\
      size b = sz /\ free b = sz /\ bottom b = a + 24
  end.
Proof.
  intros Hal Hs Hm Hlt. unfold U4_MOD in Hlt. unfold block_init. rewrite (proj2 (Z.eqb_neq sz 0)) by lia. cbn [orb].
  pose proof (Z.div_mod sz 16 ltac:(lia)) as Hd. rewrite Hm in Hd.
  assert (u4 (ALIGN_SIZE sz UNIT_SIZE) = sz) as ->.
  { rewrite align_unit by (unfold U8_MOD; lia). replace (sz + 15) with (15 + sz / 16 * 16) by lia. rewrite Z.div_add by lia.
    change (15 / 16) with 0. unfold u4. rewrite Z.mod_small by (unfold U4_MOD; lia). lia. }
  assert (u8 (sizeof_block_t - 1 + sz) = 24 + sz) as -> by (unfold u8, sizeof_block_t; rewrite Z.mod_small by (unfold U8_MOD; lia); lia).
  destruct (alloc (24 + sz)) as [a|] eqn:Ea; [|done]. destruct (Hal _ _ Ea) as (Ha1 & Ha2 & Ha3).
  replace (a + (sizeof_block_t - 1)) with (a + 24) by (unfold sizeof_block_t; lia). set (d := a + 24).
  assert (0 < sz / 16) as Hu by lia. assert (sz / 8 = 2 * (sz / 16)) as H8.
  { rewrite Hd at 1. replace (16 * (sz / 16) + 0) with (2 * (sz / 16) * 8) by lia. by rewrite Z.div_mul. }
  set (m := fresh_words (Z.to_nat (sz / 8)) d).
  assert (forall k, is_Some (m !! k) <-> d <= k < d + sz /\ (k - d) mod 8 = 0) as Hdom.
  { intros k. unfold m. rewrite fresh_words_dom, Z2Nat.id by lia. rewrite H8. by replace (8 * (2 * (sz / 16))) with sz by lia. }
  assert (is_Some (m !! d)) as Hw0 by (apply Hdom; rewrite Z.sub_diag; split; [lia|done]).
  assert (is_Some (m !! (d + 8))) as Hw8 by (apply Hdom; split; [lia|]; by replace (d + 8 - d) with 8 by lia).
  rewrite set_pre_Some by done. cbn [mbind option_bind].
  rewrite set_next_Some by (rewrite lookup_insert_ne by lia; done). cbn [mbind option_bind].
  assert (addr_ok (d + sz)) as Hae.
  { split; [unfold d; lia|]. unfold d. rewrite Hd. apply addr_even; [by apply addr_even|]. replace (16 * (sz / 16) + 0) with (16 * (sz / 16)) by lia. apply unit_even. }
  rewrite (set_freebit_spec _ d (d + sz) false); [|rewrite lookup_insert_eq; unfold tag; cbn; f_equal; lia|done]. cbn [mbind option_bind].
  rewrite insert_insert_eq. eexists. split; [reflexivity|]. split; [|split; [|done]].
  - constructor; cbn [mem bottom size free].
    + cbn [links cu cf]. rewrite lookup_insert_eq. split; [do 2 f_equal; lia|]. by split.
    + rewrite units_cons, units_nil. cbn [cu]. lia.
    + split; [unfold d; lia|]. split; [unfold d; by apply addr_even|]. unfold BLOCK_END. cbn. unfold U4_MOD, d. lia.
    + intros k. unfold BLOCK_END. cbn [bottom size]. rewrite <- Hdom. rewrite insert_dom; [by apply insert_dom|]. by rewrite lookup_insert_ne by lia.
    + unfold U4_MOD. lia.
  - unfold back_ok. cbn. rewrite lookup_insert_ne by lia. by rewrite lookup_insert_eq.
Qed.

(** The blocks of a pool, whatever has been taken from them and given back. *)
Definition pool_block (bs : Z) (b : block_t) : Prop := size b = bs /\ exists cs, block_fit b cs.

Record pool_ok (pool : mem_pool_t) : Prop := {
  po_size : 0 < block_size pool < U4_MOD - BLOCK_SIZE /\ block_size pool mod 16 = 0;
  po_blocks : Forall (pool_block (block_size pool)) (block_list pool);
}.

(** The memory at [p] is that of a chunk in use with room for [n] bytes. *)
Definition holds_for (b : block_t) (n p : Z) : Prop :=
  exists L x R, block_fit b (L ++ x :: R) /\ cf x = false /\ p = bottom b + 16 * units_of L + 16 /\ n <= 16 * cu x - 16.

Lemma given_holds b s x L R n :
  block_fit b (L ++ given s x ++ R) -> s <= cu x -> n + 16 <= s -> 0 < n -> holds_for b n (bottom b + 16 * (units_of L + given_at s x) + 16).
Proof.
  unfold given, given_at. intros H Hs Hn Hn0. destruct (Z.ltb_spec (cu x - s) 48) as [Hlt|Hge].
  - exists L, (mk_ch (cu x) false), R. split; [done|]. split; [done|]. split; [lia|cbn; lia].
  - exists (L ++ [mk_ch (cu x - s) true]), (mk_ch s false), R. rewrite <- app_assoc. split; [done|]. split; [done|].
    rewrite units_of_app, units_cons, units_nil. cbn [cu]. split; lia.
Qed.

Lemma pool_block_malloc bs b n :
  pool_block bs b -> 0 < n -> n + 32 < U4_MOD ->
  (block_malloc (Some b) n = Some (None, Some b)) \/
  (exists p b', block_malloc (Some b) n = Some (Some p, Some b') /\ pool_block bs b' /\ holds_for b' n p /\ request n <= bs / 16).
Proof.
  intros [Hbs [cs H]] Hn Hm. pose proof (request_bounds n Hn) as Hr.
  destruct (block_malloc_spec b cs H n Hn Hm) as [[-> _]|(L & x & R & m' & E & [[Hx Hs] _] & Hfr & -> & Hok & _)]; [by left|right].
  eexists _, _. split; [reflexivity|]. split; [split; [done|by eexists]|]. split.
  - apply (given_holds _ (request n) x L R n Hok); lia.
  - destruct (chunk_word b cs H L x R E) as (_ & _ & HL & HR & Hu). rewrite <- Hbs, (bo_size _ _ H), Z.mul_comm, Z.div_mul by lia. lia.
Qed.

Lemma pool_malloc_spec bs n bl :
  Forall (pool_block bs) bl -> 0 < n -> n + 32 < U4_MOD ->
  exists r bl', pool_malloc bl n = Some (r, bl') /\ Forall (pool_block bs) bl' /\ length bl' = length bl /\
    (forall p, r = Some p -> request n <= bs / 16 /\ Exists (fun b => holds_for b n p) bl').
Proof.
  intros Hbl Hn Hm. induction Hbl as [|b bl Hb Hbl (r & bl' & Hrun & Hbl' & Hlen & Hr)]; [by exists None, []|]. cbn [pool_malloc].
  assert (forall b', pool_block bs b' -> (exists r bl'', ('(p, bl) ← pool_malloc bl n; Some (p, b' :: bl)) = Some (r, bl'') /\
    Forall (pool_block bs) bl'' /\ length bl'' = length (b :: bl) /\ forall p, r = Some p -> request n <= bs / 16 /\ Exists (fun b => holds_for b n p) bl'')) as Hnext.
  { intros b' Hb'. rewrite Hrun. cbn [mbind option_bind]. exists r, (b' :: bl'). split; [done|]. split; [by constructor|]. split; [cbn; by rewrite Hlen|].
    intros p Hp. destruct (Hr p Hp) as [H1 H2]. split; [done|by right]. }
  destruct (n <? free b); cbn [mbind option_bind]; [|by apply Hnext].
  destruct (pool_block_malloc bs b n Hb Hn Hm) as [->|(p & b' & -> & Hb' & Hh & Hreq)]; cbn [mbind option_bind default]; [by apply Hnext|].
  exists (Some p), (b' :: bl). split; [done|]. split; [by constructor|]. split; [done|]. intros ? [= <-]. split; [done|by left].
Qed.

Lemma pool_init_ok alloc bs :
  alloc_ok alloc -> 0 < bs < U4_MOD - 2 * BLOCK_SIZE ->
  let size := BLOCK_SIZE * ((bs + (BLOCK_SIZE - 1)) / BLOCK_SIZE) in
  match alloc (24 + size) with
  | None => mem_pool_init true alloc false bs = Some (-2, None)
  | Some _ => exists pool, mem_pool_init true alloc false bs = Some (0, Some pool) /\ pool_ok pool /\ block_size pool = size /\ length (block_list pool) = 1%nat
  end.
Proof.
  intros Hal Hbs size. unfold mem_pool_init. rewrite (proj2 (Z.eqb_neq bs 0)) by lia. cbn [negb].
  change (u4 (- BLOCK_SIZE)) with (Z.ldiff (Z.ones 32) (Z.ones 12)). unfold U4_MOD, BLOCK_SIZE in *. change (4 * 1024) with 4096 in *.
  assert (size = 4096 * ((bs + 4095) / 4096)) as Hsize by done. clearbody size.
  pose proof (Z.div_mod (bs + 4095) 4096 ltac:(lia)) as Hd. pose proof (Z.mod_pos_bound (bs + 4095) 4096 ltac:(lia)) as Hmb.
  assert (Z.land (u4 (u4 (bs + 4096) - 1)) (Z.ldiff (Z.ones 32) (Z.ones 12)) = size) as ->.
  { unfold u4, U4_MOD. rewrite (Z.mod_small (bs + 4096)) by lia. rewrite (Z.mod_small (bs + 4096 - 1)) by lia.
    rewrite Z.ldiff_land, Z.land_assoc, <- Z.ldiff_land.
    rewrite Z.land_ones by lia. rewrite Z.mod_small by lia. rewrite Z.ldiff_ones_r by lia. rewrite Z.shiftl_mul_pow2, Z.shiftr_div_pow2 by lia.
    change (2 ^ 12) with 4096. replace (bs + 4096 - 1) with (bs + 4095) by lia. lia. }
  assert (0 < size < 2 ^ 32 - 4096) as Hsz by lia.
  assert (size mod 16 = 0) as H16 by (rewrite Hsize; replace (4096 * ((bs + 4095) / 4096)) with (256 * ((bs + 4095) / 4096) * 16) by lia; by apply Z.mod_mul).
  pose proof (block_init_spec alloc size Hal) as Hi. unfold U4_MOD in Hi. specialize (Hi ltac:(lia) H16 ltac:(lia)).
  destruct (alloc (24 + size)); [|by rewrite Hi]. destruct Hi as (b & -> & Hfit & _ & Hs & _). cbn [mbind option_bind].
  eexists. split; [reflexivity|]. split; [|done]. constructor; cbn [block_size block_list]; [unfold U4_MOD, BLOCK_SIZE; split; [lia|done]|].
  constructor; [|done]. split; [done|by eexists].
Qed.

(** ** The component *)

(** Memory for the witnesses. *)
Definition alloc_low : alloc_fun := fun n => if n <? U4_MOD then Some 40 else None.

Lemma alloc_low_ok : alloc_ok alloc_low.
Proof.
  intros n a. unfold alloc_low. destruct (Z.ltb_spec n U4_MOD) as [Hn|]; [|done]. intros [= <-].
  split; [lia|]. split; [done|]. unfold U4_MOD, U8_MOD in *. lia.
Qed.

Definition no_block : block_t := mk_block 0 0 0 ∅.
Definition sample_block : block_t := default no_block (block_init alloc_low false 4096 ≫= snd).
Definition taken_block : block_t := default no_block (block_malloc (Some sample_block) 24 ≫= snd).

Lemma sample_block_fit : block_fit sample_block [mk_ch 256 true] /\ back_ok sample_block [mk_ch 256 true] /\ bottom sample_block = 64.
Proof.
  pose proof (block_init_spec alloc_low 4096 alloc_low_ok ltac:(lia) eq_refl ltac:(unfold U4_MOD; lia)) as Hi. cbn [alloc_low] in Hi.
  change (alloc_low (24 + 4096)) with (Some 40) in Hi. destruct Hi as (b & Hrun & H1 & H2 & _ & _ & H3). unfold sample_block. rewrite Hrun. by split; [|split].
Qed.

Lemma taken_block_fit : block_fit taken_block ([mk_ch 208 true] ++ mk_ch 48 false :: []) /\ back_ok taken_block ([mk_ch 208 true] ++ mk_ch 48 false :: []).
Proof.
  destruct sample_block_fit as (H & Hb & _).
  destruct (block_malloc_spec sample_block _ H 24 ltac:(lia) ltac:(unfold U4_MOD; lia)) as [[Hno _]|(L & x & R & m' & E & _ & _ & Hrun & Hfit & Hbk & _)].
  { apply (f_equal (fun r => if r is Some (Some _, _) then true else false)) in Hno. vm_compute in Hno. discriminate Hno. }
  assert (L = [] /\ x = mk_ch 256 true /\ R = []) as (-> & -> & ->).
  { clear -E. destruct L as [|y L]; [injection E as <- <-; auto|]. destruct L; discriminate E. }
  specialize (Hbk Hb). unfold taken_block. rewrite Hrun. split; [exact Hfit|exact Hbk].
Qed.

(** C11. [block_malloc] gives the best fit.  In a block whose chunks lead to one
    another it answers nil when less is free than the request and its header take,
    or when no free chunk has as many units as they take bytes; else it
    takes those units from the end of the first of the smallest such chunks, or
    the whole of it when fewer than 48 would be left, keeps the links in order, both ways
    if they were, and touches nothing but that chunk and the link of the next one. *)
Theorem block_malloc_best_fit (b : block_t) (cs : list ch) (n : Z) :
  block_fit b cs -> 0 < n -> n + 32 < U4_MOD ->
  (block_malloc (Some b) n = Some (None, Some b) /\ (free b < request n \/ Forall (fun y => ~ fits (request n) y) cs)) \/
  exists L x R p b', cs = L ++ x :: R /\ best (request n) L x R /\
    block_malloc (Some b) n = Some (Some p, Some b') /\ free b' = free b - request n /\ 0 <= free b' /\
    p = bottom b + 16 * (units_of L + given_at (request n) x) + 16 /\
    block_fit b' (L ++ given (request n) x ++ R) /\ (back_ok b cs -> back_ok b' (L ++ given (request n) x ++ R)) /\ holds_for b' n p /\
    forall a, a < bottom b + 16 * units_of L \/ bottom b + 16 * (units_of L + cu x) < a -> mem b' !! a = mem b !! a.
Proof.
  intros H Hn Hm. destruct (block_malloc_spec b cs H n Hn Hm) as [Hno|(L & x & R & m' & E & Hb & Hf & Hrun & Hok & Hbk & Ho)]; [by left|right].
  pose proof (request_bounds n Hn). exists L, x, R. eexists _, _. split; [done|]. split; [done|]. split; [exact Hrun|]. split; [done|].
  split; [cbn; lia|]. split; [done|]. split; [exact Hok|]. split; [exact Hbk|]. split; [|exact Ho].
  destruct Hb as [[_ Hs] _]. apply (given_holds _ (request n) x L R n Hok); lia.
Qed.

Lemma block_malloc_best_fit_witness :
  (block_malloc (Some sample_block) 24 = Some (None, Some sample_block) /\
     (free sample_block < request 24 \/ Forall (fun y => ~ fits (request 24) y) [mk_ch 256 true])) \/
  exists L x R p b', [mk_ch 256 true] = L ++ x :: R /\ best (request 24) L x R /\
    block_malloc (Some sample_block) 24 = Some (Some p, Some b') /\ free b' = free sample_block - request 24 /\ 0 <= free b' /\
    p = bottom sample_block + 16 * (units_of L + given_at (request 24) x) + 16 /\
    block_fit b' (L ++ given (request 24) x ++ R) /\ (back_ok sample_block [mk_ch 256 true] -> back_ok b' (L ++ given (request 24) x ++ R)) /\ holds_for b' 24 p /\
    forall a, a < bottom sample_block + 16 * units_of L \/ bottom sample_block + 16 * (units_of L + cu x) < a -> mem b' !! a = mem sample_block !! a.
Proof.
  apply (block_malloc_best_fit sample_block [mk_ch 256 true] 24); [apply sample_block_fit|lia|unfold U4_MOD; lia].
Defined.

(** The 24 bytes are in the last 48 units of the block. *)
Example taken_block_run : fst <$> block_malloc (Some sample_block) 24 = Some (Some (64 + 16 * 208 + 16)) /\ free taken_block = 4096 - 48.
Proof. vm_compute. done. Qed.

(** [block_free] makes the chunk free and joins it with its free neighbours: the
    next one, and the one before if the link back to it is right.  Whatever the
    links back of other chunks, the links forward stay in order; the links back
    too when there is no neighbour to join with. *)
Theorem block_free_merges (b : block_t) (L : list ch) (x : ch) (R : list ch) :
  block_fit b (L ++ x :: R) -> cf x = false -> 2 <= cu x ->
  mem b !! (bottom b + 16 * units_of L) = Some (last_start 0 (bottom b) L) ->
  exists b', block_free (Some b) (bottom b + 16 * units_of L + 16) = Some (0, Some b') /\
    block_fit b' (freed L x R) /\ free b' = u4 (free b + cu x - 16 + 16 * merges L R) /\
    (merges L R = 0 -> back_ok b (L ++ x :: R) -> back_ok b' (freed L x R)).
Proof.
  intros H Hx Hx2 Hp. destruct (block_free_spec b _ H L x R eq_refl Hx Hx2 Hp) as (m' & Hrun & Hfit & Hbk & _).
  eexists. split; [exact Hrun|]. split; [exact Hfit|]. split; [done|]. intros Hz Hb. pose proof (Hbk Hz Hb) as Hb'.
  rewrite (freed_none L x R Hz). exact Hb'.
Qed.

Lemma block_free_merges_witness :
  exists b', block_free (Some taken_block) (bottom taken_block + 16 * units_of [mk_ch 208 true] + 16) = Some (0, Some b') /\
    block_fit b' [mk_ch 256 true] /\ free b' = 4096 /\
    (merges [mk_ch 208 true] [] = 0 -> back_ok taken_block ([mk_ch 208 true] ++ mk_ch 48 false :: []) -> back_ok b' [mk_ch 256 true]).
Proof.
  apply (block_free_merges taken_block [mk_ch 208 true] (mk_ch 48 false) []); [apply taken_block_fit|reflexivity|cbn; lia|vm_compute; reflexivity].
Defined.

(** Giving back what was just taken.  When the chunk was cut from a larger one, and
    the next chunk is in use, the block has its old chunks and its old count of what is
    free.  When a whole chunk was given, between neighbours in use, it has its old
    chunks, but the count is off by what the chunk had beyond the request, less 16. *)
Theorem malloc_free_roundtrip (b b1 : block_t) (cs : list ch) (n p : Z) :
  block_fit b cs -> back_ok b cs -> 0 < n -> n + 32 < U4_MOD -> block_malloc (Some b) n = Some (Some p, Some b1) ->
  exists b2 L x R, cs = L ++ x :: R /\ best (request n) L x R /\ block_free (Some b1) p = Some (0, Some b2) /\
    (48 <= cu x - request n -> (if R is y :: _ then cf y else false) = false -> block_fit b2 cs /\ free b2 = free b) /\
    (cu x - request n < 48 -> merges L R = 0 -> block_fit b2 cs /\ free b2 = u4 (free b + (cu x - request n) - 16)).
Proof.
  intros H Hbk Hn Hm Hrun. pose proof (request_bounds n Hn) as Hr.
  destruct (block_malloc_spec b cs H n Hn Hm) as [[Hno _]|(L & x & R & m' & E & Hb & Hf & Hrun' & Hok & Hbk' & _)]; [by rewrite Hno in Hrun|].
  rewrite Hrun' in Hrun. injection Hrun as <- <-. specialize (Hbk' Hbk). pose proof Hb as [[Hx Hs] _].
  assert (x = mk_ch (cu x) true) as Hxe by (destruct x as [u f]; cbn in Hx; by subst f).
  unfold given, given_at in *. set (s := request n) in *. set (b1 := with_free (with_mem b m') (free b - s)) in *. destruct (bo_free _ _ H) as [Hf1 Hf2].
  destruct (Z.ltb_spec (cu x - s) 48) as [Hlt|Hge].
  - assert (back_ok b1 (L ++ mk_ch (cu x) false :: R)) as Hbk1 by exact Hbk'.
    destruct (pres_parts b1 _ L (mk_ch (cu x) false) R eq_refl Hbk1) as (_ & Hp & _).
    destruct (block_free_spec b1 _ Hok L (mk_ch (cu x) false) R eq_refl eq_refl) as (m2 & Hfree & Hfit & _); [cbn; lia|exact Hp|].
    eexists _, L, x, R. split; [done|]. split; [done|]. replace (units_of L + 0) with (units_of L) by lia. split; [exact Hfree|]. split; [lia|].
    intros _ Hz. rewrite (freed_none L _ R Hz) in Hfit. cbn [cu] in Hfit. rewrite <- Hxe, <- E in Hfit. split; [exact Hfit|].
    cbn [free with_free]. rewrite Hz. cbn [b1 cu free with_free]. f_equal. lia.
  - set (r := mk_ch (cu x - s) true) in *. set (g := mk_ch s false) in *. change ([r; g] ++ R) with ([r] ++ g :: R) in Hok, Hbk'. rewrite app_assoc in Hok, Hbk'.
    assert (back_ok b1 ((L ++ [r]) ++ g :: R)) as Hbk1 by exact Hbk'.
    destruct (pres_parts b1 _ (L ++ [r]) g R eq_refl Hbk1) as (_ & Hp & _).
    destruct (block_free_spec b1 _ Hok (L ++ [r]) g R eq_refl eq_refl) as (m2 & Hfree & Hfit & _); [cbn; lia|exact Hp|].
    eexists _, L, x, R. split; [done|]. split; [done|]. split.
    { replace (bottom b + 16 * (units_of L + (cu x - s)) + 16) with (bottom b1 + 16 * units_of (L ++ [r]) + 16)
        by (rewrite units_of_app, units_cons, units_nil; cbn; lia). exact Hfree. }
    split; [|lia]. intros _ HR. assert (merges (L ++ [r]) R = 1) as Hz.
    { unfold merges. rewrite last_snoc. destruct R as [|y R]; [done|]. by rewrite HR. }
    assert (freed (L ++ [r]) g R = cs) as Hcs.
    { unfold freed, absorb_next, absorb_prev. assert ((match R with y :: R' => if cf y then (cu g + cu y, R') else (cu g, R) | [] => (cu g, R) end) = (cu g, R)) as ->.
      { destruct R as [|y R]; [done|]. by rewrite HR. }
      rewrite last_snoc, removelast_last. unfold r, g. cbn [cf cu]. replace (cu x - s + s) with (cu x) by lia. by rewrite <- Hxe, <- E. }
    rewrite Hcs in Hfit. split; [exact Hfit|]. cbn [free with_free]. rewrite Hz. cbn [b1 g cu free with_free]. unfold u4. rewrite Z.mod_small by lia. lia.
Qed.

Lemma malloc_free_roundtrip_witness :
  exists b2 L x R, [mk_ch 256 true] = L ++ x :: R /\ best (request 24) L x R /\ block_free (Some taken_block) 3408 = Some (0, Some b2) /\
    (48 <= cu x - request 24 -> (if R is y :: _ then cf y else false) = false -> block_fit b2 [mk_ch 256 true] /\ free b2 = free sample_block) /\
    (cu x - request 24 < 48 -> merges L R = 0 -> block_fit b2 [mk_ch 256 true] /\ free b2 = u4 (free sample_block + (cu x - request 24) - 16)).
Proof.
  apply (malloc_free_roundtrip sample_block taken_block [mk_ch 256 true] 24 3408);
    [apply sample_block_fit|apply sample_block_fit|lia|unfold U4_MOD; lia|vm_compute; reflexivity].
Defined.

(** C40. [mem_pool_alloc] below the size of a block.  A request that takes, with its
    header, as many bytes as a block has units, a sixteenth of its bytes, or fewer, is given
    room in a chunk of one of the blocks, a new one if need be, unless memory for
    that is refused.  A greater one is never met: every try fails, and adds a
    block that stays. *)
Theorem mem_pool_alloc_sixteenth (alloc : alloc_fun) (pool : mem_pool_t) (n : Z) :
  alloc_ok alloc -> pool_ok pool -> 0 < n < block_size pool ->
  exists r pool', mem_pool_alloc alloc (Some pool) n = Some (r, Some pool') /\ pool_ok pool' /\ block_size pool' = block_size pool /\
    (forall p, r = Some p -> Exists (fun b => holds_for b n p) (block_list pool')) /\
    (request n <= block_size pool / 16 -> r = None -> alloc (24 + block_size pool) = None) /\
    (block_size pool / 16 < request n -> r = None /\
       length (block_list pool') = (length (block_list pool) + if alloc (24 + block_size pool)%Z is Some _ then 1 else 0)%nat).
Proof.
  intros Hal [[Hbs H16] Hbl] Hn. unfold BLOCK_SIZE in Hbs. assert (n + 32 < U4_MOD) as Hm by lia. cbn [mem_pool_alloc].
  rewrite (proj2 (Z.eqb_neq n 0)), (proj2 (Z.leb_gt _ _)) by lia.
  destruct (pool_malloc_spec _ n _ Hbl ltac:(lia) Hm) as (r & bl & -> & Hbl' & Hlen & Hr). cbn [mbind option_bind block_size].
  destruct r as [p|]; cbn [mbind option_bind].
  { destruct (Hr p eq_refl) as [Hreq Hex]. eexists (Some p), _. split; [reflexivity|]. split; [by constructor|]. split; [done|]. split; [by intros ? [= <-]|]. split; [done|lia]. }
  pose proof (block_init_spec alloc (block_size pool) Hal ltac:(lia) H16 ltac:(lia)) as Hi.
  destruct (alloc (24 + block_size pool)) as [a|].
  2:{ rewrite Hi. cbn [mbind option_bind]. eexists None, _. split; [reflexivity|]. split; [by constructor|]. split; [done|]. split; [done|]. split; [done|].
      intros _. split; [done|]. cbn [block_list]. lia. }
  destruct Hi as (b & -> & Hfit & _ & Hsz & Hfr & _). cbn [mbind option_bind]. pose proof (request_bounds n ltac:(lia)) as Hrb.
  assert (pool_block (block_size pool) b) as Hpb by (split; [done|by eexists]).
  destruct (pool_block_malloc _ b n Hpb ltac:(lia) Hm) as [Hno|(p & b' & -> & Hb' & Hh & Hreq)]; cbn [mbind option_bind default].
  - rewrite Hno. cbn [mbind option_bind default]. eexists None, _. split; [reflexivity|]. split; [constructor; [done|by constructor]|]. split; [done|]. split; [done|]. split.
    + intros Hle _. exfalso. destruct (block_malloc_spec b _ Hfit n ltac:(lia) Hm) as [[_ [Hlt|Hall]]|(L & x & R & m' & _ & _ & _ & Hrun & _)].
      * rewrite Hfr in Hlt. pose proof (Z.div_mod (block_size pool) 16 ltac:(lia)). lia.
      * apply Forall_inv in Hall. apply Hall. split; [done|exact Hle].
      * by rewrite Hno in Hrun.
    + intros _. split; [done|]. cbn [block_list length]. lia.
  - eexists (Some p), _. split; [reflexivity|]. split; [constructor; [done|by constructor]|]. split; [done|]. split; [intros ? [= <-]; by left|]. split; [done|lia].
Qed.

(** A pool of blocks of 4096 bytes gives 240 bytes at most; 300 make it grow for nothing. *)
Definition sample_pool : mem_pool_t := default (mk_pool 0 0 [] ∅) (mem_pool_init true alloc_low false 4000 ≫= snd).

Lemma sample_pool_ok : pool_ok sample_pool /\ block_size sample_pool = 4096 /\ length (block_list sample_pool) = 1%nat.
Proof.
  pose proof (pool_init_ok alloc_low 4000 alloc_low_ok ltac:(unfold U4_MOD, BLOCK_SIZE; lia)) as Hi. cbn zeta in Hi.
  change (BLOCK_SIZE * ((4000 + (BLOCK_SIZE - 1)) / BLOCK_SIZE)) with 4096 in Hi. change (alloc_low (24 + 4096)) with (Some 40) in Hi.
  destruct Hi as (pool & Hrun & H). unfold sample_pool. rewrite Hrun. exact H.
Qed.

Lemma mem_pool_alloc_sixteenth_witness :
  exists r pool', mem_pool_alloc alloc_low (Some sample_pool) 300 = Some (r, Some pool') /\ pool_ok pool' /\ block_size pool' = block_size sample_pool /\
    (forall p, r = Some p -> Exists (fun b => holds_for b 300 p) (block_list pool')) /\
    (request 300 <= block_size sample_pool / 16 -> r = None -> alloc_low (24 + block_size sample_pool) = None) /\
    (block_size sample_pool / 16 < request 300 -> r = None /\
       length (block_list pool') = (length (block_list sample_pool) + if alloc_low (24 + block_size sample_pool)%Z is Some _ then 1 else 0)%nat).
Proof.
  apply (mem_pool_alloc_sixteenth alloc_low sample_pool 300 alloc_low_ok); [apply sample_pool_ok|].
  destruct sample_pool_ok as (_ & -> & _). lia.
Defined.

Example sample_pool_run :
  fst <$> mem_pool_alloc alloc_low (Some sample_pool) 240 = Some (Some (64 + 16)) /\
  (let r := mem_pool_alloc alloc_low (Some sample_pool) 300 in
   (fst <$> r) = Some None /\ ((fun p => length (block_list p)) <$> (r ≫= snd)) = Some 2%nat).
Proof. vm_compute. done. Qed.

(** What the owner of memory stores in a block. *)
Definition owner_store (pool : mem_pool_t) (a w : Z) : option mem_pool_t :=
  match block_list pool with
  | [b] => m ← store (mem b) a w; Some (mk_pool (block_num pool) (block_size pool) [with_mem b m] (big pool))
  | _ => None
  end.

(** [p], [q] and [r] are allocated, [q] is given back before [r]; the owner of [r] stores
    a word in the last 8 of its 768 bytes; then [p] is given back. *)
Definition stale_run : option (Z * option Z * option Z) :=
  '(_, pool) ← mem_pool_init true (fun _ => Some 40) false 16384;
  '(p, pool) ← mem_pool_alloc (fun _ => None) pool 224;
  '(q, pool) ← mem_pool_alloc (fun _ => None) pool 720;
  p ← p; q ← q;
  '(_, pool) ← mem_pool_dealloc pool q;
  '(r, pool) ← mem_pool_alloc (fun _ => None) pool 768;
  r ← r; pool ← pool;
  pool ← owner_store pool (r + 760) 1;
  let before := block_word (block_list pool) (r + 760) in
  '(ret, pool) ← mem_pool_dealloc (Some pool) p;
  pool ← pool;
  Some (ret, before, block_word (block_list pool) (r + 760)).

(** The links back are not kept by [block_free]: after a chunk has joined the one
    before it, the one after still names it.  Once the joined chunk is given out, that
    name leads into its owner's memory, and giving the later chunk back overwrites a
    word the owner has stored, and answers 0. *)
Theorem stale_link_corrupts :
  exists before after, stale_run = Some (0, Some before, Some after) /\ before <> after.
Proof. eexists _, _. split; [vm_compute; reflexivity|]. vm_compute. discriminate. Qed.

End PoolSpec.
