(* ===== verification/LiskTimer.v ===== *)
(** * lisk_timer.c: a timer wheel

    Five lists of timers, by how far off they are: below a second, a minute, an
    hour, a day, and beyond.  [timer_update] advances the hands of a clock and,
    when a hand moves, hands the timers of its list on to nearer lists;
    [timer_loop] then runs the head of the first list.  The nodes are those of
    lisk_list.c and their elements are the bytes of [lisk_timer_node_t]; deleted
    nodes wait in a lisk_ring.c ring to be used again.

    [lisk_time_get] reads a global that [lisk_time_update] sets from the system:
    its value is the argument [time].  The client's callbacks are an argument
    too, a function of the memory and of the timer that gives both back. *)

From S2P Require Import Prelude LiskMath LiskRing LiskList.

Module Timer.
Import Math DList.

Definition MAX_TIMER_LEVEL : nat := 5.
Definition MS : Z := 1.
Definition SECOND_MS : Z := 1000 * MS.
Definition MINUTE_MS : Z := 60 * SECOND_MS.
Definition HOUR_MS : Z := 60 * MINUTE_MS.
Definition DAY_MS : Z := 24 * HOUR_MS.
Definition MINIMUM_DIFF : Z := 10 * MS.
Definition MIN_EXPIRE : Z := 1.
Definition MAX_EXPIRE : Z := 0xEFFFFFF.
Definition ETIMER_ONCE : Z := 1.
Definition ETIMER_LOOP : Z := 2.

Record lisk_timer_node_t := mk_tnode { trig : Z; type : Z; expire : Z; arg : Z; run : Z }.
Definition sizeof_timer_node : Z := 32.

(** The bytes of a node: 8, 4, 4, 8 and 8 of them. *)
Definition enc (n : lisk_timer_node_t) : bytes :=
  le_split 8 (trig n) ++ le_split 4 (type n) ++ le_split 4 (expire n) ++ le_split 8 (arg n) ++ le_split 8 (run n).

Record lisk_timer_t := mk_timer {
  clock : Z; hand : list Z; size : Z; lists : list Z; num : Z; ring : option Ring.ring_t }.

Definition with_num (t : lisk_timer_t) (n : Z) : lisk_timer_t :=
  mk_timer (clock t) (hand t) (size t) (lists t) n (ring t).
Definition with_ring (t : lisk_timer_t) (r : option Ring.ring_t) : lisk_timer_t :=
  mk_timer (clock t) (hand t) (size t) (lists t) (num t) r.
Definition with_clock (t : lisk_timer_t) (c : Z) (h : list Z) : lisk_timer_t :=
  mk_timer c h (size t) (lists t) (num t) (ring t).

Record timer_key_t := mk_key { k_type : Z; k_expire : Z; k_arg : Z; k_func : Z }.

(** The function's address, whether its timer argument is nil, the id and the argument. *)
Definition timer_func : Type := Z -> bool -> Z -> Z -> lmem -> lisk_timer_t -> option (Z * lmem * lisk_timer_t).

(** A callback that ran, in the trace of calls. *)
Record call := mk_call { c_func : Z; c_id : Z; c_arg : Z; c_ret : Z }.

(** Conversion to [n8]. *)
Definition to_n8 (z : Z) : Z := (z + 2 ^ 63) mod U8_MOD - 2 ^ 63.

(** ** Fields of an element *)

Definition field (m : lmem) (elem off n : Z) : option Z :=
  b ← get_data m (list_node elem); x ← rd b off n; Some (le_combine x).

Definition get_trig (m : lmem) (elem : Z) : option Z := field m elem 0 8.
Definition get_type (m : lmem) (elem : Z) : option Z := field m elem 8 4.
Definition get_expire (m : lmem) (elem : Z) : option Z := field m elem 12 4.
Definition get_arg (m : lmem) (elem : Z) : option Z := field m elem 16 8.
Definition get_run (m : lmem) (elem : Z) : option Z := field m elem 24 8.

(** Stores at the start of an element. *)
Definition put (m : lmem) (elem : Z) (x : bytes) : option lmem :=
  nd ← m !! list_node elem; d ← wr (n_data nd) 0 x;
  Some (<[list_node elem := mk_node (n_prev nd) (n_next nd) d]> m).

Definition set_trig (m : lmem) (elem v : Z) : option lmem := put m elem (le_split 8 v).

Definition copy_node (m : lmem) (dst src : Z) : option lmem :=
  b ← get_data m (list_node src); x ← rd b 0 sizeof_timer_node; put m dst x.

Definition cmp_lisk_timer_node (m : lmem) (first second : Z) : option Z :=
  a ← get_trig m first; b ← get_trig m second;
  Some (if a <? b then -1 else if b <? a then 1 else 0).

(** ** Insertion

    The loops over a list take as fuel a bound on the elements they meet. *)

Fixpoint find_pos (fuel : nat) (m : lmem) (list elem cur : Z) : option Z :=
  match fuel with
  | O => None
  | S n =>
      if negb (cur =? 0) && negb (cur =? list) then
        ret ← cmp_lisk_timer_node m elem cur;
        if ret <? 0 then Some cur else cur ← list_next_elem m cur; find_pos n m list elem cur
      else Some list
  end.

(** [flag]: the element is a node already in a list.  The third result is what [*id] gets. *)
Definition timer_list_insert (malloc : alloc_fun) (fuel : nat) (m : lmem) (t : lisk_timer_t) (list elem flag : Z)
  : option (Z * option Z * lmem * lisk_timer_t) :=
  if (list =? 0) || (elem =? 0) then Some (-1, None, m, t)
  else
    cur ← list_next_elem m list; pos ← find_pos fuel m list elem cur;
    if negb (flag =? 0) then
      '(ret, m) ← list_move_front m pos elem; Some (if negb (ret =? 0) then -2 else 0, None, m, t)
    else
      '(ret, x, r) ← Ring.ring_pop (ring t) false;
      let t := with_ring t r in
      '(elem, m, t) ←
        (if ret =? 0 then
           let elem_ptr := le_combine (default [] x) in
           m ← copy_node m elem_ptr elem; Some (elem_ptr, m, t)
         else Some (elem, m, with_num t (u4 (num t + 1))));
      '(ptr, m) ← list_insert_front malloc m pos elem sizeof_timer_node;
      if ptr =? 0 then Some (-2, None, m, t) else Some (0, Some ptr, m, t).

(** [PTR_OFFSET] of a [u8] and an [n8]. *)
Definition trig_offset (trig clock : Z) : Z :=
  to_n8 (if trig <? u8 clock then u8 (clock - trig) else u8 (trig - clock)).

Definition level_of (trig clock : Z) : nat :=
  let diff := trig_offset trig clock in
  if trig <=? u8 clock then 0%nat
  else if negb (Z.quot diff DAY_MS =? 0) then 4%nat
  else if negb (Z.quot diff HOUR_MS =? 0) then 3%nat
  else if negb (Z.quot diff MINUTE_MS =? 0) then 2%nat
  else if negb (Z.quot diff SECOND_MS =? 0) then 1%nat
  else 0%nat.

Definition timer_ins_node (malloc : alloc_fun) (fuel : nat) (m : lmem) (t : lisk_timer_t) (node flag : Z)
  : option (Z * option Z * lmem * lisk_timer_t) :=
  if node =? 0 then Some (-1, None, m, t)
  else
    tr ← get_trig m node; list ← lists t !! level_of tr (clock t);
    '(ret, id, m, t) ← timer_list_insert malloc fuel m t list node flag;
    Some (if negb (ret =? 0) then -2 else 0, id, m, t).

(** The node goes to the ring, or is freed when the ring has no room. *)
Definition timer_del_node (m : lmem) (t : lisk_timer_t) (list node : Z) : option (lmem * lisk_timer_t) :=
  '(ret, r) ← Ring.ring_push (ring t) (Some (le_split 8 node));
  let t := with_ring t r in
  let '(flag, t) := if ret =? 0 then (ELIST_ERASE_PART, t) else (ELIST_ERASE_FULL, with_num t (u4 (num t - 1))) in
  '(_, m) ← list_erase m list node flag; Some (m, t).

(** ** The clock *)

Definition guard (level : nat) (diff : Z) : bool :=
  match level with
  | 1%nat => 1 <=? Z.quot diff SECOND_MS
  | 2%nat => 1 <=? Z.quot diff MINUTE_MS
  | 3%nat => 1 <=? Z.quot diff HOUR_MS
  | 4%nat => 1 <=? Z.quot diff DAY_MS
  | _ => false
  end.

Fixpoint cascade_loop (malloc : alloc_fun) (fuel n : nat) (m : lmem) (t : lisk_timer_t) (level : nat) (list cur : Z)
  : option (lmem * lisk_timer_t) :=
  match n with
  | O => None
  | S n =>
      if negb (cur =? 0) && negb (cur =? list) then
        tr ← get_trig m cur;
        if (if tr <=? u8 (clock t) then false else guard level (to_n8 (u8 (tr - clock t)))) then Some (m, t)
        else
          '(_, _, m, t) ← timer_ins_node malloc fuel m t cur 1;
          cur ← list_next_elem m list; cascade_loop malloc fuel n m t level list cur
      else Some (m, t)
  end.

Definition timer_cascade (malloc : alloc_fun) (fuel : nat) (m : lmem) (t : lisk_timer_t) (level : nat)
  : option (Z * lmem * lisk_timer_t) :=
  if (level <=? 0)%nat || (MAX_TIMER_LEVEL <=? level)%nat then Some (-1, m, t)
  else
    list ← lists t !! level; cur ← list_next_elem m list;
    '(m, t) ← cascade_loop malloc fuel fuel m t level list cur; Some (0, m, t).

Definition limit : list Z := [1000; 60; 60; 24; 31].
Definition ms_limit : list Z := [MS; SECOND_MS; MINUTE_MS; HOUR_MS; DAY_MS].

(** From the last level to the first; the result is in the order of the levels. *)
Fixpoint inc_loop (ms : list Z) (diff : Z) (inc : list Z) : list Z :=
  match ms with [] => inc | l :: ms => inc_loop ms (diff mod l) (diff / l :: inc) end.

(** [carry] is what the level before has added to [inc[idx]].  Gives the hands and [max_idx]. *)
Fixpoint hand_loop (hand inc limit : list Z) (carry : Z) (idx max_idx : nat) : list Z * nat :=
  match hand, inc, limit with
  | h :: hand, i :: inc, l :: limit =>
      let i := u4 (i + carry) in
      if negb (i =? 0) then
        let h := u4 (h + i) in
        let '(hand, max_idx) := hand_loop hand inc limit (h / l) (S idx) (S idx) in (h mod l :: hand, max_idx)
      else let '(hand, max_idx) := hand_loop hand inc limit 0 (S idx) max_idx in (h :: hand, max_idx)
  | _, _, _ => ([], max_idx)
  end.

Fixpoint cascades (malloc : alloc_fun) (fuel : nat) (m : lmem) (t : lisk_timer_t) (levels : list nat)
  : option (lmem * lisk_timer_t) :=
  match levels with
  | [] => Some (m, t)
  | l :: levels => '(_, m, t) ← timer_cascade malloc fuel m t l; cascades malloc fuel m t levels
  end.

Definition timer_update (malloc : alloc_fun) (fuel : nat) (m : lmem) (t : lisk_timer_t) (time : Z)
  : option (Z * lmem * lisk_timer_t) :=
  let cur_clock := Z.quot time 1000 in
  off ← chk_n8 (if cur_clock <? clock t then clock t - cur_clock else cur_clock - clock t);
  let diff := u4 off in
  if diff <? MINIMUM_DIFF then Some (-2, m, t)
  else
    let '(hand, max_idx) := hand_loop (hand t) (inc_loop (rev ms_limit) diff []) limit 0 0 0 in
    '(m, t) ← cascades malloc fuel m (with_clock t cur_clock hand) (seq 1 (max_idx - 1)); Some (0, m, t).

(** ** The client's operations

    A [timer] argument is [None] when the pointer is nil. *)

Fixpoint fire_loop (cb : timer_func) (malloc : alloc_fun) (fuel n : nat) (m : lmem) (t : lisk_timer_t) (list node : Z)
  (calls : Datatypes.list call) : option (Datatypes.list call * lmem * lisk_timer_t) :=
  match n with
  | O => None
  | S n =>
      if negb (node =? 0) && negb (node =? list) then
        tr ← get_trig m node;
        if u8 (clock t) <? tr then Some (calls, m, t)
        else
          prev ← list_prev_elem m node;
          f ← get_run m node; a ← get_arg m node;
          '(ret, m, t) ← cb f false node a m t;
          let calls := calls ++ [mk_call f node a ret] in
          ty ← get_type m node;
          '(m, t) ←
            (if (ret =? -3) || (ty =? ETIMER_ONCE) then timer_del_node m t list node
             else
               e ← get_expire m node; c ← chk_n8 (clock t + e); m ← set_trig m node (u8 c);
               '(_, _, m, t) ← timer_ins_node malloc fuel m t node 1; Some (m, t));
          node ← list_next_elem m prev; fire_loop cb malloc fuel n m t list node calls
      else Some (calls, m, t)
  end.

(** The calls made come with the result. *)
Definition timer_loop (cb : timer_func) (malloc : alloc_fun) (fuel : nat) (m : lmem) (timer : option lisk_timer_t) (time : Z)
  : option (Z * Datatypes.list call * lmem * option lisk_timer_t) :=
  match timer with
  | None => Some (-1, [], m, None)
  | Some t =>
      if (clock t =? 0) || (size t =? 0) then Some (-1, [], m, Some t)
      else
        '(ret, m, t) ← timer_update malloc fuel m t time;
        if negb (ret =? 0) then Some (0, [], m, Some t)
        else
          list ← lists t !! 0%nat; node ← list_next_elem m list;
          '(calls, m, t) ← fire_loop cb malloc fuel fuel m t list node []; Some (0, calls, m, Some t)
  end.

(** [frame] is the place on the stack of the local node: the code looks at the
    two words below it for the marks of an erased node.  A nil key is
    dereferenced by the message. *)
Definition timer_add (malloc : alloc_fun) (fuel : nat) (frame : Z) (m : lmem) (timer : option lisk_timer_t)
  (key : option timer_key_t) : option (Z * option Z * lmem * option lisk_timer_t) :=
  match key with
  | None => None
  | Some k =>
      match timer with
      | None => Some (-1, None, m, None)
      | Some t =>
          if (k_expire k <? MIN_EXPIRE) || (MAX_EXPIRE <? k_expire k) then Some (-1, None, m, Some t)
          else if k_func k =? 0 then Some (-1, None, m, Some t)
          else if size t =? 0 then Some (-1, None, m, Some t)
          else
            c ← chk_n8 (clock t + k_expire k);
            m ← put m (list_elem frame) (enc (mk_tnode (u8 c) (k_type k) (k_expire k) (k_arg k) (k_func k)));
            '(ret, id, m, t) ← timer_ins_node malloc fuel m t (list_elem frame) 0;
            Some (if negb (ret =? 0) then -2 else 0, id, m, Some t)
      end
  end.

Definition timer_del (m : lmem) (timer : option lisk_timer_t) (id : Z) : option (Z * lmem * option lisk_timer_t) :=
  match timer with
  | None => Some (-1, m, None)
  | Some t =>
      if id =? 0 then Some (-1, m, Some t)
      else '(m, t) ← timer_del_node m t 0 id; Some (0, m, Some t)
  end.

Fixpoint init_lists (malloc : alloc_fun) (n : nat) (m : lmem) (ls : list Z) : option (bool * lmem * list Z) :=
  match n with
  | O => Some (true, m, ls)
  | S n =>
      '(ret, m, list) ← list_init malloc m (Some 0);
      if negb (ret =? 0) then Some (false, m, ls)
      else list ← list; init_lists malloc n m (ls ++ [list])
  end.

Fixpoint uninit_lists (fuel : nat) (m : lmem) (ls : list Z) : option lmem :=
  match ls with [] => Some m | l :: ls => '(m, _) ← list_uninit fuel m (Some l); uninit_lists fuel m ls end.

(** [time] is the time the system gives [lisk_time_update].  A timer whose
    initialisation failed keeps stale pointers: it is not given back. *)
Definition timer_init (ring_malloc : malloc_fun) (malloc : alloc_fun) (fuel : nat) (m : lmem) (timer_nil : bool) (time : Z)
  : option (Z * lmem * option lisk_timer_t) :=
  if timer_nil then Some (-1, m, None)
  else
    let '(ret, r) := Ring.ring_init ring_malloc false (Z.shiftl 1 10) 8 in
    let r := if negb (ret =? 0) then None else r in
    let '(_, r) := Ring.ring_set_type r Ring.RING_SP_SC in
    '(ok, m, ls) ← init_lists malloc MAX_TIMER_LEVEL m [];
    if (ok : bool) then
      Some (0, m, Some (mk_timer (Z.quot time 1000) (replicate MAX_TIMER_LEVEL 0) (Z.of_nat (length ls)) ls 0 r))
    else m ← uninit_lists fuel m ls; Some (-2, m, None).

Fixpoint drain (n : nat) (m : lmem) (r : option Ring.ring_t) : option lmem :=
  match n with
  | O => None
  | S n =>
      '(ret, x, r) ← Ring.ring_pop r false;
      if negb (ret =? 0) then Some m
      else '(_, m) ← list_erase m 0 (le_combine (default [] x)) ELIST_ERASE_FULL; drain n m r
  end.

(** The callbacks of the timers of a list, with a nil timer. *)
Fixpoint farewell (cb : timer_func) (n : nat) (m : lmem) (t : lisk_timer_t) (list node : Z) (calls : Datatypes.list call)
  : option (Datatypes.list call * lmem * lisk_timer_t) :=
  match n with
  | O => None
  | S n =>
      if negb (node =? 0) && negb (node =? list) then
        f ← get_run m node; a ← get_arg m node;
        '(ret, m, t) ← cb f true node a m t;
        node' ← list_next_elem m node; farewell cb n m t list node' (calls ++ [mk_call f node a ret])
      else Some (calls, m, t)
  end.

Fixpoint farewells (cb : timer_func) (fuel : nat) (m : lmem) (t : lisk_timer_t) (ls : list Z) (calls : list call)
  : option (list call * lmem * lisk_timer_t) :=
  match ls with
  | [] => Some (calls, m, t)
  | l :: ls =>
      node ← list_next_elem m l; '(calls, m, t) ← farewell cb fuel m t l node calls;
      '(m, _) ← list_uninit fuel m (Some l); farewells cb fuel m t ls calls
  end.

(** What is left of the timer points to freed memory: it is not given back. *)
Definition timer_uninit (cb : timer_func) (fuel : nat) (m : lmem) (timer : option lisk_timer_t) : option (list call * lmem) :=
  match timer with
  | None => Some ([], m)
  | Some t =>
      m ← drain fuel m (ring t);
      '(calls, m, _) ← farewells cb fuel m t (take (Z.to_nat (size t)) (lists t)) []; Some (calls, m)
  end.

Definition sizeof_lisk_timer_t : Z := 88.

(** Result, [*num] and [*size]. *)
Definition timer_mem_size (timer : option lisk_timer_t) (num_nil size_nil : bool) : Z * option Z * option Z :=
  match timer with
  | None => (-1, None, None)
  | Some t =>
      (0, if num_nil then None else Some (num t),
       if size_nil then None
       else Some (u8 (sizeof_lisk_timer_t + size t * 24 + (4 * 6 + Z.shiftl 8 10 * 8) + num t * (16 + sizeof_timer_node))))
  end.

End Timer.
