(* ===== verification/LiskTimerRep.v ===== *)
(** * The memory of the timer wheel

    The bytes of a node and their fields; the lists of the wheel, their nodes and
    the nodes in the ring as disjoint parts of one memory; and what insertion,
    moving and deletion make of them. *)

From S2P Require Import Prelude LiskMath LiskRing LiskList LiskTimer.

Module TimerRep.
Import Math DList Timer.

(** ** Nodes and their bytes *)

Record node_ok (n : lisk_timer_node_t) : Prop := {
  no_trig : is_u8 (trig n); no_type : is_u4 (type n); no_expire : is_u4 (expire n);
  no_arg : is_u8 (arg n); no_run : is_u8 (run n) }.

Definition with_trig (n : lisk_timer_node_t) (v : Z) : lisk_timer_node_t :=
  mk_tnode v (type n) (expire n) (arg n) (run n).

Lemma blen_enc n : blen (enc n) = 32.
Proof. reflexivity. Qed.

Section Fields.
Context (m : lmem) (a : Z) (n : lisk_timer_node_t) (Hd : get_data m a = Some (enc n)) (Hn : node_ok n).

Lemma le_u8 v : is_u8 v -> le_combine (le_split 8 v) = v.
Proof. intros H. apply le_combine_split. exact H. Qed.
Lemma le_u4 v : is_u4 v -> le_combine (le_split 4 v) = v.
Proof. intros H. apply le_combine_split. exact H. Qed.

Lemma field_enc off k x :
  rd (enc n) off k = Some x -> field m (list_elem a) off k = Some (le_combine x).
Proof. intros Hr. unfold field. rewrite elem_node, Hd. cbn [mbind option_bind]. by rewrite Hr. Qed.

Lemma get_trig_enc : get_trig m (list_elem a) = Some (trig n).
Proof. unfold get_trig. rewrite (field_enc _ _ (le_split 8 (trig n))) by reflexivity. by rewrite le_u8 by apply Hn. Qed.
Lemma get_type_enc : get_type m (list_elem a) = Some (type n).
Proof. unfold get_type. rewrite (field_enc _ _ (le_split 4 (type n))) by reflexivity. by rewrite le_u4 by apply Hn. Qed.
Lemma get_expire_enc : get_expire m (list_elem a) = Some (expire n).
Proof. unfold get_expire. rewrite (field_enc _ _ (le_split 4 (expire n))) by reflexivity. by rewrite le_u4 by apply Hn. Qed.
Lemma get_arg_enc : get_arg m (list_elem a) = Some (arg n).
Proof. unfold get_arg. rewrite (field_enc _ _ (le_split 8 (arg n))) by reflexivity. by rewrite le_u8 by apply Hn. Qed.
Lemma get_run_enc : get_run m (list_elem a) = Some (run n).
Proof. unfold get_run. rewrite (field_enc _ _ (le_split 8 (run n))) by reflexivity. by rewrite le_u8 by apply Hn. Qed.

(** A store changes the element's bytes and nothing else. *)
Lemma put_spec x d :
  wr (enc n) 0 x = Some d ->
  exists p q, m !! a = Some (mk_node p q (enc n)) /\ put m (list_elem a) x = Some (<[a := mk_node p q d]> m).
Proof.
  intros Hw. unfold get_data in Hd. destruct (m !! a) as [[p q d0]|] eqn:E; [|done].
  cbn [fmap option_fmap option_map n_data] in Hd. injection Hd as ->.
  exists p, q. split; [done|]. unfold put. rewrite elem_node, E. cbn [mbind option_bind n_data]. by rewrite Hw.
Qed.
End Fields.

Lemma wr_trig n v : wr (enc n) 0 (le_split 8 v) = Some (enc (with_trig n v)).
Proof. unfold enc. by apply wr_head. Qed.

#[local] Opaque enc.

(** ** The parts of the memory *)

Abbreviation tnode := (Z * lisk_timer_node_t)%type.

(** A list as lisk_list.c has it. *)
Definition cells (xs : list tnode) : list (Z * bytes) := (fun p => (fst p, enc (snd p))) <$> xs.

(** A list of the wheel: its head and its timers. *)
Abbreviation wheel := (list (Z * list tnode)%type).
Definition seg (l : Z * list tnode) : list Z := fst l :: (fst <$> snd l).
Definition timers (ws : wheel) : list tnode := concat (snd <$> ws).
Definition nodes (ws : wheel) (pool : list Z) : list Z := concat (seg <$> ws) ++ pool.

(** A node in the ring: its bytes, behind the marks of an erased node. *)
Definition recycled (m : lmem) (a : Z) : Prop :=
  exists d, m !! a = Some (mk_node PREV_MAGIC NEXT_MAGIC d) /\ blen d = sizeof_timer_node /\ 0 < a < 2 ^ 47.

(** The local node of [timer_add]: what lies below it is not an erased node's. *)
Definition frame_ok (m : lmem) (frame : Z) : Prop :=
  0 < frame /\ exists p q d, m !! frame = Some (mk_node p q d) /\ blen d = sizeof_timer_node /\
    ~ (p = PREV_MAGIC /\ q = NEXT_MAGIC).

(** The wheel [ws] and the ring's [pool] were added to the memory [user]. *)
Record mem_rep (user m : lmem) (frame : Z) (ws : wheel) (pool : list Z) : Prop := {
  mr_lists : forall i h xs, ws !! i = Some (h, xs) -> list_rep m h (cells xs);
  mr_pool : Forall (recycled m) pool;
  mr_nodup : NoDup (frame :: nodes ws pool);
  mr_frame : frame_ok m frame;
  mr_user : forall b, b ∉ frame :: nodes ws pool -> m !! b = user !! b;
  mr_fresh : forall b, b ∈ nodes ws pool -> user !! b = None;
}.

Lemma fst_cells xs : fst <$> cells xs = fst <$> xs.
Proof. unfold cells. rewrite <- list_fmap_compose. by apply list_fmap_ext. Qed.

Lemma cells_app xs ys : cells (xs ++ ys) = cells xs ++ cells ys.
Proof. apply fmap_app. Qed.

Lemma cells_cons a n xs : cells ((a, n) :: xs) = (a, enc n) :: cells xs.
Proof. done. Qed.

(** *** Lists and nodes of a wheel that changes in one place *)

Lemma timers_insert ws i h xs xs' :
  ws !! i = Some (h, xs) -> timers (<[i := (h, xs')]> ws) ≡ₚ xs' ++ timers (delete i ws) /\
  timers ws ≡ₚ xs ++ timers (delete i ws).
Proof.
  intros Hi. unfold timers. rewrite list_fmap_insert, list_fmap_delete. cbn [snd].
  assert ((snd <$> ws) !! i = Some xs) as Hs by (by rewrite list_lookup_fmap, Hi).
  split; [by apply (concat_insert_perm _ i xs)|by apply concat_lookup_perm].
Qed.

Lemma nodes_insert ws pool i h xs xs' pool' :
  ws !! i = Some (h, xs) ->
  nodes (<[i := (h, xs')]> ws) pool' ≡ₚ (h :: (fst <$> xs')) ++ concat (delete i (seg <$> ws)) ++ pool' /\
  nodes ws pool ≡ₚ (h :: (fst <$> xs)) ++ concat (delete i (seg <$> ws)) ++ pool.
Proof.
  intros Hi. unfold nodes. rewrite list_fmap_insert.
  assert ((seg <$> ws) !! i = Some (h :: (fst <$> xs))) as Hs by (by rewrite list_lookup_fmap, Hi).
  split.
  - rewrite (concat_insert_perm _ i _ (seg (h, xs')) Hs). by rewrite <- app_assoc.
  - rewrite (concat_lookup_perm _ i _ Hs). by rewrite <- app_assoc.
Qed.

(** One node more. *)
Lemma nodes_mid ws pool i h y1 y2 a nd :
  ws !! i = Some (h, y1 ++ y2) -> nodes (<[i := (h, y1 ++ (a, nd) :: y2)]> ws) pool ≡ₚ a :: nodes ws pool.
Proof.
  intros Hi. destruct (nodes_insert ws pool i h _ (y1 ++ (a, nd) :: y2) pool Hi) as [-> ->]. rewrite !fmap_app. cbn.
  rewrite <- (Permutation_middle (fst <$> y1)). cbn. solve_Permutation.
Qed.

Lemma nodes_mid_out ws pool i h x1 x2 x nd :
  ws !! i = Some (h, x1 ++ (x, nd) :: x2) -> nodes ws pool ≡ₚ x :: nodes (<[i := (h, x1 ++ x2)]> ws) pool.
Proof.
  intros Hi. rewrite <- (list_insert_id ws i _ Hi) at 1.
  rewrite <- (list_insert_insert_eq ws i (h, x1 ++ (x, nd) :: x2) (h, x1 ++ x2)). apply nodes_mid.
  apply list_lookup_insert_eq. by eapply lookup_lt_Some.
Qed.

Lemma mid_elem (h a : Z) (nd : lisk_timer_node_t) y1 y2 b :
  b ∈ h :: (fst <$> y1 ++ (a, nd) :: y2) <-> b = a \/ b ∈ h :: (fst <$> y1 ++ y2).
Proof. rewrite !fmap_app. cbn. rewrite !elem_of_cons, !elem_of_app, elem_of_cons. tauto. Qed.

Lemma seg_nodes ws pool i h xs b : ws !! i = Some (h, xs) -> b ∈ h :: (fst <$> xs) -> b ∈ nodes ws pool.
Proof. intros Hi Hb. rewrite (proj2 (nodes_insert ws pool i h xs xs pool Hi)). apply elem_of_app. by left. Qed.

(** Different lists have different nodes. *)
Lemma seg_disjoint ws pool frame i j h xs h' ys b :
  NoDup (frame :: nodes ws pool) -> ws !! i = Some (h, xs) -> ws !! j = Some (h', ys) -> i <> j ->
  b ∈ h :: (fst <$> xs) -> b ∉ h' :: (fst <$> ys).
Proof.
  intros [_ Hnd]%NoDup_cons Hi Hj Hij Hb Hb'. rewrite (proj2 (nodes_insert ws pool i h xs xs pool Hi)) in Hnd.
  apply NoDup_app in Hnd as (_ & Hd & _). apply (Hd b Hb). apply elem_of_app. left. apply elem_of_concat.
  assert ((seg <$> ws) !! j = Some (h' :: (fst <$> ys))) as Hs by (by rewrite list_lookup_fmap, Hj).
  destruct (decide (j < i)%nat).
  - exists j, (h' :: (fst <$> ys)). split; [|done]. by rewrite list_lookup_delete_lt.
  - exists (j - 1)%nat, (h' :: (fst <$> ys)). split; [|done]. rewrite list_lookup_delete_ge by lia.
    by replace (S (j - 1)) with j by lia.
Qed.

Lemma pool_disjoint ws pool frame i h xs b :
  NoDup (frame :: nodes ws pool) -> ws !! i = Some (h, xs) -> b ∈ h :: (fst <$> xs) -> b ∉ pool.
Proof.
  intros [_ Hnd]%NoDup_cons Hi Hb Hp. rewrite (proj2 (nodes_insert ws pool i h xs xs pool Hi)) in Hnd.
  apply NoDup_app in Hnd as (_ & Hd & _). apply (Hd b Hb), elem_of_app. by right.
Qed.

(** ** Steps from one memory to the next *)

Section Change.
Context (user m m' : lmem) (frame : Z) (ws ws' : wheel) (pool pool' l : list Z).
Context (H : mem_rep user m frame ws pool) (Hs : same_off l m m').

(** Nodes come from the old ones and from memory not in use; those left are freed. *)
Lemma mem_change :
  frame_ok m' frame ->
  (forall b, b ∈ l -> b ∈ nodes ws pool \/ m !! b = None) ->
  (forall b, b ∈ nodes ws' pool' -> b ∈ nodes ws pool \/ m !! b = None) ->
  (forall b, b ∈ nodes ws pool \/ b ∈ l -> b ∉ nodes ws' pool' -> m' !! b = None) ->
  NoDup (frame :: nodes ws' pool') ->
  (forall i h xs, ws' !! i = Some (h, xs) -> list_rep m' h (cells xs)) -> Forall (recycled m') pool' ->
  mem_rep user m' frame ws' pool'.
Proof.
  intros Hf Hl Hn Hfree Hnd Hlists Hpool. constructor; [done|done|done|done|..].
  - intros b Hb. rewrite not_elem_of_cons in Hb. destruct Hb as [Hbf Hb].
    destruct (decide (b ∈ nodes ws pool)) as [Hi|Hi].
    { rewrite Hfree by auto. symmetry. by apply (mr_fresh _ _ _ _ _ H). }
    assert (m !! b = user !! b) as Hu by (apply (mr_user _ _ _ _ _ H); by rewrite not_elem_of_cons).
    destruct (decide (b ∈ l)) as [Hb'|Hb']; [|by rewrite Hs].
    destruct (Hl b Hb') as [?|Hm]; [done|]. rewrite Hfree by auto. by rewrite <- Hu.
  - intros b Hb. destruct (Hn b Hb) as [?|Hm]; [by apply (mr_fresh _ _ _ _ _ H)|].
    apply NoDup_cons in Hnd as [Hnf _]. destruct (decide (b ∈ nodes ws pool)) as [Hi|Hi]; [by apply (mr_fresh _ _ _ _ _ H)|].
    rewrite <- (mr_user _ _ _ _ _ H), Hm; [done|]. rewrite not_elem_of_cons. split; [|done]. by intros ->.
Qed.

(** The same nodes in other places. *)
Lemma mem_shuffle :
  (forall b, b ∈ l -> b ∈ nodes ws pool) -> nodes ws' pool' ≡ₚ nodes ws pool ->
  (forall i h xs, ws' !! i = Some (h, xs) -> list_rep m' h (cells xs)) -> Forall (recycled m') pool' ->
  mem_rep user m' frame ws' pool'.
Proof.
  intros Hl Hp Hlists Hpool. pose proof (mr_nodup _ _ _ _ _ H) as Hnd. apply mem_change; [..|done|done].
  - destruct (mr_frame _ _ _ _ _ H) as (H0 & p & q & d & Hm & Hr). split; [done|]. exists p, q, d. rewrite Hs; [done|].
    apply NoDup_cons in Hnd as [Hf _]. auto.
  - auto.
  - intros b. rewrite Hp. auto.
  - intros b Hb. rewrite Hp. destruct Hb as [?|Hb]; [done|]. by intros []; apply Hl.
  - by rewrite Hp.
Qed.

(** A list whose nodes and a ring whose nodes are not touched. *)
Lemma other_list j h xs :
  ws !! j = Some (h, xs) -> (forall b, b ∈ l -> b ∉ h :: (fst <$> xs)) -> list_rep m' h (cells xs).
Proof.
  intros Hj Hd. apply (rep_frame m m' l); [by apply (mr_lists _ _ _ _ _ H j)|done|].
  intros b Hb Hl. rewrite fst_cells in Hb. by apply (Hd b).
Qed.

Lemma other_pool : (forall b, b ∈ l -> b ∉ pool) -> Forall (recycled m') pool.
Proof.
  intros Hd. apply Forall_forall. intros b Hb. pose proof (mr_pool _ _ _ _ _ H) as Hp. rewrite Forall_forall in Hp.
  destruct (Hp b Hb) as (d & Hm & Hr). exists d. rewrite Hs; [done|]. intros Hl. by apply (Hd b).
Qed.

Lemma frame_same : frame ∉ l -> frame_ok m' frame.
Proof. intros Hf. destruct (mr_frame _ _ _ _ _ H) as (H0 & p & q & d & Hm & Hr). split; [done|]. exists p, q, d. by rewrite Hs. Qed.

(** A change to list [i], the ring and fresh memory leaves the other lists. *)
Lemma lists_change i h xs xs' :
  ws !! i = Some (h, xs) -> list_rep m' h (cells xs') ->
  (forall b, b ∈ l -> b ∈ h :: (fst <$> xs) \/ b ∈ pool \/ m !! b = None) ->
  forall j h' ys, <[i := (h, xs')]> ws !! j = Some (h', ys) -> list_rep m' h' (cells ys).
Proof.
  intros Hi Hr Hl j h' ys Hj. destruct (decide (i = j)) as [<-|Hij].
  - rewrite list_lookup_insert_eq in Hj by (by eapply lookup_lt_Some). injection Hj as <- <-. done.
  - rewrite list_lookup_insert_ne in Hj by done. apply (other_list j h' ys Hj). intros b Hb Hb'.
    destruct (Hl b Hb) as [Hx|[Hx|Hx]].
    + by apply (seg_disjoint ws pool frame i j h xs h' ys b (mr_nodup _ _ _ _ _ H) Hi Hj Hij Hx).
    + by apply (pool_disjoint ws pool frame j h' ys b (mr_nodup _ _ _ _ _ H) Hj Hb').
    + pose proof (mr_lists _ _ _ _ _ H j h' ys Hj) as Hrj. rewrite <- fst_cells in Hb'.
      by apply (rep_notin m h' _ b Hrj Hx).
Qed.
End Change.

Lemma live_some m a : live m a -> is_Some (m !! a).
Proof. unfold live, get_data. by rewrite fmap_is_Some. Qed.

Lemma nodes_elem ws pool b :
  b ∈ nodes ws pool -> (exists i h xs, ws !! i = Some (h, xs) /\ b ∈ h :: (fst <$> xs)) \/ b ∈ pool.
Proof.
  intros [Hb|Hb]%elem_of_app; [left|by right]. apply elem_of_concat in Hb as (i & s & Hi & Hb).
  rewrite list_lookup_fmap in Hi. destruct (ws !! i) as [[h xs]|] eqn:E; [|done]. injection Hi as <-.
  by exists i, h, xs.
Qed.

Section Ops.
Context (user m : lmem) (frame : Z) (ws : wheel) (pool : list Z) (H : mem_rep user m frame ws pool).

Lemma node_live b : b ∈ frame :: nodes ws pool -> is_Some (m !! b).
Proof.
  intros [->|Hb]%elem_of_cons.
  - destruct (mr_frame _ _ _ _ _ H) as (_ & p & q & d & -> & _). by eexists.
  - apply nodes_elem in Hb as [(i & h & xs & Hi & Hb)|Hb].
    + rewrite <- fst_cells in Hb. by apply live_some, (lr_live _ _ _ _ (mr_lists _ _ _ _ _ H i h xs Hi)).
    + pose proof (mr_pool _ _ _ _ _ H) as Hp. rewrite Forall_forall in Hp. destruct (Hp b Hb) as (d & -> & _). by eexists.
Qed.

Lemma fresh_notin a : m !! a = None -> a ∉ frame :: nodes ws pool.
Proof. intros Ha Hin. apply node_live in Hin as [? E]. congruence. Qed.

Lemma frame_notin : frame ∉ nodes ws pool.
Proof. pose proof (mr_nodup _ _ _ _ _ H) as Hnd. by apply NoDup_cons in Hnd as [? _]. Qed.

Lemma frame_buffer nd : get_data m frame = Some (enc nd) -> buffer m (list_elem frame) sizeof_timer_node (enc nd).
Proof.
  intros Hd. destruct (mr_frame _ _ _ _ _ H) as (H0 & p & q & d & Hm & _ & Hmag).
  unfold get_data in Hd. rewrite Hm in Hd. cbn [fmap option_fmap option_map n_data] in Hd. injection Hd as ->.
  split; [unfold list_elem, sizeof_list_node_t; lia|]. split; [unfold sizeof_timer_node; lia|].
  exists (mk_node p q (enc nd)). rewrite elem_node. split; [done|]. split; [|done]. by apply rd_all.
Qed.

(** A new node for the local one, before a place of list [i]. *)
Lemma mem_insert malloc i h y1 y2 p nd :
  alloc_ok malloc -> ws !! i = Some (h, y1 ++ y2) -> head ((fst <$> y2) ++ [h]) = Some p ->
  get_data m frame = Some (enc nd) ->
  (malloc m 48 = None /\ list_insert_front malloc m (list_elem p) (list_elem frame) sizeof_timer_node = Some (0, m)) \/
  exists a m', list_insert_front malloc m (list_elem p) (list_elem frame) sizeof_timer_node = Some (list_elem a, m') /\
    mem_rep user m' frame (<[i := (h, y1 ++ (a, nd) :: y2)]> ws) pool /\ 0 < a /\ a ∉ nodes ws pool.
Proof.
  intros Hm Hi Hp Hd. pose proof (mr_lists _ _ _ _ _ H i h _ Hi) as Hr. rewrite cells_app in Hr.
  destruct (insert_front_spec malloc m h (cells y1) (cells y2) p (list_elem frame) sizeof_timer_node (enc nd))
    as [[Hf E]|(a & m' & E & Hr' & Ha & Hs)]; [done|done|by rewrite fst_cells|by apply frame_buffer|by left|right].
  exists a, m'. split; [done|]. rewrite <- cells_cons, <- cells_app in Hr', Hs. rewrite fst_cells in Hs.
  pose proof (fresh_notin a Ha) as Han. rewrite not_elem_of_cons in Han. destruct Han as [Haf Han].
  pose proof (lr_pos m' h _ a Hr') as Hpos. rewrite fst_cells in Hpos. specialize (Hpos (mid_in y1 y2 h a nd)).
  split; [|by split; [lia|]].
  assert (nodes (<[i := (h, y1 ++ (a, nd) :: y2)]> ws) pool ≡ₚ a :: nodes ws pool) as Hpm by (by apply nodes_mid).
  pose proof (fun b => proj1 (mid_elem h a nd y1 y2 b)) as Hl.
  apply (mem_change user m m' frame ws _ pool pool _ H Hs).
  - apply (frame_same user m m' frame ws pool _ H Hs). intros Hb. destruct (Hl _ Hb) as [->|Hb']; [done|].
    by apply frame_notin, (seg_nodes ws pool i h _ frame Hi).
  - intros b Hb. destruct (Hl b Hb) as [->|Hb']; [by right|]. left. by apply (seg_nodes ws pool i h _ b Hi).
  - intros b. rewrite Hpm. intros [->|?]%elem_of_cons; auto.
  - intros b [Hb|Hb]; rewrite Hpm, not_elem_of_cons; intros [Hba Hbn]; [done|].
    destruct (Hl b Hb) as [->|Hb']; [done|]. destruct Hbn. by apply (seg_nodes ws pool i h _ b Hi).
  - rewrite Hpm. apply NoDup_cons. pose proof (mr_nodup _ _ _ _ _ H) as [Hnf Hnd]%NoDup_cons.
    split; [rewrite not_elem_of_cons; by split; [congruence|]|by apply NoDup_cons].
  - apply (lists_change user m m' frame ws pool _ H Hs i h _ _ Hi Hr'). intros b Hb.
    destruct (Hl b Hb) as [->|Hb']; auto.
  - apply (other_pool user m m' frame ws pool _ H Hs). intros b Hb Hbp. destruct (Hl b Hb) as [->|Hb'].
    + apply Han, elem_of_app. by right.
    + by apply (pool_disjoint ws pool frame i h _ b (mr_nodup _ _ _ _ _ H) Hi Hb').
Qed.

(** The oldest node of the ring, with the local one's bytes. *)
Lemma mem_insert_recycled malloc i h y1 y2 p nd a pool' :
  pool = a :: pool' -> ws !! i = Some (h, y1 ++ y2) -> head ((fst <$> y2) ++ [h]) = Some p ->
  get_data m frame = Some (enc nd) ->
  exists m1 m', copy_node m (list_elem a) (list_elem frame) = Some m1 /\
    list_insert_front malloc m1 (list_elem p) (list_elem a) sizeof_timer_node = Some (list_elem a, m') /\
    mem_rep user m' frame (<[i := (h, y1 ++ (a, nd) :: y2)]> ws) pool' /\ 0 < a /\ a ∉ nodes ws [].
Proof.
  intros Hpool Hi Hp Hd. pose proof (mr_lists _ _ _ _ _ H i h _ Hi) as Hr. rewrite cells_app in Hr.
  pose proof (mr_pool _ _ _ _ _ H) as Hrec. rewrite Hpool in Hrec. apply Forall_cons in Hrec as [(d & Ha & Hbd & Hpos) Hrec].
  pose proof (mr_nodup _ _ _ _ _ H) as Hnd. pose proof Hnd as [Hnf Hnd']%NoDup_cons.
  assert (a ∉ h :: (fst <$> y1 ++ y2)) as Hah.
  { intros Hb. apply (pool_disjoint ws pool frame i h _ a Hnd Hi Hb). rewrite Hpool. by left. }
  set (m1 := <[a := mk_node PREV_MAGIC NEXT_MAGIC (enc nd)]> m).
  assert (same_off [a] m m1) as Hs1.
  { intros b Hb. apply lookup_insert_ne. rewrite not_elem_of_cons in Hb. naive_solver. }
  exists m1. unfold copy_node. rewrite elem_node, Hd. cbn [mbind option_bind].
  rewrite (rd_all (enc nd)) by done. cbn [mbind option_bind]. unfold put. rewrite elem_node, Ha.
  cbn [mbind option_bind n_data n_prev n_next].
  assert (wr d 0 (enc nd) = Some (enc nd)) as ->.
  { rewrite <- (app_nil_r d), wr_head by (rewrite Hbd; reflexivity). by rewrite app_nil_r. }
  assert (list_rep m1 h (cells y1 ++ cells y2)) as Hr1.
  { apply (rep_frame m m1 [a] _ _ Hr Hs1). intros b Hb. rewrite <- cells_app, fst_cells in Hb.
    rewrite not_elem_of_cons. split; [by intros ->|by intros ?%elem_of_nil]. }
  destruct (last_or h (fst <$> cells y1)) as [c Hc].
  destruct (insert_recycled malloc m1 h (cells y1) (cells y2) c p a (enc nd) sizeof_timer_node) as (m' & E & Hr' & Hs & _);
    [done|by rewrite <- cells_app, fst_cells|done|by rewrite fst_cells|apply lookup_insert_eq|done|done|].
  exists m'. split; [done|]. split; [done|]. rewrite <- cells_cons, <- cells_app in Hr', Hs. rewrite fst_cells in Hs.
  pose proof (fun b => proj1 (mid_elem h a nd y1 y2 b)) as Hl.
  assert (same_off (h :: (fst <$> y1 ++ (a, nd) :: y2)) m m') as Hs2.
  { intros b Hb. rewrite Hs by done. apply Hs1. rewrite not_elem_of_cons. split; [|by intros ?%elem_of_nil].
    intros ->. apply Hb, mid_in. }
  split; [|split; [lia|]].
  - apply (mem_shuffle user m m' frame ws _ pool pool' _ H Hs2).
    + intros b Hb. destruct (Hl b Hb) as [->|Hb']; [rewrite Hpool; apply elem_of_app; right; by left|].
      by apply (seg_nodes ws pool i h _ b Hi).
    + rewrite (nodes_mid ws pool' i h y1 y2 a nd Hi), Hpool. unfold nodes. by rewrite Permutation_middle.
    + apply (lists_change user m m' frame ws pool _ H Hs2 i h _ _ Hi Hr'). intros b Hb.
      destruct (Hl b Hb) as [->|Hb']; [right; left; rewrite Hpool; by left|by left].
    + apply Forall_forall. intros b Hb. rewrite Forall_forall in Hrec. destruct (Hrec b Hb) as (e & Hm & Hr2). exists e.
      rewrite Hs2; [done|]. intros Hin. destruct (Hl b Hin) as [->|Hb'].
      * rewrite Hpool in Hnd'. unfold nodes in Hnd'. apply NoDup_app in Hnd' as (_ & _ & [Hn _]%NoDup_cons). done.
      * apply (pool_disjoint ws pool frame i h _ b Hnd Hi Hb'). rewrite Hpool. by right.
  - unfold nodes in *. rewrite app_nil_r. intros Hb. apply NoDup_app in Hnd' as (_ & Hdis & _). apply (Hdis a Hb).
    rewrite Hpool. by left.
Qed.

(** A node from one list into another. *)
Lemma mem_move i j h h' x1 x nd x2 y1 y2 p :
  ws !! i = Some (h, x1 ++ (x, nd) :: x2) -> ws !! j = Some (h', y1 ++ y2) -> i <> j ->
  head ((fst <$> y2) ++ [h']) = Some p ->
  exists m', list_move_front m (list_elem p) (list_elem x) = Some (0, m') /\
    mem_rep user m' frame (<[j := (h', y1 ++ (x, nd) :: y2)]> (<[i := (h, x1 ++ x2)]> ws)) pool.
Proof.
  intros Hi Hj Hij Hp. pose proof (mr_nodup _ _ _ _ _ H) as Hnd.
  pose proof (mr_lists _ _ _ _ _ H i h _ Hi) as Hr1. pose proof (mr_lists _ _ _ _ _ H j h' _ Hj) as Hr2.
  rewrite cells_app, cells_cons in Hr1. rewrite cells_app in Hr2.
  destruct (cut_rep m h (cells x1) (cells x2) x (enc nd) Hr1) as (m1 & Hcut & Hr1' & Hx & Hd & Ha & Hs1).
  rewrite <- cells_cons, <- cells_app, fst_cells in Hs1. rewrite <- cells_app, fst_cells in Hx.
  assert (forall b, b ∈ h' :: (fst <$> y1 ++ y2) -> b ∉ h :: (fst <$> x1 ++ (x, nd) :: x2)) as Hdis.
  { intros b. by apply (seg_disjoint ws pool frame j i h' _ h _ b Hnd Hj Hi). }
  assert (list_rep m1 h' (cells y1 ++ cells y2)) as Hr2'.
  { apply (rep_frame m m1 _ _ _ Hr2 Hs1). intros b. rewrite <- cells_app, fst_cells. apply Hdis. }
  assert (x ∉ h' :: (fst <$> y1 ++ y2)) as Hx' by (intros Hin; by apply (Hdis x Hin), mid_in).
  destruct (last_or h' (fst <$> y1)) as [c Hc].
  destruct (rep_neighbours m1 h' (cells y1) (cells y2) c p Hr2') as (_ & _ & _ & _ & _ & Hp0); [by rewrite fst_cells..|].
  destruct (move_before_links m1 h' x (cells y1) (cells y2) c p (enc nd)) as (m2 & E & Hr2'' & Hs2);
    [done|by rewrite <- cells_app, fst_cells|done|done|by rewrite fst_cells|by rewrite fst_cells|].
  rewrite <- cells_cons, <- cells_app in Hr2'', Hs2. rewrite fst_cells in Hs2.
  exists m2. unfold list_move_front. rewrite !elem_nonzero, !elem_node by lia. cbn [orb].
  rewrite (proj2 (Z.eqb_neq x 0)), (proj2 (Z.eqb_neq p 0)) by lia. cbn [orb]. rewrite Hcut. cbn [mbind option_bind].
  split; [exact E|].
  set (L := (h :: (fst <$> x1 ++ (x, nd) :: x2)) ++ (h' :: (fst <$> y1 ++ y2))).
  assert (same_off L m m2) as Hs.
  { intros b. unfold L. rewrite not_elem_of_app. intros [Hb1 Hb2]. rewrite Hs2; [by apply Hs1|].
    rewrite mid_elem. rewrite mid_elem in Hb1. tauto. }
  set (ws1 := <[i := (h, x1 ++ x2)]> ws).
  assert (ws1 !! j = Some (h', y1 ++ y2)) as Hj' by (unfold ws1; by rewrite list_lookup_insert_ne).
  assert (list_rep m2 h (cells (x1 ++ x2))) as Hr1''.
  { rewrite cells_app. apply (rep_frame m1 m2 _ _ _ Hr1' Hs2). intros b Hb Hb'. rewrite <- cells_app, fst_cells in Hb.
    rewrite mid_elem in Hb'. destruct Hb' as [->|Hb']; [done|]. apply (Hdis b Hb'). rewrite mid_elem. by right. }
  apply (mem_shuffle user m m2 frame ws _ pool pool L H Hs).
  - intros b [Hb|Hb]%elem_of_app; [by apply (seg_nodes ws pool i h _ b Hi)|by apply (seg_nodes ws pool j h' _ b Hj)].
  - by rewrite (nodes_mid ws1 pool j h' y1 y2 x nd Hj'), (nodes_mid_out ws pool i h x1 x2 x nd Hi).
  - intros k h2 ys Hk. destruct (decide (k = j)) as [->|Hkj].
    { rewrite list_lookup_insert_eq in Hk by (by eapply lookup_lt_Some). by injection Hk as <- <-. }
    rewrite list_lookup_insert_ne in Hk by done. destruct (decide (k = i)) as [->|Hki].
    { unfold ws1 in Hk. rewrite list_lookup_insert_eq in Hk by (by eapply lookup_lt_Some). by injection Hk as <- <-. }
    unfold ws1 in Hk. rewrite list_lookup_insert_ne in Hk by done.
    apply (other_list user m m2 frame ws pool L H Hs k h2 ys Hk). intros b [Hb|Hb]%elem_of_app.
    + by apply (seg_disjoint ws pool frame i k h _ h2 ys b Hnd Hi Hk).
    + by apply (seg_disjoint ws pool frame j k h' _ h2 ys b Hnd Hj Hk).
  - apply (other_pool user m m2 frame ws pool _ H Hs). intros b [Hb|Hb]%elem_of_app.
    + by apply (pool_disjoint ws pool frame i h _ b Hnd Hi Hb).
    + by apply (pool_disjoint ws pool frame j h' _ b Hnd Hj Hb).
Qed.

(** A node to another place of its list. *)
Lemma mem_within i h x1 x nd x2 y1 y2 p :
  ws !! i = Some (h, x1 ++ (x, nd) :: x2) -> x1 ++ x2 = y1 ++ y2 -> head ((fst <$> y2) ++ [h]) = Some p ->
  exists m', list_move_front m (list_elem p) (list_elem x) = Some (0, m') /\
    mem_rep user m' frame (<[i := (h, y1 ++ (x, nd) :: y2)]> ws) pool.
Proof.
  intros Hi Hy Hp. pose proof (mr_lists _ _ _ _ _ H i h _ Hi) as Hr. rewrite cells_app, cells_cons in Hr.
  destruct (move_within m h (cells x1) (cells x2) x (enc nd) (cells y1) (cells y2) Hr) as [Hmv _];
    [by rewrite <- !cells_app, Hy|]. destruct (Hmv p) as (m' & E & Hr' & Hs); [by rewrite fst_cells|].
  rewrite <- cells_cons, <- cells_app in Hr', Hs. rewrite fst_cells in Hs. exists m'. split; [done|].
  apply (mem_shuffle user m m' frame ws _ pool pool _ H Hs).
  - intros b. by apply (seg_nodes ws pool i h _ b).
  - rewrite (nodes_mid_out ws pool i h x1 x2 x nd Hi), Hy.
    rewrite <- (nodes_mid (<[i := (h, y1 ++ y2)]> ws) pool i h y1 y2 x nd).
    + by rewrite list_insert_insert_eq.
    + apply list_lookup_insert_eq. by eapply lookup_lt_Some.
  - apply (lists_change user m m' frame ws pool _ H Hs i h _ _ Hi Hr'). auto.
  - apply (other_pool user m m' frame ws pool _ H Hs). intros b. apply (pool_disjoint ws pool frame i h _ b (mr_nodup _ _ _ _ _ H) Hi).
Qed.

(** A node out of its list, to the ring or freed. *)
Lemma mem_erase i h x1 x nd x2 lst flag :
  ws !! i = Some (h, x1 ++ (x, nd) :: x2) -> lst <> list_elem x ->
  flag = ELIST_ERASE_PART \/ flag = ELIST_ERASE_FULL ->
  exists r m', list_erase m lst (list_elem x) flag = Some (r, m') /\
    mem_rep user m' frame (<[i := (h, x1 ++ x2)]> ws) (if flag =? ELIST_ERASE_FULL then pool else pool ++ [x]).
Proof.
  intros Hi Hlst Hflag. pose proof (mr_lists _ _ _ _ _ H i h _ Hi) as Hr. pose proof (mr_nodup _ _ _ _ _ H) as Hnd.
  rewrite cells_app, cells_cons in Hr. destruct (last_or h (fst <$> cells x1)) as [c Hc].
  destruct (node_erase_spec m h (cells x1) (cells x2) x (enc nd) c flag Hr Hc) as (m' & E & Hr' & Hx & Hs).
  exists (list_elem c), m'. split.
  { rewrite <- E. unfold list_erase. rewrite elem_eqb, (proj2 (Z.eqb_neq lst _)) by done. rewrite (proj2 (Z.eqb_neq h x)); [done|].
    intros ->. pose proof (lr_ring _ _ _ Hr) as [[Hh _]%NoDup_cons _]. apply Hh. rewrite fmap_app. apply elem_of_app. right. by left. }
  pose proof (lr_pos m h _ x Hr (mid_in _ _ h x _)) as Hpos.
  rewrite <- cells_cons, <- cells_app, fst_cells in Hs. rewrite <- cells_app in Hr'.
  pose proof (nodes_mid_out ws pool i h x1 x2 x nd Hi) as Hpm.
  assert (x ∉ nodes (<[i := (h, x1 ++ x2)]> ws) pool) as Hxn.
  { pose proof Hnd as [_ Hn]%NoDup_cons. rewrite Hpm in Hn. by apply NoDup_cons in Hn as [? _]. }
  pose proof (lists_change user m m' frame ws pool _ H Hs i h _ _ Hi Hr' ltac:(auto)) as Hlists.
  assert (Forall (recycled m') pool) as Hpool.
  { apply (other_pool user m m' frame ws pool _ H Hs). intros b. apply (pool_disjoint ws pool frame i h _ b Hnd Hi). }
  destruct Hflag as [-> | ->]; cbn [Z.eqb ELIST_ERASE_FULL ELIST_ERASE_PART Pos.eqb].
  - apply (mem_shuffle user m m' frame ws _ pool _ _ H Hs); [intros b; by apply (seg_nodes ws pool i h _ b)| |done|].
    + rewrite Hpm. unfold nodes. rewrite app_assoc. by rewrite <- Permutation_cons_append.
    + apply Forall_app. split; [done|]. constructor; [|done]. by exists (enc nd).
  - apply (mem_change user m m' frame ws _ pool pool _ H Hs); [..|done|done].
    + apply (frame_same user m m' frame ws pool _ H Hs). intros Hb. by apply frame_notin, (seg_nodes ws pool i h _ frame Hi).
    + intros b Hb. left. by apply (seg_nodes ws pool i h _ b Hi).
    + intros b Hb. left. rewrite Hpm. by right.
    + intros b Hb Hb'. assert (b = x) as ->; [|done]. assert (b ∈ nodes ws pool) as Hin.
      { destruct Hb as [?|Hb]; [done|]. by apply (seg_nodes ws pool i h _ b Hi). }
      rewrite Hpm in Hin. by apply elem_of_cons in Hin as [?|?].
    + rewrite Hpm in Hnd. apply NoDup_cons in Hnd as [Hf Hn]. apply NoDup_cons in Hn as [_ Hn]. apply NoDup_cons.
      split; [|done]. rewrite not_elem_of_cons in Hf. tauto.
Qed.

(** The deadline of a node, and the local node. *)
Lemma mem_set_trig i h x1 x nd x2 v :
  ws !! i = Some (h, x1 ++ (x, nd) :: x2) ->
  exists m', set_trig m (list_elem x) v = Some m' /\
    mem_rep user m' frame (<[i := (h, x1 ++ (x, with_trig nd v) :: x2)]> ws) pool.
Proof.
  intros Hi. pose proof (mr_lists _ _ _ _ _ H i h _ Hi) as Hr. pose proof (mr_nodup _ _ _ _ _ H) as Hnd.
  assert (get_data m x = Some (enc nd)) as Hd.
  { apply (lr_data _ _ _ Hr). rewrite cells_app, cells_cons. apply elem_of_app. right. by left. }
  destruct (put_spec m x nd Hd _ _ (wr_trig nd v)) as (p & q & Hm & E).
  set (m' := <[x := mk_node p q (enc (with_trig nd v))]> m) in *. exists m'. split; [done|].
  assert (same_off [x] m m') as Hs.
  { intros b Hb. apply lookup_insert_ne. rewrite not_elem_of_cons in Hb. naive_solver. }
  assert (x ∈ h :: (fst <$> x1 ++ (x, nd) :: x2)) as Hx by apply mid_in.
  assert (list_rep m' h (cells (x1 ++ (x, with_trig nd v) :: x2))) as Hr'.
  { assert (fst <$> cells (x1 ++ (x, with_trig nd v) :: x2) = fst <$> cells (x1 ++ (x, nd) :: x2)) as Ef
      by (by rewrite !fst_cells, !fmap_app).
    pose proof (lr_ring _ _ _ Hr) as Hring. rewrite fst_cells, fmap_app in Hring.
    assert (x ∉ (fst <$> x1) ++ (fst <$> x2)) as Hxn.
    { destruct Hring as [[_ Hn]%NoDup_cons _]. cbn in Hn. rewrite <- Permutation_middle in Hn. by apply NoDup_cons in Hn as [? _]. }
    constructor.
    - rewrite Ef. apply (ring_frame m); [|apply Hr]. intros b _. unfold get_next, get_prev, m'. rewrite lookup_insert.
      case_decide; [|done]. subst. by rewrite Hm.
    - intros a d. rewrite cells_app, cells_cons, elem_of_app, elem_of_cons. unfold get_data, m'. rewrite lookup_insert.
      intros Hin. case_decide as Ea; [subst a|].
      + destruct Hin as [Hin|[[= ->]|Hin]]; [|done|]; exfalso; apply Hxn, elem_of_app; rewrite <- !fst_cells;
          [left|right]; apply list_elem_of_fmap; by exists (x, d).
      + apply (lr_data _ _ _ Hr). rewrite cells_app, cells_cons, elem_of_app, elem_of_cons. naive_solver.
    - unfold live, get_data, m'. rewrite lookup_insert. case_decide; [by eexists|]. apply (lr_head _ _ _ Hr).
    - rewrite Ef. apply Hr. }
  apply (mem_shuffle user m m' frame ws _ pool pool _ H Hs).
  - intros b ->%list_elem_of_singleton. by apply (seg_nodes ws pool i h _ x Hi).
  - destruct (nodes_insert ws pool i h _ (x1 ++ (x, with_trig nd v) :: x2) pool Hi) as [-> ->]. by rewrite !fmap_app.
  - apply (lists_change user m m' frame ws pool _ H Hs i h _ _ Hi Hr'). intros b ->%list_elem_of_singleton. by left.
  - apply (other_pool user m m' frame ws pool _ H Hs). intros b ->%list_elem_of_singleton.
    by apply (pool_disjoint ws pool frame i h _ x Hnd Hi).
Qed.

Lemma mem_put_frame n :
  exists m', put m (list_elem frame) (enc n) = Some m' /\ mem_rep user m' frame ws pool /\
    get_data m' frame = Some (enc n) /\ same_off [frame] m m'.
Proof.
  destruct (mr_frame _ _ _ _ _ H) as (H0 & p & q & d & Hm & Hd & Hmag). unfold put. rewrite elem_node, Hm.
  cbn [mbind option_bind n_data n_prev n_next].
  assert (wr d 0 (enc n) = Some (enc n)) as ->.
  { rewrite <- (app_nil_r d), wr_head by (by rewrite Hd). by rewrite app_nil_r. }
  eexists. split; [done|]. set (m' := <[frame := mk_node p q (enc n)]> m).
  assert (same_off [frame] m m') as Hs.
  { intros b Hb. apply lookup_insert_ne. rewrite not_elem_of_cons in Hb. naive_solver. }
  pose proof frame_notin as Hf. split; [|split; [unfold get_data, m'; by rewrite lookup_insert_eq|done]].
  constructor.
  - intros i h xs Hi. apply (other_list user m m' frame ws pool _ H Hs i h xs Hi). intros b ->%list_elem_of_singleton Hin.
    by apply Hf, (seg_nodes ws pool i h xs frame Hi).
  - apply (other_pool user m m' frame ws pool _ H Hs). intros b ->%list_elem_of_singleton Hin. apply Hf, elem_of_app. by right.
  - apply H.
  - split; [done|]. exists p, q, (enc n). unfold m'. by rewrite lookup_insert_eq.
  - intros b Hb. rewrite Hs; [by apply (mr_user _ _ _ _ _ H)|]. rewrite not_elem_of_cons in *. split; [tauto|by intros ?%elem_of_nil].
  - apply H.
Qed.
End Ops.

End TimerRep.
