(* ===== verification/LiskTimerSpec.v ===== *)
(** * What the timer wheel promises

    The levels of the wheel against the hands of its clock; insertion, deletion,
    cascade and update as operations on the lists of timers; and the loop: it
    runs the timers that are due, all of them, in the order of their deadlines. *)

From Stdlib Require Import Sorted.
From S2P Require Import Prelude LiskMath LiskRing LiskList LiskTimer LiskTimerRep.

Module TimerSpec.
Import Math DList Timer TimerRep.

(** ** Lists in the order of the deadlines *)

Definition due_by (c : Z) (x : tnode) : Prop := trig (snd x) <= c.
#[export] Instance due_by_dec c x : Decision (due_by c x) := Z_le_dec _ _.

Definition earlier (x y : tnode) : Prop := trig (snd x) <= trig (snd y).
Abbreviation sorted := (StronglySorted earlier).

(** The timers up to the first that is not due, and the others. *)
Fixpoint upto (c : Z) (xs : list tnode) : list tnode :=
  match xs with [] => [] | x :: xs => if decide (due_by c x) then x :: upto c xs else [] end.
Fixpoint from (c : Z) (xs : list tnode) : list tnode :=
  match xs with [] => [] | x :: xs' => if decide (due_by c x) then from c xs' else xs end.

(** Where insertion puts a timer: behind those as early. *)
Definition place (x : tnode) (xs : list tnode) : list tnode := upto (trig (snd x)) xs ++ x :: from (trig (snd x)) xs.

Lemma upto_from c xs : upto c xs ++ from c xs = xs.
Proof. induction xs as [|x xs IH]; [done|]. cbn. case_decide; cbn; by rewrite ?IH. Qed.

Lemma place_perm x xs : place x xs ≡ₚ x :: xs.
Proof. unfold place. by rewrite <- Permutation_middle, upto_from. Qed.

Lemma upto_due c xs : Forall (due_by c) (upto c xs).
Proof. induction xs as [|x xs IH]; [constructor|]. cbn. case_decide; [by constructor|constructor]. Qed.

Lemma from_late c xs : sorted xs -> Forall (fun x => ~ due_by c x) (from c xs).
Proof.
  induction 1 as [|x xs Hs IH Hx]; [constructor|]. cbn. case_decide as Hd; [done|]. constructor; [done|].
  apply (Forall_impl _ _ _ Hx). intros y Hy. unfold earlier, due_by in *. lia.
Qed.

Lemma sorted_app xs ys : sorted (xs ++ ys) <-> sorted xs /\ sorted ys /\ forall x y, x ∈ xs -> y ∈ ys -> earlier x y.
Proof.
  induction xs as [|x xs IH]; cbn.
  - split; [intros H; split; [constructor|split; [done|]]; by intros x y ?%elem_of_nil|by intros (_ & ? & _)].
  - split.
    + intros [Hs Hf]%StronglySorted_inv. apply IH in Hs as (H1 & H2 & H3). rewrite Forall_app, !Forall_forall in Hf.
      destruct Hf as [Hf1 Hf2]. split; [constructor; [done|]; by apply Forall_forall|]. split; [done|].
      intros a b [->|Ha]%elem_of_cons Hb; auto.
    + intros ([Hs Hf]%StronglySorted_inv & H2 & H3). constructor.
      * apply IH. split; [done|]. split; [done|]. intros a b Ha. apply H3. by right.
      * apply Forall_app. split; [done|]. apply Forall_forall. intros y Hy. apply H3; [by left|done].
Qed.

Lemma place_sorted x xs : sorted xs -> sorted (place x xs).
Proof.
  intros Hs. pose proof (from_late (trig (snd x)) xs Hs) as Hl. pose proof (upto_due (trig (snd x)) xs) as Hu.
  rewrite Forall_forall in Hl, Hu. rewrite <- (upto_from (trig (snd x)) xs) in Hs. apply sorted_app in Hs as (H1 & H2 & H3).
  apply sorted_app. split; [done|]. split.
  - constructor; [done|]. apply Forall_forall. intros y Hy. pose proof (Hl y Hy). unfold due_by, earlier in *. lia.
  - intros a b Ha [->|Hb]%elem_of_cons; [exact (Hu a Ha)|by apply H3].
Qed.

(** ** Levels *)

Definition period (k : nat) : Z := nth k [1; SECOND_MS; MINUTE_MS; HOUR_MS; DAY_MS] 0.

Ltac ms := cbn [period nth] in *; unfold DAY_MS, HOUR_MS, MINUTE_MS, SECOND_MS, MS in *.

Lemma to_n8_id z : - 2 ^ 63 <= z < 2 ^ 63 -> to_n8 (u8 z) = z.
Proof.
  intros H. unfold to_n8, u8, U8_MOD. rewrite Zplus_mod_idemp_l, Z.mod_small by lia. lia.
Qed.

Definition time_ok (c : Z) : Prop := 0 < c < 2 ^ 61.

Lemma trig_offset_spec tr c : time_ok c -> c <= tr < 2 ^ 62 -> trig_offset tr c = tr - c.
Proof.
  intros Hc Ht. unfold time_ok in Hc. unfold trig_offset. rewrite (u8_id c) by (unfold is_u8, U8_MOD; lia).
  rewrite (proj2 (Z.ltb_ge tr c)) by lia. apply to_n8_id. lia.
Qed.

Lemma quot_zero a b : 0 <= a -> 0 < b -> (Z.quot a b =? 0) = (a <? b).
Proof.
  intros Ha Hb. rewrite Z.quot_div_nonneg by lia. apply eq_true_iff_eq. rewrite Z.eqb_eq, Z.ltb_lt, Z.div_small_iff by lia. lia.
Qed.

(** The level of a timer is that of the greatest unit its distance has. *)
Lemma level_of_spec tr c :
  time_ok c -> 0 <= tr < 2 ^ 62 ->
  (level_of tr c <= 4)%nat /\ ((0 < level_of tr c)%nat -> c + period (level_of tr c) <= tr) /\
  forall k, (1 <= k <= 4)%nat -> tr - c < period k -> (level_of tr c < k)%nat.
Proof.
  intros Hc Ht. assert (Hc' := Hc). unfold time_ok in Hc'. unfold level_of. rewrite (u8_id c) by (unfold is_u8, U8_MOD; lia).
  destruct (tr <=? c) eqn:E; to_prop.
  { split; [lia|]. split; [lia|]. lia. }
  rewrite trig_offset_spec by (done || lia).
  rewrite !quot_zero by (unfold DAY_MS, HOUR_MS, MINUTE_MS, SECOND_MS, MS; lia).
  repeat c_if; (split; [lia|split; [intros _; ms; lia|]]); intros k Hk Hp;
    destruct k as [|[|[|[|[|k]]]]]; ms; lia.
Qed.

Lemma guard_spec k tr c :
  time_ok c -> 0 <= tr < 2 ^ 62 -> (1 <= k <= 4)%nat ->
  (if tr <=? u8 c then false else guard k (to_n8 (u8 (tr - c)))) = negb (tr - c <? period k).
Proof.
  intros Hc Ht Hk. unfold time_ok in Hc. rewrite (u8_id c) by (unfold is_u8, U8_MOD; lia).
  assert (forall d p, 0 <= d -> 0 < p -> (1 <=? Z.quot d p) = negb (d <? p)) as Hq.
  { intros d p Hd Hp. rewrite <- quot_zero by lia. rewrite Z.quot_div_nonneg by lia. pose proof (Z.div_pos d p Hd Hp).
    destruct (Z.eqb_spec (d / p) 0); cbn; [apply Z.leb_gt|apply Z.leb_le]; lia. }
  destruct (tr <=? c) eqn:E; to_prop.
  - rewrite (proj2 (Z.ltb_lt _ _)); [done|]. destruct k as [|[|[|[|[|k]]]]]; ms; lia.
  - rewrite to_n8_id by lia. destruct k as [|[|[|[|[|k]]]]]; try lia; cbn [guard];
      rewrite Hq by (unfold DAY_MS, HOUR_MS, MINUTE_MS, SECOND_MS, MS; lia); reflexivity.
Qed.

(** ** The wheel *)

(** How far the hands below level [k] are into its period, and when it ends. *)
Definition phase (hand : list Z) (k : nat) : Z := foldr Z.add 0 (zip_with Z.mul (take k hand) ms_limit).
Definition boundary (c : Z) (hand : list Z) (k : nat) : Z := c - phase hand k + period k.

Definition hand_ok (hand : list Z) : Prop := Forall2 (fun h l => 0 <= h < l) hand limit.

Definition timer_ok (x : tnode) : Prop :=
  node_ok (snd x) /\ trig (snd x) < 2 ^ 62 /\ MIN_EXPIRE <= expire (snd x) <= MAX_EXPIRE.

(** Each list is sorted, and no timer of level [k] is due before [lo k]: in a timer
    at rest, when the hand of [k] moves. *)
Record wheel_ok (lo : nat -> Z) (ws : wheel) : Prop := {
  wo_len : length ws = MAX_TIMER_LEVEL;
  wo_sorted : forall k h xs, ws !! k = Some (h, xs) -> sorted xs;
  wo_nodes : forall k h xs, ws !! k = Some (h, xs) -> Forall timer_ok xs;
  wo_level : forall k h xs, ws !! k = Some (h, xs) -> (1 <= k)%nat ->
               Forall (fun x => lo k <= trig (snd x)) xs;
}.

(** The ring holds the addresses of the nodes to use again. *)
Definition ring_holds (r : option Ring.ring_t) (pool : list Z) : Prop :=
  match r with
  | None => pool = []
  | Some r => Ring.ring_rep r ((fun a => le_split 8 (list_elem a)) <$> pool) /\ Ring.unit_size r = 8
  end.

Record timer_rep (user m : lmem) (frame : Z) (t : lisk_timer_t) (ws : wheel) (pool : list Z) : Prop := {
  tr_mem : mem_rep user m frame ws pool;
  tr_lists : lists t = (fun l => list_elem (fst l)) <$> ws;
  tr_size : size t = 5;
  tr_ring : ring_holds (ring t) pool;
  tr_time : time_ok (clock t);
  tr_hand : hand_ok (hand t);
  tr_wheel : wheel_ok (boundary (clock t) (hand t)) ws;
}.

Lemma wheel_update lo ws k h xs xs' :
  wheel_ok lo ws -> ws !! k = Some (h, xs) -> sorted xs' -> Forall timer_ok xs' ->
  ((1 <= k)%nat -> Forall (fun x => lo k <= trig (snd x)) xs') ->
  wheel_ok lo (<[k := (h, xs')]> ws).
Proof.
  intros [Hl Hs Hn Hv] Hk Hs' Hn' Hv'.
  assert (forall j h' ys, <[k := (h, xs')]> ws !! j = Some (h', ys) ->
    (j = k /\ ys = xs') \/ (j <> k /\ ws !! j = Some (h', ys))) as Hj.
  { intros j h' ys Hj. destruct (decide (j = k)) as [->|Hjk].
    - rewrite list_lookup_insert_eq in Hj by (by eapply lookup_lt_Some). injection Hj as <- <-. by left.
    - rewrite list_lookup_insert_ne in Hj by done. by right. }
  constructor; [by rewrite length_insert|..]; intros j h' ys E; destruct (Hj _ _ _ E) as [[-> ->]|[Hne E']]; eauto.
Qed.

Lemma wheel_place lo ws k h xs x :
  wheel_ok lo ws -> ws !! k = Some (h, xs) -> timer_ok x -> ((1 <= k)%nat -> lo k <= trig (snd x)) ->
  wheel_ok lo (<[k := (h, place x xs)]> ws).
Proof.
  intros Hw Hk Hx Hv. apply (wheel_update lo ws k h xs); [done|done|..].
  - by apply place_sorted, (wo_sorted _ _ Hw k h).
  - rewrite place_perm. constructor; [done|]. by apply (wo_nodes _ _ Hw k h).
  - intros H1. rewrite place_perm. constructor; [by apply Hv|]. by apply (wo_level _ _ Hw k h).
Qed.

Lemma wheel_remove lo ws k h x1 x x2 :
  wheel_ok lo ws -> ws !! k = Some (h, x1 ++ x :: x2) -> wheel_ok lo (<[k := (h, x1 ++ x2)]> ws).
Proof.
  intros Hw Hk. apply (wheel_update lo ws k h _ _ Hw Hk).
  - pose proof (wo_sorted _ _ Hw k h _ Hk) as Hs. apply sorted_app in Hs as (H1 & [H2 _]%StronglySorted_inv & H3).
    apply sorted_app. split; [done|]. split; [done|]. intros a b Ha Hb. apply H3; [done|by right].
  - pose proof (wo_nodes _ _ Hw k h _ Hk) as Hn. rewrite Forall_app, Forall_cons in Hn. rewrite Forall_app. tauto.
  - intros H1. pose proof (wo_level _ _ Hw k h _ Hk H1) as Hn. rewrite Forall_app, Forall_cons in Hn. rewrite Forall_app. tauto.
Qed.

Lemma phase_bounds hand k : hand_ok hand -> (1 <= k <= 4)%nat -> 0 <= phase hand k < period k.
Proof.
  intros Hh Hk. unfold hand_ok, limit in Hh.
  repeat match type of Hh with Forall2 _ _ (_ :: _) => apply Forall2_cons_inv_r in Hh as (? & ? & ? & Hh & ->) end.
  apply Forall2_nil_inv_r in Hh as ->. destruct k as [|[|[|[|[|k]]]]]; try lia; unfold phase, ms_limit; cbn [take zip_with foldr]; ms; lia.
Qed.

(** ** Finding the place *)

Section Find.
Context (m : lmem) (h elem v : Z) (xs : list tnode) (Hr : list_rep m h (cells xs)) (Hv : get_trig m elem = Some v).
Context (Hok : Forall (fun x => node_ok (snd x)) xs).

Lemma find_pos_spec xs2 : forall xs1 fuel cur p,
  xs = xs1 ++ xs2 -> head ((fst <$> xs2) ++ [h]) = Some cur -> (length xs2 < fuel)%nat ->
  head ((fst <$> from v xs2) ++ [h]) = Some p ->
  find_pos fuel m (list_elem h) elem (list_elem cur) = Some (list_elem p).
Proof.
  induction xs2 as [|[a n] xs2 IH]; intros xs1 fuel cur p Ex Hc Hf Hp; (destruct fuel as [|f]; [cbn in Hf; lia|]); cbn [find_pos].
  - injection Hc as <-. injection Hp as <-. rewrite Z.eqb_refl, andb_false_r. done.
  - injection Hc as <-. cbn [fst] in *.
    assert (a ∈ h :: (fst <$> cells xs)) as Ha by (rewrite fst_cells, Ex; apply mid_in).
    pose proof (lr_pos m h _ a Hr Ha) as Hpos. rewrite elem_nonzero, elem_eqb by lia.
    assert (a =? h = false) as ->.
    { apply Z.eqb_neq. intros ->. pose proof (lr_ring _ _ _ Hr) as [[Hh _]%NoDup_cons _]. apply Hh.
      rewrite fst_cells, Ex, fmap_app. apply elem_of_app. right. by left. }
    cbn [negb andb]. unfold cmp_lisk_timer_node. rewrite Hv.
    assert (get_data m a = Some (enc n)) as Hd.
    { apply (lr_data _ _ _ Hr). rewrite Ex, cells_app. apply elem_of_app. right. by left. }
    rewrite Ex, Forall_app, Forall_cons in Hok. destruct Hok as (_ & Hn & _).
    rewrite (get_trig_enc m a n Hd Hn). cbn [mbind option_bind]. cbn [from] in Hp. unfold due_by in Hp. cbn [snd] in Hp.
    destruct (v <? trig n) eqn:E; to_prop.
    + rewrite decide_False in Hp by lia. by injection Hp as <-.
    + rewrite decide_True in Hp by lia. assert ((if trig n <? v then 1 else 0) <? 0 = false) as -> by (by destruct (trig n <? v)).
      destruct (head_or h (fst <$> xs2)) as [c Hc].
      assert (list_rep m h (cells (xs1 ++ [(a, n)]) ++ cells xs2)) as Hr'.
      { rewrite <- cells_app. replace ((xs1 ++ [(a, n)]) ++ xs2) with xs by (by rewrite Ex, <- app_assoc). done. }
      destruct (rep_neighbours m h _ _ a c Hr') as (Hnx & _).
      { rewrite fst_cells, fmap_app. exact (last_snoc a (h :: (fst <$> xs1))). }
      { by rewrite fst_cells. }
      rewrite next_elem_of, Hnx by lia. cbn [fmap option_fmap option_map mbind option_bind].
      apply (IH (xs1 ++ [(a, n)])); [by rewrite <- app_assoc|done|cbn in Hf; lia|done].
Qed.

(** From the head of the list. *)
Lemma find_place fuel p :
  (length xs < fuel)%nat -> head ((fst <$> from v xs) ++ [h]) = Some p ->
  (cur ← list_next_elem m (list_elem h); find_pos fuel m (list_elem h) elem cur) = Some (list_elem p).
Proof.
  intros Hf Hp. assert (0 < h) as Hh by (apply (lr_pos m h _ h Hr); by left).
  destruct (head_or h (fst <$> xs)) as [c Hc]. rewrite next_elem_of by done.
  destruct (rep_neighbours m h [] (cells xs) h c Hr eq_refl) as (-> & _); [by rewrite fst_cells|].
  cbn [fmap option_fmap option_map mbind option_bind]. by apply (find_pos_spec xs []).
Qed.
End Find.

(** ** The ring of free nodes *)

Definition addr_bytes (a : Z) : bytes := le_split 8 (list_elem a).

Lemma addr_back m a : recycled m a -> le_combine (addr_bytes a) = list_elem a.
Proof.
  intros (d & _ & _ & Ha). apply le_u8. unfold is_u8, U8_MOD, list_elem, sizeof_list_node_t. lia.
Qed.

Lemma pop_ring r pool :
  ring_holds r pool ->
  match pool with
  | [] => exists ret r', Ring.ring_pop r false = Some (ret, None, r') /\ ret <> 0 /\ ring_holds r' []
  | a :: pool => exists r', Ring.ring_pop r false = Some (0, Some (addr_bytes a), r') /\ ring_holds r' pool
  end.
Proof.
  destruct r as [r|]; cbn [ring_holds].
  - intros [Hr Hu]. pose proof (Ring.pop_spec r _ Hr) as Hp. destruct pool as [|a pool].
    + exists (-2), (Some r). rewrite Hp. done.
    + destruct Hp as (r' & -> & Hr' & Hu' & _). exists (Some r'). split; [done|]. split; [done|]. by rewrite Hu'.
  - intros ->. by exists (-1), None.
Qed.

Lemma push_ring r pool a :
  ring_holds r pool ->
  exists ret r', Ring.ring_push r (Some (addr_bytes a)) = Some (ret, r') /\
    ring_holds r' (if ret =? 0 then pool ++ [a] else pool).
Proof.
  destruct r as [r|]; cbn [ring_holds].
  - intros [Hr Hu]. pose proof (Ring.push_spec r _ (addr_bytes a) Hr) as Hp.
    rewrite Hu in Hp. specialize (Hp eq_refl). destruct (Z.of_nat _ =? _).
    + rewrite Hp. by exists (-2), (Some r).
    + destruct Hp as (r' & -> & Hr' & Hu' & _). exists 0, (Some r'). split; [done|]. cbn [Z.eqb ring_holds].
      rewrite fmap_app. split; [done|]. by rewrite Hu'.
  - intros ->. by exists (-1), None.
Qed.

(** ** One change of the timer *)

(** What the operations on the lists leave alone. *)
Definition same_clock (t t' : lisk_timer_t) : Prop :=
  clock t' = clock t /\ hand t' = hand t /\ size t' = size t /\ lists t' = lists t.

Lemma heads_insert (ws : wheel) k h xs xs' :
  ws !! k = Some (h, xs) ->
  (fun l => list_elem (fst l)) <$> <[k := (h, xs')]> ws = (fun l : Z * list tnode => list_elem (fst l)) <$> ws.
Proof.
  intros Hk. rewrite list_fmap_insert. cbn [fst]. apply list_insert_id. by rewrite list_lookup_fmap, Hk.
Qed.

Lemma rep_change user m m' frame t t' ws ws' pool pool' :
  timer_rep user m frame t ws pool -> same_clock t t' -> mem_rep user m' frame ws' pool' ->
  (fun l => list_elem (fst l)) <$> ws' = (fun l : Z * list tnode => list_elem (fst l)) <$> ws ->
  ring_holds (ring t') pool' -> wheel_ok (boundary (clock t) (hand t)) ws' -> timer_rep user m' frame t' ws' pool'.
Proof.
  intros [] (Ec & Eh & Es & El) Hm Hh Hr Hw. constructor; rewrite ?Ec, ?Eh, ?Es, ?El; try done. by rewrite Hh.
Qed.

(** The outcome of inserting the local node, [nd], in list [k]. *)
Definition added (user : lmem) (frame : Z) (malloc : alloc_fun) (m : lmem) (t : lisk_timer_t) (ws : wheel) (pool : list Z)
  (k : nat) (h : Z) (xs : list tnode) (nd : lisk_timer_node_t)
  (o : nat -> option (Z * option Z * lmem * lisk_timer_t)) : Prop :=
  (exists a m' t' pool', (forall fuel, (length xs < fuel)%nat -> o fuel = Some (0, Some (list_elem a), m', t')) /\
     timer_rep user m' frame t' (<[k := (h, place (a, nd) xs)]> ws) pool' /\ same_clock t t' /\
     0 < a /\ a ∉ nodes ws []) \/
  (malloc m 48 = None /\ pool = [] /\ exists t',
     (forall fuel, (length xs < fuel)%nat -> o fuel = Some (-2, None, m, t')) /\ timer_rep user m frame t' ws pool /\ same_clock t t').

Section Insert.
Context (user : lmem) (frame : Z) (malloc : alloc_fun) (Hmal : alloc_ok malloc).
Context (m : lmem) (t : lisk_timer_t) (ws : wheel) (pool : list Z) (H : timer_rep user m frame t ws pool).

Lemma level_list k h xs :
  ws !! k = Some (h, xs) -> lists t !! k = Some (list_elem h) /\ 0 < h /\ list_rep m h (cells xs) /\
    Forall (fun x => node_ok (snd x)) xs.
Proof.
  intros Hk. pose proof (mr_lists _ _ _ _ _ (tr_mem _ _ _ _ _ _ H) k h xs Hk) as Hr.
  split; [by rewrite (tr_lists _ _ _ _ _ _ H), list_lookup_fmap, Hk|].
  split; [apply (lr_pos m h _ h Hr); by left|]. split; [done|].
  apply (Forall_impl _ _ _ (wo_nodes _ _ (tr_wheel _ _ _ _ _ _ H) k h xs Hk)). by intros x [? _].
Qed.

Lemma insert_timer k h xs nd :
  ws !! k = Some (h, xs) -> get_data m frame = Some (enc nd) -> timer_ok (0, nd) ->
  ((1 <= k)%nat -> boundary (clock t) (hand t) k <= trig nd) ->
  added user frame malloc m t ws pool k h xs nd (fun fuel => timer_list_insert malloc fuel m t (list_elem h) (list_elem frame) 0).
Proof.
  intros Hk Hd Hok Hb. destruct (level_list k h xs Hk) as (_ & Hh & Hr & Hn).
  pose proof (tr_mem _ _ _ _ _ _ H) as Hm. destruct (mr_frame _ _ _ _ _ Hm) as (Hf0 & _).
  destruct (head_or h (fst <$> from (trig nd) xs)) as [p Hp].
  assert (forall fuel, (length xs < fuel)%nat ->
    (cur ← list_next_elem m (list_elem h); find_pos fuel m (list_elem h) (list_elem frame) cur) = Some (list_elem p)) as Hfind.
  { intros fuel Hf. exact (find_place m h (list_elem frame) (trig nd) xs Hr (get_trig_enc m frame nd Hd (proj1 Hok)) Hn fuel p Hf Hp). }
  assert (ws !! k = Some (h, upto (trig nd) xs ++ from (trig nd) xs)) as Hk' by (by rewrite upto_from).
  pose proof (pop_ring (ring t) pool (tr_ring _ _ _ _ _ _ H)) as Hpop.
  assert (forall a, wheel_ok (boundary (clock t) (hand t)) (<[k := (h, place (a, nd) xs)]> ws)) as Hw.
  { intros a. by apply wheel_place; [apply H|..]. }
  assert (forall o res, (forall fuel, (length xs < fuel)%nat -> (cur ← list_next_elem m (list_elem h);
      pos ← find_pos fuel m (list_elem h) (list_elem frame) cur; o pos) = res) <->
    (forall fuel, (length xs < fuel)%nat -> o (list_elem p) = res :> option (Z * option Z * lmem * lisk_timer_t))) as Hgo.
  { intros o res. split; intros Hres fuel Hf; rewrite <- (Hres fuel Hf); specialize (Hfind fuel Hf);
      apply bind_Some in Hfind as (cur & -> & Hfind); cbn [mbind option_bind]; by rewrite Hfind. }
  unfold added, timer_list_insert. rewrite !elem_nonzero by lia. cbn [orb Z.eqb negb].
  destruct pool as [|a pool'] eqn:Epool.
  - destruct Hpop as (ret & r' & Epop & Hret & Hr').
    assert (same_clock t (with_num (with_ring t r') (u4 (num (with_ring t r') + 1)))) as Hsc by done.
    destruct (mem_insert user m frame ws [] Hm malloc k h _ _ p nd Hmal Hk' Hp Hd) as [[Hfail E]|(a & m' & E & Hm' & Ha & Han)].
    + right. split; [done|]. split; [done|]. eexists. split; [|split; [|exact Hsc]].
      * apply Hgo. intros fuel _. rewrite Epop. cbn [mbind option_bind]. rewrite (proj2 (Z.eqb_neq ret 0)) by done.
        cbn [mbind option_bind]. rewrite E. done.
      * by apply (rep_change user m m frame t _ ws ws [] [] H Hsc); [..|apply H].
    + left. eexists a, m', _, []. split; [|split; [|split; [exact Hsc|done]]].
      * apply Hgo. intros fuel _. rewrite Epop. cbn [mbind option_bind]. rewrite (proj2 (Z.eqb_neq ret 0)) by done.
        cbn [mbind option_bind]. rewrite E. cbn [mbind option_bind]. by rewrite elem_nonzero.
      * apply (rep_change user m m' frame t _ ws _ [] [] H Hsc Hm'); [|done|apply Hw]. by apply (heads_insert ws k h xs).
  - destruct Hpop as (r' & Epop & Hr'). pose proof (mr_pool _ _ _ _ _ Hm) as [Hra _]%Forall_cons.
    destruct (mem_insert_recycled user m frame ws _ Hm malloc k h _ _ p nd a pool' eq_refl Hk' Hp Hd)
      as (m1 & m' & E1 & E & Hm' & Ha & Han).
    left. assert (same_clock t (with_ring t r')) as Hsc by done. exists a, m', (with_ring t r'), pool'. split; [|split; [|done]].
    + apply Hgo. intros fuel _. rewrite Epop. cbn [mbind option_bind Z.eqb default id]. rewrite (addr_back m a Hra), E1.
      cbn [mbind option_bind]. rewrite E. cbn [mbind option_bind]. by rewrite elem_nonzero.
    + apply (rep_change user m m' frame t _ ws _ _ pool' H Hsc Hm'); [|done|apply Hw]. by apply (heads_insert ws k h xs).
Qed.
End Insert.

(** ** Moving the first node of a list *)

Lemma list_len (ws : wheel) k h xs : ws !! k = Some (h, xs) -> (length xs <= length (timers ws))%nat.
Proof. intros Hk. rewrite (proj2 (timers_insert ws k h xs xs Hk)), length_app. lia. Qed.

Definition nodes_ok (ws : wheel) : Prop := Forall (fun x => node_ok (snd x)) (timers ws).

Lemma nodes_ok_list ws k h xs : nodes_ok ws -> ws !! k = Some (h, xs) -> Forall (fun x => node_ok (snd x)) xs.
Proof. intros Hn Hk. unfold nodes_ok in Hn. rewrite (proj2 (timers_insert ws k h xs xs Hk)), Forall_app in Hn. tauto. Qed.

Section Move.
Context (user : lmem) (frame : Z) (malloc : alloc_fun) (m : lmem) (t : lisk_timer_t) (ws : wheel) (pool : list Z).
Context (H : mem_rep user m frame ws pool) (Hl : lists t = (fun l => list_elem (fst l)) <$> ws) (Hn : nodes_ok ws).
Context (i : nat) (h x : Z) (nd : lisk_timer_node_t) (xs : list tnode) (Hi : ws !! i = Some (h, (x, nd) :: xs)).

Lemma first_node : list_rep m h (cells ((x, nd) :: xs)) /\ 0 < x /\ 0 < h /\ x <> h /\ node_ok nd /\
  get_data m x = Some (enc nd).
Proof.
  pose proof (mr_lists _ _ _ _ _ H i h _ Hi) as Hr. split; [done|].
  split; [apply (lr_pos m h _ x Hr); right; by left|]. split; [apply (lr_pos m h _ h Hr); by left|]. split.
  { pose proof (lr_ring _ _ _ Hr) as [[Hh _]%NoDup_cons _]. intros ->. apply Hh. by left. }
  split; [|apply (lr_data _ _ _ Hr); by left]. pose proof (nodes_ok_list ws i h _ Hn Hi) as Hx. by apply Forall_cons in Hx as [? _].
Qed.

(** Into the list of level [k], its own perhaps. *)
Lemma list_insert_moved k h' ys :
  <[i := (h, xs)]> ws !! k = Some (h', ys) ->
  exists m', (forall fuel, (length (timers ws) < fuel)%nat ->
      timer_list_insert malloc fuel m t (list_elem h') (list_elem x) 1 = Some (0, None, m', t)) /\
    mem_rep user m' frame (<[k := (h', place (x, nd) ys)]> (<[i := (h, xs)]> ws)) pool.
Proof.
  intros Hk. destruct first_node as (Hr & Hx & Hh & Hxh & Hnd & Hd).
  pose proof (get_trig_enc m x nd Hd Hnd) as Hv.
  destruct (head_or h' (fst <$> from (trig nd) ys)) as [p Hp].
  assert (exists zs, ws !! k = Some (h', zs) /\ from (trig nd) zs = from (trig nd) ys) as (zs & Hz & Hfrom).
  { destruct (decide (k = i)) as [->|Hki].
    - rewrite list_lookup_insert_eq in Hk by (by eapply lookup_lt_Some). injection Hk as <- <-. exists ((x, nd) :: xs).
      split; [done|]. cbn. by rewrite decide_True by (unfold due_by; cbn; lia).
    - rewrite list_lookup_insert_ne in Hk by done. by exists ys. }
  pose proof (mr_lists _ _ _ _ _ H k h' zs Hz) as Hrz. rewrite <- Hfrom in Hp.
  assert (0 < h') as Hh' by (apply (lr_pos m h' _ h' Hrz); by left).
  pose proof (list_len ws k h' zs Hz) as Hlen.
  assert (forall fuel, (length (timers ws) < fuel)%nat -> timer_list_insert malloc fuel m t (list_elem h') (list_elem x) 1 =
    '(ret, m) ← list_move_front m (list_elem p) (list_elem x); Some (if negb (ret =? 0) then -2 else 0, None, m, t)) as Hgo.
  { intros fuel Hf.
    pose proof (find_place m h' (list_elem x) (trig nd) zs Hrz Hv (nodes_ok_list ws k h' zs Hn Hz) fuel p ltac:(lia) Hp) as Hfind.
    unfold timer_list_insert. rewrite !elem_nonzero by lia. cbn [orb]. apply bind_Some in Hfind as (cur & -> & Hfind).
    cbn [mbind option_bind]. rewrite Hfind. done. }
  rewrite Hfrom in Hp. unfold place. cbn [snd].
  destruct (decide (k = i)) as [->|Hki].
  - rewrite list_lookup_insert_eq in Hk by (by eapply lookup_lt_Some). injection Hk as <- <-.
    destruct (mem_within user m frame ws pool H i h [] x nd xs (upto (trig nd) xs) (from (trig nd) xs) p Hi) as (m' & E & Hm');
      [by rewrite upto_from|done|]. exists m'. rewrite list_insert_insert_eq. split; [|done]. intros fuel Hf. by rewrite Hgo, E by done.
  - rewrite list_lookup_insert_ne in Hk by done. rewrite <- (upto_from (trig nd) ys) in Hk.
    destruct (mem_move user m frame ws pool H i k h h' [] x nd xs (upto (trig nd) ys) (from (trig nd) ys) p Hi Hk) as (m' & E & Hm');
      [done|done|]. exists m'. split; [|done]. intros fuel Hf. by rewrite Hgo, E by done.
Qed.

Lemma ins_node_moved h' ys :
  <[i := (h, xs)]> ws !! level_of (trig nd) (clock t) = Some (h', ys) ->
  exists m', (forall fuel, (length (timers ws) < fuel)%nat ->
      timer_ins_node malloc fuel m t (list_elem x) 1 = Some (0, None, m', t)) /\
    mem_rep user m' frame (<[level_of (trig nd) (clock t) := (h', place (x, nd) ys)]> (<[i := (h, xs)]> ws)) pool.
Proof.
  intros Hk. destruct first_node as (Hr & Hx & Hh & Hxh & Hnd & Hd).
  assert (lists t !! level_of (trig nd) (clock t) = Some (list_elem h')) as Hlist.
  { rewrite Hl, list_lookup_fmap. destruct (decide (level_of (trig nd) (clock t) = i)) as [Ek|Ek].
    - rewrite Ek in Hk |- *. rewrite list_lookup_insert_eq in Hk by (by eapply lookup_lt_Some). injection Hk as <- <-. by rewrite Hi.
    - rewrite list_lookup_insert_ne in Hk by done. by rewrite Hk. }
  destruct (list_insert_moved _ h' ys Hk) as (m' & E & Hm'). exists m'. split; [|done]. intros fuel Hf. unfold timer_ins_node.
  rewrite elem_nonzero, (get_trig_enc m x nd Hd Hnd) by done. cbn [mbind option_bind]. rewrite Hlist. cbn [mbind option_bind].
  by rewrite E.
Qed.
End Move.

(** ** Cascading a level *)

Lemma wheel_weaken lo lo' ws :
  wheel_ok lo ws -> (forall k, (1 <= k <= 4)%nat -> lo' k <= lo k) -> wheel_ok lo' ws.
Proof.
  intros [Hl Hs Hn Hv] Hlo. constructor; [done|done|done|]. intros k h xs Hk H1.
  apply (Forall_impl _ _ _ (Hv k h xs Hk H1)). intros x Hx. specialize (Hlo k).
  apply lookup_lt_Some in Hk. rewrite Hl in Hk. unfold MAX_TIMER_LEVEL in Hk. lia.
Qed.

Lemma wheel_nodes_ok lo ws : wheel_ok lo ws -> Forall timer_ok (timers ws).
Proof.
  intros Hw. apply Forall_forall. intros x (k & xs & Hk & Hx)%elem_of_concat. rewrite list_lookup_fmap in Hk.
  destruct (ws !! k) as [[h ys]|] eqn:E; [|done]. injection Hk as <-.
  pose proof (wo_nodes _ _ Hw k h ys E) as Hn. rewrite Forall_forall in Hn. by apply Hn.
Qed.

Lemma wheel_node_ok lo ws : wheel_ok lo ws -> nodes_ok ws.
Proof. intros Hw. apply (Forall_impl _ _ _ (wheel_nodes_ok lo ws Hw)). by intros x [? _]. Qed.

(** A node moved is still there once. *)
Lemma timers_moved (ws : wheel) i h x xs k h' ys :
  ws !! i = Some (h, x :: xs) -> <[i := (h, xs)]> ws !! k = Some (h', ys) ->
  timers (<[k := (h', place x ys)]> (<[i := (h, xs)]> ws)) ≡ₚ timers ws.
Proof.
  intros Hi Hk. destruct (timers_insert _ k h' ys (place x ys) Hk) as [-> Hp].
  rewrite place_perm. cbn. rewrite <- Hp. destruct (timers_insert ws i h (x :: xs) xs Hi) as [-> ->]. done.
Qed.

(** One level emptied of what is nearer than its period. *)
Definition raise (lo : nat -> Z) (c : Z) (k : nat) : nat -> Z := fun j => if (j =? k)%nat then c + period k else lo j.

Section Cascade.
Context (user : lmem) (frame : Z) (malloc : alloc_fun) (t : lisk_timer_t) (pool : list Z) (Ht : time_ok (clock t)).
Context (lo : nat -> Z) (k : nat) (Hk : (1 <= k <= 4)%nat) (Hlo : forall j, (1 <= j < k)%nat -> lo j <= clock t + period j).

(** The memory and the wheel in the middle of an update. *)
Definition moving (m : lmem) (ws : wheel) : Prop :=
  mem_rep user m frame ws pool /\ lists t = (fun l => list_elem (fst l)) <$> ws /\ wheel_ok lo ws.

(** The list left has nothing nearer than the period. *)
Lemma raise_ok ws h xs :
  wheel_ok lo ws -> ws !! k = Some (h, xs) -> Forall (fun x => clock t + period k <= trig (snd x)) xs ->
  wheel_ok (raise lo (clock t) k) ws.
Proof.
  intros Hw Hi Hx. constructor; [apply Hw|apply Hw|apply Hw|]. intros j h' ys Hj H1. unfold raise.
  destruct (Nat.eqb_spec j k) as [->|Hjk]; [|by apply (wo_level _ _ Hw j h')]. rewrite Hi in Hj. by injection Hj as <- <-.
Qed.

(** The first node of the list is handed on. *)
Lemma moving_step m ws h x nd xs :
  moving m ws -> ws !! k = Some (h, (x, nd) :: xs) -> trig nd - clock t < period k ->
  exists m' ws', (forall fuel, (length (timers ws) < fuel)%nat ->
      timer_ins_node malloc fuel m t (list_elem x) 1 = Some (0, None, m', t)) /\
    moving m' ws' /\ ws' !! k = Some (h, xs) /\ timers ws' ≡ₚ timers ws.
Proof.
  intros (Hm & Hl & Hw) Hi E.
  destruct (first_node user frame m ws pool Hm (wheel_node_ok lo ws Hw) k h x nd xs Hi) as (_ & _ & _ & _ & Hnd & _).
  pose proof (wo_nodes _ _ Hw k h _ Hi) as [Hok _]%Forall_cons. pose proof Hok as (_ & Htr & _).
  pose proof (no_trig _ Hnd) as Htr0. unfold is_u8 in Htr0. cbn [snd] in Htr.
  destruct (level_of_spec (trig nd) (clock t) Ht ltac:(lia)) as (Hlv & Hge & Hlt). specialize (Hlt k Hk E).
  set (ws1 := <[k := (h, xs)]> ws).
  assert (is_Some (ws1 !! level_of (trig nd) (clock t))) as [[h' ys] Hj].
  { apply lookup_lt_is_Some_2. unfold ws1. rewrite length_insert, (wo_len _ _ Hw). unfold MAX_TIMER_LEVEL. lia. }
  destruct (ins_node_moved user frame malloc m t ws pool Hm Hl (wheel_node_ok lo ws Hw) k h x nd xs Hi h' ys Hj) as (m' & Hins & Hm').
  exists m', (<[level_of (trig nd) (clock t) := (h', place (x, nd) ys)]> ws1). split; [done|]. split; [|split].
  - split; [done|]. split; [by rewrite (heads_insert ws1 _ h' ys _ Hj); unfold ws1; rewrite (heads_insert ws k h _ _ Hi)|].
    apply (wheel_place lo ws1 _ h' ys (x, nd)); [by apply (wheel_remove lo ws k h [] (x, nd) xs)|done|done|].
    intros H1. cbn [snd]. pose proof (Hlo (level_of (trig nd) (clock t)) ltac:(lia)). specialize (Hge ltac:(lia)). lia.
  - unfold ws1. rewrite list_lookup_insert_ne by lia. apply list_lookup_insert_eq. by eapply lookup_lt_Some.
  - by apply timers_moved.
Qed.

Lemma cascade_loop_spec xs : forall m ws h cur,
  moving m ws -> ws !! k = Some (h, xs) -> head ((fst <$> xs) ++ [h]) = Some cur ->
  exists m' ws', (forall fuel n, (length (timers ws) < fuel)%nat -> (length xs < n)%nat ->
      cascade_loop malloc fuel n m t k (list_elem h) (list_elem cur) = Some (m', t)) /\
    mem_rep user m' frame ws' pool /\ lists t = (fun l => list_elem (fst l)) <$> ws' /\
    wheel_ok (raise lo (clock t) k) ws' /\ timers ws' ≡ₚ timers ws.
Proof.
  induction xs as [|[x nd] xs IH]; intros m ws h cur Hmv Hi Hc; pose proof Hmv as (Hm & Hl & Hw).
  - injection Hc as <-. exists m, ws. split.
    { intros fuel [|n] Hf Hn; [cbn in Hn; lia|]. cbn [cascade_loop]. by rewrite Z.eqb_refl, andb_false_r. }
    split; [done|]. split; [done|]. split; [|done]. apply (raise_ok ws h []); [done|done|constructor].
  - injection Hc as <-. cbn [fst].
    destruct (first_node user frame m ws pool Hm (wheel_node_ok lo ws Hw) k h x nd xs Hi) as (Hr & Hx & Hh & Hxh & Hnd & Hd).
    pose proof (wo_nodes _ _ Hw k h _ Hi) as [(_ & Htr & _) _]%Forall_cons.
    pose proof (no_trig _ Hnd) as Htr0. unfold is_u8 in Htr0. cbn [snd] in Htr.
    pose proof (guard_spec k (trig nd) (clock t) Ht ltac:(lia) Hk) as Hguard.
    assert (forall n fuel, cascade_loop malloc fuel (S n) m t k (list_elem h) (list_elem x) =
      if negb (trig nd - clock t <? period k) then Some (m, t)
      else '(_, _, m, t) ← timer_ins_node malloc fuel m t (list_elem x) 1;
           cur ← list_next_elem m (list_elem h); cascade_loop malloc fuel n m t k (list_elem h) cur) as Hgo.
    { intros n fuel. cbn [cascade_loop]. rewrite elem_nonzero, elem_eqb, (proj2 (Z.eqb_neq x h)) by done. cbn [negb andb].
      rewrite (get_trig_enc m x nd Hd Hnd). cbn [mbind option_bind]. by rewrite Hguard. }
    destruct (trig nd - clock t <? period k) eqn:E; to_prop; cbn [negb] in Hgo.
    + destruct (moving_step m ws h x nd xs Hmv Hi E) as (m1 & ws1 & Hins & Hmv1 & Hi1 & Hp).
      destruct (head_or h (fst <$> xs)) as [c Hc].
      destruct (rep_neighbours m1 h [] (cells xs) h c) as (Hnx & _);
        [by apply (mr_lists _ _ _ _ _ (proj1 Hmv1) k)|done|by rewrite fst_cells|].
      destruct (IH m1 ws1 h c Hmv1 Hi1 Hc) as (m2 & ws2 & E2 & H1 & H2 & H3 & H4).
      exists m2, ws2. split; [|rewrite <- Hp; done]. intros fuel [|n] Hf Hn; [cbn in Hn; lia|].
      rewrite Hgo, Hins by done. cbn [mbind option_bind]. rewrite next_elem_of, Hnx by done.
      cbn [fmap option_fmap option_map mbind option_bind]. apply E2; [by rewrite Hp|cbn in Hn; lia].
    + exists m, ws. split; [intros fuel [|n] Hf Hn; [cbn in Hn; lia|apply Hgo]|]. split; [done|]. split; [done|]. split; [|done].
      apply (raise_ok ws h _ Hw Hi). pose proof (wo_sorted _ _ Hw k h _ Hi) as [Hs Hf']%StronglySorted_inv.
      constructor; [cbn [snd]; lia|]. apply (Forall_impl _ _ _ Hf'). intros y Hy. unfold earlier in Hy. cbn [snd] in Hy. lia.
Qed.

Lemma timer_cascade_spec m ws :
  moving m ws ->
  exists m' ws', (forall fuel, (length (timers ws) < fuel)%nat -> timer_cascade malloc fuel m t k = Some (0, m', t)) /\
    mem_rep user m' frame ws' pool /\ lists t = (fun l => list_elem (fst l)) <$> ws' /\
    wheel_ok (raise lo (clock t) k) ws' /\ timers ws' ≡ₚ timers ws.
Proof.
  intros Hmv. pose proof Hmv as (Hm & Hl & Hw).
  destruct (lookup_lt_is_Some_2 ws k) as [[h xs] Hi]; [rewrite (wo_len _ _ Hw); unfold MAX_TIMER_LEVEL; lia|].
  pose proof (mr_lists _ _ _ _ _ Hm k h xs Hi) as Hr. assert (0 < h) as Hh by (apply (lr_pos m h _ h Hr); by left).
  destruct (head_or h (fst <$> xs)) as [c Hc].
  destruct (rep_neighbours m h [] (cells xs) h c Hr) as (Hnx & _); [done|by rewrite fst_cells|].
  destruct (cascade_loop_spec xs m ws h c) as (m' & ws' & E & H'); [done|done|done|].
  exists m', ws'. split; [|done]. intros fuel Hf. unfold timer_cascade.
  rewrite (proj2 (Nat.leb_gt k 0)), (proj2 (Nat.leb_gt MAX_TIMER_LEVEL k)) by (unfold MAX_TIMER_LEVEL; lia). cbn [orb].
  rewrite Hl, list_lookup_fmap, Hi. cbn [fmap option_fmap option_map fst mbind option_bind]. rewrite next_elem_of, Hnx by done.
  cbn [fmap option_fmap option_map mbind option_bind]. rewrite E; [done|done|]. pose proof (list_len ws k h xs Hi). lia.
Qed.
End Cascade.

(** ** The hands count in mixed radix *)

(** The value of digits whose units are the products of the limits before them. *)
Fixpoint value (limit digits : list Z) : Z :=
  match limit, digits with l :: limit, d :: digits => d + l * value limit digits | _, _ => 0 end.

Definition small_limit (l : Z) : Prop := 3 <= l <= 1000.

(** The hands below a place whose own hand and those above stay count what they
    counted and what came in. *)
Lemma hand_loop_spec limit : forall hand inc carry idx mx hand' K,
  Forall2 (fun h l => 0 <= h < l) hand limit -> Forall2 (fun i l => 0 <= i <= 1000) inc limit -> Forall small_limit limit ->
  0 <= carry <= 1000 -> (mx <= idx)%nat -> hand_loop hand inc limit carry idx mx = (hand', K) ->
  Forall2 (fun h l => 0 <= h < l) hand' limit /\ (K = mx \/ idx < K <= idx + length limit)%nat /\
  forall k, (k < length limit)%nat -> (K <= idx + k)%nat ->
    Forall (fun i => i = 0) (drop k inc) /\
    value limit (take k hand') = value limit (take k hand) + value limit (take k inc) + carry.
Proof.
  induction limit as [|l limit IH]; intros hand inc carry idx mx hand' K Hh Hi Hl Hc Hmx E.
  { apply Forall2_nil_inv_r in Hh as ->. injection E as <- <-. split; [constructor|]. split; [by left|]. cbn. lia. }
  apply Forall2_cons_inv_r in Hh as (h & hs & Hh & Hhs & ->). apply Forall2_cons_inv_r in Hi as (i & ns & Hi & Hns & ->).
  apply Forall_cons in Hl as [Hl Hls]. unfold small_limit in Hl. cbn [hand_loop] in E.
  rewrite (u4_id (i + carry)) in E by (unfold is_u4, U4_MOD; lia).
  destruct (i + carry =? 0) eqn:Ei; to_prop; cbn [negb] in E.
  - assert (i = 0 /\ carry = 0) as [-> ->] by lia.
    destruct (hand_loop hs ns limit 0 (S idx) mx) as [hs' K'] eqn:El. injection E as <- <-.
    destruct (IH hs ns 0 (S idx) mx hs' K' Hhs Hns Hls ltac:(lia) ltac:(lia) El) as (H1 & H2 & H3).
    split; [by constructor|]. split; [cbn; lia|]. intros [|k] Hk HK; cbn [drop take value].
    + split; [|lia]. constructor; [done|]. destruct limit as [|l' limit]; [by apply Forall2_nil_inv_r in Hns as ->|].
      apply (H3 0%nat); cbn; lia.
    + cbn in Hk. destruct (H3 k ltac:(lia) ltac:(lia)) as [Hd Hv]. split; [done|]. rewrite Hv. lia.
  - rewrite (u4_id (h + (i + carry))) in E by (unfold is_u4, U4_MOD; lia).
    set (v := h + (i + carry)) in *. pose proof (Z.div_mod v l ltac:(lia)) as Hdm. pose proof (Z.mod_pos_bound v l ltac:(lia)).
    assert (0 <= v / l <= 1000) by (split; [apply Z.div_pos; lia|apply Z.div_le_upper_bound; lia]).
    destruct (hand_loop hs ns limit (v / l) (S idx) (S idx)) as [hs' K'] eqn:El. injection E as <- <-.
    destruct (IH hs ns (v / l) (S idx) (S idx) hs' K' Hhs Hns Hls ltac:(lia) ltac:(lia) El) as (H1 & H2 & H3).
    split; [by constructor|]. split; [cbn; lia|]. intros [|k] Hk HK; [lia|]. cbn in Hk. cbn [drop take value].
    destruct (H3 k ltac:(lia) ltac:(lia)) as [Hd Hv]. split; [done|]. rewrite Hv, !Z.mul_add_distr_l. unfold v in *. lia.
Qed.

Lemma digit r l : 0 < l -> exists q r', r / l = q /\ r mod l = r' /\ r = l * q + r' /\ 0 <= r' < l.
Proof. intros Hl. exists (r / l), (r mod l). pose proof (Z.div_mod r l). pose proof (Z.mod_pos_bound r l Hl). lia. Qed.

(** The digits of a [u4]. *)
Lemma inc_loop_spec d :
  0 <= d < U4_MOD -> exists inc, inc_loop (rev ms_limit) d [] = inc /\
    Forall2 (fun i l => 0 <= i <= 1000) inc limit /\ value limit inc = d.
Proof.
  intros Hd. unfold U4_MOD in Hd. unfold ms_limit, limit. ms. cbn [rev app inc_loop].
  change (1000 * 1) with 1000. change (60 * 1000) with 60000. change (60 * 60000) with 3600000. change (24 * 3600000) with 86400000.
  destruct (digit d 86400000) as (q4 & r4 & -> & -> & E4 & R4); [lia|].
  destruct (digit r4 3600000) as (q3 & r3 & -> & -> & E3 & R3); [lia|].
  destruct (digit r3 60000) as (q2 & r2 & -> & -> & E2 & R2); [lia|].
  destruct (digit r2 1000) as (q1 & r1 & -> & -> & E1 & R1); [lia|]. rewrite Z.div_1_r.
  eexists. split; [reflexivity|]. split; [|cbn [value]; lia]. do 5 (constructor; [lia|]). constructor.
Qed.

Lemma value_zero limit ds : Forall (fun i => i = 0) ds -> value limit ds = 0.
Proof. intros Hz. revert limit. induction Hz as [|d ds -> _ IH]; intros [|l limit]; cbn; rewrite ?IH; lia. Qed.

Lemma value_take limit ds k : Forall (fun i => i = 0) (drop k ds) -> value limit (take k ds) = value limit ds.
Proof.
  revert limit k. induction ds as [|d ds IH]; intros [|l limit] [|k] Hz; cbn in *; try done.
  - apply Forall_cons in Hz as [-> Hz]. rewrite value_zero by done. lia.
  - by rewrite IH.
Qed.

Lemma phase_value hand k : hand_ok hand -> (1 <= k <= 4)%nat -> phase hand k = value limit (take k hand).
Proof.
  intros Hh Hk. unfold hand_ok, limit in Hh.
  repeat match type of Hh with Forall2 _ _ (_ :: _) => apply Forall2_cons_inv_r in Hh as (? & ? & ? & Hh & ->) end.
  apply Forall2_nil_inv_r in Hh as ->.
  destruct k as [|[|[|[|[|k]]]]]; try lia; unfold phase, ms_limit, limit; cbn [take zip_with foldr value]; ms; lia.
Qed.

(** Above the highest hand that moves, the hands have counted the time that passed. *)
Lemma hands_spec hand d hand' K :
  hand_ok hand -> is_u4 d -> hand_loop hand (inc_loop (rev ms_limit) d []) limit 0 0 0 = (hand', K) ->
  hand_ok hand' /\ (K <= 5)%nat /\ forall k, (1 <= k <= 4)%nat -> (K <= k)%nat -> phase hand' k = phase hand k + d.
Proof.
  intros Hh Hd E. destruct (inc_loop_spec d Hd) as (inc & Ei & Hinc & Hval). rewrite Ei in E.
  destruct (hand_loop_spec limit hand inc 0 0 0 hand' K Hh Hinc) as (Hh' & HK & Hv); [|lia|lia|done|].
  { repeat constructor; unfold small_limit; lia. }
  split; [done|]. split; [cbn in HK; lia|]. intros k Hk HKk.
  destruct (Hv k ltac:(cbn; lia) HKk) as [Hz Hvk]. rewrite (value_take limit inc k Hz), Hval in Hvk.
  rewrite !phase_value by done. lia.
Qed.

(** ** Updating the clock *)

Section Update.
Context (user : lmem) (frame : Z) (malloc : alloc_fun) (t : lisk_timer_t) (pool : list Z) (Ht : time_ok (clock t)).

Lemma cascades_spec n : forall a lo m ws,
  (1 <= a)%nat -> (a + n <= 5)%nat -> (forall j, (1 <= j < a)%nat -> lo j <= clock t + period j) ->
  moving user frame t pool lo m ws ->
  exists lo' m' ws', (forall fuel, (length (timers ws) < fuel)%nat -> cascades malloc fuel m t (seq a n) = Some (m', t)) /\
    moving user frame t pool lo' m' ws' /\ timers ws' ≡ₚ timers ws /\
    forall j, lo' j = if decide (a <= j < a + n)%nat then clock t + period j else lo j.
Proof.
  induction n as [|n IH]; intros a lo m ws Ha Hn Hlo Hmv; cbn [seq cascades].
  { exists lo, m, ws. split; [done|]. split; [done|]. split; [done|]. intros j. by rewrite decide_False by lia. }
  destruct (timer_cascade_spec user frame malloc t pool Ht lo a ltac:(lia) Hlo m ws Hmv)
    as (m1 & ws1 & E1 & Hm1 & Hl1 & Hw1 & Hp1).
  destruct (IH (S a) (raise lo (clock t) a) m1 ws1) as (lo' & m' & ws' & E' & Hmv' & Hp' & Hlo'); [lia|lia| |done|].
  { intros j Hj. unfold raise. destruct (Nat.eqb_spec j a) as [->|Hja]; [lia|]. apply Hlo. lia. }
  exists lo', m', ws'. split; [|split; [done|split; [by rewrite Hp'|]]].
  - intros fuel Hf. rewrite E1 by done. cbn [mbind option_bind]. apply E'. by rewrite Hp1.
  - intros j. rewrite Hlo'. unfold raise. destruct (Nat.eqb_spec j a) as [->|Hja]; repeat case_decide; lia.
Qed.
End Update.

Lemma update_early malloc fuel m t time :
  time_ok (clock t) -> clock t <= Z.quot time 1000 < clock t + 10 -> timer_update malloc fuel m t time = Some (-2, m, t).
Proof.
  intros Hc Hn. unfold time_ok in Hc. unfold timer_update. rewrite (proj2 (Z.ltb_ge _ _)) by lia. rewrite chk_n8_ok by lia.
  cbn [mbind option_bind]. rewrite u4_id by (unfold is_u4, U4_MOD; lia). unfold MINIMUM_DIFF, MS.
  by rewrite (proj2 (Z.ltb_lt _ _)) by lia.
Qed.

Lemma timer_update_spec user frame malloc m t ws pool time :
  timer_rep user m frame t ws pool -> clock t + 10 <= Z.quot time 1000 < clock t + U4_MOD -> time_ok (Z.quot time 1000) ->
  exists m' t' ws', (forall fuel, (length (timers ws) < fuel)%nat -> timer_update malloc fuel m t time = Some (0, m', t')) /\
    timer_rep user m' frame t' ws' pool /\ clock t' = Z.quot time 1000 /\ timers ws' ≡ₚ timers ws.
Proof.
  intros H Hn Hnow. set (now := Z.quot time 1000) in *. pose proof (tr_time _ _ _ _ _ _ H) as Hc. pose proof Hc as Hc'.
  unfold time_ok in Hc', Hnow. unfold U4_MOD in Hn.
  destruct (hand_loop (hand t) (inc_loop (rev ms_limit) (now - clock t) []) limit 0 0 0) as [hand' K] eqn:Eh.
  destruct (hands_spec (hand t) (now - clock t) hand' K (tr_hand _ _ _ _ _ _ H)) as (Hh' & HK & Hph);
    [unfold is_u4, U4_MOD; lia|done|].
  set (t1 := with_clock t now hand').
  destruct (cascades_spec user frame malloc t1 pool Hnow (K - 1) 1 (boundary (clock t) (hand t)) m ws)
    as (lo' & m' & ws' & E & (Hm' & Hl' & Hw') & Hp & Hlo'); [lia|lia|lia| |].
  { split; [apply H|]. split; [apply H|apply H]. }
  exists m', t1, ws'. split; [|split; [|done]].
  - intros fuel Hf. unfold timer_update. fold now. rewrite (proj2 (Z.ltb_ge _ _)) by lia. rewrite chk_n8_ok by lia.
    cbn [mbind option_bind]. rewrite u4_id by (unfold is_u4, U4_MOD; lia). unfold MINIMUM_DIFF, MS.
    rewrite (proj2 (Z.ltb_ge _ _)) by lia. rewrite Eh. fold t1. by rewrite E.
  - constructor; [done|done|apply H|apply H|done|done|]. apply (wheel_weaken lo'); [done|]. intros k Hk. rewrite Hlo'.
    pose proof (phase_bounds hand' k Hh' Hk). unfold boundary. cbn [t1 with_clock clock hand].
    case_decide; [lia|]. rewrite Hph by lia. lia.
Qed.

(** ** Deletion *)

Lemma del_node_spec user frame m t ws pool k h x1 x nd x2 lst :
  timer_rep user m frame t ws pool -> ws !! k = Some (h, x1 ++ (x, nd) :: x2) -> lst <> list_elem x ->
  exists m' t' pool', timer_del_node m t lst (list_elem x) = Some (m', t') /\ same_clock t t' /\
    timer_rep user m' frame t' (<[k := (h, x1 ++ x2)]> ws) pool'.
Proof.
  intros H Hk Hlst. unfold timer_del_node.
  destruct (push_ring (ring t) pool x (tr_ring _ _ _ _ _ _ H)) as (ret & r' & E & Hr'). unfold addr_bytes in E. rewrite E.
  cbn [mbind option_bind].
  assert (forall flag t', same_clock t t' -> flag = ELIST_ERASE_PART \/ flag = ELIST_ERASE_FULL ->
    ring_holds (ring t') (if flag =? ELIST_ERASE_FULL then pool else pool ++ [x]) ->
    exists m' pool', ('(_, m) ← list_erase m lst (list_elem x) flag; Some (m, t')) = Some (m', t') /\
      timer_rep user m' frame t' (<[k := (h, x1 ++ x2)]> ws) pool') as Herase.
  { intros flag t' Hsc Hflag Hr.
    destruct (mem_erase user m frame ws pool (tr_mem _ _ _ _ _ _ H) k h x1 x nd x2 lst flag Hk Hlst Hflag) as (p & m' & -> & Hm').
    cbn [mbind option_bind]. eexists m', _. split; [done|].
    apply (rep_change user m m' frame t t' ws _ pool _ H Hsc Hm'); [by apply (heads_insert ws k h _ _ Hk)|done|].
    by apply (wheel_remove _ ws k h x1 (x, nd) x2); [apply H|]. }
  destruct (ret =? 0) eqn:Eret; to_prop.
  - destruct (Herase ELIST_ERASE_PART (with_ring t r')) as (m' & pool' & E' & H'); [done|by left|done|]. by exists m', (with_ring t r'), pool'.
  - destruct (Herase ELIST_ERASE_FULL (with_num (with_ring t r') (u4 (num (with_ring t r') - 1)))) as (m' & pool' & E' & H');
      [done|by right|done|]. by eexists m', _, pool'.
Qed.

(** ** Running the timers *)

(** What a callback may do to the timer: add timers. *)
Inductive grows (c : Z) (ws : wheel) : wheel -> list tnode -> Prop :=
  | grows_refl : grows c ws ws []
  | grows_add ws' new k h xs x :
      grows c ws ws' new -> ws' !! k = Some (h, xs) -> c < trig (snd x) ->
      grows c ws (<[k := (h, place x xs)]> ws') (new ++ [x]).

(** [code] is what the callback answers, [adding] whether it may add timers. *)
Definition callback_ok (user : lmem) (frame : Z) (cb : timer_func) (code : Z -> Z -> Z -> Z) (adding : bool) : Prop :=
  forall f id a m t ws pool, timer_rep user m frame t ws pool ->
    exists m' t' ws' pool' new, cb f false id a m t = Some (code f id a, m', t') /\
      timer_rep user m' frame t' ws' pool' /\ clock t' = clock t /\ grows (clock t) ws ws' new /\
      (adding = false -> new = []).

(** The call a timer is for, and the timer after it. *)
Definition call_of (code : Z -> Z -> Z -> Z) (x : tnode) : call :=
  let id := list_elem (fst x) in mk_call (run (snd x)) id (arg (snd x)) (code (run (snd x)) id (arg (snd x))).
Definition leaves (code : Z -> Z -> Z -> Z) (x : tnode) : bool :=
  (c_ret (call_of code x) =? -3) || (type (snd x) =? ETIMER_ONCE).
Definition again (now : Z) (x : tnode) : tnode := (fst x, with_trig (snd x) (now + expire (snd x))).
Definition rearmed (code : Z -> Z -> Z -> Z) (now : Z) (due : list tnode) : list tnode :=
  again now <$> filter (fun x => leaves code x = false) due.

Lemma upto_place c x xs : c < trig (snd x) -> upto c (place x xs) = upto c xs.
Proof.
  intros Hc. unfold place. generalize (from (trig (snd x)) xs) as zs. induction xs as [|y xs IH]; intros zs; cbn.
  - rewrite decide_False; [done|]. unfold due_by. lia.
  - case_decide as Hy; cbn.
    + case_decide; [|done]. by rewrite IH.
    + rewrite decide_False by (unfold due_by; lia). rewrite decide_False; [done|]. unfold due_by in *. lia.
Qed.

Lemma grows_timers c ws ws' new :
  grows c ws ws' new -> timers ws' ≡ₚ timers ws ++ new /\ Forall (fun x => ~ due_by c x) new.
Proof.
  induction 1 as [|ws' new k h xs x Hg [IH1 IH2] Hk Hx]; [by rewrite app_nil_r|]. split.
  - rewrite (proj1 (timers_insert ws' k h xs _ Hk)), place_perm. cbn.
    rewrite <- (proj2 (timers_insert ws' k h xs xs Hk)), IH1, app_assoc. by rewrite <- Permutation_cons_append.
  - apply Forall_app. split; [done|]. constructor; [|constructor]. unfold due_by. lia.
Qed.

Lemma grows_upto c ws ws' new h xs :
  grows c ws ws' new -> ws !! 0%nat = Some (h, xs) ->
  exists xs', ws' !! 0%nat = Some (h, xs') /\ upto c xs' = upto c xs.
Proof.
  intros Hg H0. induction Hg as [|ws' new k h' ys x Hg IH Hk Hx]; [by exists xs|].
  destruct IH as (xs' & H0' & Hu). destruct (decide (k = 0%nat)) as [->|Hk0].
  - rewrite Hk in H0'. injection H0' as -> ->. exists (place x xs').
    rewrite list_lookup_insert_eq by (by eapply lookup_lt_Some). split; [done|]. by rewrite upto_place.
  - exists xs'. by rewrite list_lookup_insert_ne.
Qed.

(** The wheel with the first timer of its first list set again. *)
Section Rearm.
Context (now : Z) (hands : list Z) (ws : wheel) (h x : Z) (nd : lisk_timer_node_t) (xs : list tnode).
Context (Ht : time_ok now) (Hh : hand_ok hands) (Hw : wheel_ok (boundary now hands) ws).
Context (H0 : ws !! 0%nat = Some (h, (x, nd) :: xs)).

Let v : Z := now + expire nd.
Let nd' : lisk_timer_node_t := with_trig nd v.
Let ws1 : wheel := <[0%nat := (h, (x, nd') :: xs)]> ws.

Lemma first_ok : timer_ok (x, nd) /\ 1 <= expire nd < 2 ^ 28 /\ 0 <= v < 2 ^ 62.
Proof.
  pose proof (wo_nodes _ _ Hw _ _ _ H0) as [Hok _]%Forall_cons. split; [done|]. destruct Hok as (_ & _ & He).
  cbn [snd] in He. unfold MIN_EXPIRE, MAX_EXPIRE, time_ok in *. unfold v. lia.
Qed.

Lemma again_ok : timer_ok (x, nd').
Proof.
  destruct first_ok as (([] & _ & He) & _ & Hv). split; [|split; [cbn; lia|done]]. split; cbn; try done. unfold is_u8, U8_MOD. lia.
Qed.

Lemma set_wheel : ws1 !! 0%nat = Some (h, (x, nd') :: xs) /\ <[0%nat := (h, xs)]> ws1 = <[0%nat := (h, xs)]> ws /\
  timers ws1 ++ [(x, nd)] ≡ₚ timers ws ++ [again now (x, nd)] /\ nodes_ok ws1.
Proof.
  split; [apply list_lookup_insert_eq; by eapply lookup_lt_Some|]. split; [apply list_insert_insert_eq|].
  destruct (timers_insert ws 0 h _ ((x, nd') :: xs) H0) as [Hp1 Hp]. split.
  - unfold ws1. rewrite Hp1, Hp. rewrite <- !Permutation_cons_append. apply perm_swap.
  - pose proof (wheel_node_ok _ _ Hw) as Hn. unfold nodes_ok in *. unfold ws1. rewrite Hp in Hn. rewrite Hp1.
    apply Forall_cons in Hn as [_ Hn]. constructor; [apply again_ok|done].
Qed.

Lemma rearm_wheel :
  exists h' ys zs, <[0%nat := (h, xs)]> ws1 !! level_of v now = Some (h', ys) /\
    let ws2 := <[level_of v now := (h', place (x, nd') ys)]> (<[0%nat := (h, xs)]> ws1) in
    wheel_ok (boundary now hands) ws2 /\ ws2 !! 0%nat = Some (h, zs) /\ upto now zs = upto now xs /\
    timers ws2 ≡ₚ timers ws1 /\
    (fun l => list_elem (fst l)) <$> ws2 = (fun l : Z * list tnode => list_elem (fst l)) <$> ws.
Proof.
  destruct set_wheel as (H1 & Hins & _ & _). destruct first_ok as (_ & He & Hv).
  destruct (level_of_spec v now Ht ltac:(lia)) as (Hlv & Hge & _). set (k := level_of v now) in *.
  destruct (lookup_lt_is_Some_2 (<[0%nat := (h, xs)]> ws1) k) as [[h' ys] Hk].
  { rewrite Hins, length_insert, (wo_len _ _ Hw). unfold MAX_TIMER_LEVEL. lia. }
  assert (timers (<[k := (h', place (x, nd') ys)]> (<[0%nat := (h, xs)]> ws1)) ≡ₚ timers ws1) as Hp
    by exact (timers_moved ws1 0 h (x, nd') xs k h' ys H1 Hk).
  rewrite Hins in Hk, Hp |- *. exists h', ys, (if decide (k = 0%nat) then place (x, nd') xs else xs). split; [done|].
  cbn zeta. split; [|split; [|split; [|split; [done|]]]].
  - apply (wheel_place _ _ k h' ys); [by apply (wheel_remove _ ws 0 h [] (x, nd) xs)|done|apply again_ok|].
    intros Hk1. cbn [snd trig nd' with_trig]. specialize (Hge ltac:(lia)).
    pose proof (phase_bounds hands k Hh ltac:(lia)). unfold boundary. lia.
  - destruct (decide (k = 0%nat)) as [Ek|Ek].
    + rewrite Ek in *. rewrite list_lookup_insert_eq in Hk by (by eapply lookup_lt_Some). injection Hk as <- <-.
      by rewrite list_lookup_insert_eq by (rewrite length_insert; by eapply lookup_lt_Some).
    + rewrite list_lookup_insert_ne by done. by rewrite list_lookup_insert_eq by (by eapply lookup_lt_Some).
  - case_decide; [|done]. apply upto_place. cbn. unfold v. lia.
  - rewrite (heads_insert _ k h' ys _ Hk). by rewrite (heads_insert ws 0 h _ _ H0).
Qed.
End Rearm.

Section Fire.
Context (user : lmem) (frame : Z) (malloc : alloc_fun) (cb : timer_func) (code : Z -> Z -> Z -> Z) (adding : bool).
Context (Hcb : callback_ok user frame cb code adding).

(** The state between two steps: [xs] is the first list. *)
Definition firing (now h : Z) (m : lmem) (t : lisk_timer_t) (ws : wheel) (pool : list Z) (xs : list tnode) : Prop :=
  timer_rep user m frame t ws pool /\ clock t = now /\ ws !! 0%nat = Some (h, xs).

Lemma firing_first now h m t ws pool x nd xs :
  firing now h m t ws pool ((x, nd) :: xs) ->
  0 < x /\ 0 < h /\ x <> h /\ node_ok nd /\ get_data m x = Some (enc nd) /\ get_prev m x = Some h.
Proof.
  intros (H & _ & H0).
  destruct (first_node user frame m ws pool (tr_mem _ _ _ _ _ _ H) (wheel_node_ok _ _ (tr_wheel _ _ _ _ _ _ H)) 0 h x nd xs H0)
    as (Hr & Hx & Hh & Hxh & Hnd & Hd).
  destruct (rep_neighbours m h [] (cells ((x, nd) :: xs)) h x Hr eq_refl eq_refl) as (_ & Hp & _). done.
Qed.

Lemma rearm_spec now h m t ws pool x nd xs :
  firing now h m t ws pool ((x, nd) :: xs) ->
  exists m' ws' ys, (forall fuel, (length (timers ws) < fuel)%nat ->
    (e ← get_expire m (list_elem x); c ← chk_n8 (clock t + e); m ← set_trig m (list_elem x) (u8 c);
     '(_, _, m, t) ← timer_ins_node malloc fuel m t (list_elem x) 1; Some (m, t)) = Some (m', t)) /\
    firing now h m' t ws' pool ys /\ upto now ys = upto now xs /\
    timers ws' ++ [(x, nd)] ≡ₚ timers ws ++ [again now (x, nd)].
Proof.
  intros Hfi. destruct (firing_first _ _ _ _ _ _ _ _ _ Hfi) as (_ & _ & _ & Hnd & Hd & _). destruct Hfi as (H & Hc & H0).
  pose proof (tr_mem _ _ _ _ _ _ H) as Hm. pose proof (tr_wheel _ _ _ _ _ _ H) as Hw.
  pose proof (tr_time _ _ _ _ _ _ H) as Ht. pose proof (tr_hand _ _ _ _ _ _ H) as Hh. rewrite Hc in Hw, Ht.
  destruct (first_ok now (hand t) ws h x nd xs Ht Hw H0) as (_ & He & Hv).
  destruct (set_wheel now (hand t) ws h x nd xs Ht Hw H0) as (H1 & Hins & Hp1 & Hn1).
  destruct (rearm_wheel now (hand t) ws h x nd xs Ht Hh Hw H0) as (h' & ys & zs & Hk & Hw2 & Hz & Hu & Hp2 & Hl2).
  set (v := now + expire nd) in *. set (ws1 := <[0%nat := (h, (x, with_trig nd v) :: xs)]> ws) in *.
  destruct (mem_set_trig user m frame ws pool Hm 0 h [] x nd xs v H0) as (m1 & Eset & Hm1).
  assert (lists t = (fun l => list_elem (fst l)) <$> ws1) as Hl1.
  { unfold ws1. by rewrite (heads_insert ws 0 h _ _ H0), (tr_lists _ _ _ _ _ _ H). }
  pose proof (ins_node_moved user frame malloc m1 t ws1 pool Hm1 Hl1 Hn1 0 h x (with_trig nd v) xs H1) as Hins_node.
  rewrite Hc in Hins_node. destruct (Hins_node h' ys Hk) as (m2 & Eins & Hm2).
  eexists m2, _, zs. split; [|split; [split; [|split; [exact Hc|exact Hz]]|split; [done|by rewrite Hp2]]].
  - intros fuel Hf. rewrite (get_expire_enc m x nd Hd Hnd), Hc. cbn [mbind option_bind]. fold v.
    rewrite chk_n8_ok by lia. cbn [mbind option_bind]. rewrite (u8_id v) by (unfold is_u8, U8_MOD; lia). rewrite Eset.
    cbn [mbind option_bind]. rewrite Eins; [done|]. apply Permutation_length in Hp1. rewrite !length_app in Hp1. cbn in Hp1. lia.
  - apply (rep_change user m m2 frame t t ws _ pool pool H ltac:(done) Hm2); [done|apply H|]. by rewrite Hc.
Qed.

(** After a call: the timer leaves or is set again. *)
Lemma settle_spec now h m t ws pool x nd xs ret :
  firing now h m t ws pool ((x, nd) :: xs) -> ret = code (run nd) (list_elem x) (arg nd) ->
  exists m' t' ws' pool' ys, (forall fuel, (length (timers ws) < fuel)%nat ->
    (ty ← get_type m (list_elem x);
     if (ret =? -3) || (ty =? ETIMER_ONCE) then timer_del_node m t (list_elem h) (list_elem x)
     else
       e ← get_expire m (list_elem x); c ← chk_n8 (clock t + e); m ← set_trig m (list_elem x) (u8 c);
       '(_, _, m, t) ← timer_ins_node malloc fuel m t (list_elem x) 1; Some (m, t)) = Some (m', t')) /\
    firing now h m' t' ws' pool' ys /\ upto now ys = upto now xs /\
    timers ws' ++ [(x, nd)] ≡ₚ timers ws ++ rearmed code now [(x, nd)].
Proof.
  intros Hfi ->. destruct (firing_first _ _ _ _ _ _ _ _ _ Hfi) as (Hx & Hh & Hxh & Hnd & Hd & _). pose proof Hfi as (H & Hc & H0).
  rewrite (get_type_enc m x nd Hd Hnd). cbn [mbind option_bind].
  change ((code (run nd) (list_elem x) (arg nd) =? -3) || (type nd =? ETIMER_ONCE)) with (leaves code (x, nd)).
  unfold rearmed. cbn [filter list_filter]. destruct (leaves code (x, nd)) eqn:El.
  - rewrite decide_False by done. destruct (del_node_spec user frame m t ws pool 0 h [] x nd xs (list_elem h) H H0)
      as (m' & t' & pool' & E & (Hc' & _) & H').
    { unfold list_elem. lia. }
    exists m', t', (<[0%nat := (h, xs)]> ws), pool', xs. split; [done|]. split; [|split; [done|]].
    + split; [done|]. split; [congruence|]. apply list_lookup_insert_eq. by eapply lookup_lt_Some.
    + destruct (timers_insert ws 0 h _ xs H0) as [-> ->]. cbn. rewrite app_nil_r. by rewrite <- Permutation_cons_append.
  - rewrite decide_True by done. destruct (rearm_spec now h m t ws pool x nd xs Hfi) as (m' & ws' & ys & E & H').
    by exists m', t, ws', pool, ys.
Qed.
Lemma rearmed_cons now x due : rearmed code now (x :: due) = rearmed code now [x] ++ rearmed code now due.
Proof. unfold rearmed. cbn [filter list_filter]. case_decide; done. Qed.

(** The head of the first list as the loop sees it. *)
Lemma firing_next now h m t ws pool xs c :
  firing now h m t ws pool xs -> head ((fst <$> xs) ++ [h]) = Some c ->
  list_next_elem m (list_elem h) = Some (list_elem c) /\ 0 < h.
Proof.
  intros (H & _ & H0) Hc. pose proof (mr_lists _ _ _ _ _ (tr_mem _ _ _ _ _ _ H) 0 h xs H0) as Hr.
  assert (0 < h) as Hh by (apply (lr_pos m h _ h Hr); by left).
  destruct (rep_neighbours m h [] (cells xs) h c Hr) as (Hnx & _); [done|by rewrite fst_cells|].
  by rewrite next_elem_of, Hnx.
Qed.

(** One round of the loop, on a timer that is due: call, then settle. *)
Lemma fire_step now h m t ws pool x nd xs calls :
  firing now h m t ws pool ((x, nd) :: xs) -> due_by now (x, nd) ->
  exists n0 m' t' ws' pool' ys c new, (forall fuel n, (n0 <= fuel)%nat ->
      fire_loop cb malloc fuel (S n) m t (list_elem h) (list_elem x) calls =
      fire_loop cb malloc fuel n m' t' (list_elem h) (list_elem c) (calls ++ [call_of code (x, nd)])) /\
    firing now h m' t' ws' pool' ys /\ head ((fst <$> ys) ++ [h]) = Some c /\ upto now ys = upto now xs /\
    timers ws' ++ [(x, nd)] ≡ₚ timers ws ++ new ++ rearmed code now [(x, nd)] /\ Forall (fun x => ~ due_by now x) new /\
    (adding = false -> new = []).
Proof.
  intros Hfi Hdue. destruct (firing_first _ _ _ _ _ _ _ _ _ Hfi) as (Hx & Hh & Hxh & Hnd & Hd & Hprev).
  pose proof Hfi as (H & Hc & H0).
  destruct (Hcb (run nd) (list_elem x) (arg nd) m t ws pool H) as (m1 & t1 & ws1 & pool1 & new & Ecb & H1 & Hc1 & Hg & Hquiet).
  rewrite Hc in Hg, Hc1. destruct (grows_upto now ws ws1 new h _ Hg H0) as (xs1 & H01 & Hu1).
  destruct (grows_timers now ws ws1 new Hg) as [Hp1 Hnew]. cbn [upto] in Hu1. rewrite decide_True in Hu1 by done.
  destruct xs1 as [|d xs1]; [done|]. cbn [upto] in Hu1. case_decide; [|done]. injection Hu1 as -> Hu1.
  destruct (settle_spec now h m1 t1 ws1 pool1 x nd xs1 _ (conj H1 (conj Hc1 H01)) eq_refl)
    as (m2 & t2 & ws2 & pool2 & ys & E2 & Hfi2 & Hu2 & Hp2).
  destruct (head_or h (fst <$> ys)) as [c Hhd]. destruct (firing_next _ _ _ _ _ _ _ _ Hfi2 Hhd) as [Hnext _].
  exists (S (length (timers ws1))), m2, t2, ws2, pool2, ys, c, new. split; [|split; [done|split; [done|split; [congruence|split; [|by split]]]]].
  - intros fuel n Hf. cbn [fire_loop]. rewrite elem_nonzero, elem_eqb, (proj2 (Z.eqb_neq x h)) by done. cbn [negb andb].
    rewrite (get_trig_enc m x nd Hd Hnd), Hc. cbn [mbind option_bind].
    pose proof (tr_time _ _ _ _ _ _ H) as Ht. unfold time_ok in Ht. rewrite (u8_id now) by (unfold is_u8, U8_MOD; lia).
    rewrite (proj2 (Z.ltb_ge now (trig nd))) by exact Hdue.
    unfold list_prev_elem. rewrite elem_node, (proj2 (Z.eqb_neq x 0)), Hprev by lia. cbn [negb mbind option_bind].
    rewrite (get_run_enc m x nd Hd Hnd), (get_arg_enc m x nd Hd Hnd). cbn [mbind option_bind]. rewrite Ecb.
    cbn [mbind option_bind]. specialize (E2 fuel ltac:(lia)). apply bind_Some in E2 as (ty & -> & E2).
    cbn [mbind option_bind]. rewrite E2. cbn [mbind option_bind]. rewrite Hnext. done.
  - by rewrite Hp2, Hp1, <- app_assoc.
Qed.

(** The timers that are due are run in order, and nothing else. *)
Lemma fire_loop_spec now h due : forall m t ws pool xs calls c,
  firing now h m t ws pool xs -> upto now xs = due -> head ((fst <$> xs) ++ [h]) = Some c ->
  exists n0 m' t' ws' pool' new, (forall fuel n, (n0 <= fuel)%nat -> (length due < n)%nat ->
      fire_loop cb malloc fuel n m t (list_elem h) (list_elem c) calls = Some (calls ++ (call_of code <$> due), m', t')) /\
    timer_rep user m' frame t' ws' pool' /\ clock t' = now /\
    timers ws' ++ due ≡ₚ timers ws ++ rearmed code now due ++ new /\ Forall (fun x => ~ due_by now x) new /\
    (adding = false -> new = []).
Proof.
  induction due as [|d due IH]; intros m t ws pool xs calls c Hfi Hu Hc.
  - exists 0%nat, m, t, ws, pool, []. split.
    + intros fuel [|n] _ Hn; [cbn in Hn; lia|]. cbn [fire_loop fmap list_fmap]. rewrite app_nil_r.
      destruct xs as [|[x nd] xs]; [injection Hc as <-; by rewrite Z.eqb_refl, andb_false_r|]. injection Hc as <-.
      destruct (firing_first _ _ _ _ _ _ _ _ _ Hfi) as (Hx & Hh & Hxh & Hnd & Hd & _). cbn [upto] in Hu. cbn [fst].
      case_decide as Hdue; [done|]. unfold due_by in Hdue. cbn [snd] in Hdue. destruct Hfi as (H & Hck & _).
      rewrite elem_nonzero, elem_eqb, (proj2 (Z.eqb_neq x h)) by done. cbn [negb andb].
      rewrite (get_trig_enc m x nd Hd Hnd), Hck. cbn [mbind option_bind].
      pose proof (tr_time _ _ _ _ _ _ H) as Ht. unfold time_ok in Ht. rewrite (u8_id now) by (unfold is_u8, U8_MOD; lia).
      by rewrite (proj2 (Z.ltb_lt now (trig nd))) by lia.
    + destruct Hfi as (H & Hck & _). split; [done|]. split; [done|]. by rewrite !app_nil_r.
  - destruct xs as [|[x nd] xs]; [done|]. cbn [upto] in Hu. case_decide as Hdue; [|done]. injection Hu as <- Hu. injection Hc as <-.
    destruct (fire_step now h m t ws pool x nd xs calls Hfi Hdue) as (n1 & m1 & t1 & ws1 & pool1 & ys & c1 & new1 & E1 & Hfi1 & Hc1 & Hu1 & Hp1 & Hn1 & Hq1).
    destruct (IH m1 t1 ws1 pool1 ys (calls ++ [call_of code (x, nd)]) c1 Hfi1 ltac:(congruence) Hc1)
      as (n2 & m2 & t2 & ws2 & pool2 & new2 & E2 & H2 & Hck2 & Hp2 & Hn2 & Hq2).
    exists (n1 `max` n2)%nat, m2, t2, ws2, pool2, (new1 ++ new2). split; [|split; [done|split; [done|split; [|split]]]].
    + intros fuel [|n] Hf Hn; [cbn in Hn; lia|]. cbn [fst]. rewrite E1 by lia. rewrite E2 by (cbn in Hn; lia). cbn [fmap list_fmap].
      by rewrite <- app_assoc.
    + rewrite rearmed_cons. change ((x, nd) :: due) with ([(x, nd)] ++ due). rewrite (Permutation_app_comm [(x, nd)]), app_assoc, Hp2.
      transitivity ((timers ws1 ++ [(x, nd)]) ++ rearmed code now due ++ new2); [solve_Permutation|]. rewrite Hp1. solve_Permutation.
    + apply Forall_app. by split.
    + intros Ha. by rewrite Hq1, Hq2.
Qed.
End Fire.

(** ** The client's operations *)

Lemma next_late user m frame t ws pool k h xs x :
  timer_rep user m frame t ws pool -> ws !! S k = Some (h, xs) -> x ∈ xs -> clock t < trig (snd x).
Proof.
  intros H Hk Hx. pose proof (tr_wheel _ _ _ _ _ _ H) as Hw.
  pose proof (wo_level _ _ Hw (S k) h xs Hk ltac:(lia)) as Hl. rewrite Forall_forall in Hl. specialize (Hl x Hx).
  apply lookup_lt_Some in Hk. rewrite (wo_len _ _ Hw) in Hk. unfold MAX_TIMER_LEVEL in Hk.
  pose proof (phase_bounds (hand t) (S k) (tr_hand _ _ _ _ _ _ H) ltac:(lia)). unfold boundary in Hl. lia.
Qed.

Lemma filter_all (P : tnode -> Prop) `{!forall x, Decision (P x)} l : Forall P l -> filter P l = l.
Proof. induction 1 as [|x l Hx _ IH]; [done|]. rewrite filter_cons_True by done. by rewrite IH. Qed.
Lemma filter_none (P : tnode -> Prop) `{!forall x, Decision (P x)} l : Forall (fun x => ~ P x) l -> filter P l = [].
Proof. induction 1 as [|x l Hx _ IH]; [done|]. rewrite filter_cons_False by done. done. Qed.

(** The timers that are due are at the front of the first list. *)
Lemma due_front user m frame t ws pool h xs :
  timer_rep user m frame t ws pool -> ws !! 0%nat = Some (h, xs) ->
  filter (due_by (clock t)) (timers ws) = upto (clock t) xs /\ sorted (upto (clock t) xs).
Proof.
  intros H H0. pose proof (wo_sorted _ _ (tr_wheel _ _ _ _ _ _ H) 0 h xs H0) as Hs.
  destruct ws as [|[h' ys] ws']; [done|]. injection H0 as -> ->.
  assert (Forall (fun x => ~ due_by (clock t) x) (timers ws')) as Hlate.
  { apply Forall_forall. intros x (k & ys & Hk & Hx)%elem_of_concat. rewrite list_lookup_fmap in Hk.
    destruct (ws' !! k) as [[h2 zs]|] eqn:E; [|done]. injection Hk as <-. unfold due_by.
    pose proof (next_late user m frame t _ pool k h2 zs x H E Hx). lia. }
  split.
  - unfold timers in *. cbn [fmap list_fmap snd concat]. rewrite filter_app, (filter_none _ (concat _)) by done. rewrite app_nil_r.
    rewrite <- (upto_from (clock t) xs) at 1. rewrite filter_app, (filter_none _ (from _ _)) by (by apply from_late).
    rewrite app_nil_r. apply filter_all, upto_due.
  - rewrite <- (upto_from (clock t) xs) in Hs. by apply sorted_app in Hs as [? _].
Qed.

Lemma split_due now (l : list tnode) : l ≡ₚ filter (due_by now) l ++ filter (fun x => ~ due_by now x) l.
Proof.
  induction l as [|x l IH]; [done|]. destruct (decide (due_by now x)).
  - rewrite filter_cons_True, filter_cons_False by tauto. cbn. by rewrite <- IH.
  - rewrite filter_cons_False, filter_cons_True by tauto. rewrite <- Permutation_middle. by rewrite <- IH.
Qed.

(** The whole of [timer_loop], 10 ms or more after the last time. *)
Lemma loop_spec user frame malloc cb code adding m t ws pool time :
  callback_ok user frame cb code adding -> timer_rep user m frame t ws pool ->
  clock t + 10 <= Z.quot time 1000 < clock t + 2 ^ 32 -> Z.quot time 1000 < 2 ^ 61 ->
  exists n0 due m' t' ws' pool' new,
    (forall fuel, (n0 <= fuel)%nat ->
       timer_loop cb malloc fuel m (Some t) time = Some (0, call_of code <$> due, m', Some t')) /\
    due ≡ₚ filter (due_by (Z.quot time 1000)) (timers ws) /\ sorted due /\
    timers ws' ≡ₚ filter (fun x => ~ due_by (Z.quot time 1000) x) (timers ws) ++ rearmed code (Z.quot time 1000) due ++ new /\
    Forall (fun x => ~ due_by (Z.quot time 1000) x) new /\ (adding = false -> new = []) /\
    timer_rep user m' frame t' ws' pool' /\ clock t' = Z.quot time 1000.
Proof.
  intros Hcb H Hn Hb. pose proof (tr_time _ _ _ _ _ _ H) as Hc. unfold time_ok in Hc.
  destruct (timer_update_spec user frame malloc m t ws pool time H Hn ltac:(split; lia)) as (m1 & t1 & ws1 & E1 & H1 & Hc1 & Hp1).
  set (now := Z.quot time 1000) in *.
  destruct (lookup_lt_is_Some_2 ws1 0) as [[h xs] H0]; [rewrite (wo_len _ _ (tr_wheel _ _ _ _ _ _ H1)); unfold MAX_TIMER_LEVEL; lia|].
  destruct (head_or h (fst <$> xs)) as [c Hhd].
  assert (firing user frame now h m1 t1 ws1 pool xs) as Hfi by done.
  destruct (firing_next user frame now h m1 t1 ws1 pool xs c Hfi Hhd) as [Hnext _].
  destruct (fire_loop_spec user frame malloc cb code adding Hcb now h (upto now xs) m1 t1 ws1 pool xs [] c Hfi eq_refl Hhd)
    as (n0 & m' & t' & ws' & pool' & new & E & H' & Hc' & Hp & Hnew & Hq).
  destruct (due_front user m1 frame t1 ws1 pool h xs H1 H0) as [Hdue Hs]. rewrite Hc1 in Hdue, Hs.
  assert (upto now xs ≡ₚ filter (due_by now) (timers ws)) as Hd by (rewrite <- Hdue; by rewrite Hp1).
  exists (n0 `max` (S (length (timers ws)) `max` S (length (upto now xs))))%nat, (upto now xs), m', t', ws', pool', new.
  split; [|split; [done|split; [done|split; [|done]]]].
  - intros fuel Hf. unfold timer_loop. rewrite (tr_size _ _ _ _ _ _ H), (proj2 (Z.eqb_neq (clock t) 0)) by lia. cbn [orb Z.eqb].
    rewrite E1 by lia. cbn [mbind option_bind Z.eqb negb]. rewrite (tr_lists _ _ _ _ _ _ H1), list_lookup_fmap, H0.
    cbn [fmap option_fmap option_map fst mbind option_bind]. rewrite Hnext. cbn [mbind option_bind].
    rewrite E by lia. done.
  - apply (Permutation_app_inv_r (upto now xs)). rewrite Hp, Hp1.
    rewrite (split_due now (timers ws)) at 1. rewrite <- Hd. solve_Permutation.
Qed.

(** Too early, nothing is run. *)
Lemma loop_early user frame malloc cb fuel m t ws pool time :
  timer_rep user m frame t ws pool -> clock t <= Z.quot time 1000 < clock t + 10 ->
  timer_loop cb malloc fuel m (Some t) time = Some (0, [], m, Some t).
Proof.
  intros H Hn. pose proof (tr_time _ _ _ _ _ _ H) as Hc. unfold timer_loop.
  rewrite (tr_size _ _ _ _ _ _ H), (proj2 (Z.eqb_neq (clock t) 0)) by (unfold time_ok in Hc; lia). cbn [orb Z.eqb].
  by rewrite update_early.
Qed.

End TimerSpec.
