(* ===== verification/LiskTimerRun.v ===== *)
(** * A client of the timer wheel

    Adding and deleting timers, the life of a wheel from init to uninit, and the
    account a client keeps of its timers, against which the wheel is on time. *)

From Stdlib Require Import Sorted.
From S2P Require Import Prelude LiskMath LiskRing LiskList LiskTimer LiskTimerRep LiskTimerSpec.

Module TimerRun.
Import Math DList Timer TimerRep TimerSpec.

(** ** Adding and deleting *)

Definition key_ok (k : timer_key_t) : Prop :=
  is_u4 (k_type k) /\ MIN_EXPIRE <= k_expire k <= MAX_EXPIRE /\ is_u8 (k_arg k) /\ is_u8 (k_func k) /\ k_func k <> 0.

(** The timer of a key added at time [c]. *)
Definition node_of (k : timer_key_t) (c : Z) : lisk_timer_node_t :=
  mk_tnode (c + k_expire k) (k_type k) (k_expire k) (k_arg k) (k_func k).

Lemma node_of_ok k c a : key_ok k -> time_ok c -> timer_ok (a, node_of k c).
Proof.
  intros (Ht & He & Ha & Hf & _) Hc. unfold time_ok, MIN_EXPIRE, MAX_EXPIRE in *. split; [|split; [cbn; lia|done]].
  split; cbn; try done; unfold is_u8, is_u4, U8_MOD, U4_MOD; lia.
Qed.

Section Ops.
Context (user : lmem) (frame : Z) (malloc : alloc_fun) (m : lmem) (t : lisk_timer_t) (ws : wheel) (pool : list Z).
Context (H : timer_rep user m frame t ws pool).

Lemma node_addr k h xs x : ws !! k = Some (h, xs) -> x ∈ xs -> 0 < fst x < 2 ^ 47.
Proof.
  intros Hk Hx. pose proof (mr_lists _ _ _ _ _ (tr_mem _ _ _ _ _ _ H) k h xs Hk) as Hr.
  apply (lr_pos m h _ _ Hr). right. rewrite fst_cells. apply list_elem_of_fmap. by exists x.
Qed.

(** The new timer goes to the list of its level, in its place. *)
Lemma add_spec key :
  alloc_ok malloc -> key_ok key ->
  (exists a m' t' k h xs pool', ws !! k = Some (h, xs) /\
     (forall fuel, (length (timers ws) < fuel)%nat ->
        timer_add malloc fuel frame m (Some t) (Some key) = Some (0, Some (list_elem a), m', Some t')) /\
     timer_rep user m' frame t' (<[k := (h, place (a, node_of key (clock t)) xs)]> ws) pool' /\
     same_clock t t' /\ 0 < a) \/
  (pool = [] /\ exists m' t', malloc m' 48 = None /\
     (forall fuel, (length (timers ws) < fuel)%nat ->
        timer_add malloc fuel frame m (Some t) (Some key) = Some (-2, None, m', Some t')) /\
     timer_rep user m' frame t' ws pool /\ same_clock t t').
Proof.
  intros Hmal Hkey. pose proof Hkey as (Hty & He & Ha & Hfu & Hf0). pose proof (tr_time _ _ _ _ _ _ H) as Hc. pose proof Hc as Hc'.
  unfold time_ok, MIN_EXPIRE, MAX_EXPIRE in *. set (nd := node_of key (clock t)).
  destruct (mem_put_frame user m frame ws pool (tr_mem _ _ _ _ _ _ H) nd) as (m1 & Eput & Hm1 & Hd & _).
  assert (timer_rep user m1 frame t ws pool) as H1 by (by apply (rep_change user m m1 frame t t ws ws pool pool); [..|apply H|apply H]).
  pose proof (node_of_ok key (clock t) 0 Hkey Hc) as Hok. fold nd in Hok.
  destruct (level_of_spec (trig nd) (clock t) Hc ltac:(cbn; lia)) as (Hlv & Hge & _). set (k := level_of (trig nd) (clock t)) in *.
  destruct (lookup_lt_is_Some_2 ws k) as [[h xs] Hk]; [rewrite (wo_len _ _ (tr_wheel _ _ _ _ _ _ H)); unfold MAX_TIMER_LEVEL; lia|].
  assert ((1 <= k)%nat -> boundary (clock t) (hand t) k <= trig nd) as Hb.
  { intros Hk1. specialize (Hge ltac:(lia)). pose proof (phase_bounds (hand t) k (tr_hand _ _ _ _ _ _ H) ltac:(lia)). unfold boundary. lia. }
  pose proof (insert_timer user frame malloc Hmal m1 t ws pool H1 k h xs nd Hk Hd Hok Hb) as Hadd.
  destruct (mr_frame _ _ _ _ _ Hm1) as (Hfr & _).
  assert (forall fuel, timer_add malloc fuel frame m (Some t) (Some key) =
    '(ret, id, m, t) ← timer_list_insert malloc fuel m1 t (list_elem h) (list_elem frame) 0;
    Some (if negb ((if negb (ret =? 0) then -2 else 0) =? 0) then -2 else 0, id, m, Some t)) as Hgo.
  { intros fuel. unfold timer_add, timer_ins_node. unfold MIN_EXPIRE, MAX_EXPIRE.
    rewrite (proj2 (Z.ltb_ge (k_expire key) _)), (proj2 (Z.ltb_ge _ (k_expire key))) by lia. cbn [orb].
    rewrite (proj2 (Z.eqb_neq (k_func key) 0)) by done. rewrite (tr_size _ _ _ _ _ _ H). cbn [Z.eqb].
    rewrite chk_n8_ok by lia. cbn [mbind option_bind]. rewrite (u8_id (clock t + k_expire key)) by (unfold is_u8, U8_MOD; lia).
    change (mk_tnode _ _ _ _ _) with nd. rewrite Eput. cbn [mbind option_bind]. rewrite elem_nonzero by done.
    rewrite (get_trig_enc m1 frame nd Hd (proj1 Hok)). cbn [mbind option_bind]. fold k.
    rewrite (tr_lists _ _ _ _ _ _ H), list_lookup_fmap, Hk. cbn [fmap option_fmap option_map fst mbind option_bind].
    by destruct (timer_list_insert _ _ _ _ _ _ _) as [[[[ret id] m2] t2]|]. }
  pose proof (list_len ws k h xs Hk) as Hlen.
  destruct Hadd as [(a & m' & t' & pool' & E & H' & Hsc & Ha0 & _)|(Hfail & Hpool & t' & E & H' & Hsc)]; [left|right].
  - exists a, m', t', k, h, xs, pool'. split; [done|]. split; [|done]. intros fuel Hf. by rewrite Hgo, E by lia.
  - split; [done|]. exists m1, t'. split; [done|]. split; [|done]. intros fuel Hf. by rewrite Hgo, E by lia.
Qed.

Lemma del_spec k h x1 x x2 :
  ws !! k = Some (h, x1 ++ x :: x2) ->
  exists m' t' pool', timer_del m (Some t) (list_elem (fst x)) = Some (0, m', Some t') /\ same_clock t t' /\
    timer_rep user m' frame t' (<[k := (h, x1 ++ x2)]> ws) pool'.
Proof.
  intros Hk. pose proof (node_addr k h _ x Hk ltac:(apply elem_of_app; right; by left)) as Ha. destruct x as [x nd]. cbn [fst] in *.
  assert (0 <> list_elem x) as Hx by (unfold list_elem, sizeof_list_node_t; lia).
  destruct (del_node_spec user frame m t ws pool k h x1 x nd x2 0 H Hk Hx) as (m' & t' & pool' & E & Hsc & H').
  exists m', t', pool'. split; [|done]. unfold timer_del. rewrite elem_nonzero by lia. by rewrite E.
Qed.
End Ops.

(** ** Callbacks *)

(** A callback that leaves the timer alone. *)
Definition quiet (cb : timer_func) (code : Z -> Z -> Z -> Z) : Prop :=
  forall f b id a m t, cb f b id a m t = Some (code f id a, m, t).

Lemma quiet_ok user frame cb code : quiet cb code -> callback_ok user frame cb code false.
Proof.
  intros Hq f id a m t ws pool H. exists m, t, ws, pool, []. rewrite Hq. split; [done|]. split; [done|]. split; [done|].
  split; [constructor|done].
Qed.

(** One that adds a timer each time; the memory bounds the lists it walks. *)
Definition cb_adding (malloc : alloc_fun) (frame : Z) (key : timer_key_t) (code : Z -> Z -> Z -> Z) : timer_func :=
  fun f _ id a m t => '(_, _, m, t) ← timer_add malloc (S (base.size m)) frame m (Some t) (Some key); t ← t; Some (code f id a, m, t).

Lemma nodes_size user m frame ws pool : mem_rep user m frame ws pool -> (length (timers ws) <= base.size m)%nat.
Proof.
  intros Hm. pose proof (mr_nodup _ _ _ _ _ Hm) as [_ Hnd]%NoDup_cons.
  assert (forall b, b ∈ nodes ws pool -> b ∈ dom m) as Hlive.
  { intros b Hb. apply elem_of_dom. apply (node_live user m frame ws pool Hm). by right. }
  assert (base.size (list_to_set (nodes ws pool) : gset Z) = length (nodes ws pool)) as Hs by (by apply size_list_to_set).
  assert ((list_to_set (nodes ws pool) : gset Z) ⊆ dom m) as Hsub by (intros b Hb; apply Hlive; by apply elem_of_list_to_set in Hb).
  apply subseteq_size in Hsub. rewrite size_dom, Hs in Hsub. etransitivity; [|exact Hsub].
  unfold nodes, timers. rewrite length_app. clear. induction ws as [|[h xs] ws IH]; [cbn; lia|].
  change (length (xs ++ concat (snd <$> ws)) <= length ((h :: (fst <$> xs)) ++ concat (seg <$> ws)) + length pool)%nat.
  rewrite !length_app. cbn [length]. rewrite length_fmap. lia.
Qed.

Lemma cb_adding_ok user frame malloc key code :
  alloc_ok malloc -> key_ok key -> callback_ok user frame (cb_adding malloc frame key code) code true.
Proof.
  intros Hmal Hkey f id a m t ws pool H. unfold cb_adding.
  pose proof (nodes_size user m frame ws pool (tr_mem _ _ _ _ _ _ H)) as Hsz.
  destruct (add_spec user frame malloc m t ws pool H key Hmal Hkey)
    as [(b & m' & t' & k & h & xs & pool' & Hk & E & H' & (Hc & _) & _)|(_ & m' & t' & _ & E & H' & (Hc & _))];
    rewrite E by lia; cbn [mbind option_bind].
  - exists m', t', (<[k := (h, place (b, node_of key (clock t)) xs)]> ws), pool', [(b, node_of key (clock t))].
    split; [done|]. split; [done|]. split; [done|]. split; [|done].
    apply (grows_add (clock t) ws ws [] k h xs (b, node_of key (clock t))); [constructor|done|].
    destruct Hkey as (_ & He & _). unfold MIN_EXPIRE in He. cbn. lia.
  - exists m', t', ws, pool, []. split; [done|]. split; [done|]. split; [done|]. split; [constructor|done].
Qed.

(** ** From init to uninit *)

Section Init.
Context (malloc : alloc_fun) (Hmal : alloc_ok malloc) (user : lmem) (frame : Z) (Hframe : frame_ok user frame).

Definition fresh_wheel (ws : wheel) : Prop := Forall (fun l => snd l = []) ws.

Lemma fresh_timers ws : fresh_wheel ws -> timers ws = [].
Proof. unfold timers. induction 1 as [|[h xs] ws Hx _ IH]; [done|]. cbn in *. by rewrite Hx, IH. Qed.

(** One list more. *)
Lemma init_list_step m ws :
  mem_rep user m frame ws [] -> fresh_wheel ws ->
  (malloc m 24 = None /\ list_init malloc m (Some 0) = Some (-2, m, Some 0)) \/
  exists h m', list_init malloc m (Some 0) = Some (0, m', Some (list_elem h)) /\ mem_rep user m' frame (ws ++ [(h, [])]) [].
Proof.
  intros Hm Hf. destruct (list_init_spec malloc m 0 Hmal) as [?|(h & m' & E & Hr & Hh & Hs)]; [by left|right].
  exists h, m'. split; [done|]. pose proof (fresh_notin user m frame ws [] Hm h Hh) as Hn. rewrite not_elem_of_cons in Hn. destruct Hn as [Hhf Hn].
  assert (nodes (ws ++ [(h, [])]) [] ≡ₚ h :: nodes ws []) as Hp.
  { unfold nodes. rewrite fmap_app, concat_app, !app_nil_r. cbn. by rewrite <- Permutation_cons_append. }
  apply (mem_change user m m' frame ws _ [] [] [h] Hm Hs).
  - apply (frame_same user m m' frame ws [] [h] Hm Hs). by intros ->%list_elem_of_singleton.
  - intros b ->%list_elem_of_singleton. by right.
  - intros b. rewrite Hp. intros [->|?]%elem_of_cons; auto.
  - intros b Hb. rewrite Hp, not_elem_of_cons. intros [Hbh Hbn]. destruct Hb as [?|?%list_elem_of_singleton]; done.
  - rewrite Hp. pose proof (mr_nodup _ _ _ _ _ Hm) as [Hnf Hnd]%NoDup_cons. apply NoDup_cons.
    split; [rewrite not_elem_of_cons; by split; [congruence|]|by apply NoDup_cons].
  - intros i h' xs [Hi|[_ Hi]]%lookup_app_Some.
    + apply (other_list user m m' frame ws [] [h] Hm Hs i h' xs Hi). intros b ->%list_elem_of_singleton Hb.
      by apply Hn, (seg_nodes ws [] i h' xs h Hi).
    + destruct (i - length ws)%nat; [|done]. injection Hi as <- <-. done.
  - constructor.
Qed.

Lemma init_lists_spec n : forall m ws,
  mem_rep user m frame ws [] -> fresh_wheel ws ->
  exists ok m' ws', init_lists malloc n m ((fun l => list_elem (fst l)) <$> ws) =
      Some (ok, m', (fun l => list_elem (fst l)) <$> ws') /\
    mem_rep user m' frame ws' [] /\ fresh_wheel ws' /\ (ok = true -> length ws' = (n + length ws)%nat).
Proof.
  induction n as [|n IH]; intros m ws Hm Hf; cbn [init_lists]; [by exists true, m, ws|].
  destruct (init_list_step m ws Hm Hf) as [[_ ->]|(h & m' & -> & Hm')]; cbn [mbind option_bind Z.eqb negb].
  - by exists false, m, ws.
  - destruct (IH m' (ws ++ [(h, [])]) Hm') as (ok & m2 & ws2 & E & Hm2 & Hf2 & Hl2).
    { apply Forall_app. split; [done|]. by constructor. }
    rewrite fmap_app in E. cbn in E. exists ok, m2, ws2. split; [exact E|]. split; [done|]. split; [done|].
    intros Hok. rewrite (Hl2 Hok), length_app. cbn. lia.
Qed.
End Init.

(** The first list goes, with its nodes. *)
Lemma mem_drop_list user m frame h xs ws pool fuel :
  mem_rep user m frame ((h, xs) :: ws) pool -> (length xs < fuel)%nat ->
  exists m', list_uninit fuel m (Some (list_elem h)) = Some (m', Some 0) /\ mem_rep user m' frame ws pool.
Proof.
  intros Hm Hf. pose proof (mr_nodup _ _ _ _ _ Hm) as Hnd.
  destruct (list_uninit_spec m h (cells xs) fuel (mr_lists _ _ _ _ _ Hm 0 h xs eq_refl)) as (m' & E & Hs & Hfree).
  { unfold cells. by rewrite length_fmap. }
  rewrite fst_cells in Hs, Hfree. exists m'. split; [done|].
  assert (nodes ((h, xs) :: ws) pool = (h :: (fst <$> xs)) ++ nodes ws pool) as Hn.
  { unfold nodes. change (seg <$> (h, xs) :: ws) with (seg (h, xs) :: (seg <$> ws)). cbn [concat]. by rewrite <- app_assoc. }
  rewrite Hn in Hnd. apply NoDup_cons in Hnd as [Hfr Hnd]. rewrite not_elem_of_app in Hfr. destruct Hfr as [Hfr1 Hfr2].
  apply NoDup_app in Hnd as (_ & Hdis & Hnd).
  apply (mem_change user m m' frame _ ws pool pool _ Hm Hs).
  - by apply (frame_same user m m' frame _ pool _ Hm Hs).
  - intros b Hb. left. rewrite Hn. apply elem_of_app. by left.
  - intros b Hb. left. rewrite Hn. apply elem_of_app. by right.
  - intros b Hb Hb'. apply Hfree. rewrite Hn in Hb. destruct Hb as [[?|?]%elem_of_app|?]; done.
  - by apply NoDup_cons.
  - intros i h' ys Hi. apply (other_list user m m' frame _ pool _ Hm Hs (S i) h' ys Hi). intros b Hb Hb'.
    apply (Hdis b Hb). by apply (seg_nodes ws pool i h' ys b Hi).
  - apply (other_pool user m m' frame _ pool _ Hm Hs). intros b Hb Hb'. apply (Hdis b Hb), elem_of_app. by right.
Qed.

(** What is left of the wheel's memory when all is freed: the local node. *)
Definition restored (user m : lmem) (frame : Z) : Prop := forall b, b <> frame -> m !! b = user !! b.

Lemma mem_done user m frame : mem_rep user m frame [] [] -> restored user m frame.
Proof. intros Hm b Hb. apply (mr_user _ _ _ _ _ Hm). cbn. rewrite not_elem_of_cons. split; [done|]. by intros ?%elem_of_nil. Qed.

Lemma uninit_lists_spec user frame fuel ws : forall m,
  mem_rep user m frame ws [] -> fresh_wheel ws -> (0 < fuel)%nat ->
  exists m', uninit_lists fuel m ((fun l => list_elem (fst l)) <$> ws) = Some m' /\ restored user m' frame.
Proof.
  induction ws as [|[h xs] ws IH]; intros m Hm Hf Hfu; [exists m; split; [done|by apply mem_done]|].
  apply Forall_cons in Hf as [Hx Hf]. cbn in Hx. subst xs.
  destruct (mem_drop_list user m frame h [] ws [] fuel Hm Hfu) as (m1 & E & Hm1).
  change (uninit_lists fuel m ((fun l => list_elem (fst l)) <$> (h, []) :: ws))
    with ('(m, _) ← list_uninit fuel m (Some (list_elem h)); uninit_lists fuel m ((fun l : Z * list tnode => list_elem (fst l)) <$> ws)).
  rewrite E. cbn [mbind option_bind]. by apply IH.
Qed.

(** Init gives an empty wheel, or gives the memory back. *)
Lemma timer_init_spec ring_malloc malloc user frame time :
  malloc_ok ring_malloc -> alloc_ok malloc -> frame_ok user frame -> time_ok (Z.quot time 1000) ->
  (forall fuel, (0 < fuel)%nat -> exists m', timer_init ring_malloc malloc fuel user false time = Some (-2, m', None) /\
     restored user m' frame) \/
  exists m t ws, timer_rep user m frame t ws [] /\ timers ws = [] /\ clock t = Z.quot time 1000 /\
    forall fuel, timer_init ring_malloc malloc fuel user false time = Some (0, m, Some t).
Proof.
  intros Hrm Hmal Hfr Ht.
  assert (exists r, ring_holds r [] /\
    (let '(ret, r) := Ring.ring_init ring_malloc false (Z.shiftl 1 10) 8 in
     let r := if negb (ret =? 0) then None else r in Ring.ring_set_type r Ring.RING_SP_SC).2 = r) as (r & Hr & Er).
  { change (Z.shiftl 1 10) with 1024. destruct (ring_malloc (Ring.sizeof_header + 8 * 1024)) as [b|] eqn:Eb.
    - destruct (Ring.init_spec ring_malloc 1024 8 b Ring.RING_SP_SC Hrm) as (r & -> & Es & Hrep & _ & Hu); [|by left|done|].
      { split; [exists 10; split; [lia|reflexivity]|unfold U4_MOD; lia]. }
      exists (Some (Ring.with_type r Ring.RING_SP_SC)). cbn [Z.eqb negb]. rewrite Es. by split.
    - exists None. split; [done|]. unfold Ring.ring_init. cbn [orb Z.eqb Z.land u4 negb].
      change (u8 (Ring.sizeof_header + u8 (8 * 1024))) with (Ring.sizeof_header + 8 * 1024). by rewrite Eb. }
  assert (mem_rep user user frame [] []) as Hm.
  { constructor; [by intros i h xs [=]|constructor|apply NoDup_singleton|done|done|by intros b ?%elem_of_nil]. }
  destruct (init_lists_spec malloc Hmal user frame Hfr MAX_TIMER_LEVEL user [] Hm ltac:(constructor))
    as (ok & m' & ws & E & Hm' & Hfw & Hlen).
  assert (forall fuel, timer_init ring_malloc malloc fuel user false time =
    if ok then Some (0, m', Some (mk_timer (Z.quot time 1000) (replicate MAX_TIMER_LEVEL 0)
        (Z.of_nat (length ((fun l => list_elem (fst l)) <$> ws))) ((fun l => list_elem (fst l)) <$> ws) 0 r))
    else m ← uninit_lists fuel m' ((fun l => list_elem (fst l)) <$> ws); Some (-2, m, None)) as Hgo.
  { intros fuel. unfold timer_init. destruct (Ring.ring_init _ _ _ _) as [ret r0]. destruct (Ring.ring_set_type _ _) as [ret' r1].
    cbn [snd] in Er. subst r1. change [] with ((fun l : Z * list tnode => list_elem (fst l)) <$> []). rewrite E. done. }
  destruct ok; [right|left].
  - pose proof (Hlen eq_refl) as Hl. cbn in Hl. eexists m', _, ws. split; [|split; [by apply fresh_timers|split; [|exact Hgo]]]; [|done].
    constructor; [done|done| |done|done| |].
    + cbn [Timer.size]. by rewrite length_fmap, Hl.
    + cbn [hand]. repeat constructor; lia.
    + assert (forall k h xs, ws !! k = Some (h, xs) -> xs = []) as Hnil.
      { intros k h xs Hk. unfold fresh_wheel in Hfw. rewrite Forall_forall in Hfw. by apply (Hfw (h, xs)), (list_elem_of_lookup_2 _ k). }
      constructor; [done|..]; intros k h xs Hk; rewrite (Hnil k h xs Hk); constructor.
  - intros fuel Hf. rewrite Hgo. destruct (uninit_lists_spec user frame fuel ws m' Hm' Hfw Hf) as (m2 & -> & Hres).
    cbn [mbind option_bind]. by exists m2.
Qed.

(** The free nodes. *)
Lemma drain_spec user frame ws pool : forall m r n,
  mem_rep user m frame ws pool -> ring_holds r pool -> (length pool < n)%nat ->
  exists m', drain n m r = Some m' /\ mem_rep user m' frame ws [].
Proof.
  induction pool as [|a pool IH]; intros m r [|n] Hm Hr Hn; cbn in Hn; try lia; cbn [drain]; pose proof (pop_ring r _ Hr) as Hp.
  - destruct Hp as (ret & r' & -> & Hret & _). cbn [mbind option_bind]. rewrite (proj2 (Z.eqb_neq ret 0)) by done. by exists m.
  - destruct Hp as (r' & -> & Hr'). cbn [mbind option_bind Z.eqb negb default id].
    pose proof (mr_pool _ _ _ _ _ Hm) as Hrec. apply Forall_cons in Hrec as [Ha Hrec]. rewrite (addr_back m a Ha).
    destruct Ha as (d & Hma & _ & Ha). unfold list_erase. rewrite elem_nonzero, elem_node, (proj2 (Z.eqb_neq a 0)) by lia.
    rewrite (proj2 (Z.eqb_neq 0 (list_elem a))) by (unfold list_elem, sizeof_list_node_t; lia).
    unfold list_check_magic, list_elem_dealloc, list_node_dealloc. rewrite elem_node, Hma, (proj2 (Z.eqb_neq a 0)) by lia.
    cbn [mbind option_bind n_prev n_next]. rewrite !Z.eqb_refl. cbn [andb Z.eqb negb mbind option_bind].
    change (ELIST_ERASE_FULL =? ELIST_ERASE_FULL) with true. cbn match. rewrite ?Hma. cbn [mbind option_bind].
    apply IH; [|done|lia]. pose proof (mr_nodup _ _ _ _ _ Hm) as Hnd.
    assert (nodes ws (a :: pool) ≡ₚ a :: nodes ws pool) as Hperm by (unfold nodes; by rewrite Permutation_middle).
    rewrite Hperm in Hnd. apply NoDup_cons in Hnd as [Hf Hnd]. apply NoDup_cons in Hnd as [Han Hnd]. rewrite not_elem_of_cons in Hf.
    assert (same_off [a] m (delete a m)) as Hs.
    { intros b Hb. apply lookup_delete_ne. rewrite not_elem_of_cons in Hb. naive_solver. }
    apply (mem_change user m (delete a m) frame ws ws (a :: pool) pool [a] Hm Hs).
    + apply (frame_same user m _ frame ws _ [a] Hm Hs). rewrite not_elem_of_cons. split; [tauto|by intros ?%elem_of_nil].
    + intros b ->%list_elem_of_singleton. left. rewrite Hperm. by left.
    + intros b Hb. left. rewrite Hperm. by right.
    + intros b Hb Hb'. assert (b = a) as ->; [|apply lookup_delete_eq]. rewrite Hperm in Hb.
      destruct Hb as [[?|?]%elem_of_cons|?%list_elem_of_singleton]; done.
    + apply NoDup_cons. split; [tauto|done].
    + intros i h xs Hi. apply (other_list user m _ frame ws _ [a] Hm Hs i h xs Hi). intros b ->%list_elem_of_singleton Hb.
      by apply Han, (seg_nodes ws pool i h xs a Hi).
    + apply Forall_forall. intros b Hb. rewrite Forall_forall in Hrec. destruct (Hrec b Hb) as (e & He). exists e.
      rewrite lookup_delete_ne; [done|]. intros ->. apply Han, elem_of_app. by right.
Qed.

(** The callbacks of a list. *)
Lemma farewell_spec cb code m t h xs : quiet cb code -> list_rep m h (cells xs) -> Forall (fun x => node_ok (snd x)) xs ->
  forall xs2 xs1 n c calls, xs = xs1 ++ xs2 -> head ((fst <$> xs2) ++ [h]) = Some c -> (length xs2 < n)%nat ->
    farewell cb n m t (list_elem h) (list_elem c) calls = Some (calls ++ (call_of code <$> xs2), m, t).
Proof.
  intros Hq Hr Hok xs2. induction xs2 as [|[x nd] xs2 IH]; intros xs1 [|n] c calls Ex Hc Hn; cbn in Hn; try lia; cbn [farewell].
  - injection Hc as <-. rewrite Z.eqb_refl, andb_false_r. cbn. by rewrite app_nil_r.
  - injection Hc as <-. cbn [fst].
    assert (x ∈ h :: (fst <$> cells xs)) as Hx by (rewrite fst_cells, Ex; apply mid_in).
    pose proof (lr_pos m h _ x Hr Hx) as Hpos. rewrite elem_nonzero, elem_eqb by lia.
    assert (x =? h = false) as ->.
    { apply Z.eqb_neq. intros ->. pose proof (lr_ring _ _ _ Hr) as [[Hh _]%NoDup_cons _]. apply Hh.
      rewrite fst_cells, Ex, fmap_app. apply elem_of_app. right. by left. }
    cbn [negb andb].
    assert (get_data m x = Some (enc nd)) as Hd.
    { apply (lr_data _ _ _ Hr). rewrite Ex, cells_app. apply elem_of_app. right. by left. }
    assert (node_ok nd) as Hnd by (rewrite Ex, Forall_app, Forall_cons in Hok; tauto).
    rewrite (get_run_enc m x nd Hd Hnd), (get_arg_enc m x nd Hd Hnd). cbn [mbind option_bind]. rewrite Hq. cbn [mbind option_bind].
    destruct (head_or h (fst <$> xs2)) as [c Hc].
    assert (list_rep m h (cells (xs1 ++ [(x, nd)]) ++ cells xs2)) as Hr'.
    { rewrite <- cells_app. replace ((xs1 ++ [(x, nd)]) ++ xs2) with xs by (by rewrite Ex, <- app_assoc). done. }
    destruct (rep_neighbours m h _ _ x c Hr') as (Hnx & _).
    { rewrite fst_cells, fmap_app. exact (last_snoc x (h :: (fst <$> xs1))). }
    { by rewrite fst_cells. }
    rewrite next_elem_of, Hnx by lia. cbn [fmap option_fmap option_map mbind option_bind].
    rewrite (IH (xs1 ++ [(x, nd)]) n c); [|by rewrite <- app_assoc|done|lia]. cbn [fmap list_fmap]. by rewrite <- app_assoc.
Qed.

Lemma farewells_spec cb code user frame fuel ws : quiet cb code -> forall m t calls,
  mem_rep user m frame ws [] -> nodes_ok ws -> (length (timers ws) < fuel)%nat ->
  exists m', farewells cb fuel m t ((fun l => list_elem (fst l)) <$> ws) calls = Some (calls ++ (call_of code <$> timers ws), m', t) /\
    restored user m' frame.
Proof.
  intros Hq. induction ws as [|[h xs] ws IH]; intros m t calls Hm Hn Hf.
  { exists m. cbn. rewrite app_nil_r. split; [done|by apply mem_done]. }
  change (timers ((h, xs) :: ws)) with (xs ++ timers ws) in *. unfold nodes_ok in Hn.
  change (timers ((h, xs) :: ws)) with (xs ++ timers ws) in Hn. apply Forall_app in Hn as [Hnx Hn]. rewrite length_app in Hf.
  pose proof (mr_lists _ _ _ _ _ Hm 0 h xs eq_refl) as Hr. destruct (head_or h (fst <$> xs)) as [c Hc].
  destruct (rep_neighbours m h [] (cells xs) h c Hr) as (Hnext & _); [done|by rewrite fst_cells|].
  destruct (mem_drop_list user m frame h xs ws [] fuel Hm ltac:(lia)) as (m1 & E1 & Hm1).
  destruct (IH m1 t (calls ++ (call_of code <$> xs)) Hm1 Hn ltac:(lia)) as (m' & E & Hres). exists m'. split; [|done].
  cbn [fmap list_fmap farewells fst]. rewrite next_elem_of, Hnext by (apply (lr_pos m h _ h Hr); by left).
  cbn [fmap option_fmap option_map mbind option_bind].
  rewrite (farewell_spec cb code m t h xs Hq Hr Hnx xs [] fuel c); [|done|done|lia]. cbn [mbind option_bind]. rewrite E1.
  cbn [mbind option_bind]. unfold fmap in E |- *. rewrite E. by rewrite fmap_app, app_assoc.
Qed.

Lemma uninit_spec cb code user frame fuel m t ws pool :
  quiet cb code -> timer_rep user m frame t ws pool -> (length pool < fuel)%nat -> (length (timers ws) < fuel)%nat ->
  exists m', timer_uninit cb fuel m (Some t) = Some (call_of code <$> timers ws, m') /\ restored user m' frame.
Proof.
  intros Hq H Hp Hf. destruct (drain_spec user frame ws pool m (ring t) fuel (tr_mem _ _ _ _ _ _ H) (tr_ring _ _ _ _ _ _ H) Hp)
    as (m1 & E1 & Hm1).
  destruct (farewells_spec cb code user frame fuel ws Hq m1 t [] Hm1 (wheel_node_ok _ _ (tr_wheel _ _ _ _ _ _ H)) Hf) as (m' & E & Hres).
  exists m'. split; [|done]. unfold timer_uninit. rewrite E1. cbn [mbind option_bind]. rewrite take_ge.
  - rewrite (tr_lists _ _ _ _ _ _ H), E. done.
  - rewrite (tr_lists _ _ _ _ _ _ H), length_fmap, (wo_len _ _ (tr_wheel _ _ _ _ _ _ H)), (tr_size _ _ _ _ _ _ H). done.
Qed.

(** ** The client's account

    The client adds timers, deletes one of those it counts as pending and calls
    the loop [dt] ms after the time of the last update.  It keeps its account from
    what it asked for and the clock alone. *)

Inductive top := TAdd (k : timer_key_t) | TDel (i : nat) | TTick (dt : Z).
Inductive tout := OAdd (ret : Z) | ODel (ret : Z) | OSkip | ORan (dt now : Z) (pending : list tnode) (calls : list call).

Section Run.
Context (cb : timer_func) (code : Z -> Z -> Z -> Z) (malloc : alloc_fun) (frame : Z).

(** The account after the loop has run at [now]. *)
Definition settled (now : Z) (P : list tnode) : list tnode :=
  filter (fun x => ~ due_by now x) P ++ rearmed code now (filter (due_by now) P).

Definition run_op (fuel : nat) (op : top) (m : lmem) (t : lisk_timer_t) (P : list tnode)
  : option (tout * lmem * lisk_timer_t * list tnode) :=
  match op with
  | TAdd k =>
      '(ret, id, m', t') ← timer_add malloc fuel frame m (Some t) (Some k); t' ← t';
      Some (OAdd ret, m', t', if id is Some p then P ++ [(list_node p, node_of k (clock t))] else P)
  | TDel i =>
      if P !! i is Some x then
        '(ret, m, t) ← timer_del m (Some t) (list_elem (fst x)); t ← t; Some (ODel ret, m, t, delete i P)
      else Some (OSkip, m, t, P)
  | TTick dt =>
      let now := clock t + dt in
      '(_, calls, m, t) ← timer_loop cb malloc fuel m (Some t) (now * 1000); t ← t;
      Some (ORan dt now P calls, m, t, if dt <? 10 then P else settled now P)
  end.

Fixpoint timer_run (fuel : nat) (ops : list top) (m : lmem) (t : lisk_timer_t) (P : list tnode)
  : option (list tout * lmem * lisk_timer_t * list tnode) :=
  match ops with
  | [] => Some ([], m, t, P)
  | op :: ops =>
      '(o, m, t, P) ← run_op fuel op m t P; '(os, m, t, P) ← timer_run fuel ops m t P; Some (o :: os, m, t, P)
  end.

(** What each operation must answer.  The loop does nothing within 10 ms; later it
    calls for the pending timers that are due, in the order of their deadlines. *)
Definition on_time (o : tout) : Prop :=
  match o with
  | OAdd ret => ret = 0 \/ (ret = -2 /\ exists m, malloc m 48 = None)
  | ODel ret => ret = 0
  | OSkip => True
  | ORan dt now P calls =>
      if dt <? 10 then calls = []
      else exists due, due ≡ₚ filter (due_by now) P /\ sorted due /\ calls = call_of code <$> due
  end.

Definition op_ok (op : top) : Prop :=
  match op with TAdd k => key_ok k | TDel _ => True | TTick dt => 0 <= dt < 2 ^ 32 end.

Definition op_time (op : top) : Z := match op with TTick dt => dt | _ => 0 end.
Definition total (ops : list top) : Z := foldr (fun op n => op_time op + n) 0 ops.

Context (user : lmem) (Hmal : alloc_ok malloc) (Hq : quiet cb code).

(** The wheel holds what the account says. *)
Definition agrees (m : lmem) (t : lisk_timer_t) (P : list tnode) : Prop :=
  exists ws pool, timer_rep user m frame t ws pool /\ timers ws ≡ₚ P.

Lemma timers_split (ws : wheel) x :
  x ∈ timers ws -> exists k h x1 x2, ws !! k = Some (h, x1 ++ x :: x2).
Proof.
  intros (k & xs & Hk & Hx)%elem_of_concat. rewrite list_lookup_fmap in Hk. destruct (ws !! k) as [[h ys]|] eqn:E; [|done].
  injection Hk as <-. apply list_elem_of_split in Hx as (x1 & x2 & ->). by exists k, h, x1, x2.
Qed.

Lemma settled_perm now P P' : P ≡ₚ P' -> settled now P ≡ₚ settled now P'.
Proof. intros Hp. unfold settled, rearmed. by rewrite Hp. Qed.

Lemma run_op_ok op m t P :
  agrees m t P -> op_ok op -> clock t + op_time op < 2 ^ 61 ->
  exists n0 o m' t' P', (forall fuel, (n0 <= fuel)%nat -> run_op fuel op m t P = Some (o, m', t', P')) /\
    on_time o /\ agrees m' t' P' /\ clock t' <= clock t + op_time op.
Proof.
  intros (ws & pool & H & Hp) Hop Hb. destruct op as [k|i|dt]; cbn [op_ok op_time run_op] in *.
  - destruct (add_spec user frame malloc m t ws pool H k Hmal Hop)
      as [(a & m' & t' & l & h & xs & pool' & Hl & E & H' & (Hc & _) & _)|(_ & m' & t' & Hf & E & H' & (Hc & _))].
    + exists (S (length (timers ws))), (OAdd 0), m', t', (P ++ [(a, node_of k (clock t))]). split.
      { intros fuel Hfuel. rewrite E by lia. cbn [mbind option_bind]. by rewrite elem_node. }
      split; [by left|]. split; [|lia]. eexists _, pool'. split; [exact H'|].
      destruct (timers_insert ws l h xs (place (a, node_of k (clock t)) xs) Hl) as [-> Hp']. rewrite place_perm. cbn.
      rewrite <- Hp', Hp. by rewrite <- Permutation_cons_append.
    + exists (S (length (timers ws))), (OAdd (-2)), m', t', P. split; [intros fuel Hfuel; by rewrite E by lia|].
      split; [right; split; [done|by exists m']|]. split; [by exists ws, pool|lia].
  - destruct (P !! i) as [x|] eqn:Hi.
    + assert (x ∈ timers ws) as Hx by (rewrite Hp; by eapply list_elem_of_lookup_2).
      destruct (timers_split ws x Hx) as (k & h & x1 & x2 & Hk).
      destruct (del_spec user frame m t ws pool H k h x1 x x2 Hk) as (m' & t' & pool' & E & (Hc & _) & H').
      exists 0%nat, (ODel 0), m', t', (delete i P). split; [intros fuel _; by rewrite E|]. split; [done|]. split; [|lia].
      eexists _, pool'. split; [exact H'|]. apply (Permutation_cons_inv (a := x)).
      rewrite <- (delete_Permutation P i x Hi), <- Hp. destruct (timers_insert ws k h _ (x1 ++ x2) Hk) as [-> ->].
      by rewrite <- Permutation_middle.
    + exists 0%nat, OSkip, m, t, P. split; [done|]. split; [done|]. split; [by exists ws, pool|lia].
  - pose proof (tr_time _ _ _ _ _ _ H) as Hc. unfold time_ok in Hc. set (now := clock t + dt).
    assert (Z.quot (now * 1000) 1000 = now) as Hnow by (by rewrite Z.quot_mul).
    destruct (dt <? 10) eqn:Ed; to_prop.
    + exists 0%nat, (ORan dt now P []), m, t, P. split; [|split; [|split; [by exists ws, pool|lia]]].
      * intros fuel _. rewrite (loop_early user frame malloc cb fuel m t ws pool _ H) by (rewrite Hnow; unfold now; lia).
        done.
      * cbn [on_time]. by rewrite (proj2 (Z.ltb_lt _ _)).
    + destruct (loop_spec user frame malloc cb code false m t ws pool (now * 1000) (quiet_ok _ _ _ _ Hq) H)
        as (n0 & due & m' & t' & ws' & pool' & new & E & Hdue & Hs & Hp' & _ & Hnew & H' & Hc'); rewrite ?Hnow; [unfold now; lia..|].
      rewrite Hnow in *. exists n0, (ORan dt now P (call_of code <$> due)), m', t', (settled now P).
      split; [intros fuel Hf; by rewrite E|]. split; [|split; [|unfold now in *; lia]].
      * cbn [on_time]. rewrite (proj2 (Z.ltb_ge _ _)) by lia. exists due. split; [|done]. by rewrite Hdue, Hp.
      * exists ws', pool'. split; [done|]. rewrite Hp', (Hnew eq_refl), app_nil_r. unfold settled, rearmed. by rewrite Hdue, Hp.
Qed.

Lemma timer_run_ok ops : forall m t P,
  agrees m t P -> Forall op_ok ops -> clock t + total ops < 2 ^ 61 ->
  exists n0 outs m' t' P', (forall fuel, (n0 <= fuel)%nat -> timer_run fuel ops m t P = Some (outs, m', t', P')) /\
    Forall on_time outs /\ agrees m' t' P'.
Proof.
  induction ops as [|op ops IH]; intros m t P Ha Hop Hb; [by exists 0%nat, [], m, t, P|].
  apply Forall_cons in Hop as [Hop Hops].
  assert (0 <= total ops) as Htot.
  { clear -Hops. induction Hops as [|op ops Hop _ IH]; [done|]. change (0 <= op_time op + total ops).
    destruct op; cbn [op_time op_ok] in *; lia. }
  change (total (op :: ops)) with (op_time op + total ops) in Hb.
  destruct (run_op_ok op m t P Ha Hop ltac:(lia)) as (n1 & o & m1 & t1 & P1 & E1 & Ho & Ha1 & Hc1).
  destruct (IH m1 t1 P1 Ha1 Hops ltac:(lia)) as (n2 & os & m2 & t2 & P2 & E2 & Hos & Ha2).
  exists (n1 `max` n2)%nat, (o :: os), m2, t2, P2. split; [|split; [by constructor|done]].
  intros fuel Hf. cbn [timer_run]. rewrite E1 by lia. cbn [mbind option_bind]. by rewrite E2 by lia.
Qed.
End Run.


(** A stack, a callback that asks to be removed for the argument 99, and a client. *)
Definition sample_user : lmem := {[ 64 := mk_node 0 0 (replicate 32 0) ]}.
Definition sample_code : Z -> Z -> Z -> Z := fun _ _ a => if a =? 99 then -3 else 0.
Definition sample_cb : timer_func := fun f _ id a m t => Some (sample_code f id a, m, t).
Definition sample_tops : list top :=
  [TAdd (mk_key 1 2500 7 11); TAdd (mk_key 2 300 8 12); TTick 400; TTick 5; TAdd (mk_key 2 70000 99 13); TTick 3000;
   TDel 0; TTick 80000; TAdd (mk_key 1 90000000 5 14)].

Lemma sample_frame : frame_ok sample_user 64.
Proof. split; [lia|]. exists 0, 0, (replicate 32 0). split; [reflexivity|]. split; [reflexivity|]. by intros []. Qed.



(** A wheel with a timer in each of its first two lists. *)
Definition sample_once : lisk_timer_node_t := mk_tnode 1500 1 500 7 11.
Definition sample_loop : lisk_timer_node_t := mk_tnode 5000 2 4000 8 12.
Definition sample_wheel : wheel :=
  [(1000, [(6000, sample_once)]); (2000, [(7000, sample_loop)]); (3000, []); (4000, []); (5000, [])].
Definition sample_timer : lisk_timer_t :=
  mk_timer 1000 [0; 0; 0; 0; 0] 5 [1016; 2016; 3016; 4016; 5016] 2 None.
Definition sample_mem_of : lmem :=
  <[1000 := mk_node 6000 6000 []]> (<[6000 := mk_node 1000 1000 (enc sample_once)]>
  (<[2000 := mk_node 7000 7000 []]> (<[7000 := mk_node 2000 2000 (enc sample_loop)]>
  (<[3000 := mk_node 3000 3000 []]> (<[4000 := mk_node 4000 4000 []]> (<[5000 := mk_node 5000 5000 []]> sample_user)))))).

Lemma sample_list i h xs : sample_wheel !! i = Some (h, xs) -> list_rep sample_mem_of h (cells xs).
Proof.
  intros Hi. destruct i as [|[|[|[|[|i]]]]]; [injection Hi as <- <-..|done];
    (constructor; [split; [compute_done|by repeat split]| |eexists; reflexivity|repeat constructor; cbn; lia]);
    intros a d Hin; repeat (apply elem_of_cons in Hin as [[= -> ->]|Hin]; [reflexivity|]); by apply elem_of_nil in Hin.
Qed.

Lemma sample_rep : timer_rep sample_user sample_mem_of 64 sample_timer sample_wheel [].
Proof.
  constructor; [constructor|done|done|done|split; reflexivity|repeat constructor; cbn; lia|].
  - apply sample_list.
  - constructor.
  - compute_done.
  - apply sample_frame.
  - intros b Hb. change (b ∉ [64; 1000; 6000; 2000; 7000; 3000; 4000; 5000]) in Hb. rewrite !not_elem_of_cons in Hb.
    unfold sample_mem_of. rewrite !lookup_insert_ne by tauto || naive_solver. done.
  - intros b Hb. change (b ∈ [1000; 6000; 2000; 7000; 3000; 4000; 5000]) in Hb.
    repeat (apply elem_of_cons in Hb as [->|Hb]; [reflexivity|]). by apply elem_of_nil in Hb.
  - constructor; [done|..]; intros k h xs Hk; destruct k as [|[|[|[|[|k]]]]]; try done; injection Hk as <- <-;
      repeat constructor; cbn; unfold is_u8, is_u4, U8_MOD, U4_MOD, MIN_EXPIRE, MAX_EXPIRE, due_by; try lia.
    vm_compute. discriminate.
Qed.


(** ** Where the wheel departs from what it means to do *)

(** An id deleted twice is twice in the ring: of the two timers added next, both
    get the node, and the callback and the argument of the first are lost. *)
Definition delete_twice : option (list (option Z) * list call) :=
  '(_, m, t) ← timer_init malloc_zero (malloc_scan 40) 10 sample_user false 1000000000;
  '(_, a, m, t) ← timer_add (malloc_scan 40) 10 64 m t (Some (mk_key 1 500 1 11)); id ← a;
  '(_, m, t) ← timer_del m t id; '(_, m, t) ← timer_del m t id;
  '(_, b, m, t) ← timer_add (malloc_scan 40) 10 64 m t (Some (mk_key 1 300 2 12));
  '(_, c, m, t) ← timer_add (malloc_scan 40) 10 64 m t (Some (mk_key 1 400 3 13));
  '(_, calls, _, _) ← timer_loop sample_cb (malloc_scan 40) 10 m t 1001000000;
  Some ([a; b; c], calls).

Lemma delete_twice_loses_timer :
  delete_twice = Some ([Some 24592; Some 24592; Some 28688], [mk_call 13 24592 3 0; mk_call 13 28688 3 0]).
Proof. vm_compute. reflexivity. Qed.

(** The time that passed is kept in 32 bits: after 2^32 ms more, a timer of five
    seconds does not run, for its list is not cascaded. *)
Definition long_sleep (ms : Z) : option (list call) :=
  '(_, m, t) ← timer_init malloc_zero (malloc_scan 40) 10 sample_user false 1000000000;
  '(_, _, m, t) ← timer_add (malloc_scan 40) 10 64 m t (Some (mk_key 1 5000 1 11));
  '(_, calls, _, _) ← timer_loop sample_cb (malloc_scan 40) 10 m t (1000000000 + ms * 1000); Some calls.

Lemma long_sleep_late :
  long_sleep (2 ^ 32 - 1) = Some [mk_call 11 24592 1 0] /\ long_sleep (2 ^ 32 + 10) = Some [].
Proof. vm_compute. by split. Qed.

End TimerRun.
