(* ===== verification/LiskString.v ===== *)
(** * Strings of C: lisk_string.c up to the string object

    The memory of C strings, the character tests, the three trims, the
    Boyer-Moore-Horspool search and the searches that use it, the routines that
    build a string in a buffer, and the conversions to integers.  A pointer is a
    block and an offset.  A [char] is the byte it is stored as; every test of the
    code has the same answer for that byte and for the negative [char]. *)

From S2P Require Import Prelude.

Module Str.

(** ** Memory *)

Record ptr := mk_ptr { p_blk : nat; p_off : Z }.

#[global] Instance ptr_eq_dec : EqDecision ptr.
Proof. solve_decision. Defined.

Abbreviation cmem := (gmap nat bytes).

Definition padd (p : ptr) (i : Z) : ptr := mk_ptr (p_blk p) (p_off p + i).

(** The bytes from a pointer to the end of its block. *)
Definition tail_of (m : cmem) (p : ptr) : option bytes :=
  b ← m !! p_blk p; if 0 <=? p_off p then Some (drop (Z.to_nat (p_off p)) b) else None.

Definition rds (m : cmem) (p : ptr) (n : Z) : option bytes := b ← m !! p_blk p; rd b (p_off p) n.

Definition wrs (m : cmem) (p : ptr) (x : bytes) : option cmem :=
  b ← m !! p_blk p; b' ← wr b (p_off p) x; Some (<[p_blk p := b']> m).

Definition ld (m : cmem) (p : ptr) (i : Z) : option Z := x ← rds m (padd p i) 1; head x.
Definition st (m : cmem) (p : ptr) (i c : Z) : option cmem := wrs m (padd p i) [c].

(** Relational operators on pointers have a meaning inside one block. *)
Definition ptr_lt (p q : ptr) : option bool :=
  if decide (p_blk p = p_blk q) then Some (p_off p <? p_off q) else None.
Definition ptr_sub (p q : ptr) : option Z :=
  if decide (p_blk p = p_blk q) then Some (p_off p - p_off q) else None.

(** ** string.h *)

Fixpoint nul_at (b : bytes) : option Z :=
  match b with
  | [] => None
  | c :: b' => if c =? 0 then Some 0 else n ← nul_at b'; Some (n + 1)
  end.

Definition strlen (m : cmem) (p : ptr) : option Z := b ← tail_of m p; nul_at b.

(** At most [n] characters, up to the terminator. *)
Fixpoint str_n (n : nat) (b : bytes) : option bytes :=
  match n, b with
  | O, _ => Some []
  | S _, [] => None
  | S n', c :: b' => if c =? 0 then Some [] else x ← str_n n' b'; Some (c :: x)
  end.

Definition strncat (m : cmem) (dst src : ptr) (n : Z) : option cmem :=
  l ← strlen m dst; b ← tail_of m src; x ← str_n (Z.to_nat n) b;
  wrs m (padd dst l) (x ++ [0]).

(** [SET_ZERO]; the length is a [size_t]. *)
Definition SET_ZERO (m : cmem) (p : ptr) (len : Z) : option cmem :=
  x ← rds m p (u8 len); wrs m p (replicate (length x) 0).

(** [memmove] inside one block. *)
Definition memmove (m : cmem) (dst src : ptr) (len : Z) : option cmem :=
  x ← rds m src (u8 len); wrs m dst x.

(** ** Characters *)

Definition _is_ctrl (c : Z) : Z := if (0 <=? c) && (c <=? 0x1F) then 0 else -1.
Definition _is_digit (c : Z) : Z := if (48 <=? c) && (c <=? 57) then 0 else -1.
Definition _is_alpha (c : Z) : Z :=
  if ((97 <=? c) && (c <=? 122)) || ((65 <=? c) && (c <=? 90)) then 0 else -1.
Definition _is_lower (c : Z) : Z := if (97 <=? c) && (c <=? 122) then 0 else -1.
Definition _is_upper (c : Z) : Z := if (65 <=? c) && (c <=? 90) then 0 else -1.
Definition _is_space (c : Z) : Z :=
  if (c =? 32) || (c =? 12) || (c =? 9) || (c =? 13) || (c =? 10) || (c =? 11) then 0 else -1.
Definition _is_print (c : Z) : Z :=
  if (0x20 <=? c mod 256) && (c mod 256 <=? 0x7F) then 0 else -1.
Definition to_lower (c : Z) : Z := if _is_upper c =? 0 then Z.lxor c 0x20 else c.
Definition to_upper (c : Z) : Z := if _is_lower c =? 0 then Z.lxor c 0x20 else c.

(** [wb] is the number of bytes of an [unsigned long]. *)
Definition _is_32 (wb : Z) : Z := if wb =? 4 then 0 else -1.
Definition _is_64 (wb : Z) : Z := if wb =? 8 then 0 else -1.

(** ** Trims *)

(** [n] is [idx + 1]. *)
Fixpoint trim_r_loop (n : nat) (m : cmem) (pstr : ptr) : option cmem :=
  match n with
  | O => Some m
  | S idx =>
      c ← ld m pstr (Z.of_nat idx);
      if negb (_is_space c =? 0) then Some m
      else m ← st m pstr (Z.of_nat idx) 0; trim_r_loop idx m pstr
  end.

Definition str_trim_r (m : cmem) (pstr : option ptr) : option (option ptr * cmem) :=
  match pstr with
  | None => Some (None, m)
  | Some p =>
      l ← strlen m p;
      let len := to_n4 l in
      if len <=? 0 then m ← st m p 0 0; Some (Some p, m)
      else m ← trim_r_loop (Z.to_nat len) m p; Some (Some p, m)
  end.

(** [n] characters are left from [idx] on. *)
Fixpoint trim_l_loop (n : nat) (m : cmem) (pstr : ptr) (idx : Z) : option Z :=
  match n with
  | O => Some idx
  | S n' =>
      c ← ld m pstr idx;
      if negb (_is_space c =? 0) then Some idx else trim_l_loop n' m pstr (idx + 1)
  end.

Definition str_trim_l (m : cmem) (pstr : option ptr) : option (option ptr * cmem) :=
  match pstr with
  | None => Some (None, m)
  | Some p =>
      l ← strlen m p;
      let len := to_n4 l in
      if len <=? 0 then m ← st m p 0 0; Some (Some p, m)
      else
        idx ← trim_l_loop (Z.to_nat len) m p 0;
        if len <=? idx then m ← st m p 0 0; Some (Some p, m)
        else if 0 <? idx then
          m ← memmove m p (padd p idx) (len + 1 - idx);
          m ← st m p (len + 1 - idx) 0;
          Some (Some p, m)
        else Some (Some p, m)
  end.

Fixpoint trim_loop (n : nat) (m : cmem) (pstr : ptr) (idx cursor : Z) : option (Z * cmem) :=
  match n with
  | O => Some (cursor, m)
  | S n' =>
      c ← ld m pstr idx;
      if negb (_is_space c =? 0)
      then m ← st m pstr cursor c; trim_loop n' m pstr (idx + 1) (cursor + 1)
      else trim_loop n' m pstr (idx + 1) cursor
  end.

Definition str_trim (m : cmem) (pstr : option ptr) : option (option ptr * cmem) :=
  match pstr with
  | None => Some (None, m)
  | Some p =>
      l ← strlen m p;
      let len := to_n4 l in
      if len <=? 0 then m ← st m p 0 0; Some (Some p, m)
      else
        '(cursor, m) ← trim_loop (Z.to_nat len) m p 0 0;
        m ← st m p cursor 0;
        Some (Some p, m)
  end.

(** The three exclusive ors of two characters in memory. *)
Definition xor_swap_chars (m : cmem) (str : ptr) (first last : Z) : option cmem :=
  a ← ld m str first; b ← ld m str last; m ← st m str first (Z.lxor a b);
  a ← ld m str first; b ← ld m str last; m ← st m str last (Z.lxor a b);
  a ← ld m str first; b ← ld m str last; st m str first (Z.lxor a b).

Fixpoint reverse_loop (fuel : nat) (m : cmem) (str : ptr) (first last : Z) : option cmem :=
  match fuel with
  | O => None
  | S f =>
      if first <? last
      then m ← xor_swap_chars m str first last; reverse_loop f m str (first + 1) (last - 1)
      else Some m
  end.

Definition _reverse_str (m : cmem) (str : option ptr) : option cmem :=
  match str with
  | None => Some m
  | Some p =>
      len ← strlen m p;
      if len <=? 1 then Some m else reverse_loop (S (Z.to_nat len)) m p 0 (len - 1)
  end.

(** ** Search *)

(** [n] rounds are left; [skip] is [skip_buf]. *)
Fixpoint bh_skip_fill (n : nat) (m : cmem) (sub_str : ptr) (anchor idx : Z) (skip : list Z)
  : option (list Z) :=
  match n with
  | O => Some skip
  | S n' =>
      c ← ld m sub_str idx;
      bh_skip_fill n' m sub_str anchor (idx + 1) (<[Z.to_nat c := anchor - idx]> skip)
  end.

(** [n] is [idx]; the answer is whether every character agreed. *)
Fixpoint bh_compare (n : nat) (m : cmem) (str sub_str : ptr) : option bool :=
  a ← ld m str (Z.of_nat n); b ← ld m sub_str (Z.of_nat n);
  if a =? b then match n with O => Some true | S n' => bh_compare n' m str sub_str end
  else Some false.

Fixpoint bh_loop (fuel : nat) (m : cmem) (skip : list Z) (str : ptr) (str_len : Z) (sub_str : ptr)
  (sub_str_len : Z) : option (option ptr) :=
  match fuel with
  | O => None
  | S f =>
      if sub_str_len <=? str_len then
        let anchor := u4 (sub_str_len - 1) in
        found ← bh_compare (Z.to_nat anchor) m str sub_str;
        if found : bool then Some (Some str)
        else
          c ← ld m str anchor; s ← skip !! Z.to_nat c;
          bh_loop f m skip (padd str s) (u4 (str_len - s)) sub_str sub_str_len
      else Some None
  end.

Definition bh_search (m : cmem) (str : option ptr) (str_len : Z) (sub_str : option ptr)
  (sub_str_len : Z) : option (option ptr) :=
  if (sub_str_len <=? 0) || (str_len <? sub_str_len) then Some None
  else match str, sub_str with
       | Some s, Some x =>
           let anchor := u4 (sub_str_len - 1) in
           skip ← bh_skip_fill (Z.to_nat anchor) m x anchor 0 (replicate 256 sub_str_len);
           bh_loop (S (Z.to_nat str_len)) m skip s str_len x sub_str_len
       | _, _ => Some None
       end.

(** The parameter [ch] is in the frame of the function, which is block 0. *)
Definition _index (m : cmem) (str : option ptr) (ch : Z) : option (option ptr) :=
  match str with
  | None => Some None
  | Some p =>
      len ← strlen m p;
      bh_search (<[0%nat := [ch]]> m) (Some p) (u4 len) (Some (mk_ptr 0 0)) 1
  end.

(** The static variables of [_strstr]. *)
Record strstr_static := mk_static {
  last_str : option ptr; last_pat : option ptr; cursor : option ptr }.

Definition static_nil : strstr_static := mk_static None None None.

Definition search (m : cmem) (start pattern : ptr) : option (option ptr) :=
  ls ← strlen m start; lp ← strlen m pattern;
  bh_search m (Some start) (u4 ls) (Some pattern) (u4 lp).

(** The branch of a repeated call. *)
Definition _strstr_again (m : cmem) (v : strstr_static) (str pattern : ptr)
  : option (option ptr * strstr_static) :=
  ls ← strlen m str;
  let end_ := padd str (ls - 1) in
  match cursor v with
  | None => Some (None, v)
  | Some c =>
      before ← ptr_lt c str; beyond ← ptr_lt end_ c;
      if before || beyond : bool then Some (None, v)
      else
        ret ← search m c pattern;
        match ret with
        | Some r => lp ← strlen m pattern; Some (ret, mk_static (last_str v) (last_pat v) (Some (padd r lp)))
        | None => Some (None, static_nil)
        end
  end.

Definition _strstr (m : cmem) (v : strstr_static) (str pattern : option ptr)
  : option (option ptr * strstr_static) :=
  match str, pattern with
  | Some s, Some x =>
      lx ← strlen m x; ls ← strlen m s;
      if ls <=? lx then Some (None, v)
      else if decide (last_str v = Some s /\ last_pat v = Some x) then _strstr_again m v s x
      else
        ret ← search m s x;
        match ret with
        | Some r => lp ← strlen m x; Some (ret, mk_static (Some s) (Some x) (Some (padd r lp)))
        | None => Some (None, mk_static (Some s) (Some x) None)
        end
  | _, _ => Some (None, v)
  end.

Fixpoint strstr_r_loop (fuel : nat) (m : cmem) (pattern start end_ : ptr) (last_ret : option ptr)
  : option (option ptr) :=
  match fuel with
  | O => None
  | S f =>
      more ← ptr_lt start end_;
      if more : bool then
        ret ← search m start pattern;
        match ret with
        | None => Some last_ret
        | Some r => lp ← strlen m pattern; strstr_r_loop f m pattern (padd r lp) end_ ret
        end
      else Some last_ret
  end.

Definition _strstr_r (m : cmem) (str pattern : option ptr) : option (option ptr) :=
  match str, pattern with
  | Some s, Some x =>
      lx ← strlen m x; ls ← strlen m s;
      if ls <=? lx then Some None
      else strstr_r_loop (S (Z.to_nat ls)) m x s (padd s ls) None
  | _, _ => Some None
  end.

(** ** Building a string in a buffer *)

(** The length of a string that may be nil. *)
Definition olen (m : cmem) (p : option ptr) : option Z :=
  match p with None => Some 0 | Some q => strlen m q end.

(** Zeroes the buffer; what is left of [dst_len] is one less. *)
Definition clear_dst (m : cmem) (dst : ptr) (dst_len : Z) : option cmem :=
  m ← SET_ZERO m dst dst_len; st m dst (dst_len - 1) 0.

Definition cat_all (m : cmem) (dst src : ptr) : option cmem :=
  l ← strlen m src; strncat m dst src l.

Definition _insert (m : cmem) (str : option ptr) (pos : Z) (sub_str dst : option ptr) (dst_len : Z)
  : option (Z * cmem) :=
  match str with
  | None => Some (-1, m)
  | Some s =>
      ls ← strlen m s;
      if (ls =? 0) || ((pos <? 0) || (ls <? pos)) then Some (-1, m)
      else match sub_str with
           | None => Some (-1, m)
           | Some x =>
               lx ← strlen m x;
               if (lx =? 0) || (u8 dst_len <? ls + lx + 1) then Some (-1, m)
               else
                 d ← dst;
                 m ← clear_dst m d dst_len;
                 m ← strncat m d s pos;
                 m ← cat_all m d x;
                 ls ← strlen m s;
                 m ← strncat m d (padd s pos) (ls - pos);
                 Some (0, m)
           end
  end.

Definition _merge (m : cmem) (first second dst : option ptr) (dst_len : Z) : option (Z * cmem) :=
  l1 ← olen m first; l2 ← olen m second;
  let flag1 := l1 =? 0 in
  let flag2 := l2 =? 0 in
  let min_dst_len := to_n4 (to_n4 (1 + l1) + l2) in
  match dst with
  | None => Some (-1, m)
  | Some d =>
      if (flag1 && flag2) || (dst_len <? min_dst_len) then Some (-1, m)
      else
        m ← clear_dst m d dst_len;
        let dst_len := dst_len - 1 in
        match first, second with
        | Some f, _ =>
            if negb flag1 && flag2 then m ← cat_all m d f; Some (0, m)
            else if flag1 && negb flag2 then s ← second; m ← cat_all m d s; Some (0, m)
            else _insert m first (to_n4 l1) second dst dst_len
        | None, Some s => m ← cat_all m d s; Some (0, m)
        | None, None => None
        end
  end.

Definition replace_min (m : cmem) (str : option ptr) (len : Z) (rep : option ptr) : option Z :=
  match str with
  | None => Some 1
  | Some s =>
      ls ← strlen m s;
      let min := to_n4 (1 + ls) in
      if 0 <? len then min ← chk_n4 (min - len); lr ← olen m rep; Some (to_n4 (min + lr))
      else Some min
  end.

Definition _replace (m : cmem) (str : option ptr) (pos len : Z) (rep dst : option ptr) (dst_len : Z)
  : option (Z * cmem) :=
  min_dst_len ← replace_min m str len rep;
  match str with
  | None => Some (-1, m)
  | Some s =>
      ls ← strlen m s;
      if (ls =? 0) || ((pos <? 0) || (ls - 1 <? pos)) || (len <=? 0) then Some (-1, m)
      else
        e ← chk_n4 (pos + len);
        match dst with
        | None => Some (-1, m)
        | Some d =>
            if (ls <? e) || (dst_len <? min_dst_len) then Some (-1, m)
            else
              m ← clear_dst m d dst_len;
              m ← strncat m d s pos;
              lr ← olen m rep;
              m ← (if lr =? 0 then Some m else r ← rep; strncat m d r lr);
              ls ← strlen m s;
              m ← strncat m d (padd s (pos + len)) (ls - (pos + len));
              Some (0, m)
        end
  end.

Definition _delete (m : cmem) (str : option ptr) (pos len : Z) (dst : option ptr) (dst_len : Z)
  : option (Z * cmem) :=
  _replace m str pos len None dst dst_len.

(** [while (IS_NNL(_strstr(str, pattern)));] *)
Fixpoint drain (fuel : nat) (m : cmem) (v : strstr_static) (str pattern : ptr) : option strstr_static :=
  match fuel with
  | O => None
  | S f =>
      '(r, v) ← _strstr m v (Some str) (Some pattern);
      match r with None => Some v | Some _ => drain f m v str pattern end
  end.

(** What an occurrence at [sub] adds; the answer is whether the loop is left. *)
Definition replace_piece (fuel : nat) (m : cmem) (v : strstr_static) (str pattern : ptr) (rep : option ptr)
  (del_flag : bool) (dst : ptr) (dst_len : Z) (start sub : ptr) : option (bool * cmem * strstr_static) :=
  gap ← ptr_sub sub start;
  if 0 <? gap then
    dl ← strlen m dst;
    if dst_len <? dl + gap then v ← drain fuel m v str pattern; Some (true, m, v)
    else
      m ← strncat m dst start gap;
      if del_flag then Some (false, m, v)
      else
        r ← rep; lr ← strlen m r; dl ← strlen m dst;
        if dst_len <? dl + lr then v ← drain fuel m v str pattern; Some (true, m, v)
        else m ← strncat m dst r lr; Some (false, m, v)
  else Some (false, m, v).

Fixpoint replace_loop (fuel : nat) (m : cmem) (v : strstr_static) (str pattern : ptr) (rep : option ptr)
  (del_flag : bool) (dst : ptr) (dst_len : Z) (start str_end : ptr) : option (cmem * strstr_static) :=
  match fuel with
  | O => None
  | S f =>
      more ← ptr_lt start str_end;
      if more : bool then
        '(sub, v) ← _strstr m v (Some str) (Some pattern);
        match sub with
        | None =>
            dl ← strlen m dst; rest ← ptr_sub str_end start;
            if dst_len <? dl + rest then Some (m, v)
            else m ← strncat m dst start rest; Some (m, v)
        | Some sub =>
            '(stop, m, v) ← replace_piece (S f) m v str pattern rep del_flag dst dst_len start sub;
            if stop : bool then Some (m, v)
            else
              lp ← strlen m pattern;
              replace_loop f m v str pattern rep del_flag dst dst_len (padd sub lp) str_end
        end
      else Some (m, v)
  end.

Definition _replace_str (m : cmem) (v : strstr_static) (str pattern rep dst : option ptr) (dst_len : Z)
  : option (Z * cmem * strstr_static) :=
  match str, pattern, dst with
  | Some s, Some x, Some d =>
      lx ← strlen m x; ls ← strlen m s;
      if (ls <=? lx) || (dst_len <? 2) || (u8 dst_len <? ls) then Some (-1, m, v)
      else
        m ← clear_dst m d dst_len;
        let dst_len := dst_len - 1 in
        lr ← olen m rep;
        '(m, v) ← replace_loop (S (S (Z.to_nat ls))) m v s x rep (lr =? 0) d dst_len s (padd s ls);
        Some (0, m, v)
  | _, _, _ => Some (-1, m, v)
  end.

(** ** Strings to integers

    [strtoul] of the C library with base 10, when an [unsigned long] has [w] bits. *)

Fixpoint skip_spaces (b : bytes) : bytes :=
  match b with c :: b' => if _is_space c =? 0 then skip_spaces b' else b | [] => [] end.

Fixpoint digits (b : bytes) (acc : Z) : option Z :=
  match b with
  | [] => None
  | c :: b' => if _is_digit c =? 0 then digits b' (acc * 10 + (c - 48)) else Some acc
  end.

Definition strtoul (w : Z) (m : cmem) (p : ptr) : option Z :=
  b ← tail_of m p;
  let b := skip_spaces b in
  let '(neg, b) :=
    match b with
    | c :: b' => if c =? 45 then (true, b') else if c =? 43 then (false, b') else (false, b)
    | [] => (false, b)
    end in
  n ← digits b 0;
  Some (if 2 ^ w <=? n then 2 ^ w - 1 else if neg : bool then (- n) mod 2 ^ w else n).

Definition str2n4 (w : Z) (m : cmem) (str : ptr) : option Z := r ← strtoul w m str; Some (to_n4 r).
Definition str2u4 (w : Z) (m : cmem) (str : ptr) : option Z := r ← strtoul w m str; Some (u4 r).
Definition str2n8 (w : Z) (m : cmem) (str : ptr) : option Z :=
  r ← strtoul w m str; Some ((r + 2 ^ 63) mod U8_MOD - 2 ^ 63).
Definition str2u8 (w : Z) (m : cmem) (str : ptr) : option Z := r ← strtoul w m str; Some (u8 r).

End Str.
