(* ===== verification/LiskStringRep.v ===== *)
(** * C strings in memory

    A pointer at known bytes, at a terminated string, and at a buffer that is
    being filled; reading, [strlen] and [strncat] on them. *)

From S2P Require Import Prelude LiskString.

Module StrRep.
Import Str.

Definition byte (c : Z) : Prop := 0 <= c < 256.
Definition char (c : Z) : Prop := 0 < c < 256.

#[global] Instance char_dec c : Decision (char c).
Proof. unfold char. apply _. Defined.

(** The bytes [x] lie at [p]. *)
Definition holds (m : cmem) (p : ptr) (x : bytes) : Prop :=
  exists pre post, m !! p_blk p = Some (pre ++ x ++ post) /\ p_off p = blen pre.

(** The terminated string [s] lies at [p]; its length is an [n4]. *)
Definition cstr (m : cmem) (p : ptr) (s : bytes) : Prop :=
  holds m p (s ++ [0]) /\ Forall char s /\ blen s < 2 ^ 31.

(** The buffer of [n] bytes at [p], between [pre] and [post] in its block, starts
    with the string [s] and has zeros behind it. *)
Definition filled (m : cmem) (p : ptr) (pre s : bytes) (n : nat) (post : bytes) : Prop :=
  m !! p_blk p = Some (pre ++ s ++ replicate (n - length s) 0 ++ post) /\
  p_off p = blen pre /\ Forall char s /\ (length s < n)%nat.

(** Only the block [k] has changed. *)
Definition frame (k : nat) (m m' : cmem) : Prop := forall j, j <> k -> m' !! j = m !! j.

#[global] Instance frame_preorder k : PreOrder (frame k).
Proof. split; [by intros m j|]. intros a b c H1 H2 j Hj. by rewrite (H2 j Hj), (H1 j Hj). Qed.

Lemma frame_insert k m b : frame k m (<[k := b]> m).
Proof. intros j Hj. by rewrite lookup_insert_ne. Qed.

Lemma holds_frame k m m' p x : frame k m m' -> p_blk p <> k -> holds m p x -> holds m' p x.
Proof. intros Hf Hk (pre & post & H & Ho). exists pre, post. by rewrite (Hf _ Hk). Qed.

Lemma cstr_frame k m m' p s : frame k m m' -> p_blk p <> k -> cstr m p s -> cstr m' p s.
Proof. intros Hf Hk (H & Hc & Hl). split; [by eapply holds_frame|done]. Qed.

Lemma padd_padd p i j : padd (padd p i) j = padd p (i + j).
Proof. unfold padd. cbn. f_equal. lia. Qed.
Lemma padd_0 p : padd p 0 = p.
Proof. destruct p. unfold padd. cbn. f_equal. lia. Qed.
Lemma padd_inj p i j : padd p i = padd p j -> i = j.
Proof. unfold padd. intros [= E]. lia. Qed.

Lemma ptr_lt_padd p i j : ptr_lt (padd p i) (padd p j) = Some (i <? j).
Proof.
  unfold ptr_lt. cbn. rewrite decide_True by done. f_equal.
  destruct (i <? j) eqn:E; to_prop; [apply Z.ltb_lt|apply Z.ltb_ge]; lia.
Qed.
Lemma ptr_sub_padd p i j : ptr_sub (padd p i) (padd p j) = Some (i - j).
Proof. unfold ptr_sub. cbn. rewrite decide_True by done. f_equal. lia. Qed.

Section Holds.
Context (m : cmem) (p : ptr).

Lemma holds_app x y : holds m p (x ++ y) -> holds m p x /\ holds m (padd p (blen x)) y.
Proof.
  intros (pre & post & H & Ho). split.
  - exists pre, (y ++ post). by rewrite <- !app_assoc in H.
  - exists (pre ++ x), post. cbn. rewrite <- !app_assoc in *. by rewrite blen_app, Ho.
Qed.

Lemma holds_rds x : holds m p x -> rds m p (blen x) = Some x.
Proof. intros (pre & post & H & Ho). unfold rds. rewrite H, Ho. apply rd_mid. Qed.

Lemma holds_tail x : holds m p x -> exists post, tail_of m p = Some (x ++ post).
Proof.
  intros (pre & post & H & Ho). exists post. unfold tail_of. rewrite H, Ho. cbn [mbind option_bind].
  rewrite (proj2 (Z.leb_le _ _)) by apply blen_nonneg. unfold blen. by rewrite Nat2Z.id, drop_app_length.
Qed.

Lemma wrs_at pre x y post :
  m !! p_blk p = Some (pre ++ x ++ post) -> p_off p = blen pre -> blen y = blen x ->
  wrs m p y = Some (<[p_blk p := pre ++ y ++ post]> m).
Proof. intros H Ho Hl. unfold wrs. rewrite H, Ho. cbn [mbind option_bind]. by rewrite wr_mid. Qed.
End Holds.

(** A split of a list at an index. *)
Lemma list_split_at {A} (l : list A) i c : l !! i = Some c -> exists y z, l = y ++ c :: z /\ length y = i.
Proof.
  intros H. exists (take i l), (drop (S i) l). split; [by rewrite take_drop_middle|].
  apply lookup_lt_Some in H. rewrite length_take. lia.
Qed.

Lemma holds_ld m p x i c : holds m p x -> x !! i = Some c -> ld m p (Z.of_nat i) = Some c.
Proof.
  intros H (y & z & -> & <-)%list_split_at. change (c :: z) with ([c] ++ z) in H.
  apply holds_app in H as [_ H]. apply holds_app in H as [H _]. unfold ld.
  change (Z.of_nat (length y)) with (blen y). change 1 with (blen [c]). by rewrite (holds_rds _ _ _ H).
Qed.

(** A load and a store in the middle of a block. *)
Lemma ld_at m p pre y c z :
  m !! p_blk p = Some (pre ++ y ++ c :: z) -> p_off p = blen pre -> ld m p (blen y) = Some c.
Proof.
  intros H Ho. apply (holds_ld m p (y ++ c :: z) (length y)).
  - exists pre, []. by rewrite app_nil_r.
  - rewrite lookup_app_r, Nat.sub_diag by lia. done.
Qed.

Lemma st_at m p pre y c z v :
  m !! p_blk p = Some (pre ++ y ++ c :: z) -> p_off p = blen pre ->
  st m p (blen y) v = Some (<[p_blk p := pre ++ y ++ v :: z]> m).
Proof.
  intros H Ho. unfold st. rewrite (wrs_at m _ (pre ++ y) [c] [v] z); cbn.
  - by rewrite <- app_assoc.
  - by rewrite <- app_assoc.
  - rewrite blen_app. lia.
  - done.
Qed.

Lemma st_head m p pre c z v :
  m !! p_blk p = Some (pre ++ c :: z) -> p_off p = blen pre ->
  st m p 0 v = Some (<[p_blk p := pre ++ v :: z]> m).
Proof. intros H Ho. exact (st_at m p pre [] c z v H Ho). Qed.

(** ** Terminated strings *)

Lemma nul_at_chars s post : Forall char s -> nul_at (s ++ 0 :: post) = Some (blen s).
Proof.
  induction 1 as [|c s Hc Hs IH]; [done|]. cbn [nul_at app].
  rewrite (proj2 (Z.eqb_neq _ _)) by (unfold char in Hc; lia). rewrite IH. cbn. f_equal. unfold blen. cbn. lia.
Qed.

Lemma strlen_cstr m p s : cstr m p s -> strlen m p = Some (blen s).
Proof.
  intros (H & Hc & _). destruct (holds_tail m p _ H) as [post Ht]. unfold strlen. rewrite Ht. cbn [mbind option_bind].
  rewrite <- app_assoc. by apply nul_at_chars.
Qed.

Lemma cstr_drop m p x s : cstr m p (x ++ s) -> cstr m (padd p (blen x)) s.
Proof.
  intros (H & Hc & Hl). rewrite <- app_assoc in H. apply holds_app in H as [_ H].
  apply Forall_app in Hc as [_ Hc]. rewrite blen_app in Hl. pose proof (blen_nonneg x). split; [done|split; [done|lia]].
Qed.

Lemma cstr_holds m p s : cstr m p s -> holds m p s.
Proof. intros (H & _). by apply holds_app in H as [H _]. Qed.

Lemma cstr_prefix m p x s : cstr m p (x ++ s) -> holds m p x /\ Forall char x.
Proof. intros (H & Hc & _). rewrite <- app_assoc in H. apply holds_app in H as [H _]. by apply Forall_app in Hc as [Hc _]. Qed.

Lemma cstr_len m p s : cstr m p s -> 0 <= blen s < 2 ^ 31.
Proof. intros (_ & _ & H). pose proof (blen_nonneg s). lia. Qed.

(** ** Filling a buffer *)

Lemma strlen_filled m d pre s n post : filled m d pre s n post -> strlen m d = Some (blen s).
Proof.
  intros (H & Ho & Hc & Hn). assert (holds m d (s ++ [0])) as Hh.
  { exists pre, (replicate (n - length s - 1) 0 ++ post). rewrite <- !app_assoc. split; [|done]. rewrite H. do 3 f_equal.
    replace (n - length s)%nat with (S (n - length s - 1)) by lia. cbn. by rewrite Nat.sub_0_r. }
  destruct (holds_tail m d _ Hh) as [q Ht]. unfold strlen. rewrite Ht. cbn [mbind option_bind].
  rewrite <- app_assoc. by apply nul_at_chars.
Qed.

Lemma str_n_chars x y : Forall char x -> str_n (length x) (x ++ y) = Some x.
Proof.
  induction 1 as [|c x Hc Hx IH]; [by destruct y|]. cbn [length str_n app].
  rewrite (proj2 (Z.eqb_neq _ _)) by (unfold char in Hc; lia). by rewrite IH.
Qed.

Lemma strncat_filled m d pre s n post src x :
  filled m d pre s n post -> holds m src x -> Forall char x -> (length s + length x < n)%nat ->
  exists m', strncat m d src (blen x) = Some m' /\ filled m' d pre (s ++ x) n post /\ frame (p_blk d) m m'.
Proof.
  intros Hf Hx Hc Hl. unfold strncat. rewrite (strlen_filled _ _ _ _ _ _ Hf). cbn [mbind option_bind].
  destruct (holds_tail m src x Hx) as [q ->]. cbn [mbind option_bind].
  replace (Z.to_nat (blen x)) with (length x) by (unfold blen; lia). rewrite (str_n_chars x q Hc). cbn [mbind option_bind].
  destruct Hf as (H & Ho & Hs & Hn).
  rewrite (wrs_at m (padd d (blen s)) (pre ++ s) (replicate (S (length x)) 0) (x ++ [0])
             (replicate (n - length s - S (length x)) 0 ++ post)).
  - eexists. split; [done|]. split; [|apply frame_insert]. split; [|split; [done|]].
    + cbn. rewrite lookup_insert_eq. f_equal. rewrite length_app, <- !app_assoc. do 3 f_equal.
      by replace (n - (length s + length x))%nat with (S (n - length s - S (length x))) by lia.
    + rewrite Forall_app, length_app. split; [done|lia].
  - cbn [padd p_blk]. rewrite H. f_equal. rewrite <- !app_assoc. do 2 f_equal. rewrite app_assoc. f_equal.
    rewrite <- replicate_add. f_equal. lia.
  - cbn. rewrite blen_app. lia.
  - rewrite blen_app. unfold blen. rewrite length_replicate. cbn. lia.
Qed.

(** A whole string appended. *)
Lemma cat_all_filled m d pre s n post src x :
  filled m d pre s n post -> cstr m src x -> (length s + length x < n)%nat ->
  exists m', cat_all m d src = Some m' /\ filled m' d pre (s ++ x) n post /\ frame (p_blk d) m m'.
Proof.
  intros Hf Hx Hl. unfold cat_all. rewrite (strlen_cstr _ _ _ Hx). cbn [mbind option_bind].
  apply strncat_filled; [done|by apply cstr_holds|apply Hx|done].
Qed.

(** [clear_dst] on a buffer of [n] bytes. *)
Definition buffer (m : cmem) (d : ptr) (pre : bytes) (n : nat) (post : bytes) : Prop :=
  exists x, m !! p_blk d = Some (pre ++ x ++ post) /\ p_off d = blen pre /\ length x = n.

Lemma filled_buffer m d pre s n post : filled m d pre s n post -> buffer m d pre n post.
Proof.
  intros (H & Ho & Hc & Hn). exists (s ++ replicate (n - length s) 0). rewrite <- app_assoc. split; [done|split; [done|]].
  rewrite length_app, length_replicate. lia.
Qed.

Lemma clear_dst_filled m d pre n post :
  buffer m d pre n post -> (0 < n)%nat -> Z.of_nat n < 2 ^ 31 ->
  exists m', clear_dst m d (Z.of_nat n) = Some m' /\ filled m' d pre [] n post /\ frame (p_blk d) m m'.
Proof.
  intros (x & H & Ho & Hx) Hn Hb. unfold clear_dst, SET_ZERO. rewrite u8_id by (unfold is_u8, U8_MOD; lia).
  rewrite <- Hx. change (Z.of_nat (length x)) with (blen x). rewrite (holds_rds m d x) by (by exists pre, post).
  cbn [mbind option_bind]. rewrite (wrs_at m d pre x (replicate (length x) 0) post) by (done || (unfold blen; by rewrite length_replicate)).
  cbn [mbind option_bind].
  set (y := replicate (length x - 1) 0).
  replace (blen x - 1) with (blen y) by (unfold blen, y; rewrite length_replicate; lia).
  assert (replicate (length x) 0 = y ++ [0]) as Ey.
  { unfold y. rewrite <- replicate_S_end. f_equal. lia. }
  rewrite (st_at _ d pre y 0 post) by (done || (rewrite lookup_insert_eq; by rewrite Ey, <- app_assoc)).
  eexists. split; [done|]. split.
  - split; [|split; [done|split; [constructor|cbn; lia]]]. rewrite lookup_insert_eq. cbn [app length].
    f_equal. f_equal. rewrite Nat.sub_0_r, Ey, <- app_assoc. done.
  - etransitivity; apply frame_insert.
Qed.

(** ** Blocks and bytes, decided by computing *)

Lemma holds_start m k x b : m !! k = Some (x ++ b) -> holds m (mk_ptr k 0) x.
Proof. intros H. by exists [], b. Qed.

Lemma cstr_zero m k s b :
  m !! k = Some (s ++ 0 :: b) -> Forall char s -> blen s < 2 ^ 31 -> cstr m (mk_ptr k 0) s.
Proof. intros H Hc Hl. split; [|done]. apply holds_start with b. by rewrite <- app_assoc. Qed.

End StrRep.
