(* ===== verification/LiskStringSearch.v ===== *)
(** * Searching in strings

    What a search returns, as a function of the characters; the skip table of
    [bh_search] and why no occurrence is passed over; the repeated search of
    [_strstr], whose static variables remember the place, and the last match of
    [_strstr_r]. *)

From S2P Require Import Prelude LiskString LiskStringRep.

Module StrSearch.
Import Str StrRep.

(** ** The reference *)

(** The first place of [x] in [t], tried one by one. *)
Fixpoint find (x t : bytes) : option Z :=
  if decide (x `prefix_of` t) then Some 0
  else match t with [] => None | _ :: t' => n ← find x t'; Some (n + 1) end.

(** The text before each occurrence, from left to right and without overlap, and
    what is behind the last; [n] bounds the number of occurrences. *)
Fixpoint cut (n : nat) (x t : bytes) : list bytes * bytes :=
  match n with
  | O => ([], t)
  | S n' =>
      match find x t with
      | None => ([], t)
      | Some i =>
          let '(ps, last) := cut n' x (drop (Z.to_nat i + length x) t) in
          (take (Z.to_nat i) t :: ps, last)
      end
  end.

Definition pieces (x t : bytes) : list bytes * bytes := cut (length t) x t.

(** Where the occurrences between the pieces start, when the first piece starts at [o]. *)
Fixpoint starts (x : bytes) (o : Z) (ps : list bytes) : list Z :=
  match ps with
  | [] => []
  | p :: ps' => o + blen p :: starts x (o + blen p + blen x) ps'
  end.

Lemma find_some x t i :
  find x t = Some i -> exists y z, t = y ++ x ++ z /\ blen y = i /\
    forall j, (j < length y)%nat -> ~ x `prefix_of` drop j t.
Proof.
  revert i. induction t as [|c t IH]; intros i; cbn [find]; case_decide as Hp; try done.
  - intros [= <-]. destruct Hp as [z Hz]. exists [], z. cbn. split; [done|split; [done|lia]].
  - intros [= <-]. destruct Hp as [z Hz]. exists [], z. cbn. split; [done|split; [done|lia]].
  - destruct (find x t) as [n|] eqn:E; [|done]. intros [= <-].
    destruct (IH n eq_refl) as (y & z & Ht & Hy & Hj). exists (c :: y), z. split; [by rewrite Ht|].
    split; [unfold blen in *; cbn; lia|]. intros [|j] Hlt; [done|]. cbn. apply Hj. cbn in Hlt. lia.
Qed.

Lemma find_none x t : find x t = None -> forall j, ~ x `prefix_of` drop j t.
Proof.
  induction t as [|c t IH]; cbn [find]; case_decide as Hp; try done.
  - intros _ j. by rewrite drop_nil.
  - destruct (find x t); [done|]. intros _ [|j]; [done|]. by apply IH.
Qed.

Lemma find_prefix x t : x `prefix_of` t -> find x t = Some 0.
Proof. intros H. destruct t; cbn [find]; by rewrite decide_True. Qed.

Lemma find_short x t : (length t < length x)%nat -> find x t = None.
Proof.
  intros Hl. induction t as [|c t IH]; cbn [find].
  - rewrite decide_False; [done|]. intros Hp%prefix_length. cbn in *. lia.
  - rewrite decide_False by (intros Hp%prefix_length; cbn in *; lia). cbn in Hl. by rewrite IH by lia.
Qed.

(** Places with no occurrence may be passed over. *)
Lemma find_drop x t k :
  (k <= length t)%nat -> (forall j, (j < k)%nat -> ~ x `prefix_of` drop j t) ->
  find x t = (n ← find x (drop k t); Some (Z.of_nat k + n)).
Proof.
  revert t. induction k as [|k IH]; intros t Hk Hn.
  { rewrite drop_0. by destruct (find x t). }
  destruct t as [|c t]; [cbn in Hk; lia|]. cbn [find drop].
  rewrite decide_False by (apply (Hn 0%nat); lia). rewrite (IH t).
  - destruct (find x (drop k t)); cbn; [|done]. f_equal. lia.
  - cbn in Hk. lia.
  - intros j Hj. apply (Hn (S j)). lia.
Qed.

(** ** Cutting *)

(** The cut as a relation, one occurrence at a time. *)
Inductive cuts (x : bytes) : bytes -> list bytes -> bytes -> Prop :=
| cuts_end t : find x t = None -> cuts x t [] t
| cuts_next p t ps last :
    find x (p ++ x ++ t) = Some (blen p) -> cuts x t ps last -> cuts x (p ++ x ++ t) (p :: ps) last.

Lemma cut_cuts x n t ps last : x <> [] -> (length t <= n)%nat -> cut n x t = (ps, last) -> cuts x t ps last.
Proof.
  intros Hx. assert (0 < length x)%nat as Hl by (destruct x; [done|cbn; lia]).
  revert t ps. induction n as [|n IH]; intros t ps Hn; cbn [cut].
  { destruct t; [|cbn in Hn; lia]. intros [= <- <-]. constructor. by apply find_short. }
  destruct (find x t) as [i|] eqn:E; [|intros [= <- <-]; by constructor].
  destruct (find_some x t i E) as (y & z & -> & <- & _).
  replace (Z.to_nat (blen y)) with (length y) by (unfold blen; lia). rewrite take_app_length.
  replace (length y + length x)%nat with (length (y ++ x)) by apply length_app.
  rewrite (app_assoc y), drop_app_length, <- app_assoc.
  destruct (cut n x z) as [ps' l'] eqn:Ec. intros [= <- <-].
  constructor; [done|]. apply IH; [|done]. rewrite !length_app in Hn. lia.
Qed.

Lemma pieces_cuts x t ps last : x <> [] -> pieces x t = (ps, last) -> cuts x t ps last.
Proof. intros. by apply cut_cuts with (length t). Qed.

(** Nothing is lost by cutting. *)
Lemma cuts_join x t ps last : cuts x t ps last -> t = concat (map (fun p => p ++ x) ps) ++ last.
Proof. induction 1 as [|p t ps last _ _ IH]; [done|]. cbn. rewrite IH at 1. by rewrite <- !app_assoc. Qed.

Lemma cuts_length x t ps last : x <> [] -> cuts x t ps last -> (length ps <= length t)%nat.
Proof.
  intros Hx. assert (0 < length x)%nat by (destruct x; [done|cbn; lia]).
  induction 1; cbn; [lia|]. rewrite !length_app. lia.
Qed.

(** ** The search with skips *)

Section Horspool.
Context (m : cmem) (sub : ptr) (x : bytes) (Hx : holds m sub x) (Hb : Forall byte x).

(** [skip] is right for the first [n] characters of the pattern. *)
Definition skip_ok (n : nat) (skip : list Z) : Prop :=
  forall c, 0 <= c < 256 -> exists s, skip !! Z.to_nat c = Some s /\ 1 <= s <= blen x /\
    forall j, (j < n)%nat -> x !! j = Some c -> s <= blen x - 1 - Z.of_nat j.

Lemma skip_ok_init : x <> [] -> skip_ok 0 (replicate 256 (blen x)).
Proof.
  intros Hn c Hc. exists (blen x). split; [apply lookup_replicate_2; lia|].
  split; [|lia]. destruct x; [done|]. unfold blen. cbn. lia.
Qed.

Lemma skip_ok_step n skip c :
  skip_ok n skip -> x !! n = Some c -> (S n < length x)%nat ->
  skip_ok (S n) (<[Z.to_nat c := blen x - 1 - Z.of_nat n]> skip).
Proof.
  intros Hs Hc Hn d Hd. pose proof (proj1 (Forall_lookup _ _) Hb _ _ Hc) as Hbc. unfold byte in Hbc.
  destruct (Hs d Hd) as (s & Hl & Hr & Hj). destruct (decide (c = d)) as [<-|Hne].
  - exists (blen x - 1 - Z.of_nat n). split; [apply list_lookup_insert_eq; by eapply lookup_lt_Some|].
    unfold blen. split; [lia|]. intros j Hlt _. lia.
  - exists s. split; [rewrite list_lookup_insert_ne by lia; done|]. split; [done|].
    intros j Hlt Hjc. destruct (decide (j = n)) as [->|]; [congruence|]. apply Hj; [lia|done].
Qed.

Lemma bh_skip_fill_spec k n skip :
  (n + k + 1 = length x)%nat -> skip_ok n skip ->
  exists skip', bh_skip_fill k m sub (blen x - 1) (Z.of_nat n) skip = Some skip' /\ skip_ok (n + k) skip'.
Proof.
  revert n skip. induction k as [|k IH]; intros n skip Hk Hs.
  { exists skip. by rewrite Nat.add_0_r. }
  destruct (lookup_lt_is_Some_2 x n ltac:(lia)) as [c Hc]. cbn [bh_skip_fill].
  rewrite (holds_ld _ _ _ _ _ Hx Hc). cbn [mbind option_bind].
  replace (Z.of_nat n + 1) with (Z.of_nat (S n)) by lia.
  destruct (IH (S n) (<[Z.to_nat c := blen x - 1 - Z.of_nat n]> skip)) as (s' & -> & Hs'); [lia|apply skip_ok_step; [done|done|lia]|].
  exists s'. split; [done|]. by replace (n + S k)%nat with (S n + k)%nat by lia.
Qed.

Lemma bh_compare_spec str t n :
  holds m str t -> (n < length x)%nat -> (n < length t)%nat ->
  bh_compare n m str sub = Some (bool_decide (take (S n) t = take (S n) x)).
Proof.
  intros Ht. revert t Ht. induction n as [|n IH]; intros t Ht Hnx Hnt;
    destruct (lookup_lt_is_Some_2 t _ Hnt) as [a Ha]; destruct (lookup_lt_is_Some_2 x _ Hnx) as [b Hbb].
  - cbn [bh_compare]. rewrite (holds_ld _ _ _ _ _ Ht Ha), (holds_ld _ _ _ _ _ Hx Hbb). cbn [mbind option_bind].
    destruct t; [done|]. destruct x; [done|]. cbn in *. simplify_eq. rewrite !take_0.
    destruct (a =? b) eqn:E; to_prop; [by rewrite bool_decide_true by congruence|].
    rewrite bool_decide_false by congruence. done.
  - cbn [bh_compare]. rewrite (holds_ld _ _ _ _ _ Ht Ha), (holds_ld _ _ _ _ _ Hx Hbb). cbn [mbind option_bind].
    rewrite (take_S_r _ _ _ Ha), (take_S_r _ _ _ Hbb). destruct (a =? b) eqn:E; to_prop.
    + rewrite (IH t) by (done || lia). f_equal. apply bool_decide_ext. rewrite E. split; [by intros ->|].
      intros H. by apply app_inj_tail in H as [H _].
    + rewrite bool_decide_false; [done|]. intros H. by apply app_inj_tail in H as [_ H].
Qed.

(** The skip for the character under the last place of the pattern passes over no
    occurrence. *)
Lemma skip_sound skip t c s :
  skip_ok (length x - 1) skip -> (length x <= length t)%nat -> ~ x `prefix_of` t ->
  t !! (length x - 1)%nat = Some c -> skip !! Z.to_nat c = Some s -> byte c ->
  1 <= s <= blen x /\ forall j, (j < Z.to_nat s)%nat -> ~ x `prefix_of` drop j t.
Proof.
  intros Hs Hl Hn Hc Hsk Hbc. destruct (Hs c Hbc) as (s' & Hs' & Hr & Hj). simplify_eq. split; [done|].
  unfold blen in Hr. intros [|j] Hlt [z Hz]; [apply Hn; by exists z|].
  assert (x !! (length x - 1 - S j)%nat = Some c) as Hxc.
  { pose proof (f_equal (fun l => l !! (length x - 1 - S j)%nat) Hz) as H. cbn in H.
    rewrite lookup_drop, lookup_app_l in H by lia. rewrite <- H. rewrite <- Hc. f_equal. lia. }
  apply Hj in Hxc; [|lia]. unfold blen in Hxc. lia.
Qed.

Lemma bh_loop_spec skip fuel str t :
  skip_ok (length x - 1) skip -> x <> [] -> holds m str t -> Forall byte t ->
  (length t < fuel)%nat -> blen t < U4_MOD ->
  bh_loop fuel m skip str (blen t) sub (blen x) = Some (i ← find x t; Some (padd str i)).
Proof.
  intros Hs Hx0. assert (0 < length x)%nat as Hl by (destruct x; [done|cbn; lia]).
  revert str t. induction fuel as [|f IH]; intros str t Ht Htb Hf Hm; [lia|]. cbn [bh_loop].
  destruct (blen x <=? blen t) eqn:E; to_prop.
  2:{ rewrite find_short by (unfold blen in E; lia). done. }
  assert (u4 (blen x - 1) = Z.of_nat (length x - 1)) as -> by (rewrite u4_id; unfold is_u4, blen in *; lia).
  assert (length x <= length t)%nat as Hle by (unfold blen in E; lia).
  rewrite Nat2Z.id, (bh_compare_spec str t) by (done || lia). cbn [mbind option_bind].
  replace (S (length x - 1)) with (length x) by lia. rewrite (take_ge x) by done.
  case_bool_decide as Hp.
  - rewrite find_prefix; [cbn; by rewrite padd_0|]. exists (drop (length x) t). rewrite <- (take_drop (length x) t) at 1. by rewrite Hp.
  - assert (~ x `prefix_of` t) as Hnp by (intros [z ->]; by rewrite take_app_length in Hp).
    destruct (lookup_lt_is_Some_2 t (length x - 1) ltac:(lia)) as [c Hc].
    rewrite (holds_ld _ _ _ _ _ Ht Hc). cbn [mbind option_bind].
    pose proof (proj1 (Forall_lookup _ _) Htb _ _ Hc) as Hbc. destruct (Hs c Hbc) as (s & Hsk & _).
    rewrite Hsk. cbn [mbind option_bind].
    destruct (skip_sound skip t c s Hs Hle Hnp Hc Hsk Hbc) as [Hr Hno].
    rewrite <- (take_drop (Z.to_nat s) t) in Ht. apply holds_app in Ht as [_ Ht].
    assert (blen (take (Z.to_nat s) t) = s) as Es by (unfold blen in *; rewrite length_take; lia).
    rewrite Es in Ht. assert (u4 (blen t - s) = blen (drop (Z.to_nat s) t)) as ->.
    { unfold blen in *. rewrite length_drop, u4_id; unfold is_u4; lia. }
    rewrite IH; [|done|by apply Forall_drop|rewrite length_drop; lia|unfold blen in *; rewrite length_drop; lia].
    f_equal. rewrite (find_drop x t (Z.to_nat s)) by (done || (unfold blen in *; lia)).
    destruct (find x (drop (Z.to_nat s) t)); cbn; [|done]. rewrite padd_padd. do 2 f_equal. lia.
Qed.

Lemma bh_search_find str t :
  x <> [] -> holds m str t -> Forall byte t -> blen t < U4_MOD -> blen x < U4_MOD ->
  bh_search m (Some str) (blen t) (Some sub) (blen x) = Some (i ← find x t; Some (padd str i)).
Proof.
  intros Hx0 Ht Htb Hm Hmx. assert (0 < length x)%nat as Hl by (destruct x; [done|cbn; lia]).
  unfold bh_search. destruct (_ || _) eqn:E.
  { to_prop. rewrite find_short; [done|]. unfold blen in E. destruct E; to_prop; lia. }
  to_prop. assert (u4 (blen x - 1) = blen x - 1) as -> by (apply u4_id; unfold is_u4, blen in *; lia).
  destruct (bh_skip_fill_spec (Z.to_nat (blen x - 1)) 0 _ ltac:(unfold blen; lia) (skip_ok_init Hx0)) as (skip & Hsk & Hok).
  change (Z.of_nat 0) with 0 in Hsk. rewrite Hsk. cbn [mbind option_bind].
  apply bh_loop_spec; [|done|done|done|unfold blen; lia|done].
  by replace (length x - 1)%nat with (0 + Z.to_nat (blen x - 1))%nat by (unfold blen; lia).
Qed.
End Horspool.
(** ** The repeated search *)

Section Repeat.
Context (m : cmem) (s q : ptr) (x t : bytes).
Context (Hq : cstr m q x) (Hs : cstr m s t) (Hx : x <> []) (Hlt : blen x < blen t).

Lemma search_from y z : t = y ++ z -> search m (padd s (blen y)) q = Some (i ← find x z; Some (padd s (blen y + i))).
Proof.
  intros E. pose proof Hs as Hs'. rewrite E in Hs'. apply cstr_drop in Hs'. unfold search.
  pose proof (cstr_len _ _ _ Hs'). pose proof (cstr_len _ _ _ Hq).
  rewrite (strlen_cstr _ _ _ Hs'), (strlen_cstr _ _ _ Hq). cbn [mbind option_bind].
  rewrite !u4_id by (unfold is_u4, U4_MOD; lia).
  rewrite (bh_search_find m q x (cstr_holds _ _ _ Hq)) with (t := z); try done.
  - f_equal. destruct (find x z); [|done]. cbn. by rewrite padd_padd.
  - destruct Hq as (_ & Hc & _). eapply Forall_impl; [exact Hc|]. unfold char, byte. lia.
  - by apply cstr_holds.
  - destruct Hs' as (_ & Hc & _). eapply Forall_impl; [exact Hc|]. unfold char, byte. lia.
  - unfold U4_MOD. lia.
  - unfold U4_MOD. lia.
Qed.

(** Not in the middle of this very search. *)
Definition unused (v : strstr_static) : Prop := ~ (last_str v = Some s /\ last_pat v = Some q).

(** The next call looks from offset [o] on. *)
Definition at_offset (v : strstr_static) (o : Z) : Prop :=
  v = mk_static (Some s) (Some q) (Some (padd s o)) \/ (unused v /\ o = 0).

Definition found_at (o : Z) : strstr_static := mk_static (Some s) (Some q) (Some (padd s o)).

(** What a call without a result leaves behind, [z] being what was still to be searched. *)
Definition after_miss (v : strstr_static) (z : bytes) : strstr_static :=
  if decide (last_str v = Some s /\ last_pat v = Some q)
  then match z with [] => v | _ => static_nil end
  else mk_static (Some s) (Some q) None.

Lemma strstr_guard : (blen t <=? blen x) = false.
Proof. apply Z.leb_gt. lia. Qed.

Lemma strstr_step v y z :
  t = y ++ z -> at_offset v (blen y) ->
  _strstr m v (Some s) (Some q) =
    match find x z with
    | Some i => Some (Some (padd s (blen y + i)), found_at (blen y + i + blen x))
    | None => Some (None, after_miss v z)
    end.
Proof.
  intros E Ho. unfold _strstr. rewrite (strlen_cstr _ _ _ Hq), (strlen_cstr _ _ _ Hs). cbn [mbind option_bind].
  rewrite strstr_guard. unfold after_miss. pose proof (search_from y z E) as Hse.
  destruct Ho as [->|[Hun H0]]; cbn [last_str last_pat].
  - rewrite !decide_True by done. unfold _strstr_again. cbn [cursor last_str last_pat].
    rewrite (strlen_cstr _ _ _ Hs). cbn [mbind option_bind].
    rewrite <- (padd_0 s) at 2. rewrite !ptr_lt_padd. cbn [mbind option_bind].
    rewrite (proj2 (Z.ltb_ge _ _)) by apply blen_nonneg. cbn [orb].
    pose proof (f_equal blen E) as El. rewrite blen_app in El. destruct z as [|c z].
    + rewrite (proj2 (Z.ltb_lt _ _)) by (change (blen []) with 0 in El; lia).
      rewrite find_short; [done|]. destruct x; [done|cbn; lia].
    + rewrite (proj2 (Z.ltb_ge _ _)) by (unfold blen in El |- *; cbn in El; lia). rewrite Hse. cbn [mbind option_bind].
      destruct (find x (c :: z)); cbn [mbind option_bind]; [|done].
      rewrite (strlen_cstr _ _ _ Hq). cbn [mbind option_bind]. by rewrite padd_padd.
  - rewrite !decide_False by done. destruct y; [|unfold blen in H0; cbn in H0; lia].
    change (blen []) with 0 in Hse |- *. rewrite padd_0 in Hse. rewrite Hse. cbn [mbind option_bind].
    by destruct (find x z); cbn [mbind option_bind]; [rewrite padd_padd|].
Qed.

(** [n] calls in a row. *)
Fixpoint strstr_calls (n : nat) (v : strstr_static) : option (list (option ptr) * strstr_static) :=
  match n with
  | O => Some ([], v)
  | S n' =>
      '(r, v) ← _strstr m v (Some s) (Some q);
      '(rs, v) ← strstr_calls n' v;
      Some (r :: rs, v)
  end.

Lemma find_at_offset p z v y :
  t = y ++ p ++ x ++ z -> at_offset v (blen y) -> find x (p ++ x ++ z) = Some (blen p) ->
  _strstr m v (Some s) (Some q) = Some (Some (padd s (blen y + blen p)), found_at (blen (y ++ p ++ x))).
Proof.
  intros E Ho Hf. rewrite (strstr_step v y _ E Ho), Hf. do 3 f_equal. unfold found_at. do 3 f_equal.
  rewrite !blen_app. lia.
Qed.

(** Where the calls are once all pieces have been passed. *)
Definition at_last (v : strstr_static) (ps : list bytes) (last : bytes) : strstr_static :=
  match ps with [] => v | _ => found_at (blen t - blen last) end.

Lemma at_last_cons v p ps last y z :
  cuts x z ps last -> t = y ++ p ++ x ++ z ->
  at_last (found_at (blen (y ++ p ++ x))) ps last = at_last v (p :: ps) last.
Proof using Type.
  intros Hc E. destruct ps; [|done]. cbn. assert (last = z) as -> by (clear - Hc; by inversion Hc).
  f_equal. rewrite E, !blen_app. clear. lia.
Qed.

Lemma strstr_calls_spec z ps last y v :
  cuts x z ps last -> t = y ++ z -> at_offset v (blen y) ->
  strstr_calls (length ps) v =
    Some (map (fun o => Some (padd s o)) (starts x (blen y) ps), at_last v ps last).
Proof.
  intros Hc. revert y v. induction Hc as [z Hz|p z ps last Hf Hc IH]; intros y v E Ho; [done|].
  cbn [length strstr_calls]. rewrite (find_at_offset p z v y E Ho Hf). cbn [mbind option_bind].
  rewrite (IH (y ++ p ++ x)); [|by rewrite E, <- !app_assoc|by left]. cbn [mbind option_bind starts map].
  rewrite (at_last_cons v p) with (y := y) (z := z) by done.
  replace (blen (y ++ p ++ x)) with (blen y + blen p + blen x) by (rewrite !blen_app; lia). done.
Qed.

(** The call after the last occurrence. *)
Lemma strstr_last ps last v :
  cuts x t ps last -> at_offset v 0 ->
  _strstr m (at_last v ps last) (Some s) (Some q) = Some (None, after_miss (at_last v ps last) last) /\
  find x last = None.
Proof.
  intros Hc Ho. assert (find x last = None) as Hn by (clear - Hc; by induction Hc). split; [|done].
  pose proof (cuts_join _ _ _ _ Hc) as E. rewrite (strstr_step _ _ _ E); [by rewrite Hn|].
  pose proof (f_equal blen E) as El. rewrite blen_app in El. destruct ps; cbn [at_last map concat] in *.
  - done.
  - left. unfold found_at. do 3 f_equal. lia.
Qed.
End Repeat.

(** C19: [bh_search] returns the first place of the pattern in the text, or nil when
    there is none: no skip of its table passes over an occurrence, every index of
    the table is inside it, and no character outside the two strings is read. *)
Theorem bh_search_first (m : cmem) (str sub : ptr) (t x : bytes) :
  holds m str t -> holds m sub x -> Forall byte t -> Forall byte x -> x <> [] ->
  blen t < U4_MOD -> blen x < U4_MOD ->
  exists r, bh_search m (Some str) (blen t) (Some sub) (blen x) = Some r /\
    match r with
    | Some p => exists y z, t = y ++ x ++ z /\ p = padd str (blen y) /\
                  forall j, (j < length y)%nat -> ~ x `prefix_of` drop j t
    | None => forall j, ~ x `prefix_of` drop j t
    end.
Proof.
  intros Ht Hx Htb Hxb Hn Hlt Hlx. eexists. split; [by apply bh_search_find|].
  destruct (find x t) as [i|] eqn:E; cbn.
  - destruct (find_some _ _ _ E) as (y & z & -> & <- & Hj). by exists y, z.
  - by apply find_none.
Qed.

Lemma bh_search_first_witness :
  let m : cmem := {[ 1%nat := [97; 97; 98; 97; 98; 255; 0]; 2%nat := [97; 98; 255; 0] ]} in
  bh_search m (Some (mk_ptr 1 0)) 6 (Some (mk_ptr 2 0)) 3 = Some (Some (mk_ptr 1 3)) /\
  exists r, bh_search m (Some (mk_ptr 1 0)) 6 (Some (mk_ptr 2 0)) 3 = Some r /\
    match r with
    | Some p => exists y z, [97; 97; 98; 97; 98; 255] = y ++ [97; 98; 255] ++ z /\ p = padd (mk_ptr 1 0) (blen y) /\
                  forall j, (j < length y)%nat -> ~ [97; 98; 255] `prefix_of` drop j [97; 97; 98; 97; 98; 255]
    | None => forall j, ~ [97; 98; 255] `prefix_of` drop j [97; 97; 98; 97; 98; 255]
    end.
Proof.
  split; [vm_compute; reflexivity|].
  apply (bh_search_first _ (mk_ptr 1 0) (mk_ptr 2 0) [97; 97; 98; 97; 98; 255] [97; 98; 255]).
  - by apply holds_start with [0].
  - by apply holds_start with [0].
  - repeat constructor; unfold byte; lia.
  - repeat constructor; unfold byte; lia.
  - discriminate.
  - reflexivity.
  - reflexivity.
Defined.

(** [_index] finds the first such character. *)
Lemma index_first m s t ch :
  cstr m s t -> char ch -> p_blk s <> 0%nat ->
  _index m (Some s) ch = Some (i ← find [ch] t; Some (padd s i)).
Proof.
  intros Hs Hch Hb. unfold _index. rewrite (strlen_cstr _ _ _ Hs). cbn [mbind option_bind].
  pose proof (cstr_len _ _ _ Hs). rewrite u4_id by (unfold is_u4, U4_MOD; lia).
  apply (bh_search_find _ (mk_ptr 0 0) [ch]).
  - apply holds_start with []. by rewrite lookup_insert_eq.
  - constructor; [|done]. unfold char in Hch. unfold byte. lia.
  - done.
  - eapply (holds_frame 0); [apply frame_insert|done|by apply cstr_holds].
  - destruct Hs as (_ & Hc & _). eapply Forall_impl; [exact Hc|]. unfold char, byte. lia.
  - unfold U4_MOD. lia.
  - reflexivity.
Qed.

(** C37: calling [_strstr] again and again with the same two pointers walks over the
    occurrences of the pattern from left to right, without overlap.  The next call
    returns nil and, when there is text behind the last occurrence, forgets the
    strings, so that the walk can start again; when the last occurrence ends the
    string it forgets nothing, and every later call with these pointers returns nil. *)
Theorem strstr_iterates (m : cmem) (v : strstr_static) (s q : ptr) (t x rest : bytes) (ps : list bytes) :
  cstr m s t -> cstr m q x -> x <> [] -> blen x < blen t -> unused s q v ->
  pieces x t = (ps, rest) -> ps <> [] ->
  exists v', strstr_calls m s q (length ps) v = Some (map (fun o => Some (padd s o)) (starts x 0 ps), v') /\
    t = concat (map (fun p => p ++ x) ps) ++ rest /\ (forall j, ~ x `prefix_of` drop j rest) /\
    (rest <> [] -> _strstr m v' (Some s) (Some q) = Some (None, static_nil)) /\
    (rest = [] -> forall n, strstr_calls m s q n v' = Some (replicate n None, v')).
Proof.
  intros Hs Hq Hx Hl Hu Hp Hne. pose proof (pieces_cuts _ _ _ _ Hx Hp) as Hc.
  assert (at_offset s q v 0) as Ho by (by right).
  destruct (strstr_last m s q x t Hq Hs Hx Hl ps rest v Hc Ho) as [Hm Hn].
  eexists. split; [by apply (strstr_calls_spec m s q x t Hq Hs Hx Hl t ps rest [])|].
  split; [by apply cuts_join|]. split; [by apply find_none|]. destruct ps as [|p ps]; [done|]. cbn [at_last] in *.
  unfold after_miss in Hm. rewrite decide_True in Hm by done.
  split; intros Hr; [by destruct rest|]. subst rest. intros n. induction n as [|n IH]; [done|].
  cbn [strstr_calls]. rewrite Hm. cbn [mbind option_bind]. by rewrite IH.
Qed.

Lemma strstr_iterates_witness :
  let m : cmem := {[ 1%nat := [97; 98; 46; 97; 98; 46; 0]; 2%nat := [97; 98; 0] ]} in
  _strstr m static_nil (Some (mk_ptr 1 0)) (Some (mk_ptr 2 0)) =
    Some (Some (mk_ptr 1 0), mk_static (Some (mk_ptr 1 0)) (Some (mk_ptr 2 0)) (Some (mk_ptr 1 2))) /\
  exists v', strstr_calls m (mk_ptr 1 0) (mk_ptr 2 0) (length [[]; [46]]) static_nil =
      Some (map (fun o => Some (padd (mk_ptr 1 0) o)) (starts [97; 98] 0 [[]; [46]]), v') /\
    [97; 98; 46; 97; 98; 46] = concat (map (fun p => p ++ [97; 98]) [[]; [46]]) ++ [46] /\
    (forall j, ~ [97; 98] `prefix_of` drop j [46]) /\
    ([46] <> [] -> _strstr m v' (Some (mk_ptr 1 0)) (Some (mk_ptr 2 0)) = Some (None, static_nil)) /\
    ([46] = [] -> forall n, strstr_calls m (mk_ptr 1 0) (mk_ptr 2 0) n v' = Some (replicate n None, v')).
Proof.
  split; [vm_compute; reflexivity|].
  apply (strstr_iterates _ static_nil (mk_ptr 1 0) (mk_ptr 2 0) [97; 98; 46; 97; 98; 46] [97; 98] [46] [[]; [46]]).
  - apply cstr_zero with []; [reflexivity|repeat constructor; unfold char; lia|reflexivity].
  - apply cstr_zero with []; [reflexivity|repeat constructor; unfold char; lia|reflexivity].
  - discriminate.
  - reflexivity.
  - intros [H _]. discriminate H.
  - vm_compute. reflexivity.
  - discriminate.
Defined.

(** A string that ends with the pattern can be searched once: afterwards the search
    finds nothing in it, nor in what another string stored at its place holds. *)
Lemma strstr_never_again :
  let m : cmem := {[ 1%nat := [46; 97; 98; 0]; 2%nat := [97; 98; 0] ]} in
  let s := mk_ptr 1 0 in let q := mk_ptr 2 0 in
  exists v, _strstr m static_nil (Some s) (Some q) = Some (Some (mk_ptr 1 1), v) /\
    _strstr m v (Some s) (Some q) = Some (None, v) /\
    _strstr (<[1%nat := [97; 98; 46; 0]]> m) v (Some s) (Some q) = Some (None, v).
Proof. eexists. split; [vm_compute; reflexivity|]. split; vm_compute; reflexivity. Qed.

(** ** The last match *)

Lemma strstr_r_loop_spec m s q x t z ps rest y fuel lr :
  cstr m q x -> cstr m s t -> x <> [] -> blen x < blen t ->
  cuts x z ps rest -> t = y ++ z -> (length z < fuel)%nat ->
  strstr_r_loop fuel m q (padd s (blen y)) (padd s (blen t)) lr =
    Some (match last (starts x (blen y) ps) with Some o => Some (padd s o) | None => lr end).
Proof.
  intros Hq Hs Hx Hl Hc. revert y fuel lr. induction Hc as [z Hz|p z ps rest Hf Hc IH]; intros y fuel lr E Hfu;
    (destruct fuel as [|f]; [lia|]); cbn [strstr_r_loop]; rewrite ptr_lt_padd; cbn [mbind option_bind].
  - destruct (blen y <? blen t); [|done]. by rewrite (search_from m s q x t Hq Hs Hx y z E), Hz.
  - rewrite (proj2 (Z.ltb_lt _ _)).
    2:{ rewrite E, !blen_app. pose proof (blen_nonneg p). pose proof (blen_nonneg z). destruct x; [done|].
        unfold blen in *. cbn. lia. }
    rewrite (search_from m s q x t Hq Hs Hx y _ E), Hf. cbn [mbind option_bind].
    rewrite (strlen_cstr _ _ _ Hq). cbn [mbind option_bind]. rewrite padd_padd.
    replace (blen y + blen p + blen x) with (blen (y ++ p ++ x)) by (rewrite !blen_app; lia).
    rewrite (IH (y ++ p ++ x)); [|by rewrite E, <- !app_assoc|rewrite !length_app in Hfu; destruct x; [done|cbn in Hfu; lia]].
    cbn [starts]. replace (blen (y ++ p ++ x)) with (blen y + blen p + blen x) by (rewrite !blen_app; lia).
    destruct (starts x (blen y + blen p + blen x) ps) as [|o os]; [done|].
    change (last (_ :: o :: os)) with (last (o :: os)). destruct (last (o :: os)) eqn:El; [done|].
    by apply last_None in El.
Qed.

(** [_strstr_r] returns the last of the occurrences met from the left without overlap. *)
Lemma strstr_r_spec m s q x t ps rest :
  cstr m q x -> cstr m s t -> x <> [] -> blen x < blen t -> pieces x t = (ps, rest) ->
  _strstr_r m (Some s) (Some q) = Some (padd s <$> last (starts x 0 ps)).
Proof.
  intros Hq Hs Hx Hl Hp. pose proof (pieces_cuts _ _ _ _ Hx Hp) as Hc. unfold _strstr_r.
  rewrite (strlen_cstr _ _ _ Hq), (strlen_cstr _ _ _ Hs). cbn [mbind option_bind].
  rewrite (proj2 (Z.leb_gt _ _)) by lia. rewrite <- (padd_0 s) at 1. change 0 with (blen []) at 1.
  rewrite (strstr_r_loop_spec m s q x t t ps rest []); [|done..|unfold blen; lia].
  change (blen []) with 0. by destruct (last (starts x 0 ps)).
Qed.

(** It is not the last occurrence when occurrences overlap. *)
Lemma strstr_r_not_last :
  let m : cmem := {[ 1%nat := [97; 97; 97; 0]; 2%nat := [97; 97; 0] ]} in
  _strstr_r m (Some (mk_ptr 1 0)) (Some (mk_ptr 2 0)) = Some (Some (mk_ptr 1 0)) /\
  [97; 97] `prefix_of` drop 1 [97; 97; 97].
Proof. split; [vm_compute; reflexivity|by exists []]. Qed.

(** A string is not found in itself. *)
Lemma strstr_not_itself :
  let m : cmem := {[ 1%nat := [97; 98; 0]; 2%nat := [97; 98; 0] ]} in
  _strstr m static_nil (Some (mk_ptr 1 0)) (Some (mk_ptr 2 0)) = Some (None, static_nil).
Proof. vm_compute. reflexivity. Qed.

End StrSearch.
