(* ===== verification/LiskStringEdit.v ===== *)
(** * Trims, reversal and strings built in a buffer

    What the routines that change a string in place leave in its block, what
    [_insert], [_merge], [_replace] and [_delete] write, and the numbers read from
    decimal strings. *)

From S2P Require Import Prelude LiskString LiskStringRep.

Module StrEdit.
Import Str StrRep.

(** The string [s] lies at [p], between [pre] and [post] in its block. *)
Definition strbuf (m : cmem) (p : ptr) (pre s post : bytes) : Prop :=
  m !! p_blk p = Some (pre ++ s ++ 0 :: post) /\ p_off p = blen pre /\ Forall char s /\ blen s < 2 ^ 31.

Lemma strbuf_cstr m p pre s post : strbuf m p pre s post -> cstr m p s.
Proof.
  intros (H & Ho & Hc & Hl). split; [|done]. exists pre, post. rewrite <- app_assoc. done.
Qed.

(** What an operation in place promises: the string is [s'], the rest of its block is
    as long as before, and no other block has changed. *)
Definition in_place (m : cmem) (p : ptr) (pre s post s' : bytes) (m' : cmem) : Prop :=
  exists post', strbuf m' p pre s' post' /\ length (s' ++ post') = length (s ++ post) /\
    frame (p_blk p) m m'.

Lemma strlen_n4 m p s : cstr m p s -> strlen m p = Some (blen s) /\ to_n4 (blen s) = blen s.
Proof. intros H. split; [by apply strlen_cstr|]. pose proof (cstr_len _ _ _ H). by apply to_n4_id; lia. Qed.

(** ** Trims *)

Definition space (c : Z) : bool := _is_space c =? 0.

Fixpoint ltrim (s : bytes) : bytes :=
  match s with c :: s' => if space c then ltrim s' else s | [] => [] end.
Definition rtrim (s : bytes) : bytes := reverse (ltrim (reverse s)).
Definition no_spaces (s : bytes) : bytes := filter (fun c => space c = false) s.

Lemma rtrim_snoc s c : rtrim (s ++ [c]) = if space c then rtrim s else s ++ [c].
Proof.
  unfold rtrim. rewrite reverse_snoc. cbn [ltrim]. destruct (space c); [done|].
  by rewrite reverse_cons, reverse_involutive.
Qed.

Lemma rtrim_prefix s : rtrim s `prefix_of` s.
Proof.
  induction s as [|c s IH] using rev_ind; [by exists []|]. rewrite rtrim_snoc.
  destruct (space c); [|done]. etransitivity; [exact IH|by exists [c]].
Qed.

Lemma ltrim_suffix s : ltrim s `suffix_of` s.
Proof. induction s as [|c s IH]; [by exists []|]. cbn. destruct (space c); [by apply suffix_cons_r|done]. Qed.

Lemma trim_r_loop_spec m p pre s k post :
  m !! p_blk p = Some (pre ++ s ++ replicate k 0 ++ post) -> p_off p = blen pre ->
  exists m' j, trim_r_loop (length s) m p = Some m' /\ frame (p_blk p) m m' /\
    m' !! p_blk p = Some (pre ++ rtrim s ++ replicate j 0 ++ post) /\
    (length (rtrim s) + j = length s + k)%nat.
Proof.
  revert m k. induction s as [|c s IH] using rev_ind; intros m k H Ho; [by exists m, k|].
  rewrite length_app, Nat.add_1_r. cbn [trim_r_loop]. change (Z.of_nat (length s)) with (blen s).
  rewrite <- app_assoc in H. cbn in H. rewrite (ld_at _ _ _ _ _ _ H Ho). cbn [mbind option_bind].
  rewrite rtrim_snoc. change (_is_space c =? 0) with (space c). destruct (space c); cbn [negb].
  - rewrite (st_at _ _ _ _ _ _ 0 H Ho). cbn [mbind option_bind].
    destruct (IH (<[p_blk p := pre ++ s ++ 0 :: replicate k 0 ++ post]> m) (S k)) as (m' & j & -> & Hf & Hm & Hj);
      [by rewrite lookup_insert_eq|done|].
    exists m', j. split; [done|]. split; [etransitivity; [apply frame_insert|done]|]. split; [done|lia].
  - exists m, k. split; [done|]. split; [done|]. rewrite <- app_assoc, length_app. cbn. split; [done|lia].
Qed.

(** [str_trim_r] takes the spaces off the right end. *)
Lemma str_trim_r_spec m p pre s post :
  strbuf m p pre s post ->
  exists m', str_trim_r m (Some p) = Some (Some p, m') /\ in_place m p pre s post (rtrim s) m'.
Proof.
  intros Hb. pose proof (strbuf_cstr _ _ _ _ _ Hb) as Hs. destruct Hb as (H & Ho & Hc & Hl).
  destruct (strlen_n4 _ _ _ Hs) as [E1 E2]. unfold str_trim_r. rewrite E1. cbn [mbind option_bind]. rewrite E2.
  destruct (blen s <=? 0) eqn:E; to_prop.
  - assert (s = []) as -> by (destruct s; [done|unfold blen in E; cbn in E; lia]).
    rewrite (st_head m p pre 0 post 0 H Ho). cbn [mbind option_bind]. eexists. split; [done|].
    exists post. split; [|split; [done|apply frame_insert]]. split; [by rewrite lookup_insert_eq|done].
  - replace (Z.to_nat (blen s)) with (length s) by (unfold blen; lia).
    destruct (trim_r_loop_spec m p pre s 0 (0 :: post) H Ho) as (m' & j & -> & Hf & Hm & Hj).
    cbn [mbind option_bind]. exists m'. split; [done|]. exists (replicate j 0 ++ post).
    destruct (rtrim_prefix s) as [w Hw]. split; [|split; [|done]].
    + split; [|split; [done|split]].
      * rewrite Hm. do 3 f_equal. rewrite (app_comm_cons (replicate j 0)), <- replicate_S, replicate_S_end.
        by rewrite <- app_assoc.
      * rewrite Hw in Hc. by apply Forall_app in Hc as [Hc _].
      * rewrite Hw, blen_app in Hl. pose proof (blen_nonneg w). lia.
    + rewrite !length_app, length_replicate. lia.
Qed.

Lemma trim_l_loop_spec m p y z :
  holds m p (y ++ z) -> trim_l_loop (length z) m p (blen y) = Some (blen y + blen z - blen (ltrim z)).
Proof.
  revert y. induction z as [|c z IH]; intros y H; cbn [length trim_l_loop ltrim].
  { f_equal. unfold blen. cbn. lia. }
  assert (ld m p (blen y) = Some c) as ->.
  { apply (holds_ld m p _ (length y) c H). by rewrite lookup_app_r, Nat.sub_diag by lia. }
  cbn [mbind option_bind]. change (_is_space c =? 0) with (space c). destruct (space c); cbn [negb].
  - change (c :: z) with ([c] ++ z) in H. rewrite app_assoc in H.
    replace (blen y + 1) with (blen (y ++ [c])) by (rewrite blen_app; done). rewrite (IH _ H). f_equal.
    rewrite blen_app. unfold blen. cbn. lia.
  - f_equal. lia.
Qed.

(** A string made empty by a terminator at its front. *)
Lemma cut_to_nil m p pre s post :
  strbuf m p pre s post -> exists m', st m p 0 0 = Some m' /\ in_place m p pre s post [] m'.
Proof.
  intros (H & Ho & Hc & Hl). destruct s as [|c s].
  - rewrite (st_head m p pre 0 post 0 H Ho). eexists. split; [done|]. exists post.
    split; [|split; [done|apply frame_insert]]. split; [by rewrite lookup_insert_eq|done].
  - rewrite (st_head m p pre c (s ++ 0 :: post) 0 H Ho). eexists. split; [done|].
    exists (s ++ 0 :: post). split; [|split; [|apply frame_insert]].
    + split; [by rewrite lookup_insert_eq|done].
    + cbn. rewrite !length_app. cbn. lia.
Qed.

(** The move of [str_trim_l]: the string loses its first characters. *)
Lemma shift_left m p pre y z post :
  strbuf m p pre (y ++ z) post -> y <> [] ->
  exists m1 m2, memmove m p (padd p (blen y)) (blen (y ++ z) + 1 - blen y) = Some m1 /\
    st m1 p (blen (y ++ z) + 1 - blen y) 0 = Some m2 /\ in_place m p pre (y ++ z) post z m2.
Proof.
  intros Hb Hy. pose proof (strbuf_cstr _ _ _ _ _ Hb) as Hs. destruct Hb as (H & Ho & Hc & Hl).
  assert (blen (y ++ z) + 1 - blen y = blen (z ++ [0])) as -> by (rewrite !blen_app; change (blen [0]) with 1; lia).
  destruct (split_blen (y ++ z ++ [0]) (blen (z ++ [0]))) as (u & w & Euw & Hu).
  { rewrite (blen_app y). pose proof (blen_nonneg y). pose proof (blen_nonneg (z ++ [0])). lia. }
  pose proof (f_equal length Euw) as El. assert (length u = length (z ++ [0])) as Hlu by (unfold blen in Hu; lia).
  assert (0 < length y)%nat by (destruct y; [done|cbn; lia]).
  destruct w as [|c w]; [rewrite !length_app in *; cbn in *; lia|].
  assert (pre ++ (y ++ z) ++ 0 :: post = pre ++ u ++ (c :: w) ++ post) as Eb.
  { f_equal. rewrite (app_assoc u), <- Euw, <- !app_assoc. done. }
  rewrite Eb in H. unfold memmove. rewrite u8_id.
  2:{ unfold is_u8, U8_MOD. rewrite !blen_app in *. change (blen [0]) with 1.
      pose proof (blen_nonneg z). pose proof (blen_nonneg y). lia. }
  rewrite (holds_rds m _ (z ++ [0])).
  2:{ destruct (holds_app m p y (z ++ [0])) as [_ Hz]; [|done]. rewrite app_assoc. by apply Hs. }
  cbn [mbind option_bind]. rewrite (wrs_at m p pre u _ _ H Ho) by done. eexists _, _. split; [done|].
  split; [by apply (st_at _ p pre (z ++ [0]) c (w ++ post)); [apply lookup_insert_eq|]|].
  exists (0 :: w ++ post). split; [|split].
  - split; [|split; [done|]].
    + rewrite lookup_insert_eq. f_equal. by rewrite <- !app_assoc.
    + apply Forall_app in Hc as [_ Hc]. rewrite blen_app in Hl. pose proof (blen_nonneg y). split; [done|lia].
  - rewrite !length_app in *. cbn in *. rewrite !length_app. lia.
  - etransitivity; apply frame_insert.
Qed.

(** [str_trim_l] takes the spaces off the left end. *)
Lemma str_trim_l_spec m p pre s post :
  strbuf m p pre s post ->
  exists m', str_trim_l m (Some p) = Some (Some p, m') /\ in_place m p pre s post (ltrim s) m'.
Proof.
  intros Hb. pose proof (strbuf_cstr _ _ _ _ _ Hb) as Hs. pose proof Hb as (H & Ho & Hc & Hl).
  destruct (strlen_n4 _ _ _ Hs) as [E1 E2]. unfold str_trim_l. rewrite E1. cbn [mbind option_bind]. rewrite E2.
  destruct (ltrim_suffix s) as [y Hy]. pose proof (f_equal blen Hy) as El. rewrite blen_app in El.
  pose proof (cut_to_nil m p pre s post Hb) as (m0 & Hm0 & Hin).
  destruct (blen s <=? 0) eqn:E; to_prop.
  { rewrite Hm0. cbn [mbind option_bind]. exists m0. split; [done|].
    destruct s; [done|]. unfold blen in E. cbn in E. lia. }
  replace (Z.to_nat (blen s)) with (length s) by (unfold blen; lia).
  pose proof (trim_l_loop_spec m p [] s (cstr_holds _ _ _ Hs)) as Hlp. rewrite blen_nil in Hlp. rewrite Hlp.
  cbn [mbind option_bind]. rewrite Z.add_0_l. replace (blen s - blen (ltrim s)) with (blen y) by lia.
  destruct (blen s <=? blen y) eqn:E3; to_prop.
  { rewrite Hm0. cbn [mbind option_bind]. exists m0. split; [done|].
    destruct (ltrim s); [done|]. unfold blen in *. cbn in *. lia. }
  destruct (0 <? blen y) eqn:E4; to_prop.
  - rewrite Hy in Hb. destruct (shift_left m p pre y (ltrim s) post Hb) as (m1 & m2 & Hm1 & Hm2 & Hi); [by intros ->|].
    rewrite <- Hy in Hm1, Hm2, Hi. rewrite Hm1. cbn [mbind option_bind]. rewrite Hm2. by exists m2.
  - exists m. split; [done|]. assert (y = []) as -> by (destruct y; [done|unfold blen in E4; cbn in E4; lia]).
    cbn in Hy. rewrite <- Hy. by exists post.
Qed.

(** ** Removing every space *)

Lemma no_spaces_snoc s c : no_spaces (s ++ [c]) = no_spaces s ++ (if space c then [] else [c]).
Proof. unfold no_spaces. rewrite filter_app. f_equal. cbn. by destruct (space c). Qed.

Lemma no_spaces_length s : (length (no_spaces s) <= length s)%nat.
Proof. apply length_filter. Qed.

(** [y] has been read, [g] is the gap behind the characters kept of it. *)
Lemma trim_loop_spec m p pre y g z post :
  m !! p_blk p = Some (pre ++ no_spaces y ++ g ++ z ++ post) -> p_off p = blen pre ->
  (length (no_spaces y) + length g = length y)%nat ->
  exists m' g', trim_loop (length z) m p (blen y) (blen (no_spaces y)) = Some (blen (no_spaces (y ++ z)), m') /\
    m' !! p_blk p = Some (pre ++ no_spaces (y ++ z) ++ g' ++ post) /\
    (length (no_spaces (y ++ z)) + length g' = length (y ++ z))%nat /\ frame (p_blk p) m m'.
Proof.
  intros H Ho. revert m y g H. induction z as [|c z IH]; intros m y g H Hl; cbn [length trim_loop].
  { exists m, g. rewrite app_nil_r. done. }
  assert (ld m p (blen y) = Some c) as ->.
  { replace (blen y) with (blen (no_spaces y ++ g)) by (rewrite blen_app; unfold blen; lia).
    apply (ld_at m p pre (no_spaces y ++ g) c (z ++ post)); [|done]. rewrite H. by rewrite <- !app_assoc. }
  cbn [mbind option_bind]. change (_is_space c =? 0) with (space c).
  replace (blen y + 1) with (blen (y ++ [c])) by (rewrite blen_app; done).
  replace (y ++ c :: z) with ((y ++ [c]) ++ z) by (by rewrite <- app_assoc).
  pose proof (no_spaces_snoc y c) as En. destruct (space c); cbn [negb].
  - rewrite app_nil_r in En. rewrite <- En. apply (IH m (y ++ [c]) (g ++ [c])).
    + rewrite En, H. by rewrite <- !app_assoc.
    + rewrite En, !length_app. cbn. lia.
  - assert (exists d g', g ++ [c] = d :: g') as (d & g' & Eg) by (destruct g; eauto).
    rewrite (st_at m p pre (no_spaces y) d (g' ++ z ++ post)).
    2:{ rewrite H. do 2 f_equal. rewrite app_comm_cons, <- Eg. by rewrite <- app_assoc. } 2:{ done. }
    cbn [mbind option_bind]. replace (blen (no_spaces y) + 1) with (blen (no_spaces (y ++ [c]))).
    2:{ rewrite En, blen_app. done. }
    destruct (IH (<[p_blk p := pre ++ no_spaces y ++ c :: g' ++ z ++ post]> m) (y ++ [c]) g') as (m' & g1 & -> & Hm & Hg & Hf).
    + rewrite lookup_insert_eq, En. by rewrite <- !app_assoc.
    + apply (f_equal length) in Eg. rewrite En, !length_app in *. cbn in *. lia.
    + exists m', g1. split; [done|]. split; [done|]. split; [done|]. etransitivity; [apply frame_insert|done].
Qed.

Lemma no_spaces_char s : Forall char s -> Forall char (no_spaces s).
Proof. intros H. apply Forall_forall. intros c [_ Hc]%list_elem_of_filter. by apply (proj1 (Forall_forall _ _) H). Qed.

(** [str_trim] takes out every space, the inner ones too. *)
Lemma str_trim_spec m p pre s post :
  strbuf m p pre s post ->
  exists m', str_trim m (Some p) = Some (Some p, m') /\ in_place m p pre s post (no_spaces s) m'.
Proof.
  intros Hb. pose proof (strbuf_cstr _ _ _ _ _ Hb) as Hs. pose proof Hb as (H & Ho & Hc & Hl).
  destruct (strlen_n4 _ _ _ Hs) as [E1 E2]. unfold str_trim. rewrite E1. cbn [mbind option_bind]. rewrite E2.
  destruct (blen s <=? 0) eqn:E; to_prop.
  { destruct (cut_to_nil m p pre s post Hb) as (m0 & -> & Hin). exists m0. split; [done|].
    destruct s; [done|]. unfold blen in E. cbn in E. lia. }
  replace (Z.to_nat (blen s)) with (length s) by (unfold blen; lia).
  destruct (trim_loop_spec m p pre [] [] s (0 :: post)) as (m1 & g & Ht & Hm & Hg & Hf); [done|done|done|].
  cbn [app] in *. change (blen (no_spaces [])) with 0 in Ht. change (blen []) with 0 in Ht. rewrite Ht.
  cbn [mbind option_bind]. assert (exists d g', g ++ [0] = d :: g') as (d & g' & Eg) by (destruct g; eauto).
  rewrite (st_at m1 p pre (no_spaces s) d (g' ++ post)).
  2:{ rewrite Hm. do 2 f_equal. rewrite app_comm_cons, <- Eg. by rewrite <- app_assoc. } 2:{ done. }
  cbn [mbind option_bind]. eexists. split; [done|]. exists (g' ++ post). split; [|split].
  - split; [by rewrite lookup_insert_eq|]. split; [done|]. split; [by apply no_spaces_char|].
    pose proof (no_spaces_length s). unfold blen in *. lia.
  - apply (f_equal length) in Eg. rewrite !length_app in *. cbn in *. lia.
  - etransitivity; [exact Hf|apply frame_insert].
Qed.

(** ** Reversal *)

(** Two characters of a block, at offsets [i] and [j] from [p]. *)
Section Swap.
Context (p : ptr) (pre a u b : bytes) (Ho : p_off p = blen pre).
Let i := blen a.
Let j := blen a + blen u + 1.

Definition two (v w : Z) : bytes := pre ++ a ++ v :: u ++ w :: b.

Lemma two_second v w : two v w = pre ++ (a ++ v :: u) ++ w :: b /\ j = blen (a ++ v :: u).
Proof. unfold two, j. split; [by rewrite <- !app_assoc|]. unfold blen. rewrite length_app. cbn. lia. Qed.

Section Memory.
Context (m : cmem) (v w : Z) (H : m !! p_blk p = Some (two v w)).

Lemma ld_first : ld m p i = Some v.
Proof. by apply (ld_at m p pre a v (u ++ w :: b)). Qed.
Lemma ld_second : ld m p j = Some w.
Proof. destruct (two_second v w) as [E Ej]. rewrite E in H. rewrite Ej. by apply (ld_at m p pre (a ++ v :: u) w b). Qed.
Lemma st_first x : st m p i x = Some (<[p_blk p := two x w]> m).
Proof. by apply (st_at m p pre a v (u ++ w :: b)). Qed.
Lemma st_second x : st m p j x = Some (<[p_blk p := two v x]> m).
Proof.
  destruct (two_second v w) as [E Ej]. rewrite E in H. rewrite Ej. rewrite (proj1 (two_second v x)).
  by apply (st_at m p pre (a ++ v :: u) w b).
Qed.
End Memory.

Lemma xor_swap_chars_spec m c d :
  m !! p_blk p = Some (two c d) ->
  exists m', xor_swap_chars m p i j = Some m' /\ m' !! p_blk p = Some (two d c) /\ frame (p_blk p) m m'.
Proof.
  intros H. unfold xor_swap_chars. rewrite (ld_first m c d H), (ld_second m c d H). cbn [mbind option_bind].
  rewrite (st_first m c d H). cbn [mbind option_bind].
  pose proof (lookup_insert_eq m (p_blk p) (two (Z.lxor c d) d)) as H1.
  rewrite (ld_first _ _ _ H1), (ld_second _ _ _ H1). cbn [mbind option_bind].
  rewrite (st_second _ _ _ H1). cbn [mbind option_bind].
  replace (Z.lxor (Z.lxor c d) d) with c by (by rewrite Z.lxor_assoc, Z.lxor_nilpotent, Z.lxor_0_r).
  pose proof (lookup_insert_eq (<[p_blk p := two (Z.lxor c d) d]> m) (p_blk p) (two (Z.lxor c d) c)) as H2.
  rewrite (ld_first _ _ _ H2), (ld_second _ _ _ H2). cbn [mbind option_bind].
  rewrite (st_first _ _ _ H2). eexists. split; [done|].
  replace (Z.lxor (Z.lxor c d) c) with d by (by rewrite (Z.lxor_comm c d), Z.lxor_assoc, Z.lxor_nilpotent, Z.lxor_0_r).
  split; [by rewrite lookup_insert_eq|]. do 2 (etransitivity; [apply frame_insert|]). apply frame_insert.
Qed.
End Swap.

Lemma str_reverse_loop p pre fuel m a u b :
  p_off p = blen pre -> m !! p_blk p = Some (pre ++ a ++ u ++ b) -> (length u < fuel)%nat ->
  exists m', reverse_loop fuel m p (blen a) (blen a + blen u - 1) = Some m' /\
    m' !! p_blk p = Some (pre ++ a ++ reverse u ++ b) /\ frame (p_blk p) m m'.
Proof.
  intros Ho. revert m a u b. induction fuel as [|f IH]; intros m a u b H Hf; [lia|]. cbn [reverse_loop].
  destruct (blen a <? blen a + blen u - 1) eqn:E; to_prop.
  2:{ exists m. split; [done|]. split; [|done]. rewrite H. destruct u as [|c [|d u]]; [done|done|].
      unfold blen in E. cbn in E. lia. }
  destruct u as [|c u]; [unfold blen in E; cbn in E; lia|].
  destruct (exists_last (l := u)) as (u' & d & ->); [intros ->; unfold blen in E; cbn in E; lia|].
  destruct (xor_swap_chars_spec p pre a u' b Ho m c d) as (m1 & Hx & Hm1 & Hf1).
  { rewrite H. unfold two. cbn. by rewrite <- app_assoc. }
  replace (blen a + blen (c :: u' ++ [d]) - 1) with (blen a + blen u' + 1)
    by (unfold blen; cbn; rewrite length_app; cbn; lia).
  rewrite Hx. cbn [mbind option_bind].
  destruct (IH m1 (a ++ [d]) u' (c :: b)) as (m' & Hr & Hm' & Hf').
  { rewrite Hm1. unfold two. by rewrite <- !app_assoc. }
  { cbn in Hf. rewrite length_app in Hf. cbn in Hf. lia. }
  replace (blen (a ++ [d])) with (blen a + 1) in Hr by (by rewrite blen_app).
  replace (blen a + 1 + blen u' - 1) with (blen a + blen u' + 1 - 1) in Hr by lia.
  exists m'. split; [done|]. split; [|by etransitivity].
  rewrite Hm', reverse_cons, reverse_snoc. cbn. by rewrite <- !app_assoc.
Qed.

(** [_reverse_str] reverses the characters. *)
Lemma reverse_str_spec m p pre s post :
  strbuf m p pre s post ->
  exists m', _reverse_str m (Some p) = Some m' /\ strbuf m' p pre (reverse s) post /\ frame (p_blk p) m m'.
Proof.
  intros Hb. pose proof (strbuf_cstr _ _ _ _ _ Hb) as Hs. pose proof Hb as (H & Ho & Hc & Hl).
  unfold _reverse_str. rewrite (strlen_cstr _ _ _ Hs). cbn [mbind option_bind].
  destruct (blen s <=? 1) eqn:E; to_prop.
  { exists m. split; [done|]. destruct s as [|c [|d s]]; [done|done|]. unfold blen in E. cbn in E. lia. }
  destruct (str_reverse_loop p pre (S (Z.to_nat (blen s))) m [] s (0 :: post)) as (m' & Hr & Hm & Hf);
    [done|done|unfold blen; lia|].
  rewrite blen_nil, Z.add_0_l in Hr. rewrite Hr. exists m'. split; [done|]. split; [|done].
  split; [done|]. split; [done|]. split; [by apply Forall_reverse|]. unfold blen. by rewrite length_reverse.
Qed.

(** The routines that change a string in place: [str_trim_r] and [str_trim_l] take
    the spaces off one end, [str_trim] takes out every space, and [_reverse_str]
    reverses the characters.  Each leaves a terminated string where it was, stays
    inside the bytes of the old one and changes no other block. *)
Theorem string_in_place (m : cmem) (p : ptr) (pre s post : bytes) :
  strbuf m p pre s post ->
  (exists m', str_trim_r m (Some p) = Some (Some p, m') /\ in_place m p pre s post (rtrim s) m') /\
  (exists m', str_trim_l m (Some p) = Some (Some p, m') /\ in_place m p pre s post (ltrim s) m') /\
  (exists m', str_trim m (Some p) = Some (Some p, m') /\ in_place m p pre s post (no_spaces s) m') /\
  (exists m', _reverse_str m (Some p) = Some m' /\ in_place m p pre s post (reverse s) m').
Proof.
  intros Hb. split; [by apply str_trim_r_spec|]. split; [by apply str_trim_l_spec|].
  split; [by apply str_trim_spec|]. destruct (reverse_str_spec m p pre s post Hb) as (m' & Hr & Hb' & Hf).
  exists m'. split; [done|]. exists post. by rewrite !length_app, length_reverse.
Qed.

Lemma string_in_place_witness :
  let m : cmem := {[ 1%nat := [7; 32; 97; 32; 98; 9; 0; 5] ]} in
  (exists m', str_trim_r m (Some (mk_ptr 1 1)) = Some (Some (mk_ptr 1 1), m') /\
     in_place m (mk_ptr 1 1) [7] [32; 97; 32; 98; 9] [5] (rtrim [32; 97; 32; 98; 9]) m') /\
  (exists m', str_trim_l m (Some (mk_ptr 1 1)) = Some (Some (mk_ptr 1 1), m') /\
     in_place m (mk_ptr 1 1) [7] [32; 97; 32; 98; 9] [5] (ltrim [32; 97; 32; 98; 9]) m') /\
  (exists m', str_trim m (Some (mk_ptr 1 1)) = Some (Some (mk_ptr 1 1), m') /\
     in_place m (mk_ptr 1 1) [7] [32; 97; 32; 98; 9] [5] (no_spaces [32; 97; 32; 98; 9]) m') /\
  (exists m', _reverse_str m (Some (mk_ptr 1 1)) = Some m' /\
     in_place m (mk_ptr 1 1) [7] [32; 97; 32; 98; 9] [5] (reverse [32; 97; 32; 98; 9]) m').
Proof.
  apply (string_in_place _ (mk_ptr 1 1) [7] [32; 97; 32; 98; 9] [5]).
  split; [reflexivity|]. split; [reflexivity|]. split; [|reflexivity]. repeat constructor; unfold char; lia.
Defined.

End StrEdit.
