(* ===== verification/LiskStringBuild.v ===== *)
(** * Strings built in a buffer

    What [_insert], [_merge], [_replace], [_delete] and [_replace_str] write into the
    buffer their caller gives, and the numbers read from decimal strings. *)

From S2P Require Import Prelude LiskString LiskStringRep LiskStringSearch.

Module StrBuild.
Import Str StrRep StrSearch.

(** A string that may be nil, and then counts as empty. *)
Definition ostr (m : cmem) (p : option ptr) (s : bytes) : Prop :=
  match p with None => s = [] | Some q => cstr m q s end.

(** The string is in another block than [k]. *)
Definition apart (k : nat) (p : option ptr) : Prop := match p with None => True | Some q => p_blk q <> k end.

Lemma olen_ostr m p s : ostr m p s -> olen m p = Some (blen s).
Proof. destruct p as [q|]; cbn; [apply strlen_cstr|by intros ->]. Qed.

Lemma ostr_frame k m m' p s : frame k m m' -> apart k p -> ostr m p s -> ostr m' p s.
Proof. destruct p as [q|]; [apply cstr_frame|done]. Qed.

Lemma ostr_len m p s : ostr m p s -> 0 <= blen s < 2 ^ 31.
Proof. destruct p as [q|]; cbn; [apply cstr_len|intros ->; rewrite blen_nil; lia]. Qed.

Lemma blen_pos (s : bytes) : s <> [] -> (blen s =? 0) = false /\ 0 < blen s.
Proof. intros H. destruct s; [done|]. unfold blen. cbn. split; [apply Z.eqb_neq|]; lia. Qed.

(** Two pieces of one string appended on either side of something else. *)
Lemma strncat_take m d pre o n post s t k :
  filled m d pre o n post -> cstr m s t -> p_blk s <> p_blk d -> 0 <= k <= blen t ->
  (length o + Z.to_nat k < n)%nat ->
  exists m', strncat m d s k = Some m' /\ filled m' d pre (o ++ take (Z.to_nat k) t) n post /\ frame (p_blk d) m m'.
Proof.
  intros Hf Hs Hd Hk Hl. rewrite <- (take_drop (Z.to_nat k) t) in Hs. apply cstr_prefix in Hs as [Hh Hc].
  assert (blen (take (Z.to_nat k) t) = k) as Ek by (unfold blen in *; rewrite length_take; lia).
  destruct (strncat_filled m d pre o n post s (take (Z.to_nat k) t)) as (m' & Hs & H); [done..| |].
  { rewrite length_take. lia. }
  rewrite Ek in Hs. by exists m'.
Qed.

Lemma strncat_drop m d pre o n post s t k :
  filled m d pre o n post -> cstr m s t -> p_blk s <> p_blk d -> 0 <= k <= blen t ->
  (length o + (length t - Z.to_nat k) < n)%nat ->
  exists m', strncat m d (padd s k) (blen t - k) = Some m' /\
    filled m' d pre (o ++ drop (Z.to_nat k) t) n post /\ frame (p_blk d) m m'.
Proof.
  intros Hf Hs Hd Hk Hl.
  assert (blen (take (Z.to_nat k) t) = k) as Ek by (unfold blen in *; rewrite length_take; lia).
  assert (blen (drop (Z.to_nat k) t) = blen t - k) as El by (unfold blen in *; rewrite length_drop; lia).
  rewrite <- (take_drop (Z.to_nat k) t) in Hs. apply cstr_drop in Hs. rewrite Ek in Hs.
  rewrite <- El. apply strncat_filled; [done|by apply cstr_holds|apply Hs|rewrite length_drop; lia].
Qed.

(** ** Insertion, replacement, deletion *)

Section Build.
Context (d : ptr) (pre post : bytes) (n : nat) (Hn : Z.of_nat n < 2 ^ 31).

Lemma insert_correct m s q t x pos :
  cstr m s t -> cstr m q x -> p_blk s <> p_blk d -> p_blk q <> p_blk d -> buffer m d pre n post ->
  t <> [] -> x <> [] -> 0 <= pos <= blen t -> (length t + length x < n)%nat ->
  exists m', _insert m (Some s) pos (Some q) (Some d) (Z.of_nat n) = Some (0, m') /\
    filled m' d pre (take (Z.to_nat pos) t ++ x ++ drop (Z.to_nat pos) t) n post /\ frame (p_blk d) m m'.
Proof.
  intros Hs Hq Ds Dq Hb Ht Hx Hpos Hl. pose proof (cstr_len _ _ _ Hs). pose proof (cstr_len _ _ _ Hq).
  destruct (blen_pos t Ht) as [Et _]. destruct (blen_pos x Hx) as [Ex _].
  unfold _insert. rewrite (strlen_cstr _ _ _ Hs). cbn [mbind option_bind]. rewrite Et.
  rewrite (proj2 (Z.ltb_ge pos 0)), (proj2 (Z.ltb_ge (blen t) pos)) by lia. cbn [orb].
  rewrite (strlen_cstr _ _ _ Hq). cbn [mbind option_bind]. rewrite Ex.
  rewrite u8_id by (unfold is_u8, U8_MOD; lia). rewrite (proj2 (Z.ltb_ge _ _)) by (unfold blen; lia). cbn [orb mbind option_bind].
  destruct (clear_dst_filled m d pre n post Hb) as (m1 & -> & F1 & R1); [lia|done|]. cbn [mbind option_bind].
  pose proof (cstr_frame _ _ _ _ _ R1 Ds Hs) as Hs1. pose proof (cstr_frame _ _ _ _ _ R1 Dq Hq) as Hq1.
  destruct (strncat_take m1 d pre [] n post s t pos F1 Hs1 Ds) as (m2 & -> & F2 & R2); [done|cbn; unfold blen in *; lia|].
  cbn [mbind option_bind app] in *. pose proof (cstr_frame _ _ _ _ _ R2 Ds Hs1) as Hs2. pose proof (cstr_frame _ _ _ _ _ R2 Dq Hq1) as Hq2.
  destruct (cat_all_filled m2 d pre _ n post q x F2 Hq2) as (m3 & -> & F3 & R3); [rewrite length_take; lia|].
  cbn [mbind option_bind]. pose proof (cstr_frame _ _ _ _ _ R3 Ds Hs2) as Hs3.
  rewrite (strlen_cstr _ _ _ Hs3). cbn [mbind option_bind].
  destruct (strncat_drop m3 d pre _ n post s t pos F3 Hs3 Ds) as (m4 & -> & F4 & R4); [done|rewrite length_app, length_take; unfold blen in *; lia|].
  cbn [mbind option_bind]. exists m4. split; [done|]. rewrite <- app_assoc in F4. split; [done|]. by rewrite R1, R2, R3.
Qed.

(** The replacing string appended, when there is one. *)
Lemma append_rep m o rep r :
  filled m d pre o n post -> ostr m rep r -> apart (p_blk d) rep -> (length o + length r < n)%nat ->
  exists m', (if blen r =? 0 then Some m else q ← rep; strncat m d q (blen r)) = Some m' /\
    filled m' d pre (o ++ r) n post /\ frame (p_blk d) m m'.
Proof.
  intros Hf Hr Ha Hl. destruct (blen r =? 0) eqn:E.
  - apply Z.eqb_eq, blen_zero in E as ->. exists m. by rewrite app_nil_r.
  - destruct rep as [q|]; cbn in Hr; [|by subst r]. cbn [mbind option_bind].
    apply strncat_filled; [done|by apply cstr_holds|apply Hr|done].
Qed.

Lemma replace_min_spec m s rep t r len :
  cstr m s t -> ostr m rep r -> blen t + 1 < 2 ^ 31 -> 0 < len <= blen t -> blen t - len + blen r + 1 < 2 ^ 31 ->
  replace_min m (Some s) len rep = Some (1 + blen t - len + blen r).
Proof.
  intros Hs Hr Ht Hl Hb. pose proof (cstr_len _ _ _ Hs). pose proof (ostr_len _ _ _ Hr).
  unfold replace_min. rewrite (strlen_cstr _ _ _ Hs). cbn [mbind option_bind].
  rewrite (proj2 (Z.ltb_lt 0 len)) by lia. rewrite (to_n4_id (1 + blen t)) by lia.
  rewrite chk_n4_ok by lia. cbn [mbind option_bind]. rewrite (olen_ostr _ _ _ Hr). cbn [mbind option_bind].
  rewrite to_n4_id by lia. done.
Qed.

Lemma replace_spec m s rep t r pos len :
  cstr m s t -> ostr m rep r -> p_blk s <> p_blk d -> apart (p_blk d) rep -> buffer m d pre n post ->
  blen t + 1 < 2 ^ 31 -> 0 <= pos -> 0 < len -> pos + len <= blen t ->
  (length t - Z.to_nat len + length r < n)%nat ->
  exists m', _replace m (Some s) pos len rep (Some d) (Z.of_nat n) = Some (0, m') /\
    filled m' d pre (take (Z.to_nat pos) t ++ r ++ drop (Z.to_nat (pos + len)) t) n post /\ frame (p_blk d) m m'.
Proof.
  intros Hs Hr Ds Dr Hb Hbt Hp Hl0 Hpl Hroom. pose proof (cstr_len _ _ _ Hs). pose proof (ostr_len _ _ _ Hr).
  assert (blen t - len + blen r < Z.of_nat n) as Hroom' by (unfold blen in *; lia).
  unfold _replace. rewrite (replace_min_spec m s rep t r len Hs Hr) by lia. cbn [mbind option_bind].
  rewrite (strlen_cstr _ _ _ Hs). cbn [mbind option_bind].
  rewrite (proj2 (Z.eqb_neq _ _)), (proj2 (Z.ltb_ge pos 0)), (proj2 (Z.ltb_ge (blen t - 1) pos)),
    (proj2 (Z.leb_gt len 0)) by lia. cbn [orb].
  rewrite chk_n4_ok by lia. cbn [mbind option_bind]. rewrite (proj2 (Z.ltb_ge (blen t) _)), (proj2 (Z.ltb_ge _ _)) by lia.
  cbn [orb]. destruct (clear_dst_filled m d pre n post Hb) as (m1 & -> & F1 & R1); [lia|done|]. cbn [mbind option_bind].
  pose proof (cstr_frame _ _ _ _ _ R1 Ds Hs) as Hs1. pose proof (ostr_frame _ _ _ _ _ R1 Dr Hr) as Hr1.
  destruct (strncat_take m1 d pre [] n post s t pos F1 Hs1 Ds) as (m2 & -> & F2 & R2); [lia|cbn; unfold blen in *; lia|].
  cbn [mbind option_bind app] in *.
  pose proof (cstr_frame _ _ _ _ _ R2 Ds Hs1) as Hs2. pose proof (ostr_frame _ _ _ _ _ R2 Dr Hr1) as Hr2.
  rewrite (olen_ostr _ _ _ Hr2). cbn [mbind option_bind].
  destruct (append_rep m2 _ rep r F2 Hr2 Dr) as (m3 & -> & F3 & R3); [rewrite length_take; unfold blen in *; lia|].
  cbn [mbind option_bind]. pose proof (cstr_frame _ _ _ _ _ R3 Ds Hs2) as Hs3.
  rewrite (strlen_cstr _ _ _ Hs3). cbn [mbind option_bind].
  destruct (strncat_drop m3 d pre _ n post s t (pos + len) F3 Hs3 Ds) as (m4 & -> & F4 & R4);
    [lia|rewrite length_app, length_take; unfold blen in *; lia|].
  cbn [mbind option_bind]. exists m4. split; [done|]. rewrite <- app_assoc in F4. split; [done|]. by rewrite R1, R2, R3.
Qed.

(** ** Merging *)

(** One string alone, the other being nil or empty. *)
Lemma merge_one m p s t :
  cstr m p s -> p_blk p <> p_blk d -> buffer m d pre n post -> (length s < n)%nat -> t = s ->
  exists m1 m', clear_dst m d (Z.of_nat n) = Some m1 /\ cat_all m1 d p = Some m' /\
    filled m' d pre t n post /\ frame (p_blk d) m m'.
Proof.
  intros Hp Dp Hb Hl ->. destruct (clear_dst_filled m d pre n post Hb) as (m1 & H1 & F1 & R1); [lia|done|].
  pose proof (cstr_frame _ _ _ _ _ R1 Dp Hp) as Hp1.
  destruct (cat_all_filled m1 d pre [] n post p s F1 Hp1) as (m2 & H2 & F2 & R2); [cbn; lia|].
  exists m1, m2. split; [done|]. split; [done|]. split; [done|]. by rewrite R1.
Qed.

End Build.

(** The last byte of a buffer that has been cleared. *)
Lemma filled_last m d pre o n post :
  filled m d pre o (S n) post -> (length o < n)%nat -> buffer m d pre n (0 :: post).
Proof.
  intros (H & Ho & Hc & Hl) Hlt. exists (o ++ replicate (n - length o) 0). split; [|split; [done|]].
  - rewrite H. f_equal. rewrite <- !app_assoc. do 2 f_equal. rewrite Nat.sub_succ_l, replicate_S_end by lia.
    by rewrite <- app_assoc.
  - rewrite length_app, length_replicate. lia.
Qed.

Lemma filled_grow m d pre o n post : filled m d pre o n (0 :: post) -> filled m d pre o (S n) post.
Proof.
  intros (H & Ho & Hc & Hl). split; [|split; [done|split; [done|lia]]]. rewrite H. do 3 f_equal.
  rewrite Nat.sub_succ_l, replicate_S_end by lia. by rewrite <- app_assoc.
Qed.

Section Merge.
Context (m : cmem) (d : ptr) (pre post : bytes) (n : nat) (Hn : Z.of_nat n < 2 ^ 31).
Context (Hb : buffer m d pre n post).

(** Both strings: what [_merge] hands to [_insert] is one byte shorter than the buffer. *)
Lemma merge_both p q s t :
  cstr m p s -> cstr m q t -> p_blk p <> p_blk d -> p_blk q <> p_blk d -> s <> [] -> t <> [] ->
  (length s + length t + 1 <= n)%nat ->
  exists m1 m', clear_dst m d (Z.of_nat n) = Some m1 /\
    _insert m1 (Some p) (blen s) (Some q) (Some d) (Z.of_nat n - 1) =
      Some (if decide (length s + length t + 1 = n)%nat then -1 else 0, m') /\
    filled m' d pre (if decide (length s + length t + 1 = n)%nat then [] else s ++ t) n post /\
    frame (p_blk d) m m'.
Proof.
  intros Hp Hq Dp Dq Hs Ht Hl. destruct (blen_pos s Hs) as [Es _]. destruct (blen_pos t Ht) as [Et _].
  destruct (clear_dst_filled m d pre n post Hb) as (m1 & H1 & F1 & R1); [lia|done|]. exists m1.
  pose proof (cstr_frame _ _ _ _ _ R1 Dp Hp) as Hp1. pose proof (cstr_frame _ _ _ _ _ R1 Dq Hq) as Hq1.
  destruct n as [|n']; [lia|]. replace (Z.of_nat (S n') - 1) with (Z.of_nat n') by lia. case_decide as Hd.
  - exists m1. split; [done|]. split; [|done]. unfold _insert. rewrite (strlen_cstr _ _ _ Hp1). cbn [mbind option_bind].
    rewrite Es, (proj2 (Z.ltb_ge _ _)), (proj2 (Z.ltb_ge _ _)) by (unfold blen; lia). cbn [orb].
    rewrite (strlen_cstr _ _ _ Hq1). cbn [mbind option_bind].
    rewrite Et, u8_id by (unfold is_u8, U8_MOD; lia). by rewrite (proj2 (Z.ltb_lt _ _)) by (unfold blen; lia).
  - destruct (insert_correct d pre (0 :: post) n' ltac:(lia) m1 p q s t (blen s)) as (m' & Hi & F & R); try done.
    + apply filled_last with []; [done|cbn; destruct s; [done|cbn in *; lia]].
    + unfold blen. lia.
    + lia.
    + exists m'. split; [done|]. split; [done|]. split; [|by etransitivity]. apply filled_grow.
      replace (Z.to_nat (blen s)) with (length s) in F by (unfold blen; lia).
      by rewrite take_ge, drop_ge, app_nil_r in F by lia.
Qed.

(** [_merge] writes its two strings one behind the other, either of which may be nil or
    empty, when the buffer has room for both and the terminator; but when both have
    characters and the buffer has just that room, it empties the buffer and returns -1. *)
Theorem merge_correct (p q : option ptr) (s t : bytes) :
  ostr m p s -> ostr m q t -> apart (p_blk d) p -> apart (p_blk d) q -> s ++ t <> [] ->
  (length s + length t + 1 <= n)%nat ->
  let refused := s <> [] /\ t <> [] /\ (length s + length t + 1 = n)%nat in
  exists m', _merge m p q (Some d) (Z.of_nat n) = Some (if decide refused then -1 else 0, m') /\
    filled m' d pre (if decide refused then [] else s ++ t) n post /\ frame (p_blk d) m m'.
Proof.
  intros Hp Hq Dp Dq Hne Hl refused. pose proof (ostr_len _ _ _ Hp). pose proof (ostr_len _ _ _ Hq).
  assert (blen s + blen t + 1 <= Z.of_nat n) by (unfold blen; lia).
  unfold _merge. rewrite (olen_ostr _ _ _ Hp), (olen_ostr _ _ _ Hq). cbn [mbind option_bind].
  rewrite (to_n4_id (1 + blen s)), (to_n4_id (_ + _)), (to_n4_id (blen s)), (proj2 (Z.ltb_ge _ _)) by lia.
  rewrite orb_false_r.
  destruct (decide (s = [])) as [->|Hs]; [|destruct (decide (t = [])) as [->|Ht]].
  - destruct q as [q|]; cbn in Hq; [|by subst t]. destruct (blen_pos t Hne) as [-> _]. rewrite blen_nil. cbn [Z.eqb negb andb].
    destruct (merge_one d pre post n Hn m q t t Hq Dq Hb) as (m1 & m' & -> & Hm & F & R); [cbn in Hl; lia|done|].
    rewrite !(decide_False (P := refused)) by (by intros [? _]). exists m'. split; [|done].
    destruct p; cbn [mbind option_bind]; by rewrite Hm.
  - destruct p as [p|]; cbn in Hp; [|done]. destruct (blen_pos s Hs) as [-> _]. rewrite blen_nil. cbn [Z.eqb negb andb].
    destruct (merge_one d pre post n Hn m p s (s ++ []) Hp Dp Hb) as (m1 & m' & -> & Hm & F & R);
      [lia|by rewrite app_nil_r|].
    rewrite !(decide_False (P := refused)) by (by intros (_ & ? & _)). exists m'. split; [|done].
    cbn [mbind option_bind]. by rewrite Hm.
  - destruct p as [p|]; cbn in Hp; [|done]. destruct q as [q|]; cbn in Hq; [|done].
    destruct (blen_pos s Hs) as [-> _]. destruct (blen_pos t Ht) as [-> _]. cbn [negb andb].
    destruct (merge_both p q s t Hp Hq Dp Dq Hs Ht Hl) as (m1 & m' & -> & Hi & F & R). cbn [mbind option_bind].
    rewrite Hi. exists m'. destruct (decide (length s + length t + 1 = n)%nat).
    + by rewrite !(decide_True (P := refused)) by done.
    + by rewrite !(decide_False (P := refused)) by (by intros (_ & _ & ?)).
Qed.
End Merge.

(** ** Replacing every occurrence *)

(** What one occurrence adds to the output [o]: the text [p] before it and the
    replacement [r], unless [p] is empty; the flag says that the room is used up. *)
Definition emit_piece (room : Z) (r o p : bytes) : bool * bytes :=
  if blen p =? 0 then (false, o)
  else if room <? blen o + blen p then (true, o)
  else if room <? blen o + blen p + blen r then (true, o ++ p)
  else (false, o ++ p ++ r).

Fixpoint emit (room : Z) (r o : bytes) (ps : list bytes) (rest : bytes) : bytes :=
  match ps with
  | [] => if room <? blen o + blen rest then o else o ++ rest
  | p :: ps' =>
      let '(stop, o') := emit_piece room r o p in
      if stop : bool then o' else emit room r o' ps' rest
  end.

(** The output when there is room for all of it. *)
Definition replaced (r : bytes) (ps : list bytes) (rest : bytes) : bytes :=
  concat (map (fun p => match p with [] => [] | _ => p ++ r end) ps) ++ rest.

Lemma emit_all room r o ps rest :
  blen (o ++ replaced r ps rest) <= room -> emit room r o ps rest = o ++ replaced r ps rest.
Proof.
  revert o. unfold replaced. induction ps as [|p ps IH]; intros o; cbn [map concat app emit].
  - rewrite blen_app. intros H. by rewrite (proj2 (Z.ltb_ge _ _)) by lia.
  - intros H. unfold emit_piece. destruct p as [|c p]; [by apply IH|].
    set (q := c :: p) in *. assert ((blen q =? 0) = false) as -> by (by apply Z.eqb_neq).
    rewrite <- !app_assoc in H |- *. pose proof H as H'. rewrite !blen_app in H'.
    pose proof (blen_nonneg (concat (map (fun p => match p with [] => [] | _ => p ++ r end) ps))).
    pose proof (blen_nonneg rest). pose proof (blen_nonneg r).
    rewrite (proj2 (Z.ltb_ge _ _)), (proj2 (Z.ltb_ge _ _)) by lia.
    rewrite IH; rewrite <- !app_assoc; done.
Qed.

Section Replace.
Context (d s q : ptr) (rep : option ptr) (pre post t x r : bytes) (n : nat).
Context (Hn : Z.of_nat n < 2 ^ 31) (Hx : x <> []) (Hlt : blen x < blen t).
Context (Ds : p_blk s <> p_blk d) (Dq : p_blk q <> p_blk d) (Dr : apart (p_blk d) rep).

(** The strings that are read. *)
Definition inputs (m : cmem) : Prop := cstr m s t /\ cstr m q x /\ ostr m rep r.

Lemma inputs_frame m m' : frame (p_blk d) m m' -> inputs m -> inputs m'.
Proof.
  intros Hf (H1 & H2 & H3). split; [by eapply cstr_frame|]. split; [by eapply cstr_frame|by eapply ostr_frame].
Qed.

(** The statics once every occurrence has been found and the search has failed. *)
Definition settled (v : strstr_static) (ps : list bytes) (rest : bytes) : strstr_static :=
  after_miss s q (at_last s q t v ps rest) rest.

Lemma drain_settled m z ps rest y v fuel :
  inputs m -> cuts x z ps rest -> t = y ++ z -> at_offset s q v (blen y) -> (length ps < fuel)%nat ->
  drain fuel m v s q = Some (settled v ps rest).
Proof.
  intros (Hs & Hq & _) Hc. revert y v fuel. induction Hc as [z Hz|p z ps rest Hf Hc IH];
    intros y v fuel E Ho Hfu; (destruct fuel as [|f]; [cbn in Hfu; lia|]); cbn [drain].
  - by rewrite (strstr_step m s q x t Hq Hs Hx Hlt v y z E Ho), Hz.
  - rewrite (find_at_offset m s q x t Hq Hs Hx Hlt p z v y E Ho Hf). cbn [mbind option_bind].
    rewrite (IH (y ++ p ++ x)); [|by rewrite E, <- !app_assoc|by left|cbn in Hfu; lia].
    unfold settled. by rewrite (at_last_cons s q x t v p ps rest y z Hc E).
Qed.

Let room := Z.of_nat n - 1.

Lemma replace_piece_spec m v o p y z fuel v2 :
  inputs m -> filled m d pre o n post -> t = y ++ p ++ z ->
  (forall m', inputs m' -> drain fuel m' v s q = Some v2) ->
  let '(stop, o') := emit_piece room r o p in
  exists m', replace_piece fuel m v s q rep (blen r =? 0) d room (padd s (blen y)) (padd s (blen y + blen p)) =
      Some (stop, m', if stop then v2 else v) /\
    filled m' d pre o' n post /\ frame (p_blk d) m m'.
Proof.
  intros Hi Hf E Hd. unfold replace_piece, emit_piece. rewrite ptr_sub_padd. cbn [mbind option_bind].
  replace (blen y + blen p - blen y) with (blen p) by lia. pose proof (blen_nonneg p) as Hp0.
  destruct (blen p =? 0) eqn:Ep; to_prop.
  { rewrite (proj2 (Z.ltb_ge _ _)) by lia. by exists m. }
  rewrite (proj2 (Z.ltb_lt 0 _)) by lia. rewrite (strlen_filled _ _ _ _ _ _ Hf). cbn [mbind option_bind].
  destruct (room <? blen o + blen p) eqn:E1; to_prop.
  { rewrite (Hd m Hi). cbn [mbind option_bind]. by exists m. }
  pose proof Hi as (Hs & _ & _). rewrite E in Hs. apply cstr_drop, cstr_prefix in Hs as [Hh Hc].
  destruct (strncat_filled m d pre o n post _ p Hf Hh Hc) as (m1 & -> & F1 & R1); [unfold room, blen in E1; lia|].
  cbn [mbind option_bind]. pose proof (inputs_frame _ _ R1 Hi) as Hi1. destruct (blen r =? 0) eqn:Er; to_prop.
  { rewrite (proj2 (Z.ltb_ge _ _)) by lia. exists m1. assert (r = []) as -> by (by apply blen_zero).
    by rewrite app_nil_r. }
  pose proof Hi1 as (_ & _ & Hr). destruct rep as [rp|]; cbn in Hr; [|by rewrite Hr in Er].
  cbn [mbind option_bind]. rewrite (strlen_cstr _ _ _ Hr), (strlen_filled _ _ _ _ _ _ F1). cbn [mbind option_bind].
  rewrite blen_app. destruct (room <? blen o + blen p + blen r) eqn:E2; to_prop.
  { rewrite (Hd m1 Hi1). cbn [mbind option_bind]. by exists m1. }
  destruct (strncat_filled m1 d pre (o ++ p) n post rp r F1) as (m2 & -> & F2 & R2);
    [by apply cstr_holds|apply Hr|rewrite length_app; unfold room, blen in E2; lia|].
  cbn [mbind option_bind]. exists m2. rewrite <- app_assoc in F2. split; [done|]. split; [done|]. by etransitivity.
Qed.

Lemma replace_loop_spec m z ps rest y v o fuel :
  inputs m -> cuts x z ps rest -> t = y ++ z -> at_offset s q v (blen y) -> filled m d pre o n post ->
  (length z + 1 < fuel)%nat ->
  exists m', replace_loop fuel m v s q rep (blen r =? 0) d room (padd s (blen y)) (padd s (blen t)) =
      Some (m', settled v ps rest) /\
    filled m' d pre (emit room r o ps rest) n post /\ frame (p_blk d) m m'.
Proof.
  intros Hi Hc. revert m Hi y v o fuel. induction Hc as [z Hz|p z ps rest Hf Hc IH];
    intros m Hi y v o fuel E Ho Hfi Hfu; (destruct fuel as [|f]; [lia|]); cbn [replace_loop];
    rewrite ptr_lt_padd; cbn [mbind option_bind]; pose proof (f_equal blen E) as El; rewrite blen_app in El;
    pose proof Hi as (Hs & Hq & _).
  - rewrite (strstr_step m s q x t Hq Hs Hx Hlt v y z E Ho), Hz. cbn [mbind option_bind emit].
    destruct (blen y <? blen t) eqn:Ey; to_prop.
    + rewrite (strlen_filled _ _ _ _ _ _ Hfi), ptr_sub_padd. cbn [mbind option_bind].
      replace (blen t - blen y) with (blen z) by lia. destruct (room <? blen o + blen z) eqn:Er; to_prop.
      { by exists m. }
      pose proof Hs as Hs'. rewrite E in Hs'. apply cstr_drop in Hs'.
      destruct (strncat_filled m d pre o n post _ z Hfi (cstr_holds _ _ _ Hs')) as (m' & -> & F & R);
        [apply Hs'|unfold room, blen in Er; lia|]. cbn [mbind option_bind]. by exists m'.
    + pose proof (blen_nonneg z). assert (z = []) as -> by (apply blen_zero; lia). exists m.
      rewrite app_nil_r. split; [|by destruct (room <? _)]. do 2 f_equal. unfold settled, after_miss. cbn [at_last].
      destruct Ho as [->|[_ H0]]; [by rewrite decide_True by done|]. change (blen []) with 0 in El. pose proof (blen_nonneg x). lia.
  - assert (0 < blen x) as Hx0 by (by apply blen_pos).
    pose proof (blen_nonneg p). pose proof (blen_nonneg z). rewrite !blen_app in El.
    rewrite (proj2 (Z.ltb_lt _ _)) by lia.
    rewrite (find_at_offset m s q x t Hq Hs Hx Hlt p z v y E Ho Hf). cbn [mbind option_bind emit].
    assert (length ps < S f)%nat as Hps by (pose proof (cuts_length _ _ _ _ Hx Hc); rewrite !length_app in Hfu; lia).
    assert (t = (y ++ p ++ x) ++ z) as E' by (by rewrite E, <- !app_assoc).
    pose proof (replace_piece_spec m (found_at s q (blen (y ++ p ++ x))) o p y (x ++ z) (S f)
                  (settled (found_at s q (blen (y ++ p ++ x))) ps rest) Hi Hfi E) as Hpc.
    destruct (emit_piece room r o p) as [stop o'].
    destruct Hpc as (m1 & Hrp & F1 & R1).
    { intros m' Hi'. apply (drain_settled m' z ps rest (y ++ p ++ x)); [done|done|done|by left|done]. }
    rewrite Hrp. cbn [mbind option_bind]. pose proof (inputs_frame _ _ R1 Hi) as Hi1.
    assert (settled (found_at s q (blen (y ++ p ++ x))) ps rest = settled v (p :: ps) rest) as Es.
    { unfold settled. by rewrite (at_last_cons s q x t v p ps rest y z Hc E). }
    destruct stop; [exists m1; by rewrite Es|]. pose proof Hi1 as (_ & Hq1 & _).
    rewrite (strlen_cstr _ _ _ Hq1). cbn [mbind option_bind]. rewrite padd_padd.
    replace (blen y + blen p + blen x) with (blen (y ++ p ++ x)) by (rewrite !blen_app; lia).
    destruct (IH m1 Hi1 (y ++ p ++ x) (found_at s q (blen (y ++ p ++ x))) o' f) as (m2 & -> & F2 & R2);
      [done|by left|done| |].
    { rewrite !length_app in Hfu. unfold blen in Hx0. lia. }
    exists m2. rewrite Es. split; [done|]. split; [done|]. by etransitivity.
Qed.

Lemma replace_str_spec m v ps rest :
  inputs m -> buffer m d pre n post -> unused s q v -> pieces x t = (ps, rest) ->
  (2 <= n)%nat -> (length t <= n)%nat ->
  exists m', _replace_str m v (Some s) (Some q) rep (Some d) (Z.of_nat n) = Some (0, m', settled v ps rest) /\
    filled m' d pre (emit room r [] ps rest) n post /\ frame (p_blk d) m m'.
Proof.
  intros Hi Hb Hu Hp H2 Hl. pose proof (pieces_cuts _ _ _ _ Hx Hp) as Hc. pose proof Hi as (Hs & Hq & _).
  unfold _replace_str. rewrite (strlen_cstr _ _ _ Hs), (strlen_cstr _ _ _ Hq). cbn [mbind option_bind].
  rewrite u8_id by (unfold is_u8, U8_MOD; lia).
  rewrite (proj2 (Z.leb_gt _ _)), (proj2 (Z.ltb_ge _ _)), (proj2 (Z.ltb_ge _ _)) by (unfold blen in *; lia). cbn [orb].
  destruct (clear_dst_filled m d pre n post Hb) as (m1 & -> & F1 & R1); [lia|done|]. cbn [mbind option_bind].
  pose proof (inputs_frame _ _ R1 Hi) as Hi1. pose proof Hi1 as (Hs1 & _ & Hr1).
  rewrite (olen_ostr _ _ _ Hr1). cbn [mbind option_bind].
  destruct (replace_loop_spec m1 t ps rest [] v [] (S (S (Z.to_nat (blen t)))) Hi1 Hc) as (m2 & Hlp & F2 & R2);
    [done|by right|done|unfold blen; lia|].
  rewrite blen_nil, padd_0 in Hlp. fold room. rewrite Hlp. cbn [mbind option_bind]. exists m2.
  split; [done|]. split; [done|]. by etransitivity.
Qed.
End Replace.

(** [_replace] writes the string with [len] characters from [pos] on replaced by
    [rep], which may be nil or empty, and [_delete] writes it without them, when the
    buffer has room for the result and its terminator; nothing behind the buffer and no
    other block changes. *)
Theorem replace_correct (m : cmem) (d s : ptr) (rep : option ptr) (pre post t r : bytes) (n : nat) (pos len : Z) :
  cstr m s t -> ostr m rep r -> p_blk s <> p_blk d -> apart (p_blk d) rep -> buffer m d pre n post ->
  Z.of_nat n < 2 ^ 31 -> blen t + 1 < 2 ^ 31 -> 0 <= pos -> 0 < len -> pos + len <= blen t ->
  (length t - Z.to_nat len + length r < n)%nat ->
  (exists m', _replace m (Some s) pos len rep (Some d) (Z.of_nat n) = Some (0, m') /\
     filled m' d pre (take (Z.to_nat pos) t ++ r ++ drop (Z.to_nat (pos + len)) t) n post /\ frame (p_blk d) m m') /\
  (exists m', _delete m (Some s) pos len (Some d) (Z.of_nat n) = Some (0, m') /\
     filled m' d pre (take (Z.to_nat pos) t ++ drop (Z.to_nat (pos + len)) t) n post /\ frame (p_blk d) m m').
Proof.
  intros Hs Hr Ds Dr Hb Hn Ht Hp Hl Hpl Hroom. split; [by apply replace_spec|].
  apply (replace_spec d pre post n Hn m s None t []); try done. cbn. lia.
Qed.

Lemma replace_correct_witness :
  let m : cmem := {[ 1%nat := [97; 98; 99; 100; 0]; 2%nat := [120; 121; 0]; 3%nat := [9; 9; 9; 9; 9; 9; 7] ]} in
  (exists m', _replace m (Some (mk_ptr 1 0)) 1 2 (Some (mk_ptr 2 0)) (Some (mk_ptr 3 0)) (Z.of_nat 6) = Some (0, m') /\
     filled m' (mk_ptr 3 0) [] ([97] ++ [120; 121] ++ [100]) 6 [7] /\ frame 3 m m') /\
  (exists m', _delete m (Some (mk_ptr 1 0)) 1 2 (Some (mk_ptr 3 0)) (Z.of_nat 6) = Some (0, m') /\
     filled m' (mk_ptr 3 0) [] ([97] ++ [100]) 6 [7] /\ frame 3 m m').
Proof.
  apply (replace_correct _ (mk_ptr 3 0) (mk_ptr 1 0) (Some (mk_ptr 2 0)) [] [7] [97; 98; 99; 100] [120; 121] 6 1 2).
  - apply cstr_zero with []; [reflexivity|repeat constructor; unfold char; lia|reflexivity].
  - apply cstr_zero with []; [reflexivity|repeat constructor; unfold char; lia|reflexivity].
  - discriminate.
  - discriminate.
  - by exists [9; 9; 9; 9; 9; 9].
  - reflexivity.
  - reflexivity.
  - lia.
  - lia.
  - vm_compute. discriminate.
  - cbn. lia.
Defined.

Lemma merge_correct_witness :
  let m : cmem := {[ 1%nat := [97; 98; 0]; 2%nat := [120; 0]; 3%nat := [9; 9; 9; 9] ]} in
  _merge m (Some (mk_ptr 1 0)) (Some (mk_ptr 2 0)) (Some (mk_ptr 3 0)) 4 =
    Some (-1, {[ 1%nat := [97; 98; 0]; 2%nat := [120; 0]; 3%nat := [0; 0; 0; 0] ]}) /\
  let refused := [97; 98] <> [] /\ [120] <> [] /\ (length [97; 98] + length [120] + 1 = 4)%nat in
  exists m', _merge m (Some (mk_ptr 1 0)) (Some (mk_ptr 2 0)) (Some (mk_ptr 3 0)) (Z.of_nat 4) =
      Some (if decide refused then -1 else 0, m') /\
    filled m' (mk_ptr 3 0) [] (if decide refused then [] else [97; 98] ++ [120]) 4 [] /\ frame 3 m m'.
Proof.
  split; [vm_compute; reflexivity|].
  apply (merge_correct _ (mk_ptr 3 0) [] [] 4) with (p := Some (mk_ptr 1 0)) (q := Some (mk_ptr 2 0)) (s := [97; 98]) (t := [120]).
  - reflexivity.
  - by exists [9; 9; 9; 9].
  - apply cstr_zero with []; [reflexivity|repeat constructor; unfold char; lia|reflexivity].
  - apply cstr_zero with []; [reflexivity|repeat constructor; unfold char; lia|reflexivity].
  - discriminate.
  - discriminate.
  - discriminate.
  - cbn. lia.
Defined.



(** The replacement is lost at the front of the string, and the string is copied as it is
    when it ends with the pattern and is replaced in a second time. *)
Lemma replace_str_front :
  let m : cmem := {[ 1%nat := [97; 46; 97; 0]; 2%nat := [97; 0]; 3%nat := [120; 0]; 4%nat := replicate 8 9 ]} in
  let call m v := _replace_str m v (Some (mk_ptr 1 0)) (Some (mk_ptr 2 0)) (Some (mk_ptr 3 0)) (Some (mk_ptr 4 0)) 8 in
  exists m1 v1 m2 v2, call m static_nil = Some (0, m1, v1) /\ call m1 v1 = Some (0, m2, v2) /\
    m1 !! 4%nat = Some [46; 120; 0; 0; 0; 0; 0; 0] /\ m2 !! 4%nat = Some [97; 46; 97; 0; 0; 0; 0; 0].
Proof.
  eexists _, _, _, _. split; [vm_compute; reflexivity|]. split; [vm_compute; reflexivity|].
  split; vm_compute; reflexivity.
Qed.

(** [_insert] checks [sub_str] twice and the buffer not at all. *)
Lemma insert_nil_buffer :
  let m : cmem := {[ 1%nat := [97; 0]; 2%nat := [98; 0] ]} in
  _insert m (Some (mk_ptr 1 0)) 0 (Some (mk_ptr 2 0)) None 8 = None.
Proof. reflexivity. Qed.

(** ** Numbers *)

(** The characters of decimal digits, and their value. *)
Definition numeral (ds : list Z) : bytes := map (fun k => k + 48) ds.
Definition decimal (ds : list Z) : Z := fold_left (fun a k => a * 10 + k) ds 0.

Lemma digits_numeral ds a post :
  Forall (fun k => 0 <= k < 10) ds -> digits (numeral ds ++ 0 :: post) a = Some (fold_left (fun a k => a * 10 + k) ds a).
Proof.
  intros H. revert a. induction H as [|k ds Hk Hds IH]; intros a; [done|]. cbn [numeral map app digits fold_left].
  unfold _is_digit. rewrite (proj2 (Z.leb_le _ _)), (proj2 (Z.leb_le _ _)) by lia. cbn [andb].
  rewrite Z.eqb_refl. replace (k + 48 - 48) with k by lia. apply IH.
Qed.

Lemma decimal_nonneg ds a : Forall (fun k => 0 <= k < 10) ds -> 0 <= a -> 0 <= fold_left (fun a k => a * 10 + k) ds a.
Proof. intros H. revert a. induction H as [|k ds Hk Hds IH]; intros a Ha; cbn; [done|]. apply IH. lia. Qed.

(** The sign of a numeral. *)
Definition sign (neg : bool) : bytes := if neg then [45] else [].

Lemma strtoul_numeral w m p neg ds :
  ds <> [] -> Forall (fun k => 0 <= k < 10) ds -> holds m p (sign neg ++ numeral ds ++ [0]) ->
  strtoul w m p = Some (if 2 ^ w <=? decimal ds then 2 ^ w - 1
                        else if neg then (- decimal ds) mod 2 ^ w else decimal ds).
Proof.
  intros Hn Hd Hh. destruct (holds_tail _ _ _ Hh) as [post Ht]. unfold strtoul. rewrite Ht. cbn [mbind option_bind].
  rewrite <- !app_assoc. destruct neg; cbn [sign app skip_spaces Z.eqb _is_space orb Pos.eqb].
  - cbn [app] in *. by rewrite digits_numeral.
  - destruct ds as [|k ds]; [done|]. pose proof (Forall_inv Hd) as Hk. cbn beta in Hk. cbn [numeral map app skip_spaces].
    unfold _is_space. rewrite !(proj2 (Z.eqb_neq (k + 48) _)) by lia. cbn [orb Z.eqb].
    rewrite !(proj2 (Z.eqb_neq (k + 48) _)) by lia.
    change (k + 48 :: map (fun k => k + 48) ds ++ 0 :: post) with (numeral (k :: ds) ++ 0 :: post).
    by rewrite digits_numeral.
Qed.

Lemma mod_wide w e z : 0 <= e <= w -> (z mod 2 ^ w) mod 2 ^ e = z mod 2 ^ e.
Proof.
  intros H. apply Z.mod_mod_divide. exists (2 ^ (w - e)). rewrite <- Z.pow_add_r by lia. by rewrite Z.sub_add.
Qed.

(** Conversion to a signed type that is not wider. *)
Lemma signed_wide w e z : 0 < e <= w -> - 2 ^ (e - 1) <= z < 2 ^ (e - 1) ->
  (z mod 2 ^ w + 2 ^ (e - 1)) mod 2 ^ e - 2 ^ (e - 1) = z.
Proof.
  intros H Hz. assert (0 < 2 ^ e) by (apply Z.pow_pos_nonneg; lia). rewrite Z.add_mod, mod_wide, <- Z.add_mod by lia.
  assert (2 ^ e = 2 * 2 ^ (e - 1)) by (rewrite <- Z.pow_succ_r by lia; by replace (Z.succ (e - 1)) with e by lia).
  rewrite Z.mod_small by lia. lia.
Qed.

(** [str2n4], [str2u4], [str2n8] and [str2u8] read the decimal numeral of any number of
    their type when an [unsigned long] is as wide as the type; with 32-bit longs the last
    two read every number beyond 2^32 - 1 as 2^32 - 1. *)
Theorem str2_numerals (m : cmem) (p : ptr) (neg : bool) (ds : list Z) :
  ds <> [] -> Forall (fun k => 0 <= k < 10) ds -> holds m p (sign neg ++ numeral ds ++ [0]) ->
  let z := if neg then - decimal ds else decimal ds in
  (forall w, w = 32 \/ w = 64 -> - 2 ^ 31 <= z < 2 ^ 31 -> str2n4 w m p = Some z) /\
  (forall w, w = 32 \/ w = 64 -> 0 <= z < 2 ^ 32 -> str2u4 w m p = Some z) /\
  (- 2 ^ 63 <= z < 2 ^ 63 -> str2n8 64 m p = Some z) /\
  (0 <= z < 2 ^ 64 -> str2u8 64 m p = Some z) /\
  (2 ^ 32 <= z -> str2n8 32 m p = Some (2 ^ 32 - 1) /\ str2u8 32 m p = Some (2 ^ 32 - 1)).
Proof.
  intros Hn Hd Hh z. pose proof (decimal_nonneg ds 0 Hd ltac:(lia)) as H0. fold (decimal ds) in H0.
  assert (forall w, 0 <= w -> - 2 ^ w < z < 2 ^ w -> strtoul w m p = Some (z mod 2 ^ w)) as Hs.
  { intros w Hw Hz. rewrite (strtoul_numeral w m p neg ds Hn Hd Hh).
    rewrite (proj2 (Z.leb_gt _ _)) by (destruct neg; subst z; lia).
    destruct neg; [done|]. by rewrite Z.mod_small by (subst z; lia). }
  unfold str2n4, str2u4, str2n8, str2u8, to_n4, u4, u8, U4_MOD, U8_MOD. repeat split.
  - intros w Hw Hz. rewrite Hs by (destruct Hw as [-> | ->]; lia). cbn [mbind option_bind]. f_equal.
    apply (signed_wide w 32); [destruct Hw; lia|done].
  - intros w Hw Hz. rewrite Hs by (destruct Hw as [-> | ->]; lia). cbn [mbind option_bind]. f_equal.
    rewrite mod_wide by (destruct Hw; lia). by apply Z.mod_small.
  - intros Hz. rewrite Hs by lia. cbn [mbind option_bind]. f_equal. apply (signed_wide 64 64); [lia|done].
  - intros Hz. rewrite Hs by lia. cbn [mbind option_bind]. f_equal. by rewrite Z.mod_mod, Z.mod_small by lia.
  - rewrite (strtoul_numeral 32 m p neg ds Hn Hd Hh), (proj2 (Z.leb_le _ _)) by (destruct neg; subst z; lia). done.
  - rewrite (strtoul_numeral 32 m p neg ds Hn Hd Hh), (proj2 (Z.leb_le _ _)) by (destruct neg; subst z; lia). done.
Qed.

Lemma str2_numerals_witness :
  let m : cmem := {[ 1%nat := [45; 52; 50; 0] ]} in
  str2n4 32 m (mk_ptr 1 0) = Some (-42) /\
  let z := if true then - decimal [4; 2] else decimal [4; 2] in
  (forall w, w = 32 \/ w = 64 -> - 2 ^ 31 <= z < 2 ^ 31 -> str2n4 w m (mk_ptr 1 0) = Some z) /\
  (forall w, w = 32 \/ w = 64 -> 0 <= z < 2 ^ 32 -> str2u4 w m (mk_ptr 1 0) = Some z) /\
  (- 2 ^ 63 <= z < 2 ^ 63 -> str2n8 64 m (mk_ptr 1 0) = Some z) /\
  (0 <= z < 2 ^ 64 -> str2u8 64 m (mk_ptr 1 0) = Some z) /\
  (2 ^ 32 <= z -> str2n8 32 m (mk_ptr 1 0) = Some (2 ^ 32 - 1) /\ str2u8 32 m (mk_ptr 1 0) = Some (2 ^ 32 - 1)).
Proof.
  split; [vm_compute; reflexivity|]. apply (str2_numerals _ (mk_ptr 1 0) true [4; 2]).
  - discriminate.
  - repeat constructor; lia.
  - by apply holds_start with [].
Defined.

End StrBuild.
