(* ===== verification/LiskStringObj.v ===== *)
(** * The string object of lisk_string.c

    A counted string that grows: its block holds the bytes, a terminator and spare
    room.  The bytes may contain zeros; reversing and trimming, which measure with
    [strlen], see those before the first.  Allocation is as for the vector. *)

From S2P Require Import Prelude LiskMath LiskVector LiskString LiskStringRep LiskStringEdit.

Module StrObj.
Import Str StrRep StrEdit.

Record lisk_string_t := mk_string { capacity : Z; length : Z; data : option bytes }.

Definition with_length (s : lisk_string_t) (n : Z) : lisk_string_t := mk_string (capacity s) n (data s).
Definition with_data (s : lisk_string_t) (d : option bytes) : lisk_string_t := mk_string (capacity s) (length s) d.

(** Result code and the string behind the pointer, if any. *)
Abbreviation sres := (Z * option lisk_string_t)%type.

(** The store [str->data[i] = c]. *)
Definition set_data (s : lisk_string_t) (i c : Z) : option lisk_string_t :=
  d ← data s; d ← wr d i [c]; Some (with_data s (Some d)).

Definition lisk_string_init (malloc : malloc_fun) (str : option lisk_string_t) (size : Z) : option sres :=
  let size := match str with None => 1 | Some _ => if size =? 0 then 1 else size end in
  let capacity := Vector.round_up size in
  match malloc capacity with
  | None => Some (-2, str)
  | Some b => _ ← str; s ← set_data (mk_string capacity 0 (Some b)) 0 0; Some (0, Some s)
  end.

Definition lisk_string_uninit (str : option lisk_string_t) : option lisk_string_t :=
  match str with
  | None => None
  | Some s => match data s with None => Some s | Some _ => Some (mk_string 0 0 None) end
  end.

(** [buffer] is another block than the fresh one. *)
Definition lisk_string_init_copy (malloc : malloc_fun) (str : option lisk_string_t) (buffer : option bytes)
  (size : Z) : option sres :=
  match str, buffer with
  | Some s, Some buf =>
      let size := if size =? 0 then 1 else size in
      '(ret, str) ← lisk_string_init malloc (Some s) (u4 (size + 1));
      if negb (ret =? 0) then Some (-2, str)
      else
        s ← str; d ← data s; x ← rd buf 0 size; d ← wr d 0 x;
        s ← set_data (with_data s (Some d)) size 0;
        Some (0, Some (with_length s size))
  | _, _ => Some (-1, str)
  end.

Definition lisk_string_realloc (realloc : realloc_fun) (str : option lisk_string_t) (size : Z) : option sres :=
  match str with
  | None => Some (-1, None)
  | Some s =>
      if size =? 0 then Some (0, lisk_string_uninit (Some s))
      else if capacity s =? 0 then Some (-1, Some s)
      else
        let s := with_data s (realloc (data s) size) in
        match data s with
        | None => Some (-2, Some s)
        | Some d =>
            let s := mk_string size (length s) (Some d) in
            if size <=? length s then
              let s := with_length s (u4 (size - 1)) in
              s ← set_data s (length s) 0; Some (0, Some s)
            else Some (0, Some s)
        end
  end.

(** [buf] is not inside the string. *)
Definition lisk_string_insert (realloc : realloc_fun) (str : option lisk_string_t) (pos : Z)
  (buf : option bytes) (buf_len : Z) : option sres :=
  match str, buf with
  | Some s, Some b =>
      if (buf_len =? 0) || (length s <? pos) then Some (-1, str)
      else
        let str_len := length s in
        let cap := u4 (u4 (str_len + buf_len) + 1) in
        '(ret, str) ←
          (if capacity s <? cap then lisk_string_realloc realloc (Some s) (Vector.round_up cap)
           else Some (0, Some s));
        if negb (ret =? 0) then Some (-2, str)
        else
          s ← str; d ← data s;
          '(ret, d) ← (if pos <? str_len then copy_data d (pos + buf_len) pos (u4 (str_len - pos)) else Some (0, d));
          if negb (ret =? 0) then Some (-2, Some s)
          else
            x ← rd b 0 buf_len; d ← wr d pos x;
            let s := mk_string (capacity s) (u4 (length s + buf_len)) (Some d) in
            s ← set_data s (length s) 0;
            Some (0, Some s)
  | _, _ => Some (-1, str)
  end.

Definition lisk_string_append (realloc : realloc_fun) (str : option lisk_string_t) (buf : option bytes)
  (buf_len : Z) : option sres :=
  match str with
  | None => Some (-1, None)
  | Some s => lisk_string_insert realloc (Some s) (length s) buf buf_len
  end.

Definition lisk_string_copy (realloc : realloc_fun) (str : option lisk_string_t) (buf : option bytes)
  (buf_len : Z) : option sres :=
  match str, buf with
  | Some s, Some b =>
      if buf_len =? 0 then Some (-1, str)
      else s ← set_data (with_length s 0) 0 0; lisk_string_append realloc (Some s) (Some b) buf_len
  | _, _ => Some (-1, str)
  end.

(** A routine for C strings on the block of a string object. *)
Definition the_block : ptr := mk_ptr 1 0.
Definition block_mem (d : bytes) : cmem := {[ 1%nat := d ]}.

Definition lisk_string_reverse (str : option lisk_string_t) : option sres :=
  match str with
  | None => Some (-1, None)
  | Some s =>
      if capacity s =? 0 then Some (-1, Some s)
      else match data s with
           | None => Some (0, Some s)
           | Some d =>
               m ← _reverse_str (block_mem d) (Some the_block); d ← m !! 1%nat;
               Some (0, Some (with_data s (Some d)))
           end
  end.

Definition lisk_string_clear (str : option lisk_string_t) : option (option lisk_string_t) :=
  match str with
  | None => Some None
  | Some s =>
      match data s with
      | None => Some (Some s)
      | Some _ => s ← set_data (with_length s 0) 0 0; Some (Some s)
      end
  end.

Definition lisk_string_trim (str : option lisk_string_t) : option sres :=
  match str with
  | None => Some (-1, None)
  | Some s =>
      if length s =? 0 then Some (-1, Some s)
      else match data s with
           | None => Some (-2, Some s)
           | Some d =>
               '(_, m) ← str_trim (block_mem d) (Some the_block); d ← m !! 1%nat;
               l ← strlen m the_block;
               Some (0, Some (mk_string (capacity s) (u4 l) (Some d)))
           end
  end.

(** ** Representation *)

Record str_rep (s : lisk_string_t) (xs : bytes) : Prop := {
  sr_cap : capacity s < U4_MOD;
  sr_len : length s = blen xs;
  sr_bytes : Forall byte xs;
  sr_data : exists slack, data s = Some (xs ++ 0 :: slack) /\ blen (xs ++ 0 :: slack) = capacity s;
}.

Lemma blen_cons c x : blen (c :: x) = 1 + blen x.
Proof. unfold blen. cbn. lia. Qed.

Section Rep.
Context (s : lisk_string_t) (xs : bytes) (Hr : str_rep s xs).

Lemma rep_room : 0 <= length s /\ length s + 1 <= capacity s.
Proof.
  destruct (sr_data s xs Hr) as (sl & _ & E). rewrite (sr_len s xs Hr). rewrite blen_app, blen_cons in E.
  pose proof (blen_nonneg sl). pose proof (blen_nonneg xs). lia.
Qed.

Lemma rep_intro cap ys slack :
  Forall byte ys -> cap < U4_MOD -> blen (ys ++ 0 :: slack) = cap ->
  str_rep (mk_string cap (blen ys) (Some (ys ++ 0 :: slack))) ys.
Proof. intros Hb Hc Hl. split; [done|done|done|]. by exists slack. Qed.
End Rep.

(** The store of a terminator, the bytes before it being what the string will be. *)
Lemma set_term cap len xs c rest :
  set_data (mk_string cap len (Some (xs ++ c :: rest))) (blen xs) 0 =
    Some (mk_string cap len (Some (xs ++ 0 :: rest))).
Proof.
  unfold set_data. cbn [data mbind option_bind]. change (c :: rest) with ([c] ++ rest). by rewrite wr_mid.
Qed.

Lemma str_init_rep malloc s0 size s :
  malloc_ok malloc -> 0 <= size <= 2 ^ 31 -> lisk_string_init malloc (Some s0) size = Some (0, Some s) ->
  str_rep s [] /\ size <= capacity s.
Proof.
  intros Hm Hs. unfold lisk_string_init. set (n := if size =? 0 then 1 else size).
  assert (0 < n <= 2 ^ 31 /\ size <= n) as [Hn Hsn] by (unfold n; destruct (size =? 0) eqn:E; to_prop; lia).
  pose proof (Vector.round_up_spec n Hn) as Hru. destruct (malloc (Vector.round_up n)) as [b|] eqn:Eb; [|done].
  apply Hm in Eb; [|lia]. destruct b as [|c b]; [cbn in Eb; change (blen []) with 0 in Eb; lia|]. cbn [mbind option_bind].
  rewrite (set_term _ 0 [] c b : set_data _ 0 0 = _). cbn [mbind option_bind]. intros [= <-].
  rewrite blen_cons in Eb. split; [|cbn; lia].
  apply (rep_intro _ [] b); [constructor|unfold U4_MOD; lia|]. cbn [app]. rewrite blen_cons. done.
Qed.

(** Growing keeps the contents; shrinking cuts them; a failure loses them: REALLOC has stored nil. *)
Lemma realloc_spec realloc s xs size :
  realloc_ok realloc -> str_rep s xs -> 0 < size < U4_MOD ->
  (realloc (data s) size = None /\ lisk_string_realloc realloc (Some s) size = Some (-2, Some (with_data s None))) \/
  exists s', lisk_string_realloc realloc (Some s) size = Some (0, Some s') /\
    str_rep s' (take (Z.to_nat (size - 1)) xs) /\ capacity s' = size.
Proof.
  intros Hre Hr Hs. pose proof (rep_room s xs Hr). destruct (sr_data s xs Hr) as (sl & Hd & Hl).
  unfold lisk_string_realloc. rewrite (proj2 (Z.eqb_neq _ _)), (proj2 (Z.eqb_neq _ _)) by lia.
  destruct (realloc (data s) size) as [c|] eqn:Hc; [right|by left]. rewrite Hd in Hc.
  destruct (Hre (xs ++ 0 :: sl) size c ltac:(lia) Hc) as [Hcl Hpre]. cbn [with_data data].
  pose proof (sr_bytes s xs Hr) as Hb. pose proof (sr_len s xs Hr) as Elen. cbn [with_data capacity length data].
  destruct (size <=? length s) eqn:E; to_prop.
  - set (ys := take (Z.to_nat (size - 1)) xs).
    assert (blen ys = size - 1) as Ey by (unfold ys, blen in *; rewrite length_take; lia).
    destruct (Hpre ys (drop (Z.to_nat (size - 1)) xs ++ 0 :: sl)) as [z ->];
      [by rewrite app_assoc; unfold ys; rewrite take_drop|lia|].
    rewrite blen_app in Hcl. destruct z as [|c z]; [change (blen []) with 0 in Hcl; lia|].
    rewrite u4_id by (unfold is_u4; lia). rewrite <- Ey. cbn [with_length capacity length data].
    unfold with_length. cbn [capacity length data]. rewrite set_term. cbn [mbind option_bind]. eexists. split; [done|]. split; [|done].
    apply (rep_intro _ ys); [by apply Forall_take|lia|]. rewrite blen_app, blen_cons in *. lia.
  - assert (take (Z.to_nat (size - 1)) xs = xs) as -> by (apply take_ge; unfold blen in *; lia).
    destruct (Hpre (xs ++ [0]) sl) as [z ->]; [by rewrite <- app_assoc|rewrite blen_app; change (blen [0]) with 1; lia|].
    rewrite <- app_assoc in *. cbn [app] in *. eexists. split; [done|]. split; [|done]. rewrite Elen.
    apply (rep_intro _ xs); [done|lia|done].
Qed.

(** ** Insertion *)

(** The bytes from [xs] on move up by [n]: a gap opens in front of [ys]. *)
Lemma str_gap xs ys tl n :
  0 < n <= blen tl -> is_u4 (blen xs + blen ys) ->
  exists gap rest,
    (if blen xs <? blen (xs ++ ys)
     then copy_data (xs ++ ys ++ tl) (blen xs + n) (blen xs) (u4 (blen (xs ++ ys) - blen xs))
     else Some (0, xs ++ ys ++ tl)) = Some (0, xs ++ gap ++ ys ++ rest) /\
    blen gap = n /\ n + blen rest = blen tl.
Proof.
  intros Hn Hu. rewrite blen_app. pose proof (blen_nonneg xs). pose proof (blen_nonneg ys).
  destruct (split_blen (ys ++ tl) n) as (gap & r & Eg & Hg); [rewrite blen_app; lia|].
  pose proof (f_equal blen Eg) as El. rewrite !blen_app in El.
  destruct (split_blen r (blen ys)) as (mid & rest & -> & Hmid); [lia|]. rewrite blen_app in El.
  destruct (blen xs <? blen xs + blen ys) eqn:E; to_prop.
  - exists gap, rest. split; [|lia]. unfold copy_data. replace (blen xs + blen ys - blen xs) with (blen ys) by lia.
    rewrite u4_id by (unfold is_u4 in *; lia). rewrite (proj2 (Z.leb_gt _ _)), (proj2 (Z.eqb_neq _ _)) by lia.
    cbn [negb]. rewrite rd_mid. cbn [mbind option_bind]. rewrite Eg, app_assoc.
    replace (blen xs + n) with (blen (xs ++ gap)) by (rewrite blen_app; lia).
    rewrite wr_mid by done. cbn [mbind option_bind]. by rewrite <- app_assoc.
  - assert (ys = []) as -> by (destruct ys; [done|unfold blen in E; cbn in E; lia]).
    destruct mid; [|unfold blen in Hmid; cbn in Hmid; lia]. cbn [app] in *. exists gap, rest. split; [by rewrite Eg|]. cbn in *. lia.
Qed.

Lemma str_grow realloc s xs cap :
  realloc_ok realloc -> str_rep s xs -> blen xs < cap <= 2 ^ 31 ->
  let grown := (if capacity s <? cap then lisk_string_realloc realloc (Some s) (Vector.round_up cap)
                else Some (0, Some s)) in
  (capacity s < cap /\ realloc (data s) (Vector.round_up cap) = None /\ grown = Some (-2, Some (with_data s None))) \/
  exists s', grown = Some (0, Some s') /\ str_rep s' xs /\ cap <= capacity s'.
Proof.
  intros Hre Hr Hc. cbv zeta. pose proof (blen_nonneg xs). destruct (capacity s <? cap) eqn:E; to_prop; [|right; by exists s].
  pose proof (Vector.round_up_spec cap ltac:(lia)) as Hru.
  destruct (realloc_spec realloc s xs (Vector.round_up cap) Hre Hr) as [[? ?]|(s' & Hs & Hr' & Ec)];
    [unfold U4_MOD; lia|by left|right].
  rewrite take_ge in Hr' by (unfold blen in *; lia). exists s'. split; [done|]. split; [done|lia].
Qed.

(** The insertion of [n] bytes needs a larger block and is refused one. *)
Definition grow_fails (realloc : realloc_fun) (s : lisk_string_t) (n : Z) : Prop :=
  capacity s < length s + n + 1 /\ realloc (data s) (Vector.round_up (length s + n + 1)) = None.

(** [insert] puts the first bytes of the buffer between [xs] and [ys], unless it cannot grow. *)
Lemma str_insert realloc s xs ys b extra :
  realloc_ok realloc -> str_rep s (xs ++ ys) -> Forall byte b -> b <> [] ->
  blen xs + blen b + blen ys + 1 <= 2 ^ 31 ->
  let r := lisk_string_insert realloc (Some s) (blen xs) (Some (b ++ extra)) (blen b) in
  (grow_fails realloc s (blen b) /\ r = Some (-2, Some (with_data s None))) \/
  exists s', r = Some (0, Some s') /\ str_rep s' (xs ++ b ++ ys).
Proof.
  intros Hre Hr Hb Hne Hl r. assert (0 < blen b) as Hb0 by (destruct b; [done|rewrite blen_cons; pose proof (blen_nonneg b); lia]).
  pose proof (sr_len _ _ Hr) as Elen. pose proof (blen_nonneg xs). pose proof (blen_nonneg ys).
  unfold r, lisk_string_insert, grow_fails. clear r. rewrite Elen. pose proof (blen_app xs ys) as Ea.
  rewrite (proj2 (Z.eqb_neq _ _)), (proj2 (Z.ltb_ge _ _)) by lia. cbn [orb].
  rewrite (u4_id (blen (xs ++ ys) + blen b)), (u4_id (blen (xs ++ ys) + blen b + 1)) by (unfold is_u4, U4_MOD; lia).
  destruct (str_grow realloc s _ (blen (xs ++ ys) + blen b + 1) Hre Hr) as [(? & ? & ->)|(s1 & -> & Hr1 & Hc1)];
    [lia|by left|right].
  cbn [mbind option_bind Z.eqb negb]. destruct (sr_data _ _ Hr1) as (sl & Hd & Hbl).
  rewrite Hd. cbn [mbind option_bind]. rewrite <- app_assoc. rewrite !blen_app, blen_cons in Hbl.
  destruct (str_gap xs ys (0 :: sl) (blen b)) as (gap & rest & -> & Hg & Hrest);
    [rewrite blen_cons; lia|unfold is_u4, U4_MOD; lia|].
  cbn [mbind option_bind Z.eqb negb]. rewrite rd_head. cbn [mbind option_bind]. rewrite wr_mid by lia.
  cbn [mbind option_bind length]. rewrite (sr_len _ _ Hr1), u4_id by (unfold is_u4, U4_MOD; lia).
  rewrite blen_cons in Hrest. destruct rest as [|c rest]; [change (blen []) with 0 in Hrest; lia|]. rewrite blen_cons in Hrest.
  assert (blen (xs ++ ys) + blen b = blen (xs ++ b ++ ys)) as -> by (rewrite !blen_app; lia).
  replace (xs ++ b ++ ys ++ c :: rest) with ((xs ++ b ++ ys) ++ c :: rest) by (by rewrite <- !app_assoc).
  rewrite set_term. cbn [mbind option_bind]. eexists. split; [done|].
  pose proof (sr_cap _ _ Hr1). apply (rep_intro _ (xs ++ b ++ ys)); [|done|].
  - pose proof (sr_bytes _ _ Hr) as Hby. rewrite !Forall_app in *. tauto.
  - rewrite !blen_app, blen_cons. lia.
Qed.

(** ** What the routines for C strings see of the bytes *)

(** The bytes before the first zero. *)
Fixpoint cpart (xs : bytes) : bytes :=
  match xs with [] => [] | c :: xs' => if c =? 0 then [] else c :: cpart xs' end.

Lemma cpart_split xs slack : exists post, xs ++ 0 :: slack = cpart xs ++ 0 :: post /\
  (drop (List.length (cpart xs)) xs) ++ 0 :: slack = 0 :: post.
Proof.
  induction xs as [|c xs (post & IH1 & IH2)]; cbn; [by exists slack|]. destruct (c =? 0) eqn:E; to_prop.
  - subst c. by exists (xs ++ 0 :: slack).
  - exists post. cbn. by rewrite IH1.
Qed.

Lemma cpart_char xs : Forall byte xs -> Forall char (cpart xs).
Proof.
  induction 1 as [|c xs Hc Hx IH]; cbn; [constructor|]. destruct (c =? 0) eqn:E; to_prop; [constructor|].
  constructor; [|done]. unfold byte in Hc. unfold char. lia.
Qed.

Lemma cpart_drop xs : xs = cpart xs ++ drop (List.length (cpart xs)) xs.
Proof. induction xs as [|c xs IH]; cbn; [done|]. destruct (c =? 0); cbn; [done|by f_equal]. Qed.

Lemma cpart_blen xs : 0 <= blen (cpart xs) <= blen xs.
Proof.
  rewrite (cpart_drop xs) at 3. rewrite blen_app. pose proof (blen_nonneg (cpart xs)).
  pose proof (blen_nonneg (drop (List.length (cpart xs)) xs)). lia.
Qed.

Lemma rep_strbuf s xs :
  str_rep s xs -> blen xs < 2 ^ 31 ->
  exists d post, data s = Some d /\ d = cpart xs ++ 0 :: post /\ blen d = capacity s /\
    strbuf (block_mem d) the_block [] (cpart xs) post /\
    exists slack, drop (List.length (cpart xs)) xs ++ 0 :: slack = 0 :: post.
Proof.
  intros Hr Hl. destruct (sr_data _ _ Hr) as (sl & Hd & Hc). destruct (cpart_split xs sl) as (post & E1 & E2).
  exists (xs ++ 0 :: sl), post. split; [done|]. split; [done|]. split; [done|]. split; [|by exists sl].
  split; [by rewrite E1|]. split; [done|]. split; [apply cpart_char, Hr|]. pose proof (cpart_blen xs). lia.
Qed.

Lemma str_reverse s xs :
  str_rep s xs -> blen xs < 2 ^ 31 ->
  exists s', lisk_string_reverse (Some s) = Some (0, Some s') /\
    str_rep s' (reverse (cpart xs) ++ drop (List.length (cpart xs)) xs).
Proof.
  intros Hr Hl. destruct (rep_strbuf s xs Hr Hl) as (d & post & Hd & Ed & Hc & Hb & slack & Esl).
  pose proof (rep_room s xs Hr). unfold lisk_string_reverse. rewrite (proj2 (Z.eqb_neq _ _)) by lia. rewrite Hd.
  destruct (reverse_str_spec _ _ _ _ _ Hb) as (m' & -> & (Hm & _) & _). cbn [mbind option_bind].
  cbn [the_block p_blk app] in Hm. rewrite Hm. cbn [mbind option_bind]. eexists. split; [done|].
  set (ys := reverse (cpart xs) ++ drop (List.length (cpart xs)) xs).
  assert (reverse (cpart xs) ++ 0 :: post = ys ++ 0 :: slack) as Ey by (unfold ys; by rewrite <- app_assoc, Esl).
  assert (blen ys = blen xs) as El.
  { pose proof (f_equal List.length (cpart_drop xs)) as E. rewrite length_app in E.
    unfold ys, blen. rewrite length_app, length_reverse. lia. }
  rewrite Ey. unfold with_data. rewrite (sr_len _ _ Hr), <- El. apply rep_intro.
  - unfold ys. apply Forall_app. split; [|apply Forall_drop, Hr]. apply Forall_reverse.
    eapply Forall_impl; [apply cpart_char, Hr|]. unfold char, byte. lia.
  - apply Hr.
  - rewrite <- Ey, <- Hc, Ed, !blen_app. unfold blen. by rewrite length_reverse.
Qed.

Lemma trim_spec s xs :
  str_rep s xs -> blen xs < 2 ^ 31 -> xs <> [] ->
  exists s', lisk_string_trim (Some s) = Some (0, Some s') /\ str_rep s' (no_spaces (cpart xs)).
Proof.
  intros Hr Hl Hne. destruct (rep_strbuf s xs Hr Hl) as (d & post & Hd & Ed & Hc & Hb & _).
  unfold lisk_string_trim. rewrite (sr_len _ _ Hr), (proj2 (Z.eqb_neq _ _)).
  2:{ destruct xs; [done|]. rewrite blen_cons. pose proof (blen_nonneg xs). lia. }
  rewrite Hd. destruct (str_trim_spec _ _ _ _ _ Hb) as (m' & -> & post' & Hb' & Hlen & _). cbn [mbind option_bind].
  pose proof (strbuf_cstr _ _ _ _ _ Hb') as Hs. destruct Hb' as (Hm & _ & Hch & Hlt).
  cbn [the_block p_blk app] in Hm. rewrite Hm. cbn [mbind option_bind].
  rewrite (strlen_cstr _ _ _ Hs). cbn [mbind option_bind]. pose proof (blen_nonneg (no_spaces (cpart xs))).
  rewrite u4_id by (unfold is_u4, U4_MOD; lia). eexists. split; [done|]. apply rep_intro.
  - eapply Forall_impl; [exact Hch|]. unfold char, byte. lia.
  - apply Hr.
  - rewrite <- Hc, Ed. rewrite !length_app in Hlen. unfold blen. rewrite !length_app. cbn. lia.
Qed.

(** The store of an empty string. *)
Lemma empty_spec s xs :
  str_rep s xs -> exists s', set_data (with_length s 0) 0 0 = Some s' /\ str_rep s' [] /\ capacity s' = capacity s.
Proof.
  intros Hr. destruct (sr_data _ _ Hr) as (sl & Hd & Hl).
  assert (exists c rest, xs ++ 0 :: sl = c :: rest) as (c & rest & E) by (destruct xs; cbn; eauto).
  rewrite E in Hd, Hl. unfold with_length. rewrite Hd. rewrite (set_term _ 0 [] c rest : set_data _ 0 0 = _).
  eexists. split; [done|]. split; [|done]. apply (rep_intro _ [] rest); [constructor|apply Hr|].
  cbn [app]. by rewrite blen_cons in *.
Qed.

(** ** Any sequence of calls *)

Inductive sop :=
| SInsert (pos : Z) (buf : bytes)
| SAppend (buf : bytes)
| SCopy (buf : bytes)
| SResize (size : Z)
| SReverse
| STrim
| SClear.

(** A call, with what [realloc] does during it. *)
Abbreviation scall := (realloc_fun * sop)%type.

Definition str_step (c : scall) (s : option lisk_string_t) : option sres :=
  let '(realloc, op) := c in
  match op with
  | SInsert pos buf => lisk_string_insert realloc s pos (Some buf) (blen buf)
  | SAppend buf => lisk_string_append realloc s (Some buf) (blen buf)
  | SCopy buf => lisk_string_copy realloc s (Some buf) (blen buf)
  | SResize size => lisk_string_realloc realloc s size
  | SReverse => lisk_string_reverse s
  | STrim => lisk_string_trim s
  | SClear => s' ← lisk_string_clear s; Some (0, s')
  end.

Fixpoint str_run (cs : list scall) (s : option lisk_string_t) : option (list Z * option lisk_string_t) :=
  match cs with
  | [] => Some ([], s)
  | c :: cs' => '(r, s) ← str_step c s; '(rs, s) ← str_run cs' s; Some (r :: rs, s)
  end.

(** The call reallocates the block and [realloc] fails; what is left of the string then. *)
Definition loses (c : scall) (s : lisk_string_t) : Prop :=
  let '(realloc, op) := c in
  match op with
  | SInsert _ buf | SAppend buf => grow_fails realloc s (blen buf)
  | SCopy buf => exists s0, set_data (with_length s 0) 0 0 = Some s0 /\ grow_fails realloc s0 (blen buf)
  | SResize size => realloc (data s) size = None
  | _ => False
  end.

Definition lost (op : sop) (s : lisk_string_t) : lisk_string_t :=
  with_data (match op with SCopy _ => with_length s 0 | _ => s end) None.

(** The same calls on a list of bytes. *)
Definition bytes_step (op : sop) (xs : bytes) : Z * bytes :=
  match op with
  | SInsert pos buf =>
      if (blen buf =? 0) || (blen xs <? pos) then (-1, xs)
      else (0, take (Z.to_nat pos) xs ++ buf ++ drop (Z.to_nat pos) xs)
  | SAppend buf => if blen buf =? 0 then (-1, xs) else (0, xs ++ buf)
  | SCopy buf => if blen buf =? 0 then (-1, xs) else (0, buf)
  | SResize size => (0, take (Z.to_nat (size - 1)) xs)
  | SReverse => (0, reverse (cpart xs) ++ drop (List.length (cpart xs)) xs)
  | STrim => if blen xs =? 0 then (-1, xs) else (0, no_spaces (cpart xs))
  | SClear => (0, [])
  end.

Fixpoint bytes_run (ops : list sop) (xs : bytes) : list Z * bytes :=
  match ops with
  | [] => ([], xs)
  | op :: ops' => let '(r, xs) := bytes_step op xs in let '(rs, xs) := bytes_run ops' xs in (r :: rs, xs)
  end.

Definition op_ok (op : sop) : Prop :=
  match op with
  | SInsert pos buf => 0 <= pos /\ Forall byte buf
  | SAppend buf | SCopy buf => Forall byte buf
  | SResize size => 0 < size < U4_MOD
  | _ => True
  end.

(** The bytes a call can add. *)
Definition op_size (op : sop) : Z :=
  match op with SInsert _ buf | SAppend buf | SCopy buf => blen buf | _ => 0 end.

Definition call_ok (c : scall) : Prop := realloc_ok (fst c) /\ op_ok (snd c).

Fixpoint ops_size (cs : list scall) : Z := match cs with [] => 0 | (_, op) :: cs' => op_size op + ops_size cs' end.

Lemma op_size_nonneg op : 0 <= op_size op.
Proof. destruct op; cbn; try apply blen_nonneg; lia. Qed.

Lemma ops_size_nonneg cs : 0 <= ops_size cs.
Proof. induction cs as [|[re op] cs IH]; cbn; [lia|]. pose proof (op_size_nonneg op). lia. Qed.

Lemma bytes_step_size op xs : blen (snd (bytes_step op xs)) <= blen xs + op_size op.
Proof.
  destruct op; cbn; repeat c_if; cbn [snd]; unfold blen in *;
    rewrite ?length_app, ?length_take, ?length_drop, ?length_reverse; try (cbn; lia).
  - pose proof (cpart_drop xs) as E. apply (f_equal List.length) in E. rewrite length_app, length_drop in E. lia.
  - pose proof (no_spaces_length (cpart xs)). pose proof (cpart_blen xs). unfold blen in *. lia.
Qed.

(** What a call may do: lose the bytes, or what it does to a list of bytes. *)
Definition step_post (lossy : Prop) (after : lisk_string_t) (op : sop) (xs : bytes) (r : option sres) : Prop :=
  (lossy /\ r = Some (-2, Some after)) \/
  exists s', r = Some (fst (bytes_step op xs), Some s') /\ str_rep s' (snd (bytes_step op xs)).

Lemma str_insert_step realloc s xs pos buf :
  realloc_ok realloc -> str_rep s xs -> 0 <= pos -> Forall byte buf -> blen xs + blen buf + 1 <= 2 ^ 31 ->
  step_post (grow_fails realloc s (blen buf)) (with_data s None) (SInsert pos buf) xs
    (lisk_string_insert realloc (Some s) pos (Some buf) (blen buf)).
Proof.
  intros Hre Hr Hp Hb Hsz. unfold step_post. cbn [bytes_step]. destruct (_ || _) eqn:E.
  - right. unfold lisk_string_insert. rewrite (sr_len _ _ Hr), E. by exists s.
  - to_prop. cbn [fst snd]. set (a := take (Z.to_nat pos) xs). set (b := drop (Z.to_nat pos) xs).
    assert (xs = a ++ b) as Ex by (unfold a, b; by rewrite take_drop).
    assert (blen a = pos) as Ea by (unfold a, blen in *; rewrite length_take; lia).
    rewrite Ex in Hr, Hsz. rewrite blen_app in Hsz.
    pose proof (str_insert realloc s a b buf [] Hre Hr Hb) as Hi. rewrite app_nil_r, Ea in Hi.
    apply Hi; [by intros ->|lia].
Qed.

Lemma append_step realloc s xs buf :
  realloc_ok realloc -> str_rep s xs -> Forall byte buf -> blen xs + blen buf + 1 <= 2 ^ 31 ->
  step_post (grow_fails realloc s (blen buf)) (with_data s None) (SAppend buf) xs
    (lisk_string_append realloc (Some s) (Some buf) (blen buf)).
Proof.
  intros Hre Hr Hb Hsz. unfold lisk_string_append. rewrite (sr_len _ _ Hr). pose proof (blen_nonneg xs).
  destruct (str_insert_step realloc s xs (blen xs) buf Hre Hr ltac:(lia) Hb Hsz) as [?|(s' & Hi & Hr')]; [by left|right].
  exists s'. revert Hi Hr'. cbn [bytes_step]. rewrite Z.ltb_irrefl, orb_false_r. destruct (blen buf =? 0); [done|].
  cbn [fst snd]. by rewrite take_ge, drop_ge, app_nil_r by (unfold blen; lia).
Qed.

Lemma copy_step realloc s xs buf :
  realloc_ok realloc -> str_rep s xs -> Forall byte buf -> blen xs + blen buf + 1 <= 2 ^ 31 ->
  step_post (loses (realloc, SCopy buf) s) (lost (SCopy buf) s) (SCopy buf) xs
    (lisk_string_copy realloc (Some s) (Some buf) (blen buf)).
Proof.
  intros Hre Hr Hb Hsz. pose proof (blen_nonneg xs). unfold lisk_string_copy, step_post. cbn [bytes_step].
  destruct (blen buf =? 0) eqn:E; [right; by exists s|].
  destruct (empty_spec s xs Hr) as (s1 & E1 & Hr1 & Ec). rewrite E1. cbn [mbind option_bind].
  destruct (append_step realloc s1 [] buf Hre Hr1 Hb) as [[Hl ->]|(s2 & Hs2 & Hr2)];
    [change (blen []) with 0; lia|left|right].
  - split; [by exists s1|]. unfold lost, with_data, with_length. cbn [capacity length data].
    by rewrite Ec, (sr_len _ _ Hr1).
  - cbn [bytes_step] in Hs2, Hr2. rewrite E in Hs2, Hr2. by exists s2.
Qed.

Lemma str_step_spec c s xs :
  str_rep s xs -> call_ok c -> blen xs + op_size (snd c) + 1 <= 2 ^ 31 ->
  step_post (loses c s) (lost (snd c) s) (snd c) xs (str_step c (Some s)).
Proof.
  intros Hr [Hre Hok] Hsz. pose proof (blen_nonneg xs). destruct c as [realloc op].
  destruct op as [pos buf|buf|buf|size| | |]; cbn [str_step op_ok op_size fst snd] in *.
  - destruct Hok. by apply str_insert_step.
  - by apply append_step.
  - by apply copy_step.
  - destruct (realloc_spec realloc s xs size Hre Hr Hok) as [[? ->]|(s' & -> & Hr' & _)]; [by left|right; by exists s'].
  - right. apply str_reverse; [done|lia].
  - right. cbn [bytes_step]. destruct (blen xs =? 0) eqn:E; [|apply trim_spec; [done|lia|by intros ->]].
    unfold lisk_string_trim. rewrite (sr_len _ _ Hr), E. by exists s.
  - right. unfold lisk_string_clear. destruct (sr_data _ _ Hr) as (sl & Hd & _). rewrite Hd.
    destruct (empty_spec s xs Hr) as (s1 & -> & Hr1 & _). by exists s1.
Qed.

(** A run holds what the bytes hold, up to the first reallocation that fails. *)
Lemma str_run_spec cs s xs :
  str_rep s xs -> Forall call_ok cs -> blen xs + ops_size cs + 1 <= 2 ^ 31 ->
  (exists s', str_run cs (Some s) = Some (fst (bytes_run (snd <$> cs) xs), Some s') /\
     str_rep s' (snd (bytes_run (snd <$> cs) xs))) \/
  (exists pre c post s1, cs = pre ++ c :: post /\
     str_run pre (Some s) = Some (fst (bytes_run (snd <$> pre) xs), Some s1) /\
     str_rep s1 (snd (bytes_run (snd <$> pre) xs)) /\ loses c s1 /\
     str_step c (Some s1) = Some (-2, Some (lost (snd c) s1))).
Proof.
  intros Hr Hok. revert s xs Hr. induction Hok as [|c cs Ho Hok IH]; intros s xs Hr Hsz.
  { left. by exists s. }
  destruct c as [realloc op]. cbn [ops_size] in Hsz. pose proof (ops_size_nonneg cs).
  destruct (str_step_spec (realloc, op) s xs Hr Ho) as [[Hl E]|(s1 & E & Hr1)]; [cbn; lia| |]; cbn [snd] in *.
  { right. by exists [], (realloc, op), cs, s. }
  pose proof (bytes_step_size op xs).
  destruct (IH s1 _ Hr1) as [(s2 & E2 & Hr2)|(pre & c & post & s2 & -> & E2 & Hr2 & Hl)]; [lia|left|right].
  - exists s2. cbn [str_run fmap list_fmap bytes_run snd]. rewrite E. cbn [mbind option_bind]. rewrite E2.
    destruct (bytes_step op xs) as [r ys]. cbn [fst snd] in *. by destruct (bytes_run _ ys) as [rs zs].
  - exists ((realloc, op) :: pre), c, post, s2. cbn [str_run fmap list_fmap bytes_run snd]. rewrite E.
    cbn [mbind option_bind]. rewrite E2. destruct (bytes_step op xs) as [r ys]. cbn [fst snd] in *.
    by destruct (bytes_run _ ys) as [rs zs].
Qed.

(** C17: from a successful [lisk_string_init], any sequence of calls of insert, append, copy,
    realloc, reverse, trim and clear that adds less than 2^31 bytes returns what it returns on a
    list of bytes and leaves the string holding that list, with a terminator behind it and inside
    its block, whatever [realloc] does in each call, up to the first call in which it fails: that
    call answers -2 and leaves a string without a block, whose bytes are lost.  The reversal of an
    empty string answers 0 and the trim of one -1, where lisk_string.h promises -1 and 0. *)
Theorem string_refines_bytes (malloc : malloc_fun) (s0 s : lisk_string_t) (size : Z) (cs : list scall) :
  malloc_ok malloc -> 0 <= size <= 2 ^ 31 ->
  lisk_string_init malloc (Some s0) size = Some (0, Some s) ->
  Forall call_ok cs -> ops_size cs < 2 ^ 31 ->
  (exists s', str_run cs (Some s) = Some (fst (bytes_run (snd <$> cs) []), Some s') /\
     str_rep s' (snd (bytes_run (snd <$> cs) []))) \/
  (exists pre c post s1, cs = pre ++ c :: post /\
     str_run pre (Some s) = Some (fst (bytes_run (snd <$> pre) []), Some s1) /\
     str_rep s1 (snd (bytes_run (snd <$> pre) [])) /\ loses c s1 /\
     str_step c (Some s1) = Some (-2, Some (lost (snd c) s1))).
Proof.
  intros Hm Hs Hi Hok Hsz. destruct (str_init_rep malloc s0 size s Hm Hs Hi) as [Hr _].
  apply str_run_spec; [done|done|]. change (blen []) with 0. lia.
Qed.

Definition sample_sops : list scall :=
  (pair realloc_zero <$> [SAppend [32; 97; 98]; SInsert 1 [99; 0; 100]; SInsert 9 [1]; SReverse; SAppend []; STrim;
     SCopy [97; 32; 98]; SReverse; SResize 3; STrim; STrim; SClear; STrim; SReverse]) ++
  [(realloc_fail, SAppend [1; 2]); (realloc_fail, SCopy [1; 2; 3; 4]); (realloc_zero, SClear)].

Lemma sample_sops_ok : Forall call_ok sample_sops.
Proof.
  unfold sample_sops. cbn [fmap list_fmap app]. repeat apply Forall_cons_2; try apply Forall_nil_2;
    (split; [first [exact realloc_zero_ok | exact realloc_fail_ok]|cbn [snd]]); vm_compute; intuition (congruence || auto);
    repeat constructor; congruence.
Qed.

Lemma string_refines_bytes_witness :
  let s := mk_string 4 0 (Some [0; 0; 0; 0]) in
  fst (bytes_run (snd <$> sample_sops) []) = [0; 0; -1; 0; -1; 0; 0; 0; 0; 0; 0; 0; -1; 0; 0; 0; 0] /\
  ((exists s', str_run sample_sops (Some s) = Some (fst (bytes_run (snd <$> sample_sops) []), Some s') /\
     str_rep s' (snd (bytes_run (snd <$> sample_sops) []))) \/
   (exists pre c post s1, sample_sops = pre ++ c :: post /\
     str_run pre (Some s) = Some (fst (bytes_run (snd <$> pre) []), Some s1) /\
     str_rep s1 (snd (bytes_run (snd <$> pre) [])) /\ loses c s1 /\
     str_step c (Some s1) = Some (-2, Some (lost (snd c) s1)))).
Proof.
  split; [vm_compute; reflexivity|].
  apply (string_refines_bytes malloc_zero (mk_string 0 0 None) _ 3).
  - apply malloc_zero_ok.
  - lia.
  - vm_compute. reflexivity.
  - apply sample_sops_ok.
  - vm_compute. reflexivity.
Defined.

(** [lisk_string_init_copy] of a buffer; of an empty one it copies a byte all the same. *)
Lemma init_copy_spec malloc s0 b extra s :
  malloc_ok malloc -> Forall byte (b ++ extra) -> b <> [] -> blen b < 2 ^ 31 ->
  lisk_string_init_copy malloc (Some s0) (Some (b ++ extra)) (blen b) = Some (0, Some s) -> str_rep s b.
Proof.
  intros Hm Hb Hne Hl. apply Forall_app in Hb as [Hb _].
  assert (0 < blen b) as Hb0 by (destruct b; [done|rewrite blen_cons; pose proof (blen_nonneg b); lia]).
  unfold lisk_string_init_copy. rewrite (proj2 (Z.eqb_neq _ _)) by lia. rewrite u4_id by (unfold is_u4, U4_MOD; lia).
  destruct (lisk_string_init malloc (Some s0) (blen b + 1)) as [[ret o]|] eqn:Ei; [|done]. cbn [mbind option_bind].
  destruct (ret =? 0) eqn:E; cbn [negb]; [|by intros [= ->]]. to_prop. subst ret.
  destruct o as [s1|]; [|done]. destruct (str_init_rep malloc s0 (blen b + 1) s1 Hm ltac:(lia) Ei) as [Hr Hc].
  destruct (sr_data _ _ Hr) as (sl & Hd & Hbl). cbn [mbind option_bind app] in *. rewrite Hd. cbn [mbind option_bind].
  rewrite rd_head. cbn [mbind option_bind].
  destruct (split_blen (0 :: sl) (blen b)) as (x & y & E & Hx); [lia|]. rewrite E in Hbl |- *.
  rewrite wr_head by done. cbn [mbind option_bind]. rewrite blen_app in Hbl.
  destruct y as [|c y]; [change (blen []) with 0 in Hbl; lia|]. unfold with_data at 1. rewrite set_term. cbn [mbind option_bind].
  intros [= <-]. unfold with_length. cbn [capacity data]. rewrite blen_cons in Hbl.
  apply (rep_intro _ b); [done|apply Hr|]. rewrite blen_app, blen_cons. lia.
Qed.

(** A string of length one from an empty buffer. *)
Lemma init_copy_empty :
  exists s, lisk_string_init_copy malloc_zero (Some (mk_string 0 0 None)) (Some [0]) 0 = Some (0, Some s) /\ length s = 1.
Proof. eexists. split; vm_compute; reflexivity. Qed.

(** A nil string is written to. *)
Lemma init_nil : lisk_string_init malloc_zero None 8 = None.
Proof. vm_compute. reflexivity. Qed.

(** When [realloc] fails the bytes are lost: the next append that fits writes through nil. *)
Lemma string_realloc_failure :
  let s := mk_string 4 2 (Some [97; 98; 0; 0]) in
  exists s', lisk_string_append (fun _ _ => None) (Some s) (Some [99; 100; 101]) 3 = Some (-2, Some s') /\
    data s' = None /\ length s' = 2 /\ lisk_string_append (fun _ _ => None) (Some s') (Some [99]) 1 = None.
Proof. eexists. split; [vm_compute; reflexivity|]. split; [reflexivity|]. split; vm_compute; reflexivity. Qed.

(** Beyond 2^31 bytes the capacity asked for wraps to 0, and a reallocation to 0 bytes
    releases the string. *)
Lemma string_capacity_wraps : Vector.round_up (2 ^ 31 + 1) = 0.
Proof. vm_compute. reflexivity. Qed.

End StrObj.
