(* ===== verification/LiskClock.v ===== *)
(** * The clock: lisk_clock.c

    The time of day, from the 100 nanosecond ticks since 1601 that the system
    counts, and the stop watch.  What the system answers is an argument; a [long]
    has [long_bits] bits, 32 where this code is compiled for.  [None] is signed
    overflow or a division by zero. *)

From S2P Require Import Prelude.

Module Clock.

Definition DELTA_EPOCH_IN_MICROSECS : Z := 11644473600000000.

Record timeval := mk_timeval { tv_sec : Z; tv_usec : Z }.

Section long.
Context (long_bits : Z).

(** Conversion to [long], and the check of a sum or product of [long]s. *)
Definition to_long (z : Z) : Z := (z + 2 ^ (long_bits - 1)) mod 2 ^ long_bits - 2 ^ (long_bits - 1).
Definition chk_long (z : Z) : option Z :=
  if (- 2 ^ (long_bits - 1) <=? z) && (z <? 2 ^ (long_bits - 1)) then Some z else None.

(** [GetSystemTimeAsFileTime] answers [(high, low)]. *)
Definition gettimeofday (ft : Z * Z) : timeval :=
  let '(dwHighDateTime, dwLowDateTime) := ft in
  let tmpres := Z.lor 0 dwHighDateTime in
  let tmpres := u8 (Z.shiftl tmpres 32) in
  let tmpres := Z.lor tmpres dwLowDateTime in
  let tmpres := tmpres / 10 in
  let tmpres := u8 (tmpres - DELTA_EPOCH_IN_MICROSECS) in
  mk_timeval (to_long (tmpres / 1000000 mod 2 ^ long_bits)) (to_long (tmpres mod 1000000 mod 2 ^ long_bits)).

Definition get_cur_time_sec (ft : Z * Z) : Z := tv_sec (gettimeofday ft).

Definition get_cur_time_msec (ft : Z * Z) : option Z :=
  let tv := gettimeofday ft in
  s ← chk_long (tv_sec tv * 1000); chk_long (s + Z.quot (tv_usec tv) 1000).

Definition get_cur_time_usec (ft : Z * Z) : option Z :=
  let tv := gettimeofday ft in
  s ← chk_long (tv_sec tv * 1000000); chk_long (s + tv_usec tv).

End long.

(** ** The stop watch *)

Record program_time := mk_program_time { prog_start : Z; prog_cur : Z; clock_ticks : Z }.

(** The product is of signed 64 bit numbers. *)
Definition ticks_usec (a freq : Z) : option Z := p ← chk_n8 (a * 1000000); if freq =? 0 then None else Some (u8 p / u8 freq).

Definition time_diff_usec (a b freq : Z) : option Z :=
  a_usec ← ticks_usec a freq;
  b_usec ← ticks_usec b freq;
  let '(a_usec, b_usec) := if b_usec <? a_usec then (b_usec, a_usec) else (a_usec, b_usec) in
  Some (u8 (b_usec - a_usec)).

Definition clock_start (counter frequency : Z) : program_time :=
  mk_program_time counter counter (if frequency =? 0 then 1 else frequency).
Definition clock_record (pgm_time : program_time) (counter : Z) : program_time :=
  mk_program_time (prog_start pgm_time) counter (clock_ticks pgm_time).
Definition clock_reset (pgm_time : program_time) (counter : Z) : program_time :=
  mk_program_time counter counter (clock_ticks pgm_time).

Definition time_diff (pgm_time : program_time) : option Z :=
  d ← time_diff_usec (prog_cur pgm_time) (prog_start pgm_time) (clock_ticks pgm_time); Some (u4 d).

(** ** The time of day *)

(** The answer of the system [t] microseconds after the beginning of 1970. *)
Definition file_time (t sub : Z) : Z * Z :=
  let ticks := (t + DELTA_EPOCH_IN_MICROSECS) * 10 + sub in (ticks / 2 ^ 32, ticks mod 2 ^ 32).

Definition valid_time (t sub : Z) : Prop :=
  0 <= t /\ 0 <= sub < 10 /\ (t + DELTA_EPOCH_IN_MICROSECS) * 10 + sub < 2 ^ 64.

Lemma lor_words hi lo : 0 <= hi < 2 ^ 32 -> 0 <= lo < 2 ^ 32 -> Z.lor (u8 (Z.shiftl hi 32)) lo = hi * 2 ^ 32 + lo.
Proof.
  intros Hh Hl. rewrite Z.shiftl_mul_pow2 by lia. rewrite u8_id by (unfold is_u8, U8_MOD; lia).
  rewrite <- Z.lxor_lor, <- Z.add_nocarry_lxor; [done|..]; apply Z.bits_inj'; intros n Hn;
    rewrite Z.land_spec, Z.bits_0; destruct (Z.lt_ge_cases n 32);
    try (rewrite Z.mul_pow2_bits_low by lia; done);
    rewrite (Z.bits_above_log2 lo n), andb_false_r; try done; try lia;
    (destruct (Z.eq_dec lo 0) as [->|]; [cbn; lia|]; pose proof (proj1 (Z.log2_lt_pow2 lo 32 ltac:(lia))); lia).
Qed.

Lemma gettimeofday_value bits t sub :
  valid_time t sub ->
  gettimeofday bits (file_time t sub) =
  mk_timeval (to_long bits (t / 1000000 mod 2 ^ bits)) (to_long bits (t mod 1000000 mod 2 ^ bits)).
Proof.
  intros (Ht & Hs & Hb). unfold gettimeofday, file_time.
  set (ticks := (t + DELTA_EPOCH_IN_MICROSECS) * 10 + sub) in *.
  assert (H0 : 0 <= ticks) by (unfold ticks, DELTA_EPOCH_IN_MICROSECS; lia).
  rewrite Z.lor_0_l, lor_words.
  2:{ split; [apply Z.div_pos; lia|]. apply Z.div_lt_upper_bound; lia. }
  2:{ apply Z.mod_pos_bound. lia. }
  replace (ticks / 2 ^ 32 * 2 ^ 32 + ticks mod 2 ^ 32) with ticks by (pose proof (Z.div_mod ticks (2 ^ 32)); lia).
  replace (ticks / 10) with (t + DELTA_EPOCH_IN_MICROSECS)
    by (unfold ticks; rewrite Z.div_add_l, Z.div_small; lia).
  replace (t + DELTA_EPOCH_IN_MICROSECS - DELTA_EPOCH_IN_MICROSECS) with t by lia.
  rewrite u8_id; [done|]. unfold is_u8, U8_MOD. unfold ticks, DELTA_EPOCH_IN_MICROSECS in Hb. lia.
Qed.

Lemma to_long_id bits z : 0 < bits -> 0 <= z < 2 ^ (bits - 1) -> to_long bits (z mod 2 ^ bits) = z.
Proof.
  intros Hb Hz. unfold to_long.
  assert (E : 2 ^ bits = 2 * 2 ^ (bits - 1)) by (rewrite <- Z.pow_succ_r by lia; f_equal; lia).
  rewrite (Z.mod_small z), Z.mod_small; lia.
Qed.

Lemma chk_long_ok bits z : 0 <= z -> chk_long bits z = if z <? 2 ^ (bits - 1) then Some z else None.
Proof.
  intros Hz. unfold chk_long. assert (0 <= 2 ^ (bits - 1)) by (apply Z.pow_nonneg; lia).
  by rewrite (proj2 (Z.leb_le _ _)) by lia.
Qed.

(** [get_cur_time_sec], [get_cur_time_msec] and [get_cur_time_usec] answer the whole seconds,
    milliseconds and microseconds since 1970 as long as a [long] holds the number, and overflow
    after: with 32 bits the milliseconds do so from 25 January 1970 on. *)
Theorem clock_reads_time bits t sub :
  32 <= bits -> valid_time t sub -> t / 1000000 < 2 ^ (bits - 1) ->
  get_cur_time_sec bits (file_time t sub) = t / 1000000 /\
  get_cur_time_msec bits (file_time t sub) = (if t / 1000 <? 2 ^ (bits - 1) then Some (t / 1000) else None) /\
  get_cur_time_usec bits (file_time t sub) = (if t <? 2 ^ (bits - 1) then Some t else None).
Proof.
  intros Hb Hv Hsec. pose proof Hv as (Ht & _). unfold get_cur_time_sec, get_cur_time_msec, get_cur_time_usec.
  rewrite gettimeofday_value by done. cbn [tv_sec tv_usec].
  assert (H31 : 2 ^ 31 <= 2 ^ (bits - 1)) by (apply Z.pow_le_mono_r; lia).
  pose proof (Z.mod_pos_bound t 1000000). pose proof (Z.div_mod t 1000000). pose proof (Z.div_pos t 1000000).
  rewrite !to_long_id by lia. rewrite Z.quot_div_nonneg by lia.
  assert (Hms : t / 1000 = t / 1000000 * 1000 + t mod 1000000 / 1000).
  { rewrite (Z.div_mod t 1000000) at 1 by lia.
    replace (1000000 * (t / 1000000) + t mod 1000000) with (t mod 1000000 + t / 1000000 * 1000 * 1000) by lia.
    rewrite Z.div_add by lia. lia. }
  rewrite Hms. clear Hms. pose proof (Z.div_pos (t mod 1000000) 1000). split; [done|].
  assert (Et : t = t / 1000000 * 1000000 + t mod 1000000) by lia.
  set (q := t / 1000000) in *. set (r := t mod 1000000) in *. clearbody q r. subst t.
  split; rewrite (chk_long_ok bits (q * _)) by lia.
  - destruct (Z.ltb_spec (q * 1000) (2 ^ (bits - 1))); cbn [mbind option_bind].
    + by rewrite chk_long_ok by lia.
    + by destruct (Z.ltb_spec (q * 1000 + r / 1000) (2 ^ (bits - 1))); [lia|].
  - destruct (Z.ltb_spec (q * 1000000) (2 ^ (bits - 1))); cbn [mbind option_bind].
    + by rewrite chk_long_ok by lia.
    + by destruct (Z.ltb_spec (q * 1000000 + r) (2 ^ (bits - 1))); [lia|].
Qed.

(** On the first of January 2020, with 32 and with 64 bits. *)
Lemma clock_reads_time_witness :
  get_cur_time_sec 32 (file_time 1577836800123456 7) = 1577836800 /\
  get_cur_time_msec 32 (file_time 1577836800123456 7) = None /\
  get_cur_time_msec 64 (file_time 1577836800123456 7) = Some 1577836800123.
Proof.
  assert (Hv : valid_time 1577836800123456 7) by (unfold valid_time, DELTA_EPOCH_IN_MICROSECS; lia).
  destruct (clock_reads_time 32 1577836800123456 7) as (E1 & E2 & _); [lia|exact Hv|by vm_compute|].
  destruct (clock_reads_time 64 1577836800123456 7) as (_ & E3 & _); [lia|exact Hv|by vm_compute|].
  split; [exact E1|]. split; [exact E2|exact E3].
Defined.

(** ** Differences *)

Lemma ticks_usec_value a freq : 0 <= a -> a * 1000000 < 2 ^ 63 -> 0 < freq < 2 ^ 63 -> ticks_usec a freq = Some (a * 1000000 / freq).
Proof.
  intros Ha Hm Hf. unfold ticks_usec. rewrite chk_n8_ok by lia. cbn [mbind option_bind].
  destruct (Z.eqb_spec freq 0); [lia|]. by rewrite !u8_id by (unfold is_u8, U8_MOD; lia).
Qed.

(** The difference does not depend on the order, and is the microseconds between the two counts, or one less
    or more for the rounding. *)
Lemma time_diff_within a b freq :
  0 <= a <= b -> b * 1000000 < 2 ^ 63 -> 0 < freq < 2 ^ 63 ->
  exists d, time_diff_usec a b freq = Some d /\ time_diff_usec b a freq = Some d /\
    (b - a) * 1000000 / freq <= d <= (b - a) * 1000000 / freq + 1.
Proof.
  intros Hab Hm Hf. unfold time_diff_usec. rewrite !ticks_usec_value by lia. cbn [mbind option_bind].
  pose proof (Z.div_le_mono (a * 1000000) (b * 1000000) freq). pose proof (Z.div_pos (a * 1000000) freq).
  assert (b * 1000000 / freq < 2 ^ 64) by (apply Z.div_lt_upper_bound; nia).
  exists (b * 1000000 / freq - a * 1000000 / freq).
  assert (Hu : u8 (b * 1000000 / freq - a * 1000000 / freq) = b * 1000000 / freq - a * 1000000 / freq)
    by (apply u8_id; unfold is_u8, U8_MOD; lia).
  split_and!.
  - destruct (Z.ltb_spec (b * 1000000 / freq) (a * 1000000 / freq)); [lia|]. by rewrite Hu.
  - destruct (Z.ltb_spec (a * 1000000 / freq) (b * 1000000 / freq)) as [_|Hge]; [by rewrite Hu|].
    replace (a * 1000000 / freq) with (b * 1000000 / freq) by lia. by rewrite Z.sub_diag.
  - pose proof (Z.div_mod (a * 1000000) freq). pose proof (Z.mod_pos_bound (a * 1000000) freq).
    apply Z.lt_succ_r. apply Z.div_lt_upper_bound; [lia|]. pose proof (Z.div_mod (b * 1000000) freq).
    pose proof (Z.mod_pos_bound (b * 1000000) freq). nia.
  - assert ((b * 1000000 / freq - a * 1000000 / freq - 1) <= (b - a) * 1000000 / freq); [|lia].
    apply Z.div_le_lower_bound; [lia|].
    pose proof (Z.div_mod (a * 1000000) freq). pose proof (Z.mod_pos_bound (a * 1000000) freq).
    pose proof (Z.div_mod (b * 1000000) freq). pose proof (Z.mod_pos_bound (b * 1000000) freq). nia.
Qed.

End Clock.
