(* ===== verification/LiskNetwork.v ===== *)
(** * Connections: the buffers and handlers of lisk_network.c, over lisk_sock.c

    A connection has a buffer of what was received and not yet handled and one of
    what is still to be sent, vectors of lisk_vector.c; the handlers of an event
    read and write them.  The system calls are the class [Os] over a world [W],
    which is also the state of the program's callbacks.  [None] is undefined
    behaviour. *)

From S2P Require Import Prelude LiskVector.
Import Vector.

(** What a system call answers: an error of EAGAIN or EINTR is [Again]. *)
Inductive recv_result := Received (b : bytes) (addr : bytes) | RecvAgain | RecvFailed.
Inductive send_result := Sent (n : Z) | SendAgain | SendFailed.

(** The system calls on a socket. *)
Class Os (W : Type) := {
  recvmsg : W -> Z -> Z -> recv_result * W;
  sendmsg : W -> Z -> bytes -> send_result * W;
  so_error : W -> Z -> Z * W;
  shutdown_rd : W -> Z -> W
}.

Module Net.

(** ** lisk_sock.c *)

Section sock.
Context {W : Type} `{Os W}.

(** Result code, the bytes read and the address they are from; a read of no bytes is the end of the
    connection. *)
Definition sock_read (w : W) (sock : Z) (buf_size : Z) : Z * bytes * bytes * W :=
  if (sock <? 0) || (buf_size =? 0) then (-1, [], [], w)
  else
    let '(r, w) := recvmsg w sock buf_size in
    match r with
    | Received [] addr => (-3, [], addr, w)
    | Received b addr => (0, b, addr, w)
    | RecvAgain => (0, [], [], w)
    | RecvFailed => (-2, [], [], w)
    end.

(** Result code and the number of bytes written. *)
Definition sock_write (w : W) (sock : Z) (buf : option bytes) : Z * Z * W :=
  match buf with
  | None => (-1, 0, w)
  | Some b =>
      if (sock <? 0) || (blen b =? 0) then (-1, blen b, w)
      else
        let '(r, w) := sendmsg w sock b in
        match r with
        | Sent n => (0, n, w)
        | SendAgain => (0, 0, w)
        | SendFailed => (-3, 0, w)
        end
  end.

Definition check_connection (w : W) (sock : Z) : Z * W :=
  let '(opt, w) := so_error w sock in (if negb (opt =? 0) then -2 else 0, w).

End sock.

(** ** Events *)

Definition EEVENT_INIT : Z := Z.shiftl 1 0.
Definition EEVENT_TCP_BIND : Z := Z.shiftl 1 1.
Definition EEVENT_TCP_LISTEN : Z := Z.shiftl 1 2.
Definition EEVENT_TCP_CONNECTING : Z := Z.shiftl 1 4.
Definition EEVENT_TCP_CONNECTED : Z := Z.shiftl 1 5.
Definition EEVENT_TCP_ACCEPT : Z := Z.shiftl 1 6.
Definition EEVENT_TCP_CLOSING : Z := Z.shiftl 1 7.
Definition EEVENT_UDP : Z := Z.shiftl 1 8.

Definition MAX_BUF_LEN : Z := SIZE_K 1.
Definition INIT_BUF_LEN : Z := MAX_BUF_LEN.
Definition READ_BUF_LEN : Z := SIZE_K 64.

(** The parts of an event that its handlers use. *)
Record event_t := mk_event {
  state : Z; sock : Z; peer : bytes; rbuf : lisk_vector_t; wbuf : lisk_vector_t
}.

Definition with_state (e : event_t) (s : Z) := mk_event s (sock e) (peer e) (rbuf e) (wbuf e).
Definition with_peer (e : event_t) (a : bytes) := mk_event (state e) (sock e) a (rbuf e) (wbuf e).
Definition with_rbuf (e : event_t) (v : lisk_vector_t) := mk_event (state e) (sock e) (peer e) v (wbuf e).
Definition with_wbuf (e : event_t) (v : lisk_vector_t) := mk_event (state e) (sock e) (peer e) (rbuf e) v.

(** The functions of the client; each is given the event and may send on it. *)
Record callback_t (W : Type) := mk_callback {
  handle_connect : option (W -> event_t -> W * event_t * Z);
  handle_udp_pkg : W -> event_t -> bytes -> W * event_t * Z;
  handle_tcp_stream : W -> event_t -> bytes -> Z -> W * event_t * Z * Z;
  handle_tcp_pkg : W -> event_t -> bytes -> W * event_t * Z;
  handle_close : option (W -> event_t -> W * event_t)
}.

Arguments handle_connect {W}.
Arguments handle_udp_pkg {W}.
Arguments handle_tcp_stream {W}.
Arguments handle_tcp_pkg {W}.
Arguments handle_close {W}.

Section event.
Context {W : Type} `{Os W} (malloc : malloc_fun) (realloc : realloc_fun).

Definition event_set_state (w : W) (e : event_t) (s : Z) : Z * W * event_t :=
  if (s <? EEVENT_INIT) || (EEVENT_UDP <? s) then (-1, w, e)
  else
    let e := with_state e s in
    if (s =? EEVENT_TCP_ACCEPT) || (s =? EEVENT_TCP_CONNECTING) then
      match lisk_vector_init malloc (Some (rbuf e)) INIT_BUF_LEN 1 with
      | (0, Some r) =>
          match lisk_vector_init malloc (Some (wbuf e)) INIT_BUF_LEN 1 with
          | (0, Some v) => (0, w, with_wbuf (with_rbuf e r) v)
          | (_, v) => (-2, w, with_wbuf (with_rbuf e (default r (lisk_vector_uninit (Some r)))) (default (wbuf e) v))
          end
      | (_, r) => (-2, w, with_rbuf e (default (rbuf e) r))
      end
    else if s =? EEVENT_TCP_CLOSING then (0, shutdown_rd w (sock e), e)
    else (0, w, e).

(** Result code, and whether the buffer is given. *)
Definition event_read_buf (e : event_t) : Z * option lisk_vector_t :=
  if (state e =? EEVENT_INIT) || (state e =? EEVENT_TCP_LISTEN) then (-1, None)
  else match data (rbuf e) with None => (-1, None) | Some _ => (0, Some (rbuf e)) end.

Definition event_write_buf_size (e : event_t) : Z :=
  if negb (state e =? EEVENT_INIT) && negb (state e =? EEVENT_UDP) then number (wbuf e) else 0.

(** The bytes in the send buffer. *)
Definition pending (v : lisk_vector_t) : option (option bytes) :=
  match data v with None => Some None | Some d => b ← rd d 0 (number v); Some (Some b) end.

(** [data] is a [lisk_buf_t], with its bytes; it is read without a test. *)
Definition event_write (w : W) (e : event_t) (data : option (option bytes)) : option (Z * W * event_t) :=
  if (sock e <=? 0) || ((state e <? EEVENT_TCP_CONNECTED) || (EEVENT_UDP <? state e)) then Some (-3, w, e)
  else
    buf ← data;
    let size := match buf with Some b => blen b | None => 0 end in
    if state e =? EEVENT_UDP then
      if negb (size =? 0) then let '(ret, _, w) := sock_write w (sock e) buf in Some (ret, w, e)
      else Some (0, w, e)
    else
      '(ret, v) ←
        (if negb (size =? 0) then lisk_vector_push_back realloc (Some (wbuf e)) buf size else Some (0, Some (wbuf e)));
      v ← v;
      let e := with_wbuf e v in
      if negb (ret =? 0) then Some (-2, w, e)
      else
        out ← pending (wbuf e);
        let '(ret, size, w) := sock_write w (sock e) out in
        if negb (ret =? 0) then Some (ret, w, e)
        else if negb (size =? 0) then
          '(_, v) ← lisk_vector_erase (Some (wbuf e)) 0 size;
          v ← v; Some (0, w, with_wbuf e v)
        else Some (0, w, e).

Definition sock_key_send (w : W) (e : event_t) (pkg : option bytes) (len : Z) : option (Z * W * event_t) :=
  match pkg with
  | None => Some (-1, w, e)
  | Some b => if len <=? 0 then Some (-1, w, e) else b ← rd b 0 len; event_write w e (Some (Some b))
  end.

(** 0 for a connected key, 1 for one that is connecting. *)
Definition sock_key_check (e : event_t) : Z :=
  if (sock e <? 3) || negb (state e =? EEVENT_TCP_CONNECTED)
  then if state e =? EEVENT_TCP_CONNECTING then 1 else -2
  else 0.

(** ** Handlers *)

Definition call_close (cb : callback_t W) (w : W) (e : event_t) : W * event_t :=
  match handle_close cb with None => (w, e) | Some f => f w e end.

Definition epoll_handle_error (cb : callback_t W) (w : W) (e : event_t) : Z * W * event_t :=
  let '(w, e) := call_close cb w e in (0, w, e).

(** The loop of [epoll_handle_tcp_rcv] over the bytes in the receive buffer: the result of the function when
    it returns, or how many bytes were handled when it goes on. *)
Fixpoint pkg_loop (fuel : nat) (cb : callback_t W) (w : W) (e : event_t) (buf : bytes) (prev_len pkg_len : Z)
  : option ((Z + Z) * W * event_t) :=
  match fuel with
  | O => None
  | S f =>
      if prev_len <? 0 then None
      else
        let pkg := drop (Z.to_nat prev_len) buf in
        let left_ := blen buf - prev_len in
        let '(w, e, ret, pkg_len) := handle_tcp_stream cb w e pkg pkg_len in
        if negb (ret =? 0) || (READ_BUF_LEN <? pkg_len) then Some (inl ret, w, e)
        else if (pkg_len =? 0) || (left_ <? pkg_len) then Some (inr prev_len, w, e)
        else
          let '(w, e, ret) := handle_tcp_pkg cb w e (take (Z.to_nat pkg_len) pkg) in
          if negb (ret =? 0) then Some (inl ret, w, e)
          else
            let prev_len := prev_len + pkg_len in
            if prev_len <? blen buf then pkg_loop f cb w e buf prev_len pkg_len else Some (inr prev_len, w, e)
  end.

Definition epoll_handle_tcp_rcv (cb : callback_t W) (w : W) (e : event_t) : option (Z * W * event_t) :=
  let '(_, v) := event_read_buf e in
  let '(ret, str, _, w) := sock_read w (sock e) READ_BUF_LEN in
  if negb (ret =? 0) then
    let '(w, e) := if ret =? -3 then call_close cb w e else (w, e) in Some (ret, w, e)
  else if blen str =? 0 then Some (0, w, e)
  else
    '(ret, v) ← lisk_vector_push_back realloc v (Some str) (blen str);
    let e := match v with Some v => with_rbuf e v | None => e end in
    if negb (ret =? 0) then Some (-2, w, e)
    else
      v ← v;
      buf ← pending v; buf ← buf;
      '(r, w, e) ← pkg_loop (S (List.length buf)) cb w e buf 0 0;
      match r with
      | inl ret => Some (ret, w, e)
      | inr prev_len =>
          if negb (prev_len =? 0) then
            '(_, v) ← lisk_vector_erase (Some (rbuf e)) 0 prev_len;
            v ← v; Some (0, w, with_rbuf e v)
          else Some (0, w, e)
      end.

(** Datagrams are handled until there are no more. *)
Fixpoint epoll_handle_udp_rcv (fuel : nat) (cb : callback_t W) (w : W) (e : event_t) : option (Z * W * event_t) :=
  match fuel with
  | O => None
  | S f =>
      let '(ret, str, addr, w) := sock_read w (sock e) READ_BUF_LEN in
      if (ret <? 0) || (blen str =? 0) then Some (0, w, e)
      else
        let e := with_peer e addr in
        let '(w, e, ret) := handle_udp_pkg cb w e str in
        if negb (ret =? 0) then Some (ret, w, e) else epoll_handle_udp_rcv f cb w e
  end.

Definition epoll_handle_tcp_snd (cb : callback_t W) (w : W) (e : event_t) : option (Z * W * event_t) :=
  let s := state e in
  if s =? EEVENT_TCP_CONNECTING then
    let '(ret, w) := check_connection w (sock e) in
    if negb (ret =? 0) then Some (-3, w, e)
    else
      let '(_, w, e) := event_set_state w e EEVENT_TCP_CONNECTED in
      match handle_connect cb with
      | None => Some (0, w, e)
      | Some f => let '(w, e, ret) := f w e in Some (ret, w, e)
      end
  else
    '(ret, w, e) ← event_write w e None;
    if negb (ret =? 0) then
      let '(w, e) := if ret =? -3 then call_close cb w e else (w, e) in Some (ret, w, e)
    else if (event_write_buf_size e =? 0) && (s =? EEVENT_TCP_CLOSING) then Some (-3, w, e)
    else Some (0, w, e).

Definition epoll_handle_send (cb : callback_t W) (w : W) (e : event_t) : option (Z * W * event_t) :=
  let s := state e in
  if (s =? EEVENT_TCP_ACCEPT) || (s =? EEVENT_TCP_CONNECTING) || (s =? EEVENT_TCP_CONNECTED) || (s =? EEVENT_TCP_CLOSING)
  then epoll_handle_tcp_snd cb w e
  else if s =? EEVENT_UDP then Some (0, w, e)
  else Some (-2, w, e).

End event.

End Net.
