(* ===== verification/LiskNetworkSpec.v ===== *)
(** * A connection delivers a stream of packages

    [reaches] and [cuts] say how a stream of bytes is cut into packages; receiving
    hands the client exactly these, however the bytes arrive, and sending puts on
    the wire what was given, however much the system takes at a time.  What is
    relied on of the system calls is [OsLaws], of the client [Client]. *)

From S2P Require Import Prelude LiskVector LiskNetwork.
Import Net.

(** What the system promises: a read gives the next bytes that arrive, no bytes when the connection is at its
    end, and may fail; a write takes the first bytes, or fails and takes none; the log of the client is not touched. *)
Class OsLaws (W : Type) `{Os W} (incoming wire : W -> bytes) (handled : W -> list bytes) := {
  recv_next w s n : 0 < n ->
    match recvmsg w s n with
    | (Received c _, w') => blen c <= n /\ incoming w = c ++ incoming w' /\ handled w' = handled w
    | (RecvAgain, w') | (RecvFailed, w') => incoming w' = incoming w /\ handled w' = handled w
    end;
  send_first w s b : b <> [] ->
    match sendmsg w s b with
    | (Sent n, w') => 0 <= n <= blen b /\ wire w' = wire w ++ take (Z.to_nat n) b
    | (SendAgain, w') | (SendFailed, w') => wire w' = wire w
    end
}.

(** A client cuts packages by [want], refuses the [bad] ones and keeps a log of all it is given; when it is told
    that the connection is closed it may do what it likes but for handling packages. *)
Record Client {W : Type} (incoming : W -> bytes) (handled : W -> list bytes)
    (want : bytes -> Z) (bad : bytes -> bool) (cb : callback_t W) : Prop := {
  cl_stream w e b n : handle_tcp_stream cb w e b n = (w, e, 0, want b);
  cl_pkg w e p : exists w' e' ret, handle_tcp_pkg cb w e p = (w', e', ret) /\ (ret = 0 <-> bad p = false) /\
    handled w' = handled w ++ [p] /\ incoming w' = incoming w /\
    rbuf e' = rbuf e /\ state e' = state e /\ sock e' = sock e;
  cl_close f w e : handle_close cb = Some f -> handled (fst (f w e)) = handled w
}.

Module NetSpec.

(** ** Vectors of bytes *)

Definition bytes_vec (v : Vector.lisk_vector_t) (b : bytes) : Prop :=
  Vector.vec_rep v (map (fun x => [x]) b) /\ Vector.length v = 1.

Lemma concat_units (b : bytes) : concat (map (fun x => [x]) b) = b.
Proof. induction b as [|x b IH]; [done|]. cbn. by rewrite IH. Qed.

Lemma bytes_number v b : bytes_vec v b -> Vector.number v = blen b.
Proof. intros [Hr _]. rewrite (Vector.vr_num _ _ Hr). unfold blen. by rewrite length_map. Qed.

Lemma units_bytes (b : bytes) : units 1 (map (fun x => [x]) b).
Proof. apply Forall_map, Forall_forall. by intros x _. Qed.

Lemma push_bytes realloc v b c :
  realloc_ok realloc -> bytes_vec v b -> c <> [] -> 2 * (blen b + blen c) < U4_MOD ->
  let r := Vector.lisk_vector_push_back realloc (Some v) (Some c) (blen c) in
  (Vector.grow_fails realloc v (blen c) /\ r = Some (-2, Some (Vector.with_data v None))) \/
  exists v', r = Some (0, Some v') /\ bytes_vec v' (b ++ c).
Proof.
  intros Hre [Hr Hl] Hc Hb. pose proof (bytes_number v b (conj Hr Hl)) as Hn.
  assert (Hlen : Z.of_nat (length (map (fun x : Z => [x]) c)) = blen c) by (by rewrite length_map).
  pose proof (Vector.vec_insert_spec realloc v (map (fun x => [x]) b) [] (map (fun x => [x]) c) [] Hre) as Hi.
  rewrite Hlen, concat_units, !app_nil_r, length_map in Hi. unfold Vector.lisk_vector_push_back. rewrite Hn.
  destruct (Hi Hr) as [Hf|(v' & E & Hr' & Hl')].
  { rewrite Hl. apply units_bytes. }
  { by destruct c. }
  { rewrite Hn, Hl. lia. }
  { by left. }
  right. exists v'. split; [exact E|]. split; [by rewrite map_app|congruence].
Qed.

Lemma erase_bytes v a b :
  bytes_vec v (a ++ b) -> a <> [] ->
  exists r v', Vector.lisk_vector_erase (Some v) 0 (blen a) = Some (r, Some v') /\ bytes_vec v' b.
Proof.
  intros [Hr Hl] Ha. rewrite map_app in Hr.
  destruct (Vector.vec_erase_spec v [] (map (fun x => [x]) a) (map (fun x => [x]) b)) as (v' & E & Hr' & Hl' & _).
  { done. } { by destruct a. }
  rewrite length_map in E. eexists _, v'. split; [exact E|]. split; [done|congruence].
Qed.

Lemma pending_bytes v b : bytes_vec v b -> pending v = Some (Some b).
Proof.
  intros Hv. pose proof (bytes_number v b Hv) as Hn. destruct Hv as [Hr _].
  destruct (Vector.vr_data _ _ Hr) as (slack & E & _). unfold pending. rewrite E, Hn, concat_units.
  by rewrite rd_head.
Qed.

(** ** Cutting a stream *)

Section framing.
Context (want : bytes -> Z).

(** The size of a package is known from its first bytes, at most four, and does not change
    when more arrive. *)
Record framing : Prop := {
  fr_stable b c : 0 < want b -> want (b ++ c) = want b;
  fr_header b : want b = 0 -> blen b < 4;
  fr_nonneg b : 0 <= want b;
  fr_bound b : want b <= READ_BUF_LEN
}.

(** The packages at the front of a stream, and what comes after them. *)
Inductive reaches : bytes -> list bytes -> bytes -> Prop :=
| reaches_nil b : reaches b [] b
| reaches_cons p b ps r : p <> [] -> want (p ++ b) = blen p -> reaches b ps r -> reaches (p ++ b) (p :: ps) r.

(** The next package is not complete. *)
Definition incomplete (b : bytes) : Prop := want b = 0 \/ blen b < want b.

Definition cuts (b : bytes) (ps : list bytes) (r : bytes) : Prop := reaches b ps r /\ incomplete r.

Lemma reaches_concat b ps r : reaches b ps r -> b = concat ps ++ r.
Proof. induction 1 as [|p b ps r _ _ _ IH]; [done|]. cbn. by rewrite <- app_assoc, <- IH. Qed.

Lemma reaches_app a ps r qs s : reaches a ps r -> reaches r qs s -> reaches a (ps ++ qs) s.
Proof. induction 1; [done|]. intros. constructor; auto. Qed.

Context (Hf : framing).

(** What is cut stays cut when more bytes arrive. *)
Lemma reaches_more a ps r b : reaches a ps r -> reaches (a ++ b) ps (r ++ b).
Proof.
  induction 1 as [|p a ps r Hp Hw _ IH]; [constructor|]. rewrite <- app_assoc. constructor; [done| |done].
  rewrite app_assoc, (fr_stable Hf); [done|]. rewrite Hw. unfold blen. destruct p; [done|cbn; lia].
Qed.

Lemma cuts_more a ps r b qs s : reaches a ps r -> cuts (r ++ b) qs s -> cuts (a ++ b) (ps ++ qs) s.
Proof. intros Ha [Hr Hi]. split; [|done]. eapply reaches_app; [by apply reaches_more|done]. Qed.

Lemma cuts_exists b : exists ps r, cuts b ps r.
Proof.
  induction b as [b IH] using (well_founded_ind (well_founded_ltof _ length)).
  destruct (decide (want b = 0)) as [H0|H0]; [exists [], b; split; [constructor|by left]|].
  destruct (decide (blen b < want b)) as [Hl|Hl]; [exists [], b; split; [constructor|by right]|].
  pose proof (fr_nonneg Hf b). destruct (split_blen b (want b)) as (p & c & -> & Hp); [lia|].
  assert (Hp0 : p <> []) by (intros ->; rewrite blen_nil in Hp; lia).
  destruct (IH c) as (ps & r & Hr & Hi); [unfold ltof; rewrite length_app; destruct p; [done|cbn; lia]|].
  exists (p :: ps), r. split; [by constructor|done].
Qed.

Lemma incomplete_short b : incomplete b -> blen b < READ_BUF_LEN.
Proof.
  intros [H|H]; [apply (fr_header Hf) in H; change READ_BUF_LEN with 65536; lia|]. pose proof (fr_bound Hf b). lia.
Qed.

End framing.

(** ** Receiving *)

Section connection.
Context {W : Type} `{Os W} (incoming wire : W -> bytes) (handled : W -> list bytes)
  `{!OsLaws W incoming wire handled}.

Section receiving.
Context (want : bytes -> Z) (bad : bytes -> bool) (cb : callback_t W) (Hcb : Client incoming handled want bad cb).

(** The client handled [ps]: the buffers to read and the arrivals are as before. *)
Record served (w : W) (e : event_t) (w' : W) (e' : event_t) (ps : list bytes) : Prop := {
  sv_handled : handled w' = handled w ++ ps;
  sv_incoming : incoming w' = incoming w;
  sv_rbuf : rbuf e' = rbuf e;
  sv_state : state e' = state e;
  sv_sock : sock e' = sock e
}.

Lemma served_nil w e : served w e w e [].
Proof. split; try done. by rewrite app_nil_r. Qed.

Lemma served_trans w1 e1 w2 e2 w3 e3 ps qs :
  served w1 e1 w2 e2 ps -> served w2 e2 w3 e3 qs -> served w1 e1 w3 e3 (ps ++ qs).
Proof. intros [A1 A2 A3 A4 A5] [B1 B2 B3 B4 B5]. split; try congruence. by rewrite B1, A1, app_assoc. Qed.

(** One package that is not refused. *)
Lemma pkg_loop_step f w e a p b n :
  p <> [] -> want (p ++ b) = blen p -> blen p <= READ_BUF_LEN -> bad p = false ->
  exists w' e', served w e w' e' [p] /\
    pkg_loop (S f) cb w e (a ++ p ++ b) (blen a) n =
    if blen a + blen p <? blen (a ++ p ++ b) then pkg_loop f cb w' e' (a ++ p ++ b) (blen (a ++ p)) (blen p)
    else Some (inr (blen a + blen p), w', e').
Proof.
  intros Hp Hw Hb Hok. destruct (cl_pkg _ _ _ _ _ Hcb w e p) as (w' & e' & ret & E & Hr & E1 & E2 & E3 & E4 & E5).
  exists w', e'. split; [by split|]. cbn [pkg_loop]. pose proof (blen_nonneg a). pose proof (blen_nonneg b).
  destruct (Z.ltb_spec (blen a) 0); [lia|].
  replace (Z.to_nat (blen a)) with (length a) by (unfold blen; lia). rewrite drop_app_length.
  rewrite (cl_stream _ _ _ _ _ Hcb), Hw. destruct (Z.ltb_spec READ_BUF_LEN (blen p)); [lia|]. cbn [Z.eqb negb orb].
  destruct (Z.eqb_spec (blen p) 0) as [Hz|_]; [by apply blen_zero in Hz|]. rewrite !blen_app.
  destruct (Z.ltb_spec (blen a + (blen p + blen b) - blen a) (blen p)); [lia|]. cbn [orb].
  replace (Z.to_nat (blen p)) with (length p) by (unfold blen; lia). rewrite take_app_length, E.
  apply Hr in Hok as ->. done.
Qed.

(** The packages in front of [b] are handled, and the loop goes on with what is left. *)
Lemma pkg_loop_reaches w e a b ps r n fuel :
  reaches want b ps r -> Forall (fun p => bad p = false /\ blen p <= READ_BUF_LEN) ps ->
  r <> [] -> (length b < fuel)%nat ->
  exists w' e' f n', served w e w' e' ps /\ (length r < f)%nat /\
    pkg_loop fuel cb w e (a ++ b) (blen a) n = pkg_loop f cb w' e' (a ++ b) (blen (a ++ concat ps)) n'.
Proof.
  intros Hre. revert w e a n fuel. induction Hre as [b|p b ps r Hp Hw Hre IH]; intros w e a n fuel Hps Hr Hf.
  { exists w, e, fuel, n. cbn. rewrite app_nil_r. split_and!; [apply served_nil|done|done]. }
  apply Forall_cons in Hps as [[Hok Hb] Hps]. destruct fuel as [|f]; [lia|].
  destruct (pkg_loop_step f w e a p b n Hp Hw Hb Hok) as (w1 & e1 & S1 & ->).
  rewrite length_app in Hf. assert (Hne : b <> []) by (apply reaches_concat in Hre as ->; by destruct (concat ps)).
  destruct (Z.ltb_spec (blen a + blen p) (blen (a ++ p ++ b))) as [_|Hl].
  2:{ rewrite !blen_app in Hl. assert (blen b <> 0) by by rewrite blen_zero. pose proof (blen_nonneg b). lia. }
  destruct (IH w1 e1 (a ++ p) (blen p) f Hps Hr) as (w2 & e2 & f2 & n2 & S2 & Hf2 & E).
  { destruct p; [done|]. cbn in Hf. lia. }
  rewrite <- !app_assoc in E. exists w2, e2, f2, n2. split_and!; [by eapply (served_trans _ _ _ _ _ _ [p])|done|].
  rewrite E. cbn [concat]. done.
Qed.

Lemma reaches_empty ps r : reaches want [] ps r -> ps = [] /\ r = [].
Proof.
  intros Hre. apply reaches_concat in Hre as E. symmetry in E. apply app_eq_nil in E as [E ->]. split; [|done].
  inversion Hre as [|p b qs r Hp]; [done|]. subst. by destruct p.
Qed.

(** The loop over the rest of a buffer. *)
Lemma pkg_loop_cuts w e a b ps r n fuel :
  reaches want b ps r -> incomplete want r -> Forall (fun p => bad p = false /\ blen p <= READ_BUF_LEN) ps ->
  b <> [] -> want r <= READ_BUF_LEN -> (length b < fuel)%nat ->
  exists w' e', served w e w' e' ps /\
    pkg_loop fuel cb w e (a ++ b) (blen a) n = Some (inr (blen (a ++ concat ps)), w', e').
Proof.
  intros Hre Hi. revert w e a n fuel.
  induction Hre as [b|p b ps r Hp Hw Hre IH]; intros w e a n fuel Hps Hb Hwr Hf; (destruct fuel as [|f]; [lia|]).
  - exists w, e. split; [apply served_nil|]. cbn [pkg_loop concat]. pose proof (blen_nonneg a).
    destruct (Z.ltb_spec (blen a) 0); [lia|].
    replace (Z.to_nat (blen a)) with (length a) by (unfold blen; lia).
    rewrite drop_app_length, (cl_stream _ _ _ _ _ Hcb). destruct (Z.ltb_spec READ_BUF_LEN (want b)); [lia|].
    cbn [Z.eqb negb orb]. rewrite app_nil_r, blen_app.
    destruct Hi as [->|Hi]; [done|]. destruct (Z.eqb_spec (want b) 0); [done|].
    destruct (Z.ltb_spec (blen a + blen b - blen a) (want b)); [done|lia].
  - apply Forall_cons in Hps as [[Hok Hl] Hps].
    destruct (pkg_loop_step f w e a p b n Hp Hw Hl Hok) as (w1 & e1 & S1 & ->). rewrite length_app in Hf.
    assert (Hlp : (0 < length p)%nat) by (destruct p; [done|cbn; lia]).
    destruct (Z.ltb_spec (blen a + blen p) (blen (a ++ p ++ b))) as [Hlt|Hge]; rewrite !blen_app in *.
    + destruct (IH Hi w1 e1 (a ++ p) (blen p) f Hps) as (w2 & e2 & S2 & E); [|done|lia|].
      { intros ->. rewrite blen_nil in Hlt. lia. }
      rewrite <- !app_assoc in E. exists w2, e2. split; [by eapply (served_trans _ _ _ _ _ _ [p])|].
      rewrite blen_app in E. rewrite E. cbn [concat]. by rewrite !blen_app.
    + assert (b = []) as -> by (apply blen_zero; pose proof (blen_nonneg b); lia).
      apply reaches_empty in Hre as [-> ->]. exists w1, e1. split; [done|]. cbn. by rewrite app_nil_r.
Qed.

Definition readable (e : event_t) : Prop :=
  0 <= sock e /\ state e <> EEVENT_INIT /\ state e <> EEVENT_TCP_LISTEN.

Lemma served_readable w e w' e' ps : served w e w' e' ps -> readable e -> readable e'.
Proof. intros [_ _ _ E1 E2] Hr. unfold readable. by rewrite E1, E2. Qed.

Lemma event_read_buf_gives e b : readable e -> bytes_vec (rbuf e) b -> event_read_buf e = (0, Some (rbuf e)).
Proof.
  intros (_ & H1 & H2) [Hr _]. unfold event_read_buf.
  destruct (Vector.vr_data _ _ Hr) as (sl & E & _). rewrite E.
  destruct (Z.eqb_spec (state e) EEVENT_INIT); [done|]. by destruct (Z.eqb_spec (state e) EEVENT_TCP_LISTEN).
Qed.

(** What arrived is behind what was kept, and the loop runs over both; without memory all of it is lost. *)
Lemma tcp_rcv_received realloc w e b c addr w1 :
  realloc_ok realloc -> readable e -> bytes_vec (rbuf e) b ->
  recvmsg w (sock e) READ_BUF_LEN = (Received c addr, w1) -> c <> [] -> 2 * (blen b + blen c) < U4_MOD ->
  (Vector.grow_fails realloc (rbuf e) (blen c) /\
   epoll_handle_tcp_rcv realloc cb w e = Some (-2, w1, with_rbuf e (Vector.with_data (rbuf e) None))) \/
  exists v, bytes_vec v (b ++ c) /\
    epoll_handle_tcp_rcv realloc cb w e =
    ('(r, w, e) ← pkg_loop (S (length (b ++ c))) cb w1 (with_rbuf e v) (b ++ c) 0 0;
     match r with
     | inl ret => Some (ret, w, e)
     | inr prev_len =>
         if negb (prev_len =? 0) then
           '(_, v) ← Vector.lisk_vector_erase (Some (rbuf e)) 0 prev_len;
           v ← v; Some (0, w, with_rbuf e v)
         else Some (0, w, e)
     end).
Proof.
  intros Hre Hr Hb Erecv Hc Hsz. unfold epoll_handle_tcp_rcv. rewrite (event_read_buf_gives e b) by done.
  unfold sock_read. destruct (Z.ltb_spec (sock e) 0) as [Hs|_]; [destruct Hr; lia|].
  change (READ_BUF_LEN =? 0) with false. cbn [orb]. rewrite Erecv. destruct c as [|x c'] eqn:Ec; [done|]. rewrite <- Ec in *.
  cbn [Z.eqb negb]. destruct (Z.eqb_spec (blen c) 0) as [Hz|_]; [by apply blen_zero in Hz|].
  destruct (push_bytes realloc (rbuf e) b c Hre Hb Hc Hsz) as [[Hf ->]|(v & -> & Hv)]; [by left|right].
  exists v. split; [done|]. cbn [mbind option_bind Z.eqb negb]. by rewrite (pending_bytes v (b ++ c)).
Qed.

(** A call that ends the receiving: the connection is at its end, the read failed, or there is no memory for
    what was read, which is lost with all that waited. *)
Definition stops (realloc : realloc_fun) (w : W) (e : event_t) : Prop :=
  exists ret w' e', epoll_handle_tcp_rcv realloc cb w e = Some (ret, w', e') /\ handled w' = handled w /\
    match fst (recvmsg w (sock e) READ_BUF_LEN) with
    | Received [] _ => ret = -3
    | Received c _ => ret = -2 /\ Vector.grow_fails realloc (rbuf e) (blen c) /\
        e' = with_rbuf e (Vector.with_data (rbuf e) None)
    | RecvFailed => ret = -2 /\ e' = e
    | RecvAgain => False
    end.

(** A read that brings no bytes. *)
Lemma tcp_rcv_nothing realloc w e b :
  readable e -> bytes_vec (rbuf e) b ->
  match recvmsg w (sock e) READ_BUF_LEN with
  | (RecvAgain, w1) => epoll_handle_tcp_rcv realloc cb w e = Some (0, w1, e)
  | (RecvFailed, _) | (Received [] _, _) => stops realloc w e
  | _ => True
  end.
Proof.
  intros Hr Hb. pose proof (recv_next w (sock e) READ_BUF_LEN ltac:(done)) as Hrecv.
  unfold stops, epoll_handle_tcp_rcv, sock_read. rewrite (event_read_buf_gives e b) by done.
  destruct (Z.ltb_spec (sock e) 0) as [Hs|_]; [destruct Hr; lia|]. change (READ_BUF_LEN =? 0) with false. cbn [orb].
  destruct (recvmsg w (sock e) READ_BUF_LEN) as [[[|x c] addr| |] w1]; cbn [fst Z.eqb negb]; [|done|done|].
  - unfold call_close. pose proof (cl_close _ _ _ _ _ Hcb) as Hclose. destruct (handle_close cb) as [f|]; cbn.
    + specialize (Hclose f w1 e eq_refl). destruct (f w1 e) as [w2 e2]. exists (-3), w2, e2.
      split_and!; [done| |done]. cbn in Hclose. rewrite Hclose. apply Hrecv.
    + exists (-3), w1, e. split_and!; [done|apply Hrecv|done].
  - exists (-2), w1, e. cbn. split_and!; [done|apply Hrecv|done|done].
Qed.

(** One call handles the packages that are complete with what arrived, and keeps the rest, or it stops. *)
Lemma tcp_rcv_cuts realloc w e b :
  realloc_ok realloc ->
  framing want -> (forall p, bad p = false) -> readable e -> bytes_vec (rbuf e) b -> incomplete want b ->
  stops realloc w e \/
  exists w' e' c ps r, epoll_handle_tcp_rcv realloc cb w e = Some (0, w', e') /\
    incoming w = c ++ incoming w' /\ cuts want (b ++ c) ps r /\ handled w' = handled w ++ ps /\
    bytes_vec (rbuf e') r /\ readable e'.
Proof.
  intros Hrealloc Hfr Hgood Hr Hb Hi. pose proof (recv_next w (sock e) READ_BUF_LEN ltac:(done)) as Hrecv.
  pose proof (tcp_rcv_nothing realloc w e b Hr Hb) as Hno.
  destruct (recvmsg w (sock e) READ_BUF_LEN) as [[c addr| |] w1] eqn:Erecv; [| |by left].
  2:{ right. destruct Hrecv as [E1 E2]. exists w1, e, [], [], b. rewrite app_nil_r. split_and!; try done.
      - split; [constructor|done].
      - by rewrite app_nil_r. }
  destruct (decide (c = [])) as [->|Hc]; [by left|]. clear Hno.
  destruct Hrecv as (Hcl & Einc & Ehan). pose proof (incomplete_short want Hfr b Hi) as Hbl.
  destruct (tcp_rcv_received realloc w e b c addr w1 Hrealloc Hr Hb Erecv Hc) as [[Hf E]|(v & Hv & ->)].
  { unfold U4_MOD. change READ_BUF_LEN with 65536 in *. lia. }
  { left. exists (-2), w1. eexists. split; [exact E|]. split; [done|]. rewrite Erecv. cbn [fst]. by destruct c. }
  right. destruct (cuts_exists want Hfr (b ++ c)) as (ps & r & Hcut). pose proof Hcut as [Hre Hir].
  assert (Hps : Forall (fun p => bad p = false /\ blen p <= READ_BUF_LEN) ps).
  { clear -Hre Hgood Hfr. induction Hre as [|p x qs s _ Hw _ IH]; [done|]. constructor; [|done].
    split; [done|]. rewrite <- Hw. apply Hfr. }
  destruct (pkg_loop_cuts w1 (with_rbuf e v) [] (b ++ c) ps r 0 (S (length (b ++ c))) Hre Hir Hps)
    as (w' & e' & [S1 S2 S3 S4 S5] & E); [by destruct b|apply Hfr|lia|].
  change (blen []) with 0 in E. cbn [app] in E. rewrite E. cbn [mbind option_bind].
  apply reaches_concat in Hre as Econ. rewrite Econ in Hv.
  assert (Hread : readable e') by (unfold readable in *; by rewrite S4, S5).
  cbn [rbuf with_rbuf] in S3.
  destruct (Z.eqb_spec (blen (concat ps)) 0) as [Hz|Hz]; cbn [negb].
  - apply blen_zero in Hz. rewrite Hz in Hv. exists w', e', c, ps, r.
    split_and!; [done|congruence|done|congruence|by rewrite S3|done].
  - rewrite S3. destruct (erase_bytes v (concat ps) r Hv) as (q & v' & Ee & Hv'); [intros E0; by rewrite E0 in Hz|].
    rewrite Ee. cbn [mbind option_bind]. exists w', (with_rbuf e' v'), c, ps, r.
    split_and!; [done|congruence|done|congruence|done|done].
Qed.

(** Calls, each with what [realloc] does during it, up to the first that does not answer 0. *)
Fixpoint receives (rs : list realloc_fun) (w : W) (e : event_t) : option (Z * W * event_t) :=
  match rs with
  | [] => Some (0, w, e)
  | r :: rs' => '(ret, w, e) ← epoll_handle_tcp_rcv r cb w e;
                if ret =? 0 then receives rs' w e else Some (ret, w, e)
  end.

Lemma receives_cuts rs w e b :
  Forall realloc_ok rs ->
  framing want -> (forall p, bad p = false) -> readable e -> bytes_vec (rbuf e) b -> incomplete want b ->
  exists k w' e' c ps r, receives (take k rs) w e = Some (0, w', e') /\
    incoming w = c ++ incoming w' /\ cuts want (b ++ c) ps r /\ handled w' = handled w ++ ps /\
    bytes_vec (rbuf e') r /\ (k = length rs \/ exists re, rs !! k = Some re /\ stops re w' e').
Proof.
  intros Hrs Hfr Hgood. revert w e b. induction Hrs as [|re rs Hre Hrs IH]; intros w e b Hr Hb Hi.
  { exists 0%nat, w, e, [], [], b. rewrite !app_nil_r. split_and!; try done; [|by left]. split; [constructor|done]. }
  destruct (tcp_rcv_cuts re w e b Hre Hfr Hgood Hr Hb Hi) as
    [Hs|(w1 & e1 & c1 & ps1 & r1 & E0 & E1 & [C1 I1] & H1 & V1 & R1)].
  { exists 0%nat, w, e, [], [], b. rewrite !app_nil_r. split_and!; try done; [|right; by exists re].
    split; [constructor|done]. }
  destruct (IH w1 e1 r1 R1 V1 I1) as (k & w2 & e2 & c2 & ps2 & r2 & E & E2 & C2 & H2 & V2 & Hk).
  exists (S k), w2, e2, (c1 ++ c2), (ps1 ++ ps2), r2. cbn [take receives]. rewrite E0. cbn [mbind option_bind Z.eqb].
  split_and!; [done| | | |done|].
  - by rewrite E1, E2, app_assoc.
  - rewrite app_assoc. by eapply cuts_more.
  - by rewrite H2, H1, app_assoc.
  - destruct Hk as [->|(re' & ? & ?)]; [by left|right; by exists re'].
Qed.

End receiving.

(** ** Sending *)

Definition sendable (e : event_t) : Prop :=
  0 < sock e /\ EEVENT_TCP_CONNECTED <= state e < EEVENT_UDP.

(** A call that does not accept a package: the write failed, and the package waits with the others; or there
    is no memory, and all that waits is lost. *)
Definition refused (realloc : realloc_fun) (w : W) (e : event_t) (b d : bytes) : Prop :=
  exists ret w' e', event_write realloc w e (Some (Some d)) = Some (ret, w', e') /\ wire w' = wire w /\
    ((ret = -3 /\ fst (sendmsg w (sock e) (b ++ d)) = SendFailed /\ bytes_vec (wbuf e') (b ++ d)) \/
     (ret = -2 /\ Vector.grow_fails realloc (wbuf e) (blen d) /\ e' = with_wbuf e (Vector.with_data (wbuf e) None))).

(** What is given goes behind what waits, and the system takes some of the front. *)
Lemma event_write_sends realloc w e b d :
  realloc_ok realloc -> sendable e -> bytes_vec (wbuf e) b -> d <> [] -> 2 * (blen b + blen d) < U4_MOD ->
  refused realloc w e b d \/
  exists w' e' b', event_write realloc w e (Some (Some d)) = Some (0, w', e') /\
    bytes_vec (wbuf e') b' /\ wire w' ++ b' = wire w ++ b ++ d /\ blen b' <= blen b + blen d /\ sendable e'.
Proof.
  intros Hrealloc [Hs Hst] Hb Hd Hsz. unfold refused, event_write.
  destruct (Z.leb_spec (sock e) 0); [lia|]. destruct (Z.ltb_spec (state e) EEVENT_TCP_CONNECTED); [lia|].
  destruct (Z.ltb_spec EEVENT_UDP (state e)); [lia|]. cbn [orb mbind option_bind].
  destruct (Z.eqb_spec (state e) EEVENT_UDP); [lia|].
  destruct (Z.eqb_spec (blen d) 0) as [Hz|_]; [by apply blen_zero in Hz|]. cbn [negb].
  destruct (push_bytes realloc (wbuf e) b d Hrealloc Hb Hd Hsz) as [[Hf ->]|(v & -> & Hv)];
    cbn [mbind option_bind Z.eqb negb].
  { left. exists (-2), w. eexists. split; [done|]. split; [done|]. by right. }
  change (wbuf (with_wbuf e v)) with v. change (sock (with_wbuf e v)) with (sock e).
  rewrite (pending_bytes v (b ++ d) Hv). cbn [mbind option_bind sock_write].
  assert (Hne : b ++ d <> []) by (intros E; apply app_eq_nil in E as [_ ?]; done).
  destruct (Z.ltb_spec (sock e) 0); [lia|]. destruct (Z.eqb_spec (blen (b ++ d)) 0) as [Hz|_]; [by apply blen_zero in Hz|].
  cbn [orb]. pose proof (send_first w (sock e) (b ++ d) Hne) as Hsend.
  destruct (sendmsg w (sock e) (b ++ d)) as [[k| |] w']; cbn [Z.eqb negb]; [right|right|left].
  2:{ exists w', (with_wbuf e v), (b ++ d). by rewrite Hsend, blen_app. }
  2:{ exists (-3), w', (with_wbuf e v). split_and!; [done|done|]. by left. }
  destruct Hsend as [Hk Hw]. destruct (Z.eqb_spec k 0) as [->|Hk0]; cbn [negb].
  { exists w', (with_wbuf e v), (b ++ d). by rewrite Hw, app_nil_r, blen_app. }
  destruct (split_blen (b ++ d) k Hk) as (x & y & E & Hx). rewrite E in *.
  destruct (erase_bytes v x y Hv) as (q & v' & Ee & Hv'); [intros ->; rewrite blen_nil in Hx; lia|].
  rewrite Hx in Ee. rewrite Ee. cbn [mbind option_bind]. exists w', (with_wbuf (with_wbuf e v) v'), y.
  split_and!; [done|done| |pose proof (blen_nonneg x); apply (f_equal blen) in E; rewrite !blen_app in E; lia|done].
  rewrite Hw, <- Hx. unfold blen. by rewrite Nat2Z.id, take_app_length, <- app_assoc.
Qed.

(** Packages, each with what [realloc] does while it is sent, up to the first that is not accepted. *)
Fixpoint send_all (w : W) (e : event_t) (l : list (realloc_fun * bytes)) : option (Z * W * event_t) :=
  match l with
  | [] => Some (0, w, e)
  | (re, d) :: l' =>
      '(ret, w, e) ← sock_key_send re w e (Some d) (blen d); if ret =? 0 then send_all w e l' else Some (ret, w, e)
  end.

Lemma sock_key_send_all realloc w e d : d <> [] ->
  sock_key_send realloc w e (Some d) (blen d) = event_write realloc w e (Some (Some d)).
Proof.
  intros Hd. unfold sock_key_send. destruct (Z.leb_spec (blen d) 0) as [Hz|_]; [|by rewrite rd_all].
  assert (blen d <> 0) by by rewrite blen_zero. pose proof (blen_nonneg d). lia.
Qed.

Lemma send_all_spec w e b l :
  sendable e -> bytes_vec (wbuf e) b -> Forall (fun c => realloc_ok (fst c) /\ snd c <> []) l ->
  2 * (blen b + blen (concat (snd <$> l))) < U4_MOD ->
  exists k w' e' b', send_all w e (take k l) = Some (0, w', e') /\ bytes_vec (wbuf e') b' /\
    wire w' ++ b' = wire w ++ b ++ concat (snd <$> take k l) /\
    (k = length l \/ exists re d, l !! k = Some (re, d) /\ refused re w' e' b' d).
Proof.
  intros Hs Hb Hl. revert w e b Hs Hb. induction Hl as [|[re d] l [Hre Hd] _ IH]; intros w e b Hs Hb Hsz.
  { exists 0%nat, w, e, b. cbn. rewrite app_nil_r. split_and!; [done..|by left]. }
  cbn [fmap list_fmap concat fst snd] in *. rewrite blen_app in Hsz. pose proof (blen_nonneg (concat (snd <$> l))).
  destruct (event_write_sends re w e b d Hre Hs Hb Hd) as [Hf|(w1 & e1 & b1 & E & Hb1 & Hw1 & Hle & Hs1)]; [lia| |].
  { exists 0%nat, w, e, b. cbn. rewrite app_nil_r. split_and!; [done..|right; by exists re, d]. }
  destruct (IH w1 e1 b1 Hs1 Hb1) as (k & w2 & e2 & b2 & E2 & Hb2 & Hw2 & Hk); [lia|].
  exists (S k), w2, e2, b2. cbn [take send_all fmap list_fmap concat snd].
  rewrite sock_key_send_all, E by done. cbn [mbind option_bind Z.eqb].
  split_and!; [done|done|by rewrite Hw2, app_assoc, Hw1, <- !app_assoc|].
  destruct Hk as [->|Hk]; [by left|by right].
Qed.

(** ** Properties *)

(** C24: receiving is independent of how the bytes arrive, for a client that refuses no package and cuts none above
    64 KiB.  Over any number of reads, up to the first that ends the connection, fails or finds no memory, what the
    client was given is exactly what the bytes that arrived are cut into, behind those kept from before, package by
    package and in order, and the buffer keeps the incomplete rest.  The call that stops answers -3 at the end of the
    connection and -2 otherwise, and hands over nothing; without memory the bytes that waited are lost too. *)
Theorem receive_stream want bad cb rs w e b :
  Client incoming handled want bad cb -> framing want -> (forall p, bad p = false) -> Forall realloc_ok rs ->
  readable e -> bytes_vec (rbuf e) b -> incomplete want b ->
  exists k w' e' arrived ps rest, receives cb (take k rs) w e = Some (0, w', e') /\
    incoming w = arrived ++ incoming w' /\ cuts want (b ++ arrived) ps rest /\
    handled w' = handled w ++ ps /\ bytes_vec (rbuf e') rest /\
    (k = length rs \/ exists re, rs !! k = Some re /\ stops cb re w' e').
Proof. intros Hcb Hfr Hgood Hrs. by apply (receives_cuts want bad cb Hcb rs w e b). Qed.


(** When the client refuses a package, or one is larger than 64 KiB, the call returns without erasing the packages
    it handled: they stay at the front of the buffer, where the next call begins. *)
Theorem refused_package_repeats realloc want bad cb w e b c addr w1 ps p rest :
  realloc_ok realloc -> ~ Vector.grow_fails realloc (rbuf e) (blen c) ->
  Client incoming handled want bad cb -> readable e -> bytes_vec (rbuf e) b ->
  recvmsg w (sock e) READ_BUF_LEN = (Received c addr, w1) -> c <> [] -> handled w1 = handled w ->
  2 * (blen b + blen c) < U4_MOD ->
  reaches want (b ++ c) ps (p ++ rest) -> Forall (fun p => bad p = false /\ blen p <= READ_BUF_LEN) ps ->
  p <> [] ->
  (want (p ++ rest) = blen p /\ bad p = true /\ blen p <= READ_BUF_LEN) \/ READ_BUF_LEN < want (p ++ rest) ->
  exists ret w' e', epoll_handle_tcp_rcv realloc cb w e = Some (ret, w', e') /\
    bytes_vec (rbuf e') (concat ps ++ p ++ rest) /\
    (handled w' = handled w ++ ps \/ handled w' = handled w ++ ps ++ [p]).
Proof.
  intros Hrealloc Hgrow Hcb Hr Hb Erecv Hc Hw1 Hsz Hre Hps Hp0 Hp.
  destruct (tcp_rcv_received cb realloc w e b c addr w1 Hrealloc Hr Hb Erecv Hc Hsz) as [[? _]|(v & Hv & ->)]; [done|].
  destruct (pkg_loop_reaches want bad cb Hcb w1 (with_rbuf e v) [] (b ++ c) ps (p ++ rest) 0
    (S (length (b ++ c))) Hre Hps) as (w2 & e2 & f & n & [S1 S2 S3 S4 S5] & Hf & E); [by destruct p|lia|].
  change (blen []) with 0 in E. cbn [app] in E. rewrite E. clear E.
  apply reaches_concat in Hre as Econ. rewrite Econ in *. cbn [rbuf with_rbuf] in S3.
  destruct f as [|f]; [lia|]. cbn [pkg_loop]. pose proof (blen_nonneg (concat ps)). pose proof (blen_nonneg rest).
  destruct (Z.ltb_spec (blen (concat ps)) 0); [lia|].
  replace (Z.to_nat (blen (concat ps))) with (length (concat ps)) by (unfold blen; lia).
  rewrite drop_app_length, (cl_stream _ _ _ _ _ Hcb). cbn [Z.eqb negb orb].
  destruct Hp as [(Hw & Hbad & Hl)|Hbig].
  - rewrite Hw. destruct (Z.ltb_spec READ_BUF_LEN (blen p)); [lia|].
    destruct (Z.eqb_spec (blen p) 0) as [Hz|_]; [by apply blen_zero in Hz|]. rewrite !blen_app.
    destruct (Z.ltb_spec (blen (concat ps) + (blen p + blen rest) - blen (concat ps)) (blen p)); [lia|]. cbn [orb].
    replace (Z.to_nat (blen p)) with (length p) by (unfold blen; lia). rewrite take_app_length.
    destruct (cl_pkg _ _ _ _ _ Hcb w2 e2 p) as (w' & e' & ret & -> & Hret & E1 & E2 & E3 & _).
    destruct (Z.eqb_spec ret 0) as [Hz|_]; [apply Hret in Hz; congruence|]. cbn [negb mbind option_bind].
    exists ret, w', e'. rewrite E3, S3, E1, S1, Hw1, <- app_assoc. split_and!; [done|done|by right].
  - destruct (Z.ltb_spec READ_BUF_LEN (want (p ++ rest))); [|lia]. cbn [mbind option_bind].
    exists 0, w2, e2. rewrite S3, S1, Hw1. split_and!; [done|done|by left].
Qed.

(** Nothing that waits is ever sent when the socket is ready for it: the handler passes nil, which
    [event_write] reads. *)
Lemma flush_reads_nil malloc realloc cb w e :
  0 < sock e -> state e = EEVENT_TCP_CONNECTED \/ state e = EEVENT_TCP_ACCEPT \/ state e = EEVENT_TCP_CLOSING ->
  epoll_handle_send malloc realloc cb w e = None.
Proof.
  intros Hs Hst. unfold epoll_handle_send, epoll_handle_tcp_snd, event_write.
  destruct (Z.leb_spec (sock e) 0); [lia|]. by destruct Hst as [-> | [-> | ->]].
Qed.

End connection.

(** ** At a concrete connection *)

(** A network that gives three bytes and takes two at a time, whose connection ends behind the bytes that are there
    and breaks for writing when the wire holds five; and a client that logs. *)
Record world := mk_world { w_in : bytes; w_wire : bytes; w_log : list bytes }.

#[export] Instance world_os : Os world := {
  recvmsg w _ n :=
    let k := Z.to_nat (Z.min n 3) in
    (Received (take k (w_in w)) [], mk_world (drop k (w_in w)) (w_wire w) (w_log w));
  sendmsg w _ b :=
    if 5 <=? blen (w_wire w) then (SendFailed, w)
    else (Sent (Z.min (blen b) 2), mk_world (w_in w) (w_wire w ++ take 2 b) (w_log w));
  so_error w _ := (0, w);
  shutdown_rd w _ := w
}.

#[export] Instance world_laws : OsLaws world w_in w_wire w_log.
Proof.
  split.
  - intros w s n Hn. cbn. set (k := Z.to_nat (Z.min n 3)).
    split_and!; [unfold blen; rewrite length_take; subst k; lia|by rewrite take_drop|done].
  - intros w s b Hb. cbn. destruct (5 <=? blen (w_wire w)); [done|]. pose proof (blen_nonneg b). split; [lia|].
    f_equal. unfold blen. destruct (Nat.le_gt_cases 2 (length b)).
    + by replace (Z.to_nat (Z.min (Z.of_nat (length b)) 2)) with 2%nat by lia.
    + rewrite !take_ge by lia. done.
Qed.

(** The first byte of a package is its size; 7 is a size the client may refuse. *)
Definition byte_want (b : bytes) : Z := match b with [] => 0 | x :: _ => Z.max 1 (Z.min x 255) end.

Lemma byte_framing : framing byte_want.
Proof.
  split.
  - intros [|x b] c H; [done|]. done.
  - intros [|x b] H; [done|]. unfold byte_want in H. lia.
  - intros [|x b]; unfold byte_want; lia.
  - intros [|x b]; change READ_BUF_LEN with 65536; unfold byte_want; lia.
Qed.

Definition logging (bad : bytes -> bool) : callback_t world := mk_callback world None
  (fun w e _ => (w, e, 0))
  (fun w e b _ => (w, e, 0, byte_want b))
  (fun w e p => (mk_world (w_in w) (w_wire w) (w_log w ++ [p]), e, if bad p then -1 else 0))
  None.

Lemma logging_client bad : Client w_in w_log byte_want bad (logging bad).
Proof.
  split; [done| |done]. intros w e p. eexists _, e, _. split; [done|]. split_and!; try done. by destruct (bad p).
Qed.

Definition empty_buffer : Vector.lisk_vector_t := Vector.mk_vector 16 0 1 (Some (replicate 16 0)).

Lemma empty_buffer_holds : bytes_vec empty_buffer [].
Proof.
  split; [|done]. split; [done|done|done|constructor|]. by exists (replicate 16 0).
Qed.

Definition sample_event : event_t := mk_event EEVENT_TCP_CONNECTED 5 [] empty_buffer empty_buffer.

(** Three reads bring the bytes and the fourth finds the end of the connection. *)
Definition sample_world : world := mk_world [2; 8; 4; 1; 1; 1; 5; 9] [] [].

Definition log_all : callback_t world := logging (fun _ => false).

Lemma receive_stream_witness :
  exists k w' e' arrived ps rest,
    receives log_all (take k (replicate 5 realloc_zero)) sample_world sample_event = Some (0, w', e') /\
    w_in sample_world = arrived ++ w_in w' /\ cuts byte_want ([] ++ arrived) ps rest /\
    w_log w' = [] ++ ps /\ bytes_vec (rbuf e') rest /\
    (k = 5%nat \/ exists re, replicate 5 realloc_zero !! k = Some re /\ stops w_log log_all re w' e').
Proof.
  apply (receive_stream w_in w_wire w_log byte_want (fun _ => false) log_all (replicate 5 realloc_zero)
    sample_world sample_event []).
  - apply logging_client.
  - apply byte_framing.
  - done.
  - cbn. by repeat (constructor; [exact realloc_zero_ok|]).
  - done.
  - apply empty_buffer_holds.
  - by left.
Defined.

Example sample_received : exists w' e',
  receives log_all (replicate 3 realloc_zero) sample_world sample_event = Some (0, w', e') /\
  w_log w' = [[2; 8]; [4; 1; 1; 1]] /\ receives log_all (replicate 5 realloc_zero) sample_world sample_event = Some (-3, w', e').
Proof. eexists _, _. split; [vm_compute; reflexivity|]. split; vm_compute; reflexivity. Qed.

(** The first two packages go out in part; the fourth breaks the connection. *)
Definition sample_packages : list (realloc_fun * bytes) := pair realloc_zero <$> [[1; 2; 3]; [4]; [5; 6]; [7]].


Example sample_sent : exists w' e',
  send_all (mk_world [] [] []) sample_event sample_packages = Some (-3, w', e') /\ w_wire w' = [1; 2; 3; 4; 5; 6].
Proof. eexists _, _. split; vm_compute; reflexivity. Qed.

Lemma refused_package_repeats_witness :
  exists ret w' e', epoll_handle_tcp_rcv realloc_zero (logging (fun p => bool_decide (p = [1]))) (mk_world [2; 8; 1] [] [])
    sample_event = Some (ret, w', e') /\ bytes_vec (rbuf e') [2; 8; 1].
Proof.
  destruct (refused_package_repeats w_in w_log realloc_zero byte_want (fun p => bool_decide (p = [1]))
    (logging (fun p => bool_decide (p = [1]))) (mk_world [2; 8; 1] [] []) sample_event [] [2; 8; 1] []
    (mk_world [] [] []) [[2; 8]] [1] []) as (ret & w' & e' & E & Hv & _).
  - exact realloc_zero_ok.
  - intros [_ H]. vm_compute in H. discriminate.
  - apply logging_client.
  - done.
  - apply empty_buffer_holds.
  - reflexivity.
  - done.
  - done.
  - by vm_compute.
  - apply (reaches_cons byte_want [2; 8] [1] [] [1]); [done|done|constructor].
  - by repeat constructor.
  - done.
  - left. by vm_compute.
  - exists ret, w', e'. split; [exact E|exact Hv].
Defined.

End NetSpec.
