(* ===== verification/RedisConf.v ===== *)
(** * Configuration files: conf.c of redis-proxy

    Reads a file of sections and entries into a dictionary and answers for keys and
    arrays of values.  The strings are those of redis' sds.c, with the free bytes
    of their blocks.  The dictionary is the class [Dictionary] of what conf.c calls of
    dict.c; a finite map that keeps the first value of a key is an instance, and dict.c
    itself is another (ConfDict).  [realloc] may move a block: whether it does is an
    argument, and what the code does next with the old pointer is [None]. *)

From Stdlib Require Import Ascii String.
From S2P Require Import Prelude CText.
Import CText.

Module Conf.

(** ** sds.c *)

Record sds := mk_sds { s_buf : bytes; s_free : Z }.

Definition sdslen (s : sds) : Z := blen (s_buf s).
Definition sdsnewlen (init : bytes) : sds := mk_sds init 0.
Definition sdsclear (s : sds) : sds := mk_sds [] (s_free s + sdslen s).

Definition SDS_MAX_PREALLOC : Z := 1024 * 1024.
Definition sizeof_sdshdr : Z := 8.

(** Does [realloc] from the first size to the second move the block? *)
Definition realloc_moves := Z -> Z -> bool.

(** The string with room, and whether it is at another address. *)
Definition sdsMakeRoomFor (moves : realloc_moves) (s : sds) (addlen : Z) : sds * bool :=
  if addlen <=? s_free s then (s, false)
  else
    let len := sdslen s in
    let newlen := len + addlen in
    let newlen := if newlen <? SDS_MAX_PREALLOC then newlen * 2 else newlen + SDS_MAX_PREALLOC in
    (mk_sds (s_buf s) (newlen - len),
     moves (sizeof_sdshdr + (len + s_free s) + 1) (sizeof_sdshdr + newlen + 1)).

Definition sdscatlen (moves : realloc_moves) (s : sds) (t : bytes) : sds * bool :=
  let '(s, moved) := sdsMakeRoomFor moves s (blen t) in
  (mk_sds (s_buf s ++ t) (s_free s - blen t), moved).

(** A call of [sdscatlen] whose result is dropped: the caller goes on with the pointer
    it had. *)
Definition sdscatlen_dropped (moves : realloc_moves) (s : sds) (t : bytes) : option sds :=
  let '(s, moved) := sdscatlen moves s t in if moved : bool then None else Some s.

Definition sdstrimspace (s : sds) : sds :=
  let len := strlen (s_buf s) in
  if len =? 0 then s
  else
    let kept := filter (fun c => isspace c = false) (c_string (s_buf s)) in
    mk_sds kept (s_free s + (len - blen kept)).

(** ** conf.c *)

Definition COMMENT_CHAR0 : Z := 35.
Definition KEY_CHAR1 : Z := 91.
Definition KEY_CHAR2 : Z := 93.
Definition EQUAL_CHAR0 : Z := 61.
Definition EQUAL_CHAR1 : Z := 58.
Definition ARRAY_DELIM : Z := 44.
Definition DEFAULT_FIRST_KEY : bytes := chars "default".
Definition suffix : bytes := chars "__lisk_array_size_suffix__".

(** The calls of dict.c: adding gives a result code; looking up gives nil or the value, and
    may move entries; releasing gives the strings that are freed.  [None] is an access outside
    the tables. *)
Class Dictionary (D : Type) := {
  dictCreate : D;
  dictAdd : D -> bytes -> bytes -> option (Z * D);
  dictFetch : D -> bytes -> option (option bytes * D);
  dictSize : D -> Z;
  dictRelease : D -> list bytes;
}.

(** The first value of a key stays. *)
Definition add_first (dt : gmap bytes bytes) (key value : bytes) : gmap bytes bytes :=
  match dt !! key with Some _ => dt | None => <[key := value]> dt end.

#[export] Instance map_dictionary : Dictionary (gmap bytes bytes) := {|
  dictCreate := ∅;
  dictAdd dt key value := Some (match dt !! key with Some _ => 1 | None => 0 end, add_first dt key value);
  dictFetch dt key := Some (dt !! key, dt);
  dictSize dt := Z.of_nat (size dt);
  dictRelease dt := concat (map (fun b => [b.1; b.2]) (map_to_list dt)) |}.

(** The place of the delimiter in a line. *)
Definition delim (line : bytes) : option Z :=
  match strchr line EQUAL_CHAR0 with Some i => Some i | None => strchr line EQUAL_CHAR1 end.

(** Result code, and the key when it is 0. *)
Definition getLineKey (line : bytes) : Z * bytes :=
  match delim line with None => (-1, []) | Some i => (0, take (Z.to_nat i) line) end.

Definition getLineValue (line : bytes) : Z * bytes :=
  if strlen line =? 0 then (-1, [])
  else match delim line with
       | None => (-2, [])
       | Some i => (0, drop (Z.to_nat (i + 1)) (c_string line))
       end.

Definition isComment (buf : bytes) : Z :=
  match buf with c :: _ => if c =? COMMENT_CHAR0 then 0 else -2 | [] => -2 end.

Definition isFirstKey (buf : bytes) : option Z :=
  c ← head buf; d ← last buf; Some (if (c =? KEY_CHAR1) && (d =? KEY_CHAR2) then 0 else -2).

Section Conf.
Context {dict : Type} `{!Dictionary dict}.

(** The loop of [parseArray]: [start] is what is left of the value; [idx] is an [int]. *)
Fixpoint array_loop (fuel : nat) (dt : dict) (key start : bytes) (idx : Z) : option (dict * bytes * Z) :=
  match fuel with
  | O => None
  | S f =>
      match start with
      | [] => Some (dt, start, idx)
      | _ :: next =>
          match strchr start ARRAY_DELIM with
          | None => Some (dt, start, idx)
          | Some pos =>
              if pos <=? 0 then array_loop f dt key next idx
              else
                '(_, dt) ← dictAdd dt (key ++ dec idx) (take (Z.to_nat pos) start);
                idx ← chk_n4 (idx + 1);
                array_loop f dt key (drop (Z.to_nat (pos + 1)) start) idx
          end
      end
  end.

Definition parseArray (dt : dict) (key value : bytes) : option dict :=
  let key := c_string key in
  let value := c_string value in
  '(dt, start, idx) ← array_loop (S (length value)) dt key value 0;
  if idx =? 0 then Some dt
  else
    '(dt, idx) ←
      match start with
      | [] => Some (dt, idx)
      | _ => '(_, dt) ← dictAdd dt (key ++ dec idx) start; idx ← chk_n4 (idx + 1); Some (dt, idx)
      end;
    '(_, dt) ← dictAdd dt (key ++ suffix) (dec idx);
    Some dt.

(** [sizeof(first_key)] *)
Definition sizeof_first_key : Z := 1024.

(** The dictionary and the static variable of [parseLine]. *)
Record state := mk_state { dt : dict; first_key : bytes }.

(** The branch of [parseLine] for a section: the bracket at the end is overwritten. *)
Definition set_first_key (s : state) (line : sds) : sds * state :=
  let cut := removelast (s_buf line) in
  (mk_sds (cut ++ [0]) (s_free line),
   mk_state (dt s) (take (Z.to_nat (sizeof_first_key - 1)) (c_string (tail cut)))).

(** The branch of [parseLine] for a key and its value. *)
Definition parse_entry (moves : realloc_moves) (s : state) (line : sds) : option (sds * state) :=
  let key := sdsnewlen (first_key s) in
  let '(ret, key_str) := getLineKey (s_buf line) in
  if negb (ret =? 0) || (blen key_str =? 0) then Some (line, s)
  else
    key ← sdscatlen_dropped moves key key_str;
    let '(ret, value) := getLineValue (s_buf line) in
    if negb (ret =? 0) || (blen value =? 0) then Some (line, s)
    else
      '(_, dt) ← dictAdd (dt s) (s_buf key) value;
      dt' ← parseArray dt (s_buf key) value;
      Some (line, mk_state dt' (first_key s)).

(** The string [line] is changed in place and returned. *)
Definition parseLine (moves : realloc_moves) (s : state) (line : sds) : option (sds * state) :=
  if sdslen line =? 0 then Some (line, s)
  else if isComment (s_buf line) =? 0 then Some (line, s)
  else
    let line := sdstrimspace line in
    if sdslen line =? 0 then Some (line, s)
    else
      ret ← isFirstKey (s_buf line);
      if ret =? 0 then Some (set_first_key s line) else parse_entry moves s line.

(** [sizeof(buf)] *)
Definition sizeof_buf : Z := 1024.

(** The loop of [fileGetLine]: result code, offset of the file, line. *)
Fixpoint get_line_loop (fuel : nat) (moves : realloc_moves) (file : bytes) (cursor : Z) (line : sds)
  : option (Z * Z * sds) :=
  match fuel with
  | O => None
  | S f =>
      let buf := take (Z.to_nat (sizeof_buf - 1)) (drop (Z.to_nat cursor) file) in
      match buf with
      | [] => Some (-2, cursor, line)
      | _ =>
          match strchr buf 10 with
          | Some n =>
              let flag := match last (take (Z.to_nat n) buf) with Some c => c =? 92 | None => false end in
              let sub_str_len := if flag then n - 1 else n in
              line ← sdscatlen_dropped moves line (take (Z.to_nat sub_str_len) buf);
              let cursor := cursor + (sub_str_len + 1 + (if flag then 1 else 0)) in
              if flag then get_line_loop f moves file cursor line else Some (0, cursor, line)
          | None =>
              line ← sdscatlen_dropped moves line (c_string buf);
              get_line_loop f moves file (cursor + strlen buf) line
          end
      end
  end.

Definition fileGetLine (moves : realloc_moves) (file : bytes) (cursor : Z) (line : sds) : option (Z * Z * sds) :=
  if blen file <=? cursor + 1 then Some (-1, cursor, line)
  else get_line_loop (S (length file)) moves file cursor line.

Fixpoint init_loop (fuel : nat) (moves : realloc_moves) (file : bytes) (cursor : Z) (line : sds) (s : state)
  : option state :=
  match fuel with
  | O => None
  | S f =>
      let line := sdsclear line in
      '(ret, cursor, line) ← fileGetLine moves file cursor line;
      if negb (ret =? 0) then Some s
      else '(line, s) ← parseLine moves s line; init_loop f moves file cursor line s
  end.

(** [file] is nil when it cannot be opened: the size of the file is then read from memory
    that was never set.  The static variable is an argument and is returned. *)
Definition confInit (moves : realloc_moves) (file : option bytes) (first_key0 : bytes)
  : option (Z * option dict * bytes) :=
  file ← file;
  let line := mk_sds (replicate 96 0) 0 in
  s ← init_loop (S (length file)) moves file 0 line (mk_state dictCreate first_key0);
  Some (if dictSize (dt s) =? 0 then (-1, None, first_key s) else (0, Some (dt s), first_key s)).

(** The keys of the getters: with an empty second key the section is the default one. *)
Definition full_key (key0 key1 : bytes) : bytes :=
  match key1 with [] => DEFAULT_FIRST_KEY ++ key0 | _ => key0 ++ key1 end.

(** The getters: a dictionary that is nil is refused. *)
Definition confGetValue (dp : option dict) (key0 key1 : bytes) : option (option bytes * option dict) :=
  match dp with
  | None => Some (None, None)
  | Some d => '(v, d) ← dictFetch d (full_key key0 key1); Some (v, Some d)
  end.

(** What [%d] prints. *)
Definition dec_n4 (n : Z) : bytes := if n <? 0 then 45 :: dec (- n) else dec n.

(** [idx] is an [int]: no call has another. *)
Definition confGetArrayValue (dp : option dict) (key0 key1 : bytes) (idx : Z)
  : option (option bytes * option dict) :=
  idx ← chk_n4 idx;
  match dp with
  | None => Some (None, None)
  | Some d => '(v, d) ← dictFetch d (full_key key0 key1 ++ dec_n4 idx); Some (v, Some d)
  end.

(** Result code and size. *)
Definition confGetArraySize (dp : option dict) (key0 key1 : bytes) : option (Z * option Z * option dict) :=
  match dp with
  | None => Some (-1, None, None)
  | Some d =>
      '(v, d) ← dictFetch d (full_key key0 key1 ++ suffix);
      Some (match v with None => (-2, None, Some d) | Some v => (0, Some (strtoul v), Some d) end)
  end.

(** What is freed, and the pointer after it. *)
Definition confUninit (dp : option dict) : list bytes * option dict :=
  match dp with None => ([], None) | Some d => (dictRelease d, None) end.

End Conf.

Arguments state : clear implicits.

End Conf.
