(* ===== verification/RedisConfSpec.v ===== *)
(** * What a configuration file means

    A document is a list of lines; a line is parts continued by a backslash and a
    last part, and its joined text says nothing, opens a section or makes an
    entry.  [says] relates the text and the item; [bindings] are the pairs of keys
    and values a document stands for. *)

From S2P Require Import Prelude CText RedisConf.
Import CText Conf.

Module ConfSpec.

(** ** The meaning of a document *)

Inductive item := Skip | Section_ (s : bytes) | Entry (k v : bytes).

Definition trim (l : bytes) : bytes := filter (fun c => isspace c = false) l.

(** A character of the text of a line. *)
Definition plain (c : Z) : Prop := c <> 0 /\ c <> 10.

Definition is_section (t : bytes) : Prop := head t = Some 91 /\ last t = Some 93.

(** What the text of a line says: a comment, blanks, a section, an entry, and the
    lines that are none of these and are skipped. *)
Inductive says : bytes -> item -> Prop :=
| says_comment l : says (COMMENT_CHAR0 :: l) Skip
| says_blank l : trim l = [] -> says l Skip
| says_section l s :
    head l <> Some COMMENT_CHAR0 -> trim l = KEY_CHAR1 :: s ++ [KEY_CHAR2] -> blen s < sizeof_first_key ->
    says l (Section_ s)
| says_entry l k d v :
    head l <> Some COMMENT_CHAR0 -> trim l = k ++ d :: v -> ~ is_section (trim l) -> k <> [] -> v <> [] ->
    EQUAL_CHAR0 ∉ k -> (d = EQUAL_CHAR0 \/ d = EQUAL_CHAR1 /\ EQUAL_CHAR1 ∉ k /\ EQUAL_CHAR0 ∉ v) ->
    says l (Entry k v)
| says_no_delimiter l :
    head l <> Some COMMENT_CHAR0 -> ~ is_section (trim l) -> EQUAL_CHAR0 ∉ trim l -> EQUAL_CHAR1 ∉ trim l ->
    says l Skip.

(** The parts of a text between the characters [c]. *)
Fixpoint split (c : Z) (b : bytes) : list bytes :=
  match b with
  | [] => [[]]
  | x :: b' =>
      if x =? c then [] :: split c b'
      else match split c b' with p :: ps => (x :: p) :: ps | [] => [[x]] end
  end.

Definition nonempty (l : list bytes) : list bytes := filter (fun x => x <> []) l.

(** The elements of a value that is an array, and whether it is one: some comma comes after
    an element. *)
Definition elements (v : bytes) : list bytes := nonempty (split ARRAY_DELIM v).
Definition is_array (v : bytes) : Prop := nonempty (removelast (split ARRAY_DELIM v)) <> [].

#[export] Instance is_array_dec v : Decision (is_array v).
Proof. unfold is_array. apply _. Defined.

Fixpoint numbered (key : bytes) (i : Z) (l : list bytes) : list (bytes * bytes) :=
  match l with [] => [] | x :: l' => (key ++ dec i, x) :: numbered key (i + 1) l' end.

Definition array_bindings (key v : bytes) : list (bytes * bytes) :=
  if decide (is_array v)
  then numbered key 0 (elements v) ++ [(key ++ suffix, dec (Z.of_nat (length (elements v))))] else [].

(** The pairs of a document, read in a section. *)
Fixpoint bindings (sec : bytes) (doc : list item) : list (bytes * bytes) :=
  match doc with
  | [] => []
  | Skip :: doc' => bindings sec doc'
  | Section_ s :: doc' => bindings s doc'
  | Entry k v :: doc' => ((sec ++ k, v) :: array_bindings (sec ++ k) v) ++ bindings sec doc'
  end.

Fixpoint last_section (sec : bytes) (doc : list item) : bytes :=
  match doc with [] => sec | Section_ s :: doc' => last_section s doc' | _ :: doc' => last_section sec doc' end.

(** ** The text of a document *)

Record line := mk_line { continued : list bytes; final : bytes }.

Definition joined (l : line) : bytes := concat (continued l) ++ final l.

Definition cut_text (ps : list bytes) : bytes := concat (map (fun p => p ++ [92; 10]) ps).
Definition line_text (l : line) : bytes := cut_text (continued l) ++ final l ++ [10].
Definition file_text (ls : list line) : bytes := concat (map line_text ls).

(** A part that is continued: the backslash and the newline after it are read by one [pread]. *)
Definition cut_part (p : bytes) : Prop :=
  Forall plain p /\ (blen p + 1) mod (sizeof_buf - 1) <> 0.

Definition line_ok (l : line) : Prop :=
  Forall cut_part (continued l) /\ Forall plain (final l) /\ last (final l) <> Some 92.

(** [realloc] that never moves a block. *)
Definition in_place : realloc_moves := fun _ _ => false.

(** ** Plain text *)

Lemma plain_nonzero b : Forall plain b -> Forall (.≠ 0) b.
Proof. intros H. eapply Forall_impl; [exact H|]. by intros c [? _]. Qed.

Lemma plain_no_newline b : Forall plain b -> 10 ∉ b.
Proof. rewrite Forall_forall. intros H Hi. by destruct (H _ Hi). Qed.

(** ** Lines of the file *)

Lemma sdscatlen_in_place s t :
  exists fr, sdscatlen_dropped in_place s t = Some (mk_sds (s_buf s ++ t) fr).
Proof.
  unfold sdscatlen_dropped, sdscatlen, sdsMakeRoomFor, in_place. destruct (_ <=? _); cbn; eauto.
Qed.

Definition chunk : nat := Z.to_nat (sizeof_buf - 1).
Lemma chunk_eq : Z.of_nat chunk = 1023.
Proof. done. Qed.
#[local] Arguments chunk : simpl never.

(** The bytes at the offset of the file. *)
Definition at_offset (file : bytes) (cursor : Z) (b : bytes) : Prop :=
  0 <= cursor /\ drop (Z.to_nat cursor) file = b.

Lemma at_offset_app file cursor a b :
  at_offset file cursor (a ++ b) -> at_offset file (cursor + blen a) b.
Proof.
  intros [H E]. pose proof (blen_nonneg a). split; [lia|].
  rewrite Z2Nat.inj_add by lia. unfold blen. by rewrite Nat2Z.id, <- drop_drop, E, drop_app_length.
Qed.

Lemma at_offset_start file : at_offset file 0 file.
Proof. by split. Qed.

(** Whole buffers without a newline are appended one after the other. *)
Lemma read_chunks k fuel file cursor ln q rest :
  at_offset file cursor (q ++ rest) -> Forall plain q -> (k * chunk <= length q)%nat ->
  exists ln', s_buf ln' = s_buf ln ++ take (k * chunk) q /\
    get_line_loop (k + fuel) in_place file cursor ln =
    get_line_loop fuel in_place file (cursor + Z.of_nat (k * chunk)) ln'.
Proof.
  revert cursor ln q. induction k as [|k IH]; intros cursor ln q Ho Hq Hk.
  { exists ln. rewrite Z.add_0_r. cbn. by rewrite app_nil_r. }
  pose proof chunk_eq. assert (Hl : length (take chunk q) = chunk) by (rewrite length_take; lia).
  rewrite <- (take_drop chunk q), <- app_assoc in Ho.
  pose proof (Forall_take _ chunk _ Hq) as Hc.
  destruct (sdscatlen_in_place ln (take chunk q)) as [fr E].
  destruct (IH (cursor + blen (take chunk q)) (mk_sds (s_buf ln ++ take chunk q) fr) (drop chunk q))
    as (ln' & E1 & E2).
  { by apply at_offset_app. }
  { by apply Forall_drop. }
  { rewrite length_drop. lia. }
  exists ln'. split.
  { rewrite E1. cbn [s_buf]. rewrite <- app_assoc. f_equal. cbn [Nat.mul].
    by rewrite <- (take_take_drop q chunk (k * chunk)). }
  destruct Ho as [_ Ho]. cbn [Nat.add get_line_loop]. change (Z.to_nat (sizeof_buf - 1)) with chunk.
  rewrite Ho, take_app_length' by done. destruct (take chunk q) as [|x c] eqn:Eq.
  { cbn in Hl. lia. }
  rewrite <- Eq in *. rewrite strchr_absent by (try apply plain_no_newline; try apply plain_nonzero; done).
  rewrite c_string_id, strlen_id by by apply plain_nonzero.
  rewrite E. cbn [mbind option_bind]. rewrite E2. f_equal. unfold blen. lia.
Qed.

(** A newline inside the buffer ends the line, or the part when a backslash is before it. *)
Lemma read_newline fuel file cursor ln q rest :
  at_offset file cursor (q ++ 10 :: rest) -> Forall plain q -> (length q < chunk)%nat ->
  exists ln', 
    (last q = Some 92 /\ s_buf ln' = s_buf ln ++ take (length q - 1) q /\
     get_line_loop (S fuel) in_place file cursor ln = get_line_loop fuel in_place file (cursor + blen q + 1) ln') \/
    (last q <> Some 92 /\ s_buf ln' = s_buf ln ++ q /\
     get_line_loop (S fuel) in_place file cursor ln = Some (0, cursor + blen q + 1, ln')).
Proof.
  intros [Hc Ho] Hq Hl. cbn [get_line_loop]. change (Z.to_nat (sizeof_buf - 1)) with chunk. rewrite Ho.
  rewrite take_app, (take_ge q chunk) by lia.
  destruct (chunk - length q)%nat as [|m] eqn:Em; [lia|]. cbn [firstn take].
  destruct (q ++ 10 :: take m rest) as [|x b] eqn:Eb; [by destruct q|]. rewrite <- Eb.
  rewrite strchr_first by (try apply plain_no_newline; try apply plain_nonzero; done).
  unfold blen. rewrite Nat2Z.id, take_app_length.
  destruct (decide (last q = Some 92)) as [E|E].
  - rewrite E, Z.eqb_refl.
    assert (Hq0 : (0 < length q)%nat) by (destruct q; [done|cbn; lia]).
    destruct (sdscatlen_in_place ln (take (length q - 1) q)) as [fr Ec].
    exists (mk_sds (s_buf ln ++ take (length q - 1) q) fr). left. split_and!; [done..|].
    replace (Z.to_nat (Z.of_nat (length q) - 1)) with (length q - 1)%nat by lia.
    rewrite take_app_le, Ec by lia. cbn [mbind option_bind]. f_equal. lia.
  - assert (Ef : match last q with Some c => c =? 92 | None => false end = false).
    { destruct (last q) as [c|]; [|done]. apply Z.eqb_neq. congruence. }
    rewrite Ef, Nat2Z.id, take_app_length.
    destruct (sdscatlen_in_place ln q) as [fr Ec].
    exists (mk_sds (s_buf ln ++ q) fr). right. split_and!; [done..|].
    rewrite Ec. cbn [mbind option_bind]. do 3 f_equal. lia.
Qed.

(** Whole buffers, then the rest. *)
Lemma split_chunks (q : bytes) :
  exists k a b, q = a ++ b /\ length a = (k * chunk)%nat /\ (length b < chunk)%nat.
Proof.
  pose proof chunk_eq. exists (length q / chunk)%nat.
  exists (take (length q / chunk * chunk) q), (drop (length q / chunk * chunk) q).
  pose proof (Nat.div_mod_eq (length q) chunk). pose proof (Nat.mod_upper_bound (length q) chunk).
  rewrite take_drop, length_take, length_drop. split_and!; [done|nia..].
Qed.

(** A part of a line with all that the file has before its newline. *)
Lemma read_part fuel file cursor ln q rest :
  at_offset file cursor (q ++ 10 :: rest) -> Forall plain q -> (length q < fuel)%nat ->
  (last q = Some 92 -> blen q mod (sizeof_buf - 1) <> 0) ->
  exists ln' fuel', (fuel <= fuel' + S (length q))%nat /\
    ((last q = Some 92 /\ s_buf ln' = s_buf ln ++ take (length q - 1) q /\
      get_line_loop fuel in_place file cursor ln = get_line_loop fuel' in_place file (cursor + blen q + 1) ln') \/
     (last q <> Some 92 /\ s_buf ln' = s_buf ln ++ q /\
      get_line_loop fuel in_place file cursor ln = Some (0, cursor + blen q + 1, ln'))).
Proof.
  intros Ho Hq Hf Hm. pose proof chunk_eq.
  destruct (split_chunks q) as (k & a & b & -> & Ha & Hb).
  apply Forall_app in Hq as Hab. destruct Hab as [Hpa Hpb]. rewrite length_app in *.
  destruct (read_chunks k (S (fuel - k - 1)) file cursor ln a (b ++ 10 :: rest)) as (l1 & E1 & R1); [|done|lia|].
  { by rewrite app_assoc. }
  replace (k + S (fuel - k - 1))%nat with fuel in R1 by nia.
  rewrite <- app_assoc in Ho. apply at_offset_app in Ho as Ho1.
  destruct (read_newline (fuel - k - 1) file (cursor + blen a) l1 b rest Ho1 Hpb Hb) as [ln' H1].
  replace (cursor + Z.of_nat (k * chunk)) with (cursor + blen a) in R1 by (unfold blen; lia).
  rewrite <- Ha, firstn_all in E1. rewrite blen_app, Z.add_assoc, R1.
  exists ln', (fuel - k - 1)%nat. split; [nia|].
  destruct (decide (b = [])) as [->|Hb0].
  - destruct H1 as [(? & _)|(_ & E2 & E3)]; [done|]. right. rewrite app_nil_r in *.
    split_and!; [|congruence|rewrite E3; do 3 f_equal; cbn; lia].
    intros E. apply Hm; [done|]. unfold blen. rewrite Ha, Nat2Z.inj_mul, H. apply Z.mod_mul. done.
  - rewrite last_app. destruct (last b) as [c|] eqn:Ec; [|by apply last_None in Ec].
    assert (0 < length b)%nat by (destruct b; [done|cbn; lia]).
    destruct H1 as [(E & E2 & E3)|(E & E2 & E3)]; [left|right]; (split_and!; [done| |by rewrite E3]).
    + rewrite E2, E1, <- app_assoc. f_equal. rewrite take_app_ge by lia. do 2 f_equal. lia.
    + by rewrite E2, E1, <- app_assoc.
Qed.

Lemma cut_text_cons p ps : cut_text (p :: ps) = (p ++ [92]) ++ 10 :: cut_text ps.
Proof. unfold cut_text. cbn. by rewrite <- !app_assoc. Qed.

(** The continued parts of a line are joined. *)
Lemma read_cut_parts ps fuel file cursor ln rest :
  at_offset file cursor (cut_text ps ++ rest) -> Forall cut_part ps -> (length (cut_text ps) < fuel)%nat ->
  exists ln' fuel', (fuel <= fuel' + length (cut_text ps))%nat /\ s_buf ln' = s_buf ln ++ concat ps /\
    get_line_loop fuel in_place file cursor ln =
    get_line_loop fuel' in_place file (cursor + blen (cut_text ps)) ln'.
Proof.
  intros Ho Hp. revert fuel cursor ln Ho. induction Hp as [|p ps [Hp Hm] _ IH]; intros fuel cursor ln Ho Hf.
  { exists ln, fuel. cbn in *. rewrite Z.add_0_r, app_nil_r. split_and!; [lia|done..]. }
  rewrite cut_text_cons in *. rewrite <- app_assoc in Ho. rewrite length_app in Hf. cbn [length app] in *.
  assert (Hq : Forall plain (p ++ [92])) by (apply Forall_app; split; [done|by repeat constructor]).
  assert (Hl : length (p ++ [92]) = S (length p)) by (rewrite length_app; cbn; lia).
  destruct (read_part fuel file cursor ln (p ++ [92]) (cut_text ps ++ rest) Ho Hq) as (l1 & f1 & Hf1 & H1).
  { lia. }
  { intros _. by rewrite blen_app. }
  destruct H1 as [(_ & E1 & R1)|(E & _)]; [|by rewrite last_snoc in E].
  apply at_offset_app in Ho. apply (at_offset_app _ _ [10]) in Ho.
  destruct (IH f1 _ l1 Ho) as (l2 & f2 & Hf2 & E2 & R2); [lia|].
  exists l2, f2. split; [rewrite length_app; cbn; lia|]. split.
  { rewrite E2, E1, Hl, <- app_assoc. cbn [concat]. do 2 f_equal.
    replace (S (length p) - 1)%nat with (length p) by lia. apply take_app_length. }
  change (blen [10]) with 1 in R2. rewrite R1, R2. f_equal.
  change (10 :: cut_text ps) with ([10] ++ cut_text ps). rewrite !blen_app. change (blen [10]) with 1. lia.
Qed.

Lemma read_line_text l fuel file cursor ln rest :
  at_offset file cursor (line_text l ++ rest) -> line_ok l -> (length (line_text l) < fuel)%nat ->
  exists ln', s_buf ln' = s_buf ln ++ joined l /\
    get_line_loop fuel in_place file cursor ln = Some (0, cursor + blen (line_text l), ln').
Proof.
  intros Ho (Hc & Hf & Hl) Hfuel. unfold line_text in *. rewrite !length_app in Hfuel. cbn [length] in Hfuel.
  rewrite <- !app_assoc in Ho. cbn [app] in Ho.
  destruct (read_cut_parts _ fuel _ _ ln _ Ho Hc) as (l1 & f1 & Hf1 & E1 & R1); [lia|].
  apply at_offset_app in Ho.
  destruct (read_part f1 file _ l1 _ _ Ho Hf) as (l2 & f2 & _ & H2); [lia|by intros ?|].
  destruct H2 as [(? & _)|(_ & E2 & R2)]; [done|].
  exists l2. unfold joined. rewrite E2, E1, app_assoc. split; [done|].
  rewrite R1, R2. do 3 f_equal. rewrite !blen_app. change (blen [10]) with 1. lia.
Qed.

Lemma read_end fuel file cursor ln :
  at_offset file cursor [] -> get_line_loop (S fuel) in_place file cursor ln = Some (-2, cursor, ln).
Proof. intros [_ E]. cbn [get_line_loop]. by rewrite E, take_nil. Qed.

(** Less than a buffer without a newline, at the end of the file. *)
Lemma read_short_end fuel file cursor ln q :
  at_offset file cursor q -> Forall plain q -> q <> [] -> (length q < chunk)%nat ->
  exists c ln', get_line_loop (S (S fuel)) in_place file cursor ln = Some (-2, c, ln').
Proof.
  intros Ho Hp H0 Hq. assert (Ho' : at_offset file (cursor + blen q) []) by (apply at_offset_app; by rewrite app_nil_r).
  destruct (sdscatlen_in_place ln q) as [fr E]. destruct Ho as [_ Eo]. remember (S fuel) as f.
  cbn [get_line_loop]. change (Z.to_nat (sizeof_buf - 1)) with chunk. rewrite Eo, take_ge by lia.
  destruct q as [|x q'] eqn:Eq; [done|]. rewrite <- Eq in *.
  rewrite strchr_absent by (try apply plain_no_newline; try apply plain_nonzero; done).
  rewrite c_string_id, strlen_id by (by apply plain_nonzero). rewrite E. cbn [mbind option_bind].
  subst f. rewrite read_end by done. eauto.
Qed.

(** Text without its newline at the end of the file is lost. *)
Lemma read_unfinished ps q fuel file cursor ln :
  at_offset file cursor (cut_text ps ++ q) -> Forall cut_part ps -> Forall plain q ->
  (length (cut_text ps ++ q) < fuel)%nat ->
  exists c ln', get_line_loop fuel in_place file cursor ln = Some (-2, c, ln').
Proof.
  intros Ho Hc Hq Hfuel. pose proof chunk_eq. rewrite length_app in Hfuel.
  destruct (read_cut_parts _ fuel _ _ ln _ Ho Hc) as (l1 & f1 & Hf1 & E1 & ->); [lia|].
  apply at_offset_app in Ho.
  destruct (split_chunks q) as (k & a & b & -> & Ha & Hb). rewrite length_app in *.
  apply Forall_app in Hq as [Hpa Hpb].
  destruct (read_chunks k (f1 - k) file _ l1 a b Ho Hpa) as (l2 & E2 & R2); [lia|].
  replace (k + (f1 - k))%nat with f1 in R2 by nia. rewrite R2. clear R2.
  apply at_offset_app in Ho. unfold blen in Ho at 2. rewrite Ha in Ho.
  destruct (decide (b = [])) as [->|Hb0].
  - replace (f1 - k)%nat with (S (f1 - k - 1)) by nia. rewrite read_end by done. eauto.
  - assert (0 < length b)%nat by (destruct b; [done|cbn; lia]).
    replace (f1 - k)%nat with (S (S (f1 - k - 2))) by nia. by eapply read_short_end.
Qed.

End ConfSpec.
