(* ===== verification/RedisConfRead.v ===== *)
(** * Configuration files are read as they are meant

    One line changes the dictionary by its item ([parseLine_says]), a file of lines
    is read to the bindings of its document, and the getters answer with them. *)

From Stdlib Require Import Ascii String.
From S2P Require Import Prelude CText RedisConf RedisConfSpec.
Import CText Conf ConfSpec.

Module ConfRead.

Implicit Types d : gmap bytes bytes.

(** ** The dictionary *)

Lemma add_first_union d k v : add_first d k v = d ∪ {[k := v]}.
Proof.
  unfold add_first. destruct (d !! k) as [w|] eqn:E.
  - symmetry. apply map_eq. intros i. rewrite lookup_union. destruct (decide (i = k)) as [->|].
    + by rewrite E, lookup_singleton_eq.
    + rewrite lookup_singleton_ne by done. by destruct (d !! i).
  - by rewrite insert_union_singleton_r.
Qed.

(** Adding pairs one after the other: the first of a key stays. *)
Definition added d (b : list (bytes * bytes)) := d ∪ list_to_map b.

Lemma added_nil d : added d [] = d.
Proof. unfold added. apply map_union_empty. Qed.

Lemma added_cons d k v b : added (add_first d k v) b = added d ((k, v) :: b).
Proof. unfold added. rewrite add_first_union, <- (assoc_L (∪)). f_equal. symmetry. apply insert_union_singleton_l. Qed.

Lemma added_app d b1 b2 : added (added d b1) b2 = added d (b1 ++ b2).
Proof. unfold added. by rewrite list_to_map_app, (assoc_L (∪)). Qed.

Lemma added_snoc d b k v : add_first (added d b) k v = added d (b ++ [(k, v)]).
Proof. by rewrite <- (added_nil (add_first _ _ _)), added_cons, added_app. Qed.

(** ** Arrays *)

Lemma split_absent c b : c ∉ b -> split c b = [b].
Proof.
  induction b as [|x b IH]; [done|]. intros H. apply not_elem_of_cons in H as [? ?]. cbn.
  destruct (Z.eqb_spec x c); [done|]. by rewrite IH.
Qed.

Lemma split_nonnil c b : split c b <> [].
Proof. destruct b as [|x b]; [done|]. cbn. destruct (x =? c); [done|]. by destruct (split c b). Qed.

Lemma split_first c a b : c ∉ a -> split c (a ++ c :: b) = a :: split c b.
Proof.
  induction a as [|x a IH]; intros H; cbn.
  - by rewrite Z.eqb_refl.
  - apply not_elem_of_cons in H as [? ?]. destruct (Z.eqb_spec x c); [done|]. by rewrite IH.
Qed.

Lemma numbered_app key i a b :
  numbered key i (a ++ b) = numbered key i a ++ numbered key (i + Z.of_nat (length a)) b.
Proof.
  revert i. induction a as [|x a IH]; intros i; cbn [app numbered length]; [by rewrite Z.add_0_r|].
  rewrite IH. do 3 f_equal. lia.
Qed.

(** The loop adds the elements that a comma ends, and leaves the part after the last comma. *)
Lemma nonempty_cons w l : w <> [] -> nonempty (w :: l) = w :: nonempty l.
Proof. intros H. unfold nonempty. by rewrite filter_cons_True. Qed.

Lemma array_loop_spec fuel d key v idx :
  Forall (.≠ 0) v -> (length v < fuel)%nat -> 0 <= idx -> idx + Z.of_nat (length (elements v)) < 2 ^ 31 ->
  exists rest init, split ARRAY_DELIM v = init ++ [rest] /\
    array_loop fuel d key v idx =
    Some (added d (numbered key idx (nonempty init)), rest, idx + Z.of_nat (length (nonempty init))).
Proof.
  revert d v idx. induction fuel as [|f IH]; intros d v idx Hv Hf Hi0 Hi; [lia|]. cbn [array_loop].
  destruct v as [|x v']; [exists [], []; by rewrite added_nil, Z.add_0_r|].
  destruct (strchr_cut _ ARRAY_DELIM Hv) as [[-> Hn]|(a & b & Eb & Hn & ->)].
  { exists (x :: v'), []. rewrite split_absent by done. cbn. by rewrite added_nil, Z.add_0_r. }
  rewrite Eb in Hv |- *. apply Forall_app in Hv as [_ Hb]. apply Forall_cons in Hb as [_ Hb].
  assert (Hl : (length a + length b < f)%nat).
  { apply (f_equal length) in Eb. rewrite length_app in Eb. cbn in Eb, Hf. lia. }
  unfold elements in Hi. rewrite Eb, split_first in Hi by done. fold (elements b) in Hi.
  rewrite split_first by done. destruct a as [|y a].
  - cbn in Eb. injection Eb as -> ->. destruct (IH d b idx Hb) as (rest & init & -> & E); [cbn in Hl; lia|done|exact Hi|].
    exists rest, ([] :: init). by split.
  - set (w := y :: a) in *. destruct (Z.leb_spec (blen w) 0) as [H|_]; [unfold blen in H; cbn in H; lia|].
    unfold blen. rewrite Nat2Z.id, take_app_length.
    replace (Z.to_nat (Z.of_nat (length w) + 1)) with (S (length w)) by lia.
    replace (drop (S (length w)) (w ++ ARRAY_DELIM :: b)) with b
      by (change (S (length w)) with (1 + length w)%nat; by rewrite Nat.add_comm, <- drop_drop, drop_app_length).
    rewrite nonempty_cons in Hi by done. fold (elements b) in Hi. cbn [length] in Hi.
    cbn [dictAdd map_dictionary mbind option_bind]. rewrite chk_n4_ok by lia. cbn [mbind option_bind].
    destruct (IH (add_first d (key ++ dec idx) w) b (idx + 1) Hb) as (rest & init & -> & E); [lia|lia|lia|].
    exists rest, (w :: init). split; [done|]. rewrite E, added_cons, nonempty_cons by done.
    cbn [numbered length]. do 2 f_equal. lia.
Qed.

Lemma parseArray_spec d key v :
  Forall (.≠ 0) key -> Forall (.≠ 0) v -> Z.of_nat (length (elements v)) < 2 ^ 31 ->
  parseArray d key v = Some (added d (array_bindings key v)).
Proof.
  intros Hk Hv Hel. unfold parseArray. rewrite !c_string_id by done.
  destruct (array_loop_spec (S (length v)) d key v 0 Hv) as (rest & init & Es & ->); [lia|lia|lia|].
  assert (Ha : is_array v <-> nonempty init <> []) by (unfold is_array; by rewrite Es, removelast_last).
  assert (He : elements v = nonempty init ++ nonempty [rest]).
  { unfold elements, nonempty. by rewrite Es, filter_app. }
  cbn [mbind option_bind]. unfold array_bindings. rewrite He.
  destruct (Z.eqb_spec (0 + Z.of_nat (length (nonempty init))) 0) as [H|H].
  { assert (E : nonempty init = []) by (apply nil_length_inv; lia).
    rewrite decide_False by (rewrite Ha; by intros []). by rewrite E. }
  rewrite decide_True by (apply Ha; intros E; by rewrite E in H).
  rewrite numbered_app, length_app. destruct rest as [|y rest].
  - cbn [dictAdd map_dictionary mbind option_bind]. rewrite added_snoc. cbn. by rewrite app_nil_r, Nat.add_0_r.
  - assert (length (nonempty [y :: rest]) = 1%nat) as H1 by done.
    rewrite He, length_app, H1 in Hel. cbn [dictAdd map_dictionary mbind option_bind].
    rewrite chk_n4_ok by lia. cbn [dictAdd map_dictionary mbind option_bind].
    rewrite !added_snoc, Nat2Z.inj_add, Z.add_0_l. done.
Qed.

(** ** One line *)

(** What an item does to the dictionary and to the current section. *)
Definition read_item (s : state (gmap bytes bytes)) (i : item) : state (gmap bytes bytes) :=
  match i with
  | Skip => s
  | Section_ n => mk_state (dt s) n
  | Entry k v => mk_state (added (dt s) ((first_key s ++ k, v) :: array_bindings (first_key s ++ k) v)) (first_key s)
  end.

Lemma says_blank_inv l i : says l i -> trim l = [] -> i = Skip.
Proof.
  intros [|?|? s ? E|? k d v ? E|] Ht; try done; rewrite Ht in E; [done|].
  by destruct k.
Qed.

Lemma trim_plain l : Forall plain l -> Forall (.≠ 0) (trim l).
Proof. 
  intros H. apply plain_nonzero. rewrite Forall_forall in *. intros c Hc.
  apply list_elem_of_filter in Hc as [_ Hc]. auto.
 Qed.

Lemma sdstrimspace_trim l fr : Forall plain l -> exists fr', sdstrimspace (mk_sds l fr) = mk_sds (trim l) fr'.
Proof.
  intros H. apply plain_nonzero in H. unfold sdstrimspace. cbn [s_buf s_free].
  rewrite strlen_id, c_string_id by done. destruct (Z.eqb_spec (blen l) 0) as [E|_]; [|eauto].
  assert (l = []) as -> by (destruct l; [done|unfold blen in E; cbn in E; lia]). eauto.
Qed.

Lemma isComment_head l : isComment l = 0 <-> head l = Some COMMENT_CHAR0.
Proof.
  destruct l as [|c l]; [done|]. cbn. destruct (Z.eqb_spec c COMMENT_CHAR0); split; congruence.
Qed.

Lemma isFirstKey_section t : t <> [] ->
  exists r, isFirstKey t = Some r /\ (r = 0 <-> is_section t).
Proof.
  intros Ht. destruct t as [|c t] using rev_ind; [done|]. clear IHt. unfold isFirstKey, is_section.
  rewrite last_snoc. destruct (t ++ [c]) as [|x t'] eqn:E; [done|]. cbn. eexists. split; [done|].
  unfold KEY_CHAR1, KEY_CHAR2. destruct (Z.eqb_spec x 91), (Z.eqb_spec c 93); cbn; intuition congruence.
Qed.

Lemma delim_entry k (d : Z) v :
  Forall (.≠ 0) (k ++ d :: v) -> EQUAL_CHAR0 ∉ k ->
  d = EQUAL_CHAR0 \/ d = EQUAL_CHAR1 /\ EQUAL_CHAR1 ∉ k /\ EQUAL_CHAR0 ∉ v ->
  delim (k ++ d :: v) = Some (blen k).
Proof.
  intros Hz Hk Hd. pose proof Hz as Hz'. apply Forall_app in Hz as [Hkz _]. unfold delim.
  destruct Hd as [->|(-> & Hk1 & Hv)]; [by rewrite strchr_first|].
  rewrite strchr_absent, strchr_first; [done..|].
  rewrite not_elem_of_app, not_elem_of_cons. done.
Qed.

(** A line that is no comment and not blank is read without its spaces. *)
Lemma parseLine_trimmed moves s l fr :
  Forall plain l -> head l <> Some COMMENT_CHAR0 -> trim l <> [] ->
  exists fr' r, (r = 0 <-> is_section (trim l)) /\
    parseLine moves s (mk_sds l fr) =
    if r =? 0 then Some (set_first_key s (mk_sds (trim l) fr')) else parse_entry moves s (mk_sds (trim l) fr').
Proof.
  intros Hp Hc Ht. unfold parseLine. cbn [s_buf].
  destruct (Z.eqb_spec (sdslen (mk_sds l fr)) 0) as [E|_].
  { apply blen_zero in E. cbn in E. by subst l. }
  destruct (Z.eqb_spec (isComment l) 0) as [E|_]; [by apply isComment_head in E|].
  destruct (sdstrimspace_trim l fr Hp) as [fr' ->]. unfold sdslen. cbn [s_buf].
  destruct (Z.eqb_spec (blen (trim l)) 0) as [E|_]; [by apply blen_zero in E|].
  destruct (isFirstKey_section _ Ht) as (r & -> & Hr). by exists fr', r.
Qed.

Lemma parseLine_skip moves s l fr :
  says l Skip -> Forall plain l -> exists ln', parseLine moves s (mk_sds l fr) = Some (ln', s).
Proof.
  intros Hs Hp. destruct (decide (head l = Some COMMENT_CHAR0)) as [Hc|Hc].
  { unfold parseLine. apply isComment_head in Hc. cbn [s_buf]. rewrite Hc. case_match; cbn; eauto. }
  destruct (decide (trim l = [])) as [Ht|Ht].
  { unfold parseLine. destruct (sdstrimspace_trim l fr Hp) as [fr' ->]. rewrite Ht.
    case_match; [eauto|]. case_match; cbn; eauto. }
  destruct (parseLine_trimmed moves s l fr Hp Hc Ht) as (fr' & r & Hr & ->).
  inversion Hs as [|? E|? ? ? ?|? ? ? ? ? ?|? _ Hns H0 H1]; subst; [done..|].
  destruct (Z.eqb_spec r 0) as [Er|_]; [by apply Hr in Er|].
  unfold parse_entry, getLineKey, delim. cbn [s_buf].
  rewrite !strchr_absent by (try apply trim_plain; done). cbn. eauto.
Qed.

Lemma parseLine_section moves s l fr n :
  says l (Section_ n) -> Forall plain l ->
  exists ln', parseLine moves s (mk_sds l fr) = Some (ln', mk_state (dt s) n).
Proof.
  intros Hs Hp. inversion Hs as [| |? ? Hc Et Hn| |]; subst.
  destruct (parseLine_trimmed moves s l fr Hp Hc) as (fr' & r & Hr & ->); [by rewrite Et|].
  apply trim_plain in Hp. rewrite Et in *. destruct (Z.eqb_spec r 0) as [_|Er].
  2:{ destruct Er. apply Hr. unfold is_section. rewrite app_comm_cons, last_snoc. done. }
  apply Forall_cons in Hp as [_ Hp]. apply Forall_app in Hp as [Hp _].
  unfold set_first_key. cbn [s_buf s_free]. rewrite app_comm_cons, removelast_last. cbn [tail].
  rewrite c_string_id, take_ge by (unfold blen, sizeof_first_key in *; done || lia). eauto.
Qed.

(** The key is copied behind the section, and the result of the copy is not looked at. *)
Lemma parseLine_entry moves s l fr k v :
  says l (Entry k v) -> Forall plain l ->
  exists ln', parseLine moves s (mk_sds l fr) =
    (key ← sdscatlen_dropped moves (sdsnewlen (first_key s)) k;
     dt' ← parseArray (add_first (dt s) (s_buf key) v) (s_buf key) v;
     Some (ln', mk_state dt' (first_key s))).
Proof.
  intros Hs Hp. inversion Hs as [| | |? ? d ? Hc Et Hns Hk0 Hv0 Hke Hd|]; subst.
  destruct (parseLine_trimmed moves s l fr Hp Hc) as (fr' & r & Hr & ->); [by rewrite Et; destruct k|].
  apply trim_plain in Hp. destruct (Z.eqb_spec r 0) as [Er|_]; [by apply Hr in Er|].
  exists (mk_sds (trim l) fr'). unfold parse_entry. cbn [s_buf]. rewrite Et in *.
  unfold getLineKey, getLineValue. rewrite delim_entry, strlen_id, c_string_id by done.
  replace (take (Z.to_nat (blen k)) (k ++ d :: v)) with k by (unfold blen; by rewrite Nat2Z.id, take_app_length).
  replace (drop (Z.to_nat (blen k + 1)) (k ++ d :: v)) with v.
  2:{ unfold blen. replace (Z.to_nat _) with (length k + 1)%nat by lia. by rewrite <- drop_drop, drop_app_length. }
  destruct (Z.eqb_spec (blen (k ++ d :: v)) 0) as [Eb|_]; [by rewrite blen_zero in Eb; destruct k|].
  destruct (Z.eqb_spec (blen k) 0) as [E|_]; [by rewrite blen_zero in E|].
  destruct (Z.eqb_spec (blen v) 0) as [E|_]; [by rewrite blen_zero in E|]. done.
Qed.

Lemma entry_plain l k v : says l (Entry k v) -> Forall plain l -> Forall (.≠ 0) k /\ Forall (.≠ 0) v.
Proof.
  intros Hs Hp. inversion Hs as [| | |? ? d ? Hc Et|]; subst. apply trim_plain in Hp. rewrite Et in Hp.
  apply Forall_app in Hp as [? Hp]. by apply Forall_cons in Hp as [_ Hp].
Qed.

(** The number of the elements of a value is an [int]. *)
Definition countable_item (i : item) : Prop :=
  match i with Entry _ v => Z.of_nat (length (elements v)) < 2 ^ 31 | _ => True end.

Lemma parseLine_says s l fr i :
  says l i -> Forall plain l -> Forall (.≠ 0) (first_key s) -> countable_item i ->
  exists ln', parseLine in_place s (mk_sds l fr) = Some (ln', read_item s i).
Proof.
  intros Hs Hp Hk Hc. destruct i as [|n|k v]; [by apply parseLine_skip|by apply parseLine_section|].
  destruct (parseLine_entry in_place s l fr k v Hs Hp) as [ln' ->].
  destruct (entry_plain _ _ _ Hs Hp) as [Hkz Hvz].
  destruct (sdscatlen_in_place (sdsnewlen (first_key s)) k) as [fk ->]. cbn [mbind option_bind s_buf sdsnewlen].
  rewrite parseArray_spec by (try apply Forall_app; done). cbn [mbind option_bind]. rewrite added_cons. eauto.
Qed.

(** ** The whole file *)

Definition meaning (l : line) (i : item) : Prop := says (joined l) i.

Lemma joined_plain l : line_ok l -> Forall plain (joined l).
Proof.
  intros (Hc & Hf & _). apply Forall_app. split; [|done]. induction Hc as [|p ps [Hp _] _ IH]; [done|].
  cbn. by apply Forall_app.
Qed.

Lemma read_item_section s l i :
  says l i -> Forall plain l -> Forall (.≠ 0) (first_key s) -> Forall (.≠ 0) (first_key (read_item s i)).
Proof.
  intros Hs Hp Hk. destruct Hs as [| |? n _ E _| |]; try done. cbn.
  apply trim_plain in Hp. rewrite E in Hp. apply Forall_cons in Hp as [_ Hp]. by apply Forall_app in Hp as [Hp _].
Qed.

Lemma line_text_length l : (length (joined l) < length (line_text l))%nat.
Proof.
  unfold joined, line_text. rewrite !length_app. cbn.
  induction (continued l) as [|p ps IH]; [cbn; lia|]. rewrite cut_text_cons, !length_app. cbn. rewrite length_app. lia.
Qed.

Lemma at_offset_length file cursor b :
  at_offset file cursor b -> b <> [] -> blen file = cursor + blen b.
Proof.
  intros [H E] Hb. apply (f_equal length) in E. rewrite length_drop in E. unfold blen.
  assert (length b <> 0%nat) by by destruct b. lia.
Qed.

Lemma fileGetLine_end ps q file cursor ln :
  at_offset file cursor (cut_text ps ++ q) -> Forall cut_part ps -> Forall plain q ->
  exists r c ln', fileGetLine in_place file cursor ln = Some (r, c, ln') /\ r <> 0.
Proof.
  intros Ho Hc Hq. unfold fileGetLine. destruct (Z.leb_spec (blen file) (cursor + 1)) as [_|Hl].
  { by exists (-1), cursor, ln. }
  destruct (read_unfinished ps q (S (length file)) file cursor ln Ho Hc Hq) as (c & ln' & ->).
  { destruct Ho as [_ E]. apply (f_equal length) in E. rewrite length_drop in E. lia. }
  by exists (-2), c, ln'.
Qed.

Lemma init_loop_reads ls doc ps q fuel file cursor ln s :
  at_offset file cursor (file_text ls ++ cut_text ps ++ q) -> Forall line_ok ls -> Forall2 meaning ls doc ->
  Forall cut_part ps -> Forall plain q -> Forall (.≠ 0) (first_key s) -> Forall countable_item doc ->
  (length ls < fuel)%nat ->
  init_loop fuel in_place file cursor ln s = Some (foldl read_item s doc).
Proof.
  intros Ho Hls Hm Hps Hq. revert fuel cursor ln s Ho.
  induction Hm as [|l i ls doc Hi Hm IH]; intros fuel cursor ln s Ho Hk Hci Hf.
  { destruct fuel as [|f]; [cbn in Hf; lia|]. cbn [init_loop].
    destruct (fileGetLine_end ps q file cursor (sdsclear ln) Ho Hps Hq) as (r & c & ln' & -> & Hr).
    cbn [mbind option_bind]. by destruct (Z.eqb_spec r 0). }
  destruct fuel as [|f]; [cbn in Hf; lia|]. cbn [init_loop foldl length] in *.
  apply Forall_cons in Hls as [Hl Hls]. apply Forall_cons in Hci as [Hc1 Hci]. specialize (IH Hls).
  change (file_text (l :: ls)) with (line_text l ++ file_text ls) in Ho. rewrite <- app_assoc in Ho.
  pose proof (line_text_length l) as Hlen. pose proof (joined_plain l Hl) as Hpl.
  pose proof (at_offset_length _ _ _ Ho) as Hfl. rewrite blen_app in Hfl. unfold fileGetLine.
  destruct (Z.leb_spec (blen file) (cursor + 1)) as [Hsh|_].
  - (* only a newline is left *)
    assert (Hne : line_text l ++ file_text ls ++ cut_text ps ++ q <> []) by (by destruct (line_text l); [cbn in Hlen; lia|]).
    specialize (Hfl Hne). pose proof (blen_nonneg (file_text ls ++ cut_text ps ++ q)).
    assert (Hj : joined l = []) by (apply nil_length_inv; unfold blen in *; lia).
    assert (Hr : file_text ls ++ cut_text ps ++ q = []) by (apply blen_zero; unfold blen in *; lia).
    apply app_eq_nil in Hr as [Hr _]. unfold meaning in Hi. rewrite Hj in Hi.
    rewrite (says_blank_inv _ _ Hi) by done. cbn. inversion Hm as [|l2 ? ls2 ? ? _]; [done|]. subst.
    change (file_text (l2 :: ls2)) with (line_text l2 ++ file_text ls2) in Hr.
    apply app_eq_nil in Hr as [Hr _]. pose proof (line_text_length l2) as H2. rewrite Hr in H2. cbn in H2. lia.
  - destruct (read_line_text l (S (length file)) file cursor (sdsclear ln) _ Ho Hl) as (ln' & E & ->).
    { destruct Ho as [_ Eo]. apply (f_equal length) in Eo. rewrite length_drop, length_app in Eo. lia. }
    cbn [mbind option_bind Z.eqb negb]. destruct ln' as [b fr]. cbn in E. subst b.
    destruct (parseLine_says s _ fr i Hi Hpl Hk Hc1) as [ln2 ->]. cbn [mbind option_bind].
    apply IH; [|by eapply read_item_section|done|lia]. by apply at_offset_app.
Qed.

Lemma foldl_read_item doc d sec :
  foldl read_item (mk_state d sec) doc = mk_state (added d (bindings sec doc)) (last_section sec doc).
Proof.
  revert d sec. induction doc as [|[|n|k v] doc IH]; intros d sec; cbn [foldl bindings last_section read_item dt first_key].
  - by rewrite added_nil.
  - apply IH.
  - apply IH.
  - by rewrite IH, added_app.
Qed.

Lemma file_lines ls : (length ls <= length (file_text ls))%nat.
Proof.
  induction ls as [|l ls IH]; [done|]. change (file_text (l :: ls)) with (line_text l ++ file_text ls).
  rewrite length_app. pose proof (line_text_length l). cbn. lia.
Qed.

Lemma added_empty b : added ∅ b = list_to_map b.
Proof. unfold added. apply map_empty_union. Qed.

(** ** Numbers in keys and values *)

Lemma bindings_app sec a b : bindings sec (a ++ b) = bindings sec a ++ bindings (last_section sec a) b.
Proof.
  revert sec. induction a as [|[|n|k v] a IH]; intros sec; cbn [app bindings last_section]; [done|apply IH..|].
  by rewrite IH, app_assoc.
Qed.

Lemma numbered_elem key i l n x :
  l !! n = Some x -> (key ++ dec (i + Z.of_nat n), x) ∈ numbered key i l.
Proof.
  revert i n. induction l as [|y l IH]; intros i [|n]; cbn [numbered lookup list_lookup]; intros H; try done.
  - injection H as ->. rewrite Z.add_0_r. apply list_elem_of_here.
  - apply list_elem_of_further. replace (i + Z.of_nat (S n)) with (i + 1 + Z.of_nat n) by lia. auto.
Qed.

Lemma split_length c b : (length (split c b) <= S (length b))%nat.
Proof.
  induction b as [|x b IH]; [done|]. cbn. destruct (x =? c); [cbn; lia|]. destruct (split c b); cbn in *; lia.
Qed.

Lemma elements_length v : (length (elements v) <= S (length v))%nat.
Proof. unfold elements, nonempty. rewrite length_filter. apply split_length. Qed.

Lemma full_key_name sec k : k <> [] -> full_key sec k = sec ++ k.
Proof. by destruct k. Qed.

Lemma nonempty_one l : nonempty (removelast l) = [] -> (length (nonempty l) <= 1)%nat.
Proof.
  induction l as [|x l _] using rev_ind; [cbn; lia|]. rewrite removelast_last. intros E.
  unfold nonempty in *. rewrite filter_app, E. cbn. destruct (decide (x <> [])); cbn; lia.
Qed.

(** The bindings of a document bound the elements of its values. *)
Lemma bindings_countable sec doc :
  Z.of_nat (length (bindings sec doc)) < 2 ^ 31 -> Forall countable_item doc.
Proof.
  revert sec. induction doc as [|[|n|k v] doc IH]; intros sec H; cbn [bindings] in H; [constructor|..].
  - apply Forall_cons. split; [done|]. by apply (IH sec).
  - apply Forall_cons. split; [done|]. by apply (IH n).
  - rewrite length_app in H. apply Forall_cons. split; [|apply (IH sec); lia]. cbn [countable_item length] in *.
    unfold array_bindings in H. destruct (decide (is_array v)) as [Ha|Ha].
    + rewrite length_app in H.
      assert (forall key i l, length (numbered key i l) = length l) as Hn.
      { intros key i l. revert i. induction l as [|x l IHl]; intros i; [done|]. cbn. by rewrite IHl. }
      rewrite Hn in H. lia.
    + assert (length (elements v) <= 1)%nat; [|lia]. apply nonempty_one.
      destruct (decide (nonempty (removelast (split ARRAY_DELIM v)) = [])); [done|by destruct Ha].
Qed.

(** [confInit] reads a file to what it says.  What the last line has when its newline is
    missing is lost, and the last section is the one the next call starts in. *)
Lemma confInit_reads ls doc ps q sec :
  Forall line_ok ls -> Forall2 meaning ls doc -> Forall cut_part ps -> Forall plain q ->
  Forall (.≠ 0) sec -> Forall countable_item doc ->
  confInit in_place (Some (file_text ls ++ cut_text ps ++ q)) sec =
  Some (match bindings sec doc with
        | [] => (-1, None, last_section sec doc)
        | b => (0, Some (list_to_map b), last_section sec doc)
        end).
Proof.
  intros Hl Hm Hps Hq Hs Hci. unfold confInit. cbn [mbind option_bind].
  rewrite (init_loop_reads ls doc ps q); [|apply at_offset_start|done..|].
  2:{ rewrite length_app. pose proof (file_lines ls). lia. }
  rewrite foldl_read_item, added_empty. cbn [mbind option_bind dt first_key].
  destruct (bindings sec doc) as [|[k v] b]; [done|]. cbn [dictSize map_dictionary].
  destruct (Z.eqb_spec (Z.of_nat (size (list_to_map ((k, v) :: b) : gmap bytes bytes))) 0) as [E|]; [|done].
  assert (E0 : (list_to_map ((k, v) :: b) : gmap bytes bytes) = ∅) by (apply map_size_empty_inv; lia).
  cbn in E0. by apply insert_non_empty in E0.
Qed.

(** ** Whatever [realloc] moves

    A string that moves is used where it was, which gives no result; a run
    without such a move is the run in place. *)

Definition same_or_none {A} (o o' : option A) : Prop := o = None \/ o = o'.

Lemma same_or_none_bind {A B} (o o' : option A) (f f' : A -> option B) :
  same_or_none o o' -> (forall x, same_or_none (f x) (f' x)) -> same_or_none (o ≫= f) (o' ≫= f').
Proof. intros [-> | ->] Hf; [by left|]. destruct o' as [x|]; [apply Hf|by right]. Qed.

Lemma same_or_none_refl {A} (o : option A) : same_or_none o o.
Proof. by right. Qed.

Section Moves.
Context (moves : realloc_moves) {D : Type} `{!Dictionary D}.
Implicit Types s : state D.

Ltac same := repeat match goal with
  | |- same_or_none (_ ≫= _) (_ ≫= _) => apply same_or_none_bind; [|intros ?]
  | |- same_or_none (let '(_, _) := ?p in _) _ => destruct p
  | |- same_or_none (if ?b then _ else _) _ => destruct b
  | |- same_or_none (match ?x with _ => _ end) _ => destruct x
  | _ => apply same_or_none_refl
  end.

Lemma sdscatlen_moves (x : sds) (t : bytes) : same_or_none (sdscatlen_dropped moves x t) (sdscatlen_dropped in_place x t).
Proof.
  unfold sdscatlen_dropped, sdscatlen, sdsMakeRoomFor. destruct (blen t <=? s_free x); [by right|].
  cbn [in_place]. destruct (moves _ _); [by left|by right].
Qed.

Lemma parse_entry_moves s line : same_or_none (parse_entry moves s line) (parse_entry in_place s line).
Proof. unfold parse_entry. same. apply sdscatlen_moves. Qed.

Lemma parseLine_moves s line : same_or_none (parseLine moves s line) (parseLine in_place s line).
Proof. unfold parseLine. same. apply parse_entry_moves. Qed.

Lemma get_line_loop_moves fuel file : forall cursor line,
  same_or_none (get_line_loop fuel moves file cursor line) (get_line_loop fuel in_place file cursor line).
Proof.
  induction fuel as [|f IH]; intros cursor line; [by right|]. cbn [get_line_loop]. same; (apply sdscatlen_moves || apply IH).
Qed.

Lemma init_loop_moves fuel file : forall cursor line s,
  same_or_none (init_loop fuel moves file cursor line s) (init_loop fuel in_place file cursor line s).
Proof.
  induction fuel as [|f IH]; intros cursor line s; [by right|]. cbn [init_loop]. unfold fileGetLine.
  same; (apply get_line_loop_moves || apply parseLine_moves || apply IH).
Qed.

Lemma confInit_moves file sec : same_or_none (confInit (dict := D) moves file sec) (confInit in_place file sec).
Proof. unfold confInit. same. apply init_loop_moves. Qed.
End Moves.

(** ** Properties *)

(** What an entry binds, when no key is bound twice: its key, and for an array its elements and their number. *)
Lemma entry_bound sec a k v b :
  let doc := a ++ Entry k v :: b in
  let key := last_section sec a ++ k in
  let m : gmap bytes bytes := list_to_map (bindings sec doc) in
  NoDup (bindings sec doc).*1 ->
  m !! key = Some v /\
  (is_array v -> m !! (key ++ suffix) = Some (dec (Z.of_nat (length (elements v)))) /\
    forall i x, elements v !! i = Some x -> m !! (key ++ dec (Z.of_nat i)) = Some x).
Proof.
  intros doc key m Hd.
  assert (Hin : forall p x, (p, x) ∈ (key, v) :: array_bindings key v -> m !! p = Some x).
  { intros p x Hp. apply elem_of_list_to_map_1; [done|]. unfold doc. rewrite bindings_app. cbn [bindings].
    apply elem_of_app. right. apply elem_of_app. by left. }
  split; [apply Hin, list_elem_of_here|]. intros Ha.
  assert (Hp : forall p x, (p, x) ∈ numbered key 0 (elements v) ++
    [(key ++ suffix, dec (Z.of_nat (length (elements v))))] -> m !! p = Some x).
  { intros p x Hp. apply Hin, list_elem_of_further. unfold array_bindings. by rewrite decide_True. }
  split.
  - apply Hp, elem_of_app. right. by apply list_elem_of_singleton.
  - intros i x Hi. apply Hp, elem_of_app. left. by apply (numbered_elem _ 0).
Qed.

(** Whenever [realloc] moves the block in which the key of an entry is built, [parseLine] goes on
    with the block that is freed: the result of [sdscatlen] is dropped. *)
Theorem conf_key_used_after_free moves s l fr k v :
  says l (Entry k v) -> Forall plain l ->
  snd (sdsMakeRoomFor moves (sdsnewlen (first_key s)) (blen k)) = true ->
  parseLine moves s (mk_sds l fr) = None.
Proof.
  intros Hs Hp Hm. destruct (parseLine_entry moves s l fr k v Hs Hp) as [ln' ->].
  unfold sdscatlen_dropped, sdscatlen. destruct (sdsMakeRoomFor _ _ _) as [key moved]. cbn in Hm. by subst moved.
Qed.

(** ** At a concrete file *)

Section sample.
Open Scope string_scope.

(** A comment, a section, an array over two lines, an entry, and text without its newline. *)
Definition sample_lines : list line :=
  [mk_line [] (chars "# demo"); mk_line [] (chars "[srv]");
   mk_line [chars "ports = 10,"] (chars " 20"); mk_line [] (chars "name: box")].
Definition sample_doc : list item :=
  [Skip; Section_ (chars "srv"); Entry (chars "ports") (chars "10,20"); Entry (chars "name") (chars "box")].

End sample.

Lemma sample_ok : Forall line_ok sample_lines.
Proof. repeat constructor; try done; by intros ?. Qed.

Lemma sample_says : Forall2 meaning sample_lines sample_doc.
Proof.
  unfold sample_lines, sample_doc, meaning.
  repeat (apply Forall2_cons; split); [apply says_comment| | | |done].
  - by apply says_section.
  - apply (says_entry _ _ EQUAL_CHAR0); try done; [by intros []|by apply (bool_decide_unpack _)|by left].
  - apply (says_entry _ _ EQUAL_CHAR1); try done; [by intros []|by apply (bool_decide_unpack _)|].
    right. split_and!; [done|by apply (bool_decide_unpack _)..].
Qed.

Lemma conf_key_used_after_free_witness :
  parseLine (fun _ _ => true) (mk_state ∅ DEFAULT_FIRST_KEY) (mk_sds (chars "a=b") 0) = None.
Proof.
  apply (conf_key_used_after_free _ _ _ _ (chars "a") (chars "b")).
  - apply (says_entry _ _ EQUAL_CHAR0); try done; [by intros []|by apply (bool_decide_unpack _)|by left].
  - by repeat constructor.
  - reflexivity.
Defined.

End ConfRead.
