(* ===== verification/AofReplay.v ===== *)
(** * Replaying an append-only file: redis-replay-aof.c of redis-tool

    Reads the commands of a redis append-only file, which a server may still be
    writing (to the first time it meets the end: see [stream]), and sends them to another server, with the prefixes of keys replaced,
    keys filtered and MSET taken apart.  Outcome.v has the results of a run: a value,
    undefined behaviour, or out of fuel, which is a loop that still waits.  A
    string of sds.c is the list of its bytes; the connection of hiredis is the
    class [Redis]. *)

From Stdlib Require Import Ascii String.
From S2P Require Import Prelude CText Outcome.
Import CText.

(** ** The connection *)

(** The two calls of hiredis, with their result codes. *)
Class Redis (R : Type) := {
  redisAppendCommandArgv : R -> list bytes -> Z * R;
  redisGetReply : R -> Z * R
}.

Module Aof.

Definition REDIS_OK : Z := 0.
Definition REDIS_ERR : Z := -1.
Definition MAX_LONG_LEN : Z := 128.
Definition CMD_LONG : bool := true.
Definition ARG_LONG : bool := false.

Definition CMD_SUPPORTED : list bytes := map chars
  ["MSET"; "MSETNX"; "DEL"; "SET"; "HMSET"; "EXPIRE"; "EXPIREAT"; "PERSIST"; "PEXPIRE"; "PEXPIREAT"; "DUMP";
   "EXISTS"; "PTTL"; "RESTORE"; "TTL"; "TYPE"; "APPEND"; "BITCOUNT"; "DECR"; "DECRBY"; "GET"; "GETBIT";
   "GETRANGE"; "GETSET"; "INCR"; "INCRBY"; "INCRBYFLOAT"; "MGET"; "PSETEX"; "SETBIT"; "SETEX"; "SETNX";
   "SETRANGE"; "STRLEN"; "HDEL"; "HEXISTS"; "HGET"; "HGETALL"; "HINCRBY"; "HINCRBYFLOAT"; "HKEYS"; "HLEN";
   "HMGET"; "HSET"; "HSETNX"; "HVALS"; "LINDEX"; "LINSERT"; "LLEN"; "LPOP"; "LPUSH"; "LPUSHX"; "LRANGE";
   "LREM"; "LSET"; "LTRIM"; "RPOP"; "RPUSH"; "RPUSHX"; "SADD"; "SCARD"; "SISMEMBER"; "SMEMBERS"; "SPOP";
   "SRANDMEMBER"; "SREM"; "ZADD"; "ZCARD"; "ZCOUNT"; "ZINCRBY"; "ZRANGE"; "ZRANGEBYSCORE"; "ZRANK"; "ZREM";
   "ZREMRANGEBYRANK"; "ZREMRANGEBYSCORE"; "ZREVRANGE"; "ZREVRANGEBYSCORE"; "ZREVRANK"; "ZSCORE"]%string.

(** ** The file *)

(** The bytes that are left in the file, what the server appends each time the
    reader has met the end, and the end-of-file indicator of stdio: once it is
    set no read returns a byte, until [clearerr], which the program never calls.
    What the file grows by before the reader first meets its end is in [avail]. *)
Record stream := mk_file { avail : bytes; later : list bytes; eof : bool }.

(** A file whose end has not been met. *)
Abbreviation mk_stream b l := (mk_file b l false).

Definition wait (s : stream) : stream :=
  match later s with [] => s | c :: l => mk_file (avail s ++ c) l (eof s) end.

(** The end of the file is met. *)
Definition meet_end (s : stream) : stream := wait (mk_file [] (later s) true).

(** At most [n] bytes, up to a newline. *)
Fixpoint get_line (n : nat) (b : bytes) : bytes * bytes :=
  match n, b with
  | S n', c :: b' => if c =? 10 then ([c], b') else let '(l, r) := get_line n' b' in (c :: l, r)
  | _, _ => ([], b)
  end.

Definition ends_line (l : bytes) : bool := match last l with Some c => c =? 10 | None => false end.

(** nil when the end is met before a byte; a line that stops at the end sets the indicator too. *)
Definition fgets (s : stream) (n : Z) : option bytes * stream :=
  if n <=? 1 then (Some [], s)
  else if eof s then (None, wait s)
  else
    let '(l, r) := get_line (Z.to_nat (n - 1)) (avail s) in
    let at_end := match r with [] => (blen l <? n - 1) && negb (ends_line l) | _ => false end in
    (match l with [] => None | _ => Some l end,
     if at_end then meet_end s else mk_stream r (later s)).

Definition fread (s : stream) (n : Z) : bytes * stream :=
  if n <=? 0 then ([], s)
  else if eof s then ([], wait s)
  else (take (Z.to_nat n) (avail s),
        if blen (avail s) <? n then meet_end s else mk_stream (drop (Z.to_nat n) (avail s)) (later s)).

(** ** Reading numbers and strings *)

Definition consume_new_line (buf : bytes) : Z :=
  match buf with 13 :: 10 :: _ => REDIS_OK | _ => REDIS_ERR end.

(** The loop of [safe_read_long]: result code, number, file. *)
Fixpoint read_long_loop (fuel : nat) (s : stream) (prefix : Z) (return_immediately : bool)
    (buf : bytes) (eptr remain retry : Z) : res (Z * Z * stream) :=
  match fuel with
  | O => Unfinished
  | S f =>
      let '(line, s) := fgets s remain in
      match line with
      | None =>
          if (retry =? 1) && return_immediately then Ok (REDIS_OK, 0, s)
          else if 0 <? remain then read_long_loop f s prefix return_immediately buf eptr remain (retry + 1)
          else Ok (REDIS_ERR, 0, s)
      | Some line =>
          buf ← defined (wr buf eptr (line ++ [0]));
          c ← defined (head buf);
          if negb (c =? prefix) then Ok (REDIS_ERR, 0, s)
          else
            let '(len, n) := strtol (c_string (tail buf)) in
            let eptr := 1 + n in
            if consume_new_line (drop (Z.to_nat eptr) buf) =? REDIS_OK then Ok (REDIS_OK, len, s)
            else
              let remain := remain - eptr in
              if 0 <? remain then read_long_loop f s prefix return_immediately buf eptr remain (retry + 1)
              else Ok (REDIS_ERR, 0, s)
      end
  end.

Definition safe_read_long (fuel : nat) (s : stream) (prefix : Z) (return_immediately : bool) : res (Z * Z * stream) :=
  read_long_loop fuel s prefix return_immediately (replicate (Z.to_nat MAX_LONG_LEN) 0) 0 MAX_LONG_LEN 1.

(** The loop that fills the buffer of [safe_read_string]. *)
Fixpoint fread_loop (fuel : nat) (s : stream) (buf : bytes) (eptr remain : Z) : res (bytes * stream) :=
  match fuel with
  | O => Unfinished
  | S f =>
      let '(data, s) := fread s remain in
      buf ← defined (wr buf eptr data);
      let remain := remain - blen data in
      if 0 <? remain then fread_loop f s buf (eptr + blen data) remain else Ok (buf, s)
  end.

(** [strncmp] of a string and a block: are they equal up to the length of the string?  Nil when the
    comparison leaves the block. *)
Fixpoint strncmp_eq (p b : bytes) : option bool :=
  match p, b with
  | [], _ => Some true
  | _, [] => None
  | x :: p', y :: b' => if x =? y then if x =? 0 then Some true else strncmp_eq p' b' else Some false
  end.

(** The parts of [replay_ctx] that decide what is sent, the counters, the file and the connection. *)
Record replay_ctx (R : Type) := mk_ctx {
  processed_cmd : Z; skipped_cmd : Z; fp : stream; pipe_cmds : Z; redis : R;
  filter : option bytes; prefix : option bytes; replace_prefix : option bytes
}.

Arguments mk_ctx {R}.
Arguments processed_cmd {R}.
Arguments skipped_cmd {R}.
Arguments fp {R}.
Arguments pipe_cmds {R}.
Arguments redis {R}.
Arguments filter {R}.
Arguments prefix {R}.
Arguments replace_prefix {R}.

Definition with_fp {R} (c : replay_ctx R) (s : stream) : replay_ctx R :=
  mk_ctx (processed_cmd c) (skipped_cmd c) s (pipe_cmds c) (redis c) (filter c) (prefix c) (replace_prefix c).
Definition with_redis {R} (c : replay_ctx R) (r : R) : replay_ctx R :=
  mk_ctx (processed_cmd c) (skipped_cmd c) (fp c) (pipe_cmds c) r (filter c) (prefix c) (replace_prefix c).
Definition add_skipped {R} (c : replay_ctx R) (n : Z) : replay_ctx R :=
  mk_ctx (processed_cmd c) (skipped_cmd c + n) (fp c) (pipe_cmds c) (redis c) (filter c) (prefix c) (replace_prefix c).
Definition add_processed {R} (c : replay_ctx R) (n : Z) : replay_ctx R :=
  mk_ctx (processed_cmd c + n) (skipped_cmd c) (fp c) (pipe_cmds c) (redis c) (filter c) (prefix c) (replace_prefix c).

(** ** Commands *)

(** [strcasecmp] and [strncasecmp] answer 0. *)
Definition tolower (c : Z) : Z := if (65 <=? c) && (c <=? 90) then c + 32 else c.
Definition strcaseeq (a b : bytes) : bool := bool_decide (map tolower (c_string a) = map tolower (c_string b)).
Definition strncaseeq (a b : bytes) (n : Z) : bool :=
  bool_decide (take (Z.to_nat n) (map tolower (c_string a)) = take (Z.to_nat n) (map tolower (c_string b))).

Definition supported (cmd : bytes) : bool := existsb (fun c => strcaseeq c cmd) CMD_SUPPORTED.

(** What [*argv] is before a call of [get_redis_command]: nil, or the array of the last command, which is
    freed. *)
Inductive pointer := Nil | Freed.

Definition safe_free_args (argvs : pointer) : res unit := match argvs with Nil => Ok tt | Freed => Undefined end.

(** Which arguments are keys: whether the command is normal, and the step. *)
Definition key_rule (cmd : bytes) : bool * Z :=
  if strcaseeq cmd (chars "SELECT") then (false, 0)
  else if strcaseeq cmd (chars "MSET") then (false, 2)
  else if strcaseeq cmd (chars "MSETNX") then (false, 2)
  else if strcaseeq cmd (chars "DEL") then (false, 1)
  else (true, 0).

Definition is_key (rule : bool * Z) (j : Z) : bool :=
  let '(normal, step) := rule in
  if normal : bool then j =? 1 else if step =? 0 then false else (j + 1) mod step =? 0.

Section commands.
Context {R : Type} `{Redis R} (malloc : malloc_fun) (fuel : nat).
Implicit Types c : replay_ctx R.

(** Result code, string, file. *)
Definition safe_read_string (prefix replace_prefix : option bytes) (s : stream) (key : bool) : res (Z * option bytes * stream) :=
  '(ret, len, s) ← safe_read_long fuel s 36 ARG_LONG;
  if ret =? REDIS_ERR then Ok (REDIS_ERR, None, s)
  else match malloc (u8 (len + 2)) with
  | None => Ok (REDIS_ERR, None, s)
  | Some buf =>
      '(buf, s) ← fread_loop fuel s buf 0 (len + 2);
      if (len <? 0) || (blen buf <? len + 2) then Undefined
      else if consume_new_line (drop (Z.to_nat len) buf) =? REDIS_ERR then Ok (REDIS_ERR, None, s)
      else
        let value := take (Z.to_nat len) buf in
        match prefix, replace_prefix with
        | Some p, Some r =>
            if key then
              same ← defined (strncmp_eq p buf);
              if same : bool then
                if len <? blen p then Undefined
                else Ok (REDIS_OK, Some (r ++ drop (length p) value), s)
              else Ok (REDIS_OK, Some value, s)
            else Ok (REDIS_OK, Some value, s)
        | _, _ => Ok (REDIS_OK, Some value, s)
        end
  end.

(** The arguments from number [j] on: nil when one cannot be read. *)
Fixpoint read_args (n : nat) (prefix replace_prefix : option bytes) (s : stream) (rule : bool * Z) (j : Z)
  : res (option (list bytes) * stream) :=
  match n with
  | O => Ok (Some [], s)
  | S n' =>
      '(ret, arg, s) ← safe_read_string prefix replace_prefix s (is_key rule j);
      if negb (ret =? REDIS_OK) then Ok (None, s)
      else
        arg ← defined arg;
        '(args, s) ← read_args n' prefix replace_prefix s rule (j + 1);
        Ok (option_map (cons arg) args, s)
  end.

(** Result code, [argc], [argv] and the file; [argv] is the array the caller holds. *)
Definition get_redis_command (prefix replace_prefix : option bytes) (s : stream) (argv : pointer)
  : res (Z * Z * option (list bytes) * stream) :=
  let error s := '() ← safe_free_args argv; Ok (REDIS_ERR, 0, None, s) in
  '(ret, len, s) ← safe_read_long fuel s 42 CMD_LONG;
  if negb (ret =? REDIS_OK) then error s
  else if len =? 0 then Ok (REDIS_OK, 0, None, s)
  else match malloc (u8 (len * 8)) with
  | None => error s
  | Some tmp =>
      '(ret, arg, s) ← safe_read_string prefix replace_prefix s false;
      if blen tmp <? 8 * Z.max 1 len then Undefined
      else if negb (ret =? REDIS_OK) then error s
      else
        cmd ← defined arg;
        '(args, s) ← read_args (Z.to_nat (len - 1)) prefix replace_prefix s (key_rule cmd) 1;
        match args with
        | None => error s
        | Some args => Ok (REDIS_OK, to_n4 len, Some (cmd :: args), s)
        end
  end.

(** Does the loop of [check_aof] end at the end of the file, or at a bad command? *)
Fixpoint check_loop (rounds : nat) c (argv : pointer) : res (bool * replay_ctx R) :=
  match rounds with
  | O => Unfinished
  | S n =>
      '(ret, argc, args, s) ← get_redis_command (prefix c) (replace_prefix c) (fp c) argv;
      let c := with_fp c s in
      if negb (ret =? REDIS_OK) then Ok (false, c)
      else match args with
      | None => Ok (true, c)
      | Some args =>
          cmd ← defined (head args);
          check_loop n (if supported cmd then add_processed c 1 else add_skipped c 1) Freed
      end
  end.

Definition check_aof (rounds : nat) c : res (bool * replay_ctx R) := check_loop rounds c Nil.

(** The parts of an MSET from argument [j] on: whether they were all sent, and how many were. *)
Fixpoint mset_loop (n : nat) c (args : list bytes) (argc j cmds : Z) : res (bool * replay_ctx R * Z) :=
  match n with
  | O => Unfinished
  | S n' =>
      if argc <=? j then Ok (true, c, cmds)
      else match malloc 24, malloc 24 with
      | Some _, Some _ =>
          name ← defined (head args);
          key ← defined (args !! Z.to_nat j);
          value ← defined (args !! Z.to_nat (j + 1));
          let '(ret, r) := redisAppendCommandArgv (redis c) [tail name; key; value] in
          let c := with_redis c r in
          if negb (ret =? REDIS_OK) then Ok (false, c, cmds)
          else mset_loop n' c args argc (j + 2) (cmds + 1)
      | _, _ => Ok (false, c, cmds)
      end
  end.

(** One command of a batch: whether it was all sent, and how many were sent so far. *)
Definition send_command c (args : list bytes) (argc cmds : Z) : res (bool * replay_ctx R * Z) :=
  cmd ← defined (head args);
  let filtered :=
    match filter c, args !! 1%nat with
    | Some flt, Some key => (1 <? argc) && negb (strncaseeq flt key (blen flt))
    | _, _ => false
    end in
  if filtered then Ok (true, add_skipped c 1, cmds)
  else if negb (supported cmd) then Ok (true, add_skipped c 1, cmds)
  else if strcaseeq cmd (chars "MSET") || strcaseeq cmd (chars "MSETNX")
  then mset_loop (S (length args)) c args argc 1 cmds
  else match malloc (u8 (argc * 8)) with
  | None => Ok (false, c, cmds)
  | Some _ =>
      let '(ret, r) := redisAppendCommandArgv (redis c) (take (Z.to_nat argc) args) in
      let c := with_redis c r in
      if negb (ret =? REDIS_OK) then Ok (false, c, cmds) else Ok (true, c, cmds + 1)
  end.

(** The inner loop of [process_aof]: whether the program goes on, the commands sent, and [argv]. *)
Fixpoint batch_loop (rounds : nat) c (argv : pointer) (cmds : Z) : res (bool * replay_ctx R * Z * pointer) :=
  match rounds with
  | O => Unfinished
  | S n =>
      if pipe_cmds c <=? cmds then Ok (true, c, cmds, argv)
      else
        '(ret, argc, args, s) ← get_redis_command (prefix c) (replace_prefix c) (fp c) argv;
        let c := with_fp c s in
        if negb (ret =? REDIS_OK) then Ok (false, c, cmds, Nil)
        else match args with
        | None => Ok (true, c, cmds, Nil)
        | Some args =>
            '(sent, c, cmds) ← send_command c args argc cmds;
            if negb (sent : bool) then Ok (false, c, cmds, Freed) else batch_loop n c Freed cmds
        end
  end.

Fixpoint reply_loop (n : nat) (r : R) : bool * R :=
  match n with
  | O => (true, r)
  | S n' => let '(ret, r) := redisGetReply r in if negb (ret =? REDIS_OK) then (false, r) else reply_loop n' r
  end.

(** One round of [process_aof]: whether the program goes on. *)
Definition process_round (rounds : nat) c (argv : pointer) : res (bool * replay_ctx R * pointer) :=
  '(go_on, c, cmds, argv) ← batch_loop rounds c argv 0;
  if negb (go_on : bool) then Ok (false, c, argv)
  else
    let '(answered, r) := reply_loop (Z.to_nat cmds) (redis c) in
    let c := with_redis c r in
    if negb answered then Ok (false, c, argv) else Ok (true, add_processed c cmds, argv).

(** The state after some rounds of [process_aof], which never returns but for an error. *)
Fixpoint process_rounds (n : nat) (rounds : nat) c (argv : pointer) : res (bool * replay_ctx R * pointer) :=
  match n with
  | O => Ok (true, c, argv)
  | S n' =>
      '(go_on, c, argv) ← process_round rounds c argv;
      if negb (go_on : bool) then Ok (false, c, argv) else process_rounds n' rounds c argv
  end.

Definition process_aof (n rounds : nat) c := process_rounds n rounds c Nil.

End commands.

End Aof.
