(* ===== verification/AofReplaySpec.v ===== *)
(** * What replaying an append-only file sends

    [text] is the file of a list of commands; [out] what is sent for a command.  The
    reading lemmas take the text of a command back to its words; [process_aof] then
    sends what [out] says of the commands the file has when its end is first met,
    and nothing that is appended after that. *)

From Stdlib Require Import Ascii String.
From S2P Require Import Prelude CText Outcome AofReplay.
Import CText Aof.

(** What the program relies on: a command is appended and a reply comes, in order. *)
Class RedisLaws (R : Type) `{Redis R} (sent : R -> list (list bytes)) := {
  append_sends r c :
    fst (redisAppendCommandArgv r c) = REDIS_OK /\ sent (snd (redisAppendCommandArgv r c)) = sent r ++ [c];
  reply_keeps r : fst (redisGetReply r) = REDIS_OK /\ sent (snd (redisGetReply r)) = sent r
}.

Module AofSpec.

(** ** The text of commands *)

Definition crlf : bytes := [13; 10].
Definition header (c : Z) (n : nat) : bytes := c :: dec (Z.of_nat n) ++ crlf.
Definition bulk (a : bytes) : bytes := header 36 (length a) ++ a ++ crlf.
Definition command_text (cmd : list bytes) : bytes := header 42 (length cmd) ++ concat (map bulk cmd).
Definition text (cmds : list (list bytes)) : bytes := concat (map command_text cmds).

(** ** What is sent *)

Definition is_mset (name : bytes) : bool := strcaseeq name (chars "MSET") || strcaseeq name (chars "MSETNX").

(** Is argument [j] of the command a key? *)
Definition key_at (name : bytes) (j : Z) : bool :=
  if strcaseeq name (chars "SELECT") then false
  else if is_mset name then Z.odd j
  else if strcaseeq name (chars "DEL") then true else j =? 1.

Section sending.
Context (flt pre rep : option bytes).

Definition rename (key : bool) (a : bytes) : bytes :=
  match pre, rep with
  | Some p, Some r => if key && bool_decide (p `prefix_of` a) then r ++ drop (length p) a else a
  | _, _ => a
  end.

Fixpoint rename_from (name : bytes) (j : Z) (args : list bytes) : list bytes :=
  match args with [] => [] | a :: l => rename (key_at name j) a :: rename_from name (j + 1) l end.

Definition renamed (cmd : list bytes) : list bytes :=
  match cmd with [] => [] | name :: args => name :: rename_from name 1 args end.

Fixpoint pairs (l : list bytes) : list (bytes * bytes) :=
  match l with k :: v :: l' => (k, v) :: pairs l' | _ => [] end.

(** Commands that are not sent: of another key, or not supported. *)
Definition skipped (cmd : list bytes) : bool :=
  match renamed cmd with
  | [] => true
  | name :: args =>
      match flt, args with Some f, key :: _ => negb (strncaseeq f key (blen f)) | _, _ => false end
      || negb (supported name)
  end.

Definition out (cmd : list bytes) : list (list bytes) :=
  match renamed cmd with
  | [] => []
  | name :: args =>
      if skipped cmd then []
      else if is_mset name then map (fun '(k, v) => [tail name; k; v]) (pairs args) else [name :: args]
  end.

End sending.

(** A command of a server: it has a name, an MSET has values for its keys, and its sizes are
    those a server writes. *)
Definition command_ok (cmd : list bytes) : Prop :=
  (exists name args, cmd = name :: args /\ (is_mset name = true -> Nat.even (length args) = true)) /\
  Z.of_nat (length cmd) < 2 ^ 31 /\ Forall (fun a => blen a + 2 < 2 ^ 63) cmd.

(** Prefixes are text, without carriage returns. *)
Definition prefix_ok (p : option bytes) : Prop :=
  match p with Some p => Forall (fun x => x <> 0 /\ x <> 13) p | None => True end.

(** A [malloc] that does not fail. *)
Definition malloc_serves (malloc : malloc_fun) : Prop :=
  forall n, 0 <= n -> exists b, malloc n = Some b /\ blen b = n.

(** ** Reading lines and numbers *)

Lemma get_line_newline n a b : 10 ∉ a -> (length a < n)%nat -> get_line n (a ++ 10 :: b) = (a ++ [10], b).
Proof.
  revert n. induction a as [|x a IH]; intros [|n] Ha Hn; cbn in *; try lia; [done|].
  apply not_elem_of_cons in Ha as [? Ha]. destruct (Z.eqb_spec x 10); [done|]. by rewrite IH by (done || lia).
Qed.

Lemma get_line_length n b : (length (fst (get_line n b)) <= n)%nat.
Proof.
  revert b. induction n as [|n IH]; intros [|x b]; cbn; try lia. destruct (x =? 10); [cbn; lia|].
  specialize (IH b). destruct (get_line n b). cbn in *. lia.
Qed.

Lemma get_line_head n x b : (n <> 0)%nat -> exists l r, get_line n (x :: b) = (x :: l, r).
Proof. destruct n as [|n]; [done|]. cbn. destruct (x =? 10); [eauto|]. destruct (get_line n b). eauto. Qed.

Lemma digits_no c ds : Forall is_digit ds -> ~ is_digit c -> c ∉ ds.
Proof. rewrite Forall_forall. intros H Hc Hi. by apply Hc, H. Qed.

Lemma c_string_stop a b : Forall (.≠ 0) a -> c_string (a ++ 0 :: b) = a.
Proof.
  induction 1 as [|x a Hx _ IH]; [done|]. cbn. destruct (Z.eqb_spec x 0); [done|]. by rewrite IH.
Qed.

(** A line written at the start of the buffer. *)
Lemma wr_line line : (length line < 128)%nat ->
  exists z, wr (replicate (Z.to_nat MAX_LONG_LEN) 0) 0 (line ++ [0]) = Some (line ++ 0 :: z).
Proof.
  intros H. replace (Z.to_nat MAX_LONG_LEN) with (length (line ++ [0%Z]) + (127 - length line))%nat
    by (rewrite length_app; change (Z.to_nat MAX_LONG_LEN) with 128%nat; cbn; lia).
  rewrite replicate_add, wr_head.
  - rewrite <- app_assoc. eauto.
  - unfold blen. by rewrite length_replicate.
Qed.

Lemma header_length c n : 0 <= Z.of_nat n < 2 ^ 63 -> (length (header c n) < 128)%nat.
Proof.
  intros Hn. destruct (dec_digits (Z.of_nat n)) as (_ & Hl & _); [lia|].
  assert (Z.log2 (Z.of_nat n) < 63).
  { destruct n as [|n]; [done|]. apply Z.log2_lt_pow2; lia. }
  unfold header. cbn [length]. rewrite length_app. cbn [length crlf]. lia.
Qed.

Lemma fgets_line a b ltr n :
  10 ∉ a -> blen a + 1 < n -> fgets (mk_stream (a ++ 10 :: b) ltr) n = (Some (a ++ [10]), mk_stream b ltr).
Proof.
  intros Ha Hn. pose proof (blen_nonneg a). unfold fgets. cbn [avail later eof]. destruct (Z.leb_spec n 1); [lia|].
  rewrite get_line_newline by (done || unfold blen in *; lia).
  unfold ends_line. rewrite last_snoc, andb_false_r.
  replace (match b with [] => false | _ :: _ => false end) with false by by destruct b. by destruct a.
Qed.

Lemma header_line c n b : header c n ++ b = (c :: dec (Z.of_nat n) ++ [13]) ++ 10 :: b.
Proof. unfold header, crlf. cbn. by rewrite <- !app_assoc. Qed.

Lemma header_no_newline c n : c <> 10 -> 10 ∉ c :: dec (Z.of_nat n) ++ [13].
Proof.
  intros Hc. destruct (dec_digits (Z.of_nat n)) as (_ & _ & Hd & _); [lia|].
  rewrite not_elem_of_cons, not_elem_of_app, list_elem_of_singleton. split_and!; [done| |done].
  apply digits_no; [done|]. rewrite digit_range. lia.
Qed.

Lemma safe_read_long_text fuel c n rest ltr imm :
  (fuel <> 0)%nat -> 0 <= Z.of_nat n < 2 ^ 63 -> c <> 10 ->
  safe_read_long fuel (mk_stream (header c n ++ rest) ltr) c imm = Ok (REDIS_OK, Z.of_nat n, mk_stream rest ltr).
Proof.
  intros Hf Hn Hc. destruct fuel as [|f]; [done|]. pose proof (header_length c n Hn) as Hl.
  destruct (dec_digits (Z.of_nat n)) as (_ & _ & Hd & _); [lia|].
  unfold safe_read_long. cbn [read_long_loop]. rewrite header_line, fgets_line; [|by apply header_no_newline|].
  2:{ unfold header, crlf in Hl. unfold blen, MAX_LONG_LEN. cbn [length] in *. rewrite length_app in *.
      cbn [length] in *. lia. }
  pose proof (header_line c n []) as E. rewrite app_nil_r in E. rewrite <- E.
  destruct (wr_line (header c n) Hl) as [z ->]. cbn [later mbind res_bind defined].
  change (head (header c n ++ 0 :: z)) with (Some c). cbn [defined mbind res_bind]. rewrite Z.eqb_refl. cbn [negb].
  change (tail (header c n ++ 0 :: z)) with ((dec (Z.of_nat n) ++ crlf) ++ 0 :: z).
  rewrite c_string_stop.
  2:{ apply Forall_app. split; [|by repeat constructor]. eapply Forall_impl; [exact Hd|]. intros x Hx.
      apply digit_range in Hx. lia. }
  rewrite strtol_dec; [|done|cbn; rewrite digit_range; lia].
  replace (drop (Z.to_nat (1 + blen (dec (Z.of_nat n)))) (header c n ++ 0 :: z)) with (crlf ++ 0 :: z).
  2:{ unfold header, blen. replace (Z.to_nat _) with (S (length (dec (Z.of_nat n)))) by lia. cbn [app drop skipn].
      rewrite <- app_assoc. by rewrite drop_app_length. }
  done.
Qed.

(** ** Reading strings and commands *)

Lemma fread_loop_text f data rest ltr buf :
  data <> [] -> blen buf = blen data ->
  fread_loop (S f) (mk_stream (data ++ rest) ltr) buf 0 (blen data) = Ok (data, mk_stream rest ltr).
Proof.
  intros Hd Hb. cbn [fread_loop]. unfold fread. cbn [avail later eof].
  assert (0 < blen data) as H0 by (destruct data; [done|unfold blen; cbn; lia]).
  destruct (Z.leb_spec (blen data) 0); [lia|].
  destruct (Z.ltb_spec (blen (data ++ rest)) (blen data)) as [Hl|_].
  { rewrite blen_app in Hl. pose proof (blen_nonneg rest). lia. }
  replace (Z.to_nat (blen data)) with (length data) by (unfold blen; lia). rewrite take_app_length, drop_app_length.
  pose proof (wr_head buf [] data (eq_sym Hb)) as Hw. rewrite !app_nil_r in Hw. rewrite Hw. cbn [defined mbind res_bind].
  destruct (Z.ltb_spec 0 (blen data - blen data)); [lia|done].
Qed.

Lemma strncmp_prefix p a :
  Forall (fun x => x <> 0 /\ x <> 13) p -> strncmp_eq p (a ++ crlf) = Some (bool_decide (p `prefix_of` a)).
Proof.
  intros Hp. revert a. induction Hp as [|x p [H0 H13] _ IH]; intros a.
  { rewrite bool_decide_true by apply prefix_nil. by destruct a. }
  destruct a as [|y a]; cbn.
  - destruct (Z.eqb_spec x 13); [done|]. rewrite bool_decide_false; [done|]. by intros ?%prefix_nil_inv.
  - destruct (Z.eqb_spec x y) as [->|Hxy].
    + destruct (Z.eqb_spec y 0); [done|]. rewrite IH. f_equal. apply bool_decide_ext. split.
      * intros ?. by apply prefix_cons.
      * by intros ?%prefix_cons_inv_2.
    + rewrite bool_decide_false; [done|]. by intros ?%prefix_cons_inv_1.
Qed.

Section reading.
Context (malloc : malloc_fun) (fuel : nat) (pre rep : option bytes).
Context (Hmalloc : malloc_serves malloc) (Hfuel : fuel <> 0%nat) (Hpre : prefix_ok pre).

Lemma malloc_at n : 0 <= n < U8_MOD -> exists b, malloc (u8 n) = Some b /\ blen b = n.
Proof. intros Hn. rewrite u8_id by exact Hn. apply Hmalloc. lia. Qed.

Lemma safe_read_string_text a rest ltr key :
  blen a + 2 < 2 ^ 63 ->
  safe_read_string malloc fuel pre rep (mk_stream (bulk a ++ rest) ltr) key =
  Ok (REDIS_OK, Some (rename pre rep key a), mk_stream rest ltr).
Proof.
  intros Ha. pose proof (blen_nonneg a) as H0. unfold safe_read_string, bulk. rewrite <- app_assoc.
  rewrite safe_read_long_text by (done || unfold blen in Ha; lia). cbn [mbind res_bind].
  change (REDIS_OK =? REDIS_ERR) with false. cbn match. fold (blen a).
  destruct (malloc_at (blen a + 2)) as (b & -> & Hb); [unfold U8_MOD; lia|].
  assert (Hl : blen a + 2 = blen (a ++ crlf)) by by rewrite blen_app.
  destruct fuel as [|f] eqn:Ef; [done|]. rewrite Hl, fread_loop_text; [|by destruct a|congruence]. cbn [mbind res_bind].
  destruct (Z.ltb_spec (blen a) 0); [lia|]. destruct (Z.ltb_spec (blen (a ++ crlf)) (blen (a ++ crlf))); [lia|].
  cbn [orb]. replace (Z.to_nat (blen a)) with (length a) by (unfold blen; lia).
  rewrite drop_app_length, take_app_length.
  change (consume_new_line crlf =? REDIS_ERR) with false. cbn match. unfold rename.
  destruct pre as [p|]; [|done]. destruct rep as [r|]; [|done]. destruct key; [|done]. cbn [andb].
  rewrite strncmp_prefix by done. cbn [defined mbind res_bind].
  destruct (bool_decide_reflect (p `prefix_of` a)) as [Hp|]; [|done].
  apply prefix_length in Hp as Hpl. unfold blen. by destruct (Z.ltb_spec (Z.of_nat (length a)) (Z.of_nat (length p))); [lia|].
Qed.

Lemma is_key_at name j : 1 <= j -> is_key (key_rule name) j = key_at name j.
Proof.
  intros Hj. unfold key_rule, key_at, is_mset.
  assert (Ho : ((j + 1) mod 2 =? 0) = Z.odd j).
  { rewrite Zmod_odd, Z.odd_add. by destruct (Z.odd j). }
  destruct (strcaseeq name (chars "SELECT")); [done|]. destruct (strcaseeq name (chars "MSET")); [apply Ho|].
  destruct (strcaseeq name (chars "MSETNX")); [apply Ho|].
  destruct (strcaseeq name (chars "DEL")); [|done]. cbn. by rewrite Z.mod_1_r.
Qed.

Lemma read_args_text name args j rest ltr :
  1 <= j -> Forall (fun a => blen a + 2 < 2 ^ 63) args ->
  read_args malloc fuel (length args) pre rep (mk_stream (concat (map bulk args) ++ rest) ltr) (key_rule name) j =
  Ok (Some (rename_from pre rep name j args), mk_stream rest ltr).
Proof.
  intros Hj Ha. revert j Hj. induction Ha as [|a args Ha _ IH]; intros j Hj; [done|].
  cbn [length read_args map concat rename_from]. rewrite <- app_assoc, safe_read_string_text, is_key_at by done.
  cbn [mbind res_bind defined]. change (negb (REDIS_OK =? REDIS_OK)) with false. cbn match.
  by rewrite IH by lia.
Qed.

Lemma get_redis_command_text cmd rest ltr argv :
  command_ok cmd ->
  get_redis_command malloc fuel pre rep (mk_stream (command_text cmd ++ rest) ltr) argv =
  Ok (REDIS_OK, Z.of_nat (length cmd), Some (renamed pre rep cmd), mk_stream rest ltr).
Proof.
  intros ((name & args & -> & _) & Hlen & Ha). apply Forall_cons in Ha as [Hn Ha].
  unfold get_redis_command, command_text. rewrite <- app_assoc.
  rewrite safe_read_long_text by (done || lia). cbn [mbind res_bind].
  change (negb (REDIS_OK =? REDIS_OK)) with false. cbn match. cbn [length] in *.
  destruct (Z.eqb_spec (Z.of_nat (S (length args))) 0); [lia|].
  destruct (malloc_at (Z.of_nat (S (length args)) * 8)) as (b & -> & Hb); [unfold U8_MOD; lia|].
  cbn [map concat]. rewrite <- app_assoc, safe_read_string_text by done. cbn [mbind res_bind].
  rewrite Z.max_r by lia. destruct (Z.ltb_spec (blen b) (8 * Z.of_nat (S (length args)))); [lia|].
  change (negb (REDIS_OK =? REDIS_OK)) with false. cbn [defined mbind res_bind].
  replace (rename pre rep false name) with name by (unfold rename; by destruct pre, rep).
  replace (Z.to_nat (Z.of_nat (S (length args)) - 1)) with (length args) by lia.
  rewrite read_args_text by done. cbn [mbind res_bind renamed]. by rewrite to_n4_id by lia.
Qed.

(** At the end of the file, and ever after, there is no command. *)
Lemma get_redis_command_end s argv :
  eof s = true \/ avail s = [] ->
  exists s', get_redis_command malloc fuel pre rep s argv = Ok (REDIS_OK, 0, None, s') /\ eof s' = true.
Proof.
  intros Hs. destruct fuel as [|f] eqn:Ef; [done|]. unfold get_redis_command, safe_read_long. cbn [read_long_loop].
  unfold fgets. change (MAX_LONG_LEN <=? 1) with false. cbn match. destruct s as [b ltr e]. cbn [avail later eof] in *.
  destruct e.
  - exists (wait (mk_file b ltr true)). split; [done|]. by destruct ltr.
  - destruct Hs as [Hs|Hs]; [done|]. subst b. exists (meet_end (mk_file [] ltr false)). split; [done|]. by destruct ltr.
Qed.

(** What is no command is an error, and the array of the last command is freed again. *)
Lemma get_redis_command_bad x b ltr :
  x <> 42 -> get_redis_command malloc fuel pre rep (mk_stream (x :: b) ltr) Freed = Undefined.
Proof.
  intros Hx. destruct fuel as [|f] eqn:Ef; [done|]. unfold get_redis_command, safe_read_long. cbn [read_long_loop].
  unfold fgets. cbn [avail later eof]. change (MAX_LONG_LEN <=? 1) with false. cbn match.
  pose proof (get_line_length (Z.to_nat (MAX_LONG_LEN - 1)) (x :: b)) as Hl.
  destruct (get_line_head (Z.to_nat (MAX_LONG_LEN - 1)) x b) as (l' & r & El); [done|]. rewrite El in *.
  cbn [fst] in Hl. destruct (wr_line (x :: l')) as [z ->].
  { change (Z.to_nat (MAX_LONG_LEN - 1)) with 127%nat in Hl. lia. }
  cbn [defined mbind res_bind app head hd_error]. by destruct (Z.eqb_spec x 42).
Qed.

End reading.

(** ** Sending *)

Section sending.
Context {R : Type} `{Redis R} (sent : R -> list (list bytes)) `{!RedisLaws R sent}.
Context (malloc : malloc_fun) (fuel : nat) (Hmalloc : malloc_serves malloc) (Hfuel : fuel <> 0%nat).
Implicit Types c : replay_ctx R.

(** From [c] to [c'] the commands [l] are sent, [n] commands are skipped, and the file is at [s]. *)
Record advanced c c' (l : list (list bytes)) (n : Z) (s : stream) : Prop := {
  ad_sent : sent (redis c') = sent (redis c) ++ l;
  ad_skipped : skipped_cmd c' = skipped_cmd c + n;
  ad_processed : processed_cmd c' = processed_cmd c;
  ad_fp : fp c' = s;
  ad_settings : (pipe_cmds c', filter c', prefix c', replace_prefix c') =
                (pipe_cmds c, filter c, prefix c, replace_prefix c)
}.

Lemma advanced_trans c1 c2 c3 l1 l2 n1 n2 s1 s2 :
  advanced c1 c2 l1 n1 s1 -> advanced c2 c3 l2 n2 s2 -> advanced c1 c3 (l1 ++ l2) (n1 + n2) s2.
Proof.
  intros [E1 E2 E3 _ E5] [F1 F2 F3 F4 F5]. split; [by rewrite F1, E1, app_assoc|lia|lia|done|congruence].
Qed.

Lemma append_ok c cmd :
  exists r, redisAppendCommandArgv (redis c) cmd = (REDIS_OK, r) /\ sent r = sent (redis c) ++ [cmd].
Proof.
  destruct (append_sends (redis c) cmd) as [E1 E2]. destruct (redisAppendCommandArgv (redis c) cmd) as [x r].
  cbn in *. subst. eauto.
Qed.

Lemma mset_loop_sends c cmds name done_ l n :
  Nat.even (length l) = true -> (length l < n)%nat ->
  exists c', mset_loop malloc n c (name :: done_ ++ l) (Z.of_nat (length (name :: done_ ++ l)))
      (1 + Z.of_nat (length done_)) cmds =
    Ok (true, c', cmds + Z.of_nat (length (pairs l))) /\
    advanced c c' (map (fun '(k, v) => [tail name; k; v]) (pairs l)) 0 (fp c).
Proof.
  revert c cmds done_ n. induction l as [l IH] using (well_founded_ind (well_founded_ltof _ length)).
  intros c cmds done_ n He Hn. destruct n as [|n]; [lia|]. cbn [mset_loop].
  destruct l as [|k [|v l]]; [| done |].
  { destruct (Z.leb_spec (Z.of_nat (length (name :: done_ ++ []))) (1 + Z.of_nat (length done_))) as [_|Hle];
      [|rewrite app_nil_r in Hle; cbn in Hle; lia].
    exists c. cbn. split; [do 3 f_equal; lia|]. split; try done; [by rewrite app_nil_r|lia]. }
  destruct (Z.leb_spec (Z.of_nat (length (name :: done_ ++ k :: v :: l))) (1 + Z.of_nat (length done_))) as [Hle|_].
  { cbn in Hle. rewrite length_app in Hle. cbn in Hle. lia. }
  destruct (Hmalloc 24) as (b & -> & _); [lia|]. cbn [head hd_error defined mbind res_bind].
  replace (Z.to_nat (1 + Z.of_nat (length done_))) with (S (length done_)) by lia.
  replace (Z.to_nat (1 + Z.of_nat (length done_) + 1)) with (S (S (length done_))) by lia.
  assert (E1 : (name :: done_ ++ k :: v :: l) !! S (length done_) = Some k) by by apply (list_lookup_middle (name :: done_)).
  assert (E2 : (name :: done_ ++ k :: v :: l) !! S (S (length done_)) = Some v).
  { rewrite (cons_middle k), (app_assoc done_). apply (list_lookup_middle (name :: done_ ++ [k])).
    cbn. rewrite length_app. cbn. lia. }
  rewrite E1, E2. clear E1 E2.
  cbn [defined mbind res_bind].
  destruct (append_ok c [tail name; k; v]) as (r & -> & Hr). change (negb (REDIS_OK =? REDIS_OK)) with false. cbn match.
  destruct (IH l) with (c := with_redis c r) (cmds := cmds + 1) (done_ := done_ ++ [k; v]) (n := n) as (c' & E & Ha).
  { unfold ltof. cbn. lia. } { done. } { cbn in Hn. lia. }
  rewrite <- app_assoc in E. cbn [app] in E.
  replace (1 + Z.of_nat (length (done_ ++ [k; v]))) with (1 + Z.of_nat (length done_) + 2) in E
    by (rewrite length_app; cbn; lia).
  rewrite E. exists c'. split; [cbn [pairs length]; do 2 f_equal; lia|].
  eapply (advanced_trans c (with_redis c r) c' [_] _ 0 0); [|exact Ha]. split; try done. cbn. lia.
Qed.

Definition skip_count c (cmd : list bytes) : Z := if skipped (filter c) (prefix c) (replace_prefix c) cmd then 1 else 0.
Definition outs c (cmd : list bytes) : list (list bytes) := out (filter c) (prefix c) (replace_prefix c) cmd.

Lemma rename_from_length pre rep name j args : length (rename_from pre rep name j args) = length args.
Proof. revert j. induction args as [|a args IH]; intros j; [done|]. cbn. by rewrite IH. Qed.

Lemma send_command_sends c cmd cmds :
  command_ok cmd ->
  exists c', send_command malloc c (renamed (prefix c) (replace_prefix c) cmd) (Z.of_nat (length cmd)) cmds =
    Ok (true, c', cmds + Z.of_nat (length (outs c cmd))) /\
    advanced c c' (outs c cmd) (skip_count c cmd) (fp c).
Proof.
  intros ((name & args & -> & Heven) & Hlen & _).
  unfold send_command, outs, out, skip_count, skipped. cbn [renamed head hd_error defined mbind res_bind].
  pose proof (rename_from_length (prefix c) (replace_prefix c) name 1 args) as Hl.
  replace (length (name :: args)) with (length (name :: rename_from (prefix c) (replace_prefix c) name 1 args)) in *
    by (cbn; congruence).
  rewrite <- Hl in Heven. clear Hl.
  set (l := rename_from _ _ name 1 args) in *. clearbody l. clear args.
  assert (Hskip : exists c' : replay_ctx R,
    @Ok (bool * replay_ctx R * Z) (true, add_skipped c 1, cmds) = Ok (true, c', cmds + Z.of_nat (length (@nil (list bytes)))) /\
    advanced c c' [] 1 (fp c)).
  { exists (add_skipped c 1). split; [cbn; do 3 f_equal; lia|]. split; try done. cbn. by rewrite app_nil_r. }
  assert (Hf : match filter c, (name :: l) !! 1%nat with
    | Some flt, Some key => (1 <? Z.of_nat (length (name :: l))) && negb (strncaseeq flt key (blen flt))
    | _, _ => false end =
    match filter c, l with Some f, key :: _ => negb (strncaseeq f key (blen f)) | _, _ => false end).
  { destruct (filter c); [|done]. destruct l; [done|]. cbn [lookup list_lookup length].
    by rewrite (proj2 (Z.ltb_lt 1 _)) by lia. }
  rewrite Hf. clear Hf.
  set (filtered := match filter c, l with Some f, key :: _ => negb (strncaseeq f key (blen f)) | _, _ => false end).
  clearbody filtered. destruct filtered; [exact Hskip|].
  cbn [orb]. destruct (supported name); [|exact Hskip]. cbn [negb].
  change (strcaseeq name (chars "MSET") || strcaseeq name (chars "MSETNX")) with (is_mset name).
  destruct (is_mset name).
  - destruct (mset_loop_sends c cmds name [] l (S (length (name :: l)))) as (c' & E & Ha); [auto|cbn; lia|].
    exists c'. rewrite length_map. by split.
  - destruct (Hmalloc (u8 (Z.of_nat (length (name :: l)) * 8))) as (b & -> & _); [apply u8_range|].
    rewrite Nat2Z.id, firstn_all. destruct (append_ok c (name :: l)) as (r & -> & Hr).
    exists (with_redis c r). cbn. split; [done|]. split; try done. cbn. lia.
Qed.

Lemma advanced_refl c s : fp c = s -> advanced c c [] 0 s.
Proof. intros <-. split; try done; [by rewrite app_nil_r|lia]. Qed.

Definition sends c (cmds : list (list bytes)) : list (list bytes) := concat (map (outs c) cmds).
Fixpoint skips c (cmds : list (list bytes)) : Z :=
  match cmds with [] => 0 | cmd :: l => skip_count c cmd + skips c l end.

Lemma sends_app c a b : sends c (a ++ b) = sends c a ++ sends c b.
Proof. unfold sends. by rewrite map_app, concat_app. Qed.

Lemma skips_app c a b : skips c (a ++ b) = skips c a + skips c b.
Proof. induction a as [|x a IH]; [done|]. cbn. lia. Qed.

(** What is sent depends on the settings alone. *)
Lemma settings_sends c c' cmds :
  (pipe_cmds c', filter c', prefix c', replace_prefix c') = (pipe_cmds c, filter c, prefix c, replace_prefix c) ->
  sends c' cmds = sends c cmds /\ skips c' cmds = skips c cmds.
Proof.
  intros E. injection E as _ E1 E2 E3. unfold sends, outs. rewrite E1, E2, E3. split; [done|].
  induction cmds as [|x cmds IH]; [done|]. cbn. rewrite IH. unfold skip_count. by rewrite E1, E2, E3.
Qed.

(** A batch sends the commands at the front of the file, all of them or as many as it takes. *)
Lemma batch_loop_sends cs c argv cmds rounds ltr :
  fp c = mk_stream (text cs) ltr -> Forall command_ok cs -> prefix_ok (prefix c) -> (length cs < rounds)%nat ->
  exists cs1 cs2 c' argv', cs = cs1 ++ cs2 /\
    batch_loop malloc fuel rounds c argv cmds = Ok (true, c', cmds + Z.of_nat (length (sends c cs1)), argv') /\
    advanced c c' (sends c cs1) (skips c cs1) (fp c') /\
    (cs2 = [] /\ eof (fp c') = true \/
     pipe_cmds c <= cmds + Z.of_nat (length (sends c cs1)) /\ fp c' = mk_stream (text cs2) ltr).
Proof.
  intros Hfp Hok Hp. revert c argv cmds rounds Hfp Hp.
  induction Hok as [|cmd cs Hcmd Hok IH]; intros c argv cmds rounds Hfp Hp Hr; (destruct rounds as [|n]; [lia|]);
    cbn [batch_loop]; destruct (Z.leb_spec (pipe_cmds c) cmds) as [Hfull|_].
  1,3: eexists [], _, c, argv; cbn; rewrite Z.add_0_r; (split_and!; [done|done|by apply advanced_refl|by right]).
  - change (text []) with (@nil Z) in Hfp.
    destruct (get_redis_command_end malloc fuel (prefix c) (replace_prefix c) Hfuel (fp c) argv) as (s & -> & Hs);
      [right; by rewrite Hfp|]. cbn [mbind res_bind].
    exists [], [], (with_fp c s), Nil. cbn. rewrite Z.add_0_r.
    split_and!; [done|done| |by left]. split; try done; cbn; [by rewrite app_nil_r|lia].
  - change (text (cmd :: cs)) with (command_text cmd ++ text cs) in Hfp.
    rewrite Hfp, get_redis_command_text by done. cbn [mbind res_bind].
    change (negb (REDIS_OK =? REDIS_OK)) with false. cbn match.
    set (c1 := with_fp c (mk_stream (text cs) ltr)).
    destruct (send_command_sends c1 cmd cmds Hcmd) as (c2 & E & Ha).
    change (renamed (prefix c1) (replace_prefix c1) cmd) with (renamed (prefix c) (replace_prefix c) cmd) in E.
    rewrite E. cbn [mbind res_bind negb].
    assert (Ha2 : advanced c c2 (outs c cmd) (skip_count c cmd) (mk_stream (text cs) ltr)) by by destruct Ha; split.
    pose proof (ad_settings _ _ _ _ _ Ha2) as Es.
    destruct (IH c2 Freed (cmds + Z.of_nat (length (outs c cmd))) n) as (cs1 & cs2 & c' & argv' & -> & E2 & Ha3 & Hend).
    { by apply Ha2. } { congruence. } { cbn in Hr. lia. }
    destruct (settings_sends _ _ cs1 Es) as [S1 S2]. rewrite S1, S2 in *.
    assert (Hl : sends c (cmd :: cs1) = outs c cmd ++ sends c cs1) by done.
    exists (cmd :: cs1), cs2, c', argv'. rewrite Hl, length_app, Nat2Z.inj_add, Z.add_assoc.
    split_and!; [done|exact E2|by eapply advanced_trans|]. replace (pipe_cmds c) with (pipe_cmds c2) by congruence. done.
Qed.

(** The replies of a batch. *)
Lemma reply_loop_keeps n r : exists r', reply_loop n r = (true, r') /\ sent r' = sent r.
Proof.
  revert r. induction n as [|n IH]; intros r; cbn; [eauto|].
  destruct (reply_keeps r) as [E1 E2]. destruct (redisGetReply r) as [x r1]. cbn in *. subst x.
  destruct (IH r1) as (r' & -> & E). exists r'. split; [done|congruence].
Qed.

(** What is left to read: the commands [cs], or nothing once the end was met. *)
Definition reading (cs : list (list bytes)) (ltr : list bytes) (s : stream) : Prop :=
  s = mk_stream (text cs) ltr \/ cs = [] /\ eof s = true.

(** The rounds it takes at most to get to the end. *)
Definition to_go (cs : list (list bytes)) (s : stream) : nat := length cs + (if eof s then 0 else 1).

(** From [c] to [c'] the commands [l] were dealt with. *)
Record replayed c c' (l : list (list bytes)) : Prop := {
  re_sent : sent (redis c') = sent (redis c) ++ sends c l;
  re_processed : processed_cmd c' = processed_cmd c + Z.of_nat (length (sends c l));
  re_skipped : skipped_cmd c' = skipped_cmd c + skips c l;
  re_settings : (pipe_cmds c', filter c', prefix c', replace_prefix c') =
                (pipe_cmds c, filter c, prefix c, replace_prefix c)
}.

Lemma replayed_trans c1 c2 c3 l1 l2 : replayed c1 c2 l1 -> replayed c2 c3 l2 -> replayed c1 c3 (l1 ++ l2).
Proof.
  intros [E1 E2 E3 E4] [F1 F2 F3 F4].
  destruct (settings_sends _ _ l2 E4) as [Hs Hk]. rewrite Hs in *. rewrite Hk in *. split; [by rewrite F1, E1, sends_app, app_assoc| | |congruence].
  - rewrite sends_app, length_app. lia.
  - rewrite skips_app. lia.
Qed.

Lemma replayed_none c r s : sent r = sent (redis c) -> replayed c (add_processed (with_redis (with_fp c s) r) 0) [].
Proof. intros E. split; cbn; [by rewrite app_nil_r|lia|lia|done]. Qed.

Lemma process_round_replays cs c argv rounds ltr :
  reading cs ltr (fp c) -> Forall command_ok cs -> prefix_ok (prefix c) -> 0 < pipe_cmds c ->
  (length cs < rounds)%nat ->
  exists l cs' c' argv', cs = l ++ cs' /\
    process_round malloc fuel rounds c argv = Ok (true, c', argv') /\ replayed c c' l /\
    reading cs' ltr (fp c') /\ (to_go cs' (fp c') <= to_go cs (fp c) - 1)%nat.
Proof.
  intros [Hfp|[-> He]] Hok Hp Hpipe Hr; unfold process_round.
  - destruct (batch_loop_sends cs c argv 0 rounds ltr Hfp Hok Hp Hr) as (cs1 & cs2 & c1 & argv1 & E0 & -> & Ha & Hend).
    cbn [mbind res_bind negb].
    destruct (reply_loop_keeps (Z.to_nat (0 + Z.of_nat (length (sends c cs1)))) (redis c1)) as (r & -> & Hrep).
    cbn [negb]. exists cs1, cs2. eexists _, argv1. split; [done|]. split; [done|]. split.
    { destruct Ha as [A1 A2 A3 A4 A5]. split; cbn; [congruence|lia|lia|done]. }
    cbn [fp add_processed with_redis]. unfold to_go. rewrite E0, length_app.
    destruct Hend as [[-> Hw]|[Hfull Hw]].
    + split; [by right|]. rewrite Hw, Hfp. cbn. lia.
    + split; [by left|]. rewrite Hw, Hfp. cbn [eof]. destruct cs1; [cbn in Hfull; lia|]. cbn [length]. lia.
  - destruct rounds as [|n]; [lia|]. cbn [batch_loop]. destruct (Z.leb_spec (pipe_cmds c) 0); [lia|].
    destruct (get_redis_command_end malloc fuel (prefix c) (replace_prefix c) Hfuel (fp c) argv) as (s & -> & Hs); [by left|].
    cbn [mbind res_bind negb]. change (REDIS_OK =? REDIS_OK) with true. cbn [mbind res_bind negb reply_loop Z.to_nat].
    exists [], []. eexists _, Nil. split; [done|]. split; [done|]. split; [by apply replayed_none|].
    cbn [fp add_processed with_redis with_fp]. split; [by right|]. unfold to_go. rewrite Hs. cbn. lia.
Qed.

Lemma process_rounds_replays n cs c argv rounds ltr :
  reading cs ltr (fp c) -> Forall command_ok cs -> prefix_ok (prefix c) -> 0 < pipe_cmds c ->
  (length cs < rounds)%nat ->
  exists l cs' c' argv', cs = l ++ cs' /\
    process_rounds malloc fuel n rounds c argv = Ok (true, c', argv') /\ replayed c c' l /\
    reading cs' ltr (fp c') /\ (to_go cs' (fp c') <= to_go cs (fp c) - n)%nat.
Proof.
  revert cs c argv. induction n as [|n IH]; intros cs c argv Hfp Hok Hp Hpipe Hr; cbn [process_rounds].
  { exists [], cs, c, argv. split_and!; try done; [|lia]. split; cbn; try lia; [by rewrite app_nil_r|done]. }
  destruct (process_round_replays cs c argv rounds ltr Hfp Hok Hp Hpipe Hr)
    as (l1 & cs1 & c1 & argv1 & E1 & -> & Hre1 & Hfp1 & Hs1).
  cbn [mbind res_bind negb]. pose proof (re_settings _ _ _ Hre1) as Es. injection Es as Es1 _ Es2 _.
  assert (Forall command_ok cs1) as Hok1 by (rewrite E1, Forall_app in Hok; by destruct Hok).
  destruct (IH cs1 c1 argv1 Hfp1 Hok1) as (l2 & cs2 & c2 & argv2 & E2 & Ep & Hre2 & Hfp2 & Hs2);
    [congruence|lia|rewrite E1, length_app in Hr; lia|].
  exists (l1 ++ l2), cs2, c2, argv2. split_and!; [by rewrite E1, E2, app_assoc|done| |done|lia].
  by eapply replayed_trans.
Qed.

(** ** Checking *)

Definition is_supported (cmd : list bytes) : bool := match cmd with name :: _ => supported name | [] => false end.

Fixpoint count (f : list bytes -> bool) (cmds : list (list bytes)) : Z :=
  match cmds with [] => 0 | cmd :: l => (if f cmd then 1 else 0) + count f l end.

(** The loop goes through the commands at the front of the file. *)
Lemma check_loop_text cs c argv rounds b ltr :
  fp c = mk_stream (text cs ++ b) ltr -> Forall command_ok cs -> prefix_ok (prefix c) ->
  exists c', check_loop malloc fuel (length cs + rounds) c argv =
      check_loop malloc fuel rounds c' (if decide (cs = []) then argv else Freed) /\
    fp c' = mk_stream b ltr /\ processed_cmd c' = processed_cmd c + count is_supported cs /\
    skipped_cmd c' = skipped_cmd c + count (fun cmd => negb (is_supported cmd)) cs.
Proof.
  intros Hfp Hok Hp. revert c argv Hfp Hp. induction Hok as [|cmd cs Hcmd Hok IH]; intros c argv Hfp Hp.
  { exists c. cbn. rewrite !Z.add_0_r. done. }
  cbn [length Nat.add check_loop]. change (text (cmd :: cs)) with (command_text cmd ++ text cs) in Hfp.
  rewrite <- app_assoc in Hfp. rewrite Hfp, get_redis_command_text by done. cbn [mbind res_bind].
  change (negb (REDIS_OK =? REDIS_OK)) with false. cbn match.
  destruct Hcmd as ((name & args & -> & _) & _). cbn [renamed head hd_error defined mbind res_bind count is_supported].
  set (c1 := with_fp c (mk_stream (text cs ++ b) ltr)). rewrite decide_False by done.
  set (c2 := if supported name then add_processed c1 1 else add_skipped c1 1).
  destruct (IH c2 Freed) as (c' & E & E1 & E2 & E3); [by subst c2; destruct (supported name)..|].
  exists c'. rewrite E. split_and!; [by case_decide|done|rewrite E2|rewrite E3]; subst c2 c1;
    destruct (supported name); cbn; lia.
Qed.

End sending.

(** ** Properties *)

(** C22: replaying sends what the file says up to its end.  The file has the commands [cmds] when the program first
    meets its end, on a connection that takes and answers every command and with a [malloc] that does not fail.  After any
    number of rounds what was sent is exactly what a first part of these commands calls for, in order: keys with their
    prefix replaced, MSET as one SET per key, other keys and unsupported commands left out, all counted.  After as many
    rounds as there are commands nothing is left of them; after one more the end was met, and the program goes on without
    ever sending what is appended later ([ltr]), since nothing clears the end-of-file indicator. *)
Theorem process_aof_replays {R} `{Redis R} (sent : R -> list (list bytes)) `{!RedisLaws R sent}
    malloc fuel (c : replay_ctx R) cmds ltr n rounds :
  malloc_serves malloc -> fuel <> 0%nat -> fp c = mk_stream (text cmds) ltr -> Forall command_ok cmds ->
  prefix_ok (prefix c) -> 0 < pipe_cmds c -> (length cmds < rounds)%nat ->
  exists done_ left c' argv, cmds = done_ ++ left /\
    process_aof malloc fuel n rounds c = Ok (true, c', argv) /\
    sent (redis c') = sent (redis c) ++ sends c done_ /\
    processed_cmd c' = processed_cmd c + Z.of_nat (length (sends c done_)) /\
    skipped_cmd c' = skipped_cmd c + skips c done_ /\
    ((length cmds <= n)%nat -> left = []) /\ ((length cmds < n)%nat -> eof (fp c') = true).
Proof.
  intros Hm Hf Hfp Hok Hp Hpipe Hr.
  destruct (process_rounds_replays sent malloc fuel Hm Hf n cmds c Nil rounds ltr (or_introl Hfp) Hok Hp Hpipe Hr)
    as (l & cs' & c' & argv & E & Ep & [R1 R2 R3 _] & Hfp' & Hs).
  unfold to_go in Hs. rewrite Hfp in Hs. cbn [eof] in Hs.
  exists l, cs', c', argv. split_and!; try done; intros Hn.
  - apply nil_length_inv. destruct Hfp' as [Hfp'|[-> _]]; [|done]. rewrite Hfp' in Hs. cbn [eof] in Hs. lia.
  - destruct (eof (fp c')) eqn:Ee; [done|]. lia.
Qed.

(** Checking a file of commands ends at its end, with the supported commands counted as processed and
    the others as skipped. *)
Theorem check_aof_counts {R} `{Redis R} malloc fuel (c : replay_ctx R) cs rounds :
  malloc_serves malloc -> fuel <> 0%nat -> fp c = mk_stream (text cs) [] -> Forall command_ok cs ->
  prefix_ok (prefix c) -> (length cs < rounds)%nat ->
  exists c', check_aof malloc fuel rounds c = Ok (true, c') /\ eof (fp c') = true /\
    processed_cmd c' = processed_cmd c + count is_supported cs /\
    skipped_cmd c' = skipped_cmd c + count (fun cmd => negb (is_supported cmd)) cs.
Proof.
  intros Hm Hf Hfp Hok Hp Hr. rewrite <- (app_nil_r (text cs)) in Hfp.
  destruct (check_loop_text malloc fuel Hm Hf cs c Nil (rounds - length cs) [] [] Hfp Hok Hp) as (c1 & E & E1 & E2 & E3).
  unfold check_aof. replace rounds with (length cs + (rounds - length cs))%nat by lia. rewrite E.
  destruct (rounds - length cs)%nat as [|m] eqn:Em; [lia|]. cbn [check_loop].
  destruct (get_redis_command_end malloc fuel (prefix c1) (replace_prefix c1) Hf (fp c1)
    (if decide (cs = []) then Nil else Freed)) as (s & -> & Hs); [right; by rewrite E1|]. cbn [mbind res_bind].
  exists (with_fp c1 s). split_and!; done.
Qed.

(** After one command or more, the first byte that begins no command makes [check_aof] free the
    array of the last command a second time. *)
Theorem bad_command_frees_twice {R} `{Redis R} malloc fuel (c : replay_ctx R) cs x b ltr rounds :
  malloc_serves malloc -> fuel <> 0%nat -> cs <> [] -> x <> 42 ->
  fp c = mk_stream (text cs ++ x :: b) ltr -> Forall command_ok cs -> prefix_ok (prefix c) ->
  (length cs < rounds)%nat -> check_aof malloc fuel rounds c = Undefined.
Proof.
  intros Hm Hf Hne Hx Hfp Hok Hp Hr.
  destruct (check_loop_text malloc fuel Hm Hf cs c Nil (rounds - length cs) (x :: b) ltr Hfp Hok Hp) as (c1 & E & E1 & _).
  unfold check_aof. replace rounds with (length cs + (rounds - length cs))%nat by lia. rewrite E, decide_False by done.
  destruct (rounds - length cs)%nat as [|m] eqn:Em; [lia|]. cbn [check_loop].
  by rewrite E1, get_redis_command_bad.
Qed.

(** ** At concrete files *)

(** A connection that keeps what it is given. *)
#[export] Instance recorder : Redis (list (list bytes)) :=
  {| redisAppendCommandArgv r c := (REDIS_OK, r ++ [c]); redisGetReply r := (REDIS_OK, r) |}.

#[export] Instance recorder_laws : RedisLaws (list (list bytes)) id.
Proof. by split. Qed.

Definition zeroed : malloc_fun := fun n => Some (replicate (Z.to_nat n) 0).

Lemma zeroed_serves : malloc_serves zeroed.
Proof. intros n Hn. eexists. split; [done|]. unfold blen. rewrite length_replicate. lia. Qed.

(** An MSET, a SELECT, which is not supported, a SET and a DEL; later another SET. *)
Definition sample_cmds : list (list bytes) := map (map chars)
  [["mset"; "old:a"; "1"; "old:b"; "2"]; ["SELECT"; "3"]; ["set"; "old:zz"; "5"]; ["DEL"; "x"; "old:y"]]%string.
Definition sample_later : list bytes := [command_text (map chars ["set"; "old:late"; "6"]%string)].

Definition sample_ctx (s : stream) : replay_ctx (list (list bytes)) :=
  mk_ctx 0 0 s 2 [] None (Some (chars "old:")) (Some (chars "new:")).

Lemma sample_cmds_ok : Forall command_ok sample_cmds.
Proof.
  unfold sample_cmds. repeat (apply Forall_cons; split); try apply Forall_nil; try done;
    (split; [do 2 eexists; split; [reflexivity|by vm_compute]|split; [done|by repeat constructor]]).
Qed.

Lemma sample_prefix_ok s : prefix_ok (prefix (sample_ctx s)).
Proof. by repeat constructor. Qed.

Lemma process_aof_replays_witness :
  exists c' argv, process_aof zeroed 1 9 7 (sample_ctx (mk_stream (text sample_cmds) sample_later)) = Ok (true, c', argv) /\
    redis c' = map (map chars)
      [["set"; "new:a"; "1"]; ["set"; "new:b"; "2"]; ["set"; "new:zz"; "5"]; ["DEL"; "x"; "new:y"]]%string /\
    processed_cmd c' = 4 /\ skipped_cmd c' = 1.
Proof.
  destruct (process_aof_replays id zeroed 1 (sample_ctx (mk_stream (text sample_cmds) sample_later)) sample_cmds sample_later 9 7)
    as (l & left & c' & argv & E & Ep & Hs & Hq & Hk & Hl & _).
  - apply zeroed_serves.
  - done.
  - reflexivity.
  - apply sample_cmds_ok.
  - apply sample_prefix_ok.
  - reflexivity.
  - vm_compute. lia.
  - exists c', argv. assert (left = []) as -> by (apply Hl; vm_compute; lia).
    rewrite app_nil_r in E. subst l. split; [exact Ep|]. unfold id in Hs. rewrite Hs, Hq, Hk.
    split_and!; vm_compute; reflexivity.
Defined.

(** The SET that is appended is there to read, and is not read. *)
Example sample_later_unread :
  match process_aof zeroed 1 9 7 (sample_ctx (mk_stream (text sample_cmds) sample_later)) with
  | Ok (_, c', _) => (avail (fp c'), eof (fp c'))
  | _ => ([], false)
  end = (concat sample_later, true).
Proof. vm_compute. reflexivity. Qed.

Lemma check_aof_counts_witness :
  exists c', check_aof zeroed 1 5 (sample_ctx (mk_stream (text sample_cmds) [])) = Ok (true, c') /\
    processed_cmd c' = 3 /\ skipped_cmd c' = 1.
Proof.
  destruct (check_aof_counts zeroed 1 (sample_ctx (mk_stream (text sample_cmds) [])) sample_cmds 5)
    as (c' & E & _ & E1 & E2).
  - apply zeroed_serves.
  - done.
  - reflexivity.
  - apply sample_cmds_ok.
  - apply sample_prefix_ok.
  - vm_compute. lia.
  - exists c'. split; [exact E|]. rewrite E1, E2. split; reflexivity.
Defined.

Lemma bad_command_frees_twice_witness :
  check_aof zeroed 1 5 (sample_ctx (mk_stream (text sample_cmds ++ chars "REDIS") [])) = Undefined.
Proof.
  apply (bad_command_frees_twice zeroed 1 _ sample_cmds 82 (chars "EDIS") []).
  - apply zeroed_serves.
  - done.
  - done.
  - done.
  - reflexivity.
  - apply sample_cmds_ok.
  - apply sample_prefix_ok.
  - vm_compute. lia.
Defined.

(** Past the end a number that was begun is waited for. *)
Lemma read_long_waits fuel prefix imm buf eptr remain : forall s retry,
  eof s = true -> 1 < remain -> 1 < retry ->
  read_long_loop fuel s prefix imm buf eptr remain retry = Unfinished.
Proof.
  induction fuel as [|f IH]; intros s retry He Hr Hn; [done|]. cbn [read_long_loop]. unfold fgets.
  destruct (Z.leb_spec remain 1); [lia|]. rewrite He. destruct (Z.eqb_spec retry 1); [lia|]. cbn [andb].
  destruct (Z.ltb_spec 0 remain); [|lia]. apply IH; [|done|lia]. unfold wait. by destruct (later s).
Qed.

(** When the end is first met inside a command the program waits for ever, whatever is appended:
    here the two characters that end a number come in two writes. *)
Lemma cut_newline_waits fuel :
  safe_read_long fuel (mk_stream (chars "*3" ++ [13]) [[10] ++ drop 4 (command_text (map chars ["set"; "a"; "5"]%string))])
    42 CMD_LONG = Unfinished.
Proof.
  destruct fuel as [|f]; [done|]. unfold safe_read_long. cbn [read_long_loop].
  set (s := mk_stream (chars "*3" ++ [13]) _).
  assert (exists s', fgets s MAX_LONG_LEN = (Some (chars "*3" ++ [13]), s') /\ eof s' = true) as (s' & -> & He)
    by (eexists; split; reflexivity).
  rewrite <- (read_long_waits f 42 CMD_LONG ((chars "*3" ++ [13]) ++ replicate 125 0) 2 126 s' 2 He) by lia. reflexivity.
Qed.

End AofSpec.
