(* ===== verification/Dict.v ===== *)
(** * dict.c: the dictionary of redis, as redis-proxy has it

    A hash table of chained entries that grows and shrinks by moving a bucket at a
    time from one table to another.  An entry has an address, since callers are given
    pointers to entries; the functions of a [dictType] are the class [DictType].  The
    static [dict_can_resize] is an argument, and so is [random].  [zmalloc] stops the
    program instead of returning nil. *)

From S2P Require Import Prelude.

Module Dict.

Definition DICT_OK : Z := 0.
Definition DICT_ERR : Z := 1.
Definition DICT_HT_INITIAL_SIZE : Z := 4.
Definition LONG_MAX : Z := 2 ^ 63 - 1.
Definition dict_force_resize_ratio : Z := 5.

(** ** Hash functions *)

Definition dictIntHashFunction (key : Z) : Z :=
  let key := u4 (key + u4 (Z.lnot (Z.shiftl key 15))) in
  let key := Z.lxor key (Z.shiftr key 10) in
  let key := u4 (key + Z.shiftl key 3) in
  let key := Z.lxor key (Z.shiftr key 6) in
  let key := u4 (key + u4 (Z.lnot (Z.shiftl key 11))) in
  Z.lxor key (Z.shiftr key 16).

Definition murmur_m : Z := 0x5bd1e995.

(** The four bytes of an [uint32_t], the lowest first. *)
Definition le32 (a b c d : Z) : Z := a + 2 ^ 8 * b + 2 ^ 16 * c + 2 ^ 24 * d.

(** The loop over four bytes at a time, then the last ones. *)
Fixpoint murmur_loop (h : Z) (data : bytes) : Z :=
  match data with
  | a :: b :: c :: d :: data' =>
      let k := u4 (le32 a b c d * murmur_m) in
      let k := Z.lxor k (Z.shiftr k 24) in
      let k := u4 (k * murmur_m) in
      murmur_loop (Z.lxor (u4 (h * murmur_m)) k) data'
  | [a; b; c] =>
      u4 (Z.lxor (Z.lxor (Z.lxor h (Z.shiftl c 16)) (Z.shiftl b 8)) a * murmur_m)
  | [a; b] => u4 (Z.lxor (Z.lxor h (Z.shiftl b 8)) a * murmur_m)
  | [a] => u4 (Z.lxor h a * murmur_m)
  | [] => h
  end.

(** [seed] is [dict_hash_function_seed]; [len] is an [int]. *)
Definition dictGenHashFunction (seed : Z) (key : bytes) : Z :=
  let h := murmur_loop (Z.lxor seed (u4 (blen key))) key in
  let h := Z.lxor h (Z.shiftr h 13) in
  let h := u4 (h * murmur_m) in
  Z.lxor h (Z.shiftr h 15).

Definition tolower (c : Z) : Z := if (65 <=? c) && (c <=? 90) then c + 32 else c.

Definition dictGenCaseHashFunction (seed : Z) (buf : bytes) : Z :=
  fold_left (fun hash c => u4 (Z.shiftl hash 5 + hash + tolower c)) buf seed.

(** ** Data *)

(** [hashFunction] gives an [unsigned int]; the other functions may be nil; of the
    destructors it is said whether there is one. *)
Class DictType (K V : Type) := {
  hashFunction : K -> Z;
  keyDup : option (K -> K);
  valDup : option (V -> V);
  keyCompare : option (K -> K -> bool);
  keyDestructor : bool;
  valDestructor : bool;
}.

Section Dict.
Context {K V : Type} `{EqDecision K} `{DictType K V}.

(** The value of an entry is unset until the caller of [dictAddRaw] sets it. *)
Record dictEntry := mk_entry { e_addr : nat; e_key : K; e_val : option V }.

Record dictht := mk_dictht {
  table : option (list (list dictEntry));
  size : Z;
  sizemask : Z;
  used : Z;
}.

(** [fresh] is the next address of the allocator. *)
Record dict := mk_dict {
  ht0 : dictht;
  ht1 : dictht;
  rehashidx : Z;
  iterators : Z;
  fresh : nat;
}.

(** [dictFreeKey] and [dictFreeVal] that call a destructor, and the callback of
    [_dictClear]. *)
Inductive effect := FreeKey (k : K) | FreeVal (v : option V) | CallBack.

Definition dictCompareKeys (k1 k2 : K) : bool :=
  match keyCompare with Some f => f k1 k2 | None => bool_decide (k1 = k2) end.

Definition dictHashKey (k : K) : Z := hashFunction k.
Definition dictIsRehashing (d : dict) : bool := negb (rehashidx d =? -1).
Definition dictSize (d : dict) : Z := u8 (used (ht0 d) + used (ht1 d)).
Definition dictSlots (d : dict) : Z := u8 (size (ht0 d) + size (ht1 d)).

(** [d->ht[t]] *)
Definition ht (d : dict) (t : nat) : dictht := match t with O => ht0 d | _ => ht1 d end.
Definition set_ht (d : dict) (t : nat) (h : dictht) : dict :=
  match t with
  | O => mk_dict h (ht1 d) (rehashidx d) (iterators d) (fresh d)
  | _ => mk_dict (ht0 d) h (rehashidx d) (iterators d) (fresh d)
  end.

(** [ht->table[i]] *)
Definition bucket (h : dictht) (i : Z) : option (list dictEntry) :=
  t ← table h; if i <? 0 then None else t !! Z.to_nat i.

Definition set_bucket (h : dictht) (i : Z) (c : list dictEntry) : dictht :=
  mk_dictht (option_map <[Z.to_nat i := c]> (table h)) (size h) (sizemask h) (used h).

Definition set_used (h : dictht) (n : Z) : dictht := mk_dictht (table h) (size h) (sizemask h) n.

Definition set_rehash (d : dict) (h0 h1 : dictht) (i : Z) : dict := mk_dict h0 h1 i (iterators d) (fresh d).

(** ** Making and resizing *)

Definition _dictReset : dictht := mk_dictht None 0 0 0.

Definition dictCreate : dict := mk_dict _dictReset _dictReset (-1) 0 1.

Fixpoint next_power (fuel : nat) (i size : Z) : option Z :=
  match fuel with
  | O => None
  | S f => if size <=? i then Some i else next_power f (u8 (i * 2)) size
  end.

(** 63 rounds are enough for every [unsigned long] below [LONG_MAX]. *)
Definition _dictNextPower (size : Z) : option Z :=
  if LONG_MAX <=? size then Some LONG_MAX else next_power 63 DICT_HT_INITIAL_SIZE size.

Definition new_ht (realsize : Z) : dictht :=
  mk_dictht (Some (replicate (Z.to_nat realsize) [])) realsize (u8 (realsize - 1)) 0.

Definition dictExpand (d : dict) (size' : Z) : option (Z * dict) :=
  realsize ← _dictNextPower size';
  if dictIsRehashing d || (size' <? used (ht0 d)) then Some (DICT_ERR, d)
  else if realsize =? size (ht0 d) then Some (DICT_ERR, d)
  else
    let n := new_ht realsize in
    match table (ht0 d) with
    | None => Some (DICT_OK, set_rehash d n (ht1 d) (rehashidx d))
    | Some _ => Some (DICT_OK, set_rehash d (ht0 d) n 0)
    end.

Definition dictResize (can_resize : bool) (d : dict) : option (Z * dict) :=
  if negb can_resize || dictIsRehashing d then Some (DICT_ERR, d)
  else
    let minimal := to_n4 (used (ht0 d)) in
    let minimal := if minimal <? DICT_HT_INITIAL_SIZE then DICT_HT_INITIAL_SIZE else minimal in
    dictExpand d (u8 minimal).

Definition _dictExpandIfNeeded (can_resize : bool) (d : dict) : option (Z * dict) :=
  if dictIsRehashing d then Some (DICT_OK, d)
  else if size (ht0 d) =? 0 then dictExpand d DICT_HT_INITIAL_SIZE
  else if (size (ht0 d) <=? used (ht0 d)) &&
          (can_resize || (dict_force_resize_ratio <? used (ht0 d) / size (ht0 d)))
  then dictExpand d (u8 (used (ht0 d) * 2))
  else Some (DICT_OK, d).

(** ** Incremental rehashing *)

(** The number of buckets: no loop over them makes more rounds. *)
Definition buckets (h : dictht) : nat := length (default [] (table h)).

(** The inner loop over empty buckets: did it give up, where, and how many more empty
    buckets may be visited. *)
Fixpoint skip_empty (fuel : nat) (empty_visits : Z) (h : dictht) (idx : Z) : option (bool * Z * Z) :=
  match fuel with
  | O => None
  | S f =>
      c ← bucket h idx;
      match c with
      | _ :: _ => Some (false, idx, empty_visits)
      | [] =>
          empty_visits ← chk_n4 (empty_visits - 1);
          if empty_visits =? 0 then Some (true, idx + 1, 0) else skip_empty f empty_visits h (idx + 1)
      end
  end.

(** The loop that moves the entries of a bucket. *)
Fixpoint move_chain (c : list dictEntry) (h0 h1 : dictht) : option (dictht * dictht) :=
  match c with
  | [] => Some (h0, h1)
  | de :: c' =>
      let h := Z.land (dictHashKey (e_key de)) (sizemask h1) in
      b ← bucket h1 h;
      move_chain c' (set_used h0 (u8 (used h0 - 1)))
        (set_used (set_bucket h1 h (de :: b)) (u8 (used h1 + 1)))
  end.

(** The outer loop: did it give up? *)
Fixpoint rehash_loop (fuel : nat) (n empty_visits : Z) (d : dict) : option (bool * dict) :=
  match fuel with
  | O => None
  | S f =>
      if n =? 0 then Some (false, d)
      else
        n ← chk_n4 (n - 1);
        if used (ht0 d) =? 0 then Some (false, d)
        else
          '(gave_up, idx, empty_visits) ← skip_empty (S (buckets (ht0 d))) empty_visits (ht0 d) (rehashidx d);
          if gave_up : bool then Some (true, set_rehash d (ht0 d) (ht1 d) idx)
          else
            de ← bucket (ht0 d) idx;
            '(h0, h1) ← move_chain de (ht0 d) (ht1 d);
            rehash_loop f n empty_visits (set_rehash d (set_bucket h0 idx []) h1 (idx + 1))
  end.

(** A round takes a bucket or is the last. *)
Definition dictRehash (d : dict) (n : Z) : option (Z * dict) :=
  empty_visits ← chk_n4 (n * 10);
  if negb (dictIsRehashing d) then Some (0, d)
  else
    '(gave_up, d) ← rehash_loop (S (buckets (ht0 d))) n empty_visits d;
    if gave_up : bool then Some (1, d)
    else if used (ht0 d) =? 0 then Some (0, set_rehash d (ht1 d) _dictReset (-1))
    else Some (1, d).

(** [clock] lists what [timeInMilliseconds] answers after each round, counted from
    the start. *)
Fixpoint rehash_ms_loop (d : dict) (clock : list Z) (ms rehashes : Z) : option (Z * dict) :=
  '(more, d) ← dictRehash d 100;
  if more =? 0 then Some (rehashes, d)
  else match clock with
       | [] => None
       | t :: clock' =>
           rehashes ← chk_n4 (rehashes + 100);
           if ms <? t then Some (rehashes, d) else rehash_ms_loop d clock' ms rehashes
       end.

Definition dictRehashMilliseconds (d : dict) (clock : list Z) (ms : Z) : option (Z * dict) :=
  rehash_ms_loop d clock ms 0.

Definition _dictRehashStep (d : dict) : option dict :=
  if iterators d =? 0 then '(_, d) ← dictRehash d 1; Some d else Some d.

Definition rehash_step_if (d : dict) : option dict :=
  if dictIsRehashing d then _dictRehashStep d else Some d.

(** ** Entries *)

(** The entries of a table, and of both, in the order of the buckets. *)
Definition ht_entries (h : dictht) : list dictEntry := concat (default [] (table h)).
Definition entries (d : dict) : list dictEntry := ht_entries (ht0 d) ++ ht_entries (ht1 d).

(** The entry a pointer is to; a pointer to a freed entry is [None]. *)
Definition deref (d : dict) (a : nat) : option dictEntry :=
  snd <$> list_find (fun e => e_addr e = a) (entries d).

Definition dictGetKey (d : dict) (a : nat) : option K := e_key <$> deref d a.
Definition dictGetVal (d : dict) (a : nat) : option (option V) := e_val <$> deref d a.

Definition map_ht (f : dictEntry -> dictEntry) (h : dictht) : dictht :=
  mk_dictht (option_map (map (map f)) (table h)) (size h) (sizemask h) (used h).

(** The entry at an address is changed. *)
Definition set_entry (d : dict) (a : nat) (f : dictEntry -> dictEntry) : option dict :=
  _ ← deref d a;
  let g e := if decide (e_addr e = a) then f e else e in
  Some (set_rehash d (map_ht g (ht0 d)) (map_ht g (ht1 d)) (rehashidx d)).

Definition dictSetVal (d : dict) (a : nat) (val : V) : option dict :=
  set_entry d a (fun e => mk_entry (e_addr e) (e_key e)
    (Some (match valDup with Some f => f val | None => val end))).

Definition dictSetKey (d : dict) (a : nat) (key : K) : option dict :=
  set_entry d a (fun e => mk_entry (e_addr e) (match keyDup with Some f => f key | None => key end) (e_val e)).

(** The walk along a chain: the entry with the key, with its place. *)
Definition chain_find (key : K) (c : list dictEntry) : option (nat * dictEntry) :=
  list_find (fun e => dictCompareKeys key (e_key e) = true) c.

(** ** Adding *)

(** The index of the bucket for a new entry, in the table entries are added to; -1 if the
    key is there.  It is returned as an [int]. *)
Definition _dictKeyIndex (can_resize : bool) (d : dict) (key : K) : option (Z * dict) :=
  '(ret, d) ← _dictExpandIfNeeded can_resize d;
  if ret =? DICT_ERR then Some (-1, d)
  else
    let h := dictHashKey key in
    let idx := Z.land h (sizemask (ht0 d)) in
    c ← bucket (ht0 d) idx;
    match chain_find key c with
    | Some _ => Some (-1, d)
    | None =>
        if negb (dictIsRehashing d) then Some (to_n4 idx, d)
        else
          let idx := Z.land h (sizemask (ht1 d)) in
          c ← bucket (ht1 d) idx;
          match chain_find key c with
          | Some _ => Some (-1, d)
          | None => Some (to_n4 idx, d)
          end
    end.

(** The address of the new entry, or nil. *)
Definition dictAddRaw (can_resize : bool) (d : dict) (key : K) : option (option nat * dict) :=
  d ← rehash_step_if d;
  '(index, d) ← _dictKeyIndex can_resize d key;
  if index =? -1 then Some (None, d)
  else
    let t := if dictIsRehashing d then 1%nat else O in
    let h := ht d t in
    next ← bucket h index;
    let entry := mk_entry (fresh d) key None in
    let h := set_used (set_bucket h index (entry :: next)) (u8 (used h + 1)) in
    let d := set_ht (mk_dict (ht0 d) (ht1 d) (rehashidx d) (iterators d) (S (fresh d))) t h in
    d ← dictSetKey d (e_addr entry) key;
    Some (Some (e_addr entry), d).

Definition dictAdd (can_resize : bool) (d : dict) (key : K) (val : V) : option (Z * dict) :=
  '(entry, d) ← dictAddRaw can_resize d key;
  match entry with
  | None => Some (DICT_ERR, d)
  | Some a => d ← dictSetVal d a val; Some (DICT_OK, d)
  end.

(** ** Finding *)

Definition dictFind (d : dict) (key : K) : option (option nat * dict) :=
  if size (ht0 d) =? 0 then Some (None, d)
  else
    d ← rehash_step_if d;
    let h := dictHashKey key in
    c ← bucket (ht0 d) (Z.land h (sizemask (ht0 d)));
    match chain_find key c with
    | Some (_, he) => Some (Some (e_addr he), d)
    | None =>
        if negb (dictIsRehashing d) then Some (None, d)
        else
          c ← bucket (ht1 d) (Z.land h (sizemask (ht1 d)));
          match chain_find key c with
          | Some (_, he) => Some (Some (e_addr he), d)
          | None => Some (None, d)
          end
    end.

(** nil, or the value of the entry. *)
Definition dictFetchValue (d : dict) (key : K) : option (option (option V) * dict) :=
  '(he, d) ← dictFind d key;
  match he with
  | None => Some (None, d)
  | Some a => v ← dictGetVal d a; Some (Some v, d)
  end.

Definition dictReplace (can_resize : bool) (d : dict) (key : K) (val : V)
  : option (Z * list effect * dict) :=
  '(ret, d) ← dictAdd can_resize d key val;
  if ret =? DICT_OK then Some (1, [], d)
  else
    '(entry, d) ← dictFind d key;
    a ← entry;
    auxentry ← deref d a;
    d ← dictSetVal d a val;
    Some (0, (if valDestructor then [FreeVal (e_val auxentry)] else []), d).

Definition dictReplaceRaw (can_resize : bool) (d : dict) (key : K) : option (option nat * dict) :=
  '(entry, d) ← dictFind d key;
  match entry with Some a => Some (Some a, d) | None => dictAddRaw can_resize d key end.

(** ** Removing *)

(** The bucket of one table: the entry is unlinked where it is met. *)
Definition delete_in (d : dict) (t : nat) (key : K) (nofree : bool) : option (option (list effect * dict)) :=
  let h := ht d t in
  let idx := Z.land (dictHashKey key) (sizemask h) in
  c ← bucket h idx;
  match chain_find key c with
  | None => Some None
  | Some (i, he) =>
      let h := set_bucket h idx (delete i c) in
      Some (Some (if negb nofree && keyDestructor then [FreeKey (e_key he)] else [],
                  set_ht d t (set_used h (u8 (used h - 1)))))
  end.

Definition dictGenericDelete (d : dict) (key : K) (nofree : bool) : option (Z * list effect * dict) :=
  if size (ht0 d) =? 0 then Some (DICT_ERR, [], d)
  else
    d ← rehash_step_if d;
    found ← delete_in d 0 key nofree;
    match found with
    | Some (fx, d) => Some (DICT_OK, fx, d)
    | None =>
        if negb (dictIsRehashing d) then Some (DICT_ERR, [], d)
        else
          found ← delete_in d 1 key nofree;
          match found with
          | Some (fx, d) => Some (DICT_OK, fx, d)
          | None => Some (DICT_ERR, [], d)
          end
    end.

Definition dictDelete (d : dict) (key : K) := dictGenericDelete d key false.
Definition dictDeleteNoFree (d : dict) (key : K) := dictGenericDelete d key true.

Definition free_entry (e : dictEntry) : list effect :=
  (if keyDestructor then [FreeKey (e_key e)] else []) ++
  (if valDestructor then [FreeVal (e_val e)] else []).

(** The loop of [_dictClear] from index [i] on. *)
Fixpoint clear_loop (callback : bool) (t : list (list dictEntry)) (i used : Z) : list effect :=
  match t with
  | [] => []
  | c :: t' =>
      if used =? 0 then []
      else (if callback && (Z.land i 65535 =? 0) then [CallBack] else []) ++
           concat (map free_entry c) ++ clear_loop callback t' (i + 1) (u8 (used - Z.of_nat (length c)))
  end.

Definition _dictClear (callback : bool) (h : dictht) : list effect * dictht :=
  (clear_loop callback (default [] (table h)) 0 (used h), _dictReset).

Definition dictRelease (d : dict) : list effect :=
  fst (_dictClear false (ht0 d)) ++ fst (_dictClear false (ht1 d)).

Definition dictEmpty (d : dict) (callback : bool) : list effect * dict :=
  let '(fx0, h0) := _dictClear callback (ht0 d) in
  let '(fx1, h1) := _dictClear callback (ht1 d) in
  (fx0 ++ fx1, mk_dict h0 h1 (-1) 0 (fresh d)).

(** ** Iterators *)

(** [fingerprint] is left out: it is written for unsafe iterators and never read. *)
Record dictIterator := mk_iter {
  i_index : Z;
  i_table : nat;
  i_safe : bool;
  i_entry : option nat;
  i_next : option nat;
}.

Definition dictGetIterator : dictIterator := mk_iter (-1) 0 false None None.
Definition dictGetSafeIterator : dictIterator := mk_iter (-1) 0 true None None.

Definition set_iterators (d : dict) (n : Z) : dict := mk_dict (ht0 d) (ht1 d) (rehashidx d) n (fresh d).

(** [entry->next]: the entry behind in its chain. *)
Definition next_in_chain (a : nat) (c : list dictEntry) : option (option nat) :=
  '(i, _) ← list_find (fun e => e_addr e = a) c; Some (e_addr <$> c !! S i).

Fixpoint next_in_table (a : nat) (t : list (list dictEntry)) : option (option nat) :=
  match t with
  | [] => None
  | c :: t' => match next_in_chain a c with Some n => Some n | None => next_in_table a t' end
  end.

(** [de->next]; the pointer must be to an entry. *)
Definition entry_next (d : dict) (a : nat) : option (option nat) :=
  next_in_table a (default [] (table (ht0 d)) ++ default [] (table (ht1 d))).

Definition table_head (h : dictht) (i : Z) : option (option nat) :=
  c ← bucket h i; Some (e_addr <$> head c).

(** One round per bucket, and one to end. *)
Fixpoint next_loop (fuel : nat) (d : dict) (it : dictIterator) : option (option nat * dict * dictIterator) :=
  match fuel with
  | O => None
  | S f =>
      let found d it (e : option nat) :=
        match e with
        | Some a =>
            n ← entry_next d a;
            Some (Some a, d, mk_iter (i_index it) (i_table it) (i_safe it) (Some a) n)
        | None => next_loop f d (mk_iter (i_index it) (i_table it) (i_safe it) None (i_next it))
        end in
      match i_entry it with
      | Some _ => found d it (i_next it)
      | None =>
          let first := (i_index it =? -1) && (Nat.eqb (i_table it) 0) in
          let d := if first && i_safe it then set_iterators d (iterators d + 1) else d in
          let index := i_index it + 1 in
          if size (ht d (i_table it)) <=? index then
            if dictIsRehashing d && Nat.eqb (i_table it) 0 then
              e ← table_head (ht1 d) 0;
              found d (mk_iter 0 1 (i_safe it) None (i_next it)) e
            else Some (None, d, mk_iter index (i_table it) (i_safe it) None (i_next it))
          else
            e ← table_head (ht d (i_table it)) index;
            found d (mk_iter index (i_table it) (i_safe it) None (i_next it)) e
      end
  end.

Definition dictNext (d : dict) (it : dictIterator) : option (option nat * dict * dictIterator) :=
  next_loop (S (S (Z.to_nat (size (ht0 d) + size (ht1 d))))) d it.

Definition dictReleaseIterator (d : dict) (it : dictIterator) : dict :=
  if negb ((i_index it =? -1) && (Nat.eqb (i_table it) 0)) && i_safe it
  then set_iterators d (iterators d - 1) else d.

(** ** Random entries

    [random] is the stream of what [random()] answers; the program goes on asking until
    a bucket is not empty. *)

Fixpoint random_bucket (random : list Z) (pick : Z -> option (list dictEntry)) : option (list dictEntry * list Z) :=
  match random with
  | [] => None
  | r :: random' =>
      c ← pick r;
      match c with [] => random_bucket random' pick | _ => Some (c, random') end
  end.

(** [h] is an [unsigned int]. *)
Definition pick_rehashing (d : dict) (r : Z) : option (list dictEntry) :=
  let h := u4 (rehashidx d + r mod (size (ht0 d) + size (ht1 d) - rehashidx d)) in
  if size (ht0 d) <=? h then bucket (ht1 d) (h - size (ht0 d)) else bucket (ht0 d) h.

Definition dictGetRandomKey (d : dict) (random : list Z) : option (option nat * dict) :=
  if dictSize d =? 0 then Some (None, d)
  else
    d ← rehash_step_if d;
    '(c, random) ← random_bucket random
      (if dictIsRehashing d then pick_rehashing d
       else fun r => bucket (ht0 d) (u4 (Z.land r (sizemask (ht0 d)))));
    listele ← head random;
    he ← c !! Z.to_nat (listele mod Z.of_nat (length c));
    Some (Some (e_addr he), d).

(** The variables of [dictGetSomeKeys]: what [random] will answer, the index, the empty
    buckets in a row, and the entries stored. *)
Record sampling := mk_sampling { sm_random : list Z; sm_i : Z; sm_emptylen : Z; sm_des : list nat }.

(** The body of its inner loop for table [j]: is [count] reached? *)
Definition sample_bucket (d : dict) (tables : Z) (maxsizemask count : Z) (j : nat) (s : sampling)
  : option (bool * sampling) :=
  let i := sm_i s in
  if (tables =? 2) && Nat.eqb j 0 && (i <? rehashidx d) then
    let i := if size (ht1 d) <=? i then u4 (rehashidx d) else i in
    Some (false, mk_sampling (sm_random s) i (sm_emptylen s) (sm_des s))
  else if size (ht d j) <=? i then Some (false, s)
  else
    he ← bucket (ht d j) i;
    match he with
    | [] =>
        let emptylen := sm_emptylen s + 1 in
        if (5 <=? emptylen) && (count <? emptylen) then
          match sm_random s with
          | [] => None
          | r :: random => Some (false, mk_sampling random (u4 (Z.land r maxsizemask)) 0 (sm_des s))
          end
        else Some (false, mk_sampling (sm_random s) i emptylen (sm_des s))
    | _ =>
        let des := sm_des s ++ map e_addr (take (Z.to_nat count - length (sm_des s)) he) in
        Some (count <=? Z.of_nat (length des), mk_sampling (sm_random s) i 0 des)
    end.

(** [while(stored < count && maxsteps--)] *)
Fixpoint sample_loop (maxsteps : nat) (d : dict) (tables maxsizemask count : Z) (s : sampling)
  : option (list nat) :=
  if count <=? Z.of_nat (length (sm_des s)) then Some (sm_des s)
  else
    match maxsteps with
    | O => Some (sm_des s)
    | S f =>
        '(full, s) ← sample_bucket d tables maxsizemask count 0 s;
        if full : bool then Some (sm_des s)
        else
          '(full, s) ← (if tables =? 2 then sample_bucket d tables maxsizemask count 1 s else Some (false, s));
          if full : bool then Some (sm_des s)
          else sample_loop f d tables maxsizemask count
                 (mk_sampling (sm_random s) (Z.land (u4 (sm_i s + 1)) maxsizemask) (sm_emptylen s) (sm_des s))
    end.

Fixpoint rehash_steps (n : nat) (d : dict) : option dict :=
  match n with
  | O => Some d
  | S n' => if dictIsRehashing d then d ← _dictRehashStep d; rehash_steps n' d else Some d
  end.

(** What is stored into [des]; the count is its length. *)
Definition dictGetSomeKeys (d : dict) (count : Z) (random : list Z) : option (list nat * dict) :=
  let count := if dictSize d <? count then u4 (dictSize d) else count in
  let maxsteps := u4 (count * 10) in
  d ← rehash_steps (Z.to_nat count) d;
  let tables := if dictIsRehashing d then 2 else 1 in
  let maxsizemask := u4 (sizemask (ht0 d)) in
  let maxsizemask :=
    if (1 <? tables) && (maxsizemask <? sizemask (ht1 d)) then u4 (sizemask (ht1 d)) else maxsizemask in
  match random with
  | [] => None
  | r :: random =>
      des ← sample_loop (Z.to_nat maxsteps) d tables maxsizemask count
              (mk_sampling random (u4 (Z.land r maxsizemask)) 0 []);
      Some (des, d)
  end.

(** ** Scanning *)

(** The loop of [rev]: [s] is halved until it is 0. *)
Fixpoint rev_loop (fuel : nat) (s mask v : Z) : Z :=
  match fuel with
  | O => v
  | S f =>
      let s := Z.shiftr s 1 in
      if 0 <? s then
        let mask := Z.lxor mask (u8 (Z.shiftl mask s)) in
        let v := Z.lor (Z.land (Z.shiftr v s) mask) (Z.land (u8 (Z.shiftl v s)) (u8 (Z.lnot mask))) in
        rev_loop f s mask v
      else v
  end.

(** 64 is halved to 0 in seven rounds. *)
Definition rev (v : Z) : Z := rev_loop 7 64 (u8 (Z.lnot 0)) v.

(** The inner loop of [dictScan] over the expansions of the cursor; the entries given
    to the callback are returned. *)
Fixpoint scan_expansions (fuel : nat) (t1 : dictht) (m0 m1 v : Z) : option (list dictEntry * Z) :=
  match fuel with
  | O => None
  | S f =>
      de ← bucket t1 (Z.land v m1);
      let v := Z.lor (Z.land (u8 (Z.lor v m0 + 1)) (u8 (Z.lnot m0))) (Z.land v m0) in
      if Z.land v (Z.lxor m0 m1) =? 0 then Some (de, v)
      else '(des, v) ← scan_expansions f t1 m0 m1 v; Some (de ++ des, v)
  end.

(** The cursor is advanced in the order of its reversed bits. *)
Definition next_cursor (v m0 : Z) : Z := rev (u8 (rev (Z.lor v (u8 (Z.lnot m0))) + 1)).

Definition dictScan (d : dict) (v : Z) : option (list dictEntry * Z) :=
  if dictSize d =? 0 then Some ([], 0)
  else if negb (dictIsRehashing d) then
    let m0 := sizemask (ht0 d) in
    de ← bucket (ht0 d) (Z.land v m0);
    Some (de, next_cursor v m0)
  else
    let '(t0, t1) := if size (ht1 d) <? size (ht0 d) then (ht1 d, ht0 d) else (ht0 d, ht1 d) in
    let m0 := sizemask t0 in
    let m1 := sizemask t1 in
    de ← bucket t0 (Z.land v m0);
    '(des, v) ← scan_expansions (S (Z.to_nat (size t1))) t1 m0 m1 v;
    Some (de ++ des, next_cursor v m0).

End Dict.

Arguments dictEntry : clear implicits.
Arguments dictht : clear implicits.
Arguments dict : clear implicits.
Arguments effect : clear implicits.

End Dict.
