(* ===== verification/DictSpec.v ===== *)
(** * The dictionary of dict.c as a finite map

    The invariant [wf] of a dictionary, that every operation keeps it and does to the
    finite map of its keys what its name says, in the middle of a rehashing too. *)

From S2P Require Import Prelude Dict.
Import Dict.

(** What the functions of a [dictType] promise: the hash is an [unsigned int], the
    comparison is equality, and a copy of a key is equal to it. *)
Class DictLaws (K V : Type) `{DictType K V} := {
  hash_range k : 0 <= hashFunction k < 2 ^ 32;
  compare_eq f k1 k2 : keyCompare = Some f -> f k1 k2 = true <-> k1 = k2;
  dup_eq f k : keyDup = Some f -> f k = k;
}.

Module DictSpec.
Section DictSpec.
Context {K V : Type} `{EqDecision K} `{!DictType K V} `{!DictLaws K V}.

Notation entry := (dictEntry K V).
Notation dictht := (dictht K V).
Notation dict := (dict K V).
Implicit Types (h : dictht) (d : dict) (e : entry) (k : K) (v : V).

(** ** The invariant *)

Definition in_bucket h (i : nat) e : Prop := Z.of_nat i = Z.land (dictHashKey (e_key e)) (sizemask h).

Definition wf_ht h : Prop :=
  match table h with
  | None => size h = 0 /\ sizemask h = 0 /\ used h = 0
  | Some t =>
      (exists b, 2 <= b <= 31 /\ size h = 2 ^ b) /\ sizemask h = size h - 1 /\
      Z.of_nat (length t) = size h /\ used h = Z.of_nat (length (ht_entries h)) /\
      forall i c e, t !! i = Some c -> e ∈ c -> in_bucket h i e
  end.

Definition empty_below h (n : Z) : Prop := forall i c, 0 <= i < n -> bucket h i = Some c -> c = [].

Record wf d : Prop := mk_wf {
  wf_ht0 : wf_ht (ht0 d);
  wf_ht1 : wf_ht (ht1 d);
  wf_keys : NoDup (e_key <$> entries d);
  wf_addrs : NoDup (e_addr <$> entries d);
  wf_fresh : Forall (fun e => (e_addr e < fresh d)%nat) (entries d);
  wf_used : Z.of_nat (length (entries d)) < 2 ^ 32;
  wf_idle : dictIsRehashing d = false -> rehashidx d = -1 /\ ht1 d = _dictReset;
  wf_busy : dictIsRehashing d = true -> is_Some (table (ht0 d)) /\ is_Some (table (ht1 d)) /\
    0 <= rehashidx d <= size (ht0 d) /\ empty_below (ht0 d) (rehashidx d);
}.

Lemma compare_spec k1 k2 : dictCompareKeys k1 k2 = true <-> k1 = k2.
Proof.
  unfold dictCompareKeys. destruct keyCompare as [f|] eqn:E; [by apply compare_eq|].
  apply bool_decide_eq_true.
Qed.

(** ** Tables *)

Lemma dict_land_mask h x : wf_ht h -> is_Some (table h) -> 0 <= x -> 0 <= Z.land x (sizemask h) < size h.
Proof.
  unfold wf_ht. intros Hw [t Et] Hx. rewrite Et in Hw.
  destruct Hw as ((b & Hb & Hs) & Hm & _). rewrite Hm, Hs.
  replace (2 ^ b - 1) with (Z.ones b) by (rewrite Z.ones_equiv; lia).
  rewrite Z.land_ones by lia. apply Z.mod_pos_bound. lia.
Qed.

Lemma bucket_range h i : wf_ht h -> is_Some (table h) -> 0 <= i < size h -> exists c, bucket h i = Some c.
Proof.
  unfold wf_ht, bucket. intros Hw [t Et] Hi. rewrite Et in *. cbn.
  rewrite (proj2 (Z.ltb_ge i 0)) by lia. destruct Hw as (_ & _ & Hl & _).
  destruct (lookup_lt_is_Some_2 t (Z.to_nat i)) as [c Hc]; [lia|eauto].
Qed.

Lemma bucket_hash h k : wf_ht h -> is_Some (table h) ->
  exists c, bucket h (Z.land (dictHashKey k) (sizemask h)) = Some c.
Proof.
  intros Hw Ht. apply bucket_range; [done|done|]. apply dict_land_mask; [done|done|]. apply hash_range.
Qed.

Lemma bucket_inv h i c : bucket h i = Some c ->
  exists t, table h = Some t /\ 0 <= i /\ t !! Z.to_nat i = Some c.
Proof.
  unfold bucket. destruct (table h) as [t|]; [|done]. cbn.
  destruct (i <? 0) eqn:Ei; [done|]. intros Hc. exists t. split; [done|]. split; [lia|done].
Qed.

Lemma elem_of_ht_entries h e : wf_ht h -> e ∈ ht_entries h ->
  exists c, bucket h (Z.land (dictHashKey (e_key e)) (sizemask h)) = Some c /\ e ∈ c.
Proof.
  unfold wf_ht, ht_entries, bucket. destruct (table h) as [t|] eqn:Et; cbn; [|set_solver].
  intros (_ & _ & _ & _ & Hin) (j & c & Hj & He)%elem_of_concat. exists c. split; [|done].
  pose proof (Hin j c e Hj He) as E. unfold in_bucket in E. rewrite <- E, (proj2 (Z.ltb_ge _ _)) by lia.
  by rewrite Nat2Z.id.
Qed.

Lemma bucket_elem h i c e : bucket h i = Some c -> e ∈ c -> e ∈ ht_entries h.
Proof.
  intros (t & Et & _ & Hc)%bucket_inv He. unfold ht_entries. rewrite Et. cbn. apply elem_of_concat. eauto.
Qed.

(** A bucket is exchanged for another: what it does to the entries and to the invariant. *)
Lemma set_bucket_entries h i c c' : bucket h i = Some c ->
  exists rest, ht_entries h ≡ₚ c ++ rest /\ ht_entries (set_bucket h i c') ≡ₚ c' ++ rest.
Proof.
  intros (t & Et & _ & Hc)%bucket_inv. unfold ht_entries, set_bucket. rewrite Et. cbn.
  exists (concat (delete (Z.to_nat i) t)). split; [by apply concat_lookup_perm|].
  by apply (concat_insert_perm _ _ c).
Qed.

Lemma set_bucket_wf h i c c' n : wf_ht h -> bucket h i = Some c ->
  (forall e, e ∈ c' -> in_bucket h (Z.to_nat i) e) ->
  n = used h - Z.of_nat (length c) + Z.of_nat (length c') ->
  wf_ht (set_used (set_bucket h i c') n).
Proof.
  intros Hw Hb Hin ->. pose proof (set_bucket_entries h i c c' Hb) as (rest & P & P').
  apply bucket_inv in Hb as (t & Et & Hi & Hc). revert Hw.
  unfold wf_ht, set_used, set_bucket, in_bucket in *. rewrite Et. cbn.
  intros (Hsz & Hm & Hl & Hu & Hall). split_and!; [done|done|by rewrite length_insert| |].
  - rewrite Hu. apply Permutation_length in P, P'. revert P P'.
    unfold ht_entries, set_bucket. rewrite Et. cbn. rewrite !length_app. lia.
  - intros j cj e Hj He. apply list_lookup_insert_Some in Hj as [(<- & <- & _)|(_ & Hj)]; eauto.
Qed.

Lemma set_used_id h : set_used h (used h) = h.
Proof. by destruct h. Qed.

Lemma next_power_spec fuel b n :
  2 <= b <= 31 -> n <= 2 ^ 31 -> (b = 2 \/ 2 ^ (b - 1) < n) -> (32 - b <= Z.of_nat fuel) ->
  exists b', next_power fuel (2 ^ b) n = Some (2 ^ b') /\ b <= b' <= 31 /\ n <= 2 ^ b' /\
    (b' = 2 \/ 2 ^ (b' - 1) < n).
Proof.
  revert b. induction fuel as [|f IH]; intros b Hb Hn Hlow Hf; [lia|]. cbn [next_power].
  destruct (Z.leb_spec n (2 ^ b)).
  { exists b. split_and!; [done|lia|lia|done|done]. }
  assert (b < 31) by (destruct (Z.eq_dec b 31); [subst; lia|lia]).
  rewrite u8_id.
  - replace (2 ^ b * 2) with (2 ^ (b + 1)) by (rewrite Z.pow_add_r by lia; lia).
    destruct (IH (b + 1)) as (b' & E & ? & ? & ?); [lia|done|right; by replace (b + 1 - 1) with b by lia|lia|].
    exists b'. split_and!; [done|lia|lia|done|done].
  - split; [lia|]. assert (2 ^ b <= 2 ^ 30) by (apply Z.pow_le_mono_r; lia).
    replace U8_MOD with (2 ^ 64) by done. lia.
Qed.

Lemma dictNextPower_spec n : n <= 2 ^ 31 ->
  exists b, _dictNextPower n = Some (2 ^ b) /\ 2 <= b <= 31 /\ n <= 2 ^ b /\ (b = 2 \/ 2 ^ (b - 1) < n).
Proof.
  intros Hn. unfold _dictNextPower. rewrite (proj2 (Z.leb_gt _ _)) by (unfold LONG_MAX; lia).
  destruct (next_power_spec 63 2 n) as (b & E & ? & ? & ?); [lia|done|by left|lia|]. eauto.
Qed.

Lemma new_ht_wf b : 2 <= b <= 31 -> wf_ht (new_ht (2 ^ b)) /\ ht_entries (new_ht (2 ^ b) : dictht) = [].
Proof.
  intros Hb. assert (Hp : 2 ^ 2 <= 2 ^ b <= 2 ^ 31) by (split; apply Z.pow_le_mono_r; lia).
  assert (E : ht_entries (new_ht (2 ^ b) : dictht) = []).
  { unfold ht_entries, new_ht. cbn. by induction (Z.to_nat (2 ^ b)). }
  split; [|done]. unfold wf_ht. rewrite E. unfold new_ht. cbn [table size sizemask used length].
  split_and!; [by eauto| | |done|].
  - apply u8_id. unfold is_u8. assert (2 ^ 31 < U8_MOD) by done. lia.
  - rewrite length_replicate. lia.
  - intros i c e (-> & _)%lookup_replicate_1 He. set_solver.
Qed.

(** ** Rehashing *)

Lemma move_chain_spec c h0 h1 :
  wf_ht h1 -> is_Some (table h1) -> Z.of_nat (length c) <= used h0 < 2 ^ 33 ->
  0 <= used h1 -> used h1 + Z.of_nat (length c) < 2 ^ 33 ->
  exists h1', move_chain c h0 h1 = Some (set_used h0 (used h0 - Z.of_nat (length c)), h1') /\
    wf_ht h1' /\ is_Some (table h1') /\ size h1' = size h1 /\ used h1' = used h1 + Z.of_nat (length c) /\
    ht_entries h1' ≡ₚ c ++ ht_entries h1.
Proof.
  assert (HM : 2 ^ 33 < U8_MOD) by done.
  revert h0 h1. induction c as [|de c IH]; intros h0 h1 Hw Ht Hu0 Hu1 Hs; cbn [move_chain length].
  { exists h1. cbn [length] in Hu0. rewrite Z.sub_0_r, Z.add_0_r, set_used_id. done. }
  cbn [length] in *. destruct (bucket_hash h1 (e_key de) Hw Ht) as (b & Hb). rewrite Hb. cbn.
  rewrite !u8_id by (unfold is_u8; lia).
  pose proof (set_bucket_entries _ _ _ (de :: b) Hb) as (rest & P & P').
  pose proof (dict_land_mask h1 (dictHashKey (e_key de)) Hw Ht (proj1 (hash_range _))) as Hi.
  assert (Hw' : wf_ht (set_used (set_bucket h1 (Z.land (dictHashKey (e_key de)) (sizemask h1)) (de :: b)) (used h1 + 1))).
  { eapply set_bucket_wf; [done|exact Hb| |cbn [length]; lia].
    intros e [->|He]%elem_of_cons; unfold in_bucket.
    - by rewrite Z2Nat.id by lia.
    - apply bucket_inv in Hb as (t & Et & Hi0 & Hc). revert Hw. unfold wf_ht. rewrite Et. intros (_ & _ & _ & _ & Hall).
      by apply (Hall _ _ _ Hc). }
  edestruct (IH (set_used h0 (used h0 - 1))) as (h1' & E & W & T & Sz & U & Pm); [exact Hw'|..].
  - destruct Ht as [t Et]. unfold set_used, set_bucket. rewrite Et. cbn. eauto.
  - cbn. lia.
  - cbn. lia.
  - cbn. lia.
  - exists h1'. split_and!; [|done|done|done| |].
    + replace (used h0 - Z.of_nat (S (length c))) with (used h0 - 1 - Z.of_nat (length c)) by lia. exact E.
    + rewrite U. cbn. lia.
    + rewrite Pm. unfold set_used, ht_entries in *. cbn in *. rewrite P', P. solve_Permutation.
Qed.

(** An [int] that counts down to 0. *)
Definition counts (n : Z) : Prop := 0 < n < 2 ^ 31.

Lemma count_down n : counts n -> chk_n4 (n - 1) = Some (n - 1) /\ (n - 1 = 0 \/ counts (n - 1)).
Proof. unfold counts. intros Hn. split; [apply chk_n4_ok|]; lia. Qed.

Lemma skip_empty_spec f ev h idx j c :
  counts ev -> (Z.to_nat (j - idx) < f)%nat ->
  wf_ht h -> bucket h j = Some c -> c <> [] -> 0 <= idx <= j -> empty_below h idx ->
  exists g idx' ev', skip_empty f ev h idx = Some (g, idx', ev') /\ idx <= idx' <= j /\ empty_below h idx' /\
    (g = false -> counts ev').
Proof.
  intros Hev Hf Hw Hj Hc. revert ev idx Hev Hf. induction f as [|f IH]; [lia|]. intros ev idx Hev Hf Hi Hlow. cbn [skip_empty].
  assert (Ht : is_Some (table h)) by (apply bucket_inv in Hj as (t & ? & _); eauto).
  assert (Hjs : j < size h).
  { apply bucket_inv in Hj as (t & Et & ? & Hl%lookup_lt_Some). revert Hw. unfold wf_ht. rewrite Et. lia. }
  destruct (bucket_range h idx) as (b & Hb); [done|done|lia|]. rewrite Hb. cbn.
  destruct b as [|e b]; [|exists false, idx, ev; split_and!; [done|lia|lia|done|done]].
  assert (idx <> j) by (intros ->; congruence).
  assert (Hlow' : empty_below h (idx + 1)).
  { intros i c' Hi' Hb'. destruct (decide (i = idx)) as [->|]; [congruence|]. apply (Hlow i); [lia|done]. }
  destruct (count_down ev Hev) as [-> Hev']. cbn [mbind option_bind].
  destruct (Z.eqb_spec (ev - 1) 0) as [|Hne]; [exists true, (idx + 1), 0; split_and!; [done|lia|lia|done|done]|].
  destruct (IH (ev - 1) (idx + 1)) as (g & idx' & ev' & E & ? & ? & ?); [tauto|lia|lia|done|].
  exists g, idx', ev'. split_and!; [done|lia|lia|done|done].
Qed.

(** The size of the smaller table in use. *)
Definition small d : Z :=
  if dictIsRehashing d then Z.min (size (ht0 d)) (size (ht1 d)) else size (ht0 d).

(** What moving entries between the tables leaves alone. *)
Record kept d d' : Prop := mk_kept {
  kept_entries : entries d' ≡ₚ entries d;
  kept_iterators : iterators d' = iterators d;
  kept_fresh : fresh d' = fresh d;
  kept_small : small d <= small d';
}.

#[local] Instance kept_preorder : PreOrder kept.
Proof.
  split; [by intros d|]. intros d1 d2 d3 [P1 I1 F1 S1] [P2 I2 F2 S2].
  split; [by rewrite P2|congruence|congruence|lia].
Qed.

Lemma wf_move d d' : wf d -> entries d' ≡ₚ entries d -> fresh d' = fresh d ->
  wf_ht (ht0 d') -> wf_ht (ht1 d') ->
  (dictIsRehashing d' = false -> rehashidx d' = -1 /\ ht1 d' = _dictReset) ->
  (dictIsRehashing d' = true -> is_Some (table (ht0 d')) /\ is_Some (table (ht1 d')) /\
    0 <= rehashidx d' <= size (ht0 d') /\ empty_below (ht0 d') (rehashidx d')) -> wf d'.
Proof.
  intros [_ _ Hk Ha Hf Hu _ _] P F W0 W1 Hi Hb. constructor; try done.
  - by rewrite P.
  - by rewrite P.
  - rewrite P, F. done.
  - by rewrite P.
Qed.

Lemma wf_used_eq h : wf_ht h -> used h = Z.of_nat (length (ht_entries h)).
Proof. unfold wf_ht, ht_entries. destruct (table h) as [t|]; cbn; [naive_solver|intros (_ & _ & ->); done]. Qed.

Lemma wf_reset : wf_ht _dictReset.
Proof. done. Qed.

Lemma nonempty_bucket h : wf_ht h -> used h <> 0 -> exists j c, bucket h j = Some c /\ c <> [] /\ 0 <= j.
Proof.
  intros Hw Hu. rewrite (wf_used_eq h Hw) in Hu.
  destruct (ht_entries h) as [|e l] eqn:E; [done|].
  destruct (elem_of_ht_entries h e Hw) as (c & Hc & He); [rewrite E; set_solver|].
  eexists _, c. split; [exact Hc|]. split; [by intros ->; set_solver|]. by apply bucket_inv in Hc as (? & _ & ? & _).
Qed.

Lemma bucket_set_same h i c c' : bucket h i = Some c -> bucket (set_bucket h i c') i = Some c'.
Proof.
  intros (t & Et & Hi & Hc)%bucket_inv. unfold bucket, set_bucket. rewrite Et. cbn.
  rewrite (proj2 (Z.ltb_ge _ _)) by lia. apply list_lookup_insert_eq. by eapply lookup_lt_Some.
Qed.

Lemma bucket_set_other h i j c' : 0 <= i -> i <> j -> bucket (set_bucket h i c') j = bucket h j.
Proof.
  intros Hi Hj. unfold bucket, set_bucket. destruct (table h) as [t|]; [|done]. cbn.
  destruct (Z.ltb_spec j 0); [done|]. apply list_lookup_insert_ne. lia.
Qed.

Lemma rehash_one d idx c : wf d -> dictIsRehashing d = true ->
  empty_below (ht0 d) idx -> bucket (ht0 d) idx = Some c ->
  exists h1', move_chain c (ht0 d) (ht1 d) = Some (set_used (ht0 d) (used (ht0 d) - Z.of_nat (length c)), h1') /\
    let d' := set_rehash d (set_bucket (set_used (ht0 d) (used (ht0 d) - Z.of_nat (length c))) idx []) h1' (idx + 1) in
    wf d' /\ kept d d' /\ dictIsRehashing d' = true.
Proof.
  intros Hw Hr Hlow Hc. destruct (wf_busy d Hw Hr) as (T0 & T1 & Hidx & _).
  pose proof (wf_ht0 d Hw) as W0. pose proof (wf_ht1 d Hw) as W1.
  pose proof (wf_used_eq _ W0) as U0. pose proof (wf_used_eq _ W1) as U1.
  pose proof (wf_used d Hw) as Hu. unfold entries in Hu. rewrite length_app in Hu.
  pose proof (set_bucket_entries _ _ _ [] Hc) as (rest & P & P').
  pose proof (Permutation_length P) as L. rewrite length_app in L.
  assert (Hi : 0 <= idx < size (ht0 d)).
  { apply bucket_inv in Hc as (t & Et & ? & Hl%lookup_lt_Some). revert W0. unfold wf_ht. rewrite Et. lia. }
  destruct (move_chain_spec c (ht0 d) (ht1 d)) as (h1' & E & W1' & T1' & Sz & U' & Pm); [done|done|lia|lia|lia|].
  exists h1'. split; [done|]. set (d' := set_rehash _ _ _ _). assert (Hr' : dictIsRehashing d' = true).
  { unfold dictIsRehashing, d'. cbn. apply negb_true_iff, Z.eqb_neq. lia. }
  assert (W0' : wf_ht (ht0 d')).
  { change (wf_ht (set_used (set_bucket (ht0 d) idx []) (used (ht0 d) - Z.of_nat (length c)))).
    apply (set_bucket_wf _ _ c); [done|done|set_solver|cbn; lia]. }
  assert (Pd : entries d' ≡ₚ entries d).
  { unfold entries, d'. cbn [ht0 ht1 set_rehash]. rewrite Pm.
    change (ht_entries (set_bucket (set_used (ht0 d) _) idx [])) with (ht_entries (set_bucket (ht0 d) idx [])).
    rewrite P', P. solve_Permutation. }
  split_and!; [|split; [done|done|done|]|done].
  - apply (wf_move d); [done|done|done|done|done|congruence|]. intros _. split_and!; [|done|cbn; lia|cbn; lia|].
    + destruct T0 as [t Et]. cbn. rewrite Et. cbn. eauto.
    + intros i ci Hi' Hb. cbn in Hi'.
      change (bucket (set_bucket (ht0 d) idx []) i = Some ci) in Hb. destruct (decide (i = idx)) as [->|].
      * rewrite (bucket_set_same _ _ c) in Hb by done. congruence.
      * rewrite bucket_set_other in Hb by lia. apply (Hlow i); [lia|done].
  - unfold small. rewrite Hr, Hr'. cbn. lia.
Qed.

Lemma table_buckets h j c : wf_ht h -> bucket h j = Some c -> 0 <= j < size h /\ Z.of_nat (buckets h) = size h.
Proof.
  intros Hw (t & Et & ? & Hl%lookup_lt_Some)%bucket_inv. revert Hw. unfold wf_ht, buckets. rewrite Et. cbn. lia.
Qed.

Lemma rehash_loop_spec f n ev d : wf d -> dictIsRehashing d = true -> n = 0 \/ (counts n /\ counts ev) ->
  (Z.to_nat (size (ht0 d) - rehashidx d) < f)%nat ->
  exists g d', rehash_loop f n ev d = Some (g, d') /\ wf d' /\ kept d d' /\ dictIsRehashing d' = true.
Proof.
  revert n ev d. induction f as [|f IH]; intros n ev d Hw Hr Hev Hf; cbn [rehash_loop]; [lia|].
  destruct (Z.eqb_spec n 0) as [|Hn0]; [exists false, d; by split_and!|].
  destruct Hev as [|[Hn Hev]]; [done|]. destruct (count_down n Hn) as [-> Hn']. cbn [mbind option_bind].
  destruct (Z.eqb_spec (used (ht0 d)) 0) as [E0|E0]; [exists false, d; by split_and!|].
  destruct (wf_busy d Hw Hr) as (T0 & T1 & Hidx & Hlow).
  destruct (nonempty_bucket _ (wf_ht0 d Hw) E0) as (j & c & Hj & Hc & Hj0).
  assert (rehashidx d <= j).
  { destruct (Z.le_gt_cases (rehashidx d) j); [done|]. destruct Hc. apply (Hlow j); [lia|done]. }
  destruct (table_buckets _ j c (wf_ht0 d Hw) Hj) as [Hjs Hbk].
  destruct (skip_empty_spec (S (buckets (ht0 d))) ev (ht0 d) (rehashidx d) j c) as (g & idx & ev' & -> & ? & Hlow' & Hev');
    [done|lia|apply Hw|done|done|lia|done|]. cbn.
  assert (idx <= size (ht0 d)).
  { apply bucket_inv in Hj as (t & Et & ? & Hl%lookup_lt_Some).
    pose proof (wf_ht0 d Hw) as W0. revert W0. unfold wf_ht. rewrite Et. lia. }
  destruct g.
  - eexists true, _. split; [done|]. assert (Hr' : dictIsRehashing (set_rehash d (ht0 d) (ht1 d) idx) = true).
    { unfold dictIsRehashing. cbn. apply negb_true_iff, Z.eqb_neq. lia. }
    split_and!; [|split; [done|done|done|]|done].
    + apply (wf_move d); [done|done|done|apply Hw|apply Hw|congruence|]. intros _. cbn. split_and!; [done|done|lia|lia|done].
    + unfold small. by rewrite Hr, Hr'.
  - assert (Hi : 0 <= idx < size (ht0 d)).
    { split; [lia|]. apply bucket_inv in Hj as (t & Et & ? & Hl%lookup_lt_Some).
      pose proof (wf_ht0 d Hw) as W0. revert W0. unfold wf_ht. rewrite Et. lia. }
    destruct (bucket_range _ _ (wf_ht0 d Hw) T0 Hi) as (b & Hb). rewrite Hb. cbn.
    destruct (rehash_one d idx b Hw Hr Hlow' Hb) as (h1' & -> & W & Kp & R). cbn.
    destruct (IH (n - 1) ev' _ W R) as (g & d' & -> & W' & Kp' & R').
    { destruct Hn' as [?|?]; [by left|right; by split; [|apply Hev']]. }
    { cbn. lia. }
    exists g, d'. split_and!; [done|done|by etrans|done].
Qed.

(** The steps asked for: ten times as many empty buckets are an [int]. *)
Definition rehash_ok (n : Z) : Prop := 0 <= n /\ n * 10 < 2 ^ 31.

Lemma dictRehash_spec n d : wf d -> rehash_ok n ->
  exists r d', dictRehash d n = Some (r, d') /\ wf d' /\ kept d d' /\
    (dictIsRehashing d = false -> r = 0 /\ d' = d) /\ dictIsRehashing d' = negb (r =? 0).
Proof.
  intros Hw [Hn0 Hn]. unfold dictRehash. rewrite chk_n4_ok by lia. cbn [mbind option_bind].
  destruct (dictIsRehashing d) eqn:Hr; cbn [negb].
  2: { exists 0, d. by split_and!. }
  destruct (rehash_loop_spec (S (buckets (ht0 d))) n (n * 10) d Hw Hr) as (g & d1 & -> & W & Kp & R).
  { unfold counts. destruct (Z.eq_dec n 0); [by left|right; lia]. }
  { destruct (wf_busy d Hw Hr) as ((t & Et) & _ & ? & _). pose proof (wf_ht0 d Hw) as W0. revert W0.
    unfold wf_ht, buckets. rewrite Et. cbn. lia. }
  cbn.
  destruct g; [by exists 1, d1|]. destruct (Z.eqb_spec (used (ht0 d1)) 0) as [E|E]; [|by exists 1, d1].
  eexists 0, _. split; [done|]. destruct (wf_busy d1 W R) as (T0 & T1 & Hi & _).
  assert (Pd : entries (set_rehash d1 (ht1 d1) _dictReset (-1)) ≡ₚ entries d1).
  { unfold entries. cbn [ht0 ht1 set_rehash]. rewrite (wf_used_eq _ (wf_ht0 d1 W)) in E.
    rewrite (nil_length_inv (ht_entries (ht0 d1))) by lia. unfold ht_entries at 2. cbn. by rewrite app_nil_r. }
  split_and!; [|etrans; [exact Kp|]; split; [done|done|done|]|done|done].
  - apply (wf_move d1); [done|done|done|apply W|apply wf_reset|done|done].
  - unfold small. rewrite R. cbn. lia.
Qed.

Lemma rehash_step_spec d : wf d -> exists d', rehash_step_if d = Some d' /\ wf d' /\ kept d d'.
Proof.
  intros Hw. unfold rehash_step_if, _dictRehashStep.
  destruct (dictIsRehashing d); [|by exists d]. destruct (iterators d =? 0); [|by exists d].
  destruct (dictRehash_spec 1 d Hw ltac:(done)) as (r & d' & -> & W & Kp & _). cbn. eauto.
Qed.

(** ** Growing *)

Lemma sized h : wf_ht h -> is_Some (table h) <-> 0 < size h.
Proof.
  unfold wf_ht. destruct (table h) as [t|].
  - intros ((b & Hb & ->) & _). split; [lia|eauto].
  - intros (-> & _). split; [by intros [? ?]|lia].
Qed.

(** What [dictExpand] does when it does anything. *)
Inductive expanded d (b : Z) : dict -> Prop :=
  | expanded_first : table (ht0 d) = None -> expanded d b (set_rehash d (new_ht (2 ^ b)) (ht1 d) (rehashidx d))
  | expanded_second : is_Some (table (ht0 d)) -> size (ht0 d) <> 2 ^ b ->
      expanded d b (set_rehash d (ht0 d) (new_ht (2 ^ b)) 0).

Lemma dictExpand_spec d n : wf d -> n <= 2 ^ 31 ->
  exists r d' b, dictExpand d n = Some (r, d') /\ 2 <= b <= 31 /\ n <= 2 ^ b /\
    (r = DICT_ERR /\ d' = d /\ (dictIsRehashing d = true \/ n < used (ht0 d) \/ 2 ^ b = size (ht0 d)) \/
     r = DICT_OK /\ dictIsRehashing d = false /\ expanded d b d').
Proof.
  intros Hw Hn. unfold dictExpand. destruct (dictNextPower_spec n Hn) as (b & -> & Hb & Hnb & _). cbn.
  destruct (dictIsRehashing d || (n <? used (ht0 d))) eqn:E1.
  { exists DICT_ERR, d, b. split_and!; [done|lia|lia|done|]. left. to_prop. destruct E1; to_prop; auto. }
  to_prop. destruct (2 ^ b =? size (ht0 d)) eqn:E2; to_prop.
  { exists DICT_ERR, d, b. split_and!; [done|lia|lia|done|]. left. auto. }
  destruct (table (ht0 d)) as [t|] eqn:Et; eexists DICT_OK, _, b; (split_and!; [done|lia|lia|done|]); right; split_and!; try done.
  - constructor; [eauto|congruence].
  - by constructor.
Qed.

Lemma expanded_wf d b d' : wf d -> dictIsRehashing d = false -> 2 <= b <= 31 -> expanded d b d' ->
  wf d' /\ entries d' = entries d /\ iterators d' = iterators d /\ fresh d' = fresh d /\ is_Some (table (ht0 d')) /\
  (small d <= 2 ^ b -> small d <= small d').
Proof.
  intros Hw Hr Hb He. destruct (wf_idle d Hw Hr) as [Hi H1].
  destruct (new_ht_wf b Hb) as [Wn En]. destruct He as [T0|T0 Hne].
  - assert (E : entries (set_rehash d (new_ht (2 ^ b)) (ht1 d) (rehashidx d)) = entries d).
    { unfold entries. cbn [ht0 ht1 set_rehash]. rewrite En.
      by replace (ht_entries (ht0 d)) with (@nil entry) by (unfold ht_entries; by rewrite T0). }
    split_and!; [|done|done|done|cbn; eauto|].
    + apply (wf_move d); [done|by rewrite E|done|done|apply Hw|by intros _; cbn|]. unfold dictIsRehashing. cbn. by rewrite Hi.
    + unfold small. rewrite Hr. unfold dictIsRehashing. cbn. by rewrite Hi.
  - assert (E : entries (set_rehash d (ht0 d) (new_ht (2 ^ b)) 0) = entries d).
    { unfold entries. cbn [ht0 ht1 set_rehash]. by rewrite En, H1. }
    split_and!; [|done|done|done|done|].
    + apply (wf_move d); [done|by rewrite E|done|apply Hw|done|done|]. intros _. cbn. split_and!; [done|eauto|done| |].
      * pose proof (proj1 (sized _ (wf_ht0 d Hw)) T0). lia.
      * intros i c Hi'. lia.
    + unfold small. rewrite Hr. cbn. lia.
Qed.

(** The table has room for 2^31 buckets, so the dictionary for 2^30 entries. *)
Definition bounded d : Prop := Z.of_nat (length (entries d)) <= 2 ^ 30.

Lemma used_bound d : wf d -> bounded d -> 0 <= used (ht0 d) <= 2 ^ 30.
Proof.
  unfold bounded, entries. intros Hw Hb. rewrite length_app in Hb. rewrite (wf_used_eq _ (wf_ht0 d Hw)). lia.
Qed.

Lemma expandIfNeeded_spec can_resize d : wf d -> bounded d ->
  exists d', _dictExpandIfNeeded can_resize d = Some (DICT_OK, d') /\ wf d' /\ kept d d' /\ is_Some (table (ht0 d')).
Proof.
  intros Hw Hb. pose proof (used_bound d Hw Hb) as Hu. unfold _dictExpandIfNeeded.
  destruct (dictIsRehashing d) eqn:Hr; [exists d; split_and!; [done|done|done|by apply (wf_busy d Hw Hr)]|].
  destruct (size (ht0 d) =? 0) eqn:E0; to_prop.
  - destruct (dictExpand_spec d DICT_HT_INITIAL_SIZE Hw) as (r & d' & b & -> & Hb2 & Hnb & Hc); [done|].
    assert (Hu0 : used (ht0 d) = 0).
    { pose proof (wf_ht0 d Hw) as W0. pose proof (sized _ W0) as Hs. revert W0. unfold wf_ht.
      destruct (table (ht0 d)); [|lia]. destruct Hs as [Hs _]. specialize (Hs ltac:(eauto)). lia. }
    unfold DICT_HT_INITIAL_SIZE in *. destruct Hc as [(_ & _ & [?|[?|?]])|(-> & _ & He)]; [congruence|lia|lia|].
    destruct (expanded_wf d b d' Hw Hr Hb2 He) as (W & En & I & F & T & Sm).
    exists d'. split_and!; [done|done| |done]. split; [by rewrite En|done|done|]. apply Sm. unfold small. rewrite Hr. lia.
  - assert (Ht : is_Some (table (ht0 d))).
    { apply sized; [apply Hw|]. pose proof (wf_ht0 d Hw) as W0. revert W0. unfold wf_ht.
      destruct (table (ht0 d)); [|lia]. intros ((b & ? & ->) & _). lia. }
    pose proof (proj1 (sized _ (wf_ht0 d Hw)) Ht) as Hs.
    match goal with |- context [if ?c then _ else _] => destruct c eqn:E1 end; [|by exists d; split_and!].
    to_prop. rewrite u8_id by (unfold is_u8; assert (2 ^ 32 < U8_MOD) by done; lia).
    destruct (dictExpand_spec d (used (ht0 d) * 2) Hw) as (r & d' & b & -> & Hb2 & Hnb & Hc); [lia|].
    destruct Hc as [(_ & _ & [?|[?|?]])|(-> & _ & He)]; [congruence|lia|lia|].
    destruct (expanded_wf d b d' Hw Hr Hb2 He) as (W & En & I & F & T & Sm).
    exists d'. split_and!; [done|done| |done]. split; [by rewrite En|done|done|]. apply Sm. unfold small. rewrite Hr. lia.
Qed.

(** ** Looking for a key *)

Lemma chain_find_Some k c i e : chain_find k c = Some (i, e) -> c !! i = Some e /\ e_key e = k.
Proof.
  unfold chain_find. intros (Hi & Hc & _)%list_find_Some. split; [done|]. by apply compare_spec in Hc.
Qed.

Lemma chain_find_None k c : chain_find k c = None -> forall e, e ∈ c -> e_key e <> k.
Proof.
  unfold chain_find. intros Hn%list_find_None e He <-. rewrite Forall_forall in Hn. apply (Hn e He).
  by apply compare_spec.
Qed.

(** The walk along the bucket of a key in one table. *)
Lemma table_find h k : wf_ht h -> is_Some (table h) ->
  exists c, bucket h (Z.land (dictHashKey k) (sizemask h)) = Some c /\
    match chain_find k c with
    | Some (i, e) => c !! i = Some e /\ e ∈ ht_entries h /\ e_key e = k
    | None => k ∉ e_key <$> ht_entries h
    end.
Proof.
  intros Hw Ht. destruct (bucket_hash h k Hw Ht) as (c & Hc). exists c. split; [done|].
  destruct (chain_find k c) as [[i e]|] eqn:Ef.
  - apply chain_find_Some in Ef as [Hi He]. split; [done|]. split; [|done].
    eapply bucket_elem; [done|]. by eapply list_elem_of_lookup_2.
  - intros (e & -> & He)%list_elem_of_fmap. destruct (elem_of_ht_entries h e Hw He) as (c' & Hc' & Hin).
    rewrite Hc' in Hc. injection Hc as ->. by apply (chain_find_None _ _ Ef e Hin).
Qed.

(** Where the dictionary looks for a key. *)
Definition keys d : list K := e_key <$> entries d.

Lemma keys_idle d : wf d -> dictIsRehashing d = false -> entries d = ht_entries (ht0 d).
Proof. intros Hw Hr. destruct (wf_idle d Hw Hr) as [_ H1]. unfold entries. rewrite H1. apply app_nil_r. Qed.

Lemma dictKeyIndex_spec can_resize d k : wf d -> bounded d ->
  exists i d', _dictKeyIndex can_resize d k = Some (i, d') /\ wf d' /\ kept d d' /\
    if decide (k ∈ keys d) then i = -1
    else let h := ht d' (if dictIsRehashing d' then 1%nat else O) in
      i = Z.land (dictHashKey k) (sizemask h) /\ is_Some (table h) /\ 0 <= i < size h.
Proof.
  intros Hw Hb. destruct (expandIfNeeded_spec can_resize d Hw Hb) as (d' & E & W & Kp & T0).
  unfold _dictKeyIndex. rewrite E. cbn. clear E.
  destruct (table_find (ht0 d') k (wf_ht0 d' W) T0) as (c & -> & Hf). cbn.
  assert (Hk : k ∈ keys d <-> k ∈ keys d') by (unfold keys; by rewrite (kept_entries _ _ Kp)).
  destruct (chain_find k c) as [[i e]|].
  { exists (-1), d'. split_and!; [done|done|done|]. rewrite decide_True; [done|]. apply Hk.
    destruct Hf as (_ & He & <-). apply list_elem_of_fmap_2. unfold entries. set_solver. }
  assert (Hto : forall h, wf_ht h -> is_Some (table h) -> let i := Z.land (dictHashKey k) (sizemask h) in
    to_n4 i = i /\ 0 <= i < size h).
  { intros h Wh Th i. pose proof (dict_land_mask h (dictHashKey k) Wh Th (proj1 (hash_range k))) as Hi.
    split; [|done]. apply to_n4_id. revert Wh. unfold wf_ht. destruct Th as [t ->]. intros ((b & ? & Hs) & _).
    assert (2 ^ b <= 2 ^ 31) by (apply Z.pow_le_mono_r; lia). unfold i. lia. }
  destruct (dictIsRehashing d') eqn:Hr; cbn [negb].
  - destruct (wf_busy d' W Hr) as (_ & T1 & _). destruct (table_find (ht1 d') k (wf_ht1 d' W) T1) as (c1 & -> & Hf1). cbn.
    destruct (chain_find k c1) as [[i e]|].
    { exists (-1), d'. split_and!; [done|done|done|]. rewrite decide_True; [done|]. apply Hk.
      destruct Hf1 as (_ & He & <-). apply list_elem_of_fmap_2. unfold entries. set_solver. }
    destruct (Hto _ (wf_ht1 d' W) T1) as [-> Hi]. eexists _, d'. split_and!; [done|done|done|].
    rewrite decide_False; [rewrite Hr; cbn; auto|]. rewrite Hk. unfold keys, entries. rewrite fmap_app. set_solver.
  - destruct (Hto _ (wf_ht0 d' W) T0) as [-> Hi]. eexists _, d'. split_and!; [done|done|done|].
    rewrite decide_False; [rewrite Hr; cbn; auto|]. rewrite Hk. unfold keys. by rewrite keys_idle.
Qed.

(** ** Pointers to entries *)

Lemma deref_spec d e : wf d -> e ∈ entries d -> deref d (e_addr e) = Some e.
Proof.
  intros Hw He. unfold deref. apply list_elem_of_lookup in He as (i & Hi).
  destruct (list_find (fun e' => e_addr e' = e_addr e) (entries d)) as [[j e']|] eqn:Ef.
  - apply list_find_Some in Ef as (Hj & Ha & _). cbn. f_equal.
    assert (j = i) as ->; [|congruence].
    eapply (NoDup_lookup (e_addr <$> entries d)); [apply Hw|by rewrite list_lookup_fmap, Hj|].
    rewrite list_lookup_fmap, Hi. cbn. by rewrite Ha.
  - apply list_find_None in Ef. rewrite Forall_lookup in Ef. by destruct (Ef i e Hi).
Qed.

Lemma map_ht_entries f h : ht_entries (map_ht f h) = map f (ht_entries h).
Proof. unfold ht_entries, map_ht. destruct (table h) as [t|]; [cbn; by rewrite concat_map|done]. Qed.

Lemma map_ht_wf f h : (forall e, e ∈ ht_entries h -> e_key (f e) = e_key e) -> wf_ht h -> wf_ht (map_ht f h).
Proof.
  intros Hf. unfold wf_ht. rewrite map_ht_entries, length_map.
  assert (Hf' : forall t i c e, table h = Some t -> t !! i = Some c -> e ∈ c -> e_key (f e) = e_key e).
  { intros t i c e Et Hc He. apply Hf. unfold ht_entries. rewrite Et. apply elem_of_concat. eauto. }
  unfold map_ht, in_bucket. destruct (table h) as [t|]; cbn; [|done]. rewrite length_map.
  intros (? & ? & ? & ? & Hall). split_and!; try done.
  intros i c e. change (map (map f) t) with ((map f) <$> t). rewrite list_lookup_fmap.
  destruct (t !! i) as [c'|] eqn:Ei; [|done].
  intros [= <-] (e' & -> & He)%list_elem_of_fmap. rewrite (Hf' t i c') by done. by apply (Hall i c' e').
Qed.

Lemma addr_inj d e e' : wf d -> e ∈ entries d -> e' ∈ entries d -> e_addr e = e_addr e' -> e = e'.
Proof.
  intros Hw He He' Ha. apply (deref_spec d) in He, He'; [|done|done]. rewrite Ha in He. congruence.
Qed.

Lemma bucket_map_ht f h i : bucket (map_ht f h) i = map f <$> bucket h i.
Proof.
  unfold bucket, map_ht. destruct (table h) as [t|]; [|done]. cbn. destruct (i <? 0); [done|].
  change (map (map f) t) with ((map f) <$> t). by rewrite list_lookup_fmap.
Qed.

(** An entry is replaced by another with its key and address. *)
Lemma set_entry_spec d e rest f : wf d -> entries d ≡ₚ e :: rest ->
  e_key (f e) = e_key e -> e_addr (f e) = e_addr e ->
  exists d', set_entry d (e_addr e) f = Some d' /\ wf d' /\ entries d' ≡ₚ f e :: rest /\
    iterators d' = iterators d /\ fresh d' = fresh d /\ small d' = small d.
Proof.
  intros Hw P Hfk Hfa. assert (He : e ∈ entries d) by (rewrite P; set_solver).
  unfold set_entry. rewrite (deref_spec d e Hw He). cbn.
  set (g e' := if decide (e_addr e' = e_addr e) then f e' else e'). eexists. split; [done|].
  set (d' := set_rehash d _ _ _).
  assert (Hg : forall e', e' ∈ entries d -> e_key (g e') = e_key e' /\ e_addr (g e') = e_addr e').
  { intros e' He'. unfold g. destruct (decide _) as [Ha|]; [|done]. by rewrite (addr_inj d e' e Hw He' He Ha). }
  assert (E : entries d' = map g (entries d)).
  { unfold entries, d'. cbn [ht0 ht1 set_rehash]. by rewrite !map_ht_entries, map_app. }
  assert (Fk : forall A (p : entry -> A), (forall e', e' ∈ entries d -> p (g e') = p e') -> p <$> entries d' = p <$> entries d).
  { intros A p Hp. rewrite E. change (map g (entries d)) with (g <$> entries d). rewrite <- list_fmap_compose.
    apply list_fmap_ext. intros i e' He'. apply Hp. by eapply list_elem_of_lookup_2. }
  destruct Hw as [W0 W1 Hk Ha Hfr Hu Hi Hb].
  assert (Pd : entries d' ≡ₚ f e :: rest).
  { rewrite E, P. cbn. unfold g at 1. rewrite decide_True by done. constructor.
    rewrite P in Ha. cbn in Ha. apply NoDup_cons in Ha as [Ha _]. erewrite map_ext_in; [by rewrite map_id|].
    intros e' He'. unfold g. rewrite decide_False; [done|]. intros Heq. apply Ha. rewrite <- Heq.
    apply list_elem_of_fmap_2. by apply list_elem_of_In. }
  split_and!; [|done|done|done|done]. constructor.
  - apply map_ht_wf; [|done]. intros e' He'. apply Hg. unfold entries. set_solver.
  - apply map_ht_wf; [|done]. intros e' He'. apply Hg. unfold entries. set_solver.
  - rewrite (Fk _ e_key); [done|apply Hg].
  - rewrite (Fk _ e_addr); [done|apply Hg].
  - apply Forall_forall. intros e' He'. rewrite E in He'.
    apply list_elem_of_fmap in He' as (e0 & -> & He0). rewrite (proj2 (Hg e0 He0)).
    by apply (proj1 (Forall_forall _ _) Hfr).
  - by rewrite E, length_map.
  - intros Hr. destruct (Hi Hr) as [? H1]. split; [done|]. cbn. by rewrite H1.
  - intros Hr. destruct (Hb Hr) as (T0 & T1 & ? & Hlow). cbn. split_and!; [|by destruct T1 as [? ->]; eauto|lia|lia|].
    + destruct T0 as [? ->]; eauto.
    + intros i c Hi'. rewrite bucket_map_ht. destruct (bucket (ht0 d) i) as [c'|] eqn:Ec; [|done].
      intros [= <-]. by rewrite (Hlow i c').
Qed.

(** ** Adding an entry *)

Definition target d : nat := if dictIsRehashing d then 1%nat else O.

Lemma wf_ht_target d : wf d -> wf_ht (ht d (target d)).
Proof. intros Hw. unfold target. destruct dictIsRehashing; apply Hw. Qed.

Lemma add_entry d k i next : wf d -> Z.of_nat (length (entries d)) < 2 ^ 31 -> k ∉ keys d ->
  let h := ht d (target d) in
  i = Z.land (dictHashKey k) (sizemask h) -> is_Some (table h) -> bucket h i = Some next ->
  let e := mk_entry (fresh d) k None in
  let d' := set_ht (mk_dict (ht0 d) (ht1 d) (rehashidx d) (iterators d) (S (fresh d))) (target d)
              (set_used (set_bucket h i (e :: next)) (u8 (used h + 1))) in
  wf d' /\ entries d' ≡ₚ e :: entries d /\ small d' = small d.
Proof.
  intros Hw Hl Hk h Hi Ht Hn e d'. pose proof (wf_ht_target d Hw) as Wh. fold h in Wh.
  pose proof (set_bucket_entries _ _ _ (e :: next) Hn) as (rest & P & P').
  assert (Hlh : (length (ht_entries h) <= length (entries d))%nat).
  { unfold h, entries. rewrite length_app. destruct (target d); cbn; lia. }
  assert (Hu : u8 (used h + 1) = used h + 1).
  { rewrite (wf_used_eq h Wh). apply u8_id. unfold is_u8. assert (2 ^ 32 < U8_MOD) by done. lia. }
  assert (Wh' : wf_ht (set_used (set_bucket h i (e :: next)) (u8 (used h + 1)))).
  { rewrite Hu. eapply set_bucket_wf; [done|exact Hn| |cbn [length]; lia].
    pose proof Hn as (t & Et & Hi0 & Hc)%bucket_inv. intros e' [->|He]%elem_of_cons.
    - unfold in_bucket. rewrite Z2Nat.id by done. done.
    - revert Wh. unfold wf_ht. rewrite Et. intros (_ & _ & _ & _ & Hall). by apply (Hall _ _ _ Hc). }
  assert (Pd : entries d' ≡ₚ e :: entries d).
  { unfold entries, d', h, target in *. destruct (dictIsRehashing d); cbn [set_ht ht0 ht1 ht] in *;
      match goal with |- context [ht_entries (set_used ?x _)] => change (ht_entries (set_used x _)) with (ht_entries x) end;
      rewrite P', P; solve_Permutation. }
  assert (Hsz : size (ht0 d') = size (ht0 d) /\ size (ht1 d') = size (ht1 d) /\ dictIsRehashing d' = dictIsRehashing d /\
    rehashidx d' = rehashidx d /\ fresh d' = S (fresh d)).
  { unfold d', h. by destruct (target d). }
  destruct Hsz as (S0 & S1 & Er & Ei & Ef).
  split_and!; [|done|unfold small; by rewrite Er, S0, S1].
  destruct Hw as [W0 W1 Hks Ha Hfr Hus Hid Hb]. constructor.
  - unfold d', h, target in *. destruct (dictIsRehashing d); [exact W0|exact Wh'].
  - unfold d', h, target in *. destruct (dictIsRehashing d); [exact Wh'|exact W1].
  - rewrite Pd. cbn. by constructor.
  - rewrite Pd. cbn. constructor; [|done]. intros (e' & Heq & He')%list_elem_of_fmap.
    rewrite Forall_forall in Hfr. apply Hfr in He'. cbn in Heq. lia.
  - rewrite Pd, Ef. constructor; [cbn; lia|]. eapply Forall_impl; [exact Hfr|]. cbn. lia.
  - rewrite Pd. cbn [length]. lia.
  - rewrite Er, Ei. intros Hr. destruct (Hid Hr) as [? H1]. split; [done|]. unfold d', target. by rewrite Hr.
  - rewrite Er, Ei, S0. intros Hr. destruct (Hb Hr) as (T0 & T1 & ? & Hlow).
    unfold d', h, target in *. rewrite Hr in *. cbn [set_ht ht0 ht1 ht] in *. split_and!; [done| |lia|lia|done].
    destruct T1 as [t Et]. unfold set_used, set_bucket. cbn. rewrite Et. cbn. eauto.
Qed.

Lemma dictAddRaw_spec can_resize d k : wf d -> bounded d ->
  exists o d', dictAddRaw can_resize d k = Some (o, d') /\ wf d' /\ small d <= small d' /\
    if decide (k ∈ keys d) then o = None /\ entries d' ≡ₚ entries d
    else exists a, o = Some a /\ entries d' ≡ₚ mk_entry a k None :: entries d.
Proof.
  intros Hw Hb. unfold dictAddRaw. destruct (rehash_step_spec d Hw) as (d1 & -> & W1 & K1). cbn.
  assert (Hb1 : bounded d1) by (unfold bounded; by rewrite (kept_entries _ _ K1)).
  destruct (dictKeyIndex_spec can_resize d1 k W1 Hb1) as (i & d2 & -> & W2 & K2 & Hi). cbn.
  assert (Hk : k ∈ keys d1 <-> k ∈ keys d) by (unfold keys; by rewrite (kept_entries _ _ K1)).
  assert (K12 : kept d d2) by (by etrans). destruct K12 as [P _ _ Sm].
  destruct (decide (k ∈ keys d)) as [Hin|Hnin].
  { rewrite decide_True in Hi by tauto. subst i. cbn. exists None, d2. by split_and!. }
  rewrite decide_False in Hi by tauto. destruct Hi as (-> & Ht & Hi0).
  change (if dictIsRehashing d2 then 1%nat else O) with (target d2) in *.
  pose proof (wf_ht_target d2 W2) as Wh.
  rewrite (proj2 (Z.eqb_neq _ _)) by lia.
  destruct (bucket_range _ _ Wh Ht Hi0) as (next & Hn). rewrite Hn. cbn [mbind option_bind].
  destruct (add_entry d2 k _ next W2 ltac:(rewrite P; unfold bounded in Hb; lia)
    ltac:(unfold keys; by rewrite P) eq_refl Ht Hn) as (W3 & P3 & S3).
  destruct (set_entry_spec _ _ _ (fun e => mk_entry (e_addr e) (match keyDup with Some f => f k | None => k end) (e_val e))
    W3 P3) as (d4 & E4 & W4 & P4 & _ & _ & S4).
  { cbn. destruct keyDup as [f|] eqn:Ed; [by apply dup_eq|done]. }
  { done. }
  unfold dictSetKey. cbn [e_addr] in E4 |- *. rewrite E4. cbn [mbind option_bind].
  eexists _, d4. split_and!; [done|done|lia|]. eexists. split; [done|]. rewrite P4, P. cbn.
  destruct keyDup as [f|] eqn:Ed; [by rewrite (dup_eq f k Ed)|done].
Qed.

(** The copy of a value that is stored. *)
Definition dupval v : V := match valDup with Some f => f v | None => v end.

Lemma dictAdd_spec can_resize d k v : wf d -> bounded d ->
  exists r d', dictAdd can_resize d k v = Some (r, d') /\ wf d' /\ small d <= small d' /\
    if decide (k ∈ keys d) then r = DICT_ERR /\ entries d' ≡ₚ entries d
    else r = DICT_OK /\ exists a, entries d' ≡ₚ mk_entry a k (Some (dupval v)) :: entries d.
Proof.
  intros Hw Hb. unfold dictAdd. destruct (dictAddRaw_spec can_resize d k Hw Hb) as (o & d1 & -> & W1 & S1 & H1). cbn.
  destruct (decide (k ∈ keys d)) as [Hin|Hnin].
  { destruct H1 as [-> P]. exists DICT_ERR, d1. by split_and!. }
  destruct H1 as (a & -> & P).
  destruct (set_entry_spec _ _ _ (fun e => mk_entry (e_addr e) (e_key e) (Some (dupval v))) W1 P)
    as (d2 & E2 & W2 & P2 & _ & _ & S2); [done|done|].
  unfold dictSetVal. unfold dupval in E2. cbn [e_addr] in E2. rewrite E2. cbn.
  eexists _, d2. split_and!; [done|done|lia|done|]. eauto.
Qed.

(** ** Finding *)

Lemma no_table d : wf d -> size (ht0 d) = 0 -> entries d = [].
Proof.
  intros Hw H0. assert (Hn : ~ is_Some (table (ht0 d))).
  { rewrite (sized _ (wf_ht0 d Hw)). lia. }
  destruct (dictIsRehashing d) eqn:Hr; [by destruct Hn; apply (wf_busy d Hw Hr)|].
  rewrite (keys_idle d Hw Hr). unfold ht_entries. destruct (table (ht0 d)); [by destruct Hn|done].
Qed.

Lemma dictFind_spec d k : wf d ->
  exists o d', dictFind d k = Some (o, d') /\ wf d' /\ kept d d' /\
    match o with
    | Some a => exists e, e ∈ entries d' /\ e_key e = k /\ e_addr e = a
    | None => k ∉ keys d
    end.
Proof.
  intros Hw. unfold dictFind. destruct (size (ht0 d) =? 0) eqn:E0; to_prop.
  { exists None, d. split_and!; [done|done|done|]. unfold keys. rewrite (no_table d Hw E0). set_solver. }
  assert (T0 : is_Some (table (ht0 d))).
  { apply sized; [apply Hw|]. pose proof (wf_ht0 d Hw) as W0. revert W0. unfold wf_ht.
    destruct (table (ht0 d)); [|lia]. intros ((b & ? & ->) & _). lia. }
  destruct (rehash_step_spec d Hw) as (d1 & -> & W & Kp). cbn.
  assert (Hk : k ∈ keys d1 <-> k ∈ keys d) by (unfold keys; by rewrite (kept_entries _ _ Kp)).
  assert (T : is_Some (table (ht0 d1))).
  { apply sized; [apply W|]. apply (sized _ (wf_ht0 d Hw)) in T0.
    pose proof (kept_small _ _ Kp) as Hs. unfold small in Hs. destruct (dictIsRehashing d) eqn:Hr.
    - destruct (wf_busy d Hw Hr) as (_ & T1 & _). apply (sized _ (wf_ht1 d Hw)) in T1. destruct (dictIsRehashing d1); lia.
    - destruct (dictIsRehashing d1); lia. }
  destruct (table_find (ht0 d1) k (wf_ht0 d1 W) T) as (c & -> & Hf). cbn.
  destruct (chain_find k c) as [[i e]|].
  { exists (Some (e_addr e)), d1. split_and!; [done|done|done|]. exists e. unfold entries. set_solver. }
  destruct (dictIsRehashing d1) eqn:Hr; cbn [negb].
  - destruct (wf_busy d1 W Hr) as (_ & T1 & _). destruct (table_find (ht1 d1) k (wf_ht1 d1 W) T1) as (c1 & -> & Hf1). cbn.
    destruct (chain_find k c1) as [[i e]|].
    { exists (Some (e_addr e)), d1. split_and!; [done|done|done|]. exists e. unfold entries. set_solver. }
    exists None, d1. split_and!; [done|done|done|]. rewrite <- Hk. unfold keys, entries. rewrite fmap_app. set_solver.
  - exists None, d1. split_and!; [done|done|done|]. rewrite <- Hk. unfold keys. by rewrite keys_idle.
Qed.

(** ** The finite map *)

Definition kv e : K * option V := (e_key e, e_val e).

(** The map from keys to values, [None] for a value not set yet. *)
Definition to_map `{!Countable K} d : gmap K (option V) := list_to_map (kv <$> entries d).

Lemma fst_kv (l : list entry) : (kv <$> l).*1 = e_key <$> l.
Proof. rewrite <- list_fmap_compose. by apply list_fmap_ext. Qed.

Section Map.
Context `{!Countable K}.

Lemma to_map_perm d l : wf d -> entries d ≡ₚ l -> to_map d = list_to_map (kv <$> l).
Proof. intros Hw P. unfold to_map. apply list_to_map_proper; [rewrite fst_kv; apply Hw|by rewrite P]. Qed.

Lemma to_map_kept d d' : wf d -> wf d' -> entries d' ≡ₚ entries d -> to_map d' = to_map d.
Proof. intros Hw Hw' P. by apply to_map_perm. Qed.

Lemma to_map_lookup d e : wf d -> e ∈ entries d -> to_map d !! e_key e = Some (e_val e).
Proof.
  intros Hw He. unfold to_map. apply elem_of_list_to_map; [rewrite fst_kv; apply Hw|].
  change (e_key e, e_val e) with (kv e). by apply list_elem_of_fmap_2.
Qed.

Lemma to_map_None d k : k ∉ keys d -> to_map d !! k = None.
Proof. intros Hk. unfold to_map. apply not_elem_of_list_to_map. by rewrite fst_kv. Qed.

Lemma to_map_cons d d' e : wf d' -> entries d' ≡ₚ e :: entries d -> to_map d' = <[e_key e := e_val e]> (to_map d).
Proof. intros Hw P. by rewrite (to_map_perm d' _ Hw P). Qed.

Lemma keys_map d k : wf d -> k ∈ keys d <-> is_Some (to_map d !! k).
Proof.
  intros Hw. split.
  - intros (e & -> & He)%list_elem_of_fmap. rewrite to_map_lookup by done. eauto.
  - intros [v Hv]. destruct (decide (k ∈ keys d)) as [|Hn]; [done|]. by rewrite (to_map_None d k Hn) in Hv.
Qed.

Lemma size_map d : wf d -> base.size (to_map d) = length (entries d).
Proof.
  intros Hw. unfold to_map. rewrite map_size_list_to_map; [by rewrite length_fmap|]. rewrite fst_kv. apply Hw.
Qed.

Lemma dictSize_spec d : wf d -> dictSize d = Z.of_nat (base.size (to_map d)).
Proof.
  intros Hw. unfold dictSize. rewrite (size_map d Hw).
  rewrite (wf_used_eq _ (wf_ht0 d Hw)), (wf_used_eq _ (wf_ht1 d Hw)). pose proof (wf_used d Hw) as Hu.
  unfold entries in *. rewrite length_app in *. rewrite u8_id; [lia|]. unfold is_u8. assert (2 ^ 32 < U8_MOD) by done. lia.
Qed.

End Map.

(** ** Removing *)

Lemma remove_entry d t i c j e : wf d -> (t = O \/ t = 1%nat /\ dictIsRehashing d = true) ->
  let h := ht d t in
  bucket h i = Some c -> c !! j = Some e ->
  let d' := set_ht d t (set_used (set_bucket h i (delete j c)) (u8 (used h - 1))) in
  wf d' /\ entries d ≡ₚ e :: entries d' /\ small d' = small d.
Proof.
  intros Hw Ht h Hb Hj d'. assert (Wh : wf_ht h) by (unfold h; destruct Ht as [->|[-> _]]; apply Hw).
  pose proof (set_bucket_entries _ _ _ (delete j c) Hb) as (rest & P & P').
  pose proof (delete_Permutation _ _ _ Hj) as Pc. pose proof (Permutation_length Pc) as Lc. cbn [length] in Lc.
  assert (P2 : ht_entries h ≡ₚ e :: delete j c ++ rest).
  { etrans; [exact P|]. by apply (Permutation_app_tail rest) in Pc. }
  assert (Hu : u8 (used h - 1) = used h - 1).
  { assert (Hl : (length (ht_entries h) <= length (entries d))%nat).
    { unfold h, entries. rewrite length_app. destruct t; cbn; lia. }
    apply Permutation_length in P. rewrite length_app in P. pose proof (wf_used d Hw).
    rewrite (wf_used_eq h Wh). apply u8_id. unfold is_u8. assert (2 ^ 32 < U8_MOD) by done. lia. }
  assert (Wh' : wf_ht (set_used (set_bucket h i (delete j c)) (u8 (used h - 1)))).
  { rewrite Hu. eapply set_bucket_wf; [done|exact Hb| |lia].
    pose proof Hb as (tb & Et & Hi0 & Hc)%bucket_inv. intros e' He'.
    assert (He : e' ∈ c) by (rewrite Pc; set_solver).
    revert Wh. unfold wf_ht. rewrite Et. intros (_ & _ & _ & _ & Hall). by apply (Hall _ _ _ Hc). }
  assert (Pd : entries d ≡ₚ e :: entries d').
  { unfold entries, d', h in *. destruct Ht as [->|[-> _]]; cbn [set_ht ht0 ht1 ht] in *;
      match goal with |- context [ht_entries (set_used ?x _)] => change (ht_entries (set_used x _)) with (ht_entries x) end;
      rewrite P', P2; solve_Permutation. }
  assert (Hsz : Dict.size (ht0 d') = Dict.size (ht0 d) /\ Dict.size (ht1 d') = Dict.size (ht1 d) /\
    dictIsRehashing d' = dictIsRehashing d /\ rehashidx d' = rehashidx d /\ fresh d' = fresh d).
  { unfold d', h. by destruct t. }
  destruct Hsz as (S0 & S1 & Er & Ei & Ef).
  split_and!; [|done|unfold small; by rewrite Er, S0, S1].
  destruct Hw as [W0 W1 Hks Ha Hfr Hus Hid Hbz]. rewrite Pd in Hks, Ha, Hfr, Hus. cbn in Hks, Ha.
  apply NoDup_cons in Hks as [_ Hks], Ha as [_ Ha]. apply Forall_cons in Hfr as [_ Hfr]. cbn [length] in Hus.
  constructor; [| |done|done|by rewrite Ef|lia| |].
  - unfold d'. destruct Ht as [->|[-> _]]; [exact Wh'|exact W0].
  - unfold d'. destruct Ht as [->|[-> _]]; [exact W1|exact Wh'].
  - rewrite Er, Ei. intros Hr. destruct (Hid Hr) as [? H1]. split; [done|]. unfold d'.
    destruct Ht as [->|[_ Hr']]; [done|congruence].
  - rewrite Er, Ei, S0. intros Hr. destruct (Hbz Hr) as (T0 & T1 & ? & Hlow).
    unfold d', h in *. destruct Ht as [->|[-> _]]; cbn [set_ht ht0 ht1 ht] in *; (split_and!; [| |lia|lia|]); try done.
    + destruct T0 as [tb Et0]. unfold set_used, set_bucket. cbn. rewrite Et0. cbn. eauto.
    + intros i' c' Hi' Hb'. change (bucket (set_bucket (ht0 d) i (delete j c)) i' = Some c') in Hb'.
      destruct (decide (i' = i)) as [->|].
      * rewrite (Hlow i c) in Hj by done. done.
      * rewrite bucket_set_other in Hb'; [by apply (Hlow i')|by apply bucket_inv in Hb as (? & _ & ? & _)|done].
    + destruct T1 as [tb Et1]. unfold set_used, set_bucket. cbn. rewrite Et1. cbn. eauto.
Qed.

(** A deletion: the entry with the key is out, and its key is freed when asked. *)
Lemma dictGenericDelete_spec d k nofree : wf d ->
  exists r fx d', dictGenericDelete d k nofree = Some (r, fx, d') /\ wf d' /\ small d <= small d' /\
    if decide (k ∈ keys d) then
      exists e, e_key e = k /\ entries d ≡ₚ e :: entries d' /\ r = DICT_OK /\
        fx = (if negb nofree && keyDestructor then [FreeKey k] else [])
    else r = DICT_ERR /\ fx = [] /\ entries d' ≡ₚ entries d.
Proof.
  intros Hw. unfold dictGenericDelete. destruct (Dict.size (ht0 d) =? 0) eqn:E0; to_prop.
  { exists DICT_ERR, [], d. split_and!; [done|done|done|]. unfold keys. rewrite (no_table d Hw E0).
    rewrite decide_False by set_solver. done. }
  pose proof (dictFind_spec d k Hw) as (o & d1 & Ed & W & Kp & Ho). revert Ed. unfold dictFind.
  rewrite (proj2 (Z.eqb_neq _ _) E0). intros Ed. bind_inv Ed. rename r into d2. rewrite E. cbn.
  unfold delete_in. bind_inv Ed. rename r into c. cbn [ht]. rewrite E1. cbn.
  destruct (chain_find k c) as [[i e]|] eqn:Ef.
  { injection Ed as <- <-. apply chain_find_Some in Ef as [Hi He].
    destruct (remove_entry d2 0 _ c i e W ltac:(by left) E1 Hi) as (W' & P & S').
    eexists DICT_OK, _, _. split; [done|]. split; [exact W'|]. split; [etrans; [apply Kp|apply Z.eq_le_incl; exact (eq_sym S')]|].
    rewrite decide_True; [|unfold keys; rewrite <- (kept_entries _ _ Kp), P, <- He; cbn; set_solver].
    exists e. split_and!; [done|by rewrite <- P, (kept_entries _ _ Kp)|done|by rewrite He]. }
  destruct (dictIsRehashing d2) eqn:Hr; cbn [negb] in *.
  - bind_inv Ed. rename r into c1. rewrite E2. cbn.
    destruct (chain_find k c1) as [[i e]|] eqn:Ef1.
    { injection Ed as <- <-. apply chain_find_Some in Ef1 as [Hi He].
      destruct (remove_entry d2 1 _ c1 i e W ltac:(by right) E2 Hi) as (W' & P & S').
      eexists DICT_OK, _, _. split; [done|]. split; [exact W'|]. split; [etrans; [apply Kp|apply Z.eq_le_incl; exact (eq_sym S')]|].
      rewrite decide_True; [|unfold keys; rewrite <- (kept_entries _ _ Kp), P, <- He; cbn; set_solver].
      exists e. split_and!; [done|by rewrite <- P, (kept_entries _ _ Kp)|done|by rewrite He]. }
    injection Ed as <- <-. exists DICT_ERR, [], d2. rewrite decide_False by done.
    by split_and!; [|done|apply Kp|done|done|apply Kp].
  - injection Ed as <- <-. exists DICT_ERR, [], d2. rewrite decide_False by done.
    by split_and!; [|done|apply Kp|done|done|apply Kp].
Qed.

(** ** Replacing and releasing *)

Lemma dictReplace_spec can_resize d k v : wf d -> bounded d ->
  exists r fx d', dictReplace can_resize d k v = Some (r, fx, d') /\ wf d' /\ small d <= small d' /\
    if decide (k ∈ keys d) then
      r = 0 /\ exists e rest, e_key e = k /\ entries d ≡ₚ e :: rest /\
        entries d' ≡ₚ mk_entry (e_addr e) k (Some (dupval v)) :: rest /\
        fx = (if valDestructor then [FreeVal (e_val e)] else [])
    else r = 1 /\ fx = [] /\ exists a, entries d' ≡ₚ mk_entry a k (Some (dupval v)) :: entries d.
Proof.
  intros Hw Hb. unfold dictReplace. destruct (dictAdd_spec can_resize d k v Hw Hb) as (r & d1 & -> & W1 & S1 & H1). cbn.
  destruct (decide (k ∈ keys d)) as [Hin|Hnin].
  2: { destruct H1 as [-> Ha]. cbn. exists 1, [], d1. by split_and!. }
  destruct H1 as [-> P1]. cbn. destruct (dictFind_spec d1 k W1) as (o & d2 & -> & W2 & K2 & Ho). cbn.
  destruct o as [a|]; [|exfalso; apply Ho; unfold keys; by rewrite P1]. destruct Ho as (e & He & <- & <-). cbn.
  rewrite (deref_spec d2 e W2 He). cbn. apply elem_of_Permutation in He as [rest P2].
  destruct (set_entry_spec d2 e rest (fun e => mk_entry (e_addr e) (e_key e) (Some (dupval v))) W2 P2)
    as (d3 & E3 & W3 & P3 & _ & _ & S3); [done|done|].
  unfold dictSetVal. unfold dupval in E3. rewrite E3. cbn.
  eexists 0, _, d3. split_and!; [done|done|pose proof (kept_small _ _ K2); lia|done|].
  exists e, rest. split_and!; [done|by rewrite <- P1, <- (kept_entries _ _ K2), P2|done|done].
Qed.

Lemma dict_clear_loop_spec (t : list (list entry)) i n : n = Z.of_nat (length (concat t)) -> n < 2 ^ 32 ->
  clear_loop false t i n = concat (map free_entry (concat t)).
Proof.
  assert (HM : 2 ^ 32 < U8_MOD) by done.
  revert i n. induction t as [|c t IH]; intros i n Hn Hlt; [done|]. cbn [clear_loop concat] in *.
  rewrite length_app in Hn. destruct (n =? 0) eqn:E0; to_prop.
  - rewrite (nil_length_inv (c ++ concat t)) by (rewrite length_app; lia). done.
  - cbn. rewrite IH; [by rewrite map_app, concat_app| |]; rewrite u8_id; unfold is_u8; lia.
Qed.

Lemma dictRelease_spec d : wf d -> dictRelease d = concat (map free_entry (entries d)).
Proof.
  intros Hw. pose proof (wf_used d Hw) as Hu. unfold entries in *. rewrite length_app in Hu.
  unfold dictRelease, _dictClear. cbn [fst]. rewrite map_app, concat_app.
  rewrite (wf_used_eq _ (wf_ht0 d Hw)), (wf_used_eq _ (wf_ht1 d Hw)). unfold ht_entries in *.
  rewrite !dict_clear_loop_spec; [done|done|lia|done|lia].
Qed.

Lemma dictEmpty_wf d cb : wf (snd (dictEmpty d cb)) /\ entries (snd (dictEmpty d cb)) = [].
Proof.
  unfold dictEmpty, _dictClear. cbn. split; [|done]. constructor; try done; try (unfold entries; cbn; constructor).
Qed.

Lemma dictCreate_wf : wf dictCreate.
Proof. constructor; try done; try (unfold entries; cbn; constructor). Qed.

End DictSpec.

End DictSpec.
