(* ===== verification/DictMap.v ===== *)
(** * Runs of the dictionary of dict.c against a finite map

    Calls in any order, with rehashings and resizings between them, answer as a finite
    map does; releasing the dictionary frees what the map holds. *)

From S2P Require Import Prelude Dict DictSpec.
Import Dict DictSpec.

Module DictMap.
Section DictMap.
Context {K V : Type} `{Countable K} `{!DictType K V} `{!DictLaws K V}.

Notation dict := (dict K V).
Notation effect := (effect K V).

Inductive op :=
  | OpAdd (k : K) (v : V)
  | OpReplace (k : K) (v : V)
  | OpDelete (k : K)
  | OpDeleteNoFree (k : K)
  | OpFetch (k : K)
  | OpSize
  | OpRehash (n : Z)
  | OpResize
  | OpExpand (n : Z)
  | OpEnable (b : bool)
  | OpEmpty.

(** A result code with what was freed, a value, a size. *)
Inductive result := RCode (z : Z) (freed : list effect) | RValue (v : option V) | RSize (z : Z) | RDone.

Implicit Types (d : dict) (m : gmap K V) (o : op) (k : K) (v : V).

(** One call, with [dict_can_resize]. *)
Definition step (s : bool * dict) o : option (result * (bool * dict)) :=
  let '(cr, d) := s in
  match o with
  | OpAdd k v => '(r, d) ← dictAdd cr d k v; Some (RCode r [], (cr, d))
  | OpReplace k v => '(r, fx, d) ← dictReplace cr d k v; Some (RCode r fx, (cr, d))
  | OpDelete k => '(r, fx, d) ← dictDelete d k; Some (RCode r fx, (cr, d))
  | OpDeleteNoFree k => '(r, fx, d) ← dictDeleteNoFree d k; Some (RCode r fx, (cr, d))
  | OpFetch k => '(r, d) ← dictFetchValue d k; Some (RValue (mjoin r), (cr, d))
  | OpSize => Some (RSize (dictSize d), (cr, d))
  | OpRehash n => '(_, d) ← dictRehash d n; Some (RDone, (cr, d))
  | OpResize => '(_, d) ← dictResize cr d; Some (RDone, (cr, d))
  | OpExpand n => '(_, d) ← dictExpand d n; Some (RDone, (cr, d))
  | OpEnable b => Some (RDone, (b, d))
  | OpEmpty => Some (RDone, (cr, snd (dictEmpty d false)))
  end.

Fixpoint run (s : bool * dict) (os : list op) : option (list result * (bool * dict)) :=
  match os with
  | [] => Some ([], s)
  | o :: os => '(r, s) ← step s o; '(rs, s) ← run s os; Some (r :: rs, s)
  end.

(** The same calls on a finite map. *)
Definition spec_step m o : result * gmap K V :=
  match o with
  | OpAdd k v =>
      match m !! k with
      | Some _ => (RCode DICT_ERR [], m)
      | None => (RCode DICT_OK [], <[k := dupval v]> m)
      end
  | OpReplace k v =>
      (match m !! k with
       | Some old => RCode 0 (if valDestructor then [FreeVal (Some old)] else [])
       | None => RCode 1 []
       end, <[k := dupval v]> m)
  | OpDelete k =>
      (match m !! k with
       | Some _ => RCode DICT_OK (if keyDestructor then [FreeKey k] else [])
       | None => RCode DICT_ERR []
       end, delete k m)
  | OpDeleteNoFree k =>
      (match m !! k with Some _ => RCode DICT_OK [] | None => RCode DICT_ERR [] end, delete k m)
  | OpFetch k => (RValue (m !! k), m)
  | OpSize => (RSize (Z.of_nat (base.size m)), m)
  | OpRehash _ | OpResize | OpExpand _ | OpEnable _ => (RDone, m)
  | OpEmpty => (RDone, ∅)
  end.

Fixpoint spec_run m (os : list op) : list result * gmap K V :=
  match os with
  | [] => ([], m)
  | o :: os => let '(r, m) := spec_step m o in let '(rs, m) := spec_run m os in (r :: rs, m)
  end.

(** A table has at most 2^31 buckets. *)
Definition op_ok o : Prop := match o with OpExpand n => n <= 2 ^ 31 | OpRehash n => rehash_ok n | _ => True end.

(** ** The dictionary holds the map *)

Record rep d m : Prop := mk_rep { rep_wf : wf d; rep_map : to_map d = Some <$> m }.

Lemma rep_kept d d' m : rep d m -> wf d' -> entries d' ≡ₚ entries d -> rep d' m.
Proof. intros [W E] W' P. split; [done|]. by rewrite (to_map_kept d d'). Qed.

Lemma rep_keys d m k : rep d m -> k ∈ keys d <-> is_Some (m !! k).
Proof. intros [W E]. rewrite (keys_map d k W), E, lookup_fmap. by rewrite fmap_is_Some. Qed.

Lemma dict_rep_size d m : rep d m -> length (entries d) = base.size m.
Proof. intros [W E]. by rewrite <- (size_map d W), E, map_size_fmap. Qed.

Lemma dict_rep_lookup d m e : rep d m -> e ∈ entries d -> exists v, e_val e = Some v /\ m !! e_key e = Some v.
Proof.
  intros [W E] He. pose proof (to_map_lookup d e W He) as Hl. rewrite E, lookup_fmap in Hl.
  destruct (m !! e_key e) as [v|]; [|done]. injection Hl as <-. eauto.
Qed.

Lemma rep_add d d' m a k v : rep d m -> wf d' -> entries d' ≡ₚ mk_entry a k (Some v) :: entries d -> rep d' (<[k := v]> m).
Proof.
  intros [W E] W' P. split; [done|]. rewrite (to_map_cons d d' _ W' P), E. cbn. by rewrite fmap_insert.
Qed.

Lemma rep_delete d d' m e : rep d m -> wf d' -> entries d ≡ₚ e :: entries d' -> rep d' (delete (e_key e) m).
Proof.
  intros [W E] W' P. split; [done|]. rewrite fmap_delete, <- E, (to_map_cons d' d e W P).
  rewrite delete_insert_id; [done|]. apply to_map_None. pose proof (wf_keys d W) as Hk. rewrite P in Hk. cbn in Hk.
  by apply NoDup_cons in Hk as [Hk _].
Qed.

Lemma rep_bounded d m : rep d m -> Z.of_nat (base.size m) <= 2 ^ 30 -> bounded d.
Proof. intros R Hm. unfold bounded. by rewrite (dict_rep_size d m R). Qed.

Lemma dictResize_spec cr d : wf d -> bounded d ->
  exists r d', dictResize cr d = Some (r, d') /\ wf d' /\ entries d' = entries d.
Proof.
  intros W Hb. unfold dictResize. destruct (negb cr || dictIsRehashing d) eqn:E; [by exists DICT_ERR, d|].
  to_prop. pose proof (used_bound d W Hb) as Hu. rewrite to_n4_id by lia.
  set (n := if used (ht0 d) <? DICT_HT_INITIAL_SIZE then DICT_HT_INITIAL_SIZE else used (ht0 d)).
  assert (Hn : 0 <= n <= 2 ^ 31) by (unfold n, DICT_HT_INITIAL_SIZE; destruct (_ <? _); lia).
  rewrite u8_id by (unfold is_u8; assert (2 ^ 32 < U8_MOD) by done; lia).
  destruct (dictExpand_spec d n W (proj2 Hn)) as (r & d' & b & -> & Hb2 & _ & [(_ & -> & _)|(_ & Hr & He)]);
    [by eexists _, _|]. destruct (expanded_wf d b d' W Hr Hb2 He) as (W' & E' & _). by eexists _, _.
Qed.

(** Each call against the map. *)
Lemma dict_add_spec cr d m k v : rep d m -> bounded d ->
  exists d', dictAdd cr d k v = Some (match m !! k with Some _ => DICT_ERR | None => DICT_OK end, d') /\
    rep d' (match m !! k with Some _ => m | None => <[k := dupval v]> m end).
Proof.
  intros R Hb. pose proof (rep_wf d m R) as W. pose proof (rep_keys d m k R) as Hk.
  destruct (dictAdd_spec cr d k v W Hb) as (r & d' & -> & W' & _ & Hd).
  destruct (decide (k ∈ keys d)) as [Hin|Hnin].
  - destruct Hd as [-> P]. apply Hk in Hin as [old ->]. exists d'. split; [done|]. by apply (rep_kept d).
  - destruct Hd as (-> & a & P). destruct (m !! k) eqn:E; [by destruct Hnin; apply Hk|].
    exists d'. split; [done|]. by apply (rep_add d _ _ a).
Qed.

Lemma dict_replace_spec cr d m k v : rep d m -> bounded d ->
  exists d', dictReplace cr d k v =
    Some (match m !! k with Some _ => 0 | None => 1 end,
          match m !! k with Some old => if valDestructor then [FreeVal (Some old)] else [] | None => [] end, d') /\
    rep d' (<[k := dupval v]> m).
Proof.
  intros R Hb. pose proof (rep_wf d m R) as W. pose proof (rep_keys d m k R) as Hk.
  destruct (dictReplace_spec cr d k v W Hb) as (r & fx & d' & -> & W' & _ & Hd).
  destruct (decide (k ∈ keys d)) as [Hin|Hnin].
  - destruct Hd as (-> & e & rest & Ek & P & P' & ->).
    destruct (dict_rep_lookup d m e R) as (old & Ev & Em); [rewrite P; set_solver|]. rewrite Ek in Em. rewrite Em, Ev.
    exists d'. split; [done|]. split; [done|]. rewrite (to_map_perm d' _ W' P'). cbn.
    destruct R as [_ E]. rewrite fmap_insert, <- E, (to_map_perm d _ W P). cbn. by rewrite Ek, insert_insert_eq.
  - destruct Hd as (-> & -> & a & P). destruct (m !! k) eqn:E; [by destruct Hnin; apply Hk|].
    exists d'. split; [done|]. by apply (rep_add d _ _ a).
Qed.

Lemma delete_spec d m k nofree : rep d m ->
  exists d', dictGenericDelete d k nofree =
    Some (match m !! k with Some _ => DICT_OK | None => DICT_ERR end,
          match m !! k with Some _ => (if negb nofree && keyDestructor then [FreeKey k] else []) | None => [] end, d') /\
    rep d' (delete k m).
Proof.
  intros R. pose proof (rep_wf d m R) as W. pose proof (rep_keys d m k R) as Hk.
  destruct (dictGenericDelete_spec d k nofree W) as (r & fx & d' & -> & W' & _ & Hd).
  destruct (decide (k ∈ keys d)) as [Hin|Hnin].
  - destruct Hd as (e & <- & P & -> & ->). apply Hk in Hin as [old ->]. exists d'. split; [done|]. by apply (rep_delete d).
  - destruct Hd as (-> & -> & P). destruct (m !! k) eqn:E; [by destruct Hnin; apply Hk|].
    exists d'. split; [done|]. rewrite delete_id by done. by apply (rep_kept d).
Qed.

Lemma fetch_spec d m k : rep d m ->
  exists d', dictFetchValue d k = Some (Some <$> m !! k, d') /\ rep d' m.
Proof.
  intros R. unfold dictFetchValue. destruct (dictFind_spec d k (rep_wf d m R)) as (oe & d' & -> & W' & Kp & Hd). cbn.
  assert (R' : rep d' m) by (by apply (rep_kept d); [done| |apply Kp]). exists d'. split; [|done].
  destruct oe as [a|].
  - destruct Hd as (e & He & <- & <-). unfold dictGetVal. rewrite (deref_spec d' e W' He). cbn.
    by destruct (dict_rep_lookup d' m e R' He) as (v & -> & ->).
  - destruct (m !! k) eqn:E; [by destruct Hd; apply (rep_keys d m k R)|done].
Qed.

Lemma dict_expand_spec d m n : rep d m -> n <= 2 ^ 31 -> exists r d', dictExpand d n = Some (r, d') /\ rep d' m.
Proof.
  intros R Hn. pose proof (rep_wf d m R) as W.
  destruct (dictExpand_spec d n W Hn) as (r & d' & b & -> & Hb2 & _ & [(_ & -> & _)|(_ & Hr & He)]); [eauto|].
  destruct (expanded_wf d b d' W Hr Hb2 He) as (W' & E' & _). eexists _, d'. split; [done|].
  apply (rep_kept d); [done|done|by rewrite E'].
Qed.

(** One call: what it answers is what the map answers, and the map is kept in step. *)
Lemma step_spec cr d m o : rep d m -> op_ok o -> Z.of_nat (base.size m) <= 2 ^ 30 ->
  exists cr' d', step (cr, d) o = Some (fst (spec_step m o), (cr', d')) /\ rep d' (snd (spec_step m o)).
Proof.
  intros R Ho Hm. pose proof (rep_bounded d m R Hm) as Hb. pose proof (rep_wf d m R) as W.
  destruct o as [k v|k v|k|k|k| |n| |n|b|]; cbn [step spec_step].
  - destruct (dict_add_spec cr d m k v R Hb) as (d' & -> & R'). eexists cr, d'. by destruct (m !! k).
  - destruct (dict_replace_spec cr d m k v R Hb) as (d' & -> & R'). eexists cr, d'. by destruct (m !! k).
  - unfold dictDelete. destruct (delete_spec d m k false R) as (d' & -> & R'). eexists cr, d'. by destruct (m !! k).
  - unfold dictDeleteNoFree. destruct (delete_spec d m k true R) as (d' & -> & R'). eexists cr, d'. by destruct (m !! k).
  - destruct (fetch_spec d m k R) as (d' & -> & R'). eexists cr, d'. by destruct (m !! k).
  - eexists cr, d. split; [|done]. rewrite (dictSize_spec d W). destruct R as [_ ->]. by rewrite map_size_fmap.
  - destruct (dictRehash_spec n d W Ho) as (r & d' & -> & W' & Kp & _). eexists cr, d'. split; [done|].
    by apply (rep_kept d); [done| |apply Kp].
  - destruct (dictResize_spec cr d W Hb) as (r & d' & -> & W' & E). eexists cr, d'. split; [done|].
    apply (rep_kept d); [done|done|by rewrite E].
  - destruct (dict_expand_spec d m n R Ho) as (r & d' & -> & R'). by eexists cr, d'.
  - by eexists b, d.
  - eexists cr, _. split; [done|]. destruct (dictEmpty_wf d false) as [W' E']. split; [done|].
    unfold to_map. rewrite E'. cbn. by rewrite fmap_empty.
Qed.

Lemma spec_step_size m o : (base.size (snd (spec_step m o)) <= S (base.size m))%nat.
Proof.
  assert (Hi : forall k v, (base.size (<[k := v]> m) <= S (base.size m))%nat).
  { intros k v. rewrite map_size_insert. destruct (m !! k); cbn; lia. }
  assert (Hd : forall k, (base.size (delete k m) <= S (base.size m))%nat).
  { intros k. rewrite map_size_delete. destruct (m !! k); cbn; lia. }
  destruct o as [k v|k v|k|k|k| |n| |n|b|]; cbn; [destruct (m !! k); cbn; [lia|]|..]; try apply Hi; try apply Hd; try lia.
  rewrite map_size_empty. lia.
Qed.

Lemma dict_run_spec os cr d m : rep d m -> Forall op_ok os ->
  Z.of_nat (base.size m) + Z.of_nat (length os) <= 2 ^ 30 ->
  exists cr' d', run (cr, d) os = Some (fst (spec_run m os), (cr', d')) /\ rep d' (snd (spec_run m os)).
Proof.
  revert cr d m. induction os as [|o os IH]; intros cr d m R Hok Hl; cbn [run spec_run]; [by eexists _, _|].
  apply Forall_cons in Hok as [Ho Hok]. cbn [length] in Hl.
  destruct (step_spec cr d m o R Ho) as (cr1 & d1 & -> & R1); [lia|]. cbn.
  pose proof (spec_step_size m o) as Hs. destruct (spec_step m o) as [r m1]. cbn in *.
  destruct (IH cr1 d1 m1 R1 Hok) as (cr2 & d2 & -> & R2); [lia|]. cbn.
  destruct (spec_run m1 os) as [rs m2]. cbn in *. by eexists _, _.
Qed.

Lemma rep_create : rep dictCreate ∅.
Proof. split; [apply dictCreate_wf|]. unfold to_map. cbn. by rewrite fmap_empty. Qed.

(** What releasing the dictionary frees, for the map it holds. *)
Definition free_binding (b : K * V) : list effect := free_entry (mk_entry 0 b.1 (Some b.2)).

Lemma release_map d m : rep d m -> dictRelease d ≡ₚ concat (map free_binding (map_to_list m)).
Proof.
  intros [W E]. rewrite (dictRelease_spec d W).
  assert (P : kv <$> entries d ≡ₚ (fun b => (b.1, Some b.2)) <$> map_to_list m).
  { etrans; [symmetry; apply (map_to_list_to_map (M := gmap K)); rewrite fst_kv; apply W|].
    change (list_to_map (kv <$> entries d)) with (to_map d). rewrite E, map_to_list_fmap. done. }
  set (g (b : K * option V) := free_entry (mk_entry 0 b.1 b.2) : list effect).
  assert (E1 : map free_entry (entries d) = g <$> (kv <$> entries d)).
  { rewrite <- list_fmap_compose. by apply list_fmap_ext. }
  assert (E2 : map free_binding (map_to_list m) = g <$> ((fun b => (b.1, Some b.2)) <$> map_to_list m)).
  { rewrite <- list_fmap_compose. by apply list_fmap_ext. }
  rewrite E1, E2. by rewrite P.
Qed.

(** C4: any sequence of calls on a new dictionary, with rehashings by any number of steps ten times which is an [int],
    resizings and expansions between them, returns what the same calls on a finite map return, and
    frees what they call for (a deletion frees the key but not the value); releasing the dictionary
    frees the keys and values of the map, each once.  The dictionary may come to hold 2^30 entries. *)
Theorem dict_refines_map os : Forall op_ok os -> Z.of_nat (length os) <= 2 ^ 30 ->
  exists cr d, run (true, dictCreate) os = Some (fst (spec_run ∅ os), (cr, d)) /\
    dictRelease d ≡ₚ concat (map free_binding (map_to_list (snd (spec_run ∅ os)))).
Proof.
  intros Hok Hl. destruct (dict_run_spec os true dictCreate ∅ rep_create Hok) as (cr & d & E & R);
    [rewrite map_size_empty; lia|]. exists cr, d. split; [done|]. by apply release_map.
Qed.

End DictMap.

(** ** Numbers under their own hash *)

#[export] Instance number_type : DictType Z Z := {|
  hashFunction k := u4 k; keyDup := None; valDup := None; keyCompare := None;
  keyDestructor := false; valDestructor := true |}.

#[export] Instance number_laws : DictLaws Z Z.
Proof.
  split.
  - intros k. apply u4_range.
  - by intros.
  - by intros.
Qed.

Definition sample : list op :=
  [OpAdd 1 10; OpAdd 5 50; OpAdd 9 90; OpAdd 13 130; OpAdd 17 170; OpAdd 5 51; OpReplace 9 91; OpFetch 5; OpDelete 1;
   OpFetch 1; OpRehash 1; OpFetch 17; OpResize; OpSize].

Lemma dict_refines_map_witness :
  exists cr d, run (true, dictCreate) sample =
    Some ([RCode 0 []; RCode 0 []; RCode 0 []; RCode 0 []; RCode 0 []; RCode 1 []; RCode 0 [FreeVal (Some 90)];
           RValue (Some 50); RCode 0 []; RValue None; RDone; RValue (Some 170); RDone; RSize 4], (cr, d)).
Proof.
  destruct (dict_refines_map sample) as (cr & d & E & _); [by repeat constructor|done|].
  exists cr, d. rewrite E. reflexivity.
Defined.

End DictMap.
