(* ===== verification/DictScan.v ===== *)
(** * Scanning the dictionary of dict.c

    A cursor of [dictScan] is a position in the order of reversed bits; a scan answers with every
    entry whose hash lies between two positions, whatever the tables are.  So an
    iteration returns what stays in the dictionary, as long as no table shrinks under it. *)

From S2P Require Import Prelude Dict DictSpec DictMap.
Import Dict DictSpec DictMap.

Module DictScan.

(** ** Reversing bits *)

Definition swap (s mask v : Z) : Z :=
  Z.lor (Z.land (Z.shiftr v s) mask) (Z.land (u8 (Z.shiftl v s)) (u8 (Z.lnot mask))).

Definition swap_index (s mask i : Z) : Z := if Z.testbit mask i then i + s else i - s.

(** The masks [rev] goes through, with their shifts, the last first. *)
Definition rev_masks : list (Z * Z) :=
  [(1, 0x5555555555555555); (2, 0x3333333333333333); (4, 0x0F0F0F0F0F0F0F0F);
   (8, 0x00FF00FF00FF00FF); (16, 0x0000FFFF0000FFFF); (32, 0x00000000FFFFFFFF)].

Lemma rev_loop_step f s mask v s' mask' : Z.shiftr s 1 = s' -> 0 < s' -> Z.lxor mask (u8 (Z.shiftl mask s')) = mask' ->
  rev_loop (S f) s mask v = rev_loop f s' mask' (swap s' mask' v).
Proof. intros <- Hs <-. cbn [rev_loop]. by rewrite (proj2 (Z.ltb_lt _ _) Hs). Qed.

Lemma rev_swaps v : rev v = fold_right (fun '(s, m) => swap s m) v rev_masks.
Proof.
  unfold rev, rev_masks. cbn [fold_right].
  rewrite (rev_loop_step 6 64 _ v 32 0x00000000FFFFFFFF) by done.
  rewrite (rev_loop_step 5 32 _ _ 16 0x0000FFFF0000FFFF) by done.
  rewrite (rev_loop_step 4 16 _ _ 8 0x00FF00FF00FF00FF) by done.
  rewrite (rev_loop_step 3 8 _ _ 4 0x0F0F0F0F0F0F0F0F) by done.
  rewrite (rev_loop_step 2 4 _ _ 2 0x3333333333333333) by done.
  rewrite (rev_loop_step 1 2 _ _ 1 0x5555555555555555) by done.
  reflexivity.
Qed.

Lemma u8_testbit z i : 0 <= i < 64 -> Z.testbit (u8 z) i = Z.testbit z i.
Proof. intros Hi. unfold u8, U8_MOD. apply Z.mod_pow2_bits_low. lia. Qed.

Lemma swap_testbit s mask v i : 0 <= s -> 0 <= i < 64 ->
  Z.testbit (swap s mask v) i = Z.testbit v (swap_index s mask i).
Proof.
  intros Hs Hi. unfold swap, swap_index.
  rewrite Z.lor_spec, !Z.land_spec, Z.shiftr_spec, !u8_testbit, Z.lnot_spec, Z.shiftl_spec by lia.
  destruct (Z.testbit mask i); cbn; by rewrite ?andb_true_r, ?andb_false_r, ?orb_false_r.
Qed.

(** The indices a bit comes from, in range at every stage. *)
Fixpoint index_path (ms : list (Z * Z)) (i : Z) : option Z :=
  if (0 <=? i) && (i <? 64) then
    match ms with [] => Some i | (s, m) :: ms => index_path ms (swap_index s m i) end
  else None.

Lemma index_path_spec v ms i j : Forall (fun p => 0 <= p.1) ms -> index_path ms i = Some j ->
  Z.testbit (fold_right (fun '(s, m) => swap s m) v ms) i = Z.testbit v j.
Proof.
  revert i. induction ms as [|[s m] ms IH]; intros i Hms; cbn [index_path fold_right].
  - case_match; [by intros [= ->]|done].
  - destruct ((0 <=? i) && (i <? 64)) eqn:E; [|done]. to_prop. apply Forall_cons in Hms as [Hs Hms]. cbn in Hs.
    intros Hp. rewrite swap_testbit by lia. by apply IH.
Qed.

Lemma rev_path : Forall (fun i => index_path rev_masks i = Some (63 - i)) (seqZ 0 64).
Proof. apply (bool_decide_unpack _). vm_compute. done. Qed.

Lemma rev_testbit v i : 0 <= i < 64 -> Z.testbit (rev v) i = Z.testbit v (63 - i).
Proof.
  intros Hi. rewrite rev_swaps. apply index_path_spec; [repeat constructor; done|].
  pose proof rev_path as Hp. rewrite Forall_forall in Hp. apply Hp. apply elem_of_seqZ. lia.
Qed.

Lemma bits_range z n : 0 <= n -> (forall i, n <= i -> Z.testbit z i = false) -> 0 <= z < 2 ^ n.
Proof.
  intros Hn Hz. assert (E : z = z mod 2 ^ n).
  { apply Z.bits_inj'. intros i Hi. destruct (Z.lt_ge_cases i n).
    - by rewrite Z.mod_pow2_bits_low by lia.
    - rewrite Z.mod_pow2_bits_high by lia. by apply Hz. }
  rewrite E. apply Z.mod_pos_bound. lia.
Qed.

Lemma range_bits z n i : 0 <= z < 2 ^ n -> n <= i -> Z.testbit z i = false.
Proof.
  intros Hz Hi. destruct (Z.lt_ge_cases n 0); [rewrite Z.pow_neg_r in Hz by lia; lia|].
  rewrite <- (Z.mod_small z (2 ^ n)) by lia. by apply Z.mod_pow2_bits_high.
Qed.

Lemma is_u8_bits z i : is_u8 z -> 64 <= i -> Z.testbit z i = false.
Proof. intros Hz. by apply range_bits. Qed.

Lemma rev_range v : is_u8 v -> is_u8 (rev v).
Proof.
  intros Hv. rewrite rev_swaps. unfold rev_masks. cbn [fold_right].
  set (w := swap 2 _ _). clearbody w. apply (bits_range _ 64); [lia|]. intros i Hi. unfold swap.
  rewrite Z.lor_spec, !Z.land_spec. rewrite (range_bits 0x5555555555555555 64 i) by (done || lia).
  rewrite (is_u8_bits (u8 (Z.shiftl w 1))) by (apply u8_range || lia). by rewrite andb_false_r.
Qed.

Lemma rev_rev v : is_u8 v -> rev (rev v) = v.
Proof.
  intros Hv. apply Z.bits_inj'. intros i Hi. destruct (Z.lt_ge_cases i 64).
  - rewrite !rev_testbit by lia. f_equal. lia.
  - rewrite !is_u8_bits; [done|done|done|by apply rev_range, rev_range|done].
Qed.

Lemma rev_0 : rev 0 = 0.
Proof. reflexivity. Qed.

#[local] Opaque rev.

(** ** Masks *)

Lemma ones_mask b : 0 <= b -> 2 ^ b - 1 = Z.ones b.
Proof. intros Hb. rewrite Z.ones_equiv. lia. Qed.

Lemma land_mask_mod x b : 0 <= b -> Z.land x (2 ^ b - 1) = x mod 2 ^ b.
Proof. intros Hb. by rewrite (ones_mask b Hb), Z.land_ones. Qed.

Lemma mod_bits x b i : 0 <= b -> 0 <= i -> Z.testbit (x mod 2 ^ b) i = if i <? b then Z.testbit x i else false.
Proof.
  intros Hb Hi. destruct (Z.ltb_spec i b); [by apply Z.mod_pow2_bits_low|by apply Z.mod_pow2_bits_high].
Qed.

Lemma land_unmask x b : is_u8 x -> 0 <= b -> Z.land x (u8 (Z.lnot (2 ^ b - 1))) = x - x mod 2 ^ b.
Proof.
  intros Hx Hb. assert (E : x - x mod 2 ^ b = Z.shiftl (Z.shiftr x b) b).
  { rewrite Z.shiftl_mul_pow2, Z.shiftr_div_pow2 by done. pose proof (Z.div_mod x (2 ^ b)). lia. }
  rewrite E. apply Z.bits_inj'. intros i Hi. rewrite Z.land_spec, Z.shiftl_spec by done.
  destruct (Z.lt_ge_cases i 64) as [H64|H64].
  - rewrite u8_testbit, Z.lnot_spec, (ones_mask b Hb), Z.testbit_ones_nonneg by lia.
    destruct (Z.ltb_spec i b); cbn.
    + rewrite andb_false_r. by rewrite Z.testbit_neg_r by lia.
    + rewrite Z.shiftr_spec by lia. rewrite andb_true_r. f_equal. lia.
  - rewrite (is_u8_bits x i Hx H64). cbn. symmetry. destruct (Z.lt_ge_cases i b).
    + by rewrite Z.testbit_neg_r by lia.
    + rewrite Z.shiftr_spec by lia. replace (i - b + b) with i by lia. by apply is_u8_bits.
Qed.

Lemma lor_mask x b : 0 <= x -> 0 <= b -> Z.lor x (2 ^ b - 1) = x - x mod 2 ^ b + (2 ^ b - 1).
Proof.
  intros Hx Hb. rewrite (ones_mask b Hb).
  assert (E : x - x mod 2 ^ b = Z.shiftl (Z.shiftr x b) b).
  { rewrite Z.shiftl_mul_pow2, Z.shiftr_div_pow2 by done. pose proof (Z.div_mod x (2 ^ b)). lia. }
  rewrite E. rewrite Z.add_nocarry_lxor, Z.lxor_lor; [|..].
  - apply Z.bits_inj'. intros i Hi. rewrite !Z.lor_spec, Z.shiftl_spec, Z.testbit_ones_nonneg by done.
    destruct (Z.ltb_spec i b); [by rewrite !orb_true_r|]. rewrite Z.shiftr_spec by lia. do 2 f_equal. lia.
  - apply Z.bits_inj'. intros i Hi. rewrite Z.land_spec, Z.shiftl_spec, Z.testbit_ones_nonneg, Z.testbit_0_l by done.
    destruct (Z.ltb_spec i b); [by rewrite Z.testbit_neg_r by lia|by rewrite andb_false_r].
  - apply Z.bits_inj'. intros i Hi. rewrite Z.land_spec, Z.shiftl_spec, Z.testbit_ones_nonneg, Z.testbit_0_l by done.
    destruct (Z.ltb_spec i b); [by rewrite Z.testbit_neg_r by lia|by rewrite andb_false_r].
Qed.

(** ** Positions *)

(** Hashes agree on their low [b] bits exactly when their positions agree on the high ones. *)
Lemma rev_prefix x y b : is_u8 x -> is_u8 y -> 0 <= b <= 64 ->
  x mod 2 ^ b = y mod 2 ^ b <-> rev x / 2 ^ (64 - b) = rev y / 2 ^ (64 - b).
Proof.
  intros Hx Hy Hb. rewrite <- !Z.shiftr_div_pow2 by lia.
  assert (Hr : forall z i, is_u8 z -> 0 <= i -> Z.testbit (Z.shiftr (rev z) (64 - b)) i =
    if i <? b then Z.testbit z (b - 1 - i) else false).
  { intros z i Hz Hi. rewrite Z.shiftr_spec by lia. destruct (Z.ltb_spec i b).
    - rewrite rev_testbit by lia. f_equal. lia.
    - apply is_u8_bits; [by apply rev_range|lia]. }
  split; intros E; apply Z.bits_inj'; intros i Hi.
  - rewrite !Hr by done. destruct (Z.ltb_spec i b); [|done].
    pose proof (f_equal (fun z => Z.testbit z (b - 1 - i)) E) as Et. cbv beta in Et.
    rewrite !mod_bits in Et by lia. by rewrite (proj2 (Z.ltb_lt _ _)) in Et by lia.
  - rewrite !mod_bits by lia. destruct (Z.ltb_spec i b); [|done].
    pose proof (f_equal (fun z => Z.testbit z (b - 1 - i)) E) as Et. cbv beta in Et.
    rewrite !Hr in Et by (done || lia). rewrite (proj2 (Z.ltb_lt _ _)) in Et by lia.
    by replace (b - 1 - (b - 1 - i)) with i in Et by lia.
Qed.

(** The position behind all those with the high [b] bits of [x]. *)
Definition next_pos (b x : Z) : Z := 2 ^ (64 - b) * (x / 2 ^ (64 - b) + 1).

Lemma next_pos_bounds b x : 0 <= b <= 64 -> is_u8 x -> x < next_pos b x <= 2 ^ 64.
Proof.
  intros Hb Hx. unfold next_pos. assert (E : 2 ^ 64 = 2 ^ (64 - b) * 2 ^ b) by (rewrite <- Z.pow_add_r by lia; f_equal; lia).
  assert (Hx' : 0 <= x < 2 ^ 64) by done.
  pose proof (Z.div_mod x (2 ^ (64 - b)) ltac:(lia)). pose proof (Z.mod_pos_bound x (2 ^ (64 - b)) ltac:(lia)).
  assert (x / 2 ^ (64 - b) < 2 ^ b) by (apply Z.div_lt_upper_bound; lia). split; [nia|]. rewrite E. apply Z.mul_le_mono_nonneg_l; lia.
Qed.

Lemma next_cursor_pos v b : is_u8 v -> 0 <= b <= 64 ->
  rev (next_cursor v (2 ^ b - 1)) = u8 (next_pos b (rev v)) /\ 0 <= next_cursor v (2 ^ b - 1) < 2 ^ b.
Proof.
  intros Hv Hb. unfold next_cursor. set (w := Z.lor v (u8 (Z.lnot (2 ^ b - 1)))).
  assert (Hwb : forall i, 0 <= i < 64 -> Z.testbit w i = if i <? b then Z.testbit v i else true).
  { intros i Hi. unfold w. rewrite Z.lor_spec, u8_testbit, Z.lnot_spec, (ones_mask b), Z.testbit_ones_nonneg by lia.
    destruct (i <? b); cbn; by rewrite ?orb_false_r, ?orb_true_r. }
  assert (Hw : is_u8 w).
  { unfold w. apply (bits_range _ 64); [lia|]. intros i Hi. rewrite Z.lor_spec.
    by rewrite !is_u8_bits by (done || apply u8_range). }
  assert (E1 : rev w / 2 ^ (64 - b) = rev v / 2 ^ (64 - b)).
  { apply rev_prefix; [done|done|done|]. apply Z.bits_inj'. intros i Hi. rewrite !mod_bits by lia.
    destruct (Z.ltb_spec i b); [|done]. rewrite Hwb by lia. by rewrite (proj2 (Z.ltb_lt _ _)). }
  assert (E2 : rev w mod 2 ^ (64 - b) = 2 ^ (64 - b) - 1).
  { rewrite ones_mask by lia. apply Z.bits_inj'. intros i Hi. rewrite mod_bits, Z.testbit_ones_nonneg by lia.
    destruct (Z.ltb_spec i (64 - b)); [|done]. rewrite rev_testbit, Hwb by lia. by rewrite (proj2 (Z.ltb_ge _ _)) by lia. }
  assert (E : rev w + 1 = next_pos b (rev v)).
  { unfold next_pos. pose proof (Z.div_mod (rev w) (2 ^ (64 - b)) ltac:(lia)). rewrite E1, E2 in *. lia. }
  rewrite E. split; [by apply rev_rev, u8_range|].
  apply bits_range; [lia|]. intros i Hi. destruct (Z.lt_ge_cases i 64).
  - rewrite rev_testbit, u8_testbit by lia. unfold next_pos. rewrite Z.mul_comm, Z.mul_pow2_bits by lia.
    apply Z.testbit_neg_r. lia.
  - apply is_u8_bits; [apply rev_range, u8_range|done].
Qed.

(** The positions between a cursor and the next are those of the hashes in its bucket. *)
Lemma between v x b : is_u8 v -> is_u8 x -> 0 <= b <= 64 -> rev v <= rev x < next_pos b (rev v) ->
  x mod 2 ^ b = v mod 2 ^ b.
Proof.
  intros Hv Hx Hb Hr. apply rev_prefix; [done|done|done|]. unfold next_pos in Hr.
  apply Z.le_antisymm; [|apply Z.div_le_mono; lia].
  assert (rev x / 2 ^ (64 - b) < rev v / 2 ^ (64 - b) + 1); [|lia].
  apply Z.div_lt_upper_bound; lia.
Qed.

Lemma dict_lor_low w r b : 0 <= b -> w mod 2 ^ b = 0 -> 0 <= r < 2 ^ b -> Z.lor w r = w + r.
Proof.
  intros Hb Hw Hr. assert (L : Z.land w r = 0).
  { apply Z.bits_inj'. intros i Hi. rewrite Z.land_spec, Z.testbit_0_l.
    destruct (Z.lt_ge_cases i b); [|by rewrite (range_bits r b i), andb_false_r].
    assert (Ew : Z.testbit (w mod 2 ^ b) i = Z.testbit w i) by (apply Z.mod_pow2_bits_low; lia).
    by rewrite <- Ew, Hw, Z.testbit_0_l. }
  by rewrite (Z.add_nocarry_lxor w r L), (Z.lxor_lor w r L).
Qed.

Lemma expand_cursor v b : 0 <= v < 2 ^ 34 -> 0 <= b <= 31 ->
  let m0 := 2 ^ b - 1 in
  Z.lor (Z.land (u8 (Z.lor v m0 + 1)) (u8 (Z.lnot m0))) (Z.land v m0) = v + 2 ^ b.
Proof.
  intros Hv Hb m0. assert (HM : 2 ^ 35 < U8_MOD) by done. assert (Hb31 : 2 ^ b <= 2 ^ 31) by (apply Z.pow_le_mono_r; lia).
  pose proof (Z.mod_pos_bound v (2 ^ b) ltac:(lia)) as Hm. pose proof (Z.div_mod v (2 ^ b) ltac:(lia)) as Hd.
  unfold m0. rewrite lor_mask, land_mask_mod by lia.
  replace (v - v mod 2 ^ b + (2 ^ b - 1) + 1) with (2 ^ b * (v / 2 ^ b + 1)) by lia.
  assert (Hq : 0 <= 2 ^ b * (v / 2 ^ b + 1) < 2 ^ 35) by lia.
  rewrite u8_id by (unfold is_u8; lia). rewrite land_unmask by (unfold is_u8; lia).
  rewrite (Z.mul_comm (2 ^ b)), Z.mod_mul, Z.sub_0_r by lia.
  rewrite (dict_lor_low _ _ b); [lia|lia|by apply Z.mod_mul; lia|lia].
Qed.

(** The bits of a cursor between the two masks. *)
Definition expansion (b0 b1 x : Z) : Z := (x / 2 ^ b0) mod 2 ^ (b1 - b0).

Lemma mod_split x b0 b1 : 0 <= b0 <= b1 -> x mod 2 ^ b1 = x mod 2 ^ b0 + 2 ^ b0 * expansion b0 b1 x.
Proof.
  intros Hb. unfold expansion. rewrite <- Z.rem_mul_r by lia. f_equal. rewrite <- Z.pow_add_r by lia. f_equal. lia.
Qed.

Lemma expand_stop v b0 b1 : 0 <= b0 <= b1 ->
  Z.land v (Z.lxor (2 ^ b0 - 1) (2 ^ b1 - 1)) = 2 ^ b0 * expansion b0 b1 v.
Proof.
  intros Hb. unfold expansion. rewrite Z.mul_comm, <- Z.shiftl_mul_pow2, <- Z.shiftr_div_pow2, !ones_mask by lia.
  apply Z.bits_inj'. intros i Hi.
  rewrite Z.land_spec, Z.lxor_spec, !Z.testbit_ones_nonneg, Z.shiftl_spec by lia.
  destruct (Z.ltb_spec i b0) as [H0|H0].
  - rewrite (proj2 (Z.ltb_lt _ _)) by lia. cbn. rewrite andb_false_r. by rewrite Z.testbit_neg_r by lia.
  - rewrite mod_bits, Z.shiftr_spec by lia. replace (i - b0 + b0) with i by lia. cbn.
    destruct (Z.ltb_spec i b1); [rewrite (proj2 (Z.ltb_lt _ _)) by lia|rewrite (proj2 (Z.ltb_ge _ _)) by lia];
      by rewrite ?andb_true_r, ?andb_false_r.
Qed.

Lemma expansion_next v b0 b1 : 0 <= b0 <= b1 ->
  expansion b0 b1 (v + 2 ^ b0) = (expansion b0 b1 v + 1) mod 2 ^ (b1 - b0).
Proof.
  intros Hb. unfold expansion. replace (v + 2 ^ b0) with (v + 1 * 2 ^ b0) by lia.
  rewrite Z.div_add by lia. by rewrite Zplus_mod_idemp_l.
Qed.

Section DictScan.
Context {K V : Type} `{Countable K} `{!DictType K V} `{!DictLaws K V}.

Notation entry := (dictEntry K V).
Notation dictht := (dictht K V).
Notation dict := (dict K V).
Notation op := (@op K V).
Implicit Types (h : dictht) (d : dict) (e : entry).

Definition hash e : Z := dictHashKey (e_key e).

Lemma hash_u8 e : is_u8 (hash e).
Proof.
  unfold hash, dictHashKey, is_u8. pose proof (hash_range (e_key e)). assert (2 ^ 32 < U8_MOD) by done. lia.
Qed.

(** A table in use. *)
Lemma wf_ht_bits h : wf_ht h -> is_Some (table h) ->
  exists b, 2 <= b <= 31 /\ size h = 2 ^ b /\ sizemask h = 2 ^ b - 1.
Proof.
  unfold wf_ht. intros Hw [t Et]. rewrite Et in Hw. destruct Hw as ((b & Hb & Hs) & Hm & _).
  exists b. rewrite Hm, Hs. auto.
Qed.

(** The bucket of a cursor holds the entries whose hash agrees with it under the mask. *)
Lemma cursor_bucket h b v : wf_ht h -> is_Some (table h) -> 0 <= b -> sizemask h = 2 ^ b - 1 -> 0 <= v ->
  exists c, bucket h (Z.land v (sizemask h)) = Some c /\ (forall e, e ∈ c -> e ∈ ht_entries h) /\
    forall e, e ∈ ht_entries h -> hash e mod 2 ^ b = v mod 2 ^ b -> e ∈ c.
Proof.
  intros Hw Ht Hb Hm Hv. destruct (bucket_range h (Z.land v (sizemask h)) Hw Ht) as (c & Hc); [by apply dict_land_mask|].
  exists c. split; [done|]. split; [intros e; by eapply bucket_elem|].
  intros e He Heq. destruct (elem_of_ht_entries h e Hw He) as (c' & Hc' & Hin).
  rewrite Hm, land_mask_mod in Hc, Hc' by done. unfold hash in Heq. rewrite Heq, Hc in Hc'. congruence.
Qed.

Lemma scan_expansions_spec fuel h b0 b1 v :
  wf_ht h -> is_Some (table h) -> sizemask h = 2 ^ b1 - 1 -> 0 <= b0 <= b1 -> b1 <= 31 ->
  0 <= v -> let left := 2 ^ (b1 - b0) - expansion b0 b1 v in
  v + left * 2 ^ b0 < 2 ^ 34 -> left <= Z.of_nat fuel ->
  exists es v', scan_expansions fuel h (2 ^ b0 - 1) (2 ^ b1 - 1) v = Some (es, v') /\
    0 <= v' < 2 ^ 34 /\ v' mod 2 ^ b0 = v mod 2 ^ b0 /\ (forall e, e ∈ es -> e ∈ ht_entries h) /\
    forall e, e ∈ ht_entries h -> hash e mod 2 ^ b0 = v mod 2 ^ b0 ->
      expansion b0 b1 v <= expansion b0 b1 (hash e) -> e ∈ es.
Proof.
  intros Hw Ht Hm Hb Hb1. revert v. induction fuel as [|f IH]; intros v Hv left Hbound Hf.
  { pose proof (Z.mod_pos_bound (v / 2 ^ b0) (2 ^ (b1 - b0)) ltac:(lia)). unfold left, expansion in Hf. lia. }
  assert (Hx : forall x, 0 <= expansion b0 b1 x < 2 ^ (b1 - b0)) by (intros x; apply Z.mod_pos_bound; lia).
  pose proof (Hx v) as Hxv. cbn [scan_expansions].
  destruct (cursor_bucket h b1 v Hw Ht ltac:(lia) Hm Hv) as (c & Hc & Hsub & Hin). rewrite Hm in Hc. rewrite Hc. cbn [mbind option_bind].
  assert (Hlt : v < 2 ^ 34) by (unfold left in Hbound; nia).
  rewrite expand_cursor, expand_stop, expansion_next by lia.
  assert (Hsame : forall e, hash e mod 2 ^ b0 = v mod 2 ^ b0 -> expansion b0 b1 v = expansion b0 b1 (hash e) ->
    hash e mod 2 ^ b1 = v mod 2 ^ b1).
  { intros e E1 E2. rewrite !(mod_split _ b0 b1) by lia. by rewrite E1, E2. }
  assert (Hmod : (v + 2 ^ b0) mod 2 ^ b0 = v mod 2 ^ b0).
  { replace (v + 2 ^ b0) with (v + 1 * 2 ^ b0) by lia. apply Z.mod_add. lia. }
  destruct (Z.eq_dec (expansion b0 b1 v + 1) (2 ^ (b1 - b0))) as [Elast|Emore].
  - rewrite Elast, Z.mod_same, Z.mul_0_r by lia. cbn [Z.eqb]. exists c, (v + 2 ^ b0).
    split_and!; [done|lia|unfold left in Hbound; nia|done|done|].
    intros e He E1 E2. apply Hin; [done|]. apply Hsame; [done|]. pose proof (Hx (hash e)). lia.
  - rewrite (Z.mod_small (_ + 1)) by lia. rewrite (proj2 (Z.eqb_neq _ _)) by nia.
    destruct (IH (v + 2 ^ b0)) as (es & v' & E & Hv' & Em & Hs & Hcov).
    + lia.
    + rewrite expansion_next, Z.mod_small by lia. unfold left in Hbound. lia.
    + rewrite expansion_next, Z.mod_small by lia. unfold left in Hf. lia.
    + rewrite E. cbn. exists (c ++ es), v'. split_and!; [done|lia|lia|by rewrite Em|set_solver|].
      intros e He E1 E2. apply elem_of_app. destruct (Z.eq_dec (expansion b0 b1 v) (expansion b0 b1 (hash e))) as [Eq|Ne].
      * left. by apply Hin, Hsame.
      * right. apply Hcov; [done|by rewrite E1, Hmod|]. rewrite expansion_next, Z.mod_small by lia. lia.
Qed.

Lemma next_cursor_mod v v' b : is_u8 v -> is_u8 v' -> 0 <= b <= 64 -> v' mod 2 ^ b = v mod 2 ^ b ->
  next_cursor v' (2 ^ b - 1) = next_cursor v (2 ^ b - 1).
Proof.
  intros Hv Hv' Hb E. unfold next_cursor. do 4 f_equal. apply Z.bits_inj'. intros i Hi. rewrite !Z.lor_spec.
  destruct (Z.lt_ge_cases i 64); [|by rewrite !is_u8_bits by (done || apply u8_range)].
  rewrite !u8_testbit, Z.lnot_spec, ones_mask, Z.testbit_ones_nonneg by lia.
  destruct (Z.ltb_spec i b); [|by rewrite !orb_true_r]. cbn. rewrite !orb_false_r.
  pose proof (f_equal (fun z => Z.testbit z i) E) as Et. cbv beta in Et.
  rewrite !mod_bits in Et by lia. by rewrite (proj2 (Z.ltb_lt _ _)) in Et by lia.
Qed.

Lemma dictSize_pos d : wf d -> entries d <> [] -> dictSize d <> 0.
Proof.
  intros W Hne. rewrite (dictSize_spec d W), (size_map d W). destruct (entries d); [done|]. cbn. lia.
Qed.

(** Both tables of a rehashing, the smaller first. *)
Lemma dictScan_both d v t0 t1 b0 b1 : is_u8 v ->
  wf_ht t0 -> wf_ht t1 -> is_Some (table t0) -> is_Some (table t1) ->
  sizemask t0 = 2 ^ b0 - 1 -> sizemask t1 = 2 ^ b1 - 1 -> size t1 = 2 ^ b1 -> 2 <= b0 <= b1 -> b1 <= 31 -> v < 2 ^ 33 ->
  exists de des v', bucket t0 (Z.land v (sizemask t0)) = Some de /\
    scan_expansions (S (Z.to_nat (size t1))) t1 (sizemask t0) (sizemask t1) v = Some (des, v') /\
    next_cursor v' (sizemask t0) = next_cursor v (2 ^ b0 - 1) /\
    (forall e, e ∈ de ++ des -> e ∈ ht_entries t0 \/ e ∈ ht_entries t1) /\
    forall e, e ∈ ht_entries t0 \/ e ∈ ht_entries t1 -> v < 2 ^ b0 -> hash e mod 2 ^ b0 = v mod 2 ^ b0 -> e ∈ de ++ des.
Proof.
  intros Hv W0 W1 T0 T1 M0 M1 S1 Hb Hb1 Hlt. assert (Hv0 : 0 <= v) by apply Hv.
  assert (HM : 2 ^ 35 < U8_MOD) by done.
  assert (Hp : 2 ^ (b1 - b0) * 2 ^ b0 = 2 ^ b1) by (rewrite <- Z.pow_add_r by lia; f_equal; lia).
  assert (H31 : 2 ^ b1 <= 2 ^ 31) by (apply Z.pow_le_mono_r; lia).
  pose proof (Z.mod_pos_bound (v / 2 ^ b0) (2 ^ (b1 - b0)) ltac:(lia)) as Hx. change (_ mod _) with (expansion b0 b1 v) in Hx.
  destruct (cursor_bucket t0 b0 v W0 T0 ltac:(lia) M0 Hv0) as (de & Hde & Hs0 & Hc0).
  destruct (scan_expansions_spec (S (Z.to_nat (size t1))) t1 b0 b1 v W1 T1 M1) as (des & v' & E & Hv' & Em & Hs1 & Hc1);
    [lia|lia|done|nia|rewrite S1; nia|].
  exists de, des, v'. rewrite M0 in *. rewrite M1. split_and!; [done|done| | |].
  - apply next_cursor_mod; [done|unfold is_u8; lia|lia|done].
  - intros e [?|?]%elem_of_app; auto.
  - intros e [He|He] Hsm Heq; apply elem_of_app; [left; auto|right]. apply Hc1; [done|done|].
    assert (expansion b0 b1 v = 0) as ->; [|apply Z.mod_pos_bound; lia].
    unfold expansion. rewrite Z.div_small by lia. by apply Z.mod_0_l; lia.
Qed.

(** One scan: what it answers is in the dictionary, and unless the cursor has bits beyond the smaller
    of two tables, it answers with every entry whose hash agrees with the cursor under that table's mask. *)
Lemma dictScan_spec d v : wf d -> is_u8 v -> v < 2 ^ 33 -> entries d <> [] ->
  exists b es, 2 <= b <= 31 /\ small d = 2 ^ b /\ dictScan d v = Some (es, next_cursor v (2 ^ b - 1)) /\
    (forall e, e ∈ es -> e ∈ entries d) /\
    forall e, e ∈ entries d -> (dictIsRehashing d = true -> v < small d) ->
      hash e mod 2 ^ b = v mod 2 ^ b -> e ∈ es.
Proof.
  intros W Hv Hlt Hne. unfold dictScan. rewrite (proj2 (Z.eqb_neq _ _)) by (by apply dictSize_pos).
  destruct (dictIsRehashing d) eqn:Hr; cbn [negb].
  - destruct (wf_busy d W Hr) as (T0 & T1 & _).
    destruct (wf_ht_bits _ (wf_ht0 d W) T0) as (b0 & Hb0 & S0 & M0).
    destruct (wf_ht_bits _ (wf_ht1 d W) T1) as (b1 & Hb1 & S1 & M1).
    unfold small. rewrite Hr. destruct (Z.ltb_spec (size (ht1 d)) (size (ht0 d))) as [Hs|Hs].
    + assert (b1 <= b0) by (rewrite S0, S1 in Hs; apply Z.pow_lt_mono_r_iff in Hs; lia).
      destruct (dictScan_both d v (ht1 d) (ht0 d) b1 b0 Hv (wf_ht1 d W) (wf_ht0 d W) T1 T0 M1 M0 S0)
        as (de & des & v' & -> & E & En & Hsub & Hcov); [lia|lia|lia|].
      exists b1, (de ++ des). cbn [mbind option_bind]. rewrite E. cbn [mbind option_bind]. rewrite En.
      split_and!; [lia|lia|lia|done| |].
      * intros e He. unfold entries. apply elem_of_app. destruct (Hsub e He); auto.
      * intros e He Hsm Heq. apply Hcov; [|rewrite <- S1; specialize (Hsm eq_refl); lia|done].
        unfold entries in He. apply elem_of_app in He as [?|?]; auto.
    + assert (b0 <= b1) by (rewrite S0, S1 in Hs; apply Z.pow_le_mono_r_iff in Hs; lia).
      destruct (dictScan_both d v (ht0 d) (ht1 d) b0 b1 Hv (wf_ht0 d W) (wf_ht1 d W) T0 T1 M0 M1 S1)
        as (de & des & v' & -> & E & En & Hsub & Hcov); [lia|lia|lia|].
      exists b0, (de ++ des). cbn [mbind option_bind]. rewrite E. cbn [mbind option_bind]. rewrite En.
      split_and!; [lia|lia|lia|done| |].
      * intros e He. unfold entries. apply elem_of_app. destruct (Hsub e He); auto.
      * intros e He Hsm Heq. apply Hcov; [|rewrite <- S0; specialize (Hsm eq_refl); lia|done].
        unfold entries in He. apply elem_of_app in He as [?|?]; auto.
  - assert (E0 : entries d = ht_entries (ht0 d)) by (by apply keys_idle).
    assert (T0 : is_Some (table (ht0 d))).
    { destruct (table (ht0 d)) eqn:Et; [eauto|]. destruct Hne. rewrite E0. unfold ht_entries. by rewrite Et. }
    destruct (wf_ht_bits _ (wf_ht0 d W) T0) as (b & Hb & S0 & M0).
    destruct (cursor_bucket (ht0 d) b v (wf_ht0 d W) T0 ltac:(lia) M0 (proj1 Hv)) as (c & Hc & Hs & Hin).
    exists b, c. rewrite Hc. cbn [mbind option_bind]. rewrite M0. unfold small. rewrite Hr, E0.
    split_and!; [lia|lia|done|done|done|]. intros e He _ Heq. by apply Hin.
Qed.

(** ** Iterations between other calls *)

(** A scan with the last cursor, or another call. *)
Fixpoint session (s : bool * dict) (v : Z) (os : list (option op)) : option (list entry * Z * (bool * dict)) :=
  match os with
  | [] => Some ([], v, s)
  | None :: os =>
      '(es, v) ← dictScan (snd s) v;
      '(es', v, s) ← session s v os;
      Some (es ++ es', v, s)
  | Some o :: os => '(_, s) ← step s o; session s v os
  end.

(** Calls that leave a key in the dictionary and shrink no table. *)
Definition leaves (k : K) (o : op) : Prop :=
  match o with
  | OpDelete k' | OpDeleteNoFree k' => k' <> k
  | OpResize | OpExpand _ | OpEmpty => False
  | OpRehash n => rehash_ok n
  | _ => True
  end.

Definition leaves_step (k : K) (o : option op) : Prop := match o with Some o => leaves k o | None => True end.

Lemma step_small cr d (m : gmap K V) o k r s' : rep d m -> bounded d -> leaves k o ->
  step (cr, d) o = Some (r, s') -> small d <= small (snd s').
Proof.
  intros R Hb Hl. pose proof (rep_wf d m R) as W. destruct o as [k' v|k' v|k'|k'|k'| |n| |n|b|]; cbn [step leaves] in *; try done.
  - destruct (dictAdd_spec cr d k' v W Hb) as (r' & d' & -> & _ & Hs & _). cbn. by intros [= _ <-].
  - destruct (dictReplace_spec cr d k' v W Hb) as (r' & fx & d' & -> & _ & Hs & _). cbn. by intros [= _ <-].
  - unfold dictDelete. destruct (dictGenericDelete_spec d k' false W) as (r' & fx & d' & -> & _ & Hs & _). cbn. by intros [= _ <-].
  - unfold dictDeleteNoFree. destruct (dictGenericDelete_spec d k' true W) as (r' & fx & d' & -> & _ & Hs & _). cbn. by intros [= _ <-].
  - unfold dictFetchValue. destruct (dictFind_spec d k' W) as (o & d' & -> & _ & [_ _ _ Hs] & _). cbn.
    destruct o as [a|]; [|by intros [= _ <-]]. destruct (dictGetVal d' a); [|done]. cbn. by intros [= _ <-].
  - by intros [= _ <-].
  - destruct (dictRehash_spec n d W Hl) as (r' & d' & -> & _ & [_ _ _ Hs] & _). cbn. by intros [= _ <-].
  - by intros [= _ <-].
Qed.

Lemma step_leaves (m : gmap K V) o k : leaves k o -> is_Some (m !! k) -> is_Some (snd (spec_step m o) !! k).
Proof.
  intros Hl Hk. destruct o as [k' v|k' v|k'|k'|k'| |n| |n|b|]; cbn [spec_step leaves] in *; try done.
  - destruct (m !! k') eqn:E; [done|]. cbn. rewrite lookup_insert_is_Some. destruct (decide (k' = k)); tauto.
  - cbn. rewrite lookup_insert_is_Some. destruct (decide (k' = k)); tauto.
  - cbn. by rewrite lookup_delete_ne.
  - cbn. by rewrite lookup_delete_ne.
Qed.

Lemma leaves_ok k o : leaves k o -> op_ok o.
Proof. by destruct o. Qed.

Lemma small_range d : wf d -> entries d <> [] -> small d <= 2 ^ 31.
Proof.
  intros W Hne. destruct (dictScan_spec d 0 W) as (b & _ & Hb & -> & _); [done|done|done|].
  apply Z.pow_le_mono_r; lia.
Qed.

(** One scan of an iteration for a key of the dictionary: the key lies before the next position only if it
    lies before this one or is among the answers. *)
Lemma scan_step d (m : gmap K V) k v : rep d m -> is_Some (m !! k) -> is_u8 v -> v = 0 \/ v < small d ->
  exists es v', dictScan d v = Some (es, v') /\ is_u8 v' /\ v' < small d /\
    (rev (dictHashKey k) < rev v' \/ v' = 0 -> rev (dictHashKey k) < rev v \/ k ∈ e_key <$> es).
Proof.
  intros R Hk Hv Hc. pose proof (rep_wf d m R) as W.
  apply (rep_keys d m k R) in Hk as (e & -> & He)%list_elem_of_fmap.
  assert (Hne : entries d <> []) by (intros E; rewrite E in He; set_solver).
  pose proof (small_range d W Hne) as Hsr.
  destruct (dictScan_spec d v W Hv) as (b & es & Hb & Es & -> & Hsub & Hcov); [destruct Hc; lia|done|].
  destruct (next_cursor_pos v b Hv ltac:(lia)) as [En Hr].
  pose proof (next_pos_bounds b (rev v) ltac:(lia) (rev_range v Hv)) as Hnp.
  assert (H31 : 2 ^ b <= 2 ^ 31) by (apply Z.pow_le_mono_r; lia).
  exists es, (next_cursor v (2 ^ b - 1)). split_and!; [done| |lia|].
  { unfold is_u8. assert (2 ^ 31 < U8_MOD) by done. lia. }
  intros Hlt. destruct (Z.lt_ge_cases (rev (hash e)) (rev v)) as [|Hge]; [by left|right].
  apply list_elem_of_fmap_2. apply Hcov; [done|destruct Hc; [intros _; lia|done]|].
  assert (Hrh : is_u8 (rev (hash e))) by apply rev_range, hash_u8.
  apply between; [done|apply hash_u8|lia|]. split; [done|].
  assert (Hrv : 0 <= rev v) by apply (rev_range v Hv).
  assert (Hu : u8 (next_pos b (rev v)) <= next_pos b (rev v)) by (apply Z.mod_le; [lia|done]).
  change (dictHashKey (e_key e)) with (hash e) in Hlt. destruct Hlt as [Hlt|H0]; [lia|].
  rewrite H0, rev_0 in En. unfold u8, U8_MOD in En. unfold is_u8, U8_MOD in Hrh.
  destruct (Z.eq_dec (next_pos b (rev v)) (2 ^ 64)) as [Eq|Ne]; [lia|].
  rewrite Z.mod_small in En by lia. lia.
Qed.

Lemma session_spec k os cr d (m : gmap K V) v (seen : bool) : rep d m -> is_Some (m !! k) -> is_u8 v ->
  v = 0 \/ v < small d -> Forall (leaves_step k) os ->
  Z.of_nat (base.size m) + Z.of_nat (length os) <= 2 ^ 30 ->
  exists es v' s', session (cr, d) v os = Some (es, v', s') /\
    (rev (dictHashKey k) < rev v' \/ (seen = true \/ None ∈ os) /\ v' = 0 ->
     (rev (dictHashKey k) < rev v \/ seen = true /\ v = 0) \/ k ∈ e_key <$> es).
Proof.
  revert cr d m v seen. induction os as [|[o|] os IH]; intros cr d m v seen R Hk Hv Hc Hos Hl; cbn [session length] in *.
  - exists [], v, (cr, d). split; [done|]. set_solver.
  - apply Forall_cons in Hos as [Ho Hos]. cbn [leaves_step] in Ho.
    destruct (step_spec cr d m o R (leaves_ok k o Ho)) as (cr1 & d1 & Est & R1); [lia|].
    pose proof (step_small cr d m o k _ _ R (rep_bounded d m R ltac:(lia)) Ho Est) as Hsm. cbn in Hsm.
    rewrite Est. cbn [mbind option_bind]. pose proof (spec_step_size m o) as Hsz.
    destruct (IH cr1 d1 _ v seen R1 (step_leaves m o k Ho Hk) Hv) as (es & v' & s' & -> & Hcov); [lia|done|lia|].
    exists es, v', s'. split; [done|]. intros Hf. apply Hcov. set_solver.
  - apply Forall_cons in Hos as [_ Hos].
    destruct (scan_step d m k v R Hk Hv Hc) as (es & v1 & E & Hv1 & Hs1 & Hstep). cbn [snd]. rewrite E. cbn [mbind option_bind].
    destruct (IH cr d m v1 true R Hk Hv1 (or_intror Hs1) Hos) as (es' & v' & s' & -> & Hcov); [lia|].
    cbn. exists (es ++ es'), v', s'. split; [done|]. intros Hf. rewrite fmap_app.
    assert (Hf' : rev (dictHashKey k) < rev v' \/ (true = true \/ None ∈ os) /\ v' = 0) by (destruct Hf as [?|[_ ?]]; auto).
    destruct (Hcov Hf') as [Hp|Hp]; [|right; apply elem_of_app; by right].
    assert (Hp' : rev (dictHashKey k) < rev v1 \/ v1 = 0) by (destruct Hp as [?|[_ ?]]; auto).
    destruct (Hstep Hp') as [?|?]; [left; by left|right; apply elem_of_app; by left].
Qed.

(** C5: on a dictionary made by any calls, an iteration that begins with the cursor 0 and has come back to it returns
    every key that stayed in the dictionary, whatever was added, replaced, looked up, deleted and rehashed between
    the scans, in whatever order, while the tables grow. *)
Theorem dict_scan_complete os0 os k : Forall op_ok os0 -> Forall (leaves_step k) os ->
  Z.of_nat (length os0) + Z.of_nat (length os) < 2 ^ 30 -> is_Some (snd (spec_run ∅ os0) !! k) ->
  exists rs s es v s', run (true, dictCreate) os0 = Some (rs, s) /\ session s 0 (os ++ [None]) = Some (es, v, s') /\
    (v = 0 -> k ∈ e_key <$> es).
Proof.
  intros Hok Hos Hl Hk. destruct (dict_run_spec os0 true dictCreate ∅ rep_create Hok) as (cr & d & E & R);
    [rewrite map_size_empty; lia|].
  assert (Hsz : (base.size (snd (spec_run ∅ os0)) <= length os0)%nat).
  { enough (Hg : forall m, (base.size (snd (spec_run m os0)) <= base.size m + length os0)%nat).
    { specialize (Hg ∅). rewrite map_size_empty in Hg. lia. }
    clear. induction os0 as [|o os0 IH]; intros m; cbn [spec_run length]; [cbn; lia|].
    pose proof (spec_step_size m o) as Hs. destruct (spec_step m o) as [r m1]. specialize (IH m1).
    destruct (spec_run m1 os0) as [rs m2]. cbn in *. lia. }
  destruct (session_spec k (os ++ [None]) cr d _ 0 false R Hk) as (es & v & s' & Es & Hcov);
    [done|by left|apply Forall_app; split; [done|by repeat constructor]|rewrite length_app; cbn; lia|].
  eexists _, (cr, d), es, v, s'. split; [exact E|]. split; [done|]. intros ->.
  destruct Hcov as [[Hr|[? _]]|?]; [right; split; [right; set_solver|done]| |done|done].
  rewrite rev_0 in Hr. assert (Hh : is_u8 (dictHashKey k)).
  { unfold dictHashKey, is_u8. pose proof (hash_range k). assert (2 ^ 32 < U8_MOD) by done. lia. }
  pose proof (rev_range _ Hh) as [? _]. lia.
Qed.

End DictScan.

(** ** An iteration alone *)

Section Alone.
Context {K V : Type} `{Countable K} `{!DictType K V} `{!DictLaws K V}.
Implicit Types (d : dict K V) (e : dictEntry K V).

Lemma scan_idle d v b : wf d -> dictIsRehashing d = false -> entries d <> [] -> is_u8 v -> 0 <= b -> size (ht0 d) = 2 ^ b ->
  exists c, dictScan d v = Some (c, next_cursor v (2 ^ b - 1)) /\ NoDup c /\
    forall e, e ∈ c <-> e ∈ entries d /\ hash e mod 2 ^ b = v mod 2 ^ b.
Proof.
  intros W Hr Hne Hv Hb0 Hs. pose proof (keys_idle d W Hr) as E0.
  assert (T0 : is_Some (table (ht0 d))) by (apply sized; [apply W|lia]).
  destruct (wf_ht_bits _ (wf_ht0 d W) T0) as (b' & Hb & S0 & M0). rewrite Hs in S0.
  assert (b = b') as <- by (apply (Z.pow_inj_r 2); lia).
  destruct (cursor_bucket (ht0 d) b v (wf_ht0 d W) T0 Hb0 M0 (proj1 Hv)) as (c & Hc & Hsub & Hin).
  exists c. unfold dictScan. rewrite (proj2 (Z.eqb_neq _ _)) by (by apply dictSize_pos). rewrite Hr. cbn [negb].
  rewrite Hc. cbn [mbind option_bind]. rewrite M0. split; [done|].
  assert (ND : NoDup (entries d)) by (apply (NoDup_fmap_1 e_addr); apply W). rewrite E0 in *. split.
  - destruct (set_bucket_entries _ _ _ [] Hc) as (rest & P & _). rewrite P in ND. by apply NoDup_app in ND as [? _].
  - intros e. split; [|intros [He Heq]; auto]. intros He. split; [auto|].
    apply bucket_inv in Hc as (t & Et & Hi & Hct). pose proof (wf_ht0 d W) as W0. unfold wf_ht in W0. rewrite Et in W0.
    destruct W0 as (_ & _ & _ & _ & Hall). specialize (Hall _ _ _ Hct He). unfold in_bucket in Hall.
    rewrite Z2Nat.id in Hall by done. rewrite M0, !land_mask_mod in Hall by done. by symmetry.
Qed.

Lemma scans_idle n cr d b j : wf d -> dictIsRehashing d = false -> entries d <> [] -> 0 <= b <= 64 -> size (ht0 d) = 2 ^ b ->
  0 <= j -> j + Z.of_nat n <= 2 ^ b ->
  exists es, session (cr, d) (rev (u8 (j * 2 ^ (64 - b)))) (replicate n None) =
    Some (es, rev (u8 ((j + Z.of_nat n) * 2 ^ (64 - b))), (cr, d)) /\ NoDup es /\
    forall e, e ∈ es <-> e ∈ entries d /\ j <= rev (hash e) / 2 ^ (64 - b) < j + Z.of_nat n.
Proof.
  intros W Hr Hne Hb Hs. revert j. induction n as [|n IH]; intros j Hj Hjn; cbn [replicate session].
  { exists []. rewrite Z.add_0_r. split_and!; [done|constructor|]. intros e. split; [set_solver|lia]. }
  set (v := rev (u8 (j * 2 ^ (64 - b)))). assert (E64 : 2 ^ b * 2 ^ (64 - b) = 2 ^ 64) by (rewrite <- Z.pow_add_r by lia; f_equal; lia).
  assert (Hv : is_u8 v) by apply rev_range, u8_range.
  assert (Hrv : rev v = j * 2 ^ (64 - b)).
  { unfold v. rewrite rev_rev by apply u8_range. apply u8_id. unfold is_u8, U8_MOD. nia. }
  destruct (scan_idle d v b W Hr Hne Hv ltac:(lia) Hs) as (c & E & NDc & Hc). cbn [snd]. rewrite E. cbn [mbind option_bind].
  destruct (next_cursor_pos v b Hv Hb) as [En Hrange]. unfold next_pos in En. rewrite Hrv, Z.div_mul in En by lia.
  assert (En' : next_cursor v (2 ^ b - 1) = rev (u8 ((j + 1) * 2 ^ (64 - b)))).
  { rewrite <- (rev_rev (next_cursor v (2 ^ b - 1))) by (unfold is_u8, U8_MOD; assert (2 ^ b <= 2 ^ 64) by (apply Z.pow_le_mono_r; lia); lia).
    rewrite En. do 2 f_equal. lia. }
  rewrite En'. destruct (IH (j + 1)) as (es & -> & NDes & Hes); [lia|lia|]. cbn [mbind option_bind].
  assert (Hcj : forall e, e ∈ c <-> e ∈ entries d /\ rev (hash e) / 2 ^ (64 - b) = j).
  { intros e. rewrite Hc. rewrite (rev_prefix (hash e) v b (hash_u8 e) Hv Hb). by rewrite Hrv, Z.div_mul by lia. }
  exists (c ++ es). replace (j + Z.of_nat (S n)) with (j + 1 + Z.of_nat n) by lia. split; [done|]. split.
  - apply NoDup_app. split_and!; [done| |done]. intros e Hec Hee. apply Hcj in Hec as [_ Hec]. apply Hes in Hee as [_ Hee]. lia.
  - intros e. rewrite elem_of_app, Hcj, Hes. split; [intros [[? ?]|[? ?]]; split; (done || lia)|].
    intros [? ?]. destruct (Z.eq_dec (rev (hash e) / 2 ^ (64 - b)) j); [by left|right; split; [done|lia]].
Qed.


End Alone.

(** ** Examples with numbers *)

(** Two scans, with additions that start a rehashing between them. *)
Definition growing : list (option op) :=
  [None; Some (OpAdd 20 1); Some (OpAdd 21 1); None; Some (OpAdd 22 1); Some (OpRehash 3); None; None].

Definition four : list op := [OpAdd 1 10; OpAdd 2 20; OpAdd 3 30; OpAdd 4 40].

Lemma dict_scan_complete_witness :
  exists rs s es s', run (true, dictCreate) four = Some (rs, s) /\
    session s 0 ((growing ++ [None]) ++ [None]) = Some (es, 0, s') /\ 3 ∈ e_key <$> es.
Proof.
  destruct (dict_scan_complete four (growing ++ [None]) 3) as (rs & s & es & v & s' & E & Es & Hin);
    [by repeat constructor|by repeat constructor|done|by eexists|].
  vm_compute in E. injection E as <- <-. vm_compute in Es. injection Es as <- <- <-.
  do 4 eexists. split; [vm_compute; reflexivity|]. split; [vm_compute; reflexivity|]. by apply Hin.
Defined.

Definition four_entries : dict Z Z :=
  match run (true, dictCreate) four with Some (_, (_, d)) => d | None => dictCreate end.


(** Sixteen buckets with two entries. *)
Definition sparse : list op :=
  map (fun k => OpAdd k k) [0; 4; 8; 12; 1; 2; 3; 5; 6; 32] ++ [OpRehash 100] ++ map OpDelete [1; 2; 3; 5; 6; 12; 32; 0].

(** When a table shrinks under it, an iteration can miss a key that stays in the dictionary: after a first scan of
    sixteen buckets, [dictResize] to four buckets makes the loop over the expansions of the cursor 8 begin behind
    the bucket 4. *)
Theorem dict_scan_misses :
  exists rs s es s', run (true, dictCreate) sparse = Some (rs, s) /\
    session s 0 [None; Some OpResize; None; None; None; None] = Some (es, 0, s') /\
    4 ∈ e_key <$> entries (snd s) /\ 4 ∈ e_key <$> entries (snd s') /\ ~ 4 ∈ e_key <$> es.
Proof.
  do 4 eexists. split; [vm_compute; reflexivity|]. split; [vm_compute; reflexivity|].
  split_and!; apply (bool_decide_unpack _); vm_compute; done.
Qed.

End DictScan.
