(* ===== verification/ConfDict.v ===== *)
(** * conf.c over the dictionary of dict.c

    The laws [DictionaryLaws] of a dictionary, met by dict.c with the functions conf.c
    gives it; over any dictionary with these laws conf.c does what it does over a finite
    map. *)

From Stdlib Require Import Ascii String.
From S2P Require Import Prelude CText Dict DictSpec DictMap RedisConf RedisConfSpec RedisConfRead.
Import CText Conf ConfSpec ConfRead.

(** A dictionary holds a finite map, as long as that has room. *)
Class DictionaryLaws (D : Type) `{Dictionary D} := {
  holds : D -> gmap bytes bytes -> Prop;
  room : Z;
  holds_create : holds dictCreate ∅;
  holds_add d m k v : holds d m -> Z.of_nat (size m) <= room ->
    exists d', dictAdd d k v = Some (match m !! k with Some _ => 1 | None => 0 end, d') /\ holds d' (add_first m k v);
  holds_fetch d m k : holds d m -> exists d', dictFetch d k = Some (m !! k, d') /\ holds d' m;
  holds_size d m : holds d m -> dictSize d = Z.of_nat (size m);
  holds_release d m : holds d m -> dictRelease d ≡ₚ dictRelease m;
}.

Module ConfDict.

(** ** dict.c as conf.c uses it *)

(** [dict_hash_function_seed] is an argument. *)
Definition confSdsHash (seed : Z) (key : bytes) : Z := Dict.dictGenHashFunction seed key.

Definition confSdsKeyCompare (key1 key2 : bytes) : bool :=
  if negb (blen key1 =? blen key2) then false else bool_decide (take (length key1) key1 = take (length key1) key2).

Section Instance.
Context (seed : Z).

Definition confDictType : Dict.DictType bytes bytes := {|
  Dict.hashFunction := confSdsHash seed; Dict.keyDup := None; Dict.valDup := None;
  Dict.keyCompare := Some confSdsKeyCompare; Dict.keyDestructor := true; Dict.valDestructor := true |}.
#[export] Existing Instance confDictType.

(** [confSdsDestructor] frees the string it is given. *)
Definition confSdsDestructor (e : Dict.effect bytes bytes) : list bytes :=
  match e with Dict.FreeKey k => [k] | Dict.FreeVal (Some v) => [v] | _ => [] end.

#[export] Instance dict_dictionary : Dictionary (Dict.dict bytes bytes) := {|
  dictCreate := Dict.dictCreate;
  dictAdd := Dict.dictAdd true;
  dictFetch d k :=
    '(v, d) ← Dict.dictFetchValue d k;
    match v with Some (Some v) => Some (Some v, d) | Some None => None | None => Some (None, d) end;
  dictSize := Dict.dictSize;
  dictRelease d := concat (map confSdsDestructor (Dict.dictRelease d)) |}.

Lemma u4_lxor_shift a n : 0 <= n -> is_u4 a -> is_u4 (Z.lxor a (Z.shiftr a n)).
Proof.
  intros Hn [H0 H1]. assert (Hs : 0 <= Z.shiftr a n) by (by apply Z.shiftr_nonneg). split; [by apply Z.lxor_nonneg|].
  destruct (Z.eq_dec (Z.lxor a (Z.shiftr a n)) 0) as [->|Hne]; [done|].
  assert (0 < Z.lxor a (Z.shiftr a n)) by (assert (0 <= Z.lxor a (Z.shiftr a n)) by (by apply Z.lxor_nonneg); lia).
  apply Z.log2_lt_pow2; [done|]. eapply Z.le_lt_trans; [apply Z.log2_lxor; done|].
  assert (Z.shiftr a n <= a) by (rewrite Z.shiftr_div_pow2 by done; apply Z.div_le_upper_bound; nia).
  assert (Z.log2 (Z.shiftr a n) <= Z.log2 a) by (by apply Z.log2_le_mono).
  destruct (Z.eq_dec a 0) as [->|]; [by rewrite Z.shiftr_0_l|]. apply Z.max_lub_lt.
  - apply Z.log2_lt_pow2; [lia|exact H1].
  - eapply Z.le_lt_trans; [done|]. apply Z.log2_lt_pow2; [lia|exact H1].
Qed.

#[export] Instance confDictLaws : DictLaws bytes bytes.
Proof.
  split.
  - intros k. apply u4_lxor_shift; [done|apply u4_range].
  - intros f k1 k2 [= <-]. unfold confSdsKeyCompare. destruct (blen k1 =? blen k2) eqn:E; to_prop; cbn.
    + rewrite bool_decide_eq_true. unfold blen in E. rewrite !take_ge by lia. done.
    + split; [done|]. by intros ->.
  - by intros.
Qed.

Lemma dict_holds_add (d : Dict.dict bytes bytes) m k v : DictMap.rep d m -> Z.of_nat (size m) <= 2 ^ 30 ->
  exists d', dictAdd d k v = Some (match m !! k with Some _ => 1 | None => 0 end, d') /\ DictMap.rep d' (add_first m k v).
Proof.
  intros R Hm. destruct (DictMap.dict_add_spec true d m k v R (DictMap.rep_bounded d m R Hm)) as (d' & E & R').
  exists d'. cbn [dictAdd dict_dictionary]. rewrite E. unfold add_first. by destruct (m !! k).
Qed.

Lemma dict_holds_fetch (d : Dict.dict bytes bytes) m k : DictMap.rep d m ->
  exists d', dictFetch d k = Some (m !! k, d') /\ DictMap.rep d' m.
Proof.
  intros R. destruct (DictMap.fetch_spec d m k R) as (d' & E & R'). exists d'. split; [|done].
  cbn [dictFetch dict_dictionary]. rewrite E. cbn. by destruct (m !! k).
Qed.

Lemma dict_holds_size (d : Dict.dict bytes bytes) m : DictMap.rep d m -> dictSize d = Z.of_nat (size m).
Proof.
  intros R. cbn [dictSize dict_dictionary]. rewrite (DictSpec.dictSize_spec d (DictMap.rep_wf d m R)).
  destruct R as [_ ->]. by rewrite map_size_fmap.
Qed.

Lemma dict_holds_release (d : Dict.dict bytes bytes) m : DictMap.rep d m -> dictRelease d ≡ₚ dictRelease m.
Proof.
  intros R. cbn [dictRelease dict_dictionary map_dictionary]. rewrite (DictMap.release_map d m R).
  induction (map_to_list m) as [|b l IH]; [done|]. cbn. by rewrite IH.
Qed.

#[export] Instance dict_laws : DictionaryLaws (Dict.dict bytes bytes) := {|
  holds := DictMap.rep; room := 2 ^ 30; holds_create := DictMap.rep_create; holds_add := dict_holds_add;
  holds_fetch := dict_holds_fetch; holds_size := dict_holds_size; holds_release := dict_holds_release |}.
End Instance.

(** ** conf.c over any dictionary *)

Section Over.
Context {D : Type} `{DictionaryLaws D}.
Implicit Types (d : D) (m : gmap bytes bytes).

Lemma add_first_size m k v : (size m <= size (add_first m k v))%nat.
Proof. unfold add_first. destruct (m !! k) eqn:E; [done|]. rewrite map_size_insert_None by done. lia. Qed.

Definition fits m : Prop := Z.of_nat (size m) <= room.

(** The dictionary of a run holds the map of the other run, when what the map becomes has room. *)
Lemma array_loop_over fuel key : forall start idx m m' r, array_loop fuel m key start idx = Some (m', r.1, r.2) ->
  (size m <= size m')%nat /\
  forall d, holds d m -> fits m' -> exists d', array_loop fuel d key start idx = Some (d', r.1, r.2) /\ holds d' m'.
Proof.
  induction fuel as [|f IH]; intros start idx m m' r E; cbn [array_loop] in *; [done|].
  destruct start as [|x next]; [injection E as <- <- <-; eauto|].
  destruct (strchr (x :: next) ARRAY_DELIM) as [pos|]; [|injection E as <- <- <-; eauto].
  destruct (pos <=? 0); [by apply IH|]. cbn [dictAdd map_dictionary mbind option_bind] in E.
  apply bind_Some in E as (idx' & Ei & E). apply IH in E as [Hs Hd]. pose proof (add_first_size m (key ++ dec idx) (take (Z.to_nat pos) (x :: next))) as Ha.
  split; [lia|]. intros d R Hf.
  destruct (holds_add d m (key ++ dec idx) (take (Z.to_nat pos) (x :: next)) R) as (d1 & -> & R1); [unfold fits in Hf; lia|].
  cbn [mbind option_bind]. rewrite Ei. cbn [mbind option_bind]. by apply Hd.
Qed.

Lemma add_over d m m' k v : holds d m -> fits m' -> (size (add_first m k v) <= size m')%nat ->
  exists r d', dictAdd d k v = Some (r, d') /\ holds d' (add_first m k v).
Proof.
  intros R Hf Hs. pose proof (add_first_size m k v).
  destruct (holds_add d m k v R) as (d' & E & R'); [unfold fits in Hf; lia|]. eauto.
Qed.

Lemma parseArray_over key value m m' : parseArray m key value = Some m' ->
  (size m <= size m')%nat /\
  forall d, holds d m -> fits m' -> exists d', parseArray d key value = Some d' /\ holds d' m'.
Proof.
  unfold parseArray. intros E. apply bind_Some in E as ([[m1 start] idx] & E1 & E).
  apply (array_loop_over _ _ _ _ _ _ (start, idx)) in E1 as [Hs1 Hd1]. cbn [fst snd] in Hd1.
  destruct (idx =? 0) eqn:Ei; [injection E as <-; split; [done|]; intros d R Hf;
    destruct (Hd1 d R Hf) as (d1 & -> & R1); cbn; rewrite Ei; eauto|].
  destruct start as [|x start]; cbn [dictAdd map_dictionary mbind option_bind] in E.
  - injection E as <-. pose proof (add_first_size m1 (c_string key ++ suffix) (dec idx)) as Ha. split; [lia|]. intros d R Hf.
    destruct (Hd1 d R) as (d1 & -> & R1); [unfold fits in *; lia|]. cbn [mbind option_bind]. rewrite Ei.
    destruct (add_over d1 m1 _ (c_string key ++ suffix) (dec idx) R1 Hf) as (r & d2 & -> & R2); [done|]. cbn. eauto.
  - apply bind_Some in E as ([m2' idx'] & E2 & [= <-]). apply bind_Some in E2 as (idx2 & Ei2 & [= <- <-]).
    set (m2 := add_first m1 (c_string key ++ dec idx) (x :: start)).
    pose proof (add_first_size m1 (c_string key ++ dec idx) (x :: start)) as Ha. fold m2 in Ha.
    pose proof (add_first_size m2 (c_string key ++ suffix) (dec idx2)) as Hb. split; [lia|]. intros d R Hf.
    destruct (Hd1 d R) as (d1 & -> & R1); [unfold fits in *; lia|]. cbn [mbind option_bind]. rewrite Ei.
    destruct (add_over d1 m1 _ (c_string key ++ dec idx) (x :: start) R1 Hf) as (r & d2 & -> & R2); [fold m2; lia|].
    cbn [mbind option_bind]. rewrite Ei2. cbn [mbind option_bind].
    destruct (add_over d2 m2 _ (c_string key ++ suffix) (dec idx2) R2 Hf) as (r' & d3 & -> & R3); [done|]. cbn. eauto.
Qed.

Definition holds_state (s : state D) (t : state (gmap bytes bytes)) : Prop :=
  holds (dt s) (dt t) /\ first_key s = first_key t.

Lemma parse_entry_over moves t line line' t' : parse_entry moves t line = Some (line', t') ->
  (size (dt t) <= size (dt t'))%nat /\
  forall s, holds_state s t -> fits (dt t') -> exists s', parse_entry moves s line = Some (line', s') /\ holds_state s' t'.
Proof.
  unfold parse_entry. intros E. destruct (getLineKey (s_buf line)) as [ret key_str].
  destruct (negb (ret =? 0) || (blen key_str =? 0)).
  { injection E as <- <-. split; [done|]. eauto. }
  apply bind_Some in E as (key & Ek & E). destruct (getLineValue (s_buf line)) as [ret' value].
  destruct (negb (ret' =? 0) || (blen value =? 0)).
  { injection E as <- <-. split; [done|]. intros s [R F] _. rewrite F, Ek. cbn [mbind option_bind]. eexists. by split. }
  cbn [dictAdd map_dictionary mbind option_bind] in E. apply bind_Some in E as (m' & Ea & [= <- <-]).
  apply parseArray_over in Ea as [Hs Hd]. cbn [dt]. pose proof (add_first_size (dt t) (s_buf key) value) as Ha.
  split; [lia|]. intros s [R F] Hf. rewrite F, Ek. cbn [mbind option_bind].
  destruct (add_over (dt s) (dt t) m' (s_buf key) value R Hf) as (r & d1 & -> & R1); [lia|]. cbn [mbind option_bind].
  destruct (Hd d1 R1 Hf) as (d2 & -> & R2). cbn. eexists. split; [done|]. by split.
Qed.

Lemma parseLine_over moves t line line' t' : parseLine moves t line = Some (line', t') ->
  (size (dt t) <= size (dt t'))%nat /\
  forall s, holds_state s t -> fits (dt t') -> exists s', parseLine moves s line = Some (line', s') /\ holds_state s' t'.
Proof.
  unfold parseLine. intros E.
  destruct (sdslen line =? 0); [injection E as <- <-; eauto|].
  destruct (isComment (s_buf line) =? 0); [injection E as <- <-; eauto|].
  destruct (sdslen (sdstrimspace line) =? 0); [injection E as <- <-; eauto|].
  apply bind_Some in E as (ret & Er & E). rewrite Er. cbn [mbind option_bind].
  destruct (ret =? 0); [|by apply parse_entry_over].
  injection E as <- <-. cbn [dt]. split; [done|]. intros s [R F] _. eexists. split; [done|]. by split.
Qed.

Lemma init_loop_over fuel moves file : forall cursor line t t', init_loop fuel moves file cursor line t = Some t' ->
  (size (dt t) <= size (dt t'))%nat /\
  forall s, holds_state s t -> fits (dt t') -> exists s', init_loop fuel moves file cursor line s = Some s' /\ holds_state s' t'.
Proof.
  induction fuel as [|f IH]; intros cursor line t t' E; cbn [init_loop] in *; [done|].
  apply bind_Some in E as ([[ret cursor'] line'] & El & E). rewrite El. cbn [mbind option_bind].
  destruct (negb (ret =? 0)); [injection E as <-; eauto|].
  apply bind_Some in E as ([line2 t1] & Ep & E). apply parseLine_over in Ep as [Hs1 Hp]. apply IH in E as [Hs2 Hd].
  split; [lia|]. intros s R Hf. destruct (Hp s R) as (s1 & -> & R1); [unfold fits in *; lia|]. cbn [mbind option_bind]. by apply Hd.
Qed.

(** A pointer to a dictionary and one to the map it holds. *)
Definition holds_ptr (dp : option D) (mp : option (gmap bytes bytes)) : Prop :=
  match dp, mp with Some d, Some m => holds d m | None, None => True | _, _ => False end.

Lemma confInit_over moves file sec r mp sec' : confInit moves file sec = Some (r, mp, sec') ->
  (forall m : gmap bytes bytes, mp = Some m -> fits m) -> 0 <= room ->
  exists dp, confInit moves file sec = Some (r, dp, sec') /\ holds_ptr dp mp.
Proof.
  unfold confInit. intros E Hf Hroom. apply bind_Some in E as (f & -> & E). cbn [mbind option_bind] in *.
  apply bind_Some in E as (t & Et & E). apply init_loop_over in Et as [_ Hd].
  cbn [dictSize map_dictionary] in E. destruct (Z.eqb_spec (Z.of_nat (size (dt t))) 0) as [E0|E0]; injection E as <- <- <-.
  - destruct (Hd (mk_state dictCreate sec)) as (s & -> & R & F); [split; [apply holds_create|done]|unfold fits; lia|].
    cbn [mbind option_bind]. rewrite (holds_size _ _ R), E0, F. by exists None.
  - destruct (Hd (mk_state dictCreate sec)) as (s & -> & R & F); [split; [apply holds_create|done]|by apply Hf|].
    cbn [mbind option_bind]. rewrite (holds_size _ _ R), F. rewrite (proj2 (Z.eqb_neq _ _) E0). by exists (Some (dt s)).
Qed.

(** What the getters answer over a finite map. *)
Inductive getter :=
  | GetValue (key0 key1 : bytes) | GetArrayValue (key0 key1 : bytes) (idx : Z) | GetArraySize (key0 key1 : bytes).
Inductive answer := Value (v : option bytes) | Size (ret : Z) (size : option Z).

Definition get {E} `{Dictionary E} (dp : option E) (g : getter) : option (answer * option E) :=
  match g with
  | GetValue k0 k1 => '(v, dp) ← confGetValue dp k0 k1; Some (Value v, dp)
  | GetArrayValue k0 k1 idx => '(v, dp) ← confGetArrayValue dp k0 k1 idx; Some (Value v, dp)
  | GetArraySize k0 k1 => '(r, n, dp) ← confGetArraySize dp k0 k1; Some (Size r n, dp)
  end.

Fixpoint gets {E} `{Dictionary E} (dp : option E) (gs : list getter) : option (list answer * option E) :=
  match gs with
  | [] => Some ([], dp)
  | g :: gs => '(a, dp) ← get dp g; '(l, dp) ← gets dp gs; Some (a :: l, dp)
  end.

Definition answer_of (mp : option (gmap bytes bytes)) (g : getter) : answer :=
  match mp with
  | None => match g with GetArraySize _ _ => Size (-1) None | _ => Value None end
  | Some m =>
      match g with
      | GetValue k0 k1 => Value (m !! full_key k0 k1)
      | GetArrayValue k0 k1 idx => Value (m !! (full_key k0 k1 ++ dec_n4 idx))
      | GetArraySize k0 k1 =>
          match m !! (full_key k0 k1 ++ suffix) with None => Size (-2) None | Some v => Size 0 (Some (strtoul v)) end
      end
  end.

(** An index is an [int]. *)
Definition getter_ok (g : getter) : Prop :=
  match g with GetArrayValue _ _ idx => - 2 ^ 31 <= idx < 2 ^ 31 | _ => True end.

Lemma get_over dp mp g : holds_ptr dp mp -> getter_ok g ->
  exists dp', get dp g = Some (answer_of mp g, dp') /\ holds_ptr dp' mp.
Proof.
  intros R Hg. destruct dp as [d|], mp as [m|]; cbn in R; try done.
  - destruct g as [k0 k1|k0 k1 idx|k0 k1]; cbn [get answer_of];
      unfold confGetValue, confGetArrayValue, confGetArraySize.
    + destruct (holds_fetch d m (full_key k0 k1) R) as (d' & -> & R'). by exists (Some d').
    + rewrite chk_n4_ok by done. cbn [mbind option_bind].
      destruct (holds_fetch d m (full_key k0 k1 ++ dec_n4 idx) R) as (d' & -> & R'). by exists (Some d').
    + destruct (holds_fetch d m (full_key k0 k1 ++ suffix) R) as (d' & -> & R'). cbn [mbind option_bind].
      exists (Some d'). by destruct (m !! _).
  - exists None. split; [|done]. destruct g; cbn; [done| |done]. unfold confGetArrayValue. by rewrite chk_n4_ok.
Qed.

Lemma gets_over gs : forall dp mp, holds_ptr dp mp -> Forall getter_ok gs ->
  exists dp', gets dp gs = Some (answer_of mp <$> gs, dp') /\ holds_ptr dp' mp.
Proof.
  induction gs as [|g gs IH]; intros dp mp R Hg; [by exists dp|]. apply Forall_cons in Hg as [H1 Hg]. cbn [gets].
  destruct (get_over dp mp g R H1) as (dp1 & -> & R1). cbn [mbind option_bind].
  destruct (IH dp1 mp R1 Hg) as (dp' & -> & R'). by exists dp'.
Qed.

End Over.

Lemma size_list_to_map (b : list (bytes * bytes)) : (size (list_to_map b : gmap bytes bytes) <= length b)%nat.
Proof.
  induction b as [|[k v] b IH]; [done|]. cbn [list_to_map foldr length fst snd].
  change (size (<[k := v]> (list_to_map b : gmap bytes bytes)) <= S (length b))%nat.
  rewrite map_size_insert. destruct (_ !! k); cbn; lia.
Qed.

Section Read.
Context (seed : Z).

#[local] Instance conf_dictionary : Dictionary (Dict.dict bytes bytes) := dict_dictionary seed.
#[local] Instance conf_dictionary_laws : DictionaryLaws (Dict.dict bytes bytes) := dict_laws seed.

(** [confInit] of the text of a document, over dict.c and with strings that stay in place. *)
Lemma confInit_dict ls doc ps q sec :
  Forall line_ok ls -> Forall2 meaning ls doc -> Forall cut_part ps -> Forall plain q ->
  Forall (.≠ 0) sec -> Z.of_nat (length (bindings sec doc)) <= 2 ^ 30 ->
  exists dp : option (Dict.dict bytes bytes),
    confInit in_place (Some (file_text ls ++ cut_text ps ++ q)) sec =
      Some (match bindings sec doc with [] => -1 | _ => 0 end, dp, last_section sec doc) /\
    holds_ptr dp (match bindings sec doc with [] => None | b => Some (list_to_map b) end).
Proof.
  intros Hl Hm Hps Hq Hs Hb.
  pose proof (confInit_reads ls doc ps q sec Hl Hm Hps Hq Hs (bindings_countable sec doc ltac:(lia))) as E.
  assert (Hfit : fits (list_to_map (bindings sec doc))).
  { change (Z.of_nat (size (list_to_map (bindings sec doc) : gmap bytes bytes)) <= 2 ^ 30).
    pose proof (size_list_to_map (bindings sec doc)). lia. }
  destruct (bindings sec doc) as [|b0 b] eqn:Eb.
  - destruct (confInit_over _ _ _ _ _ _ E) as (dp & Ed & R); [done|done|]. by exists dp.
  - destruct (confInit_over _ _ _ _ _ _ E) as (dp & Ed & R); [by intros m' [= <-]|done|]. by exists dp.
Qed.

(** C20: [confInit], with the dictionary of dict.c under it and any seed of its hash, reads the text of a document of at
    most [2^30] bindings to the bindings the document stands for, when [realloc] moves no string that conf.c extends:
    after it, [confGetValue] answers every key with its first binding and nothing else, and [confUninit] frees each key
    and value of the dictionary once.  A file without bindings gives -1 and no dictionary (conf.h announces -2), and the
    last line is lost when its newline is missing.  When [realloc] does move strings, either none of those is among them
    and the result is the same, or the code uses a string that was freed, which is no result ([None]): conf.c drops the
    pointers [sdscatlen] returns. *)
Theorem conf_reads_document ls doc ps q sec :
  Forall line_ok ls -> Forall2 meaning ls doc -> Forall cut_part ps -> Forall plain q ->
  Forall (.≠ 0) sec -> Z.of_nat (length (bindings sec doc)) <= 2 ^ 30 ->
  let m : gmap bytes bytes := list_to_map (bindings sec doc) in
  let file := Some (file_text ls ++ cut_text ps ++ q) in
  exists dp : option (Dict.dict bytes bytes),
    confInit in_place file sec = Some (match bindings sec doc with [] => -1 | _ => 0 end, dp, last_section sec doc) /\
    (forall moves, confInit (dict := Dict.dict bytes bytes) moves file sec = None \/
       confInit moves file sec = Some (match bindings sec doc with [] => -1 | _ => 0 end, dp, last_section sec doc)) /\
    (forall k0 k1, exists dp', confGetValue dp k0 k1 = Some (m !! full_key k0 k1, dp')) /\
    fst (confUninit dp) ≡ₚ concat (map (fun b => [b.1; b.2]) (map_to_list m)).
Proof.
  intros Hl Hm Hps Hq Hs Hb m file. destruct (confInit_dict ls doc ps q sec Hl Hm Hps Hq Hs Hb) as (dp & E & R).
  exists dp. split; [exact E|]. split.
  { intros moves. destruct (confInit_moves moves (D := Dict.dict bytes bytes) file sec) as [H|H]; [by left|right].
    rewrite H. exact E. }
  split.
  - intros k0 k1. destruct (get_over dp _ (GetValue k0 k1) R I) as (dp' & G & _). cbn [get] in G.
    apply bind_Some in G as ([v dp2] & -> & [= Ev <-]). exists dp2. do 2 f_equal. unfold m.
    destruct (bindings sec doc); cbn in Ev; by injection Ev.
  - unfold m. destruct (bindings sec doc) as [|b0 b]; destruct dp as [d|]; cbn in R; try done.
    cbn [confUninit fst]. by apply (holds_release d (list_to_map (b0 :: b))).
Qed.

(** The keys a caller has for an entry: its section and its key, or in the default section its key alone. *)
Definition names (k0 k1 s k : bytes) : Prop := k0 = s /\ k1 = k \/ k0 = k /\ k1 = [] /\ s = DEFAULT_FIRST_KEY.

Lemma names_key k0 k1 s k : k <> [] -> names k0 k1 s k -> full_key k0 k1 = s ++ k.
Proof. intros Hk [[-> ->]|(-> & -> & ->)]; [by apply full_key_name|done]. Qed.

(** The document says what a getter has to answer of the entry [k], [v] of the section [s]. *)
Definition entry_says (s k v : bytes) (g : getter) (x : answer) : Prop :=
  match g with
  | GetValue k0 k1 => names k0 k1 s k -> x = Value (Some v)
  | GetArraySize k0 k1 => names k0 k1 s k -> is_array v -> x = Size 0 (Some (Z.of_nat (length (elements v))))
  | GetArrayValue k0 k1 idx => names k0 k1 s k -> is_array v ->
      forall i e, elements v !! i = Some e -> idx = Z.of_nat i -> x = Value (Some e)
  end.

Definition doc_says (sec : bytes) (doc : list item) (g : getter) (x : answer) : Prop :=
  forall a k v b, doc = a ++ Entry k v :: b -> entry_says (last_section sec a) k v g x.

Lemma meaning_key ls doc a k v b : Forall2 meaning ls doc -> doc = a ++ Entry k v :: b -> k <> [].
Proof.
  intros Hm ->. apply Forall2_app_inv_r in Hm as (l1 & l2 & _ & Hm & ->).
  inversion Hm as [|l ? ? ? Hs]; subst. unfold meaning in Hs. by inversion Hs.
Qed.

Lemma answer_of_doc ls doc sec g :
  Forall2 meaning ls doc -> Forall countable_item doc -> NoDup (bindings sec doc).*1 -> getter_ok g ->
  doc_says sec doc g (answer_of (match bindings sec doc with [] => None | b => Some (list_to_map b) end) g).
Proof.
  intros Hm Hc Hd Hg a k v b E. pose proof (meaning_key ls doc a k v b Hm E) as Hk. subst doc.
  destruct (entry_bound sec a k v b Hd) as [Hv Ha].
  apply Forall_app in Hc as [_ Hc]. apply Forall_cons in Hc as [Hc _]. cbn [countable_item] in Hc.
  destruct (bindings sec (a ++ Entry k v :: b)) as [|b0 bs] eqn:Eb; [done|]. cbn [answer_of].
  destruct g as [k0 k1|k0 k1 idx|k0 k1]; cbn [entry_says]; intros Hn; rewrite (names_key _ _ _ _ Hk Hn).
  - by rewrite Hv.
  - intros Har i e Hi ->. destruct (Ha Har) as [_ He]. unfold dec_n4. rewrite (proj2 (Z.ltb_ge _ _)) by lia.
    by rewrite (He i e Hi).
  - intros Har. destruct (Ha Har) as [-> _]. rewrite strtoul_dec; [done|]. unfold U8_MOD. lia.
Qed.


End Read.

(** With the seed dict.c begins with. *)
#[local] Instance default_dictionary : Dictionary (Dict.dict bytes bytes) := dict_dictionary 5381.

Lemma conf_reads_document_witness :
  exists (dp dp' : option (Dict.dict bytes bytes)), confInit in_place (Some (file_text sample_lines ++ cut_text [] ++ chars "lost=1")) DEFAULT_FIRST_KEY =
    Some (0, dp, chars "srv") /\
  confGetValue dp (chars "srv") (chars "name") = Some (Some (chars "box"), dp').
Proof.
  destruct (conf_reads_document 5381 sample_lines sample_doc [] (chars "lost=1") DEFAULT_FIRST_KEY) as (dp & E & _ & G & _);
    [apply sample_ok|apply sample_says|done|by repeat constructor..|done|].
  destruct (G (chars "srv") (chars "name")) as (dp' & E'). exists dp, dp'. split; [exact E|].
  refine (eq_trans E' _). vm_compute. reflexivity.
Defined.

(** A [realloc] that moves every block: the key of the first entry is built in a freed one. *)
Example conf_moved_key :
  confInit (dict := Dict.dict bytes bytes) (fun _ _ => true) (Some (file_text sample_lines)) DEFAULT_FIRST_KEY = None.
Proof. vm_compute. reflexivity. Qed.

Definition sample_getters : list getter :=
  [GetValue (chars "srv") (chars "ports"); GetArraySize (chars "srv") (chars "ports");
   GetArrayValue (chars "srv") (chars "ports") 1; GetArrayValue (chars "srv") (chars "ports") (-1);
   GetArrayValue (chars "srv") (chars "ports") 2; GetArraySize (chars "srv") (chars "name"); GetValue (chars "name") []].


(** The same calls, evaluated. *)
Example sample_answers :
  match confInit (dict := Dict.dict bytes bytes) in_place (Some (file_text sample_lines)) DEFAULT_FIRST_KEY with
  | Some (_, dp, _) => fst <$> gets dp sample_getters
  | None => None
  end =
  Some [Value (Some (chars "10,20")); Size 0 (Some 2); Value (Some (chars "20")); Value None; Value None;
        Size (-2) None; Value None].
Proof. vm_compute. reflexivity. Qed.

End ConfDict.
