(* ===== verification/Coroutine.v ===== *)
(** * coroutine.c: a scheduler of coroutines over ucontext, and the example main.c

    A coroutine runs on the stack of the schedule; when it yields, its frames are copied
    to a block of its own, and when it is resumed they are copied back.  What the program
    and the functions of the coroutines do is an interaction tree over the calls of the
    scheduler: [swapcontext] saves what is left of the tree.  A saved context can only go
    on when the stack holds the frames it had. *)

From Stdlib Require Import Ascii String.
From ITree Require Import ITree.
From S2P Require Import Prelude.
From S2P Require Import CText.
Import CText.

Module Coroutine.

Definition STACK_SIZE : Z := 1024 * 1024.
Definition DEFAULT_COROUTINE : Z := 16.
Definition COROUTINE_DEAD : Z := 0.
Definition COROUTINE_READY : Z := 1.
Definition COROUTINE_RUNNING : Z := 2.
Definition COROUTINE_SUSPEND : Z := 3.

(** The sizes of [struct coroutine], [struct schedule] and a pointer. *)
Definition sizeof_co : Z := 1024.
Definition sizeof_schedule : Z := STACK_SIZE + 968 + 24.
Definition sizeof_ptr : Z := 8.

(** ** Outcomes: a result, a failed [assert], or what the language leaves undefined *)

Inductive outcome (A : Type) := Ok (a : A) | Asserted | Undef.
Arguments Ok {A} a.
Arguments Asserted {A}.
Arguments Undef {A}.

#[export] Instance outcome_bind : MBind outcome :=
  fun A B f o => match o with Ok a => f a | Asserted => Asserted | Undef => Undef end.

Definition assert_ (b : bool) : outcome unit := if b then Ok tt else Asserted.
Definition defined {A} (o : option A) : outcome A := match o with Some a => Ok a | None => Undef end.

Section Scheduler.

(** [F] is the type of the functions that coroutines run, [U] that of their arguments, [W]
    the state of the client outside the scheduler. *)
Context {F U W : Type}.

(** What the code of a client does: something of its own, or a call of coroutine.h.
    [coroutine_yield] comes with the bytes of the frames of its caller. *)
Inductive schedE : Type -> Type :=
| Act {X} (f : W -> W * X) : schedE X
| New (func : F) (ud : U) : schedE Z
| Resume (id : Z) : schedE unit
| Yield (frames : bytes) : schedE unit
| Status (id : Z) : schedE Z
| Running : schedE Z.

Definition program : Type := itree schedE unit.

(** ** Data *)

(** [ctx] is what [swapcontext] saved: the rest of the program, and the frames it needs
    on the stack.  [c_addr] is the address of the block of the structure. *)
Record coroutine := mk_co {
  c_addr : nat;
  c_func : F;
  c_ud : U;
  c_ctx : option (program * bytes);
  c_cap : Z;
  c_size : Z;
  c_status : Z;
  c_stack : option nat;
}.

(** [s_stack] is the part of [stack] up to its end that was ever saved or restored; its last
    byte is the one at [stack + STACK_SIZE - 1]. *)
Record schedule := mk_sched {
  s_addr : nat;
  s_stack : bytes;
  s_running : Z;
  s_num : Z;
  s_cap : Z;
  s_co_addr : nat;
  s_co : list (option coroutine);
}.

Definition set_stack (sch : schedule) (b : bytes) : schedule :=
  mk_sched (s_addr sch) b (s_running sch) (s_num sch) (s_cap sch) (s_co_addr sch) (s_co sch).
Definition set_running (sch : schedule) (id : Z) : schedule :=
  mk_sched (s_addr sch) (s_stack sch) id (s_num sch) (s_cap sch) (s_co_addr sch) (s_co sch).
Definition set_num (sch : schedule) (n : Z) : schedule :=
  mk_sched (s_addr sch) (s_stack sch) (s_running sch) n (s_cap sch) (s_co_addr sch) (s_co sch).

(** [S->co[id]]; [None] is outside the table. *)
Definition get_co (sch : schedule) (id : Z) : option (option coroutine) :=
  if id <? 0 then None else s_co sch !! Z.to_nat id.
Definition set_co (sch : schedule) (id : Z) (c : option coroutine) : schedule :=
  mk_sched (s_addr sch) (s_stack sch) (s_running sch) (s_num sch) (s_cap sch) (s_co_addr sch) (<[Z.to_nat id := c]> (s_co sch)).

Definition set_status (C : coroutine) (st : Z) : coroutine :=
  mk_co (c_addr C) (c_func C) (c_ud C) (c_ctx C) (c_cap C) (c_size C) st (c_stack C).
Definition set_ctx (C : coroutine) (p : program) (frames : bytes) : coroutine :=
  mk_co (c_addr C) (c_func C) (c_ud C) (Some (p, frames)) (c_cap C) (c_size C) (c_status C) (c_stack C).

(** Bytes written so that they end at the end of the stack. *)
Definition write_top (stack frames : bytes) : bytes := take (length stack - length frames) stack ++ frames.

(** The last bytes of the stack. *)
Definition read_top (stack : bytes) (n : nat) : bytes := drop (length stack - n) stack.

(** ** Blocks *)

Context (malloc : malloc_fun).

Definition hfree_opt (a : option nat) (h : heap) : option heap :=
  match a with None => Some h | Some a => hfree a h end.

Definition _co_new (h : heap) (func : F) (ud : U) : option (coroutine * heap) :=
  '(a, h) ← halloc malloc sizeof_co h;
  Some (mk_co a func ud None 0 0 COROUTINE_READY None, h).

Definition _co_delete (co : coroutine) (h : heap) : option heap :=
  h ← hfree_opt (c_stack co) h; hfree (c_addr co) h.

Definition coroutine_open (h : heap) : option (schedule * heap) :=
  '(a, h) ← halloc malloc sizeof_schedule h;
  '(co, h) ← halloc malloc (sizeof_ptr * DEFAULT_COROUTINE) h;
  Some (mk_sched a [] (-1) 0 DEFAULT_COROUTINE co (replicate (Z.to_nat DEFAULT_COROUTINE) None), h).

Fixpoint close_loop (co : list (option coroutine)) (h : heap) : option heap :=
  match co with
  | [] => Some h
  | None :: co' => close_loop co' h
  | Some C :: co' => h ← _co_delete C h; close_loop co' h
  end.

Definition coroutine_close (sch : schedule) (h : heap) : option heap :=
  h ← close_loop (s_co sch) h;
  h ← hfree (s_co_addr sch) h;
  hfree (s_addr sch) h.

(** ** New coroutines *)

(** The loop over the table from [cr_num] on: the first free place.  [rounds] are left. *)
Fixpoint free_slot (rounds : nat) (i : Z) (sch : schedule) : option (option Z) :=
  match rounds with
  | O => Some None
  | S rounds' =>
      let id := (i + s_num sch) mod s_cap sch in
      c ← get_co sch id;
      match c with None => Some (Some id) | Some _ => free_slot rounds' (i + 1) sch end
  end.

(** [realloc] moves the table to a new block. *)
Definition grow (sch : schedule) (h : heap) : option (schedule * heap) :=
  cap ← chk_n4 (s_cap sch * 2);
  '(a, h) ← halloc malloc (cap * sizeof_ptr) h;
  h ← hfree (s_co_addr sch) h;
  Some (mk_sched (s_addr sch) (s_stack sch) (s_running sch) (s_num sch) cap a
          (s_co sch ++ replicate (Z.to_nat (s_cap sch)) None), h).

Definition coroutine_new (sch : schedule) (h : heap) (func : F) (ud : U) : outcome (Z * schedule * heap) :=
  '(co, h) ← defined (_co_new h func ud);
  if s_cap sch <=? s_num sch then
    let id := s_cap sch in
    '(sch, h) ← defined (grow sch h);
    Ok (id, set_num (set_co sch id (Some co)) (s_num sch + 1), h)
  else
    slot ← defined (free_slot (Z.to_nat (s_cap sch)) 0 sch);
    match slot with
    | Some id => Ok (id, set_num (set_co sch id (Some co)) (s_num sch + 1), h)
    | None => Asserted
    end.

(** ** Switching *)

(** What [swapcontext] goes on with: nothing, a new program on an empty stack, or a saved context. *)
Inductive switch := Stay | Start (f : F) (ud : U) | Back (ctx : option (program * bytes)).

Definition coroutine_resume (sch : schedule) (h : heap) (id : Z) : outcome (switch * schedule) :=
  _ ← assert_ (s_running sch =? -1);
  _ ← assert_ ((0 <=? id) && (id <? s_cap sch));
  c ← defined (get_co sch id);
  match c with
  | None => Ok (Stay, sch)
  | Some C =>
      if c_status C =? COROUTINE_READY then
        Ok (Start (c_func C) (c_ud C), set_co (set_running sch id) id (Some (set_status C COROUTINE_RUNNING)))
      else if c_status C =? COROUTINE_SUSPEND then
        src ← defined (a ← c_stack C; hread a 0 (c_size C) h);
        let sch := set_stack sch (write_top (s_stack sch) src) in
        Ok (Back (c_ctx C), set_co (set_running sch id) id (Some (set_status C COROUTINE_RUNNING)))
      else Asserted
  end.

(** [frames] lie from [&dummy] to the end of the stack, [dummy] itself first. *)
Definition _save_stack (C : coroutine) (frames : bytes) (h : heap) : outcome (coroutine * heap) :=
  let n := blen frames in
  _ ← assert_ (n <=? STACK_SIZE);
  '(C, h) ← (if c_cap C <? n then
               h ← defined (hfree_opt (c_stack C) h);
               '(a, h) ← defined (halloc malloc n h);
               Ok (mk_co (c_addr C) (c_func C) (c_ud C) (c_ctx C) n (c_size C) (c_status C) (Some a), h)
             else Ok (C, h));
  let C := mk_co (c_addr C) (c_func C) (c_ud C) (c_ctx C) (c_cap C) n (c_status C) (c_stack C) in
  h ← defined (a ← c_stack C; hwrite a 0 frames h);
  Ok (C, h).

(** [locals] are the frames of the caller; frames that do not fit have overwritten what
    lies before the stack.  [rest] is what [swapcontext] saves. *)
Definition coroutine_yield (sch : schedule) (h : heap) (locals : bytes) (rest : program) : outcome (schedule * heap) :=
  let id := s_running sch in
  _ ← assert_ (0 <=? id);
  c ← defined (get_co sch id);
  C ← defined c;
  let frames := 0 :: locals in
  if STACK_SIZE <? blen frames then Undef
  else
    let sch := set_stack sch (write_top (s_stack sch) frames) in
    '(C, h) ← _save_stack C frames h;
    let C := set_status C COROUTINE_SUSPEND in
    Ok (set_running (set_co sch id (Some (set_ctx C rest frames))) (-1), h).

Definition coroutine_status (sch : schedule) (id : Z) : outcome Z :=
  _ ← assert_ ((0 <=? id) && (id <? s_cap sch));
  c ← defined (get_co sch id);
  Ok (match c with None => COROUTINE_DEAD | Some C => c_status C end).

Definition coroutine_running (sch : schedule) : Z := s_running sch.

(** [mainfunc] after the function of the coroutine [id] has returned. *)
Definition mainfunc_end (sch : schedule) (h : heap) (id : Z) : option (schedule * heap) :=
  c ← get_co sch id;
  C ← c;
  h ← _co_delete C h;
  Some (set_running (set_num (set_co sch id None) (s_num sch - 1)) (-1), h).

(** ** Running a program *)

(** [code] is the body of each function.  The machine runs the main program, or the coroutine
    [id] while the context of the main program is saved in [S->main]. *)
Context (code : F -> U -> program).

Inductive control := InMain (p : program) | InCo (id : Z) (p main : program).

Record state := mk_state { st_sched : schedule; st_heap : heap; st_client : W; st_control : control }.

Definition current (c : control) : program := match c with InMain p | InCo _ p _ => p end.
Definition with_program (c : control) (p : program) : control :=
  match c with InMain _ => InMain p | InCo id _ main => InCo id p main end.

(** [swapcontext] to a saved context: the stack must end with the frames it was saved with. *)
Definition swap_back (sch : schedule) (ctx : option (program * bytes)) : outcome program :=
  match ctx with
  | None => Undef
  | Some (p, frames) => if decide (read_top (s_stack sch) (length frames) = frames) then Ok p else Undef
  end.

(** One step; [inl] is the state when the main program has ended. *)
Definition step (s : state) : outcome (state + state) :=
  let '(mk_state sch h w c) := s in
  match observe (current c) with
  | RetF _ =>
      match c with
      | InMain _ => Ok (inl s)
      | InCo id _ main => '(sch, h) ← defined (mainfunc_end sch h id); Ok (inr (mk_state sch h w (InMain main)))
      end
  | TauF p => Ok (inr (mk_state sch h w (with_program c p)))
  | VisF e k =>
      match e in schedE X return (X -> program) -> outcome (state + state) with
      | Act f => fun k => let '(w, x) := f w in Ok (inr (mk_state sch h w (with_program c (k x))))
      | New func ud => fun k =>
          '(id, sch, h) ← coroutine_new sch h func ud;
          Ok (inr (mk_state sch h w (with_program c (k id))))
      | Resume id => fun k =>
          '(sw, sch) ← coroutine_resume sch h id;
          match sw with
          | Stay => Ok (inr (mk_state sch h w (with_program c (k tt))))
          | Start func ud => Ok (inr (mk_state sch h w (InCo id (code func ud) (k tt))))
          | Back ctx => p ← swap_back sch ctx; Ok (inr (mk_state sch h w (InCo id p (k tt))))
          end
      | Yield locals => fun k =>
          '(sch, h) ← coroutine_yield sch h locals (k tt);
          match c with
          | InMain _ => Undef
          | InCo _ _ main => Ok (inr (mk_state sch h w (InMain main)))
          end
      | Status id => fun k =>
          st ← coroutine_status sch id;
          Ok (inr (mk_state sch h w (with_program c (k st))))
      | Running => fun k => Ok (inr (mk_state sch h w (with_program c (k (coroutine_running sch)))))
      end k
  end.

(** A number of steps, or fewer if the main program ends. *)
Fixpoint run (n : nat) (s : state) : outcome (state + state) :=
  match n with
  | O => Ok (inr s)
  | S n' =>
      r ← step s;
      match r with inl s => Ok (inl s) | inr s => run n' s end
  end.

End Scheduler.

Arguments schedE : clear implicits.
Arguments program : clear implicits.
Arguments coroutine : clear implicits.
Arguments schedule : clear implicits.
Arguments state : clear implicits.
Arguments control : clear implicits.
Arguments switch : clear implicits.

(** ** main.c *)

(** The lines printed, and [n] of each [struct args], by its pointer. *)
Record client := mk_client { out : list bytes; args : list Z }.

Inductive coroutine_func := Foo.

Section Main.

(** What the frames of [foo] hold, with its [buf], [start] and [i]. *)
Context (foo_frames : bytes -> Z -> Z -> bytes).

Definition printf (line : bytes) : program coroutine_func nat client :=
  ITree.trigger (Act (fun w => (mk_client (out w ++ [line]) (args w), tt))).

(** [%d] *)
Definition fmt_d (n : Z) : bytes := if n <? 0 then 45 :: dec (- n) else dec n.

Definition foo_data (id n : Z) : bytes := chars "coroutine " ++ fmt_d id ++ chars " : " ++ fmt_d n ++ [9].

(** The loop of [foo] with [rounds] to go. *)
Fixpoint foo_loop (rounds : nat) (i start : Z) (buf : bytes) : program coroutine_func nat client :=
  match rounds with
  | O => Ret tt
  | S rounds' =>
      ITree.bind (ITree.trigger Running) (fun id =>
      let buf := buf ++ foo_data id (start + i) in
      ITree.bind (printf (buf ++ [10])) (fun _ =>
      ITree.bind (ITree.trigger (Yield (foo_frames buf start i))) (fun _ =>
      foo_loop rounds' (i + 1) start buf)))
  end.

Definition foo (ud : nat) : program coroutine_func nat client :=
  ITree.bind (ITree.trigger (Act (fun w => (w, default 0 (args w !! ud))))) (fun start =>
  foo_loop 5 0 start []).

(** [while (coroutine_status(S,co)) coroutine_resume(S,co);] *)
Definition while_alive {F U W} (co : Z) : program F U W :=
  ITree.iter (fun _ : unit =>
    ITree.bind (ITree.trigger (Status co)) (fun st =>
    if st =? 0 then Ret (inr tt)
    else ITree.bind (ITree.trigger (Resume co)) (fun _ => Ret (inl tt)))) tt.

Definition test : program coroutine_func nat client :=
  ITree.bind (ITree.trigger (Act (fun w => (mk_client (out w) [0; 100], tt)))) (fun _ =>
  ITree.bind (ITree.trigger (New Foo 0%nat)) (fun co1 =>
  ITree.bind (ITree.trigger (New Foo 1%nat)) (fun co2 =>
  ITree.bind (printf (chars "main start" ++ [10])) (fun _ =>
  ITree.bind (while_alive co1) (fun _ =>
  ITree.bind (while_alive co2) (fun _ =>
  printf (chars "main end" ++ [10]))))))).

(** What is printed, and the blocks left at the end; [None] while the program runs. *)
Definition main (malloc : malloc_fun) (n : nat) (h : heap) : outcome (option (list bytes * heap)) :=
  '(sch, h) ← defined (coroutine_open malloc h);
  r ← run malloc (fun _ ud => foo ud) n (mk_state sch h (mk_client [] []) (InMain test));
  match r with
  | inr _ => Ok None
  | inl s => h ← defined (coroutine_close (st_sched s) (st_heap s)); Ok (Some (out (st_client s), h))
  end.

End Main.

End Coroutine.
