(* ===== verification/CoroutineSpec.v ===== *)
(** * What the scheduler of coroutine.c promises

    A scheduler without stacks and blocks: a table of programs, each to be started, to
    go on, or running.  The detailed one does the same, restores the frames of every
    coroutine it resumes, and gives back all its blocks. *)

From ITree Require Import ITree.
From S2P Require Import Prelude Coroutine.
Import Coroutine.

Module CoSpec.

(** ** Blocks owned *)

(** The blocks of the heap are those of the list, each once. *)
Definition owns (h : heap) (l : list nat) : Prop :=
  heap_ok h /\ NoDup l /\ forall a, is_Some (h_mem h !! a) <-> a ∈ l.

#[export] Instance owns_perm : Proper (eq ==> (≡ₚ) ==> iff) owns.
Proof.
  intros h ? <- l l' P. unfold owns. rewrite P. by setoid_rewrite P.
Qed.

Lemma owns_empty : owns heap_empty [].
Proof. split_and!; [split; [cbn; lia|by intros a b; cbn; rewrite lookup_empty]|constructor|]. intros a. cbn. rewrite lookup_empty, elem_of_nil. split; [by intros []|done]. Qed.

Lemma halloc_owns malloc n h a h' l : owns h l -> halloc malloc n h = Some (a, h') ->
  exists b, malloc n = Some b /\ a ∉ l /\ h_mem h' = <[a := b]> (h_mem h) /\ owns h' (a :: l).
Proof.
  intros (Hok & Hnd & Hl) (b & Hb & -> & Hfresh & _ & E & Hok')%halloc_inv; [|done].
  assert (Hn : h_next h ∉ l) by (rewrite <- Hl, Hfresh; by intros []).
  exists b. split_and!; [done..|]. split_and!; [done|by constructor|].
  intros a. rewrite E, lookup_insert_is_Some, Hl, elem_of_cons. destruct (decide (h_next h = a)); set_solver.
Qed.

Lemma hfree_owns h a l : owns h (a :: l) ->
  exists h', hfree a h = Some h' /\ h_mem h' = delete a (h_mem h) /\ owns h' l.
Proof.
  intros (Hok & Hnd & Hl). assert (Ha : is_Some (h_mem h !! a)) by (apply Hl; set_solver).
  destruct Ha as [b Hb]. destruct (hfree_Some a h b Hb) as [h' E]. exists h'. split; [done|].
  apply hfree_inv in E as (_ & E & Hok'). split; [done|]. apply NoDup_cons in Hnd as [Hn Hnd].
  split_and!; [auto|done|]. intros a'. rewrite E, lookup_delete_is_Some, Hl, elem_of_cons. split; [|set_solver].
  intros [? [->|?]]; done.
Qed.

Lemma hwrite_owns h a off src h' l : owns h l -> hwrite a off src h = Some h' -> owns h' l.
Proof.
  intros (Hok & Hnd & Hl). unfold hwrite. destruct (h_mem h !! a) as [b|] eqn:E; [|done]. cbn.
  destruct (wr b off src) as [b'|]; [|done]. cbn. intros [= <-]. split_and!; [|done|].
  - destruct Hok as [? Hok]. split; [done|]. cbn. intros a' b0 Ha. destruct (decide (a = a')) as [<-|].
    + by apply (Hok a b). 
    + rewrite lookup_insert_ne in Ha by done. by apply (Hok a' b0).
  - intros a'. cbn. rewrite lookup_insert_is_Some, <- Hl. destruct (decide (a = a')) as [<-|]; [rewrite E; naive_solver|naive_solver].
Qed.

(** ** The stack *)

Lemma read_write_top stack frames : read_top (write_top stack frames) (length frames) = frames.
Proof.
  unfold read_top, write_top. rewrite length_app, Nat.add_sub. by rewrite drop_app_length.
Qed.

(** ** The scheduler without stacks *)

Section Spec.
Context {F U W : Type}.

Inductive slot := SReady (func : F) (ud : U) | SWaiting (p : program F U W) | SRunning.

Definition slots : Type := list (option slot).

Definition slot_status (s : option slot) : Z :=
  match s with None => 0 | Some (SReady _ _) => 1 | Some SRunning => 2 | Some (SWaiting _) => 3 end.

Definition taken {A} (l : list (option A)) : nat := length (omap id l).

Definition a_get (l : slots) (id : Z) : option (option slot) := if id <? 0 then None else l !! Z.to_nat id.

Definition is_free (l : slots) (i : nat) : bool := match l !! i with Some None => true | _ => false end.

(** The first free place from place [taken] on, round the table; a full table is doubled, as
    long as its size is an [int]. *)
Definition a_new (l : slots) (func : F) (ud : U) : outcome (Z * slots) :=
  let cap := length l in
  if (cap <=? taken l)%nat then
    if 2 ^ 31 <=? Z.of_nat cap * 2 then Undef
    else Ok (Z.of_nat cap, l ++ Some (SReady func ud) :: replicate (cap - 1) None)
  else
    match list_find (fun i => is_free l i = true) (map (fun i => ((i + taken l) mod cap)%nat) (seq 0 cap)) with
    | Some (_, i) => Ok (Z.of_nat i, <[i := Some (SReady func ud)]> l)
    | None => Asserted
    end.

Record a_state := mk_a { a_slots : slots; a_client : W; a_control : control F U W }.

Definition a_set (l : slots) (id : Z) (s : option slot) : slots := <[Z.to_nat id := s]> l.

Definition running_id (c : control F U W) : Z := match c with InMain _ => -1 | InCo id _ _ => id end.

Context (code : F -> U -> program F U W).

(** Starting or going on with a coroutine, [main] being what the main program goes on with. *)
Definition a_resume (l : slots) (w : W) (c : control F U W) (id : Z) (main : program F U W) : outcome a_state :=
  match c with
  | InCo _ _ _ => Asserted
  | InMain _ =>
      match a_get l id with
      | None => Asserted
      | Some None => Ok (mk_a l w (InMain main))
      | Some (Some (SReady func ud)) => Ok (mk_a (a_set l id (Some SRunning)) w (InCo id (code func ud) main))
      | Some (Some (SWaiting p)) => Ok (mk_a (a_set l id (Some SRunning)) w (InCo id p main))
      | Some (Some SRunning) => Asserted
      end
  end.

Definition a_step (s : a_state) : outcome (a_state + a_state) :=
  let '(mk_a l w c) := s in
  match observe (current c) with
  | RetF _ =>
      match c with
      | InMain _ => Ok (inl s)
      | InCo id _ main => Ok (inr (mk_a (a_set l id None) w (InMain main)))
      end
  | TauF p => Ok (inr (mk_a l w (with_program c p)))
  | VisF e k =>
      match e in schedE _ _ _ X return (X -> program F U W) -> outcome (a_state + a_state) with
      | Act f => fun k => let '(w, x) := f w in Ok (inr (mk_a l w (with_program c (k x))))
      | New func ud => fun k => '(id, l) ← a_new l func ud; Ok (inr (mk_a l w (with_program c (k id))))
      | Resume id => fun k => s ← a_resume l w c id (k tt); Ok (inr s)
      | Yield locals => fun k =>
          match c with
          | InMain _ => Asserted
          | InCo id _ main =>
              if STACK_SIZE <=? blen locals then Undef
              else Ok (inr (mk_a (a_set l id (Some (SWaiting (k tt)))) w (InMain main)))
          end
      | Status id => fun k =>
          match a_get l id with
          | None => Asserted
          | Some s => Ok (inr (mk_a l w (with_program c (k (slot_status s)))))
          end
      | Running => fun k => Ok (inr (mk_a l w (with_program c (k (running_id c)))))
      end k
  end.

Fixpoint a_run (n : nat) (s : a_state) : outcome (a_state + a_state) :=
  match n with
  | O => Ok (inr s)
  | S n' =>
      r ← a_step s;
      match r with inl s => Ok (inl s) | inr s => a_run n' s end
  end.

(** ** The invariant *)

Implicit Types (C : coroutine F U W) (sch : schedule F U W) (s : state F U W).

Definition co_blocks C : list nat := c_addr C :: match c_stack C with Some a => [a] | None => [] end.
Definition slot_blocks (o : option (coroutine F U W)) : list nat := match o with Some C => co_blocks C | None => [] end.
Definition owned sch : list nat := s_addr sch :: s_co_addr sch :: concat (slot_blocks <$> s_co sch).

(** The block of a coroutine has the size it says, and while the coroutine waits it
    begins with the frames it waits with. *)
Definition co_ok (h : heap) C : Prop :=
  match c_stack C with
  | None => c_cap C = 0
  | Some a => exists b, h_mem h !! a = Some b /\ blen b = c_cap C
  end /\
  (c_status C = COROUTINE_READY \/ c_status C = COROUTINE_RUNNING \/
   c_status C = COROUTINE_SUSPEND /\ exists p frames a b,
     c_ctx C = Some (p, frames) /\ c_stack C = Some a /\ h_mem h !! a = Some b /\ rd b 0 (c_size C) = Some frames).

Definition abs_co C : slot :=
  if c_status C =? COROUTINE_READY then SReady (c_func C) (c_ud C)
  else if c_status C =? COROUTINE_SUSPEND then
    match c_ctx C with Some (p, _) => SWaiting p | None => SRunning end
  else SRunning.

Definition abs_slots sch : slots := option_map abs_co <$> s_co sch.

Definition abs s : a_state := mk_a (abs_slots (st_sched s)) (st_client s) (st_control s).

Record table_ok (h : heap) sch : Prop := {
  ok_cap : Z.of_nat (length (s_co sch)) = s_cap sch;
  ok_cap_range : 0 < s_cap sch < 2 ^ 31;
  ok_num : s_num sch = Z.of_nat (taken (s_co sch));
  ok_co : forall C, Some C ∈ s_co sch -> co_ok h C;
}.

Definition sched_ok (h : heap) sch : Prop := owns h (owned sch) /\ table_ok h sch.

(** [r] is the number of the coroutine that runs, and no other has its status. *)
Definition running_ok sch (r : Z) : Prop :=
  s_running sch = r /\
  forall i C, s_co sch !! i = Some (Some C) -> c_status C = COROUTINE_RUNNING <-> r = Z.of_nat i.

Definition state_ok s : Prop :=
  sched_ok (st_heap s) (st_sched s) /\ running_ok (st_sched s) (running_id (st_control s)) /\
  match st_control s with
  | InMain _ => True
  | InCo id _ _ => exists C, get_co (st_sched s) id = Some (Some C)
  end.

End Spec.
Arguments slot : clear implicits.
Arguments a_state : clear implicits.

(** Reductions of the monad of outcomes. *)
Ltac ored := cbn [mbind outcome_bind assert_ defined].

(** ** Tables *)

Definition weight {A} (o : option A) : nat := match o with Some _ => 1 | None => 0 end.

Lemma taken_split {A} (l : list (option A)) i o : l !! i = Some o ->
  exists r, taken l = (weight o + r)%nat /\ forall o', taken (<[i := o']> l) = (weight o' + r)%nat.
Proof.
  revert i. induction l as [|x l IH]; intros i Hi; [done|]. destruct i as [|i]; cbn in Hi.
  - injection Hi as ->. exists (taken l). split; [by destruct o|]. intros o'. by destruct o'.
  - destruct (IH i Hi) as (r & E & E'). exists (weight x + r)%nat. unfold taken in *. cbn. split.
    + destruct x; cbn; rewrite E; lia.
    + intros o'. destruct x; cbn; rewrite E'; lia.
Qed.

Lemma taken_app {A} (l l' : list (option A)) : taken (l ++ l') = (taken l + taken l')%nat.
Proof. unfold taken. rewrite omap_app. apply length_app. Qed.

Lemma taken_none {A} n : taken (replicate n (@None A)) = O.
Proof. unfold taken. by induction n. Qed.

Lemma taken_map {A B} (f : A -> B) (l : list (option A)) : taken (option_map f <$> l) = taken l.
Proof. unfold taken. induction l as [|[x|] l IH]; cbn; auto. Qed.

Lemma taken_free {A} (l : list (option A)) : (taken l < length l)%nat -> exists i, l !! i = Some None.
Proof.
  unfold taken. induction l as [|[x|] l IH]; cbn; intros H; [lia| |by exists O].
  destruct IH as [i Hi]; [lia|]. by exists (S i).
Qed.

Section Rep.
Context {F U W : Type}.
Implicit Types (C : coroutine F U W) (sch : schedule F U W) (o : option (coroutine F U W)).

Lemma abs_lookup sch i : abs_slots sch !! i = option_map abs_co <$> (s_co sch !! i).
Proof. apply list_lookup_fmap. Qed.

Lemma abs_get sch id : a_get (abs_slots sch) id = option_map abs_co <$> get_co sch id.
Proof. unfold a_get, get_co. destruct (id <? 0); [done|]. apply abs_lookup. Qed.

Lemma abs_insert sch i o : option_map abs_co <$> (<[i := o]> (s_co sch)) = <[i := option_map abs_co o]> (abs_slots sch).
Proof. apply list_fmap_insert. Qed.

Lemma abs_length sch : length (abs_slots sch) = length (s_co sch).
Proof. apply length_map. Qed.

Lemma co_ok_agree h h' C : (forall a, a ∈ co_blocks C -> h_mem h' !! a = h_mem h !! a) -> co_ok h C -> co_ok h' C.
Proof.
  intros Ha. unfold co_ok, co_blocks in *. intros [Hs Hst]. destruct (c_stack C) as [a|] eqn:E.
  - assert (Ea : h_mem h' !! a = h_mem h !! a) by (apply Ha; set_solver). rewrite Ea. split; [done|].
    destruct Hst as [?|[?|(? & p & fr & a' & b & ? & [= <-] & ? & ?)]]; [auto|auto|]. right; right. split; [done|].
    exists p, fr, a, b. by rewrite Ea.
  - split; [done|]. destruct Hst as [?|[?|(? & p & fr & a' & b & ? & ? & _)]]; [auto|auto|done].
Qed.

Lemma co_owned sch i C : s_co sch !! i = Some (Some C) -> co_blocks C ⊆ owned sch.
Proof. intros Hi a Ha. do 2 right. apply elem_of_concat. exists i, (co_blocks C). split; [by rewrite list_lookup_fmap, Hi|done]. Qed.

Lemma table_ok_agree h h' sch : (forall a, a ∈ owned sch -> h_mem h' !! a = h_mem h !! a) -> table_ok h sch -> table_ok h' sch.
Proof.
  intros Ha [? ? ? Hc]. split; [done..|]. intros C HC. apply (co_ok_agree h); [|by apply Hc]. intros a Hin. apply Ha.
  apply list_elem_of_lookup in HC as [j HC]. by apply (co_owned sch j C).
Qed.

(** What a place holds, and the rest. *)
Lemma owned_place sch i o : s_co sch !! i = Some o ->
  exists rest, owned sch ≡ₚ slot_blocks o ++ rest /\
    (forall sch' o', s_addr sch' = s_addr sch -> s_co_addr sch' = s_co_addr sch -> s_co sch' = <[i := o']> (s_co sch) ->
      owned sch' ≡ₚ slot_blocks o' ++ rest) /\
    forall j C, j <> i -> s_co sch !! j = Some (Some C) -> co_blocks C ⊆ rest.
Proof.
  intros Hi. assert (Hm : (slot_blocks <$> s_co sch) !! i = Some (slot_blocks o)).
  { by rewrite list_lookup_fmap, Hi. }
  exists (s_addr sch :: s_co_addr sch :: concat (delete i (slot_blocks <$> s_co sch))). unfold owned. split_and!.
  - rewrite (concat_lookup_perm _ i _ Hm). solve_Permutation.
  - intros sch' o' -> -> ->. rewrite list_fmap_insert.
    rewrite (concat_insert_perm _ i _ _ Hm). solve_Permutation.
  - intros j C Hj HC a Ha. do 2 right. apply elem_of_concat.
    assert (Hmj : (slot_blocks <$> s_co sch) !! j = Some (co_blocks C)).
    { by rewrite list_lookup_fmap, HC. }
    destruct (decide (j < i)%nat).
    + exists j, (co_blocks C). by rewrite list_lookup_delete_lt.
    + exists (j - 1)%nat, (co_blocks C). rewrite list_lookup_delete_ge by lia. by replace (S (j - 1)) with j by lia.
Qed.

Lemma set_place_ok h h' sch sch' i o o' : table_ok h sch -> s_co sch !! i = Some o ->
  s_addr sch' = s_addr sch -> s_co_addr sch' = s_co_addr sch -> s_cap sch' = s_cap sch ->
  s_co sch' = <[i := o']> (s_co sch) ->
  s_num sch' = s_num sch - Z.of_nat (weight o) + Z.of_nat (weight o') ->
  (forall rest, owned sch ≡ₚ slot_blocks o ++ rest -> owns h' (slot_blocks o' ++ rest) /\
     forall a, a ∈ rest -> h_mem h' !! a = h_mem h !! a) ->
  (forall C, o' = Some C -> co_ok h' C) -> sched_ok h' sch'.
Proof.
  intros [Hl Hr Hn Hc] Hi Ea Eca Ecap Eco En Hh Hc'.
  destruct (owned_place sch i o Hi) as (rest & P & P' & Hrest). destruct (Hh rest P) as [Ho' Hag].
  destruct (taken_split _ _ _ Hi) as (r & Et & Et'). pose proof (lookup_lt_Some _ _ _ Hi) as Hlt. split; [rewrite (P' sch' o' Ea Eca Eco); exact Ho'|split].
  - rewrite Eco, length_insert, Ecap. done.
  - by rewrite Ecap.
  - rewrite En, Hn, Eco, Et, Et'. lia.
  - intros C HC. rewrite Eco in HC. apply list_elem_of_lookup in HC as [j HC].
    destruct (decide (j = i)) as [->|Hj]; [rewrite list_lookup_insert_eq in HC by done; injection HC as HC; by apply Hc'|].
    rewrite list_lookup_insert_ne in HC by done. apply (co_ok_agree h).
    + intros a Ha. apply Hag. by apply (Hrest j C).
    + apply Hc. by eapply list_elem_of_lookup_2.
Qed.


(** ** The operations *)

Lemma list_find_map_snd {A B} (f : A -> B) (P : B -> Prop) `{!forall x, Decision (P x)} l :
  (snd <$> list_find P (map f l)) = f <$> (snd <$> list_find (fun x => P (f x)) l).
Proof.
  induction l as [|x l IH]; [done|]. cbn. destruct (decide (P (f x))); [done|].
  destruct (list_find P (map f l)) as [[??]|], (list_find (fun x => P (f x)) l) as [[??]|]; cbn in *; congruence.
Qed.

Lemma abs_free sch j : is_free (abs_slots sch) j = match s_co sch !! j with Some None => true | _ => false end.
Proof. unfold is_free. rewrite abs_lookup. by destruct (s_co sch !! j) as [[C|]|]. Qed.

Lemma free_slot_spec h sch n i : table_ok h sch ->
  free_slot n (Z.of_nat i) sch = Some (Z.of_nat <$> (snd <$> list_find (fun i => is_free (abs_slots sch) i = true)
    (map (fun i => ((i + taken (s_co sch)) mod length (s_co sch))%nat) (seq i n)))).
Proof.
  intros [Hl Hr Hn _]. revert i. induction n as [|n IH]; intros i; [done|]. cbn [free_slot seq map].
  set (j := ((i + taken (s_co sch)) mod length (s_co sch))%nat).
  assert (Hj : (j < length (s_co sch))%nat) by (apply Nat.mod_upper_bound; lia).
  assert (Ej : (Z.of_nat i + s_num sch) mod s_cap sch = Z.of_nat j) by (rewrite Hn, <- Hl; unfold j; by rewrite Nat2Z.inj_mod, Nat2Z.inj_add).
  rewrite Ej. unfold get_co. rewrite (proj2 (Z.ltb_ge _ _)) by lia. rewrite Nat2Z.id.
  destruct (lookup_lt_is_Some_2 _ _ Hj) as [c Hc]. rewrite Hc. cbn [mbind option_bind list_find].
  destruct (decide (is_free (abs_slots sch) j = true)) as [Hf|Hf]; rewrite abs_free, Hc in Hf; destruct c as [C|]; try done.
  replace (Z.of_nat i + 1) with (Z.of_nat (S i)) by lia. rewrite IH. by destruct (list_find _ _) as [[??]|].
Qed.

(** There is a free place when the table is not full. *)
Lemma free_place (l : slots (F := F) (U := U) (W := W)) : (taken l < length l)%nat ->
  exists k j, list_find (fun i => is_free l i = true) (map (fun i => ((i + taken l) mod length l)%nat) (seq 0 (length l))) = Some (k, j) /\
    l !! j = Some None.
Proof.
  unfold slots in *. intros Hlt. destruct (taken_free l Hlt) as [j Hj]. pose proof (lookup_lt_Some _ _ _ Hj) as Hjl.
  destruct (list_find _ _) as [[k j']|] eqn:E.
  - exists k, j'. split; [done|]. apply list_find_Some in E as (_ & Hf & _).
    change (match l !! j' with Some None => true | _ => false end = true) in Hf. by destruct (l !! j') as [[?|]|].
  - exfalso. apply list_find_None in E. rewrite Forall_forall in E. apply (E j).
    + apply list_elem_of_fmap. set (t := taken l) in *. set (n := length l) in *.
      destruct (decide (t <= j)%nat).
      * exists (j - t)%nat. split; [replace (j - t + t)%nat with j by lia; by rewrite Nat.mod_small|apply elem_of_seq; lia].
      * exists (j + n - t)%nat. split; [|apply elem_of_seq; lia]. replace (j + n - t + t)%nat with (j + 1 * n)%nat by lia.
        rewrite Nat.Div0.mod_add. by rewrite Nat.mod_small.
    + change (match l !! j with Some None => true | _ => false end = true). by rewrite Hj.
Qed.

(** The other coroutines are where they were. *)
Definition keeps sch sch' : Prop :=
  s_running sch' = s_running sch /\
  (forall i C, s_co sch !! i = Some (Some C) -> s_co sch' !! i = Some (Some C)) /\
  (forall i C, s_co sch' !! i = Some (Some C) -> s_co sch !! i = Some (Some C) \/ c_status C = COROUTINE_READY).

Lemma chk_n4_spec z : 0 <= z -> chk_n4 z = if 2 ^ 31 <=? z then None else Some z.
Proof. intros H. unfold chk_n4, in_n4. destruct (2 ^ 31 <=? z) eqn:E; to_prop; [by rewrite (proj2 (Z.ltb_ge _ _)), andb_false_r|]. rewrite (proj2 (Z.leb_le _ _)), (proj2 (Z.ltb_lt _ _)) by lia. done. Qed.

Context (malloc : malloc_fun).

Definition no_memory : Prop := exists n, malloc n = None.

Lemma halloc_none n h : halloc malloc n h = None -> no_memory.
Proof. unfold halloc. destruct (malloc n) eqn:E; [done|by exists n]. Qed.

(** A new coroutine put at a free place. *)
Lemma place_new h h' sch i C : table_ok h sch -> s_co sch !! i = Some None -> owns h' (c_addr C :: owned sch) ->
  (forall a, a ∈ owned sch -> h_mem h' !! a = h_mem h !! a) ->
  c_stack C = None -> c_cap C = 0 -> c_status C = COROUTINE_READY ->
  let sch' := set_num (set_co sch (Z.of_nat i) (Some C)) (s_num sch + 1) in sched_ok h' sch' /\ keeps sch sch'.
Proof.
  intros Hs Hi Ho Hag Est Ecap Est' sch'. assert (Hid : s_co sch' = <[i := Some C]> (s_co sch)) by (cbn; by rewrite Nat2Z.id).
  pose proof (lookup_lt_Some _ _ _ Hi) as Hlt. split.
  - apply (set_place_ok h h' sch sch' i None (Some C) Hs Hi); try done; [cbn; lia| |].
    + intros rest P. cbn [slot_blocks app] in P. unfold slot_blocks, co_blocks. rewrite Est. cbn. rewrite <- P.
      split; [done|]. intros a Ha. apply Hag. by rewrite P.
    + intros ? [= <-]. split; [by rewrite Est|by left].
  - split_and!; [done|..]; intros j D HD; rewrite Hid in *.
    + destruct (decide (i = j)) as [->|Hj]; [congruence|by rewrite list_lookup_insert_ne].
    + destruct (decide (i = j)) as [->|Hj]; [|left; by rewrite list_lookup_insert_ne in HD].
      rewrite list_lookup_insert_eq in HD by done. injection HD as <-. by right.
Qed.

(** Doubling the table. *)
Lemma co_grow_spec h sch x : owns h (x :: owned sch) -> table_ok h sch ->
  match grow malloc sch h with
  | None => 2 ^ 31 <= s_cap sch * 2 \/ no_memory
  | Some (sch', h') => s_cap sch * 2 < 2 ^ 31 /\ owns h' (x :: owned sch') /\ table_ok h' sch' /\ keeps sch sch' /\
      s_num sch' = s_num sch /\ s_co sch' = s_co sch ++ replicate (length (s_co sch)) None
  end.
Proof.
  intros Ho [Hl Hr Hn Hc]. unfold grow. rewrite chk_n4_spec by lia.
  destruct (2 ^ 31 <=? s_cap sch * 2) eqn:E31; to_prop; [by left|]. cbn [mbind option_bind].
  destruct (halloc malloc _ h) as [[a h1]|] eqn:Ea; [|right; by eapply halloc_none].
  cbn. destruct (halloc_owns _ _ _ _ _ _ Ho Ea) as (b & _ & Hna & Em & Ho1).
  assert (Hdup : NoDup (x :: owned sch)) by apply Ho. unfold owned in *. set (l := concat (slot_blocks <$> s_co sch)) in *.
  assert (P : a :: x :: s_addr sch :: s_co_addr sch :: l ≡ₚ s_co_addr sch :: x :: s_addr sch :: a :: l) by solve_Permutation.
  rewrite P in Ho1. destruct (hfree_owns _ _ _ Ho1) as (h2 & -> & Em2 & Ho2). cbn. rewrite <- Hl, Nat2Z.id.
  assert (Enone : slot_blocks <$> replicate (length (s_co sch)) (@None (coroutine F U W)) = replicate (length (s_co sch)) []) by (rewrite fmap_replicate; done).
  assert (Eco : concat (slot_blocks <$> s_co sch ++ replicate (length (s_co sch)) None) = l).
  { rewrite fmap_app, concat_app, Enone. assert (E0 : forall n, concat (replicate n (@nil nat)) = []) by (by induction n). by rewrite E0, app_nil_r. }
  split; [lia|]. split_and!; [|split|..]; cbn [s_co s_cap s_num s_addr s_co_addr s_running].
  - by rewrite Eco.
  - rewrite length_app, length_replicate. lia.
  - lia.
  - rewrite taken_app, taken_none. lia.
  - intros C [HC|HC]%elem_of_app; [|by apply elem_of_replicate in HC as [? _]].
    apply (co_ok_agree h); [|by apply Hc]. intros a' Ha'.
    assert (Hin : a' ∈ l).
    { apply list_elem_of_lookup in HC as [j HC]. apply elem_of_concat. exists j, (co_blocks C). split; [|done]. by rewrite list_lookup_fmap, HC. }
    assert (Hne : s_co_addr sch <> a').
    { intros <-. apply NoDup_cons in Hdup as [_ Hdup]. apply NoDup_cons in Hdup as [_ Hdup]. by apply NoDup_cons in Hdup as [? _]. }
    assert (Hne' : a <> a') by (intros ->; apply Hna; by do 3 right).
    by rewrite Em2, lookup_delete_ne, Em, lookup_insert_ne.
  - split_and!; [done|..]; intros i C HC; cbn [s_co] in *.
    + by apply lookup_app_l_Some.
    + apply lookup_app_Some in HC as [?|[_ HC]]; [by left|]. by apply lookup_replicate in HC as [? _].
  - done.
  - done.
Qed.


Lemma keeps_trans sch1 sch2 sch3 : keeps sch1 sch2 -> keeps sch2 sch3 -> keeps sch1 sch3.
Proof. intros (? & H1 & H2) (? & H3 & H4). split_and!; [congruence|auto|]. intros i C HC. destruct (H4 _ _ HC) as [HC'|]; [|by right]. by apply H2. Qed.

(** [coroutine_new] never reaches [assert(0)]. *)
Lemma coroutine_new_spec h sch func ud : sched_ok h sch ->
  match coroutine_new malloc sch h func ud with
  | Ok (id, sch', h') => a_new (abs_slots sch) func ud = Ok (id, abs_slots sch') /\ sched_ok h' sch' /\ keeps sch sch'
  | Asserted => False
  | Undef => a_new (abs_slots sch) func ud = Undef \/ no_memory
  end.
Proof.
  intros [Hw Hs]. unfold coroutine_new, _co_new.
  destruct (halloc malloc sizeof_co h) as [[a h1]|] eqn:Ea; [|right; by eapply halloc_none].
  cbn [mbind option_bind defined outcome_bind].
  destruct (halloc_owns _ _ _ _ _ _ Hw Ea) as (b & _ & Hna & Em & Ho1).
  set (C := mk_co a func ud None 0 0 COROUTINE_READY None : coroutine F U W).
  assert (Hag : forall a', a' ∈ owned sch -> h_mem h1 !! a' = h_mem h !! a').
  { intros a' Ha'. rewrite Em, lookup_insert_ne; [done|]. by intros ->. }
  assert (Enew : a_new (abs_slots sch) func ud =
    if (length (s_co sch) <=? taken (s_co sch))%nat then
      if 2 ^ 31 <=? s_cap sch * 2 then Undef
      else Ok (s_cap sch, abs_slots sch ++ Some (SReady func ud) :: replicate (length (s_co sch) - 1) None)
    else match list_find (fun i => is_free (abs_slots sch) i = true)
           (map (fun i => ((i + taken (s_co sch)) mod length (s_co sch))%nat) (seq 0 (length (s_co sch)))) with
         | Some (_, i) => Ok (Z.of_nat i, <[i := Some (SReady func ud)]> (abs_slots sch))
         | None => Asserted
         end).
  { unfold a_new, abs_slots. by rewrite length_fmap, taken_map, (ok_cap h sch Hs). }
  rewrite Enew. pose proof (ok_num h sch Hs) as Hn. pose proof (ok_cap h sch Hs) as Hcap.
  assert (Elb : (s_cap sch <=? s_num sch) = (length (s_co sch) <=? taken (s_co sch))%nat).
  { apply eq_true_iff_eq. rewrite Z.leb_le, Nat.leb_le. lia. }
  rewrite Elb. destruct (length (s_co sch) <=? taken (s_co sch))%nat eqn:Efull; to_prop.
  - pose proof (co_grow_spec h1 sch a Ho1 (table_ok_agree h h1 sch Hag Hs)) as Hg. destruct (grow malloc sch h1) as [[sch' h2]|] eqn:Eg; cbn [defined mbind outcome_bind].
    + destruct Hg as (Hlt & Ho2 & Ht & Hk & En' & Eco).
      assert (Hp : s_co sch' !! length (s_co sch) = Some None).
      { rewrite Eco, lookup_app_r by lia. rewrite Nat.sub_diag. pose proof (ok_cap_range h sch Hs). by destruct (length (s_co sch)); [lia|]. }
      destruct (place_new h2 h2 sch' (length (s_co sch)) C Ht Hp Ho2) as [Hs' Hk']; [done..|].
      rewrite Hcap in Hs', Hk'. rewrite (proj2 (Z.leb_gt _ _)) by lia. split_and!; [|done|by eapply keeps_trans].
      do 2 f_equal. cbn. unfold abs_slots. cbn. rewrite Eco. replace (Z.to_nat (s_cap sch)) with (length (s_co sch)) by lia.
      pose proof (ok_cap_range h sch Hs). destruct (length (s_co sch)) as [|n] eqn:El; [lia|].
      cbn [replicate]. rewrite <- El at 1. rewrite insert_app_r_alt by lia. rewrite El, Nat.sub_diag. cbn. rewrite fmap_app. cbn.
      rewrite fmap_replicate. by rewrite Nat.sub_0_r.
    + destruct Hg as [Hg|Hg]; [left|by right].
      by rewrite (proj2 (Z.leb_le _ _)).
  - assert (Hlt : (taken (s_co sch) < length (s_co sch))%nat) by (apply Nat.leb_gt in Efull; lia).
    pose proof (free_slot_spec h sch (Z.to_nat (s_cap sch)) 0 Hs) as Ef. change (Z.of_nat 0) with 0 in Ef. rewrite Ef.
    destruct (free_place (abs_slots sch)) as (k & j & E & Hj).
    { unfold abs_slots. by rewrite taken_map, length_fmap. }
    unfold abs_slots at 3 4 5 in E. rewrite taken_map, !length_fmap in E.
    replace (Z.to_nat (s_cap sch)) with (length (s_co sch)) by lia. rewrite E. cbn [fmap option_fmap option_map snd defined mbind outcome_bind].
    assert (Hj' : s_co sch !! j = Some None) by (rewrite abs_lookup in Hj; destruct (s_co sch !! j) as [[?|]|]; done).
    destruct (place_new h h1 sch j C Hs Hj' Ho1 Hag) as [Hs' Hk]; [done..|]. split_and!; [|done|done].
    do 2 f_equal. cbn. unfold abs_slots. cbn. rewrite list_fmap_insert, Nat2Z.id. done.
Qed.

Lemma get_co_lookup sch id o : get_co sch id = Some o -> 0 <= id /\ s_co sch !! Z.to_nat id = Some o.
Proof. unfold get_co. destruct (id <? 0) eqn:E; [done|]. to_prop. done. Qed.

Lemma get_co_range h sch id : table_ok h sch ->
  if (0 <=? id) && (id <? s_cap sch) then exists o, get_co sch id = Some o /\ 0 <= id /\ s_co sch !! Z.to_nat id = Some o
  else get_co sch id = None.
Proof.
  intros Ht. pose proof (ok_cap h sch Ht). unfold get_co. destruct (0 <=? id) eqn:E0, (id <? s_cap sch) eqn:E1; to_prop; cbn [andb].
  - rewrite (proj2 (Z.ltb_ge _ _)) by done. destruct (lookup_lt_is_Some_2 (s_co sch) (Z.to_nat id)) as [o Ho]; [lia|]. by exists o.
  - rewrite (proj2 (Z.ltb_ge _ _)) by done. apply lookup_ge_None_2. lia.
  - by rewrite (proj2 (Z.ltb_lt _ _)).
  - by rewrite (proj2 (Z.ltb_lt _ _)).
Qed.

(** One coroutine stops or starts to run. *)
Lemma running_place sch sch' i o' r r' : running_ok sch r -> r = -1 \/ r = Z.of_nat i -> r' = -1 \/ r' = Z.of_nat i ->
  s_co sch' = <[i := o']> (s_co sch) -> s_running sch' = r' ->
  (forall C, o' = Some C -> c_status C = COROUTINE_RUNNING <-> r' = Z.of_nat i) -> (i < length (s_co sch))%nat -> running_ok sch' r'.
Proof.
  intros [Hr Ha] Hir Hir' Eco Er Ho Hlt. split; [done|]. intros j C HC. rewrite Eco in HC.
  destruct (decide (i = j)) as [<-|Hj].
  - rewrite list_lookup_insert_eq in HC by done. injection HC as ->. by apply Ho.
  - rewrite list_lookup_insert_ne in HC by done. rewrite (Ha j C HC). lia.
Qed.

(** The record of a coroutine is replaced by another with the same blocks. *)
Lemma co_update_ok h sch sch' i C C' : sched_ok h sch -> s_co sch !! i = Some (Some C) ->
  s_addr sch' = s_addr sch -> s_co_addr sch' = s_co_addr sch -> s_cap sch' = s_cap sch -> s_num sch' = s_num sch ->
  s_co sch' = <[i := Some C']> (s_co sch) -> co_blocks C' = co_blocks C -> co_ok h C' -> sched_ok h sch'.
Proof.
  intros [Ho Ht] Hi Ea Eca Ecap En Eco Eb Hc.
  apply (set_place_ok h h sch sch' i (Some C) (Some C') Ht Hi); [done..|rewrite En; cbn; lia| |by intros ? [= <-]].
  intros rest P. split; [|done]. cbn [slot_blocks] in *. by rewrite Eb, <- P.
Qed.

Lemma abs_running C : abs_co (set_status C COROUTINE_RUNNING) = SRunning.
Proof. done. Qed.

(** [coroutine_resume] from the main program: a coroutine that waits finds its frames at the
    end of the stack again. *)
Lemma coroutine_resume_spec h sch id : sched_ok h sch -> running_ok sch (-1) ->
  match coroutine_resume sch h id with
  | Ok (sw, sch') =>
      match sw with
      | Stay => a_get (abs_slots sch) id = Some None /\ sch' = sch
      | Start func ud => a_get (abs_slots sch) id = Some (Some (SReady func ud))
      | Back ctx => exists p, swap_back sch' ctx = Ok p /\ a_get (abs_slots sch) id = Some (Some (SWaiting p))
      end /\
      (sw <> Stay -> sched_ok h sch' /\ running_ok sch' id /\ (exists C, get_co sch' id = Some (Some C)) /\
        abs_slots sch' = a_set (abs_slots sch) id (Some SRunning))
  | Asserted => a_get (abs_slots sch) id = None
  | Undef => False
  end.
Proof.
  intros Hs Hr. unfold coroutine_resume. rewrite (proj1 Hr), abs_get. change (-1 =? -1) with true. ored.
  destruct Hs as [Ho Ht].
  pose proof (get_co_range h sch id Ht) as Hg. destruct ((0 <=? id) && (id <? s_cap sch)); ored; [|by rewrite Hg].
  destruct Hg as (o & Eget & Hid & Hi). rewrite Eget. ored. cbn [fmap option_fmap option_map].
  pose proof (lookup_lt_Some _ _ _ Hi) as Hlt. destruct o as [C|]; [|split; [done|by intros []]].
  assert (HC : co_ok h C) by (apply (ok_co h sch Ht); by eapply list_elem_of_lookup_2).
  assert (Hnr : c_status C <> COROUTINE_RUNNING) by (rewrite (proj2 Hr _ _ Hi); lia).
  assert (Hdone : forall st, let sch' := set_co (set_running (set_stack sch st) id) id (Some (set_status C COROUTINE_RUNNING)) in
    sched_ok h sch' /\ running_ok sch' id /\ (exists C', get_co sch' id = Some (Some C')) /\
    abs_slots sch' = a_set (abs_slots sch) id (Some SRunning)).
  { intros st sch'. split_and!.
    - apply (co_update_ok h sch sch' (Z.to_nat id) C (set_status C COROUTINE_RUNNING)); try done.
      split; [apply HC|by right; left].
    - apply (running_place sch sch' (Z.to_nat id) (Some (set_status C COROUTINE_RUNNING)) (-1)); try done; [by left|right; lia|].
      intros ? [= <-]. cbn. split; [lia|done].
    - eexists. unfold get_co. rewrite (proj2 (Z.ltb_ge _ _)) by lia. cbn. by rewrite list_lookup_insert_eq by lia.
    - unfold abs_slots, a_set. cbn. by rewrite list_fmap_insert. }
  destruct HC as [Hst [E|[E|(E & p & frames & a & b & Ectx & Ea & Hb & Hrd)]]]; [|done|]; rewrite E; cbn [Z.eqb COROUTINE_READY COROUTINE_SUSPEND Pos.eqb].
  - split; [cbn; unfold abs_co; by rewrite E|]. intros _. apply (Hdone (s_stack sch)).
  - rewrite Ea. cbn [mbind option_bind]. unfold hread. rewrite Hb. cbn [mbind option_bind]. rewrite Hrd. ored.
    split; [|intros _; apply Hdone]. exists p. rewrite Ectx. cbn [swap_back s_stack set_co set_running set_stack].
    rewrite read_write_top, decide_True by done. split; [done|]. cbn. unfold abs_co. by rewrite E, Ectx.
Qed.

Lemma coroutine_status_spec h sch id : sched_ok h sch ->
  match coroutine_status sch id with
  | Ok st => exists o : option (slot F U W), a_get (abs_slots sch) id = Some o /\ st = slot_status o
  | Asserted => a_get (abs_slots sch) id = None
  | Undef => False
  end.
Proof.
  intros [_ Ht]. rewrite abs_get. unfold coroutine_status. pose proof (get_co_range h sch id Ht) as Hg.
  destruct ((0 <=? id) && (id <? s_cap sch)); ored; [|by rewrite Hg]. destruct Hg as (o & Eget & _ & Hi). rewrite Eget. ored.
  eexists. split; [done|]. destruct o as [C|]; [|done]. cbn [option_map slot_status].
  destruct (ok_co h sch Ht C (list_elem_of_lookup_2 _ _ _ Hi)) as [_ [E|[E|(E & p & fr & _ & _ & Ec & _)]]];
    unfold abs_co; rewrite E; [done..|by rewrite Ec].
Qed.

Lemma free_block h a l : owns h (a :: l) ->
  exists h', hfree a h = Some h' /\ owns h' l /\ forall a', a' ∈ l -> h_mem h' !! a' = h_mem h !! a'.
Proof.
  intros Ho. destruct (hfree_owns h a l Ho) as (h' & E & Em & Ho'). exists h'. split_and!; [done..|].
  intros a' Ha'. rewrite Em, lookup_delete_ne; [done|]. intros <-. destruct Ho as (_ & Hnd & _). by apply NoDup_cons in Hnd as [? _].
Qed.

(** The block of a coroutine holds its frames, and the others are as they were. *)
Definition saved (h : heap) (rest : list nat) C (frames : bytes) (r : outcome (coroutine F U W * heap)) : Prop :=
  match r with
  | Ok (C', h') =>
      owns h' (co_blocks C' ++ rest) /\ (forall a, a ∈ rest -> h_mem h' !! a = h_mem h !! a) /\
      c_addr C' = c_addr C /\ c_size C' = blen frames /\
      exists a b, c_stack C' = Some a /\ h_mem h' !! a = Some b /\ blen b = c_cap C' /\ rd b 0 (blen frames) = Some frames
  | Asserted => False
  | Undef => no_memory
  end.

(** The copy to the block. *)
Lemma copy_frames h rest C C1 h1 frames a b : c_stack C1 = Some a -> c_addr C1 = c_addr C -> h_mem h1 !! a = Some b ->
  blen b = c_cap C1 -> blen frames <= c_cap C1 -> owns h1 (co_blocks C1 ++ rest) ->
  (forall a', a' ∈ rest -> h_mem h1 !! a' = h_mem h !! a') ->
  saved h rest C frames
    (let C2 := mk_co (c_addr C1) (c_func C1) (c_ud C1) (c_ctx C1) (c_cap C1) (blen frames) (c_status C1) (c_stack C1) in
     h2 ← defined (a ← c_stack C2; hwrite a 0 frames h1); Ok (C2, h2)).
Proof.
  intros Ea Ead Hb Hlb Hn Ho1 Hag. cbn [c_stack]. rewrite Ea. cbn [mbind option_bind].
  destruct (wr_Some b 0 frames) as [b' Hb']; [done|lia|].
  assert (Ew : hwrite a 0 frames h1 = Some (mk_heap (h_next h1) (<[a := b']> (h_mem h1)))).
  { unfold hwrite. rewrite Hb. cbn [mbind option_bind]. by rewrite Hb'. }
  rewrite Ew. ored. assert (Hblocks : co_blocks C1 = [c_addr C1; a]) by (unfold co_blocks; by rewrite Ea). split_and!; [| |done|done|].
  - unfold co_blocks. cbn [c_addr c_stack]. rewrite <- Hblocks. by eapply hwrite_owns.
  - intros a' Ha'. rewrite <- (Hag a' Ha'). cbn. apply lookup_insert_ne. intros <-.
    destruct Ho1 as (_ & Hnd & _). apply NoDup_app in Hnd as (_ & Hnd & _). apply (Hnd a); [|done]. rewrite Hblocks. set_solver.
  - exists a, b'. cbn. rewrite lookup_insert_eq. split_and!; [done|done|by rewrite (wr_blen _ _ _ _ Hb')|by apply (rd_wr_same b 0 frames b')].
Qed.

Lemma _save_stack_spec h C frames rest : owns h (co_blocks C ++ rest) -> co_ok h C -> malloc_ok malloc ->
  0 < blen frames <= STACK_SIZE -> saved h rest C frames (_save_stack malloc C frames h).
Proof.
  intros Ho [Hst _] Hm Hfit. unfold _save_stack. rewrite (proj2 (Z.leb_le _ _)) by lia. ored.
  destruct (c_cap C <? blen frames) eqn:Ecap; to_prop.
  - assert (Hd : exists h', hfree_opt (c_stack C) h = Some h' /\ owns h' (c_addr C :: rest) /\
      forall a', a' ∈ rest -> h_mem h' !! a' = h_mem h !! a').
    { unfold hfree_opt. unfold co_blocks in Ho. destruct (c_stack C) as [a|]; [|by exists h].
      assert (P2 : ((c_addr C :: [a]) ++ rest) ≡ₚ a :: c_addr C :: rest) by solve_Permutation. rewrite P2 in Ho.
      destruct (free_block _ _ _ Ho) as (h1 & E1 & Ho1 & Hag1). exists h1. split_and!; [done..|]. intros a' Ha'. apply Hag1. by right. }
    destruct Hd as (h1 & -> & Ho1 & Hag1). ored.
    destruct (halloc malloc _ h1) as [[a h2]|] eqn:Ea; [|by eapply halloc_none]. ored.
    destruct (halloc_owns _ _ _ _ _ _ Ho1 Ea) as (b & Hb & Hna & Em & Ho2).
    eapply copy_frames; cbn [c_stack c_addr c_cap]; [done|done|by rewrite Em, lookup_insert_eq|by apply Hm; [lia|]|done| |].
    + unfold co_blocks. cbn. assert (P2 : c_addr C :: a :: rest ≡ₚ a :: c_addr C :: rest) by solve_Permutation. by rewrite P2.
    + intros a' Ha'. rewrite <- (Hag1 a' Ha'), Em. apply lookup_insert_ne. intros <-. apply Hna. by right.
  - ored. destruct (c_stack C) as [a|] eqn:Ea; [|lia]. destruct Hst as (b & Hb & Hlb).
    pose proof (copy_frames h rest C C h frames a b Ea eq_refl Hb Hlb Ecap Ho ltac:(done)) as Hk. by rewrite Ea in Hk.
Qed.

(** [coroutine_yield] of the coroutine that runs. *)
Lemma coroutine_yield_spec h sch id C locals rest' : sched_ok h sch -> running_ok sch id -> get_co sch id = Some (Some C) ->
  malloc_ok malloc ->
  match coroutine_yield malloc sch h locals rest' with
  | Ok (sch', h') => blen locals < STACK_SIZE /\ sched_ok h' sch' /\ running_ok sch' (-1) /\
      abs_slots sch' = a_set (abs_slots sch) id (Some (SWaiting rest'))
  | Asserted => False
  | Undef => STACK_SIZE <= blen locals \/ no_memory
  end.
Proof.
  intros [Ho Ht] Hr Hget Hm. unfold coroutine_yield. rewrite (proj1 Hr). pose proof Hget as [Hid Hi]%get_co_lookup.
  rewrite (proj2 (Z.leb_le _ _)) by done. ored. rewrite Hget. ored.
  assert (Elen : blen (0 :: locals) = blen locals + 1) by (unfold blen; cbn [length]; lia). pose proof (blen_nonneg locals).
  destruct (STACK_SIZE <? blen (0 :: locals)) eqn:Efit; to_prop; [left; lia|].
  destruct (owned_place sch (Z.to_nat id) (Some C) Hi) as (rest & P & _ & _). cbn [slot_blocks] in P. rewrite P in Ho.
  pose proof (ok_co h sch Ht C (list_elem_of_lookup_2 _ _ _ Hi)) as Hco.
  pose proof (_save_stack_spec h C (0 :: locals) rest Ho Hco Hm ltac:(lia)) as Hsv.
  destruct (_save_stack malloc C (0 :: locals) h) as [[C' h']| |]; ored; [|done|by right].
  destruct Hsv as (Ho' & Hag & Ead & Esz & a & b & Ea & Hb & Hlb & Hrd).
  set (C2 := set_ctx (set_status C' COROUTINE_SUSPEND) rest' (0 :: locals)).
  set (sch' := set_running (set_co (set_stack sch (write_top (s_stack sch) (0 :: locals))) id (Some C2)) (-1)).
  split; [lia|]. split_and!.
  - apply (set_place_ok h h' sch sch' (Z.to_nat id) (Some C) (Some C2) Ht Hi); try done; [cbn; lia| |].
    + intros r P'. assert (Pr : r ≡ₚ rest) by (apply (Permutation_app_inv_l (co_blocks C)); cbn [slot_blocks] in P'; by rewrite <- P, <- P').
      change (slot_blocks (Some C2)) with (co_blocks C'). split; [by rewrite Pr|]. intros a' Ha'. apply Hag. by rewrite <- Pr.
    + intros ? [= <-]. unfold co_ok. cbn. rewrite Ea, Esz. split; [by exists b|]. right; right. split; [done|]. by exists rest', (0 :: locals), a, b.
  - apply (running_place sch sch' (Z.to_nat id) (Some C2) id (-1) Hr); try done; [right; lia|by left| |by eapply lookup_lt_Some].
    intros ? [= <-]. cbn. split; [done|lia].
  - unfold abs_slots, a_set. cbn. by rewrite list_fmap_insert.
Qed.

Lemma _co_delete_spec h C rest : owns h (co_blocks C ++ rest) ->
  exists h', _co_delete C h = Some h' /\ owns h' rest /\ forall a, a ∈ rest -> h_mem h' !! a = h_mem h !! a.
Proof.
  unfold _co_delete, hfree_opt, co_blocks. destruct (c_stack C) as [a|]; intros Ho; cbn [app] in Ho.
  - assert (P2 : c_addr C :: a :: rest ≡ₚ a :: c_addr C :: rest) by solve_Permutation. rewrite P2 in Ho.
    destruct (free_block _ _ _ Ho) as (h1 & E1 & Ho1 & Hag1). rewrite E1. cbn [mbind option_bind].
    destruct (free_block _ _ _ Ho1) as (h2 & E2 & Ho2 & Hag2). exists h2. split_and!; [done..|].
    intros a' Ha'. rewrite (Hag2 a' Ha'). apply Hag1. by right.
  - cbn [mbind option_bind]. destruct (free_block _ _ _ Ho) as (h2 & E2 & Ho2 & Hag2). by exists h2.
Qed.

(** [mainfunc] when the function of the coroutine that runs has returned. *)
Lemma mainfunc_end_spec h sch id C : sched_ok h sch -> running_ok sch id -> get_co sch id = Some (Some C) ->
  exists sch' h', mainfunc_end sch h id = Some (sch', h') /\ sched_ok h' sch' /\ running_ok sch' (-1) /\
    abs_slots sch' = a_set (abs_slots sch) id None.
Proof.
  intros [Ho Ht] Hr Hget. unfold mainfunc_end. rewrite Hget. cbn [mbind option_bind]. apply get_co_lookup in Hget as [Hid Hi].
  destruct (owned_place sch (Z.to_nat id) (Some C) Hi) as (rest & P & _ & _).
  rewrite P in Ho. cbn [slot_blocks] in Ho.
  destruct (_co_delete_spec h C rest Ho) as (h' & -> & Ho' & Hag). cbn [mbind option_bind]. set (sch' := set_running (set_num (set_co sch id None) (s_num sch - 1)) (-1)).
  exists sch', h'. split; [done|]. split_and!.
  - apply (set_place_ok h h' sch sch' (Z.to_nat id) (Some C) None Ht Hi); try done; [cbn; lia|]. intros rest' P'. cbn [slot_blocks app].
    assert (Pr : rest' ≡ₚ rest) by (apply (Permutation_app_inv_l (co_blocks C)); by rewrite <- P, <- P'). 
    split; [by rewrite Pr|]. intros a Ha. apply Hag. by rewrite <- Pr.
  - apply (running_place sch sch' (Z.to_nat id) None id (-1) Hr); try done; [right; lia|by left|by eapply lookup_lt_Some].
  - unfold abs_slots, a_set. cbn. by rewrite list_fmap_insert.
Qed.

Lemma coroutine_open_spec :
  match coroutine_open (F := F) (U := U) (W := W) malloc heap_empty with
  | Some (sch, h) => sched_ok h sch /\ running_ok sch (-1) /\ abs_slots sch = replicate 16 None
  | None => no_memory
  end.
Proof.
  unfold coroutine_open. destruct (halloc malloc _ heap_empty) as [[a h1]|] eqn:E1; [|by eapply halloc_none].
  destruct (halloc_owns _ _ _ _ _ _ owns_empty E1) as (b1 & _ & _ & _ & Ho1). cbn [mbind option_bind].
  destruct (halloc malloc _ h1) as [[a' h2]|] eqn:E2; [|by eapply halloc_none].
  destruct (halloc_owns _ _ _ _ _ _ Ho1 E2) as (b2 & _ & _ & _ & Ho2). cbn [mbind option_bind].
  split_and!; [split; [|split]|split|]; cbn; try done.
  - unfold owned. cbn. assert (P : [a; a'] ≡ₚ [a'; a]) by solve_Permutation. by rewrite P.
  - intros C HC. change (Some C ∈ replicate 16 (@None (coroutine F U W))) in HC. by apply elem_of_replicate in HC as [? _].
  - intros i C HC. change (replicate 16 (@None (coroutine F U W)) !! i = Some (Some C)) in HC. by apply lookup_replicate in HC as [? _].
Qed.

Lemma close_loop_spec h (co : list (option (coroutine F U W))) rest : owns h (concat (slot_blocks <$> co) ++ rest) ->
  exists h', close_loop co h = Some h' /\ owns h' rest.
Proof.
  revert h. induction co as [|[C|] co IH]; intros h Ho; cbn in Ho |- *; [by exists h| |by apply IH].
  change (owns h ((co_blocks C ++ concat (slot_blocks <$> co)) ++ rest)) in Ho. rewrite <- app_assoc in Ho.
  destruct (_co_delete_spec h C _ Ho) as (h1 & -> & Ho1 & _). cbn [mbind option_bind]. by apply IH.
Qed.

(** [coroutine_close] frees every block. *)
Lemma coroutine_close_spec h sch : sched_ok h sch -> exists h', coroutine_close sch h = Some h' /\ h_mem h' = ∅.
Proof.
  intros [Ho _]. unfold coroutine_close.
  assert (P : owned sch ≡ₚ concat (slot_blocks <$> s_co sch) ++ [s_co_addr sch; s_addr sch]) by (unfold owned; solve_Permutation).
  rewrite P in Ho. destruct (close_loop_spec h _ _ Ho) as (h1 & -> & Ho1). cbn [mbind option_bind].
  destruct (free_block _ _ _ Ho1) as (h2 & -> & Ho2 & _). cbn [mbind option_bind].
  destruct (free_block _ _ _ Ho2) as (h3 & -> & (_ & _ & Ho3) & _). exists h3. split; [done|].
  apply map_eq. intros a. rewrite lookup_empty. destruct (h_mem h3 !! a) eqn:E; [|done].
  assert (Ha : a ∈ @nil nat) by (apply Ho3; by eexists). by apply elem_of_nil in Ha.
Qed.

End Rep.

End CoSpec.
