(* ===== verification/CoroutineRun.v ===== *)
(** * The scheduler of coroutine.c run

    Every step of the code is a step of the scheduler without stacks; a coroutine that is
    resumed until it is dead does what its program does without a stop; main.c. *)

From Stdlib Require Import Ascii String.
From ITree Require Import ITree.
From S2P Require Import Prelude CText Coroutine CoroutineSpec.
Import CText Coroutine CoSpec.

Module CoRun.

Section Rep.
Context {F U W : Type} (malloc : malloc_fun).
Implicit Types (C : coroutine F U W) (sch : schedule F U W) (s : state F U W).

(** ** Steps *)

Context (code : F -> U -> program F U W).
Context (Hmalloc : malloc_ok malloc).

Lemma keeps_running sch sch' r : running_ok sch r -> keeps sch sch' -> r = -1 \/ (exists C, get_co sch r = Some (Some C)) -> running_ok sch' r.
Proof.
  intros [Hr Ha] (Hr' & Hk & Hk') Hc. split; [congruence|]. intros i C HC.
  destruct (Hk' i C HC) as [HC'|HC']; [by apply Ha|]. split; [by rewrite HC'|]. intros ->.
  destruct Hc as [?|[C0 [_ HC0]%get_co_lookup]]; [lia|]. rewrite Nat2Z.id in HC0. pose proof (Hk i C0 HC0) as HC1.
  rewrite HC in HC1. injection HC1 as ->. by apply (Ha i C0 HC0).
Qed.

Lemma state_ok_with sch h w w' c p : state_ok (mk_state sch h w c) -> state_ok (mk_state sch h w' (with_program c p)).
Proof. unfold state_ok. by destruct c. Qed.

(** What [coroutine_resume] and the switch make of a state. *)
Definition resume_to sch h w c id (main : program F U W) : outcome (state F U W + state F U W) :=
  '(sw, sch) ← coroutine_resume sch h id;
  match sw with
  | Stay => Ok (inr (mk_state sch h w (with_program c main)))
  | Start func ud => Ok (inr (mk_state sch h w (InCo id (code func ud) main)))
  | Back ctx => p ← swap_back sch ctx; Ok (inr (mk_state sch h w (InCo id p main)))
  end.

Definition result_ok (r : outcome (state F U W + state F U W)) (a : outcome (a_state F U W + a_state F U W)) : Prop :=
  match r with
  | Ok (inl s') => a = Ok (inl (abs s')) /\ state_ok s'
  | Ok (inr s') => a = Ok (inr (abs s')) /\ state_ok s'
  | Asserted => a = Asserted
  | Undef => a = Undef \/ no_memory malloc
  end.

Lemma resume_step sch h w c id main : state_ok (mk_state sch h w c) ->
  result_ok (resume_to sch h w c id main) (s ← a_resume code (abs_slots sch) w c id main; Ok (inr s)).
Proof.
  intros Hok. pose proof Hok as (Hs & Hr & Hc). cbn [st_heap st_sched st_control] in *. unfold resume_to, result_ok, a_resume.
  destruct c as [p|id0 p m].
  2: { destruct Hc as [C [Hid _]%get_co_lookup]. unfold coroutine_resume. rewrite (proj1 Hr). cbn [running_id].
       by rewrite (proj2 (Z.eqb_neq _ _)) by lia. }
  pose proof (coroutine_resume_spec h sch id Hs Hr) as Hn.
  destruct (coroutine_resume sch h id) as [[sw sch']| |]; ored; [|by rewrite Hn|done].
  destruct Hn as [Hsw Hrest]. destruct sw as [|func ud|ctx].
  - destruct Hsw as [-> ->]. split; [done|]. by apply (state_ok_with sch h w w (InMain p)).
  - rewrite Hsw. destruct Hrest as (Hs' & Hr' & Hc' & Ea); [done|]. ored. unfold abs. cbn [st_sched]. by rewrite Ea.
  - destruct Hsw as (q & -> & ->). destruct Hrest as (Hs' & Hr' & Hc' & Ea); [done|]. ored. unfold abs. cbn [st_sched]. by rewrite Ea.
Qed.

(** One step of the code is one step of the scheduler without stacks. *)
Lemma co_step_spec s : state_ok s -> result_ok (step malloc code s) (a_step code (abs s)).
Proof.
  destruct s as [sch h w c]. intros Hok. pose proof Hok as (Hs & Hr & Hc). cbn [st_heap st_sched st_control] in *.
  unfold result_ok, step, a_step, abs. cbn [st_sched st_client st_control].
  destruct (observe (current c)) as [u|p|X e k] eqn:Eo.
  - destruct c as [p|id p m]; [done|]. destruct Hc as [C HC].
    destruct (mainfunc_end_spec h sch id C Hs Hr HC) as (sch' & h' & -> & Hs' & Hr' & Ea). ored. cbn [st_sched].
    rewrite Ea. by split_and!.
  - split; [done|]. by apply (state_ok_with sch h w).
  - destruct e as [X f|func ud|id|locals|id|].
    + destruct (f w) as [w' x]. split; [done|]. by apply (state_ok_with sch h w).
    + pose proof (coroutine_new_spec malloc h sch func ud Hs) as Hn.
      destruct (coroutine_new malloc sch h func ud) as [[[id sch'] h']| |]; ored; [|done|].
      * destruct Hn as (-> & Hs' & Hk). ored. cbn [st_sched]. split; [done|]. 
        assert (Hr' : running_ok sch' (running_id c)) by (apply (keeps_running sch); [done..|destruct c; [by left|by right]]).
        destruct c as [p|id0 p m]; split_and!; try done. destruct Hc as [C HC]. exists C. cbn in *.
        apply get_co_lookup in HC as [Hid HC]. unfold get_co. rewrite (proj2 (Z.ltb_ge _ _)) by done. by apply Hk.
      * destruct Hn as [->|?]; [by left|by right].
    + by apply (resume_step sch h w c id (k tt)).
    + destruct c as [p|id p m]; [unfold coroutine_yield; by rewrite (proj1 Hr)|]. destruct Hc as [C HC].
      pose proof (coroutine_yield_spec malloc h sch id C locals (k tt) Hs Hr HC Hmalloc) as Hn.
      destruct (coroutine_yield malloc sch h locals (k tt)) as [[sch' h']| |]; ored; [|done|].
      * destruct Hn as (Hfit & Hs' & Hr' & Ea). rewrite (proj2 (Z.leb_gt _ _)) by done. cbn [st_sched]. by rewrite Ea.
      * destruct Hn as [?|?]; [left; by rewrite (proj2 (Z.leb_le _ _))|by right].
    + pose proof (coroutine_status_spec h sch id Hs) as Hn. destruct (coroutine_status sch id) as [st| |]; ored; [|by rewrite Hn|done].
      destruct Hn as (o & -> & ->). split; [done|]. by apply (state_ok_with sch h w).
    + split; [|by apply (state_ok_with sch h w)]. unfold coroutine_running. by rewrite (proj1 Hr).
Qed.

Lemma co_run_spec n s : state_ok s -> result_ok (run malloc code n s) (a_run code n (abs s)).
Proof.
  revert s. induction n as [|n IH]; intros s Hok; [done|]. cbn [run a_run]. pose proof (co_step_spec s Hok) as Hs.
  unfold result_ok in Hs. destruct (step malloc code s) as [[s'|s']| |]; ored.
  - destruct Hs as [-> Hok']. by ored.
  - destruct Hs as [-> Hok']. ored. by apply IH.
  - by rewrite Hs.
  - destruct Hs as [->|?]; ored; cbn; auto.
Qed.

End Rep.

(** The state when the main program [p] begins. *)
Definition begin {F U W} (sch : schedule F U W) (h : heap) (w : W) (p : program F U W) : state F U W := mk_state sch h w (InMain p).
Definition a_begin {F U W} (w : W) (p : program F U W) : a_state F U W := mk_a (replicate 16 None) w (InMain p).

(** Memory never runs out. *)
Definition malloc_total (malloc : malloc_fun) : Prop := malloc_ok malloc /\ forall n, is_Some (malloc n).

Lemma total_memory malloc : malloc_total malloc -> ~ no_memory malloc.
Proof. intros [_ H] [n Hn]. destruct (H n). congruence. Qed.

Section Theorems.
Context {F U W : Type} (malloc : malloc_fun) (code : F -> U -> program F U W).

(** C30: whatever the functions of the coroutines and the main program do, and whether or not memory runs out, in
    every state they reach the blocks allocated are those of the schedule and of its coroutines, each owned once; the
    table has the size and the count of coroutines it says; exactly the coroutine that runs is marked as running; and a
    coroutine that waits has its frames in its block. *)
Theorem coroutine_state_ok n sch h w main r : malloc_ok malloc -> coroutine_open malloc heap_empty = Some (sch, h) ->
  run malloc code n (begin sch h w main) = Ok r -> match r with inl s | inr s => state_ok s end.
Proof.
  intros Hm Ho Hr. pose proof (coroutine_open_spec (F := F) (U := U) (W := W) malloc) as Hs. rewrite Ho in Hs.
  destruct Hs as (Hs & Hrun & _). pose proof (co_run_spec malloc code Hm n (begin sch h w main)) as Hn.
  rewrite Hr in Hn. destruct r as [s|s]; by apply Hn.
Qed.

(** C6: with memory enough, the scheduler with one shared stack behaves as one that keeps each coroutine as a program:
    the same calls answer the same, fail the same assertions, and what a coroutine does after it is resumed is what it
    would have done without the others; no block is used after it is freed or outside its bounds, and closing the
    schedule frees every block. *)
Theorem coroutine_refines n w main : malloc_total malloc ->
  exists sch h, coroutine_open malloc heap_empty = Some (sch, h) /\
    match run malloc code n (begin sch h w main) with
    | Ok (inr s) => a_run code n (a_begin w main) = Ok (inr (abs s))
    | Ok (inl s) => a_run code n (a_begin w main) = Ok (inl (abs s)) /\
        exists h', coroutine_close (st_sched s) (st_heap s) = Some h' /\ h_mem h' = ∅
    | Asserted => a_run code n (a_begin w main) = Asserted
    | Undef => a_run code n (a_begin w main) = Undef
    end.
Proof.
  intros Ht. pose proof (coroutine_open_spec (F := F) (U := U) (W := W) malloc) as Hs.
  destruct (coroutine_open malloc heap_empty) as [[sch h]|]; [|by destruct (total_memory malloc Ht)].
  destruct Hs as (Hs & Hrun & Ea). exists sch, h. split; [done|].
  pose proof (co_run_spec malloc code (proj1 Ht) n (begin sch h w main)) as Hn.
  unfold abs in Hn at 1. cbn [begin st_sched st_client st_control] in Hn. rewrite Ea in Hn.
  specialize (Hn (conj Hs (conj Hrun I))). unfold result_ok in Hn.
  destruct (run malloc code n (begin sch h w main)) as [[s|s]| |].
  - destruct Hn as [Hn [Hok _]]. split; [done|]. by apply coroutine_close_spec.
  - apply Hn.
  - done.
  - destruct Hn as [?|?]; [done|]. by destruct (total_memory malloc Ht).
Qed.

(** ** Coroutines that end *)

(** What the program of the coroutine [id] makes of the client's state if it is run without a stop. *)
Inductive ends (id : Z) : program F U W -> W -> W -> Prop :=
| ends_ret p w u : observe p = RetF u -> ends id p w w
| ends_tau p q w w' : observe p = TauF q -> ends id q w w' -> ends id p w w'
| ends_act X p (f : W -> W * X) k w w' : observe p = VisF (Act f) k -> ends id (k (snd (f w))) (fst (f w)) w' -> ends id p w w'
| ends_running p k w w' : observe p = VisF Running k -> ends id (k id) w w' -> ends id p w w'
| ends_yield p locals k w w' : observe p = VisF (Yield locals) k -> blen locals < STACK_SIZE -> ends id (k tt) w w' -> ends id p w w'.

Lemma ends_observe id p q w w' : observe p = observe q -> ends id q w w' -> ends id p w w'.
Proof.
  intros E H. destruct H as [q w u Eq|q q' w w' Eq H|X q f k w w' Eq H|q k w w' Eq H|q l k w w' Eq Hl H]; rewrite <- E in Eq.
  - by eapply ends_ret.
  - by eapply ends_tau.
  - by eapply ends_act.
  - by eapply ends_running.
  - by eapply ends_yield.
Qed.

(** The main program comes to its end, the client's state being [wf] then. *)
Definition finishes (l : slots) (c : control F U W) (w wf : W) : Prop :=
  exists n s, a_run code n (mk_a l w c) = Ok (inl s) /\ a_client s = wf.

Lemma finishes_step l c w wf l' c' w' : a_step code (mk_a l w c) = Ok (inr (mk_a l' w' c')) -> finishes l' c' w' wf -> finishes l c w wf.
Proof. intros E (n & s & En & Ew). exists (S n), s. split; [|done]. cbn [a_run]. rewrite E. by ored. Qed.

Lemma finishes_observe l c p w wf : observe (current c) = observe p -> finishes l (with_program c p) w wf -> finishes l c w wf.
Proof.
  intros E (n & s & En & Ew). destruct n as [|n]; [done|]. cbn [a_run] in En.
  assert (Ec : current (with_program c p) = p) by (by destruct c). unfold a_step at 1 in En. rewrite Ec, <- E in En.
  destruct (observe (current c)) as [u|q|X e k] eqn:Eo.
  - destruct c as [p0|id p0 m]; ored.
    + exists 1%nat, (mk_a l w (InMain p0)). cbn [a_run]. unfold a_step. rewrite Eo. ored. split; [done|].
      cbn in En. injection En as <-. done.
    + exists (S n), s. split; [|done]. cbn [a_run]. unfold a_step at 1. rewrite Eo. done.
  - exists (S n), s. split; [|done]. cbn [a_run]. unfold a_step at 1. rewrite Eo. by destruct c.
  - exists (S n), s. split; [|done]. cbn [a_run]. unfold a_step at 1. rewrite Eo. by destruct c, e.
Qed.

Lemma finishes_act X l c w wf (f : W -> W * X) k : observe (current c) = VisF (Act f) k ->
  finishes l (with_program c (k (snd (f w)))) (fst (f w)) wf -> finishes l c w wf.
Proof. intros E. apply finishes_step. unfold a_step. rewrite E. by destruct (f w). Qed.

Lemma finishes_new l c w wf func ud k id l' : observe (current c) = VisF (New func ud) k -> a_new l func ud = Ok (id, l') ->
  finishes l' (with_program c (k id)) w wf -> finishes l c w wf.
Proof. intros E En. apply finishes_step. unfold a_step. rewrite E, En. done. Qed.

Lemma finishes_ret l p w u : observe p = RetF u -> finishes l (InMain p) w w.
Proof. intros E. exists 1%nat, (mk_a l w (InMain p)). cbn [a_run]. unfold a_step. cbn [current]. by rewrite E. Qed.

(** One round of the loop [while (coroutine_status(S,co)) coroutine_resume(S,co)]. *)
Lemma while_alive_dead l id rest w wf : a_get l id = Some None -> finishes l (InMain (rest tt)) w wf ->
  finishes l (InMain (ITree.bind (while_alive id) rest)) w wf.
Proof.
  intros Hl Hf. eapply finishes_step.
  { unfold a_step. cbn [current]. unfold while_alive. cbn. by rewrite Hl. }
  by apply (finishes_observe _ (InMain _) (rest tt)).
Qed.

Definition slot_program (s : slot F U W) : option (program F U W) :=
  match s with SReady func ud => Some (code func ud) | SWaiting p => Some p | SRunning => None end.

Lemma while_alive_live l id rest w wf s p : a_get l id = Some (Some s) -> slot_program s = Some p ->
  (forall m, observe m = TauF (ITree.bind (while_alive id) rest) -> finishes (a_set l id (Some SRunning)) (InCo id p m) w wf) ->
  finishes l (InMain (ITree.bind (while_alive id) rest)) w wf.
Proof.
  intros Hl Hp Hf. eapply finishes_step.
  { unfold a_step. cbn [current]. unfold while_alive. cbn. by rewrite Hl. }
  cbn [with_program]. destruct s as [func ud|q|]; [| |done]; injection Hp as <-.
  - eapply finishes_step; [unfold a_step; cbn; rewrite Hl; reflexivity|]. by apply Hf.
  - eapply finishes_step; [unfold a_step; cbn; rewrite Hl; reflexivity|]. by apply Hf.
Qed.

Lemma a_get_set (l : slots (F := F) (U := U) (W := W)) id o o' : a_get l id = Some o -> a_get (a_set l id o') id = Some o'.
Proof. unfold a_get, a_set. destruct (id <? 0); [done|]. intros H. apply list_lookup_insert_eq. by eapply lookup_lt_Some. Qed.

Lemma a_set_set (l : slots (F := F) (U := U) (W := W)) id (o o' : option (slot F U W)) : a_set (a_set l id o) id o' = a_set l id o'.
Proof. apply list_insert_insert_eq. Qed.

(** A coroutine that is resumed until it is dead does what its program does without a stop. *)
Lemma drive id p w w' : ends id p w w' -> forall l o m rest wf, a_get l id = Some o ->
  observe m = TauF (ITree.bind (while_alive id) rest) -> finishes (a_set l id None) (InMain (rest tt)) w' wf ->
  finishes (a_set l id (Some SRunning)) (InCo id p m) w wf.
Proof.
  intros He. induction He as [p w u Eo|p q w w' Eo He IH|X p f k w w' Eo He IH|p k w w' Eo He IH|p locals k w w' Eo Hfit He IH];
    intros l o m rest wf Hl Hm Hf.
  - eapply finishes_step; [unfold a_step; cbn [current]; rewrite Eo; reflexivity|]. rewrite a_set_set.
    eapply finishes_step; [unfold a_step; cbn [current]; rewrite Hm; reflexivity|]. apply while_alive_dead; [by eapply a_get_set|done].
  - eapply finishes_step; [unfold a_step; cbn [current]; rewrite Eo; reflexivity|]. by eapply IH.
  - eapply finishes_act; [exact Eo|]. by eapply IH.
  - eapply finishes_step; [unfold a_step; cbn [current]; rewrite Eo; reflexivity|]. by eapply IH.
  - eapply finishes_step; [unfold a_step; cbn [current]; rewrite Eo, (proj2 (Z.leb_gt _ _)) by done; reflexivity|].
    rewrite a_set_set. eapply finishes_step; [unfold a_step; cbn [current]; rewrite Hm; reflexivity|].
    eapply while_alive_live; [by eapply a_get_set|reflexivity|]. intros m' Hm'. rewrite a_set_set. by eapply IH.
Qed.

(** The loop of main.c. *)
Lemma while_alive_ends l id rest w w' wf func ud : a_get l id = Some (Some (SReady func ud)) -> ends id (code func ud) w w' ->
  finishes (a_set l id None) (InMain (rest tt)) w' wf -> finishes l (InMain (ITree.bind (while_alive id) rest)) w wf.
Proof.
  intros Hl He Hf. eapply while_alive_live; [done|reflexivity|]. intros m Hm. by eapply drive.
Qed.

Lemma run_more n k (s : state F U W) r : run malloc code n s = Ok (inl r) -> run malloc code (n + k) s = Ok (inl r).
Proof.
  revert s. induction n as [|n IH]; intros s; [done|]. cbn [run Nat.add]. destruct (step malloc code s) as [[s'|s']| |]; ored; [done|apply IH|done..].
Qed.

End Theorems.

(** ** main.c *)

Section Main.
Context (foo_frames : bytes -> Z -> Z -> bytes).
Context (foo_frames_fit : forall buf start i, blen (foo_frames buf start i) < STACK_SIZE).

(** The lines of the coroutine [id], which prints from [start] on, with [rounds] to go. *)
Fixpoint foo_lines (rounds : nat) (i id start : Z) (buf : bytes) : list bytes :=
  match rounds with
  | O => []
  | S rounds' => let buf := buf ++ foo_data id (start + i) in (buf ++ [10]) :: foo_lines rounds' (i + 1) id start buf
  end.

Lemma foo_loop_ends rounds i id start buf w :
  ends id (foo_loop foo_frames rounds i start buf) w (mk_client (out w ++ foo_lines rounds i id start buf) (args w)).
Proof.
  revert i buf w. induction rounds as [|rounds IH]; intros i buf w; cbn [foo_loop foo_lines].
  - rewrite app_nil_r. destruct w. by eapply ends_ret.
  - eapply ends_running; [cbn; reflexivity|]. eapply ends_act; [cbn; reflexivity|]. cbn [fst snd].
    eapply ends_yield; [cbn; reflexivity|apply foo_frames_fit|]. set (buf' := buf ++ foo_data id (start + i)).
    apply (ends_observe id _ (foo_loop foo_frames rounds (i + 1) start buf')); [reflexivity|].
    pose proof (IH (i + 1) buf' (mk_client (out w ++ [buf' ++ [10]]) (args w))) as H. cbn [out args] in H. by rewrite <- app_assoc in H.
Qed.

Lemma foo_ends id ud w :
  ends id (foo foo_frames ud) w (mk_client (out w ++ foo_lines 5 0 id (default 0 (args w !! ud)) []) (args w)).
Proof.
  eapply ends_act; [cbn; reflexivity|]. apply (ends_observe id _ (foo_loop foo_frames 5 0 (default 0 (args w !! ud)) [])); [reflexivity|].
  apply foo_loop_ends.
Qed.

Definition line (s : string) : bytes := chars s ++ [10].

Definition test_lines : list bytes :=
  [line "main start"] ++ foo_lines 5 0 0 0 [] ++ foo_lines 5 0 1 100 [] ++ [line "main end"].

Lemma test_finishes : finishes (fun _ ud => foo foo_frames ud) (replicate 16 None) (InMain test) (mk_client [] [])
  (mk_client test_lines [0; 100]).
Proof.
  eapply finishes_act; [cbn; reflexivity|]. eapply finishes_new; [cbn; reflexivity|reflexivity|]. eapply finishes_new; [cbn; reflexivity|reflexivity|].
  eapply finishes_act; [cbn; reflexivity|]. cbn [fst snd with_program out args].
  set (the_end := fun _ : unit => printf (line "main end")).
  apply (finishes_observe _ _ _ (ITree.bind (while_alive 0) (fun _ => ITree.bind (while_alive 1) the_end))); [reflexivity|].
  cbn [with_program]. eapply while_alive_ends; [reflexivity|apply foo_ends|].
  eapply while_alive_ends; [reflexivity|apply foo_ends|].
  eapply finishes_act; [cbn; reflexivity|]. cbn [fst snd with_program out args].
  eapply finishes_ret. reflexivity.
Qed.

End Main.

(** C31: main.c comes to its end, whatever the frames of [foo] hold as long as they fit on the stack, and whatever blocks
    [malloc] gives: each coroutine prints its five lines although both run on one stack, the second after the first, and
    every block is freed. *)
Theorem main_prints malloc foo_frames : malloc_total malloc ->
  (forall buf start i, blen (foo_frames buf start i) < STACK_SIZE) ->
  exists n0 h', h_mem h' = ∅ /\ forall n, (n0 <= n)%nat -> main foo_frames malloc n heap_empty = Ok (Some (test_lines, h')).
Proof.
  intros Ht Hfit. destruct (test_finishes foo_frames Hfit) as (n0 & s0 & E0 & Ew).
  pose proof (coroutine_open_spec (F := coroutine_func) (U := nat) (W := client) malloc) as Hs.
  destruct (coroutine_open malloc heap_empty) as [[sch h]|] eqn:Eo; [|by destruct (total_memory malloc Ht)].
  destruct Hs as (Hs & Hrun & Ea).
  set (s1 := mk_state sch h (mk_client [] []) (InMain test)) in *. set (code := fun (_ : coroutine_func) ud => foo foo_frames ud) in *.
  assert (Hok : state_ok s1) by (split_and!; done).
  assert (Eabs : abs s1 = mk_a (replicate 16 None) (mk_client [] []) (InMain test)) by (unfold abs; cbn [s1 st_sched st_client st_control]; by rewrite Ea).
  assert (Hrun0 : exists s, run malloc code n0 s1 = Ok (inl s) /\ abs s = s0 /\ state_ok s).
  { pose proof (co_run_spec malloc code (proj1 Ht) n0 s1 Hok) as Hn. rewrite Eabs, E0 in Hn. unfold result_ok in Hn.
    destruct (run malloc code n0 s1) as [[s|s]| |]; [|naive_solver..|destruct Hn as [?|?]; [done|by destruct (total_memory malloc Ht)]].
    destruct Hn as [[= ->] ?]. by exists s. }
  destruct Hrun0 as (s & Er & Eas & [Hsok _]). destruct (coroutine_close_spec _ _ Hsok) as (h' & Ec & Eh). exists n0, h'. split; [done|].
  intros n Hn. unfold main. rewrite Eo. ored. replace n with (n0 + (n - n0))%nat by lia.
  change (run malloc (fun _ ud => foo foo_frames ud)) with (run malloc code). fold s1.
  rewrite (run_more malloc code n0 (n - n0) s1 s Er). ored. rewrite Ec. ored. rewrite <- Eas in Ew. cbn [abs a_client] in Ew. by rewrite Ew.
Qed.

(** ** A machine whose memory never runs out *)

Definition short_frames (buf : bytes) (start i : Z) : bytes := start :: i :: take 16 buf.

Lemma short_frames_fit buf start i : blen (short_frames buf start i) < STACK_SIZE.
Proof. unfold short_frames, blen. cbn [length]. rewrite length_take. assert (18 < STACK_SIZE) by done. lia. Qed.

Lemma zero_total : malloc_total malloc_zero.
Proof. split; [apply malloc_zero_ok|by eexists]. Qed.

Lemma main_prints_witness :
  exists n0 h', h_mem h' = ∅ /\ forall n, (n0 <= n)%nat -> main short_frames malloc_zero n heap_empty = Ok (Some (test_lines, h')).
Proof. apply (main_prints malloc_zero short_frames); [apply zero_total|apply short_frames_fit]. Defined.

Definition sample_code (_ : coroutine_func) (ud : nat) : program coroutine_func nat client := foo short_frames ud.

Definition ended {F U W} (r : outcome (state F U W + state F U W)) : bool := match r with Ok (inl _) => true | _ => false end.

Lemma coroutine_refines_witness :
  exists sch h s h', coroutine_open malloc_zero heap_empty = Some (sch, h) /\
    run malloc_zero sample_code 200 (begin sch h (mk_client [] []) test) = Ok (inl s) /\
    a_run sample_code 200 (a_begin (mk_client [] []) test) = Ok (inl (abs s)) /\
    coroutine_close (st_sched s) (st_heap s) = Some h' /\ h_mem h' = ∅.
Proof.
  destruct (coroutine_refines malloc_zero sample_code 200 (mk_client [] []) test zero_total) as (sch & h & E & R).
  exists sch, h. assert (Hend : match coroutine_open malloc_zero heap_empty with
    | Some (sch, h) => ended (run malloc_zero sample_code 200 (begin sch h (mk_client [] []) test)) | None => false end = true)
    by (vm_compute; reflexivity). rewrite E in Hend.
  destruct (run malloc_zero sample_code 200 (begin sch h (mk_client [] []) test)) as [[s|s]| |]; [|done..].
  destruct R as (Ha & h' & Ec & Eh). exists s, h'. split; [exact E|]. split; [reflexivity|]. split; [exact Ha|]. split; [exact Ec|exact Eh].
Defined.

Definition after (n : nat) : option (state coroutine_func nat client) :=
  '(sch, h) ← coroutine_open malloc_zero heap_empty;
  match run malloc_zero sample_code n (begin sch h (mk_client [] []) test) with Ok (inr s) => Some s | _ => None end.

(** In the middle of the first coroutine. *)
Lemma coroutine_state_ok_witness : exists s, after 30 = Some s /\ state_ok s.
Proof.
  assert (Hend : match after 30 with Some _ => true | None => false end = true) by (vm_compute; reflexivity).
  unfold after in *. destruct (coroutine_open malloc_zero heap_empty) as [[sch h]|] eqn:E; [|done]. cbn [mbind option_bind] in *.
  pose proof (fun r => coroutine_state_ok malloc_zero sample_code 30 sch h (mk_client [] []) test r malloc_zero_ok E) as Hok.
  destruct (run malloc_zero sample_code 30 (begin sch h (mk_client [] []) test)) as [[s|s]| |]; [done| |done..].
  exists s. split; [done|]. by apply (Hok (inr s)).
Defined.

End CoRun.
