(* ===== verification/Migrate.v ===== *)
(** * Copying a database to another server: tool.c and redis-migrate.c of redis-tool

    A server is what [redisCommand] of hiredis makes of it, the class [Server].  Each key
    the source lists is read with the command of its type and written to the destination. *)

From Stdlib Require Import Ascii String.
From S2P Require Import Prelude CText Outcome.
Import CText.

(** ** Replies *)

Inductive reply :=
| RString (s : bytes) | RArray (l : list reply) | RInteger (n : Z) | RNil | RStatus (s : bytes) | RError (s : bytes).

(** [redisCommand] sends the words of a command; nil is an error of the connection. *)
Class Server (S : Type) := { redisCommand : S -> list bytes -> option reply * S }.

Module Migrate.

Definition SCAN_INC : Z := 10.

(** [enum KV_TYPE] *)
Definition KSTRING : Z := 0.
Definition KLIST : Z := 1.
Definition KSET : Z := 2.
Definition KHASH : Z := 3.
Definition KSSET : Z := 4.
Definition KNONE : Z := 5.
Definition KUNKOWN : Z := 6.

Definition type_name : list bytes := map chars ["string"; "list"; "set"; "hash"; "zset"; "none"]%string.

(** The fields of a reply; those its type does not use are 0 and nil. *)
Definition is_array (r : reply) : bool := match r with RArray _ => true | _ => false end.
Definition is_string (r : reply) : bool := match r with RString _ => true | _ => false end.
Definition is_integer (r : reply) : bool := match r with RInteger _ => true | _ => false end.
Definition is_status (r : reply) : bool := match r with RStatus _ => true | _ => false end.
Definition is_error (r : reply) : bool := match r with RError _ => true | _ => false end.
Definition r_str (r : reply) : option bytes := match r with RString s | RStatus s | RError s => Some s | _ => None end.
Definition r_len (r : reply) : Z := blen (default [] (r_str r)).
Definition r_integer (r : reply) : Z := match r with RInteger n => n | _ => 0 end.
Definition r_elements (r : reply) : list reply := match r with RArray l => l | _ => [] end.

(** A word of a command: [%b] with the string and the length of a reply. *)
Definition word (r : reply) : bytes := default [] (r_str r).

Section Migrate.
Context {S : Type} `{Server S}.

(** [redisCommand] and [assert(reply != nil)]. *)
Definition ask (s : S) (words : list bytes) : res (reply * S) :=
  let '(r, s) := redisCommand s words in
  match r with Some r => Ok (r, s) | None => Asserted end.

(** ** Instances *)

(** [context] is what [redisConnectWithTimeout] gives, with its [err]: result code and [inst->cxt]. *)
Definition connect_instance (context : option (bool * S)) (password : bytes) : Z * option S :=
  match context with
  | None => (-1, None)
  | Some (true, _) => (-1, None)
  | Some (false, s) =>
      if strlen password =? 0 then (0, Some s)
      else
        let '(r, s) := redisCommand s [chars "auth"; c_string password] in
        match r with
        | None => (-1, None)
        | Some r => if is_error r then (-1, None) else (0, Some s)
        end
  end.

(** A reply that is nil, empty, or another text. *)
Definition select_db (s : S) (db : Z) : Z * S :=
  let '(r, s) := redisCommand s [chars "select"; dec db] in
  match r with
  | None => (-1, s)
  | Some r =>
      if (r_len r =? 0) || negb (bool_decide (c_string (word r) = chars "OK")) then (-1, s) else (0, s)
  end.

Definition get_key_num (s : S) (db : Z) : res (Z * S) :=
  let '(ret, s) := select_db s db in
  if negb (ret =? 0) then Ok (-1, s)
  else
    '(r, s) ← ask s [chars "dbsize"];
    _ ← assert_ (is_integer r);
    Ok (r_integer r, s).

Definition get_integer (s : S) (words : list bytes) : res (Z * S) :=
  '(r, s) ← ask s words;
  _ ← assert_ (is_integer r);
  Ok (r_integer r, s).

Definition get_lastsave (s : S) : res (Z * S) := get_integer s [chars "lastsave"].
Definition get_list_size (s : S) (key : bytes) : res (Z * S) := get_integer s [chars "llen"; key].
Definition get_set_size (s : S) (key : bytes) : res (Z * S) := get_integer s [chars "scard"; key].
Definition get_sset_size (s : S) (key : bytes) : res (Z * S) := get_integer s [chars "zcard"; key].
Definition get_hashtable_size (s : S) (key : bytes) : res (Z * S) := get_integer s [chars "hlen"; key].

Definition get_key_pttl (s : S) (key : bytes) : res (Z * S) :=
  _ ← assert_ (negb (blen key =? 0));
  get_integer s [chars "pttl"; key].

(** The loop over [type_name] from [flag] on. *)
Fixpoint type_flag (names : list bytes) (flag : Z) (str : bytes) : Z :=
  match names with
  | [] => flag
  | name :: names => if bool_decide (name = c_string str) then flag else type_flag names (flag + 1) str
  end.

Definition get_key_type (s : S) (key : bytes) : res (Z * S) :=
  _ ← assert_ (negb (blen key =? 0));
  '(r, s) ← ask s [chars "type"; key];
  _ ← assert_ (is_status r);
  _ ← assert_ (negb (r_len r =? 0));
  Ok (type_flag type_name 0 (word r), s).

(** ** Lists *)

Fixpoint push_each (dst : S) (key : bytes) (elements : list reply) : res S :=
  match elements with
  | [] => Ok dst
  | reply1 :: elements =>
      _ ← assert_ (negb (r_len reply1 =? 0));
      '(_, dst) ← ask dst [chars "rpush"; key; word reply1];
      push_each dst key elements
  end.

(** [index] is not changed by the loop. *)
Fixpoint list_loop (fuel : nat) (src dst : S) (key : bytes) (index : Z) : res (S * S) :=
  match fuel with
  | O => Unfinished
  | Datatypes.S f =>
      '(r, src) ← ask src [chars "lrange"; key; dec index; dec (index + SCAN_INC - 1)];
      _ ← assert_ (is_array r);
      let elements := r_elements r in
      if bool_decide (elements = []) then Ok (src, dst)
      else
        dst ← push_each dst key elements;
        if Z.of_nat (length elements) <? SCAN_INC then Ok (src, dst) else list_loop f src dst key index
  end.

Definition migrate_list (fuel : nat) (src dst : S) (key : bytes) : res (S * S) := list_loop fuel src dst key 0.

(** ** Sets, sorted sets and hash tables *)

(** One command for each element, or for each two. *)
Fixpoint send_each (command : reply -> list bytes) (dst : S) (elements : list reply) : res S :=
  match elements with
  | [] => Ok dst
  | e :: elements =>
      '(_, dst) ← ask dst (command e);
      send_each command dst elements
  end.

Fixpoint send_pairs (command : reply -> reply -> list bytes) (dst : S) (elements : list reply) : res S :=
  match elements with
  | [] => Ok dst
  | [_] => Undefined
  | e :: e' :: elements =>
      '(_, dst) ← ask dst (command e e');
      send_pairs command dst elements
  end.

(** The loop that asks for a part after another until the cursor is 0. *)
Fixpoint scan_loop (fuel : nat) (words : Z -> list bytes) (send : S -> list reply -> res S) (src dst : S) (cursor : Z)
  : res (S * S) :=
  match fuel with
  | O => Unfinished
  | Datatypes.S f =>
      '(r, src) ← ask src (words cursor);
      _ ← assert_ (is_array r);
      match r_elements r with
      | [c; keys] =>
          _ ← assert_ (is_string c);
          _ ← assert_ (is_array keys);
          dst ← send dst (r_elements keys);
          let cursor := fst (strtol (c_string (word c))) in
          if cursor =? 0 then Ok (src, dst) else scan_loop f words send src dst cursor
      | _ => Asserted
      end
  end.

Definition scan_words (command key : bytes) (cursor : Z) : list bytes :=
  [command; key; dec cursor; chars "count"; dec SCAN_INC].

Definition sadd_words (key : bytes) (e : reply) : list bytes := [chars "sadd"; key; word e].
Definition zadd_words (key : bytes) (e e' : reply) : list bytes := [chars "zadd"; key; word e'; word e].
Definition hset_words (key : bytes) (e e' : reply) : list bytes := [chars "hset"; key; word e; word e'].

Definition migrate_set (fuel : nat) (src dst : S) (key : bytes) : res (S * S) :=
  scan_loop fuel (scan_words (chars "sscan") key) (send_each (sadd_words key)) src dst 0.

Definition migrate_sset (fuel : nat) (src dst : S) (key : bytes) : res (S * S) :=
  scan_loop fuel (scan_words (chars "zscan") key) (send_pairs (zadd_words key)) src dst 0.

Definition migrate_hashtable (fuel : nat) (src dst : S) (key : bytes) : res (S * S) :=
  scan_loop fuel (scan_words (chars "hscan") key) (send_pairs (hset_words key)) src dst 0.

Definition migrate_set2 (src dst : S) (key : bytes) : res (S * S) :=
  '(r, src) ← ask src [chars "smembers"; key];
  _ ← assert_ (is_array r);
  dst ← send_each (sadd_words key) dst (r_elements r);
  Ok (src, dst).

Definition migrate_sset2 (src dst : S) (key : bytes) : res (S * S) :=
  '(kv, src) ← ask src [chars "zrange"; key; dec 0; chars "-1"; chars "withscores"];
  _ ← assert_ (is_array kv);
  _ ← assert_ (negb (bool_decide (r_elements kv = [])));
  dst ← send_pairs (zadd_words key) dst (r_elements kv);
  Ok (src, dst).

Definition migrate_hashtable2 (src dst : S) (key : bytes) : res (S * S) :=
  '(kv, src) ← ask src [chars "hgetall"; key];
  _ ← assert_ (is_array kv);
  _ ← assert_ (negb (bool_decide (r_elements kv = [])));
  dst ← send_pairs (hset_words key) dst (r_elements kv);
  Ok (src, dst).

(** ** Keys *)

(** The result of [set] is not looked at. *)
Definition migrate_string (src dst : S) (key : bytes) : res (S * S) :=
  '(kv, src) ← ask src [chars "get"; key];
  _ ← assert_ (is_string kv);
  _ ← assert_ (negb (r_len kv =? 0));
  let '(_, dst) := redisCommand dst [chars "set"; key; word kv] in
  Ok (src, dst).

Definition migrate_key (fuel : nat) (src dst : S) (key : bytes) : res (S * S) :=
  '(flag, src) ← get_key_type src key;
  if flag =? KSTRING then migrate_string src dst key
  else if flag =? KHASH then migrate_hashtable fuel src dst key
  else if flag =? KLIST then migrate_list fuel src dst key
  else if flag =? KSET then migrate_set fuel src dst key
  else if flag =? KSSET then migrate_sset fuel src dst key
  else Ok (src, dst).

Definition migrate_key2 (fuel : nat) (src dst : S) (key : bytes) : res (S * S) :=
  '(flag, src) ← get_key_type src key;
  if flag =? KSTRING then migrate_string src dst key
  else if flag =? KHASH then migrate_hashtable2 src dst key
  else if flag =? KLIST then migrate_list fuel src dst key
  else if flag =? KSET then migrate_set2 src dst key
  else if flag =? KSSET then migrate_sset2 src dst key
  else Ok (src, dst).

(** ** Databases *)

Fixpoint migrate_keys (migrate : S -> S -> bytes -> res (S * S)) (src dst : S) (keys : list reply) : res (S * S) :=
  match keys with
  | [] => Ok (src, dst)
  | k :: keys =>
      '(src, dst) ← migrate src dst (word k);
      migrate_keys migrate src dst keys
  end.

Definition migrate_db2 (fuel : nat) (src dst : S) (src_db dst_db : Z) : res (S * S) :=
  '(num, src) ← get_key_num src src_db;
  if num <=? 0 then Ok (src, dst)
  else
    let '(_, dst) := select_db dst dst_db in
    '(r, src) ← ask src [chars "keys"; chars "*"];
    migrate_keys (migrate_key2 fuel) src dst (r_elements r).

(** [strncmp(reply->str, "ERR unknown command 'scan'", reply->len)] is 0: the reply begins the text. *)
Definition unknown_scan (r : reply) : bool :=
  is_error r && bool_decide (c_string (word r) = take (Z.to_nat (r_len r)) (chars "ERR unknown command 'scan'")).

Fixpoint db_loop (fuel : nat) (src dst : S) (src_db dst_db : Z) (idx : Z) : res (S * S) :=
  match fuel with
  | O => Unfinished
  | Datatypes.S f =>
      '(r, src) ← ask src [chars "scan"; dec idx; chars "count"; dec SCAN_INC];
      if unknown_scan r then migrate_db2 f src dst src_db dst_db
      else
        _ ← assert_ (is_array r);
        match r_elements r with
        | [c; keys] =>
            _ ← assert_ (is_string c);
            _ ← assert_ (is_array keys);
            let idx := fst (strtol (c_string (word c))) in
            '(src, dst) ← migrate_keys (migrate_key f) src dst (r_elements keys);
            if idx =? 0 then Ok (src, dst) else db_loop f src dst src_db dst_db idx
        | _ => Asserted
        end
  end.

Definition migrate_db (fuel : nat) (src dst : S) (src_db dst_db : Z) : res (S * S) :=
  '(num, src) ← get_key_num src src_db;
  if num <=? 0 then Ok (src, dst)
  else
    let '(_, dst) := select_db dst dst_db in
    db_loop fuel src dst src_db dst_db 0.

End Migrate.

End Migrate.
