(* ===== verification/MigrateSpec.v ===== *)
(** * What copying a database promises

    The laws [ServerLaws] of a server: what the commands that tool.c sends answer and do to the
    values it holds.  Over any two such servers, the destination gets the values of the source, but
    a list once for each time its key is listed, and a list of ten elements for ever. *)

From Stdlib Require Import Ascii String.
From S2P Require Import Prelude CText Outcome Migrate.
Import CText Migrate.

Inductive value :=
| VString (b : bytes) | VList (l : list bytes) | VSet (x : gset bytes) | VZset (z : gmap bytes bytes) | VHash (h : gmap bytes bytes).

Abbreviation database := (@gmap (list Z) (@list_eq_dec Z Z.eq_dec) (@list_countable Z Z.eq_dec Z_countable) value).

(** ** Values *)

Definition type_text (o : option value) : bytes :=
  match o with
  | None => chars "none"
  | Some (VString _) => chars "string"
  | Some (VList _) => chars "list"
  | Some (VSet _) => chars "set"
  | Some (VZset _) => chars "zset"
  | Some (VHash _) => chars "hash"
  end.

(** What a collection is listed as: members, or members with scores, or fields with values. *)
Definition tuples (v : value) : list (list bytes) :=
  match v with
  | VSet x => (fun e => [e]) <$> elements x
  | VZset z | VHash z => (fun p => [p.1; p.2]) <$> map_to_list z
  | _ => []
  end.

Definition is_collection (v : value) : bool := match v with VSet _ | VZset _ | VHash _ => true | _ => false end.

(** No key is kept for an empty list or collection. *)
Definition full (v : value) : Prop := match v with VString _ => True | VList l => l <> [] | _ => tuples v <> [] end.

(** The commands that list a collection in parts and at once. *)
Definition scan_command (v : value) : bytes :=
  match v with VSet _ => chars "sscan" | VZset _ => chars "zscan" | _ => chars "hscan" end.

Definition all_words (v : value) (k : bytes) : list bytes :=
  match v with
  | VSet _ => [chars "smembers"; k]
  | VZset _ => [chars "zrange"; k; dec 0; chars "-1"; chars "withscores"]
  | _ => [chars "hgetall"; k]
  end.

(** A key that is not there counts as an empty collection. *)
Definition as_list (o : option value) : option (list bytes) := match o with None => Some [] | Some (VList l) => Some l | _ => None end.
Definition as_set (o : option value) : option (gset bytes) := match o with None => Some ∅ | Some (VSet x) => Some x | _ => None end.
Definition as_zset (o : option value) : option (gmap bytes bytes) := match o with None => Some ∅ | Some (VZset x) => Some x | _ => None end.
Definition as_hash (o : option value) : option (gmap bytes bytes) := match o with None => Some ∅ | Some (VHash x) => Some x | _ => None end.

(** The parts a cursor leads through, from a cursor until it is 0 again. *)
Inductive iteration {A} (page : Z -> Z * list A) : Z -> list A -> Prop :=
| iteration_last c l : page c = (0, l) -> iteration page c l
| iteration_more c c' l l' : page c = (c', l) -> c' <> 0 -> iteration page c' l' -> iteration page c (l ++ l').

(** The cursors a client meets that begins with 0 and asks with the cursor of the last reply, and the
    condition that the program can read them: it takes them with [strtoll], and they have 64 bits. *)
Inductive met {A} (page : Z -> Z * list A) : Z -> Prop :=
| met_first : met page 0
| met_next c : met page c -> met page (fst (page c)).

Definition small_cursors {A} (page : Z -> Z * list A) : Prop := forall c, met page c -> c < 2 ^ 63.

Definition parts (c : Z) (l : list bytes) : reply := RArray [RString (dec c); RArray (map RString l)].

(** ** Servers *)

Class ServerLaws (S : Type) `{Server S} := {
  stored : S -> database -> Prop;                     (* what the database asked for holds *)
  holds : S -> database -> Prop;                      (* and it is selected *)
  db : S -> Z;
  old : S -> bool;                                    (* it has no scan *)
  score : bytes -> Prop;                              (* texts of scores *)
  page : S -> bytes -> bytes -> Z -> Z * list (list bytes);
  key_page : S -> Z -> Z * list bytes;

  reads (s : S) (words : list bytes) (r : reply) : Prop :=
    exists s', redisCommand s words = (Some r, s') /\ (forall m, holds s m -> holds s' m) /\
      db s' = db s /\ old s' = old s /\ page s' = page s /\ key_page s' = key_page s;
  writes (s : S) (words : list bytes) (m : database) : Prop :=
    exists r s', redisCommand s words = (Some r, s') /\ holds s' m;

  law_select s m : stored s m -> exists s', redisCommand s [chars "select"; dec (db s)] = (Some (RStatus (chars "OK")), s') /\
    holds s' m /\ db s' = db s /\ old s' = old s /\ page s' = page s /\ key_page s' = key_page s;
  law_held s m : holds s m -> stored s m;
  law_dbsize s m : holds s m -> reads s [chars "dbsize"] (RInteger (Z.of_nat (size m)));
  law_type s m k : holds s m -> reads s [chars "type"; k] (RStatus (type_text (m !! k)));
  law_get s m k b : holds s m -> m !! k = Some (VString b) -> reads s [chars "get"; k] (RString b);
  law_lrange s m k l i j : holds s m -> m !! k = Some (VList l) -> 0 <= i <= j -> j < 2 ^ 63 ->
    reads s [chars "lrange"; k; dec i; dec j] (RArray (map RString (take (Z.to_nat (j - i + 1)) (drop (Z.to_nat i) l))));
  law_all s m k v : holds s m -> m !! k = Some v -> is_collection v = true ->
    exists ts, ts ≡ₚ tuples v /\ reads s (all_words v k) (RArray (map RString (concat ts)));
  law_keys s m : holds s m -> exists ks, ks ≡ₚ elements (dom m) /\ reads s [chars "keys"; chars "*"] (RArray (map RString ks));
  law_scan s m k v c : holds s m -> m !! k = Some v -> is_collection v = true -> 0 <= c < U8_MOD -> old s = false ->
    let '(c', ts) := page s (scan_command v) k c in
    0 <= c' < U8_MOD /\ reads s (scan_words (scan_command v) k c) (parts c' (concat ts));
  law_scan_all s m k v : holds s m -> m !! k = Some v -> is_collection v = true ->
    exists ts, iteration (page s (scan_command v) k) 0 ts /\ forall t, t ∈ ts <-> t ∈ tuples v;
  law_scan_keys s m c : holds s m -> 0 <= c < U8_MOD -> old s = false ->
    let '(c', ks) := key_page s c in
    0 <= c' < U8_MOD /\ reads s [chars "scan"; dec c; chars "count"; dec SCAN_INC] (parts c' ks);
  law_scan_all_keys s m : holds s m -> exists ks, iteration (key_page s) 0 ks /\ forall k, k ∈ ks <-> k ∈ dom m;
  law_no_scan s m c : holds s m -> old s = true ->
    reads s [chars "scan"; dec c; chars "count"; dec SCAN_INC] (RError (chars "ERR unknown command 'scan'"));
  law_full s m k v : holds s m -> m !! k = Some v -> full v;
  law_scores s m k z x c : holds s m -> m !! k = Some (VZset z) -> z !! x = Some c -> score c;

  law_set s m k b : holds s m -> writes s [chars "set"; k; b] (<[k := VString b]> m);
  law_rpush s m k l b : holds s m -> as_list (m !! k) = Some l -> writes s [chars "rpush"; k; b] (<[k := VList (l ++ [b])]> m);
  law_sadd s m k x e : holds s m -> as_set (m !! k) = Some x -> writes s [chars "sadd"; k; e] (<[k := VSet ({[e]} ∪ x)]> m);
  law_zadd s m k z e c : holds s m -> as_zset (m !! k) = Some z -> score c ->
    writes s [chars "zadd"; k; c; e] (<[k := VZset (<[e := c]> z)]> m);
  law_hset s m k h f b : holds s m -> as_hash (m !! k) = Some h -> writes s [chars "hset"; k; f; b] (<[k := VHash (<[f := b]> h)]> m);
}.

Module MigrateSpec.

Lemma strtol_cursor c : 0 <= c < 2 ^ 63 -> fst (strtol (c_string (dec c))) = c.
Proof.
  intros Hc. destruct (dec_digits c ltac:(lia)) as (_ & _ & Hf & _).
  rewrite c_string_id; [|eapply Forall_impl; [exact Hf|intros x Hx%digit_range; lia]].
  pose proof (strtol_dec c [] Hc I) as E. rewrite app_nil_r in E. by rewrite E.
Qed.

Lemma cursor_u8 c : 0 <= c < 2 ^ 63 -> 0 <= c < U8_MOD.
Proof. unfold U8_MOD. lia. Qed.

Lemma word_string b : word (RString b) = b.
Proof. done. Qed.

Section Copy.
Context {S : Type} `{ServerLaws S}.
Implicit Types (s src dst : S) (m d : database) (k : bytes).

(** What a server that was only read keeps. *)
Definition same s s' : Prop :=
  (forall m, holds s m -> holds s' m) /\ db s' = db s /\ old s' = old s /\ page s' = page s /\ key_page s' = key_page s.

Lemma same_refl s : same s s.
Proof. by split_and!. Qed.

Lemma same_trans s1 s2 s3 : same s1 s2 -> same s2 s3 -> same s1 s3.
Proof. unfold same. intros (?&?&?&?&?) (?&?&?&?&?). split_and!; [auto|congruence..]. Qed.

Lemma ask_reads s words r : reads s words r -> exists s', ask s words = Ok (r, s') /\ same s s'.
Proof. intros (s' & E & ? & ? & ? & ? & ?). exists s'. unfold ask. rewrite E. done. Qed.

Lemma ask_writes s words m : writes s words m -> exists r s', ask s words = Ok (r, s') /\ holds s' m.
Proof. intros (r & s' & E & Hm). exists r, s'. unfold ask. by rewrite E. Qed.

(** Two databases differ at most at a key. *)
Definition but (k : bytes) d d' : Prop := forall j, j <> k -> d' !! j = d !! j.

Lemma but_insert k d d' v : but k d d' -> but k d (<[k := v]> d').
Proof. intros Hd j Hj. rewrite lookup_insert_ne by done. by apply Hd. Qed.

Lemma but_refl k d : but k d d.
Proof. by intros j. Qed.

(** ** Sending *)

Lemma push_each_spec k es dst d l : holds dst d -> as_list (d !! k) = Some l -> Forall (.≠ []) es ->
  exists dst' d', push_each dst k (map RString es) = Ok dst' /\ holds dst' d' /\ but k d d' /\ as_list (d' !! k) = Some (l ++ es).
Proof.
  revert dst d l. induction es as [|e es IH]; intros dst d l Hd Hl Hne; cbn [push_each map].
  - exists dst, d. rewrite app_nil_r. split_and!; [done..|apply but_refl|done].
  - apply Forall_cons in Hne as [He Hne]. assert (Hlen : negb (r_len (RString e) =? 0) = true).
    { destruct (r_len (RString e) =? 0) eqn:E; [|done]. to_prop. unfold r_len in E. cbn in E. by apply blen_zero in E. }
    rewrite Hlen. rred. rewrite word_string. destruct (ask_writes _ _ _ (law_rpush dst d k l e Hd Hl)) as (r & dst1 & -> & Hd1). rred.
    destruct (IH dst1 _ (l ++ [e]) Hd1) as (dst' & d' & -> & Hd' & Hb & Hl'); [by rewrite lookup_insert_eq|done|].
    exists dst', d'. split_and!; [done..| |by rewrite Hl', <- app_assoc].
    intros j Hj. rewrite (Hb j Hj). by rewrite lookup_insert_ne.
Qed.

(** ** Collections *)

(** How a collection is sent. *)
Definition send (v : value) k : S -> list reply -> res S :=
  match v with VSet _ => send_each (sadd_words k) | VZset _ => send_pairs (zadd_words k) | _ => send_pairs (hset_words k) end.

Definition pairs_in (h y : gmap bytes bytes) (ts : list (list bytes)) : Prop := y ⊆ h /\ forall e c, [e; c] ∈ ts -> y !! e = Some c.

(** A value that is part of the collection [v] and has the tuples [ts] of it. *)
Definition part_of (v : value) (o : option value) (ts : list (list bytes)) : Prop :=
  match v with
  | VSet x => exists y, as_set o = Some y /\ y ⊆ x /\ forall e, [e] ∈ ts -> e ∈ y
  | VZset z => exists y, as_zset o = Some y /\ pairs_in z y ts
  | VHash h => exists y, as_hash o = Some y /\ pairs_in h y ts
  | _ => False
  end.

Definition scores_ok (v : value) : Prop := match v with VZset z => forall e c, z !! e = Some c -> score c | _ => True end.

Definition sent (v : value) k d (ts : list (list bytes)) d' : Prop := but k d d' /\ part_of v (d' !! k) ts.

Lemma pairs_in_insert h y ts e c : pairs_in h y ts -> h !! e = Some c -> pairs_in h (<[e := c]> y) (ts ++ [[e; c]]).
Proof.
  intros [Hs Ht] He. split; [by apply insert_subseteq_l|]. intros e' c' [Hin|Hin]%elem_of_app.
  - destruct (decide (e = e')) as [<-|]; [|rewrite lookup_insert_ne by done; by apply Ht].
    rewrite lookup_insert_eq. apply Ht in Hin. pose proof (lookup_weaken _ _ _ _ Hin Hs). congruence.
  - apply list_elem_of_singleton in Hin. injection Hin as -> ->. apply lookup_insert_eq.
Qed.

Lemma tuple_pair (h : gmap bytes bytes) t : t ∈ ((fun p => [p.1; p.2]) <$> map_to_list h) -> exists e c, t = [e; c] /\ h !! e = Some c.
Proof. intros ([e c] & -> & Hp)%list_elem_of_fmap. exists e, c. split; [done|]. by apply elem_of_map_to_list in Hp. Qed.

Lemma sent_insert v k d ts ts' d' w : sent v k d ts d' -> part_of v (Some w) ts' -> sent v k d ts' (<[k := w]> d').
Proof. intros [Hb _] Hp. split; [by apply but_insert|]. by rewrite lookup_insert_eq. Qed.

(** One tuple. *)
Lemma send_tuple v k t rest dst d d' ts : is_collection v = true -> scores_ok v -> t ∈ tuples v -> holds dst d' -> sent v k d ts d' ->
  exists dst1 d1, send v k dst (map RString (t ++ rest)) = send v k dst1 (map RString rest) /\ holds dst1 d1 /\ sent v k d (ts ++ [t]) d1.
Proof.
  intros Hc Hsc Ht Hd Hs. pose proof Hs as [Hb Hp]. destruct v as [b|l|x|z|h]; try done; cbn [tuples send part_of] in *.
  - apply list_elem_of_fmap in Ht as (e & -> & He%elem_of_elements). destruct Hp as (y & Hy & Hyx & Hty).
    destruct (ask_writes _ _ _ (law_sadd dst d' k y e Hd Hy)) as (r & dst1 & E & Hd1). exists dst1, (<[k := VSet ({[e]} ∪ y)]> d').
    split; [cbn [app map send_each]; change (sadd_words k (RString e)) with [chars "sadd"; k; e]; rewrite E; by rred|]. split; [done|].
    apply (sent_insert _ _ _ _ _ _ _ Hs). exists ({[e]} ∪ y). split_and!; [done|set_solver|].
    intros e' [Hin|Hin]%elem_of_app; [apply Hty in Hin; set_solver|]. apply list_elem_of_singleton in Hin. injection Hin as ->. set_solver.
  - apply tuple_pair in Ht as (e & c & -> & He). destruct Hp as (y & Hy & Hyz).
    destruct (ask_writes _ _ _ (law_zadd dst d' k y e c Hd Hy (Hsc e c He))) as (r & dst1 & E & Hd1). exists dst1, (<[k := VZset (<[e := c]> y)]> d').
    split; [cbn [app map send_pairs]; change (zadd_words k (RString e) (RString c)) with [chars "zadd"; k; c; e]; rewrite E; by rred|]. split; [done|].
    apply (sent_insert _ _ _ _ _ _ _ Hs). exists (<[e := c]> y). split; [done|]. by apply pairs_in_insert.
  - apply tuple_pair in Ht as (e & c & -> & He). destruct Hp as (y & Hy & Hyz).
    destruct (ask_writes _ _ _ (law_hset dst d' k y e c Hd Hy)) as (r & dst1 & E & Hd1). exists dst1, (<[k := VHash (<[e := c]> y)]> d').
    split; [cbn [app map send_pairs]; change (hset_words k (RString e) (RString c)) with [chars "hset"; k; e; c]; rewrite E; by rred|]. split; [done|].
    apply (sent_insert _ _ _ _ _ _ _ Hs). exists (<[e := c]> y). split; [done|]. by apply pairs_in_insert.
Qed.

Lemma send_tuples v k ts0 dst d d' ts : is_collection v = true -> scores_ok v -> (forall t, t ∈ ts0 -> t ∈ tuples v) ->
  holds dst d' -> sent v k d ts d' ->
  exists dst1 d1, send v k dst (map RString (concat ts0)) = Ok dst1 /\ holds dst1 d1 /\ sent v k d (ts ++ ts0) d1.
Proof.
  revert dst d' ts. induction ts0 as [|t ts0 IH]; intros dst d' ts Hc Hsc Hin Hd Hs.
  - exists dst, d'. rewrite app_nil_r. split; [|done]. by destruct v.
  - destruct (send_tuple v k t (concat ts0) dst d d' ts) as (dst1 & d1 & E & Hd1 & Hs1); [done..|apply Hin; by left|done|done|].
    destruct (IH dst1 d1 (ts ++ [t])) as (dst2 & d2 & E2 & Hd2 & Hs2); [done..|intros ? ?; apply Hin; by right|done|done|].
    exists dst2, d2. cbn [concat]. rewrite E, E2. split_and!; [done..|]. by rewrite <- app_assoc in Hs2.
Qed.

(** The whole collection was sent. *)
Lemma sent_all v k d ts d' : is_collection v = true -> tuples v <> [] -> (forall t, t ∈ tuples v -> t ∈ ts) -> sent v k d ts d' -> d' = <[k := v]> d.
Proof.
  intros Hc Hne Hts [Hb Hp]. assert (E : d' !! k = Some v).
  { destruct v as [b|l|x|z|h]; try done; cbn [tuples part_of] in *.
    - destruct Hp as (y & Hy & Hyx & Hty). assert (Exy : y = x).
      { apply set_eq. intros e. split; [apply Hyx|]. intros He. apply Hty, Hts, list_elem_of_fmap. exists e. split; [done|by apply elem_of_elements]. }
      subst y. destruct (d' !! k) as [[| |x'| |]|]; cbn in Hy; try done; [by injection Hy as ->|].
      injection Hy as <-. by rewrite elements_empty in Hne.
    - destruct Hp as (y & Hy & Hyz & Hty). assert (Exy : y = z).
      { apply map_subseteq_po; [done|]. apply map_subseteq_spec. intros e c He. apply Hty, Hts, list_elem_of_fmap. exists (e, c). split; [done|by apply elem_of_map_to_list]. }
      subst y. destruct (d' !! k) as [[| | |x'|]|]; cbn in Hy; try done; [by injection Hy as ->|].
      injection Hy as <-. by rewrite map_to_list_empty in Hne.
    - destruct Hp as (y & Hy & Hyz & Hty). assert (Exy : y = h).
      { apply map_subseteq_po; [done|]. apply map_subseteq_spec. intros e c He. apply Hty, Hts, list_elem_of_fmap. exists (e, c). split; [done|by apply elem_of_map_to_list]. }
      subst y. destruct (d' !! k) as [[| | | |x']|]; cbn in Hy; try done; [by injection Hy as ->|].
      injection Hy as <-. by rewrite map_to_list_empty in Hne. }
  apply map_eq. intros j. destruct (decide (j = k)) as [->|Hj]; [by rewrite E, lookup_insert_eq|].
  rewrite lookup_insert_ne by done. by apply Hb.
Qed.

Lemma sent_nothing v k d : is_collection v = true -> d !! k = None \/ d !! k = Some v -> sent v k d [] d.
Proof.
  intros Hc Hd. split; [apply but_refl|].
  destruct v as [b|l|x|z|h]; try done; destruct Hd as [-> | ->]; cbn; eexists; (split; [done|]); (split; [|intros; set_solver]);
    try done; try set_solver; apply map_empty_subseteq.
Qed.

Lemma page_same s s' : same s s' -> page s' = page s.
Proof. by intros (_ & _ & _ & ? & _). Qed.

(** Sending the parts one after another. *)
Lemma scan_loop_spec v k m c ts1 pg : is_collection v = true -> scores_ok v -> m !! k = Some v -> iteration pg c ts1 ->
  (forall t, t ∈ ts1 -> t ∈ tuples v) -> forall src dst d d' ts, holds src m -> old src = false -> page src (scan_command v) k = pg ->
  small_cursors pg -> met pg c -> 0 <= c -> holds dst d' -> sent v k d ts d' ->
  exists n0 src' dst' d'', same src src' /\ holds dst' d'' /\ sent v k d (ts ++ ts1) d'' /\
    forall n, (n0 <= n)%nat -> scan_loop n (scan_words (scan_command v) k) (send v k) src dst c = Ok (src', dst').
Proof.
  intros Hc Hsc Hk Hit. induction Hit as [c l Ep|c c' l l' Ep Hne Hit IH]; intros Hin src dst d d' ts Hm Hold Epg Hsm Hmet Hge Hd Hs;
    pose proof (Hsm c Hmet) as Hlt; pose proof (met_next pg c Hmet) as Hmet'; rewrite Ep in Hmet'; cbn [fst] in Hmet';
    pose proof (Hsm _ Hmet') as Hlt';
    pose proof (law_scan src m k v c Hm Hk Hc (cursor_u8 c (conj Hge Hlt)) Hold) as Hlaw; rewrite Epg, Ep in Hlaw; destruct Hlaw as [Hr' Hrd];
    destruct (ask_reads _ _ _ Hrd) as (src1 & Ea & Hsame).
  - destruct (send_tuples v k l dst d d' ts Hc Hsc) as (dst1 & d1 & Es & Hd1 & Hs1); [intros t Ht; by apply Hin|done|done|].
    exists 1%nat, src1, dst1, d1. split_and!; [done..|]. intros [|n] Hn; [lia|]. cbn [scan_loop]. rewrite Ea. rred.
    cbn [r_elements parts is_array is_string]. rred. rewrite Es. rred. rewrite word_string, strtol_cursor by lia. done.
  - destruct (send_tuples v k l dst d d' ts Hc Hsc) as (dst1 & d1 & Es & Hd1 & Hs1); [intros t Ht; apply Hin, elem_of_app; by left|done|done|].
    destruct (IH ltac:(intros t Ht; apply Hin, elem_of_app; by right) src1 dst1 d d1 (ts ++ l)) as (n0 & src2 & dst2 & d2 & Hsame2 & Hd2 & Hs2 & Hn2);
      [by apply Hsame|by destruct Hsame as (_ & _ & -> & _)|by rewrite (page_same _ _ Hsame)|done|done|lia|done|done|].
    exists (Datatypes.S n0), src2, dst2, d2. split_and!; [by eapply same_trans|done|by rewrite <- app_assoc in Hs2|].
    intros [|n] Hn; [lia|]. cbn [scan_loop]. rewrite Ea. rred. cbn [r_elements parts is_array is_string]. rred. rewrite Es. rred.
    rewrite word_string, strtol_cursor by lia. rewrite (proj2 (Z.eqb_neq _ _)) by done. apply Hn2. lia.
Qed.

(** A collection that is sent lands in the destination, in parts or at once. *)
Definition lands (n0 : nat) (run : nat -> res (S * S)) src (d : database) : Prop :=
  exists src' dst', same src src' /\ holds dst' d /\ forall n, (n0 <= n)%nat -> run n = Ok (src', dst').

Lemma scores_law v k m src : holds src m -> m !! k = Some v -> scores_ok v.
Proof. intros Hm Hk. destruct v as [b|l|x|z|h]; cbn; [done..| |done]. intros e c He. by apply (law_scores src m k z e c). Qed.

Lemma full_law v k m src : holds src m -> m !! k = Some v -> is_collection v = true -> tuples v <> [].
Proof. intros Hm Hk Hc. pose proof (law_full src m k v Hm Hk). by destruct v. Qed.

Lemma scan_collection v k m src dst d : holds src m -> old src = false -> small_cursors (page src (scan_command v) k) -> holds dst d -> m !! k = Some v -> is_collection v = true ->
  d !! k = None \/ d !! k = Some v ->
  exists n0, lands n0 (fun n => scan_loop n (scan_words (scan_command v) k) (send v k) src dst 0) src (<[k := v]> d).
Proof.
  intros Hm Hold Hsm Hd Hk Hc Hdk. destruct (law_scan_all src m k v Hm Hk Hc) as (ts & Hit & Hts).
  pose proof (scores_law v k m src Hm Hk) as Hsc.
  destruct (scan_loop_spec v k m 0 ts _ Hc Hsc Hk Hit ltac:(intros t; apply Hts) src dst d d [] Hm Hold eq_refl)
    as (n0 & src' & dst' & d' & Hsame & Hd' & Hs & Hn); [done|constructor|done|done|by apply sent_nothing|].
  exists n0, src', dst'. rewrite <- (sent_all v k d _ d' Hc (full_law v k m src Hm Hk Hc) (fun t => proj2 (Hts t)) Hs). done.
Qed.

Lemma all_collection v k m src dst d : holds src m -> holds dst d -> m !! k = Some v -> is_collection v = true ->
  d !! k = None \/ d !! k = Some v ->
  exists r src' dst', ask src (all_words v k) = Ok (r, src') /\ same src src' /\ is_array r = true /\ r_elements r <> [] /\
    send v k dst (r_elements r) = Ok dst' /\ holds dst' (<[k := v]> d).
Proof.
  intros Hm Hd Hk Hc Hdk. destruct (law_all src m k v Hm Hk Hc) as (ts & P & Hrd).
  pose proof (scores_law v k m src Hm Hk) as Hsc.
  pose proof (full_law v k m src Hm Hk Hc) as Hfull.
  destruct (ask_reads _ _ _ Hrd) as (src1 & Ea & Hsame).
  destruct (send_tuples v k ts dst d d [] Hc Hsc) as (dst1 & d1 & Es & Hd1 & Hs1); [intros t; by rewrite P|done|by apply sent_nothing|].
  exists (RArray (map RString (concat ts))), src1, dst1. split_and!; [done..| |done|].
  - cbn [r_elements]. intros E. apply map_eq_nil in E. destruct ts as [|t ts]; [by apply Permutation_nil_l in P|].
    assert (Ht : t ∈ tuples v) by (rewrite <- P; by left). assert (t <> []); [|by destruct t].
    destruct v; try done; apply list_elem_of_fmap in Ht as (? & -> & _); done.
  - assert (Hts : forall t, t ∈ tuples v -> t ∈ ts) by (intros t; by rewrite P). by rewrite <- (sent_all v k d ts d1 Hc Hfull Hts Hs1).
Qed.


(** ** Lists *)

(** The first part of a list, and one round of the loop over it. *)
Lemma list_round k l m src dst d l0 : holds src m -> m !! k = Some (VList l) -> holds dst d -> as_list (d !! k) = Some l0 ->
  Forall (.≠ []) l ->
  exists src' dst' d', same src src' /\ holds dst' d' /\ but k d d' /\ as_list (d' !! k) = Some (l0 ++ take 10 l) /\
    forall n, list_loop (Datatypes.S n) src dst k 0 =
      if bool_decide (l = []) then Ok (src', dst')
      else if Z.of_nat (length (take 10 l)) <? SCAN_INC then Ok (src', dst') else list_loop n src' dst' k 0.
Proof.
  intros Hm Hk Hd Hl0 Hne. pose proof (law_lrange src m k l 0 (0 + SCAN_INC - 1) Hm Hk ltac:(done) ltac:(done)) as Hrd.
  destruct (ask_reads _ _ _ Hrd) as (src1 & Ea & Hsame). change (Z.to_nat (0 + SCAN_INC - 1 - 0 + 1)) with 10%nat in Ea.
  change (Z.to_nat 0) with O in Ea. rewrite drop_0 in Ea.
  destruct (push_each_spec k (take 10 l) dst d l0 Hd Hl0) as (dst1 & d1 & Ep & Hd1 & Hb & Hl1); [by apply Forall_take|].
  exists src1, dst1, d1. split_and!; [done..|]. intros n. cbn [list_loop]. rewrite Ea. rred. cbn [r_elements is_array]. rred.
  destruct l as [|e l]; [rewrite !bool_decide_eq_true_2 by done; by injection Ep as <-|].
  rewrite !bool_decide_eq_false_2 by done. rewrite Ep. rred. by rewrite length_map.
Qed.

Lemma list_value d d' k l : but k d d' -> as_list (d' !! k) = Some l -> l <> [] -> d' = <[k := VList l]> d.
Proof.
  intros Hb Hl Hne. apply map_eq. intros j. destruct (decide (j = k)) as [->|Hj]; [|rewrite lookup_insert_ne by done; by apply Hb].
  rewrite lookup_insert_eq. destruct (d' !! k) as [[]|]; cbn in Hl; try done; by injection Hl as <-.
Qed.

(** A short list is added to what the destination has. *)
Lemma migrate_list_spec k l m src dst d l0 : holds src m -> m !! k = Some (VList l) -> holds dst d -> as_list (d !! k) = Some l0 ->
  Forall (.≠ []) l -> Z.of_nat (length l) < SCAN_INC -> l <> [] ->
  lands 1 (fun n => migrate_list n src dst k) src (<[k := VList (l0 ++ l)]> d).
Proof.
  intros Hm Hk Hd Hl0 Hne Hlt Hnil. unfold SCAN_INC in Hlt.
  destruct (list_round k l m src dst d l0 Hm Hk Hd Hl0 Hne) as (src' & dst' & d' & Hsame & Hd' & Hb & Hl' & Hn).
  rewrite take_ge in Hl', Hn by lia. exists src', dst'. split_and!; [done| |].
  - rewrite <- (list_value d d' k _ Hb Hl'); [done|]. by intros [_ ?]%app_eq_nil.
  - intros [|n] Hn'; [lia|]. unfold migrate_list. rewrite Hn. rewrite bool_decide_eq_false_2 by done. unfold SCAN_INC. by rewrite (proj2 (Z.ltb_lt _ _)).
Qed.

(** ** Strings and keys *)

Lemma migrate_string_spec k b m src dst d : holds src m -> m !! k = Some (VString b) -> holds dst d -> b <> [] ->
  exists src' dst', same src src' /\ holds dst' (<[k := VString b]> d) /\ migrate_string src dst k = Ok (src', dst').
Proof.
  intros Hm Hk Hd Hb. destruct (ask_reads _ _ _ (law_get src m k b Hm Hk)) as (src1 & Ea & Hsame).
  destruct (law_set dst d k b Hd) as (r & dst1 & Es & Hd1). exists src1, dst1. split_and!; [done..|].
  unfold migrate_string. rewrite Ea. rred. cbn [is_string]. rred.
  assert (Hl : negb (r_len (RString b) =? 0) = true).
  { destruct (r_len (RString b) =? 0) eqn:E; [|done]. to_prop. unfold r_len in E. cbn in E. by apply blen_zero in E. }
  rewrite Hl. rred. rewrite word_string, Es. done.
Qed.

(** [type_name] has the type of every value. *)
Definition flag_of (o : option value) : Z :=
  match o with
  | None => KNONE
  | Some (VString _) => KSTRING
  | Some (VList _) => KLIST
  | Some (VSet _) => KSET
  | Some (VZset _) => KSSET
  | Some (VHash _) => KHASH
  end.

Lemma get_key_type_spec k m src : holds src m -> k <> [] ->
  exists src', same src src' /\ get_key_type src k = Ok (flag_of (m !! k), src').
Proof.
  intros Hm Hk. destruct (ask_reads _ _ _ (law_type src m k Hm)) as (src1 & Ea & Hsame). exists src1. split; [done|].
  unfold get_key_type. assert (Hl : negb (blen k =? 0) = true).
  { destruct (blen k =? 0) eqn:E; [|done]. to_prop. by apply blen_zero in E. }
  rewrite Hl. rred. rewrite Ea. rred. cbn [is_status]. rred. destruct (m !! k) as [[]|]; vm_compute; reflexivity.
Qed.

(** What can be copied: no string and no element is empty, and lists are short. *)
Definition copyable (v : value) : Prop :=
  match v with
  | VString b => b <> []
  | VList l => Forall (.≠ []) l /\ Z.of_nat (length l) < SCAN_INC
  | _ => True
  end.

(** What the destination has under the key, and what it has then. *)
Definition fits (v : value) (o : option value) : Prop :=
  match v with VString _ => True | VList _ => is_Some (as_list o) | _ => o = None \/ o = Some v end.

Definition paste (v : value) (o : option value) : value :=
  match v with VList l => VList (default [] (as_list o) ++ l) | _ => v end.

Lemma same_holds s s' m : same s s' -> holds s m -> holds s' m.
Proof. intros [H' _]. apply H'. Qed.

Lemma same_old s s' : same s s' -> old s' = old s.
Proof. by intros (_ & _ & ? & _). Qed.

Lemma lands_after n0 (run run' : nat -> res (S * S)) src src1 d : same src src1 -> (forall n, run n = run' n) -> lands n0 run' src1 d -> lands n0 run src d.
Proof.
  intros Hs E (src' & dst' & Hs' & Hd & Hn). exists src', dst'. split_and!; [by eapply same_trans|done|]. intros n Hle. rewrite E. by apply Hn.
Qed.

(** The source scans, with cursors the program can read. *)
Definition scans m src : Prop := old src = false /\ small_cursors (key_page src) /\
  forall k v, m !! k = Some v -> is_collection v = true -> small_cursors (page src (scan_command v) k).

Lemma key_page_same s s' : same s s' -> key_page s' = key_page s.
Proof. by intros (_ & _ & _ & _ & ?). Qed.

Lemma scans_same m s s' : same s s' -> scans m s -> scans m s'.
Proof. intros Hge (Ho & Hk & Hp). unfold scans. by rewrite (same_old _ _ Hge), (key_page_same _ _ Hge), (page_same _ _ Hge). Qed.

Lemma migrate_key_spec k v m src dst d : holds src m -> scans m src -> holds dst d -> m !! k = Some v -> k <> [] ->
  copyable v -> fits v (d !! k) -> exists n0, lands n0 (fun n => migrate_key n src dst k) src (<[k := paste v (d !! k)]> d).
Proof.
  intros Hm Hold Hd Hk Hne Hcp Hfit. destruct (get_key_type_spec k m src Hm Hne) as (src1 & Hsame & Et). rewrite Hk in Et.
  pose proof (same_holds _ _ _ Hsame Hm) as Hm1. pose proof (scans_same m _ _ Hsame Hold) as (Hold1 & _ & Hsm).
  specialize (Hsm k v Hk).
  destruct v as [b|l|x|z|h]; cbn [copyable fits paste flag_of] in *.
  - destruct (migrate_string_spec k b m src1 dst d Hm1 Hk Hd Hcp) as (src' & dst' & Hs' & Hd' & E). exists O, src', dst'.
    split_and!; [by eapply same_trans|done|]. intros n _. unfold migrate_key. rewrite Et. rred. done.
  - destruct Hfit as [l0 Hl0]. destruct Hcp as [Hne' Hlt]. exists 1%nat. rewrite Hl0. pose proof (law_full src m k _ Hm Hk) as Hnil.
    eapply lands_after; [done| |by apply (migrate_list_spec k l m src1 dst d l0)]. intros n. unfold migrate_key. rewrite Et. by rred.
  - destruct (scan_collection (VSet x) k m src1 dst d Hm1 Hold1 (Hsm eq_refl) Hd Hk eq_refl Hfit) as (n0 & Hl). exists n0.
    eapply lands_after; [done| |exact Hl]. intros n. unfold migrate_key. rewrite Et. by rred.
  - destruct (scan_collection (VZset z) k m src1 dst d Hm1 Hold1 (Hsm eq_refl) Hd Hk eq_refl Hfit) as (n0 & Hl). exists n0.
    eapply lands_after; [done| |exact Hl]. intros n. unfold migrate_key. rewrite Et. by rred.
  - destruct (scan_collection (VHash h) k m src1 dst d Hm1 Hold1 (Hsm eq_refl) Hd Hk eq_refl Hfit) as (n0 & Hl). exists n0.
    eapply lands_after; [done| |exact Hl]. intros n. unfold migrate_key. rewrite Et. by rred.
Qed.

Lemma migrate_key2_spec k v m src dst d : holds src m -> holds dst d -> m !! k = Some v -> k <> [] ->
  copyable v -> fits v (d !! k) -> exists n0, lands n0 (fun n => migrate_key2 n src dst k) src (<[k := paste v (d !! k)]> d).
Proof.
  intros Hm Hd Hk Hne Hcp Hfit. destruct (get_key_type_spec k m src Hm Hne) as (src1 & Hsame & Et). rewrite Hk in Et.
  pose proof (same_holds _ _ _ Hsame Hm) as Hm1.
  assert (Hcol : is_collection v = true -> d !! k = None \/ d !! k = Some v ->
    exists src' dst', same src src' /\ holds dst' (<[k := v]> d) /\ forall n, migrate_key2 n src dst k = Ok (src', dst')).
  { intros Hc Hdk. destruct (all_collection v k m src1 dst d Hm1 Hd Hk Hc Hdk) as (r & src' & dst' & Ea & Hs' & Har & Hre & Es & Hd').
    exists src', dst'. split_and!; [by eapply same_trans|done|]. intros n. unfold migrate_key2. rewrite Et. rred.
    assert (Hb : bool_decide (r_elements r = []) = false) by (by apply bool_decide_eq_false_2).
    destruct v; try done; cbn [flag_of all_words send] in *; [unfold migrate_set2|unfold migrate_sset2|unfold migrate_hashtable2]; cbn [Z.eqb KSTRING KHASH KLIST KSET KSSET Pos.eqb];
      rewrite Ea; rred; rewrite Har, ?Hb; rred; rewrite Es; done. }
  destruct v as [b|l|x|z|h]; cbn [copyable fits paste flag_of] in *.
  - destruct (migrate_string_spec k b m src1 dst d Hm1 Hk Hd Hcp) as (src' & dst' & Hs' & Hd' & E). exists O, src', dst'.
    split_and!; [by eapply same_trans|done|]. intros n _. unfold migrate_key2. rewrite Et. rred. done.
  - destruct Hfit as [l0 Hl0]. destruct Hcp as [Hne' Hlt]. exists 1%nat. rewrite Hl0. pose proof (law_full src m k _ Hm Hk) as Hnil.
    eapply lands_after; [done| |by apply (migrate_list_spec k l m src1 dst d l0)]. intros n. unfold migrate_key2. rewrite Et. by rred.
  - destruct (Hcol eq_refl Hfit) as (src' & dst' & ? & ? & E). exists O, src', dst'. by split_and!.
  - destruct (Hcol eq_refl Hfit) as (src' & dst' & ? & ? & E). exists O, src', dst'. by split_and!.
  - destruct (Hcol eq_refl Hfit) as (src' & dst' & ? & ? & E). exists O, src', dst'. by split_and!.
Qed.

(** ** Databases *)

(** How often a key is listed. *)
Definition times (k : bytes) (ks : list bytes) : nat := length (filter (.= k) ks).

(** What the destination has after the keys were copied. *)
Definition expected m (ks : list bytes) k : option value :=
  match times k ks with
  | O => None
  | n => match m !! k with Some (VList l) => Some (VList (concat (replicate n l))) | o => o end
  end.

Definition copied m (ks : list bytes) d : Prop := forall k, d !! k = expected m ks k.

Definition copyable_db m : Prop := forall k v, m !! k = Some v -> k <> [] /\ copyable v.

Lemma times_app k ks ks' : times k (ks ++ ks') = (times k ks + times k ks')%nat.
Proof. unfold times. by rewrite filter_app, length_app. Qed.

Lemma times_one k j : times k [j] = if decide (j = k) then 1%nat else O.
Proof. unfold times. rewrite filter_cons. by case_decide. Qed.

Lemma copied_fits m ks d k v : copied m ks d -> m !! k = Some v -> fits v (d !! k).
Proof.
  intros Hd Hk. rewrite (Hd k). unfold expected. rewrite Hk. destruct (times k ks), v; cbn; eauto.
Qed.

Lemma concat_replicate_end {A} n (l : list A) : concat (replicate (Datatypes.S n) l) = concat (replicate n l) ++ l.
Proof. rewrite replicate_S_end, concat_app. cbn. by rewrite app_nil_r. Qed.

Lemma copied_key m ks d k v : copied m ks d -> m !! k = Some v -> copied m (ks ++ [k]) (<[k := paste v (d !! k)]> d).
Proof.
  intros Hd Hk j. unfold expected. rewrite times_app, times_one. destruct (decide (k = j)) as [<-|Hj].
  - rewrite lookup_insert_eq, Hk, (Hd k). unfold expected. rewrite Hk, Nat.add_1_r. destruct v as [b|l|x|z|h]; try done.
    cbn [paste]. rewrite concat_replicate_end. by destruct (times k ks).
  - rewrite lookup_insert_ne, (Hd j), Nat.add_0_r by done. done.
Qed.

(** Copying keys one after another, for either way of copying one. *)
Lemma migrate_keys_spec (mig : nat -> S -> S -> bytes -> res (S * S)) m (o : S -> Prop) :
  (forall s s', same s s' -> o s -> o s') -> copyable_db m ->
  (forall k v src dst d, holds src m -> o src -> holds dst d -> m !! k = Some v -> k <> [] -> copyable v -> fits v (d !! k) ->
     exists n0, lands n0 (fun n => mig n src dst k) src (<[k := paste v (d !! k)]> d)) ->
  forall ks ks0 src dst d, holds src m -> o src -> holds dst d -> (forall k, k ∈ ks -> k ∈ dom m) -> copied m ks0 d ->
  exists n0 d', copied m (ks0 ++ ks) d' /\ lands n0 (fun n => migrate_keys (mig n) src dst (map RString ks)) src d'.
Proof.
  intros Hsm Hok Hmig. induction ks as [|k ks IH]; intros ks0 src dst d Hm Ho Hd Hin Hc; cbn [migrate_keys map].
  - exists O, d. rewrite app_nil_r. split; [done|]. exists src, dst. split_and!; [apply same_refl|done..].
  - assert (Hk : k ∈ dom m) by (apply Hin; by left). apply elem_of_dom in Hk as [v Hk]. destruct (Hok k v Hk) as [Hne Hcp].
    destruct (Hmig k v src dst d Hm Ho Hd Hk Hne Hcp (copied_fits _ _ _ _ _ Hc Hk)) as (n1 & src1 & dst1 & Hs1 & Hd1 & Hn1).
    destruct (IH (ks0 ++ [k]) src1 dst1 _ (same_holds _ _ _ Hs1 Hm) (Hsm _ _ Hs1 Ho) Hd1
      ltac:(intros j Hj; apply Hin; by right) (copied_key _ _ _ _ _ Hc Hk)) as (n2 & d' & Hc' & src2 & dst2 & Hs2 & Hd2 & Hn2).
    exists (max n1 n2), d'. split; [by rewrite <- app_assoc in Hc'|]. exists src2, dst2. split_and!; [by eapply same_trans|done|].
    intros n Hn. rewrite word_string, Hn1 by lia. rred. apply Hn2. lia.
Qed.

Lemma not_unknown_scan l : unknown_scan (RArray l) = false.
Proof. done. Qed.

(** The loop over the parts of the keys. *)
Lemma db_loop_spec m c ks pg src_db dst_db : copyable_db m -> iteration pg c ks -> (forall k, k ∈ ks -> k ∈ dom m) ->
  forall ks0 src dst d, holds src m -> scans m src -> key_page src = pg -> met pg c -> 0 <= c -> holds dst d -> copied m ks0 d ->
  exists n0 d', copied m (ks0 ++ ks) d' /\ lands n0 (fun n => db_loop n src dst src_db dst_db c) src d'.
Proof.
  intros Hok Hit. induction Hit as [c l Ep|c c' l l' Ep Hne Hit IH]; intros Hin ks0 src dst d Hm Hold Epg Hmet Hge Hd Hc;
    pose proof Hold as (Hnew & Hsm & _); rewrite Epg in Hsm;
    pose proof (Hsm c Hmet) as Hlt; pose proof (met_next pg c Hmet) as Hmet'; rewrite Ep in Hmet'; cbn [fst] in Hmet';
    pose proof (Hsm _ Hmet') as Hlt';
    pose proof (law_scan_keys src m c Hm (cursor_u8 c (conj Hge Hlt)) Hnew) as Hlaw; rewrite Epg, Ep in Hlaw; destruct Hlaw as [Hr' Hrd];
    destruct (ask_reads _ _ _ Hrd) as (src1 & Ea & Hsame); pose proof (same_holds _ _ _ Hsame Hm) as Hm1;
    pose proof (scans_same m _ _ Hsame Hold) as Hold1.
  - destruct (migrate_keys_spec migrate_key m (scans m) (scans_same m) Hok (fun k v src dst d => migrate_key_spec k v m src dst d) l ks0 src1 dst d Hm1 Hold1 Hd)
      as (n1 & d1 & Hc1 & src2 & dst2 & Hs2 & Hd2 & Hn2); [done..|].
    exists (Datatypes.S n1), d1. split; [done|]. exists src2, dst2. split_and!; [by eapply same_trans|done|].
    intros [|n] Hn; [lia|]. cbn [db_loop]. rewrite Ea. rred. unfold parts at 1. rewrite not_unknown_scan.
    cbn [r_elements parts is_array is_string]. rred. rewrite Hn2 by lia. rred. by rewrite word_string, strtol_cursor by lia.
  - destruct (migrate_keys_spec migrate_key m (scans m) (scans_same m) Hok (fun k v src dst d => migrate_key_spec k v m src dst d) l ks0 src1 dst d Hm1 Hold1 Hd)
      as (n1 & d1 & Hc1 & src2 & dst2 & Hs2 & Hd2 & Hn2); [intros k Hk; apply Hin, elem_of_app; by left|done|].
    destruct (IH ltac:(intros k Hk; apply Hin, elem_of_app; by right) (ks0 ++ l) src2 dst2 d1) as (n3 & d3 & Hc3 & src3 & dst3 & Hs3 & Hd3 & Hn3);
      [by eapply same_holds|by eapply scans_same|by rewrite (key_page_same _ _ Hs2), (key_page_same _ _ Hsame)|done|lia|done|done|].
    exists (Datatypes.S (max n1 n3)), d3. split; [by rewrite <- app_assoc in Hc3|]. exists src3, dst3.
    split_and!; [eapply same_trans; [done|]; by eapply same_trans|done|].
    intros [|n] Hn; [lia|]. cbn [db_loop]. rewrite Ea. rred. unfold parts at 1. rewrite not_unknown_scan.
    cbn [r_elements parts is_array is_string]. rred. rewrite Hn2 by lia. rred. rewrite word_string, strtol_cursor by lia.
    rewrite (proj2 (Z.eqb_neq _ _)) by done. apply Hn3. lia.
Qed.

Lemma select_db_spec s m : stored s m -> exists s', select_db s (db s) = (0, s') /\ holds s' m /\ db s' = db s /\ old s' = old s /\
  page s' = page s /\ key_page s' = key_page s.
Proof. intros Hs. destruct (law_select s m Hs) as (s' & E & Hm & Hdb & Ho). exists s'. unfold select_db. by rewrite E. Qed.

Lemma get_key_num_spec s m : stored s m ->
  exists s', get_key_num s (db s) = Ok (Z.of_nat (size m), s') /\ holds s' m /\ db s' = db s /\ old s' = old s /\
    page s' = page s /\ key_page s' = key_page s.
Proof.
  intros Hs. destruct (select_db_spec s m Hs) as (s1 & E & Hm & Hdb & Ho & Hp & Hkp). destruct (ask_reads _ _ _ (law_dbsize s1 m Hm)) as (s2 & Ea & Hsame).
  exists s2. unfold get_key_num. rewrite E. cbn [Z.eqb negb]. rewrite Ea. rred. cbn [is_integer]. rred.
  destruct Hsame as (Hh & Hdb' & Ho' & Hp' & Hkp'). split_and!; [done|by apply Hh|congruence..].
Qed.

Lemma copied_nothing m : copied m [] ∅.
Proof. intros k. by rewrite lookup_empty. Qed.

Lemma size_positive m : m <> ∅ -> (Z.of_nat (size m) <=? 0) = false.
Proof. intros Hm. apply Z.leb_gt. apply map_size_non_empty_iff in Hm. lia. Qed.

Lemma migrate_db2_spec src dst m : copyable_db m -> m <> ∅ -> stored src m -> stored dst ∅ ->
  exists ks n0 src' dst' d', ks ≡ₚ elements (dom m) /\ holds src' m /\ holds dst' d' /\ copied m ks d' /\
    forall n, (n0 <= n)%nat -> migrate_db2 n src dst (db src) (db dst) = Ok (src', dst').
Proof.
  intros Hok Hne Hs Hd. destruct (get_key_num_spec src m Hs) as (src1 & En & Hm1 & _ & _).
  destruct (select_db_spec dst ∅ Hd) as (dst1 & Es & Hd1 & _ & _).
  destruct (law_keys src1 m Hm1) as (ks & P & Hrd). destruct (ask_reads _ _ _ Hrd) as (src2 & Ea & Hsame).
  destruct (migrate_keys_spec migrate_key2 m (fun _ => True) (fun _ _ _ _ => I) Hok (fun k v src dst d Hm _ => migrate_key2_spec k v m src dst d Hm) ks [] src2 dst1 ∅)
    as (n0 & d' & Hc & src3 & dst3 & Hs3 & Hd3 & Hn3); [by eapply same_holds|done|done|intros k Hk; rewrite P in Hk; by apply elem_of_elements|apply copied_nothing|].
  exists ks, n0, src3, dst3, d'. split_and!; [done|eapply same_holds; [done|]; by eapply same_holds|done|done|].
  intros n Hn. unfold migrate_db2. rewrite En. rred. rewrite size_positive by done. rewrite Es, Ea. rred. by apply Hn3.
Qed.

End Copy.

End MigrateSpec.
