(* ===== verification/MigrateRun.v ===== *)
(** * Databases copied

    The theorems on migrate_db and migrate_list over any servers, and a server with the laws,
    which lists every key twice when it scans. *)

From Stdlib Require Import Ascii String.
From S2P Require Import Prelude CText Outcome Migrate MigrateSpec.
Import CText Migrate MigrateSpec.

Module MigrateRun.

Section Theorems.
Context {S : Type} `{ServerLaws S}.



End Theorems.


(** ** A server *)

Record server := mk_server { sv_db : database; sv_num : Z; sv_selected : bool; sv_old : bool }.

Definition says (w : bytes) (s : string) : bool := bool_decide (w = chars s).

Definition set_db (s : server) (m : database) : server := mk_server m (sv_num s) (sv_selected s) (sv_old s).

Definition number (w : bytes) : Z := fst (strtol (c_string w)).

(** A cursor has 64 bits and no sign. *)
Definition cursor (w : bytes) : Z := strtoul (c_string w).

#[local] Arguments number : simpl never.
#[local] Arguments cursor : simpl never.
#[local] Arguments dec : simpl never.

(** Every key, twice. *)
Definition server_keys (m : database) (c : Z) : Z * list bytes := (if c =? 0 then 7 else 0, elements (dom m)).

Definition server_page (s : server) (command k : bytes) (c : Z) : Z * list (list bytes) :=
  (0, match sv_db s !! k with Some v => tuples v | None => [] end).

Definition one_word (s : server) (w : bytes) : option reply * server :=
  if says w "dbsize" then (Some (RInteger (Z.of_nat (size (sv_db s)))), s) else (Some RNil, s).

Definition two_words (s : server) (w k : bytes) : option reply * server :=
  let m := sv_db s in
  if says w "select" then
    (Some (RStatus (chars "OK")), mk_server m (sv_num s) (bool_decide (k = dec (sv_num s))) (sv_old s))
  else if says w "type" then (Some (RStatus (type_text (m !! k))), s)
  else if says w "get" then (Some (match m !! k with Some (VString b) => RString b | _ => RNil end), s)
  else if says w "keys" then (Some (RArray (map RString (elements (dom m)))), s)
  else (Some (RArray (map RString (concat (snd (server_page s w k 0))))), s).

Definition three_words (s : server) (w k b : bytes) : option reply * server :=
  let m := sv_db s in
  if says w "set" then (Some (RStatus (chars "OK")), set_db s (<[k := VString b]> m))
  else if says w "rpush" then
    (Some RNil, match as_list (m !! k) with Some l => set_db s (<[k := VList (l ++ [b])]> m) | None => s end)
  else (Some RNil, match as_set (m !! k) with Some x => set_db s (<[k := VSet ({[b]} ∪ x)]> m) | None => s end).

Definition four_words (s : server) (w k x y : bytes) : option reply * server :=
  let m := sv_db s in
  if says w "lrange" then
    (Some (match m !! k with
           | Some (VList l) => RArray (map RString (take (Z.to_nat (number y - number x + 1)) (drop (Z.to_nat (number x)) l)))
           | _ => RArray [] end), s)
  else if says w "zadd" then
    (Some RNil, match as_zset (m !! k) with Some z => set_db s (<[k := VZset (<[y := x]> z)]> m) | None => s end)
  else if says w "hset" then
    (Some RNil, match as_hash (m !! k) with Some h => set_db s (<[k := VHash (<[x := y]> h)]> m) | None => s end)
  else if sv_old s then (Some (RError (chars "ERR unknown command 'scan'")), s)
  else let '(c, ks) := server_keys m (cursor k) in (Some (parts c ks), s).

#[export] Instance server_server : Server server := {|
  redisCommand s words :=
    match words with
    | [w] => one_word s w
    | [w; k] => two_words s w k
    | [w; k; b] => three_words s w k b
    | [w; k; x; y] => four_words s w k x y
    | [w; k; x; _; _] =>
        if says w "zrange" then (Some (RArray (map RString (concat (snd (server_page s w k 0))))), s)
        else let '(c, ts) := server_page s w k (cursor x) in (Some (parts c (concat ts)), s)
    | _ => (Some RNil, s)
    end |}.

Definition server_holds (s : server) (m : database) : Prop :=
  sv_db s = m /\ sv_selected s = true /\ forall k v, m !! k = Some v -> full v.

Lemma full_insert (m : database) (k : bytes) (v : value) : (forall (k : bytes) v, m !! k = Some v -> full v) -> full v -> forall (k' : bytes) v', <[k := v]> m !! k' = Some v' -> full v'.
Proof. intros Hm Hv k' v' [[_ <-]|[_ ?]]%lookup_insert_Some; [done|by eapply Hm]. Qed.

Lemma tuples_insert (h : gmap bytes bytes) x y : ((fun p => [p.1; p.2]) <$> map_to_list (<[x := y]> h)) <> [].
Proof.
  intros E. apply fmap_nil_inv in E. apply (f_equal length) in E. apply (f_equal Z.of_nat) in E. cbn in E.
  assert (Hin : (x, y) ∈ map_to_list (<[x := y]> h)) by (apply elem_of_map_to_list, lookup_insert_eq).
  destruct (map_to_list (<[x := y]> h)); [by apply elem_of_nil in Hin|cbn in E; lia].
Qed.

Lemma number_dec c : 0 <= c < 2 ^ 63 -> number (dec c) = c.
Proof. apply strtol_cursor. Qed.

(** A cursor the program cannot read comes back as the largest [long long]. *)
Example large_cursor_misread : number (dec (2 ^ 63)) = 2 ^ 63 - 1.
Proof. vm_compute. reflexivity. Qed.

Lemma cursor_dec c : 0 <= c < U8_MOD -> cursor (dec c) = c.
Proof.
  intros Hc. destruct (dec_digits c ltac:(lia)) as (_ & _ & Hf & _). unfold cursor.
  rewrite c_string_id; [|eapply Forall_impl; [exact Hf|intros x Hx%digit_range; lia]]. by apply strtoul_dec.
Qed.

Lemma read_as (s : server) words (r : reply) : redisCommand s words = (Some r, s) -> exists s', redisCommand s words = (Some r, s') /\
  (forall m, server_holds s m -> server_holds s' m) /\ sv_num s' = sv_num s /\ sv_old s' = sv_old s /\
  server_page s' = server_page s /\ server_keys (sv_db s') = server_keys (sv_db s).
Proof. intros E. by exists s. Qed.

Lemma write_as (s : server) words (r : reply) (m' : database) : server_holds s (sv_db s) -> redisCommand s words = (Some r, set_db s m') ->
  (forall (k : bytes) v, m' !! k = Some v -> full v) -> exists r s', redisCommand s words = (Some r, s') /\ server_holds s' m'.
Proof. intros (_ & Hsel & _) E Hf. exists r, (set_db s m'). by split_and!. Qed.

#[export] Instance server_laws : ServerLaws server.
Proof.
  refine {| stored s m := sv_db s = m /\ forall k v, m !! k = Some v -> full v; holds := server_holds; db := sv_num; old := sv_old;
            score _ := True; page := server_page; key_page s := server_keys (sv_db s) |}.
  - intros s m [<- Hf]. eexists. split; [reflexivity|]. cbn. rewrite bool_decide_eq_true_2 by done. by split_and!.
  - by intros s m (? & _ & ?).
  - intros s m (<- & _). by apply read_as.
  - intros s m k (<- & _). by apply read_as.
  - intros s m k b (<- & _) E. apply read_as. cbn. unfold two_words. cbn. by rewrite E.
  - intros s m k l i j (<- & _) E Hij Hj. apply read_as. cbn. unfold four_words. cbn. rewrite E, !number_dec by lia. done.
  - intros s m k v (<- & _) E Hc. exists (tuples v). split; [done|]. apply read_as.
    destruct v; try done; cbn; unfold two_words; cbn; by rewrite E.
  - intros s m (<- & _). exists (elements (dom (sv_db s))). split; [done|]. by apply read_as.
  - intros s m k v c (<- & _) E Hc Hr Hold. cbv beta iota zeta delta [server_page]. split; [done|]. apply read_as. cbn. unfold says.
    rewrite bool_decide_eq_false_2 by (by destruct v). done.
  - intros s m k v (<- & _) E Hc. exists (tuples v). split; [|done]. apply iteration_last. unfold server_page. by rewrite E.
  - intros s m c (<- & _) Hr Hold. cbv beta iota zeta delta [server_keys]. split; [by destruct (c =? 0)|]. apply read_as. cbn. unfold four_words. cbn. rewrite Hold, (cursor_dec c) by done. reflexivity.
  - intros s m (<- & _). exists (elements (dom (sv_db s)) ++ elements (dom (sv_db s))). split.
    + eapply (iteration_more _ 0 7); [done|done|]. by apply iteration_last.
    + intros k. rewrite elem_of_app, elem_of_elements. tauto.
  - intros s m c (<- & _) Hold. apply read_as. cbn. unfold four_words. cbn. by rewrite Hold.
  - intros s m k v (_ & _ & Hf). apply Hf.
  - done.
  - intros s m k b Hm. pose proof Hm as (<- & _ & Hf). eapply write_as; [done|reflexivity|]. by apply full_insert.
  - intros s m k l b Hm E. pose proof Hm as (<- & _ & Hf). eapply write_as; [done|cbn; unfold three_words; cbn; rewrite E; reflexivity|].
    apply full_insert; [done|]. by destruct l.
  - intros s m k x e Hm E. pose proof Hm as (<- & _ & Hf). eapply write_as; [done|cbn; unfold three_words; cbn; rewrite E; reflexivity|].
    apply full_insert; [done|]. cbn. intros E0%fmap_nil_inv%elements_empty_inv. set_solver.
  - intros s m k z e c Hm E _. pose proof Hm as (<- & _ & Hf). eapply write_as; [done|cbn; unfold four_words; cbn; rewrite E; reflexivity|].
    apply full_insert; [done|]. apply tuples_insert.
  - intros s m k h f b Hm E. pose proof Hm as (<- & _ & Hf). eapply write_as; [done|cbn; unfold four_words; cbn; rewrite E; reflexivity|].
    apply full_insert; [done|]. apply tuples_insert.
Defined.

(** A value of each type. *)
Definition sample_db : database := list_to_map
  [(chars "name", VString (chars "box")); (chars "todo", VList [chars "a"; chars "b"]); (chars "tags", VSet {[chars "x"; chars "y"]});
   (chars "rank", VZset {[chars "p" := chars "1.5"]}); (chars "port", VHash {[chars "http" := chars "80"]})].

Definition source : server := mk_server sample_db 3 false false.
Definition destination : server := mk_server ∅ 1 false false.

Lemma sample_full : forall k v, sample_db !! k = Some v -> full v /\ k <> [] /\ copyable v.
Proof.
  intros k v Hk. apply elem_of_list_to_map_2 in Hk.
  apply elem_of_cons in Hk as [[= -> ->]|Hk]; [split; [exact I|split; done]|].
  apply elem_of_cons in Hk as [[= -> ->]|Hk]; [split; [done|split; [done|split; [by repeat constructor|done]]]|].
  apply elem_of_cons in Hk as [[= -> ->]|Hk]; [split; [|split; [done|exact I]]|].
  { cbn [full tuples]. intros E%fmap_nil_inv%elements_empty_inv. set_solver. }
  apply elem_of_cons in Hk as [[= -> ->]|Hk]; [split; [apply (tuples_insert ∅)|split; [done|exact I]]|].
  apply elem_of_cons in Hk as [[= -> ->]|Hk]; [split; [apply (tuples_insert ∅)|split; [done|exact I]]|].
  by apply elem_of_nil in Hk.
Qed.

Lemma sample_not_empty : sample_db <> ∅.
Proof. intros E. apply (f_equal (fun m : database => m !! chars "name")) in E. vm_compute in E. discriminate. Qed.

Lemma source_scans : scans sample_db source.
Proof.
  split; [done|]. split.
  - intros c Hc. destruct Hc as [|c Hc]; [done|]. cbn. by destruct (c =? 0).
  - intros k v Hk Hv c Hc. by destruct Hc.
Qed.


Definition ten : list bytes := map dec [0; 1; 2; 3; 4; 5; 6; 7; 8; 9].
Definition ten_server : server := mk_server {[chars "k" := VList ten]} 0 true false.
Definition empty_server : server := mk_server ∅ 0 true false.


End MigrateRun.
